(* ===== verification/_CoqProject ===== *)
-Q . S2P
Prelude.v
BTree.v
Text.v
Capability.v
ScopeCheck.v
Normalize.v
Package.v
Grants.v
Wire.v
Protocol.v
Lifecycle.v
Events.v
Executor.v
Resources.v
Runtime.v
Trail.v
Supervisor.v
Payload.v
SchemaDesktop.v
SchemaFiles.v
SchemaNet.v
Schema.v
Address.v
Quota.v
Web.v
Desktop.v
Personal.v
Files.v
Dbus.v
Command.v
Http.v
Narrowing.v
Layout.v
LayoutSpec.v
Model.v
Profiles.v
ProfilesSpec.v
Config.v
ConfigSpec.v
LiveProfiles.v
LiveProfilesSpec.v
Presentation.v
PresentationSpec.v
Hardware.v
Float.v
Router.v
Dispatch.v
DispatchSpec.v
Manifest.v
ManifestSpec.v
Catalog.v
Surfaces.v
ContentSpec.v
CatalogSpec.v
Bar.v
Touch.v
Daemon.v
Scanout.v
Posix.v
Mutation.v
Tree.v
Memory.v
MutationSpec.v
Confine.v
Reads.v
Upload.v
UploadSpec.v
Meter.v
