(* ===== verification/Prelude.v ===== *)
(** * TouchBar: a verification library

    This development models, in Rocq, the parts of the TouchBar workspace
    that decide: what a plugin may do and who carries it out (the permission
    policy, the supervisor that brokers every request, its wire formats, the
    backends that act on the desktop), what the bar shows (composition and
    layout) and who drives the hardware (the daemon that lends the panel to a
    session, decodes touches and types keys).  It is a
    shallow embedding: pure functions are functions, [Result] is the monad
    [result] of this file, mutable state is passed explicitly, threads and
    event loops are labelled steps.

    ** The program and its model

    A package states the permissions it wants in its manifest; the user's
    decisions are kept as grant records; both give the effective policy.  A
    supervisor process holds the policy of one component, answers its requests
    over a socket, dispatches them to backend threads, keeps the resources
    they open and forwards events.  The session composes the bar
    of the current context from the profiles and draws the items where the
    layout puts them.  The hardware daemon owns the panel, the touch screen and
    a virtual keyboard; it shows a fallback bar of system keys and lends its
    framebuffers to one session at a time, over a socket.

    - [crates/touchbar-policy], [crates/touchbar-package]: [Capability]
      (identifiers, scopes, [is_subset_of], risk), [ScopeCheck] (scope
      validation), [Normalize] (manifest permissions), [Package] (package
      identity), [Manifest] (the manifest and its validation),
      [ManifestSpec] (what a valid manifest is), [Grants] (records, the grant store, the effective policy,
      permission diffs), [Text] and [BTree] (the string, set and map
      operations they use).
    - [crates/touchbar-protocol/src/broker_ipc.rs]: [Wire] (messages),
      [Protocol] (encoder and decoder).
    - [crates/touchbar-broker-schema]: [Payload] (primitives), [SchemaDesktop],
      [SchemaFiles], [SchemaNet] (one encoder and decoder per payload),
      [Schema] (their common theorems).
    - [crates/touchbar-plugin-supervisor]: [Lifecycle] (activation ledger,
      operations and resources), [Events] (event queue, component health),
      [Executor] (backend threads), [Resources] (streams and their manager),
      [Runtime] (their composition), [Trail] (audit log), [Supervisor] (the
      connection); [Address] (network address policy), [Quota] (durable
      rolling quota) and the backends: [Web] and [Http], [Desktop]
      (notifications, URIs), [Personal] (clipboard, secrets, context facts,
      local sockets), [Files] (admission of reading and writing, appearance),
      [Dbus], [Command]; [Narrowing] joins all backends behind [admits].
      The file backends go on to what they do: [Posix] (programs over system
      calls, the helpers that open paths beneath a mount), [Mutation] (the six
      mutations), [Upload] (files written in chunks), [Reads] (parts of files,
      directories, streams); [Tree] (what the calls promise), [Memory] (a
      kernel in memory), and the theorems in [MutationSpec], [UploadSpec],
      [Confine] (any kernel at all) and [Meter] (termination).
    - [crates/touchbar-layout]: [Layout] (the whole of [resolve]),
      [LayoutSpec] (its theorems).
    - [crates/touchbar-model]: [Model] (context predicates, the active chain,
      the registry and its composition), [Profiles] (contributions, profiles,
      their composition and the controller), [ProfilesSpec] (its theorems).
    - [crates/touchbar-profile-config]: [Config] (the document a user writes,
      its validation and translation into a catalog), [ConfigSpec].
    - [crates/touchbar-sessiond]: [LiveProfiles] (the profiles of the running
      session), [Catalog] (the bars, profiles and appearance providers of the
      installed packages), [Surfaces] (the bar presented for an item),
      [Presentation] (popovers and expanded content), [Router] (hit
      testing and capture), [Dispatch] (delivery and cancellation of touches,
      removal of surfaces), with the theorems in [LiveProfilesSpec],
      [CatalogSpec], [ContentSpec], [PresentationSpec], [Router] and
      [DispatchSpec].
    - [crates/touchbar-protocol/src/hardware_ipc.rs]: [Hardware] (messages, the
      swapchain header and its descriptors).
    - [crates/touchbar-system-bar]: [Bar] (layers, buttons, key counts).
    - [crates/touchbard]: [Touch] (multitouch decoder, contacts that wake the
      panel), [Daemon] (keyboard, backlight, recovery gesture, the loops that
      wait for and serve a session, and their program logic), [Scanout] (the
      theorems on the service); [Float] (the [f32] and [f64] operations of
      both, through [SpecFloat]).

    A definition has the name of the Rust item it models, in the Module or file
    of its component.

    ** Interfaces

    Code outside the repository is an interface, and the theorems hold for
    every instance: [SemVer], [ScopeCodec] and [StoreCodec] (serde and toml),
    [UrlCrate] (url), [HttpWorld] (resolver and HTTP client, threaded with a
    log of its actions), [Backend] and [ResourceBackend] (what the executor
    and the resource manager ask of a backend), [Libc] (constants of socket
    control messages), [DaemonWorld] (the outcome of each effect on a device,
    and the clock), [Kernel] (system calls; [SaneKernel] and
    [PromisingKernel] add what the theorems rely on).  Each has a concrete instance
    in the file that uses it for the witnesses.  Clocks, file outcomes,
    cancellation answers and transports are arguments of the operations.

    ** What is proved

    - Authority: every request is answered exactly once and in fresh order;
      no state changes without a granted capability, a valid phase and
      activation; replacing the policy revokes what it withdraws
      ([Supervisor]).  The effective policy is exactly what records and
      package allow, and an update asks for consent exactly when it widens a
      scope ([Grants]); a validated scope that covers another admits every request
      the other admits, but for URI scopes without origins ([Narrowing]); the
      order of scopes is a preorder, risk is
      monotone, validation decides its specification ([Capability],
      [ScopeCheck], [Normalize]).
    - Accounting: executor, lifecycle and resource manager agree on what runs
      and what is open, revocation leaves nothing behind, jobs complete
      exactly once and all drain, cancelled jobs never succeed, streams keep
      their order and close once, activations are used once, rates and quotas
      hold in every window ([Runtime], [Executor], [Resources], [Lifecycle],
      [Events], [Quota]).
    - Formats: every message and payload decodes to what was encoded and
      every decoded payload satisfies the limits ([Protocol], [Schema],
      [Grants]).
    - Backends: the address filter equals its table of blocks, every
      connection of an HTTP request goes to an allowed address within the
      redirect and size limits, command lines follow their rule.
    - Files: a mutation or an upload either changes nothing that is seen or
      does exactly what was asked for, whichever calls fail ([MutationSpec],
      [UploadSpec]); with other processes at work it still stays beneath its
      mount, touches only its targets and its own temporary files, syncs
      before it renames, and leaves behind only what it could not remove or had
      to put back ([Confine]); listings are complete, streams are the
      file's bytes in order ([Reads]).
    - Model: the active chain is the winner of each scope; composing never
      panics and fails only for the reasons the validation leaves; the
      controller always shows, or holds back during a touch, what the effective
      profile composes to ([Model], [ProfilesSpec]).
    - Packages: validation decides the specification of manifests
      ([ManifestSpec]); a bar a valid manifest declares is laid out whole in
      its declared minimum width ([ContentSpec]).
    - Session: a document that validates builds and its identities do not
      clash ([ConfigSpec]); packaged profiles give way to the user's rules
      unless a priority leaves no room below it ([CatalogSpec]); the bar never changes under a finger
      ([LiveProfilesSpec]); presented content loses and doubles no item
      ([PresentationSpec]); a surface hears each contact as the touch protocol
      has it, except for the ends withheld when a contact ends where it did not
      begin or is not routed ([DispatchSpec]).
    - Hardware: both directions of the hardware protocol read back what was
      sent and nothing else ([Hardware]); every key is pressed and released in
      turn ([Bar], [Daemon]), every contact is reported once and ends once
      ([Touch]), a buffer on the panel is neither flipped in again nor released,
      whatever an earlier session left there, and only the user
      active on the seat is lent the hardware ([Scanout]).
    - Layout: [resolve] never panics; placements are in order, inside the bar
      and within each item's limits; what is hidden is the least; the loops
      terminate ([LayoutSpec]).

    ** Bounds and fuel

    Unsigned integers are [N] with saturating, checked and wrapping
    operations written out, signed ones [Z]; an [f64] that is only carried is its
    bit pattern, one that is computed with a [spec_float];
    [usize] has 64 bits.  Only loops without a structural measure take fuel:
    [Layout.grow_loop] takes the number of pixels to hand out, and
    [grow_widths_terminates] shows it is enough; the redirect loops of [Http]
    take the redirect limit of the code itself; the loops over system calls
    take [rounds], and [mutation_terminates] and [stream_file_streams] show
    that more rounds than interrupted calls and bytes are enough.  A panic is
    [None], or [Panic] in a program of [Posix].

    ** Not modelled, and why

    System calls and other processes: sockets, polling, eventfd, the files of
    the stores and their locks, cgroups, process creation, D-Bus and Wayland transports, the GPU.
    The rest of the session daemon (the compositor), the plugin host, the
    toolkit, the command line and the demos are mostly such effects, as are the
    diagnostic commands of the hardware daemon and its opening of devices.

    ** This file

    Rust's [Result] as a monad, fixed-width unsigned arithmetic on [N],
    sorting, and the tactics, hints and list lemmas every component uses. *)

From stdpp Require Export base sets list strings option numbers decidable relations.
From Stdlib Require Export Lia.
From Stdlib Require Import Sorted.


(** ** Rust's [Result<A, E>] *)

Inductive result (E A : Type) : Type :=
| Ok (a : A)
| Err (e : E).
Arguments Ok {E A} a.
Arguments Err {E A} e.

#[export] Instance result_ret E : MRet (result E) := fun _ a => Ok a.
#[export] Instance result_bind E : MBind (result E) := fun _ _ k m =>
  match m with Ok a => k a | Err e => Err e end.

#[export] Instance result_eq_dec {E A} `{EqDecision E, EqDecision A} :
  EqDecision (result E A).
Proof. solve_decision. Defined.

Definition is_ok {E A} (r : result E A) : bool :=
  match r with Ok _ => true | Err _ => false end.

(** [option::ok_or]. *)
Definition ok_or {E A} (e : E) (o : option A) : result E A :=
  match o with Some a => Ok a | None => Err e end.

(** [Result::map_err]. *)
Definition map_err {E F A} (f : E -> F) (r : result E A) : result F A :=
  match r with Ok a => Ok a | Err e => Err (f e) end.

(** The guard [if c { return Err(e) }]. *)
Definition reject_if {E} (c : bool) (e : E) : result E () :=
  if c then Err e else Ok ().

Lemma bind_Ok {E A B} (m : result E A) (k : A -> result E B) b :
  m ≫= k = Ok b <-> exists a, m = Ok a /\ k a = Ok b.
Proof. destruct m as [a|e]; simpl; split; naive_solver. Qed.

Lemma bind_Err {E A B} (m : result E A) (k : A -> result E B) e :
  m ≫= k = Err e <-> m = Err e \/ exists a, m = Ok a /\ k a = Err e.
Proof. destruct m as [a|e']; simpl; split; naive_solver. Qed.

Lemma ok_or_Ok {E A} (e : E) (o : option A) a : ok_or e o = Ok a <-> o = Some a.
Proof. destruct o; simpl; naive_solver. Qed.

Lemma map_err_Ok {E F A} (f : E -> F) (r : result E A) a :
  map_err f r = Ok a <-> r = Ok a.
Proof. destruct r; simpl; naive_solver. Qed.

Lemma reject_if_Ok {E} c (e : E) u : reject_if c e = Ok u <-> c = false.
Proof. destruct u, c; simpl; naive_solver. Qed.

Lemma reject_if_Err {E} c (e e' : E) : reject_if c e = Err e' <-> c = true /\ e = e'.
Proof. destruct c; simpl; naive_solver. Qed.

Lemma Ok_inj {E A} (a b : A) : @Ok E A a = Ok b -> a = b.
Proof. congruence. Qed.

Lemma is_ok_true {E A} (r : result E A) : is_ok r = true <-> exists a, r = Ok a.
Proof. destruct r; simpl; naive_solver. Qed.

(** Passing one step of a sequence of fallible steps. *)
Lemma bind_step {E A B} (m : result E A) a (k : A -> result E B) r :
  m = Ok a -> k a = r -> m ≫= k = r.
Proof. by intros -> <-. Qed.

Lemma reject_step {E B} c (e : E) (k : () -> result E B) r :
  c = false -> k () = r -> reject_if c e ≫= k = r.
Proof. by intros -> <-. Qed.

(** Resolution hints of the whole development, and rewriting databases. *)
Create HintDb touchbar.
Create Rewrite HintDb rust.
Create Rewrite HintDb len.
Create Rewrite HintDb b2p.
#[export] Hint Rewrite @bind_Ok @ok_or_Ok @map_err_Ok @reject_if_Ok : rust.

(** Decompose a hypothesis saying that a sequence of fallible steps succeeded. *)
Ltac inv_ok :=
  repeat match goal with
  | H : _ ≫= _ = Ok _ |- _ =>
      let a := fresh "a" in let H1 := fresh "Hok" in
      apply bind_Ok in H as (a & H1 & H)
  | H : reject_if _ _ = Ok _ |- _ => apply reject_if_Ok in H
  | H : ok_or _ _ = Ok _ |- _ => apply ok_or_Ok in H
  | H : map_err _ _ = Ok _ |- _ => apply map_err_Ok in H
  | H : Ok _ = Ok _ |- _ => injection H as H
  | H : mret _ = Ok _ |- _ => injection H as H
  | H : Err _ = Ok _ |- _ => discriminate H
  | H : Ok _ = Err _ |- _ => discriminate H
  end; subst.

(** ** Loops that stop at the first error *)

Definition mapR {E A B} (f : A -> result E B) : list A -> result E (list B) :=
  fix go l :=
    match l with
    | [] => Ok []
    | a :: l' => b ← f a; bs ← go l'; Ok (b :: bs)
    end.

Lemma mapR_Ok {E A B} (f : A -> result E B) l bs :
  mapR f l = Ok bs <-> Forall2 (fun a b => f a = Ok b) l bs.
Proof.
  revert bs; induction l as [|a l IH]; intros bs; simpl.
  - split; [intros [= <-]; constructor | by inversion 1].
  - rewrite bind_Ok. setoid_rewrite bind_Ok. split.
    + intros (b & Hb & bs' & Hbs & [= <-]). constructor; [done | by apply IH].
    + inversion 1; subst. naive_solver.
Qed.

Fixpoint foldR {E A S} (f : S -> A -> result E S) (s : S) (l : list A) : result E S :=
  match l with
  | [] => Ok s
  | a :: l' => s' ← f s a; foldR f s' l'
  end.

Lemma foldR_ind {E A S} (P : S -> Prop) (f : S -> A -> result E S) l s s' :
  (forall s0 a s1, a ∈ l -> P s0 -> f s0 a = Ok s1 -> P s1) ->
  P s -> foldR f s l = Ok s' -> P s'.
Proof.
  revert s; induction l as [|a l IH]; simpl; intros s Hstep Hs Hf; [by inv_ok|].
  apply bind_Ok in Hf as (s1 & H1 & H2). eapply (IH s1); [|eapply Hstep; try done; set_solver|done].
  intros; eapply Hstep; try done. set_solver.
Qed.

(** ** Stable sorting, [slice::sort_by] *)

Section SortBy.
Context {A : Type} (le : A -> A -> bool).

Fixpoint insert_by (a : A) (l : list A) : list A :=
  match l with
  | [] => [a]
  | b :: l' => if le a b then a :: l else b :: insert_by a l'
  end.

(** Inserting from the back keeps equal elements in their order. *)
Definition sort_by (l : list A) : list A := foldr insert_by [] l.

Lemma insert_by_perm a l : insert_by a l ≡ₚ a :: l.
Proof.
  induction l as [|b l IH]; simpl; [done|]. destruct (le a b); [done|].
  rewrite IH. by apply Permutation_swap.
Qed.

Lemma sort_by_perm l : sort_by l ≡ₚ l.
Proof. induction l as [|a l IH]; simpl; [done|]. by rewrite insert_by_perm, IH. Qed.
End SortBy.

(** ** Fixed-width unsigned integers

    [u8], [u16], [u32], [u64] and [usize] (64 bits) are [N]; the operations
    that can leave the range say what Rust does there. *)

Definition u8_max : N := 255.
Definition u16_max : N := 65535.
Definition u32_max : N := 4294967295.
Definition u64_max : N := 18446744073709551615.

Definition sat_add64 (a b : N) : N := N.min u64_max (a + b).
Definition sat_sub (a b : N) : N := (a - b)%N.
Definition sat_mul64 (a b : N) : N := N.min u64_max (a * b).
Definition checked_add64 (a b : N) : option N :=
  if decide (a + b <= u64_max)%N then Some (a + b)%N else None.
Definition wrap_add64 (a b : N) : N := ((a + b) mod 2 ^ 64)%N.

Lemma checked_add64_Some a b c :
  checked_add64 a b = Some c <-> (a + b <= u64_max)%N /\ c = (a + b)%N.
Proof. unfold checked_add64. case_decide; naive_solver. Qed.

Lemma checked_add64_None a b : checked_add64 a b = None <-> (u64_max < a + b)%N.
Proof. unfold checked_add64. case_decide; split; naive_solver lia. Qed.

(** [usize] lengths of lists, as [N]. *)
Definition len {A} (l : list A) : N := N.of_nat (length l).
Arguments len {A} l : simpl never.

Lemma len_nil {A} : len (@nil A) = 0%N.
Proof. done. Qed.
Lemma len_cons {A} (a : A) l : len (a :: l) = (1 + len l)%N.
Proof. unfold len; simpl; lia. Qed.
Lemma len_app {A} (l k : list A) : len (l ++ k) = (len l + len k)%N.
Proof. unfold len; rewrite length_app; lia. Qed.
#[export] Hint Rewrite @len_nil @len_cons @len_app : len.

(** ** Booleans and their propositions *)

#[export] Hint Rewrite andb_true_iff orb_true_iff negb_true_iff bool_decide_eq_true
  andb_false_iff orb_false_iff negb_false_iff bool_decide_eq_false : b2p.

Tactic Notation "b2p" := autorewrite with b2p in *.

Lemma forallb_True' {A} (f : A -> bool) l :
  forallb f l = true <-> forall x, x ∈ l -> f x = true.
Proof. rewrite forallb_forall. by setoid_rewrite <- list_elem_of_In. Qed.

Lemma existsb_True' {A} (f : A -> bool) l :
  existsb f l = true <-> exists x, x ∈ l /\ f x = true.
Proof. rewrite existsb_exists. by setoid_rewrite <- list_elem_of_In. Qed.

Lemma existsb_False' {A} (f : A -> bool) l :
  existsb f l = false <-> forall x, x ∈ l -> f x = false.
Proof.
  rewrite <- not_true_iff_false, existsb_True'. setoid_rewrite <- not_true_iff_false. naive_solver.
Qed.

(** Sum of a list of [N]. *)
Definition sumN (l : list N) : N := foldr N.add 0%N l.

Lemma sumN_app l k : sumN (l ++ k) = (sumN l + sumN k)%N.
Proof. induction l; simpl; [done | lia]. Qed.

Lemma sumN_perm l k : l ≡ₚ k -> sumN l = sumN k.
Proof. induction 1; simpl; lia. Qed.

Lemma and_iff_compat_l2 (A B C : Prop) : (A -> B <-> C) -> A /\ B <-> A /\ C.
Proof. tauto. Qed.

(** ** Membership tests on listed sets *)

Definition elem_b {A} `{EqDecision A} (x : A) (s : list A) : bool := bool_decide (x ∈ s).
Definition subset_b {A} `{EqDecision A} (s t : list A) : bool :=
  forallb (fun x => elem_b x t) s.

Section SubsetFacts.
Context {A} `{EqDecision A}.
Implicit Types s t u : list A.

Lemma elem_b_spec x s : elem_b x s = true <-> x ∈ s.
Proof. apply bool_decide_eq_true. Qed.

Lemma subset_b_spec s t : subset_b s t = true <-> s ⊆ t.
Proof. unfold subset_b. rewrite forallb_True'. by setoid_rewrite elem_b_spec. Qed.

Lemma subset_b_refl s : subset_b s s = true.
Proof. by apply subset_b_spec. Qed.

Lemma subset_b_trans s t u :
  subset_b s t = true -> subset_b t u = true -> subset_b s u = true.
Proof. rewrite !subset_b_spec. set_solver. Qed.
End SubsetFacts.

#[export] Hint Rewrite @elem_b_spec @subset_b_spec : b2p.
#[export] Hint Resolve subset_b_refl : touchbar.
