(* ===== verification/BTree.v ===== *)
(** * Ordered containers: [BTreeMap] and [BTreeSet]

    The program iterates its maps and sets in key order, so both are modelled
    by the in-order listing of their entries: a map is an association list
    and a set is a list, strictly ascending for the key type's [Ord].  The
    operations below keep the listing ascending ([sorted_insert],
    [sorted_remove]); lookups are by key. *)

From S2P Require Import Prelude.
From stdpp Require Import sorting.
From Stdlib Require Import Ascii.
From Stdlib Require String.

(** ** [Ord] *)

Class Ord (A : Type) := cmp : A -> A -> comparison.

Class OrdLaws (A : Type) `{Ord A} := {
  cmp_eq x y : cmp x y = Eq <-> x = y;
  cmp_antisym x y : cmp y x = CompOpp (cmp x y);
  cmp_lt_trans x y z : cmp x y = Lt -> cmp y z = Lt -> cmp x z = Lt;
}.

Section OrdFacts.
Context {A} `{OrdLaws A}.

Lemma cmp_refl (x : A) : cmp x x = Eq.
Proof. by apply cmp_eq. Qed.

Lemma cmp_gt_lt (x y : A) : cmp x y = Gt <-> cmp y x = Lt.
Proof. rewrite (cmp_antisym x y). by destruct (cmp x y). Qed.

Lemma cmp_lt_irrefl (x : A) : cmp x x <> Lt.
Proof. by rewrite cmp_refl. Qed.

Lemma cmp_lt_ne (x y : A) : cmp x y = Lt -> x <> y.
Proof. intros Hlt ->. by rewrite cmp_refl in Hlt. Qed.

Lemma cmp_ne (x y : A) : x <> y -> cmp x y <> Eq.
Proof. by rewrite cmp_eq. Qed.

#[export] Instance ord_eq_dec : EqDecision A.
Proof.
  intros x y. destruct (cmp x y) eqn:E; [left; by apply cmp_eq | right | right];
    intros ->; by rewrite cmp_refl in E.
Defined.
End OrdFacts.
#[global] Remove Hints ord_eq_dec : typeclass_instances.

#[export] Instance N_ord : Ord N := N.compare.
#[export] Instance N_ord_laws : OrdLaws N.
Proof.
  split; unfold cmp, N_ord; intros.
  - apply N.compare_eq_iff.
  - apply N.compare_antisym.
  - rewrite N.compare_lt_iff in *. lia.
Qed.

#[export] Instance Z_ord : Ord Z := Z.compare.
#[export] Instance Z_ord_laws : OrdLaws Z.
Proof.
  split; unfold cmp, Z_ord; intros.
  - apply Z.compare_eq_iff.
  - apply Z.compare_antisym.
  - rewrite Z.compare_lt_iff in *. lia.
Qed.

(** Byte strings compare lexicographically, as [str] does. *)
#[export] Instance string_ord : Ord string := String.compare.

Lemma ascii_compare_lt_trans a b c :
  Ascii.compare a b = Lt -> Ascii.compare b c = Lt -> Ascii.compare a c = Lt.
Proof. unfold Ascii.compare. rewrite !N.compare_lt_iff. lia. Qed.

Lemma ascii_compare_eq a b : Ascii.compare a b = Eq <-> a = b.
Proof.
  unfold Ascii.compare. rewrite N.compare_eq_iff. split; [|by intros ->].
  intros Heq. by rewrite <- (ascii_N_embedding a), <- (ascii_N_embedding b), Heq.
Qed.

Lemma string_compare_lt_trans (x y z : string) :
  String.compare x y = Lt -> String.compare y z = Lt -> String.compare x z = Lt.
Proof.
  revert y z; induction x as [|a x IH]; intros [|b y] [|c z]; simpl; try done.
  destruct (Ascii.compare a b) eqn:Hab, (Ascii.compare b c) eqn:Hbc; try done;
    repeat match goal with H : Ascii.compare _ _ = Eq |- _ => apply ascii_compare_eq in H; subst end.
  - assert (Ascii.compare c c = Eq) as -> by by apply ascii_compare_eq. apply IH.
  - by rewrite Hbc.
  - by rewrite Hab.
  - by rewrite (ascii_compare_lt_trans _ _ _ Hab Hbc).
Qed.

#[export] Instance string_ord_laws : OrdLaws string.
Proof.
  split; unfold cmp, string_ord.
  - intros x y. split; [apply String.compare_eq_iff | intros ->].
    pose proof (String.compare_antisym y y) as Hr. by destruct (y ?= y)%string.
  - intros; apply String.compare_antisym.
  - apply string_compare_lt_trans.
Qed.

(** Tuples compare lexicographically. *)
#[export] Instance prod_ord {A B} `{Ord A, Ord B} : Ord (A * B) := fun p q =>
  match cmp p.1 q.1 with Eq => cmp p.2 q.2 | c => c end.

Lemma prod_cmp {A B} `{Ord A, Ord B} (a a' : A) (b b' : B) :
  cmp (a, b) (a', b') = match cmp a a' with Eq => cmp b b' | c => c end.
Proof. done. Qed.

#[export] Instance prod_ord_laws {A B} `{OrdLaws A, OrdLaws B} : OrdLaws (A * B).
Proof.
  split.
  - intros [a b] [a' b']. rewrite prod_cmp. destruct (cmp a a') eqn:E.
    + apply cmp_eq in E as ->. rewrite cmp_eq. naive_solver.
    + apply cmp_lt_ne in E. naive_solver.
    + apply cmp_gt_lt, cmp_lt_ne in E. naive_solver.
  - intros [a b] [a' b']. rewrite !prod_cmp, (cmp_antisym a a').
    destruct (cmp a a'); simpl; try done. apply cmp_antisym.
  - intros [a b] [a' b'] [a'' b'']. rewrite !prod_cmp.
    destruct (cmp a a') eqn:E1; [|..|done].
    + apply cmp_eq in E1 as ->. destruct (cmp a' a''); [eauto using cmp_lt_trans|done|done].
    + intros _. destruct (cmp a' a'') eqn:E2; [|..|done].
      * apply cmp_eq in E2 as ->. by rewrite E1.
      * by rewrite (cmp_lt_trans _ _ _ E1 E2).
Qed.

(** A type embedded injectively in an ordered one inherits its order: this is
    how a derived [Ord] on an enum (variant rank, then payload) is given. *)
Lemma ord_laws_inj {A B} `{OrdLaws B} `{!Ord A} (f : A -> B) :
  Inj (=) (=) f -> (forall x y, cmp x y = cmp (f x) (f y)) -> OrdLaws A.
Proof.
  intros Hinj Hf. split; intros; rewrite ?Hf in *.
  - rewrite cmp_eq. split; [apply Hinj | by intros ->].
  - apply cmp_antisym.
  - eauto using cmp_lt_trans.
Qed.

(** ** Sets *)

Section Sets.
Context {A} `{Ord A}.

(** [BTreeSet::contains]. *)
Fixpoint set_contains (x : A) (s : list A) : bool :=
  match s with
  | [] => false
  | y :: s' => match cmp x y with Eq => true | _ => set_contains x s' end
  end.

(** [BTreeSet::insert]: [true] when the value was not there. *)
Fixpoint set_add (x : A) (s : list A) : list A :=
  match s with
  | [] => [x]
  | y :: s' =>
      match cmp x y with Lt => x :: s | Eq => s | Gt => y :: set_add x s' end
  end.
Definition set_insert (x : A) (s : list A) : list A * bool :=
  (set_add x s, negb (set_contains x s)).

Definition set_remove (x : A) (s : list A) : list A :=
  List.filter (fun y => match cmp x y with Eq => false | _ => true end) s.

(** [collect::<BTreeSet<_>>()]. *)
Definition set_of (l : list A) : list A := fold_left (fun s x => set_add x s) l [].

(** The listing is strictly ascending. *)
Fixpoint ascending (l : list A) : Prop :=
  match l with
  | [] => True
  | x :: l' => Forall (fun y => cmp x y = Lt) l' /\ ascending l'
  end.
End Sets.

Section SetFacts.
Context {A} `{OrdLaws A}.
Implicit Types (x y : A) (s t : list A).

Lemma set_contains_spec x s : set_contains x s = true <-> x ∈ s.
Proof.
  induction s as [|y s IH]; simpl; [split; [done | by intros ?%elem_of_nil]|].
  rewrite elem_of_cons. destruct (cmp x y) eqn:E.
  - apply cmp_eq in E. naive_solver.
  - rewrite IH. apply cmp_lt_ne in E. naive_solver.
  - rewrite IH. apply cmp_gt_lt, cmp_lt_ne in E. naive_solver.
Qed.

Lemma set_contains_false x s : set_contains x s = false <-> x ∉ s.
Proof. rewrite <- set_contains_spec. by destruct (set_contains x s). Qed.

Lemma elem_of_set_add x y s : y ∈ set_add x s <-> y = x \/ y ∈ s.
Proof.
  induction s as [|z s IH]; simpl; [set_solver|].
  destruct (cmp x z) eqn:E; [apply cmp_eq in E as ->| |]; set_solver.
Qed.

Lemma elem_of_set_remove x y s : y ∈ set_remove x s <-> y <> x /\ y ∈ s.
Proof.
  unfold set_remove. rewrite list_elem_of_In, filter_In, <- list_elem_of_In.
  destruct (cmp x y) eqn:E.
  - apply cmp_eq in E. naive_solver.
  - apply cmp_lt_ne in E. naive_solver.
  - apply cmp_gt_lt, cmp_lt_ne in E. naive_solver.
Qed.

Lemma elem_of_set_of x l : x ∈ set_of l <-> x ∈ l.
Proof.
  unfold set_of. assert (forall s, x ∈ fold_left (fun s x => set_add x s) l s <-> x ∈ s \/ x ∈ l)
    as Hgen; [|rewrite Hgen; set_solver].
  induction l as [|y l IH]; intros s; simpl; [set_solver|].
  rewrite IH, elem_of_set_add. set_solver.
Qed.

Lemma ascending_add x s : ascending s -> ascending (set_add x s).
Proof.
  induction s as [|y s IH]; simpl; [by repeat constructor|]. intros [Hy Hs].
  destruct (cmp x y) eqn:E; simpl; [done| |].
  - split; [|done]. constructor; [done|].
    eapply Forall_impl; [done|]. intros z Hz. eauto using cmp_lt_trans.
  - split; [|by apply IH]. apply Forall_forall. intros z [->|Hz]%elem_of_set_add.
    + by apply cmp_gt_lt.
    + rewrite Forall_forall in Hy. by apply Hy.
Qed.

Lemma ascending_filter (f : A -> bool) s : ascending s -> ascending (List.filter f s).
Proof.
  induction s as [|y s IH]; simpl; [done|]. intros [Hy Hs].
  destruct (f y); simpl; [|by apply IH]. split; [|by apply IH].
  apply Forall_forall. intros z. rewrite list_elem_of_In, filter_In, <- list_elem_of_In.
  rewrite Forall_forall in Hy. naive_solver.
Qed.

Lemma ascending_remove x s : ascending s -> ascending (set_remove x s).
Proof. apply ascending_filter. Qed.

Lemma ascending_set_of l : ascending (set_of l).
Proof.
  unfold set_of. assert (forall s, ascending s -> ascending (fold_left (fun s x => set_add x s) l s))
    as Hgen; [|by apply Hgen].
  induction l as [|y l IH]; intros s Hs; simpl; [done|]. by apply IH, ascending_add.
Qed.

Lemma ascending_NoDup s : ascending s -> NoDup s.
Proof.
  induction s as [|x s IH]; simpl; constructor; [|naive_solver].
  destruct H1 as [Hx _]. rewrite Forall_forall in Hx.
  intros Hin. by apply (cmp_lt_irrefl x), Hx.
Qed.

(** Ascending listings are canonical: equality of sets is equality of lists. *)
Lemma ascending_ext s t : ascending s -> ascending t -> (forall x, x ∈ s <-> x ∈ t) -> s = t.
Proof.
  revert t; induction s as [|x s IH]; intros [|y t]; simpl; try done.
  - intros _ _ Hext. exfalso. assert (y ∈ []) by (apply Hext; set_solver). set_solver.
  - intros _ _ Hext. exfalso. assert (x ∈ []) by (apply Hext; set_solver). set_solver.
  - intros [Hx Hs] [Hy Ht] Hext. rewrite Forall_forall in Hx, Hy.
    assert (x = y) as ->.
    { assert (x ∈ y :: t) as Hin by (apply Hext; set_solver).
      assert (y ∈ x :: s) as Hin' by (apply Hext; set_solver).
      apply elem_of_cons in Hin as [?|Hin], Hin' as [?|Hin']; try done.
      exfalso. apply (cmp_lt_irrefl x). eauto using cmp_lt_trans. }
    f_equal. apply IH; [done..|]. intros z. specialize (Hext z). split; intros Hz.
    + assert (z ∈ y :: t) as [->|?]%elem_of_cons by (apply Hext; set_solver); [|done].
      by apply Hx, cmp_lt_irrefl in Hz.
    + assert (z ∈ y :: s) as [->|?]%elem_of_cons by (apply Hext; set_solver); [|done].
      by apply Hy, cmp_lt_irrefl in Hz.
Qed.
End SetFacts.

(** ** Maps *)

Section Maps.
Context {K V : Type} `{Ord K}.
Implicit Types (m : list (K * V)).

(** [BTreeMap::get]. *)
Fixpoint bt_get (k : K) m : option V :=
  match m with
  | [] => None
  | (k', v) :: m' => match cmp k k' with Eq => Some v | _ => bt_get k m' end
  end.

Definition bt_contains (k : K) m : bool := match bt_get k m with Some _ => true | None => false end.

(** [BTreeMap::insert]: the new map; the replaced value is [bt_get k m]. *)
Fixpoint bt_insert (k : K) (v : V) m : list (K * V) :=
  match m with
  | [] => [(k, v)]
  | (k', v') :: m' =>
      match cmp k k' with
      | Lt => (k, v) :: m
      | Eq => (k, v) :: m'
      | Gt => (k', v') :: bt_insert k v m'
      end
  end.

(** [BTreeMap::remove]: the new map; the removed value is [bt_get k m]. *)
Definition bt_remove (k : K) m : list (K * V) :=
  List.filter (fun e => match cmp k e.1 with Eq => false | _ => true end) m.

(** Update in place through [get_mut]. *)
Definition bt_update (k : K) (f : V -> V) m : list (K * V) :=
  List.map (fun e => match cmp k e.1 with Eq => (e.1, f e.2) | _ => e end) m.

Definition bt_keys m : list K := m.*1.
Definition bt_values m : list V := m.*2.

(** The entries are in strictly ascending key order. *)
Definition bt_sorted m : Prop := ascending (bt_keys m).
End Maps.

Section MapFacts.
Context {K V : Type} `{OrdLaws K}.
Implicit Types (m : list (K * V)).

Lemma bt_get_insert k k' v m :
  bt_get k' (bt_insert k v m) = match cmp k' k with Eq => Some v | _ => bt_get k' m end.
Proof.
  induction m as [|[j w] m IH]; simpl.
  - by destruct (cmp k' k).
  - destruct (cmp k j) eqn:E; simpl.
    + apply cmp_eq in E as ->. by destruct (cmp k' j).
    + by destruct (cmp k' k).
    + rewrite IH. destruct (cmp k' j) eqn:E', (cmp k' k) eqn:E''; try done.
      apply cmp_eq in E' as ->, E'' as ->. by rewrite cmp_refl in E.
Qed.

Lemma bt_get_insert_eq k v m : bt_get k (bt_insert k v m) = Some v.
Proof. by rewrite bt_get_insert, cmp_refl. Qed.

Lemma bt_get_insert_ne k k' v m : k' <> k -> bt_get k' (bt_insert k v m) = bt_get k' m.
Proof. intros Hne%cmp_ne. rewrite bt_get_insert. by destruct (cmp k' k). Qed.

Lemma bt_get_remove k k' m :
  bt_get k' (bt_remove k m) = match cmp k' k with Eq => None | _ => bt_get k' m end.
Proof.
  induction m as [|[j w] m IH]; simpl; [by destruct (cmp k' k)|].
  destruct (cmp k j) eqn:E; simpl.
  - apply cmp_eq in E as ->. rewrite IH. by destruct (cmp k' j).
  - rewrite IH. destruct (cmp k' j) eqn:E', (cmp k' k) eqn:E''; try done.
    apply cmp_eq in E' as ->, E'' as ->. by rewrite cmp_refl in E.
  - rewrite IH. destruct (cmp k' j) eqn:E', (cmp k' k) eqn:E''; try done.
    apply cmp_eq in E' as ->, E'' as ->. by rewrite cmp_refl in E.
Qed.

Lemma bt_get_remove_eq k m : bt_get k (bt_remove k m) = None.
Proof. by rewrite bt_get_remove, cmp_refl. Qed.

Lemma bt_get_remove_ne k k' m : k' <> k -> bt_get k' (bt_remove k m) = bt_get k' m.
Proof. intros Hne%cmp_ne. rewrite bt_get_remove. by destruct (cmp k' k). Qed.

Lemma bt_get_elem k v m : bt_get k m = Some v -> (k, v) ∈ m.
Proof.
  induction m as [|[j w] m IH]; simpl; [done|].
  destruct (cmp k j) eqn:E; [|set_solver..].
  apply cmp_eq in E as ->. intros [= ->]. set_solver.
Qed.

Lemma bt_get_None k m : bt_get k m = None <-> k ∉ bt_keys m.
Proof.
  induction m as [|[j w] m IH]; simpl; [set_solver|].
  destruct (cmp k j) eqn:E.
  - apply cmp_eq in E as ->. set_solver.
  - apply cmp_lt_ne in E. set_solver.
  - apply cmp_gt_lt, cmp_lt_ne in E. set_solver.
Qed.

Lemma elem_bt_get k v m : bt_sorted m -> (k, v) ∈ m -> bt_get k m = Some v.
Proof.
  unfold bt_sorted. induction m as [|[j w] m IH]; simpl; [set_solver|].
  intros [Hj Hs] [[= -> ->]|Hin]%elem_of_cons; [by rewrite cmp_refl|].
  rewrite Forall_forall in Hj. destruct (cmp k j) eqn:E; [|by apply IH..].
  apply cmp_eq in E as ->. exfalso. apply (cmp_lt_irrefl j), Hj.
  apply list_elem_of_fmap. by exists (j, v).
Qed.

Lemma bt_get_iff k v m : bt_sorted m -> bt_get k m = Some v <-> (k, v) ∈ m.
Proof. intros. split; [apply bt_get_elem|by apply elem_bt_get]. Qed.

Lemma elem_of_bt_insert e k v m : e ∈ bt_insert k v m -> e = (k, v) \/ e ∈ m.
Proof.
  induction m as [|[j w] m IH]; simpl; [set_solver|].
  destruct (cmp k j); set_solver.
Qed.

Lemma elem_of_bt_remove e k m : e ∈ bt_remove k m <-> e.1 <> k /\ e ∈ m.
Proof.
  unfold bt_remove. rewrite list_elem_of_In, filter_In, <- list_elem_of_In.
  destruct (cmp k e.1) eqn:E.
  - apply cmp_eq in E. naive_solver.
  - apply cmp_lt_ne in E. naive_solver.
  - apply cmp_gt_lt, cmp_lt_ne in E. naive_solver.
Qed.

Lemma bt_keys_insert k v m : bt_keys (bt_insert k v m) = set_add k (bt_keys m).
Proof.
  induction m as [|[j w] m IH]; simpl; [done|].
  destruct (cmp k j) eqn:E; simpl; [|done|by rewrite IH].
  by apply cmp_eq in E as ->.
Qed.

Lemma bt_keys_remove k m : bt_keys (bt_remove k m) = set_remove k (bt_keys m).
Proof.
  induction m as [|[j w] m IH]; simpl; [done|].
  unfold bt_remove, set_remove in *; simpl. destruct (cmp k j); simpl; by rewrite IH.
Qed.

Lemma bt_keys_update k f m : bt_keys (bt_update k f m) = bt_keys m.
Proof.
  induction m as [|[j w] m IH]; [done|]. simpl.
  destruct (cmp k j); simpl; f_equal; exact IH.
Qed.

Lemma bt_get_update k k' f m :
  bt_get k' (bt_update k f m) =
    match cmp k' k with Eq => f <$> bt_get k' m | _ => bt_get k' m end.
Proof.
  induction m as [|[j w] m IH]; simpl; [by destruct (cmp k' k)|].
  destruct (cmp k j) eqn:E; simpl.
  - apply cmp_eq in E as ->. rewrite IH. by destruct (cmp k' j).
  - rewrite IH. destruct (cmp k' j) eqn:E', (cmp k' k) eqn:E''; try done.
    apply cmp_eq in E' as ->, E'' as ->. by rewrite cmp_refl in E.
  - rewrite IH. destruct (cmp k' j) eqn:E', (cmp k' k) eqn:E''; try done.
    apply cmp_eq in E' as ->, E'' as ->. by rewrite cmp_refl in E.
Qed.

Lemma bt_sorted_insert k v m : bt_sorted m -> bt_sorted (bt_insert k v m).
Proof. unfold bt_sorted. rewrite bt_keys_insert. apply ascending_add. Qed.

Lemma bt_sorted_remove k m : bt_sorted m -> bt_sorted (bt_remove k m).
Proof. unfold bt_sorted. rewrite bt_keys_remove. apply ascending_remove. Qed.

Lemma bt_sorted_update k f m : bt_sorted m -> bt_sorted (bt_update k f m).
Proof. unfold bt_sorted. by rewrite bt_keys_update. Qed.

Lemma bt_contains_spec k m : bt_contains k m = true <-> k ∈ bt_keys m.
Proof.
  unfold bt_contains. destruct (bt_get k m) as [v|] eqn:E; simpl.
  - split; [|done]. intros _. apply bt_get_elem in E.
    apply list_elem_of_fmap. by exists (k, v).
  - apply bt_get_None in E. naive_solver.
Qed.

Lemma bt_contains_false k m : bt_contains k m = false <-> bt_get k m = None.
Proof. unfold bt_contains. by destruct (bt_get k m). Qed.

Lemma length_bt_insert_fresh k v m :
  bt_get k m = None -> length (bt_insert k v m) = S (length m).
Proof.
  induction m as [|[j w] m IH]; simpl; [done|].
  destruct (cmp k j); simpl; [done..|]. intros. by rewrite IH.
Qed.

Lemma length_bt_insert k v m : length (bt_insert k v m) <= S (length m).
Proof. induction m as [|[j w] m IH]; simpl; [done|]. destruct (cmp k j); simpl; lia. Qed.

Lemma length_bt_remove k m : length (bt_remove k m) <= length m.
Proof. apply filter_length_le. Qed.

(** Two sorted maps with the same lookups are the same listing. *)
Lemma bt_ext m1 m2 :
  bt_sorted m1 -> bt_sorted m2 -> (forall k, bt_get k m1 = bt_get k m2) -> m1 = m2.
Proof.
  revert m2; induction m1 as [|[k v] m1 IH]; intros [|[k' v'] m2] Hs1 Hs2 Hext; [done| | |].
  - specialize (Hext k'). simpl in Hext. by rewrite cmp_refl in Hext.
  - specialize (Hext k). simpl in Hext. by rewrite cmp_refl in Hext.
  - destruct Hs1 as [Hk Hs1], Hs2 as [Hk' Hs2]. rewrite Forall_forall in Hk, Hk'.
    assert (k = k') as ->.
    { pose proof (Hext k) as H1. pose proof (Hext k') as H2. simpl in H1, H2.
      rewrite cmp_refl in H1, H2. rewrite (cmp_antisym k k') in H2.
      destruct (cmp k k') eqn:E; [by apply cmp_eq in E| |]; simpl in H2.
      - symmetry in H1. apply bt_get_elem, (list_elem_of_fmap_2 fst), Hk' in H1. simpl in H1.
        by rewrite (cmp_antisym k' k), H1 in E.
      - apply bt_get_elem, (list_elem_of_fmap_2 fst), Hk in H2. simpl in H2. by rewrite H2 in E. }
    assert (v = v') as ->.
    { specialize (Hext k'). simpl in Hext. rewrite cmp_refl in Hext. by injection Hext. }
    f_equal. apply IH; [done..|]. intros j. specialize (Hext j). simpl in Hext.
    destruct (cmp j k') eqn:E; [|done..]. apply cmp_eq in E as ->. trans (@None V); [|symmetry];
      apply bt_get_None; intros Hin; [by apply Hk, cmp_lt_irrefl in Hin | by apply Hk', cmp_lt_irrefl in Hin].
Qed.
End MapFacts.

#[export] Hint Resolve bt_sorted_insert bt_sorted_remove bt_sorted_update
  ascending_add ascending_remove ascending_set_of : touchbar.

(** ** [sort_by] with a key comparison, and loops that insert into a set *)

Definition key_le {A K} `{Ord K} (key : A -> K) (a b : A) : bool :=
  match cmp (key a) (key b) with Gt => false | _ => true end.

(** A loop that inserts [key a] into a [BTreeSet] when there is one and tells
    the body whether the insertion was new. *)
Fixpoint each_inserted {A K B} `{Ord K} (key : A -> option K) (body : bool -> A -> list B)
  (seen : list K) (l : list A) : list B :=
  match l with
  | [] => []
  | a :: l' =>
      match key a with
      | None => body false a ++ each_inserted key body seen l'
      | Some k =>
          let '(seen', fresh) := set_insert k seen in
          body fresh a ++ each_inserted key body seen' l'
      end
  end.

Section KeyFacts.
Context {A K B : Type} `{OrdLaws K}.

Lemma insert_by_ascending (key : A -> K) a l :
  ascending (key <$> l) -> key a ∉ key <$> l ->
  ascending (key <$> insert_by (key_le key) a l).
Proof.
  induction l as [|b l IH]; simpl; [done|]. intros [Hb Hl] Hna.
  apply not_elem_of_cons in Hna as [Hab Hna]. unfold key_le at 1.
  destruct (cmp (key a) (key b)) eqn:E; simpl.
  - by apply cmp_eq in E.
  - split; [|done]. constructor; [done|]. eapply Forall_impl; [done|]. intros k Hk.
    by eapply cmp_lt_trans.
  - split; [|by apply IH]. apply Forall_forall. intros k Hk.
    apply list_elem_of_fmap in Hk as (c & -> & Hc). rewrite insert_by_perm in Hc.
    apply elem_of_cons in Hc as [->|Hc]; [by rewrite <- cmp_gt_lt|].
    rewrite Forall_forall in Hb. apply Hb. by apply list_elem_of_fmap_2.
Qed.

Lemma sort_by_ascending (key : A -> K) l :
  NoDup (key <$> l) -> ascending (key <$> sort_by (key_le key) l).
Proof.
  induction l as [|a l IH]; simpl; [done|]. rewrite NoDup_cons. intros [Ha Hl].
  apply insert_by_ascending; [by apply IH|]. by rewrite sort_by_perm.
Qed.

Lemma each_inserted_nil (key : A -> option K) (body : bool -> A -> list B) seen l :
  (forall a, is_Some (key a) -> body false a <> []) ->
  each_inserted key body seen l = [] <->
  NoDup (omap key l) /\ (forall k, k ∈ omap key l -> k ∉ seen) /\
  (forall a, a ∈ l -> body (bool_decide (is_Some (key a))) a = []).
Proof.
  intros Hfresh. revert seen; induction l as [|a l IH]; intros seen; simpl.
  - split; [|done]. intros _. split; [constructor|]. split; intros ? []%elem_of_nil.
  - destruct (key a) as [k|] eqn:Hk; simpl; setoid_rewrite elem_of_cons.
    + rewrite app_nil, IH, NoDup_cons. setoid_rewrite elem_of_set_add. split.
      * intros (Hb & Hnd & Hs & Hl).
        destruct (set_contains k seen) eqn:Hc; [by apply Hfresh in Hb|].
        apply set_contains_false in Hc. repeat split; try done.
        -- intros Hin. apply (Hs k Hin). by left.
        -- intros k' [->|Hk']; [done|]. specialize (Hs k' Hk'). tauto.
        -- intros a' [->|Ha']; [|auto]. by rewrite Hk, bool_decide_true by eauto.
      * intros ((Hnk & Hnd) & Hs & Hl).
        assert (set_contains k seen = false) as -> by (apply set_contains_false, Hs; by left).
        repeat split; try done.
        -- specialize (Hl a (or_introl eq_refl)). rewrite Hk, bool_decide_true in Hl by eauto. done.
        -- intros k' Hk' [->|?]; [done|]. by eapply Hs; [right|].
        -- auto.
    + rewrite app_nil, IH. split.
      * intros (Hb & Hnd & Hs & Hl). repeat split; try done.
        intros a' [->|Ha']; [|auto]. rewrite Hk, bool_decide_false; [done|]. by intros [].
      * intros (Hnd & Hs & Hl). repeat split; auto.
        specialize (Hl a (or_introl eq_refl)). rewrite Hk, bool_decide_false in Hl; [done|].
        by intros [].
Qed.
End KeyFacts.

(** Inserting above every key appends. *)
Lemma bt_insert_snoc {K V} `{OrdLaws K} (k : K) (v : V) m :
  (forall k', k' ∈ bt_keys m -> cmp k' k = Lt) -> bt_insert k v m = m ++ [(k, v)].
Proof.
  induction m as [|[k' v'] m IH]; simpl; intros Hlt; [done|].
  assert (cmp k' k = Lt) as Hk by (apply Hlt; by left).
  rewrite (cmp_antisym k' k), Hk. simpl. rewrite IH; [done|].
  intros; apply Hlt. by right.
Qed.

Lemma ascending_app {A} `{OrdLaws A} (l k : list A) :
  ascending (l ++ k) <->
  ascending l /\ ascending k /\ (forall x y, x ∈ l -> y ∈ k -> cmp x y = Lt).
Proof.
  induction l as [|a l IH]; simpl.
  - split; [|tauto]. intros Hk. split; [done|]. split; [done|]. by intros x y ?%elem_of_nil.
  - rewrite IH, Forall_app, !Forall_forall. setoid_rewrite elem_of_cons. split.
    + intros [[Ha Hk] (? & ? & Hlk)]. repeat split; try done. intros x y [->|?]; auto.
    + intros [[Ha ?] [? Hlk]]. repeat split; try done; auto.
Qed.

Lemma NoDup_fmap_elem {A B} (f : A -> B) (l : list A) a b :
  NoDup (f <$> l) -> a ∈ l -> b ∈ l -> f a = f b -> a = b.
Proof.
  intros Hnd [i Hi]%list_elem_of_lookup [j Hj]%list_elem_of_lookup Hf.
  assert (i = j) as ->; [|congruence].
  eapply NoDup_lookup; [done|..]; rewrite list_lookup_fmap; [rewrite Hi|rewrite Hj]; simpl; [done|by rewrite Hf].
Qed.

Lemma set_add_perm {A} `{OrdLaws A} (x : A) s : x ∉ s -> set_add x s ≡ₚ x :: s.
Proof.
  induction s as [|y s IH]; simpl; [done|]. rewrite not_elem_of_cons. intros [Hne Hx].
  destruct (cmp x y) eqn:E; [by apply cmp_eq in E|done|]. rewrite IH by done.
  apply Permutation_swap.
Qed.

Lemma set_remove_perm {A} `{OrdLaws A} (x : A) s :
  ascending s -> x ∈ s -> s ≡ₚ x :: set_remove x s.
Proof.
  unfold set_remove. induction s as [|y s IH]; simpl; [by intros _ ?%elem_of_nil|].
  intros [Hy Hs] [->|Hx]%elem_of_cons.
  - rewrite cmp_refl. constructor. assert (y ∉ s) as Hn.
    { rewrite Forall_forall in Hy. intros Hin. by apply Hy, cmp_lt_irrefl in Hin. }
    clear -Hn H0. induction s as [|z s IH]; simpl; [done|]. apply not_elem_of_cons in Hn as [Hne Hn].
    destruct (cmp y z) eqn:E; [by apply cmp_eq in E| |]; by rewrite <- IH.
  - destruct (cmp x y) eqn:E.
    + apply cmp_eq in E as ->. rewrite Forall_forall in Hy. by apply Hy, cmp_lt_irrefl in Hx.
    + rewrite <- Permutation_swap. constructor. by apply IH.
    + rewrite <- Permutation_swap. constructor. by apply IH.
Qed.

Lemma bt_sorted_NoDup {K V} `{OrdLaws K} (m : list (K * V)) : bt_sorted m -> NoDup m.
Proof. intros Hs%ascending_NoDup. by apply NoDup_fmap_1 in Hs. Qed.

(** An insertion replaces the entry of its key. *)
Lemma bt_insert_perm {K V} `{OrdLaws K} (k : K) (v : V) m :
  bt_sorted m -> bt_insert k v m ≡ₚ (k, v) :: bt_remove k m.
Proof.
  intros Hs. pose proof (bt_sorted_insert k v m Hs) as Hi. pose proof (bt_sorted_remove k m Hs) as Hr.
  apply NoDup_Permutation.
  - by apply bt_sorted_NoDup.
  - constructor; [|by apply bt_sorted_NoDup]. rewrite elem_of_bt_remove. intros [? _]; done.
  - intros [k' v']. rewrite <- bt_get_iff, elem_of_cons, <- (bt_get_iff _ _ (bt_remove k m)) by done.
    destruct (ord_eq_dec k' k) as [->|Hne].
    + rewrite bt_get_insert_eq, bt_get_remove_eq. naive_solver.
    + rewrite bt_get_insert_ne, bt_get_remove_ne by done. naive_solver.
Qed.

Lemma bt_remove_fresh {K V} `{OrdLaws K} (k : K) (m : list (K * V)) : bt_get k m = None -> bt_remove k m = m.
Proof.
  intros Hk%bt_get_None. unfold bt_remove. induction m as [|[k' v'] m IH]; [done|].
  cbn in Hk. apply not_elem_of_cons in Hk as [Hne Hk]. cbn. destruct (cmp k k') eqn:E.
  - by apply cmp_eq in E.
  - f_equal. by apply IH.
  - f_equal. by apply IH.
Qed.

Lemma bt_remove_perm {K V} `{OrdLaws K} (k : K) (v : V) m :
  bt_sorted m -> bt_get k m = Some v -> m ≡ₚ (k, v) :: bt_remove k m.
Proof.
  intros Hs Hk. pose proof (bt_sorted_remove k m Hs) as Hr. apply NoDup_Permutation.
  - by apply bt_sorted_NoDup.
  - constructor; [|by apply bt_sorted_NoDup]. rewrite elem_of_bt_remove. intros [? _]; done.
  - intros [k' v']. rewrite <- bt_get_iff, elem_of_cons, <- (bt_get_iff _ _ (bt_remove k m)) by done.
    destruct (ord_eq_dec k' k) as [->|Hne].
    + rewrite Hk, bt_get_remove_eq. naive_solver.
    + rewrite bt_get_remove_ne by done. naive_solver.
Qed.
