(* ===== verification/Text.v ===== *)
(** * Text: the [str], [Path] and [IpAddr] operations the program uses

    A Rust [str] is its UTF-8 byte sequence, modelled by [string] (one [ascii]
    per byte), so [len] counts bytes.  The functions below are the standard
    library's, restricted to what the source calls. *)

From S2P Require Import Prelude BTree.
From stdpp Require Export strings pretty.
From Stdlib Require Export Ascii.
From Stdlib Require String.

Open Scope string_scope.
Open Scope list_scope.
#[global] Arguments String.append : simpl nomatch.

(** ** Bytes *)

Definition byte_of (c : ascii) : N := N_of_ascii c.
Definition in_range (lo hi : N) (c : ascii) : bool :=
  ((lo <=? byte_of c) && (byte_of c <=? hi))%N.

Definition is_ascii_lowercase : ascii -> bool := in_range 97 122.
Definition is_ascii_uppercase : ascii -> bool := in_range 65 90.
Definition is_ascii_digit : ascii -> bool := in_range 48 57.
Definition is_ascii_alphabetic (c : ascii) : bool :=
  is_ascii_lowercase c || is_ascii_uppercase c.
Definition is_ascii_alphanumeric (c : ascii) : bool :=
  is_ascii_alphabetic c || is_ascii_digit c.
Definition is_ascii_hexdigit (c : ascii) : bool :=
  is_ascii_digit c || in_range 97 102 c || in_range 65 70 c.
(** U+0020, TAB, LF, FF and CR. *)
Definition is_ascii_whitespace (c : ascii) : bool :=
  match byte_of c with 32 | 9 | 10 | 12 | 13 => true | _ => false end%N.
Definition is_ascii_control (c : ascii) : bool :=
  ((byte_of c <? 32) || (byte_of c =? 127))%N.
Definition is_ascii_byte (c : ascii) : bool := (byte_of c <? 128)%N.
Definition to_lower (c : ascii) : ascii :=
  if is_ascii_uppercase c then ascii_of_N (byte_of c + 32) else c.

(** ** Strings *)

Definition slen (s : string) : N := N.of_nat (String.length s).

Fixpoint all_bytes (f : ascii -> bool) (s : string) : bool :=
  match s with "" => true | String c s' => f c && all_bytes f s' end.
Definition any_byte (f : ascii -> bool) (s : string) : bool :=
  negb (all_bytes (fun c => negb (f c)) s).

(** [as_bytes()[0]], guarded by nonemptiness at every use. *)
Definition first_byte (f : ascii -> bool) (s : string) : bool :=
  match s with "" => false | String c _ => f c end.
Fixpoint last_byte (f : ascii -> bool) (s : string) : bool :=
  match s with "" => false | String c "" => f c | String _ s' => last_byte f s' end.

Fixpoint strip_prefix (p s : string) : option string :=
  match p, s with
  | "", _ => Some s
  | String a p', String c s' => if Ascii.eqb a c then strip_prefix p' s' else None
  | _, _ => None
  end.
Definition starts_with (s p : string) : bool :=
  match strip_prefix p s with Some _ => true | None => false end.

Fixpoint strip_suffix (q s : string) : option string :=
  if String.eqb s q then Some "" else
  match s with "" => None | String c s' => String c <$> strip_suffix q s' end.
Definition ends_with (s q : string) : bool :=
  match strip_suffix q s with Some _ => true | None => false end.

(** Substring search, [str::contains]. *)
Fixpoint contains (s p : string) : bool :=
  starts_with s p || match s with "" => false | String _ s' => contains s' p end.

Definition contains_byte (s : string) (c : ascii) : bool :=
  any_byte (fun d => Ascii.eqb d c) s.

(** [str::split] on one character: one more piece than separators. *)
Fixpoint split (sep : ascii) (s : string) : list string :=
  match s with
  | "" => [""]
  | String c s' =>
      if Ascii.eqb c sep then "" :: split sep s'
      else match split sep s' with
           | [] => [String c ""]
           | w :: ws => String c w :: ws
           end
  end.

Fixpoint join (sep : string) (l : list string) : string :=
  match l with
  | [] => ""
  | [w] => w
  | w :: l' => w +:+ sep +:+ join sep l'
  end.

Fixpoint to_ascii_lowercase (s : string) : string :=
  match s with "" => "" | String c s' => String (to_lower c) (to_ascii_lowercase s') end.

Definition eq_ignore_ascii_case (s t : string) : bool :=
  String.eqb (to_ascii_lowercase s) (to_ascii_lowercase t).

(** [str::trim]: the UTF-8 forms of the characters with the [White_Space]
    property, removed from both ends. *)
Definition bytes (l : list N) : string :=
  foldr (fun n s => String (ascii_of_N n) s) "" l.

Definition white_space : list string :=
  List.map bytes
    ([[9]; [10]; [11]; [12]; [13]; [32]; [194; 133]; [194; 160]; [225; 154; 128];
      [226; 128; 168]; [226; 128; 169]; [226; 128; 175]; [226; 129; 159]; [227; 128; 128]] ++
     List.map (fun k => [226; 128; k])
       [128; 129; 130; 131; 132; 133; 134; 135; 136; 137; 138])%N.

Fixpoint first_some {A B} (f : A -> option B) (l : list A) : option B :=
  match l with
  | [] => None
  | a :: l' => match f a with Some b => Some b | None => first_some f l' end
  end.

Fixpoint trim_with (strip : string -> string -> option string) (fuel : nat) (s : string)
  : string :=
  match fuel with
  | O => s
  | S fuel' =>
      match first_some (fun w => strip w s) white_space with
      | Some s' => trim_with strip fuel' s'
      | None => s
      end
  end.

Definition trim_start (s : string) : string := trim_with strip_prefix (String.length s) s.
Definition trim_end (s : string) : string := trim_with strip_suffix (String.length s) s.
Definition trim (s : string) : string := trim_end (trim_start s).

(** ** Paths (Unix) *)

Inductive Component := RootDir | CurDir | ParentDir | Normal (name : string).

(** Repeated separators and inner [.] components disappear; a leading [.]
    of a relative path is [CurDir]. *)
Definition components (p : string) : list Component :=
  let parts := split "/" p in
  (if starts_with p "/" then [RootDir]
   else match parts with "." :: _ => [CurDir] | _ => [] end) ++
  flat_map (fun w =>
    if String.eqb w "" then [] else if String.eqb w "." then []
    else if String.eqb w ".." then [ParentDir] else [Normal w]) parts.

Definition is_absolute (p : string) : bool := starts_with p "/".

(** [Path::join]: an absolute path replaces the whole. *)
Definition path_join (path other : string) : string :=
  if is_absolute other then other
  else if String.eqb path "" || ends_with path "/" then path +:+ other
  else path +:+ "/" +:+ other.

Definition file_name (p : string) : option string :=
  match List.rev (components p) with Normal w :: _ => Some w | _ => None end.

(** ** IP addresses: [host.parse::<IpAddr>().is_ok()] *)

Definition digit_value (radix : N) (c : ascii) : option N :=
  let b := byte_of c in
  let d := (if is_ascii_digit c then b - 48
            else if in_range 97 102 c then b - 87
            else if in_range 65 70 c then b - 55 else 36)%N in
  if (d <? radix)%N then Some d else None.

(** [Parser::read_number]: the value must not exceed [limit] and the digits
    must not be more than [max_digits]. *)
Fixpoint read_digits (radix limit max_digits : N) (value count : N) (s : string)
  : option (N * N * string) :=
  match s with
  | "" => Some (value, count, s)
  | String c s' =>
      match digit_value radix c with
      | None => Some (value, count, s)
      | Some d =>
          let value' := (value * radix + d)%N in
          if (limit <? value')%N then None
          else if (max_digits <? count + 1)%N then None
          else read_digits radix limit max_digits value' (count + 1) s'
      end
  end.
Definition read_number (radix limit max_digits : N) (allow_zero_prefix : bool) (s : string)
  : option (N * string) :=
  match read_digits radix limit max_digits 0 0 s with
  | Some (value, count, rest) =>
      if (count =? 0)%N then None
      else if negb allow_zero_prefix && starts_with s "0" && (1 <? count)%N then None
      else Some (value, rest)
  | None => None
  end.

Definition read_char (c : ascii) (s : string) : option string := strip_prefix (String c "") s.

Definition read_octet (s : string) : option (N * string) := read_number 10 255 3 false s.

Definition read_ipv4 (s : string) : option (list N * string) :=
  '(a, s) ← read_octet s; s ← read_char "." s;
  '(b, s) ← read_octet s; s ← read_char "." s;
  '(c, s) ← read_octet s; s ← read_char "." s;
  '(d, s) ← read_octet s; Some ([a; b; c; d], s).

(** [read_groups]: up to [limit] groups, the last two possibly an embedded
    IPv4 address; [index] is the number of groups read so far. *)
Definition read_separator (index : nat) (s : string) : option string :=
  match index with O => Some s | S _ => read_char ":" s end.

Fixpoint read_groups (slots index limit : nat) (s : string) : nat * bool * string :=
  match slots with
  | O => (limit, false, s)
  | S slots' =>
      let v4 := if (S index <? limit)%nat then s' ← read_separator index s; read_ipv4 s' else None in
      match v4 with
      | Some (_, rest) => (S (S index), true, rest)
      | None =>
          match (s' ← read_separator index s; read_number 16 65535 4 true s') with
          | Some (_, rest) => read_groups slots' (S index) limit rest
          | None => (index, false, s)
          end
      end
  end.

Definition read_ipv6 (s : string) : option string :=
  let '(head, head_ipv4, s1) := read_groups 8 0 8 s in
  if (head =? 8)%nat then Some s1
  else if head_ipv4 then None
  else s2 ← read_char ":" s1; s3 ← read_char ":" s2;
       let limit := (8 - (head + 1))%nat in
       let '(_, _, s4) := read_groups limit 0 limit s3 in Some s4.

Definition parses_as_ip (s : string) : bool :=
  match read_ipv4 s with
  | Some (_, rest) => String.eqb rest ""
  | None => match read_ipv6 s with Some rest => String.eqb rest "" | None => false end
  end.

Example ip_examples :
  List.map parses_as_ip
    ["127.0.0.1"; "::1"; "::ffff:1.2.3.4"; "2001:db8::1"; "1:2:3:4:5:6:7:8"; "::"] = [true; true; true; true; true; true]
  /\ List.map parses_as_ip
    ["127.0.0.01"; "256.0.0.1"; "1.2.3"; "1:2:3:4:5:6:7"; "1.2.3.4::"; "example.org"; ":::"; "[::1]"]
    = [false; false; false; false; false; false; false; false].
Proof. split; vm_compute; reflexivity. Qed.

(** ** Lemmas *)

(** Case analysis on the byte and string equality tests. *)
Ltac case_eqb :=
  match goal with
  | |- context [Ascii.eqb ?a ?b] => destruct (Ascii.eqb_spec a b); subst; try done
  | |- context [String.eqb ?a ?b] => destruct (String.eqb_spec a b); subst; try done
  | H : context [Ascii.eqb ?a ?b] |- _ => destruct (Ascii.eqb_spec a b); subst; try done
  | H : context [String.eqb ?a ?b] |- _ => destruct (String.eqb_spec a b); subst; try done
  end.

Lemma strip_prefix_Some p s t : strip_prefix p s = Some t <-> s = p +:+ t.
Proof.
  revert s; induction p as [|a p IH]; intros [|c s]; simpl; try (split; congruence).
  case_eqb; [rewrite IH|]; split; congruence.
Qed.

Lemma starts_with_spec s p : starts_with s p = true <-> exists t, s = p +:+ t.
Proof.
  unfold starts_with. destruct (strip_prefix p s) as [t|] eqn:E.
  - apply strip_prefix_Some in E. split; [by exists t|done].
  - split; [done|]. intros [t ->]. assert (strip_prefix p (p +:+ t) = Some t) by by apply strip_prefix_Some.
    congruence.
Qed.

Lemma string_app_assoc (a b c : string) : (a +:+ b) +:+ c = a +:+ (b +:+ c).
Proof. induction a as [|x a IH]; simpl; [done | by rewrite IH]. Qed.

Lemma string_app_nil_r (a : string) : a +:+ "" = a.
Proof. induction a as [|x a IH]; simpl; [done | by rewrite IH]. Qed.

Lemma string_length_app (a b : string) :
  String.length (a +:+ b) = String.length a + String.length b.
Proof. induction a as [|x a IH]; simpl; [done | by rewrite IH]. Qed.

Lemma slen_app a b : slen (a +:+ b) = (slen a + slen b)%N.
Proof. unfold slen. rewrite string_length_app. lia. Qed.

Lemma string_app_inj_l (a b c : string) : a +:+ b = a +:+ c -> b = c.
Proof. induction a as [|x a IH]; cbn; [done|]. intros [= H]. by apply IH. Qed.

Lemma string_app_inj_r (a b c : string) : a +:+ c = b +:+ c -> a = b.
Proof.
  revert b; induction a as [|x a IH]; intros [|y b]; simpl; try done; intros Heq.
  - apply (f_equal String.length) in Heq. simpl in Heq. rewrite string_length_app in Heq. lia.
  - apply (f_equal String.length) in Heq. simpl in Heq. rewrite string_length_app in Heq. lia.
  - injection Heq as -> Heq. f_equal. by apply IH.
Qed.

Lemma strip_suffix_app q t : strip_suffix q (t +:+ q) = Some t.
Proof.
  induction t as [|c t IH].
  - destruct q; simpl; by rewrite ?Ascii.eqb_refl, ?String.eqb_refl.
  - change (String c t +:+ q) with (String c (t +:+ q)). cbn [strip_suffix].
    destruct (String.eqb_spec (String c (t +:+ q)) q) as [Heq|_]; [|by rewrite IH].
    apply (f_equal String.length) in Heq. simpl in Heq. rewrite string_length_app in Heq. lia.
Qed.

Lemma strip_suffix_Some q s t : strip_suffix q s = Some t <-> s = t +:+ q.
Proof.
  split; [|intros ->; apply strip_suffix_app].
  revert t; induction s as [|c s IH]; intros t; cbn [strip_suffix].
  - case_eqb. by intros [= <-].
  - case_eqb; [by intros [= <-]|].
    destruct (strip_suffix q s) as [t'|]; [|done]. intros [= <-]. simpl. f_equal. by apply IH.
Qed.

Lemma starts_with_trans s p q :
  starts_with s p = true -> starts_with p q = true -> starts_with s q = true.
Proof.
  rewrite !starts_with_spec. intros [t ->] [u ->]. exists (u +:+ t). apply string_app_assoc.
Qed.

Lemma all_bytes_app f s t : all_bytes f (s +:+ t) = all_bytes f s && all_bytes f t.
Proof. induction s as [|c s IH]; simpl; [done | by rewrite IH, andb_assoc]. Qed.

Lemma split_nonempty sep s : split sep s <> [].
Proof. destruct s as [|c s]; simpl; [done|]. case_eqb. by destruct (split sep s). Qed.

Lemma join_split sep s : join (String sep "") (split sep s) = s.
Proof.
  induction s as [|c s IH]; simpl; [done|]. pose proof (split_nonempty sep s).
  case_eqb; destruct (split sep s) as [|w ws]; try done.
  - change (join (String sep "") ("" :: w :: ws)) with (String sep (join (String sep "") (w :: ws))).
    by rewrite IH.
  - destruct ws as [|w' ws]; simpl in *; by rewrite IH.
Qed.

Lemma split_app sep s t :
  split sep (s +:+ String sep t) = split sep s ++ split sep t.
Proof.
  induction s as [|c s IH]; simpl; [by rewrite Ascii.eqb_refl|].
  rewrite IH. case_eqb. pose proof (split_nonempty sep s). by destruct (split sep s).
Qed.

Example trim_examples :
  trim "  a b	" = "a b" /\ trim "" = "" /\ trim (bytes [194; 160; 97]%N) = "a" /\ trim "   " = "".
Proof. repeat split. Qed.

Lemma first_some_Some {A B} (f : A -> option B) l b :
  first_some f l = Some b -> exists a, a ∈ l /\ f a = Some b.
Proof.
  induction l as [|a l IH]; simpl; [done|]. destruct (f a) eqn:Hf.
  - intros [= <-]. exists a. split; [by left|done].
  - intros (a' & Ha & Hb)%IH. exists a'. split; [by right|done].
Qed.

Lemma first_some_None {A B} (f : A -> option B) l :
  first_some f l = None <-> forall a, a ∈ l -> f a = None.
Proof.
  induction l as [|a l IH]; simpl; [split; [by intros _ ? ?%elem_of_nil|done]|].
  setoid_rewrite elem_of_cons. destruct (f a) eqn:Hf.
  - split; [done|]. intros Hl. specialize (Hl a (or_introl eq_refl)). congruence.
  - rewrite IH. split; [|auto]. intros Hl a' [->|?]; auto.
Qed.
