(* ===== verification/Capability.v ===== *)
(** * Capabilities: identifiers, scopes, comparison and risk

    Models [crates/touchbar-policy/src/capability.rs]: the capability
    identifiers and their text form, the typed scopes a manifest requests, the
    comparison [is_subset_of] that decides whether an approved scope covers a
    requested one, and the risk summary shown to the user.  [ScopeCheck.v]
    models the validation of scopes. *)

From S2P Require Import Prelude BTree Text.

(** ** Identifiers *)

Inductive CapabilityId :=
| ContextReadV1 | FilesystemReadV1 | FilesystemWriteV1 | HttpRequestV1
| DbusCallV1 | DbusSubscribeV1 | CommandRunV1 | ClipboardReadV1
| ClipboardWriteV1 | SecretReadV1 | NotificationSendV1 | UriOpenV1
| LocalConnectV1 | AppearanceProvideV1
| UnknownCapability (name : string).

#[export] Instance CapabilityId_eq_dec : EqDecision CapabilityId.
Proof. solve_decision. Defined.

(** The derived [Ord]: declaration order, then the payload. *)
Definition capability_rank (c : CapabilityId) : N * string :=
  match c with
  | ContextReadV1 => (0, "") | FilesystemReadV1 => (1, "") | FilesystemWriteV1 => (2, "")
  | HttpRequestV1 => (3, "") | DbusCallV1 => (4, "") | DbusSubscribeV1 => (5, "")
  | CommandRunV1 => (6, "") | ClipboardReadV1 => (7, "") | ClipboardWriteV1 => (8, "")
  | SecretReadV1 => (9, "") | NotificationSendV1 => (10, "") | UriOpenV1 => (11, "")
  | LocalConnectV1 => (12, "") | AppearanceProvideV1 => (13, "")
  | UnknownCapability name => (14, name)
  end%N.

#[export] Instance CapabilityId_ord : Ord CapabilityId :=
  fun a b => cmp (capability_rank a) (capability_rank b).

#[export] Instance capability_rank_inj : Inj (=) (=) capability_rank.
Proof. intros [] []; simpl; congruence. Qed.

#[export] Instance CapabilityId_ord_laws : OrdLaws CapabilityId.
Proof. by apply (ord_laws_inj capability_rank _). Qed.

Definition is_known (c : CapabilityId) : bool :=
  match c with UnknownCapability _ => false | _ => true end.

Definition valid_kebab_id (value : string) : bool :=
  negb (String.eqb value "") && (slen value <=? 64)%N && first_byte is_ascii_lowercase value
  && negb (starts_with value "-") && negb (ends_with value "-")
  && negb (contains value "--")
  && all_bytes (fun c => is_ascii_lowercase c || is_ascii_digit c || Ascii.eqb c "-"%char) value.

Definition valid_dotted_id (value : string) : bool :=
  (slen value <=? 128)%N && forallb valid_kebab_id (split "." value) && contains value ".".

(** [Display]. *)
Definition capability_to_string (c : CapabilityId) : string :=
  match c with
  | ContextReadV1 => "context.read.v1"
  | FilesystemReadV1 => "filesystem.read.v1"
  | FilesystemWriteV1 => "filesystem.write.v1"
  | HttpRequestV1 => "http.request.v1"
  | DbusCallV1 => "dbus.call.v1"
  | DbusSubscribeV1 => "dbus.subscribe.v1"
  | CommandRunV1 => "command.run.v1"
  | ClipboardReadV1 => "clipboard.read.v1"
  | ClipboardWriteV1 => "clipboard.write.v1"
  | SecretReadV1 => "secret.read.v1"
  | NotificationSendV1 => "notification.send.v1"
  | UriOpenV1 => "uri.open.v1"
  | LocalConnectV1 => "local.connect.v1"
  | AppearanceProvideV1 => "appearance.provide.v1"
  | UnknownCapability value => value
  end.

(** [FromStr]. *)
Definition capability_from_str (value : string) : result string CapabilityId :=
  if String.eqb value "context.read.v1" then Ok ContextReadV1
  else if String.eqb value "filesystem.read.v1" then Ok FilesystemReadV1
  else if String.eqb value "filesystem.write.v1" then Ok FilesystemWriteV1
  else if String.eqb value "http.request.v1" then Ok HttpRequestV1
  else if String.eqb value "dbus.call.v1" then Ok DbusCallV1
  else if String.eqb value "dbus.subscribe.v1" then Ok DbusSubscribeV1
  else if String.eqb value "command.run.v1" then Ok CommandRunV1
  else if String.eqb value "clipboard.read.v1" then Ok ClipboardReadV1
  else if String.eqb value "clipboard.write.v1" then Ok ClipboardWriteV1
  else if String.eqb value "secret.read.v1" then Ok SecretReadV1
  else if String.eqb value "notification.send.v1" then Ok NotificationSendV1
  else if String.eqb value "uri.open.v1" then Ok UriOpenV1
  else if String.eqb value "local.connect.v1" then Ok LocalConnectV1
  else if String.eqb value "appearance.provide.v1" then Ok AppearanceProvideV1
  else if valid_dotted_id value then Ok (UnknownCapability value)
  else Err "capability must be a lowercase dotted identifier".

(** *** The registry of implemented capabilities *)

Record CapabilityRegistry := { supported : list CapabilityId }.

Definition from_supported (l : list CapabilityId) : CapabilityRegistry :=
  {| supported := set_of l |}.

Definition registry_v1 : CapabilityRegistry :=
  from_supported
    [ContextReadV1; FilesystemReadV1; FilesystemWriteV1; HttpRequestV1; DbusCallV1;
     DbusSubscribeV1; CommandRunV1; ClipboardReadV1; ClipboardWriteV1; SecretReadV1;
     NotificationSendV1; UriOpenV1; LocalConnectV1; AppearanceProvideV1].

Definition supports (r : CapabilityRegistry) (c : CapabilityId) : bool :=
  is_known c && set_contains c (supported r).

(** ** Scopes

    A [BTreeSet] field is its ascending listing; a [BTreeMap] its entries. *)

Inductive RiskClass :=
| Isolated | Limited | Connected | Sensitive | Controlling | EffectivelyTrusted
| UnrestrictedNative.

Inductive RuntimeKind := ComponentRuntime | NativeRuntime.

Inductive CapabilityStatus := Granted | Denied | NeedsConsent | Unsupported | DisclosureOnly.

Record TrustSummary := { class : RiskClass; warnings : list string }.

Record FilesystemMountRequest := { fm_label : string; fm_suggested_location : option string }.

Record ContextReadScope := { cr_facts : list string; cr_maximum_updates_per_second : N }.

Inductive FileKind := RegularFile | Directory.

Record FilesystemReadScope := {
  fr_mounts : list FilesystemMountRequest;
  fr_kinds : list FileKind;
  fr_maximum_file_bytes : N;
  fr_enumerate : bool;
}.

Inductive WriteOperation := Create | Replace | Append | DeleteOp | Rename | CreateDirectory.

Record FilesystemWriteScope := {
  fw_mounts : list FilesystemMountRequest;
  fw_operations : list WriteOperation;
  fw_maximum_file_bytes : N;
  fw_maximum_total_bytes_per_hour : N;
}.

Record HttpOriginRule := {
  ho_scheme : string;
  ho_host : string;
  ho_port : N;
  ho_path_prefixes : list string;
}.

Inductive HttpMethod := HttpGet | HttpHead | HttpPost | HttpPut | HttpPatch | HttpDelete.

Record HttpRequestScope := {
  hr_origins : list HttpOriginRule;
  hr_methods : list HttpMethod;
  hr_private_network : bool;
  hr_maximum_request_bytes : N;
  hr_maximum_response_bytes : N;
  hr_maximum_requests_per_minute : N;
}.

Inductive DbusBus := SessionBus | SystemBus.

Record DbusArgumentConstraint := {
  da_index : N;
  da_equals_string : option string;
  da_one_of_strings : option (list string);
}.

Record DbusCallRule := {
  dc_bus : DbusBus;
  dc_destination : string;
  dc_path : string;
  dc_interface : string;
  dc_member : string;
  dc_signature : string;
  dc_arguments : list DbusArgumentConstraint;
  dc_allow_service_activation : bool;
  dc_requires_user_activation : bool;
}.

Record DbusCallScope := { dc_rules : list DbusCallRule }.

Record DbusSignalRule := {
  ds_bus : DbusBus;
  ds_sender : string;
  ds_path : string;
  ds_interface : string;
  ds_member : string;
  ds_signature : string;
  ds_argument_zero : option string;
}.

Record DbusSubscribeScope := {
  ds_rules : list DbusSignalRule;
  ds_maximum_events_per_second : N;
}.

Inductive CommandArgument :=
| Literal (value : string)
| BoundedInteger (name : string) (minimum maximum : Z)
| FixedEnum (name : string) (values : list string)
| BoundedText (name : string) (maximum_bytes : N)
| ApprovedFile (name mount : string)
| UrlArgument (name : string) (schemes : list string).

Record CommandRule := {
  cm_id : string;
  cm_executable : string;
  cm_arguments : list CommandArgument;
  cm_environment : list (string * string);
  cm_working_directory : option string;
  cm_maximum_output_bytes : N;
  cm_timeout_milliseconds : N;
}.

Record CommandRunScope := {
  cm_commands : list CommandRule;
  cm_maximum_parallel_processes : N;
}.

Record ClipboardScope := {
  cb_mime_types : list string;
  cb_maximum_bytes : N;
  cb_maximum_operations_per_minute : N;
}.

Record SecretReadScope := { sr_logical_names : list string }.

Inductive NotificationUrgency := LowUrgency | NormalUrgency | CriticalUrgency.

Record NotificationScope := {
  ns_categories : list string;
  ns_urgency : list NotificationUrgency;
  ns_actions : bool;
  ns_maximum_per_minute : N;
}.

Record UriOpenScope := { uo_schemes : list string; uo_origins : list HttpOriginRule }.

Record LocalEndpointRequest := {
  le_label : string;
  le_protocol : string;
  le_suggested_endpoint : option string;
}.

Record LocalConnectScope := {
  lc_endpoints : list LocalEndpointRequest;
  lc_maximum_frame_bytes : N;
  lc_maximum_bytes_per_minute : N;
}.

Record AppearanceProvideScope := {
  ap_providers : list string;
  ap_mounts : list FilesystemMountRequest;
  ap_maximum_file_bytes : N;
  ap_maximum_updates_per_second : N;
}.

Inductive CapabilityScope :=
| ContextRead (s : ContextReadScope)
| FilesystemRead (s : FilesystemReadScope)
| FilesystemWrite (s : FilesystemWriteScope)
| HttpRequest (s : HttpRequestScope)
| DbusCall (s : DbusCallScope)
| DbusSubscribe (s : DbusSubscribeScope)
| CommandRun (s : CommandRunScope)
| Clipboard (s : ClipboardScope)
| SecretRead (s : SecretReadScope)
| NotificationSend (s : NotificationScope)
| UriOpen (s : UriOpenScope)
| LocalConnect (s : LocalConnectScope)
| AppearanceProvide (s : AppearanceProvideScope)
| UnknownScope (encoded : string).

Record CapabilityRequest := {
  rq_capability : CapabilityId;
  rq_required : bool;
  rq_reason : string;
  rq_scope : CapabilityScope;
}.

(** Derived equality. *)
Ltac eq_dec := solve_decision.
#[export] Instance RiskClass_eq_dec : EqDecision RiskClass. Proof. eq_dec. Defined.
#[export] Instance RuntimeKind_eq_dec : EqDecision RuntimeKind. Proof. eq_dec. Defined.
#[export] Instance CapabilityStatus_eq_dec : EqDecision CapabilityStatus. Proof. eq_dec. Defined.
#[export] Instance FilesystemMountRequest_eq_dec : EqDecision FilesystemMountRequest. Proof. eq_dec. Defined.
#[export] Instance FileKind_eq_dec : EqDecision FileKind. Proof. eq_dec. Defined.
#[export] Instance WriteOperation_eq_dec : EqDecision WriteOperation. Proof. eq_dec. Defined.
#[export] Instance HttpOriginRule_eq_dec : EqDecision HttpOriginRule. Proof. eq_dec. Defined.
#[export] Instance HttpMethod_eq_dec : EqDecision HttpMethod. Proof. eq_dec. Defined.
#[export] Instance DbusBus_eq_dec : EqDecision DbusBus. Proof. eq_dec. Defined.
#[export] Instance DbusArgumentConstraint_eq_dec : EqDecision DbusArgumentConstraint. Proof. eq_dec. Defined.
#[export] Instance DbusCallRule_eq_dec : EqDecision DbusCallRule. Proof. eq_dec. Defined.
#[export] Instance DbusSignalRule_eq_dec : EqDecision DbusSignalRule. Proof. eq_dec. Defined.
#[export] Instance CommandArgument_eq_dec : EqDecision CommandArgument. Proof. eq_dec. Defined.
#[export] Instance CommandRule_eq_dec : EqDecision CommandRule. Proof. eq_dec. Defined.
#[export] Instance NotificationUrgency_eq_dec : EqDecision NotificationUrgency. Proof. eq_dec. Defined.
#[export] Instance LocalEndpointRequest_eq_dec : EqDecision LocalEndpointRequest. Proof. eq_dec. Defined.
#[export] Instance ContextReadScope_eq_dec : EqDecision ContextReadScope. Proof. eq_dec. Defined.
#[export] Instance FilesystemReadScope_eq_dec : EqDecision FilesystemReadScope. Proof. eq_dec. Defined.
#[export] Instance FilesystemWriteScope_eq_dec : EqDecision FilesystemWriteScope. Proof. eq_dec. Defined.
#[export] Instance HttpRequestScope_eq_dec : EqDecision HttpRequestScope. Proof. eq_dec. Defined.
#[export] Instance DbusCallScope_eq_dec : EqDecision DbusCallScope. Proof. eq_dec. Defined.
#[export] Instance DbusSubscribeScope_eq_dec : EqDecision DbusSubscribeScope. Proof. eq_dec. Defined.
#[export] Instance CommandRunScope_eq_dec : EqDecision CommandRunScope. Proof. eq_dec. Defined.
#[export] Instance ClipboardScope_eq_dec : EqDecision ClipboardScope. Proof. eq_dec. Defined.
#[export] Instance SecretReadScope_eq_dec : EqDecision SecretReadScope. Proof. eq_dec. Defined.
#[export] Instance NotificationScope_eq_dec : EqDecision NotificationScope. Proof. eq_dec. Defined.
#[export] Instance UriOpenScope_eq_dec : EqDecision UriOpenScope. Proof. eq_dec. Defined.
#[export] Instance LocalConnectScope_eq_dec : EqDecision LocalConnectScope. Proof. eq_dec. Defined.
#[export] Instance AppearanceProvideScope_eq_dec : EqDecision AppearanceProvideScope. Proof. eq_dec. Defined.
#[export] Instance CapabilityScope_eq_dec : EqDecision CapabilityScope. Proof. eq_dec. Defined.
#[export] Instance CapabilityRequest_eq_dec : EqDecision CapabilityRequest. Proof. eq_dec. Defined.

(** [CapabilityScope::matches_capability]. *)
Definition matches_capability (s : CapabilityScope) (c : CapabilityId) : bool :=
  match c, s with
  | ContextReadV1, ContextRead _ | FilesystemReadV1, FilesystemRead _
  | FilesystemWriteV1, FilesystemWrite _ | HttpRequestV1, HttpRequest _
  | DbusCallV1, DbusCall _ | DbusSubscribeV1, DbusSubscribe _
  | CommandRunV1, CommandRun _ | ClipboardReadV1, Clipboard _
  | ClipboardWriteV1, Clipboard _ | SecretReadV1, SecretRead _
  | NotificationSendV1, NotificationSend _ | UriOpenV1, UriOpen _
  | LocalConnectV1, LocalConnect _ | AppearanceProvideV1, AppearanceProvide _
  | UnknownCapability _, UnknownScope _ => true
  | _, _ => false
  end.

(** ** Comparison of scopes *)

Definition bool_authority_subset (new old : bool) : bool := negb new || old.
Definition activation_requirement_subset (new old : bool) : bool := negb old || new.

Definition path_prefixes_subset (new old : list string) : bool :=
  if bool_decide (old = []) then true
  else negb (bool_decide (new = []))
       && forallb (fun path => existsb (fun prefix => starts_with path prefix) old) new.

Definition origins_subset (new old : list HttpOriginRule) : bool :=
  forallb (fun origin =>
    existsb (fun approved =>
      String.eqb (ho_scheme origin) (ho_scheme approved)
      && String.eqb (ho_host origin) (ho_host approved)
      && (ho_port origin =? ho_port approved)%N
      && path_prefixes_subset (ho_path_prefixes origin) (ho_path_prefixes approved)) old) new.

Definition mount_labels_subset (new old : list FilesystemMountRequest) : bool :=
  forallb (fun mount => existsb (fun approved =>
    String.eqb (fm_label approved) (fm_label mount)) old) new.

Definition endpoint_labels_subset (new old : list LocalEndpointRequest) : bool :=
  forallb (fun endpoint => existsb (fun approved =>
    String.eqb (le_label approved) (le_label endpoint)
    && String.eqb (le_protocol approved) (le_protocol endpoint)) old) new.

Definition dotted_name_subset (new old : string) : bool :=
  match strip_suffix ".*" old with
  | Some prefix =>
      String.eqb new old
      || match strip_prefix prefix new with
         | Some suffix => starts_with suffix "."
         | None => false
         end
  | None => String.eqb new old
  end.

Definition dbus_arguments_subset (new old : list DbusArgumentConstraint) : bool :=
  forallb (fun approved => existsb (fun requested =>
    (da_index requested =? da_index approved)%N
    && match da_equals_string requested, da_one_of_strings requested,
             da_equals_string approved, da_one_of_strings approved with
       | Some new, None, Some old, None => String.eqb new old
       | Some new, None, None, Some old => elem_b new old
       | None, Some new, None, Some old => subset_b new old
       | _, _, _, _ => false
       end) new) old.

Definition dbus_call_rule_subset (new old : DbusCallRule) : bool :=
  bool_decide (dc_bus new = dc_bus old)
  && dotted_name_subset (dc_destination new) (dc_destination old)
  && String.eqb (dc_path new) (dc_path old)
  && String.eqb (dc_interface new) (dc_interface old)
  && String.eqb (dc_member new) (dc_member old)
  && String.eqb (dc_signature new) (dc_signature old)
  && dbus_arguments_subset (dc_arguments new) (dc_arguments old)
  && bool_authority_subset (dc_allow_service_activation new) (dc_allow_service_activation old)
  && activation_requirement_subset (dc_requires_user_activation new)
       (dc_requires_user_activation old).

Definition command_argument_subset (new old : CommandArgument) : bool :=
  match new, old with
  | Literal new, Literal old => String.eqb new old
  | BoundedInteger new_name new_minimum new_maximum,
    BoundedInteger old_name old_minimum old_maximum =>
      String.eqb new_name old_name && (old_minimum <=? new_minimum)%Z
      && (new_maximum <=? old_maximum)%Z
  | FixedEnum new_name new_values, FixedEnum old_name old_values =>
      String.eqb new_name old_name && subset_b new_values old_values
  | BoundedText new_name new_maximum, BoundedText old_name old_maximum =>
      String.eqb new_name old_name && (new_maximum <=? old_maximum)%N
  | ApprovedFile new_name new_mount, ApprovedFile old_name old_mount =>
      String.eqb new_name old_name && String.eqb new_mount old_mount
  | UrlArgument new_name new_schemes, UrlArgument old_name old_schemes =>
      String.eqb new_name old_name && subset_b new_schemes old_schemes
  | _, _ => false
  end.

Definition command_rule_subset (new old : CommandRule) : bool :=
  String.eqb (cm_id new) (cm_id old)
  && String.eqb (cm_executable new) (cm_executable old)
  && (len (cm_arguments new) =? len (cm_arguments old))%N
  && forallb (fun p => command_argument_subset p.1 p.2)
       (zip (cm_arguments new) (cm_arguments old))
  && bool_decide (cm_environment new = cm_environment old)
  && bool_decide (cm_working_directory new = cm_working_directory old)
  && (cm_maximum_output_bytes new <=? cm_maximum_output_bytes old)%N
  && (cm_timeout_milliseconds new <=? cm_timeout_milliseconds old)%N.

(** [CapabilityScope::is_subset_of]. *)
Definition is_subset_of (self approved : CapabilityScope) : bool :=
  match self, approved with
  | ContextRead new, ContextRead old =>
      subset_b (cr_facts new) (cr_facts old)
      && (cr_maximum_updates_per_second new <=? cr_maximum_updates_per_second old)%N
  | FilesystemRead new, FilesystemRead old =>
      mount_labels_subset (fr_mounts new) (fr_mounts old)
      && subset_b (fr_kinds new) (fr_kinds old)
      && (fr_maximum_file_bytes new <=? fr_maximum_file_bytes old)%N
      && bool_authority_subset (fr_enumerate new) (fr_enumerate old)
  | FilesystemWrite new, FilesystemWrite old =>
      mount_labels_subset (fw_mounts new) (fw_mounts old)
      && subset_b (fw_operations new) (fw_operations old)
      && (fw_maximum_file_bytes new <=? fw_maximum_file_bytes old)%N
      && (fw_maximum_total_bytes_per_hour new <=? fw_maximum_total_bytes_per_hour old)%N
  | HttpRequest new, HttpRequest old =>
      subset_b (hr_methods new) (hr_methods old)
      && bool_authority_subset (hr_private_network new) (hr_private_network old)
      && (hr_maximum_request_bytes new <=? hr_maximum_request_bytes old)%N
      && (hr_maximum_response_bytes new <=? hr_maximum_response_bytes old)%N
      && (hr_maximum_requests_per_minute new <=? hr_maximum_requests_per_minute old)%N
      && origins_subset (hr_origins new) (hr_origins old)
  | DbusCall new, DbusCall old =>
      forallb (fun rule => existsb (fun approved => dbus_call_rule_subset rule approved)
        (dc_rules old)) (dc_rules new)
  | DbusSubscribe new, DbusSubscribe old =>
      subset_b (ds_rules new) (ds_rules old)
      && (ds_maximum_events_per_second new <=? ds_maximum_events_per_second old)%N
  | CommandRun new, CommandRun old =>
      (cm_maximum_parallel_processes new <=? cm_maximum_parallel_processes old)%N
      && forallb (fun command => existsb (fun approved => command_rule_subset command approved)
           (cm_commands old)) (cm_commands new)
  | Clipboard new, Clipboard old =>
      subset_b (cb_mime_types new) (cb_mime_types old)
      && (cb_maximum_bytes new <=? cb_maximum_bytes old)%N
      && (cb_maximum_operations_per_minute new <=? cb_maximum_operations_per_minute old)%N
  | SecretRead new, SecretRead old => subset_b (sr_logical_names new) (sr_logical_names old)
  | NotificationSend new, NotificationSend old =>
      subset_b (ns_categories new) (ns_categories old)
      && subset_b (ns_urgency new) (ns_urgency old)
      && bool_authority_subset (ns_actions new) (ns_actions old)
      && (ns_maximum_per_minute new <=? ns_maximum_per_minute old)%N
  | UriOpen new, UriOpen old =>
      subset_b (uo_schemes new) (uo_schemes old)
      && origins_subset (uo_origins new) (uo_origins old)
  | LocalConnect new, LocalConnect old =>
      endpoint_labels_subset (lc_endpoints new) (lc_endpoints old)
      && (lc_maximum_frame_bytes new <=? lc_maximum_frame_bytes old)%N
      && (lc_maximum_bytes_per_minute new <=? lc_maximum_bytes_per_minute old)%N
  | AppearanceProvide new, AppearanceProvide old =>
      subset_b (ap_providers new) (ap_providers old)
      && mount_labels_subset (ap_mounts new) (ap_mounts old)
      && (ap_maximum_file_bytes new <=? ap_maximum_file_bytes old)%N
      && (ap_maximum_updates_per_second new <=? ap_maximum_updates_per_second old)%N
  | UnknownScope new, UnknownScope old => String.eqb new old
  | _, _ => false
  end.

(** ** Risk *)

Definition risk_rank (r : RiskClass) : N :=
  match r with
  | Isolated => 0 | Limited => 1 | Connected => 2 | Sensitive => 3
  | Controlling => 4 | EffectivelyTrusted => 5 | UnrestrictedNative => 6
  end%N.

(** [Ord::max]: the second argument wins a tie. *)
Definition risk_max (a b : RiskClass) : RiskClass :=
  if (risk_rank a <=? risk_rank b)%N then b else a.

Definition context_fact_is_public (fact : string) : bool :=
  elem_b fact ["application.id"; "workspace.id"; "monitor.id"; "recording.active";
    "media.playback-status"; "power.profile"; "power.on-battery"].

Definition command_is_interpreter (command : CommandRule) : bool :=
  match file_name (cm_executable command) with
  | None => true
  | Some name =>
      elem_b name ["sh"; "bash"; "zsh"; "fish"; "dash"; "env"; "python"; "python3"; "node";
        "ruby"; "perl"]
  end.

Definition risk (self : CapabilityScope) (c : CapabilityId) : RiskClass :=
  match c with
  | ContextReadV1 =>
      match self with
      | ContextRead scope =>
          if forallb context_fact_is_public (cr_facts scope) then Limited else Sensitive
      | _ => Sensitive
      end
  | DbusSubscribeV1 => Sensitive
  | HttpRequestV1 => Connected
  | FilesystemReadV1 | ClipboardReadV1 | SecretReadV1 => Sensitive
  | FilesystemWriteV1 | DbusCallV1 | ClipboardWriteV1 | NotificationSendV1 | UriOpenV1 =>
      Controlling
  | AppearanceProvideV1 => Controlling
  | CommandRunV1 =>
      match self with
      | CommandRun scope =>
          if existsb command_is_interpreter (cm_commands scope) then EffectivelyTrusted
          else Controlling
      | _ => Controlling
      end
  | LocalConnectV1 => EffectivelyTrusted
  | UnknownCapability _ => EffectivelyTrusted
  end.

Definition native_warning : string := "native permission declarations are disclosure only".
Definition egress_warning : string :=
  "network egress can expose data from sensitive read capabilities".

Definition reads_sensitive (c : CapabilityId) : bool :=
  match c with FilesystemReadV1 | ClipboardReadV1 | SecretReadV1 => true | _ => false end.

(** The loop state of [summarize_trust]: class, network and sensitive flags. *)
Definition trust_step (acc : RiskClass * bool * bool) (grant : CapabilityRequest)
  : RiskClass * bool * bool :=
  let '(class, network, sensitive) := acc in
  (risk_max class (risk (rq_scope grant) (rq_capability grant)),
   network || bool_decide (rq_capability grant = HttpRequestV1),
   sensitive || reads_sensitive (rq_capability grant)).

Definition summarize_trust (runtime : RuntimeKind) (grants : list CapabilityRequest)
  : TrustSummary :=
  match runtime with
  | NativeRuntime => {| class := UnrestrictedNative; warnings := [native_warning] |}
  | ComponentRuntime =>
      let '(class, network, sensitive) := fold_left trust_step grants (Isolated, false, false) in
      if network && sensitive
      then {| class := risk_max class Sensitive; warnings := [egress_warning] |}
      else {| class := class; warnings := [] |}
  end.

(** ** The text form of identifiers *)

Definition known_names : list string :=
  List.map capability_to_string
    [ContextReadV1; FilesystemReadV1; FilesystemWriteV1; HttpRequestV1; DbusCallV1;
     DbusSubscribeV1; CommandRunV1; ClipboardReadV1; ClipboardWriteV1; SecretReadV1;
     NotificationSendV1; UriOpenV1; LocalConnectV1; AppearanceProvideV1].

(** Identifiers the parser can produce: an unknown name is a dotted identifier
    that is not one of the known ones. *)
Definition canonical_capability (c : CapabilityId) : bool :=
  match c with
  | UnknownCapability name => valid_dotted_id name && negb (elem_b name known_names)
  | _ => true
  end.

Lemma capability_from_str_sound value c :
  capability_from_str value = Ok c ->
  capability_to_string c = value /\ canonical_capability c = true.
Proof.
  unfold capability_from_str.
  repeat match goal with
  | |- (if String.eqb ?a ?b then _ else _) = _ -> _ =>
      destruct (String.eqb_spec a b); [subst; by intros [= <-]|]
  end.
  destruct (valid_dotted_id value) eqn:Hv; [|done]. intros [= <-]. split; [done|].
  simpl. rewrite Hv. simpl. apply negb_true_iff, bool_decide_eq_false.
  unfold known_names; simpl. rewrite !elem_of_cons, elem_of_nil. intuition.
Qed.

Lemma capability_from_to_string c :
  canonical_capability c = true -> capability_from_str (capability_to_string c) = Ok c.
Proof.
  intros Hc. destruct c as [| | | | | | | | | | | | | |name]; try reflexivity.
  simpl in *. apply andb_true_iff in Hc as [Hv Hn].
  unfold capability_from_str.
  repeat match goal with
  | |- (if String.eqb ?a ?b then _ else _) = _ =>
      destruct (String.eqb_spec a b); [subst; vm_compute in Hn; discriminate Hn|]
  end.
  by rewrite Hv.
Qed.

(** Capability identifiers round-trip through their text form: parsing a
    string yields [c] exactly when the string prints [c] and [c] is canonical. *)
Theorem capability_text_roundtrip (value : string) (c : CapabilityId) :
  capability_from_str value = Ok c <->
  capability_to_string c = value /\ canonical_capability c = true.
Proof.
  split; [apply capability_from_str_sound|].
  intros [<- Hc]. by apply capability_from_to_string.
Qed.

(** ** [is_subset_of] is a preorder *)

Lemma path_prefixes_subset_refl l : path_prefixes_subset l l = true.
Proof.
  unfold path_prefixes_subset. case_bool_decide as Hl; [done|]. simpl.
  apply forallb_True'. intros p Hp. apply existsb_True'. exists p. split; [done|].
  apply starts_with_spec. exists "". by rewrite string_app_nil_r.
Qed.

Lemma path_prefixes_subset_trans l m o :
  path_prefixes_subset l m = true -> path_prefixes_subset m o = true ->
  path_prefixes_subset l o = true.
Proof.
  unfold path_prefixes_subset. repeat case_bool_decide; subst; simpl; try done.
  rewrite !forallb_True'. setoid_rewrite existsb_True'. intros Hlm Hmo p Hp.
  destruct (Hlm p Hp) as (q & Hq & Hpq). destruct (Hmo q Hq) as (r & Hr & Hqr).
  exists r. eauto using starts_with_trans.
Qed.

Lemma forall_exists_trans {A} (f : A -> A -> bool) l m o :
  (forall a b c, f a b = true -> f b c = true -> f a c = true) ->
  forallb (fun a => existsb (fun b => f a b) m) l = true ->
  forallb (fun a => existsb (fun b => f a b) o) m = true ->
  forallb (fun a => existsb (fun b => f a b) o) l = true.
Proof.
  intros Htrans. rewrite !forallb_True'. setoid_rewrite existsb_True'. intros Hlm Hmo a Ha.
  destruct (Hlm a Ha) as (b & Hb & Hab). destruct (Hmo b Hb) as (c & Hc & Hbc). eauto.
Qed.

Lemma forall_exists_refl {A} (f : A -> A -> bool) l :
  (forall a, a ∈ l -> f a a = true) ->
  forallb (fun a => existsb (fun b => f a b) l) l = true.
Proof. rewrite forallb_True'. setoid_rewrite existsb_True'. eauto. Qed.

Lemma origins_subset_refl l : origins_subset l l = true.
Proof.
  apply (forall_exists_refl (fun _ _ => _)). intros a _.
  by rewrite !String.eqb_refl, N.eqb_refl, path_prefixes_subset_refl.
Qed.

Lemma origins_subset_trans l m o :
  origins_subset l m = true -> origins_subset m o = true -> origins_subset l o = true.
Proof.
  apply (forall_exists_trans (fun _ _ => _)). intros a b c. b2p.
  rewrite !String.eqb_eq, !N.eqb_eq. intros [[[-> ->] ->] ?] [[[-> ->] ->] ?].
  eauto using path_prefixes_subset_trans.
Qed.

Lemma mount_labels_subset_trans l m o :
  mount_labels_subset l m = true -> mount_labels_subset m o = true ->
  mount_labels_subset l o = true.
Proof.
  apply (forall_exists_trans (fun a b => String.eqb (fm_label b) (fm_label a))).
  intros a b c. rewrite !String.eqb_eq. congruence.
Qed.

Lemma endpoint_labels_subset_trans l m o :
  endpoint_labels_subset l m = true -> endpoint_labels_subset m o = true ->
  endpoint_labels_subset l o = true.
Proof.
  apply (forall_exists_trans (fun _ _ => _)). intros a b c. b2p.
  rewrite !String.eqb_eq. intros [-> ->] [-> ->]. done.
Qed.

(** A wildcard [prefix.*] covers itself and every name below [prefix]. *)
Lemma dotted_name_subset_spec new old :
  dotted_name_subset new old = true <->
  new = old \/ exists prefix rest, old = prefix +:+ ".*" /\ new = prefix +:+ "." +:+ rest.
Proof.
  unfold dotted_name_subset. destruct (strip_suffix ".*" old) as [prefix|] eqn:Hs.
  - apply strip_suffix_Some in Hs as ->. rewrite orb_true_iff, String.eqb_eq.
    destruct (strip_prefix prefix new) as [suffix|] eqn:Hp.
    + apply strip_prefix_Some in Hp as ->. rewrite starts_with_spec. split.
      * intros [?|[t ->]]; [by left|right; by exists prefix, t].
      * intros [?|(p & r & Hpq & Hr)]; [by left|right].
        apply string_app_inj_r in Hpq as <-. exists r.
        apply (f_equal (strip_prefix prefix)) in Hr.
        assert (forall x, strip_prefix prefix (prefix +:+ x) = Some x) as Hx
          by (intros; by apply strip_prefix_Some).
        rewrite !Hx in Hr. by injection Hr.
    + split; [intros [?|?]; [by left|done]|]. intros [?|(p & r & Hpq & ->)]; [by left|].
      apply string_app_inj_r in Hpq as <-.
      assert (strip_prefix prefix (prefix +:+ "." +:+ r) = Some ("." +:+ r)) as Hx
        by by apply strip_prefix_Some.
      congruence.
  - rewrite String.eqb_eq. split; [by left|]. intros [?|(p & r & -> & _)]; [done|].
    by rewrite strip_suffix_app in Hs.
Qed.

Lemma app_star_inv (q p x : string) :
  q +:+ ".*" = p +:+ "." +:+ x -> exists y, q +:+ "." = p +:+ "." +:+ y.
Proof.
  revert q; induction p as [|a p IH]; intros q; simpl.
  - destruct q as [|b q]; simpl; [by exists ""|]. intros [= -> _]. by exists (q +:+ ".").
  - destruct q as [|b q]; simpl.
    + intros [= <- Hp]. destruct p as [|c p]; simpl in Hp; [congruence|].
      injection Hp as _ Hp. by destruct p.
    + intros [= -> Hq]. destruct (IH _ Hq) as [y ->]. by exists y.
Qed.

Lemma dotted_name_subset_trans a b c :
  dotted_name_subset a b = true -> dotted_name_subset b c = true ->
  dotted_name_subset a c = true.
Proof.
  rewrite !dotted_name_subset_spec.
  intros [->|(q & r & -> & ->)]; [done|]. intros [<-|(p & x & -> & Hb)]; [by right; eauto|].
  right. apply app_star_inv in Hb as [y Hy]. exists p, (y +:+ r). split; [done|].
  change (q +:+ "." +:+ r) with (q +:+ ("." +:+ r)). rewrite <- string_app_assoc, Hy.
  by rewrite !string_app_assoc.
Qed.

Lemma dbus_arguments_subset_trans l m o :
  dbus_arguments_subset l m = true -> dbus_arguments_subset m o = true ->
  dbus_arguments_subset l o = true.
Proof.
  unfold dbus_arguments_subset. rewrite !forallb_True'. setoid_rewrite existsb_True'.
  intros Hlm Hmo c Hc. destruct (Hmo c Hc) as (b & Hb & Hbc).
  destruct (Hlm b Hb) as (a & Ha & Hab). exists a. split; [done|].
  apply andb_true_iff in Hab as [Hi Hab], Hbc as [Hj Hbc].
  apply N.eqb_eq in Hi, Hj. rewrite Hi, Hj, N.eqb_refl. simpl.
  destruct (da_equals_string a), (da_one_of_strings a), (da_equals_string b),
    (da_one_of_strings b), (da_equals_string c), (da_one_of_strings c); try done;
    rewrite ?String.eqb_eq in *; b2p; set_solver.
Qed.

Lemma command_arguments_subset_trans (l m o : list CommandArgument) :
  length l = length m -> length m = length o ->
  forallb (fun p => command_argument_subset p.1 p.2) (zip l m) = true ->
  forallb (fun p => command_argument_subset p.1 p.2) (zip m o) = true ->
  forallb (fun p => command_argument_subset p.1 p.2) (zip l o) = true.
Proof.
  revert m o; induction l as [|a l IH]; intros [|b m] [|c o]; simpl; try done.
  intros [= Hlm] [= Hmo]. rewrite !andb_true_iff. intros [Hab Hl] [Hbc Hm].
  split; [|by eapply (IH m)].
  destruct a, b; try done; destruct c; try done; simpl in *; b2p;
    rewrite ?String.eqb_eq, ?Z.leb_le, ?N.leb_le in *;
    repeat match goal with H : _ /\ _ |- _ => destruct H end; subst; repeat split; try lia; set_solver.
Qed.

Lemma command_rule_subset_trans a b c :
  command_rule_subset a b = true -> command_rule_subset b c = true ->
  command_rule_subset a c = true.
Proof.
  unfold command_rule_subset. b2p. rewrite !String.eqb_eq, !N.eqb_eq, !N.leb_le.
  unfold len. intros Hab Hbc.
  repeat match goal with H : _ /\ _ |- _ => destruct H end.
  repeat split; try congruence; try lia.
  eapply (command_arguments_subset_trans _ (cm_arguments b)); try done; lia.
Qed.

Lemma dbus_call_rule_subset_trans a b c :
  dbus_call_rule_subset a b = true -> dbus_call_rule_subset b c = true ->
  dbus_call_rule_subset a c = true.
Proof.
  unfold dbus_call_rule_subset, bool_authority_subset, activation_requirement_subset.
  b2p. rewrite !String.eqb_eq. intros Hab Hbc.
  repeat match goal with H : _ /\ _ |- _ => destruct H end.
  repeat split; try congruence; try intuition congruence.
  - by apply (dotted_name_subset_trans _ (dc_destination b)).
  - by apply (dbus_arguments_subset_trans _ (dc_arguments b)).
Qed.

(** Each D-Bus argument constraint has exactly one matcher. *)
Definition single_matchers (s : CapabilityScope) : bool :=
  match s with
  | DbusCall s => forallb (fun rule => forallb (fun a =>
      xorb (bool_decide (is_Some (da_equals_string a))) (bool_decide (is_Some (da_one_of_strings a))))
      (dc_arguments rule)) (dc_rules s)
  | _ => true
  end.

Lemma command_argument_subset_refl a : command_argument_subset a a = true.
Proof.
  destruct a; simpl; b2p; rewrite ?String.eqb_eq, ?Z.leb_le, ?N.leb_le; repeat split; try lia; done.
Qed.

Lemma command_rule_subset_refl c : command_rule_subset c c = true.
Proof.
  unfold command_rule_subset. b2p. rewrite !String.eqb_eq, N.eqb_eq, !N.leb_le.
  repeat split; try lia. apply forallb_True'. intros [a b] Hab.
  assert (a = b) as ->; [|apply command_argument_subset_refl].
  apply list_elem_of_lookup in Hab as [i Hi]. apply lookup_zip_Some in Hi as [H1 H2]; simpl in *. congruence.
Qed.

Lemma single_matchers_args_refl (l : list DbusArgumentConstraint) :
  forallb (fun a => xorb (bool_decide (is_Some (da_equals_string a)))
    (bool_decide (is_Some (da_one_of_strings a)))) l = true ->
  dbus_arguments_subset l l = true.
Proof.
  rewrite forallb_True'. intros Hm. apply (forall_exists_refl (fun a b => _)). intros a Ha.
  rewrite N.eqb_refl. specialize (Hm a Ha). simpl.
  destruct (da_equals_string a), (da_one_of_strings a); try done.
  - apply String.eqb_refl.
  - apply subset_b_refl.
Qed.

Lemma dbus_call_rule_subset_refl r :
  dbus_arguments_subset (dc_arguments r) (dc_arguments r) = true ->
  dbus_call_rule_subset r r = true.
Proof.
  intros Ha. unfold dbus_call_rule_subset. rewrite Ha, !String.eqb_refl, bool_decide_true by done.
  assert (dotted_name_subset (dc_destination r) (dc_destination r) = true) as ->
    by (apply dotted_name_subset_spec; by left).
  by destruct (dc_allow_service_activation r), (dc_requires_user_activation r).
Qed.

(** Discharge a comparison of two scopes field by field. *)
Ltac scope_cmp :=
  unfold bool_authority_subset, activation_requirement_subset in *; b2p;
  rewrite ?String.eqb_eq, ?N.leb_le in *;
  repeat match goal with H : _ /\ _ |- _ => destruct H end;
  repeat split;
  first [ lia | congruence
        | eapply origins_subset_trans; eassumption
        | eapply mount_labels_subset_trans; eassumption
        | eapply endpoint_labels_subset_trans; eassumption
        | eapply (transitivity (R := (⊆))); eassumption
        | intuition congruence ].

Lemma is_subset_of_refl s : single_matchers s = true -> is_subset_of s s = true.
Proof.
  destruct s; intros Hm; simpl in *; rewrite ?subset_b_refl, ?origins_subset_refl, ?N.leb_refl; simpl;
    try (unfold bool_authority_subset; by match goal with |- context [negb ?b || ?b] => destruct b end);
    try done; try apply String.eqb_refl.
  - rewrite andb_true_r. by destruct (fr_enumerate s); rewrite ?andb_true_r;
      apply (forall_exists_refl (fun a b => String.eqb (fm_label b) (fm_label a)));
      intros; apply String.eqb_refl.
  - rewrite !andb_true_r. apply (forall_exists_refl (fun a b => String.eqb (fm_label b) (fm_label a))).
    intros; apply String.eqb_refl.
  - apply forall_exists_refl. intros r Hr. rewrite forallb_True' in Hm.
    by apply dbus_call_rule_subset_refl, single_matchers_args_refl, Hm.
  - apply forall_exists_refl. intros; apply command_rule_subset_refl.
  - rewrite !andb_true_r. apply (forall_exists_refl (fun a b => _)).
    intros; by rewrite !String.eqb_refl.
  - rewrite !andb_true_r. apply (forall_exists_refl (fun a b => String.eqb (fm_label b) (fm_label a))).
    intros; apply String.eqb_refl.
Qed.

Lemma is_subset_of_trans s t u :
  is_subset_of s t = true -> is_subset_of t u = true -> is_subset_of s u = true.
Proof.
  destruct s, t, u; simpl; try done; intros Hst Htu; try (scope_cmp; fail).
  - eapply forall_exists_trans; eauto using dbus_call_rule_subset_trans.
  - b2p. rewrite N.leb_le in *. destruct Hst, Htu. split; [lia|].
    eapply forall_exists_trans; eauto using command_rule_subset_trans.
Qed.

(** [is_subset_of] is a preorder: it is transitive, and reflexive on every
    scope whose D-Bus argument constraints have one matcher each, as
    validation requires. *)
Theorem is_subset_of_preorder :
  (forall s, single_matchers s = true -> is_subset_of s s = true) /\
  (forall s t u, is_subset_of s t = true -> is_subset_of t u = true -> is_subset_of s u = true).
Proof.
  split; [exact is_subset_of_refl|].
  intros s t u Hst Htu. exact (is_subset_of_trans s t u Hst Htu).
Qed.

(** ** Risk and the trust summary *)

#[export] Instance risk_rank_inj : Inj (=) (=) risk_rank.
Proof. intros [] []; simpl; congruence. Qed.

Lemma risk_max_rank a b : risk_rank (risk_max a b) = N.max (risk_rank a) (risk_rank b).
Proof. unfold risk_max. destruct (N.leb_spec (risk_rank a) (risk_rank b)); lia. Qed.

Lemma risk_max_choice a b : risk_max a b = a \/ risk_max a b = b.
Proof. unfold risk_max. destruct (_ <=? _)%N; auto. Qed.

Lemma command_rule_subset_interpreter a b :
  command_rule_subset a b = true -> command_is_interpreter a = command_is_interpreter b.
Proof.
  unfold command_rule_subset, command_is_interpreter. b2p. rewrite !String.eqb_eq.
  intros [[[[[[[_ ->] _] _] _] _] _] _]. done.
Qed.

Lemma is_subset_of_risk s t c :
  is_subset_of s t = true -> (risk_rank (risk s c) <= risk_rank (risk t c))%N.
Proof.
  destruct c; simpl; try lia; destruct s, t; simpl; try done; b2p; intros [Hs Hr].
  - destruct (forallb _ (cr_facts s0)) eqn:Hpub.
    + assert (forallb context_fact_is_public (cr_facts s) = true) as ->; [|done].
      rewrite forallb_True' in *. eauto.
    + destruct (forallb _ (cr_facts s)); unfold risk_rank; lia.
  - rewrite forallb_True' in Hr. destruct (existsb _ (cm_commands s)) eqn:Hi; [|destruct (existsb _ (cm_commands s0)); unfold risk_rank; lia].
    assert (existsb command_is_interpreter (cm_commands s0) = true) as ->; [|done].
    rewrite existsb_True' in *. destruct Hi as (a & Ha & Hai).
    destruct (proj1 (existsb_True' _ _) (Hr a Ha)) as (b & Hb & Hab).
    exists b. split; [done|]. by rewrite <- (command_rule_subset_interpreter _ _ Hab).
Qed.

(** The loop of [summarize_trust] over a list of grants. *)
Lemma trust_fold grants acc :
  let r := fold_left trust_step grants acc in
  (r.1.1 = acc.1.1 \/ exists g, g ∈ grants /\ r.1.1 = risk (rq_scope g) (rq_capability g)) /\
  (risk_rank acc.1.1 <= risk_rank r.1.1)%N /\
  (forall g, g ∈ grants -> (risk_rank (risk (rq_scope g) (rq_capability g)) <= risk_rank r.1.1)%N) /\
  (r.1.2 = true <-> acc.1.2 = true \/ exists g, g ∈ grants /\ rq_capability g = HttpRequestV1) /\
  (r.2 = true <-> acc.2 = true \/ exists g, g ∈ grants /\ reads_sensitive (rq_capability g) = true).
Proof.
  revert acc; induction grants as [|g grants IH]; intros [[cl n] s]; simpl.
  - repeat split; auto; try lia; try (intros ? []%elem_of_nil);
      intros [?|(? & []%elem_of_nil & _)]; done.
  - destruct (IH (trust_step (cl, n, s) g)) as (Ha & Hb & Hc & Hd & He). clear IH. simpl in *.
    rewrite risk_max_rank in Hb. repeat split.
    + destruct Ha as [->|(g' & Hg' & ->)].
      * destruct (risk_max_choice cl (risk (rq_scope g) (rq_capability g))) as [->| ->]; [by left|].
        right. exists g. split; [by left|done].
      * right. exists g'. split; [by right|done].
    + lia.
    + intros g' [->|Hg']%elem_of_cons; [lia|auto].
    + rewrite Hd. b2p. setoid_rewrite elem_of_cons. intros [[?|?]|(g' & ? & ?)]; eauto.
    + rewrite Hd. b2p. intros [?|(g' & [->|?]%elem_of_cons & ?)]; eauto.
    + rewrite He. b2p. setoid_rewrite elem_of_cons. intros [[?|?]|(g' & ? & ?)]; eauto.
    + rewrite He. b2p. intros [?|(g' & [->|?]%elem_of_cons & ?)]; eauto.
Qed.

Lemma reads_sensitive_risk s c : reads_sensitive c = true -> risk s c = Sensitive.
Proof. by destruct c. Qed.

Lemma risk_not_isolated s c : risk s c <> Isolated.
Proof.
  destruct c; simpl; try done; destruct s; simpl; try done.
  - by destruct forallb.
  - by destruct existsb.
Qed.

(** The class of a component's summary is the class of the loop: the
    [max(Sensitive)] of the egress branch never changes it. *)
Lemma summarize_trust_class grants :
  class (summarize_trust ComponentRuntime grants) =
  (fold_left trust_step grants (Isolated, false, false)).1.1.
Proof.
  destruct (trust_fold grants (Isolated, false, false)) as (Ha & Hb & Hc & Hd & He).
  unfold summarize_trust. destruct (fold_left _ _ _) as [[cl n] s]. simpl in *.
  destruct (n && s) eqn:Hns; [|done]. simpl. apply andb_true_iff in Hns as [-> ->].
  destruct (proj1 He eq_refl) as [?|(g & Hg & Hs)]; [done|].
  apply Hc in Hg. rewrite (reads_sensitive_risk _ _ Hs) in Hg.
  apply (inj risk_rank). rewrite risk_max_rank. lia.
Qed.

(** The trust summary of a component is exactly the worst risk among its
    grants ([Isolated] when there is none), and the egress warning is shown
    exactly when an HTTP grant meets a grant that reads sensitive data; a
    native plugin is always unrestricted. *)
Theorem summarize_trust_spec (grants : list CapabilityRequest) :
  (forall g, g ∈ grants ->
    (risk_rank (risk (rq_scope g) (rq_capability g))
     <= risk_rank (class (summarize_trust ComponentRuntime grants)))%N) /\
  (class (summarize_trust ComponentRuntime grants) = Isolated <-> grants = []) /\
  (grants <> [] -> exists g, g ∈ grants /\
    class (summarize_trust ComponentRuntime grants) = risk (rq_scope g) (rq_capability g)) /\
  warnings (summarize_trust ComponentRuntime grants) =
    (if existsb (fun g => bool_decide (rq_capability g = HttpRequestV1)) grants
        && existsb (fun g => reads_sensitive (rq_capability g)) grants
     then [egress_warning] else []) /\
  summarize_trust NativeRuntime grants =
    {| class := UnrestrictedNative; warnings := [native_warning] |}.
Proof.
  rewrite !summarize_trust_class.
  destruct (trust_fold grants (Isolated, false, false)) as (Ha & Hb & Hc & Hd & He).
  assert (grants <> [] -> exists g, g ∈ grants /\
    (fold_left trust_step grants (Isolated, false, false)).1.1 =
      risk (rq_scope g) (rq_capability g)) as Hex.
  { intros Hne. destruct Ha as [Ha|?]; [|done]. destruct grants as [|g ?]; [done|].
    specialize (Hc g ltac:(by left)). rewrite Ha in Hc. simpl in Hc.
    destruct (risk_not_isolated (rq_scope g) (rq_capability g)). apply (inj risk_rank). simpl. lia. }
  split; [done|]. split; [|split; [done|split; [|done]]].
  - split; [|by intros ->]. intros Hi. destruct grants as [|g l]; [done|].
    destruct Hex as (g' & _ & Hg'); [done|]. rewrite Hi in Hg'. by destruct (risk_not_isolated (rq_scope g') (rq_capability g')).
  - unfold summarize_trust. destruct (fold_left _ _ _) as [[cl n] s]. simpl in *.
    replace (existsb (fun g => bool_decide (rq_capability g = HttpRequestV1)) grants) with n.
    2:{ apply eq_true_iff_eq. rewrite Hd, existsb_True'. setoid_rewrite bool_decide_eq_true.
        split; [intros [?|?]; done|by right]. }
    replace (existsb (fun g => reads_sensitive (rq_capability g)) grants) with s.
    2:{ apply eq_true_iff_eq. rewrite He, existsb_True'. split; [intros [?|?]; done|by right]. }
    by destruct (n && s).
Qed.

(** Approved scopes bound what the user was told: when every grant of a
    component is covered by a grant of an earlier version, the risk class of
    its trust summary does not rise. *)
Theorem summarize_trust_monotone (new old : list CapabilityRequest)
  (Hcovered : forall g, g ∈ new -> exists h, h ∈ old /\ rq_capability g = rq_capability h /\
    is_subset_of (rq_scope g) (rq_scope h) = true) :
  (risk_rank (class (summarize_trust ComponentRuntime new))
   <= risk_rank (class (summarize_trust ComponentRuntime old)))%N.
Proof.
  rewrite !summarize_trust_class.
  destruct (trust_fold new (Isolated, false, false)) as ([->|(g & Hg & ->)] & _); [simpl; lia|].
  destruct (Hcovered g Hg) as (h & Hh & -> & Hs).
  etrans; [by apply is_subset_of_risk|].
  by apply (trust_fold old (Isolated, false, false)).
Qed.

Lemma summarize_trust_monotone_witness :
  let scope l := {| rq_capability := ContextReadV1; rq_required := true; rq_reason := "r";
    rq_scope := ContextRead {| cr_facts := l; cr_maximum_updates_per_second := 1 |} |} in
  (risk_rank (class (summarize_trust ComponentRuntime [scope ["monitor.id"]]))
   <= risk_rank (class (summarize_trust ComponentRuntime [scope ["monitor.id"; "x.y"]])))%N.
Proof.
  intros scope. apply summarize_trust_monotone.
  intros g ->%list_elem_of_singleton. exists (scope ["monitor.id"; "x.y"]).
  split; [by left|]. split; [done|]. vm_compute. reflexivity.
Defined.
