(* ===== verification/ScopeCheck.v ===== *)
(** * Validation of requested scopes

    Models the second half of [crates/touchbar-policy/src/capability.rs]: the
    host limits [validate_scope] imposes on every scope, and the normalization
    of a manifest's permission table into typed, sorted, duplicate-free
    capability requests.  The decoding of a scope's TOML table is a parameter
    ([ScopeCodec]); every check on the decoded value is the source's. *)

From S2P Require Import Prelude BTree Text Capability.

Definition KiB : N := 1024.
Definition MiB : N := 1024 * KiB.

Record NormalizationError := { ne_field : string; ne_message : string }.

(** ** Checks that report an issue

    The source threads a closure [issue]; a check returns the messages it
    reports, in order. *)

Definition issue_if (c : bool) (message : string) : list string := if c then [message] else [].

Definition require_nonempty {A} (values : list A) (name : string) : list string :=
  match values with [] => [name +:+ " must not be empty"] | _ => [] end.
Definition require_nonzero (value : N) (name : string) : list string :=
  issue_if (value =? 0)%N (name +:+ " must be nonzero").
Definition require_at_most (value maximum : N) (name : string) : list string :=
  issue_if (maximum <? value)%N (name +:+ " exceeds host maximum " +:+ pretty maximum).
Definition require_collection_limit (length maximum : N) (name : string) : list string :=
  issue_if (maximum <? length)%N
    (name +:+ " contains " +:+ pretty length +:+ " entries; maximum is " +:+ pretty maximum).
Definition validate_rate (value : N) : list string :=
  issue_if (value =? 0)%N "rate must be nonzero".
Definition validate_kebab_set (values : list string) (label : string) : list string :=
  flat_map (fun value =>
    issue_if (negb (valid_kebab_id value)) ("invalid " +:+ label +:+ " " +:+ value)) values.

(** ** Names *)

Definition is_word_byte (c : ascii) : bool := is_ascii_alphanumeric c || Ascii.eqb c "_"%char.

Definition valid_dotted_name (value : string) : bool :=
  contains_byte value "."%char
  && forallb (fun part => negb (String.eqb part "") && all_bytes is_word_byte part)
       (split "."%char value).

Definition valid_member (value : string) : bool :=
  negb (String.eqb value "") && first_byte is_ascii_alphabetic value
  && all_bytes is_word_byte value.

Definition valid_environment_name (value : string) : bool :=
  negb (String.eqb value "")
  && (first_byte is_ascii_alphabetic value || first_byte (fun c => Ascii.eqb c "_"%char) value)
  && all_bytes is_word_byte value.

Definition valid_scheme (value : string) : bool :=
  negb (String.eqb value "") && first_byte is_ascii_lowercase value
  && all_bytes (fun c => is_ascii_lowercase c || is_ascii_digit c
       || Ascii.eqb c "+"%char || Ascii.eqb c "-"%char || Ascii.eqb c "."%char) value.

Definition dangerous_environment_name (name : string) : bool :=
  starts_with name "LD_" || starts_with name "DYLD_"
  || elem_b name ["GCONV_PATH"; "GETCONF_DIR"; "GLIBC_TUNABLES"; "HOSTALIASES"; "LOCPATH"].

Definition nul : ascii := ascii_of_N 0.

(** ** Parts of scopes *)

Definition validate_mounts (mounts : list FilesystemMountRequest) : list string :=
  require_nonempty mounts "mounts"
  ++ require_collection_limit (len mounts) 32 "mounts"
  ++ each_inserted (fun mount => Some (fm_label mount)) (fun fresh mount =>
       issue_if (negb (valid_kebab_id (fm_label mount)))
         ("invalid mount label " +:+ fm_label mount)
       ++ issue_if (negb fresh) ("duplicate mount label " +:+ fm_label mount)) [] mounts.

Definition valid_canonical_http_host (host : string) : bool :=
  if parses_as_ip host then true
  else if (253 <? slen host)%N || starts_with host "." || ends_with host "."
          || contains host ".."
          || all_bytes (fun c => is_ascii_digit c || Ascii.eqb c "."%char) host
  then false
  else forallb (fun label =>
         negb (String.eqb label "") && (slen label <=? 63)%N && negb (starts_with label "-")
         && negb (ends_with label "-")
         && all_bytes (fun c => is_ascii_alphanumeric c || Ascii.eqb c "-"%char) label)
         (split "."%char host).

Definition valid_http_host (host : string) : bool :=
  negb (String.eqb host "" || negb (all_bytes is_ascii_byte host)
        || negb (String.eqb host (to_ascii_lowercase host))
        || negb (valid_canonical_http_host host)).

Definition valid_path_prefix (prefix : string) : bool :=
  negb (negb (starts_with prefix "/")
        || contains_byte prefix "?"%char || contains_byte prefix "#"%char
        || contains_byte prefix "%"%char || contains_byte prefix "\"%char
        || contains prefix "//"
        || existsb (fun component => String.eqb component "." || String.eqb component "..")
             (split "/"%char prefix)
        || (negb (String.eqb prefix "/") && negb (ends_with prefix "/"))).

Definition validate_http_origin (origin : HttpOriginRule) : list string :=
  issue_if (negb (String.eqb (ho_scheme origin) "https") && negb (String.eqb (ho_scheme origin) "http"))
    ("unsupported HTTP scheme " +:+ ho_scheme origin)
  ++ issue_if (negb (valid_http_host (ho_host origin)))
       ("HTTP host " +:+ ho_host origin +:+ " is not canonical")
  ++ issue_if (ho_port origin =? 0)%N "HTTP origin port must be nonzero"
  ++ flat_map (fun prefix => issue_if (negb (valid_path_prefix prefix))
       ("HTTP path prefix " +:+ prefix +:+ " must be an absolute directory prefix ending in /"))
       (ho_path_prefixes origin).

Definition valid_dbus_destination (destination : string) : bool :=
  negb (starts_with destination ":")
  && (valid_dotted_name destination
      || match strip_suffix ".*" destination with
         | Some name => valid_dotted_name name
         | None => false
         end).

Definition valid_dbus_path (path : string) : bool :=
  negb (negb (starts_with path "/") || contains path "//" || contains_byte path "*"%char).

Definition validate_dbus_rule (destination path interface member : string) : list string :=
  issue_if (negb (valid_dbus_destination destination))
    ("invalid D-Bus well-known name " +:+ destination)
  ++ issue_if (negb (valid_dbus_path path)) ("invalid D-Bus object path " +:+ path)
  ++ issue_if (negb (valid_dotted_name interface) || negb (valid_member member))
       ("invalid D-Bus interface or member " +:+ interface +:+ "." +:+ member).

Definition command_argument_name (argument : CommandArgument) : option string :=
  match argument with
  | Literal _ => None
  | BoundedInteger name _ _ | FixedEnum name _ | BoundedText name _
  | ApprovedFile name _ | UrlArgument name _ => Some name
  end.

Definition bad_argument_text (value : string) : bool :=
  (4096 <? slen value)%N || contains_byte value nul.

Definition validate_command_argument (argument : CommandArgument) : list string :=
  match argument with
  | Literal value => issue_if (bad_argument_text value) "invalid literal command argument"
  | BoundedInteger name minimum maximum =>
      issue_if (negb (valid_kebab_id name) || (maximum <? minimum)%Z)
        ("invalid bounded integer argument " +:+ name)
  | FixedEnum name values =>
      issue_if (negb (valid_kebab_id name) || (len values =? 0)%N || (64 <? len values)%N
                || existsb bad_argument_text values)
        ("invalid fixed enum argument " +:+ name)
  | BoundedText name maximum_bytes =>
      issue_if (negb (valid_kebab_id name) || (maximum_bytes =? 0)%N || (4096 <? maximum_bytes)%N)
        ("invalid bounded text argument " +:+ name)
  | ApprovedFile name mount =>
      issue_if (negb (valid_kebab_id name) || negb (valid_kebab_id mount))
        ("invalid approved file argument " +:+ name)
  | UrlArgument name schemes =>
      issue_if (negb (valid_kebab_id name) || (len schemes =? 0)%N
                || negb (forallb valid_scheme schemes))
        ("invalid URL argument " +:+ name)
  end.

(** An absolute path whose components are names only. *)
Definition normalized_absolute (path : string) : bool :=
  is_absolute path
  && negb (existsb (fun part => match part with RootDir | Normal _ => false | _ => true end)
       (components path)).

(** ** [validate_scope], one definition per scope *)

Definition validate_context_read (value : ContextReadScope) : list string :=
  require_nonempty (cr_facts value) "facts"
  ++ require_collection_limit (len (cr_facts value)) 32 "facts"
  ++ validate_rate (cr_maximum_updates_per_second value)
  ++ require_at_most (cr_maximum_updates_per_second value) 60 "maximum_updates_per_second"
  ++ flat_map (fun fact => issue_if (negb (valid_dotted_id fact)) ("invalid context fact " +:+ fact))
       (cr_facts value).

Definition validate_filesystem_read (value : FilesystemReadScope) : list string :=
  validate_mounts (fr_mounts value)
  ++ require_nonzero (fr_maximum_file_bytes value) "maximum_file_bytes"
  ++ require_at_most (fr_maximum_file_bytes value) (64 * MiB) "maximum_file_bytes".

Definition validate_filesystem_write (value : FilesystemWriteScope) : list string :=
  validate_mounts (fw_mounts value)
  ++ require_nonempty (fw_operations value) "operations"
  ++ require_nonzero (fw_maximum_file_bytes value) "maximum_file_bytes"
  ++ require_nonzero (fw_maximum_total_bytes_per_hour value) "maximum_total_bytes_per_hour"
  ++ require_at_most (fw_maximum_file_bytes value) (64 * MiB) "maximum_file_bytes"
  ++ require_at_most (fw_maximum_total_bytes_per_hour value) (1024 * MiB)
       "maximum_total_bytes_per_hour".

Definition validate_http_request (value : HttpRequestScope) : list string :=
  require_nonempty (hr_origins value) "origins"
  ++ require_nonempty (hr_methods value) "methods"
  ++ require_nonzero (hr_maximum_request_bytes value) "maximum_request_bytes"
  ++ require_nonzero (hr_maximum_response_bytes value) "maximum_response_bytes"
  ++ validate_rate (hr_maximum_requests_per_minute value)
  ++ require_at_most (hr_maximum_request_bytes value) (4 * MiB) "maximum_request_bytes"
  ++ require_at_most (hr_maximum_response_bytes value) (32 * MiB) "maximum_response_bytes"
  ++ require_at_most (hr_maximum_requests_per_minute value) 600 "maximum_requests_per_minute"
  ++ flat_map validate_http_origin (hr_origins value).

Definition one_matcher (argument : DbusArgumentConstraint) : bool :=
  xorb (bool_decide (is_Some (da_equals_string argument)))
    (bool_decide (is_Some (da_one_of_strings argument))).

Definition empty_alternatives (argument : DbusArgumentConstraint) : bool :=
  match da_one_of_strings argument with Some [] => true | _ => false end.

Definition validate_dbus_call (value : DbusCallScope) : list string :=
  require_nonempty (dc_rules value) "rules"
  ++ require_collection_limit (len (dc_rules value)) 64 "rules"
  ++ flat_map (fun rule =>
       validate_dbus_rule (dc_destination rule) (dc_path rule) (dc_interface rule) (dc_member rule)
       ++ each_inserted (fun argument => Some (da_index argument)) (fun fresh argument =>
            issue_if (negb fresh)
              ("duplicate D-Bus argument constraint " +:+ pretty (da_index argument))
            ++ issue_if (negb (one_matcher argument))
                 "D-Bus argument constraint requires exactly one matcher"
            ++ issue_if (empty_alternatives argument)
                 "D-Bus argument one_of_strings must not be empty") [] (dc_arguments rule))
       (dc_rules value).

Definition validate_dbus_subscribe (value : DbusSubscribeScope) : list string :=
  require_nonempty (ds_rules value) "rules"
  ++ validate_rate (ds_maximum_events_per_second value)
  ++ require_at_most (ds_maximum_events_per_second value) 120 "maximum_events_per_second"
  ++ require_collection_limit (len (ds_rules value)) 64 "rules"
  ++ flat_map (fun rule =>
       validate_dbus_rule (ds_sender rule) (ds_path rule) (ds_interface rule) (ds_member rule))
       (ds_rules value).

Definition validate_command_rule (command : CommandRule) : list string :=
  issue_if (negb (normalized_absolute (cm_executable command)))
    ("command executable " +:+ cm_executable command +:+ " must be an absolute normalized path")
  ++ require_nonzero (cm_maximum_output_bytes command) "maximum_output_bytes"
  ++ require_nonzero (cm_timeout_milliseconds command) "timeout_milliseconds"
  ++ require_at_most (cm_maximum_output_bytes command) MiB "maximum_output_bytes"
  ++ require_at_most (cm_timeout_milliseconds command) 60000 "timeout_milliseconds"
  ++ require_collection_limit (len (cm_arguments command)) 32 "command arguments"
  ++ each_inserted command_argument_name (fun fresh argument =>
       validate_command_argument argument
       ++ match command_argument_name argument with
          | Some name => issue_if (negb fresh) ("duplicate command argument name " +:+ name)
          | None => []
          end) [] (cm_arguments command)
  ++ require_collection_limit (len (cm_environment command)) 16 "command environment"
  ++ flat_map (fun entry : string * string =>
       issue_if (negb (valid_environment_name entry.1) || dangerous_environment_name entry.1)
         ("invalid environment name " +:+ entry.1)
       ++ issue_if (bad_argument_text entry.2) ("invalid environment value for " +:+ entry.1))
       (cm_environment command)
  ++ match cm_working_directory command with
     | Some directory => issue_if (negb (normalized_absolute directory))
         "command working_directory must be an absolute normalized path"
     | None => []
     end.

Definition validate_command_run (value : CommandRunScope) : list string :=
  require_nonempty (cm_commands value) "commands"
  ++ issue_if (cm_maximum_parallel_processes value =? 0)%N
       "maximum_parallel_processes must be nonzero"
  ++ require_at_most (cm_maximum_parallel_processes value) 4 "maximum_parallel_processes"
  ++ require_collection_limit (len (cm_commands value)) 32 "commands"
  ++ each_inserted
       (fun command => if valid_kebab_id (cm_id command) then Some (cm_id command) else None)
       (fun fresh command =>
          issue_if (negb (valid_kebab_id (cm_id command)) || negb fresh)
            ("invalid command id " +:+ cm_id command)
          ++ validate_command_rule command) [] (cm_commands value).

Definition valid_mime (mime : string) : bool :=
  negb (String.eqb mime "" || (128 <? slen mime)%N || negb (all_bytes is_ascii_byte mime)
        || negb (contains_byte mime "/"%char)
        || any_byte (fun c => is_ascii_whitespace c || is_ascii_control c) mime).

Definition validate_clipboard (value : ClipboardScope) : list string :=
  require_nonempty (cb_mime_types value) "mime_types"
  ++ require_collection_limit (len (cb_mime_types value)) 16 "mime_types"
  ++ require_nonzero (cb_maximum_bytes value) "maximum_bytes"
  ++ require_at_most (cb_maximum_bytes value) (4 * MiB) "maximum_bytes"
  ++ validate_rate (cb_maximum_operations_per_minute value)
  ++ require_at_most (cb_maximum_operations_per_minute value) 60 "maximum_operations_per_minute"
  ++ flat_map (fun mime => issue_if (negb (valid_mime mime)) ("invalid MIME type " +:+ mime))
       (cb_mime_types value).

Definition validate_secret_read (value : SecretReadScope) : list string :=
  require_nonempty (sr_logical_names value) "logical_names"
  ++ validate_kebab_set (sr_logical_names value) "secret".

Definition validate_notification (value : NotificationScope) : list string :=
  require_nonempty (ns_categories value) "categories"
  ++ require_nonempty (ns_urgency value) "urgency"
  ++ validate_rate (ns_maximum_per_minute value)
  ++ require_at_most (ns_maximum_per_minute value) 60 "maximum_per_minute"
  ++ validate_kebab_set (ns_categories value) "notification category".

Definition validate_uri_open (value : UriOpenScope) : list string :=
  require_nonempty (uo_schemes value) "schemes"
  ++ flat_map (fun scheme => issue_if (negb (valid_scheme scheme)) ("invalid URI scheme " +:+ scheme))
       (uo_schemes value)
  ++ flat_map validate_http_origin (uo_origins value).

Definition validate_local_connect (value : LocalConnectScope) : list string :=
  require_nonempty (lc_endpoints value) "endpoints"
  ++ require_nonzero (lc_maximum_frame_bytes value) "maximum_frame_bytes"
  ++ require_nonzero (lc_maximum_bytes_per_minute value) "maximum_bytes_per_minute"
  ++ require_at_most (lc_maximum_frame_bytes value) MiB "maximum_frame_bytes"
  ++ require_at_most (lc_maximum_bytes_per_minute value) (64 * MiB) "maximum_bytes_per_minute"
  ++ flat_map (fun endpoint =>
       issue_if (negb (valid_kebab_id (le_label endpoint)) || negb (valid_dotted_id (le_protocol endpoint)))
         ("invalid local endpoint " +:+ le_label endpoint)) (lc_endpoints value).

Definition validate_appearance (value : AppearanceProvideScope) : list string :=
  require_nonempty (ap_providers value) "providers"
  ++ require_collection_limit (len (ap_providers value)) 8 "providers"
  ++ validate_mounts (ap_mounts value)
  ++ require_nonzero (ap_maximum_file_bytes value) "maximum_file_bytes"
  ++ require_at_most (ap_maximum_file_bytes value) MiB "maximum_file_bytes"
  ++ validate_rate (ap_maximum_updates_per_second value)
  ++ require_at_most (ap_maximum_updates_per_second value) 30 "maximum_updates_per_second"
  ++ validate_kebab_set (ap_providers value) "appearance provider".

Definition scope_issues (scope : CapabilityScope) : list string :=
  match scope with
  | ContextRead value => validate_context_read value
  | FilesystemRead value => validate_filesystem_read value
  | FilesystemWrite value => validate_filesystem_write value
  | HttpRequest value => validate_http_request value
  | DbusCall value => validate_dbus_call value
  | DbusSubscribe value => validate_dbus_subscribe value
  | CommandRun value => validate_command_run value
  | Clipboard value => validate_clipboard value
  | SecretRead value => validate_secret_read value
  | NotificationSend value => validate_notification value
  | UriOpen value => validate_uri_open value
  | LocalConnect value => validate_local_connect value
  | AppearanceProvide value => validate_appearance value
  | UnknownScope _ => []
  end.

Definition validate_scope (capability : CapabilityId) (scope : CapabilityScope) (field : string)
  : list NormalizationError :=
  List.map (fun message => {| ne_field := field; ne_message := message |})
    (scope_issues scope
     ++ issue_if (negb (matches_capability scope capability))
          "scope type does not match capability").

Definition validate_capability_scope (capability : CapabilityId) (scope : CapabilityScope)
  : result (list NormalizationError) () :=
  let errors := validate_scope capability scope "scope"
    ++ match scope with
       | UnknownScope encoded =>
           if (64 * KiB <? slen encoded)%N
           then [{| ne_field := "scope"; ne_message := "encoded scope exceeds 64 KiB" |}]
           else []
       | _ => []
       end in
  match errors with [] => Ok () | _ => Err errors end.

(** ** Well-formed scopes, declaratively *)

Definition wf_mounts (mounts : list FilesystemMountRequest) : Prop :=
  mounts <> [] /\ (len mounts <= 32)%N /\ NoDup (fm_label <$> mounts) /\
  (forall mount, mount ∈ mounts -> valid_kebab_id (fm_label mount) = true).

Definition wf_origin (origin : HttpOriginRule) : Prop :=
  (ho_scheme origin = "https" \/ ho_scheme origin = "http") /\
  valid_http_host (ho_host origin) = true /\ (0 < ho_port origin)%N /\
  (forall prefix, prefix ∈ ho_path_prefixes origin -> valid_path_prefix prefix = true).

Definition wf_dbus_name (destination path interface member : string) : Prop :=
  valid_dbus_destination destination = true /\ valid_dbus_path path = true /\
  valid_dotted_name interface = true /\ valid_member member = true.

(** One matcher per constraint, at most one constraint per argument position. *)
Definition wf_dbus_arguments (arguments : list DbusArgumentConstraint) : Prop :=
  NoDup (da_index <$> arguments) /\
  (forall argument, argument ∈ arguments -> one_matcher argument = true /\
    da_one_of_strings argument <> Some []).

Definition wf_argument (argument : CommandArgument) : Prop :=
  match argument with
  | Literal value => bad_argument_text value = false
  | BoundedInteger name minimum maximum => valid_kebab_id name = true /\ (minimum <= maximum)%Z
  | FixedEnum name values => valid_kebab_id name = true /\ (0 < len values <= 64)%N /\
      (forall value, value ∈ values -> bad_argument_text value = false)
  | BoundedText name maximum => valid_kebab_id name = true /\ (0 < maximum <= 4096)%N
  | ApprovedFile name mount => valid_kebab_id name = true /\ valid_kebab_id mount = true
  | UrlArgument name schemes => valid_kebab_id name = true /\ schemes <> [] /\
      (forall scheme, scheme ∈ schemes -> valid_scheme scheme = true)
  end.

Record wf_command (command : CommandRule) : Prop := {
  wfc_id : valid_kebab_id (cm_id command) = true;
  wfc_executable : normalized_absolute (cm_executable command) = true;
  wfc_output : (0 < cm_maximum_output_bytes command <= MiB)%N;
  wfc_timeout : (0 < cm_timeout_milliseconds command <= 60000)%N;
  wfc_arity : (len (cm_arguments command) <= 32)%N;
  wfc_arguments : forall argument, argument ∈ cm_arguments command -> wf_argument argument;
  wfc_names : NoDup (omap command_argument_name (cm_arguments command));
  wfc_environment_size : (len (cm_environment command) <= 16)%N;
  wfc_environment : forall entry, entry ∈ cm_environment command ->
    valid_environment_name entry.1 = true /\ dangerous_environment_name entry.1 = false /\
    bad_argument_text entry.2 = false;
  wfc_directory : forall directory, cm_working_directory command = Some directory ->
    normalized_absolute directory = true;
}.

(** What the host promises of an accepted scope, scope by scope. *)
Definition wf_scope (scope : CapabilityScope) : Prop :=
  match scope with
  | ContextRead v =>
      cr_facts v <> [] /\ (len (cr_facts v) <= 32)%N /\
      (0 < cr_maximum_updates_per_second v <= 60)%N /\
      (forall fact, fact ∈ cr_facts v -> valid_dotted_id fact = true)
  | FilesystemRead v =>
      wf_mounts (fr_mounts v) /\ (0 < fr_maximum_file_bytes v <= 64 * MiB)%N
  | FilesystemWrite v =>
      wf_mounts (fw_mounts v) /\ fw_operations v <> [] /\
      (0 < fw_maximum_file_bytes v <= 64 * MiB)%N /\
      (0 < fw_maximum_total_bytes_per_hour v <= 1024 * MiB)%N
  | HttpRequest v =>
      hr_origins v <> [] /\ hr_methods v <> [] /\
      (0 < hr_maximum_request_bytes v <= 4 * MiB)%N /\
      (0 < hr_maximum_response_bytes v <= 32 * MiB)%N /\
      (0 < hr_maximum_requests_per_minute v <= 600)%N /\
      (forall origin, origin ∈ hr_origins v -> wf_origin origin)
  | DbusCall v =>
      dc_rules v <> [] /\ (len (dc_rules v) <= 64)%N /\
      (forall rule, rule ∈ dc_rules v ->
        wf_dbus_name (dc_destination rule) (dc_path rule) (dc_interface rule) (dc_member rule) /\
        wf_dbus_arguments (dc_arguments rule))
  | DbusSubscribe v =>
      ds_rules v <> [] /\ (0 < ds_maximum_events_per_second v <= 120)%N /\
      (len (ds_rules v) <= 64)%N /\
      (forall rule, rule ∈ ds_rules v ->
        wf_dbus_name (ds_sender rule) (ds_path rule) (ds_interface rule) (ds_member rule))
  | CommandRun v =>
      cm_commands v <> [] /\ (0 < cm_maximum_parallel_processes v <= 4)%N /\
      (len (cm_commands v) <= 32)%N /\ NoDup (cm_id <$> cm_commands v) /\
      (forall command, command ∈ cm_commands v -> wf_command command)
  | Clipboard v =>
      cb_mime_types v <> [] /\ (len (cb_mime_types v) <= 16)%N /\
      (0 < cb_maximum_bytes v <= 4 * MiB)%N /\
      (0 < cb_maximum_operations_per_minute v <= 60)%N /\
      (forall mime, mime ∈ cb_mime_types v -> valid_mime mime = true)
  | SecretRead v =>
      sr_logical_names v <> [] /\
      (forall name, name ∈ sr_logical_names v -> valid_kebab_id name = true)
  | NotificationSend v =>
      ns_categories v <> [] /\ ns_urgency v <> [] /\ (0 < ns_maximum_per_minute v <= 60)%N /\
      (forall name, name ∈ ns_categories v -> valid_kebab_id name = true)
  | UriOpen v =>
      uo_schemes v <> [] /\ (forall scheme, scheme ∈ uo_schemes v -> valid_scheme scheme = true) /\
      (forall origin, origin ∈ uo_origins v -> wf_origin origin)
  | LocalConnect v =>
      lc_endpoints v <> [] /\ (0 < lc_maximum_frame_bytes v <= MiB)%N /\
      (0 < lc_maximum_bytes_per_minute v <= 64 * MiB)%N /\
      (forall endpoint, endpoint ∈ lc_endpoints v ->
        valid_kebab_id (le_label endpoint) = true /\ valid_dotted_id (le_protocol endpoint) = true)
  | AppearanceProvide v =>
      ap_providers v <> [] /\ (len (ap_providers v) <= 8)%N /\ wf_mounts (ap_mounts v) /\
      (0 < ap_maximum_file_bytes v <= MiB)%N /\ (0 < ap_maximum_updates_per_second v <= 30)%N /\
      (forall name, name ∈ ap_providers v -> valid_kebab_id name = true)
  | UnknownScope _ => True
  end.

(** ** The checks decide well-formedness *)

Create Rewrite HintDb issues.

Lemma issue_if_nil c m : issue_if c m = [] <-> c = false.
Proof. by destruct c. Qed.
Lemma require_nonempty_nil {A} (l : list A) n : require_nonempty l n = [] <-> l <> [].
Proof. by destruct l. Qed.
Lemma require_nonzero_nil v n : require_nonzero v n = [] <-> (0 < v)%N.
Proof. unfold require_nonzero. rewrite issue_if_nil, N.eqb_neq. lia. Qed.
Lemma require_at_most_nil v m n : require_at_most v m n = [] <-> (v <= m)%N.
Proof. unfold require_at_most. by rewrite issue_if_nil, N.ltb_ge. Qed.
Lemma require_collection_limit_nil v m n : require_collection_limit v m n = [] <-> (v <= m)%N.
Proof. unfold require_collection_limit. by rewrite issue_if_nil, N.ltb_ge. Qed.
Lemma validate_rate_nil v : validate_rate v = [] <-> (0 < v)%N.
Proof. unfold validate_rate. rewrite issue_if_nil, N.eqb_neq. lia. Qed.
Lemma flat_map_nil {A B} (f : A -> list B) l :
  flat_map f l = [] <-> forall a, a ∈ l -> f a = [].
Proof.
  induction l as [|a l IH]; simpl.
  - split; [by intros _ ? ?%elem_of_nil|done].
  - rewrite app_nil, IH. setoid_rewrite elem_of_cons. split; [|auto].
    intros [? ?] ? [->|?]; auto.
Qed.
Lemma validate_kebab_set_nil l n :
  validate_kebab_set l n = [] <-> forall v, v ∈ l -> valid_kebab_id v = true.
Proof.
  unfold validate_kebab_set. rewrite flat_map_nil. setoid_rewrite issue_if_nil.
  by setoid_rewrite negb_false_iff.
Qed.
#[export] Hint Rewrite @app_nil issue_if_nil @require_nonempty_nil require_nonzero_nil
  require_at_most_nil require_collection_limit_nil validate_rate_nil @flat_map_nil
  validate_kebab_set_nil negb_false_iff orb_false_iff : issues.

Lemma omap_Some_key {A K} (key : A -> K) (l : list A) : omap (fun a => Some (key a)) l = key <$> l.
Proof. induction l; simpl; [done|]. by f_equal. Qed.

(** The loops that look for duplicate keys. *)
Lemma each_keyed_nil {A K B} `{OrdLaws K} (key : A -> K) (body : bool -> A -> list B) (l : list A) :
  (forall a, body false a <> []) ->
  each_inserted (fun a => Some (key a)) body [] l = [] <->
  NoDup (key <$> l) /\ (forall a, a ∈ l -> body true a = []).
Proof.
  intros Hb. rewrite each_inserted_nil by auto. rewrite omap_Some_key.
  setoid_rewrite bool_decide_true; [|by eauto..]. split; [tauto|]. intros [? ?].
  split; [done|]. split; [|done]. by intros k _ ?%elem_of_nil.
Qed.

Lemma validate_mounts_nil l : validate_mounts l = [] <-> wf_mounts l.
Proof.
  unfold validate_mounts, wf_mounts. autorewrite with issues.
  rewrite each_keyed_nil; [|intros a; by rewrite app_nil; intros [_ ?]].
  setoid_rewrite app_nil. setoid_rewrite issue_if_nil. setoid_rewrite negb_false_iff.
  split; intros (? & ? & ? & Hl); repeat split; try done; intros; by apply Hl.
Qed.

Lemma validate_http_origin_nil o : validate_http_origin o = [] <-> wf_origin o.
Proof.
  unfold validate_http_origin, wf_origin. autorewrite with issues.
  rewrite andb_false_iff, !negb_false_iff, !String.eqb_eq, N.eqb_neq.
  setoid_rewrite issue_if_nil. setoid_rewrite negb_false_iff.
  assert (ho_port o <> 0 <-> 0 < ho_port o)%N as -> by lia. tauto.
Qed.

Lemma validate_dbus_rule_nil d p i m : validate_dbus_rule d p i m = [] <-> wf_dbus_name d p i m.
Proof. unfold validate_dbus_rule, wf_dbus_name. autorewrite with issues. tauto. Qed.

Lemma validate_command_argument_nil a : validate_command_argument a = [] <-> wf_argument a.
Proof.
  destruct a; simpl; autorewrite with issues; rewrite ?Z.ltb_ge, ?N.eqb_neq, ?N.ltb_ge.
  - done.
  - done.
  - rewrite <- not_true_iff_false, existsb_True'. unfold len.
    split; intros; repeat split; try tauto; try lia.
    + intros v Hv. apply not_true_iff_false. intros ?. apply H. eauto.
    + intros (v & Hv & Hb). destruct H as (_ & _ & H). rewrite H in Hb; [done|done].
  - intuition lia.
  - done.
  - rewrite forallb_True'. unfold len. destruct schemes; simpl; intuition (try lia; try done).
Qed.

Lemma validate_arguments_nil l :
  each_inserted command_argument_name (fun fresh argument =>
       validate_command_argument argument
       ++ match command_argument_name argument with
          | Some name => issue_if (negb fresh) ("duplicate command argument name " +:+ name)
          | None => []
          end) [] l = [] <->
  NoDup (omap command_argument_name l) /\ (forall argument, argument ∈ l -> wf_argument argument).
Proof.
  rewrite each_inserted_nil.
  - setoid_rewrite app_nil. setoid_rewrite validate_command_argument_nil. split.
    + intros (? & _ & Ha). split; [done|]. intros a Hin. by apply Ha.
    + intros (? & Ha). split; [done|]. split; [by intros k _ ?%elem_of_nil|].
      intros a Hin. split; [by apply Ha|].
      destruct (command_argument_name a); [|done]. by rewrite bool_decide_true by eauto.
  - intros a [n Hn]. rewrite Hn, app_nil. by intros [_ ?].
Qed.

#[local] Opaque bad_argument_text dangerous_environment_name.

Lemma validate_command_rule_nil c :
  valid_kebab_id (cm_id c) = true -> validate_command_rule c = [] <-> wf_command c.
Proof.
  intros Hid. unfold validate_command_rule.
  rewrite !app_nil, validate_arguments_nil. autorewrite with issues.
  setoid_rewrite app_nil. setoid_rewrite issue_if_nil. setoid_rewrite orb_false_iff.
  setoid_rewrite negb_false_iff. split.
  - intros (? & ? & ? & ? & ? & ? & [? ?] & ? & Henv & Hdir). split; try done.
    + intros e He. destruct (Henv e He) as [[Hn Hd] Hv]. auto.
    + intros d Hd. rewrite Hd in Hdir. by rewrite issue_if_nil, negb_false_iff in Hdir.
  - intros []. repeat split; try done; try tauto.
    + intros. by apply wfc_environment0.
    + intros. by apply wfc_environment0.
    + intros. by apply wfc_environment0.
    + destruct (cm_working_directory c); [|done]. rewrite issue_if_nil, negb_false_iff. auto.
Qed.

Lemma validate_commands_nil l :
  each_inserted
    (fun command => if valid_kebab_id (cm_id command) then Some (cm_id command) else None)
    (fun fresh command =>
       issue_if (negb (valid_kebab_id (cm_id command)) || negb fresh)
         ("invalid command id " +:+ cm_id command)
       ++ validate_command_rule command) [] l = [] <->
  NoDup (cm_id <$> l) /\ (forall command, command ∈ l -> wf_command command).
Proof.
  rewrite each_inserted_nil.
  2:{ intros a _. rewrite app_nil, issue_if_nil, orb_true_r. by intros [? _]. }
  setoid_rewrite app_nil. setoid_rewrite issue_if_nil. setoid_rewrite orb_false_iff.
  setoid_rewrite negb_false_iff.
  assert ((forall c, c ∈ l -> valid_kebab_id (cm_id c) = true) ->
    omap (fun c => if valid_kebab_id (cm_id c) then Some (cm_id c) else None) l = cm_id <$> l)
    as Hids.
  { clear. induction l as [|c l IH]; intros Hv; [done|]. simpl. rewrite (Hv c) by by left.
    f_equal. apply IH. intros; apply Hv. by right. }
  split.
  - intros (Hnd & _ & Hc). rewrite Hids in Hnd by (intros c Hin; by apply Hc). split; [done|].
    intros c Hin. apply validate_command_rule_nil; by apply Hc.
  - intros (Hnd & Hc). assert (forall c, c ∈ l -> valid_kebab_id (cm_id c) = true) as Hv
      by (intros c Hin; by apply wfc_id, Hc).
    rewrite Hids by done. split; [done|]. split; [by intros k _ ?%elem_of_nil|].
    intros c Hin. rewrite Hv by done. split; [done|]. apply validate_command_rule_nil; auto.
Qed.

Lemma validate_dbus_arguments_nil l :
  each_inserted (fun argument => Some (da_index argument)) (fun fresh argument =>
            issue_if (negb fresh)
              ("duplicate D-Bus argument constraint " +:+ pretty (da_index argument))
            ++ issue_if (negb (one_matcher argument))
                 "D-Bus argument constraint requires exactly one matcher"
            ++ issue_if (empty_alternatives argument)
                 "D-Bus argument one_of_strings must not be empty") [] l = [] <->
  wf_dbus_arguments l.
Proof.
  rewrite each_keyed_nil; [|intros a; rewrite app_nil; by intros [? _]].
  unfold wf_dbus_arguments. setoid_rewrite app_nil. setoid_rewrite app_nil.
  setoid_rewrite issue_if_nil. setoid_rewrite negb_false_iff.
  assert (forall a, empty_alternatives a = false <-> da_one_of_strings a <> Some []) as He.
  { intros a. unfold empty_alternatives. by destruct (da_one_of_strings a) as [[]|]. }
  setoid_rewrite He. split; intros [? Hl]; (split; [done|]); intros a Hin;
    destruct (Hl a Hin); tauto.
Qed.

Lemma scope_issues_nil s : scope_issues s = [] <-> wf_scope s.
Proof.
  destruct s; simpl.
  - unfold validate_context_read. autorewrite with issues. setoid_rewrite issue_if_nil.
    setoid_rewrite negb_false_iff. tauto.
  - unfold validate_filesystem_read. rewrite app_nil, validate_mounts_nil.
    by autorewrite with issues.
  - unfold validate_filesystem_write. rewrite app_nil, validate_mounts_nil.
    autorewrite with issues. tauto.
  - unfold validate_http_request. autorewrite with issues.
    setoid_rewrite validate_http_origin_nil. tauto.
  - unfold validate_dbus_call. autorewrite with issues. setoid_rewrite app_nil.
    setoid_rewrite validate_dbus_rule_nil. by setoid_rewrite validate_dbus_arguments_nil.
  - unfold validate_dbus_subscribe. autorewrite with issues.
    setoid_rewrite validate_dbus_rule_nil. tauto.
  - unfold validate_command_run. rewrite !app_nil, validate_commands_nil.
    autorewrite with issues. rewrite N.eqb_neq.
    assert (cm_maximum_parallel_processes s <> 0 <-> 0 < cm_maximum_parallel_processes s)%N as ->
      by lia. tauto.
  - unfold validate_clipboard. autorewrite with issues. setoid_rewrite issue_if_nil.
    setoid_rewrite negb_false_iff. tauto.
  - unfold validate_secret_read. by autorewrite with issues.
  - unfold validate_notification. autorewrite with issues. tauto.
  - unfold validate_uri_open. autorewrite with issues. setoid_rewrite validate_http_origin_nil.
    setoid_rewrite issue_if_nil. by setoid_rewrite negb_false_iff.
  - unfold validate_local_connect. autorewrite with issues. setoid_rewrite issue_if_nil.
    setoid_rewrite orb_false_iff. setoid_rewrite negb_false_iff. tauto.
  - unfold validate_appearance. autorewrite with issues. rewrite validate_mounts_nil. tauto.
  - done.
Qed.

Lemma validate_scope_nil c s f :
  validate_scope c s f = [] <-> wf_scope s /\ matches_capability s c = true.
Proof.
  unfold validate_scope.
  assert (forall {A B} (g : A -> B) l, List.map g l = [] <-> l = []) as Hm by by intros ? ? ? [].
  rewrite Hm, app_nil, scope_issues_nil, issue_if_nil.
  by rewrite negb_false_iff.
Qed.

(** A validated scope has one matcher per D-Bus constraint, so [is_subset_of]
    is reflexive on it. *)
Lemma wf_single_matchers s : wf_scope s -> single_matchers s = true.
Proof.
  destruct s; try done. intros (_ & _ & Hr). simpl. apply forallb_True'. intros r Hin.
  apply forallb_True'. intros a Ha. destruct (Hr r Hin) as [_ [_ Hargs]]. by apply Hargs.
Qed.

(** C4: The host accepts a typed scope exactly when the scope is well formed, fits
    the capability it is requested under and, for an unknown capability,
    encodes in at most 64 KiB; otherwise it reports at least one issue. *)
Theorem validate_capability_scope_spec (c : CapabilityId) (s : CapabilityScope) :
  (validate_capability_scope c s = Ok () <->
    wf_scope s /\ matches_capability s c = true /\
    (forall encoded, s = UnknownScope encoded -> slen encoded <= 64 * KiB)%N) /\
  (forall errors, validate_capability_scope c s = Err errors -> errors <> []).
Proof.
  unfold validate_capability_scope. split; [|by intros errors; destruct (_ ++ _); [|intros [= <-]]].
  transitivity (validate_scope c s "scope"
    ++ match s with
       | UnknownScope encoded =>
           if (64 * KiB <? slen encoded)%N
           then [{| ne_field := "scope"; ne_message := "encoded scope exceeds 64 KiB" |}]
           else []
       | _ => []
       end = []); [by destruct (_ ++ _)|].
  rewrite app_nil, validate_scope_nil.
  enough (match s with
       | UnknownScope encoded =>
           if (64 * KiB <? slen encoded)%N
           then [{| ne_field := "scope"; ne_message := "encoded scope exceeds 64 KiB" |}]
           else []
       | _ => []
       end = [] <-> forall encoded, s = UnknownScope encoded -> (slen encoded <= 64 * KiB)%N)
    as -> by tauto.
  destruct s; try done. destruct (N.ltb_spec (64 * KiB) (slen encoded)).
  - split; [done|]. intros Hs. specialize (Hs _ eq_refl). lia.
  - split; [|done]. by intros _ e [= <-].
Qed.
