(* ===== verification/Normalize.v ===== *)
(** * Normalization of a manifest's permissions

    Models [normalize_manifest_permissions] and [normalize_permission] of
    [crates/touchbar-policy/src/capability.rs]: the permission table of a
    plugin manifest becomes a sorted list of typed capability requests, or the
    list of everything wrong with it.  The TOML encoder and the typed decoders
    are third-party and derived code: [ScopeCodec] is their interface. *)

From S2P Require Import Prelude BTree Text Capability ScopeCheck.

(** The [toml] crate and the decoders [serde] derives for the scope types. *)
Class ScopeCodec := {
  Table : Type;
  toml_to_string : Table -> result string string;
  decode_context_read : Table -> result string ContextReadScope;
  decode_filesystem_read : Table -> result string FilesystemReadScope;
  decode_filesystem_write : Table -> result string FilesystemWriteScope;
  decode_http_request : Table -> result string HttpRequestScope;
  decode_dbus_call : Table -> result string DbusCallScope;
  decode_dbus_subscribe : Table -> result string DbusSubscribeScope;
  decode_command_run : Table -> result string CommandRunScope;
  decode_clipboard : Table -> result string ClipboardScope;
  decode_secret_read : Table -> result string SecretReadScope;
  decode_notification : Table -> result string NotificationScope;
  decode_uri_open : Table -> result string UriOpenScope;
  decode_local_connect : Table -> result string LocalConnectScope;
  decode_appearance : Table -> result string AppearanceProvideScope;
}.

Section Normalize.
Context {codec : ScopeCodec}.

Record PermissionRequest := {
  pr_capability : string;
  pr_required : bool;
  pr_reason : string;
  pr_scope : Table;
}.

(** The fields of [AppearanceProvider] and [PluginManifest] read here. *)
Record AppearanceProvider := { avp_id : string; avp_mounts : list string }.
Record PluginManifest := {
  appearance_providers : list AppearanceProvider;
  permissions : list PermissionRequest;
}.

Definition permission_field (index : nat) (name : string) : string :=
  "permission[" +:+ pretty index +:+ "]." +:+ name.

Definition one_error (field message : string) : list NormalizationError :=
  [{| ne_field := field; ne_message := message |}].

(** The error text of [decode_scope]. *)
Definition decode_scope {A} (decode : Table -> result string A) (permission : PermissionRequest)
  (field : string) : result string A :=
  map_err (fun error => "invalid " +:+ field +:+ ": " +:+ error) (decode (pr_scope permission)).

Definition decode_for (capability : CapabilityId) (permission : PermissionRequest)
  (encoded field : string) : result string CapabilityScope :=
  match capability with
  | ContextReadV1 => s ← decode_scope decode_context_read permission field; Ok (ContextRead s)
  | FilesystemReadV1 => s ← decode_scope decode_filesystem_read permission field; Ok (FilesystemRead s)
  | FilesystemWriteV1 =>
      s ← decode_scope decode_filesystem_write permission field; Ok (FilesystemWrite s)
  | HttpRequestV1 => s ← decode_scope decode_http_request permission field; Ok (HttpRequest s)
  | DbusCallV1 => s ← decode_scope decode_dbus_call permission field; Ok (DbusCall s)
  | DbusSubscribeV1 => s ← decode_scope decode_dbus_subscribe permission field; Ok (DbusSubscribe s)
  | CommandRunV1 => s ← decode_scope decode_command_run permission field; Ok (CommandRun s)
  | ClipboardReadV1 | ClipboardWriteV1 =>
      s ← decode_scope decode_clipboard permission field; Ok (Clipboard s)
  | SecretReadV1 => s ← decode_scope decode_secret_read permission field; Ok (SecretRead s)
  | NotificationSendV1 =>
      s ← decode_scope decode_notification permission field; Ok (NotificationSend s)
  | UriOpenV1 => s ← decode_scope decode_uri_open permission field; Ok (UriOpen s)
  | LocalConnectV1 => s ← decode_scope decode_local_connect permission field; Ok (LocalConnect s)
  | AppearanceProvideV1 =>
      s ← decode_scope decode_appearance permission field; Ok (AppearanceProvide s)
  | UnknownCapability _ => Ok (UnknownScope encoded)
  end.

Definition normalize_permission (permission : PermissionRequest) (index : nat)
  : result (list NormalizationError) CapabilityRequest :=
  let field := permission_field index "scope" in
  encoded_scope ← map_err (one_error field) (toml_to_string (pr_scope permission));
  _ ← reject_if (64 * KiB <? slen encoded_scope)%N
        (one_error field "encoded scope exceeds 64 KiB");
  capability ← map_err (one_error (permission_field index "capability"))
                 (capability_from_str (pr_capability permission));
  scope ← map_err (one_error field) (decode_for capability permission encoded_scope field);
  let errors := validate_scope capability scope field
    ++ (if (1024 <? slen (pr_reason permission))%N
        then one_error (permission_field index "reason") "reason exceeds 1024 bytes" else []) in
  match errors with
  | [] => Ok {| rq_capability := capability; rq_required := pr_required permission;
                rq_reason := trim (pr_reason permission); rq_scope := scope |}
  | _ => Err errors
  end.

(** The loop over the permission table: capabilities seen, requests, errors. *)
Definition permission_step
  (acc : list CapabilityId * list CapabilityRequest * list NormalizationError)
  (entry : nat * PermissionRequest)
  : list CapabilityId * list CapabilityRequest * list NormalizationError :=
  let '(seen, requests, errors) := acc in
  let '(index, permission) := entry in
  match normalize_permission permission index with
  | Ok request =>
      let '(seen', fresh) := set_insert (rq_capability request) seen in
      if fresh then (seen', requests ++ [request], errors)
      else (seen', requests, errors
        ++ one_error (permission_field index "capability") "duplicate capability request")
  | Err permission_errors => (seen, requests, errors ++ permission_errors)
  end.

Definition enumerate {A} (l : list A) : list (nat * A) := zip (seq 0 (length l)) l.

(** [find_map] over the requests. *)
Definition find_appearance (requests : list CapabilityRequest) : option AppearanceProvideScope :=
  first_some (fun request =>
    match rq_scope request with AppearanceProvide scope => Some scope | _ => None end) requests.

Definition provider_errors (appearance : option AppearanceProvideScope)
  (entry : nat * AppearanceProvider) : list NormalizationError :=
  let '(index, provider) := entry in
  let prefix := "appearance-provider[" +:+ pretty index +:+ "]" in
  (if match appearance with
      | Some scope => set_contains (avp_id provider) (ap_providers scope)
      | None => false
      end then []
   else one_error (prefix +:+ ".id")
          ("provider `" +:+ avp_id provider +:+ "` must be listed by appearance.provide.v1"))
  ++ flat_map (fun mount =>
       if match appearance with
          | Some scope => existsb (fun r => String.eqb (fm_label r) mount) (ap_mounts scope)
          | None => false
          end then []
       else one_error (prefix +:+ ".mounts")
              ("mount `" +:+ mount +:+ "` must be listed by appearance.provide.v1"))
       (avp_mounts provider).

Definition appearance_errors (providers : list AppearanceProvider)
  (appearance : option AppearanceProvideScope) : list NormalizationError :=
  let declared_provider_ids := set_of (avp_id <$> providers) in
  let declared_mounts := set_of (flat_map avp_mounts providers) in
  flat_map (provider_errors appearance) (enumerate providers)
  ++ match appearance with
     | None => []
     | Some scope =>
         (if bool_decide (set_of (ap_providers scope) = declared_provider_ids) then []
          else one_error "permission.scope.providers"
                 "appearance provider IDs must exactly match declared workers")
         ++ (if bool_decide (set_of (fm_label <$> ap_mounts scope) = declared_mounts) then []
             else one_error "permission.scope.mounts"
                    "appearance mounts must exactly match worker mount declarations")
     end.

Definition normalize_manifest_permissions (manifest : PluginManifest)
  : result (list NormalizationError) (list CapabilityRequest) :=
  if (64 <? len (permissions manifest))%N
  then Err (one_error "permission" "a package may request at most 64 capabilities")
  else
    let '(seen, requests, errors) :=
      fold_left permission_step (enumerate (permissions manifest)) ([], [], []) in
    let errors' := match errors with
      | [] => appearance_errors (appearance_providers manifest) (find_appearance requests)
      | _ => errors
      end in
    match errors' with
    | [] => Ok (sort_by (key_le rq_capability) requests)
    | _ => Err errors'
    end.

(** ** What a successful normalization guarantees *)

(** A single request of a normalized manifest. *)
Definition wf_request (request : CapabilityRequest) : Prop :=
  wf_scope (rq_scope request) /\
  matches_capability (rq_scope request) (rq_capability request) = true /\
  canonical_capability (rq_capability request) = true /\
  (slen (rq_reason request) <= 1024)%N.

Lemma trim_with_length (strip : string -> string -> option string) fuel s :
  (forall w t u, strip w t = Some u -> (slen u <= slen t)%N) ->
  (slen (trim_with strip fuel s) <= slen s)%N.
Proof.
  intros Hstrip. revert s; induction fuel as [|fuel IH]; intros s; cbn [trim_with]; [lia|].
  destruct (first_some (fun w => strip w s) white_space) as [s'|] eqn:Hf; [|lia].
  apply first_some_Some in Hf as (w & _ & Hw%Hstrip). etrans; [apply IH|done].
Qed.

Lemma slen_trim s : (slen (trim s) <= slen s)%N.
Proof.
  unfold trim, trim_end, trim_start. etrans; apply trim_with_length.
  - intros w t u Hs%strip_suffix_Some. rewrite Hs, slen_app. lia.
  - intros w t u Hs%strip_prefix_Some. rewrite Hs, slen_app. lia.
Qed.

Lemma normalize_permission_Ok permission index request :
  normalize_permission permission index = Ok request ->
  wf_request request /\ rq_required request = pr_required permission /\
  capability_from_str (pr_capability permission) = Ok (rq_capability request).
Proof.
  unfold normalize_permission. intros Hn. inv_ok. destruct (_ ++ _) eqn:He; [|done].
  injection Hn as <-. apply app_nil in He as [Hv Hr]. apply validate_scope_nil in Hv as [Hwf Hm].
  destruct (N.ltb_spec 1024 (slen (pr_reason permission))); [done|].
  split; [|done]. split; [done|]. split; [done|]. simpl. split.
  - by eapply capability_from_str_sound.
  - etrans; [apply slen_trim|done].
Qed.

(** The loop ends without errors exactly when every permission normalizes and
    no capability repeats. *)
Lemma permission_fold l seen requests errors seen' requests' :
  fold_left permission_step l (seen, requests, errors) = (seen', requests', []) ->
  errors = [] /\ exists rs, requests' = requests ++ rs /\
    Forall2 (fun entry r => normalize_permission entry.2 entry.1 = Ok r) l rs /\
    NoDup (rq_capability <$> rs) /\ (forall r, r ∈ rs -> rq_capability r ∉ seen).
Proof.
  revert seen requests errors; induction l as [|[i p] l IH]; simpl; intros seen requests errors.
  - intros [= <- <- ->]. split; [done|]. exists []. rewrite app_nil_r. repeat split; try constructor.
    by intros r ?%elem_of_nil.
  - destruct (normalize_permission p i) as [r|es] eqn:Hn.
    + simpl. destruct (set_contains (rq_capability r) seen) eqn:Hc; simpl.
      * intros [He _]%IH. by destruct errors.
      * intros (-> & rs & -> & Hrs & Hnd & Hs)%IH. split; [done|]. exists (r :: rs).
        rewrite <- app_assoc. split; [done|]. split; [by constructor|]. simpl.
        rewrite NoDup_cons. apply set_contains_false in Hc.
        assert (forall r', r' ∈ rs -> rq_capability r' <> rq_capability r /\ rq_capability r' ∉ seen)
          as Hs'. { intros r' Hr'. specialize (Hs r' Hr'). rewrite elem_of_set_add in Hs. tauto. }
        split; [split; [|done]|].
        -- intros (r' & Hr & Hr')%list_elem_of_fmap. by destruct (Hs' r' Hr').
        -- intros r' [->|Hr']%elem_of_cons; [done|]. by apply Hs'.
    + intros [He _]%IH. apply app_nil in He as [-> ->].
      exfalso. revert Hn. unfold normalize_permission, one_error. intros Hn.
      repeat first
        [ apply bind_Err in Hn as [Hn|(? & ? & Hn)]
        | match type of Hn with
          | map_err _ ?r = Err [] => destruct r; discriminate Hn
          | reject_if ?c _ = Err [] => destruct c; discriminate Hn
          | match ?e with _ => _ end = Err [] => destruct e; discriminate Hn
          end ].
Qed.

Lemma enumerate_elem {A} (l : list A) i a : (i, a) ∈ enumerate l -> a ∈ l.
Proof. unfold enumerate. intros H%elem_of_zip_r. done. Qed.

Lemma enumerate_elem' {A} (l : list A) a : a ∈ l -> exists i, (i, a) ∈ enumerate l.
Proof.
  intros [i Hi]%list_elem_of_lookup. exists i. apply list_elem_of_lookup. exists i.
  unfold enumerate. apply lookup_zip_Some. split; [|done]. simpl.
  apply lookup_seq. split; [done|]. by eapply lookup_lt_Some.
Qed.

(** Worker declarations and the approved appearance scope agree. *)
Definition appearance_consistent (providers : list AppearanceProvider)
  (requests : list CapabilityRequest) : Prop :=
  (forall provider, provider ∈ providers -> exists request scope,
    request ∈ requests /\ rq_scope request = AppearanceProvide scope /\
    avp_id provider ∈ ap_providers scope /\
    (forall mount, mount ∈ avp_mounts provider -> mount ∈ fm_label <$> ap_mounts scope)) /\
  (forall request scope, request ∈ requests -> rq_scope request = AppearanceProvide scope ->
    (forall id, id ∈ ap_providers scope <-> id ∈ avp_id <$> providers) /\
    (forall mount, mount ∈ fm_label <$> ap_mounts scope <-> mount ∈ flat_map avp_mounts providers)).

Lemma provider_errors_nil appearance i provider :
  provider_errors appearance (i, provider) = [] ->
  exists scope, appearance = Some scope /\ avp_id provider ∈ ap_providers scope /\
    (forall mount, mount ∈ avp_mounts provider -> mount ∈ fm_label <$> ap_mounts scope).
Proof.
  unfold provider_errors. intros [Hid Hm]%app_nil. destruct appearance as [scope|]; [|done].
  exists scope. split; [done|]. destruct (set_contains _ _) eqn:Hc; [|done].
  apply set_contains_spec in Hc. split; [done|]. intros mount Hin.
  rewrite flat_map_nil in Hm. specialize (Hm mount Hin).
  destruct (existsb _ _) eqn:He; [|done]. apply existsb_True' in He as (r & Hr & <-%String.eqb_eq).
  by apply list_elem_of_fmap_2.
Qed.

Lemma appearance_unique requests r1 r2 s1 s2 :
  (forall r, r ∈ requests -> wf_request r) -> NoDup (rq_capability <$> requests) ->
  r1 ∈ requests -> r2 ∈ requests ->
  rq_scope r1 = AppearanceProvide s1 -> rq_scope r2 = AppearanceProvide s2 -> s1 = s2.
Proof.
  intros Hwf Hnd H1 H2 Hs1 Hs2.
  assert (forall r s, r ∈ requests -> rq_scope r = AppearanceProvide s ->
    rq_capability r = AppearanceProvideV1) as Hcap.
  { intros r s Hr Hs. destruct (Hwf r Hr) as (_ & Hm & _). rewrite Hs in Hm.
    by destruct (rq_capability r). }
  assert (r1 = r2) as <-; [|congruence].
  pose proof (Hcap r1 s1 H1 Hs1) as C1. pose proof (Hcap r2 s2 H2 Hs2) as C2.
  apply list_elem_of_lookup in H1 as [i Hi], H2 as [j Hj].
  assert (i = j) as ->; [|congruence].
  eapply NoDup_lookup; [done|..]; rewrite list_lookup_fmap; [rewrite Hi|rewrite Hj]; simpl;
    by rewrite ?C1, ?C2.
Qed.

Lemma set_of_eq {A} `{OrdLaws A} (l k : list A) x : set_of l = set_of k -> x ∈ l <-> x ∈ k.
Proof. intros Hlk. by rewrite <- (elem_of_set_of x l), Hlk, elem_of_set_of. Qed.

Lemma appearance_errors_nil providers requests :
  (forall r, r ∈ requests -> wf_request r) -> NoDup (rq_capability <$> requests) ->
  appearance_errors providers (find_appearance requests) = [] ->
  appearance_consistent providers requests.
Proof.
  intros Hwf Hnd [Hp Hs]%app_nil. rewrite flat_map_nil in Hp.
  assert (forall scope, find_appearance requests = Some scope ->
    exists r, r ∈ requests /\ rq_scope r = AppearanceProvide scope) as Hfind.
  { intros scope (r & Hr & Hrs)%first_some_Some. exists r. split; [done|].
    destruct (rq_scope r); congruence. }
  split.
  - intros provider [i Hi]%enumerate_elem'.
    destruct (provider_errors_nil _ _ _ (Hp _ Hi)) as (scope & Hf & Hid & Hm).
    destruct (Hfind _ Hf) as (r & Hr & Hrs). by exists r, scope.
  - intros r scope Hr Hrs. destruct (find_appearance requests) as [scope'|] eqn:Hf.
    + destruct (Hfind _ eq_refl) as (r' & Hr' & Hrs').
      rewrite (appearance_unique requests r r' scope scope') by done.
      apply app_nil in Hs as [Hs1 Hs2]. do 2 case_bool_decide; try done.
      by split; intros x; apply set_of_eq.
    + eapply first_some_None in Hf; [|done]. by rewrite Hrs in Hf.
Qed.

(** A normalized permission list is strictly sorted by capability, holds at
    most 64 requests, each well formed, is a permutation of the permissions
    normalized one by one, and agrees with the manifest's worker
    declarations. *)
Theorem normalize_manifest_permissions_Ok (manifest : PluginManifest)
  (requests : list CapabilityRequest)
  (Hnormal : normalize_manifest_permissions manifest = Ok requests) :
  ascending (rq_capability <$> requests) /\ (len requests <= 64)%N /\
  (forall request, request ∈ requests -> wf_request request) /\
  (exists rs, requests ≡ₚ rs /\
    Forall2 (fun entry r => normalize_permission entry.2 entry.1 = Ok r)
      (enumerate (permissions manifest)) rs) /\
  appearance_consistent (appearance_providers manifest) requests.
Proof.
  unfold normalize_manifest_permissions in Hnormal.
  destruct (N.ltb_spec 64 (len (permissions manifest))); [done|].
  destruct (fold_left _ _ _) as [[seen reqs] [|e errors]] eqn:Hf; [|done].
  apply permission_fold in Hf as (_ & rs & -> & Hrs & Hnd & _).
  destruct (appearance_errors _ _) eqn:Ha; [|done]. injection Hnormal as <-. simpl in *.
  assert (forall r, r ∈ rs -> wf_request r) as Hwf.
  { intros r [i Hi]%list_elem_of_lookup.
    destruct (Forall2_lookup_r _ _ _ _ _ Hrs Hi) as (e & _ & He).
    by apply normalize_permission_Ok in He as [? _]. }
  apply appearance_errors_nil in Ha; [|done..].
  assert (forall r, r ∈ sort_by (key_le rq_capability) rs <-> r ∈ rs) as Hin
    by (intros r; by rewrite sort_by_perm).
  split; [by apply sort_by_ascending|]. split.
  { apply Forall2_length in Hrs. unfold len in *. rewrite sort_by_perm, <- Hrs.
    unfold enumerate. rewrite length_zip, length_seq. lia. }
  split; [by intros r Hr%Hin; apply Hwf|]. split; [exists rs; by rewrite sort_by_perm|].
  destruct Ha as [Ha1 Ha2]. split.
  - intros p Hp. destruct (Ha1 p Hp) as (r & scope & Hr & Hrest). exists r, scope. by rewrite Hin.
  - intros r scope Hr%Hin. by apply Ha2.
Qed.
End Normalize.

(** A codec over tables that name the scope they hold, for the witnesses. *)
Definition sample_codec : ScopeCodec :=
  let no A := fun _ : CapabilityScope => @Err string A "wrong table" in
  {| Table := CapabilityScope;
     toml_to_string := fun _ => Ok "scope";
     decode_context_read := fun t => match t with ContextRead s => Ok s | _ => Err "wrong" end;
     decode_filesystem_read := no _; decode_filesystem_write := no _;
     decode_http_request := no _; decode_dbus_call := no _; decode_dbus_subscribe := no _;
     decode_command_run := no _; decode_clipboard := no _;
     decode_secret_read := fun t => match t with SecretRead s => Ok s | _ => Err "wrong" end;
     decode_notification := no _; decode_uri_open := no _; decode_local_connect := no _;
     decode_appearance := no _ |}.

Definition sample_manifest : @PluginManifest sample_codec :=
  let p cap scope := {| pr_capability := cap; pr_required := true; pr_reason := " why ";
                        pr_scope := scope : @Table sample_codec |} in
  {| appearance_providers := [];
     permissions := [p "secret.read.v1" (SecretRead {| sr_logical_names := ["api-key"] |});
       p "context.read.v1" (ContextRead {| cr_facts := ["monitor.id"];
         cr_maximum_updates_per_second := 4 |})] |}.

Lemma normalize_manifest_permissions_Ok_witness :
  exists requests, normalize_manifest_permissions sample_manifest = Ok requests /\
    rq_capability <$> requests = [ContextReadV1; SecretReadV1] /\
    ascending (rq_capability <$> requests).
Proof.
  eexists. split; [vm_compute; reflexivity|]. split; [reflexivity|].
  refine (proj1 (normalize_manifest_permissions_Ok sample_manifest _ _)).
  vm_compute. reflexivity.
Defined.
