(* ===== verification/Package.v ===== *)
(** * Package identity

    Models [GithubSource] of [crates/touchbar-package/src/lib.rs]: the
    canonical identity [github:owner/repository] that grants are keyed by. *)

From S2P Require Import Prelude BTree Text.

Record GithubSource := { gs_owner : string; gs_repository : string }.

#[export] Instance GithubSource_eq_dec : EqDecision GithubSource.
Proof. solve_decision. Defined.

(** The derived order: owner, then repository. *)
#[export] Instance GithubSource_ord : Ord GithubSource := fun a b =>
  cmp (gs_owner a, gs_repository a) (gs_owner b, gs_repository b).
#[export] Instance GithubSource_ord_laws : OrdLaws GithubSource.
Proof.
  apply (ord_laws_inj (fun s => (gs_owner s, gs_repository s))); [|done].
  intros [] [] [= -> ->]. done.
Qed.

Definition is_dash (c : ascii) : bool := Ascii.eqb c "-"%char.

Definition valid_github_owner (value : string) : bool :=
  negb (String.eqb value "") && (slen value <=? 39)%N
  && negb (starts_with value "-") && negb (ends_with value "-") && negb (contains value "--")
  && all_bytes (fun c => is_ascii_lowercase c || is_ascii_digit c || is_dash c) value.

Definition valid_github_repository (value : string) : bool :=
  negb (String.eqb value "") && (slen value <=? 100)%N
  && negb (ends_with value ".git") && negb (contains_byte value "/"%char)
  && negb (contains value "..")
  && all_bytes (fun c => is_ascii_lowercase c || is_ascii_digit c
       || (is_dash c || Ascii.eqb c "_"%char || Ascii.eqb c "."%char)) value.

Definition github_source_validate (s : GithubSource) : result string () :=
  _ ← reject_if (negb (valid_github_owner (gs_owner s)))
        "GitHub owner must be lowercase ASCII letters, digits, or single hyphens";
  reject_if (negb (valid_github_repository (gs_repository s)))
    "GitHub repository must be a lowercase name without a .git suffix or path separators".

(** [GithubSource::new]. *)
Definition github_source_new (owner repository : string) : result string GithubSource :=
  let source := {| gs_owner := owner; gs_repository := repository |} in
  _ ← github_source_validate source; Ok source.

(** [Display]. *)
Definition github_source_to_string (s : GithubSource) : string :=
  "github:" +:+ gs_owner s +:+ "/" +:+ gs_repository s.

(** [str::split_once]. *)
Fixpoint split_once (sep : ascii) (s : string) : option (string * string) :=
  match s with
  | "" => None
  | String c s' =>
      if Ascii.eqb c sep then Some ("", s')
      else '(a, b) ← split_once sep s'; Some (String c a, b)
  end.

(** [FromStr]. *)
Definition github_source_from_str (value : string) : result string GithubSource :=
  path ← ok_or "source must begin with github:" (strip_prefix "github:" value);
  '(owner, repository) ← ok_or "source must have the form github:owner/repository"
                           (split_once "/"%char path);
  _ ← reject_if (contains_byte repository "/"%char)
        "source must have the form github:owner/repository";
  github_source_new owner repository.

(** ** Parsing and printing *)

Lemma split_once_Some sep s a b :
  split_once sep s = Some (a, b) -> s = a +:+ String sep b.
Proof.
  revert a; induction s as [|c s IH]; simpl; intros a; [done|].
  destruct (Ascii.eqb_spec c sep) as [->|]; [by intros [= <- <-]|].
  destruct (split_once sep s) as [[a' b']|]; simpl; [|done]. intros [= <- ->].
  simpl. by rewrite (IH a').
Qed.

Lemma split_once_app sep a b :
  contains_byte a sep = false -> split_once sep (a +:+ String sep b) = Some (a, b).
Proof.
  unfold contains_byte, any_byte. rewrite negb_false_iff. induction a as [|c a IH]; simpl.
  - by rewrite Ascii.eqb_refl.
  - destruct (Ascii.eqb_spec c sep); simpl; [done|]. intros Ha. by rewrite IH.
Qed.

Lemma all_bytes_impl (f g : ascii -> bool) s :
  (forall c, f c = true -> g c = true) -> all_bytes f s = true -> all_bytes g s = true.
Proof.
  intros Hfg. induction s as [|c s IH]; simpl; [done|]. rewrite !andb_true_iff.
  intros [? ?]; auto.
Qed.

(** An owner name holds no slash. *)
Lemma owner_no_slash owner : valid_github_owner owner = true -> contains_byte owner "/"%char = false.
Proof.
  unfold valid_github_owner. rewrite !andb_true_iff. intros [_ Hb].
  unfold contains_byte, any_byte. rewrite negb_false_iff.
  eapply all_bytes_impl; [|done]. intros c. destruct (Ascii.eqb_spec c "/"%char) as [->|]; [|done].
  by vm_compute.
Qed.

Lemma github_source_new_Ok owner repository s :
  github_source_new owner repository = Ok s <->
  s = {| gs_owner := owner; gs_repository := repository |} /\
  valid_github_owner owner = true /\ valid_github_repository repository = true.
Proof.
  unfold github_source_new, github_source_validate. simpl.
  destruct (valid_github_owner owner), (valid_github_repository repository); simpl;
    split; intros H; try done; try (by destruct H as (_ & ? & ?)); try congruence.
  - by injection H as <-.
  - by destruct H as (-> & _).
Qed.

(** A source parses from a string exactly when the string is its canonical
    form and both names are valid; package identities therefore have one
    spelling. *)
Theorem github_source_roundtrip (value : string) (s : GithubSource) :
  github_source_from_str value = Ok s <->
  github_source_to_string s = value /\ valid_github_owner (gs_owner s) = true /\
  valid_github_repository (gs_repository s) = true.
Proof.
  unfold github_source_from_str, github_source_to_string. split.
  - intros H. apply bind_Ok in H as (path & Hp & H).
    apply ok_or_Ok, strip_prefix_Some in Hp as ->.
    apply bind_Ok in H as ([owner repository] & Ho & H).
    apply ok_or_Ok, split_once_Some in Ho as ->. inv_ok.
    apply github_source_new_Ok in H as (-> & ? & ?). done.
  - destruct s as [owner repository]. cbn [gs_owner gs_repository]. intros (<- & Ho & Hr).
    assert (strip_prefix "github:" ("github:" +:+ owner +:+ "/" +:+ repository) =
      Some (owner +:+ "/" +:+ repository)) as -> by by apply strip_prefix_Some.
    simpl. rewrite split_once_app by by apply owner_no_slash. simpl.
    unfold valid_github_repository in Hr. pose proof Hr as Hs.
    rewrite !andb_true_iff, !negb_true_iff in Hs. destruct Hs as [[[_ Hs] _] _].
    rewrite Hs. simpl. by apply github_source_new_Ok.
Qed.
