(* ===== verification/Grants.v ===== *)
(** * Grants: recorded decisions, the effective policy, permission diffs

    Models [crates/touchbar-policy/src/grant.rs] and the record keeping of
    [crates/touchbar-policy/src/store.rs]: the decisions a user made about a
    package, how they are validated and looked up, the policy they give a
    package at launch, the change list shown on an update, and the grant store
    with its document form.  [semver::Version] is an opaque type and the TOML
    reader and writer of the store are the interface [StoreCodec]; file
    permissions and locking are not modelled. *)

From S2P Require Import Prelude BTree Text Package Capability ScopeCheck.

(** [semver::Version]: stored and shown, never compared here. *)
Class SemVer := { Version : Type }.

Inductive Provenance := VerifiedRelease | UnverifiedRelease | LocalDevelopment.
Inductive ReusePolicy := VerifiedSameSource | ExactDigest.
Inductive Decision := Allow | Deny.
Inductive SecretBinding := SecretServiceItem (object_path : string).
Inductive LocalEndpointBinding := UnixStream (path : string).
Inductive ClipboardBinding := WaylandDataControl (socket : string).
Inductive StandardDirectoryBinding :=
| Home | XdgConfig | XdgData | XdgState | XdgCache | XdgRuntime.
Inductive FilesystemMountBinding :=
| MountPath (path : string)
| StandardDirectory (directory : StandardDirectoryBinding) (relative : string).

Record GrantBindings := {
  filesystem_mounts : list (string * FilesystemMountBinding);
  secrets : list (string * SecretBinding);
  local_endpoints : list (string * LocalEndpointBinding);
  clipboard : option ClipboardBinding;
}.

#[export] Instance Provenance_eq_dec : EqDecision Provenance. Proof. solve_decision. Defined.
#[export] Instance ReusePolicy_eq_dec : EqDecision ReusePolicy. Proof. solve_decision. Defined.
#[export] Instance Decision_eq_dec : EqDecision Decision. Proof. solve_decision. Defined.
#[export] Instance SecretBinding_eq_dec : EqDecision SecretBinding. Proof. solve_decision. Defined.
#[export] Instance LocalEndpointBinding_eq_dec : EqDecision LocalEndpointBinding.
Proof. solve_decision. Defined.
#[export] Instance ClipboardBinding_eq_dec : EqDecision ClipboardBinding.
Proof. solve_decision. Defined.
#[export] Instance StandardDirectoryBinding_eq_dec : EqDecision StandardDirectoryBinding.
Proof. solve_decision. Defined.
#[export] Instance FilesystemMountBinding_eq_dec : EqDecision FilesystemMountBinding.
Proof. solve_decision. Defined.
#[export] Instance GrantBindings_eq_dec : EqDecision GrantBindings.
Proof. solve_decision. Defined.

(** [GrantBindings::default]. *)
Definition no_bindings : GrantBindings :=
  {| filesystem_mounts := []; secrets := []; local_endpoints := []; clipboard := None |}.

Definition normalized_absolute_path (path : string) : bool :=
  is_absolute path
  && forallb (fun part => match part with RootDir | Normal _ => true | _ => false end)
       (components path).

(** The guard of [standard_directory] and of the stored suffixes. *)
Definition bad_relative (relative : string) : bool :=
  is_absolute relative
  || existsb (fun part => match part with Normal _ => false | _ => true end) (components relative)
  || contains_byte relative nul.

Definition standard_directory (directory : StandardDirectoryBinding) (relative : string)
  : result string FilesystemMountBinding :=
  _ ← reject_if (bad_relative relative)
        "standard directory suffix is not normalized and relative";
  Ok (StandardDirectory directory relative).

Definition valid_dbus_object_path (value : string) : bool :=
  if String.eqb value "/" then true
  else starts_with value "/" && negb (ends_with value "/")
    && match value with
       | String _ rest => forallb (fun segment =>
           negb (String.eqb segment "") && all_bytes is_word_byte segment) (split "/"%char rest)
       | "" => true
       end.

Definition digest_message : string := "artifact digest must use sha256:<64 lowercase hex>".

Definition validate_digest (digest : string) : result string () :=
  match strip_prefix "sha256:" digest with
  | None => Err digest_message
  | Some value =>
      reject_if (negb (slen value =? 64)%N
        || negb (all_bytes (fun c => is_ascii_hexdigit c && negb (is_ascii_uppercase c)) value))
        digest_message
  end.

Section Records.
Context `{SemVer}.

Record PackageInstance := {
  pk_source : GithubSource;
  pk_version : Version;
  pk_digest : string;
  pk_provenance : Provenance;
  pk_runtime : RuntimeKind;
}.

Record GrantRecord := {
  gr_source : GithubSource;
  gr_capability : CapabilityId;
  gr_approved_scope : CapabilityScope;
  gr_bindings : GrantBindings;
  gr_decision : Decision;
  gr_reuse : ReusePolicy;
  gr_approved_version : Version;
  gr_approved_digest : string;
}.

Definition GrantKey : Type := GithubSource * CapabilityId.
Definition record_key (r : GrantRecord) : GrantKey := (gr_source r, gr_capability r).

(** *** [GrantRecord::validate] *)

Definition expected_filesystem (scope : CapabilityScope) : list string :=
  match scope with
  | FilesystemRead s => set_of (fm_label <$> fr_mounts s)
  | FilesystemWrite s => set_of (fm_label <$> fw_mounts s)
  | CommandRun s => set_of (omap (fun argument =>
      match argument with ApprovedFile _ mount => Some mount | _ => None end)
      (flat_map cm_arguments (cm_commands s)))
  | AppearanceProvide s => set_of (fm_label <$> ap_mounts s)
  | _ => []
  end.

Definition expected_secrets (scope : CapabilityScope) : list string :=
  match scope with SecretRead s => set_of (sr_logical_names s) | _ => [] end.

Definition expected_endpoints (scope : CapabilityScope) : list string :=
  match scope with LocalConnect s => set_of (le_label <$> lc_endpoints s) | _ => [] end.

Definition expects_clipboard (c : CapabilityId) : bool :=
  match c with ClipboardReadV1 | ClipboardWriteV1 => true | _ => false end.

Definition mount_binding_ok (binding : FilesystemMountBinding) : result string () :=
  match binding with
  | MountPath path =>
      reject_if (negb (normalized_absolute_path path) || contains_byte path nul)
        "filesystem grant roots must be normalized absolute paths"
  | StandardDirectory _ relative =>
      reject_if (bad_relative relative)
        "standard directory suffixes must be normalized and relative"
  end.

Definition secret_binding_ok (binding : SecretBinding) : result string () :=
  let 'SecretServiceItem object_path := binding in
  reject_if (negb ((slen object_path <=? 1024)%N && valid_dbus_object_path object_path))
    "secret item bindings must be valid D-Bus object paths".

(** A Unix socket path fits [sun_path]. *)
Definition socket_path_ok (path : string) : bool :=
  normalized_absolute_path path && negb (contains_byte path nul) && (slen path <=? 107)%N.

Definition endpoint_binding_ok (binding : LocalEndpointBinding) : result string () :=
  let 'UnixStream path := binding in
  reject_if (negb (socket_path_ok path))
    "local endpoint bindings must use normalized absolute paths".

Definition validate_bindings (r : GrantRecord) : result string () :=
  let b := gr_bindings r in
  match gr_decision r with
  | Deny => reject_if (negb (bool_decide (b = no_bindings)))
              "denied grants cannot retain authority bindings"
  | Allow =>
      _ ← reject_if (negb (bool_decide
             (bt_keys (filesystem_mounts b) = expected_filesystem (gr_approved_scope r))))
            "filesystem grant bindings must exactly match approved mount labels";
      _ ← mapR mount_binding_ok (bt_values (filesystem_mounts b));
      _ ← reject_if (negb (bool_decide (bt_keys (secrets b) = expected_secrets (gr_approved_scope r))))
            "secret grant bindings must exactly match approved logical names";
      _ ← mapR secret_binding_ok (bt_values (secrets b));
      _ ← reject_if (negb (bool_decide
             (bt_keys (local_endpoints b) = expected_endpoints (gr_approved_scope r))))
            "local endpoint bindings must exactly match approved labels";
      _ ← mapR endpoint_binding_ok (bt_values (local_endpoints b));
      _ ← reject_if (xorb (bool_decide (is_Some (clipboard b))) (expects_clipboard (gr_capability r)))
            "clipboard grant bindings must exist exactly for clipboard capabilities";
      reject_if (match clipboard b with
                 | Some (WaylandDataControl socket) =>
                     negb (normalized_absolute_path socket) || contains_byte socket nul
                     || (107 <? slen socket)%N
                 | None => false
                 end)
        "clipboard socket bindings must be normalized absolute paths"
  end.

Definition error_to_string (e : NormalizationError) : string :=
  ne_field e +:+ ": " +:+ ne_message e.

Definition validate (r : GrantRecord) : result string () :=
  _ ← reject_if (negb (matches_capability (gr_approved_scope r) (gr_capability r)))
        "approved scope does not match capability";
  _ ← map_err (fun errors => join "; " (error_to_string <$> errors))
        (validate_capability_scope (gr_capability r) (gr_approved_scope r));
  _ ← validate_digest (gr_approved_digest r);
  _ ← validate_bindings r;
  reject_if (bool_decide (gr_reuse r = VerifiedSameSource) && negb (is_known (gr_capability r)))
    "unknown capabilities cannot use verified-source grant reuse".

(** *** Session and persistent grants *)

(** Both kinds of grants are maps from source and capability to a record. *)
Definition SessionGrants : Type := list (GrantKey * GrantRecord).

Definition session_insert (s : SessionGrants) (r : GrantRecord)
  : result string (SessionGrants * option GrantRecord) :=
  _ ← validate r; Ok (bt_insert (record_key r) r s, bt_get (record_key r) s).

Definition session_get (s : SessionGrants) (source : GithubSource) (c : CapabilityId)
  : option GrantRecord := bt_get (source, c) s.

Definition session_clear (s : SessionGrants) : SessionGrants := [].

Definition session_from_records (records : list GrantRecord) : result string SessionGrants :=
  foldR (fun s r => '(s', _) ← session_insert s r; Ok s') [] records.

(** The trait [PersistentGrants]. *)
Class PersistentGrants (S : Type) :=
  grant : S -> GithubSource -> CapabilityId -> option GrantRecord.

(** *** The effective policy *)

Record EffectiveGrant := {
  eg_request : CapabilityRequest;
  eg_status : CapabilityStatus;
  eg_approved_scope : option CapabilityScope;
  eg_bindings : GrantBindings;
  eg_from_session : bool;
}.

Definition allows (g : EffectiveGrant) : bool := bool_decide (eg_status g = Granted).

Record EffectivePolicy := {
  ep_grants : list EffectiveGrant;
  ep_blocked : bool;
  ep_trust : TrustSummary;
}.

Definition provenance_allows (package : PackageInstance) (record : GrantRecord) : bool :=
  match gr_reuse record with
  | VerifiedSameSource => bool_decide (pk_provenance package = VerifiedRelease)
  | ExactDigest => String.eqb (pk_digest package) (gr_approved_digest record)
  end.

Definition status_for_record (package : PackageInstance) (request : CapabilityRequest)
  (record : GrantRecord) : CapabilityStatus :=
  match gr_decision record with
  | Deny => Denied
  | Allow =>
      if provenance_allows package record
         && is_subset_of (rq_scope request) (gr_approved_scope record)
      then Granted else NeedsConsent
  end.

(** The record that governs a request, and whether the session holds it. *)
Definition find_record {S} `{PersistentGrants S} (persistent : S) (session : SessionGrants)
  (source : GithubSource) (c : CapabilityId) : option GrantRecord * bool :=
  match session_get session source c with
  | Some record => (Some record, true)
  | None => (grant persistent source c, false)
  end.

Definition effective_grant {S} `{PersistentGrants S} (package : PackageInstance)
  (persistent : S) (session : SessionGrants) (registry : CapabilityRegistry)
  (request : CapabilityRequest) : EffectiveGrant :=
  let '(record, from_session) :=
    find_record persistent session (pk_source package) (rq_capability request) in
  {| eg_request := request;
     eg_status :=
       if bool_decide (pk_runtime package = NativeRuntime) then DisclosureOnly
       else if negb (supports registry (rq_capability request)) then Unsupported
       else match record with
            | None => NeedsConsent
            | Some r => status_for_record package request r
            end;
     eg_approved_scope := gr_approved_scope <$> record;
     eg_bindings := default no_bindings (gr_bindings <$> record);
     eg_from_session := from_session |}.

Definition calculate_effective_policy {S} `{PersistentGrants S} (package : PackageInstance)
  (requests : list CapabilityRequest) (persistent : S) (session : SessionGrants)
  (registry : CapabilityRegistry) : EffectivePolicy :=
  let effective := List.map (effective_grant package persistent session registry) requests in
  {| ep_grants := effective;
     ep_blocked := bool_decide (pk_runtime package = ComponentRuntime)
       && existsb (fun g => rq_required (eg_request g) && negb (allows g)) effective;
     ep_trust := summarize_trust (pk_runtime package)
       (List.map eg_request (List.filter allows effective)) |}.

End Records.

(** *** Permission changes of an update *)

Inductive PermissionChangeKind :=
| Added | Removed | Expanded | Narrowed | RequirementChanged | Unchanged.

#[export] Instance PermissionChangeKind_eq_dec : EqDecision PermissionChangeKind.
Proof. solve_decision. Defined.

Record PermissionChange := {
  pc_capability : CapabilityId;
  pc_kind : PermissionChangeKind;
  pc_old : option CapabilityRequest;
  pc_new : option CapabilityRequest;
}.

Definition requires_consent (c : PermissionChange) : bool :=
  match pc_kind c with Added | Expanded => true | _ => false end.

(** [collect::<BTreeMap<_, _>>()]: the last request of a capability wins. *)
Definition by_capability (requests : list CapabilityRequest)
  : list (CapabilityId * CapabilityRequest) :=
  fold_left (fun m r => bt_insert (rq_capability r) r m) requests [].

(** The kind of a change; [None] is the unreachable branch. *)
Definition change_kind (old new : option CapabilityRequest) : option PermissionChangeKind :=
  match old, new with
  | None, Some _ => Some Added
  | Some _, None => Some Removed
  | Some old, Some new =>
      Some (if negb (is_subset_of (rq_scope new) (rq_scope old)) then Expanded
            else if negb (is_subset_of (rq_scope old) (rq_scope new)) then Narrowed
            else if negb (Bool.eqb (rq_required old) (rq_required new)) then RequirementChanged
            else Unchanged)
  | None, None => None
  end.

(** [None] is the panic of [unreachable!]. *)
Definition diff_permissions (old new : list CapabilityRequest) : option (list PermissionChange) :=
  let old := by_capability old in
  let new := by_capability new in
  let capabilities := set_of (bt_keys old ++ bt_keys new) in
  mapM (fun capability =>
    kind ← change_kind (bt_get capability old) (bt_get capability new);
    Some {| pc_capability := capability; pc_kind := kind;
            pc_old := bt_get capability old; pc_new := bt_get capability new |}) capabilities.

(** *** The grant store *)

Section Store.
Context `{SemVer}.

Record GrantStore := { gs_records : list (GrantKey * GrantRecord) }.

Definition empty_store : GrantStore := {| gs_records := [] |}.

Inductive StoreError :=
| StoreParse (message : string)
| StoreEncode (message : string)
| StoreInvalid (message : string).

Record StoredDocument := { schema_version : N; grants : list GrantRecord }.

(** [toml::from_str] and [toml::to_string_pretty] at [StoredDocument]. *)
Class StoreCodec := {
  read_document : string -> result string StoredDocument;
  write_document : StoredDocument -> result string string;
}.
Context `{StoreCodec}.

Definition STORE_SCHEMA_VERSION : N := 1.
Definition MAX_STORE_BYTES : N := 1024 * 1024.

(** One iteration of the loading loop. *)
Definition load_record (store : GrantStore) (record : GrantRecord) : result StoreError GrantStore :=
  _ ← map_err StoreInvalid (validate record);
  _ ← reject_if (bt_contains (record_key record) (gs_records store))
        (StoreInvalid "duplicate source and capability decision");
  Ok {| gs_records := bt_insert (record_key record) record (gs_records store) |}.

Definition from_toml (source : string) : result StoreError GrantStore :=
  document ← map_err StoreParse (read_document source);
  _ ← reject_if (negb (schema_version document =? STORE_SCHEMA_VERSION)%N)
        (StoreInvalid ("unsupported schema version " +:+ pretty (schema_version document)
          +:+ "; expected " +:+ pretty STORE_SCHEMA_VERSION));
  foldR load_record empty_store (grants document).

Definition to_toml (store : GrantStore) : result StoreError string :=
  map_err StoreEncode (write_document
    {| schema_version := STORE_SCHEMA_VERSION; grants := bt_values (gs_records store) |}).

Definition store_insert (store : GrantStore) (record : GrantRecord)
  : result StoreError (GrantStore * option GrantRecord) :=
  _ ← map_err StoreInvalid (validate record);
  Ok ({| gs_records := bt_insert (record_key record) record (gs_records store) |},
      bt_get (record_key record) (gs_records store)).

Definition store_remove (store : GrantStore) (source : GithubSource) (c : CapabilityId)
  : GrantStore * option GrantRecord :=
  ({| gs_records := bt_remove (source, c) (gs_records store) |}, bt_get (source, c) (gs_records store)).

Definition store_get (store : GrantStore) (source : GithubSource) (c : CapabilityId)
  : option GrantRecord := bt_get (source, c) (gs_records store).

#[export] Instance store_persistent : PersistentGrants GrantStore := store_get.

(** The store file: [None] when it does not exist; its length on disk is the
    length of its contents.  [load] and [save_locked] limit the size on both
    sides. *)
Definition load (path : string) (file : option string) : result StoreError GrantStore :=
  match file with
  | None => Ok empty_store
  | Some source =>
      _ ← reject_if (MAX_STORE_BYTES <? slen source)%N
            (StoreInvalid (path +:+ " exceeds the " +:+ pretty MAX_STORE_BYTES +:+ " byte limit"));
      from_toml source
  end.

Definition save_locked (store : GrantStore) : result StoreError string :=
  encoded ← to_toml store;
  _ ← reject_if (MAX_STORE_BYTES <? slen encoded)%N
        (StoreInvalid "grant store exceeds size limit");
  Ok encoded.

(** [update_records] on the file's contents: the new contents and the records
    replaced; on an error the file is untouched. *)
Definition update_records (path : string) (file : option string) (records : list GrantRecord)
  : result StoreError (string * list (option GrantRecord)) :=
  _ ← mapR (fun r => map_err StoreInvalid (validate r)) records;
  store ← load path file;
  '(store', previous) ← foldR (fun acc r =>
      '(s, replaced) ← store_insert acc.1 r; Ok (s, acc.2 ++ [replaced])) (store, []) records;
  encoded ← save_locked store';
  Ok (encoded, previous).

Definition remove_record (path : string) (file : option string) (source : GithubSource) (c : CapabilityId)
  : result StoreError (string * option GrantRecord) :=
  store ← load path file;
  let '(store', previous) := store_remove store source c in
  encoded ← save_locked store';
  Ok (encoded, previous).
End Store.

(** ** The effective policy *)

Section PolicyFacts.
Context `{SemVer} {S : Type} `{!PersistentGrants S}.
Implicit Types (package : PackageInstance) (persistent : S) (session : SessionGrants)
  (registry : CapabilityRegistry).

(** The session's decision, or the persistent one when the session is silent. *)
Definition governs persistent session (source : GithubSource) (c : CapabilityId)
  (record : GrantRecord) : Prop :=
  session_get session source c = Some record \/
  session_get session source c = None /\ grant persistent source c = Some record.

(** The only way a request is granted. *)
Definition granted package persistent session registry (request : CapabilityRequest)
  (record : GrantRecord) : Prop :=
  pk_runtime package = ComponentRuntime /\
  supports registry (rq_capability request) = true /\
  governs persistent session (pk_source package) (rq_capability request) record /\
  gr_decision record = Allow /\ provenance_allows package record = true /\
  is_subset_of (rq_scope request) (gr_approved_scope record) = true.

Lemma find_record_governs persistent session source c record :
  (find_record persistent session source c).1 = Some record <->
  governs persistent session source c record.
Proof.
  unfold find_record, governs. destruct (session_get session source c) as [r|]; simpl.
  - split; [by left|]. by intros [?|[? _]].
  - split; [by right|]. by intros [?|[_ ?]].
Qed.

Lemma effective_grant_request package persistent session registry request :
  eg_request (effective_grant package persistent session registry request) = request.
Proof. unfold effective_grant. by destruct (find_record _ _ _ _). Qed.

Lemma effective_grant_allows package persistent session registry request :
  allows (effective_grant package persistent session registry request) = true <->
  exists record, granted package persistent session registry request record.
Proof.
  unfold allows, effective_grant, granted. setoid_rewrite <- find_record_governs.
  destruct (find_record _ _ _ _) as [record from_session]. simpl. rewrite bool_decide_eq_true.
  case_bool_decide as Hr; [rewrite Hr; split; [done|by intros (? & ? & _)]|].
  assert (pk_runtime package = ComponentRuntime) as Hc by by destruct (pk_runtime package).
  destruct (supports _ _); simpl; [|split; [done|by intros (? & _ & ? & _)]].
  destruct record as [record|]; [|split; [done|by intros (? & _ & _ & ? & _)]].
  unfold status_for_record. split.
  - intros Hs. exists record. destruct (gr_decision record); [|done].
    destruct (provenance_allows _ _), (is_subset_of _ _); done.
  - intros (r & _ & _ & [= ->] & -> & -> & ->). done.
Qed.

Lemma effective_grant_bindings package persistent session registry request record :
  granted package persistent session registry request record ->
  eg_approved_scope (effective_grant package persistent session registry request) =
    Some (gr_approved_scope record) /\
  eg_bindings (effective_grant package persistent session registry request) = gr_bindings record.
Proof.
  intros (_ & _ & Hg%find_record_governs & _). unfold effective_grant.
  destruct (find_record _ _ _ _) as [r fs]. simpl in *. by subst.
Qed.

Lemma effective_grants_elem package persistent session registry requests g :
  g ∈ ep_grants (calculate_effective_policy package requests persistent session registry) <->
  exists request, request ∈ requests /\ g = effective_grant package persistent session registry request.
Proof.
  unfold calculate_effective_policy. simpl. rewrite list_elem_of_fmap. split; intros (r & ? & ?); eauto.
Qed.

Lemma policy_blocked package requests persistent session registry :
  ep_blocked (calculate_effective_policy package requests persistent session registry) = true <->
  pk_runtime package = ComponentRuntime /\
  exists request, request ∈ requests /\ rq_required request = true /\
    forall record, ~ granted package persistent session registry request record.
Proof.
  unfold calculate_effective_policy. simpl. rewrite andb_true_iff, bool_decide_eq_true, existsb_True'.
  apply and_iff_compat_l. split.
  - intros (g & (request & -> & Hin)%list_elem_of_fmap & Hg). exists request.
    rewrite effective_grant_request, andb_true_iff, negb_true_iff in Hg. destruct Hg as [Hr Ha].
    split; [done|]. split; [done|]. intros record Hrec.
    assert (allows (effective_grant package persistent session registry request) = true)
      by (apply effective_grant_allows; eauto). congruence.
  - intros (request & Hin & Hr & Hno).
    exists (effective_grant package persistent session registry request).
    split; [by apply list_elem_of_fmap_2|]. rewrite effective_grant_request, Hr. simpl.
    apply negb_true_iff, not_true_iff_false. rewrite effective_grant_allows. intros [r Hgr]. by apply (Hno r).
Qed.

(** C5: The policy answers every request, in order; a request is granted exactly
    when the package is a component, the capability is implemented and the
    governing record allows it, for this artifact, with a scope that covers
    the request, and then with that record's scope and bindings; the package
    is blocked exactly when a required request is not granted; the trust
    summary counts exactly the granted requests. *)
Theorem calculate_effective_policy_spec package persistent session registry
  (requests : list CapabilityRequest) :
  let policy := calculate_effective_policy package requests persistent session registry in
  eg_request <$> ep_grants policy = requests /\
  (forall g, g ∈ ep_grants policy ->
    (allows g = true <->
     exists record, granted package persistent session registry (eg_request g) record) /\
    (forall record, granted package persistent session registry (eg_request g) record ->
     eg_approved_scope g = Some (gr_approved_scope record) /\ eg_bindings g = gr_bindings record)) /\
  (ep_blocked policy = true <->
    pk_runtime package = ComponentRuntime /\
    exists request, request ∈ requests /\ rq_required request = true /\
      forall record, ~ granted package persistent session registry request record) /\
  (exists trusted, ep_trust policy = summarize_trust (pk_runtime package) trusted /\
    forall request, request ∈ trusted <-> request ∈ requests /\
      exists record, granted package persistent session registry request record).
Proof.
  intros policy. split.
  { unfold policy, calculate_effective_policy. simpl. rewrite <- list_fmap_compose.
    erewrite list_fmap_ext; [by rewrite list_fmap_id|]. intros i r _. apply effective_grant_request. }
  split.
  { intros g (request & Hin & ->)%effective_grants_elem. rewrite effective_grant_request.
    split; [apply effective_grant_allows|apply effective_grant_bindings]. }
  split; [apply policy_blocked|].
  eexists. split; [reflexivity|]. intros request. rewrite list_elem_of_fmap.
  setoid_rewrite list_elem_of_In. setoid_rewrite filter_In. setoid_rewrite <- list_elem_of_In.
  split.
  - intros (g & -> & (r & Hr & ->)%effective_grants_elem & Ha).
    rewrite effective_grant_request. split; [done|]. by apply effective_grant_allows.
  - intros [Hin Hg]. exists (effective_grant package persistent session registry request).
    rewrite effective_grant_request. split; [done|]. split; [apply effective_grants_elem; eauto|].
    by apply effective_grant_allows.
Qed.

(** A session decision takes precedence over the persistent store, and a
    session denial is never overridden by a persistent approval. *)
Theorem session_decision_wins package persistent persistent' session registry
  (request : CapabilityRequest) (record : GrantRecord)
  (Hsession : session_get session (pk_source package) (rq_capability request) = Some record) :
  effective_grant package persistent session registry request =
  effective_grant package persistent' session registry request /\
  (gr_decision record = Deny ->
   allows (effective_grant package persistent session registry request) = false).
Proof.
  split.
  - unfold effective_grant, find_record. by rewrite Hsession.
  - intros Hd. apply not_true_iff_false. rewrite effective_grant_allows.
    intros (r & _ & _ & [?|[? _]] & ? & _); congruence.
Qed.
End PolicyFacts.

(** ** Permission changes *)

Lemma find_app {A} (f : A -> bool) l k :
  List.find f (l ++ k) = match List.find f l with Some a => Some a | None => List.find f k end.
Proof. induction l as [|a l IH]; simpl; [done|]. by destruct (f a). Qed.

Lemma bt_get_fold {A K} `{OrdLaws K} (key : A -> K) l k m :
  bt_get k (fold_left (fun m a => bt_insert (key a) a m) l m) =
  match List.find (fun a => match cmp k (key a) with Eq => true | _ => false end) (rev l) with
  | Some a => Some a
  | None => bt_get k m
  end.
Proof.
  revert m; induction l as [|a l IH]; intros m; simpl; [done|]. rewrite IH.
  rewrite find_app. simpl. destruct (List.find _ (rev l)); [done|]. rewrite bt_get_insert.
  by destruct (cmp k (key a)).
Qed.

(** Looking a capability up among requests with distinct capabilities. *)
Lemma by_capability_spec requests c r :
  NoDup (rq_capability <$> requests) ->
  bt_get c (by_capability requests) = Some r <-> r ∈ requests /\ rq_capability r = c.
Proof.
  intros Hnd. unfold by_capability. rewrite bt_get_fold. simpl.
  destruct (List.find _ _) as [a|] eqn:Hf.
  - apply find_some in Hf as [Ha Hc]. rewrite <- in_rev, <- list_elem_of_In in Ha.
    destruct (cmp c (rq_capability a)) eqn:E; [|done..]. apply cmp_eq in E as ->. split.
    + intros [= <-]. done.
    + intros [Hr Hcap]. f_equal. eapply NoDup_fmap_elem; eauto.
  - split; [done|]. intros [Hr <-]. exfalso.
    assert (match cmp (rq_capability r) (rq_capability r) with Eq => true | _ => false end = false)
      as Hx.
    { apply (find_none _ _ Hf r). rewrite <- in_rev. by apply list_elem_of_In. }
    by rewrite cmp_refl in Hx.
Qed.

Lemma by_capability_keys requests c :
  c ∈ bt_keys (by_capability requests) <-> c ∈ rq_capability <$> requests.
Proof.
  unfold by_capability.
  assert (forall m, c ∈ bt_keys (fold_left (fun m r => bt_insert (rq_capability r) r m) requests m)
    <-> c ∈ bt_keys m \/ c ∈ rq_capability <$> requests) as Hk.
  { induction requests as [|r requests IH]; intros m; simpl.
    - rewrite elem_of_nil. tauto.
    - rewrite IH, bt_keys_insert, elem_of_set_add, elem_of_cons. tauto. }
  rewrite Hk. simpl. rewrite elem_of_nil. tauto.
Qed.

(** The diff reaches its [unreachable!] branch never. *)
Lemma diff_permissions_total old new :
  exists changes, diff_permissions old new = Some changes.
Proof.
  unfold diff_permissions.
  match goal with |- context [mapM ?f ?l] =>
    enough (is_Some (mapM f l)) as [cs ->] by eauto; apply mapM_is_Some_2, Forall_forall end.
  intros c Hc. rewrite elem_of_set_of, elem_of_app in Hc.
  assert (bt_get c (by_capability old) <> None \/ bt_get c (by_capability new) <> None) as Hs.
  { rewrite !bt_get_None. tauto. } simpl.
  destruct (bt_get c (by_capability old)), (bt_get c (by_capability new)); simpl; eauto.
  by destruct Hs as [[]|[]].
Qed.

Lemma diff_permissions_elem old new changes change :
  diff_permissions old new = Some changes ->
  change ∈ changes <->
  (pc_capability change ∈ rq_capability <$> old \/ pc_capability change ∈ rq_capability <$> new) /\
  pc_old change = bt_get (pc_capability change) (by_capability old) /\
  pc_new change = bt_get (pc_capability change) (by_capability new) /\
  change_kind (pc_old change) (pc_new change) = Some (pc_kind change).
Proof.
  unfold diff_permissions. intros Hd%mapM_Some_1. split.
  - intros [i Hi]%list_elem_of_lookup.
    destruct (Forall2_lookup_r _ _ _ _ _ Hd Hi) as (c & Hc & Hx).
    apply list_elem_of_lookup_2 in Hc. rewrite elem_of_set_of, elem_of_app in Hc.
    rewrite !by_capability_keys in Hc.
    destruct (change_kind _ _) as [k|] eqn:Hk; [|done]. injection Hx as <-. simpl. done.
  - destruct change as [c k o n]. simpl. intros (Hc & -> & -> & Hk).
    rewrite <- !by_capability_keys, <- elem_of_app, <- elem_of_set_of in Hc.
    apply list_elem_of_lookup in Hc as [i Hi].
    destruct (Forall2_lookup_l _ _ _ _ _ Hd Hi) as (x & Hx & Hfx).
    rewrite Hk in Hfx. injection Hfx as <-. by eapply list_elem_of_lookup_2.
Qed.

Lemma diff_permissions_sorted old new changes :
  diff_permissions old new = Some changes -> ascending (pc_capability <$> changes).
Proof.
  unfold diff_permissions. intros Hd%mapM_Some_1.
  enough (pc_capability <$> changes =
    set_of (bt_keys (by_capability old) ++ bt_keys (by_capability new))) as ->
    by apply ascending_set_of.
  revert Hd. generalize (set_of (bt_keys (by_capability old) ++ bt_keys (by_capability new))).
  intros l Hd. induction Hd as [|c x l k Hx Hd IH]; [done|]. rewrite fmap_cons, IH. f_equal.
  destruct (change_kind _ _); [|done]. by injection Hx as <-.
Qed.

(** Consent is required exactly when the new request is not covered by the
    old one. *)
Lemma requires_consent_spec old new changes change :
  NoDup (rq_capability <$> old) -> NoDup (rq_capability <$> new) ->
  diff_permissions old new = Some changes -> change ∈ changes ->
  requires_consent change = true <->
  exists r, r ∈ new /\ rq_capability r = pc_capability change /\
    (forall o, o ∈ old -> rq_capability o = pc_capability change ->
      is_subset_of (rq_scope r) (rq_scope o) = false).
Proof.
  intros Ho Hn Hd Hin. apply (diff_permissions_elem _ _ _ _ Hd) in Hin as (_ & Hold & Hnew & Hk).
  unfold requires_consent. destruct (pc_new change) as [r|].
  - symmetry in Hnew. apply by_capability_spec in Hnew as [Hr Hrc]; [|done].
    destruct (pc_old change) as [o|]; injection Hk as <-.
    + symmetry in Hold. apply by_capability_spec in Hold as [Hoin Hoc]; [|done].
      destruct (is_subset_of (rq_scope r) (rq_scope o)) eqn:Hs; simpl.
      * split; [by repeat case_match|]. intros (r' & Hr' & Hrc' & Hall).
        assert (r' = r) as -> by
          (apply (NoDup_fmap_elem rq_capability new); try done; congruence).
        rewrite (Hall o) in Hs; done.
      * split; [|done]. intros _. exists r. split; [done|]. split; [done|]. intros o' Ho' Hoc'.
        assert (o' = o) as ->; [|done].
        apply (NoDup_fmap_elem rq_capability old); try done. congruence.
    + split; [|done]. intros _. exists r. split; [done|]. split; [done|]. intros o Hoin Hoc.
      assert (bt_get (pc_capability change) (by_capability old) = Some o)
        by by apply by_capability_spec. congruence.
  - destruct (pc_old change); [|done]. injection Hk as <-. split; [done|].
    intros (r & Hr & Hrc & _).
    assert (bt_get (pc_capability change) (by_capability new) = Some r)
      by by apply by_capability_spec. congruence.
Qed.

(** The change list of an update always exists, has one entry per capability
    of either version in ascending order, and asks for consent exactly where
    the new version requests something the old version's request for the same
    capability does not cover. *)
Theorem diff_permissions_spec (old new : list CapabilityRequest)
  (Hold : NoDup (rq_capability <$> old)) (Hnew : NoDup (rq_capability <$> new)) :
  exists changes, diff_permissions old new = Some changes /\
    ascending (pc_capability <$> changes) /\
    (forall c, c ∈ pc_capability <$> changes <->
      c ∈ rq_capability <$> old \/ c ∈ rq_capability <$> new) /\
    (forall change, change ∈ changes ->
      requires_consent change = true <->
      exists r, r ∈ new /\ rq_capability r = pc_capability change /\
        (forall o, o ∈ old -> rq_capability o = pc_capability change ->
          is_subset_of (rq_scope r) (rq_scope o) = false)).
Proof.
  destruct (diff_permissions_total old new) as [changes Hd]. exists changes.
  split; [done|]. split; [by eapply diff_permissions_sorted|]. split.
  - intros c. rewrite list_elem_of_fmap. split.
    + intros (x & -> & Hx). by apply (diff_permissions_elem _ _ _ _ Hd) in Hx as [? _].
    + intros Hc. set (o := bt_get c (by_capability old)). set (n := bt_get c (by_capability new)).
      destruct (change_kind o n) as [k|] eqn:Hk.
      * exists {| pc_capability := c; pc_kind := k; pc_old := o; pc_new := n |}.
        split; [done|]. by apply (diff_permissions_elem _ _ _ _ Hd).
      * exfalso. rewrite <- !by_capability_keys in Hc.
        destruct o eqn:Eo, n eqn:En; try done. apply bt_get_None in Eo, En. tauto.
  - intros change Hin. by eapply requires_consent_spec.
Qed.

Lemma governs_det `{SemVer} {S} `{!PersistentGrants S} (persistent : S) session source c r1 r2 :
  governs persistent session source c r1 -> governs persistent session source c r2 -> r1 = r2.
Proof. intros [?|[? ?]] [?|[? ?]]; congruence. Qed.

(** What the update dialog shows is what the broker enforces: when the records
    in force approve exactly the old version's requests and may be reused for
    the new artifact, a request of the new version is granted without asking
    exactly when its entry in the change list does not require consent. *)
Theorem update_consent_exact `{SemVer} {S} `{!PersistentGrants S} (package : PackageInstance)
  (persistent : S) (session : SessionGrants) (registry : CapabilityRegistry)
  (old new : list CapabilityRequest) (changes : list PermissionChange)
  (Hcomponent : pk_runtime package = ComponentRuntime)
  (Hold : NoDup (rq_capability <$> old)) (Hnew : NoDup (rq_capability <$> new))
  (Hsupported : forall r, r ∈ new -> supports registry (rq_capability r) = true)
  (Hexact : forall c record, governs persistent session (pk_source package) c record ->
    exists o, o ∈ old /\ rq_capability o = c /\ gr_approved_scope record = rq_scope o)
  (Happroved : forall o, o ∈ old -> exists record,
    governs persistent session (pk_source package) (rq_capability o) record /\
    gr_decision record = Allow /\ provenance_allows package record = true)
  (Hdiff : diff_permissions old new = Some changes)
  (change : PermissionChange) (r : CapabilityRequest)
  (Hchange : change ∈ changes) (Hr : r ∈ new) (Hc : rq_capability r = pc_capability change) :
  (exists record, granted package persistent session registry r record) <->
  requires_consent change = false.
Proof.
  rewrite <- not_true_iff_false, (requires_consent_spec old new changes) by done. split.
  - intros (record & _ & _ & Hg & _ & _ & Hs) (r' & Hr' & Hrc' & Hno).
    assert (r' = r) as -> by (apply (NoDup_fmap_elem rq_capability new); try done; congruence).
    destruct (Hexact _ _ Hg) as (o & Ho & Hoc & Ha). rewrite Ha in Hs.
    rewrite (Hno o) in Hs; [done|done|congruence].
  - intros Hno.
    destruct (existsb (fun o => bool_decide (rq_capability o = rq_capability r)
      && is_subset_of (rq_scope r) (rq_scope o)) old) eqn:He.
    + apply existsb_True' in He as (o & Ho & [Hoc%bool_decide_eq_true Hs]%andb_true_iff).
      destruct (Happroved o Ho) as (record & Hg & Hd & Hp). exists record. rewrite Hoc in Hg.
      split; [done|]. split; [by apply Hsupported|]. split; [done|]. split; [done|].
      split; [done|]. destruct (Hexact _ _ Hg) as (o' & Ho' & Hoc' & ->).
      by assert (o' = o) as -> by (apply (NoDup_fmap_elem rq_capability old); try done; congruence).
    + destruct Hno. exists r. split; [done|]. split; [done|]. intros o Ho Hoc.
      apply not_true_iff_false in He. apply not_true_iff_false. intros Hs. apply He, existsb_True'.
      exists o. rewrite Hs, bool_decide_true by congruence. done.
Qed.

(** ** Validated records *)

Lemma mapR_unit {E A} (f : A -> result E ()) l us :
  mapR f l = Ok us -> forall a, a ∈ l -> f a = Ok ().
Proof.
  intros Hm%mapR_Ok a [i Hi]%list_elem_of_lookup.
  destruct (Forall2_lookup_l _ _ _ _ _ Hm Hi) as ([] & _ & ?). done.
Qed.

(** A record the host accepts has a well-formed scope of its capability and,
    unless it is a denial, host bindings for exactly the labels its scope
    names, each bound to a normalized absolute location; a denial carries no
    authority at all, and an unknown capability is never reused across
    versions. *)
Theorem validate_Ok `{SemVer} (r : GrantRecord) (Hvalid : validate r = Ok ()) :
  wf_scope (gr_approved_scope r) /\
  matches_capability (gr_approved_scope r) (gr_capability r) = true /\
  (gr_decision r = Deny -> gr_bindings r = no_bindings) /\
  (gr_decision r = Allow ->
    bt_keys (filesystem_mounts (gr_bindings r)) = expected_filesystem (gr_approved_scope r) /\
    bt_keys (secrets (gr_bindings r)) = expected_secrets (gr_approved_scope r) /\
    bt_keys (local_endpoints (gr_bindings r)) = expected_endpoints (gr_approved_scope r) /\
    (forall label path, (label, MountPath path) ∈ filesystem_mounts (gr_bindings r) ->
      normalized_absolute_path path = true) /\
    (forall label path, (label, UnixStream path) ∈ local_endpoints (gr_bindings r) ->
      socket_path_ok path = true) /\
    (is_Some (clipboard (gr_bindings r)) <-> expects_clipboard (gr_capability r) = true)) /\
  (gr_reuse r = VerifiedSameSource -> is_known (gr_capability r) = true).
Proof.
  unfold validate in Hvalid. inv_ok. b2p.
  match goal with H : validate_capability_scope _ _ = _ |- _ => rename H into Hs end.
  match goal with H : validate_bindings _ = _ |- _ => rename H into Hb end.
  assert (validate_scope (gr_capability r) (gr_approved_scope r) "scope" = []) as Hnil.
  { unfold validate_capability_scope in Hs. by destruct (validate_scope _ _ _). }
  apply validate_scope_nil in Hnil as [Hwf Hm].
  split; [done|]. split; [done|]. unfold validate_bindings in Hb.
  split; [|split].
  - intros Hd. rewrite Hd in Hb. inv_ok. by b2p.
  - intros Hd. rewrite Hd in Hb. inv_ok. b2p.
    repeat match goal with H : mapR _ _ = Ok _ |- _ => pose proof (mapR_unit _ _ _ H); clear H end.
    split; [done|]. split; [done|]. split; [done|]. split; [|split].
    + intros l p Hin%(list_elem_of_fmap_2 snd).
      match goal with H : forall a, _ -> mount_binding_ok a = _ |- _ => specialize (H _ Hin) end.
      simpl in *. inv_ok. b2p. tauto.
    + intros l p Hin%(list_elem_of_fmap_2 snd).
      match goal with H : forall a, _ -> endpoint_binding_ok a = _ |- _ => specialize (H _ Hin) end.
      simpl in *. inv_ok. by b2p.
    + destruct (clipboard (gr_bindings r)), (expects_clipboard (gr_capability r)); done.
  - intros Hv. by destruct Hvalid.
Qed.

(** ** The grant store *)

Section StoreFacts.
Context `{SemVer} {codec : StoreCodec}.

(** Every record is stored under its own key and is valid. *)
Definition store_ok (s : GrantStore) : Prop :=
  bt_sorted (gs_records s) /\
  forall k r, (k, r) ∈ gs_records s -> k = record_key r /\ validate r = Ok ().

Lemma store_ok_empty : store_ok empty_store.
Proof. split; [done|]. by intros k r ?%elem_of_nil. Qed.

Lemma store_ok_insert s r :
  store_ok s -> validate r = Ok () ->
  store_ok {| gs_records := bt_insert (record_key r) r (gs_records s) |}.
Proof.
  intros [Hs Hr] Hv. split; simpl; [by apply bt_sorted_insert|].
  intros k r' [[= -> ->]|Hin]%elem_of_bt_insert; [done|]. auto.
Qed.

Lemma load_record_ok s r s' : store_ok s -> load_record s r = Ok s' -> store_ok s'.
Proof. unfold load_record. intros Hs Hl. inv_ok. destruct a. by apply store_ok_insert. Qed.

Lemma from_toml_ok source s : from_toml source = Ok s -> store_ok s.
Proof.
  unfold from_toml. intros Hf. inv_ok.
  apply (foldR_ind store_ok) in Hf; [done| |apply store_ok_empty].
  intros; by eapply load_record_ok.
Qed.

Lemma load_ok path file s : load path file = Ok s -> store_ok s.
Proof.
  unfold load. destruct file; [|intros [= <-]; apply store_ok_empty].
  intros Hl. inv_ok. by eapply from_toml_ok.
Qed.

Lemma store_insert_ok s r s' previous :
  store_ok s -> store_insert s r = Ok (s', previous) -> store_ok s'.
Proof.
  unfold store_insert. intros Hs Hl. inv_ok. destruct a.
  by apply store_ok_insert.
Qed.

Lemma store_remove_ok s source c : store_ok s -> store_ok (store_remove s source c).1.
Proof.
  intros [Hs Hr]. split; simpl; [by apply bt_sorted_remove|].
  intros k r [_ Hin]%elem_of_bt_remove. auto.
Qed.

(** Reloading the records of a valid store, in order, rebuilds it. *)
Lemma reload_records l acc :
  store_ok {| gs_records := acc ++ l |} ->
  foldR load_record {| gs_records := acc |} (bt_values l) = Ok {| gs_records := acc ++ l |}.
Proof.
  revert acc; induction l as [|[k r] l IH]; intros acc [Hs Hr]; simpl.
  - by rewrite app_nil_r.
  - destruct (Hr k r) as [-> Hv]; [simpl; rewrite elem_of_app; right; by left|].
    cbn [gs_records] in Hs. unfold bt_sorted, bt_keys in Hs. rewrite fmap_app in Hs.
    apply ascending_app in Hs as (Ha & Hl & Hlt).
    assert (forall k', k' ∈ bt_keys acc -> cmp k' (record_key r) = Lt) as Hk
      by (intros k' Hk'; apply Hlt; [done|by left]).
    assert (load_record {| gs_records := acc |} r =
      Ok {| gs_records := acc ++ [(record_key r, r)] |}) as ->.
    { unfold load_record. rewrite Hv. simpl. destruct (bt_contains _ acc) eqn:Hc.
      - apply bt_contains_spec, Hk, cmp_lt_irrefl in Hc. done.
      - simpl. by rewrite bt_insert_snoc. }
    simpl.
    assert (acc ++ (record_key r, r) :: l = (acc ++ [(record_key r, r)]) ++ l) as Heq
      by by rewrite <- app_assoc.
    rewrite Heq. apply IH. rewrite <- Heq. split; [|done].
    cbn [gs_records]. unfold bt_sorted, bt_keys. rewrite fmap_app. by apply ascending_app.
Qed.

Lemma save_load path s text
  (Hcodec : forall d t, write_document d = Ok t -> read_document t = Ok d) :
  store_ok s -> save_locked s = Ok text -> load path (Some text) = Ok s.
Proof.
  intros Hs Hsave. unfold save_locked, to_toml in Hsave. inv_ok.
  match goal with H : write_document _ = _ |- _ => apply Hcodec in H as Hread end.
  unfold load. match goal with H : (MAX_STORE_BYTES <? _)%N = false |- _ => rewrite H end.
  simpl. unfold from_toml. rewrite Hread. simpl. destruct s as [records].
  by apply (reload_records records []).
Qed.

Lemma insert_all_spec records s previous s' previous' :
  store_ok s ->
  foldR (fun acc r => '(s, replaced) ← store_insert acc.1 r; Ok (s, acc.2 ++ [replaced]))
    (s, previous) records = Ok (s', previous') ->
  store_ok s' /\ length previous' = length previous + length records /\
  forall source c, store_get s' source c =
    match List.find (fun r => match cmp (source, c) (record_key r) with Eq => true | _ => false end)
            (rev records) with
    | Some r => Some r
    | None => store_get s source c
    end.
Proof.
  revert s previous; induction records as [|r records IH]; intros s previous Hs; simpl.
  - intros [= <- <-]. split; [done|]. split; [lia|done].
  - intros Hf. apply bind_Ok in Hf as ([s1 p1] & H1 & Hf). simpl in Hf.
    apply bind_Ok in H1 as ([s2 replaced] & H2 & [= <- <-]).
    pose proof (store_insert_ok _ _ _ _ Hs H2) as Hs2.
    destruct (IH _ _ Hs2 Hf) as (Hs' & Hlen & Hget). split; [done|].
    split; [rewrite Hlen, length_app; simpl; lia|]. intros source c. rewrite Hget, find_app.
    destruct (List.find _ (rev records)); [done|].
    unfold store_insert in H2. inv_ok. unfold store_get. simpl.
    rewrite bt_get_insert. by destruct (cmp (source, c) (record_key r)).
Qed.
End StoreFacts.

(** A grant store that was saved loads back as itself: every record of a valid
    store, and nothing else, survives the document form, provided the TOML
    reader inverts the writer. *)
Theorem store_roundtrip `{SemVer} {codec : StoreCodec} (path text : string) (s : GrantStore)
  (Hcodec : forall d t, write_document d = Ok t -> read_document t = Ok d)
  (Hs : store_ok s) (Hsave : save_locked s = Ok text) :
  load path (Some text) = Ok s /\ forall file s', load path file = Ok s' -> store_ok s'.
Proof.
  split; [by apply save_load|]. intros file s'. apply load_ok.
Qed.

(** An accepted batch of decisions is on disk afterwards: the rewritten file
    loads to a valid store in which each record of the batch answers for its
    source and capability (the last one when two share a key), and every other
    decision is what it was. *)
Theorem update_records_spec `{SemVer} {codec : StoreCodec} (path text : string)
  (file : option string) (store : GrantStore) (records : list GrantRecord)
  (previous : list (option GrantRecord))
  (Hcodec : forall d t, write_document d = Ok t -> read_document t = Ok d)
  (Hload : load path file = Ok store)
  (Hupdate : update_records path file records = Ok (text, previous)) :
  (forall r, r ∈ records -> validate r = Ok ()) /\ length previous = length records /\
  exists store', load path (Some text) = Ok store' /\ store_ok store' /\
    forall source c, store_get store' source c =
      match List.find (fun r => match cmp (source, c) (record_key r) with Eq => true | _ => false end)
              (rev records) with
      | Some r => Some r
      | None => store_get store source c
      end.
Proof.
  unfold update_records in Hupdate. rewrite Hload in Hupdate.
  apply bind_Ok in Hupdate as (us & Hvalid & Hupdate). simpl in Hupdate.
  apply bind_Ok in Hupdate as ([store' previous'] & Hfold & Hupdate). inv_ok.
  apply insert_all_spec in Hfold as (Hs & Hlen & Hget); [|by eapply load_ok].
  split; [|split; [done|]].
  - intros r Hr. apply (mapR_unit _ _ _ Hvalid) in Hr. by apply map_err_Ok in Hr.
  - exists store'. split; [by apply save_load|]. done.
Qed.

(** ** A concrete package, used by the witnesses *)

Definition sample_semver : SemVer := {| Version := string |}.
#[export] Existing Instance sample_semver.

#[export] Instance sample_version_eq_dec : EqDecision (@Version sample_semver) := _ : EqDecision string.
#[export] Instance sample_record_eq_dec : EqDecision (@GrantRecord sample_semver).
Proof. solve_decision. Defined.
#[export] Instance sample_document_eq_dec : EqDecision (@StoredDocument sample_semver).
Proof. solve_decision. Defined.

Definition sample_source : GithubSource := {| gs_owner := "alice"; gs_repository := "weather" |}.
Definition sample_digest : string :=
  "sha256:aaaaaaaaaaaaaaaaaaaaaaaaaaaaaaaaaaaaaaaaaaaaaaaaaaaaaaaaaaaaaaaa".

Definition sample_request (names : list string) : CapabilityRequest :=
  {| rq_capability := SecretReadV1; rq_required := true; rq_reason := "to sign in";
     rq_scope := SecretRead {| sr_logical_names := names |} |}.

Definition sample_record (decision : Decision) : GrantRecord :=
  {| gr_source := sample_source; gr_capability := SecretReadV1;
     gr_approved_scope := SecretRead {| sr_logical_names := ["api-key"; "token"] |};
     gr_bindings := match decision with
       | Deny => no_bindings
       | Allow => {| filesystem_mounts := []; local_endpoints := []; clipboard := None;
           secrets := [("api-key", SecretServiceItem "/org/a"); ("token", SecretServiceItem "/org/b")] |}
       end;
     gr_decision := decision; gr_reuse := ExactDigest; gr_approved_version := "1.0.0";
     gr_approved_digest := sample_digest |}.

Definition sample_package : PackageInstance :=
  {| pk_source := sample_source; pk_version := "1.0.0"; pk_digest := sample_digest;
     pk_provenance := LocalDevelopment; pk_runtime := ComponentRuntime |}.

Definition sample_store (l : list GrantRecord) : GrantStore :=
  {| gs_records := (fun r => (record_key r, r)) <$> l |}.

(** A codec that knows two documents. *)
Definition sample_doc (l : list GrantRecord) : StoredDocument :=
  {| schema_version := 1; grants := l |}.
#[export] Instance sample_store_codec : StoreCodec := {|
  read_document t :=
    if String.eqb t "allow" then Ok (sample_doc [sample_record Allow])
    else if String.eqb t "deny" then Ok (sample_doc [sample_record Deny]) else Err "unreadable";
  write_document d :=
    if decide (d = sample_doc [sample_record Allow]) then Ok "allow"
    else if decide (d = sample_doc [sample_record Deny]) then Ok "deny" else Err "unsupported" |}.

Lemma sample_codec_law d t : write_document d = Ok t -> read_document t = Ok d.
Proof.
  simpl. repeat case_decide; subst; [by intros [= <-]|by intros [= <-]|done].
Qed.

Lemma session_decision_wins_witness :
  let persistent := sample_store [sample_record Allow] in
  let session := [(record_key (sample_record Deny), sample_record Deny)] in
  allows (effective_grant sample_package persistent [] registry_v1 (sample_request ["token"])) = true /\
  allows (effective_grant sample_package persistent session registry_v1 (sample_request ["token"])) = false.
Proof.
  split; [vm_compute; reflexivity|].
  refine (proj2 (session_decision_wins sample_package _ empty_store _ _ _ (sample_record Deny) _) _);
    reflexivity.
Defined.

Lemma diff_permissions_spec_witness :
  exists changes, diff_permissions [sample_request ["token"]] [sample_request ["api-key"; "token"]]
    = Some changes /\ requires_consent <$> changes = [true] /\ ascending (pc_capability <$> changes).
Proof.
  destruct (diff_permissions_spec [sample_request ["token"]] [sample_request ["api-key"; "token"]])
    as (changes & Hd & Ha & _); [apply NoDup_singleton..|].
  exists changes. split; [exact Hd|]. split; [|exact Ha].
  vm_compute in Hd. injection Hd as <-. reflexivity.
Defined.

Lemma update_consent_exact_witness :
  let old := [sample_request ["api-key"; "token"]] in
  let new := [sample_request ["token"]] in
  exists record, granted sample_package (sample_store [sample_record Allow]) [] registry_v1
    (sample_request ["token"]) record.
Proof.
  intros old new. destruct (diff_permissions_total old new) as [changes Hd].
  assert (changes = [{| pc_capability := SecretReadV1; pc_kind := Narrowed;
    pc_old := Some (sample_request ["api-key"; "token"]);
    pc_new := Some (sample_request ["token"]) |}]) as ->.
  { vm_compute in Hd. by injection Hd as <-. }
  refine (proj2 (update_consent_exact sample_package _ [] registry_v1 old new _ _ _ _ _ _ _ Hd
    {| pc_capability := SecretReadV1; pc_kind := Narrowed;
       pc_old := Some (sample_request ["api-key"; "token"]);
       pc_new := Some (sample_request ["token"]) |} _ _ _ _) _);
    try reflexivity; try apply NoDup_singleton; try by left.
  - intros r ->%list_elem_of_singleton. reflexivity.
  - intros c record [Hs|[_ Hs]]; [discriminate Hs|].
    exists (sample_request ["api-key"; "token"]). split; [by left|].
    unfold grant, store_persistent, store_get in Hs. simpl in Hs.
    destruct (cmp _ _) eqn:E in Hs; [|discriminate Hs..]. injection Hs as <-.
    apply (cmp_eq (A := GithubSource * CapabilityId)) in E. by injection E as ->.
  - intros o ->%list_elem_of_singleton. exists (sample_record Allow).
    split; [right; split; reflexivity|]. split; reflexivity.
Defined.

Lemma validate_Ok_witness :
  validate (sample_record Allow) = Ok () /\ wf_scope (gr_approved_scope (sample_record Allow)).
Proof.
  assert (validate (sample_record Allow) = Ok ()) as Hv by (vm_compute; reflexivity).
  split; [exact Hv|]. exact (proj1 (validate_Ok _ Hv)).
Defined.

Lemma store_roundtrip_witness :
  load "grants.toml" (Some "allow") = Ok (sample_store [sample_record Allow]).
Proof.
  refine (proj1 (store_roundtrip "grants.toml" "allow" _ sample_codec_law _ _)).
  - split; [split; [constructor|done]|]. intros k r [= -> ->]%list_elem_of_singleton.
    split; [reflexivity|vm_compute; reflexivity].
  - vm_compute. reflexivity.
Defined.

Lemma update_records_spec_witness :
  exists store', load "grants.toml" (Some "deny") = Ok store' /\ store_ok store' /\
    store_get store' sample_source SecretReadV1 = Some (sample_record Deny).
Proof.
  destruct (update_records_spec "grants.toml" "deny" (Some "allow")
    (sample_store [sample_record Allow]) [sample_record Deny] [Some (sample_record Allow)]
    sample_codec_law) as (_ & _ & store' & Hl & Hok & Hget).
  - vm_compute. reflexivity.
  - vm_compute. reflexivity.
  - exists store'. split; [exact Hl|]. split; [exact Hok|]. rewrite Hget. reflexivity.
Defined.
