(* ===== verification/Wire.v ===== *)
(** * Wire: little-endian integers and UTF-8

    The byte-level vocabulary of the binary protocols: [to_le_bytes] and
    [from_le_bytes] at a given width, the bytes of a Rust string, and the
    validation of [std::str::from_utf8].  A byte is an [N] below 256. *)

From S2P Require Import Prelude BTree Text.
From Stdlib Require String.

Definition is_byte (b : N) : Prop := (b < 256)%N.

(** [to_le_bytes] of an [n]-byte integer; a wider value is truncated. *)
Fixpoint to_le (n : nat) (v : N) : list N :=
  match n with
  | O => []
  | S n' => (v mod 256)%N :: to_le n' (v / 256)%N
  end.

Fixpoint from_le (l : list N) : N :=
  match l with [] => 0%N | b :: l' => (b + 256 * from_le l')%N end.

Definition string_bytes (s : string) : list N := List.map byte_of (String.list_ascii_of_string s).

(** [0x80 ..= 0xBF]. *)
Definition continuation (b : N) : bool := ((128 <=? b) && (b <=? 191))%N.
Definition within (lo hi b : N) : bool := ((lo <=? b) && (b <=? hi))%N.

(** [std::str::from_utf8]: the well-formed byte sequences of Unicode. *)
Fixpoint utf8_valid (l : list N) : bool :=
  match l with
  | [] => true
  | b :: l1 =>
      if (b <? 128)%N then utf8_valid l1
      else match l1 with
      | [] => false
      | c1 :: l2 =>
          if within 194 223 b then continuation c1 && utf8_valid l2
          else match l2 with
          | [] => false
          | c2 :: l3 =>
              if (b =? 224)%N then within 160 191 c1 && continuation c2 && utf8_valid l3
              else if within 225 236 b || within 238 239 b
              then continuation c1 && continuation c2 && utf8_valid l3
              else if (b =? 237)%N then within 128 159 c1 && continuation c2 && utf8_valid l3
              else match l3 with
              | [] => false
              | c3 :: l4 =>
                  if (b =? 240)%N
                  then within 144 191 c1 && continuation c2 && continuation c3 && utf8_valid l4
                  else if within 241 243 b
                  then continuation c1 && continuation c2 && continuation c3 && utf8_valid l4
                  else if (b =? 244)%N
                  then within 128 143 c1 && continuation c2 && continuation c3 && utf8_valid l4
                  else false
              end
          end
      end
  end.

Example utf8_examples :
  utf8_valid (string_bytes "plain") = true /\ utf8_valid [195; 169]%N = true /\
  utf8_valid [192; 128]%N = false /\ utf8_valid [237; 160; 128]%N = false /\
  utf8_valid [240; 159; 152; 128]%N = true /\ utf8_valid [226; 130]%N = false.
Proof. repeat split. Qed.

(** ** Characters of a UTF-8 string, [str::chars] *)

Fixpoint chars_of (l : list N) : list N :=
  match l with
  | [] => []
  | b :: l1 =>
      if (b <? 128)%N then b :: chars_of l1
      else match l1 with
      | [] => []
      | c1 :: l2 =>
          if (b <? 224)%N then ((b - 192) * 64 + (c1 - 128))%N :: chars_of l2
          else match l2 with
          | [] => []
          | c2 :: l3 =>
              if (b <? 240)%N
              then (((b - 224) * 64 + (c1 - 128)) * 64 + (c2 - 128))%N :: chars_of l3
              else match l3 with
              | [] => []
              | c3 :: l4 =>
                  ((((b - 240) * 64 + (c1 - 128)) * 64 + (c2 - 128)) * 64 + (c3 - 128))%N
                  :: chars_of l4
              end
          end
      end
  end.
Definition chars (s : string) : list N := chars_of (string_bytes s).

(** [char::is_control]: the category Cc. *)
Definition is_control (c : N) : bool := ((c <? 32) || (127 <=? c) && (c <=? 159))%N.

(** [char::is_whitespace]: the property White_Space. *)
Definition is_whitespace (c : N) : bool :=
  (within 9 13 c || (c =? 32) || (c =? 0x85) || (c =? 0xa0) || (c =? 0x1680) || within 0x2000 0x200a c
   || within 0x2028 0x2029 c || (c =? 0x202f) || (c =? 0x205f) || (c =? 0x3000))%N.

Example chars_example :
  chars (bytes [97; 195; 169; 226; 128; 174; 240; 159; 152; 128]%N)
  = [0x61; 0xe9; 0x202e; 0x1f600]%N.
Proof. reflexivity. Qed.

(** ** Round trips *)

Lemma length_to_le n v : length (to_le n v) = n.
Proof. revert v; induction n; intros; cbn [to_le length]; [done|]. f_equal. apply IHn. Qed.

Lemma to_le_bytes n v : Forall is_byte (to_le n v).
Proof.
  revert v; induction n; intros v; cbn [to_le]; constructor; [|done].
  unfold is_byte. by apply N.mod_lt.
Qed.

Lemma from_to_le n v : (v < 256 ^ N.of_nat n)%N -> from_le (to_le n v) = v.
Proof.
  revert v; induction n as [|n IH]; intros v Hv; cbn [to_le from_le]; [simpl in Hv; lia|].
  rewrite IH.
  - pose proof (N.div_mod v 256 ltac:(done)). lia.
  - apply N.Div0.div_lt_upper_bound. rewrite Nat2N.inj_succ, N.pow_succ_r' in Hv. lia.
Qed.

Lemma to_from_le l : Forall is_byte l -> to_le (length l) (from_le l) = l.
Proof.
  induction 1 as [|b l Hb Hl IH]; cbn [length from_le to_le]; [done|]. unfold is_byte in Hb. f_equal.
  - rewrite N.mul_comm, N.Div0.mod_add. by apply N.mod_small.
  - rewrite N.mul_comm, N.div_add, N.div_small, N.add_0_l by done. done.
Qed.

Lemma from_le_bound l : Forall is_byte l -> (from_le l < 256 ^ N.of_nat (length l))%N.
Proof.
  induction 1 as [|b l Hb Hl IH]; simpl length; [done|].
  rewrite Nat2N.inj_succ, N.pow_succ_r'. unfold is_byte in Hb. simpl. lia.
Qed.

Lemma length_string_bytes s : length (string_bytes s) = String.length s.
Proof. unfold string_bytes. rewrite length_map. induction s; simpl; congruence. Qed.

Lemma len_string_bytes s : len (string_bytes s) = slen s.
Proof. unfold len, slen. by rewrite length_string_bytes. Qed.

Lemma string_bytes_byte s : Forall is_byte (string_bytes s).
Proof.
  unfold string_bytes, byte_of. induction s as [|c s IH]; simpl; constructor; [|done].
  apply N_ascii_bounded.
Qed.

Lemma bytes_string_bytes s : bytes (string_bytes s) = s.
Proof.
  unfold bytes, string_bytes, byte_of. induction s as [|c s IH]; simpl; [done|].
  by rewrite IH, ascii_N_embedding.
Qed.

Lemma string_bytes_bytes l : Forall is_byte l -> string_bytes (bytes l) = l.
Proof.
  unfold bytes, string_bytes, byte_of. induction 1 as [|b l Hb Hl IH]; simpl; [done|].
  rewrite N_ascii_embedding by done. by f_equal.
Qed.

#[global] Arguments to_le : simpl never.
