(* ===== verification/Protocol.v ===== *)
(** * Protocol: the supervisor-to-component-host transport

    Models the message codec of [crates/touchbar-protocol/src/broker_ipc.rs]:
    the bounded packets exchanged by a component host and the supervisor, the
    encoder with its limits and the decoder with its strict checks.  Sockets
    and credentials are not modelled. *)

From S2P Require Import Prelude BTree Text Wire.
From Stdlib Require String.

Definition BROKER_PROTOCOL_VERSION : N := 1.
Definition MAX_BROKER_PACKET_BYTES : N := 64 * 1024.
Definition MAX_INLINE_PAYLOAD_BYTES : N := 60 * 1024.
Definition MAX_CAPABILITY_ID_BYTES : N := 128.
Definition MAX_OPERATION_ID_BYTES : N := 128.
Definition DEFAULT_ACTIVATION_LIFETIME_MICROS : N := 2000000.

Definition MAGIC : list N := [79; 84; 66; 80]%N.
Definition HOST_GET_CAPABILITIES : N := 1.
Definition HOST_REQUEST : N := 2.
Definition HOST_CANCEL : N := 3.
Definition HOST_CLOSE : N := 4.
Definition SUPERVISOR_CAPABILITIES : N := 101.
Definition SUPERVISOR_RESPONSE : N := 102.
Definition SUPERVISOR_CAPABILITY_CHANGED : N := 103.
Definition SUPERVISOR_SHUTDOWN : N := 104.
Definition SUPERVISOR_OVERFLOW : N := 105.
Definition SUPERVISOR_RESOURCE_EVENT : N := 106.

(** ** Messages *)

Inductive CallbackPhase := ItemsPhase | RenderPhase | InputPhase | HostEventPhase | LifecyclePhase.
Inductive ActivationOrigin := PhysicalOrigin | TrustedControlOrigin | SyntheticOrigin.

Record ActivationContext := {
  ac_origin : ActivationOrigin;
  ac_surface_instance : N;
  ac_item_id : string;
  ac_widget_id : N;
  ac_input_sequence : N;
  ac_deadline_monotonic_micros : N;
}.

Inductive WireCapabilityStatus :=
| WireGranted | WireDenied | WireNeedsConsent | WireUnsupported | WireDisclosureOnly.

Record CapabilityState := {
  cs_capability : string;
  cs_required : bool;
  cs_status : WireCapabilityStatus;
}.

Inductive HostMessage :=
| GetCapabilities (request_id : N)
| Request (request_id : N) (phase : CallbackPhase) (capability operation : string)
    (payload : list N) (activation : option ActivationContext)
| Cancel (request_id target_request_id : N)
| Close (request_id resource_id : N).

Definition host_request_id (m : HostMessage) : N :=
  match m with
  | GetCapabilities request_id | Request request_id _ _ _ _ _
  | Cancel request_id _ | Close request_id _ => request_id
  end.

Inductive BrokerErrorCode :=
| EUnavailable | EDenied | EOutOfScope | EInvalidRequest | EInvalidPhase
| EActivationRequired | EQuotaExceeded | ERateLimited | ETimeout | ECancelled
| EUnsupported | EBackendFailed | EInternal.

Inductive BrokerResult := Success (payload : list N) | BrokerError (code : BrokerErrorCode).

Inductive SupervisorMessage :=
| Capabilities (request_id generation : N) (states : list CapabilityState)
| Response (request_id : N) (result : BrokerResult)
| CapabilityChanged (generation : N) (state : CapabilityState)
| Shutdown (generation : N) (reason : BrokerErrorCode)
| Overflow (generation dropped_events : N)
| ResourceEvent (resource_id sequence : N) (result : BrokerResult).

Inductive TransportError :=
| TransportIo (message : string)
| Disconnected
| Oversized
| Malformed (message : string)
| UnsupportedVersion (version : N).

#[export] Instance CallbackPhase_eq_dec : EqDecision CallbackPhase. Proof. solve_decision. Defined.
#[export] Instance ActivationOrigin_eq_dec : EqDecision ActivationOrigin.
Proof. solve_decision. Defined.
#[export] Instance ActivationContext_eq_dec : EqDecision ActivationContext.
Proof. solve_decision. Defined.
#[export] Instance WireCapabilityStatus_eq_dec : EqDecision WireCapabilityStatus.
Proof. solve_decision. Defined.
#[export] Instance CapabilityState_eq_dec : EqDecision CapabilityState.
Proof. solve_decision. Defined.
#[export] Instance BrokerErrorCode_eq_dec : EqDecision BrokerErrorCode.
Proof. solve_decision. Defined.
#[export] Instance BrokerResult_eq_dec : EqDecision BrokerResult. Proof. solve_decision. Defined.

(** ** Codes *)

Definition phase_code (value : CallbackPhase) : N :=
  match value with
  | ItemsPhase => 1 | RenderPhase => 2 | InputPhase => 3 | HostEventPhase => 4
  | LifecyclePhase => 5
  end%N.
Definition decode_phase (value : N) : result TransportError CallbackPhase :=
  match value with
  | 1 => Ok ItemsPhase | 2 => Ok RenderPhase | 3 => Ok InputPhase | 4 => Ok HostEventPhase
  | 5 => Ok LifecyclePhase
  | _ => Err (Malformed "invalid callback phase")
  end%N.

Definition origin_code (value : ActivationOrigin) : N :=
  match value with PhysicalOrigin => 1 | TrustedControlOrigin => 2 | SyntheticOrigin => 3 end%N.
Definition decode_origin (value : N) : result TransportError ActivationOrigin :=
  match value with
  | 1 => Ok PhysicalOrigin | 2 => Ok TrustedControlOrigin | 3 => Ok SyntheticOrigin
  | _ => Err (Malformed "invalid activation origin")
  end%N.

Definition status_code (value : WireCapabilityStatus) : N :=
  match value with
  | WireGranted => 1 | WireDenied => 2 | WireNeedsConsent => 3 | WireUnsupported => 4
  | WireDisclosureOnly => 5
  end%N.
Definition decode_status (value : N) : result TransportError WireCapabilityStatus :=
  match value with
  | 1 => Ok WireGranted | 2 => Ok WireDenied | 3 => Ok WireNeedsConsent
  | 4 => Ok WireUnsupported | 5 => Ok WireDisclosureOnly
  | _ => Err (Malformed "invalid capability status")
  end%N.

Definition error_code (value : BrokerErrorCode) : N :=
  match value with
  | EUnavailable => 1 | EDenied => 2 | EOutOfScope => 3 | EInvalidRequest => 4
  | EInvalidPhase => 5 | EActivationRequired => 6 | EQuotaExceeded => 7 | ERateLimited => 8
  | ETimeout => 9 | ECancelled => 10 | EUnsupported => 11 | EBackendFailed => 12
  | EInternal => 13
  end%N.
Definition decode_error (value : N) : result TransportError BrokerErrorCode :=
  match value with
  | 1 => Ok EUnavailable | 2 => Ok EDenied | 3 => Ok EOutOfScope | 4 => Ok EInvalidRequest
  | 5 => Ok EInvalidPhase | 6 => Ok EActivationRequired | 7 => Ok EQuotaExceeded
  | 8 => Ok ERateLimited | 9 => Ok ETimeout | 10 => Ok ECancelled | 11 => Ok EUnsupported
  | 12 => Ok EBackendFailed | 13 => Ok EInternal
  | _ => Err (Malformed "invalid broker error code")
  end%N.

(** ** The encoder: the bytes written so far *)

Definition Encoder : Type := list N.

Definition encoder_new (kind : N) : Encoder :=
  MAGIC ++ to_le 2 BROKER_PROTOCOL_VERSION ++ [kind] ++ [0%N].

Definition put_u8 (value : N) (e : Encoder) : Encoder := e ++ [value].
Definition put_u16 (value : N) (e : Encoder) : Encoder := e ++ to_le 2 value.
Definition put_u32 (value : N) (e : Encoder) : Encoder := e ++ to_le 4 value.
Definition put_u64 (value : N) (e : Encoder) : Encoder := e ++ to_le 8 value.

Definition put_string (value : string) (maximum : N) (e : Encoder)
  : result TransportError Encoder :=
  if String.eqb value "" || (maximum <? slen value)%N || (u16_max <? slen value)%N
  then Err (Malformed "string length is outside its limit")
  else Ok (put_u16 (slen value) e ++ string_bytes value).

Definition put_bytes (value : list N) (e : Encoder) : result TransportError Encoder :=
  if (u32_max <? len value)%N then Err Oversized else Ok (put_u32 (len value) e ++ value).

Definition put_state (state : CapabilityState) (e : Encoder) : result TransportError Encoder :=
  e ← put_string (cs_capability state) MAX_CAPABILITY_ID_BYTES e;
  Ok (put_u8 (status_code (cs_status state)) (put_u8 (if cs_required state then 1 else 0) e)).

Definition put_states (states : list CapabilityState) (e : Encoder)
  : result TransportError Encoder :=
  if (64 <? len states)%N then Err (Malformed "too many capability states")
  else foldR (fun e state => put_state state e) (put_u16 (len states) e) states.

Definition encoder_finish (e : Encoder) : result TransportError (list N) :=
  if (MAX_BROKER_PACKET_BYTES <? len e)%N then Err Oversized else Ok e.

Definition put_activation (activation : option ActivationContext) (e : Encoder)
  : result TransportError Encoder :=
  match activation with
  | None => Ok (put_u8 0 e)
  | Some a =>
      let e := put_u64 (ac_surface_instance a) (put_u8 (origin_code (ac_origin a)) (put_u8 1 e)) in
      e ← put_string (ac_item_id a) 256 e;
      Ok (put_u64 (ac_deadline_monotonic_micros a)
           (put_u64 (ac_input_sequence a) (put_u64 (ac_widget_id a) e)))
  end.

Definition encode_host (message : HostMessage) : result TransportError (list N) :=
  let e := encoder_new
    match message with
    | GetCapabilities _ => HOST_GET_CAPABILITIES | Request _ _ _ _ _ _ => HOST_REQUEST
    | Cancel _ _ => HOST_CANCEL | Close _ _ => HOST_CLOSE
    end in
  let e := put_u64 (host_request_id message) e in
  e ← match message with
      | GetCapabilities _ => Ok e
      | Request _ phase capability operation payload activation =>
          _ ← reject_if (MAX_INLINE_PAYLOAD_BYTES <? len payload)%N Oversized;
          e ← put_string capability MAX_CAPABILITY_ID_BYTES (put_u8 (phase_code phase) e);
          e ← put_string operation MAX_OPERATION_ID_BYTES e;
          e ← put_bytes payload e;
          put_activation activation e
      | Cancel _ target_request_id => Ok (put_u64 target_request_id e)
      | Close _ resource_id => Ok (put_u64 resource_id e)
      end;
  encoder_finish e.

Definition encode_result (r : BrokerResult) (e : Encoder) : result TransportError Encoder :=
  match r with
  | Success payload =>
      if (MAX_INLINE_PAYLOAD_BYTES <? len payload)%N then Err Oversized
      else put_bytes payload (put_u8 0 e)
  | BrokerError error => Ok (put_u8 (error_code error) (put_u8 1 e))
  end.

Definition encode_supervisor (message : SupervisorMessage) : result TransportError (list N) :=
  let e := encoder_new
    match message with
    | Capabilities _ _ _ => SUPERVISOR_CAPABILITIES | Response _ _ => SUPERVISOR_RESPONSE
    | CapabilityChanged _ _ => SUPERVISOR_CAPABILITY_CHANGED
    | Shutdown _ _ => SUPERVISOR_SHUTDOWN | Overflow _ _ => SUPERVISOR_OVERFLOW
    | ResourceEvent _ _ _ => SUPERVISOR_RESOURCE_EVENT
    end in
  e ← match message with
      | Capabilities request_id generation states =>
          put_states states (put_u64 generation (put_u64 request_id e))
      | Response request_id r =>
          let e := put_u64 request_id e in
          match r with
          | Success payload =>
              if (MAX_INLINE_PAYLOAD_BYTES <? len payload)%N then Err Oversized
              else put_bytes payload (put_u8 0 e)
          | BrokerError error => Ok (put_u8 (error_code error) (put_u8 1 e))
          end
      | CapabilityChanged generation state => put_state state (put_u64 generation e)
      | Shutdown generation reason => Ok (put_u8 (error_code reason) (put_u64 generation e))
      | Overflow generation dropped_events => Ok (put_u64 dropped_events (put_u64 generation e))
      | ResourceEvent resource_id sequence r =>
          encode_result r (put_u64 sequence (put_u64 resource_id e))
      end;
  encoder_finish e.

(** ** The decoder: a packet and an offset into it *)

Record Decoder := { d_bytes : list N; d_offset : N }.

Definition Parser (A : Type) : Type := Decoder -> result TransportError (A * Decoder).

Definition pret {A} (a : A) : Parser A := fun d => Ok (a, d).
Definition pbind {A B} (p : Parser A) (k : A -> Parser B) : Parser B := fun d =>
  match p d with Ok (a, d') => k a d' | Err e => Err e end.
Definition lift {A} (r : result TransportError A) : Parser A := fun d =>
  match r with Ok a => Ok (a, d) | Err e => Err e end.

Declare Scope parser_scope.
Delimit Scope parser_scope with parser.
Notation "'let*' x ':=' p 'in' k" := (pbind p (fun x => k))
  (at level 10, x name, p at level 100, k at level 200) : parser_scope.
Open Scope parser_scope.

Definition decoder_new (bytes : list N) : result TransportError (N * Decoder) :=
  if (len bytes <? 8)%N || negb (bool_decide (take 4 bytes = MAGIC))
  then Err (Malformed "bad header magic")
  else
    let version := from_le (take 2 (drop 4 bytes)) in
    if negb (version =? BROKER_PROTOCOL_VERSION)%N then Err (UnsupportedVersion version)
    else if negb (nth 7 bytes 0 =? 0)%N then Err (Malformed "nonzero reserved header byte")
    else Ok (nth 6 bytes 0%N, {| d_bytes := bytes; d_offset := 8 |}).

(** [Decoder::take]: the slice of [length] bytes at the offset. *)
Definition get_slice (length : N) : Parser (list N) := fun d =>
  match checked_add64 (d_offset d) length with
  | None => Err (Malformed "length overflow")
  | Some last =>
      if (len (d_bytes d) <? last)%N then Err (Malformed "truncated packet")
      else Ok (take (N.to_nat length) (drop (N.to_nat (d_offset d)) (d_bytes d)),
               {| d_bytes := d_bytes d; d_offset := last |})
  end.

Definition get_u8 : Parser N := let* l := get_slice 1 in pret (nth 0 l 0%N).
Definition get_u16 : Parser N := let* l := get_slice 2 in pret (from_le l).
Definition get_u32 : Parser N := let* l := get_slice 4 in pret (from_le l).
Definition get_u64 : Parser N := let* l := get_slice 8 in pret (from_le l).

Definition get_string (maximum : N) : Parser string :=
  let* length := get_u16 in
  if (length =? 0)%N || (maximum <? length)%N
  then lift (Err (Malformed "string length is outside its limit"))
  else let* l := get_slice length in
       if utf8_valid l then pret (bytes l) else lift (Err (Malformed "string is not UTF-8")).

Definition get_bytes (maximum : N) : Parser (list N) :=
  let* length := get_u32 in
  if (maximum <? length)%N then lift (Err Oversized) else get_slice length.

Definition get_state : Parser CapabilityState :=
  let* capability := get_string MAX_CAPABILITY_ID_BYTES in
  let* marker := get_u8 in
  let* required := match marker with
                   | 0 => pret false
                   | 1 => pret true
                   | _ => lift (Err (Malformed "invalid required marker"))
                   end%N in
  let* code := get_u8 in
  let* status := lift (decode_status code) in
  pret {| cs_capability := capability; cs_required := required; cs_status := status |}.

Fixpoint get_many {A} (n : nat) (p : Parser A) : Parser (list A) :=
  match n with
  | O => pret []
  | S n' => let* a := p in let* l := get_many n' p in pret (a :: l)
  end.

Definition get_states : Parser (list CapabilityState) :=
  let* count := get_u16 in
  if (64 <? count)%N then lift (Err (Malformed "too many capability states"))
  else get_many (N.to_nat count) get_state.

Definition decoder_finish (d : Decoder) : result TransportError () :=
  if (d_offset d =? len (d_bytes d))%N then Ok () else Err (Malformed "trailing packet bytes").

Definition get_activation : Parser (option ActivationContext) :=
  let* marker := get_u8 in
  match marker with
  | 0 => pret None
  | 1 =>
      let* code := get_u8 in
      let* origin := lift (decode_origin code) in
      let* surface_instance := get_u64 in
      let* item_id := get_string 256 in
      let* widget_id := get_u64 in
      let* input_sequence := get_u64 in
      let* deadline := get_u64 in
      pret (Some {| ac_origin := origin; ac_surface_instance := surface_instance;
                    ac_item_id := item_id; ac_widget_id := widget_id;
                    ac_input_sequence := input_sequence;
                    ac_deadline_monotonic_micros := deadline |})
  | _ => lift (Err (Malformed "invalid activation marker"))
  end%N.

Definition get_host_body (kind request_id : N) : Parser HostMessage :=
  if (kind =? HOST_GET_CAPABILITIES)%N then pret (GetCapabilities request_id)
  else if (kind =? HOST_REQUEST)%N then
    let* code := get_u8 in
    let* phase := lift (decode_phase code) in
    let* capability := get_string MAX_CAPABILITY_ID_BYTES in
    let* operation := get_string MAX_OPERATION_ID_BYTES in
    let* payload := get_bytes MAX_INLINE_PAYLOAD_BYTES in
    let* activation := get_activation in
    pret (Request request_id phase capability operation payload activation)
  else if (kind =? HOST_CANCEL)%N then
    let* target := get_u64 in pret (Cancel request_id target)
  else if (kind =? HOST_CLOSE)%N then
    let* resource := get_u64 in pret (Close request_id resource)
  else lift (Err (Malformed "unknown host message kind")).

Definition decode_host (packet : list N) : result TransportError HostMessage :=
  '(kind, d) ← decoder_new packet;
  '(request_id, d) ← get_u64 d;
  '(message, d) ← get_host_body kind request_id d;
  _ ← decoder_finish d;
  Ok message.

(** The same parser serves responses and resource events; they differ in the
    message of an invalid marker. *)
Definition get_result (message : string) : Parser BrokerResult :=
  let* marker := get_u8 in
  match marker with
  | 0 => let* payload := get_bytes MAX_INLINE_PAYLOAD_BYTES in pret (Success payload)
  | 1 => let* code := get_u8 in let* error := lift (decode_error code) in pret (BrokerError error)
  | _ => lift (Err (Malformed message))
  end%N.

Definition decode_result : Parser BrokerResult := get_result "invalid broker result".

Definition get_supervisor_body (kind : N) : Parser SupervisorMessage :=
  if (kind =? SUPERVISOR_CAPABILITIES)%N then
    let* request_id := get_u64 in let* generation := get_u64 in let* states := get_states in
    pret (Capabilities request_id generation states)
  else if (kind =? SUPERVISOR_RESPONSE)%N then
    let* request_id := get_u64 in let* r := get_result "invalid response result" in
    pret (Response request_id r)
  else if (kind =? SUPERVISOR_CAPABILITY_CHANGED)%N then
    let* generation := get_u64 in let* state := get_state in
    pret (CapabilityChanged generation state)
  else if (kind =? SUPERVISOR_SHUTDOWN)%N then
    let* generation := get_u64 in let* code := get_u8 in let* reason := lift (decode_error code) in
    pret (Shutdown generation reason)
  else if (kind =? SUPERVISOR_OVERFLOW)%N then
    let* generation := get_u64 in let* dropped := get_u64 in pret (Overflow generation dropped)
  else if (kind =? SUPERVISOR_RESOURCE_EVENT)%N then
    let* resource_id := get_u64 in let* sequence := get_u64 in let* r := decode_result in
    pret (ResourceEvent resource_id sequence r)
  else lift (Err (Malformed "unknown supervisor message kind")).

Definition decode_supervisor (packet : list N) : result TransportError SupervisorMessage :=
  '(kind, d) ← decoder_new packet;
  '(message, d) ← get_supervisor_body kind d;
  _ ← decoder_finish d;
  Ok message.

Example host_example :
  encode_host (Cancel 7 258) =
    Ok [79; 84; 66; 80; 1; 0; 3; 0; 7; 0; 0; 0; 0; 0; 0; 0; 2; 1; 0; 0; 0; 0; 0; 0]%N /\
  decode_host [79; 84; 66; 80; 1; 0; 3; 0; 7; 0; 0; 0; 0; 0; 0; 0; 2; 1; 0; 0; 0; 0; 0; 0]%N =
    Ok (Cancel 7 258).
Proof. split; reflexivity. Qed.

(** ** Parsers as specifications

    A parser at a position of a packet succeeds exactly when the bytes ahead
    are the wire form of a well-formed value, and then it advances over them. *)

Definition ok_decoder (d : Decoder) : Prop :=
  Forall is_byte (d_bytes d) /\ (len (d_bytes d) <= u64_max)%N /\ (d_offset d <= len (d_bytes d))%N.

Definition ahead (d : Decoder) : list N := drop (N.to_nat (d_offset d)) (d_bytes d).

(** [bs] are the next bytes of [d], and [d'] is the position after them. *)
Definition steps (d : Decoder) (bs : list N) (d' : Decoder) : Prop :=
  ok_decoder d /\ ok_decoder d' /\ ahead d = bs ++ ahead d' /\
  d' = {| d_bytes := d_bytes d; d_offset := d_offset d + len bs |}.

Definition Codec {A} (p : Parser A) (wire : A -> list N) (wf : A -> Prop) : Prop :=
  forall d a d', ok_decoder d -> p d = Ok (a, d') <-> wf a /\ steps d (wire a) d'.

Lemma length_ahead d : ok_decoder d -> len (ahead d) = (len (d_bytes d) - d_offset d)%N.
Proof. intros (_ & _ & Ho). unfold ahead, len in *. rewrite length_drop. lia. Qed.

Lemma steps_split d bs rest :
  ok_decoder d -> ahead d = bs ++ rest ->
  steps d bs {| d_bytes := d_bytes d; d_offset := d_offset d + len bs |}.
Proof.
  intros Hd Ha. pose proof (length_ahead d Hd) as Hl. rewrite Ha, len_app in Hl.
  destruct Hd as (Hb & Hu & Ho). unfold steps, ok_decoder. simpl.
  repeat split; try done; try lia.
  rewrite Ha. f_equal. unfold ahead in *. simpl.
  rewrite N2Nat.inj_add, <- drop_drop, Ha. unfold len. by rewrite Nat2N.id, drop_app_length.
Qed.

Lemma steps_nil d d' : steps d [] d' <-> ok_decoder d /\ d' = d.
Proof.
  unfold steps. rewrite len_nil, N.add_0_r. split.
  - intros (? & _ & _ & ->). by destruct d.
  - intros [? ->]. by destruct d.
Qed.

Lemma steps_app d bs cs d2 :
  steps d (bs ++ cs) d2 <-> exists d1, steps d bs d1 /\ steps d1 cs d2.
Proof.
  split.
  - intros (Hd & Hd2 & Ha & ->). rewrite <- app_assoc in Ha.
    eexists. split; [by eapply steps_split|].
    destruct (steps_split _ _ _ Hd Ha) as (_ & Hd1 & Ha1 & _).
    split; [done|]. split; [done|]. simpl. split.
    + rewrite Ha in Ha1. by apply app_inv_head in Ha1.
    + rewrite len_app. f_equal. lia.
  - intros (d1 & (Hd & _ & Ha & ->) & (_ & Hd2 & Ha2 & ->)). split; [done|]. split; [done|].
    split; [by rewrite <- app_assoc, <- Ha2|]. simpl. rewrite len_app. f_equal. lia.
Qed.

Lemma steps_ok d bs d' : steps d bs d' -> ok_decoder d'.
Proof. by intros (_ & ? & _). Qed.

Lemma pbind_Ok {A B} (p : Parser A) (k : A -> Parser B) d b d2 :
  pbind p k d = Ok (b, d2) <-> exists a d1, p d = Ok (a, d1) /\ k a d1 = Ok (b, d2).
Proof.
  unfold pbind. destruct (p d) as [[a d1]|e]; split.
  - intros H. by exists a, d1.
  - by intros (a' & d1' & [= <- <-] & ?).
  - done.
  - by intros (? & ? & ? & _).
Qed.

(** Sequencing two codecs: [pi] recovers the first value from the second. *)
Lemma codec_bind {A B} (p : Parser A) (k : A -> Parser B) wire wf wire' wf' (pi : B -> A)
  (wireB : B -> list N) (wfB : B -> Prop) :
  Codec p wire wf ->
  (forall a, wf a -> Codec (k a) (wire' a) (wf' a)) ->
  (forall a b, wf a -> wf' a b -> pi b = a) ->
  (forall b, wfB b <-> wf (pi b) /\ wf' (pi b) b) ->
  (forall b, wireB b = wire (pi b) ++ wire' (pi b) b) ->
  Codec (pbind p k) wireB wfB.
Proof.
  intros Hp Hk Hpi Hwf Hwire d b d' Hd. rewrite pbind_Ok, Hwf, Hwire, steps_app. split.
  - intros (a & d1 & Ha & Hb). apply Hp in Ha as [Hwa Ha]; [|done].
    apply Hk in Hb as [Hwb Hb]; [|done|by eapply steps_ok].
    rewrite (Hpi a b) by done. split; [done|]. by exists d1.
  - intros [[Hwa Hwb] (d1 & Ha & Hb)]. exists (pi b), d1.
    split; [by apply Hp|]. apply Hk; [done|by eapply steps_ok|done].
Qed.

Lemma codec_pret {A} (a : A) : Codec (pret a) (fun _ => []) (eq a).
Proof.
  intros d b d' Hd. unfold pret. rewrite steps_nil. split.
  - intros [= <- <-]. done.
  - intros [<- [_ ->]]. done.
Qed.

Lemma codec_lift {A} (r : result TransportError A) : Codec (lift r) (fun _ => []) (fun a => r = Ok a).
Proof.
  intros d b d' Hd. unfold lift. rewrite steps_nil. split.
  - destruct r; [|done]. intros [= -> <-]. done.
  - intros [-> [_ ->]]. done.
Qed.

Lemma codec_ext {A} (p : Parser A) wire wf wire' (wf' : A -> Prop) :
  Codec p wire wf -> (forall a, wf a <-> wf' a) -> (forall a, wf a -> wire a = wire' a) ->
  Codec p wire' wf'.
Proof.
  intros Hp Hwf Hwire d a d' Hd. rewrite (Hp d a d' Hd), <- Hwf.
  split; intros [H1 H2]; (split; [done|]);
    [rewrite <- Hwire by done|rewrite Hwire by done]; done.
Qed.

(** A parser that always fails. *)
Lemma codec_fail {A} (e : TransportError) (wire : A -> list N) (wf : A -> Prop) :
  (forall a, ~ wf a) -> Codec (lift (Err e)) wire wf.
Proof. intros Hno d a d' Hd. simpl. split; [done|]. by intros [?%Hno _]. Qed.

(** *** Primitive parsers *)

Lemma codec_slice n :
  Codec (get_slice n) (fun l => l) (fun l => len l = n /\ Forall is_byte l).
Proof.
  intros d l d' Hd. unfold get_slice. pose proof (length_ahead d Hd) as Hl. split.
  - destruct (checked_add64 _ _) as [last|] eqn:Hc; [|done].
    apply checked_add64_Some in Hc as [_ ->].
    destruct (N.ltb_spec (len (d_bytes d)) (d_offset d + n)); [done|]. intros [= <- <-].
    change (drop (N.to_nat (d_offset d)) (d_bytes d)) with (ahead d).
    assert (len (take (N.to_nat n) (ahead d)) = n) as Hn.
    { unfold len in *. rewrite length_take. lia. }
    split; [split; [done|]|].
    + apply Forall_take, Forall_drop. apply Hd.
    + rewrite <- Hn at 2. eapply steps_split; [done|]. by rewrite take_drop.
  - intros [[Hn _] (_ & (_ & _ & Hd') & Ha & ->)]. simpl in Hd'. rewrite Hn in *.
    assert (checked_add64 (d_offset d) n = Some (d_offset d + n)%N) as ->.
    { apply checked_add64_Some. destruct Hd as (_ & ? & _). split; [lia|done]. }
    destruct (N.ltb_spec (len (d_bytes d)) (d_offset d + n)); [lia|].
    change (drop (N.to_nat (d_offset d)) (d_bytes d)) with (ahead d). rewrite Ha.
    repeat f_equal. rewrite <- Hn. unfold len. by rewrite Nat2N.id, take_app_length.
Qed.

Lemma codec_int (n : nat) (nN : N) : N.of_nat n = nN ->
  Codec (let* l := get_slice nN in pret (from_le l)) (to_le n) (fun v => v < 256 ^ nN)%N.
Proof.
  intros Hn d v d' Hd. rewrite pbind_Ok. split.
  - intros (l & d1 & [[Hl Hb] Hs]%codec_slice & [= <- <-]); [|done].
    assert (length l = n) as Hlen by (unfold len in Hl; lia).
    split; [rewrite <- Hn, <- Hlen; by apply from_le_bound|].
    rewrite <- Hlen, to_from_le by done. done.
  - intros [Hv Hs]. exists (to_le n v), d'. split.
    + apply codec_slice; [done|]. split; [|done]. unfold len. rewrite length_to_le.
      split; [done|apply to_le_bytes].
    + unfold pret. rewrite from_to_le by (by rewrite Hn). done.
Qed.

Lemma codec_u16 : Codec get_u16 (to_le 2) (fun v => v <= u16_max)%N.
Proof.
  eapply codec_ext; [by apply (codec_int 2 2)| |done]. intros v. unfold u16_max.
  change (256 ^ 2)%N with 65536%N. lia.
Qed.
Lemma codec_u32 : Codec get_u32 (to_le 4) (fun v => v <= u32_max)%N.
Proof.
  eapply codec_ext; [by apply (codec_int 4 4)| |done]. intros v. unfold u32_max.
  change (256 ^ 4)%N with 4294967296%N. lia.
Qed.
Lemma codec_u64 : Codec get_u64 (to_le 8) (fun v => v <= u64_max)%N.
Proof.
  eapply codec_ext; [by apply (codec_int 8 8)| |done]. intros v. unfold u64_max.
  change (256 ^ 8)%N with 18446744073709551616%N. lia.
Qed.

Lemma codec_u8 : Codec get_u8 (fun v => [v]) is_byte.
Proof.
  intros d v d' Hd. unfold get_u8. rewrite pbind_Ok. split.
  - intros (l & d1 & [[Hl Hb] Hs]%codec_slice & [= <- <-]); [|done].
    destruct l as [|b [|]]; try (rewrite ?len_cons, len_nil in Hl; lia).
    + simpl. inversion Hb; subst. done.
    + exfalso. rewrite !len_cons in Hl. lia.
  - intros [Hv Hs]. exists [v], d'. split; [|done]. apply codec_slice; [done|].
    split; [|done]. split; [done|by constructor].
Qed.

(** *** Compound parsers *)

Create HintDb codec.
#[export] Hint Resolve codec_u8 codec_u16 codec_u32 codec_u64 codec_slice codec_lift : codec.

Lemma codec_fwd {A} (p : Parser A) wire wf d a d' :
  Codec p wire wf -> ok_decoder d -> p d = Ok (a, d') ->
  wf a /\ steps d (wire a) d' /\ ok_decoder d'.
Proof.
  intros Hp Hd Ha. apply Hp in Ha as [? Hs]; [|done]. split; [done|]. split; [done|].
  by eapply steps_ok.
Qed.

Lemma codec_bwd {A B} (p : Parser A) (k : A -> Parser B) wire wf d a d1 r :
  Codec p wire wf -> wf a -> steps d (wire a) d1 -> k a d1 = Ok r -> pbind p k d = Ok r.
Proof.
  intros Hp Hwf Hs Hk. unfold pbind. by rewrite (proj2 (Hp d a d1 (proj1 Hs))).
Qed.

Lemma steps_cons d b bs d' : steps d (b :: bs) d' <-> exists d1, steps d [b] d1 /\ steps d1 bs d'.
Proof. apply (steps_app d [b] bs d'). Qed.

(** Take a successful run of a parser apart. *)
Ltac parse_fwd :=
  repeat match goal with
  | H : pbind ?p ?k ?d = Ok (?b, ?d2) |- _ =>
      let a := fresh "a" in let d1 := fresh "d" in let Hp := fresh "Hp" in
      let Hw := fresh "Hw" in let Hs := fresh "Hs" in let Hd := fresh "Hd" in
      apply pbind_Ok in H as (a & d1 & Hp & H);
      eapply codec_fwd in Hp as (Hw & Hs & Hd); [|solve [eauto with codec]|assumption];
      cbv beta in Hw, Hs
  | H : pret _ _ = Ok (_, _) |- _ => unfold pret in H; injection H as <- <-
  | H : lift (Err _) _ = Ok _ |- _ => discriminate H
  end.

(** Follow the bytes [steps] describes. *)
Ltac steps_fwd :=
  repeat (apply steps_app; eexists; split; [eassumption|]);
  try eassumption.
Ltac steps_bwd :=
  repeat match goal with
  | H : steps _ (_ ++ _) _ |- _ => apply steps_app in H as (? & ? & H)
  | H : steps _ (_ :: _ :: _) _ |- _ => apply steps_cons in H as (? & ? & H)
  | H : steps _ [] _ |- _ => apply steps_nil in H as [? ->]
  end.

(** The next parser of a sequence reads the next bytes. *)
Ltac parse_bwd :=
  eapply codec_bwd; [solve [eauto with codec]| |eassumption|]; cbv beta; [try done|].

Lemma steps_nil_r d bs d1 d2 : steps d bs d1 -> steps d1 [] d2 -> steps d bs d2.
Proof. intros H1 [_ ->]%steps_nil. done. Qed.

Definition wire_string (s : string) : list N := to_le 2 (slen s) ++ string_bytes s.
Definition wf_string (maximum : N) (s : string) : Prop :=
  s <> "" /\ (slen s <= maximum)%N /\ (slen s <= u16_max)%N /\ utf8_valid (string_bytes s) = true.

Lemma slen_zero s : slen s = 0%N <-> s = "".
Proof. destruct s; [done|]. unfold slen. simpl. split; [lia|done]. Qed.

Lemma codec_string maximum : Codec (get_string maximum) wire_string (wf_string maximum).
Proof.
  intros d s d' Hd. unfold get_string, wire_string, wf_string. split.
  - intros H. apply pbind_Ok in H as (n & d1 & [Hn Hs1]%codec_u16 & H); [|done].
    assert (ok_decoder d1) by by eapply steps_ok.
    destruct (N.eqb_spec n 0); [done|]. destruct (N.ltb_spec maximum n); [done|]. simpl in H.
    apply pbind_Ok in H as (l & d2 & [[Hl Hb] Hs2]%codec_slice & H); [|done].
    destruct (utf8_valid l) eqn:Hu; [|done]. injection H as <- <-.
    assert (slen (bytes l) = n) as Hsl by by rewrite <- len_string_bytes, string_bytes_bytes.
    rewrite string_bytes_bytes, Hsl by done. split.
    + split; [|done]. intros He. rewrite He in Hsl. done.
    + by apply steps_app; exists d1.
  - intros [(Hne & Hmax & H16 & Hu) (d1 & Hs1 & Hs2)%steps_app].
    apply pbind_Ok. exists (slen s), d1. split; [by apply codec_u16; [apply Hs1|]|].
    destruct (N.eqb_spec (slen s) 0) as [Hz|_]; [by apply slen_zero in Hz|].
    destruct (N.ltb_spec maximum (slen s)); [lia|]. simpl. apply pbind_Ok.
    exists (string_bytes s), d'. split.
    + apply codec_slice; [by eapply steps_ok|]. split; [|done].
      split; [apply len_string_bytes|apply string_bytes_byte].
    + by rewrite Hu, bytes_string_bytes.
Qed.

Definition wire_bytes (l : list N) : list N := to_le 4 (len l) ++ l.
Definition wf_bytes (maximum : N) (l : list N) : Prop :=
  (len l <= maximum)%N /\ (len l <= u32_max)%N /\ Forall is_byte l.

Lemma codec_bytes maximum : Codec (get_bytes maximum) wire_bytes (wf_bytes maximum).
Proof.
  intros d l d' Hd. unfold get_bytes, wire_bytes, wf_bytes. split.
  - intros H. apply pbind_Ok in H as (n & d1 & [Hn Hs1]%codec_u32 & H); [|done].
    destruct (N.ltb_spec maximum n); [done|].
    apply codec_slice in H as [[<- Hb] Hs2]; [|by eapply steps_ok]. split; [done|].
    by apply steps_app; exists d1.
  - intros [(Hmax & H32 & Hb) (d1 & Hs1 & Hs2)%steps_app].
    apply pbind_Ok. exists (len l), d1. split; [by apply codec_u32; [apply Hs1|]|].
    destruct (N.ltb_spec maximum (len l)); [lia|]. apply codec_slice; [by eapply steps_ok|done].
Qed.
#[export] Hint Resolve codec_string codec_bytes : codec.

Definition wire_state (s : CapabilityState) : list N :=
  wire_string (cs_capability s) ++ [if cs_required s then 1%N else 0%N] ++ [status_code (cs_status s)].
Definition wf_state (s : CapabilityState) : Prop :=
  wf_string MAX_CAPABILITY_ID_BYTES (cs_capability s).

Lemma decode_status_Ok v s : decode_status v = Ok s <-> v = status_code s.
Proof.
  split; [|by intros ->; destruct s].
  unfold decode_status. by repeat case_match; intros [= <-].
Qed.
Lemma decode_phase_Ok v s : decode_phase v = Ok s <-> v = phase_code s.
Proof.
  split; [|by intros ->; destruct s].
  unfold decode_phase. by repeat case_match; intros [= <-].
Qed.
Lemma decode_origin_Ok v s : decode_origin v = Ok s <-> v = origin_code s.
Proof.
  split; [|by intros ->; destruct s].
  unfold decode_origin. by repeat case_match; intros [= <-].
Qed.
Lemma decode_error_Ok v s : decode_error v = Ok s <-> v = error_code s.
Proof.
  split; [|by intros ->; destruct s].
  unfold decode_error. by repeat case_match; intros [= <-].
Qed.
Lemma status_code_byte s : is_byte (status_code s).
Proof. by destruct s. Qed.
Lemma phase_code_byte s : is_byte (phase_code s).
Proof. by destruct s. Qed.
Lemma origin_code_byte s : is_byte (origin_code s).
Proof. by destruct s. Qed.
Lemma error_code_byte s : is_byte (error_code s).
Proof. by destruct s. Qed.

(** A one-byte code and its decoder. *)
Lemma codec_code {A} (code : A -> N) (decode : N -> result TransportError A) :
  (forall v a, decode v = Ok a <-> v = code a) -> (forall a, is_byte (code a)) ->
  Codec (let* v := get_u8 in lift (decode v)) (fun a => [code a]) (fun _ => True).
Proof.
  intros Hdec Hbyte d a d' Hd. rewrite pbind_Ok. split.
  - intros (v & d1 & [Hv Hs]%codec_u8 & Hl); [|done]. split; [done|].
    apply codec_lift in Hl as [->%Hdec Hl]; [|by eapply steps_ok].
    by eapply steps_nil_r.
  - intros [_ Hs]. exists (code a), d'. split; [by apply codec_u8|].
    apply codec_lift; [by eapply steps_ok|]. split; [by apply Hdec|].
    apply steps_nil. split; [by eapply steps_ok|done].
Qed.

(** Sequential composition is associative, so a code can be read in one step. *)
Lemma pbind_assoc {A B C} (p : Parser A) (q : A -> Parser B) (k : B -> Parser C) d :
  pbind p (fun a => pbind (q a) k) d = pbind (pbind p q) k d.
Proof. unfold pbind. by destruct (p d) as [[]|]. Qed.

Lemma codec_required (marker : N) :
  Codec (match marker with
         | 0 => pret false
         | 1 => pret true
         | _ => lift (Err (Malformed "invalid required marker"))
         end%N) (fun _ => []) (fun b : bool => marker = if b then 1 else 0)%N.
Proof.
  intros d b d' Hd. rewrite steps_nil. split.
  - destruct marker as [|[]]; try done; intros [= <- <-]; done.
  - intros [-> [_ ->]]. by destruct b.
Qed.
#[export] Hint Resolve codec_required : codec.

Lemma codec_state : Codec get_state wire_state wf_state.
Proof.
  intros d s d' Hd. unfold get_state, wire_state, wf_state. split.
  - intros H. parse_fwd. cbn [cs_capability cs_required cs_status].
    apply decode_status_Ok in Hw3 as ->. subst a0.
    split; [done|]. apply steps_app. exists d0. split; [done|]. apply steps_app.
    apply steps_nil in Hs1 as [_ ->]. apply steps_nil in Hs3 as [_ ->]. by exists d1.
  - intros [Hw Hs]. steps_bwd. destruct s as [capability required status].
    cbn [cs_capability cs_required cs_status] in *.
    eapply (codec_bwd _ _ _ _ d capability); [apply codec_string|done|eassumption|].
    parse_bwd; [by destruct required|].
    eapply (codec_bwd _ _ _ _ _ required); [apply codec_required|done| |].
    { apply steps_nil. split; [by eapply steps_ok|reflexivity]. }
    parse_bwd; [apply status_code_byte|].
    unfold pbind, lift. by destruct status.
Qed.

Lemma codec_many {A} (p : Parser A) wire wf n :
  Codec p wire wf ->
  Codec (get_many n p) (fun l => concat (wire <$> l)) (fun l => length l = n /\ Forall wf l).
Proof.
  intros Hp. induction n as [|n IH]; intros d l d' Hd; simpl.
  - unfold pret. split.
    + intros [= <- <-]. split; [done|]. by apply steps_nil.
    + intros [[Hl _] Hs]. destruct l; [|done]. apply steps_nil in Hs as [_ ->]. done.
  - split.
    + intros H. apply pbind_Ok in H as (a & d1 & [Ha Hs]%Hp & H); [|done].
      apply pbind_Ok in H as (k & d2 & [[Hl Hk] Hs2]%IH & H); [|by eapply steps_ok].
      injection H as <- <-. split; [split; [simpl; by f_equal|by constructor]|].
      simpl. apply steps_app. by exists d1.
    + intros [[Hl Hf] Hs]. destruct l as [|a l]; [done|]. simpl in *. inversion Hf; subst.
      apply steps_app in Hs as (d1 & Hs1 & Hs2).
      eapply codec_bwd; [done|done|eassumption|]. apply pbind_Ok. exists l, d'.
      split; [|done]. apply IH; [by eapply steps_ok|]. split; [|done]. split; [lia|done].
Qed.

Definition wire_states (l : list CapabilityState) : list N :=
  to_le 2 (len l) ++ concat (wire_state <$> l).
Definition wf_states (l : list CapabilityState) : Prop := (len l <= 64)%N /\ Forall wf_state l.

Lemma codec_states : Codec get_states wire_states wf_states.
Proof.
  intros d l d' Hd. unfold get_states, wire_states, wf_states. split.
  - intros H. apply pbind_Ok in H as (n & d1 & [Hn Hs1]%codec_u16 & H); [|done].
    destruct (N.ltb_spec 64 n); [done|].
    apply (codec_many _ _ _ _ codec_state) in H as [[Hl Hf] Hs2]; [|by eapply steps_ok].
    assert (len l = n) as Hln by (unfold len; lia). rewrite Hln. split; [done|].
    apply steps_app. by exists d1.
  - intros [[Hl Hf] (d1 & Hs1 & Hs2)%steps_app].
    eapply codec_bwd; [apply codec_u16| |eassumption|]; [unfold u16_max; lia|].
    destruct (N.ltb_spec 64 (len l)); [lia|].
    apply (codec_many _ _ _ _ codec_state); [by eapply steps_ok|].
    split; [|done]. split; [|done]. unfold len. by rewrite Nat2N.id.
Qed.

Definition wire_result (r : BrokerResult) : list N :=
  match r with Success payload => 0%N :: wire_bytes payload | BrokerError e => [1%N; error_code e] end.
Definition wf_result (r : BrokerResult) : Prop :=
  match r with Success payload => wf_bytes MAX_INLINE_PAYLOAD_BYTES payload | BrokerError _ => True end.

Lemma codec_result message : Codec (get_result message) wire_result wf_result.
Proof.
  intros d r d' Hd. unfold get_result. split.
  - intros H. apply pbind_Ok in H as (marker & d1 & [Hm Hs1]%codec_u8 & H); [|done].
    assert (ok_decoder d1) by by eapply steps_ok.
    destruct marker as [|[]]; try done; parse_fwd.
    + simpl. split; [done|]. apply (steps_app d [0%N]). by exists d1.
    + simpl. apply decode_error_Ok in Hw0 as ->. apply steps_nil in Hs0 as [_ ->].
      split; [done|]. apply (steps_app d [1%N]). by exists d1.
  - intros [Hw Hs]. destruct r as [payload|code]; simpl in *.
    + apply (steps_app d [0%N]) in Hs as (d1 & Hs1 & Hs2).
      parse_bwd. simpl.
      parse_bwd; done.
    + steps_bwd. parse_bwd. simpl.
      parse_bwd; [apply error_code_byte|].
      unfold pbind, lift. by destruct code.
Qed.

Definition wire_activation (a : option ActivationContext) : list N :=
  match a with
  | None => [0%N]
  | Some a =>
      [1%N] ++ [origin_code (ac_origin a)] ++ to_le 8 (ac_surface_instance a)
      ++ wire_string (ac_item_id a) ++ to_le 8 (ac_widget_id a)
      ++ to_le 8 (ac_input_sequence a) ++ to_le 8 (ac_deadline_monotonic_micros a)
  end.
Definition wf_activation (a : option ActivationContext) : Prop :=
  match a with
  | None => True
  | Some a =>
      (ac_surface_instance a <= u64_max)%N /\ wf_string 256 (ac_item_id a) /\
      (ac_widget_id a <= u64_max)%N /\ (ac_input_sequence a <= u64_max)%N /\
      (ac_deadline_monotonic_micros a <= u64_max)%N
  end.

Lemma codec_activation : Codec get_activation wire_activation wf_activation.
Proof.
  intros d r d' Hd. unfold get_activation. split.
  - intros H. apply pbind_Ok in H as (marker & d1 & [Hm Hs1]%codec_u8 & H); [|done].
    assert (ok_decoder d1) by by eapply steps_ok.
    destruct marker as [|[]]; try done; parse_fwd; [by split|].
    apply decode_origin_Ok in Hw0 as ->. apply steps_nil in Hs0 as [_ ->].
    split; [done|]. unfold wire_activation. cbn [ac_origin ac_surface_instance ac_item_id ac_widget_id
      ac_input_sequence ac_deadline_monotonic_micros]. steps_fwd.
  - intros [Hw Hs]. destruct r as [[origin surface item widget input deadline]|]; simpl in Hw.
    + unfold wire_activation in Hs. cbn [ac_origin ac_surface_instance ac_item_id ac_widget_id
        ac_input_sequence ac_deadline_monotonic_micros] in Hs. steps_bwd.
      destruct Hw as (? & ? & ? & ? & ?).
      parse_bwd. simpl.
      parse_bwd; [apply origin_code_byte|].
      eapply (codec_bwd _ _ _ _ _ origin); [apply codec_lift|by apply decode_origin_Ok| |].
      { apply steps_nil. split; [by eapply steps_ok|reflexivity]. }
      parse_bwd.
      parse_bwd.
      do 3 parse_bwd. done.
    + unfold wire_activation in Hs. parse_bwd. done.
Qed.
#[export] Hint Resolve codec_state codec_states codec_result codec_activation : codec.

(** *** Whole packets *)

Lemma decoder_new_Ok packet kind d :
  Forall is_byte packet -> (len packet <= u64_max)%N ->
  decoder_new packet = Ok (kind, d) <->
  exists rest, packet = encoder_new kind ++ rest /\
    d = {| d_bytes := packet; d_offset := 8 |} /\ ok_decoder d /\ ahead d = rest.
Proof.
  intros Hb Hu. unfold decoder_new. split.
  - destruct (N.ltb_spec (len packet) 8) as [|Hl]; [done|]. simpl.
    case_bool_decide as Hm; [|done]. simpl.
    destruct (N.eqb_spec (from_le (take 2 (drop 4 packet))) BROKER_PROTOCOL_VERSION) as [Hv|];
      [|done]. simpl.
    destruct (N.eqb_spec (nth 7 packet 0%N) 0) as [Hr|]; [|done]. intros [= <- <-].
    exists (drop 8 packet).
    assert (ok_decoder {| d_bytes := packet; d_offset := 8 |}) as Hok by (split; [done|split; [done|simpl; lia]]).
    split; [|done].
    assert (Forall is_byte (take 2 (drop 4 packet))) as Hvb by by apply Forall_take, Forall_drop.
    do 8 (destruct packet as [|? packet]; [rewrite ?len_cons, len_nil in Hl; lia|]).
    apply to_from_le in Hvb. rewrite Hv in Hvb. unfold to_le in Hvb. injection Hvb as <- <-.
    simpl in Hm, Hr |- *. injection Hm as -> -> -> ->. subst. by rewrite drop_0.
  - intros (rest & -> & -> & _ & _). set (packet := encoder_new kind ++ rest).
    assert ((len packet <? 8)%N = false) as ->.
    { apply N.ltb_ge. unfold packet. rewrite len_app. change (len (encoder_new kind)) with 8%N. lia. }
    assert (take 4 packet = MAGIC) as -> by reflexivity.
    assert (from_le (take 2 (drop 4 packet)) = BROKER_PROTOCOL_VERSION) as -> by reflexivity.
    assert (nth 7 packet 0%N = 0%N) as -> by reflexivity.
    assert (nth 6 packet 0%N = kind) as -> by reflexivity.
    rewrite bool_decide_true by done. done.
Qed.

Definition run_packet {A} (p : N -> Parser A) (packet : list N) : result TransportError A :=
  '(kind, d) ← decoder_new packet;
  '(a, d) ← p kind d;
  _ ← decoder_finish d;
  Ok a.

Lemma run_packet_Ok {A} (p : N -> Parser A) wire wf (kind_of : A -> N) packet a :
  (forall kind, Codec (p kind) wire (fun a => kind_of a = kind /\ wf a)) ->
  Forall is_byte packet -> (len packet <= u64_max)%N ->
  run_packet p packet = Ok a <-> wf a /\ packet = encoder_new (kind_of a) ++ wire a.
Proof.
  intros Hp Hb Hu. unfold run_packet. split.
  - intros H. apply bind_Ok in H as ([kind d] & Hn & H).
    apply decoder_new_Ok in Hn as (rest & Hpk & Hd & Hok & Ha); [|done..].
    apply bind_Ok in H as ([a' d'] & Hr & H). apply Hp in Hr as [[Hk Hwf] Hs]; [|done].
    apply bind_Ok in H as ([] & Hf & H). injection H as ->. split; [done|].
    destruct Hs as (_ & Hok' & Hah & _). unfold decoder_finish in Hf.
    destruct (N.eqb_spec (d_offset d') (len (d_bytes d'))) as [He|]; [|done].
    pose proof (length_ahead d' Hok') as Hl. rewrite He, N.sub_diag in Hl.
    assert (ahead d' = []) as Hz by (destruct (ahead d'); [done|rewrite len_cons in Hl; lia]).
    rewrite Hz, app_nil_r in Hah. rewrite Hpk, Hk. congruence.
  - intros [Hwf Hpk].
    set (d := {| d_bytes := packet; d_offset := 8 |}).
    assert (len packet = 8 + len (wire a))%N as Hl by by rewrite Hpk, len_app.
    assert (ok_decoder d) as Hok by (split; [done|split; [done|simpl; lia]]).
    assert (ahead d = wire a) as Ha by (unfold ahead, d; simpl; by rewrite Hpk).
    assert (decoder_new packet = Ok (kind_of a, d)) as ->.
    { apply decoder_new_Ok; [done|done|]. by exists (wire a). }
    simpl. pose proof (steps_split d (wire a) [] Hok ltac:(by rewrite app_nil_r)) as Hs.
    rewrite (proj2 (Hp _ d a _ Hok) (conj (conj eq_refl Hwf) Hs)). simpl.
    unfold decoder_finish. simpl. rewrite Hl, N.eqb_refl. done.
Qed.

Definition host_kind (m : HostMessage) : N :=
  match m with
  | GetCapabilities _ => HOST_GET_CAPABILITIES | Request _ _ _ _ _ _ => HOST_REQUEST
  | Cancel _ _ => HOST_CANCEL | Close _ _ => HOST_CLOSE
  end.

(** The wire form of a host message after the eight header bytes. *)
Definition wire_host (m : HostMessage) : list N :=
  to_le 8 (host_request_id m) ++
  match m with
  | GetCapabilities _ => []
  | Request _ phase capability operation payload activation =>
      [phase_code phase] ++ wire_string capability ++ wire_string operation
      ++ wire_bytes payload ++ wire_activation activation
  | Cancel _ target => to_le 8 target
  | Close _ resource => to_le 8 resource
  end.

Definition wf_host (m : HostMessage) : Prop :=
  (host_request_id m <= u64_max)%N /\
  match m with
  | GetCapabilities _ => True
  | Request _ phase capability operation payload activation =>
      wf_string MAX_CAPABILITY_ID_BYTES capability /\ wf_string MAX_OPERATION_ID_BYTES operation /\
      wf_bytes MAX_INLINE_PAYLOAD_BYTES payload /\ wf_activation activation
  | Cancel _ target => (target <= u64_max)%N
  | Close _ resource => (resource <= u64_max)%N
  end.

Definition get_host (kind : N) : Parser HostMessage :=
  let* request_id := get_u64 in get_host_body kind request_id.

(** Decide a kind against the constants. *)
Ltac kind_cases H :=
  repeat match type of H with
  | (if (?k =? ?c)%N then _ else _) _ = _ => destruct (N.eqb_spec k c) as [->|]
  end.

Lemma codec_host kind : Codec (get_host kind) wire_host (fun m => host_kind m = kind /\ wf_host m).
Proof.
  intros d m d' Hd. unfold get_host, wire_host, wf_host. split.
  - intros H. apply pbind_Ok in H as (id & d1 & [Hid Hs]%codec_u64 & H); [|done].
    assert (ok_decoder d1) by by eapply steps_ok.
    unfold get_host_body in H. kind_cases H; parse_fwd; cbn [host_request_id].
    + split; [done|]. by rewrite app_nil_r.
    + apply decode_phase_Ok in Hw0 as ->. apply steps_nil in Hs1 as [_ ->].
      split; [done|]. steps_fwd.
    + split; [done|]. steps_fwd.
    + split; [done|]. steps_fwd.
  - intros [[Hk [Hid Hw]] Hs]. apply steps_app in Hs as (d1 & Hs1 & Hs2).
    parse_bwd. subst kind. destruct m; cbn [host_request_id host_kind] in *; unfold get_host_body; simpl.
    + by apply steps_nil in Hs2 as [_ ->].
    + destruct Hw as (? & ? & ? & ?). steps_bwd.
      parse_bwd; [apply phase_code_byte|].
      eapply (codec_bwd _ _ _ _ _ phase); [apply codec_lift|by apply decode_phase_Ok| |].
      { apply steps_nil. split; [by eapply steps_ok|reflexivity]. }
      do 4 parse_bwd. done.
    + parse_bwd. done.
    + parse_bwd. done.
Qed.

Lemma decode_host_run packet : decode_host packet = run_packet get_host packet.
Proof.
  unfold decode_host, run_packet, get_host, pbind.
  destruct (decoder_new packet) as [[k d]|]; [|done]. simpl.
  by destruct (get_u64 d) as [[id d1]|].
Qed.

(** *** The encoder writes the wire form *)

Lemma put_string_Ok v maximum e e' :
  put_string v maximum e = Ok e' <->
  (v <> "" /\ slen v <= maximum /\ slen v <= u16_max)%N /\ e' = e ++ wire_string v.
Proof.
  unfold put_string, wire_string, put_u16.
  destruct (String.eqb_spec v ""); simpl; [by split; [|intros [[? _] _]]|].
  destruct (N.ltb_spec maximum (slen v)); simpl; [split; [done|intros [(_ & ? & _) _]; lia]|].
  destruct (N.ltb_spec u16_max (slen v)); [split; [done|intros [(_ & _ & ?) _]; lia]|].
  rewrite <- app_assoc. split; [by intros [= <-]|by intros [_ ->]].
Qed.

Lemma put_bytes_Ok v e e' :
  put_bytes v e = Ok e' <-> (len v <= u32_max)%N /\ e' = e ++ wire_bytes v.
Proof.
  unfold put_bytes, wire_bytes, put_u32. destruct (N.ltb_spec u32_max (len v)); split; intros Hx.
  - done.
  - destruct Hx. lia.
  - injection Hx as <-. by rewrite app_assoc.
  - destruct Hx as [_ ->]. by rewrite app_assoc.
Qed.

Lemma encoder_finish_Ok e packet :
  encoder_finish e = Ok packet <-> (len packet <= MAX_BROKER_PACKET_BYTES)%N /\ packet = e.
Proof.
  unfold encoder_finish. destruct (N.ltb_spec MAX_BROKER_PACKET_BYTES (len e)); split.
  - done.
  - intros [? ->]. lia.
  - by intros [= <-].
  - by intros [_ ->].
Qed.

Lemma put_state_Ok s e e' :
  put_state s e = Ok e' <->
  (cs_capability s <> "" /\ slen (cs_capability s) <= MAX_CAPABILITY_ID_BYTES
   /\ slen (cs_capability s) <= u16_max)%N /\ e' = e ++ wire_state s.
Proof.
  unfold put_state. rewrite bind_Ok. setoid_rewrite put_string_Ok. unfold wire_state, put_u8. split.
  - intros (e1 & [Hs ->] & [= <-]). split; [done|]. by rewrite <- !app_assoc.
  - intros [Hs ->]. eexists. split; [done|]. by rewrite <- !app_assoc.
Qed.

Lemma put_state_fold l e e' :
  foldR (fun e state => put_state state e) e l = Ok e' <->
  Forall (fun s => cs_capability s <> "" /\ slen (cs_capability s) <= MAX_CAPABILITY_ID_BYTES
   /\ slen (cs_capability s) <= u16_max)%N l /\ e' = e ++ concat (wire_state <$> l).
Proof.
  revert e; induction l as [|s l IH]; intros e; cbn [foldR].
  - rewrite app_nil_r. split; [by intros [= <-]|by intros [_ ->]].
  - rewrite bind_Ok. setoid_rewrite put_state_Ok. setoid_rewrite IH.
    rewrite Forall_cons, fmap_cons. cbn [concat]. split.
    + intros (e1 & [Hs ->] & [Hl ->]). split; [done|]. by rewrite <- app_assoc.
    + intros [[Hs Hl] ->]. eexists. split; [done|]. by rewrite <- app_assoc.
Qed.

Lemma put_states_Ok l e e' :
  put_states l e = Ok e' <->
  (len l <= 64)%N /\
  Forall (fun s => cs_capability s <> "" /\ slen (cs_capability s) <= MAX_CAPABILITY_ID_BYTES
   /\ slen (cs_capability s) <= u16_max)%N l /\ e' = e ++ wire_states l.
Proof.
  unfold put_states, wire_states, put_u16. destruct (N.ltb_spec 64 (len l)).
  - split; [done|]. intros [? _]. lia.
  - rewrite put_state_fold, <- app_assoc. tauto.
Qed.

Lemma put_activation_Ok a e e' :
  put_activation a e = Ok e' <->
  match a with
  | None => True
  | Some a => (ac_item_id a <> "" /\ slen (ac_item_id a) <= 256 /\ slen (ac_item_id a) <= u16_max)%N
  end /\ e' = e ++ wire_activation a.
Proof.
  unfold put_activation, wire_activation, put_u64, put_u8. destruct a as [a|].
  - rewrite bind_Ok. setoid_rewrite put_string_Ok. split.
    + intros (e1 & [Hs ->] & [= <-]). split; [done|]. by rewrite <- !app_assoc.
    + intros [Hs ->]. eexists. split; [done|]. by rewrite <- !app_assoc.
  - split; [by intros [= <-]|by intros [_ ->]].
Qed.

(** What Rust's types already guarantee of a message: 64-bit identifiers,
    UTF-8 strings, payloads of bytes. *)
Definition typed_string (s : string) : Prop := utf8_valid (string_bytes s) = true.
Definition typed_host (m : HostMessage) : Prop :=
  (host_request_id m <= u64_max)%N /\
  match m with
  | GetCapabilities _ => True
  | Request _ _ capability operation payload activation =>
      typed_string capability /\ typed_string operation /\ Forall is_byte payload /\
      match activation with
      | None => True
      | Some a =>
          (ac_surface_instance a <= u64_max)%N /\ typed_string (ac_item_id a) /\
          (ac_widget_id a <= u64_max)%N /\ (ac_input_sequence a <= u64_max)%N /\
          (ac_deadline_monotonic_micros a <= u64_max)%N
      end
  | Cancel _ target => (target <= u64_max)%N
  | Close _ resource => (resource <= u64_max)%N
  end.

Lemma payload_limit (p : list N) :
  Forall is_byte p ->
  wf_bytes MAX_INLINE_PAYLOAD_BYTES p <-> (len p <= MAX_INLINE_PAYLOAD_BYTES /\ len p <= u32_max)%N.
Proof. unfold wf_bytes. tauto. Qed.

Lemma encode_host_Ok m packet :
  typed_host m ->
  encode_host m = Ok packet <->
  wf_host m /\ packet = encoder_new (host_kind m) ++ wire_host m /\
  (len packet <= MAX_BROKER_PACKET_BYTES)%N.
Proof.
  intros [Hid Ht]. unfold encode_host, wf_host, wire_host. rewrite bind_Ok.
  setoid_rewrite encoder_finish_Ok. unfold put_u64, put_u8.
  destruct m; cbn [host_kind host_request_id] in *.
  - rewrite app_nil_r. split.
    + by intros (e & [= <-] & ? & ->).
    + intros (_ & -> & ?). eauto.
  - destruct Ht as (Hc & Ho & Hp & Ha). rewrite payload_limit by done. split.
    + intros (e & He & Hl & ->). apply bind_Ok in He as ([] & Hr & He).
      apply reject_if_Ok, N.ltb_ge in Hr. do 3 (apply bind_Ok in He as (? & ? & He)).
      apply put_string_Ok in H as [Hc1 ->], H0 as [Ho1 ->]. apply put_bytes_Ok in H1 as [Hb ->].
      apply put_activation_Ok in He as [Ha1 ->]. rewrite <- !app_assoc in *.
      split; [|done]. split; [done|]. unfold wf_string.
      repeat split; try tauto. destruct activation as [a|]; [|done]. unfold wf_activation, wf_string. tauto.
    + intros ((_ & (Hc1 & Hc2 & Hc3 & _) & (Ho1 & Ho2 & Ho3 & _) & [Hb1 Hb2] & Ha1) & -> & Hl).
      eexists. split; [|split; [exact Hl|reflexivity]].
      apply bind_Ok. exists (). split; [by apply reject_if_Ok, N.ltb_ge|].
      apply bind_Ok. eexists. split; [by apply put_string_Ok|].
      apply bind_Ok. eexists. split; [by apply put_string_Ok|].
      apply bind_Ok. eexists. split; [by apply put_bytes_Ok|].
      apply put_activation_Ok. rewrite <- !app_assoc. split; [|done].
      destruct activation as [a|]; [|done]. unfold wf_activation, wf_string in Ha1. tauto.
  - split.
    + intros (e & He%Ok_inj & ? & ->). subst e. rewrite <- app_assoc in *. done.
    + intros (_ & -> & ?). eexists. split; [done|]. by rewrite <- app_assoc.
  - split.
    + intros (e & He%Ok_inj & ? & ->). subst e. rewrite <- app_assoc in *. done.
    + intros (_ & -> & ?). eexists. split; [done|]. by rewrite <- app_assoc.
Qed.

Lemma decode_host_Ok m packet :
  Forall is_byte packet -> (len packet <= u64_max)%N ->
  decode_host packet = Ok m <-> wf_host m /\ packet = encoder_new (host_kind m) ++ wire_host m.
Proof. rewrite decode_host_run. intros. by apply run_packet_Ok; [exact codec_host|..]. Qed.

(** C12: Host messages have one wire form: for a message and a packet of at most
    64 KiB, the host encodes the message to the packet exactly when the
    supervisor decodes the packet to the message.  In particular decoding
    inverts encoding, no two messages share a packet and no message has two
    packets; and whatever the supervisor decodes respects every limit. *)
Theorem host_message_roundtrip (m : HostMessage) (packet : list N)
  (Htyped : typed_host m) (Hbytes : Forall is_byte packet)
  (Hsize : (len packet <= MAX_BROKER_PACKET_BYTES)%N) :
  (encode_host m = Ok packet <-> decode_host packet = Ok m) /\
  (forall m', decode_host packet = Ok m' -> wf_host m').
Proof.
  assert (len packet <= u64_max)%N by (unfold u64_max, MAX_BROKER_PACKET_BYTES in *; lia).
  split.
  - rewrite encode_host_Ok, decode_host_Ok by done. tauto.
  - intros m' Hm. by apply decode_host_Ok in Hm as [? _].
Qed.

Lemma host_message_roundtrip_witness :
  let m := Request 9 InputPhase "uri.open.v1" "open" [104; 105]%N
    (Some {| ac_origin := PhysicalOrigin; ac_surface_instance := 3; ac_item_id := "a/b";
             ac_widget_id := 4; ac_input_sequence := 5; ac_deadline_monotonic_micros := 6 |}) in
  exists packet, encode_host m = Ok packet /\ decode_host packet = Ok m.
Proof.
  intros m. destruct (encode_host m) as [packet|] eqn:He; [|vm_compute in He; discriminate He].
  exists packet. split; [reflexivity|].
  assert (Forall is_byte packet /\ (len packet <= MAX_BROKER_PACKET_BYTES)%N) as [Hb Hs].
  { vm_compute in He. injection He as <-. split; [repeat constructor|vm_compute; discriminate]. }
  refine (proj1 (proj1 (host_message_roundtrip m packet _ Hb Hs)) He).
  vm_compute. repeat split; discriminate || (repeat constructor) || idtac.
Defined.

(** *** Supervisor messages *)

Definition supervisor_kind (m : SupervisorMessage) : N :=
  match m with
  | Capabilities _ _ _ => SUPERVISOR_CAPABILITIES | Response _ _ => SUPERVISOR_RESPONSE
  | CapabilityChanged _ _ => SUPERVISOR_CAPABILITY_CHANGED
  | Shutdown _ _ => SUPERVISOR_SHUTDOWN | Overflow _ _ => SUPERVISOR_OVERFLOW
  | ResourceEvent _ _ _ => SUPERVISOR_RESOURCE_EVENT
  end.

(** The wire form of a supervisor message after the eight header bytes. *)
Definition wire_supervisor (m : SupervisorMessage) : list N :=
  match m with
  | Capabilities request_id generation states =>
      to_le 8 request_id ++ to_le 8 generation ++ wire_states states
  | Response request_id r => to_le 8 request_id ++ wire_result r
  | CapabilityChanged generation state => to_le 8 generation ++ wire_state state
  | Shutdown generation reason => to_le 8 generation ++ [error_code reason]
  | Overflow generation dropped => to_le 8 generation ++ to_le 8 dropped
  | ResourceEvent resource sequence r => to_le 8 resource ++ to_le 8 sequence ++ wire_result r
  end.

Definition wf_supervisor (m : SupervisorMessage) : Prop :=
  match m with
  | Capabilities request_id generation states =>
      (request_id <= u64_max)%N /\ (generation <= u64_max)%N /\ wf_states states
  | Response request_id r => (request_id <= u64_max)%N /\ wf_result r
  | CapabilityChanged generation state => (generation <= u64_max)%N /\ wf_state state
  | Shutdown generation _ => (generation <= u64_max)%N
  | Overflow generation dropped => (generation <= u64_max)%N /\ (dropped <= u64_max)%N
  | ResourceEvent resource sequence r =>
      (resource <= u64_max)%N /\ (sequence <= u64_max)%N /\ wf_result r
  end.

Definition typed_result (r : BrokerResult) : Prop :=
  match r with Success payload => Forall is_byte payload | BrokerError _ => True end.

Definition typed_supervisor (m : SupervisorMessage) : Prop :=
  match m with
  | Capabilities request_id generation states =>
      (request_id <= u64_max)%N /\ (generation <= u64_max)%N /\
      Forall (fun s => typed_string (cs_capability s)) states
  | Response request_id r => (request_id <= u64_max)%N /\ typed_result r
  | CapabilityChanged generation state =>
      (generation <= u64_max)%N /\ typed_string (cs_capability state)
  | Shutdown generation _ => (generation <= u64_max)%N
  | Overflow generation dropped => (generation <= u64_max)%N /\ (dropped <= u64_max)%N
  | ResourceEvent resource sequence r =>
      (resource <= u64_max)%N /\ (sequence <= u64_max)%N /\ typed_result r
  end.

Lemma codec_supervisor kind :
  Codec (get_supervisor_body kind) wire_supervisor
    (fun m => supervisor_kind m = kind /\ wf_supervisor m).
Proof.
  intros d m d' Hd. unfold wire_supervisor, wf_supervisor. split.
  - intros H. unfold get_supervisor_body, decode_result in H. kind_cases H; parse_fwd.
    + split; [done|]. steps_fwd.
    + split; [done|]. steps_fwd.
    + split; [done|]. steps_fwd.
    + apply decode_error_Ok in Hw1 as ->. apply steps_nil in Hs1 as [_ ->].
      split; [done|]. steps_fwd.
    + split; [done|]. steps_fwd.
    + split; [done|]. steps_fwd.
  - intros [[Hk Hw] Hs]. subst kind.
    destruct m; cbn [supervisor_kind] in *; unfold get_supervisor_body, decode_result; simpl.
    + destruct Hw as (? & ? & ?). steps_bwd. do 3 parse_bwd. done.
    + destruct Hw as (? & ?). steps_bwd. do 2 parse_bwd. done.
    + destruct Hw as (? & ?). steps_bwd. do 2 parse_bwd. done.
    + steps_bwd. parse_bwd. parse_bwd; [apply error_code_byte|].
      eapply (codec_bwd _ _ _ _ _ reason); [apply codec_lift|by apply decode_error_Ok| |].
      { apply steps_nil. split; [by eapply steps_ok|reflexivity]. }
      done.
    + destruct Hw as (? & ?). steps_bwd. do 2 parse_bwd. done.
    + destruct Hw as (? & ? & ?). steps_bwd. do 3 parse_bwd. done.
Qed.

Lemma put_result_Ok r e e' :
  typed_result r ->
  encode_result r e = Ok e' <-> wf_result r /\ e' = e ++ wire_result r.
Proof.
  unfold encode_result, wf_result, wire_result, put_u8. destruct r as [p|c]; simpl.
  - intros Hp. rewrite payload_limit by done.
    destruct (N.ltb_spec MAX_INLINE_PAYLOAD_BYTES (len p)).
    + split; [done|]. intros [[? _] _]. lia.
    + rewrite put_bytes_Ok, <- app_assoc. simpl. tauto.
  - intros _. rewrite <- app_assoc. split; [by intros <-%Ok_inj|by intros [_ ->]].
Qed.

Lemma wf_states_limits l :
  Forall (fun s => typed_string (cs_capability s)) l ->
  wf_states l <-> (len l <= 64)%N /\
    Forall (fun s => cs_capability s <> "" /\ slen (cs_capability s) <= MAX_CAPABILITY_ID_BYTES
      /\ slen (cs_capability s) <= u16_max)%N l.
Proof.
  intros Ht. unfold wf_states. apply and_iff_compat_l. rewrite !Forall_forall in *.
  unfold wf_state, wf_string. split; intros Hl s Hs; specialize (Ht s Hs); specialize (Hl s Hs).
  - tauto.
  - unfold typed_string in Ht. tauto.
Qed.

Lemma encode_supervisor_Ok m packet :
  typed_supervisor m ->
  encode_supervisor m = Ok packet <->
  wf_supervisor m /\ packet = encoder_new (supervisor_kind m) ++ wire_supervisor m /\
  (len packet <= MAX_BROKER_PACKET_BYTES)%N.
Proof.
  intros Ht. unfold encode_supervisor, wf_supervisor, wire_supervisor. rewrite bind_Ok.
  setoid_rewrite encoder_finish_Ok. unfold put_u64, put_u8.
  assert (forall (o : result TransportError Encoder) (P : Prop) (w : list N),
    (forall e, o = Ok e <-> P /\ e = w) ->
    (exists e, o = Ok e /\ (len packet <= MAX_BROKER_PACKET_BYTES)%N /\ packet = e) <->
    P /\ packet = w /\ (len packet <= MAX_BROKER_PACKET_BYTES)%N) as Hgen.
  { intros o P w Ho. split.
    - intros (e & He & Hl & ->). apply Ho in He as [? ->]. done.
    - intros (HP & -> & Hl). exists w. split; [by apply Ho|done]. }
  destruct m; cbn [supervisor_kind typed_supervisor] in *; apply Hgen; intros e.
  - destruct Ht as (? & ? & Hs). rewrite put_states_Ok, wf_states_limits, <- !app_assoc by done. tauto.
  - destruct Ht as (? & Hr). pose proof (put_result_Ok result
      (encoder_new SUPERVISOR_RESPONSE ++ to_le 8 request_id) e Hr) as Hp.
    unfold encode_result, put_u8 in Hp. rewrite Hp, <- app_assoc. tauto.
  - destruct Ht as (? & Hs). rewrite put_state_Ok, <- !app_assoc.
    unfold wf_state, wf_string, typed_string in *. tauto.
  - rewrite <- !app_assoc. split; [by intros <-%Ok_inj|by intros [_ ->]].
  - rewrite <- !app_assoc. split; [by intros <-%Ok_inj|by intros [_ ->]].
  - destruct Ht as (? & ? & Hr). rewrite put_result_Ok, <- !app_assoc by done. tauto.
Qed.

Lemma decode_supervisor_Ok m packet :
  Forall is_byte packet -> (len packet <= u64_max)%N ->
  decode_supervisor packet = Ok m <->
  wf_supervisor m /\ packet = encoder_new (supervisor_kind m) ++ wire_supervisor m.
Proof. intros. apply (run_packet_Ok get_supervisor_body); [exact codec_supervisor|done..]. Qed.

(** Supervisor messages have one wire form as well: encoding and decoding are
    inverse on packets of at most 64 KiB, and a decoded message respects every
    limit of the format. *)
Theorem supervisor_message_roundtrip (m : SupervisorMessage) (packet : list N)
  (Htyped : typed_supervisor m) (Hbytes : Forall is_byte packet)
  (Hsize : (len packet <= MAX_BROKER_PACKET_BYTES)%N) :
  (encode_supervisor m = Ok packet <-> decode_supervisor packet = Ok m) /\
  (forall m', decode_supervisor packet = Ok m' -> wf_supervisor m').
Proof.
  assert (len packet <= u64_max)%N by (unfold u64_max, MAX_BROKER_PACKET_BYTES in *; lia).
  split.
  - rewrite encode_supervisor_Ok, decode_supervisor_Ok by done. tauto.
  - intros m' Hm. by apply decode_supervisor_Ok in Hm as [? _].
Qed.

Lemma supervisor_message_roundtrip_witness :
  let m := Capabilities 1 2 [{| cs_capability := "secret.read.v1"; cs_required := true;
                               cs_status := WireNeedsConsent |}] in
  exists packet, encode_supervisor m = Ok packet /\ decode_supervisor packet = Ok m.
Proof.
  intros m. destruct (encode_supervisor m) as [packet|] eqn:He; [|vm_compute in He; discriminate He].
  exists packet. split; [reflexivity|].
  assert (Forall is_byte packet /\ (len packet <= MAX_BROKER_PACKET_BYTES)%N) as [Hb Hs].
  { vm_compute in He. injection He as <-. split; [repeat constructor|vm_compute; discriminate]. }
  refine (proj1 (proj1 (supervisor_message_roundtrip m packet _ Hb Hs)) He).
  vm_compute. repeat split; discriminate || (repeat constructor) || idtac.
Defined.

(** A well-formed message fails to encode only because of the 64 KiB packet
    limit; with a payload of at most 60 KiB and bounded names a host request
    always fits. *)
Lemma host_request_fits m :
  typed_host m -> wf_host m -> exists packet, encode_host m = Ok packet.
Proof.
  intros Ht Hw. exists (encoder_new (host_kind m) ++ wire_host m). apply encode_host_Ok; [done|].
  split; [done|]. split; [done|]. unfold wire_host, encoder_new, wire_string, wire_bytes.
  assert (forall n v, len (to_le n v) = N.of_nat n) as Hle
    by (intros; unfold len; by rewrite length_to_le).
  destruct Hw as [_ Hw]. destruct m; cbn [host_request_id host_kind];
    rewrite ?len_app, ?len_string_bytes, ?Hle, ?len_cons, ?len_nil;
    change (len MAGIC) with 4%N; unfold MAX_BROKER_PACKET_BYTES; try lia.
  destruct Hw as ((_ & Hc & _) & (_ & Ho & _) & (Hp & _) & Ha).
  unfold MAX_CAPABILITY_ID_BYTES, MAX_OPERATION_ID_BYTES, MAX_INLINE_PAYLOAD_BYTES in *.
  assert (len (wire_activation activation) <= 300)%N; [|lia].
  destruct activation as [a|]; [|done]. destruct Ha as (_ & (_ & Hi & _) & _).
  unfold wire_activation, wire_string.
  rewrite ?len_app, ?len_string_bytes, ?Hle, ?len_cons, ?len_nil. lia.
Qed.

(** The converse limit: every host message within the name and payload limits
    encodes, and no encoded packet exceeds what the receiver accepts. *)
Theorem encode_host_total (m : HostMessage) (Htyped : typed_host m) :
  (wf_host m -> exists packet, encode_host m = Ok packet) /\
  (forall packet, encode_host m = Ok packet ->
    (len packet <= MAX_BROKER_PACKET_BYTES)%N /\ wf_host m).
Proof.
  split; [by apply host_request_fits|].
  intros packet He. by apply encode_host_Ok in He as (? & _ & ?).
Qed.

Lemma encode_host_total_witness :
  exists packet, encode_host (Close 1 2) = Ok packet.
Proof.
  apply (encode_host_total (Close 1 2)); split; vm_compute; discriminate.
Defined.
