(* ===== verification/Lifecycle.v ===== *)
(** * Lifecycle: activations, pending operations and broker resources

    Models [crates/touchbar-plugin-supervisor/src/activation.rs] (Module
    [Activation]: the ledger that makes a physical activation usable once) and
    [crates/touchbar-plugin-supervisor/src/lifecycle.rs] (Module [Lifecycle]:
    the bookkeeping of pending operations and open resources with its quotas
    and its revocation). *)

From S2P Require Import Prelude BTree Text Capability Wire Protocol.

Module Activation.

Record ActivationExpectation := {
  ae_surface_instance : N;
  ae_item_id : string;
  ae_widget_id : N;
  ae_now_monotonic_micros : N;
}.

Record ActivationLedger := {
  consumed_sequences : list N;
  maximum_consumed_sequences : N;
}.

Definition new (maximum : N) : ActivationLedger :=
  {| consumed_sequences := []; maximum_consumed_sequences := maximum |}.

(** The guard of [consume]: the activation is not usable here and now. *)
Definition unusable (ledger : ActivationLedger) (a : ActivationContext)
  (expected : ActivationExpectation) : bool :=
  bool_decide (ac_origin a = SyntheticOrigin)
  || negb (ac_surface_instance a =? ae_surface_instance expected)%N
  || negb (String.eqb (ac_item_id a) (ae_item_id expected))
  || negb (ac_widget_id a =? ae_widget_id expected)%N
  || (ac_deadline_monotonic_micros a <? ae_now_monotonic_micros expected)%N
  || (ac_input_sequence a =? 0)%N
  || set_contains (ac_input_sequence a) (consumed_sequences ledger).

Definition consume (ledger : ActivationLedger) (activation : option ActivationContext)
  (expected : ActivationExpectation) : ActivationLedger * result BrokerErrorCode ActivationOrigin :=
  match activation with
  | None => (ledger, Err EActivationRequired)
  | Some a =>
      if unusable ledger a expected then (ledger, Err EActivationRequired)
      else if (maximum_consumed_sequences ledger <=? len (consumed_sequences ledger))%N
      then (ledger, Err EQuotaExceeded)
      else ({| consumed_sequences := set_add (ac_input_sequence a) (consumed_sequences ledger);
               maximum_consumed_sequences := maximum_consumed_sequences ledger |},
            Ok (ac_origin a))
  end.

Definition clear (ledger : ActivationLedger) : ActivationLedger :=
  {| consumed_sequences := []; maximum_consumed_sequences := maximum_consumed_sequences ledger |}.

(** A session's attempts between two clears; the sequences that were accepted. *)
Fixpoint run (ledger : ActivationLedger)
  (attempts : list (option ActivationContext * ActivationExpectation)) : ActivationLedger * list N :=
  match attempts with
  | [] => (ledger, [])
  | (activation, expected) :: rest =>
      let '(ledger', outcome) := consume ledger activation expected in
      let '(final, accepted) := run ledger' rest in
      (final, match outcome, activation with
              | Ok _, Some a => ac_input_sequence a :: accepted
              | _, _ => accepted
              end)
  end.

Lemma length_set_add x (s : list N) : set_contains x s = false -> len (set_add x s) = (len s + 1)%N.
Proof.
  unfold len. induction s as [|y s IH]; simpl; [done|].
  destruct (cmp x y) eqn:E; simpl; [done|lia|]. intros Hc. specialize (IH Hc). lia.
Qed.

(** What a successful consumption checked, and its effect. *)
Lemma consume_Ok ledger activation expected ledger' origin :
  consume ledger activation expected = (ledger', Ok origin) <->
  exists a, activation = Some a /\ ac_origin a = origin /\ origin <> SyntheticOrigin /\
    ac_surface_instance a = ae_surface_instance expected /\
    ac_item_id a = ae_item_id expected /\ ac_widget_id a = ae_widget_id expected /\
    (ae_now_monotonic_micros expected <= ac_deadline_monotonic_micros a)%N /\
    ac_input_sequence a <> 0%N /\ (ac_input_sequence a ∉ consumed_sequences ledger) /\
    (len (consumed_sequences ledger) < maximum_consumed_sequences ledger)%N /\
    ledger' = {| consumed_sequences := set_add (ac_input_sequence a) (consumed_sequences ledger);
                 maximum_consumed_sequences := maximum_consumed_sequences ledger |}.
Proof.
  unfold consume. destruct activation as [a|]; [|split; [done|by intros (? & ? & _)]].
  destruct (unusable ledger a expected) eqn:Hu.
  - split; [done|]. intros (a' & [= <-] & <- & Ho & Hs & Hi & Hw & Hd & Hz & Hc & _).
    exfalso. unfold unusable in Hu. rewrite Hs, Hi, Hw, !N.eqb_refl, String.eqb_refl in Hu.
    rewrite bool_decide_false in Hu by done. apply set_contains_false in Hc. rewrite Hc in Hu.
    apply N.eqb_neq in Hz. rewrite Hz in Hu. simpl in Hu. rewrite !orb_false_r in Hu.
    apply N.ltb_lt in Hu. lia.
  - unfold unusable in Hu. b2p. rewrite !N.eqb_eq, String.eqb_eq, N.eqb_neq, N.ltb_ge in Hu.
    destruct Hu as ((((((Ho & Hs) & Hi) & Hw) & Hd) & Hz) & Hc). apply set_contains_false in Hc.
    destruct (N.leb_spec (maximum_consumed_sequences ledger) (len (consumed_sequences ledger))).
    + split; [done|]. intros (a' & [= <-] & _ & _ & _ & _ & _ & _ & _ & _ & Hl & _). lia.
    + split.
      * intros [= <- <-]. exists a. repeat split; done.
      * intros (a' & [= <-] & <- & _ & _ & _ & _ & _ & _ & _ & _ & ->). done.
Qed.

Lemma run_spec attempts ledger final accepted :
  run ledger attempts = (final, accepted) ->
  NoDup accepted /\ (forall s, s ∈ accepted -> s <> 0%N /\ s ∉ consumed_sequences ledger) /\
  ((len (consumed_sequences ledger) <= maximum_consumed_sequences ledger)%N ->
   (len (consumed_sequences ledger) + len accepted <= maximum_consumed_sequences ledger)%N).
Proof.
  revert ledger final accepted; induction attempts as [|[activation expected] rest IH];
    intros ledger final accepted; simpl.
  - intros [= <- <-]. split; [constructor|]. split; [by intros s ?%elem_of_nil|].
    rewrite len_nil. lia.
  - destruct (consume ledger activation expected) as [ledger' outcome] eqn:Hc.
    destruct (run ledger' rest) as [final' accepted'] eqn:Hr. intros [= <- <-].
    apply IH in Hr as (Hnd & Hs & Hl).
    destruct outcome as [origin|e].
    + apply consume_Ok in Hc as (a & -> & _ & _ & _ & _ & _ & _ & Hz & Hn & Hq & ->).
      simpl in *. apply set_contains_false in Hn as Hn'. rewrite length_set_add in Hl by done.
      split; [|split].
      * constructor; [|done]. intros Hin. apply Hs in Hin as [_ Hin]. apply Hin.
        apply elem_of_set_add. by left.
      * intros s [->|Hin]%elem_of_cons; [done|]. apply Hs in Hin as [? Hin].
        rewrite elem_of_set_add in Hin. tauto.
      * rewrite len_cons. lia.
    + assert (ledger' = ledger) as ->.
      { unfold consume in Hc. destruct activation; [|congruence].
        destruct (unusable _ _ _); [congruence|]. destruct (_ <=? _)%N; congruence. }
      by destruct activation.
Qed.

(** C11: A physical activation authorizes at most one operation: over any sequence
    of attempts since the ledger was cleared, the accepted input sequences are
    pairwise distinct, never zero, and no more than the ledger's capacity; and
    an accepted activation is not synthetic, matches the expected surface, item
    and widget, and is used before its deadline. *)
Theorem activation_single_use (maximum : N)
  (attempts : list (option ActivationContext * ActivationExpectation)) :
  let '(final, accepted) := run (new maximum) attempts in
  NoDup accepted /\ (forall s, s ∈ accepted -> s <> 0%N) /\ (len accepted <= maximum)%N /\
  forall activation expected ledger' origin,
    consume final activation expected = (ledger', Ok origin) ->
    exists a, activation = Some a /\ ac_origin a = origin /\ origin <> SyntheticOrigin /\
      ac_surface_instance a = ae_surface_instance expected /\
      ac_item_id a = ae_item_id expected /\ ac_widget_id a = ae_widget_id expected /\
      (ae_now_monotonic_micros expected <= ac_deadline_monotonic_micros a)%N /\
      (ac_input_sequence a ∉ consumed_sequences final) /\
      ac_input_sequence a ∈ consumed_sequences ledger'.
Proof.
  destruct (run (new maximum) attempts) as [final accepted] eqn:Hr.
  apply run_spec in Hr as (Hnd & Hs & Hl). simpl in *. rewrite len_nil in Hl.
  split; [done|]. split; [intros s Hin; by apply Hs|]. split; [lia|].
  intros activation expected ledger' origin
    (a & -> & Ho & Hsyn & Hsu & Hi & Hw & Hd & _ & Hc & _ & ->)%consume_Ok.
  exists a. repeat split; try done. apply elem_of_set_add. by left.
Qed.

End Activation.

Module Lifecycle.

Record LifecycleLimits := {
  maximum_pending_operations : N;
  maximum_resources : N;
  maximum_buffered_bytes : N;
}.

Definition default_limits : LifecycleLimits :=
  {| maximum_pending_operations := 32; maximum_resources := 16;
     maximum_buffered_bytes := 4 * 1024 * 1024 |}.

Record PendingOperation := {
  po_request_id : N;
  po_capability : CapabilityId;
  po_deadline_monotonic_micros : N;
}.

Record BrokerResource := {
  br_resource_id : N;
  br_capability : CapabilityId;
  br_buffered_bytes : N;
}.

Record RevocationEffect := {
  cancelled_requests : list N;
  closed_resources : list N;
  released_buffered_bytes : N;
}.

Record LifecycleState := {
  limits : LifecycleLimits;
  pending : list (N * PendingOperation);
  resources : list (N * BrokerResource);
  buffered_bytes : N;
  next_resource_id : N;
}.

Definition new (l : LifecycleLimits) : LifecycleState :=
  {| limits := l; pending := []; resources := []; buffered_bytes := 0; next_resource_id := 1 |}.

Definition with_pending (s : LifecycleState) (p : list (N * PendingOperation)) : LifecycleState :=
  {| limits := limits s; pending := p; resources := resources s;
     buffered_bytes := buffered_bytes s; next_resource_id := next_resource_id s |}.

Definition begin (s : LifecycleState) (request_id : N) (capability : CapabilityId) (deadline : N)
  : LifecycleState * result BrokerErrorCode () :=
  if (request_id =? 0)%N || bt_contains request_id (pending s)
  then (s, Err EInvalidRequest)
  else if (maximum_pending_operations (limits s) <=? len (pending s))%N
  then (s, Err EQuotaExceeded)
  else (with_pending s (bt_insert request_id
          {| po_request_id := request_id; po_capability := capability;
             po_deadline_monotonic_micros := deadline |} (pending s)), Ok ()).

Definition finish (s : LifecycleState) (request_id : N)
  : LifecycleState * option PendingOperation :=
  (with_pending s (bt_remove request_id (pending s)), bt_get request_id (pending s)).

Definition cancel (s : LifecycleState) (request_id : N) : LifecycleState * bool :=
  (with_pending s (bt_remove request_id (pending s)), bt_contains request_id (pending s)).

(** Remove the listed keys, one after another. *)
Definition remove_all {V} (ids : list N) (m : list (N * V)) : list (N * V) :=
  fold_left (fun m id => bt_remove id m) ids m.

Definition expire (s : LifecycleState) (now : N) : LifecycleState * list N :=
  let expired := po_request_id <$>
    List.filter (fun o => po_deadline_monotonic_micros o <=? now)%N (bt_values (pending s)) in
  (with_pending s (remove_all expired (pending s)), expired).

Definition allocate_resource (s : LifecycleState) (capability : CapabilityId) (bytes : N)
  : LifecycleState * result BrokerErrorCode N :=
  if (maximum_resources (limits s) <=? len (resources s))%N
     || match checked_add64 (buffered_bytes s) bytes with
        | None => true
        | Some total => (maximum_buffered_bytes (limits s) <? total)%N
        end
  then (s, Err EQuotaExceeded)
  else
    let resource_id := next_resource_id s in
    match checked_add64 (next_resource_id s) 1 with
    | None => (s, Err EQuotaExceeded)
    | Some next =>
        ({| limits := limits s; pending := pending s;
            resources := bt_insert resource_id
              {| br_resource_id := resource_id; br_capability := capability;
                 br_buffered_bytes := bytes |} (resources s);
            buffered_bytes := buffered_bytes s + bytes; next_resource_id := next |},
         Ok resource_id)
    end.

Definition close_resource (s : LifecycleState) (resource_id : N) : LifecycleState * bool :=
  match bt_get resource_id (resources s) with
  | None => (s, false)
  | Some r =>
      ({| limits := limits s; pending := pending s;
          resources := bt_remove resource_id (resources s);
          buffered_bytes := sat_sub (buffered_bytes s) (br_buffered_bytes r);
          next_resource_id := next_resource_id s |}, true)
  end.

(** The loop that closes resources and adds up what they held. *)
Definition release (acc : list (N * BrokerResource) * N) (resource_id : N)
  : list (N * BrokerResource) * N :=
  match bt_get resource_id acc.1 with
  | Some r => (bt_remove resource_id acc.1, acc.2 + br_buffered_bytes r)%N
  | None => acc
  end.

Definition revoke (s : LifecycleState) (capability : CapabilityId)
  : LifecycleState * RevocationEffect :=
  let cancelled := po_request_id <$>
    List.filter (fun o => bool_decide (po_capability o = capability)) (bt_values (pending s)) in
  let closed := br_resource_id <$>
    List.filter (fun r => bool_decide (br_capability r = capability)) (bt_values (resources s)) in
  let '(resources', released) := fold_left release closed (resources s, 0%N) in
  ({| limits := limits s; pending := remove_all cancelled (pending s); resources := resources';
      buffered_bytes := sat_sub (buffered_bytes s) released;
      next_resource_id := next_resource_id s |},
   {| cancelled_requests := cancelled; closed_resources := closed;
      released_buffered_bytes := released |}).

Definition revoke_all (s : LifecycleState) : LifecycleState * RevocationEffect :=
  ({| limits := limits s; pending := []; resources := []; buffered_bytes := 0;
      next_resource_id := next_resource_id s |},
   {| cancelled_requests := bt_keys (pending s); closed_resources := bt_keys (resources s);
      released_buffered_bytes := buffered_bytes s |}).

(** ** The state machine *)

Inductive step : LifecycleState -> LifecycleState -> Prop :=
| step_begin s id c d : step s (begin s id c d).1
| step_finish s id : step s (finish s id).1
| step_cancel s id : step s (cancel s id).1
| step_expire s now : step s (expire s now).1
| step_allocate s c b : step s (allocate_resource s c b).1
| step_close s id : step s (close_resource s id).1
| step_revoke s c : step s (revoke s c).1
| step_revoke_all s : step s (revoke_all s).1.

Definition total_bytes (m : list (N * BrokerResource)) : N := sumN (br_buffered_bytes <$> bt_values m).

(** The bookkeeping is exact and within its quotas. *)
Record inv (s : LifecycleState) : Prop := {
  inv_pending_sorted : bt_sorted (pending s);
  inv_pending_key : forall id o, (id, o) ∈ pending s -> po_request_id o = id /\ id <> 0%N;
  inv_pending_bound : (len (pending s) <= maximum_pending_operations (limits s))%N;
  inv_resources_sorted : bt_sorted (resources s);
  inv_resources_key : forall id r, (id, r) ∈ resources s ->
    br_resource_id r = id /\ (0 < id < next_resource_id s)%N;
  inv_resources_bound : (len (resources s) <= maximum_resources (limits s))%N;
  inv_bytes : buffered_bytes s = total_bytes (resources s);
  inv_bytes_bound : (buffered_bytes s <= maximum_buffered_bytes (limits s))%N;
  inv_next : (0 < next_resource_id s <= u64_max)%N;
}.

(** *** Lemmas on the maps *)

Lemma total_bytes_insert id r m :
  bt_contains id m = false ->
  total_bytes (bt_insert id r m) = (br_buffered_bytes r + total_bytes m)%N.
Proof.
  unfold total_bytes, bt_values. induction m as [|[k v] m IH]; simpl; [done|].
  unfold bt_contains in *. simpl.
  destruct (cmp id k) eqn:E; [done| |]; csimpl; intros Hm; [lia|].
  specialize (IH Hm). lia.
Qed.

Lemma total_bytes_remove id m r :
  bt_sorted m -> bt_get id m = Some r ->
  (total_bytes (bt_remove id m) + br_buffered_bytes r = total_bytes m)%N.
Proof.
  unfold total_bytes, bt_sorted, bt_remove, bt_values, bt_keys. induction m as [|[k v] m IH]; csimpl; [done|].
  intros [Hk Hs]. destruct (cmp id k) eqn:E; csimpl.
  - apply cmp_eq in E as <-. intros [= ->].
    assert (List.filter (fun e => match cmp id e.1 with Eq => false | _ => true end) m = m) as ->;
      [|lia].
    clear IH. induction m as [|[k' v'] m IHm]; simpl in *; [done|].
    inversion Hk; subst. destruct Hs as [_ Hs]. rewrite H1. by rewrite IHm.
  - intros Hg. specialize (IH Hs Hg). lia.
  - intros Hg. specialize (IH Hs Hg). lia.
Qed.

Lemma len_bt_insert_fresh {V} (id : N) (v : V) m :
  bt_contains id m = false -> len (bt_insert id v m) = (len m + 1)%N.
Proof.
  unfold len. induction m as [|[k w] m IH]; unfold bt_contains; simpl; [done|].
  destruct (cmp id k); simpl; [done|lia|]. intros Hm. specialize (IH Hm). lia.
Qed.

Lemma len_bt_remove {V} (id : N) (m : list (N * V)) : (len (bt_remove id m) <= len m)%N.
Proof. unfold len. pose proof (length_bt_remove id m). lia. Qed.

Lemma remove_all_elem {V} ids (m : list (N * V)) e :
  e ∈ remove_all ids m <-> e ∈ m /\ e.1 ∉ ids.
Proof.
  unfold remove_all. revert m; induction ids as [|i ids IH]; intros m; simpl.
  - split; [|by intros [? _]]. intros He. split; [done|]. by intros ?%elem_of_nil.
  - rewrite IH, elem_of_bt_remove, not_elem_of_cons. tauto.
Qed.

Lemma remove_all_sorted {V} ids (m : list (N * V)) : bt_sorted m -> bt_sorted (remove_all ids m).
Proof.
  unfold remove_all. revert m; induction ids as [|i ids IH]; intros m Hm; simpl; [done|].
  by apply IH, bt_sorted_remove.
Qed.

Lemma len_remove_all {V} ids (m : list (N * V)) : (len (remove_all ids m) <= len m)%N.
Proof.
  unfold remove_all. revert m; induction ids as [|i ids IH]; intros m; simpl; [done|].
  etrans; [apply IH|]. apply len_bt_remove.
Qed.

(** Releasing resources keeps the sum of what is held and what was released. *)
Lemma release_fold ids m released m' released' :
  bt_sorted m -> fold_left release ids (m, released) = (m', released') ->
  bt_sorted m' /\ (total_bytes m' + released' = total_bytes m + released)%N /\
  (len m' <= len m)%N /\ (forall e, e ∈ m' <-> e ∈ m /\ e.1 ∉ ids).
Proof.
  revert m released; induction ids as [|i ids IH]; intros m released Hs; simpl.
  - intros [= <- <-]. split; [done|]. split; [done|]. split; [done|]. intros e.
    split; [|by intros [? _]]. intros He. split; [done|]. by intros ?%elem_of_nil.
  - unfold release at 2. simpl. destruct (bt_get i m) as [r|] eqn:Hg.
    + intros Hf. apply IH in Hf as (Hs' & Ht & Hl & He); [|by apply bt_sorted_remove].
      pose proof (total_bytes_remove i m r Hs Hg). pose proof (len_bt_remove i m).
      split; [done|]. split; [lia|]. split; [lia|]. intros e.
      rewrite He, elem_of_bt_remove, not_elem_of_cons. tauto.
    + intros Hf. apply IH in Hf as (Hs' & Ht & Hl & He); [|done].
      split; [done|]. split; [lia|]. split; [lia|]. intros e. rewrite He, not_elem_of_cons.
      split; [|tauto]. intros [Hin Hni]. split; [done|]. split; [|done].
      intros <-. destruct e as [k v]. apply (elem_bt_get _ _ _ Hs) in Hin. simpl in Hg. congruence.
Qed.

(** Removing pending entries keeps the invariant. *)
Lemma inv_with_pending s p :
  inv s -> bt_sorted p -> (forall e, e ∈ p -> e ∈ pending s) -> (len p <= len (pending s))%N ->
  inv (with_pending s p).
Proof.
  intros [] Hs Hin Hl. constructor; simpl; try done.
  - intros id o Ho. by apply inv_pending_key0, Hin.
  - lia.
Qed.

Lemma inv_remove_pending s id : inv s -> inv (with_pending s (bt_remove id (pending s))).
Proof.
  intros Hi. apply inv_with_pending; [done|by apply bt_sorted_remove, Hi| |apply len_bt_remove].
  intros e He. by apply elem_of_bt_remove in He as [_ ?].
Qed.

Lemma inv_new l : inv (new l).
Proof.
  constructor; simpl; try done; try lia.
  - by intros ? ? ?%elem_of_nil.
  - rewrite len_nil. lia.
  - by intros ? ? ?%elem_of_nil.
  - rewrite len_nil. lia.
Qed.

Lemma inv_allocate s c b : inv s -> inv (allocate_resource s c b).1.
Proof.
  intros Hi. unfold allocate_resource.
  destruct (N.leb_spec (maximum_resources (limits s)) (len (resources s))); [done|]. simpl.
  destruct (checked_add64 (buffered_bytes s) b) as [total|] eqn:Hb; [|done].
  destruct (N.ltb_spec (maximum_buffered_bytes (limits s)) total); [done|]. simpl.
  destruct (checked_add64 (next_resource_id s) 1) as [next|] eqn:Hn; [|done].
  apply checked_add64_Some in Hb as [_ ->], Hn as [Hn ->]. destruct Hi.
  assert (bt_contains (next_resource_id s) (resources s) = false) as Hfresh.
  { apply not_true_iff_false. rewrite bt_contains_spec. intros Hin.
    apply list_elem_of_fmap in Hin as ([id r] & Heq & Hin). simpl in Heq. subst.
    apply inv_resources_key0 in Hin. lia. }
  constructor; simpl; try done.
  - by apply bt_sorted_insert.
  - intros id r [[= -> ->]|Hin]%elem_of_bt_insert; simpl; [split; [done|lia]|].
    apply inv_resources_key0 in Hin as [? ?]. split; [done|lia].
  - rewrite len_bt_insert_fresh by done. lia.
  - rewrite total_bytes_insert by done. simpl. lia.
  - lia.
Qed.

Lemma inv_close s id : inv s -> inv (close_resource s id).1.
Proof.
  intros Hi. unfold close_resource. destruct (bt_get id (resources s)) as [r|] eqn:Hg; [|done].
  destruct Hi. pose proof (total_bytes_remove id _ r inv_resources_sorted0 Hg) as Ht.
  pose proof (len_bt_remove id (resources s)). unfold sat_sub.
  constructor; simpl; try done.
  - by apply bt_sorted_remove.
  - intros id' r' Hin. apply elem_of_bt_remove in Hin as [_ Hin]. by apply inv_resources_key0.
  - lia.
  - lia.
  - lia.
Qed.

Lemma inv_revoke s c : inv s -> inv (revoke s c).1.
Proof.
  intros Hi. unfold revoke. destruct (fold_left release _ _) as [m released] eqn:Hf.
  destruct Hi. apply release_fold in Hf as (Hs & Ht & Hl & He); [|done].
  match goal with |- context [remove_all ?ids (pending s)] =>
    pose proof (len_remove_all ids (pending s)) end.
  unfold sat_sub. constructor; simpl; try done.
  - by apply remove_all_sorted.
  - intros id o Ho. apply remove_all_elem in Ho as [Ho _]. by apply inv_pending_key0.
  - lia.
  - intros id r Hr. apply He in Hr as [Hr _]. by apply inv_resources_key0.
  - lia.
  - lia.
  - lia.
Qed.

Lemma inv_begin s id c d : inv s -> inv (begin s id c d).1.
Proof.
  intros Hi. unfold begin. destruct (N.eqb_spec id 0); [done|]. simpl.
  destruct (bt_contains id (pending s)) eqn:Hc; [done|].
  destruct (N.leb_spec (maximum_pending_operations (limits s)) (len (pending s))); [done|].
  destruct Hi. constructor; simpl; try done.
  - by apply bt_sorted_insert.
  - intros id' o [[= -> ->]|Hin]%elem_of_bt_insert; [done|]. by apply inv_pending_key0.
  - rewrite len_bt_insert_fresh by done. lia.
Qed.

Lemma inv_step s s' : inv s -> step s s' -> inv s'.
Proof.
  intros Hi Hs. inversion Hs; subst.
  - by apply inv_begin.
  - by apply inv_remove_pending.
  - by apply inv_remove_pending.
  - unfold expire. simpl. apply inv_with_pending; [done|by apply remove_all_sorted, Hi| |].
    + intros e He. by apply remove_all_elem in He as [? _].
    + apply len_remove_all.
  - by apply inv_allocate.
  - by apply inv_close.
  - by apply inv_revoke.
  - destruct Hi. constructor; simpl; try done; try (by intros ? ? ?%elem_of_nil); try lia;
      rewrite len_nil; lia.
Qed.

Lemma step_next s s' : step s s' ->
  (next_resource_id s <= next_resource_id s')%N /\ limits s' = limits s.
Proof.
  inversion 1; subst; simpl; try (split; [lia|done]).
  - unfold begin. by repeat case_match.
  - unfold allocate_resource. destruct (_ || _); [done|].
    destruct (checked_add64 (next_resource_id s) 1) eqn:Hn; [|done].
    apply checked_add64_Some in Hn as [_ ->]. simpl. split; [lia|done].
  - unfold close_resource. by case_match.
  - unfold revoke. by destruct (fold_left _ _ _).
Qed.

(** In every reachable state the quotas hold and the bookkeeping is exact: at
    most the configured numbers of pending operations and resources, the
    buffered byte count equal to the sum over the open resources and within
    its limit, no request id 0, and every open resource id below the next one;
    the saturating subtractions therefore never saturate. *)
Theorem lifecycle_invariant (l : LifecycleLimits) (s : LifecycleState)
  (Hreach : rtc step (new l) s) : inv s /\ limits s = l.
Proof.
  assert (inv (new l) /\ limits (new l) = l) as H0 by (split; [apply inv_new|done]).
  revert H0. generalize (new l) Hreach. clear Hreach. intros s0 Hr.
  induction Hr as [s|s1 s2 s3 Hstep Hr IH]; [done|]. intros [Hi Hl]. apply IH.
  split; [by eapply inv_step|]. by rewrite (proj2 (step_next _ _ Hstep)).
Qed.

Lemma lifecycle_invariant_witness :
  exists s, rtc step (new default_limits) s /\ len (resources s) = 1%N /\
    inv s /\ limits s = default_limits.
Proof.
  exists (allocate_resource (begin (new default_limits) 7 HttpRequestV1 100).1 HttpRequestV1 512).1.
  assert (rtc step (new default_limits)
    (allocate_resource (begin (new default_limits) 7 HttpRequestV1 100).1 HttpRequestV1 512).1) as Hr.
  { eapply rtc_l; [apply step_begin|]. eapply rtc_l; [apply step_allocate|]. apply rtc_refl. }
  split; [exact Hr|]. split; [reflexivity|]. exact (lifecycle_invariant _ _ Hr).
Defined.

(** Resource identifiers are never reused: an allocation returns an id at or
    above everything handed out before, and afterwards the next id is larger. *)
Theorem resource_ids_fresh (s s1 : LifecycleState) (c c' : CapabilityId) (b b' id id' : N)
  (s' s2 : LifecycleState)
  (Hfirst : allocate_resource s c b = (s1, Ok id)) (Hlater : rtc step s1 s')
  (Hsecond : allocate_resource s' c' b' = (s2, Ok id')) : (id < id')%N.
Proof.
  assert (forall s c b s1 id, allocate_resource s c b = (s1, Ok id) ->
    id = next_resource_id s /\ next_resource_id s1 = (next_resource_id s + 1)%N) as Ha.
  { clear. intros s c b s1 id. unfold allocate_resource. case_match; [done|].
    destruct (checked_add64 (next_resource_id s) 1) eqn:Hn; [|done].
    apply checked_add64_Some in Hn as [_ ->]. by intros [= <- <-]. }
  apply Ha in Hfirst as [-> H1], Hsecond as [-> _].
  enough (next_resource_id s1 <= next_resource_id s')%N by lia.
  clear H1. induction Hlater as [x|x y z Hstep _ IH]; [done|].
  apply step_next in Hstep as [? _]. lia.
Qed.

Lemma resource_ids_fresh_witness : (1 < 2)%N.
Proof.
  refine (resource_ids_fresh (new default_limits)
    (allocate_resource (new default_limits) HttpRequestV1 10).1 HttpRequestV1 HttpRequestV1 10 20 1 2
    (close_resource (allocate_resource (new default_limits) HttpRequestV1 10).1 1).1 _ _ _ _);
    [reflexivity| |reflexivity].
  eapply rtc_l; [apply step_close|]. apply rtc_refl.
Defined.

(** The ids of the entries that belong to a capability. *)
Lemma owned_ids {V} (key : V -> N) (cap : V -> CapabilityId) (m : list (N * V)) c id :
  (forall k v, (k, v) ∈ m -> key v = k) ->
  id ∈ key <$> List.filter (fun v => bool_decide (cap v = c)) (bt_values m) <->
  exists v, (id, v) ∈ m /\ cap v = c.
Proof.
  intros Hkey. rewrite list_elem_of_fmap. split.
  - intros (v & -> & Hv). apply list_elem_of_In, filter_In in Hv as [Hv Hc].
    apply list_elem_of_In, list_elem_of_fmap in Hv as ([k v'] & -> & Hv). simpl in *.
    apply bool_decide_eq_true in Hc. exists v'. by rewrite (Hkey _ _ Hv).
  - intros (v & Hv & Hc). exists v. split; [by rewrite (Hkey _ _ Hv)|].
    apply list_elem_of_In, filter_In. split; [|by apply bool_decide_eq_true].
    apply list_elem_of_In. by apply (list_elem_of_fmap_2 snd) in Hv.
Qed.

(** What remains after removing the listed ids, when they are those of [c]. *)
Lemma not_owned {V} (cap : V -> CapabilityId) (m : list (N * V)) (ids : list N) c id v :
  bt_sorted m -> (forall id, id ∈ ids <-> exists v, (id, v) ∈ m /\ cap v = c) ->
  ((id, v) ∈ m /\ id ∉ ids) <-> (id, v) ∈ m /\ cap v <> c.
Proof.
  intros Hs Hids. apply and_iff_compat_l2. intros Hv. rewrite Hids. split.
  - intros Hn Hc. apply Hn. eauto.
  - intros Hc (v' & Hv' & Hc'). apply (elem_bt_get _ _ _ Hs) in Hv, Hv'. congruence.
Qed.

Lemma revoke_ids s c : inv s ->
  (forall id, id ∈ cancelled_requests (revoke s c).2 <->
    exists o, (id, o) ∈ pending s /\ po_capability o = c) /\
  (forall id, id ∈ closed_resources (revoke s c).2 <->
    exists r, (id, r) ∈ resources s /\ br_capability r = c).
Proof.
  intros []. unfold revoke. destruct (fold_left release _ _) as [m released]. simpl.
  split; intros id; apply owned_ids.
  - intros k o Ho. by apply inv_pending_key0.
  - intros k r Hr. by apply inv_resources_key0.
Qed.

Lemma revoke_maps s c : inv s ->
  (forall id o, (id, o) ∈ pending (revoke s c).1 <-> (id, o) ∈ pending s /\ po_capability o <> c) /\
  (forall id r, (id, r) ∈ resources (revoke s c).1 <-> (id, r) ∈ resources s /\ br_capability r <> c).
Proof.
  intros Hi. destruct (revoke_ids s c Hi) as [Hp Hr]. destruct Hi. revert Hp Hr. unfold revoke.
  destruct (fold_left release _ _) as [m released] eqn:Hf. simpl. intros Hp Hr.
  apply release_fold in Hf as (_ & _ & _ & He); [|done]. split; intros id v.
  - rewrite remove_all_elem. simpl. by apply not_owned.
  - rewrite He. simpl. by apply not_owned.
Qed.

(** Revoking a capability cancels exactly its pending operations and closes
    exactly its resources, leaves every other entry alone, reports what it
    did, and releases exactly the bytes the closed resources held. *)
Theorem revoke_spec (s : LifecycleState) (c : CapabilityId) (Hinv : inv s) :
  let '(s', effect) := revoke s c in
  inv s' /\
  (forall id o, (id, o) ∈ pending s' <-> (id, o) ∈ pending s /\ po_capability o <> c) /\
  (forall id r, (id, r) ∈ resources s' <-> (id, r) ∈ resources s /\ br_capability r <> c) /\
  (forall id, id ∈ cancelled_requests effect <->
    exists o, (id, o) ∈ pending s /\ po_capability o = c) /\
  (forall id, id ∈ closed_resources effect <->
    exists r, (id, r) ∈ resources s /\ br_capability r = c) /\
  (buffered_bytes s' + released_buffered_bytes effect = buffered_bytes s)%N.
Proof.
  pose proof (inv_revoke s c Hinv) as Hinv'. destruct (revoke_ids s c Hinv) as [Hp Hr].
  destruct (revoke_maps s c Hinv) as [Hp' Hr']. revert Hinv' Hp Hr Hp' Hr'. unfold revoke.
  destruct (fold_left release _ _) as [m released] eqn:Hf. simpl. intros.
  do 5 (split; [done|]). destruct Hinv.
  apply release_fold in Hf as (_ & Ht & _ & _); [|done]. unfold sat_sub. lia.
Qed.

Lemma revoke_spec_witness :
  let s := (allocate_resource (new default_limits) HttpRequestV1 10).1 in
  inv s /\ inv (revoke s HttpRequestV1).1.
Proof.
  intros s. assert (inv s) as Hi.
  { apply inv_allocate, inv_new. }
  split; [exact Hi|]. pose proof (revoke_spec s HttpRequestV1 Hi) as H.
  destruct (revoke s HttpRequestV1). exact (proj1 H).
Defined.

End Lifecycle.
