(* ===== verification/Events.v ===== *)
(** * Events: the host event queue and plugin health

    Models [crates/touchbar-plugin-supervisor/src/events.rs] (Module [Queue]:
    coalesced state events, a bounded edge queue and an explicit overflow
    report) and [crates/touchbar-plugin-supervisor/src/health.rs] (Module
    [Health]: failures in a window, restarts with backoff, disabling). *)

From S2P Require Import Prelude BTree Text Wire Protocol.

Module Queue.

Inductive HostEvent :=
| CapabilityChangedEvent (generation : N) (state : CapabilityState)
| Completion (request_id : N) (r : BrokerResult)
| ResourceEdge (resource_id sequence : N) (r : BrokerResult)
| OverflowEvent (generation dropped_events : N).

Definition into_message (e : HostEvent) : SupervisorMessage :=
  match e with
  | CapabilityChangedEvent generation state => CapabilityChanged generation state
  | Completion request_id r => Response request_id r
  | ResourceEdge resource_id sequence r => ResourceEvent resource_id sequence r
  | OverflowEvent generation dropped_events => Overflow generation dropped_events
  end.

Record HostEventQueue := {
  maximum_state_events : N;
  maximum_edge_events : N;
  state_events : list (string * (N * CapabilityState));
  edge_events : list HostEvent;
  dropped_edge_events : N;
  overflow_generation : N;
}.

Definition new (maximum_state maximum_edge : N) : HostEventQueue :=
  {| maximum_state_events := maximum_state; maximum_edge_events := maximum_edge;
     state_events := []; edge_events := []; dropped_edge_events := 0; overflow_generation := 0 |}.

Definition with_states (q : HostEventQueue) (m : list (string * (N * CapabilityState)))
  : HostEventQueue :=
  {| maximum_state_events := maximum_state_events q; maximum_edge_events := maximum_edge_events q;
     state_events := m; edge_events := edge_events q;
     dropped_edge_events := dropped_edge_events q; overflow_generation := overflow_generation q |}.

Definition with_edges (q : HostEventQueue) (l : list HostEvent) (dropped generation : N)
  : HostEventQueue :=
  {| maximum_state_events := maximum_state_events q; maximum_edge_events := maximum_edge_events q;
     state_events := state_events q; edge_events := l;
     dropped_edge_events := dropped; overflow_generation := generation |}.

Definition push_capability (q : HostEventQueue) (generation : N) (state : CapabilityState)
  : HostEventQueue * result BrokerErrorCode () :=
  if negb (bt_contains (cs_capability state) (state_events q))
     && (maximum_state_events q <=? len (state_events q))%N
  then (q, Err EQuotaExceeded)
  else (with_states q (bt_insert (cs_capability state) (generation, state) (state_events q)), Ok ()).

Definition record_dropped (q : HostEventQueue) (dropped generation : N) : HostEventQueue :=
  with_edges q (edge_events q) (sat_add64 (dropped_edge_events q) dropped)
    (N.max (overflow_generation q) generation).

Definition push_edge (q : HostEventQueue) (event : HostEvent) (generation : N) : HostEventQueue :=
  if (len (edge_events q) =? maximum_edge_events q)%N then record_dropped q 1 generation
  else with_edges q (edge_events q ++ [event]) (dropped_edge_events q) (overflow_generation q).

Definition push_completion (q : HostEventQueue) (request_id : N) (r : BrokerResult)
  (generation : N) : HostEventQueue := push_edge q (Completion request_id r) generation.

Definition push_resource (q : HostEventQueue) (resource_id sequence : N) (r : BrokerResult)
  (generation : N) : HostEventQueue := push_edge q (ResourceEdge resource_id sequence r) generation.

(** State events leave first, in capability order; then the edges in arrival
    order; then one overflow report. *)
Definition pop (q : HostEventQueue) : HostEventQueue * option HostEvent :=
  match state_events q with
  | (capability, (generation, state)) :: rest =>
      (with_states q (bt_remove capability (state_events q)),
       Some (CapabilityChangedEvent generation state))
  | [] =>
      match edge_events q with
      | event :: rest =>
          (with_edges q rest (dropped_edge_events q) (overflow_generation q), Some event)
      | [] =>
          if (0 <? dropped_edge_events q)%N
          then (with_edges q [] 0 0,
                Some (OverflowEvent (overflow_generation q) (dropped_edge_events q)))
          else (q, None)
      end
  end.

Definition is_empty (q : HostEventQueue) : bool :=
  (len (state_events q) =? 0)%N && (len (edge_events q) =? 0)%N && (dropped_edge_events q =? 0)%N.

(** ** Runs *)

Inductive op :=
| PushCapability (generation : N) (state : CapabilityState)
| PushEdge (event : HostEvent) (generation : N)
| Pop.

Definition apply_op (q : HostEventQueue) (o : op) : HostEventQueue * list HostEvent :=
  match o with
  | PushCapability generation state => ((push_capability q generation state).1, [])
  | PushEdge event generation => (push_edge q event generation, [])
  | Pop => let '(q', popped) := pop q in (q', option_list popped)
  end.

Fixpoint run (q : HostEventQueue) (ops : list op) : HostEventQueue * list HostEvent :=
  match ops with
  | [] => (q, [])
  | o :: ops' =>
      let '(q1, out1) := apply_op q o in
      let '(q2, out2) := run q1 ops' in
      (q2, out1 ++ out2)
  end.

(** An edge event is one a worker pushes: completions and resource events. *)
Definition is_edge (e : HostEvent) : bool :=
  match e with Completion _ _ | ResourceEdge _ _ _ => true | _ => false end.
Definition edges_pushed (ops : list op) : list HostEvent :=
  flat_map (fun o => match o with PushEdge e _ => [e] | _ => [] end) ops.
Definition edges (l : list HostEvent) : list HostEvent := List.filter is_edge l.
(** The losses the host was told about. *)
Definition reported (l : list HostEvent) : N :=
  sumN (List.map (fun e => match e with OverflowEvent _ d => d | _ => 0%N end) l).

Definition op_ok (o : op) : Prop := match o with PushEdge e _ => is_edge e = true | _ => True end.

Record inv (q : HostEventQueue) : Prop := {
  inv_states_sorted : bt_sorted (state_events q);
  inv_states_bound : (len (state_events q) <= maximum_state_events q)%N;
  inv_states_key : forall k g s, (k, (g, s)) ∈ state_events q -> cs_capability s = k;
  inv_edges : forall e, e ∈ edge_events q -> is_edge e = true;
  inv_edges_bound : (len (edge_events q) <= maximum_edge_events q)%N;
}.

Lemma queue_inv_new ms me : inv (new ms me).
Proof.
  constructor; simpl; try done; try (rewrite len_nil; lia).
  - by intros ? ? ? ?%elem_of_nil.
  - by intros ? ?%elem_of_nil.
Qed.

Lemma len_bt_insert_present {V} (k : string) (v : V) m :
  bt_contains k m = true -> bt_sorted m -> len (bt_insert k v m) = len m.
Proof.
  unfold len, bt_contains, bt_sorted, bt_keys.
  induction m as [|[k' v'] m IH]; csimpl; [done|]. destruct (cmp k k') eqn:E; simpl; [done| |].
  - intros Hm [Hk _]. exfalso. destruct (bt_get k m) eqn:Hg; [|done].
    apply bt_get_elem, (list_elem_of_fmap_2 fst) in Hg. rewrite Forall_forall in Hk.
    apply Hk in Hg. simpl in Hg. apply (cmp_lt_irrefl k). by eapply cmp_lt_trans.
  - intros Hm [_ Hs]. specialize (IH Hm Hs). lia.
Qed.

Lemma len_bt_insert_le {V} (k : string) (v : V) m : (len (bt_insert k v m) <= len m + 1)%N.
Proof. unfold len. pose proof (length_bt_insert k v m). lia. Qed.

Lemma inv_push_capability q g s : inv q -> inv (push_capability q g s).1.
Proof.
  intros Hi. unfold push_capability.
  destruct (bt_contains (cs_capability s) (state_events q)) eqn:Hc; simpl.
  - destruct Hi. constructor; simpl; try done; [by apply bt_sorted_insert| |].
    + by rewrite len_bt_insert_present.
    + intros k g' s' [[= -> -> ->]|Hin]%elem_of_bt_insert; eauto.
  - destruct (N.leb_spec (maximum_state_events q) (len (state_events q))); [done|].
    destruct Hi. constructor; simpl; try done; [by apply bt_sorted_insert| |].
    + etrans; [apply len_bt_insert_le|lia].
    + intros k g' s' [[= -> -> ->]|Hin]%elem_of_bt_insert; eauto.
Qed.

Lemma inv_push_edge q e g : is_edge e = true -> inv q -> inv (push_edge q e g).
Proof.
  intros He Hi. unfold push_edge.
  destruct (N.eqb_spec (len (edge_events q)) (maximum_edge_events q)).
  - destruct Hi. by constructor.
  - destruct Hi. constructor; simpl; try done.
    + intros e' [?| ->%list_elem_of_singleton]%elem_of_app; auto.
    + rewrite len_app, len_cons, len_nil. lia.
Qed.

Lemma inv_pop q : inv q -> inv (pop q).1.
Proof.
  intros Hi. unfold pop. destruct (state_events q) as [|[k [g s]] rest] eqn:Hs.
  - destruct (edge_events q) as [|e l] eqn:He.
    + destruct (0 <? dropped_edge_events q)%N; [|done]. destruct Hi. constructor; simpl; try done;
        rewrite ?Hs, ?len_nil; try done; try lia.
      by intros ? ?%elem_of_nil.
    + destruct Hi. rewrite He in *. constructor; simpl; try done.
      * intros e' ?. apply inv_edges0. by right.
      * rewrite len_cons in inv_edges_bound0. lia.
  - rewrite <- Hs. destruct Hi. constructor; simpl; try done.
    + by apply bt_sorted_remove.
    + unfold len in *. pose proof (length_bt_remove k (state_events q)). lia.
    + intros k' g' s' Hin. apply elem_of_bt_remove in Hin as [_ Hin]. eauto.
Qed.

Lemma inv_apply q o : op_ok o -> inv q -> inv (apply_op q o).1.
Proof.
  destruct o; simpl; intros Ho Hi; [by apply inv_push_capability|by apply inv_push_edge|].
  pose proof (inv_pop q Hi). by destruct (pop q).
Qed.

(** One operation: what leaves the queue, what is in it and what was counted as
    lost account for what went in. *)
Lemma apply_account q o :
  op_ok o -> inv q ->
  (dropped_edge_events q + len (edges_pushed [o]) <= u64_max)%N ->
  let '(q', out) := apply_op q o in
  exists kept, sublist kept (edges_pushed [o]) /\
    edges out ++ edge_events q' = edge_events q ++ kept /\
    (len (edges_pushed [o]) + dropped_edge_events q =
     len kept + reported out + dropped_edge_events q')%N.
Proof.
  intros Ho Hi Hu. destruct o as [g s|e g|]; simpl in *.
  - exists []. split; [constructor|]. unfold push_capability.
    destruct (_ && _); simpl; rewrite app_nil_r; done.
  - unfold push_edge, record_dropped.
    destruct (N.eqb_spec (len (edge_events q)) (maximum_edge_events q)); simpl.
    + exists []. split; [apply sublist_nil_l|]. rewrite app_nil_r. split; [done|].
      unfold sat_add64, reported in *. autorewrite with len in *. simpl. lia.
    + exists [e]. split; [done|]. split; [done|]. unfold reported.
      autorewrite with len. simpl. lia.
  - destruct (pop q) as [q' popped] eqn:Hp. exists []. split; [constructor|]. rewrite app_nil_r.
    unfold pop in Hp. destruct (state_events q) as [|[k [g s]] rest] eqn:Hs.
    + destruct (edge_events q) as [|e l] eqn:He.
      * destruct (N.ltb_spec 0 (dropped_edge_events q)); injection Hp as <- <-; simpl.
        -- split; [done|]. unfold reported. simpl. lia.
        -- rewrite He. done.
      * injection Hp as <- <-. assert (is_edge e = true) as Hedge by (apply Hi; rewrite He; by left).
        simpl. unfold edges, reported. simpl. rewrite Hedge. split; [done|].
        by destruct e.
    + injection Hp as <- <-. done.
Qed.

Lemma sublist_app_mono {A} (k1 k2 l1 l2 : list A) :
  sublist k1 l1 -> sublist k2 l2 -> sublist (k1 ++ k2) (l1 ++ l2).
Proof. intros. by apply sublist_app. Qed.

Lemma edges_app l k : edges (l ++ k) = edges l ++ edges k.
Proof. unfold edges. induction l as [|e l IH]; simpl; [done|]. by destruct (is_edge e); simpl; rewrite IH. Qed.

Lemma reported_app l k : reported (l ++ k) = (reported l + reported k)%N.
Proof. unfold reported. by rewrite map_app, sumN_app. Qed.

Lemma apply_limits q o :
  maximum_state_events (apply_op q o).1 = maximum_state_events q /\
  maximum_edge_events (apply_op q o).1 = maximum_edge_events q.
Proof.
  destruct o; simpl.
  - unfold push_capability. by destruct (_ && _).
  - unfold push_edge. by destruct (_ =? _)%N.
  - unfold pop. destruct (state_events q) as [|[? [? ?]] ?]; [|done].
    destruct (edge_events q); [|done]. by destruct (_ <? _)%N.
Qed.

Lemma run_account ops q q' out :
  Forall op_ok ops -> inv q ->
  (dropped_edge_events q + len (edges_pushed ops) <= u64_max)%N ->
  run q ops = (q', out) ->
  inv q' /\ maximum_state_events q' = maximum_state_events q /\
  maximum_edge_events q' = maximum_edge_events q /\
  exists kept, sublist kept (edges_pushed ops) /\
    edges out ++ edge_events q' = edge_events q ++ kept /\
    (len (edges_pushed ops) + dropped_edge_events q =
     len kept + reported out + dropped_edge_events q')%N.
Proof.
  revert q q' out; induction ops as [|o ops IH]; intros q q' out Hok Hi Hu.
  - intros [= <- <-]. split; [done|]. split; [done|]. split; [done|]. exists [].
    rewrite app_nil_r. done.
  - inversion Hok as [|? ? Ho Hops]; subst. cbn [run].
    assert (edges_pushed (o :: ops) = edges_pushed [o] ++ edges_pushed ops) as Hp.
    { unfold edges_pushed. simpl. by rewrite app_nil_r. }
    rewrite Hp, len_app in Hu.
    pose proof (apply_account q o Ho Hi ltac:(lia)) as Ha.
    pose proof (inv_apply q o Ho Hi) as Hi1. pose proof (apply_limits q o) as [Hm1 Hm2].
    destruct (apply_op q o) as [q1 out1]. destruct Ha as (kept1 & Hsub1 & Hfifo1 & Hcount1).
    simpl in Hi1, Hm1, Hm2. destruct (run q1 ops) as [q2 out2] eqn:Hr. intros [= <- <-].
    destruct (IH q1 q2 out2 Hops Hi1) as (Hi2 & Hl1 & Hl2 & kept2 & Hsub2 & Hfifo2 & Hcount2);
      [|done|].
    { assert (len (edges_pushed [o]) + dropped_edge_events q >= dropped_edge_events q1)%N by lia. lia. }
    split; [done|]. split; [congruence|]. split; [congruence|]. exists (kept1 ++ kept2).
    rewrite Hp. split; [by apply sublist_app_mono|]. split.
    + rewrite edges_app, <- app_assoc, Hfifo2, app_assoc, Hfifo1. by rewrite <- app_assoc.
    + rewrite reported_app, !len_app. lia.
Qed.

(** The queue is bounded, delivers in order and never loses silently: over any
    run of pushes and pops the two queues stay within their limits, the edge
    events delivered so far followed by those still queued are a subsequence
    of the ones pushed, in push order, and every pushed event that is in
    neither was counted in an overflow report or is in the pending count. *)
Theorem event_queue_no_silent_loss (ms me : N) (ops : list op) (q : HostEventQueue)
  (out : list HostEvent)
  (Hok : Forall op_ok ops) (Hcount : (len (edges_pushed ops) <= u64_max)%N)
  (Hrun : run (new ms me) ops = (q, out)) :
  (len (state_events q) <= ms)%N /\ (len (edge_events q) <= me)%N /\
  sublist (edges out ++ edge_events q) (edges_pushed ops) /\
  (len (edges_pushed ops) =
   len (edges out ++ edge_events q) + reported out + dropped_edge_events q)%N /\
  (is_empty q = true -> (len (edges_pushed ops) = len (edges out) + reported out)%N).
Proof.
  apply run_account in Hrun as (Hi & Hm1 & Hm2 & kept & Hsub & Hfifo & Hc);
    [|done|apply queue_inv_new|done].
  simpl in Hm1, Hm2, Hfifo, Hc. destruct Hi. rewrite Hm1, Hm2 in *. split; [done|]. split; [done|].
  rewrite Hfifo. split; [done|]. split; [lia|]. unfold is_empty. rewrite !andb_true_iff, !N.eqb_eq.
  intros [[_ He] Hd]. assert (edge_events q = []) as Hnil.
  { destruct (edge_events q); [done|]. rewrite len_cons in He. lia. }
  rewrite Hnil, app_nil_r in Hfifo. rewrite Hfifo. lia.
Qed.

Lemma event_queue_no_silent_loss_witness :
  let c n := PushEdge (Completion n (Success [])) 1 in
  let '(q, out) := run (new 1 1) [c 1%N; c 2%N; c 3%N; Pop; Pop] in
  out = [Completion 1 (Success []); OverflowEvent 1 2] /\
  sublist (edges out ++ edge_events q) (edges_pushed [c 1%N; c 2%N; c 3%N; Pop; Pop]).
Proof.
  intros c. destruct (run (new 1 1) _) as [q out] eqn:Hr.
  split; [vm_compute in Hr; injection Hr as _ <-; reflexivity|].
  refine (proj1 (proj2 (proj2 (event_queue_no_silent_loss 1 1 [c 1%N; c 2%N; c 3%N; Pop; Pop] q out _ _ Hr)))).
  - repeat constructor.
  - vm_compute. discriminate.
Defined.

End Queue.

Module Health.

Inductive HealthEvent := GuestTrap | TimeoutEvent | ProtocolViolation | QuotaViolation | CleanRun.
Inductive HealthState := Healthy | RestartAfter (milliseconds : N) | Disabled.

Record HealthPolicy := {
  window_millis : N;
  failures_before_restart : N;
  restarts_before_disable : N;
  initial_backoff_millis : N;
  maximum_backoff_millis : N;
}.

Definition default_policy : HealthPolicy :=
  {| window_millis := 60000; failures_before_restart := 3; restarts_before_disable := 5;
     initial_backoff_millis := 250; maximum_backoff_millis := 30000 |}.

Record HealthTracker := {
  policy : HealthPolicy;
  failures : list N;
  restart_count : N;
  state : HealthState;
}.

#[export] Instance HealthEvent_eq_dec : EqDecision HealthEvent. Proof. solve_decision. Defined.
#[export] Instance HealthState_eq_dec : EqDecision HealthState. Proof. solve_decision. Defined.

Definition new (p : HealthPolicy) : HealthTracker :=
  {| policy := p; failures := []; restart_count := 0; state := Healthy |}.

(** Drop the leading failures that left the window. *)
Fixpoint drop_old (window now : N) (l : list N) : list N :=
  match l with
  | t :: l' => if (window <? sat_sub now t)%N then drop_old window now l' else l
  | [] => []
  end.

Definition backoff (p : HealthPolicy) (restarts : N) : N :=
  let exponent := N.min (sat_sub restarts 1) 31 in
  N.min (sat_mul64 (initial_backoff_millis p) (N.shiftl 1 exponent)) (maximum_backoff_millis p).

Definition record (t : HealthTracker) (event : HealthEvent) (now : N) : HealthTracker :=
  match event with
  | CleanRun =>
      {| policy := policy t; failures := []; restart_count := restart_count t;
         state := match state t with Disabled => Disabled | _ => Healthy end |}
  | _ =>
      let failures' := drop_old (window_millis (policy t)) now (failures t) ++ [now] in
      if (len failures' <? failures_before_restart (policy t))%N
      then {| policy := policy t; failures := failures'; restart_count := restart_count t;
              state := state t |}
      else
        let count := sat_add64 (restart_count t) 1 in
        {| policy := policy t; failures := []; restart_count := count;
           state := if (restarts_before_disable (policy t) <=? count)%N then Disabled
                    else RestartAfter (backoff (policy t) count) |}
  end.

Definition acknowledge_restart (t : HealthTracker) : HealthTracker :=
  {| policy := policy t; failures := failures t; restart_count := restart_count t;
     state := match state t with Disabled => Disabled | _ => Healthy end |}.

Inductive step : HealthTracker -> HealthTracker -> Prop :=
| step_record t e now : step t (record t e now)
| step_acknowledge t : step t (acknowledge_restart t).

(** The restarts so far justify the state. *)
Definition inv (t : HealthTracker) : Prop :=
  (restarts_before_disable (policy t) <= u64_max)%N /\ (restart_count t <= u64_max)%N /\
  match state t with
  | Disabled => (restarts_before_disable (policy t) <= restart_count t)%N
  | RestartAfter ms =>
      (0 < restart_count t < restarts_before_disable (policy t))%N /\
      ms = backoff (policy t) (restart_count t)
  | Healthy => (restart_count t = 0 \/ restart_count t < restarts_before_disable (policy t))%N
  end.

Lemma health_inv_step t t' : inv t -> step t t' ->
  inv t' /\ policy t' = policy t /\ (restart_count t <= restart_count t')%N /\
  (state t = Disabled -> state t' = Disabled).
Proof.
  intros (Hp & Hu & Hs) Hstep. destruct Hstep as [t e now|t].
  - unfold record. destruct (decide (e = CleanRun)) as [->|Hne].
    + simpl. split; [|split; [done|split; [lia|by intros ->]]].
      split; [done|]. split; [done|]. simpl. destruct (state t); [done|lia|done].
    + set (f := drop_old _ _ _ ++ _).
      assert (forall A (a b : A), match e with CleanRun => a | _ => b end = b) as Hm
        by by destruct e.
      rewrite Hm. destruct (_ <? _)%N; simpl.
      * split; [done|]. split; [done|]. split; [lia|done].
      * unfold sat_add64. split; [|split; [done|split; [lia|]]].
        -- split; [done|]. split; [simpl; lia|]. simpl.
           destruct (N.leb_spec (restarts_before_disable (policy t)) (N.min u64_max (restart_count t + 1)));
             simpl; [lia|]. split; [lia|done].
        -- intros Hd. rewrite Hd in Hs.
           destruct (N.leb_spec (restarts_before_disable (policy t)) (N.min u64_max (restart_count t + 1)));
             [done|lia].
  - simpl. split; [|split; [done|split; [lia|by intros ->]]].
    split; [done|]. split; [done|]. simpl. destruct (state t); [done|lia|done].
Qed.

(** A plugin is disabled for good and backs off within bounds: along every run
    of the tracker from its start, once disabled it stays disabled under every
    event, a pending restart waits exactly the doubled backoff and never more
    than the policy's maximum, at least one restart precedes it, and disabling
    needs the policy's number of restarts. *)
Theorem health_run (p : HealthPolicy) (t t' : HealthTracker)
  (Hp : (restarts_before_disable p <= u64_max)%N)
  (Hreach : rtc step (new p) t) (Hmore : rtc step t t') :
  (state t = Disabled -> state t' = Disabled) /\
  (state t = Disabled -> (restarts_before_disable p <= restart_count t)%N) /\
  (forall ms, state t = RestartAfter ms ->
    ms = backoff p (restart_count t) /\ (ms <= maximum_backoff_millis p)%N /\
    (0 < restart_count t < restarts_before_disable p)%N).
Proof.
  assert (inv t /\ policy t = p) as [Hi Hpol].
  { assert (inv (new p) /\ policy (new p) = p) as H0 by (repeat split; [done|simpl; lia|simpl; by left]).
    revert H0. generalize (new p) Hreach. clear Hreach Hmore. intros t0 Hr.
    induction Hr as [x|x y z Hs Hr IH]; [done|]. intros [Hx Hpx].
    apply health_inv_step in Hs as (? & ? & _); [|done]. apply IH. split; [done|congruence]. }
  split; [|split].
  - clear Hpol Hreach. revert Hi. induction Hmore as [x|x y z Hs Hr IH]; [done|].
    intros Hx Hd. apply health_inv_step in Hs as (? & _ & _ & Hy); [|done]. auto.
  - intros Hd. destruct Hi as (_ & _ & Hs). rewrite Hd, Hpol in Hs. done.
  - intros ms Hms. destruct Hi as (_ & _ & Hs). rewrite Hms, Hpol in Hs. destruct Hs as [Hr ->].
    split; [done|]. split; [|done]. unfold backoff. lia.
Qed.

Lemma health_run_witness :
  let p := {| window_millis := 10; failures_before_restart := 1; restarts_before_disable := 2;
              initial_backoff_millis := 250; maximum_backoff_millis := 300 |} in
  let t1 := record (new p) GuestTrap 5 in
  let t2 := record t1 TimeoutEvent 6 in
  state t1 = RestartAfter 250 /\ state t2 = Disabled /\
  state (acknowledge_restart (record t2 CleanRun 7)) = Disabled.
Proof.
  intros p t1 t2. split; [reflexivity|]. split; [reflexivity|].
  refine (proj1 (health_run p t2 (acknowledge_restart (record t2 CleanRun 7)) _ _ _) _).
  - vm_compute. discriminate.
  - eapply rtc_l; [apply (step_record (new p) GuestTrap 5)|].
    eapply rtc_l; [apply step_record|]. apply rtc_refl.
  - eapply rtc_l; [apply (step_record t2 CleanRun 7)|].
    eapply rtc_l; [apply step_acknowledge|]. apply rtc_refl.
  - reflexivity.
Defined.

End Health.
