(* ===== verification/Executor.v ===== *)
(** * Executor: the bounded worker pool of the capability backends

    Models [crates/touchbar-plugin-supervisor/src/executor.rs]: submission with
    its checks, the bounded job channel, the worker threads, the completion
    channel, cancellation and revocation.  The threads are steps of a
    transition system; a step is labelled by the submission it accepts or the
    completion it delivers.  What a backend computes is left open: a worker
    may finish with any result, and a panic is the backend-failed error.  A
    capability backend is an interface with its admission check. *)

From S2P Require Import Prelude BTree Text Capability Grants Wire Protocol Lifecycle.

Record ExecutorLimits := {
  workers : N;
  queued_operations : N;
  limit_active_operations : N;
}.

Definition default_executor_limits : ExecutorLimits :=
  {| workers := 2; queued_operations := 32; limit_active_operations := 32 |}.

Record BackendRequest (Identity : Type) := {
  bk_identity : Identity;
  bk_request_id : N;
  bk_capability : CapabilityId;
  bk_authorized_scope : CapabilityScope;
  bk_bindings : GrantBindings;
  bk_activation : option ActivationContext;
  bk_operation : string;
  bk_payload : list N;
}.
Arguments bk_identity {Identity}. Arguments bk_request_id {Identity}.
Arguments bk_capability {Identity}. Arguments bk_authorized_scope {Identity}.
Arguments bk_bindings {Identity}. Arguments bk_activation {Identity}.
Arguments bk_operation {Identity}. Arguments bk_payload {Identity}.

Record BackendCompletion := {
  bc_request_id : N;
  bc_capability : CapabilityId;
  bc_result : BrokerResult;
}.

(** The trait [Backend]: decode and authorize one operation; the default
    accepts everything and leaves the ledger alone. *)
Class Backend (Identity B : Type) :=
  authorize : B -> BackendRequest Identity -> Activation.ActivationLedger -> N ->
    Activation.ActivationLedger * result BrokerErrorCode ().

Definition default_authorize {Identity} (r : BackendRequest Identity)
  (ledger : Activation.ActivationLedger) (now : N)
  : Activation.ActivationLedger * result BrokerErrorCode () := (ledger, Ok ()).

Section Executor.
Context {Identity B : Type} `{!Backend Identity B}.

Record ActiveOperation := { ao_capability : CapabilityId; ao_cancelled : bool }.

(** The cancellation token: the shared flag lives in the active entry of the
    job's request, the deadline in the job. *)
Record Job := { job_request : BackendRequest Identity; job_backend : B; job_deadline : N }.

Record Executor := {
  ex_limits : ExecutorLimits;
  ex_backends : list (CapabilityId * B);
  ex_jobs : list Job;
  ex_running : list Job;
  ex_completions : list BackendCompletion;
  ex_active : list (N * ActiveOperation);
}.

Definition executor_new (l : ExecutorLimits) : result string Executor :=
  if (workers l =? 0)%N || (queued_operations l =? 0)%N || (limit_active_operations l =? 0)%N
  then Err "executor limits must be nonzero"
  else Ok {| ex_limits := l; ex_backends := []; ex_jobs := []; ex_running := [];
             ex_completions := []; ex_active := [] |}.

Definition register (e : Executor) (c : CapabilityId) (b : B) : Executor :=
  {| ex_limits := ex_limits e; ex_backends := bt_insert c b (ex_backends e);
     ex_jobs := ex_jobs e; ex_running := ex_running e; ex_completions := ex_completions e;
     ex_active := ex_active e |}.

Definition with_channels (e : Executor) (jobs running : list Job)
  (completions : list BackendCompletion) (active : list (N * ActiveOperation)) : Executor :=
  {| ex_limits := ex_limits e; ex_backends := ex_backends e; ex_jobs := jobs;
     ex_running := running; ex_completions := completions; ex_active := active |}.

(** [submit]: [deadline] is [Instant::now() + timeout], [None] on overflow.
    The job channel cannot be disconnected while the executor lives. *)
Definition submit (e : Executor) (request : BackendRequest Identity) (deadline : option N)
  (ledger : Activation.ActivationLedger) (now : N)
  : Executor * Activation.ActivationLedger * result BrokerErrorCode () :=
  if (bk_request_id request =? 0)%N || bt_contains (bk_request_id request) (ex_active e)
  then (e, ledger, Err EInvalidRequest)
  else if (limit_active_operations (ex_limits e) <=? len (ex_active e))%N
  then (e, ledger, Err EQuotaExceeded)
  else match bt_get (bk_capability request) (ex_backends e) with
  | None => (e, ledger, Err EUnavailable)
  | Some backend =>
      match authorize backend request ledger now with
      | (ledger', Err code) => (e, ledger', Err code)
      | (ledger', Ok _) =>
          match deadline with
          | None => (e, ledger', Err EInvalidRequest)
          | Some d =>
              if (queued_operations (ex_limits e) <=? len (ex_jobs e))%N
              then (e, ledger', Err EQuotaExceeded)
              else
                let job := {| job_request := request; job_backend := backend; job_deadline := d |} in
                (with_channels e (ex_jobs e ++ [job]) (ex_running e) (ex_completions e)
                   (bt_insert (bk_request_id request)
                      {| ao_capability := bk_capability request; ao_cancelled := false |}
                      (ex_active e)), ledger', Ok ())
          end
      end
  end.

Definition set_cancelled (o : ActiveOperation) : ActiveOperation :=
  {| ao_capability := ao_capability o; ao_cancelled := true |}.

Definition executor_cancel (e : Executor) (request_id : N) : Executor * bool :=
  match bt_get request_id (ex_active e) with
  | None => (e, false)
  | Some _ => (with_channels e (ex_jobs e) (ex_running e) (ex_completions e)
                 (bt_update request_id set_cancelled (ex_active e)), true)
  end.

Definition cancel_where (f : ActiveOperation -> bool) (e : Executor) : Executor * list N :=
  (with_channels e (ex_jobs e) (ex_running e) (ex_completions e)
     (List.map (fun p => if f p.2 then (p.1, set_cancelled p.2) else p) (ex_active e)),
   List.map fst (List.filter (fun p => f p.2) (ex_active e))).

Definition executor_revoke (e : Executor) (c : CapabilityId) : Executor * list N :=
  cancel_where (fun o => bool_decide (ao_capability o = c)) e.

Definition cancel_all (e : Executor) : Executor * list N := cancel_where (fun _ => true) e.

Definition try_completion (e : Executor) : Executor * option BackendCompletion :=
  match ex_completions e with
  | [] => (e, None)
  | c :: rest => (with_channels e (ex_jobs e) (ex_running e) rest
                    (bt_remove (bc_request_id c) (ex_active e)), Some c)
  end.

(** [CancellationToken::reason]. *)
Definition reason (e : Executor) (job : Job) (now : N) : option BrokerErrorCode :=
  let cancelled := match bt_get (bk_request_id (job_request job)) (ex_active e) with
                   | Some o => ao_cancelled o
                   | None => false
                   end in
  if cancelled then Some ECancelled
  else if (job_deadline job <=? now)%N then Some ETimeout else None.

(** A worker receives the oldest job, and later finishes one it runs with what
    the backend returned ([None]: it panicked). *)
Definition worker_take (e : Executor) : option Executor :=
  match ex_jobs e with
  | job :: rest =>
      if (len (ex_running e) <? workers (ex_limits e))%N
      then Some (with_channels e rest (job :: ex_running e) (ex_completions e) (ex_active e))
      else None
  | [] => None
  end.

(** The worker's last look at the token and its send are one step: a
    cancellation between the two only sets the token, which is not read for
    that job again, so it may as well come after the send. *)
Definition worker_finish (e : Executor) (i : nat) (outcome : option BrokerResult) (now : N)
  : option Executor :=
  job ← ex_running e !! i;
  let r := default (BrokerError EBackendFailed) outcome in
  let r := match reason e job now with Some code => BrokerError code | None => r end in
  Some (with_channels e (ex_jobs e) (delete i (ex_running e))
    (ex_completions e ++ [{| bc_request_id := bk_request_id (job_request job);
                             bc_capability := bk_capability (job_request job);
                             bc_result := r |}]) (ex_active e)).

(** ** Transitions *)

Inductive label :=
| Accepted (request_id : N)
| Delivered (completion : BackendCompletion)
| Internal.

Inductive estep : Executor -> label -> Executor -> Prop :=
| estep_register e c b : estep e Internal (register e c b)
| estep_submit e request deadline ledger now e' ledger' :
    submit e request deadline ledger now = (e', ledger', Ok ()) ->
    estep e (Accepted (bk_request_id request)) e'
| estep_reject e request deadline ledger now e' ledger' code :
    submit e request deadline ledger now = (e', ledger', Err code) -> estep e Internal e'
| estep_cancel e id : estep e Internal (executor_cancel e id).1
| estep_revoke e c : estep e Internal (executor_revoke e c).1
| estep_cancel_all e : estep e Internal (cancel_all e).1
| estep_take e e' : worker_take e = Some e' -> estep e Internal e'
| estep_finish e i outcome now e' : worker_finish e i outcome now = Some e' -> estep e Internal e'
| estep_deliver e e' c : try_completion e = (e', Some c) -> estep e (Delivered c) e'.

Inductive eruns : Executor -> list label -> Executor -> Prop :=
| eruns_nil e : eruns e [] e
| eruns_cons e l e1 ls e2 : estep e l e1 -> eruns e1 ls e2 -> eruns e (l :: ls) e2.

Definition job_id (j : Job) : N := bk_request_id (job_request j).

(** The requests in flight: queued, running, or finished but not delivered. *)
Definition in_flight (e : Executor) : list N :=
  (job_id <$> ex_jobs e) ++ (job_id <$> ex_running e) ++ (bc_request_id <$> ex_completions e).

Record executor_inv (e : Executor) : Prop := {
  einv_sorted : bt_sorted (ex_active e);
  einv_flight : in_flight e ≡ₚ bt_keys (ex_active e);
  einv_active : (len (ex_active e) <= limit_active_operations (ex_limits e))%N;
  einv_jobs : (len (ex_jobs e) <= queued_operations (ex_limits e))%N;
  einv_running : (len (ex_running e) <= workers (ex_limits e))%N;
  einv_nonzero : 0%N ∉ bt_keys (ex_active e);
}.

Lemma executor_new_inv l e : executor_new l = Ok e -> executor_inv e.
Proof.
  unfold executor_new. destruct (_ || _); [done|]. intros [= <-].
  constructor; simpl; try done; try (rewrite len_nil; lia). by intros ?%elem_of_nil.
Qed.

Lemma submit_Ok e request deadline ledger now e' ledger' :
  submit e request deadline ledger now = (e', ledger', Ok ()) ->
  exists backend d, bk_request_id request <> 0%N /\
    bt_contains (bk_request_id request) (ex_active e) = false /\
    (len (ex_active e) < limit_active_operations (ex_limits e))%N /\
    (len (ex_jobs e) < queued_operations (ex_limits e))%N /\
    bt_get (bk_capability request) (ex_backends e) = Some backend /\
    authorize backend request ledger now = (ledger', Ok ()) /\ deadline = Some d /\
    e' = with_channels e
      (ex_jobs e ++ [{| job_request := request; job_backend := backend; job_deadline := d |}])
      (ex_running e) (ex_completions e)
      (bt_insert (bk_request_id request)
        {| ao_capability := bk_capability request; ao_cancelled := false |} (ex_active e)).
Proof.
  unfold submit. destruct (N.eqb_spec (bk_request_id request) 0); [done|]. simpl.
  destruct (bt_contains _ _) eqn:Hc; [done|].
  destruct (N.leb_spec (limit_active_operations (ex_limits e)) (len (ex_active e))); [done|].
  destruct (bt_get _ _) as [backend|] eqn:Hb; [|done].
  destruct (authorize _ _ _ _) as [ledger1 [[]|]] eqn:Ha; [|done].
  destruct deadline as [d|]; [|done].
  destruct (N.leb_spec (queued_operations (ex_limits e)) (len (ex_jobs e))); [done|].
  intros [= <- <-]. by exists backend, d.
Qed.

Lemma submit_Err e request deadline ledger now e' ledger' code :
  submit e request deadline ledger now = (e', ledger', Err code) -> e' = e.
Proof.
  unfold submit. repeat case_match; congruence.
Qed.
End Executor.

Section ExecutorFacts.
Context {Identity B : Type} `{!Backend Identity B}.
Implicit Types (e : @Executor Identity B).

Lemma cancel_where_keys (f : ActiveOperation -> bool) (m : list (N * ActiveOperation)) :
  bt_keys (List.map (fun p => if f p.2 then (p.1, set_cancelled p.2) else p) m) = bt_keys m.
Proof.
  unfold bt_keys. induction m as [|[k o] m IH]; csimpl; [done|]. destruct (f o); csimpl; by f_equal.
Qed.

(** Changing flags of active entries keeps the invariant. *)
Lemma inv_same_keys e active :
  executor_inv e -> bt_keys active = bt_keys (ex_active e) ->
  executor_inv (with_channels e (ex_jobs e) (ex_running e) (ex_completions e) active).
Proof.
  intros [] Hk. assert (len active = len (ex_active e)) as Hl.
  { unfold len. unfold bt_keys in Hk. apply (f_equal length) in Hk. rewrite !length_fmap in Hk. lia. }
  constructor; simpl; rewrite ?Hl; try done; unfold bt_sorted in *; by rewrite Hk.
Qed.

Lemma inv_cancel e id : executor_inv e -> executor_inv (executor_cancel e id).1.
Proof.
  intros Hi. unfold executor_cancel. destruct (bt_get _ _); [|done].
  apply inv_same_keys; [done|]. apply bt_keys_update.
Qed.

Lemma inv_cancel_where e f : executor_inv e -> executor_inv (cancel_where f e).1.
Proof. intros Hi. apply inv_same_keys; [done|]. apply cancel_where_keys. Qed.

Lemma inv_submit e request deadline ledger now e' ledger' :
  executor_inv e -> submit e request deadline ledger now = (e', ledger', Ok ()) ->
  executor_inv e' /\ in_flight e' ≡ₚ bk_request_id request :: in_flight e.
Proof.
  intros [] (b & d & Hz & Hc & Ha & Hj & _ & _ & _ & ->)%submit_Ok.
  assert (bk_request_id request ∉ bt_keys (ex_active e)) as Hn.
  { rewrite <- bt_contains_spec. congruence. }
  assert (in_flight (with_channels e (ex_jobs e ++
    [{| job_request := request; job_backend := b; job_deadline := d |}]) (ex_running e)
    (ex_completions e) (bt_insert (bk_request_id request)
      {| ao_capability := bk_capability request; ao_cancelled := false |} (ex_active e)))
    ≡ₚ bk_request_id request :: in_flight e) as Hf.
  { unfold in_flight. simpl. rewrite fmap_app. simpl. rewrite <- app_assoc.
    symmetry. apply Permutation_middle. }
  split; [|done]. constructor; simpl; try done.
  - by apply bt_sorted_insert.
  - rewrite Hf, bt_keys_insert, set_add_perm by done. by constructor.
  - unfold len in *. rewrite length_bt_insert_fresh; [lia|]. by apply bt_contains_false.
  - rewrite len_app, len_cons, len_nil. lia.
  - rewrite bt_keys_insert, elem_of_set_add. intros [?|?]; [congruence|done].
Qed.

Lemma inv_take e e' : executor_inv e -> worker_take e = Some e' ->
  executor_inv e' /\ in_flight e' ≡ₚ in_flight e.
Proof.
  intros [] Ht. unfold worker_take in Ht. destruct (ex_jobs e) as [|job rest] eqn:Hj; [done|].
  destruct (N.ltb_spec (len (ex_running e)) (workers (ex_limits e))); [|done].
  injection Ht as <-.
  assert (in_flight (with_channels e rest (job :: ex_running e) (ex_completions e) (ex_active e))
    ≡ₚ in_flight e) as Hf.
  { unfold in_flight. simpl. rewrite Hj. csimpl. symmetry. apply Permutation_middle. }
  split; [|done]. constructor; simpl; try done.
  - by rewrite Hf.
  - rewrite len_cons in einv_jobs0. lia.
  - rewrite len_cons. lia.
Qed.

Lemma inv_finish e i outcome now e' : executor_inv e -> worker_finish e i outcome now = Some e' ->
  executor_inv e' /\ in_flight e' ≡ₚ in_flight e.
Proof.
  intros [] Hw. unfold worker_finish in Hw. destruct (ex_running e !! i) as [job|] eqn:Hj; [|done].
  simpl in Hw. injection Hw as <-.
  match goal with |- executor_inv ?e' /\ _ => assert (in_flight e' ≡ₚ in_flight e) as Hf end.
  { unfold in_flight. simpl. apply Permutation_app_head. rewrite fmap_app. simpl.
    rewrite (delete_Permutation _ _ _ Hj) at 2. csimpl. rewrite app_assoc.
    rewrite Permutation_app_comm. simpl. done. }
  split; [|done]. constructor; simpl; try done.
  - by rewrite Hf.
  - pose proof (length_delete (ex_running e) i ltac:(by eexists)). unfold len in *. lia.
Qed.

Lemma inv_deliver e e' c : executor_inv e -> try_completion e = (e', Some c) ->
  executor_inv e' /\ in_flight e ≡ₚ bc_request_id c :: in_flight e'.
Proof.
  intros [] Hw. unfold try_completion in Hw. destruct (ex_completions e) as [|c' rest] eqn:Hc; [done|].
  injection Hw as <- ->.
  match goal with |- executor_inv ?e' /\ _ =>
    assert (in_flight e ≡ₚ bc_request_id c :: in_flight e') as Hf end.
  { unfold in_flight. simpl. rewrite Hc. csimpl. rewrite !app_assoc. symmetry. apply Permutation_middle. }
  split; [|done].
  assert (bc_request_id c ∈ bt_keys (ex_active e)) as Hin.
  { rewrite <- einv_flight0, Hf. by left. }
  constructor; simpl; try done.
  - by apply bt_sorted_remove.
  - rewrite bt_keys_remove. apply (Permutation_cons_inv (a := bc_request_id c)).
    rewrite <- Hf, <- set_remove_perm by done. done.
  - unfold len in *. pose proof (length_bt_remove (bc_request_id c) (ex_active e)). lia.
  - rewrite bt_keys_remove, elem_of_set_remove. tauto.
Qed.

(** One step keeps the invariant, and what it accepts or delivers is exactly
    how the set in flight changes. *)
Lemma estep_inv e l e' : executor_inv e -> estep e l e' ->
  executor_inv e' /\ ex_limits e' = ex_limits e /\
  match l with
  | Accepted id => in_flight e' ≡ₚ id :: in_flight e
  | Delivered c => in_flight e ≡ₚ bc_request_id c :: in_flight e'
  | Internal => in_flight e' ≡ₚ in_flight e
  end.
Proof.
  intros Hi Hs. destruct Hs.
  - split; [|done]. destruct Hi. by constructor.
  - destruct (inv_submit _ _ _ _ _ _ _ Hi H). split; [done|]. split; [|done].
    by apply submit_Ok in H as (? & ? & _ & _ & _ & _ & _ & _ & _ & ->).
  - by apply submit_Err in H as ->.
  - split; [by apply inv_cancel|]. unfold executor_cancel. by destruct (bt_get _ _).
  - split; [by apply inv_cancel_where|]. done.
  - split; [by apply inv_cancel_where|]. done.
  - destruct (inv_take _ _ Hi H). split; [done|]. split; [|done].
    unfold worker_take in H. destruct (ex_jobs e); [done|]. destruct (_ <? _)%N; [|done].
    by injection H as <-.
  - destruct (inv_finish _ _ _ _ _ Hi H). split; [done|]. split; [|done].
    unfold worker_finish in H. destruct (ex_running e !! i); [|done]. by injection H as <-.
  - destruct (inv_deliver _ _ _ Hi H). split; [done|]. split; [|done].
    unfold try_completion in H. destruct (ex_completions e); [done|]. by injection H as <- _.
Qed.

Definition accepted (ls : list label) : list N :=
  omap (fun l => match l with Accepted id => Some id | _ => None end) ls.
Definition delivered (ls : list label) : list BackendCompletion :=
  omap (fun l => match l with Delivered c => Some c | _ => None end) ls.

Lemma eruns_inv e ls e' : executor_inv e -> eruns e ls e' ->
  executor_inv e' /\ ex_limits e' = ex_limits e /\
  in_flight e ++ accepted ls ≡ₚ (bc_request_id <$> delivered ls) ++ in_flight e'.
Proof.
  intros Hi Hr. induction Hr as [e|e l e1 ls e2 Hs Hr IH].
  - split; [done|]. split; [done|]. by rewrite app_nil_r.
  - apply estep_inv in Hs as (Hi1 & Hl1 & Hf); [|done]. destruct (IH Hi1) as (Hi2 & Hl2 & Hp).
    split; [done|]. split; [congruence|]. unfold accepted, delivered in *.
    destruct l as [id|c|]; csimpl.
    + rewrite Hf in Hp. rewrite <- Hp. rewrite <- Permutation_middle. done.
    + rewrite Hf. simpl. by rewrite Hp.
    + rewrite <- Hf. done.
Qed.

(** A job that was cancelled before it finished. *)
Definition cancelled_job e (id : N) : Prop :=
  id ∈ (job_id <$> ex_jobs e) ++ (job_id <$> ex_running e) /\
  exists o, bt_get id (ex_active e) = Some o /\ ao_cancelled o = true.

(** Its completion, once in the channel. *)
Definition cancelled_completion e (id : N) : Prop :=
  (id ∉ (job_id <$> ex_jobs e) ++ (job_id <$> ex_running e)) /\
  forall c, c ∈ ex_completions e -> bc_request_id c = id -> bc_result c = BrokerError ECancelled.

Lemma flight_nodup e : executor_inv e -> NoDup (in_flight e).
Proof. intros []. rewrite einv_flight0. by apply ascending_NoDup. Qed.

Lemma bt_get_cancel_where (f : ActiveOperation -> bool) (m : list (N * ActiveOperation)) (id : N) :
  bt_get id (List.map (fun p => if f p.2 then (p.1, set_cancelled p.2) else p) m) =
  (fun o => if f o then set_cancelled o else o) <$> bt_get id m.
Proof.
  induction m as [|[k o] m IH]; simpl; [done|].
  destruct (f o) eqn:Hf; simpl; rewrite IH; destruct (cmp id k); try done; simpl; by rewrite Hf.
Qed.

(** Where a cancelled request is: still with the workers, or completed as
    cancelled. *)
Definition cancelled_state e (id : N) : Prop :=
  cancelled_job e id \/ id ∈ bc_request_id <$> ex_completions e /\ cancelled_completion e id.

Lemma cancelled_state_frame e e' id :
  cancelled_state e id -> ex_jobs e' = ex_jobs e -> ex_running e' = ex_running e ->
  ex_completions e' = ex_completions e ->
  (forall o, bt_get id (ex_active e) = Some o -> ao_cancelled o = true ->
    exists o', bt_get id (ex_active e') = Some o' /\ ao_cancelled o' = true) ->
  cancelled_state e' id.
Proof.
  unfold cancelled_state, cancelled_job, cancelled_completion. intros Hc -> -> -> Ho.
  destruct Hc as [[? (o & ? & ?)]|?]; [left|by right]. split; [done|]. eauto.
Qed.

Lemma cancelled_submit e request deadline ledger now e' ledger' id :
  executor_inv e -> cancelled_state e id ->
  submit e request deadline ledger now = (e', ledger', Ok ()) -> cancelled_state e' id.
Proof.
  intros Hi Hc (b & d & Hz & Hn & _ & _ & _ & _ & _ & ->)%submit_Ok.
  assert (bk_request_id request <> id) as Hne.
  { intros <-. assert (bk_request_id request ∈ bt_keys (ex_active e)) as Hin.
    - rewrite <- (einv_flight e Hi). unfold in_flight. rewrite app_assoc, elem_of_app.
      destruct Hc as [[? _]|[? _]]; tauto.
    - apply bt_contains_spec in Hin. congruence. }
  unfold cancelled_state, cancelled_job, cancelled_completion in *. simpl.
  rewrite fmap_app, !elem_of_app in *. simpl. rewrite list_elem_of_singleton.
  rewrite bt_get_insert_ne by congruence. unfold job_id at 2 5. simpl.
  destruct Hc as [[? ?]|[? [? ?]]]; [left; tauto|right]. split; [done|]. split; [|done].
  intros [[?|?]|?]; [tauto|congruence|tauto].
Qed.

Lemma cancelled_take e e' id :
  cancelled_state e id -> worker_take e = Some e' -> cancelled_state e' id.
Proof.
  intros Hc Ht. unfold worker_take in Ht. destruct (ex_jobs e) as [|job rest] eqn:Hj; [done|].
  destruct (_ <? _)%N; [|done]. injection Ht as <-.
  unfold cancelled_state, cancelled_job, cancelled_completion in *.
  cbn [ex_jobs ex_running ex_completions ex_active with_channels]. rewrite Hj in Hc.
  rewrite !fmap_cons in *. rewrite !elem_of_app, !elem_of_cons in *. tauto.
Qed.

Lemma cancelled_finish e i outcome now e' id :
  executor_inv e -> cancelled_state e id -> worker_finish e i outcome now = Some e' ->
  cancelled_state e' id.
Proof.
  intros Hi Hc Hw. pose proof (flight_nodup e Hi) as Hnd.
  unfold worker_finish in Hw. destruct (ex_running e !! i) as [job|] eqn:Hj; [|done].
  simpl in Hw. injection Hw as <-.
  assert (job_id <$> ex_running e ≡ₚ job_id job :: (job_id <$> delete i (ex_running e))) as Hp.
  { by rewrite (delete_Permutation _ _ _ Hj) at 1. }
  unfold in_flight in Hnd. rewrite Hp in Hnd.
  unfold cancelled_state, cancelled_job, cancelled_completion in *. cbn [ex_jobs ex_running
    ex_completions ex_active with_channels]. rewrite fmap_app, !elem_of_app in *.
  setoid_rewrite Hp in Hc. setoid_rewrite elem_of_cons in Hc. simpl in *.
  setoid_rewrite elem_of_app. setoid_rewrite list_elem_of_singleton.
  destruct (decide (id = job_id job)) as [->|Hne].
  - right. destruct Hc as [[_ (o & Ho & Hflag)]|[_ [Hno _]]]; [|tauto].
    apply NoDup_app in Hnd as (_ & Hd1 & [Hd2 _]%NoDup_cons). rewrite elem_of_app in Hd2.
    split; [by right|]. split.
    + intros [Hin|Hin]; [|tauto]. apply (Hd1 _ Hin). by left.
    + intros c [Hin| ->] Hid.
      * exfalso. apply Hd2. right. rewrite <- Hid. by apply list_elem_of_fmap_2.
      * simpl. unfold reason. unfold job_id in Ho. by rewrite Ho, Hflag.
  - destruct Hc as [[Hin Ho]|[Hin [Hno Hall]]]; [left|right].
    + split; [tauto|done].
    + split; [by left|]. split; [tauto|]. intros c [Hc| ->] Hid; [by apply Hall|].
      unfold job_id in Hne. simpl in Hid. congruence.
Qed.

Lemma cancelled_deliver_other e e' c id :
  cancelled_state e id -> try_completion e = (e', Some c) -> bc_request_id c <> id ->
  cancelled_state e' id.
Proof.
  intros Hc Hw Hne. unfold try_completion in Hw. destruct (ex_completions e) as [|c' rest] eqn:Hcs;
    [done|]. injection Hw as <- ->.
  unfold cancelled_state, cancelled_job, cancelled_completion in *. simpl. rewrite Hcs in Hc.
  csimpl in Hc. rewrite bt_get_remove_ne by congruence.
  destruct Hc as [?|[Hin [Hno Hall]]]; [by left|right].
  apply elem_of_cons in Hin as [?|Hin]; [congruence|]. split; [done|]. split; [done|].
  intros c1 Hc1. apply Hall. by right.
Qed.

Lemma cancelled_where e f id : cancelled_state e id -> cancelled_state (cancel_where f e).1 id.
Proof.
  intros Hc. apply (cancelled_state_frame e); try done. simpl. intros o Ho Hf.
  rewrite bt_get_cancel_where, Ho. simpl. destruct (f o); eauto.
Qed.

Lemma cancelled_step e l e' id :
  executor_inv e -> cancelled_state e id -> estep e l e' ->
  (forall c, l = Delivered c -> bc_request_id c <> id) -> cancelled_state e' id.
Proof.
  intros Hi Hc Hs Hl. destruct Hs.
  - by apply (cancelled_state_frame e); eauto.
  - by eapply cancelled_submit.
  - by apply submit_Err in H as ->.
  - unfold executor_cancel. destruct (bt_get id0 (ex_active e)) eqn:Hg; [|done].
    apply (cancelled_state_frame e); try done. simpl. intros o Ho Hf.
    rewrite bt_get_update. destruct (cmp id id0); rewrite Ho; simpl; eauto.
  - by apply cancelled_where.
  - by apply cancelled_where.
  - by eapply cancelled_take.
  - by eapply cancelled_finish.
  - eapply cancelled_deliver_other; eauto.
Qed.

Lemma cancelled_delivery e e' c :
  executor_inv e -> cancelled_state e (bc_request_id c) -> estep e (Delivered c) e' ->
  bc_result c = BrokerError ECancelled.
Proof.
  intros Hi Hc Hs. pose proof (flight_nodup e Hi) as Hnd. inversion Hs as [| | | | | | | |? ? ? Hd]; subst.
  unfold try_completion in Hd. destruct (ex_completions e) as [|c' rest] eqn:Hcs; [done|].
  injection Hd as _ ->. destruct Hc as [[Hin _]|[_ [_ Hall]]].
  - exfalso. unfold in_flight in Hnd. rewrite app_assoc, NoDup_app in Hnd.
    destruct Hnd as (_ & Hdis & _). apply (Hdis _ Hin). rewrite Hcs. by left.
  - apply Hall; [|done]. rewrite Hcs. by left.
Qed.
(** The progress steps: a worker takes or finishes a job, or a completion is
    delivered. *)
Inductive progress : Executor -> Executor -> Prop :=
| progress_take e e' : worker_take e = Some e' -> progress e e'
| progress_finish e i outcome now e' : worker_finish e i outcome now = Some e' -> progress e e'
| progress_deliver e c e' : try_completion e = (e', Some c) -> progress e e'.

Definition remaining (e : @Executor Identity B) : nat :=
  3 * length (ex_jobs e) + 2 * length (ex_running e) + length (ex_completions e).

Lemma progress_decreases e e' : progress e e' -> remaining e' < remaining e.
Proof.
  unfold remaining. intros [e1 e2 Ht|e1 i o now e2 Hf|e1 c e2 Hd].
  - unfold worker_take in Ht. destruct (ex_jobs e1); [done|]. destruct (_ <? _)%N; [|done].
    injection Ht as <-. simpl. lia.
  - unfold worker_finish in Hf. destruct (ex_running e1 !! i) as [job|] eqn:Hj; [|done].
    injection Hf as <-. simpl. rewrite length_app, length_delete by eauto.
    apply lookup_lt_Some in Hj. simpl. lia.
  - unfold try_completion in Hd. destruct (ex_completions e1); [done|]. injection Hd as <- _. simpl. lia.
Qed.

Lemma progress_step e e' : progress e e' -> exists l, estep e l e'.
Proof. intros []; eexists; [by eapply estep_take|by eapply estep_finish|by eapply estep_deliver]. Qed.

Lemma progress_possible e : executor_inv e -> (0 < workers (ex_limits e))%N ->
  in_flight e <> [] -> exists e', progress e e'.
Proof.
  intros _ Hw Hf. destruct (ex_completions e) as [|c rest] eqn:Hc.
  - destruct (ex_running e) as [|job running] eqn:Hr.
    + destruct (ex_jobs e) as [|job jobs] eqn:Hj.
      * unfold in_flight in Hf. by rewrite Hc, Hr, Hj in Hf.
      * eexists. apply progress_take. unfold worker_take. rewrite Hj, Hr, len_nil.
        destruct (N.ltb_spec 0 (workers (ex_limits e))); [done|lia].
    + eexists. apply (progress_finish e 0 None 0). unfold worker_finish. by rewrite Hr.
  - eexists. apply (progress_deliver e c). unfold try_completion. by rewrite Hc.
Qed.

Lemma progress_inv e e' : executor_inv e -> progress e e' ->
  executor_inv e' /\ ex_limits e' = ex_limits e.
Proof. intros H1 [lab Hs]%progress_step. by destruct (estep_inv _ _ _ H1 Hs) as (? & ? & _). Qed.

Lemma progress_runs_inv e e' : rtc progress e e' -> executor_inv e ->
  executor_inv e' /\ ex_limits e' = ex_limits e.
Proof.
  induction 1 as [|e1 e2 e3 Hs _ IH]; [done|]. intros H1. destruct (progress_inv _ _ H1 Hs) as [H2 ?].
  destruct (IH H2). split; [done|congruence].
Qed.

Lemma drain_exists e : executor_inv e -> (0 < workers (ex_limits e))%N ->
  exists e', rtc progress e e' /\ in_flight e' = [].
Proof.
  remember (remaining e) as n eqn:Hn. revert e Hn. induction n as [n IH] using lt_wf_ind.
  intros e -> Hi Hw. destruct (decide (in_flight e = [])) as [|Hne]; [by exists e|].
  destruct (progress_possible e Hi Hw Hne) as [e1 Hp]. destruct (progress_inv _ _ Hi Hp) as [Hi1 Hl].
  destruct (IH (remaining e1)) with (e := e1) as (e' & Hr & Hf); [by apply progress_decreases|done|done|by rewrite Hl|].
  exists e'. split; [by eapply rtc_l|done].
Qed.
End ExecutorFacts.

(** C10: The executor is bounded and answers every accepted operation exactly once:
    along every run from its start, at most the configured numbers of
    operations are active, queued and running; the active operations are
    exactly those in flight, without repetition; and the accepted request ids
    are, as a multiset, the delivered completions together with those still in
    flight, so none is lost and none is answered twice. *)
Theorem executor_exactly_once {Identity B} `{!Backend Identity B} (l : ExecutorLimits)
  (e e' : @Executor Identity B) (ls : list label)
  (Hnew : executor_new l = Ok e) (Hrun : eruns e ls e') :
  (len (ex_active e') <= limit_active_operations l)%N /\
  (len (ex_jobs e') <= queued_operations l)%N /\
  (len (ex_running e') <= workers l)%N /\
  NoDup (in_flight e') /\ in_flight e' ≡ₚ bt_keys (ex_active e') /\
  accepted ls ≡ₚ (bc_request_id <$> delivered ls) ++ in_flight e'.
Proof.
  assert (ex_limits e = l /\ in_flight e = []) as [Hl Hf].
  { unfold executor_new in Hnew. destruct (_ || _); [done|]. by injection Hnew as <-. }
  apply executor_new_inv in Hnew. destruct (eruns_inv e ls e' Hnew Hrun) as (Hi & Hl' & Hp).
  pose proof (flight_nodup e' Hi). rewrite Hf in Hp. destruct Hi. rewrite Hl', Hl in *. done.
Qed.

(** A cancelled or revoked operation never succeeds: from any reachable state
    in which a queued or running request carries the cancellation flag, the
    next completion delivered for it is the cancellation error, whatever the
    backend computed and however the threads interleave. *)
Theorem cancelled_never_succeeds {Identity B} `{!Backend Identity B}
  (e e1 e2 : @Executor Identity B) (ls : list label) (c : BackendCompletion)
  (Hinv : executor_inv e) (Hcancelled : cancelled_job e (bc_request_id c))
  (Hrun : eruns e ls e1) (Hfirst : bc_request_id c ∉ bc_request_id <$> delivered ls)
  (Hdeliver : estep e1 (Delivered c) e2) :
  bc_result c = BrokerError ECancelled.
Proof.
  assert (executor_inv e1 /\ cancelled_state e1 (bc_request_id c)) as [Hi Hc];
    [|by eapply cancelled_delivery].
  assert (cancelled_state e (bc_request_id c)) as Hc by by left. clear Hcancelled Hdeliver.
  induction Hrun as [e|e l e' ls e'' Hs Hr IH]; [done|].
  destruct (estep_inv _ _ _ Hinv Hs) as [Hi' _].
  apply IH; [done| |].
  - destruct l; try done. unfold delivered in Hfirst. csimpl in Hfirst.
    apply not_elem_of_cons in Hfirst as [_ ?]. done.
  - eapply cancelled_step; [exact Hinv|done|done|]. intros c' -> Heq.
    apply Hfirst. unfold delivered. csimpl. rewrite Heq. by left.
Qed.

(** C9: The pool never gets stuck.  From every reachable state each progress step
    (a worker taking or finishing a job, a delivery) shortens what remains, so
    progress runs have at most [remaining] steps; a state from which no
    progress step exists has nothing in flight; and some progress run delivers
    everything. *)
Theorem executor_drains {Identity B} `{!Backend Identity B} (l : ExecutorLimits)
  (e0 e : @Executor Identity B) (ls : list label)
  (Hnew : executor_new l = Ok e0) (Hrun : eruns e0 ls e) :
  (forall n e', nsteps progress n e e' -> n + remaining e' <= remaining e) /\
  (forall e', rtc progress e e' -> (forall e2, ~ progress e' e2) -> in_flight e' = []) /\
  exists e', rtc progress e e' /\ in_flight e' = [].
Proof.
  assert (Hwork : (0 < workers l)%N /\ ex_limits e0 = l).
  { unfold executor_new in Hnew. destruct (N.eqb_spec (workers l) 0); [done|].
    simpl in Hnew. destruct (_ || _); [done|]. injection Hnew as <-. simpl. split; [lia|done]. }
  destruct (eruns_inv _ _ _ (executor_new_inv _ _ Hnew) Hrun) as (Hi & Hl & _).
  split; [|split].
  - intros n e'. clear Hrun Hi Hl. induction 1 as [e1|n e1 e2 e3 Hs _ IH]; [lia|].
    apply progress_decreases in Hs. lia.
  - intros e' Hr Hstuck. destruct (progress_runs_inv _ _ Hr Hi) as [Hi' Hl'].
    destruct (decide (in_flight e' = [])) as [|Hne]; [done|].
    destruct (progress_possible e' Hi') as [e2 Hp]; [rewrite Hl', Hl; by destruct Hwork as [? ->]|done|].
    by destruct (Hstuck e2).
  - apply drain_exists; [done|]. rewrite Hl. by destruct Hwork as [? ->].
Qed.

(** ** A concrete run *)

#[export] Instance open_backend : Backend () () := fun _ r ledger now => default_authorize r ledger now.

Definition sample_backend_request (id : N) : BackendRequest () :=
  {| bk_identity := (); bk_request_id := id; bk_capability := UriOpenV1;
     bk_authorized_scope := UriOpen {| uo_schemes := ["https"]; uo_origins := [] |};
     bk_bindings := no_bindings; bk_activation := None; bk_operation := "open"; bk_payload := [] |}.

Definition sample_ledger : Activation.ActivationLedger := Activation.new 4.

Definition sample_executor : @Executor () () :=
  register {| ex_limits := default_executor_limits; ex_backends := []; ex_jobs := [];
              ex_running := []; ex_completions := []; ex_active := [] |} UriOpenV1 ().

Definition sample_submitted : @Executor () () :=
  (submit sample_executor (sample_backend_request 7) (Some 100%N) sample_ledger 1).1.1.

Lemma executor_exactly_once_witness :
  exists e' : @Executor () (),
    len (ex_active e') = 1%N /\ NoDup (in_flight e') /\ in_flight e' ≡ₚ bt_keys (ex_active e').
Proof.
  exists sample_submitted. split; [reflexivity|].
  destruct (executor_exactly_once default_executor_limits
    {| ex_limits := default_executor_limits; ex_backends := []; ex_jobs := [];
       ex_running := []; ex_completions := []; ex_active := [] |}
    sample_submitted [Internal; Accepted 7]) as (_ & _ & _ & Hnd & Hp & _).
  - reflexivity.
  - eapply eruns_cons; [apply (estep_register _ UriOpenV1 ())|].
    eapply eruns_cons; [|apply eruns_nil].
    refine (estep_submit _ (sample_backend_request 7) (Some 100%N) sample_ledger 1 _ sample_ledger _).
    vm_compute. reflexivity.
  - split; [exact Hnd|exact Hp].
Defined.

Lemma cancelled_never_succeeds_witness :
  let e := (executor_cancel sample_submitted 7).1 in
  exists e1, worker_take e = Some e1 /\
    (forall e2 e3 c, worker_finish e1 0 (Some (Success [1%N])) 2 = Some e2 ->
      bc_request_id c = 7%N -> estep e2 (Delivered c) e3 -> bc_result c = BrokerError ECancelled).
Proof.
  intros e.
  destruct (worker_take e) as [e1|] eqn:Ht; [|vm_compute in Ht; discriminate Ht].
  exists e1. split; [reflexivity|]. intros e2 e3 c Hf Hid Hd.
  refine (cancelled_never_succeeds e e2 e3 [Internal; Internal] c _ _ _ _ Hd).
  - constructor; [split; [constructor|done]|reflexivity|vm_compute; discriminate..|].
    vm_compute. intros Hin. inversion Hin as [|? ? ? Hin']. inversion Hin'.
  - rewrite Hid. split; [vm_compute; left|]. eexists. split; [vm_compute; reflexivity|reflexivity].
  - eapply eruns_cons; [exact (estep_take _ _ Ht)|].
    eapply eruns_cons; [exact (estep_finish _ _ _ _ _ Hf)|apply eruns_nil].
  - vm_compute. intros Hin. inversion Hin.
Defined.

Lemma executor_drains_witness : exists e', rtc progress sample_submitted e' /\ in_flight e' = [].
Proof.
  refine (proj2 (proj2 (executor_drains default_executor_limits
    {| ex_limits := default_executor_limits; ex_backends := []; ex_jobs := [];
       ex_running := []; ex_completions := []; ex_active := [] |}
    sample_submitted [Internal; Accepted 7] eq_refl _))).
  eapply eruns_cons; [apply (estep_register _ UriOpenV1 ())|].
  eapply eruns_cons; [|apply eruns_nil].
  refine (estep_submit _ (sample_backend_request 7) (Some 100%N) sample_ledger 1 _ sample_ledger _).
  vm_compute. reflexivity.
Defined.
