(* ===== verification/Resources.v ===== *)
(** * Resources: brokered streams and subscriptions

    Models [crates/touchbar-plugin-supervisor/src/resources.rs]: the event sink
    handed to a capability backend, and the manager that owns the resources
    and forwards their events to the host.  Sinks run on backend threads while
    the manager pumps; the flag, the terminal result and the rate window are
    shared cells, so the model keeps a store of cells that manager entries and
    sinks name by index, and the bounded channel between them.  Operations are
    functions; the interleavings of their atomic actions are a labelled
    transition system. *)

From S2P Require Import Prelude BTree Text Capability Grants Wire Protocol Lifecycle Events Executor.

Definition MAX_RESOURCE_EVENT_BYTES : N := 16 * 1024.

Record ResourceLimits := {
  reserved_buffered_bytes : N;
  maximum_events_per_second : N;
}.
#[export] Instance ResourceLimits_eq_dec : EqDecision ResourceLimits.
Proof. solve_decision. Defined.

(** The trait [ResourceBackend]; what its [open] returns is an argument of
    the manager's [open]. *)
Class ResourceBackend (Identity RB : Type) := {
  rb_limits : RB -> BackendRequest Identity -> option ResourceLimits;
  rb_authorize : RB -> BackendRequest Identity -> Activation.ActivationLedger -> N ->
    Activation.ActivationLedger * result BrokerErrorCode ();
}.

Record IncomingEvent := { ie_resource_id : N; ie_result : BrokerResult }.

(** One sink and the cells it shares with the manager: [RateWindow], the
    finished flag and the terminal result.  Times are microseconds. *)
Record Sink := {
  sk_resource_id : N;
  sk_maximum : N;
  sk_finished : bool;
  sk_terminal : option BrokerResult;
  sk_started : N;
  sk_emitted : N;
}.

Record ManagedResource := { mr_sink : nat; mr_next_sequence : N }.

(** [rm_closed] logs the handles the manager has closed. *)
Record ResourceManager (RB : Type) := {
  rm_capacity : N;
  rm_backends : list (CapabilityId * RB);
  rm_channel : list IncomingEvent;
  rm_dropped : N;
  rm_resources : list (N * ManagedResource);
  rm_sinks : list Sink;
  rm_closed : list N;
}.
Arguments rm_capacity {RB}. Arguments rm_backends {RB}. Arguments rm_channel {RB}.
Arguments rm_dropped {RB}. Arguments rm_resources {RB}. Arguments rm_sinks {RB}.
Arguments rm_closed {RB}.

(** ** The sink *)

Definition take_rate_slot (k : Sink) (now : N) : Sink * bool :=
  let '(started, emitted) :=
    if (1000000 <=? sat_sub now (sk_started k))%N then (now, 0%N)
    else (sk_started k, sk_emitted k) in
  let next emitted := {| sk_resource_id := sk_resource_id k; sk_maximum := sk_maximum k;
    sk_finished := sk_finished k; sk_terminal := sk_terminal k;
    sk_started := started; sk_emitted := emitted |} in
  if (sk_maximum k <=? emitted)%N then (next emitted, false) else (next (emitted + 1)%N, true).

Definition sink_terminal (r : BrokerResult) (k : Sink) : Sink :=
  {| sk_resource_id := sk_resource_id k; sk_maximum := sk_maximum k; sk_finished := true;
     sk_terminal := Some r; sk_started := sk_started k; sk_emitted := sk_emitted k |}.

Definition sink_finished (k : Sink) : Sink :=
  {| sk_resource_id := sk_resource_id k; sk_maximum := sk_maximum k; sk_finished := true;
     sk_terminal := sk_terminal k; sk_started := sk_started k; sk_emitted := sk_emitted k |}.

Definition oversized (payload : list N) : bool :=
  (MAX_RESOURCE_EVENT_BYTES <? len payload)%N || (MAX_INLINE_PAYLOAD_BYTES <? len payload)%N.

Section Manager.
Context {Identity RB : Type} `{!ResourceBackend Identity RB}.

Definition with_sinks (m : ResourceManager RB) (sinks : list Sink) : ResourceManager RB :=
  {| rm_capacity := rm_capacity m; rm_backends := rm_backends m; rm_channel := rm_channel m;
     rm_dropped := rm_dropped m; rm_resources := rm_resources m; rm_sinks := sinks;
     rm_closed := rm_closed m |}.

Definition with_channel (m : ResourceManager RB) (channel : list IncomingEvent) (dropped : N) : ResourceManager RB :=
  {| rm_capacity := rm_capacity m; rm_backends := rm_backends m; rm_channel := channel;
     rm_dropped := dropped; rm_resources := rm_resources m; rm_sinks := rm_sinks m;
     rm_closed := rm_closed m |}.

Definition with_resources (m : ResourceManager RB) (resources : list (N * ManagedResource)) : ResourceManager RB :=
  {| rm_capacity := rm_capacity m; rm_backends := rm_backends m; rm_channel := rm_channel m;
     rm_dropped := rm_dropped m; rm_resources := resources; rm_sinks := rm_sinks m;
     rm_closed := rm_closed m |}.

Definition with_closed (m : ResourceManager RB) (id : N) : ResourceManager RB :=
  {| rm_capacity := rm_capacity m; rm_backends := rm_backends m; rm_channel := rm_channel m;
     rm_dropped := rm_dropped m; rm_resources := rm_resources m; rm_sinks := rm_sinks m;
     rm_closed := rm_closed m ++ [id] |}.

Definition record_drop (m : ResourceManager RB) : ResourceManager RB :=
  with_channel m (rm_channel m) (wrap_add64 (rm_dropped m) 1).

(** [SyncSender::try_send] on the bounded channel; the receiver lives as long
    as the manager, so it is never disconnected. *)
Definition channel_send (m : ResourceManager RB) (e : IncomingEvent) : option (ResourceManager RB) :=
  if (len (rm_channel m) <? rm_capacity m)%N
  then Some (with_channel m (rm_channel m ++ [e]) (rm_dropped m)) else None.

Definition try_send (m : ResourceManager RB) (k : Sink) (r : BrokerResult)
  : ResourceManager RB * result BrokerErrorCode () :=
  match channel_send m {| ie_resource_id := sk_resource_id k; ie_result := r |} with
  | Some m' => (m', Ok ())
  | None => (record_drop m, Err EQuotaExceeded)
  end.

Definition set_terminal (m : ResourceManager RB) (i : nat) (r : BrokerResult)
  : ResourceManager RB * result BrokerErrorCode () :=
  match rm_sinks m !! i with
  | None => (m, Err EInternal)
  | Some k =>
      if sk_finished k then (m, Err EUnavailable)
      else (with_sinks m (<[i := sink_terminal r k]> (rm_sinks m)), Ok ())
  end.

Definition sink_finish (m : ResourceManager RB) (i : nat) (error : BrokerErrorCode) : ResourceManager RB :=
  (set_terminal m i (BrokerError error)).1.

Definition complete (m : ResourceManager RB) (i : nat) (payload : list N)
  : ResourceManager RB * result BrokerErrorCode () :=
  if oversized payload then (sink_finish m i EQuotaExceeded, Err EQuotaExceeded)
  else set_terminal m i (Success payload).

(** A sink operation on the cell [i]; every sink names a cell of the store. *)
Definition emit (m : ResourceManager RB) (i : nat) (payload : list N) (now : N)
  : ResourceManager RB * result BrokerErrorCode () :=
  match rm_sinks m !! i with
  | None => (m, Err EInternal)
  | Some k =>
      if sk_finished k then (m, Err EUnavailable)
      else if oversized payload then (sink_finish m i EQuotaExceeded, Err EQuotaExceeded)
      else let '(k', slot) := take_rate_slot k now in
        let m1 := with_sinks m (<[i := k']> (rm_sinks m)) in
        if negb slot then (record_drop m1, Err ERateLimited)
        else match try_send m1 k' (Success payload) with
             | (m2, Ok _) => (m2, Ok ())
             | (m2, Err error) => (sink_finish m2 i error, Err error)
             end
  end.

(** [emit_buffered] up to its loop, and one round of the loop: [None] parks
    the producer and tries again. *)
Definition emit_buffered_start (m : ResourceManager RB) (i : nat) (payload : list N) (now : N)
  : ResourceManager RB * result BrokerErrorCode () :=
  match rm_sinks m !! i with
  | None => (m, Err EInternal)
  | Some k =>
      if oversized payload then (sink_finish m i EQuotaExceeded, Err EQuotaExceeded)
      else let '(k', slot) := take_rate_slot k now in
        let m1 := with_sinks m (<[i := k']> (rm_sinks m)) in
        if negb slot then (sink_finish m1 i ERateLimited, Err ERateLimited) else (m1, Ok ())
  end.

Definition emit_buffered_round (m : ResourceManager RB) (i : nat) (payload : list N)
  : ResourceManager RB * option (result BrokerErrorCode ()) :=
  match rm_sinks m !! i with
  | None => (m, Some (Err EInternal))
  | Some k =>
      if sk_finished k then (m, Some (Err EUnavailable))
      else match channel_send m {| ie_resource_id := sk_resource_id k;
                                   ie_result := Success payload |} with
           | Some m' => (m', Some (Ok ()))
           | None => (m, None)
           end
  end.

(** ** The manager *)

Definition manager_new (maximum_queued_events : N) : result string (ResourceManager RB) :=
  if (maximum_queued_events =? 0)%N then Err "resource event capacity must be nonzero"
  else Ok {| rm_capacity := maximum_queued_events; rm_backends := []; rm_channel := [];
             rm_dropped := 0; rm_resources := []; rm_sinks := []; rm_closed := [] |}.

Definition manager_register (m : ResourceManager RB) (c : CapabilityId) (b : RB) : ResourceManager RB :=
  {| rm_capacity := rm_capacity m; rm_backends := bt_insert c b (rm_backends m);
     rm_channel := rm_channel m; rm_dropped := rm_dropped m; rm_resources := rm_resources m;
     rm_sinks := rm_sinks m; rm_closed := rm_closed m |}.

Definition manager_limits (m : ResourceManager RB) (request : BackendRequest Identity)
  : option ResourceLimits :=
  b ← bt_get (bk_capability request) (rm_backends m); rb_limits b request.

(** The sink built for a resource opened at [now]. *)
Definition new_sink (resource_id : N) (limits : ResourceLimits) (now : N) : Sink :=
  {| sk_resource_id := resource_id; sk_maximum := maximum_events_per_second limits;
     sk_finished := false; sk_terminal := None; sk_started := now; sk_emitted := 0 |}.

Definition manager_open (m : ResourceManager RB) (resource_id : N) (request : BackendRequest Identity)
  (limits : ResourceLimits) (ledger : Activation.ActivationLedger) (now : N)
  (opened : result BrokerErrorCode (list N))
  : ResourceManager RB * Activation.ActivationLedger * result BrokerErrorCode (list N) :=
  if (resource_id =? 0)%N || (maximum_events_per_second limits =? 0)%N
     || bt_contains resource_id (rm_resources m)
  then (m, ledger, Err EInvalidRequest)
  else match bt_get (bk_capability request) (rm_backends m) with
  | None => (m, ledger, Err EUnavailable)
  | Some b =>
      if bool_decide (rb_limits b request <> Some limits) then (m, ledger, Err EInvalidRequest)
      else match rb_authorize b request ledger now with
      | (ledger', Err error) => (m, ledger', Err error)
      | (ledger', Ok _) =>
          let i := length (rm_sinks m) in
          let m1 := with_sinks m (rm_sinks m ++ [new_sink resource_id limits now]) in
          match opened with
          | Err error => (m1, ledger', Err error)
          | Ok payload =>
              if (MAX_INLINE_PAYLOAD_BYTES <? len payload)%N
              then (with_closed m1 resource_id, ledger', Err EQuotaExceeded)
              else (with_resources m1 (bt_insert resource_id
                      {| mr_sink := i; mr_next_sequence := 1 |} (rm_resources m1)),
                    ledger', Ok payload)
          end
      end
  end.

Definition manager_close (m : ResourceManager RB) (resource_id : N) : ResourceManager RB * bool :=
  match bt_get resource_id (rm_resources m) with
  | None => (m, false)
  | Some r =>
      let m1 := with_resources m (bt_remove resource_id (rm_resources m)) in
      (with_closed (with_sinks m1 (alter sink_finished (mr_sink r) (rm_sinks m1))) resource_id, true)
  end.

Definition close_many (m : ResourceManager RB) (ids : list N) : ResourceManager RB :=
  fold_left (fun m id => (manager_close m id).1) ids m.

(** An event for the host: resource, sequence number, result. *)
Definition Edge : Type := N * N * BrokerResult.
Definition push_edges (q : Queue.HostEventQueue) (l : list Edge) (generation : N)
  : Queue.HostEventQueue :=
  fold_left (fun q '(id, sequence, r) => Queue.push_resource q id sequence r generation) l q.

(** [revoke]: the denial of each open resource, then its closing. *)
Fixpoint manager_revoke (m : ResourceManager RB) (ids : list N) : ResourceManager RB * list Edge :=
  match ids with
  | [] => (m, [])
  | id :: ids' =>
      let edges := match bt_get id (rm_resources m) with
                   | Some r => [(id, mr_next_sequence r, BrokerError EDenied)]
                   | None => []
                   end in
      let '(m', rest) := manager_revoke (manager_close m id).1 ids' in
      (m', edges ++ rest)
  end.

Definition next_sequence (r : ManagedResource) : ManagedResource :=
  {| mr_sink := mr_sink r; mr_next_sequence := sat_add64 (mr_next_sequence r) 1 |}.

(** Numbering one event of an open resource. *)
Definition deliver (m : ResourceManager RB) (id : N) (r : BrokerResult) : ResourceManager RB * list Edge :=
  match bt_get id (rm_resources m) with
  | None => (m, [])
  | Some resource =>
      (with_resources m (bt_update id next_sequence (rm_resources m)),
       [(id, mr_next_sequence resource, r)])
  end.

(** [pump], first loop: one successful [try_recv]. *)
Definition pump_receive (m : ResourceManager RB) : option (ResourceManager RB * list Edge) :=
  match rm_channel m with
  | [] => None
  | e :: rest => Some (deliver (with_channel m rest (rm_dropped m)) (ie_resource_id e) (ie_result e))
  end.

Definition is_finished (m : ResourceManager RB) (id : N) : bool :=
  match bt_get id (rm_resources m) with
  | Some r => match rm_sinks m !! mr_sink r with Some k => sk_finished k | None => false end
  | None => false
  end.

(** [pump], second loop: the terminal event of each finished resource. *)
Definition terminal_of (m : ResourceManager RB) (id : N) : BrokerResult :=
  default (BrokerError EInternal)
    (r ← bt_get id (rm_resources m); k ← rm_sinks m !! mr_sink r; sk_terminal k).

Definition take_terminal (k : Sink) : Sink :=
  {| sk_resource_id := sk_resource_id k; sk_maximum := sk_maximum k; sk_finished := sk_finished k;
     sk_terminal := None; sk_started := sk_started k; sk_emitted := sk_emitted k |}.

Definition pump_terminal (m : ResourceManager RB) (id : N) : ResourceManager RB * list Edge :=
  match bt_get id (rm_resources m) with
  | None => (m, [])
  | Some r =>
      deliver (with_sinks m (alter take_terminal (mr_sink r) (rm_sinks m))) id (terminal_of m id)
  end.

Fixpoint pump_terminals (m : ResourceManager RB) (ids : list N) : ResourceManager RB * list Edge :=
  match ids with
  | [] => (m, [])
  | id :: ids' =>
      let '(m1, edges) := pump_terminal m id in
      let '(m2, rest) := pump_terminals m1 ids' in (m2, edges ++ rest)
  end.

(** The tail of [pump] once the finished resources are collected: terminals,
    the drop counter, closing. *)
Definition pump_finish (m : ResourceManager RB) (ids : list N) : ResourceManager RB * list Edge * N :=
  let '(m1, edges) := pump_terminals m ids in
  (close_many (with_channel m1 (rm_channel m1) 0) ids, edges, rm_dropped m1).

(** The first loop over a channel to which nobody adds. *)
Fixpoint pump_drain (fuel : nat) (m : ResourceManager RB) : ResourceManager RB * list Edge :=
  match fuel with
  | O => (m, [])
  | S fuel' =>
      match pump_receive m with
      | None => (m, [])
      | Some (m1, edges) => let '(m2, rest) := pump_drain fuel' m1 in (m2, edges ++ rest)
      end
  end.

(** [pump] when no producer acts during it. *)
Definition pump (m : ResourceManager RB) (q : Queue.HostEventQueue) (generation : N)
  : ResourceManager RB * Queue.HostEventQueue * list N :=
  let '(m1, received) := pump_drain (length (rm_channel m)) m in
  let q1 := push_edges q received generation in
  let finished := List.filter (is_finished m1) (bt_keys (rm_resources m1)) in
  let '(m2, terminals, dropped) := pump_finish m1 finished in
  let q2 := push_edges q1 terminals generation in
  let q3 := if (0 <? dropped)%N then Queue.record_dropped q2 dropped generation else q2 in
  (m2, q3, finished).

(** ** Interleavings

    Backend threads may act between any two actions of the manager.  Their
    atomic actions are taking a rate slot, a channel send, counting a drop and
    setting the terminal result, in any order: every sink operation above is a
    sequence of them.  The manager pumps in three phases: receive until the
    channel was seen empty, collect the finished resources, finish them. *)
Inductive phase := Idle | Draining | Collecting.

Inductive rlabel :=
| Tau
| Opened (resource_id : N) (ok : bool)
| Sent (resource_id : N) (r : BrokerResult)
| Edges (l : list Edge).

Inductive producer : ResourceManager RB -> rlabel -> ResourceManager RB -> Prop :=
| producer_rate m i k now : rm_sinks m !! i = Some k ->
    producer m Tau (with_sinks m (<[i := (take_rate_slot k now).1]> (rm_sinks m)))
| producer_send m i k r m' : rm_sinks m !! i = Some k ->
    channel_send m {| ie_resource_id := sk_resource_id k; ie_result := r |} = Some m' ->
    producer m (Sent (sk_resource_id k) r) m'
| producer_drop m : producer m Tau (record_drop m)
| producer_terminal m i r : producer m Tau (set_terminal m i r).1.

Inductive rstep : ResourceManager RB * phase -> rlabel -> ResourceManager RB * phase -> Prop :=
| rstep_producer m p l m' : producer m l m' -> rstep (m, p) l (m', p)
| rstep_register m c b : rstep (m, Idle) Tau (manager_register m c b, Idle)
| rstep_open m id request limits ledger now opened m' ledger' r :
    manager_open m id request limits ledger now opened = (m', ledger', r) ->
    rstep (m, Idle) (Opened id (is_ok r)) (m', Idle)
| rstep_close m id : rstep (m, Idle) Tau ((manager_close m id).1, Idle)
| rstep_revoke m ids m' edges : manager_revoke m ids = (m', edges) ->
    rstep (m, Idle) (Edges edges) (m', Idle)
| rstep_pump m : rstep (m, Idle) Tau (m, Draining)
| rstep_receive m m' edges : pump_receive m = Some (m', edges) ->
    rstep (m, Draining) (Edges edges) (m', Draining)
| rstep_drained m : rm_channel m = [] -> rstep (m, Draining) Tau (m, Collecting)
| rstep_finish m ids m' edges dropped :
    NoDup ids -> Forall (fun id => is_finished m id = true) ids ->
    pump_finish m ids = (m', edges, dropped) ->
    rstep (m, Collecting) (Edges edges) (m', Idle).

Inductive rruns (s0 : ResourceManager RB * phase) : list rlabel -> ResourceManager RB * phase -> Prop :=
| rruns_nil : rruns s0 [] s0
| rruns_snoc ls s l s' : rruns s0 ls s -> rstep s l s' -> rruns s0 (ls ++ [l]) s'.
End Manager.

Section Traces.
Definition attempts (ls : list rlabel) : list N :=
  omap (fun l => match l with Opened id _ => Some id | _ => None end) ls.
Definition opened_ok (ls : list rlabel) : list N :=
  omap (fun l => match l with Opened id true => Some id | _ => None end) ls.
Definition sent (x : N) (ls : list rlabel) : list BrokerResult :=
  omap (fun l => match l with Sent id r => if decide (id = x) then Some r else None | _ => None end) ls.
Definition edges_of (x : N) (l : list Edge) : list (N * BrokerResult) :=
  omap (fun '(id, sequence, r) => if decide (id = x) then Some (sequence, r) else None) l.
Definition out (x : N) (ls : list rlabel) : list (N * BrokerResult) :=
  mjoin ((fun l => match l with Edges e => edges_of x e | _ => [] end) <$> ls).
Definition queued (x : N) (ch : list IncomingEvent) : list BrokerResult :=
  omap (fun e => if decide (ie_resource_id e = x) then Some (ie_result e) else None) ch.

Fixpoint numbered (n : N) (l : list BrokerResult) : list (N * BrokerResult) :=
  match l with
  | [] => []
  | r :: l' => (n, r) :: numbered (n + 1)%N l'
  end.

Lemma numbered_snoc n l r : numbered n (l ++ [r]) = numbered n l ++ [((n + len l)%N, r)].
Proof.
  revert n; induction l as [|a l IH]; intros n; simpl.
  - by rewrite len_nil, N.add_0_r.
  - rewrite IH, len_cons. by rewrite N.add_assoc.
Qed.

Lemma attempts_app ls ks : attempts (ls ++ ks) = attempts ls ++ attempts ks.
Proof. apply omap_app. Qed.
Lemma opened_ok_app ls ks : opened_ok (ls ++ ks) = opened_ok ls ++ opened_ok ks.
Proof. apply omap_app. Qed.
Lemma sent_app x ls ks : sent x (ls ++ ks) = sent x ls ++ sent x ks.
Proof. apply omap_app. Qed.
Lemma edges_of_app x l k : edges_of x (l ++ k) = edges_of x l ++ edges_of x k.
Proof. apply omap_app. Qed.
Lemma queued_app x l k : queued x (l ++ k) = queued x l ++ queued x k.
Proof. apply omap_app. Qed.
Lemma out_app x ls ks : out x (ls ++ ks) = out x ls ++ out x ks.
Proof. unfold out. by rewrite fmap_app, join_app. Qed.
End Traces.

Section ManagerFacts.
Context {Identity RB : Type} `{!ResourceBackend Identity RB}.
Implicit Types (m : ResourceManager RB) (x id : N).

(** What the events of one resource depend on. *)
Definition entry m x : option ManagedResource := bt_get x (rm_resources m).
Definition sink_ids m : list N := sk_resource_id <$> rm_sinks m.

Lemma deliver_spec m id r m' edges x : deliver m id r = (m', edges) ->
  entry m' x = (if decide (x = id) then next_sequence <$> entry m x else entry m x) /\
  rm_channel m' = rm_channel m /\ rm_sinks m' = rm_sinks m /\ rm_closed m' = rm_closed m /\
  bt_keys (rm_resources m') = bt_keys (rm_resources m) /\
  edges_of x edges = (if decide (x = id) then
    match entry m x with Some e => [(mr_next_sequence e, r)] | None => [] end else []).
Proof.
  unfold deliver, entry. destruct (bt_get id (rm_resources m)) as [e|] eqn:He; intros [= <- <-].
  - simpl. rewrite bt_get_update, bt_keys_update. split; [|repeat split].
    + destruct (decide (x = id)) as [->|Hne].
      * by rewrite cmp_refl.
      * apply cmp_ne in Hne. by destruct (cmp x id).
    + repeat case_decide; subst; rewrite ?He; done.
  - repeat split; destruct (decide (x = id)) as [->|]; rewrite ?He; done.
Qed.

Lemma fmap_alter_same {A B} (f : A -> B) (g : A -> A) (l : list A) i :
  (forall a, f (g a) = f a) -> f <$> alter g i l = f <$> l.
Proof.
  intros Hg. revert i; induction l as [|a l IH]; intros [|i]; csimpl; [done..| |].
  - by rewrite Hg.
  - by rewrite IH.
Qed.

Lemma close_spec m id x :
  let m' := (manager_close m id).1 in
  entry m' x = (if decide (x = id) then None else entry m x) /\
  rm_channel m' = rm_channel m /\ sink_ids m' = sink_ids m.
Proof.
  unfold manager_close, entry, sink_ids.
  destruct (bt_get id (rm_resources m)) as [e|] eqn:He; simpl.
  - split; [|split; [done|by apply fmap_alter_same]].
    destruct (decide (x = id)) as [->|]; [apply bt_get_remove_eq|by apply bt_get_remove_ne].
  - split; [|done]. destruct (decide (x = id)) as [->|]; done.
Qed.

Lemma close_many_spec ids m x :
  let m' := close_many m ids in
  entry m' x = (if decide (x ∈ ids) then None else entry m x) /\
  rm_channel m' = rm_channel m /\ sink_ids m' = sink_ids m.
Proof.
  unfold close_many. revert m. induction ids as [|id ids IH]; intros m; simpl.
  - done.
  - destruct (close_spec m id x) as (He & Hc & Hs), (IH (manager_close m id).1) as (He' & -> & ->).
    split; [|done]. rewrite He', He.
    repeat case_decide; set_solver.
Qed.

(** The last event of a resource that is about to close. *)
Definition closing (ids : list N) (f : N -> BrokerResult) m x : list (N * BrokerResult) :=
  if decide (x ∈ ids) then
    match entry m x with Some e => [(mr_next_sequence e, f x)] | None => [] end
  else [].

Lemma revoke_events m ids m' edges x : manager_revoke m ids = (m', edges) ->
  entry m' x = (if decide (x ∈ ids) then None else entry m x) /\
  rm_channel m' = rm_channel m /\ sink_ids m' = sink_ids m /\
  edges_of x edges = closing ids (fun _ => BrokerError EDenied) m x.
Proof.
  unfold closing. revert m m' edges. induction ids as [|id ids IH]; simpl; intros m m' edges.
  - by intros [= <- <-].
  - destruct (manager_revoke _ ids) as [m2 rest] eqn:Hr. intros [= <- <-].
    apply IH in Hr as (He & Hc & Hs & Hout). destruct (close_spec m id x) as (He1 & Hc1 & Hs1).
    rewrite He, He1, Hc, Hs, edges_of_app, Hout, He1.
    split; [repeat case_decide; set_solver|]. split; [done|]. split; [done|].
    fold (entry m id). destruct (decide (x = id)) as [->|Hne].
    + rewrite (decide_True (P := id ∈ id :: ids)) by set_solver.
      destruct (entry m id); simpl; rewrite ?decide_True by done; by case_decide.
    + destruct (entry m id); simpl; rewrite ?(decide_False (P := id = x)) by done;
        repeat case_decide; set_solver.
Qed.

Lemma terminals_spec ids m m' edges : NoDup ids -> pump_terminals m ids = (m', edges) ->
  exists f, forall x,
  entry m' x = (if decide (x ∈ ids) then next_sequence <$> entry m x else entry m x) /\
  rm_channel m' = rm_channel m /\ sink_ids m' = sink_ids m /\
  edges_of x edges = closing ids f m x.
Proof.
  unfold closing. intros Hnd. revert m m' edges. induction Hnd as [|id ids Hid Hnd IH]; simpl; intros m m' edges.
  - intros [= <- <-]. by exists (fun _ => BrokerError EInternal).
  - destruct (pump_terminal m id) as [m1 e1] eqn:H1, (pump_terminals m1 ids) as [m2 e2] eqn:H2.
    intros [= <- <-]. apply IH in H2 as (f & H2).
    exists (fun x => if decide (x = id) then terminal_of m id else f x). intros x.
    destruct (H2 x) as (He & Hc & Hs & Hout). clear H2 IH.
    assert (entry m1 x = (if decide (x = id) then next_sequence <$> entry m x else entry m x) /\
      rm_channel m1 = rm_channel m /\ sink_ids m1 = sink_ids m /\
      edges_of x e1 = (if decide (x = id) then
        match entry m x with Some e => [(mr_next_sequence e, terminal_of m id)] | None => [] end
        else [])) as (He1 & Hc1 & Hs1 & Hout1).
    { unfold pump_terminal in H1. destruct (bt_get id (rm_resources m)) as [r|] eqn:Hr.
      - apply (deliver_spec _ _ _ _ _ x) in H1 as (He1 & Hc1 & Hs1 & _ & _ & Hout1).
        rewrite He1, Hc1, Hout1. unfold sink_ids. rewrite Hs1. simpl.
        repeat split; try done. by apply fmap_alter_same.
      - injection H1 as <- <-. unfold entry. repeat case_decide; subst; rewrite ?Hr; done. }
    rewrite He, He1, Hc, Hs, edges_of_app, Hout, Hout1, He1. 
    split; [repeat case_decide; set_solver|]. split; [done|]. split; [done|].
    destruct (decide (x = id)) as [->|Hne].
    + rewrite (decide_True (P := id ∈ id :: ids)) by set_solver.
      rewrite (decide_False (P := id ∈ ids)) by done. by rewrite app_nil_r.
    + repeat case_decide; set_solver.
Qed.

Lemma finish_spec ids m m' edges dropped : NoDup ids -> pump_finish m ids = (m', edges, dropped) ->
  exists f, forall x,
  entry m' x = (if decide (x ∈ ids) then None else entry m x) /\
  rm_channel m' = rm_channel m /\ sink_ids m' = sink_ids m /\
  edges_of x edges = closing ids f m x.
Proof.
  unfold pump_finish. destruct (pump_terminals m ids) as [m1 e1] eqn:H1. intros Hnd [= <- <- <-].
  apply terminals_spec in H1 as (f & H1); [|done]. exists f. intros x.
  destruct (H1 x) as (He & Hc & Hs & Hout).
  destruct (close_many_spec ids (with_channel m1 (rm_channel m1) 0) x) as (He2 & Hc2 & Hs2).
  rewrite He2, Hc2, Hs2. unfold entry, sink_ids in *. simpl.
  rewrite He, Hc, Hs, Hout. repeat case_decide; done.
Qed.

Lemma open_spec m id request limits ledger now opened m' ledger' r x :
  manager_open m id request limits ledger now opened = (m', ledger', r) ->
  rm_channel m' = rm_channel m /\
  (x <> id -> entry m' x = entry m x /\ (x ∈ sink_ids m' -> x ∈ sink_ids m)) /\
  (entry m' id = entry m id /\ is_ok r = false \/
   entry m id = None /\ is_ok r = true /\
     exists e, entry m' id = Some e /\ mr_next_sequence e = 1%N).
Proof.
  unfold manager_open, entry, sink_ids.
  destruct (_ || _) eqn:Hg; [intros [= <- <- <-]; auto|].
  destruct (bt_get (bk_capability request) _) as [b|]; [|intros [= <- <- <-]; auto].
  destruct (bool_decide _); [intros [= <- <- <-]; auto|].
  destruct (rb_authorize b request ledger now) as [l [u|error]]; [|intros [= <- <- <-]; auto].
  apply orb_false_iff in Hg as [_ Hg]. rewrite bt_contains_false in Hg.
  assert (forall k, sk_resource_id k = id ->
    x <> id -> x ∈ (sk_resource_id <$> (rm_sinks m ++ [k])) -> x ∈ (sk_resource_id <$> rm_sinks m)) as Hk.
  { intros k Hid Hne. rewrite fmap_app. csimpl. rewrite Hid. set_solver. }
  destruct opened as [payload|error]; [destruct (_ <? _)%N|]; intros [= <- <- <-]; simpl;
    (split; [done|split; [intros Hne; split; [|by apply Hk]|]]); try (by auto).
  - by apply bt_get_insert_ne.
  - right. rewrite bt_get_insert_eq. eauto.
Qed.

Lemma producer_spec m l m' x : producer m l m' ->
  entry m' x = entry m x /\ sink_ids m' = sink_ids m /\
  (l = Tau /\ rm_channel m' = rm_channel m \/
   exists id r, l = Sent id r /\ id ∈ sink_ids m /\
     rm_channel m' = rm_channel m ++ [{| ie_resource_id := id; ie_result := r |}]).
Proof.
  assert (forall i (k k' : Sink) (l : list Sink), l !! i = Some k ->
    sk_resource_id k' = sk_resource_id k ->
    sk_resource_id <$> <[i := k']> l = sk_resource_id <$> l) as Hset.
  { intros i k k' ks Hk Hid. rewrite list_fmap_insert, Hid. apply list_insert_id.
    by rewrite list_lookup_fmap, Hk. }
  unfold entry, sink_ids. inversion 1 as [? i k now Hk|? i k r ? Hk Hs| |? i r]; subst; simpl.
  - split; [done|]. split; [|by left]. apply (Hset _ k); [done|]. unfold take_rate_slot.
    destruct (1000000 <=? _)%N; simpl; by case_match.
  - unfold channel_send in Hs. case_match; [|done]. injection Hs as <-. simpl. split; [done|].
    split; [done|]. right. eexists _, _. split; [done|]. split; [|done].
    apply list_elem_of_fmap. exists k. split; [done|]. by eapply list_elem_of_lookup_2.
  - auto.
  - unfold set_terminal. destruct (rm_sinks m !! i) as [k|] eqn:Hk; [|by auto].
    destruct (sk_finished k); simpl; [by auto|]. split; [done|]. split; [|by auto].
    by apply (Hset _ k).
Qed.

(** The stream invariant of one resource. *)
Definition stream m x ls : Prop :=
  (x ∉ attempts ls -> (x ∉ sink_ids m) /\ entry m x = None /\ sent x ls = [] /\ out x ls = [] /\
    queued x (rm_channel m) = []) /\
  match entry m x with
  | Some e => exists D, out x ls = numbered 1 D /\ mr_next_sequence e = (1 + len D)%N /\
      D ++ queued x (rm_channel m) = sent x ls
  | None => exists D F, out x ls = numbered 1 (D ++ F) /\ (D `prefix_of` sent x ls) /\ length F <= 1
  end.

Lemma stream_frame m m' x ls l :
  entry m' x = entry m x -> (x ∈ sink_ids m' -> x ∈ sink_ids m) ->
  queued x (rm_channel m') = queued x (rm_channel m) ->
  sent x [l] = [] -> out x [l] = [] ->
  stream m x ls -> stream m' x (ls ++ [l]).
Proof.
  unfold stream. intros -> Hs -> Hsent Hout [H1 H2].
  rewrite attempts_app, sent_app, out_app, Hsent, Hout, !app_nil_r. split; [|done].
  intros Hx. destruct H1 as (? & ? & ? & ? & ?); set_solver.
Qed.

(** Closing some resources, each with one last event. *)
Lemma stream_close m m' x ls ids f edges :
  entry m' x = (if decide (x ∈ ids) then None else entry m x) -> sink_ids m' = sink_ids m ->
  rm_channel m' = rm_channel m -> edges_of x edges = closing ids f m x ->
  stream m x ls -> stream m' x (ls ++ [Edges edges]).
Proof.
  intros He Hs Hc Hout Hst.
  assert (Hout' : out x [Edges edges] = closing ids f m x) by (unfold out; csimpl; by rewrite app_nil_r).
  unfold closing in Hout'. destruct (decide (x ∈ ids)) as [Hin|];
    [|by apply (stream_frame m); rewrite ?Hs, ?Hc].
  destruct (entry m x) as [e|] eqn:Hm; [|apply (stream_frame m); [congruence|by rewrite Hs|by rewrite Hc|done..]].
  destruct Hst as [H1 H2]. rewrite Hm in H2. destruct H2 as (D & Ho & Hn & Hd).
  unfold stream. rewrite He, Hs, Hc, attempts_app, sent_app, out_app, Hout', Ho.
  split.
  - intros Hx. destruct H1 as (_ & H0 & _); [set_solver|congruence].
  - exists D, [f x]. rewrite numbered_snoc, Hn. split; [done|]. split; [|simpl; lia].
    rewrite <- Hd, <- app_assoc. by apply prefix_app_r.
Qed.

Lemma stream_producer m l m' x ls : producer m l m' -> stream m x ls -> stream m' x (ls ++ [l]).
Proof.
  intros Hp Hst. apply (producer_spec _ _ _ x) in Hp as (He & Hs & [[-> Hc]|(id & r & -> & Hin & Hc)]).
  { apply (stream_frame m); rewrite ?Hs, ?Hc; done. }
  assert (Hq : queued x [{| ie_resource_id := id; ie_result := r |}] = sent x [Sent id r]).
  { unfold queued, sent. csimpl. by case_decide. }
  destruct (decide (id = x)) as [->|Hne].
  2:{ assert (Hz : sent x [Sent id r] = []) by (unfold sent; csimpl; by rewrite decide_False by done).
      apply (stream_frame m); rewrite ?Hs, ?Hc, ?queued_app, ?Hq, ?Hz, ?app_nil_r; done. }
  destruct Hst as [H1 H2]. unfold stream.
  rewrite He, Hs, Hc, attempts_app, sent_app, out_app, queued_app, Hq.
  change (out x [Sent x r]) with (@nil (N * BrokerResult)). rewrite !app_nil_r.
  split; [intros Hx; destruct H1 as [? _]; [set_solver|done]|].
  destruct (entry m x).
  - destruct H2 as (D & Ho & Hn & Hd). exists D. split; [done|]. split; [done|]. by rewrite app_assoc, Hd.
  - destruct H2 as (D & F & Ho & Hd & HF). exists D, F. split; [done|]. split; [|done].
    by apply prefix_app_r.
Qed.

Lemma stream_open m id request limits ledger now opened m' ledger' r x ls :
  manager_open m id request limits ledger now opened = (m', ledger', r) ->
  id ∉ attempts ls -> stream m x ls -> stream m' x (ls ++ [Opened id (is_ok r)]).
Proof.
  intros Ho Hid Hst. apply (open_spec _ _ _ _ _ _ _ _ _ _ x) in Ho as (Hc & Hx & Hnew).
  destruct (decide (x = id)) as [->|Hne].
  2:{ destruct (Hx Hne). apply (stream_frame m); rewrite ?Hc; done. }
  destruct Hst as [H1 _]. destruct (H1 Hid) as (_ & He & Hsent & Hout & Hq). unfold stream.
  rewrite Hc, attempts_app, sent_app, out_app, Hsent, Hout, Hq. unfold attempts at 2. csimpl.
  split; [intros Hx'; exfalso; set_solver|]. destruct Hnew as [[Hsame _]|(_ & _ & e & He' & Hn)].
  - rewrite Hsame, He. exists [], []. split; [done|]. split; [apply prefix_nil|simpl; lia].
  - rewrite He'. exists []. split; [done|]. split; [|done]. by rewrite Hn.
Qed.

Lemma stream_receive m m' edges x ls :
  pump_receive m = Some (m', edges) -> (len (sent x ls) < u64_max)%N ->
  stream m x ls -> stream m' x (ls ++ [Edges edges]).
Proof.
  unfold pump_receive. destruct (rm_channel m) as [|e rest] eqn:Hch; [done|]. intros [= Hd] Hlen Hst.
  apply (deliver_spec _ _ _ _ _ x) in Hd as (He & Hc & Hs & _ & _ & Hedges).
  assert (Hout : out x [Edges edges] = edges_of x edges) by (unfold out; csimpl; by rewrite app_nil_r).
  rewrite Hedges in Hout.
  change (entry (with_channel m rest (rm_dropped m)) x) with (entry m x) in He, Hout. simpl in Hc, Hs.
  assert (Hsk : sink_ids m' = sink_ids m) by (unfold sink_ids; by rewrite Hs).
  destruct (decide (x = ie_resource_id e)) as [Heq|Hne].
  2:{ apply (stream_frame m); rewrite ?Hsk, ?Hc, ?Hch; try done.
      unfold queued. csimpl. by rewrite decide_False by congruence. }
  assert (Hq : queued x (rm_channel m) = ie_result e :: queued x (rm_channel m')).
  { rewrite Hc, Hch. unfold queued. csimpl. by rewrite decide_True by done. }
  destruct Hst as [H1 H2]. unfold stream. rewrite He, Hsk, attempts_app, sent_app, out_app, Hout.
  split. { intros Hx. destruct H1 as (_ & _ & _ & _ & H0); [set_solver|congruence]. }
  destruct (entry m x) as [old|]; csimpl.
  - destruct H2 as (D & Ho & Hn & HD). exists (D ++ [ie_result e]). rewrite Hq in HD.
    rewrite numbered_snoc, Ho, Hn, app_nil_r. split; [done|]. split; [|by rewrite <- app_assoc].
    rewrite <- HD, len_app, len_cons in Hlen. rewrite len_app, len_cons, len_nil. unfold sat_add64. lia.
  - rewrite !app_nil_r. done.
Qed.

Lemma stream_step m p l m' p' x ls :
  rstep (m, p) l (m', p') -> NoDup (attempts (ls ++ [l])) -> (len (sent x (ls ++ [l])) < u64_max)%N ->
  stream m x ls -> stream m' x (ls ++ [l]).
Proof.
  intros Hstep Hnd Hlen Hst. inversion Hstep; subst.
  - by eapply stream_producer.
  - by apply (stream_frame m).
  - eapply stream_open; [done| |done]. rewrite attempts_app in Hnd. unfold attempts at 2 in Hnd.
    csimpl in Hnd. apply NoDup_app in Hnd as (_ & Hnd & _). set_solver.
  - destruct (close_spec m id x) as (He & Hc & Hs). destruct (decide (x = id)) as [->|].
    2:{ apply (stream_frame m); rewrite ?Hs, ?Hc; done. }
    destruct Hst as [H1 H2]. unfold stream.
    rewrite He, Hs, Hc, attempts_app, sent_app, out_app.
    change (out id [Tau]) with (@nil (N * BrokerResult)). change (sent id [Tau]) with (@nil BrokerResult).
    change (attempts [Tau]) with (@nil N). rewrite !app_nil_r. split; [naive_solver|].
    destruct (entry m id).
    + destruct H2 as (D & Ho & _ & HD). exists D, []. rewrite app_nil_r. split; [done|].
      rewrite <- HD. split; [by apply prefix_app_r|simpl; lia].
    + done.
  - match goal with H : manager_revoke _ _ = _ |- _ => apply (revoke_events _ _ _ _ x) in H as (? & ? & ? & ?) end.
    by eapply stream_close.
  - by apply (stream_frame m').
  - rewrite sent_app, app_nil_r in Hlen. by eapply stream_receive.
  - by apply (stream_frame m').
  - match goal with H : pump_finish _ _ = _ |- _ => apply finish_spec in H as (f & Hf); [|done] end.
    destruct (Hf x) as (? & ? & ? & ?). by eapply stream_close.
Qed.

(** The handles: [A] are the ids an open was attempted for, [O] those that
    were opened. *)
Record handles (A O : list N) m : Prop := {
  handles_nodup : NoDup (rm_closed m);
  handles_closed : forall x, x ∈ rm_closed m -> entry m x = None /\ x ∈ A;
  handles_live : forall x, is_Some (entry m x) -> x ∈ A;
  handles_kept : forall x, x ∈ O -> is_Some (entry m x) \/ x ∈ rm_closed m;
}.

Lemma handles_frame A O m m' : rm_closed m' = rm_closed m ->
  (forall x, is_Some (entry m' x) <-> is_Some (entry m x)) -> handles A O m -> handles A O m'.
Proof.
  intros Hc He []. split; rewrite ?Hc; [done| | |].
  - intros x Hx. destruct (handles_closed0 x Hx) as [Hn ?]. split; [|done].
    apply eq_None_not_Some. rewrite He. by apply eq_None_not_Some.
  - intros x. rewrite He. auto.
  - intros x. rewrite He. auto.
Qed.

Lemma handles_close A O m id : handles A O m -> handles A O (manager_close m id).1.
Proof.
  intros H. assert (Hx := fun x => proj1 (close_spec m id x)). revert Hx. unfold manager_close.
  destruct (bt_get id (rm_resources m)) as [e|] eqn:He; [|done]. simpl. intros Hx. destruct H.
  assert (id ∉ rm_closed m) by (intros [Hn _]%handles_closed0; unfold entry in Hn; congruence).
  split; simpl.
  - apply NoDup_app. split; [done|]. split; [set_solver|apply NoDup_singleton].
  - intros x. rewrite elem_of_app, list_elem_of_singleton, Hx. intros [Hin| ->].
    + destruct (handles_closed0 x Hin) as [-> ?]. by case_decide.
    + split; [by rewrite decide_True|]. apply handles_live0. unfold entry. by rewrite He.
  - intros x. rewrite Hx. case_decide; [by intros [? ?]|apply handles_live0].
  - intros x Hin. rewrite Hx, elem_of_app, list_elem_of_singleton.
    destruct (decide (x = id)); [auto|]. destruct (handles_kept0 x Hin); auto.
Qed.

Lemma handles_close_many A O ids m : handles A O m -> handles A O (close_many m ids).
Proof.
  unfold close_many. revert m. induction ids as [|id ids IH]; intros m H; [done|].
  simpl. by apply IH, handles_close.
Qed.

Lemma handles_revoke A O ids m : handles A O m -> handles A O (manager_revoke m ids).1.
Proof.
  revert m. induction ids as [|id ids IH]; intros m H; [done|]. simpl.
  destruct (manager_revoke _ ids) as [m2 rest] eqn:Hr. simpl.
  change m2 with (m2, rest).1. rewrite <- Hr. by apply IH, handles_close.
Qed.

Lemma handles_deliver A O m id r : handles A O m -> handles A O (deliver m id r).1.
Proof.
  destruct (deliver m id r) as [m' edges] eqn:Hd. apply handles_frame.
  - by apply (deliver_spec _ _ _ _ _ id) in Hd as (_ & _ & _ & ? & _).
  - intros x. destruct (deliver_spec _ _ _ _ _ x Hd) as (He & _). simpl. rewrite He.
    case_decide; [|done]. by rewrite fmap_is_Some.
Qed.

Lemma handles_terminals A O ids m : handles A O m -> handles A O (pump_terminals m ids).1.
Proof.
  revert m. induction ids as [|id ids IH]; intros m H; [done|]. simpl.
  destruct (pump_terminal m id) as [m1 e1] eqn:H1, (pump_terminals m1 ids) as [m2 e2] eqn:H2.
  simpl. change m2 with (m2, e2).1. rewrite <- H2. apply IH.
  change m1 with (m1, e1).1. rewrite <- H1. unfold pump_terminal.
  destruct (bt_get id (rm_resources m)); [|done]. apply handles_deliver. by apply (handles_frame _ _ m).
Qed.

Lemma handles_open A O m id request limits ledger now opened m' ledger' r :
  manager_open m id request limits ledger now opened = (m', ledger', r) -> id ∉ A ->
  handles A O m -> handles (A ++ [id]) (O ++ if is_ok r then [id] else []) m'.
Proof.
  intros Ho Hid H. assert (Hx := fun x => open_spec _ _ _ _ _ _ _ _ _ _ x Ho). destruct H.
  assert (Hn : entry m id = None) by (apply eq_None_not_Some; auto).
  assert (Hc : rm_closed m' = rm_closed m \/ rm_closed m' = rm_closed m ++ [id] /\ is_ok r = false).
  { revert Ho. unfold manager_open. repeat case_match; intros [= <- <- <-]; simpl; auto. }
  assert (He : forall x, is_Some (entry m' x) <-> is_Some (entry m x) \/ x = id /\ is_ok r = true).
  { intros x. destruct (Hx x) as (_ & Hne & Hid'). destruct (decide (x = id)) as [->|Hd].
    - destruct Hid' as [[-> ->]|(-> & -> & e & -> & _)]; [naive_solver|]. split; eauto.
    - destruct (Hne Hd) as [-> _]. naive_solver. }
  assert (Hni : id ∉ rm_closed m) by (intros [_ ?]%handles_closed0; done).
  split.
  - destruct Hc as [->|[-> _]]; [done|]. apply NoDup_app. split; [done|]. split; [set_solver|apply NoDup_singleton].
  - intros x Hin. assert (x ∈ rm_closed m \/ x = id /\ is_ok r = false) as [Hx'|[-> Hr]].
    { destruct Hc as [Hc|[Hc ?]]; rewrite Hc in Hin; set_solver. }
    + destruct (handles_closed0 x Hx') as [Hnone ?]. split; [|set_solver].
      apply eq_None_not_Some. rewrite He, Hnone. intros [[? ?]|[-> _]]; [done|set_solver].
    + split; [|set_solver]. apply eq_None_not_Some. rewrite He, Hn, Hr. intros [[? ?]|[_ ?]]; done.
  - intros x. rewrite He. intros [?|[-> _]]; set_solver.
  - intros x Hin. rewrite He.
    assert (x ∈ O \/ x = id /\ is_ok r = true) as [Hin'|?] by (destruct (is_ok r); set_solver); [|auto].
    destruct (handles_kept0 x Hin') as [?|Hin2]; [auto|]. right. destruct Hc as [->|[-> _]]; set_solver.
Qed.

Lemma handles_step m p l m' p' ls :
  rstep (m, p) l (m', p') -> NoDup (attempts (ls ++ [l])) ->
  handles (attempts ls) (opened_ok ls) m -> handles (attempts (ls ++ [l])) (opened_ok (ls ++ [l])) m'.
Proof.
  intros Hstep Hnd H. rewrite attempts_app, opened_ok_app in *.
  assert (Hquiet : forall k, attempts [k] = [] -> opened_ok [k] = [] ->
    handles (attempts ls) (opened_ok ls) m' ->
    handles (attempts ls ++ attempts [k]) (opened_ok ls ++ opened_ok [k]) m').
  { intros k -> ->. by rewrite !app_nil_r. }
  inversion Hstep as [? ? ? ? Hp| | ? ? ? ? ? ? ? ? ? ? Ho | | ? ? ? ? Hr| |? ? ? Hr| |? ? ? ? ? _ _ Hf]; subst;
    try (apply Hquiet; [done..|]).
  - assert (l = Tau \/ exists id r, l = Sent id r) as Hl.
    { destruct (producer_spec _ _ _ 0%N Hp) as (_ & _ & [[-> _]|(? & ? & -> & _)]); eauto. }
    apply Hquiet; [by destruct Hl as [->|(? & ? & ->)]..|]. revert H. apply handles_frame.
    + inversion Hp; subst; try done.
      * unfold channel_send in *. case_match; [|done]. by simplify_eq.
      * unfold set_terminal. by repeat case_match.
    + intros x. by destruct (producer_spec _ _ _ x Hp) as (-> & _).
  - by apply (handles_frame _ _ m).
  - assert (attempts [Opened id (is_ok r)] = [id] /\
      opened_ok [Opened id (is_ok r)] = if is_ok r then [id] else []) as [Ha Hok].
    { unfold opened_ok. csimpl. by destruct (is_ok r). }
    rewrite Ha, Hok in *. eapply handles_open; [done| |done].
    apply NoDup_app in Hnd as (_ & Hnd & _). set_solver.
  - by apply handles_close.
  - change m' with (m', edges).1. rewrite <- Hr. by apply handles_revoke.
  - done.
  - unfold pump_receive in Hr. destruct (rm_channel m) as [|e rest]; [done|]. injection Hr as Hr.
    change m' with (m', edges).1. rewrite <- Hr. apply handles_deliver. by apply (handles_frame _ _ m).
  - done.
  - unfold pump_finish in Hf. destruct (pump_terminals m ids) as [m1 e1] eqn:Ht. injection Hf as <- <- <-.
    apply handles_close_many. apply (handles_frame _ _ m1); [done..|].
    change m1 with (m1, e1).1. rewrite <- Ht. by apply handles_terminals.
Qed.

Lemma rruns_inv cap m0 ls m p : manager_new cap = Ok m0 -> rruns (m0, Idle) ls (m, p) ->
  NoDup (attempts ls) -> (forall x, len (sent x ls) < u64_max)%N ->
  (forall x, stream m x ls) /\ handles (attempts ls) (opened_ok ls) m.
Proof.
  intros Hnew Hrun. remember (m, p) as s eqn:Hs. revert m p Hs.
  induction Hrun as [|ls [m1 p1] l [m2 p2] Hrun IH Hstep]; intros m p [= <- <-] Hnd Hlen.
  - unfold manager_new in Hnew. case_match; [done|]. injection Hnew as <-. split.
    + intros x. split; [done|]. exists [], []. split; [done|]. split; [by apply prefix_nil|simpl; lia].
    + split; simpl; try (intros x Hx; set_solver); [constructor|].
      intros x [? Hx]. done.
  - assert (NoDup (attempts ls)) by (rewrite attempts_app in Hnd; by apply NoDup_app in Hnd as [? _]).
    assert (forall x, (len (sent x ls) < u64_max)%N).
    { intros x. specialize (Hlen x). rewrite sent_app, len_app in Hlen. lia. }
    destruct (IH m1 p1) as [Hst Hh]; [done..|]. split.
    + intros x. by eapply stream_step.
    + by eapply handles_step.
Qed.

(** Every sink operation is a run of producer actions. *)
Definition produces : ResourceManager RB -> ResourceManager RB -> Prop :=
  rtc (fun a b => exists l, producer a l b).

#[local] Instance produces_trans : Transitive produces.
Proof. unfold produces. intros a b c. by apply rtc_trans. Qed.

Lemma produces_step m l m' : producer m l m' -> produces m m'.
Proof. intros. apply rtc_once. eauto. Qed.

Lemma produces_finish m m' i e : produces m m' -> produces m (sink_finish m' i e).
Proof. intros H. etrans; [exact H|]. eapply produces_step, producer_terminal. Qed.

Lemma produces_rate m i k now : rm_sinks m !! i = Some k ->
  produces m (with_sinks m (<[i := (take_rate_slot k now).1]> (rm_sinks m))).
Proof. intros. by eapply produces_step, producer_rate. Qed.

Lemma sink_operations_produce m i payload now :
  produces m (emit m i payload now).1 /\ produces m (complete m i payload).1 /\
  produces m (emit_buffered_start m i payload now).1 /\ produces m (emit_buffered_round m i payload).1.
Proof.
  assert (Hfin : forall e, produces m (sink_finish m i e)) by (intros; apply produces_finish, rtc_refl).
  split; [|split; [|split]].
  - unfold emit. destruct (rm_sinks m !! i) as [k|] eqn:Hk; [|apply rtc_refl].
    destruct (sk_finished k); [apply rtc_refl|]. destruct (oversized payload); [apply Hfin|].
    pose proof (produces_rate m i k now Hk) as Hr.
    destruct (take_rate_slot k now) as [k' slot]. simpl in Hr. set (m1 := with_sinks _ _) in *.
    assert (Hdrop : produces m (record_drop m1)).
    { etrans; [exact Hr|]. eapply produces_step, producer_drop. }
    destruct slot; simpl; [|exact Hdrop]. unfold try_send.
    destruct (channel_send m1 _) as [m2|] eqn:Hs; simpl; [|by apply produces_finish].
    etrans; [exact Hr|]. eapply produces_step, producer_send; [|exact Hs].
    apply list_lookup_insert_eq. by eapply lookup_lt_Some.
  - unfold complete. destruct (oversized payload); [apply Hfin|]. eapply produces_step, producer_terminal.
  - unfold emit_buffered_start. destruct (rm_sinks m !! i) as [k|] eqn:Hk; [|apply rtc_refl].
    destruct (oversized payload); [apply Hfin|]. pose proof (produces_rate m i k now Hk) as Hr.
    destruct (take_rate_slot k now) as [k' slot]. simpl in Hr.
    destruct slot; simpl; [exact Hr|]. by apply produces_finish.
  - unfold emit_buffered_round. destruct (rm_sinks m !! i) as [k|] eqn:Hk; [|apply rtc_refl].
    destruct (sk_finished k); [apply rtc_refl|].
    destruct (channel_send m _) as [m2|] eqn:Hs; [|apply rtc_refl].
    by eapply produces_step, producer_send.
Qed.
End ManagerFacts.

(** ** Theorems *)

(** C7: Resource events reach the host in order and end once.  Whatever the
    backend threads do between the manager's actions, when no resource id is
    opened twice: the events handed to the host for a resource are numbered
    consecutively from one; they are a prefix of what the resource's sinks put
    in the channel, followed by at most one closing event, after which there
    is none; and while the resource is open nothing it sent is missing, it is
    delivered or still in the channel. *)
Theorem resource_stream_order {Identity RB} `{!ResourceBackend Identity RB} (capacity : N)
  (m0 m : ResourceManager RB) (p : phase) (ls : list rlabel) (x : N)
  (Hnew : manager_new capacity = Ok m0) (Hrun : rruns (m0, Idle) ls (m, p))
  (Hfresh : NoDup (attempts ls)) (Hcount : forall x, (len (sent x ls) < u64_max)%N) :
  exists delivered closing,
    out x ls = numbered 1 (delivered ++ closing) /\
    (delivered `prefix_of` sent x ls) /\ length closing <= 1 /\
    (x ∈ bt_keys (rm_resources m) -> closing = [] /\
      delivered ++ queued x (rm_channel m) = sent x ls).
Proof.
  destruct (rruns_inv _ _ _ _ _ Hnew Hrun Hfresh Hcount) as [Hst _].
  destruct (Hst x) as [_ Hx]. unfold entry in Hx.
  destruct (bt_get x (rm_resources m)) as [e|] eqn:He.
  - destruct Hx as (D & Ho & _ & HD). exists D, []. rewrite app_nil_r. split; [done|].
    split; [rewrite <- HD; by apply prefix_app_r|]. split; [simpl; lia|done].
  - destruct Hx as (D & F & Ho & Hp & Hl). exists D, F. split; [done|]. split; [done|]. split; [done|].
    intros Hin%bt_contains_spec. by apply bt_contains_false in He; congruence.
Qed.

(** No resource handle leaks: along every such run each handle the manager
    accepted is still managed or was closed, none is closed twice, and a closed
    resource is no longer managed. *)
Theorem resource_handles_closed_once {Identity RB} `{!ResourceBackend Identity RB} (capacity : N)
  (m0 m : ResourceManager RB) (p : phase) (ls : list rlabel)
  (Hnew : manager_new capacity = Ok m0) (Hrun : rruns (m0, Idle) ls (m, p))
  (Hfresh : NoDup (attempts ls)) (Hcount : forall x, (len (sent x ls) < u64_max)%N) :
  NoDup (rm_closed m) /\
  (forall x, x ∈ rm_closed m -> (x ∉ bt_keys (rm_resources m)) /\ x ∈ attempts ls) /\
  (forall x, x ∈ opened_ok ls -> x ∈ bt_keys (rm_resources m) \/ x ∈ rm_closed m).
Proof.
  destruct (rruns_inv _ _ _ _ _ Hnew Hrun Hfresh Hcount) as [_ []]. unfold entry in *. split; [done|].
  split; intros x Hx.
  - destruct (handles_closed0 x Hx) as [Hn ?]. split; [|done]. by apply bt_get_None.
  - destruct (handles_kept0 x Hx) as [[e He]|]; [left|by right].
    apply bt_contains_spec. unfold bt_contains. by rewrite He.
Qed.

(** The calls of [take_rate_slot] at the given times, and how many succeed. *)
Fixpoint slots_taken (k : Sink) (times : list N) : N :=
  match times with
  | [] => 0
  | now :: times' =>
      let '(k', slot) := take_rate_slot k now in
      ((if slot then 1 else 0) + slots_taken k' times')%N
  end.

Lemma take_rate_slot_max k now : sk_maximum (take_rate_slot k now).1 = sk_maximum k.
Proof. unfold take_rate_slot. by repeat case_match. Qed.

Lemma slots_taken_budget k times last :
  (sk_emitted k <= sk_maximum k)%N -> (forall t, t ∈ times -> t <= last)%N ->
  (slots_taken k times <=
   (sk_maximum k - sk_emitted k) + sk_maximum k * ((last - sk_started k) / 1000000))%N.
Proof.
  revert k. induction times as [|now times IH]; intros k He Ht; [apply N.le_0_l|].
  assert (now <= last)%N by set_solver.
  assert (Ht' : forall t, t ∈ times -> (t <= last)%N) by set_solver.
  cbn [slots_taken]. destruct (take_rate_slot k now) as [k' slot] eqn:Hk. unfold take_rate_slot, sat_sub in Hk.
  destruct (N.leb_spec 1000000 (now - sk_started k)) as [Hold|Hcur].
  - assert ((last - now) / 1000000 + 1 <= (last - sk_started k) / 1000000)%N as Hdiv.
    { rewrite <- (N.div_add (last - now) 1 1000000) by done. apply N.Div0.div_le_mono. lia. }
    assert (sk_maximum k * ((last - now) / 1000000) + sk_maximum k
      <= sk_maximum k * ((last - sk_started k) / 1000000))%N by nia.
    destruct (N.leb_spec (sk_maximum k) 0); injection Hk as <- <-;
      (etrans; [apply N.add_le_mono_l, IH; [simpl; lia|done]|]);
      cbn [sk_maximum sk_emitted sk_started]; lia.
  - destruct (N.leb_spec (sk_maximum k) (sk_emitted k)); injection Hk as <- <-;
      (etrans; [apply N.add_le_mono_l, IH; [simpl; lia|done]|]);
      cbn [sk_maximum sk_emitted sk_started]; lia.
Qed.

(** The event rate is bounded: whatever the sink did before, between two times
    at most the configured number of events per started second, plus those of
    two partial windows, get a slot. *)
Theorem rate_limit_bound (k : Sink) (times : list N) (first last : N)
  (Hk : (sk_emitted k <= sk_maximum k)%N)
  (Htimes : forall t, t ∈ times -> (first <= t <= last)%N) :
  (slots_taken k times <= sk_maximum k * ((last - first) / 1000000 + 2))%N.
Proof.
  destruct times as [|now times]; [apply N.le_0_l|].
  assert (Hnow : (first <= now <= last)%N) by (apply Htimes; set_solver).
  destruct (N.leb_spec 1000000 (now - sk_started k)) as [Hold|Hcur].
  - cbn [slots_taken]. destruct (take_rate_slot k now) as [k' slot] eqn:Hk'.
    assert (Hb : (sk_emitted k' <= sk_maximum k')%N /\ sk_started k' = now /\ sk_maximum k' = sk_maximum k /\
      ((if slot then 1 else 0) + (sk_maximum k' - sk_emitted k') <= sk_maximum k)%N).
    { unfold take_rate_slot, sat_sub in Hk'. destruct (N.leb_spec 1000000 (now - sk_started k)); [|lia].
      destruct (N.leb_spec (sk_maximum k) 0); injection Hk' as <- <-; simpl; lia. }
    destruct Hb as (He & Hs & Hm & Hsum).
    pose proof (slots_taken_budget k' times last He) as Hbud.
    rewrite Hs, Hm in Hbud. etrans; [apply N.add_le_mono_l, Hbud; set_solver|].
    assert ((last - now) / 1000000 <= (last - first) / 1000000)%N by (apply N.Div0.div_le_mono; lia). nia.
  - etrans; [apply (slots_taken_budget k (now :: times) last Hk); set_solver|].
    assert ((last - sk_started k) / 1000000 <= (last - first) / 1000000 + 1)%N.
    { rewrite <- (N.div_add (last - first) 1 1000000) by done. apply N.Div0.div_le_mono. lia. }
    nia.
Qed.

(** ** Concrete runs *)

#[export] Instance open_resource_backend : ResourceBackend () () :=
  {| rb_limits _ _ := Some {| reserved_buffered_bytes := 4096; maximum_events_per_second := 8 |};
     rb_authorize _ request ledger now := default_authorize request ledger now |}.

Definition sample_limits : ResourceLimits :=
  {| reserved_buffered_bytes := 4096; maximum_events_per_second := 8 |}.

Definition sample_manager : ResourceManager () :=
  {| rm_capacity := 4; rm_backends := [(UriOpenV1, ())]; rm_channel := []; rm_dropped := 0;
     rm_resources := []; rm_sinks := []; rm_closed := [] |}.

Definition empty_manager : ResourceManager () :=
  {| rm_capacity := 4; rm_backends := []; rm_channel := []; rm_dropped := 0;
     rm_resources := []; rm_sinks := []; rm_closed := [] |}.

(** The manager after opening resource 1 and starting to pump. *)
Definition sample_open : ResourceManager () :=
  (manager_open sample_manager 1 (sample_backend_request 1) sample_limits sample_ledger 0 (Ok [])).1.1.

(** What the producer of resource 1 does: one chunk, then completion. *)
Definition sample_chunk : ResourceManager () :=
  (emit_buffered_round (emit_buffered_start sample_open 0 [7%N] 5).1 0 [7%N]).1.
Definition sample_completed : ResourceManager () := (complete sample_chunk 0 [8%N]).1.

Lemma sample_run_open : rruns (empty_manager, Idle)
  [Tau; Opened 1 true; Tau] (sample_open, Draining).
Proof.
  apply (rruns_snoc _ [Tau; Opened 1 true] (sample_open, Idle)); [|apply rstep_pump].
  apply (rruns_snoc _ [Tau] (sample_manager, Idle)).
  - apply (rruns_snoc _ [] (empty_manager, Idle)); [apply rruns_nil|].
    apply (rstep_register empty_manager UriOpenV1 ()).
  - exact (rstep_open sample_manager 1 (sample_backend_request 1) sample_limits sample_ledger 0 (Ok [])
      sample_open sample_ledger (Ok []) eq_refl).
Qed.

Lemma sample_producer_run p : rruns (sample_open, p) [Tau; Sent 1 (Success [7%N]); Tau]
  (sample_completed, p).
Proof.
  eapply (rruns_snoc _ [Tau; Sent 1 (Success [7%N])] (sample_chunk, p)).
  - eapply (rruns_snoc _ [Tau]).
    + eapply (rruns_snoc _ []); [apply rruns_nil|]. apply rstep_producer.
      by apply (producer_rate sample_open 0 (new_sink 1 sample_limits 0) 5).
    + apply rstep_producer.
      by apply (producer_send _ 0 (take_rate_slot (new_sink 1 sample_limits 0) 5).1 (Success [7%N])).
  - apply rstep_producer. apply (producer_terminal sample_chunk 0 (Success [8%N])).
Qed.

Lemma rruns_app {Identity RB} `{!ResourceBackend Identity RB} (s s1 s2 : ResourceManager RB * phase)
  ls ks : rruns s ls s1 -> rruns s1 ks s2 -> rruns s (ls ++ ks) s2.
Proof.
  intros H1 H2. induction H2 as [|ks s2 l s3 H2 IH Hs]; [by rewrite app_nil_r|].
  rewrite app_assoc. by eapply rruns_snoc.
Qed.

(** C8: A completed stream can lose its last chunk.  [emit_buffered] promises
    lossless data, but a producer that sends its last chunk and completes
    between the moment [pump] saw the channel empty and the moment it collects
    the finished resources is told twice that all went well, and the host sees
    only the completion, as event one: the chunk stays behind in the channel,
    and the next pump discards it because the resource is closed. *)
Theorem lossless_stream_can_lose_data :
  exists (ls : list rlabel) (final : ResourceManager ()),
    rruns (Identity := ()) (empty_manager, Idle) ls (final, Idle) /\
    (emit_buffered_start sample_open 0 [7%N] 5).2 = Ok () /\
    (emit_buffered_round (emit_buffered_start sample_open 0 [7%N] 5).1 0 [7%N]).2 = Some (Ok ()) /\
    (complete sample_chunk 0 [8%N]).2 = Ok () /\
    sent 1 ls = [Success [7%N]] /\ out 1 ls = [(1%N, Success [8%N])] /\
    rm_channel final = [] /\ rm_resources final = [].
Proof.
  set (closed := (pump_finish sample_completed [1%N]).1.1).
  exists ([Tau; Opened 1 true; Tau] ++ ([Tau] ++ [Tau; Sent 1 (Success [7%N]); Tau]) ++
    ([Edges [(1%N, 1%N, Success [8%N])]; Tau; Edges []; Tau] ++ [Edges []])).
  exists (with_channel closed [] 0).
  split; [|repeat split; reflexivity].
  eapply rruns_app; [apply sample_run_open|]. eapply rruns_app; [eapply rruns_app|].
  - eapply (rruns_snoc _ []); [apply rruns_nil|]. by apply rstep_drained.
  - apply sample_producer_run.
  - set (drained := with_channel closed [] 0).
    apply (rruns_snoc _ [Edges [(1%N, 1%N, Success [8%N])]; Tau; Edges []; Tau] (drained, Collecting)).
    2:{ apply (rstep_finish drained [] drained [] 0%N); [apply NoDup_nil_2|apply Forall_nil_2|reflexivity]. }
    apply (rruns_snoc _ [Edges [(1%N, 1%N, Success [8%N])]; Tau; Edges []] (drained, Draining));
      [|by apply rstep_drained].
    apply (rruns_snoc _ [Edges [(1%N, 1%N, Success [8%N])]; Tau] (closed, Draining));
      [|by apply rstep_receive].
    apply (rruns_snoc _ [Edges [(1%N, 1%N, Success [8%N])]] (closed, Idle)); [|apply rstep_pump].
    apply (rruns_snoc _ [] (sample_completed, Collecting)); [apply rruns_nil|].
    apply (rstep_finish sample_completed [1%N] closed [(1%N, 1%N, Success [8%N])] 0%N);
      [apply NoDup_singleton|by apply Forall_singleton|reflexivity].
Qed.

Lemma sample_full_run : rruns (empty_manager, Idle)
  [Tau; Opened 1 true; Tau; Tau; Sent 1 (Success [7%N]); Tau] (sample_completed, Draining).
Proof.
  exact (rruns_app _ _ _ [Tau; Opened 1 true; Tau] _ sample_run_open (sample_producer_run Draining)).
Qed.

Lemma sample_counts (x : N) :
  (len (sent x [Tau; Opened 1 true; Tau; Tau; Sent 1 (Success [7%N]); Tau]) < u64_max)%N.
Proof. unfold sent. csimpl. by case_decide. Qed.

Lemma resource_stream_order_witness :
  exists delivered, out 1 [Tau; Opened 1 true; Tau; Tau; Sent 1 (Success [7%N]); Tau]
      = numbered 1 delivered /\
    delivered ++ queued 1 (rm_channel sample_completed) = [Success [7%N]].
Proof.
  destruct (resource_stream_order (Identity := ()) 4 empty_manager sample_completed Draining
    [Tau; Opened 1 true; Tau; Tau; Sent 1 (Success [7%N]); Tau] 1) as (D & F & Ho & _ & _ & Hopen).
  - reflexivity.
  - exact sample_full_run.
  - apply NoDup_singleton.
  - exact sample_counts.
  - destruct Hopen as [-> Hd]; [left|]. rewrite app_nil_r in Ho. exists D. split; [exact Ho|exact Hd].
Defined.

Lemma resource_handles_closed_once_witness :
  NoDup (rm_closed sample_completed) /\ 1%N ∈ bt_keys (rm_resources sample_completed).
Proof.
  destruct (resource_handles_closed_once (Identity := ()) 4 empty_manager sample_completed Draining
    [Tau; Opened 1 true; Tau; Tau; Sent 1 (Success [7%N]); Tau]) as (Hnd & _ & Hkept).
  - reflexivity.
  - exact sample_full_run.
  - apply NoDup_singleton.
  - exact sample_counts.
  - split; [exact Hnd|]. destruct (Hkept 1%N) as [Hin|Hin]; [left|exact Hin|inversion Hin].
Defined.

Lemma rate_limit_bound_witness :
  (slots_taken (new_sink 1 sample_limits 0) [1; 2; 3; 999999; 1500000] <= 24)%N.
Proof.
  refine (rate_limit_bound (new_sink 1 sample_limits 0) [1; 2; 3; 999999; 1500000]%N 1 1500000 _ _).
  - vm_compute. discriminate.
  - intros t Ht. apply list_elem_of_In in Ht. repeat (destruct Ht as [<-|Ht]; [split; vm_compute; discriminate|]).
    destruct Ht.
Defined.
