(* ===== verification/Runtime.v ===== *)
(** * Runtime: quotas, workers, resources and events composed

    Models [crates/touchbar-plugin-supervisor/src/runtime.rs]: one connection's
    executor, lifecycle accounting, event queue and resource manager, and the
    operations that keep them in step.  Operations are functions; between them
    worker threads and resource producers act, so a runtime's history is a
    transition system whose manager part is the one of Resources.v. *)

From S2P Require Import Prelude BTree Text Capability Grants Wire Protocol Lifecycle Events Executor Resources.
Import Lifecycle.Lifecycle.

Section Runtime.
Context {Identity B RB : Type} `{!Backend Identity B} `{!ResourceBackend Identity RB}.

Record Runtime := {
  rt_executor : @Executor Identity B;
  rt_lifecycle : LifecycleState;
  rt_events : Queue.HostEventQueue;
  rt_resources : ResourceManager RB;
}.

Definition runtime_new (executor_limits : ExecutorLimits) (lifecycle_limits : LifecycleLimits)
  (maximum_state_events maximum_edge_events : N) : result string Runtime :=
  executor ← executor_new executor_limits;
  resources ← manager_new maximum_edge_events;
  Ok {| rt_executor := executor; rt_lifecycle := new lifecycle_limits;
        rt_events := Queue.new maximum_state_events maximum_edge_events;
        rt_resources := resources |}.

Definition with_executor (t : Runtime) (e : Executor) : Runtime :=
  {| rt_executor := e; rt_lifecycle := rt_lifecycle t; rt_events := rt_events t;
     rt_resources := rt_resources t |}.
Definition with_lifecycle (t : Runtime) (l : LifecycleState) : Runtime :=
  {| rt_executor := rt_executor t; rt_lifecycle := l; rt_events := rt_events t;
     rt_resources := rt_resources t |}.
Definition with_events (t : Runtime) (q : Queue.HostEventQueue) : Runtime :=
  {| rt_executor := rt_executor t; rt_lifecycle := rt_lifecycle t; rt_events := q;
     rt_resources := rt_resources t |}.
Definition with_manager (t : Runtime) (m : ResourceManager RB) : Runtime :=
  {| rt_executor := rt_executor t; rt_lifecycle := rt_lifecycle t; rt_events := rt_events t;
     rt_resources := m |}.

Definition register_resource (t : Runtime) (c : CapabilityId) (b : RB) : Runtime :=
  with_manager t (manager_register (rt_resources t) c b).

Definition runtime_register (t : Runtime) (c : CapabilityId) (b : B) : Runtime :=
  with_executor t (register (rt_executor t) c b).

(** [submit]: charge the quota, hand the request to the executor, and give the
    quota back when the executor refuses. *)
Definition runtime_submit (t : Runtime) (request : BackendRequest Identity) (deadline : option N)
  (deadline_monotonic_micros : N) (ledger : Activation.ActivationLedger) (now : N)
  : Runtime * Activation.ActivationLedger * result BrokerErrorCode () :=
  match begin (rt_lifecycle t) (bk_request_id request) (bk_capability request)
          deadline_monotonic_micros with
  | (_, Err error) => (t, ledger, Err error)
  | (l, Ok _) =>
      match submit (rt_executor t) request deadline ledger now with
      | (e, ledger', Err error) =>
          (with_executor (with_lifecycle t (finish l (bk_request_id request)).1) e, ledger', Err error)
      | (e, ledger', Ok _) => (with_executor (with_lifecycle t l) e, ledger', Ok ())
      end
  end.

Definition runtime_cancel (t : Runtime) (request_id : N) : Runtime * bool :=
  let '(e, found) := executor_cancel (rt_executor t) request_id in (with_executor t e, found).

Definition open_resource (t : Runtime) (request : BackendRequest Identity)
  (ledger : Activation.ActivationLedger) (now : N) (opened : result BrokerErrorCode (list N))
  : Runtime * Activation.ActivationLedger * result BrokerErrorCode (N * list N) :=
  match manager_limits (rt_resources t) request with
  | None => (t, ledger, Err EUnavailable)
  | Some limits =>
      match allocate_resource (rt_lifecycle t) (bk_capability request)
              (reserved_buffered_bytes limits) with
      | (_, Err error) => (t, ledger, Err error)
      | (l, Ok resource_id) =>
          match manager_open (rt_resources t) resource_id request limits ledger now opened with
          | (m, ledger', Err error) =>
              (with_manager (with_lifecycle t (close_resource l resource_id).1) m, ledger', Err error)
          | (m, ledger', Ok payload) =>
              (with_manager (with_lifecycle t l) m, ledger', Ok (resource_id, payload))
          end
      end
  end.

Definition runtime_close (t : Runtime) (resource_id : N) : Runtime * bool :=
  let '(m, managed) := manager_close (rt_resources t) resource_id in
  let '(l, tracked) := close_resource (rt_lifecycle t) resource_id in
  (with_manager (with_lifecycle t l) m, managed && tracked).

(** The debug assertion of [close_resource]. *)
Definition close_asserts (t : Runtime) (resource_id : N) : bool :=
  Bool.eqb (manager_close (rt_resources t) resource_id).2
    (close_resource (rt_lifecycle t) resource_id).2.

Definition runtime_revoke (t : Runtime) (c : CapabilityId) (generation : N)
  : Runtime * RevocationEffect * list Edge :=
  let e := (executor_revoke (rt_executor t) c).1 in
  let '(l, effect) := revoke (rt_lifecycle t) c in
  let '(m, edges) := manager_revoke (rt_resources t) (closed_resources effect) in
  ({| rt_executor := e; rt_lifecycle := l; rt_events := push_edges (rt_events t) edges generation;
      rt_resources := m |}, effect, edges).

Definition runtime_revoke_all (t : Runtime) : Runtime * RevocationEffect :=
  let e := (cancel_all (rt_executor t)).1 in
  let '(l, effect) := revoke_all (rt_lifecycle t) in
  ({| rt_executor := e; rt_lifecycle := l; rt_events := rt_events t;
      rt_resources := close_many (rt_resources t) (closed_resources effect) |}, effect).

(** One round of the loop of [pump_completions]. *)
Definition pump_completion (t : Runtime) (generation : N) : option Runtime :=
  match try_completion (rt_executor t) with
  | (_, None) => None
  | (e, Some c) =>
      Some {| rt_executor := e; rt_lifecycle := (finish (rt_lifecycle t) (bc_request_id c)).1;
              rt_events := Queue.push_completion (rt_events t) (bc_request_id c) (bc_result c) generation;
              rt_resources := rt_resources t |}
  end.

(** [pump_completions] over the completions present when it starts; the
    wake-up signal is left out. *)
Fixpoint pump_completions_with (fuel : nat) (t : Runtime) (generation : N) : Runtime * N :=
  match fuel with
  | O => (t, 0%N)
  | S fuel' =>
      match pump_completion t generation with
      | None => (t, 0%N)
      | Some t1 => let '(t2, count) := pump_completions_with fuel' t1 generation in (t2, (count + 1)%N)
      end
  end.

Definition pump_completions (t : Runtime) (generation : N) : Runtime * N :=
  pump_completions_with (length (ex_completions (rt_executor t))) t generation.

Definition close_tracked (l : LifecycleState) (ids : list N) : LifecycleState :=
  fold_left (fun l id => (close_resource l id).1) ids l.

Definition pump_resource_events (t : Runtime) (generation : N) : Runtime * N :=
  let '(m, q, finished) := pump (rt_resources t) (rt_events t) generation in
  ({| rt_executor := rt_executor t; rt_lifecycle := close_tracked (rt_lifecycle t) finished;
      rt_events := q; rt_resources := m |}, len finished).

Definition pop_event (t : Runtime) : Runtime * option Queue.HostEvent :=
  let '(q, event) := Queue.pop (rt_events t) in (with_events t q, event).

(** ** Histories

    The supervisor's thread is the only one that runs the operations; it
    pumps resource events in the phases of the manager.  Worker threads and
    producers act at any time.  A step carries the labels of the manager steps
    it makes. *)
Definition worker_acts (e e' : @Executor Identity B) : Prop :=
  worker_take e = Some e' \/ exists i outcome now, worker_finish e i outcome now = Some e'.

Definition open_labels {A} (t : Runtime) (request : BackendRequest Identity)
  (r : result BrokerErrorCode A) : list rlabel :=
  match manager_limits (rt_resources t) request with
  | None => []
  | Some limits =>
      match allocate_resource (rt_lifecycle t) (bk_capability request)
              (reserved_buffered_bytes limits) with
      | (_, Ok id) => [Opened id (is_ok r)]
      | (_, Err _) => []
      end
  end.

Definition finish_events (q : Queue.HostEventQueue) (edges : list Edge) (dropped generation : N) :=
  let q' := push_edges q edges generation in
  if (0 <? dropped)%N then Queue.record_dropped q' dropped generation else q'.

Inductive rt_step : Runtime * phase -> list rlabel -> Runtime * phase -> Prop :=
| rts_worker t p e : worker_acts (rt_executor t) e -> rt_step (t, p) [] (with_executor t e, p)
| rts_producer t p l m : producer (rt_resources t) l m -> rt_step (t, p) [l] (with_manager t m, p)
| rts_register t c b : rt_step (t, Idle) [] (runtime_register t c b, Idle)
| rts_register_resource t c b : rt_step (t, Idle) [Tau] (register_resource t c b, Idle)
| rts_submit t request deadline micros ledger now t' ledger' r :
    runtime_submit t request deadline micros ledger now = (t', ledger', r) ->
    rt_step (t, Idle) [] (t', Idle)
| rts_cancel t id : rt_step (t, Idle) [] ((runtime_cancel t id).1, Idle)
| rts_open t request ledger now opened t' ledger' r :
    open_resource t request ledger now opened = (t', ledger', r) ->
    rt_step (t, Idle) (open_labels t request r) (t', Idle)
| rts_close t id t' b : runtime_close t id = (t', b) -> rt_step (t, Idle) [Tau] (t', Idle)
| rts_revoke t c generation t' effect edges :
    runtime_revoke t c generation = (t', effect, edges) -> rt_step (t, Idle) [Edges edges] (t', Idle)
| rts_revoke_all t t' effect : runtime_revoke_all t = (t', effect) ->
    rt_step (t, Idle) ((fun _ => Tau) <$> closed_resources effect) (t', Idle)
| rts_completion t generation t' : pump_completion t generation = Some t' ->
    rt_step (t, Idle) [] (t', Idle)
| rts_pump t : rt_step (t, Idle) [Tau] (t, Draining)
| rts_receive t generation m edges : pump_receive (rt_resources t) = Some (m, edges) ->
    rt_step (t, Draining) [Edges edges]
      (with_events (with_manager t m) (push_edges (rt_events t) edges generation), Draining)
| rts_drained t : rm_channel (rt_resources t) = [] -> rt_step (t, Draining) [Tau] (t, Collecting)
| rts_finish t generation ids m edges dropped :
    NoDup ids -> Forall (fun id => is_finished (rt_resources t) id = true) ids ->
    pump_finish (rt_resources t) ids = (m, edges, dropped) ->
    rt_step (t, Collecting) [Edges edges]
      ({| rt_executor := rt_executor t; rt_lifecycle := close_tracked (rt_lifecycle t) ids;
          rt_events := finish_events (rt_events t) edges dropped generation;
          rt_resources := m |}, Idle)
| rts_pop t : rt_step (t, Idle) [] ((pop_event t).1, Idle).

Inductive rt_runs (s0 : Runtime * phase) : list rlabel -> Runtime * phase -> Prop :=
| rt_runs_nil : rt_runs s0 [] s0
| rt_runs_snoc ls s l s' : rt_runs s0 ls s -> rt_step s l s' -> rt_runs s0 (ls ++ l) s'.
End Runtime.

(** ** Lemmas on the lifecycle maps *)

Section LifecycleFacts.
Implicit Types (l : LifecycleState) (id x : N).

Lemma close_entries l id x :
  bt_get x (resources (close_resource l id).1) =
    (if decide (x = id) then None else bt_get x (resources l)) /\
  (close_resource l id).2 = bt_contains id (resources l) /\
  pending (close_resource l id).1 = pending l.
Proof.
  unfold close_resource, bt_contains. destruct (bt_get id (resources l)) eqn:Hg; simpl.
  - split; [|done]. case_decide; subst; [apply bt_get_remove_eq|by apply bt_get_remove_ne].
  - split; [|done]. by case_decide; subst.
Qed.

Lemma close_tracked_entries ids l x :
  bt_get x (resources (close_tracked l ids)) =
    (if decide (x ∈ ids) then None else bt_get x (resources l)) /\
  pending (close_tracked l ids) = pending l.
Proof.
  unfold close_tracked. revert l. induction ids as [|id ids IH]; intros l; simpl; [done|].
  destruct (IH (close_resource l id).1) as [-> ->]. destruct (close_entries l id x) as (-> & _ & ->).
  split; [|done]. repeat case_decide; set_solver.
Qed.

Lemma allocate_entries l c b l' id : inv l -> allocate_resource l c b = (l', Ok id) ->
  id = next_resource_id l /\ next_resource_id l' = (id + 1)%N /\ bt_get id (resources l) = None /\
  pending l' = pending l /\ is_Some (bt_get id (resources l')) /\
  forall x, x <> id -> bt_get x (resources l') = bt_get x (resources l).
Proof.
  intros Hi. unfold allocate_resource. case_match; [done|].
  destruct (checked_add64 (next_resource_id l) 1) eqn:Hn; [|done].
  apply checked_add64_Some in Hn as [_ ->]. intros [= <- <-]. simpl.
  split; [done|]. split; [done|]. split; [|split; [done|split]].
  - apply eq_None_not_Some. intros [r Hr%bt_get_elem]. apply (inv_resources_key _ Hi) in Hr. lia.
  - rewrite bt_get_insert_eq. by eexists.
  - intros x Hx. by apply bt_get_insert_ne.
Qed.

Lemma allocate_error l c b l' e : allocate_resource l c b = (l', Err e) -> l' = l.
Proof. unfold allocate_resource. repeat case_match; congruence. Qed.

Lemma revoke_entries l c : inv l ->
  (forall x, is_Some (bt_get x (resources (revoke l c).1)) <->
    is_Some (bt_get x (resources l)) /\ x ∉ closed_resources (revoke l c).2) /\
  (forall x o, bt_get x (pending (revoke l c).1) = Some o <->
    bt_get x (pending l) = Some o /\ po_capability o <> c).
Proof.
  intros Hi. destruct (revoke_ids l c Hi) as [_ Hc], (revoke_maps l c Hi) as [Hp Hr].
  pose proof (inv_revoke l c Hi) as Hi'. destruct Hi, Hi'. split; intros x.
  - rewrite Hc. split.
    + intros [r Hx%bt_get_elem]. apply Hr in Hx as [Hx Hne].
      split; [exists r; by apply bt_get_iff|]. intros (r' & Hx' & Heq).
      apply bt_get_iff in Hx, Hx'; [congruence|done..].
    + intros [[r Hx%bt_get_elem] Hn]. exists r. apply bt_get_iff; [done|]. apply Hr.
      split; [done|]. intros Hc'. apply Hn. eauto.
  - intros o. rewrite !bt_get_iff by done. apply Hp.
Qed.
End LifecycleFacts.

Section RuntimeFacts.
Context {Identity B RB : Type} `{!Backend Identity B} `{!ResourceBackend Identity RB}.
Implicit Types (t : @Runtime Identity B RB).

Record rt_inv (t : @Runtime Identity B RB) : Prop := {
  rti_lifecycle : inv (rt_lifecycle t);
  rti_executor : executor_inv (rt_executor t);
  rti_agree : forall id, is_Some (bt_get id (resources (rt_lifecycle t))) <->
    is_Some (entry (rt_resources t) id);
  rti_charged : forall id o, bt_get id (pending (rt_lifecycle t)) = Some o ->
    exists a, bt_get id (ex_active (rt_executor t)) = Some a /\ ao_capability a = po_capability o;
}.

(** Steps that touch one part only. *)
Lemma rt_inv_manager t m : rt_inv t ->
  (forall id, is_Some (entry m id) <-> is_Some (entry (rt_resources t) id)) ->
  rt_inv (with_manager t m).
Proof. intros [] Hm. split; simpl; [done..| |done]. intros id. by rewrite Hm. Qed.

Lemma rt_inv_executor t e : rt_inv t -> executor_inv e ->
  (forall id a, bt_get id (ex_active (rt_executor t)) = Some a ->
    exists a', bt_get id (ex_active e) = Some a' /\ ao_capability a' = ao_capability a) ->
  rt_inv (with_executor t e).
Proof.
  intros [] He Ha. split; simpl; [done..|]. intros id o Ho.
  destruct (rti_charged0 _ _ Ho) as (a & Hg & Hc). destruct (Ha _ _ Hg) as (a' & ? & ?).
  exists a'. split; [done|congruence].
Qed.

Lemma rt_inv_submit t request deadline micros ledger now t' ledger' r :
  rt_inv t -> runtime_submit t request deadline micros ledger now = (t', ledger', r) -> rt_inv t'.
Proof.
  intros Ht. unfold runtime_submit.
  pose proof (inv_begin (rt_lifecycle t) (bk_request_id request) (bk_capability request) micros
    (rti_lifecycle t Ht)) as Hl.
  destruct (begin _ _ _ _) as [l [u|e]] eqn:Hb; [|by intros [= <- <- <-]]. simpl in Hl.
  assert (Hres : resources l = resources (rt_lifecycle t) /\
    forall id o, bt_get id (pending l) = Some o -> id = bk_request_id request /\
      po_capability o = bk_capability request \/ bt_get id (pending (rt_lifecycle t)) = Some o).
  { revert Hb. unfold begin. repeat case_match; try done. intros [= <- <-]. split; [done|]. simpl.
    intros id o. destruct (decide (id = bk_request_id request)) as [->|Hne].
    - rewrite bt_get_insert_eq. intros [= <-]. by left.
    - rewrite bt_get_insert_ne by done. by right. }
  destruct Hres as [Hres Hpend], Ht.
  destruct (submit _ _ _ _ _) as [[e l'] [v|code]] eqn:Hs; intros [= <- <- <-].
  - destruct v. pose proof (inv_submit _ _ _ _ _ _ _ rti_executor0 Hs) as [He _].
    apply submit_Ok in Hs as (b & d & _ & Hc & _ & _ & _ & _ & _ & ->).
    split; simpl; [done..| |].
    + intros id. by rewrite Hres.
    + intros id o Ho. destruct (decide (id = bk_request_id request)) as [->|Hne].
      * rewrite bt_get_insert_eq. eexists. split; [done|]. simpl.
        apply Hpend in Ho as [[_ ?]|Ho]; [done|]. apply rti_charged0 in Ho as (a & Ha & _).
        apply bt_contains_false in Hc. congruence.
      * rewrite bt_get_insert_ne by done. apply Hpend in Ho as [[? _]|Ho]; [done|]. by apply rti_charged0.
  - apply submit_Err in Hs as ->. split; simpl; [by apply inv_remove_pending|done| |].
    + intros id. by rewrite Hres.
    + intros id o Ho. destruct (decide (id = bk_request_id request)) as [->|Hne].
      * by rewrite bt_get_remove_eq in Ho.
      * rewrite bt_get_remove_ne in Ho by done. apply Hpend in Ho as [[? _]|Ho]; [done|]. by apply rti_charged0.
Qed.

Lemma rt_inv_open t request ledger now opened t' ledger' r :
  rt_inv t -> open_resource t request ledger now opened = (t', ledger', r) -> rt_inv t'.
Proof.
  intros Ht. unfold open_resource. destruct (manager_limits _ _) as [limits|]; [|by intros [= <- <- <-]].
  pose proof (inv_allocate (rt_lifecycle t) (bk_capability request) (reserved_buffered_bytes limits)
    (rti_lifecycle t Ht)) as Hl.
  destruct (allocate_resource _ _ _) as [l [id|e]] eqn:Ha; [|by intros [= <- <- <-]]. simpl in Hl.
  apply allocate_entries in Ha as (_ & _ & Hnone & Hpend & Hsome & Hother); [|by destruct Ht].
  destruct Ht. assert (Hid : entry (rt_resources t) id = None).
  { apply eq_None_not_Some. rewrite <- rti_agree0, Hnone. by intros [? ?]. }
  destruct (manager_open _ _ _ _ _ _ _) as [[m l'] res] eqn:Ho.
  assert (Hopen := fun x => open_spec _ _ _ _ _ _ _ _ _ _ x Ho).
  assert (Hm : forall x, x <> id -> entry m x = entry (rt_resources t) x).
  { intros x Hx. destruct (Hopen x) as (_ & Hne & _). by destruct (Hne Hx). }
  destruct (Hopen id) as (_ & _ & Hnew).
  destruct res as [payload|code]; intros [= <- <- <-].
  - destruct Hnew as [[_ ?]|(_ & _ & e & He & _)]; [done|].
    split; simpl; [done..| |]; [|by rewrite Hpend]. intros x. destruct (decide (x = id)) as [->|Hx].
    + rewrite He. split; [by eexists|done].
    + by rewrite Hother, Hm.
  - destruct Hnew as [[Hsame _]|(_ & ? & _)]; [|done].
    destruct (close_entries l id id) as (_ & _ & Hp). split; simpl; [by apply inv_close|done| |].
    + intros x. destruct (close_entries l id x) as (-> & _ & _).
      destruct (decide (x = id)) as [->|Hx]; [by rewrite Hsame, Hid|by rewrite Hother, Hm].
    + rewrite Hp, Hpend. done.
Qed.

(** Closing the same resources on both sides. *)
Lemma rt_inv_closed t (e : @Executor Identity B) l q m (ids : list N) : rt_inv t ->
  inv l -> executor_inv e ->
  (forall id a, bt_get id (ex_active (rt_executor t)) = Some a ->
    exists a', bt_get id (ex_active e) = Some a' /\ ao_capability a' = ao_capability a) ->
  (forall id, is_Some (bt_get id (resources l)) <->
    is_Some (bt_get id (resources (rt_lifecycle t))) /\ id ∉ ids) ->
  (forall id o, bt_get id (pending l) = Some o -> bt_get id (pending (rt_lifecycle t)) = Some o) ->
  (forall id, entry m id = if decide (id ∈ ids) then None else entry (rt_resources t) id) ->
  rt_inv {| rt_executor := e; rt_lifecycle := l; rt_events := q; rt_resources := m |}.
Proof.
  intros [] Hl He Ha Hr Hp Hm. split; simpl; [done..| |].
  - intros id. rewrite Hr, Hm, rti_agree0. case_decide; [|tauto]. split; [tauto|by intros [? ?]].
  - intros id o Ho. destruct (rti_charged0 id o) as (a & Hg & Hc); [by apply Hp|].
    destruct (Ha _ _ Hg) as (a' & ? & ?). exists a'. split; [done|congruence].
Qed.

Lemma cancel_where_active (f : ActiveOperation -> bool) (e : @Executor Identity B) id a :
  bt_get id (ex_active e) = Some a ->
  exists a', bt_get id (ex_active (cancel_where f e).1) = Some a' /\
    ao_capability a' = ao_capability a /\ (f a = true -> ao_cancelled a' = true).
Proof.
  intros Ha. simpl. rewrite bt_get_cancel_where, Ha. simpl. eexists. split; [done|].
  destruct (f a); simpl; [|done]. by split.
Qed.

Lemma revoke_active (e : @Executor Identity B) c id a :
  bt_get id (ex_active e) = Some a ->
  exists a', bt_get id (ex_active (executor_revoke e c).1) = Some a' /\
    ao_capability a' = ao_capability a /\ (ao_capability a = c -> ao_cancelled a' = true).
Proof.
  intros Ha. unfold executor_revoke. match goal with |- context [cancel_where ?f _] =>
    destruct (cancel_where_active f _ _ _ Ha) as (a' & ? & ? & Hc) end.
  exists a'. split; [done|]. split; [done|]. intros Heq. apply Hc. by apply bool_decide_eq_true.
Qed.

Lemma cancel_where_origin (f : ActiveOperation -> bool) (e : @Executor Identity B) id a :
  bt_get id (ex_active (cancel_where f e).1) = Some a ->
  exists a0, bt_get id (ex_active e) = Some a0 /\ a = if f a0 then set_cancelled a0 else a0.
Proof.
  unfold cancel_where. cbn [fst ex_active with_channels]. rewrite bt_get_cancel_where.
  destruct (bt_get id _) as [a0|]; [|done]. intros [= <-]. by exists a0.
Qed.

Lemma revoke_cancels (e : @Executor Identity B) c id a :
  bt_get id (ex_active (executor_revoke e c).1) = Some a -> ao_capability a = c ->
  ao_cancelled a = true.
Proof.
  unfold executor_revoke. intros (a0 & _ & ->)%cancel_where_origin. by case_bool_decide.
Qed.

Lemma runtime_close_spec t id :
  (runtime_close t id).1 = with_manager (with_lifecycle t (close_resource (rt_lifecycle t) id).1)
    (manager_close (rt_resources t) id).1.
Proof.
  unfold runtime_close. by destruct (manager_close _ _), (close_resource _ _).
Qed.

Lemma close_asserts_holds t id : rt_inv t ->
  close_asserts t id = true /\
  (runtime_close t id).2 = bt_contains id (rm_resources (rt_resources t)).
Proof.
  intros []. unfold runtime_close, close_asserts.
  destruct (close_entries (rt_lifecycle t) id id) as (_ & Ht & _).
  assert (Hm : (manager_close (rt_resources t) id).2 = bt_contains id (rm_resources (rt_resources t))).
  { unfold manager_close, bt_contains. by destruct (bt_get id (rm_resources (rt_resources t))). }
  assert (bt_contains id (resources (rt_lifecycle t)) = bt_contains id (rm_resources (rt_resources t))) as Heq.
  { specialize (rti_agree0 id). unfold entry, bt_contains in *.
    destruct (bt_get id (resources _)), (bt_get id (rm_resources _)); try done.
    - by destruct (proj1 rti_agree0 ltac:(by eexists)).
    - by destruct (proj2 rti_agree0 ltac:(by eexists)). }
  destruct (manager_close _ _) as [m managed], (close_resource _ _) as [l tracked]. simpl in *.
  rewrite Ht, Hm, Heq, Bool.eqb_reflx, andb_diag. done.
Qed.

Lemma close_tracked_inv ids l : inv l -> inv (close_tracked l ids).
Proof.
  unfold close_tracked. revert l. induction ids as [|id ids IH]; intros l Hl; [done|].
  simpl. by apply IH, inv_close.
Qed.

Lemma rt_inv_worker t e : rt_inv t -> worker_acts (rt_executor t) e -> rt_inv (with_executor t e).
Proof.
  intros Ht Hw. pose proof Ht as []. apply rt_inv_executor; [done| |].
  - destruct Hw as [Hw|(i & o & now & Hw)]; [by eapply inv_take|by eapply inv_finish].
  - intros id a Ha. exists a. split; [|done]. destruct Hw as [Hw|(i & o & now & Hw)].
    + unfold worker_take in Hw. repeat case_match; by simplify_eq.
    + unfold worker_finish in Hw. destruct (ex_running _ !! i); [|done]. by injection Hw as <-.
Qed.

Lemma rt_inv_cancel t id : rt_inv t -> rt_inv (runtime_cancel t id).1.
Proof.
  intros Ht. unfold runtime_cancel.
  pose proof (inv_cancel (rt_executor t) id (rti_executor t Ht)) as He.
  destruct (executor_cancel _ _) as [e b] eqn:Hc. simpl in *. apply rt_inv_executor; [done..|].
  unfold executor_cancel in Hc. intros x a Ha.
  destruct (bt_get id (ex_active (rt_executor t))); injection Hc as <- <-; [|eauto]. simpl.
  rewrite bt_get_update. destruct (cmp x id); rewrite Ha; simpl; eauto.
Qed.

Lemma rt_inv_close t id t' b : rt_inv t -> runtime_close t id = (t', b) -> rt_inv t'.
Proof.
  intros Ht Hc. change t' with (t', b).1. rewrite <- Hc, runtime_close_spec. destruct (Ht).
  apply (rt_inv_closed t _ _ _ _ [id]); simpl; try done; [by apply inv_close|eauto|..].
  - intros x. rewrite list_elem_of_singleton. destruct (close_entries (rt_lifecycle t) id x) as (-> & _).
    case_decide; [|tauto]. split; [by intros [? ?]|tauto].
  - intros x o. by destruct (close_entries (rt_lifecycle t) id x) as (_ & _ & ->).
  - intros x. destruct (close_spec (rt_resources t) id x) as (-> & _). repeat case_decide; set_solver.
Qed.

Lemma rt_inv_revoke t c generation t' effect edges :
  rt_inv t -> runtime_revoke t c generation = (t', effect, edges) -> rt_inv t'.
Proof.
  intros Ht Hr. pose proof Ht as []. unfold runtime_revoke in Hr.
  destruct (revoke_entries (rt_lifecycle t) c) as [Hl Hp]; [done|].
  pose proof (inv_revoke (rt_lifecycle t) c rti_lifecycle0) as Hi.
  assert (He : executor_inv (executor_revoke (rt_executor t) c).1) by by apply inv_cancel_where.
  destruct (revoke _ _) as [l eff], (manager_revoke _ _) as [m ed] eqn:Hm. simpl in *.
  injection Hr as <- <- <-. apply (rt_inv_closed t _ _ _ _ (closed_resources eff)); try done.
  - intros x a Ha. destruct (revoke_active _ c _ _ Ha) as (a' & ? & ? & _). exists a'. by split.
  - intros x o Ho. by apply Hp in Ho as [? _].
  - intros x. by apply (revoke_events _ _ _ _ x) in Hm as (? & _).
Qed.

Lemma rt_inv_revoke_all t t' effect :
  rt_inv t -> runtime_revoke_all t = (t', effect) -> rt_inv t'.
Proof.
  intros Ht Hr. pose proof Ht as []. unfold runtime_revoke_all in Hr. injection Hr as <- <-.
  apply (rt_inv_closed t _ _ _ _ (bt_keys (resources (rt_lifecycle t)))); simpl; try done.
  - apply (inv_step (rt_lifecycle t)); [done|]. apply (step_revoke_all (rt_lifecycle t)).
  - exact (inv_cancel_where _ (fun _ => true) rti_executor0).
  - intros x a Ha. destruct (cancel_where_active (fun _ => true) _ _ _ Ha) as (a' & ? & ? & _). eauto.
  - intros x. split; [by intros [? ?]|]. intros [Hx Hn]. apply bt_get_None in Hn.
    rewrite Hn in Hx. by destruct Hx.
  - intros x. apply close_many_spec.
Qed.

Lemma rt_inv_completion t generation t' :
  rt_inv t -> pump_completion t generation = Some t' -> rt_inv t'.
Proof.
  intros [] Hc. unfold pump_completion in Hc. destruct (try_completion _) as [e [c|]] eqn:He; [|done].
  injection Hc as <-. pose proof (inv_deliver _ _ _ rti_executor0 He) as Hd.
  unfold try_completion in He. destruct (ex_completions _); [done|]. injection He as <- <-.
  split; simpl; try done.
  - by apply inv_remove_pending.
  - by destruct Hd.
  - intros x o Ho. destruct (decide (x = bc_request_id b)) as [->|Hne].
    + by rewrite bt_get_remove_eq in Ho.
    + rewrite bt_get_remove_ne in Ho by done. rewrite bt_get_remove_ne by done. by apply rti_charged0.
Qed.

Lemma rt_inv_receive t m edges q :
  rt_inv t -> pump_receive (rt_resources t) = Some (m, edges) ->
  rt_inv (with_events (with_manager t m) q).
Proof.
  intros Ht Hr. unfold pump_receive in Hr. destruct (rm_channel _); [done|]. injection Hr as Hd.
  destruct (rt_inv_manager t m Ht) as []; [|by split].
  intros x. destruct (deliver_spec _ _ _ _ _ x Hd) as (-> & _).
  case_decide; [|done]. by rewrite fmap_is_Some.
Qed.

Lemma rt_inv_finish t ids m edges dropped q :
  rt_inv t -> NoDup ids -> pump_finish (rt_resources t) ids = (m, edges, dropped) ->
  rt_inv {| rt_executor := rt_executor t; rt_lifecycle := close_tracked (rt_lifecycle t) ids;
            rt_events := q; rt_resources := m |}.
Proof.
  intros Ht Hnd Hf. pose proof Ht as []. apply finish_spec in Hf as (f & Hf); [|done].
  apply (rt_inv_closed t _ _ _ _ ids); try done; [by apply close_tracked_inv|eauto|..].
  - intros x. destruct (close_tracked_entries ids (rt_lifecycle t) x) as [-> _]. case_decide; [|tauto].
    split; [by intros [? ?]|tauto].
  - intros x o. by destruct (close_tracked_entries ids (rt_lifecycle t) x) as [_ ->].
  - intros x. by destruct (Hf x).
Qed.

Lemma rt_inv_step t p ls t' p' : rt_inv t -> rt_step (t, p) ls (t', p') -> rt_inv t'.
Proof.
  intros Ht Hstep. inversion Hstep; subst; try done.
  - by apply rt_inv_worker.
  - apply rt_inv_manager; [done|]. intros id.
    match goal with H : producer _ _ _ |- _ => by destruct (producer_spec _ _ _ id H) as (-> & _) end.
  - apply rt_inv_executor; [done| |eauto]. destruct Ht. by destruct rti_executor0.
  - by apply rt_inv_manager.
  - by eapply rt_inv_submit.
  - by apply rt_inv_cancel.
  - by eapply rt_inv_open.
  - by eapply rt_inv_close.
  - by eapply rt_inv_revoke.
  - by eapply rt_inv_revoke_all.
  - by eapply rt_inv_completion.
  - by eapply rt_inv_receive.
  - by eapply rt_inv_finish.
  - unfold pop_event. destruct (Queue.pop _) as [q ev]. destruct Ht. by split.
Qed.

Lemma rt_new_inv el ll ms me t : runtime_new el ll ms me = Ok t ->
  rt_inv t /\ exists m, manager_new me = Ok m /\ rt_resources t = m.
Proof.
  unfold runtime_new. intros Hn. inv_ok. rename a into e, a0 into m.
  pose proof (executor_new_inv _ _ Hok). split; [|by eexists].
  unfold manager_new in Hok0. case_match; [done|]. injection Hok0 as <-.
  split; simpl; [apply inv_new|done| |by intros ? ? ?]. intros id. split; by intros [? ?].
Qed.

Lemma rt_runs_inv s0 ls s : rt_runs s0 ls s -> rt_inv s0.1 -> rt_inv s.1.
Proof.
  induction 1 as [|ls [t1 p1] l [t2 p2] _ IH Hstep]; [done|]. intros H0. simpl.
  by eapply rt_inv_step; [apply IH|].
Qed.

(** *** The manager's part of a history *)

Lemma close_many_runs (m : ResourceManager RB) ids :
  rruns (Identity := Identity) (m, Idle) ((fun _ => Tau) <$> ids) (close_many m ids, Idle).
Proof.
  unfold close_many. revert m. induction ids as [|id ids IH]; intros m; [apply rruns_nil|].
  csimpl. apply (rruns_app (Identity := Identity) _ ((manager_close m id).1, Idle) _ [Tau]); [|apply IH].
  apply (rruns_snoc _ [] (m, Idle)); [apply rruns_nil|]. apply rstep_close.
Qed.

Lemma rruns_once (s s' : ResourceManager RB * phase) l :
  rstep (Identity := Identity) s l s' -> rruns (Identity := Identity) s [l] s'.
Proof. intros. by apply (rruns_snoc _ [] s); [apply rruns_nil|]. Qed.

Lemma submit_manager t request deadline micros ledger now t' ledger' r :
  runtime_submit t request deadline micros ledger now = (t', ledger', r) ->
  rt_resources t' = rt_resources t /\
  next_resource_id (rt_lifecycle t') = next_resource_id (rt_lifecycle t).
Proof.
  unfold runtime_submit, begin. repeat case_match; intros [= <- <- <-]; simplify_eq; done.
Qed.

Lemma rt_step_manager t p ls t' p' : rt_inv t -> rt_step (t, p) ls (t', p') ->
  rruns (Identity := Identity) (rt_resources t, p) ls (rt_resources t', p').
Proof.
  intros Ht Hstep. inversion Hstep as
    [| | | |? ? ? ? ? ? ? ? ? Hs| |? ? ? ? ? ? ? ? Ho|? ? ? ? Hc|? ? ? ? ? ? Hr|? ? ? Hr|? ? ? Hc| | | | |];
    subst; try apply rruns_nil; try apply rruns_once.
  - by apply rstep_producer.
  - apply rstep_register.
  - apply submit_manager in Hs as [-> _]. apply rruns_nil.
  - unfold runtime_cancel. destruct (executor_cancel _ _). apply rruns_nil.
  - revert Ho. unfold open_labels, open_resource.
    destruct (manager_limits _ _) as [limits|]; [|intros [= <- <- <-]; apply rruns_nil].
    destruct (allocate_resource _ _ _) as [l [id|e]]; [|intros [= <- <- <-]; apply rruns_nil].
    destruct (manager_open _ _ _ _ _ _ _) as [[m l'] res] eqn:Hm.
    assert (is_ok r = is_ok res -> rruns (Identity := Identity) (rt_resources t, Idle)
      [Opened id (is_ok r)] (m, Idle)) as Hrun by (intros ->; apply rruns_once; by eapply rstep_open).
    destruct res; intros [= <- <- <-]; by apply Hrun.
  - change t' with (t', b).1. rewrite <- Hc, runtime_close_spec. apply rstep_close.
  - apply (rstep_revoke _ (closed_resources effect)). revert Hr. unfold runtime_revoke.
    destruct (revoke _ _) as [l eff], (manager_revoke _ _) as [m ed] eqn:Hm. simpl.
    by intros [= <- <- <-].
  - unfold runtime_revoke_all in Hr. injection Hr as <- <-. apply close_many_runs.
  - unfold pump_completion in Hc. destruct (try_completion _) as [e [c|]]; [|done].
    injection Hc as <-. apply rruns_nil.
  - apply rstep_pump.
  - by apply rstep_receive.
  - by apply rstep_drained.
  - by eapply rstep_finish.
  - unfold pop_event. destruct (Queue.pop _). apply rruns_nil.
Qed.

Lemma close_tracked_next ids l : next_resource_id (close_tracked l ids) = next_resource_id l.
Proof.
  unfold close_tracked. revert l. induction ids as [|id ids IH]; intros l; [done|].
  simpl. rewrite IH. unfold close_resource. by case_match.
Qed.

Lemma attempts_tau (ids : list N) : attempts ((fun _ => Tau) <$> ids) = [].
Proof. by induction ids. Qed.

Lemma rt_step_next t p ls t' p' : rt_inv t -> rt_step (t, p) ls (t', p') ->
  attempts ls = [] /\ next_resource_id (rt_lifecycle t') = next_resource_id (rt_lifecycle t) \/
  attempts ls = [next_resource_id (rt_lifecycle t)] /\
    next_resource_id (rt_lifecycle t') = (next_resource_id (rt_lifecycle t) + 1)%N.
Proof.
  intros Ht Hstep. inversion Hstep as
    [|? ? ? ? Hp| | |? ? ? ? ? ? ? ? ? Hs| |? ? ? ? ? ? ? ? Ho|? id ? ? Hc|? c ? ? ? ? Hr|? ? ? Hr|? ? ? Hc| | | | |];
    subst; try (by left).
  - left. by destruct (producer_spec _ _ _ 0%N Hp) as (_ & _ & [[-> _]|(? & ? & -> & _)]).
  - left. by apply submit_manager in Hs as [_ ->].
  - left. unfold runtime_cancel. by destruct (executor_cancel _ _).
  - revert Ho. unfold open_labels, open_resource.
    destruct (manager_limits _ _) as [limits|]; [|intros [= <- <- <-]; by left].
    destruct (allocate_resource _ _ _) as [l [id|e]] eqn:Ha; [|intros [= <- <- <-]; by left].
    apply allocate_entries in Ha as (-> & Hn & _); [|by destruct Ht].
    destruct (manager_open _ _ _ _ _ _ _) as [[m l'] [payload|code]]; intros [= <- <- <-]; right;
      (split; [done|]); simpl; [done|]. rewrite <- Hn. unfold close_resource. by case_match.
  - left. split; [done|]. change t' with (t', b).1. rewrite <- Hc, runtime_close_spec. simpl.
    unfold close_resource. by case_match.
  - left. split; [done|]. unfold runtime_revoke, revoke in Hr. repeat case_match; simplify_eq. done.
  - left. unfold runtime_revoke_all in Hr. injection Hr as <- <-. split; [|done].
    apply attempts_tau.
  - left. unfold pump_completion in Hc. destruct (try_completion _) as [e [c|]]; [|done].
    by injection Hc as <-.
  - left. split; [done|]. apply close_tracked_next.
  - left. unfold pop_event. by destruct (Queue.pop _).
Qed.

Lemma rt_runs_manager t0 p0 ls t p : rt_inv t0 -> rt_runs (t0, p0) ls (t, p) ->
  rruns (Identity := Identity) (rt_resources t0, p0) ls (rt_resources t, p) /\
  NoDup (attempts ls) /\ forall id, id ∈ attempts ls -> (id < next_resource_id (rt_lifecycle t))%N.
Proof.
  intros H0 Hrun. remember (t, p) as s eqn:Hs.
  revert t p Hs. induction Hrun as [|ls [t1 p1] l [t2 p2] Hrun IH Hstep]; intros t p [= <- <-].
  - split; [apply rruns_nil|]. split; [constructor|]. intros id Hid. by apply elem_of_nil in Hid.
  - destruct (IH t1 p1) as (Hr & Hnd & Hlt); [done..|].
    assert (rt_inv t1) as H1 by exact (rt_runs_inv _ _ _ Hrun H0).
    split; [by eapply rruns_app; [|eapply rt_step_manager]|].
    rewrite attempts_app. destruct (rt_step_next _ _ _ _ _ H1 Hstep) as [[-> ->]|[-> ->]].
    + by rewrite app_nil_r.
    + split.
      * apply NoDup_app. split; [done|]. split; [|apply NoDup_singleton]. intros x Hx Hin.
        apply list_elem_of_singleton in Hin. apply Hlt in Hx. lia.
      * intros id [Hid|Hid%list_elem_of_singleton]%elem_of_app; [apply Hlt in Hid; lia|lia].
Qed.
End RuntimeFacts.

(** ** Theorems *)

(** C6: The connection's books agree.  In every reachable state of the runtime,
    whatever the worker threads and producers do in between: the lifecycle and
    executor invariants hold; the resources charged to the quota are exactly
    those the manager holds, so closing one never trips the debug assertion
    that compares the two; and every pending operation charged to the quota is
    in flight in the executor under the same capability. *)
Theorem runtime_accounting {Identity B RB} `{!Backend Identity B} `{!ResourceBackend Identity RB}
  (el : ExecutorLimits) (ll : LifecycleLimits) (ms me : N)
  (t0 t : @Runtime Identity B RB) (p : phase) (ls : list rlabel)
  (Hnew : runtime_new el ll ms me = Ok t0) (Hrun : rt_runs (t0, Idle) ls (t, p)) :
  inv (rt_lifecycle t) /\ executor_inv (rt_executor t) /\
  (forall id, id ∈ bt_keys (resources (rt_lifecycle t)) <-> id ∈ bt_keys (rm_resources (rt_resources t))) /\
  (forall id, close_asserts t id = true) /\
  (forall id o, (id, o) ∈ pending (rt_lifecycle t) -> id ∈ in_flight (rt_executor t) /\
    exists a, (id, a) ∈ ex_active (rt_executor t) /\ ao_capability a = po_capability o).
Proof.
  apply rt_new_inv in Hnew as [H0 _]. pose proof (rt_runs_inv _ _ _ Hrun H0) as Ht.
  pose proof Ht as []. simpl in *. split; [done|]. split; [done|]. split; [|split].
  - intros id. rewrite <- !bt_contains_spec. specialize (rti_agree0 id).
    unfold bt_contains, entry in *. destruct (bt_get id _), (bt_get id _); try done;
      exfalso; [destruct (proj1 rti_agree0)|destruct (proj2 rti_agree0)]; by try eexists.
  - intros id. by apply close_asserts_holds.
  - intros id o Ho. apply elem_bt_get in Ho; [|by destruct rti_lifecycle0].
    destruct (rti_charged0 _ _ Ho) as (a & Ha%bt_get_elem & Hc). split; [|eauto].
    destruct rti_executor0. rewrite einv_flight. by apply (list_elem_of_fmap_2 fst) in Ha.
Qed.

(** The runtime drives the resource manager as its own transition system
    allows, and never opens a resource id twice: every history of the runtime
    is, on its manager, a run of the manager whose attempted ids are pairwise
    distinct, all below the next id the lifecycle will give out. *)
Theorem runtime_refines_manager {Identity B RB} `{!Backend Identity B}
  `{!ResourceBackend Identity RB} (el : ExecutorLimits) (ll : LifecycleLimits) (ms me : N)
  (t0 t : @Runtime Identity B RB) (p : phase) (ls : list rlabel)
  (Hnew : runtime_new el ll ms me = Ok t0) (Hrun : rt_runs (t0, Idle) ls (t, p)) :
  manager_new me = Ok (rt_resources t0) /\
  rruns (Identity := Identity) (rt_resources t0, Idle) ls (rt_resources t, p) /\
  NoDup (attempts ls) /\
  (forall id, id ∈ attempts ls -> (id < next_resource_id (rt_lifecycle t))%N).
Proof.
  apply rt_new_inv in Hnew as [H0 (m & Hm & Heq)]. rewrite Heq. split; [done|].
  rewrite <- Heq. by eapply rt_runs_manager.
Qed.

(** Revoking a capability leaves none of its authority behind: no pending
    operation and no resource is charged to it any more, each of its resources
    got exactly one denial event and is closed in the manager, every operation
    of it that is still in flight carries the cancellation flag, and what
    belongs to other capabilities is untouched. *)
Theorem runtime_revoke_complete {Identity B RB} `{!Backend Identity B}
  `{!ResourceBackend Identity RB} (el : ExecutorLimits) (ll : LifecycleLimits) (ms me : N)
  (t0 t t' : @Runtime Identity B RB) (p : phase) (ls : list rlabel)
  (c : CapabilityId) (generation : N) (effect : RevocationEffect) (edges : list Edge)
  (Hnew : runtime_new el ll ms me = Ok t0) (Hrun : rt_runs (t0, Idle) ls (t, p))
  (Hrevoke : runtime_revoke t c generation = (t', effect, edges)) :
  (forall id o, (id, o) ∈ pending (rt_lifecycle t') <->
    (id, o) ∈ pending (rt_lifecycle t) /\ po_capability o <> c) /\
  (forall id r, (id, r) ∈ resources (rt_lifecycle t') <->
    (id, r) ∈ resources (rt_lifecycle t) /\ br_capability r <> c) /\
  (forall id r, (id, r) ∈ resources (rt_lifecycle t) ->
    if decide (br_capability r = c)
    then entry (rt_resources t') id = None /\
         exists n, edges_of id edges = [(n, BrokerError EDenied)]
    else entry (rt_resources t') id = entry (rt_resources t) id /\ edges_of id edges = []) /\
  (forall id a, bt_get id (ex_active (rt_executor t')) = Some a ->
    ao_capability a = c -> ao_cancelled a = true).
Proof.
  apply rt_new_inv in Hnew as [H0 _]. pose proof (rt_runs_inv _ _ _ Hrun H0) as [Hl _ Hagree _].
  simpl in *. destruct (revoke_maps (rt_lifecycle t) c Hl) as [Hp Hr].
  destruct (revoke_ids (rt_lifecycle t) c Hl) as [_ Hc]. unfold runtime_revoke in Hrevoke.
  destruct (revoke _ _) as [l eff], (manager_revoke _ _) as [m ed] eqn:Hm.
  injection Hrevoke as <- <- <-. cbn [rt_lifecycle rt_resources rt_executor fst snd] in *.
  split; [done|]. split; [done|]. split.
  - intros id r Hin. destruct (revoke_events _ _ _ _ id Hm) as (He & _ & _ & Hed). unfold closing in Hed.
    destruct (decide (br_capability r = c)) as [Hcap|Hcap].
    + assert (Hin' : id ∈ closed_resources eff) by (apply Hc; eauto).
      rewrite decide_True in He by done. rewrite decide_True in Hed by done. split; [done|].
      destruct (proj1 (Hagree id)) as [e Hent]; [|rewrite Hent in Hed; eauto].
      exists r. apply elem_bt_get; [by destruct Hl|done].
    + assert (id ∉ closed_resources eff).
      { intros (r' & Hin' & Heq)%Hc. apply elem_bt_get in Hin, Hin'; [congruence|by destruct Hl..]. }
      rewrite decide_False in He by done. by rewrite decide_False in Hed by done.
  - intros id a. apply revoke_cancels.
Qed.

(** ** A concrete history: two registrations, a submission, an open resource *)

Definition sample_runtime_new : @Runtime () () () :=
  {| rt_executor := {| ex_limits := default_executor_limits; ex_backends := []; ex_jobs := [];
       ex_running := []; ex_completions := []; ex_active := [] |};
     rt_lifecycle := new default_limits; rt_events := Queue.new 8 8;
     rt_resources := {| rm_capacity := 8; rm_backends := []; rm_channel := []; rm_dropped := 0;
       rm_resources := []; rm_sinks := []; rm_closed := [] |} |}.
Definition sample_runtime_registered : @Runtime () () () :=
  runtime_register (register_resource sample_runtime_new UriOpenV1 ()) UriOpenV1 ().
Definition sample_runtime_submitted : @Runtime () () () :=
  (runtime_submit sample_runtime_registered (sample_backend_request 7) (Some 100%N) 100 sample_ledger 1).1.1.
Definition sample_runtime : @Runtime () () () :=
  (open_resource sample_runtime_submitted (sample_backend_request 8) sample_ledger 1 (Ok [])).1.1.

Lemma sample_runtime_run :
  rt_runs (sample_runtime_new, Idle) [Tau; Opened 1 true] (sample_runtime, Idle).
Proof.
  apply (rt_runs_snoc _ [Tau] (sample_runtime_submitted, Idle) [Opened 1 true]).
  - apply (rt_runs_snoc _ [Tau] (sample_runtime_registered, Idle) []).
    + apply (rt_runs_snoc _ [Tau] (register_resource sample_runtime_new UriOpenV1 (), Idle) []).
      * apply (rt_runs_snoc _ [] (sample_runtime_new, Idle) [Tau]); [apply rt_runs_nil|].
        apply rts_register_resource.
      * apply rts_register.
    + exact (rts_submit sample_runtime_registered (sample_backend_request 7) (Some 100%N) 100
        sample_ledger 1 sample_runtime_submitted sample_ledger (Ok ()) eq_refl).
  - exact (rts_open sample_runtime_submitted (sample_backend_request 8) sample_ledger 1 (Ok [])
      sample_runtime sample_ledger (Ok (1%N, [])) eq_refl).
Qed.

Lemma runtime_accounting_witness :
  1%N ∈ bt_keys (rm_resources (rt_resources sample_runtime)) /\
  7%N ∈ in_flight (rt_executor sample_runtime).
Proof.
  destruct (runtime_accounting default_executor_limits default_limits 8 8 sample_runtime_new
    sample_runtime Idle [Tau; Opened 1 true]) as (_ & _ & Hkeys & _ & Hpending).
  - reflexivity.
  - exact sample_runtime_run.
  - split; [apply Hkeys; left|].
    refine (proj1 (Hpending 7%N {| po_request_id := 7; po_capability := UriOpenV1;
      po_deadline_monotonic_micros := 100 |} _)). left.
Defined.

Lemma runtime_refines_manager_witness :
  rruns (Identity := ()) (rt_resources sample_runtime_new, Idle) [Tau; Opened 1 true]
    (rt_resources sample_runtime, Idle).
Proof.
  destruct (runtime_refines_manager default_executor_limits default_limits 8 8 sample_runtime_new
    sample_runtime Idle [Tau; Opened 1 true]) as (_ & Hrun & _).
  - reflexivity.
  - exact sample_runtime_run.
  - exact Hrun.
Defined.

Lemma runtime_revoke_complete_witness :
  exists t' effect edges,
    runtime_revoke sample_runtime UriOpenV1 2 = (t', effect, edges) /\
    pending (rt_lifecycle t') = [] /\ resources (rt_lifecycle t') = [] /\
    (forall a, bt_get 7%N (ex_active (rt_executor t')) = Some a ->
      ao_capability a = UriOpenV1 -> ao_cancelled a = true).
Proof.
  destruct (runtime_revoke sample_runtime UriOpenV1 2) as [[t' effect] edges] eqn:Hr.
  exists t', effect, edges. split; [reflexivity|].
  destruct (runtime_revoke_complete default_executor_limits default_limits 8 8 sample_runtime_new
    sample_runtime t' Idle [Tau; Opened 1 true] UriOpenV1 2 effect edges) as (_ & _ & _ & Hc).
  - reflexivity.
  - exact sample_runtime_run.
  - exact Hr.
  - split; [|split].
    + vm_compute in Hr. injection Hr as <- _ _. reflexivity.
    + vm_compute in Hr. injection Hr as <- _ _. reflexivity.
    + exact (Hc 7%N).
Defined.
