(* ===== verification/Trail.v ===== *)
(** * Trail: the bounded, redacted audit log of one connection

    Models the types and the in-memory log of
    [crates/touchbar-plugin-supervisor/src/audit.rs]; the durable file is
    input and output. *)

From S2P Require Import Prelude BTree Text Package Wire Protocol.

Inductive AuditDecision :=
| AuditAllowed | AuditDenied | AuditOutOfScope | AuditUnavailable | AuditPolicyBlocked | AuditInvalid.

Inductive AuditActivation :=
| NoActivation | PhysicalActivation | TrustedControlActivation | SyntheticRejected.

Definition audit_activation (origin : option ActivationOrigin) : AuditActivation :=
  match origin with
  | None => NoActivation
  | Some PhysicalOrigin => PhysicalActivation
  | Some TrustedControlOrigin => TrustedControlActivation
  | Some SyntheticOrigin => SyntheticRejected
  end.

Inductive AuditResult :=
| ResultSuccess | ResultUnavailable | ResultDenied | ResultOutOfScope | ResultInvalidRequest
| ResultInvalidPhase | ResultActivationRequired | ResultQuotaExceeded | ResultRateLimited
| ResultTimeout | ResultCancelled | ResultUnsupported | ResultBackendFailed | ResultInternal.

Definition audit_result (error : option BrokerErrorCode) : AuditResult :=
  match error with
  | None => ResultSuccess
  | Some EUnavailable => ResultUnavailable
  | Some EDenied => ResultDenied
  | Some EOutOfScope => ResultOutOfScope
  | Some EInvalidRequest => ResultInvalidRequest
  | Some EInvalidPhase => ResultInvalidPhase
  | Some EActivationRequired => ResultActivationRequired
  | Some EQuotaExceeded => ResultQuotaExceeded
  | Some ERateLimited => ResultRateLimited
  | Some ETimeout => ResultTimeout
  | Some ECancelled => ResultCancelled
  | Some EUnsupported => ResultUnsupported
  | Some EBackendFailed => ResultBackendFailed
  | Some EInternal => ResultInternal
  end.

Record AuditRecord := {
  ar_sequence : N;
  ar_wall_clock_unix_millis : N;
  ar_source : GithubSource;
  ar_version : string;
  ar_artifact_digest : string;
  ar_instance_id : N;
  ar_capability : string;
  ar_operation : string;
  ar_activation : AuditActivation;
  ar_decision : AuditDecision;
  ar_result : AuditResult;
  ar_duration_micros : N;
  ar_request_bytes : N;
  ar_response_bytes : N;
  ar_resource_count : N;
}.

Record AuditInput := {
  ai_wall_clock_unix_millis : N;
  ai_capability : string;
  ai_operation : string;
  ai_activation : option ActivationOrigin;
  ai_decision : AuditDecision;
  ai_error : option BrokerErrorCode;
  ai_duration_micros : N;
  ai_request_bytes : N;
  ai_response_bytes : N;
  ai_resource_count : N;
}.

Record AuditLog := {
  al_source : GithubSource;
  al_version : string;
  al_artifact_digest : string;
  al_instance_id : N;
  al_maximum_records : N;
  al_next_sequence : N;
  al_records : list AuditRecord;
}.

Definition audit_new (source : GithubSource) (version artifact_digest : string)
  (instance_id maximum_records : N) : AuditLog :=
  {| al_source := source; al_version := version; al_artifact_digest := artifact_digest;
     al_instance_id := instance_id; al_maximum_records := maximum_records;
     al_next_sequence := 1; al_records := [] |}.

(** [push]: the log afterwards and the record it appended. *)
Definition audit_push (log : AuditLog) (input : AuditInput) : AuditLog * AuditRecord :=
  let maximum := if (al_maximum_records log =? 0)%N then 1%N else al_maximum_records log in
  let kept := if (len (al_records log) =? maximum)%N then tail (al_records log) else al_records log in
  let record :=
    {| ar_sequence := al_next_sequence log;
       ar_wall_clock_unix_millis := ai_wall_clock_unix_millis input;
       ar_source := al_source log; ar_version := al_version log;
       ar_artifact_digest := al_artifact_digest log; ar_instance_id := al_instance_id log;
       ar_capability := ai_capability input; ar_operation := ai_operation input;
       ar_activation := audit_activation (ai_activation input);
       ar_decision := ai_decision input; ar_result := audit_result (ai_error input);
       ar_duration_micros := ai_duration_micros input;
       ar_request_bytes := ai_request_bytes input;
       ar_response_bytes := ai_response_bytes input;
       ar_resource_count := ai_resource_count input |} in
  ({| al_source := al_source log; al_version := al_version log;
      al_artifact_digest := al_artifact_digest log; al_instance_id := al_instance_id log;
      al_maximum_records := maximum; al_next_sequence := sat_add64 (al_next_sequence log) 1;
      al_records := kept ++ [record] |}, record).
