(* ===== verification/Supervisor.v ===== *)
(** * Supervisor: one plugin connection

    Models [crates/touchbar-plugin-supervisor/src/lib.rs]: the connection that
    answers a plugin host.  It checks request ids, authorizes every request
    against the current policy before a backend sees it, keeps the audit
    trail, forwards completions and events, and replaces the policy while
    requests are in flight.  Messages sent are appended to a log; a message
    that does not encode ends the connection with the transport error, as a
    socket failure does (the socket itself, polling and the durable audit file
    are outside; the file's verdict is an argument). *)

From S2P Require Import Prelude BTree Text Capability Package Grants Wire Protocol Lifecycle Events Executor Resources Runtime Trail.

Section Connection.
Context `{SemVer} {B RB : Type}.

Record ConnectionIdentity := { ci_instance_id : N; ci_package : PackageInstance }.
Context `{!Backend ConnectionIdentity B} `{!ResourceBackend ConnectionIdentity RB}.

Record ConnectionLimits := {
  maximum_audit_records : N;
  maximum_consumed_activations : N;
  maximum_activation_lifetime_micros : N;
  cl_maximum_state_events : N;
  cl_maximum_edge_events : N;
  cl_executor : ExecutorLimits;
  backend_timeout_micros : N;
  cl_lifecycle : Lifecycle.LifecycleLimits;
  cl_health : Health.HealthPolicy;
}.

Definition default_connection_limits : ConnectionLimits :=
  {| maximum_audit_records := 1024; maximum_consumed_activations := 4096;
     maximum_activation_lifetime_micros := DEFAULT_ACTIVATION_LIFETIME_MICROS;
     cl_maximum_state_events := 64; cl_maximum_edge_events := 256;
     cl_executor := default_executor_limits; backend_timeout_micros := 5000000;
     cl_lifecycle := Lifecycle.default_limits; cl_health := Health.default_policy |}.

Record PendingAudit := {
  pa_wall_clock_unix_millis : N;
  pa_capability : string;
  pa_operation : string;
  pa_activation : option ActivationOrigin;
  pa_request_bytes : N;
}.

(** [cn_sent] logs the messages sent to the host. *)
Record Connection := {
  cn_identity : ConnectionIdentity;
  cn_policy : EffectivePolicy;
  cn_generation : N;
  cn_limits : ConnectionLimits;
  cn_last_request_id : N;
  cn_runtime : @Runtime ConnectionIdentity B RB;
  cn_activations : Activation.ActivationLedger;
  cn_audit : AuditLog;
  cn_pending_audit : list (N * PendingAudit);
  cn_health : Health.HealthTracker;
  cn_stopped : bool;
  cn_sent : list SupervisorMessage;
}.

(** What a handler reads from outside: the clocks, what a resource backend's
    [open] answers, and the verdict of the durable audit file. *)
Record Env := {
  en_elapsed_millis : N;
  en_elapsed_micros : N;
  en_envelope_now : option N;
  en_submit_now : option N;
  en_executor_deadline : option N;
  en_wall_clock_unix_millis : N;
  en_duration_micros : N;
  en_opened : result BrokerErrorCode (list N);
  en_append : AuditRecord -> result TransportError ();
}.

(** ** Handlers as state transformers that can fail *)

Definition Handler (A : Type) : Type := Connection -> Connection * result TransportError A.
Definition hret {A} (a : A) : Handler A := fun c => (c, Ok a).
Definition hfail {A} (e : TransportError) : Handler A := fun c => (c, Err e).
Definition hbind {A A'} (m : Handler A) (k : A -> Handler A') : Handler A' := fun c =>
  match m c with (c', Ok a) => k a c' | (c', Err e) => (c', Err e) end.
Definition hget {A} (f : Connection -> A) : Handler A := fun c => (c, Ok (f c)).
Definition hmodify (f : Connection -> Connection) : Handler () := fun c => (f c, Ok ()).

Local Notation "'do' x <- m ; k" := (hbind m (fun x => k))
  (at level 10, x name, m at level 100, k at level 200).
Local Notation "m ;; k" := (hbind m (fun _ => k)) (at level 100, right associativity).

Definition with_runtime (c : Connection) (t : @Runtime ConnectionIdentity B RB) : Connection :=
  {| cn_identity := cn_identity c; cn_policy := cn_policy c; cn_generation := cn_generation c;
     cn_limits := cn_limits c; cn_last_request_id := cn_last_request_id c; cn_runtime := t;
     cn_activations := cn_activations c; cn_audit := cn_audit c;
     cn_pending_audit := cn_pending_audit c; cn_health := cn_health c; cn_stopped := cn_stopped c;
     cn_sent := cn_sent c |}.
Definition with_activations (c : Connection) (l : Activation.ActivationLedger) : Connection :=
  {| cn_identity := cn_identity c; cn_policy := cn_policy c; cn_generation := cn_generation c;
     cn_limits := cn_limits c; cn_last_request_id := cn_last_request_id c; cn_runtime := cn_runtime c;
     cn_activations := l; cn_audit := cn_audit c;
     cn_pending_audit := cn_pending_audit c; cn_health := cn_health c; cn_stopped := cn_stopped c;
     cn_sent := cn_sent c |}.
Definition with_audit (c : Connection) (log : AuditLog) (waiting : list (N * PendingAudit)) : Connection :=
  {| cn_identity := cn_identity c; cn_policy := cn_policy c; cn_generation := cn_generation c;
     cn_limits := cn_limits c; cn_last_request_id := cn_last_request_id c; cn_runtime := cn_runtime c;
     cn_activations := cn_activations c; cn_audit := log;
     cn_pending_audit := waiting; cn_health := cn_health c; cn_stopped := cn_stopped c;
     cn_sent := cn_sent c |}.
Definition with_last_request_id (c : Connection) (id : N) : Connection :=
  {| cn_identity := cn_identity c; cn_policy := cn_policy c; cn_generation := cn_generation c;
     cn_limits := cn_limits c; cn_last_request_id := id; cn_runtime := cn_runtime c;
     cn_activations := cn_activations c; cn_audit := cn_audit c;
     cn_pending_audit := cn_pending_audit c; cn_health := cn_health c; cn_stopped := cn_stopped c;
     cn_sent := cn_sent c |}.
Definition with_health (c : Connection) (h : Health.HealthTracker) : Connection :=
  {| cn_identity := cn_identity c; cn_policy := cn_policy c; cn_generation := cn_generation c;
     cn_limits := cn_limits c; cn_last_request_id := cn_last_request_id c; cn_runtime := cn_runtime c;
     cn_activations := cn_activations c; cn_audit := cn_audit c;
     cn_pending_audit := cn_pending_audit c; cn_health := h; cn_stopped := cn_stopped c;
     cn_sent := cn_sent c |}.
Definition with_policy (c : Connection) (policy : EffectivePolicy) (generation : N) : Connection :=
  {| cn_identity := cn_identity c; cn_policy := policy; cn_generation := generation;
     cn_limits := cn_limits c; cn_last_request_id := cn_last_request_id c; cn_runtime := cn_runtime c;
     cn_activations := cn_activations c; cn_audit := cn_audit c;
     cn_pending_audit := cn_pending_audit c; cn_health := cn_health c; cn_stopped := cn_stopped c;
     cn_sent := cn_sent c |}.
Definition with_stopped (c : Connection) : Connection :=
  {| cn_identity := cn_identity c; cn_policy := cn_policy c; cn_generation := cn_generation c;
     cn_limits := cn_limits c; cn_last_request_id := cn_last_request_id c; cn_runtime := cn_runtime c;
     cn_activations := cn_activations c; cn_audit := cn_audit c;
     cn_pending_audit := cn_pending_audit c; cn_health := cn_health c; cn_stopped := true;
     cn_sent := cn_sent c |}.
Definition with_sent (c : Connection) (l : list SupervisorMessage) : Connection :=
  {| cn_identity := cn_identity c; cn_policy := cn_policy c; cn_generation := cn_generation c;
     cn_limits := cn_limits c; cn_last_request_id := cn_last_request_id c; cn_runtime := cn_runtime c;
     cn_activations := cn_activations c; cn_audit := cn_audit c;
     cn_pending_audit := cn_pending_audit c; cn_health := cn_health c; cn_stopped := cn_stopped c;
     cn_sent := l |}.

(** [send_supervisor]. *)
Definition send (m : SupervisorMessage) : Handler () := fun c =>
  match encode_supervisor m with
  | Ok _ => (with_sent c (cn_sent c ++ [m]), Ok ())
  | Err e => (c, Err e)
  end.

(** ** Checks *)

Definition valid_wire_identifier (value : string) : bool :=
  negb (String.eqb value "") && (slen value <=? 128)%N
  && forallb (fun segment =>
       negb (String.eqb segment "") && first_byte is_ascii_lowercase segment
       && last_byte is_ascii_alphanumeric segment
       && all_bytes (fun b => is_ascii_lowercase b || is_ascii_digit b || Ascii.eqb b "-") segment)
     (split "." value).

Definition audit_identifier (value : string) : string :=
  if valid_wire_identifier value then value else "invalid".

Definition audit_decision (error : BrokerErrorCode) : AuditDecision :=
  match error with
  | EUnavailable | EUnsupported => AuditUnavailable
  | EDenied | EActivationRequired => AuditDenied
  | EOutOfScope => AuditOutOfScope
  | EInvalidRequest | EInvalidPhase => AuditInvalid
  | EQuotaExceeded | ERateLimited | ETimeout | ECancelled | EBackendFailed | EInternal =>
      AuditPolicyBlocked
  end.

Definition wire_status (status : CapabilityStatus) : WireCapabilityStatus :=
  match status with
  | Granted => WireGranted
  | Denied => WireDenied
  | NeedsConsent => WireNeedsConsent
  | Unsupported => WireUnsupported
  | DisclosureOnly => WireDisclosureOnly
  end.

Definition capability_states (policy : EffectivePolicy) : list CapabilityState :=
  List.map (fun grant =>
    {| cs_capability := capability_to_string (rq_capability (eg_request grant));
       cs_required := rq_required (eg_request grant);
       cs_status := wire_status (eg_status grant) |}) (ep_grants policy).

Definition authorize_request (policy : EffectivePolicy) (phase : CallbackPhase)
  (capability operation : string)
  : result BrokerErrorCode (CapabilityId * CapabilityScope * GrantBindings) :=
  _ ← reject_if (match phase with ItemsPhase | RenderPhase => true | _ => false end) EInvalidPhase;
  _ ← reject_if (negb (valid_wire_identifier operation)) EInvalidRequest;
  match capability_from_str capability with
  | Err _ => Err EInvalidRequest
  | Ok capability =>
      match List.find (fun grant => bool_decide (rq_capability (eg_request grant) = capability))
              (ep_grants policy) with
      | None => Err EDenied
      | Some grant =>
          match eg_status grant with
          | Granted => Ok (capability, rq_scope (eg_request grant), eg_bindings grant)
          | Unsupported => Err EUnsupported
          | Denied | NeedsConsent => Err EDenied
          | DisclosureOnly => Err EUnsupported
          end
      end
  end.

Definition validate_activation_envelope (limits : ConnectionLimits) (phase : CallbackPhase)
  (activation : option ActivationContext) (now : option N) : result BrokerErrorCode () :=
  match activation with
  | None => Ok ()
  | Some a =>
      _ ← reject_if (bool_decide (phase <> InputPhase)) EInvalidPhase;
      _ ← reject_if ((ac_surface_instance a =? 0)%N || (ac_input_sequence a =? 0)%N
            || negb (valid_wire_identifier (ac_item_id a))) EInvalidRequest;
      _ ← reject_if (bool_decide (ac_origin a = SyntheticOrigin)) EActivationRequired;
      now ← ok_or EInternal now;
      _ ← reject_if (ac_deadline_monotonic_micros a <? now)%N EActivationRequired;
      reject_if (maximum_activation_lifetime_micros limits
        <? sat_sub (ac_deadline_monotonic_micros a) now)%N EInvalidRequest
  end.

(** ** Audit *)

Definition push_audit (env : Env) (audit : PendingAudit) (decision : AuditDecision)
  (error : option BrokerErrorCode) (response_bytes : N) : Handler () := fun c =>
  let '(log, record) := audit_push (cn_audit c)
    {| ai_wall_clock_unix_millis := pa_wall_clock_unix_millis audit;
       ai_capability := pa_capability audit; ai_operation := pa_operation audit;
       ai_activation := pa_activation audit; ai_decision := decision; ai_error := error;
       ai_duration_micros := en_duration_micros env;
       ai_request_bytes := pa_request_bytes audit; ai_response_bytes := response_bytes;
       ai_resource_count := len (Lifecycle.resources (rt_lifecycle (cn_runtime c))) mod 2 ^ 32 |} in
  (with_audit c log (cn_pending_audit c), en_append env record).

(** ** Requests *)

(** Past the checks: open a resource or submit to the executor.  [Some] is the
    payload of an opened resource. *)
Definition dispatch (env : Env) (request : BackendRequest ConnectionIdentity) (c : Connection)
  : Connection * result BrokerErrorCode (option (list N)) :=
  let deadline := sat_add64 (en_elapsed_micros env) (backend_timeout_micros (cn_limits c)) in
  match en_submit_now env with
  | None => (c, Err EInternal)
  | Some now =>
      match manager_limits (rt_resources (cn_runtime c)) request with
      | Some _ =>
          match open_resource (cn_runtime c) request (cn_activations c) now (en_opened env) with
          | (t, ledger, Ok (_, payload)) =>
              (with_activations (with_runtime c t) ledger, Ok (Some payload))
          | (t, ledger, Err error) => (with_activations (with_runtime c t) ledger, Err error)
          end
      | None =>
          match runtime_submit (cn_runtime c) request (en_executor_deadline env) deadline
                  (cn_activations c) now with
          | (t, ledger, Ok _) => (with_activations (with_runtime c t) ledger, Ok None)
          | (t, ledger, Err error) => (with_activations (with_runtime c t) ledger, Err error)
          end
      end
  end.

Definition backend_request (c : Connection) (request_id : N)
  (authorized : CapabilityId * CapabilityScope * GrantBindings)
  (operation : string) (payload : list N) (activation : option ActivationContext)
  : BackendRequest ConnectionIdentity :=
  let '(capability, scope, bindings) := authorized in
  {| bk_identity := cn_identity c; bk_request_id := request_id; bk_capability := capability;
     bk_authorized_scope := scope; bk_bindings := bindings; bk_activation := activation;
     bk_operation := operation; bk_payload := payload |}.

(** A [HostMessage::Request]. *)
Definition handle_call (env : Env) (request_id : N) (phase : CallbackPhase)
  (capability operation : string) (payload : list N) (activation : option ActivationContext)
  : Handler () := fun c =>
  let authorized :=
    authorized ← authorize_request (cn_policy c) phase capability operation;
    _ ← validate_activation_envelope (cn_limits c) phase activation (en_envelope_now env);
    Ok authorized in
  let audit := {| pa_wall_clock_unix_millis := en_wall_clock_unix_millis env;
                  pa_capability := audit_identifier capability;
                  pa_operation := audit_identifier operation;
                  pa_activation := ac_origin <$> activation;
                  pa_request_bytes := len payload |} in
  let '(c1, outcome) :=
    match authorized with
    | Ok a => dispatch env (backend_request c request_id a operation payload activation) c
    | Err error => (c, Err error)
    end in
  match outcome with
  | Ok None =>
      (with_audit c1 (cn_audit c1) (bt_insert request_id audit (cn_pending_audit c1)), Ok ())
  | Ok (Some payload) =>
      (push_audit env audit AuditAllowed None (len payload);;
       send (Response request_id (Success payload))) c1
  | Err error =>
      (push_audit env audit (audit_decision error) (Some error) 0;;
       send (Response request_id (BrokerError error))) c1
  end.

Definition answer (found : bool) : BrokerResult :=
  if found then Success [] else BrokerError EInvalidRequest.

Definition handle_request (env : Env) (request : HostMessage) : Handler () := fun c =>
  let request_id := host_request_id request in
  if (request_id =? 0)%N || (request_id <=? cn_last_request_id c)%N
  then send (Response request_id (BrokerError EInvalidRequest))
         (with_health c (Health.record (cn_health c) Health.ProtocolViolation (en_elapsed_millis env)))
  else
    let c := with_last_request_id c request_id in
    match request with
    | GetCapabilities request_id =>
        send (Capabilities request_id (cn_generation c) (capability_states (cn_policy c))) c
    | Request request_id phase capability operation payload activation =>
        handle_call env request_id phase capability operation payload activation c
    | Cancel request_id target_request_id =>
        let '(t, found) := runtime_cancel (cn_runtime c) target_request_id in
        send (Response request_id (answer found)) (with_runtime c t)
    | Close request_id resource_id =>
        let '(t, found) := runtime_close (cn_runtime c) resource_id in
        send (Response request_id (answer found)) (with_runtime c t)
    end.

(** ** Events *)

Definition handler_pump_completions : Handler () :=
  hmodify (fun c => with_runtime c (pump_completions (cn_runtime c) (cn_generation c)).1).

Definition handler_pump_resource_events : Handler () :=
  hmodify (fun c => with_runtime c (pump_resource_events (cn_runtime c) (cn_generation c)).1).

(** One popped event: a completion settles its pending audit entry. *)
Definition forward (env : Env) (event : Queue.HostEvent) : Handler () :=
  (fun c =>
    match event with
    | Queue.Completion request_id r =>
        match bt_get request_id (cn_pending_audit c) with
        | None => (c, Ok ())
        | Some audit =>
            let c1 := with_audit c (cn_audit c) (bt_remove request_id (cn_pending_audit c)) in
            match r with
            | Success payload => push_audit env audit AuditAllowed None (len payload) c1
            | BrokerError error => push_audit env audit AuditAllowed (Some error) 0 c1
            end
        end
    | _ => (c, Ok ())
    end);;
  send (Queue.into_message event).

Definition queued_events (q : Queue.HostEventQueue) : nat :=
  length (Queue.state_events q) + length (Queue.edge_events q)
  + if (0 <? Queue.dropped_edge_events q)%N then 1 else 0.

Fixpoint flush_with (fuel : nat) (env : Env) : Handler () := fun c =>
  match fuel with
  | O => (c, Ok ())
  | S fuel' =>
      match pop_event (cn_runtime c) with
      | (_, None) => (c, Ok ())
      | (t, Some event) => (forward env event;; flush_with fuel' env) (with_runtime c t)
      end
  end.

Definition flush_events (env : Env) : Handler () := fun c =>
  flush_with (queued_events (rt_events (cn_runtime c))) env c.

(** ** Policy replacement *)

Definition same_authority (old new : EffectiveGrant) : bool :=
  bool_decide (rq_capability (eg_request new) = rq_capability (eg_request old))
  && bool_decide (eg_status new = Granted)
  && bool_decide (rq_scope (eg_request new) = rq_scope (eg_request old))
  && bool_decide (eg_bindings new = eg_bindings old).

(** The capabilities whose authority the new policy does not keep as it was. *)
Definition revoked_capabilities (old new : EffectivePolicy) : list CapabilityId :=
  List.map (fun g => rq_capability (eg_request g))
    (List.filter (fun g => negb (existsb (same_authority g) (ep_grants new)))
      (List.filter (fun g => bool_decide (eg_status g = Granted)) (ep_grants old))).

Definition revoke_capabilities (t : @Runtime ConnectionIdentity B RB) (l : list CapabilityId) (generation : N) :=
  fold_left (fun t c => (runtime_revoke t c generation).1.1) l t.

Definition announce (revoked : list CapabilityId) (old : list CapabilityState)
  (state : CapabilityState) : Handler () := fun c =>
  if negb (bool_decide (state ∈ old))
     || existsb (fun capability => String.eqb (capability_to_string capability) (cs_capability state)) revoked
  then match Queue.push_capability (rt_events (cn_runtime c)) (cn_generation c) state with
       | (q, Ok _) => (with_runtime c (with_events (cn_runtime c) q), Ok ())
       | (_, Err _) => (c, Err (Malformed "capability event queue exhausted"))
       end
  else (c, Ok ()).

Fixpoint announce_all (revoked : list CapabilityId) (old new : list CapabilityState) : Handler () :=
  match new with
  | [] => hret ()
  | state :: new' => announce revoked old state;; announce_all revoked old new'
  end.

Definition replace_policy (env : Env) (policy : EffectivePolicy) : Handler () := fun c =>
  let old := capability_states (cn_policy c) in
  let new := capability_states policy in
  let revoked := revoked_capabilities (cn_policy c) policy in
  let next_generation := sat_add64 (cn_generation c) 1 in
  let c1 := with_policy (with_runtime c (revoke_capabilities (cn_runtime c) revoked next_generation))
              policy next_generation in
  if ep_blocked policy
  then send (Shutdown next_generation EDenied)
         (with_stopped (with_activations (with_runtime c1 (runtime_revoke_all (cn_runtime c1)).1)
            (Activation.clear (cn_activations c1))))
  else (announce_all revoked old new;; flush_events env) c1.

(** ** The connection *)

Definition connection_new (identity : ConnectionIdentity) (policy : EffectivePolicy)
  (limits : ConnectionLimits) (version : string) : result TransportError Connection :=
  _ ← reject_if (cl_maximum_edge_events limits <? limit_active_operations (cl_executor limits))%N
        (Malformed "edge event capacity must cover every active backend operation");
  _ ← reject_if (backend_timeout_micros limits =? 0)%N
        (Malformed "backend timeout must be greater than zero");
  _ ← reject_if (maximum_activation_lifetime_micros limits =? 0)%N
        (Malformed "activation lifetime must be greater than zero");
  t ← map_err Malformed (runtime_new (cl_executor limits) (cl_lifecycle limits)
        (cl_maximum_state_events limits) (cl_maximum_edge_events limits));
  Ok {| cn_identity := identity; cn_policy := policy; cn_generation := 1; cn_limits := limits;
        cn_last_request_id := 0; cn_runtime := t;
        cn_activations := Activation.new (maximum_consumed_activations limits);
        cn_audit := audit_new (pk_source (ci_package identity)) version
          (pk_digest (ci_package identity)) (ci_instance_id identity) (maximum_audit_records limits);
        cn_pending_audit := []; cn_health := Health.new (cl_health limits); cn_stopped := false;
        cn_sent := [] |}.

(** The work of [serve_loop] after each kind of wake-up. *)
Definition settle (env : Env) : Handler () :=
  handler_pump_completions;; handler_pump_resource_events;; flush_events env.

Definition serve_request (env : Env) (request : HostMessage) : Handler () :=
  handle_request env request;; settle env.
Definition serve_completions (env : Env) : Handler () :=
  handler_pump_completions;; flush_events env.
Definition serve_resources (env : Env) : Handler () :=
  handler_pump_resource_events;; flush_events env.
End Connection.

(** ** What the runtime's operations keep *)

Section RuntimeBalance.
Context {Identity B RB : Type} `{!Backend Identity B} `{!ResourceBackend Identity RB}.
Implicit Types (t : @Runtime Identity B RB).

Definition completion_ids (l : list Queue.HostEvent) : list N :=
  omap (fun e => match e with Queue.Completion id _ => Some id | _ => None end) l.

(** The requests a runtime still owes an answer: in flight, or completed and
    queued for the host. *)
Definition owed t : list N :=
  in_flight (rt_executor t) ++ completion_ids (Queue.edge_events (rt_events t)).

(** The operation keeps the invariant and the limits, and owes [extra] more. *)
Record carries (extra : list N) t t' : Prop := {
  ca_inv : rt_inv t';
  ca_limits : ex_limits (rt_executor t') = ex_limits (rt_executor t);
  ca_maximum : Queue.maximum_edge_events (rt_events t') = Queue.maximum_edge_events (rt_events t);
  ca_owed : owed t' ≡ₚ extra ++ owed t;
}.

Lemma completion_ids_app l k : completion_ids (l ++ k) = completion_ids l ++ completion_ids k.
Proof. apply omap_app. Qed.

Lemma carries_refl t : rt_inv t -> carries [] t t.
Proof. done. Qed.

Lemma carries_trans e1 e2 t1 t2 t3 :
  carries e1 t1 t2 -> carries e2 t2 t3 -> carries (e2 ++ e1) t1 t3.
Proof.
  intros [] []. split; [done|congruence..|]. rewrite ca_owed1, ca_owed0. by rewrite app_assoc.
Qed.

Lemma carries_trans_l e t1 t2 t3 : carries [] t1 t2 -> carries e t2 t3 -> carries e t1 t3.
Proof. intros H1 H2. rewrite <- (app_nil_r e). by eapply carries_trans. Qed.
Lemma carries_trans_r e t1 t2 t3 : carries e t1 t2 -> carries [] t2 t3 -> carries e t1 t3.
Proof. intros H1 H2. by apply (carries_trans e []) with t2. Qed.

Lemma cancel_where_flight (f : ActiveOperation -> bool) (e : @Executor Identity B) :
  in_flight (cancel_where f e).1 = in_flight e /\ ex_limits (cancel_where f e).1 = ex_limits e.
Proof. done. Qed.

Lemma executor_cancel_flight (e : @Executor Identity B) id :
  in_flight (executor_cancel e id).1 = in_flight e /\ ex_limits (executor_cancel e id).1 = ex_limits e.
Proof. unfold executor_cancel. by case_match. Qed.

Lemma push_edges_completions q l g :
  completion_ids (Queue.edge_events (push_edges q l g)) = completion_ids (Queue.edge_events q) /\
  Queue.maximum_edge_events (push_edges q l g) = Queue.maximum_edge_events q.
Proof.
  unfold push_edges. revert q. induction l as [|[[id n] r] l IH]; intros q; [done|]. simpl.
  destruct (IH (Queue.push_resource q id n r g)) as [-> ->].
  unfold Queue.push_resource, Queue.push_edge. case_match; [done|]. simpl.
  by rewrite completion_ids_app, app_nil_r.
Qed.

Lemma finish_events_completions q l dropped g :
  completion_ids (Queue.edge_events (finish_events q l dropped g)) =
    completion_ids (Queue.edge_events q) /\
  Queue.maximum_edge_events (finish_events q l dropped g) = Queue.maximum_edge_events q.
Proof.
  unfold finish_events. destruct (push_edges_completions q l g) as [H1 H2].
  by destruct (0 <? dropped)%N; simpl; rewrite ?H1, ?H2.
Qed.

Lemma carries_submit t request deadline micros ledger now t' ledger' r :
  rt_inv t -> runtime_submit t request deadline micros ledger now = (t', ledger', r) ->
  carries (if is_ok r then [bk_request_id request] else []) t t' /\ rt_events t' = rt_events t.
Proof.
  intros Ht Hs. pose proof (rt_inv_submit _ _ _ _ _ _ _ _ _ Ht Hs) as Ht'. revert Hs.
  unfold runtime_submit. destruct (Lifecycle.begin _ _ _ _) as [l [u|e]]; [|by intros [= <- <- <-]].
  destruct (submit _ _ _ _ _) as [[e l'] [[]|code]] eqn:Hs; intros [= <- <- <-].
  - split; [|done]. split; simpl; [done| |done|].
    + by apply submit_Ok in Hs as (b & d & _ & _ & _ & _ & _ & _ & _ & ->).
    + apply inv_submit in Hs as [_ Hf]; [|by destruct Ht]. unfold owed. simpl. by rewrite Hf.
  - apply submit_Err in Hs as ->. by split.
Qed.

Lemma carries_open t request ledger now opened t' ledger' r :
  rt_inv t -> open_resource t request ledger now opened = (t', ledger', r) ->
  carries [] t t' /\ rt_events t' = rt_events t.
Proof.
  intros Ht Ho. pose proof (rt_inv_open _ _ _ _ _ _ _ _ Ht Ho) as Ht'. revert Ho.
  unfold open_resource. repeat case_match; intros [= <- <- <-]; simplify_eq; by split.
Qed.

Lemma carries_cancel t id :
  rt_inv t -> carries [] t (runtime_cancel t id).1 /\ rt_events (runtime_cancel t id).1 = rt_events t.
Proof.
  intros Ht. pose proof (rt_inv_cancel t id Ht) as Ht'. unfold runtime_cancel in *.
  destruct (executor_cancel_flight (rt_executor t) id) as [Hf Hl].
  destruct (executor_cancel _ _) as [e b]. simpl in *. split; [|done]. split; simpl; [done..|].
  unfold owed. simpl. by rewrite Hf.
Qed.

Lemma carries_close t id :
  rt_inv t -> carries [] t (runtime_close t id).1 /\ rt_events (runtime_close t id).1 = rt_events t.
Proof.
  intros Ht. destruct (runtime_close t id) as [t' b] eqn:Hc.
  pose proof (rt_inv_close _ _ _ _ Ht Hc) as Ht'. revert Hc. unfold runtime_close.
  destruct (manager_close _ _), (Lifecycle.close_resource _ _). intros [= <- _]. by split.
Qed.

Lemma carries_revoke t c g : rt_inv t -> carries [] t (runtime_revoke t c g).1.1.
Proof.
  intros Ht. destruct (runtime_revoke t c g) as [[t' effect] edges] eqn:Hr.
  pose proof (rt_inv_revoke _ _ _ _ _ _ Ht Hr) as Ht'. revert Hr. unfold runtime_revoke.
  destruct (Lifecycle.revoke _ _), (manager_revoke _ _) as [m ed]. intros [= <- _ _].
  destruct (push_edges_completions (rt_events t) ed g) as [He Hm].
  split; simpl; [done..|]. unfold owed. simpl. by rewrite He.
Qed.

Lemma carries_revoke_all t : rt_inv t -> carries [] t (runtime_revoke_all t).1.
Proof.
  intros Ht. destruct (runtime_revoke_all t) as [t' effect] eqn:Hr.
  pose proof (rt_inv_revoke_all _ _ _ Ht Hr) as Ht'. unfold runtime_revoke_all in Hr.
  injection Hr as <- <-. by split.
Qed.

Lemma carries_revoke_list t l g : rt_inv t ->
  carries [] t (fold_left (fun t c => (runtime_revoke t c g).1.1) l t).
Proof.
  revert t. induction l as [|c l IH]; intros t Ht; [by apply carries_refl|]. simpl.
  pose proof (carries_revoke t c g Ht) as H1. eapply carries_trans_l; [exact H1|]. apply IH, H1.
Qed.

(** The queue has room for every completion, so none is dropped. *)
Lemma carries_completions t g :
  rt_inv t ->
  (len (Queue.edge_events (rt_events t)) + len (ex_completions (rt_executor t))
    <= Queue.maximum_edge_events (rt_events t))%N ->
  carries [] t (pump_completions t g).1.
Proof.
  unfold pump_completions. remember (ex_completions (rt_executor t)) as l eqn:Hl.
  revert t Hl. induction l as [|c l IH]; intros t Hl Ht Hroom; [by apply carries_refl|]. simpl.
  assert (Hp : exists t1, pump_completion t g = Some t1 /\ ex_completions (rt_executor t1) = l /\
    carries [] t t1 /\ Queue.edge_events (rt_events t1) =
      Queue.edge_events (rt_events t) ++ [Queue.Completion (bc_request_id c) (bc_result c)]).
  { destruct (pump_completion t g) as [t1|] eqn:Hp; [|unfold pump_completion, try_completion in Hp;
      rewrite <- Hl in Hp; done].
    pose proof (rt_inv_completion _ _ _ Ht Hp) as Ht1. exists t1. split; [done|].
    unfold pump_completion, try_completion in Hp. rewrite <- Hl in Hp. injection Hp as <-.
    rewrite len_cons in Hroom.
    assert (Hpush : Queue.push_completion (rt_events t) (bc_request_id c) (bc_result c) g =
      Queue.with_edges (rt_events t)
        (Queue.edge_events (rt_events t) ++ [Queue.Completion (bc_request_id c) (bc_result c)])
        (Queue.dropped_edge_events (rt_events t)) (Queue.overflow_generation (rt_events t))).
    { unfold Queue.push_completion, Queue.push_edge.
      destruct (N.eqb_spec (len (Queue.edge_events (rt_events t))) (Queue.maximum_edge_events (rt_events t)));
        [lia|done]. }
    split; [done|]. split; [|simpl; by rewrite Hpush]. split; simpl; [done|done|by rewrite Hpush|].
    unfold owed, in_flight. simpl. rewrite Hpush, <- Hl. simpl. rewrite completion_ids_app. simpl.
    solve_Permutation. }
  destruct Hp as (t1 & -> & Hl1 & Hc & He).
  destruct (pump_completions_with (length l) t1 g) as [t2 n] eqn:Hw. simpl.
  eapply carries_trans_l; [exact Hc|]. change t2 with (t2, n).1. rewrite <- Hw.
  apply IH; [done|apply Hc|]. rewrite He, (ca_maximum _ _ _ Hc), !len_app, len_cons, len_nil.
  rewrite len_cons in Hroom. lia.
Qed.

(** Pumping resource events closes the same resources on both sides. *)
Definition live (m : ResourceManager RB) (x : N) : Prop := is_Some (entry m x).

Lemma deliver_live (m : ResourceManager RB) id r x : live (deliver m id r).1 x <-> live m x.
Proof.
  unfold live. destruct (deliver m id r) as [m' edges] eqn:Hd.
  destruct (deliver_spec _ _ _ _ _ x Hd) as (He & _). simpl. rewrite He.
  case_decide; [|done]. by rewrite fmap_is_Some.
Qed.

Lemma drain_live fuel (m : ResourceManager RB) x : live (pump_drain fuel m).1 x <-> live m x.
Proof.
  revert m. induction fuel as [|fuel IH]; intros m; [done|]. simpl.
  unfold pump_receive. destruct (rm_channel m) as [|e rest] eqn:Hch; [done|].
  pose proof (deliver_live (with_channel m rest (rm_dropped m)) (ie_resource_id e) (ie_result e) x) as Hd.
  destruct (deliver _ _ _) as [m1 e1]. specialize (IH m1).
  destruct (pump_drain fuel m1) as [m2 e2]. simpl in *. by rewrite IH, Hd.
Qed.

Lemma terminals_live ids (m : ResourceManager RB) x : live (pump_terminals m ids).1 x <-> live m x.
Proof.
  revert m. induction ids as [|id ids IH]; intros m; [done|]. simpl.
  assert (live (pump_terminal m id).1 x <-> live m x) as Ht.
  { unfold pump_terminal. destruct (bt_get id _); [|done]. rewrite deliver_live. done. }
  destruct (pump_terminal m id) as [m1 e1]. specialize (IH m1).
  destruct (pump_terminals m1 ids) as [m2 e2]. simpl in *. by rewrite IH, Ht.
Qed.

Lemma carries_pump t g : rt_inv t -> carries [] t (pump_resource_events t g).1.
Proof.
  intros Ht. unfold pump_resource_events, pump.
  destruct (pump_drain _ _) as [m1 received] eqn:Hdrain.
  set (finished := List.filter _ _).
  destruct (pump_finish m1 finished) as [[m2 terminals] dropped] eqn:Hf. simpl.
  fold (finish_events (push_edges (rt_events t) received g) terminals dropped g).
  destruct (push_edges_completions (rt_events t) received g) as [He1 Hm1].
  destruct (finish_events_completions (push_edges (rt_events t) received g) terminals dropped g) as [He2 Hm2].
  assert (Hlive : forall x, live m2 x <-> live (rt_resources t) x /\ x ∉ finished).
  { intros x. unfold pump_finish in Hf. pose proof (terminals_live finished m1 x) as Ht1.
    destruct (pump_terminals m1 finished) as [m3 e3]. injection Hf as <- _ _. simpl in Ht1.
    destruct (close_many_spec finished (with_channel m3 (rm_channel m3) 0) x) as (Hc & _).
    unfold live in *. rewrite Hc. change (entry (with_channel m3 _ _) x) with (entry m3 x).
    pose proof (drain_live (length (rm_channel (rt_resources t))) (rt_resources t) x) as Hd.
    rewrite Hdrain in Hd. unfold live in Hd. simpl in Hd. rewrite <- Hd, <- Ht1.
    case_decide; [|tauto]. split; [by intros [? ?]|tauto]. }
  pose proof Ht as []. split; simpl; [|done|congruence|].
  - split; simpl; [by apply close_tracked_inv|done| |].
    + intros x. destruct (close_tracked_entries finished (rt_lifecycle t) x) as [-> _].
      fold (live m2 x). rewrite Hlive. unfold live. rewrite <- rti_agree.
      case_decide; [|tauto]. split; [by intros [? ?]|tauto].
    + intros x o. destruct (close_tracked_entries finished (rt_lifecycle t) x) as [_ ->]. apply rti_charged.
  - unfold owed. simpl. by rewrite He2, He1.
Qed.
End RuntimeBalance.

(** ** What the handlers keep *)

Section ConnectionFacts.
Context `{SemVer} {B RB : Type}.
Context `{!Backend ConnectionIdentity B} `{!ResourceBackend ConnectionIdentity RB}.
Implicit Types (c : @Connection _ B RB).

Definition response_ids (l : list SupervisorMessage) : list N :=
  omap (fun m => match m with Response id _ | Capabilities id _ _ => Some id | _ => None end) l.

Lemma response_ids_app l k : response_ids (l ++ k) = response_ids l ++ response_ids k.
Proof. apply omap_app. Qed.

(** Every request id the connection answered or still owes an answer. *)
Definition balance c : list N := response_ids (cn_sent c) ++ owed (cn_runtime c).

Record moves (extra : list N) c c' : Prop := {
  mv_inv : rt_inv (cn_runtime c');
  mv_limits : ex_limits (rt_executor (cn_runtime c')) = ex_limits (rt_executor (cn_runtime c));
  mv_maximum : Queue.maximum_edge_events (rt_events (cn_runtime c')) =
    Queue.maximum_edge_events (rt_events (cn_runtime c));
  mv_balance : balance c' ≡ₚ extra ++ balance c;
  mv_last : cn_last_request_id c' = cn_last_request_id c;
  mv_stopped : cn_stopped c' = cn_stopped c;
}.

Lemma moves_trans e1 e2 c1 c2 c3 : moves e1 c1 c2 -> moves e2 c2 c3 -> moves (e2 ++ e1) c1 c3.
Proof.
  intros [] []. split; [done|congruence..| |congruence|congruence].
  rewrite mv_balance1, mv_balance0. by rewrite app_assoc.
Qed.

Lemma moves_trans_l e c1 c2 c3 : moves [] c1 c2 -> moves e c2 c3 -> moves e c1 c3.
Proof. intros H1 H2. rewrite <- (app_nil_r e). by eapply moves_trans. Qed.

Lemma moves_runtime extra c t : carries extra (cn_runtime c) t -> moves extra c (with_runtime c t).
Proof.
  intros []. split; try done. unfold balance. simpl. rewrite ca_owed0.
  solve_Permutation.
Qed.

Lemma hbind_Ok {A A'} (m : Handler A) (k : A -> Handler A') c c' a :
  hbind m k c = (c', Ok a) -> exists c1 x, m c = (c1, Ok x) /\ k x c1 = (c', Ok a).
Proof. unfold hbind. destruct (m c) as [c1 [x|e]]; [eauto|done]. Qed.

Lemma send_Ok m c c' u : send m c = (c', Ok u) -> c' = with_sent c (cn_sent c ++ [m]).
Proof. unfold send. destruct (encode_supervisor m); [by intros [= <-]|done]. Qed.

(** Sending one message answers the id it carries. *)
Lemma send_moves m c c' u : rt_inv (cn_runtime c) -> send m c = (c', Ok u) ->
  moves (response_ids [m]) c c' /\ cn_runtime c' = cn_runtime c.
Proof.
  intros Ht ->%send_Ok. split; [|done]. split; try done. unfold balance. simpl.
  rewrite response_ids_app. solve_Permutation.
Qed.

Lemma push_audit_frame env audit decision error bytes c c' r :
  push_audit env audit decision error bytes c = (c', r) ->
  exists log, c' = with_audit c log (cn_pending_audit c).
Proof. unfold push_audit. destruct (audit_push _ _) as [log record]. intros [= <- _]. eauto. Qed.

Lemma forward_Ok env event c c' u : forward env event c = (c', Ok u) ->
  exists log waiting, c' = with_sent (with_audit c log waiting) (cn_sent c ++ [Queue.into_message event]).
Proof.
  unfold forward. intros (c1 & [] & H1 & ->%send_Ok)%hbind_Ok.
  assert (exists log waiting, c1 = with_audit c log waiting) as (log & waiting & ->); [|by exists log, waiting].
  destruct event; try (injection H1 as <-; by exists (cn_audit c), (cn_pending_audit c); destruct c).
  destruct (bt_get request_id (cn_pending_audit c)) as [audit|].
  - destruct r; apply push_audit_frame in H1 as [log ->]; eauto.
  - injection H1 as <-. by exists (cn_audit c), (cn_pending_audit c); destruct c.
Qed.

Lemma pop_spec (t t' : @Runtime ConnectionIdentity B RB) event :
  rt_inv t -> pop_event t = (t', Some event) ->
  rt_inv t' /\ rt_executor t' = rt_executor t /\
  Queue.maximum_edge_events (rt_events t') = Queue.maximum_edge_events (rt_events t) /\
  response_ids [Queue.into_message event] ++ completion_ids (Queue.edge_events (rt_events t')) =
    completion_ids (Queue.edge_events (rt_events t)) /\
  queued_events (rt_events t') < queued_events (rt_events t).
Proof.
  intros Ht Hp. pose proof (rt_inv_step t Idle [] t' Idle Ht) as Ht'.
  assert (rt_inv t').
  { apply Ht'. change t' with (t', Some event).1. rewrite <- Hp. apply rts_pop. }
  split; [done|]. revert Hp. unfold pop_event, Queue.pop, queued_events.
  destruct (Queue.state_events (rt_events t)) as [|[k [g st]] rest] eqn:Hst.
  - destruct (Queue.edge_events (rt_events t)) as [|e edges] eqn:He.
    + destruct (0 <? Queue.dropped_edge_events (rt_events t))%N eqn:Hd; [|done].
      intros [= <- <-]. simpl. rewrite Hst. repeat split. simpl. lia.
    + intros [= <- <-]. simpl. rewrite Hst. repeat split; [by destruct e|simpl; lia].
  - intros [= <- <-]. repeat split. simpl. unfold bt_remove. simpl. rewrite cmp_refl.
    pose proof (filter_length_le (fun e : string * (N * CapabilityState) =>
      match cmp k e.1 with Eq => false | _ => true end) rest). lia.
Qed.

Lemma pop_None (t t' : @Runtime ConnectionIdentity B RB) :
  pop_event t = (t', None) -> queued_events (rt_events t) = 0 /\ Queue.edge_events (rt_events t) = [].
Proof.
  unfold pop_event, Queue.pop, queued_events.
  destruct (Queue.state_events (rt_events t)) as [|[k [g st]] rest]; [|done].
  destruct (Queue.edge_events (rt_events t)) as [|e edges]; [|done].
  by destruct (0 <? Queue.dropped_edge_events (rt_events t))%N.
Qed.

Lemma flush_with_moves fuel env c c' u :
  rt_inv (cn_runtime c) -> flush_with fuel env c = (c', Ok u) ->
  moves [] c c' /\ (queued_events (rt_events (cn_runtime c)) <= fuel ->
    queued_events (rt_events (cn_runtime c')) = 0).
Proof.
  revert c. induction fuel as [|fuel IH]; intros c Ht; cbn [flush_with].
  - intros [= <-]. split; [done|lia].
  - destruct (pop_event (cn_runtime c)) as [t [event|]] eqn:Hp.
    + intros (c1 & [] & H1 & H2)%hbind_Ok. apply forward_Ok in H1 as (log & waiting & ->).
      apply pop_spec in Hp as (Ht' & He & Hm & Hids & Hlt); [|done].
      destruct (IH (with_sent (with_audit (with_runtime c t) log waiting)
        (cn_sent (with_runtime c t) ++ [Queue.into_message event])) Ht' H2) as [Hmoves Hempty]. cbn [cn_runtime with_sent with_audit with_runtime] in Hempty.
      split; [|intros; apply Hempty; lia]. eapply moves_trans_l; [|exact Hmoves].
      split; simpl; try done; [by rewrite He|]. unfold balance, owed. simpl.
      rewrite response_ids_app, He, <- Hids. solve_Permutation.
    + intros [= <-]. split; [done|]. by apply pop_None in Hp as [-> _].
Qed.

Lemma flush_moves env c c' u : rt_inv (cn_runtime c) -> flush_events env c = (c', Ok u) ->
  moves [] c c' /\ Queue.edge_events (rt_events (cn_runtime c')) = [].
Proof.
  intros Ht Hf. unfold flush_events in Hf. apply flush_with_moves in Hf as [Hm Hq]; [|done].
  split; [done|]. specialize (Hq (le_n _)). unfold queued_events in Hq.
  apply nil_length_inv. lia.
Qed.

(** *** Requests *)

(** The checks a request passes before a backend sees it. *)
Definition fresh c (id : N) : Prop := (cn_last_request_id c < id)%N.

Lemma fresh_spec c id :
  (id =? 0)%N || (id <=? cn_last_request_id c)%N = false <-> fresh c id.
Proof.
  unfold fresh. rewrite orb_false_iff, N.eqb_neq, N.leb_gt. split; [tauto|]. intros ?. split; lia.
Qed.

Lemma dispatch_moves env request c c' r :
  rt_inv (cn_runtime c) -> dispatch env request c = (c', r) ->
  moves (match r with Ok None => [bk_request_id request] | _ => [] end) c c' /\
  rt_events (cn_runtime c') = rt_events (cn_runtime c).
Proof.
  intros Ht. unfold dispatch. destruct (en_submit_now env) as [now|]; [|by intros [= <- <-]].
  destruct (manager_limits _ _).
  - destruct (open_resource _ _ _ _ _) as [[t l] [[id payload]|e]] eqn:Ho; intros [= <- <-];
      apply carries_open in Ho as [Hc He]; try done; (split; [|done]);
      apply (moves_runtime []) in Hc; destruct Hc; split; try done.
  - destruct (runtime_submit _ _ _ _ _ _) as [[t l] [u|e]] eqn:Hs; intros [= <- <-];
      apply carries_submit in Hs as [Hc He]; try done; (split; [|done]); simpl in Hc;
      apply moves_runtime in Hc; by destruct Hc.
Qed.

Lemma audited_send_moves env audit decision error bytes id result c c' u :
  rt_inv (cn_runtime c) ->
  hbind (push_audit env audit decision error bytes) (fun _ => send (Response id result)) c = (c', Ok u) ->
  moves [id] c c' /\ cn_runtime c' = cn_runtime c.
Proof.
  intros Ht (c1 & v & [log ->]%push_audit_frame & Hs)%hbind_Ok. apply send_moves in Hs as [Hm Hr]; [|done].
  split; [by destruct Hm|done].
Qed.

Lemma handle_call_moves env id phase capability operation payload activation c c' u :
  rt_inv (cn_runtime c) ->
  handle_call env id phase capability operation payload activation c = (c', Ok u) ->
  moves [id] c c' /\ rt_events (cn_runtime c') = rt_events (cn_runtime c).
Proof.
  intros Ht. unfold handle_call.
  destruct (_ ≫= _) as [authorized|error].
  - set (request := backend_request c id authorized operation payload activation).
    assert (Hid : bk_request_id request = id) by by destruct authorized as [[? ?] ?].
    destruct (dispatch env request c) as [c1 outcome] eqn:Hd.
    apply dispatch_moves in Hd as [Hm He]; [|done]. rewrite Hid in Hm.
    destruct outcome as [[result|]|error].
    + intros H1. apply audited_send_moves in H1 as [Hm' Hr]; [|by destruct Hm]. rewrite Hr.
      split; [by eapply moves_trans_l|done].
    + intros [= <-]. split; [by destruct Hm|done].
    + intros H1. apply audited_send_moves in H1 as [Hm' Hr]; [|by destruct Hm]. rewrite Hr.
      split; [by eapply moves_trans_l|done].
  - intros H1. apply audited_send_moves in H1 as [Hm' Hr]; [|done]. by rewrite Hr.
Qed.

Lemma handle_request_moves env m c c' u :
  rt_inv (cn_runtime c) -> handle_request env m c = (c', Ok u) ->
  rt_inv (cn_runtime c') /\
  ex_limits (rt_executor (cn_runtime c')) = ex_limits (rt_executor (cn_runtime c)) /\
  rt_events (cn_runtime c') = rt_events (cn_runtime c) /\
  cn_stopped c' = cn_stopped c /\ balance c' ≡ₚ host_request_id m :: balance c /\
  cn_last_request_id c' =
    (if (host_request_id m =? 0)%N || (host_request_id m <=? cn_last_request_id c)%N
     then cn_last_request_id c else host_request_id m).
Proof.
  intros Ht. unfold handle_request. destruct (_ || _).
  - intros Hs. apply send_moves in Hs as [[] Hr]; [|done]. rewrite Hr in *. split; [done|].
    split; [done|]. split; [done|]. split; [done|]. by split.
  - set (c0 := with_last_request_id c (host_request_id m)).
    assert (Hgoal : forall c1, moves [host_request_id m] c0 c1 ->
      rt_events (cn_runtime c1) = rt_events (cn_runtime c) ->
      rt_inv (cn_runtime c1) /\
      ex_limits (rt_executor (cn_runtime c1)) = ex_limits (rt_executor (cn_runtime c)) /\
      rt_events (cn_runtime c1) = rt_events (cn_runtime c) /\
      cn_stopped c1 = cn_stopped c /\ balance c1 ≡ₚ host_request_id m :: balance c /\
      cn_last_request_id c1 = host_request_id m) by (intros c1 [] ?; do 5 (split; [done|]); done).
    assert (Hrun : forall t id0 r, carries [] (cn_runtime c0) t /\ rt_events t = rt_events (cn_runtime c) ->
      send (Response id0 r) (with_runtime c0 t) = (c', Ok u) -> id0 = host_request_id m ->
      moves [host_request_id m] c0 c' /\ rt_events (cn_runtime c') = rt_events (cn_runtime c)).
    { intros t id0 r [Hc He] Hs ->. apply moves_runtime in Hc.
      apply send_moves in Hs as [Hm Hr]; [|by destruct Hc]. rewrite Hr.
      split; [by eapply moves_trans_l|done]. }
    destruct m as [id|id phase capability operation payload activation|id target|id resource].
    + intros Hs. apply send_moves in Hs as [Hm Hr]; [|done]. apply Hgoal; [done|by rewrite Hr].
    + intros Hs. apply handle_call_moves in Hs as [Hm Hr]; [|done]. by apply Hgoal.
    + pose proof (carries_cancel (cn_runtime c0) target Ht) as Hc.
      destruct (runtime_cancel _ _) as [t found]. intros Hs.
      destruct (Hrun t id (answer found) Hc Hs eq_refl). by apply Hgoal.
    + pose proof (carries_close (cn_runtime c0) resource Ht) as Hc.
      destruct (runtime_close _ _) as [t found]. intros Hs.
      destruct (Hrun t id (answer found) Hc Hs eq_refl). by apply Hgoal.
Qed.

(** *** Policy replacement *)

Lemma announce_moves revoked old state c c' u :
  rt_inv (cn_runtime c) -> announce revoked old state c = (c', Ok u) -> moves [] c c'.
Proof.
  intros Ht. unfold announce. destruct (_ || _); [|by intros [= <-]].
  destruct (Queue.push_capability _ _ _) as [q [v|e]] eqn:Hp; [|done]. intros [= <-].
  assert (Queue.edge_events q = Queue.edge_events (rt_events (cn_runtime c)) /\
    Queue.maximum_edge_events q = Queue.maximum_edge_events (rt_events (cn_runtime c))) as [He Hm].
  { revert Hp. unfold Queue.push_capability. case_match; [done|]. by intros [= <- _]. }
  apply (moves_runtime []). split; simpl; [by destruct Ht|done|done|]. unfold owed. simpl. by rewrite He.
Qed.

Lemma announce_all_moves revoked old new c c' u :
  rt_inv (cn_runtime c) -> announce_all revoked old new c = (c', Ok u) -> moves [] c c'.
Proof.
  revert c. induction new as [|state new IH]; intros c Ht; simpl; [by intros [= <-]|].
  intros (c1 & v & H1 & H2)%hbind_Ok. apply announce_moves in H1; [|done].
  eapply moves_trans_l; [exact H1|]. apply IH; [apply H1|done].
Qed.

Lemma replace_policy_moves env policy c c' u :
  rt_inv (cn_runtime c) -> cn_stopped c = false -> replace_policy env policy c = (c', Ok u) ->
  rt_inv (cn_runtime c') /\
  ex_limits (rt_executor (cn_runtime c')) = ex_limits (rt_executor (cn_runtime c)) /\
  Queue.maximum_edge_events (rt_events (cn_runtime c')) =
    Queue.maximum_edge_events (rt_events (cn_runtime c)) /\
  balance c' ≡ₚ balance c /\ cn_last_request_id c' = cn_last_request_id c /\
  (cn_stopped c' = false -> Queue.edge_events (rt_events (cn_runtime c')) = []).
Proof.
  intros Ht Hstop. unfold replace_policy.
  set (revoked := revoked_capabilities _ _). set (generation := sat_add64 _ _).
  pose proof (carries_revoke_list (cn_runtime c) revoked generation Ht) as Hc.
  fold (revoke_capabilities (cn_runtime c) revoked generation) in Hc.
  set (t := revoke_capabilities _ _ _) in *. apply moves_runtime in Hc as Hm.
  destruct (ep_blocked policy).
  - set (c1 := with_policy _ _ _). intros Hs.
    pose proof (carries_revoke_all t (ca_inv _ _ _ Hc)) as Hall.
    apply send_Ok in Hs as ->. simpl. destruct Hm, Hall. simpl in *.
    split; [done|]. split; [congruence|]. split; [congruence|]. split; [|by split].
    unfold balance. simpl. rewrite response_ids_app, app_nil_r, ca_owed0. by apply mv_balance0.
  - intros (c2 & v & H1 & H2)%hbind_Ok. apply announce_all_moves in H1; [|by destruct Hm].
    apply flush_moves in H2 as [Hf He]; [|by destruct H1].
    pose proof (moves_trans_l _ _ _ _ H1 Hf) as []. destruct Hm. simpl in *.
    split; [done|]. split; [congruence|]. split; [congruence|]. split; [|split; [congruence|done]].
    by rewrite mv_balance0, mv_balance1.
Qed.

(** ** Histories of a connection *)

Inductive clabel := CInternal | CHandled (id : N) | CRejected (id : N).

Definition request_label c (m : HostMessage) : clabel :=
  let id := host_request_id m in
  if (id =? 0)%N || (id <=? cn_last_request_id c)%N then CRejected id else CHandled id.

Inductive cstep : @Connection _ B RB -> clabel -> @Connection _ B RB -> Prop :=
| cs_worker c e : worker_acts (rt_executor (cn_runtime c)) e ->
    cstep c CInternal (with_runtime c (with_executor (cn_runtime c) e))
| cs_producer c l m : producer (rt_resources (cn_runtime c)) l m ->
    cstep c CInternal (with_runtime c (with_manager (cn_runtime c) m))
| cs_register c k b : cstep c CInternal (with_runtime c (runtime_register (cn_runtime c) k b))
| cs_register_resource c k b :
    cstep c CInternal (with_runtime c (register_resource (cn_runtime c) k b))
| cs_request c env m c' : cn_stopped c = false -> serve_request env m c = (c', Ok ()) ->
    cstep c (request_label c m) c'
| cs_settle c env c' : cn_stopped c = false -> settle env c = (c', Ok ()) -> cstep c CInternal c'
| cs_completions c env c' : cn_stopped c = false -> serve_completions env c = (c', Ok ()) ->
    cstep c CInternal c'
| cs_resources c env c' : cn_stopped c = false -> serve_resources env c = (c', Ok ()) ->
    cstep c CInternal c'
| cs_policy c env policy c' : cn_stopped c = false -> replace_policy env policy c = (c', Ok ()) ->
    cstep c CInternal c'.

Inductive cruns (c0 : @Connection _ B RB) : list clabel -> @Connection _ B RB -> Prop :=
| cruns_nil : cruns c0 [] c0
| cruns_snoc ls c l c' : cruns c0 ls c -> cstep c l c' -> cruns c0 (ls ++ [l]) c'.

Definition handled (ls : list clabel) : list N :=
  omap (fun l => match l with CHandled id => Some id | _ => None end) ls.
Definition rejected (ls : list clabel) : list N :=
  omap (fun l => match l with CRejected id => Some id | _ => None end) ls.

(** The state between two wake-ups. *)
Record cinv c : Prop := {
  ci_runtime : rt_inv (cn_runtime c);
  ci_capacity : (limit_active_operations (ex_limits (rt_executor (cn_runtime c))) <=
    Queue.maximum_edge_events (rt_events (cn_runtime c)))%N;
  ci_settled : cn_stopped c = false -> Queue.edge_events (rt_events (cn_runtime c)) = [];
}.

(** With an empty edge queue every completion fits. *)
Lemma completions_fit c : rt_inv (cn_runtime c) ->
  (limit_active_operations (ex_limits (rt_executor (cn_runtime c))) <=
    Queue.maximum_edge_events (rt_events (cn_runtime c)))%N ->
  Queue.edge_events (rt_events (cn_runtime c)) = [] ->
  (len (Queue.edge_events (rt_events (cn_runtime c))) + len (ex_completions (rt_executor (cn_runtime c)))
    <= Queue.maximum_edge_events (rt_events (cn_runtime c)))%N.
Proof.
  intros [_ [] _ _] Hcap ->. rewrite len_nil.
  assert (length (in_flight (rt_executor (cn_runtime c))) = length (bt_keys (ex_active (rt_executor (cn_runtime c)))))
    as Hl by by rewrite einv_flight.
  unfold in_flight, bt_keys in Hl. rewrite !length_app, !length_fmap in Hl. unfold len in *. lia.
Qed.

Lemma pump_completions_moves c c' u : rt_inv (cn_runtime c) ->
  (limit_active_operations (ex_limits (rt_executor (cn_runtime c))) <=
    Queue.maximum_edge_events (rt_events (cn_runtime c)))%N ->
  Queue.edge_events (rt_events (cn_runtime c)) = [] ->
  handler_pump_completions c = (c', Ok u) -> moves [] c c'.
Proof.
  intros Ht Hcap He. unfold handler_pump_completions, hmodify. intros [= <-].
  by apply (moves_runtime []), carries_completions, completions_fit.
Qed.

Lemma pump_resources_moves c c' u : rt_inv (cn_runtime c) ->
  handler_pump_resource_events c = (c', Ok u) -> moves [] c c'.
Proof.
  intros Ht. unfold handler_pump_resource_events, hmodify. intros [= <-].
  by apply (moves_runtime []), carries_pump.
Qed.

Lemma settle_moves env c c' u : rt_inv (cn_runtime c) ->
  (limit_active_operations (ex_limits (rt_executor (cn_runtime c))) <=
    Queue.maximum_edge_events (rt_events (cn_runtime c)))%N ->
  Queue.edge_events (rt_events (cn_runtime c)) = [] ->
  settle env c = (c', Ok u) ->
  moves [] c c' /\ Queue.edge_events (rt_events (cn_runtime c')) = [].
Proof.
  intros Ht Hcap He (c1 & v1 & H1 & (c2 & v2 & H2 & H3)%hbind_Ok)%hbind_Ok.
  apply pump_completions_moves in H1; [|done..]. apply pump_resources_moves in H2; [|apply H1].
  apply flush_moves in H3 as [H3 Hnil]; [|apply H2]. split; [|done].
  by do 2 (eapply moves_trans_l; [eassumption|]).
Qed.

Lemma cinv_moves c c' : cinv c -> moves [] c c' ->
  (cn_stopped c' = false -> Queue.edge_events (rt_events (cn_runtime c')) = []) -> cinv c'.
Proof. intros [] [] He. split; [done| |done]. by rewrite mv_limits0, mv_maximum0. Qed.

Definition label_ids (l : clabel) : list N :=
  match l with CInternal => [] | CHandled id | CRejected id => [id] end.

Definition advanced (l : clabel) c c' : Prop :=
  match l with
  | CHandled id => fresh c id /\ cn_last_request_id c' = id
  | _ => cn_last_request_id c' = cn_last_request_id c
  end.

Lemma worker_moves c e : rt_inv (cn_runtime c) -> worker_acts (rt_executor (cn_runtime c)) e ->
  moves [] c (with_runtime c (with_executor (cn_runtime c) e)).
Proof.
  intros Ht Hw. apply (moves_runtime []).
  pose proof (rt_inv_worker _ _ Ht Hw) as Ht'. destruct Ht.
  assert (in_flight e ≡ₚ in_flight (rt_executor (cn_runtime c)) /\
    ex_limits e = ex_limits (rt_executor (cn_runtime c))) as [Hf Hl].
  { destruct Hw as [Hw|(i & o & now & Hw)].
    - destruct (estep_inv _ _ _ rti_executor (estep_take _ _ Hw)) as (_ & ? & ?). done.
    - destruct (estep_inv _ _ _ rti_executor (estep_finish _ _ _ _ _ Hw)) as (_ & ? & ?). done. }
  split; simpl; [done..|]. unfold owed. simpl. by rewrite Hf.
Qed.

Lemma cstep_inv c l c' : cinv c -> cstep c l c' ->
  cinv c' /\ balance c' ≡ₚ label_ids l ++ balance c /\ advanced l c c'.
Proof.
  intros Hc Hstep. pose proof Hc as [Ht Hcap Hset].
  assert (Hquiet : forall c2, moves [] c c2 ->
    (cn_stopped c2 = false -> Queue.edge_events (rt_events (cn_runtime c2)) = []) ->
    cinv c2 /\ balance c2 ≡ₚ label_ids CInternal ++ balance c /\ advanced CInternal c c2).
  { intros c2 Hm He. split; [by eapply cinv_moves|]. by destruct Hm. }
  inversion Hstep as [? e Hw|? ? m Hp| | |? env m ? Hs Hr|? ? ? Hs Hr|? ? ? Hs Hr|? ? ? Hs Hr|? ? ? ? Hs Hr];
    subst.
  - apply Hquiet; [by apply worker_moves|done].
  - apply Hquiet; [|done]. apply (moves_runtime []). split; try done. apply rt_inv_manager; [done|].
    intros id. by destruct (producer_spec _ _ _ id Hp) as (-> & _).
  - apply Hquiet; [|done]. apply (moves_runtime []). split; try done.
    apply rt_inv_executor; [done| |eauto]. destruct Ht. by destruct rti_executor.
  - apply Hquiet; [|done]. apply (moves_runtime []). split; try done. by apply rt_inv_manager.
  - apply hbind_Ok in Hr as (c1 & v & H1 & H2).
    apply handle_request_moves in H1 as (Ht1 & Hl1 & He1 & Hs1 & Hb1 & Hlast); [|done].
    apply settle_moves in H2 as [Hm He]; [|done|by rewrite Hl1, He1|rewrite He1; by apply Hset].
    destruct Hm. split; [|split].
    + split; [done| |done]. rewrite mv_limits0, mv_maximum0, Hl1, He1. done.
    + unfold request_label. destruct (_ || _); simpl; by rewrite mv_balance0, Hb1.
    + unfold request_label. rewrite Hlast in mv_last0.
      destruct (_ || _) eqn:Hf; simpl; [done|]. split; [|done]. by apply fresh_spec.
  - apply settle_moves in Hr as [Hm He]; [|by auto..]. by apply Hquiet.
  - apply hbind_Ok in Hr as (c1 & v & H1 & H2). apply pump_completions_moves in H1; [|by auto..].
    apply flush_moves in H2 as [H2 He]; [|apply H1]. apply Hquiet; [by eapply moves_trans_l|done].
  - apply hbind_Ok in Hr as (c1 & v & H1 & H2). apply pump_resources_moves in H1; [|done].
    apply flush_moves in H2 as [H2 He]; [|apply H1]. apply Hquiet; [by eapply moves_trans_l|done].
  - apply replace_policy_moves in Hr as (Ht' & Hl & Hm & Hb & Hlast & He); [|done..].
    split; [|by split]. split; [done| |done]. by rewrite Hl, Hm.
Qed.

Lemma connection_new_inv identity policy limits version c :
  connection_new identity policy limits version = Ok c ->
  cinv c /\ balance c = [] /\ cn_last_request_id c = 0%N.
Proof.
  unfold connection_new. intros Hn. inv_ok. rename a2 into t.
  match goal with H : runtime_new _ _ _ _ = Ok _ |- _ => rename H into Hrt end.
  destruct (rt_new_inv _ _ _ _ _ Hrt) as [Ht _]. unfold runtime_new, executor_new, manager_new in Hrt.
  repeat case_match; try done. injection Hrt as <-. split; [|done]. split; simpl; [done| |done].
  by apply N.ltb_ge.
Qed.

Lemma handled_app ls ks : handled (ls ++ ks) = handled ls ++ handled ks.
Proof. apply omap_app. Qed.
Lemma rejected_app ls ks : rejected (ls ++ ks) = rejected ls ++ rejected ks.
Proof. apply omap_app. Qed.

Lemma cruns_inv c0 ls c : cinv c0 -> balance c0 = [] -> cn_last_request_id c0 = 0%N -> cruns c0 ls c ->
  cinv c /\ balance c ≡ₚ rejected ls ++ handled ls /\ ascending (handled ls) /\
  forall id, id ∈ handled ls -> (0 < id <= cn_last_request_id c)%N.
Proof.
  intros H0 Hb0 Hl0 Hrun. induction Hrun as [|ls c l c' Hrun IH Hstep].
  - rewrite Hb0. split; [done|]. split; [done|]. split; [done|]. by intros id ?%elem_of_nil.
  - destruct IH as (Hc & Hb & Ha & Hle). destruct (cstep_inv _ _ _ Hc Hstep) as (Hc' & Hb' & Hadv).
    rewrite rejected_app, handled_app. split; [done|]. split.
    { rewrite Hb', Hb. destruct l; simpl; rewrite ?app_nil_r; solve_Permutation. }
    destruct l; simpl in Hadv; simpl; rewrite ?app_nil_r, ?Hadv; [done| |done].
    destruct Hadv as [Hfresh ->]. unfold fresh in Hfresh. split.
    + apply ascending_app. split; [done|]. split; [done|]. intros x y Hx ->%list_elem_of_singleton.
      apply Hle in Hx. apply N.compare_lt_iff. lia.
    + intros x [Hx| ->%list_elem_of_singleton]%elem_of_app; [apply Hle in Hx|]; lia.
Qed.

(** *** Authority *)

(** What [validate_activation_envelope] lets through. *)
Definition envelope_ok (limits : ConnectionLimits) (phase : CallbackPhase)
  (activation : option ActivationContext) (clock : option N) : Prop :=
  forall a, activation = Some a ->
    phase = InputPhase /\ ac_surface_instance a <> 0%N /\ ac_input_sequence a <> 0%N /\
    valid_wire_identifier (ac_item_id a) = true /\ ac_origin a <> SyntheticOrigin /\
    exists now, clock = Some now /\
      (now <= ac_deadline_monotonic_micros a <= now + maximum_activation_lifetime_micros limits)%N.

Lemma validate_envelope_Ok limits phase activation clock :
  validate_activation_envelope limits phase activation clock = Ok () ->
  envelope_ok limits phase activation clock.
Proof.
  unfold validate_activation_envelope. intros Hv a ->. inv_ok. b2p.
  repeat match goal with H : _ /\ _ |- _ => destruct H end.
  repeat match goal with H : (_ =? _)%N = false |- _ => apply N.eqb_neq in H end.
  repeat match goal with H : (_ <? _)%N = false |- _ => apply N.ltb_ge in H end.
  split; [by apply dec_stable|]. do 3 (split; [done|]). split; [done|].
  eexists. split; [done|]. unfold sat_sub in *. lia.
Qed.

(** The first grant of a capability in the policy. *)
Definition governing_grant (policy : EffectivePolicy) (capability : CapabilityId) (g : EffectiveGrant) : Prop :=
  exists before after, ep_grants policy = before ++ g :: after /\
    rq_capability (eg_request g) = capability /\
    forall o, o ∈ before -> rq_capability (eg_request o) <> capability.

Lemma find_first {A} (f : A -> bool) l x : List.find f l = Some x ->
  exists before after, l = before ++ x :: after /\ f x = true /\ forall y, y ∈ before -> f y = false.
Proof.
  induction l as [|a l IH]; [done|]. simpl. destruct (f a) eqn:Hf.
  - intros [= ->]. exists [], l. split; [done|]. split; [done|]. by intros y ?%elem_of_nil.
  - intros (before & after & -> & Hx & Hb)%IH. exists (a :: before), after. split; [done|]. split; [done|].
    intros y [->|Hy]%elem_of_cons; [done|auto].
Qed.

Lemma authorize_request_Ok policy phase capability operation k scope bindings :
  authorize_request policy phase capability operation = Ok (k, scope, bindings) ->
  phase <> ItemsPhase /\ phase <> RenderPhase /\ valid_wire_identifier operation = true /\
  capability_from_str capability = Ok k /\
  exists g, governing_grant policy k g /\ eg_status g = Granted /\
    rq_scope (eg_request g) = scope /\ eg_bindings g = bindings.
Proof.
  unfold authorize_request. intros Ha. inv_ok. b2p.
  destruct (capability_from_str capability) as [k0|]; [|done].
  destruct (List.find _ _) as [g|] eqn:Hf; [|done].
  assert (governing_grant policy k0 g) as Hg.
  { apply find_first in Hf as (before & after & Hl & Hk & Hb). exists before, after.
    apply bool_decide_eq_true in Hk. split; [done|]. split; [done|]. intros o Ho.
    apply Hb in Ho. by apply bool_decide_eq_false in Ho. }
  destruct (eg_status g) eqn:Hs; try done. injection Ha as <- <- <-.
  split; [by destruct phase|]. split; [by destruct phase|]. split; [done|]. split; [done|].
  exists g. done.
Qed.

(** The request a backend is given for a grant. *)
Definition granted_request c (id : N) (g : EffectiveGrant) (operation : string) (payload : list N)
  (activation : option ActivationContext) : BackendRequest ConnectionIdentity :=
  {| bk_identity := cn_identity c; bk_request_id := id;
     bk_capability := rq_capability (eg_request g); bk_authorized_scope := rq_scope (eg_request g);
     bk_bindings := eg_bindings g; bk_activation := activation; bk_operation := operation;
     bk_payload := payload |}.

Lemma audited_send_frame env audit decision error bytes m c c' r :
  hbind (push_audit env audit decision error bytes) (fun _ => send m) c = (c', r) ->
  cn_runtime c' = cn_runtime c /\ cn_activations c' = cn_activations c.
Proof.
  unfold hbind. destruct (push_audit _ _ _ _ _ _) as [c1 [v|e]] eqn:Hp;
    apply push_audit_frame in Hp as [log ->]; [|by intros [= <- _]].
  unfold send. destruct (encode_supervisor m); by intros [= <- _].
Qed.

(** *** What a policy replacement leaves *)

(** No authority of [k] is left: nothing pending or open, and what still runs
    is cancelled. *)
Definition clean (k : CapabilityId) (t : @Runtime ConnectionIdentity B RB) : Prop :=
  (forall id o, (id, o) ∈ Lifecycle.pending (rt_lifecycle t) -> Lifecycle.po_capability o <> k) /\
  (forall id r, (id, r) ∈ Lifecycle.resources (rt_lifecycle t) -> Lifecycle.br_capability r <> k) /\
  (forall id a, bt_get id (ex_active (rt_executor t)) = Some a -> ao_capability a = k ->
    ao_cancelled a = true).

Lemma runtime_revoke_parts (t : @Runtime ConnectionIdentity B RB) k g :
  rt_lifecycle (runtime_revoke t k g).1.1 = (Lifecycle.revoke (rt_lifecycle t) k).1 /\
  rt_executor (runtime_revoke t k g).1.1 = (executor_revoke (rt_executor t) k).1.
Proof.
  unfold runtime_revoke. destruct (Lifecycle.revoke _ _) as [l eff], (manager_revoke _ _). done.
Qed.

Lemma revoke_clean t k g : rt_inv t -> clean k (runtime_revoke t k g).1.1.
Proof.
  intros [Hi _ _ _]. destruct (runtime_revoke_parts t k g) as [Hl He]. unfold clean. rewrite Hl, He.
  destruct (Lifecycle.revoke_maps (rt_lifecycle t) k Hi) as [Hp Hr].
  split; [|split].
  - intros id o Ho. by apply Hp in Ho as [_ ?].
  - intros id r Ho. by apply Hr in Ho as [_ ?].
  - intros id a. apply revoke_cancels.
Qed.

Lemma clean_revoke t k k' g : rt_inv t -> clean k t -> clean k (runtime_revoke t k' g).1.1.
Proof.
  intros [Hi _ _ _] (H1 & H2 & H3). destruct (runtime_revoke_parts t k' g) as [Hl He]. unfold clean. rewrite Hl, He.
  destruct (Lifecycle.revoke_maps (rt_lifecycle t) k' Hi) as [Hp Hr].
  split; [|split].
  - intros id o Ho. apply Hp in Ho as [Ho _]. by eapply H1.
  - intros id r Ho. apply Hr in Ho as [Ho _]. by eapply H2.
  - intros id a Ha Hk. unfold executor_revoke in Ha. apply cancel_where_origin in Ha as (a0 & Ha0 & ->).
    destruct (bool_decide _); [done|]. by eapply H3.
Qed.

Lemma revoke_list_clean t l g : rt_inv t ->
  rt_inv (revoke_capabilities t l g) /\
  forall k, (k ∈ l \/ clean k t) -> clean k (revoke_capabilities t l g).
Proof.
  unfold revoke_capabilities. revert t. induction l as [|c l IH]; intros t Ht; simpl.
  - split; [done|]. by intros k [?%elem_of_nil|?].
  - pose proof (ca_inv _ _ _ (carries_revoke t c g Ht)) as Ht'. destruct (IH _ Ht') as [Hi Hc].
    split; [done|]. intros k [[->|Hk]%elem_of_cons|Hk]; apply Hc; [right|by left|right].
    + by apply revoke_clean.
    + by apply clean_revoke.
Qed.

Lemma revoke_all_clean t k : clean k (runtime_revoke_all t).1.
Proof.
  unfold runtime_revoke_all, clean. simpl. split; [by intros ? ? ?%elem_of_nil|].
  split; [by intros ? ? ?%elem_of_nil|]. intros id a Ha _.
  apply (cancel_where_origin (fun _ => true) (rt_executor t)) in Ha as (a0 & _ & ->). done.
Qed.

Lemma clean_frame t t' k : rt_lifecycle t' = rt_lifecycle t -> rt_executor t' = rt_executor t ->
  clean k t -> clean k t'.
Proof. unfold clean. by intros -> ->. Qed.

(** What forwarding events leaves alone, and what it sends. *)
Record forwards c c' : Prop := {
  fw_lifecycle : rt_lifecycle (cn_runtime c') = rt_lifecycle (cn_runtime c);
  fw_executor : rt_executor (cn_runtime c') = rt_executor (cn_runtime c);
  fw_policy : cn_policy c' = cn_policy c;
  fw_generation : cn_generation c' = cn_generation c;
  fw_stopped : cn_stopped c' = cn_stopped c;
  fw_sent : forall m, m ∈ cn_sent c -> m ∈ cn_sent c';
}.

Lemma forwards_trans c1 c2 c3 : forwards c1 c2 -> forwards c2 c3 -> forwards c1 c3.
Proof. intros [] []. split; [congruence..|auto]. Qed.

Lemma flush_forwards fuel env c c' u :
  bt_sorted (Queue.state_events (rt_events (cn_runtime c))) ->
  flush_with fuel env c = (c', Ok u) -> queued_events (rt_events (cn_runtime c)) <= fuel ->
  forwards c c' /\ forall k g st, (k, (g, st)) ∈ Queue.state_events (rt_events (cn_runtime c)) ->
    CapabilityChanged g st ∈ cn_sent c'.
Proof.
  revert c. induction fuel as [|fuel IH]; intros c Hs; cbn [flush_with].
  - intros [= <-] Hq. split; [done|]. intros k g st Hin. unfold queued_events in Hq.
    destruct (Queue.state_events _); [by apply elem_of_nil in Hin|simpl in Hq; lia].
  - destruct (pop_event (cn_runtime c)) as [t [event|]] eqn:Hp.
    + intros (c1 & [] & (log & waiting & ->)%forward_Ok & H2)%hbind_Ok Hq.
      set (c1 := with_sent _ _) in H2. revert Hp. unfold pop_event, Queue.pop.
      destruct (Queue.state_events (rt_events (cn_runtime c))) as [|[k0 [g0 st0]] rest] eqn:Hst.
      * intros Hp. assert (Hparts : rt_lifecycle t = rt_lifecycle (cn_runtime c) /\
          rt_executor t = rt_executor (cn_runtime c) /\ Queue.state_events (rt_events t) = [] /\
          queued_events (rt_events t) <= fuel).
        { unfold queued_events in *. rewrite Hst in Hq. revert Hp.
          destruct (Queue.edge_events (rt_events (cn_runtime c))) as [|e edges].
          - destruct (0 <? Queue.dropped_edge_events _)%N; [|done]. intros [= <- <-]. simpl in *.
            rewrite Hst. simpl. split; [done|]. split; [done|]. split; [done|]. lia.
          - intros [= <- <-]. simpl in *. rewrite Hst. simpl. split; [done|]. split; [done|].
            split; [done|]. lia. }
        destruct Hparts as (Hl & He & Hs' & Hq').
        destruct (IH c1) as [Hf _]; [simpl; by rewrite Hs'|done|done|]. split; [|by intros ? ? ? ?%elem_of_nil].
        eapply forwards_trans; [|exact Hf]. split; try done. intros m Hm. simpl. apply elem_of_app. by left.
      * intros [= Ht He]. destruct (IH c1) as [Hf Hall]; [| done| |].
        -- simpl. rewrite <- Ht. by apply (bt_sorted_remove k0 ((k0, (g0, st0)) :: rest)).
        -- unfold queued_events in *. rewrite Hst in Hq. simpl. rewrite <- Ht. simpl in *.
           unfold bt_remove. simpl. rewrite cmp_refl.
           pose proof (filter_length_le (fun e : string * (N * CapabilityState) =>
             match cmp k0 e.1 with Eq => false | _ => true end) rest). lia.
        -- split.
           ++ eapply forwards_trans; [|exact Hf]. split; try done; try (simpl; by rewrite <- Ht).
              intros m Hm. simpl. apply elem_of_app. by left.
           ++ intros k g st Hin. destruct (decide (k = k0)) as [->|Hne].
              ** apply (elem_bt_get _ _ _ Hs) in Hin. simpl in Hin. rewrite cmp_refl in Hin.
                 injection Hin as -> ->. apply (fw_sent _ _ Hf). simpl. rewrite <- He.
                 apply elem_of_app. right. by apply list_elem_of_singleton.
              ** apply (Hall k). simpl. rewrite <- Ht. simpl. rewrite cmp_refl. apply elem_of_bt_remove.
                 apply elem_of_cons in Hin as [?|?]; [congruence|done].
    + intros [= <-] Hq. split; [done|]. intros k g st Hin. apply pop_None in Hp as [Hp _].
      unfold queued_events in Hp. destruct (Queue.state_events _); [by apply elem_of_nil in Hin|simpl in Hp; lia].
Qed.

(** The states the host is told about. *)
Definition announced (revoked : list CapabilityId) (old : list CapabilityState)
  (state : CapabilityState) : Prop :=
  state ∉ old \/ exists k, k ∈ revoked /\ capability_to_string k = cs_capability state.

Lemma announced_spec revoked old state :
  negb (bool_decide (state ∈ old))
    || existsb (fun k => String.eqb (capability_to_string k) (cs_capability state)) revoked = true <->
  announced revoked old state.
Proof.
  unfold announced. rewrite orb_true_iff, negb_true_iff, bool_decide_eq_false, existsb_True'.
  by setoid_rewrite String.eqb_eq.
Qed.

Lemma announce_entries revoked old state c c' u :
  bt_sorted (Queue.state_events (rt_events (cn_runtime c))) ->
  announce revoked old state c = (c', Ok u) ->
  forwards c c' /\ bt_sorted (Queue.state_events (rt_events (cn_runtime c'))) /\
  (forall k, k <> cs_capability state -> bt_get k (Queue.state_events (rt_events (cn_runtime c'))) =
    bt_get k (Queue.state_events (rt_events (cn_runtime c)))) /\
  (announced revoked old state ->
    bt_get (cs_capability state) (Queue.state_events (rt_events (cn_runtime c'))) =
      Some (cn_generation c, state)).
Proof.
  intros Hs. unfold announce. destruct (_ || _) eqn:Hann.
  - apply announced_spec in Hann. unfold Queue.push_capability. destruct (_ && _); [done|]. intros [= <-]. simpl.
    split; [done|]. split; [by apply bt_sorted_insert|]. split.
    + intros k Hk. by apply bt_get_insert_ne.
    + intros _. apply bt_get_insert_eq.
  - intros [= <-]. split; [done|]. split; [done|]. split; [done|].
    intros Hk%announced_spec. congruence.
Qed.

Lemma announce_all_entries revoked old new c c' u :
  bt_sorted (Queue.state_events (rt_events (cn_runtime c))) -> NoDup (cs_capability <$> new) ->
  announce_all revoked old new c = (c', Ok u) ->
  forwards c c' /\ bt_sorted (Queue.state_events (rt_events (cn_runtime c'))) /\
  (forall k, k ∉ cs_capability <$> new -> bt_get k (Queue.state_events (rt_events (cn_runtime c'))) =
    bt_get k (Queue.state_events (rt_events (cn_runtime c)))) /\
  forall state, state ∈ new -> announced revoked old state ->
    bt_get (cs_capability state) (Queue.state_events (rt_events (cn_runtime c'))) =
      Some (cn_generation c, state).
Proof.
  revert c. induction new as [|state new IH]; intros c Hs Hnd; cbn [announce_all].
  - intros [= <-]. split; [done|]. split; [done|]. split; [done|]. by intros ? ?%elem_of_nil.
  - intros (c1 & v & H1 & H2)%hbind_Ok. apply announce_entries in H1 as (Hf1 & Hs1 & Hsame & Hg1); [|done].
    rewrite fmap_cons in Hnd. apply NoDup_cons in Hnd as [Hni Hnd].
    destruct (IH c1 Hs1 Hnd H2) as (Hf2 & Hs2 & Hother & Hall).
    split; [by eapply forwards_trans|]. split; [done|]. split.
    + intros k. rewrite fmap_cons, not_elem_of_cons. intros [Hk1 Hk2].
      by rewrite Hother, Hsame by done.
    + intros st [->|Hin]%elem_of_cons Hann.
      * rewrite Hother by done. by apply Hg1.
      * rewrite Hall by done. by rewrite (fw_generation _ _ Hf1).
Qed.

Lemma push_edges_states q l g : Queue.state_events (push_edges q l g) = Queue.state_events q.
Proof.
  unfold push_edges. revert q. induction l as [|[[id n] r] l IH]; intros q; [done|]. simpl. rewrite IH.
  unfold Queue.push_resource, Queue.push_edge. by case_match.
Qed.

Lemma revoke_capabilities_states (t : @Runtime ConnectionIdentity B RB) l g :
  Queue.state_events (rt_events (revoke_capabilities t l g)) = Queue.state_events (rt_events t).
Proof.
  unfold revoke_capabilities. revert t. induction l as [|k l IH]; intros t; [done|]. simpl. rewrite IH.
  unfold runtime_revoke. destruct (Lifecycle.revoke _ _), (manager_revoke _ _). apply push_edges_states.
Qed.

Lemma revoked_capabilities_spec old new k : k ∈ revoked_capabilities old new <->
  exists g, g ∈ ep_grants old /\ eg_status g = Granted /\ rq_capability (eg_request g) = k /\
    forall n, n ∈ ep_grants new -> same_authority g n = false.
Proof.
  unfold revoked_capabilities. rewrite list_elem_of_In, in_map_iff. split.
  - intros (g & Hk & Hg). rewrite !filter_In, negb_true_iff, bool_decide_eq_true in Hg.
    destruct Hg as ((Hin & Hs) & Hn). exists g. split; [by apply list_elem_of_In|]. split; [done|].
    split; [done|]. intros n Hn'. apply not_true_iff_false. intros Hsame.
    apply not_true_iff_false in Hn. apply Hn, existsb_True'. eauto.
  - intros (g & Hin & Hs & Hk & Hn). exists g. split; [done|].
    rewrite !filter_In, negb_true_iff, bool_decide_eq_true. split; [split; [by apply list_elem_of_In|done]|].
    apply not_true_iff_false. intros (n & Hn' & Hsame)%existsb_True'. rewrite (Hn n Hn') in Hsame. done.
Qed.
End ConnectionFacts.

(** ** Theorems *)

(** C1: Every request is answered exactly once.  Along every history of a
    connection, whatever the workers and producers do between the wake-ups:
    the request ids that were handled are strictly increasing and positive, so
    none is handled twice; and the ids answered on the channel together with
    the requests still in flight, counted with multiplicity, are exactly the
    handled ids together with the rejections of replayed ones.  No completion
    is dropped, because the event queue has room for every active operation. *)
Theorem requests_answered_once `{SemVer} {B RB} `{!Backend ConnectionIdentity B}
  `{!ResourceBackend ConnectionIdentity RB} (identity : ConnectionIdentity)
  (policy : EffectivePolicy) (limits : ConnectionLimits) (version : string)
  (c0 c : @Connection _ B RB) (ls : list clabel)
  (Hnew : connection_new identity policy limits version = Ok c0) (Hrun : cruns c0 ls c) :
  ascending (handled ls) /\ (forall id, id ∈ handled ls -> (0 < id <= cn_last_request_id c)%N) /\
  response_ids (cn_sent c) ++ in_flight (rt_executor (cn_runtime c)) ++
    completion_ids (Queue.edge_events (rt_events (cn_runtime c))) ≡ₚ rejected ls ++ handled ls /\
  (cn_stopped c = false -> Queue.edge_events (rt_events (cn_runtime c)) = []).
Proof.
  apply connection_new_inv in Hnew as (H0 & Hb & Hl).
  destruct (cruns_inv _ _ _ H0 Hb Hl Hrun) as ([] & Hbal & Ha & Hle). done.
Qed.

(** C2: Default deny: a backend is reached only through a grant.  If handling a
    request changed anything in the runtime or the activation ledger, then the
    id was fresh; the callback was not a pure one; the operation is a valid
    identifier; the capability parsed; the first grant of the policy for it is
    Granted; an attached activation passed the envelope check; and the runtime
    and ledger are those left by dispatching exactly that grant's scope and
    bindings, under the connection's own identity. *)
Theorem no_authority_without_grant `{SemVer} {B RB} `{!Backend ConnectionIdentity B}
  `{!ResourceBackend ConnectionIdentity RB} (env : Env) (c c' : @Connection _ B RB)
  (r : result TransportError ()) (id : N) (phase : CallbackPhase) (capability operation : string)
  (payload : list N) (activation : option ActivationContext)
  (Hhandle : handle_request env (Request id phase capability operation payload activation) c = (c', r))
  (Hchanged : cn_runtime c' <> cn_runtime c \/ cn_activations c' <> cn_activations c) :
  (cn_last_request_id c < id)%N /\ phase <> ItemsPhase /\ phase <> RenderPhase /\
  valid_wire_identifier operation = true /\
  envelope_ok (cn_limits c) phase activation (en_envelope_now env) /\
  exists g, governing_grant (cn_policy c) (rq_capability (eg_request g)) g /\
    capability_from_str capability = Ok (rq_capability (eg_request g)) /\ eg_status g = Granted /\
    let c1 := (dispatch env (granted_request c id g operation payload activation)
                 (with_last_request_id c id)).1 in
    cn_runtime c' = cn_runtime c1 /\ cn_activations c' = cn_activations c1.
Proof.
  revert Hhandle. unfold handle_request. cbn [host_request_id].
  destruct (_ || _) eqn:Hfresh.
  { unfold send. case_match; intros [= <- _]; naive_solver. }
  apply fresh_spec in Hfresh. unfold handle_call.
  destruct (_ ≫= _) as [[[k scope] bindings]|error] eqn:Ha.
  2:{ intros [Hr Hl]%audited_send_frame. naive_solver. }
  apply bind_Ok in Ha as ([[k' scope'] bindings'] & Ha & Hv).
  apply bind_Ok in Hv as ([] & Hv%validate_envelope_Ok & [= -> -> ->]).
  apply authorize_request_Ok in Ha as (Hp1 & Hp2 & Hop & Hc & g & Hg & Hs & <- & <-).
  assert (rq_capability (eg_request g) = k) as <- by by destruct Hg as (? & ? & _ & ? & _).
  intros Hd. split; [exact Hfresh|]. do 4 (split; [done|]). exists g. split; [done|].
  split; [done|]. split; [done|]. cbv zeta. revert Hd.
  change (backend_request _ id _ operation payload activation) with
    (granted_request c id g operation payload activation).
  destruct (dispatch _ _ _) as [c1 [[result|]|error]]; simpl.
  - by intros ?%audited_send_frame.
  - by intros [= <- _].
  - by intros ?%audited_send_frame.
Qed.

(** C3: Replacing the policy takes effect at once.  After an accepted replacement
    from a settled state the connection runs under the new policy and the next
    generation; every capability that was granted and is not granted again
    with the same scope and bindings has no pending operation and no resource
    left, and all its running operations are cancelled.  If the new policy is
    blocked, that holds of every capability, the ledger is cleared, the
    connection is stopped and the last message is the shutdown; otherwise the
    host was sent the state of every capability that changed or was revoked. *)
Theorem replace_policy_revokes `{SemVer} {B RB} `{!Backend ConnectionIdentity B}
  `{!ResourceBackend ConnectionIdentity RB} (env : Env) (c c' : @Connection _ B RB)
  (policy : EffectivePolicy) (Hc : cinv c)
  (Hsettled : queued_events (rt_events (cn_runtime c)) = 0)
  (Hunique : NoDup (cs_capability <$> capability_states policy))
  (Hreplace : replace_policy env policy c = (c', Ok ())) :
  cn_policy c' = policy /\ cn_generation c' = sat_add64 (cn_generation c) 1 /\
  (forall g, g ∈ ep_grants (cn_policy c) -> eg_status g = Granted ->
    (forall n, n ∈ ep_grants policy -> same_authority g n = false) ->
    clean (rq_capability (eg_request g)) (cn_runtime c')) /\
  if ep_blocked policy
  then cn_stopped c' = true /\ (forall k, clean k (cn_runtime c')) /\
       cn_activations c' = Activation.clear (cn_activations c) /\
       last (cn_sent c') = Some (Shutdown (sat_add64 (cn_generation c) 1) EDenied)
  else cn_stopped c' = cn_stopped c /\
       forall state, state ∈ capability_states policy ->
         announced (revoked_capabilities (cn_policy c) policy) (capability_states (cn_policy c)) state ->
         CapabilityChanged (sat_add64 (cn_generation c) 1) state ∈ cn_sent c'.
Proof.
  destruct Hc as [Ht _ _]. revert Hreplace. unfold replace_policy.
  set (revoked := revoked_capabilities _ _). set (generation := sat_add64 _ _).
  destruct (revoke_list_clean (cn_runtime c) revoked generation Ht) as [_ Hclean].
  pose proof (revoke_capabilities_states (cn_runtime c) revoked generation) as Hstates.
  set (t := revoke_capabilities _ _ _) in *.
  assert (Hstate : Queue.state_events (rt_events t) = []).
  { rewrite Hstates. unfold queued_events in Hsettled. apply nil_length_inv. lia. }
  assert (Hrevoked : forall g, g ∈ ep_grants (cn_policy c) -> eg_status g = Granted ->
    (forall n, n ∈ ep_grants policy -> same_authority g n = false) -> clean (rq_capability (eg_request g)) t).
  { intros g Hg Hs Hn. apply Hclean. left. apply revoked_capabilities_spec. eauto. }
  destruct (ep_blocked policy).
  - intros ->%send_Ok. simpl. split; [done|]. split; [done|].
    pose proof (revoke_all_clean t) as Hall. split; [intros; apply Hall|].
    split; [done|]. split; [exact Hall|]. split; [done|]. apply last_snoc.
  - intros (c2 & v & H1 & H2)%hbind_Ok. apply announce_all_entries in H1 as (Hf1 & Hs1 & _ & Hann);
      [|simpl; by rewrite Hstate|done].
    apply flush_forwards in H2 as [Hf2 Hsent]; [|done|done]. pose proof (forwards_trans _ _ _ Hf1 Hf2) as [].
    simpl in *. split; [done|]. split; [done|]. split.
    + intros g Hg Hs Hn. apply (clean_frame t); [done|done|]. by apply Hrevoked.
    + split; [done|]. intros state Hin Ha. apply (Hsent (cs_capability state)).
      apply bt_get_elem. by apply Hann.
Qed.

(** ** A concrete connection *)

#[export] Instance sample_connection_backend : Backend (@ConnectionIdentity sample_semver) () :=
  fun _ request ledger now => default_authorize request ledger now.
#[export] Instance sample_connection_resources : ResourceBackend (@ConnectionIdentity sample_semver) () :=
  {| rb_limits _ _ := None; rb_authorize _ request ledger now := default_authorize request ledger now |}.

Definition sample_uri_request : CapabilityRequest :=
  {| rq_capability := UriOpenV1; rq_required := false; rq_reason := "to open links";
     rq_scope := UriOpen {| uo_schemes := ["https"]; uo_origins := [] |} |}.
Definition sample_grant (status : CapabilityStatus) : EffectiveGrant :=
  {| eg_request := sample_uri_request; eg_status := status;
     eg_approved_scope := Some (rq_scope sample_uri_request); eg_bindings := no_bindings;
     eg_from_session := false |}.
Definition sample_policy (status : CapabilityStatus) : EffectivePolicy :=
  {| ep_grants := [sample_grant status]; ep_blocked := false;
     ep_trust := summarize_trust ComponentRuntime [] |}.
Definition sample_identity : @ConnectionIdentity sample_semver :=
  {| ci_instance_id := 7; ci_package := sample_package |}.
Definition sample_env : Env :=
  {| en_elapsed_millis := 1; en_elapsed_micros := 1000; en_envelope_now := Some 1000%N;
     en_submit_now := Some 1000%N; en_executor_deadline := Some 5001000%N;
     en_wall_clock_unix_millis := 0; en_duration_micros := 10; en_opened := Ok [];
     en_append := fun _ => Ok () |}.

Definition sample_connection_new : @Connection sample_semver () () :=
  {| cn_identity := sample_identity; cn_policy := sample_policy Granted; cn_generation := 1;
     cn_limits := default_connection_limits; cn_last_request_id := 0;
     cn_runtime :=
       {| rt_executor := {| ex_limits := default_executor_limits; ex_backends := []; ex_jobs := [];
            ex_running := []; ex_completions := []; ex_active := [] |};
          rt_lifecycle := Lifecycle.new Lifecycle.default_limits; rt_events := Queue.new 64 256;
          rt_resources := {| rm_capacity := 256; rm_backends := []; rm_channel := []; rm_dropped := 0;
            rm_resources := []; rm_sinks := []; rm_closed := [] |} |};
     cn_activations := Activation.new 4096;
     cn_audit := audit_new sample_source "1.0.0" sample_digest 7 1024;
     cn_pending_audit := []; cn_health := Health.new Health.default_policy; cn_stopped := false;
     cn_sent := [] |}.
Definition sample_connection : @Connection sample_semver () () :=
  with_runtime sample_connection_new (runtime_register (cn_runtime sample_connection_new) UriOpenV1 ()).
Definition sample_call : HostMessage := Request 2 InputPhase "uri.open.v1" "open" [1%N] None.
Definition sample_called : @Connection sample_semver () () :=
  (serve_request sample_env sample_call sample_connection).1.

Lemma sample_connection_run : cruns sample_connection_new [CInternal; CHandled 2] sample_called.
Proof.
  apply (cruns_snoc _ [CInternal] sample_connection (CHandled 2)).
  - apply (cruns_snoc _ [] sample_connection_new CInternal); [apply cruns_nil|]. apply cs_register.
  - apply (cs_request sample_connection sample_env sample_call); vm_compute; reflexivity.
Qed.

Lemma requests_answered_once_witness :
  handled [CInternal; CHandled 2] = [2%N] /\
  response_ids (cn_sent sample_called) ++ in_flight (rt_executor (cn_runtime sample_called)) ++
    completion_ids (Queue.edge_events (rt_events (cn_runtime sample_called))) ≡ₚ [2%N].
Proof.
  split; [reflexivity|].
  exact (proj1 (proj2 (proj2 (requests_answered_once sample_identity (sample_policy Granted)
    default_connection_limits "1.0.0" sample_connection_new sample_called [CInternal; CHandled 2]
    eq_refl sample_connection_run)))).
Defined.

Lemma no_authority_without_grant_witness :
  exists g, governing_grant (sample_policy Granted) (rq_capability (eg_request g)) g /\ eg_status g = Granted.
Proof.
  destruct (no_authority_without_grant sample_env sample_connection
    (handle_request sample_env sample_call sample_connection).1
    (handle_request sample_env sample_call sample_connection).2
    2 InputPhase "uri.open.v1" "open" [1%N] None) as (_ & _ & _ & _ & _ & g & Hg & _ & Hs & _).
  - apply surjective_pairing.
  - left. intros Heq. apply (f_equal (fun t => length (ex_jobs (rt_executor t)))) in Heq.
    vm_compute in Heq. discriminate Heq.
  - exists g. split; [exact Hg|exact Hs].
Defined.

Lemma replace_policy_revokes_witness :
  clean UriOpenV1 (cn_runtime (replace_policy sample_env (sample_policy Denied) sample_called).1) /\
  CapabilityChanged 2 {| cs_capability := "uri.open.v1"; cs_required := false; cs_status := WireDenied |}
    ∈ cn_sent (replace_policy sample_env (sample_policy Denied) sample_called).1.
Proof.
  destruct (replace_policy_revokes sample_env sample_called
    (replace_policy sample_env (sample_policy Denied) sample_called).1 (sample_policy Denied))
    as (_ & _ & Hclean & Hsent).
  - destruct (connection_new_inv sample_identity (sample_policy Granted) default_connection_limits
      "1.0.0" sample_connection_new eq_refl) as (H0 & Hb & Hl).
    exact (proj1 (cruns_inv _ _ _ H0 Hb Hl sample_connection_run)).
  - vm_compute. reflexivity.
  - apply NoDup_singleton.
  - vm_compute. reflexivity.
  - split.
    + apply (Hclean (sample_grant Granted)); [left|reflexivity|].
      intros n Hn. apply list_elem_of_singleton in Hn as ->. reflexivity.
    + apply (proj2 Hsent); [left|]. right. exists UriOpenV1. split; [left|reflexivity].
Defined.
