(* ===== verification/Payload.v ===== *)
(** * Payload: bounded encoders and decoders of capability payloads

    The private [Encoder] and [Decoder] of
    [crates/touchbar-broker-schema/src/lib.rs]: the appending encoder with its
    length limits, the decoder over the remaining bytes, and for every
    primitive the lemma that says which bytes it reads.  The payload types
    themselves are in [SchemaDesktop.v], [SchemaFiles.v] and [SchemaNet.v]. *)

From S2P Require Import Prelude BTree Text Wire.
From Stdlib Require String.

Definition MAX_PAYLOAD_BYTES : N := 64 * 1024.
#[global] Arguments MAX_PAYLOAD_BYTES : simpl never.
Definition MAX_STRING_BYTES : N := 4096.
#[global] Arguments MAX_STRING_BYTES : simpl never.

Inductive SchemaError := Malformed | LimitExceeded.

#[export] Instance SchemaError_eq_dec : EqDecision SchemaError. Proof. solve_decision. Defined.

Definition schema_error_display (e : SchemaError) : string :=
  match e with
  | Malformed => "malformed capability payload"
  | LimitExceeded => "capability payload exceeds its limit"
  end.

(** ** The encoder *)

Definition Encoder : Type := list N.

(** The eight bytes of a magic literal. *)
Definition magic_bytes (s : string) : list N := string_bytes s.

Definition enc_new (magic : string) : Encoder := magic_bytes magic.
Definition enc_byte (value : N) (e : Encoder) : Encoder := e ++ [value].
(** [u8::from] of a boolean. *)
Definition bit (b : bool) : N := if b then 1%N else 0%N.
Definition enc_flag (value : bool) (e : Encoder) : Encoder := enc_byte (bit value) e.
Definition enc_u16 (value : N) (e : Encoder) : Encoder := e ++ to_le 2 value.
Definition enc_u32 (value : N) (e : Encoder) : Encoder := e ++ to_le 4 value.
Definition enc_u64 (value : N) (e : Encoder) : Encoder := e ++ to_le 8 value.
(** [encoder.bytes.extend_from_slice]. *)
Definition enc_raw (value : list N) (e : Encoder) : Encoder := e ++ value.

(** [to_le_bytes] of a signed integer of [n] bytes. *)
Definition signed_to_le (n : nat) (z : Z) : list N := to_le n (Z.to_N (z mod 2 ^ (8 * Z.of_nat n))).
Definition signed_from_le (n : nat) (l : list N) : Z :=
  let v := Z.of_N (from_le l) in
  if (v <? 2 ^ (8 * Z.of_nat n - 1))%Z then v else (v - 2 ^ (8 * Z.of_nat n))%Z.
Definition enc_signed (n : nat) (value : Z) (e : Encoder) : Encoder := e ++ signed_to_le n value.

Definition enc_string (value : string) (e : Encoder) : result SchemaError Encoder :=
  if (MAX_STRING_BYTES <? slen value)%N || (u16_max <? slen value)%N then Err LimitExceeded
  else Ok (enc_u16 (slen value) e ++ string_bytes value).

Definition enc_optional_string (value : option string) (e : Encoder)
  : result SchemaError Encoder :=
  match value with
  | None => Ok (enc_byte 0 e)
  | Some value => enc_string value (enc_byte 1 e)
  end.

Definition enc_blob (value : list N) (e : Encoder) : result SchemaError Encoder :=
  if (u32_max <? len value)%N then Err LimitExceeded else Ok (enc_u32 (len value) e ++ value).

Definition enc_finish (e : Encoder) : result SchemaError (list N) :=
  if (MAX_PAYLOAD_BYTES <? len e)%N then Err LimitExceeded else Ok e.

(** [for value in values { ... }] over the encoder. *)
Definition enc_each {A} (f : A -> Encoder -> result SchemaError Encoder) (values : list A)
    (e : Encoder) : result SchemaError Encoder :=
  foldR (fun e value => f value e) e values.

(** ** The decoder: a reader of the remaining bytes *)

Definition Reader (A : Type) : Type := list N -> result SchemaError (A * list N).

Definition rret {A} (a : A) : Reader A := fun l => Ok (a, l).
Definition rerr {A} (e : SchemaError) : Reader A := fun _ => Err e.
Definition rbind {A B} (p : Reader A) (k : A -> Reader B) : Reader B := fun l =>
  match p l with Ok (a, l') => k a l' | Err e => Err e end.

Declare Scope reader_scope.
Delimit Scope reader_scope with reader.
Notation "'read' x 'from' p 'in' k" := (rbind p (fun x => k))
  (at level 10, x name, p at level 100, k at level 200) : reader_scope.
Open Scope reader_scope.

(** The guard [if c { return Err(e) }] inside a decoder. *)
Definition rguard (c : bool) (e : SchemaError) : Reader () :=
  fun l => if c then Err e else Ok ((), l).

Definition dec_new (magic : string) (bytes : list N) : result SchemaError (list N) :=
  let m := magic_bytes magic in
  if (MAX_PAYLOAD_BYTES <? len bytes)%N || negb (bool_decide (take (length m) bytes = m))
  then Err (if (MAX_PAYLOAD_BYTES <? len bytes)%N then LimitExceeded else Malformed)
  else Ok (drop (length m) bytes).

Definition dec_byte : Reader N := fun l =>
  match l with [] => Err Malformed | value :: remaining => Ok (value, remaining) end.

(** [Decoder::take] and [Decoder::array]: [split_at_checked]. *)
Definition dec_take (length : N) : Reader (list N) := fun l =>
  if (len l <? length)%N then Err Malformed
  else Ok (take (N.to_nat length) l, drop (N.to_nat length) l).

Definition dec_u16 : Reader N := read l from dec_take 2 in rret (from_le l).
Definition dec_u32 : Reader N := read l from dec_take 4 in rret (from_le l).
Definition dec_u64 : Reader N := read l from dec_take 8 in rret (from_le l).
Definition dec_signed (n : nat) : Reader Z :=
  read l from dec_take (N.of_nat n) in rret (signed_from_le n l).

Definition dec_string : Reader string :=
  read length from dec_u16 in
  if (MAX_STRING_BYTES <? length)%N then rerr LimitExceeded
  else read value from dec_take length in
       if utf8_valid value then rret (bytes value) else rerr Malformed.

Definition dec_optional_string : Reader (option string) :=
  read marker from dec_byte in
  match marker with
  | 0 => rret None
  | 1 => read value from dec_string in rret (Some value)
  | _ => rerr Malformed
  end%N.

Definition dec_blob (maximum : N) : Reader (list N) :=
  read length from dec_u32 in
  if (maximum <? length)%N then rerr LimitExceeded else dec_take length.

(** The marker byte of a boolean. *)
Definition dec_flag : Reader bool :=
  read marker from dec_byte in
  match marker with 0 => rret false | 1 => rret true | _ => rerr Malformed end%N.

Definition dec_finish (l : list N) : result SchemaError () :=
  match l with [] => Ok () | _ :: _ => Err Malformed end.

(** [for _ in 0..count { values.push(...) }]. *)
Fixpoint dec_many {A} (count : nat) (p : Reader A) : Reader (list A) :=
  match count with
  | O => rret []
  | S count' => read a from p in read l from dec_many count' p in rret (a :: l)
  end.

(** The frame shared by the payload codecs: header, body, and nothing after
    the body. *)
Definition encode_with (magic : string) (body : Encoder -> result SchemaError Encoder)
  : result SchemaError (list N) :=
  e ← body (enc_new magic); enc_finish e.

Definition decode_with {A} (magic : string) (body : Reader A) (bytes : list N)
  : result SchemaError A :=
  l ← dec_new magic bytes;
  '(value, l) ← body l;
  _ ← dec_finish l;
  Ok value.

(** [for value in values { if !seen.insert(key(value)) { error } ... }]: the
    encoder of one value gets the keys seen before it. *)
Fixpoint enc_keyed {A} (f : list string -> A -> Encoder -> result SchemaError Encoder)
    (key : A -> string) (seen : list string) (values : list A) (e : Encoder)
  : result SchemaError Encoder :=
  match values with
  | [] => Ok e
  | value :: rest => e ← f seen value e; enc_keyed f key (set_add (key value) seen) rest e
  end.

Fixpoint dec_keyed {A} (p : list string -> Reader A) (key : A -> string) (seen : list string)
    (count : nat) : Reader (list A) :=
  match count with
  | O => rret []
  | S count' =>
      read a from p seen in
      read l from dec_keyed p key (set_add (key a) seen) count' in rret (a :: l)
  end.

(** ** What the primitives read and write *)

Definition text (s : string) : Prop := utf8_valid (string_bytes s) = true.
Definition octets (l : list N) : Prop := Forall is_byte l.

Lemma rbind_Ok {A B} (p : Reader A) (k : A -> Reader B) l b l2 :
  rbind p k l = Ok (b, l2) <-> exists a l1, p l = Ok (a, l1) /\ k a l1 = Ok (b, l2).
Proof.
  unfold rbind. destruct (p l) as [[a l1]|e]; split.
  - intros H. by exists a, l1.
  - by intros (a' & l1' & [= <- <-] & ?).
  - done.
  - by intros (? & ? & ? & _).
Qed.

Lemma rbind_assoc {A B C} (p : Reader A) (q : A -> Reader B) (k : B -> Reader C) l :
  rbind (rbind p q) k l = rbind p (fun a => rbind (q a) k) l.
Proof. unfold rbind. by destruct (p l) as [[a l1]|e]. Qed.

Lemma rbind_ret {A B} (a : A) (k : A -> Reader B) l : rbind (rret a) k l = k a l.
Proof. done. Qed.

Lemma rguard_Ok c e l u l' : rguard c e l = Ok (u, l') <-> c = false /\ l' = l.
Proof. unfold rguard. destruct c, u; split; naive_solver. Qed.

Lemma rbind_guard {B} c e (k : () -> Reader B) l :
  c = false -> rbind (rguard c e) k l = k () l.
Proof. by intros ->. Qed.

(** *** Reading back what was written *)

Lemma rbind_byte {B} (k : N -> Reader B) b l : rbind dec_byte k (b :: l) = k b l.
Proof. done. Qed.

Lemma rbind_take {B} (k : list N -> Reader B) n v l :
  n = len v -> rbind (dec_take n) k (v ++ l) = k v l.
Proof.
  intros ->. unfold rbind, dec_take. destruct (N.ltb_spec (len (v ++ l)) (len v)).
  { rewrite len_app in *. lia. }
  unfold len. by rewrite Nat2N.id, take_app_length, drop_app_length.
Qed.

Lemma rbind_int {B} (n : nat) nN (k : N -> Reader B) v l :
  nN = N.of_nat n -> (v < 256 ^ nN)%N ->
  rbind (read l from dec_take nN in rret (from_le l)) k (to_le n v ++ l) = k v l.
Proof.
  intros -> Hv.
  rewrite rbind_assoc, rbind_take by (unfold len; by rewrite length_to_le). unfold rbind, rret.
  by rewrite from_to_le.
Qed.

Lemma rbind_u16 {B} (k : N -> Reader B) v l :
  (v <= u16_max)%N -> rbind dec_u16 k (to_le 2 v ++ l) = k v l.
Proof. intros. apply rbind_int; [done|]. unfold u16_max in *. simpl. lia. Qed.
Lemma rbind_u32 {B} (k : N -> Reader B) v l :
  (v <= u32_max)%N -> rbind dec_u32 k (to_le 4 v ++ l) = k v l.
Proof. intros. apply rbind_int; [done|]. unfold u32_max in *. simpl. lia. Qed.
Lemma rbind_u64 {B} (k : N -> Reader B) v l :
  (v <= u64_max)%N -> rbind dec_u64 k (to_le 8 v ++ l) = k v l.
Proof. intros. apply rbind_int; [done|]. unfold u64_max in *. simpl. lia. Qed.

(** The range of a signed integer of [n] bytes. *)
Definition signed_range (n : nat) (z : Z) : Prop :=
  (- 2 ^ (8 * Z.of_nat n - 1) <= z < 2 ^ (8 * Z.of_nat n - 1))%Z.

Lemma pow256 n : (256 ^ N.of_nat n)%N = Z.to_N (2 ^ (8 * Z.of_nat n)).
Proof.
  apply N2Z.inj. rewrite Z2N.id by (apply Z.pow_nonneg; lia).
  rewrite N2Z.inj_pow, nat_N_Z, Z.pow_mul_r by lia. done.
Qed.

Lemma half_width n : (0 < n)%nat -> (2 ^ (8 * Z.of_nat n) = 2 * 2 ^ (8 * Z.of_nat n - 1))%Z.
Proof. intros. rewrite <- Z.pow_succ_r by lia. f_equal. lia. Qed.

Lemma signed_from_to n z : (0 < n)%nat -> signed_range n z -> signed_from_le n (signed_to_le n z) = z.
Proof.
  intros Hn Hz. unfold signed_from_le, signed_to_le, signed_range in *.
  pose proof (half_width n Hn) as Hw. set (h := (2 ^ (8 * Z.of_nat n - 1))%Z) in *.
  assert (0 < h)%Z as Hh by (apply Z.pow_pos_nonneg; lia). rewrite Hw.
  pose proof (Z.mod_pos_bound z (2 * h) ltac:(lia)) as Hm.
  rewrite from_to_le by (rewrite pow256, Hw; apply Z2N.inj_lt; lia).
  rewrite Z2N.id by lia. destruct (decide (0 <= z)%Z).
  - rewrite Z.mod_small by lia. destruct (Z.ltb_spec z h); lia.
  - assert (z mod (2 * h) = z + 2 * h)%Z as ->.
    { rewrite <- (Z.mod_small (z + 2 * h) (2 * h)) by lia.
      rewrite <- (Z.mul_1_l (2 * h)) at 2. by rewrite Z.mod_add by lia. }
    destruct (Z.ltb_spec (z + 2 * h) h); lia.
Qed.

Lemma length_signed n z : len (signed_to_le n z) = N.of_nat n.
Proof. unfold len, signed_to_le. by rewrite length_to_le. Qed.

Lemma signed_to_from n l :
  (0 < n)%nat -> octets l -> length l = n ->
  signed_range n (signed_from_le n l) /\ signed_to_le n (signed_from_le n l) = l.
Proof.
  intros Hn Hl Hlen. unfold signed_from_le, signed_to_le, signed_range.
  pose proof (half_width n Hn) as Hw. pose proof (from_le_bound l Hl) as Hb.
  rewrite Hlen, pow256, Hw in Hb. set (h := (2 ^ (8 * Z.of_nat n - 1))%Z) in *.
  assert (0 < h)%Z as Hh by (apply Z.pow_pos_nonneg; lia). rewrite Hw.
  assert (Z.of_N (from_le l) < 2 * h)%Z as Hb' by lia.
  destruct (Z.ltb_spec (Z.of_N (from_le l)) h).
  - split; [lia|]. rewrite Z.mod_small by lia. rewrite N2Z.id, <- Hlen. by apply to_from_le.
  - split; [lia|].
    assert ((Z.of_N (from_le l) - 2 * h) mod (2 * h) = Z.of_N (from_le l))%Z as ->.
    { rewrite <- (Z.mod_add _ 1) by lia. rewrite Z.mul_1_l, Z.sub_add. apply Z.mod_small. lia. }
    rewrite N2Z.id, <- Hlen. by apply to_from_le.
Qed.

Lemma rbind_signed {B} (n : nat) (k : Z -> Reader B) z l :
  (0 < n)%nat -> signed_range n z -> rbind (dec_signed n) k (signed_to_le n z ++ l) = k z l.
Proof.
  intros Hn Hz.
  unfold dec_signed. rewrite rbind_assoc, rbind_take by (by rewrite length_signed). unfold rbind, rret.
  by rewrite signed_from_to.
Qed.

Lemma rbind_string {B} (k : string -> Reader B) s l :
  text s -> (slen s <= MAX_STRING_BYTES)%N ->
  rbind dec_string k (to_le 2 (slen s) ++ string_bytes s ++ l) = k s l.
Proof.
  intros Ht Hs. unfold dec_string.
  rewrite rbind_assoc, rbind_u16 by (unfold u16_max, MAX_STRING_BYTES in *; lia).
  destruct (N.ltb_spec MAX_STRING_BYTES (slen s)); [lia|].
  rewrite rbind_assoc, rbind_take by (by rewrite len_string_bytes). rewrite Ht.
  unfold rbind, rret. by rewrite bytes_string_bytes.
Qed.

Definition wire_string (s : string) : list N := to_le 2 (slen s) ++ string_bytes s.
Definition wire_optional (o : option string) : list N :=
  match o with None => [0%N] | Some s => 1%N :: wire_string s end.
Definition wire_blob (b : list N) : list N := to_le 4 (len b) ++ b.
(** A body whose length comes first as a [u64]. *)
Definition wire_sized (b : list N) : list N := to_le 8 (len b) ++ b.

Definition fits (s : string) : Prop := (slen s <= MAX_STRING_BYTES)%N.
Definition opt_all {A} (P : A -> Prop) (o : option A) : Prop :=
  match o with None => True | Some a => P a end.

Lemma rbind_wire_string {B} (k : string -> Reader B) s l :
  text s -> fits s -> rbind dec_string k (wire_string s ++ l) = k s l.
Proof. intros. unfold wire_string. rewrite <- app_assoc. by apply rbind_string. Qed.

Lemma rbind_optional {B} (k : option string -> Reader B) o l :
  opt_all text o -> opt_all fits o -> rbind dec_optional_string k (wire_optional o ++ l) = k o l.
Proof.
  unfold dec_optional_string. destruct o as [s|]; intros Ht Hs; [|done].
  cbn [wire_optional app]. rewrite rbind_assoc, rbind_byte, rbind_assoc.
  by rewrite rbind_wire_string.
Qed.

Lemma rbind_blob {B} maximum (k : list N -> Reader B) b l :
  (len b <= maximum)%N -> (len b <= u32_max)%N ->
  rbind (dec_blob maximum) k (wire_blob b ++ l) = k b l.
Proof.
  intros Hm Hu. unfold dec_blob, wire_blob. rewrite rbind_assoc, <- app_assoc, rbind_u32 by done.
  destruct (N.ltb_spec maximum (len b)); [lia|]. by apply rbind_take.
Qed.

Lemma rbind_flag {B} (k : bool -> Reader B) b l : rbind dec_flag k (bit b :: l) = k b l.
Proof. by destruct b. Qed.

(** *** What a successful read saw *)

Lemma dec_byte_inv l b l' :
  dec_byte l = Ok (b, l') -> octets l -> l = b :: l' /\ is_byte b /\ octets l'.
Proof. destruct l; [done|]. intros [= <- <-] H. by inversion H. Qed.

Lemma dec_take_inv n l v l' :
  dec_take n l = Ok (v, l') -> octets l -> l = v ++ l' /\ len v = n /\ octets v /\ octets l'.
Proof.
  unfold dec_take. destruct (N.ltb_spec (len l) n); [done|]. intros [= <- <-] Ho.
  split; [by rewrite take_drop|]. split; [unfold len in *; rewrite length_take; lia|].
  split; [by apply Forall_take|by apply Forall_drop].
Qed.

Lemma dec_int_inv (n : nat) nN l v l' :
  nN = N.of_nat n -> (read l from dec_take nN in rret (from_le l)) l = Ok (v, l') -> octets l ->
  l = to_le n v ++ l' /\ (v < 256 ^ nN)%N /\ octets l'.
Proof.
  intros -> H Ho. apply rbind_Ok in H as (w & l1 & Hw & [= <- <-]).
  apply dec_take_inv in Hw as (-> & Hw & Hb & Hl1); [|done].
  assert (length w = n) as Hn by (unfold len in Hw; lia). rewrite <- Hn, to_from_le by done.
  split; [done|]. split; [by apply from_le_bound|done].
Qed.

Lemma dec_u16_inv l v l' :
  dec_u16 l = Ok (v, l') -> octets l -> l = to_le 2 v ++ l' /\ (v <= u16_max)%N /\ octets l'.
Proof.
  intros H Ho. destruct (dec_int_inv 2 2 l v l' eq_refl H Ho) as (? & Hv & ?).
  change (256 ^ 2)%N with 65536%N in Hv. unfold u16_max. split_and!; [done|lia|done].
Qed.
Lemma dec_u32_inv l v l' :
  dec_u32 l = Ok (v, l') -> octets l -> l = to_le 4 v ++ l' /\ (v <= u32_max)%N /\ octets l'.
Proof.
  intros H Ho. destruct (dec_int_inv 4 4 l v l' eq_refl H Ho) as (? & Hv & ?).
  change (256 ^ 4)%N with 4294967296%N in Hv. unfold u32_max. split_and!; [done|lia|done].
Qed.
Lemma dec_u64_inv l v l' :
  dec_u64 l = Ok (v, l') -> octets l -> l = to_le 8 v ++ l' /\ (v <= u64_max)%N /\ octets l'.
Proof.
  intros H Ho. destruct (dec_int_inv 8 8 l v l' eq_refl H Ho) as (? & Hv & ?).
  change (256 ^ 8)%N with 18446744073709551616%N in Hv. unfold u64_max. split_and!; [done|lia|done].
Qed.

Lemma dec_signed_inv n l z l' :
  (0 < n)%nat -> dec_signed n l = Ok (z, l') -> octets l ->
  l = signed_to_le n z ++ l' /\ signed_range n z /\ octets l'.
Proof.
  intros Hn H Ho. apply rbind_Ok in H as (w & l1 & Hw & [= <- <-]).
  apply dec_take_inv in Hw as (-> & Hw & Hb & Hl1); [|done].
  destruct (signed_to_from n w) as [Hr Hw']; [done|done|unfold len in Hw; lia|].
  by rewrite Hw'.
Qed.

Lemma dec_string_inv l s l' :
  dec_string l = Ok (s, l') -> octets l ->
  l = wire_string s ++ l' /\ text s /\ fits s /\ octets l'.
Proof.
  intros H Ho. apply rbind_Ok in H as (n & l1 & Hn & H). apply dec_u16_inv in Hn as (-> & _ & Ho1); [|done].
  destruct (N.ltb_spec MAX_STRING_BYTES n); [done|].
  apply rbind_Ok in H as (v & l2 & Hv & H).
  apply dec_take_inv in Hv as (-> & <- & Hb & Ho2); [|done].
  destruct (utf8_valid v) eqn:Hu; [|done]. injection H as <- <-.
  unfold wire_string, text, fits. rewrite <- len_string_bytes, string_bytes_bytes by done.
  by rewrite <- app_assoc.
Qed.

Lemma dec_optional_string_inv l o l' :
  dec_optional_string l = Ok (o, l') -> octets l ->
  l = wire_optional o ++ l' /\ opt_all text o /\ opt_all fits o /\ octets l'.
Proof.
  intros H Ho. apply rbind_Ok in H as (m & l1 & Hm & H).
  apply dec_byte_inv in Hm as (-> & _ & Ho1); [|done].
  destruct m as [|[| |]]; try done; [by injection H as <- <-|].
  apply rbind_Ok in H as (s & l2 & Hs & [= <- <-]). by apply dec_string_inv in Hs as (-> & ? & ? & ?).
Qed.

Lemma dec_blob_inv maximum l b l' :
  dec_blob maximum l = Ok (b, l') -> octets l ->
  l = wire_blob b ++ l' /\ (len b <= maximum)%N /\ (len b <= u32_max)%N /\ octets b /\ octets l'.
Proof.
  intros H Ho. apply rbind_Ok in H as (n & l1 & Hn & H).
  apply dec_u32_inv in Hn as (-> & Hu & Ho1); [|done].
  destruct (N.ltb_spec maximum n); [done|].
  apply dec_take_inv in H as (-> & <- & Hb & Ho2); [|done].
  unfold wire_blob. by rewrite <- app_assoc.
Qed.

Lemma dec_flag_inv l b l' :
  dec_flag l = Ok (b, l') -> octets l -> l = bit b :: l' /\ octets l'.
Proof.
  intros H Ho. apply rbind_Ok in H as (m & l1 & Hm & H).
  apply dec_byte_inv in Hm as (-> & _ & Ho1); [|done].
  by destruct m as [|[| |]]; try done; injection H as <- <-.
Qed.

(** *** What a successful write appended *)

Lemma enc_string_Ok s e e' : enc_string s e = Ok e' <-> fits s /\ e' = e ++ wire_string s.
Proof.
  unfold enc_string, wire_string, fits, enc_u16.
  destruct (N.ltb_spec MAX_STRING_BYTES (slen s)); simpl.
  { split; [done|]. intros [? _]. lia. }
  destruct (N.ltb_spec u16_max (slen s)) as [Hl|Hl].
  { unfold MAX_STRING_BYTES, u16_max in *. lia. }
  rewrite <- app_assoc. split; [by intros [= <-]|]. by intros [_ ->].
Qed.

Lemma enc_optional_string_Ok o e e' :
  enc_optional_string o e = Ok e' <-> opt_all fits o /\ e' = e ++ wire_optional o.
Proof.
  destruct o as [s|]; simpl.
  - rewrite enc_string_Ok. unfold enc_byte. by rewrite <- app_assoc.
  - unfold enc_byte. split; [by intros [= <-]|]. by intros [_ ->].
Qed.

Lemma enc_blob_Ok b e e' :
  enc_blob b e = Ok e' <-> (len b <= u32_max)%N /\ e' = e ++ wire_blob b.
Proof.
  unfold enc_blob, wire_blob, enc_u32. destruct (N.ltb_spec u32_max (len b)).
  { split; [done|]. intros [? _]. lia. }
  rewrite <- app_assoc. split; [by intros [= <-]|]. by intros [_ ->].
Qed.

Lemma enc_flag_eq b e : enc_flag b e = e ++ [bit b].
Proof. done. Qed.

(** *** The frame *)

Lemma encode_with_Ok magic body bs :
  encode_with magic body = Ok bs <->
  body (magic_bytes magic) = Ok bs /\ (len bs <= MAX_PAYLOAD_BYTES)%N.
Proof.
  unfold encode_with, enc_new, enc_finish. rewrite bind_Ok. split.
  - intros (e & He & H). destruct (N.ltb_spec MAX_PAYLOAD_BYTES (len e)); [done|].
    by injection H as ->.
  - intros [H Hl]. exists bs. split; [done|].
    by destruct (N.ltb_spec MAX_PAYLOAD_BYTES (len bs)); [lia|].
Qed.

Lemma decode_with_Ok {A} magic (body : Reader A) bs v :
  decode_with magic body bs = Ok v <->
  (len bs <= MAX_PAYLOAD_BYTES)%N /\ exists l, bs = magic_bytes magic ++ l /\ body l = Ok (v, []).
Proof.
  unfold decode_with, dec_new. destruct (N.ltb_spec MAX_PAYLOAD_BYTES (len bs)) as [Hl|Hl]; simpl.
  { split; [done|]. intros [? _]. lia. }
  case_bool_decide as Hm; simpl.
  - split.
    + intros H. inv_ok. destruct a as [v' l]. inv_ok. destruct l; [|done]. inv_ok.
      split; [done|]. eexists. split; [|done]. rewrite <- Hm at 1. by rewrite take_drop.
    + intros (_ & l & -> & H). rewrite drop_app_length, H. done.
  - split; [done|]. intros (_ & l & -> & _). by rewrite take_app_length in Hm.
Qed.

(** *** Lists of values

    An element's encoder [f] and reader [p] agree on the wire form [w] of the
    values that are [good] (those Rust's types admit) and within the [limit]s
    the encoder enforces. *)

Record ElementLaw {A} (f : A -> Encoder -> result SchemaError Encoder) (p : Reader A)
    (good limit : A -> Prop) (w : A -> list N) : Prop := {
  el_write : forall a e e', f a e = Ok e' <-> limit a /\ e' = e ++ w a;
  el_forth : forall a l, good a -> limit a -> p (w a ++ l) = Ok (a, l);
  el_back : forall l a l', octets l -> p l = Ok (a, l') ->
    l = w a ++ l' /\ good a /\ limit a /\ octets l';
}.

Definition wire_many {A} (w : A -> list N) (l : list A) : list N := flat_map w l.

Section Lists.
Context {A : Type} (good limit : A -> Prop) (w : A -> list N).

Section Plain.
Context (f : A -> Encoder -> result SchemaError Encoder) (p : Reader A)
  (Hlaw : ElementLaw f p good limit w).

Lemma enc_each_Ok l e e' :
  enc_each f l e = Ok e' <-> Forall limit l /\ e' = e ++ wire_many w l.
Proof.
  unfold enc_each. revert e. induction l as [|a l IH]; intros e; cbn [foldR wire_many flat_map].
  - rewrite app_nil_r. split; [by intros [= ->]|]. by intros [_ ->].
  - rewrite bind_Ok, Forall_cons. setoid_rewrite IH. setoid_rewrite (el_write _ _ _ _ _ Hlaw).
    rewrite app_assoc. naive_solver.
Qed.

Lemma rbind_many {B} (k : list A -> Reader B) l r n :
  n = length l -> Forall good l -> Forall limit l ->
  rbind (dec_many n p) k (wire_many w l ++ r) = k l r.
Proof.
  intros -> Hg Hl.
  assert (forall r, dec_many (length l) p (wire_many w l ++ r) = Ok (l, r)) as H;
    [|by unfold rbind; rewrite H].
  induction l as [|a l IH]; intros r'; cbn [length dec_many wire_many flat_map]; [done|].
  inversion Hg; inversion Hl; subst. unfold rbind at 1.
  rewrite <- app_assoc, (el_forth _ _ _ _ _ Hlaw) by done.
  unfold rbind. change (flat_map w l) with (wire_many w l). by rewrite IH.
Qed.

Lemma dec_many_inv n l as_ l' :
  dec_many n p l = Ok (as_, l') -> octets l ->
  l = wire_many w as_ ++ l' /\ length as_ = n /\ Forall good as_ /\ Forall limit as_ /\ octets l'.
Proof.
  revert l as_. induction n as [|n IH]; intros l as_ H Ho; cbn [dec_many] in H.
  - injection H as <- <-. done.
  - apply rbind_Ok in H as (a & l1 & Ha & H).
    apply (el_back _ _ _ _ _ Hlaw) in Ha as (-> & Hg & Hl & Ho1); [|done].
    apply rbind_Ok in H as (r & l2 & Hr & [= <- <-]).
    apply IH in Hr as (-> & <- & ? & ? & ?); [|done].
    cbn [wire_many flat_map length]. rewrite <- app_assoc. split_and!; try done; by constructor.
Qed.
End Plain.

Section Keyed.
Context (f : list string -> A -> Encoder -> result SchemaError Encoder)
  (p : list string -> Reader A) (key : A -> string).

(** The element law once the keys seen so far exclude the element's own. *)
Record KeyedLaw : Prop := {
  kl_write : forall seen a e e',
    f seen a e = Ok e' <-> ((key a ∉ seen) /\ limit a) /\ e' = e ++ w a;
  kl_forth : forall seen a l, (key a ∉ seen) -> good a -> limit a -> p seen (w a ++ l) = Ok (a, l);
  kl_back : forall seen l a l', octets l -> p seen l = Ok (a, l') ->
    l = w a ++ l' /\ (key a ∉ seen) /\ good a /\ limit a /\ octets l';
}.
Context (Hlaw : KeyedLaw).

(** The keys are new and pairwise different. *)
Definition new_keys (seen : list string) (l : list A) : Prop :=
  NoDup (key <$> l) /\ forall a, a ∈ l -> (key a ∉ seen).

Lemma new_keys_cons seen a l :
  new_keys seen (a :: l) <-> (key a ∉ seen) /\ new_keys (set_add (key a) seen) l.
Proof.
  unfold new_keys. rewrite fmap_cons, NoDup_cons. setoid_rewrite elem_of_cons.
  setoid_rewrite elem_of_set_add. split.
  - intros [[Hn Hd] Hs]. split; [by apply Hs; left|]. split; [done|].
    intros b Hb [E|Hin]; [|by apply (Hs b); [right|]].
    apply Hn. rewrite <- E. by apply list_elem_of_fmap_2.
  - intros [Ha [Hd Hs]]. split; [split; [|done]|].
    + intros (b & E & Hb)%list_elem_of_fmap. apply (Hs b Hb). by left.
    + intros b [->|Hb] Hin; [done|]. apply (Hs b Hb). by right.
Qed.

Lemma enc_keyed_Ok l seen e e' :
  enc_keyed f key seen l e = Ok e' <->
  (new_keys seen l /\ Forall limit l) /\ e' = e ++ wire_many w l.
Proof.
  revert seen e. induction l as [|a l IH]; intros seen e; cbn [enc_keyed wire_many flat_map].
  - rewrite app_nil_r. split; [|by intros [_ ->]]. intros [= ->]. split; [|done].
    split; [split; [constructor|set_solver]|constructor].
  - rewrite bind_Ok, Forall_cons, new_keys_cons. setoid_rewrite IH.
    setoid_rewrite (kl_write Hlaw). rewrite app_assoc. naive_solver.
Qed.

Lemma rbind_keyed {B} (k : list A -> Reader B) l r n seen :
  n = length l -> new_keys seen l -> Forall good l -> Forall limit l ->
  rbind (dec_keyed p key seen n) k (wire_many w l ++ r) = k l r.
Proof.
  intros -> Hk Hg Hl.
  assert (forall r, dec_keyed p key seen (length l) (wire_many w l ++ r) = Ok (l, r)) as H;
    [|by unfold rbind; rewrite H].
  clear r. revert seen Hk.
  induction l as [|a l IH]; intros seen Hk r'; cbn [length dec_keyed wire_many flat_map]; [done|].
  inversion Hg; inversion Hl; subst. apply new_keys_cons in Hk as [Ha Hk]. unfold rbind at 1.
  rewrite <- app_assoc, (kl_forth Hlaw) by done.
  unfold rbind. change (flat_map w l) with (wire_many w l). by rewrite IH.
Qed.

Lemma dec_keyed_inv n seen l as_ l' :
  dec_keyed p key seen n l = Ok (as_, l') -> octets l ->
  l = wire_many w as_ ++ l' /\ length as_ = n /\ new_keys seen as_ /\
  Forall good as_ /\ Forall limit as_ /\ octets l'.
Proof.
  revert l as_ seen. induction n as [|n IH]; intros l as_ seen H Ho; cbn [dec_keyed] in H.
  - injection H as <- <-. split_and!; try done. split; [constructor|set_solver].
  - apply rbind_Ok in H as (a & l1 & Ha & H).
    apply (kl_back Hlaw) in Ha as (-> & Hs & Hg & Hl & Ho1); [|done].
    apply rbind_Ok in H as (r & l2 & Hr & [= <- <-]).
    apply IH in Hr as (-> & <- & ? & ? & ? & ?); [|done].
    rewrite new_keys_cons. cbn [wire_many flat_map length]. rewrite <- app_assoc.
    split_and!; try done; by constructor.
Qed.
End Keyed.
End Lists.

(** A list of strings. *)
Lemma string_law : ElementLaw enc_string dec_string text fits wire_string.
Proof.
  split.
  - apply enc_string_Ok.
  - intros s l Ht Hf. pose proof (rbind_wire_string rret s l Ht Hf) as H.
    unfold rbind in H. destruct (dec_string _) as [[? ?]|]; [|done]. exact H.
  - intros l s l' Ho H. by apply dec_string_inv in H.
Qed.

(** ** Payload codecs

    [good] are the values Rust's types admit (UTF-8 strings, bytes, integers
    in range).  Encoding is undone by decoding; a decoded value is good and
    encodes to the very bytes it was decoded from. *)

Record SchemaLaw {A} (encode : A -> result SchemaError (list N))
    (decode : list N -> result SchemaError A) (good : A -> Prop) : Prop := {
  sl_forth : forall v bs, good v -> encode v = Ok bs -> decode bs = Ok v;
  sl_back : forall v bs, octets bs -> decode bs = Ok v -> good v /\ encode v = Ok bs;
}.

Lemma decode_with_forth {A} magic (body : Reader A) l v :
  (len (magic_bytes magic ++ l) <= MAX_PAYLOAD_BYTES)%N -> body (l ++ []) = Ok (v, []) ->
  decode_with magic body (magic_bytes magic ++ l) = Ok v.
Proof. rewrite app_nil_r. intros. apply decode_with_Ok. eauto. Qed.

Lemma encode_with_back magic body (l : list N) :
  body (magic_bytes magic) = Ok (magic_bytes magic ++ l) ->
  (len (magic_bytes magic ++ l) <= MAX_PAYLOAD_BYTES)%N ->
  encode_with magic body = Ok (magic_bytes magic ++ l).
Proof. intros. by apply encode_with_Ok. Qed.

Create Rewrite HintDb guards.
#[export] Hint Rewrite orb_false_iff negb_false_iff andb_true_iff N.ltb_ge N.leb_le N.eqb_neq
  : guards.

(** The limits of a group of payloads, to be unfolded when arithmetic needs
    their values. *)
Ltac schema_constants := idtac.

(** Prove that a guard does not fire, or a limit holds, from the hypotheses. *)
Ltac limits :=
  try done;
  unfold fits, MAX_STRING_BYTES, u16_max, u32_max, u64_max, is_byte in *;
  autorewrite with guards in *; destruct_and?; split_and?; first [assumption | lia | (schema_constants; lia) | solve [eauto]].

Ltac read_step :=
  match goal with
  | H : rbind _ _ _ = Ok _ |- _ => apply rbind_Ok in H as (? & ? & ? & H)
  | H : rret _ _ = Ok _ |- _ => unfold rret in H; injection H; clear H; intros; subst
  | H : rerr _ _ = Ok _ |- _ => discriminate H
  | H : rguard _ _ _ = Ok _ |- _ => apply rguard_Ok in H as (? & ->)
  | H : dec_byte _ = Ok _ |- _ => apply dec_byte_inv in H as (-> & ? & ?); [|assumption]
  | H : dec_take _ _ = Ok _ |- _ => apply dec_take_inv in H as (-> & <- & ? & ?); [|assumption]
  | H : dec_u16 _ = Ok _ |- _ => apply dec_u16_inv in H as (-> & ? & ?); [|assumption]
  | H : dec_u32 _ = Ok _ |- _ => apply dec_u32_inv in H as (-> & ? & ?); [|assumption]
  | H : dec_u64 _ = Ok _ |- _ => apply dec_u64_inv in H as (-> & ? & ?); [|assumption]
  | H : dec_signed _ _ = Ok _ |- _ =>
      apply dec_signed_inv in H as (-> & ? & ?); [|lia|assumption]
  | H : dec_string _ = Ok _ |- _ => apply dec_string_inv in H as (-> & ? & ? & ?); [|assumption]
  | H : dec_optional_string _ = Ok _ |- _ =>
      apply dec_optional_string_inv in H as (-> & ? & ? & ?); [|assumption]
  | H : dec_blob _ _ = Ok _ |- _ => apply dec_blob_inv in H as (-> & ? & ? & ? & ?); [|assumption]
  | H : dec_flag _ = Ok _ |- _ => apply dec_flag_inv in H as (-> & ?); [|assumption]
  | H : (match ?x with _ => _ end) _ = Ok _ |- _ => is_var x; destruct x
  | H : Err _ = Ok _ |- _ => discriminate H
  end.

Ltac same_bytes :=
  unfold enc_flag, enc_byte, enc_u16, enc_u32, enc_u64, enc_signed, enc_raw;
  rewrite <- ?app_assoc, ?app_nil_r; cbn [app]; reflexivity.

Ltac write_step :=
  match goal with
  | |- reject_if _ _ ≫= _ = Ok _ => apply bind_Ok; exists (); split
  | |- _ ≫= _ = Ok _ => apply bind_Ok; eexists; split
  | |- enc_string _ _ = Ok _ => apply enc_string_Ok; split; [by limits|first [reflexivity|symmetry; same_bytes]]
  | |- enc_optional_string _ _ = Ok _ => apply enc_optional_string_Ok; split; [by limits|first [reflexivity|symmetry; same_bytes]]
  | |- enc_blob _ _ = Ok _ => apply enc_blob_Ok; split; [by limits|first [reflexivity|symmetry; same_bytes]]
  | |- reject_if _ _ = Ok _ => apply reject_if_Ok; by limits
  | |- encode_with _ _ = Ok _ => apply encode_with_back; [|eassumption]
  end.

Ltac encode_goal := repeat write_step; try (f_equal; same_bytes).

Ltac write_inv :=
  repeat match goal with
  | H : _ ≫= _ = Ok _ |- _ => apply bind_Ok in H as (? & ? & H)
  | H : reject_if _ _ = Ok _ |- _ => apply reject_if_Ok in H
  | H : encode_with _ _ = Ok _ |- _ => apply encode_with_Ok in H as [H ?]
  | H : enc_string _ _ = Ok _ |- _ => apply enc_string_Ok in H as [? H]
  | H : enc_optional_string _ _ = Ok _ |- _ => apply enc_optional_string_Ok in H as [? H]
  | H : enc_blob _ _ = Ok _ |- _ => apply enc_blob_Ok in H as [? H]
  | H : Ok _ = Ok _ |- _ => apply Ok_inj in H
  | H : Err _ = Ok _ |- _ => discriminate H
  | H : (match ?x with _ => _ end) = Ok _ |- _ => is_var x; destruct x
  | H : ?x = _ |- _ => is_var x; subst x
  | H : _ = ?x |- _ => is_var x; subst x
  end.


Ltac forth_step :=
  first
  [ rewrite rbind_wire_string by (first [eassumption | limits])
  | rewrite rbind_optional by (first [eassumption | limits])
  | rewrite rbind_blob by limits
  | rewrite rbind_u16 by limits
  | rewrite rbind_u32 by limits
  | rewrite rbind_u64 by limits
  | rewrite rbind_signed by (first [lia | eassumption])
  | rewrite rbind_take by reflexivity
  | rewrite rbind_flag
  | rewrite rbind_byte
  | rewrite rbind_guard by limits
  | rewrite rbind_ret
  | rewrite rbind_assoc
  | match goal with |- context [match ?f ?x with 0%N => _ | N.pos _ => _ end] =>
      is_var x; destruct x; cbn -[app to_le magic_bytes] end ].

#[global] Arguments magic_bytes : simpl never.
#[global] Arguments bit : simpl never.
#[global] Arguments wire_string : simpl never.
#[global] Arguments wire_blob : simpl never.
#[global] Arguments wire_optional : simpl never.
#[global] Arguments wire_many : simpl never.
#[global] Arguments encode_with : simpl never.
#[global] Arguments decode_with : simpl never.
#[global] Arguments len : simpl never.
#[global] Arguments slen : simpl never.
#[global] Arguments text : simpl never.
#[global] Arguments signed_to_le : simpl never.
#[global] Arguments rbind : simpl never.
#[global] Arguments N.mul : simpl nomatch.

(** The helpers of a group of payloads, to be unfolded with them. *)
Ltac schema_unfold := idtac.

(** Encoding then decoding: the conditions of the successful encoder are
    those the decoder checks, and every read finds what was written. *)
Ltac schema_forth enc dec good :=
  let v := fresh "v" in let H := fresh "H" in
  intros v ? ? H; unfold good in *; unfold enc in H; destruct v; schema_unfold; cbn -[app to_le magic_bytes] in *;
  destruct_and?; write_inv;
  unfold enc_flag, enc_byte, enc_u16, enc_u32, enc_u64, enc_signed, enc_raw in *;
  repeat match goal with Hl : (len _ <= MAX_PAYLOAD_BYTES)%N |- _ =>
    rewrite <- ?app_assoc in Hl; revert Hl end; intros;
  rewrite <- ?app_assoc; unfold dec; schema_unfold;
  repeat match goal with
  | |- reject_if _ _ ≫= _ = Ok _ => apply bind_Ok; exists (); split
  | |- _ ≫= _ = Ok _ => apply bind_Ok; eexists; split
  | |- reject_if _ _ = Ok _ => apply reject_if_Ok; by limits
  | |- decode_with _ _ _ = Ok _ =>
      apply decode_with_forth; [eassumption|]; rewrite <- ?app_assoc; cbn [app];
      repeat forth_step
  end; cbn -[app to_le magic_bytes] in *; try done; try (apply reject_if_Ok; by limits).

(** Decoding then encoding. *)
Ltac schema_back enc dec good :=
  let v := fresh "v" in let Ho := fresh "Ho" in let H := fresh "H" in
  intros v ? Ho H; unfold dec in H; schema_unfold; inv_ok;
  repeat match goal with Hd : decode_with _ _ _ = Ok _ |- _ =>
    apply decode_with_Ok in Hd as (? & ? & -> & Hd); apply Forall_app in Ho as [_ Ho] end;
  repeat read_step; unfold good, enc; schema_unfold; cbn -[app to_le magic_bytes] in *;
  first [discriminate|split; [by limits|encode_goal]].

Ltac schema_law enc dec good :=
  split; [schema_forth enc dec good|schema_back enc dec good].
