(* ===== verification/SchemaDesktop.v ===== *)
(** * SchemaDesktop: appearance, context, clipboard, secret, local and desktop payloads

    The payload types of [crates/touchbar-broker-schema/src/lib.rs] for the
    desktop capabilities, each with its encoder and decoder as written and the
    law that they are inverse. *)

From S2P Require Import Prelude BTree Text Wire Payload.

Definition LOCAL_CONNECT_MAGIC : string := "OMLOCNQ1".
Definition LOCAL_OPENED_MAGIC : string := "OMLOCNO1".
Definition LOCAL_SEND_MAGIC : string := "OMLOCNS1".
Definition LOCAL_EVENT_MAGIC : string := "OMLOCNE1".
Definition URI_OPEN_MAGIC : string := "OMURIOP1".
Definition NOTIFICATION_SEND_MAGIC : string := "OMNOTIF1".
Definition NOTIFICATION_REMOVE_MAGIC : string := "OMNOTIR1".
Definition SECRET_READ_MAGIC : string := "OMSECRQ1".
Definition SECRET_VALUE_MAGIC : string := "OMSECRV1".
Definition CLIPBOARD_READ_MAGIC : string := "OMCLPRQ1".
Definition CLIPBOARD_WRITE_MAGIC : string := "OMCLPWQ1".
Definition CLIPBOARD_VALUE_MAGIC : string := "OMCLPVL1".
Definition CONTEXT_READ_MAGIC : string := "OMCTXRQ1".
Definition CONTEXT_SNAPSHOT_MAGIC : string := "OMCTXSN1".
Definition CONTEXT_OPENED_MAGIC : string := "OMCTXOP1".
Definition APPEARANCE_PUBLISH_MAGIC : string := "OMAPPPB1".

Definition MAX_URI_BYTES : N := 4096.
#[global] Arguments MAX_URI_BYTES : simpl never.
Definition MAX_NOTIFICATION_TITLE_BYTES : N := 256.
#[global] Arguments MAX_NOTIFICATION_TITLE_BYTES : simpl never.
Definition MAX_NOTIFICATION_BODY_BYTES : N := 4096.
#[global] Arguments MAX_NOTIFICATION_BODY_BYTES : simpl never.
Definition MAX_LOCAL_FRAME_BYTES : N := 12 * 1024.
#[global] Arguments MAX_LOCAL_FRAME_BYTES : simpl never.
Definition MAX_SECRET_BYTES : N := 48 * 1024.
#[global] Arguments MAX_SECRET_BYTES : simpl never.
Definition MAX_SECRET_CONTENT_TYPE_BYTES : N := 128.
#[global] Arguments MAX_SECRET_CONTENT_TYPE_BYTES : simpl never.
Definition MAX_CLIPBOARD_BYTES : N := 48 * 1024.
#[global] Arguments MAX_CLIPBOARD_BYTES : simpl never.
Definition MAX_CLIPBOARD_MIME_BYTES : N := 128.
#[global] Arguments MAX_CLIPBOARD_MIME_BYTES : simpl never.
Definition MAX_CONTEXT_FACTS : N := 32.
#[global] Arguments MAX_CONTEXT_FACTS : simpl never.
Definition MAX_CONTEXT_VALUE_BYTES : N := 256.
#[global] Arguments MAX_CONTEXT_VALUE_BYTES : simpl never.

(** ** Appearance *)

Inductive AppearanceScheme := Dark | Light.
Record AppearanceColor := { red : N; green : N; blue : N }.
Record AppearancePublish := {
  ap_provider : string;
  ap_scheme : AppearanceScheme;
  ap_background : AppearanceColor;
  ap_foreground : AppearanceColor;
  ap_accent : AppearanceColor;
  ap_selection : AppearanceColor;
  ap_muted : AppearanceColor;
  ap_destructive : AppearanceColor;
}.

Definition scheme_code (s : AppearanceScheme) : N := match s with Dark => 0 | Light => 1 end.

Definition enc_color (color : AppearanceColor) (e : Encoder) : Encoder :=
  enc_byte (blue color) (enc_byte (green color) (enc_byte (red color) e)).

Definition AppearancePublish_encode (v : AppearancePublish) : result SchemaError (list N) :=
  _ ← reject_if (String.eqb (ap_provider v) "") Malformed;
  encode_with APPEARANCE_PUBLISH_MAGIC (fun e =>
    e ← enc_string (ap_provider v) e;
    let e := enc_byte (scheme_code (ap_scheme v)) e in
    Ok (enc_color (ap_destructive v) (enc_color (ap_muted v) (enc_color (ap_selection v)
         (enc_color (ap_accent v) (enc_color (ap_foreground v)
           (enc_color (ap_background v) e))))))).

Definition dec_color : Reader AppearanceColor :=
  read r from dec_byte in read g from dec_byte in read b from dec_byte in
  rret {| red := r; green := g; blue := b |}.

Definition AppearancePublish_decode : list N -> result SchemaError AppearancePublish :=
  decode_with APPEARANCE_PUBLISH_MAGIC
    (read provider from dec_string in
     read _g from rguard (String.eqb provider "") Malformed in
     read code from dec_byte in
     read scheme from match code with
                      | 0 => rret Dark | 1 => rret Light | _ => rerr Malformed
                      end%N in
     read background from dec_color in
     read foreground from dec_color in
     read accent from dec_color in
     read selection from dec_color in
     read muted from dec_color in
     read destructive from dec_color in
     rret {| ap_provider := provider; ap_scheme := scheme; ap_background := background;
             ap_foreground := foreground; ap_accent := accent; ap_selection := selection;
             ap_muted := muted; ap_destructive := destructive |}).

(** ** Context facts *)

Record ContextReadRequest := { crr_facts : list string }.

Definition ContextReadRequest_encode (v : ContextReadRequest) : result SchemaError (list N) :=
  _ ← reject_if (len (crr_facts v) =? 0)%N Malformed;
  _ ← reject_if (MAX_CONTEXT_FACTS <? len (crr_facts v))%N LimitExceeded;
  encode_with CONTEXT_READ_MAGIC (fun e =>
    enc_each enc_string (crr_facts v) (enc_u16 (len (crr_facts v)) e)).

(** [if !facts.insert(decoder.string()?) { return Err(Malformed) }]. *)
Definition dec_fact_name (seen : list string) : Reader string :=
  read fact from dec_string in
  read _g from rguard (set_contains fact seen) Malformed in
  rret fact.

Definition ContextReadRequest_decode : list N -> result SchemaError ContextReadRequest :=
  decode_with CONTEXT_READ_MAGIC
    (read count from dec_u16 in
     read _g from rguard (count =? 0)%N Malformed in
     read _g from rguard (MAX_CONTEXT_FACTS <? count)%N LimitExceeded in
     read facts from dec_keyed dec_fact_name (fun fact => fact) [] (N.to_nat count) in
     rret {| crr_facts := set_of facts |}).

Inductive ContextFactValue := TextFact (value : string) | BooleanFact (value : bool).
Record ContextFact := { cf_key : string; cf_value : ContextFactValue }.
Record ContextSnapshot := { cs_generation : N; cs_facts : list ContextFact }.
Record ContextSubscriptionOpened := { cso_resource_id : N; cso_snapshot : ContextSnapshot }.

Definition enc_fact (keys : list string) (fact : ContextFact) (e : Encoder)
  : result SchemaError Encoder :=
  _ ← reject_if (set_contains (cf_key fact) keys) Malformed;
  e ← enc_string (cf_key fact) e;
  match cf_value fact with
  | TextFact value =>
      _ ← reject_if (MAX_CONTEXT_VALUE_BYTES <? slen value)%N LimitExceeded;
      enc_string value (enc_byte 0 e)
  | BooleanFact value => Ok (enc_flag value (enc_byte 1 e))
  end.

Definition encode_context_snapshot (magic : string) (resource_id : option N)
    (snapshot : ContextSnapshot) : result SchemaError (list N) :=
  _ ← reject_if (cs_generation snapshot =? 0)%N Malformed;
  _ ← reject_if (MAX_CONTEXT_FACTS <? len (cs_facts snapshot))%N LimitExceeded;
  encode_with magic (fun e =>
    let e := match resource_id with Some resource_id => enc_u64 resource_id e | None => e end in
    enc_keyed enc_fact cf_key [] (cs_facts snapshot)
      (enc_u16 (len (cs_facts snapshot)) (enc_u64 (cs_generation snapshot) e))).

Definition dec_fact (keys : list string) : Reader ContextFact :=
  read key from dec_string in
  read _g from rguard (set_contains key keys) Malformed in
  read code from dec_byte in
  read value from match code with
                  | 0 => read value from dec_string in
                         read _g from rguard (MAX_CONTEXT_VALUE_BYTES <? slen value)%N LimitExceeded in
                         rret (TextFact value)
                  | 1 => read value from dec_flag in rret (BooleanFact value)
                  | _ => rerr Malformed
                  end%N in
  rret {| cf_key := key; cf_value := value |}.

(** The part after the optional resource id. *)
Definition dec_snapshot : Reader ContextSnapshot :=
  read generation from dec_u64 in
  read _g from rguard (generation =? 0)%N Malformed in
  read count from dec_u16 in
  read _g from rguard (MAX_CONTEXT_FACTS <? count)%N LimitExceeded in
  read facts from dec_keyed dec_fact cf_key [] (N.to_nat count) in
  rret {| cs_generation := generation; cs_facts := facts |}.

Definition decode_context_snapshot (magic : string)
  : list N -> result SchemaError (option N * ContextSnapshot) :=
  decode_with magic
    (read resource_id from
       if String.eqb magic CONTEXT_OPENED_MAGIC
       then read resource_id from dec_u64 in rret (Some resource_id) else rret None in
     read snapshot from dec_snapshot in
     rret (resource_id, snapshot)).

Definition ContextSnapshot_encode (v : ContextSnapshot) : result SchemaError (list N) :=
  encode_context_snapshot CONTEXT_SNAPSHOT_MAGIC None v.
Definition ContextSnapshot_decode (bytes : list N) : result SchemaError ContextSnapshot :=
  '(_, snapshot) ← decode_context_snapshot CONTEXT_SNAPSHOT_MAGIC bytes;
  Ok snapshot.

Definition ContextSubscriptionOpened_encode (v : ContextSubscriptionOpened)
  : result SchemaError (list N) :=
  _ ← reject_if (cso_resource_id v =? 0)%N Malformed;
  encode_context_snapshot CONTEXT_OPENED_MAGIC (Some (cso_resource_id v)) (cso_snapshot v).
Definition ContextSubscriptionOpened_decode (bytes : list N)
  : result SchemaError ContextSubscriptionOpened :=
  '(resource_id, snapshot) ← decode_context_snapshot CONTEXT_OPENED_MAGIC bytes;
  resource_id ← ok_or Malformed resource_id;
  _ ← reject_if (resource_id =? 0)%N Malformed;
  Ok {| cso_resource_id := resource_id; cso_snapshot := snapshot |}.

(** ** Clipboard *)

Record ClipboardReadRequest := { clr_mime_type : string }.
Record ClipboardWriteRequest := { clw_mime_type : string; clw_bytes : list N }.
Record ClipboardValue := { clv_mime_type : string; clv_bytes : list N }.

Definition ClipboardReadRequest_encode (v : ClipboardReadRequest) : result SchemaError (list N) :=
  _ ← reject_if (MAX_CLIPBOARD_MIME_BYTES <? slen (clr_mime_type v))%N LimitExceeded;
  encode_with CLIPBOARD_READ_MAGIC (enc_string (clr_mime_type v)).
Definition ClipboardReadRequest_decode (bytes : list N) : result SchemaError ClipboardReadRequest :=
  value ← decode_with CLIPBOARD_READ_MAGIC
    (read mime_type from dec_string in rret {| clr_mime_type := mime_type |}) bytes;
  _ ← reject_if (MAX_CLIPBOARD_MIME_BYTES <? slen (clr_mime_type value))%N LimitExceeded;
  Ok value.

Definition ClipboardWriteRequest_encode (v : ClipboardWriteRequest)
  : result SchemaError (list N) :=
  _ ← reject_if ((MAX_CLIPBOARD_MIME_BYTES <? slen (clw_mime_type v))
                 || (MAX_CLIPBOARD_BYTES <? len (clw_bytes v)))%N LimitExceeded;
  encode_with CLIPBOARD_WRITE_MAGIC (fun e =>
    e ← enc_string (clw_mime_type v) e; enc_blob (clw_bytes v) e).
Definition ClipboardWriteRequest_decode (bytes : list N)
  : result SchemaError ClipboardWriteRequest :=
  value ← decode_with CLIPBOARD_WRITE_MAGIC
    (read mime_type from dec_string in
     read bytes from dec_blob MAX_CLIPBOARD_BYTES in
     rret {| clw_mime_type := mime_type; clw_bytes := bytes |}) bytes;
  _ ← reject_if (MAX_CLIPBOARD_MIME_BYTES <? slen (clw_mime_type value))%N LimitExceeded;
  Ok value.

Definition ClipboardValue_encode (v : ClipboardValue) : result SchemaError (list N) :=
  _ ← reject_if ((MAX_CLIPBOARD_MIME_BYTES <? slen (clv_mime_type v))
                 || (MAX_CLIPBOARD_BYTES <? len (clv_bytes v)))%N LimitExceeded;
  encode_with CLIPBOARD_VALUE_MAGIC (fun e =>
    e ← enc_string (clv_mime_type v) e; enc_blob (clv_bytes v) e).
Definition ClipboardValue_decode (bytes : list N) : result SchemaError ClipboardValue :=
  value ← decode_with CLIPBOARD_VALUE_MAGIC
    (read mime_type from dec_string in
     read bytes from dec_blob MAX_CLIPBOARD_BYTES in
     rret {| clv_mime_type := mime_type; clv_bytes := bytes |}) bytes;
  _ ← reject_if (MAX_CLIPBOARD_MIME_BYTES <? slen (clv_mime_type value))%N LimitExceeded;
  Ok value.

(** ** Secrets *)

Record SecretReadRequest := { srr_logical_name : string }.
Record SecretValue := { sv_bytes : list N; sv_content_type : string }.

Definition SecretReadRequest_encode (v : SecretReadRequest) : result SchemaError (list N) :=
  encode_with SECRET_READ_MAGIC (enc_string (srr_logical_name v)).
Definition SecretReadRequest_decode : list N -> result SchemaError SecretReadRequest :=
  decode_with SECRET_READ_MAGIC
    (read logical_name from dec_string in rret {| srr_logical_name := logical_name |}).

Definition SecretValue_encode (v : SecretValue) : result SchemaError (list N) :=
  _ ← reject_if ((MAX_SECRET_BYTES <? len (sv_bytes v))
                 || (MAX_SECRET_CONTENT_TYPE_BYTES <? slen (sv_content_type v)))%N LimitExceeded;
  encode_with SECRET_VALUE_MAGIC (fun e =>
    e ← enc_blob (sv_bytes v) e; enc_string (sv_content_type v) e).
Definition SecretValue_decode (bytes : list N) : result SchemaError SecretValue :=
  value ← decode_with SECRET_VALUE_MAGIC
    (read bytes from dec_blob MAX_SECRET_BYTES in
     read content_type from dec_string in
     rret {| sv_bytes := bytes; sv_content_type := content_type |}) bytes;
  _ ← reject_if (MAX_SECRET_CONTENT_TYPE_BYTES <? slen (sv_content_type value))%N LimitExceeded;
  Ok value.

(** ** Local connections *)

Record LocalConnect := { lc_endpoint : string; lc_protocol : string }.
Record LocalConnectionOpened := { lco_resource_id : N; lco_maximum_frame_bytes : N }.
Record LocalSendFrame := { lsf_resource_id : N; lsf_bytes : list N }.
Record LocalFrameEvent := { lfe_bytes : list N }.

Definition LocalConnect_encode (v : LocalConnect) : result SchemaError (list N) :=
  encode_with LOCAL_CONNECT_MAGIC (fun e =>
    e ← enc_string (lc_endpoint v) e; enc_string (lc_protocol v) e).
Definition LocalConnect_decode : list N -> result SchemaError LocalConnect :=
  decode_with LOCAL_CONNECT_MAGIC
    (read endpoint from dec_string in
     read protocol from dec_string in
     rret {| lc_endpoint := endpoint; lc_protocol := protocol |}).

Definition LocalConnectionOpened_encode (v : LocalConnectionOpened)
  : result SchemaError (list N) :=
  _ ← reject_if ((lco_resource_id v =? 0) || (lco_maximum_frame_bytes v =? 0)
                 || (MAX_LOCAL_FRAME_BYTES <? lco_maximum_frame_bytes v))%N Malformed;
  encode_with LOCAL_OPENED_MAGIC (fun e =>
    Ok (enc_u32 (lco_maximum_frame_bytes v) (enc_u64 (lco_resource_id v) e))).
Definition LocalConnectionOpened_decode (bytes : list N)
  : result SchemaError LocalConnectionOpened :=
  value ← decode_with LOCAL_OPENED_MAGIC
    (read resource_id from dec_u64 in
     read maximum_frame_bytes from dec_u32 in
     rret {| lco_resource_id := resource_id;
             lco_maximum_frame_bytes := maximum_frame_bytes |}) bytes;
  _ ← reject_if ((lco_resource_id value =? 0) || (lco_maximum_frame_bytes value =? 0)
                 || (MAX_LOCAL_FRAME_BYTES <? lco_maximum_frame_bytes value))%N Malformed;
  Ok value.

Definition LocalSendFrame_encode (v : LocalSendFrame) : result SchemaError (list N) :=
  _ ← reject_if ((lsf_resource_id v =? 0) || (len (lsf_bytes v) =? 0))%N Malformed;
  _ ← reject_if (MAX_LOCAL_FRAME_BYTES <? len (lsf_bytes v))%N LimitExceeded;
  encode_with LOCAL_SEND_MAGIC (fun e =>
    enc_blob (lsf_bytes v) (enc_u64 (lsf_resource_id v) e)).
Definition LocalSendFrame_decode (bytes : list N) : result SchemaError LocalSendFrame :=
  value ← decode_with LOCAL_SEND_MAGIC
    (read resource_id from dec_u64 in
     read bytes from dec_blob MAX_LOCAL_FRAME_BYTES in
     rret {| lsf_resource_id := resource_id; lsf_bytes := bytes |}) bytes;
  _ ← reject_if ((lsf_resource_id value =? 0) || (len (lsf_bytes value) =? 0))%N Malformed;
  Ok value.

Definition LocalFrameEvent_encode (v : LocalFrameEvent) : result SchemaError (list N) :=
  _ ← reject_if (len (lfe_bytes v) =? 0)%N Malformed;
  _ ← reject_if (MAX_LOCAL_FRAME_BYTES <? len (lfe_bytes v))%N LimitExceeded;
  encode_with LOCAL_EVENT_MAGIC (enc_blob (lfe_bytes v)).
Definition LocalFrameEvent_decode (bytes : list N) : result SchemaError LocalFrameEvent :=
  value ← decode_with LOCAL_EVENT_MAGIC
    (read bytes from dec_blob MAX_LOCAL_FRAME_BYTES in rret {| lfe_bytes := bytes |}) bytes;
  _ ← reject_if (len (lfe_bytes value) =? 0)%N Malformed;
  Ok value.

(** ** Notifications and URIs *)

Inductive NotificationUrgencyValue := UrgencyLow | UrgencyNormal | UrgencyCritical.
Record NotificationSend := {
  ns_id : string;
  ns_category : string;
  ns_urgency : NotificationUrgencyValue;
  ns_title : string;
  ns_body : string;
}.
Record NotificationRemove := { nr_id : string }.
Record UriOpenRequest := { uor_uri : string }.

Definition urgency_code (u : NotificationUrgencyValue) : N :=
  match u with UrgencyLow => 0 | UrgencyNormal => 1 | UrgencyCritical => 2 end.

Definition NotificationSend_encode (v : NotificationSend) : result SchemaError (list N) :=
  _ ← reject_if ((MAX_NOTIFICATION_TITLE_BYTES <? slen (ns_title v))
                 || (MAX_NOTIFICATION_BODY_BYTES <? slen (ns_body v)))%N LimitExceeded;
  encode_with NOTIFICATION_SEND_MAGIC (fun e =>
    e ← enc_string (ns_id v) e;
    e ← enc_string (ns_category v) e;
    e ← enc_string (ns_title v) (enc_byte (urgency_code (ns_urgency v)) e);
    enc_string (ns_body v) e).
Definition NotificationSend_decode (bytes : list N) : result SchemaError NotificationSend :=
  value ← decode_with NOTIFICATION_SEND_MAGIC
    (read id from dec_string in
     read category from dec_string in
     read code from dec_byte in
     read urgency from match code with
                       | 0 => rret UrgencyLow | 1 => rret UrgencyNormal
                       | 2 => rret UrgencyCritical | _ => rerr Malformed
                       end%N in
     read title from dec_string in
     read body from dec_string in
     rret {| ns_id := id; ns_category := category; ns_urgency := urgency; ns_title := title;
             ns_body := body |}) bytes;
  _ ← reject_if ((MAX_NOTIFICATION_TITLE_BYTES <? slen (ns_title value))
                 || (MAX_NOTIFICATION_BODY_BYTES <? slen (ns_body value)))%N LimitExceeded;
  Ok value.

Definition NotificationRemove_encode (v : NotificationRemove) : result SchemaError (list N) :=
  encode_with NOTIFICATION_REMOVE_MAGIC (enc_string (nr_id v)).
Definition NotificationRemove_decode : list N -> result SchemaError NotificationRemove :=
  decode_with NOTIFICATION_REMOVE_MAGIC (read id from dec_string in rret {| nr_id := id |}).

Definition UriOpenRequest_encode (v : UriOpenRequest) : result SchemaError (list N) :=
  _ ← reject_if (MAX_URI_BYTES <? slen (uor_uri v))%N LimitExceeded;
  encode_with URI_OPEN_MAGIC (enc_string (uor_uri v)).
Definition UriOpenRequest_decode (bytes : list N) : result SchemaError UriOpenRequest :=
  value ← decode_with URI_OPEN_MAGIC
    (read uri from dec_string in rret {| uor_uri := uri |}) bytes;
  _ ← reject_if (MAX_URI_BYTES <? slen (uor_uri value))%N LimitExceeded;
  Ok value.

(** ** The values Rust's types admit *)


Definition ClipboardReadRequest_good (v : ClipboardReadRequest) := text (clr_mime_type v).
Definition ClipboardWriteRequest_good (v : ClipboardWriteRequest) :=
  text (clw_mime_type v) /\ octets (clw_bytes v).
Definition ClipboardValue_good (v : ClipboardValue) :=
  text (clv_mime_type v) /\ octets (clv_bytes v).
Definition SecretReadRequest_good (v : SecretReadRequest) := text (srr_logical_name v).
Definition SecretValue_good (v : SecretValue) := octets (sv_bytes v) /\ text (sv_content_type v).
Definition LocalConnect_good (v : LocalConnect) := text (lc_endpoint v) /\ text (lc_protocol v).
Definition LocalConnectionOpened_good (v : LocalConnectionOpened) :=
  (lco_resource_id v <= u64_max)%N /\ (lco_maximum_frame_bytes v <= u32_max)%N.
Definition LocalSendFrame_good (v : LocalSendFrame) :=
  (lsf_resource_id v <= u64_max)%N /\ octets (lsf_bytes v).
Definition LocalFrameEvent_good (v : LocalFrameEvent) := octets (lfe_bytes v).
Definition NotificationSend_good (v : NotificationSend) :=
  text (ns_id v) /\ text (ns_category v) /\ text (ns_title v) /\ text (ns_body v).
Definition NotificationRemove_good (v : NotificationRemove) := text (nr_id v).
Definition UriOpenRequest_good (v : UriOpenRequest) := text (uor_uri v).

Lemma ClipboardReadRequest_law :
  SchemaLaw ClipboardReadRequest_encode ClipboardReadRequest_decode ClipboardReadRequest_good.
Proof.
  schema_law @ClipboardReadRequest_encode @ClipboardReadRequest_decode @ClipboardReadRequest_good.
Qed.
Lemma ClipboardWriteRequest_law :
  SchemaLaw ClipboardWriteRequest_encode ClipboardWriteRequest_decode ClipboardWriteRequest_good.
Proof.
  schema_law @ClipboardWriteRequest_encode @ClipboardWriteRequest_decode
    @ClipboardWriteRequest_good.
Qed.
Lemma ClipboardValue_law : SchemaLaw ClipboardValue_encode ClipboardValue_decode ClipboardValue_good.
Proof. schema_law @ClipboardValue_encode @ClipboardValue_decode @ClipboardValue_good. Qed.
Lemma SecretReadRequest_law : SchemaLaw SecretReadRequest_encode SecretReadRequest_decode SecretReadRequest_good.
Proof. schema_law @SecretReadRequest_encode @SecretReadRequest_decode @SecretReadRequest_good. Qed.
Lemma SecretValue_law : SchemaLaw SecretValue_encode SecretValue_decode SecretValue_good.
Proof. schema_law @SecretValue_encode @SecretValue_decode @SecretValue_good. Qed.
Lemma LocalConnect_law : SchemaLaw LocalConnect_encode LocalConnect_decode LocalConnect_good.
Proof. schema_law @LocalConnect_encode @LocalConnect_decode @LocalConnect_good. Qed.
Lemma LocalConnectionOpened_law : SchemaLaw LocalConnectionOpened_encode LocalConnectionOpened_decode LocalConnectionOpened_good.
Proof. schema_law @LocalConnectionOpened_encode @LocalConnectionOpened_decode @LocalConnectionOpened_good. Qed.
Lemma LocalSendFrame_law : SchemaLaw LocalSendFrame_encode LocalSendFrame_decode LocalSendFrame_good.
Proof. schema_law @LocalSendFrame_encode @LocalSendFrame_decode @LocalSendFrame_good. Qed.
Lemma LocalFrameEvent_law : SchemaLaw LocalFrameEvent_encode LocalFrameEvent_decode LocalFrameEvent_good.
Proof. schema_law @LocalFrameEvent_encode @LocalFrameEvent_decode @LocalFrameEvent_good. Qed.
Lemma NotificationSend_law : SchemaLaw NotificationSend_encode NotificationSend_decode NotificationSend_good.
Proof. schema_law @NotificationSend_encode @NotificationSend_decode @NotificationSend_good. Qed.
Lemma NotificationRemove_law : SchemaLaw NotificationRemove_encode NotificationRemove_decode NotificationRemove_good.
Proof. schema_law @NotificationRemove_encode @NotificationRemove_decode @NotificationRemove_good. Qed.
Lemma UriOpenRequest_law : SchemaLaw UriOpenRequest_encode UriOpenRequest_decode UriOpenRequest_good.
Proof. schema_law @UriOpenRequest_encode @UriOpenRequest_decode @UriOpenRequest_good. Qed.

Definition color_good (c : AppearanceColor) : Prop :=
  is_byte (red c) /\ is_byte (green c) /\ is_byte (blue c).
Definition AppearancePublish_good (v : AppearancePublish) :=
  text (ap_provider v) /\ color_good (ap_background v) /\ color_good (ap_foreground v) /\
  color_good (ap_accent v) /\ color_good (ap_selection v) /\ color_good (ap_muted v) /\
  color_good (ap_destructive v).

Ltac schema_unfold ::=
  repeat match goal with c : AppearanceColor |- _ => destruct c end;
  unfold enc_color, dec_color, color_good in *.

Lemma AppearancePublish_law :
  SchemaLaw AppearancePublish_encode AppearancePublish_decode AppearancePublish_good.
Proof.
  schema_law @AppearancePublish_encode @AppearancePublish_decode @AppearancePublish_good.
Qed.

(** *** Context payloads *)

Definition fact_good (f : ContextFact) : Prop :=
  text (cf_key f) /\ match cf_value f with TextFact value => text value | BooleanFact _ => True end.
Definition fact_limit (f : ContextFact) : Prop :=
  fits (cf_key f) /\
  match cf_value f with
  | TextFact value => (slen value <= MAX_CONTEXT_VALUE_BYTES)%N
  | BooleanFact _ => True
  end.
Definition wire_fact (f : ContextFact) : list N :=
  wire_string (cf_key f) ++
  match cf_value f with
  | TextFact value => 0%N :: wire_string value
  | BooleanFact value => [1%N; bit value]
  end.

Lemma short_fits s : (slen s <= MAX_CONTEXT_VALUE_BYTES)%N -> fits s.
Proof. unfold fits, MAX_CONTEXT_VALUE_BYTES, MAX_STRING_BYTES. lia. Qed.

Lemma guard_new key keys (u : ()) (e : SchemaError) :
  reject_if (set_contains key keys) e = Ok u <-> key ∉ keys.
Proof. by rewrite reject_if_Ok, set_contains_false. Qed.

Lemma fact_law : KeyedLaw fact_good fact_limit wire_fact enc_fact dec_fact cf_key.
Proof.
  split.
  - intros keys [key value] e e'. unfold enc_fact, fact_limit, wire_fact. cbn [cf_key cf_value].
    rewrite bind_Ok. setoid_rewrite guard_new. setoid_rewrite bind_Ok.
    setoid_rewrite enc_string_Ok. destruct value as [value|value].
    + setoid_rewrite bind_Ok. setoid_rewrite reject_if_Ok. setoid_rewrite N.ltb_ge.
      setoid_rewrite enc_string_Ok. split.
      * intros (? & ? & ? & [? ->] & ? & ? & ? & ->). split; [done|]. same_bytes.
      * intros [(? & ? & ?) ->]. exists (). split; [done|]. eexists. split; [done|].
        exists (). split; [done|]. split; [by apply short_fits|]. same_bytes.
    + split.
      * intros (? & ? & ? & [? ->] & [= <-]). split; [done|]. same_bytes.
      * intros [(? & ? & ?) ->]. exists (). split; [done|]. eexists. split; [done|].
        f_equal. same_bytes.
  - intros keys [key value] l Hn Hg Hl. unfold dec_fact, wire_fact, fact_good, fact_limit in *.
    cbn [cf_key cf_value] in *. destruct_and?. rewrite <- app_assoc.
    rewrite rbind_wire_string, rbind_guard by (done || by apply set_contains_false).
    destruct value as [value|value]; cbn [app]; rewrite rbind_byte, rbind_assoc.
    + rewrite rbind_wire_string by (done || by apply short_fits).
      rewrite rbind_assoc, rbind_guard by limits. done.
    + by rewrite rbind_flag.
  - intros keys l f l' Ho H. unfold dec_fact in H. do 12 (try read_step).
    all: unfold fact_good, fact_limit, wire_fact; cbn [cf_key cf_value].
    all: repeat read_step; cbn [cf_key cf_value].
    all: split_and!; try done; try limits; try by apply set_contains_false.
    all: rewrite <- ?app_assoc; cbn [app]; rewrite <- ?app_assoc; done.
Qed.

Definition snapshot_good (s : ContextSnapshot) : Prop :=
  (cs_generation s <= u64_max)%N /\ Forall fact_good (cs_facts s).
Definition snapshot_limit (s : ContextSnapshot) : Prop :=
  cs_generation s <> 0%N /\ (len (cs_facts s) <= MAX_CONTEXT_FACTS)%N /\
  new_keys cf_key [] (cs_facts s) /\ Forall fact_limit (cs_facts s).
Definition wire_snapshot (s : ContextSnapshot) : list N :=
  to_le 8 (cs_generation s) ++ to_le 2 (len (cs_facts s)) ++ wire_many wire_fact (cs_facts s).
Definition wire_id (id : option N) : list N := from_option (to_le 8) [] id.

Lemma encode_context_snapshot_Ok magic id s bs :
  encode_context_snapshot magic id s = Ok bs <->
  snapshot_limit s /\ bs = magic_bytes magic ++ wire_id id ++ wire_snapshot s /\
  (len bs <= MAX_PAYLOAD_BYTES)%N.
Proof.
  unfold encode_context_snapshot, snapshot_limit, wire_snapshot. rewrite bind_Ok.
  setoid_rewrite bind_Ok. setoid_rewrite reject_if_Ok. setoid_rewrite encode_with_Ok.
  setoid_rewrite (enc_keyed_Ok _ _ _ _ _ _ fact_law).
  setoid_rewrite N.eqb_neq. setoid_rewrite N.ltb_ge. unfold enc_u16, enc_u64.
  assert (forall r : list N, (match id with Some id => magic_bytes magic ++ to_le 8 id
    | None => magic_bytes magic end) ++ r = magic_bytes magic ++ wire_id id ++ r) as Hid.
  { intros r. destruct id; simpl; [by rewrite <- app_assoc|done]. }
  split.
  - intros (_ & ? & _ & ? & [[? ?] Hbs] & ?). rewrite <- !app_assoc, Hid in Hbs. done.
  - intros [(? & ? & ? & ?) [-> ?]]. exists (). split; [done|]. exists ().
    rewrite <- !app_assoc, Hid. done.
Qed.

Lemma wire_snapshot_read s l :
  snapshot_good s -> snapshot_limit s -> dec_snapshot (wire_snapshot s ++ l) = Ok (s, l).
Proof.
  intros [Hu Hg] (Hz & Hm & Hk & Hl). unfold dec_snapshot, wire_snapshot.
  rewrite <- !app_assoc, rbind_u64, rbind_guard, rbind_u16 by
    (unfold MAX_CONTEXT_FACTS in *; limits).
  rewrite rbind_guard by limits.
  rewrite (rbind_keyed _ _ _ _ _ _ fact_law); try done; [by destruct s|].
  unfold len. by rewrite Nat2N.id.
Qed.

Lemma dec_snapshot_inv l s l' :
  dec_snapshot l = Ok (s, l') -> octets l ->
  l = wire_snapshot s ++ l' /\ snapshot_good s /\ snapshot_limit s /\ octets l'.
Proof.
  intros H Ho. unfold dec_snapshot in H. repeat read_step.
  match goal with Hd : dec_keyed _ _ _ _ _ = _ |- _ =>
    apply (dec_keyed_inv _ _ _ _ _ _ fact_law) in Hd as (-> & Hn & ? & ? & ? & ?); [|done] end.
  unfold wire_snapshot, snapshot_good, snapshot_limit. cbn [cs_generation cs_facts].
  unfold len. rewrite Hn, N2Nat.id. rewrite <- !app_assoc. split_and!; try done; limits.
Qed.

Definition ContextSnapshot_good : ContextSnapshot -> Prop := snapshot_good.
Definition ContextSubscriptionOpened_good (v : ContextSubscriptionOpened) : Prop :=
  (cso_resource_id v <= u64_max)%N /\ snapshot_good (cso_snapshot v).

(** Which magic carries a resource id. *)
Definition id_matches (magic : string) (id : option N) : Prop :=
  (is_Some id <-> magic = CONTEXT_OPENED_MAGIC) /\ from_option (fun i => i <= u64_max)%N True id.

Lemma decode_context_snapshot_back magic bs id s :
  octets bs -> decode_context_snapshot magic bs = Ok (id, s) ->
  id_matches magic id /\ snapshot_good s /\ encode_context_snapshot magic id s = Ok bs.
Proof.
  intros Ho. unfold decode_context_snapshot, id_matches.
  rewrite decode_with_Ok, encode_context_snapshot_Ok.
  intros (Hl & l & -> & H). apply Forall_app in Ho as [_ Ho].
  apply rbind_Ok in H as (i & l1 & Hi & H).
  apply rbind_Ok in H as (s' & l2 & Hs & [= -> -> ->]).
  destruct (String.eqb_spec magic CONTEXT_OPENED_MAGIC) as [->|Hne].
  - apply rbind_Ok in Hi as (i & l2 & Hi & [= <- <-]).
    apply dec_u64_inv in Hi as (-> & Hi & Ho1); [|done].
    apply dec_snapshot_inv in Hs as (-> & ? & ? & _); [|done].
    rewrite app_nil_r in *. split_and!; done.
  - injection Hi as <- <-. apply dec_snapshot_inv in Hs as (-> & ? & ? & _); [|done].
    rewrite app_nil_r in *. split_and!; try done.
Qed.

Lemma decode_context_snapshot_forth magic bs id s :
  id_matches magic id -> snapshot_good s -> encode_context_snapshot magic id s = Ok bs ->
  decode_context_snapshot magic bs = Ok (id, s).
Proof.
  intros [Hi Hu] Hg (Hl & -> & Hm)%encode_context_snapshot_Ok.
  unfold decode_context_snapshot. apply decode_with_forth; [done|]. rewrite <- app_assoc.
  destruct (String.eqb_spec magic CONTEXT_OPENED_MAGIC) as [->|Hne];
    destruct id as [i|]; cbn [wire_id from_option app] in *.
  - rewrite rbind_assoc, rbind_u64, rbind_ret by done. unfold rbind at 1.
    by rewrite wire_snapshot_read.
  - by destruct (proj2 Hi eq_refl).
  - by destruct Hne; apply Hi.
  - rewrite rbind_ret. unfold rbind at 1. by rewrite wire_snapshot_read.
Qed.

Lemma ContextSnapshot_law :
  SchemaLaw ContextSnapshot_encode ContextSnapshot_decode ContextSnapshot_good.
Proof.
  split.
  - intros v bs Hg H. unfold ContextSnapshot_decode. apply bind_Ok. exists (None, v).
    split; [|done]. by apply decode_context_snapshot_forth.
  - intros v bs Ho H. unfold ContextSnapshot_decode in H. inv_ok. destruct a as [id s]. inv_ok.
    apply decode_context_snapshot_back in Hok as ([Hi _] & Hg & He); [|done].
    split; [done|]. destruct id; [|done]. by discriminate (proj1 Hi ltac:(eauto)).
Qed.

Lemma ContextSubscriptionOpened_law :
  SchemaLaw ContextSubscriptionOpened_encode ContextSubscriptionOpened_decode
    ContextSubscriptionOpened_good.
Proof.
  split.
  - intros [i s] bs [Hi Hg] H. unfold ContextSubscriptionOpened_encode in H. cbn in *. inv_ok.
    unfold ContextSubscriptionOpened_decode. apply bind_Ok. exists (Some i, s).
    split; [|by simpl; rewrite Hok].
    by apply decode_context_snapshot_forth.
  - intros v bs Ho H. unfold ContextSubscriptionOpened_decode in H. inv_ok. destruct a as [id s].
    inv_ok. apply decode_context_snapshot_back in Hok as ([Hi Hu] & Hg & He); [|done].
    split; [by split|]. unfold ContextSubscriptionOpened_encode. cbn.
    apply bind_Ok. exists (). split; [by apply reject_if_Ok|done].
Qed.

(** *** Requested facts: a set, accepted in any order *)

Lemma fact_name_law :
  KeyedLaw text fits wire_string
    (fun seen fact e => _ ← reject_if (set_contains fact seen) Malformed; enc_string fact e)
    dec_fact_name (fun fact => fact).
Proof.
  split.
  - intros seen fact e e'. rewrite bind_Ok. setoid_rewrite guard_new. setoid_rewrite enc_string_Ok.
    split; [by intros ([] & ? & ? & ?)|]. intros [[? ?] ?]. by exists ().
  - intros seen fact l Hn Hg Hl. unfold dec_fact_name.
    by rewrite rbind_wire_string, rbind_guard by (done || by apply set_contains_false).
  - intros seen l fact l' Ho H. unfold dec_fact_name in H. repeat read_step.
    split_and!; try done. by apply set_contains_false.
Qed.

Definition ContextReadRequest_good (v : ContextReadRequest) : Prop :=
  Forall text (crr_facts v) /\ ascending (crr_facts v).

Lemma set_of_ascending (l : list string) : ascending l -> set_of l = l.
Proof.
  intros Hl. apply ascending_ext; [apply ascending_set_of|done|]. intros x. apply elem_of_set_of.
Qed.

Lemma set_of_perm (l : list string) : NoDup l -> set_of l ≡ₚ l.
Proof.
  intros Hl. apply NoDup_Permutation; [apply ascending_NoDup, ascending_set_of|done|].
  intros x. apply elem_of_set_of.
Qed.

Lemma wire_many_perm {A} (w : A -> list N) l l' : l ≡ₚ l' -> wire_many w l ≡ₚ wire_many w l'.
Proof. apply Permutation_flat_map. Qed.

Lemma ContextReadRequest_forth v bs :
  ContextReadRequest_good v -> ContextReadRequest_encode v = Ok bs ->
  ContextReadRequest_decode bs = Ok v.
Proof.
  intros [Hg Ha] H. unfold ContextReadRequest_encode in H. inv_ok.
  apply encode_with_Ok in H as [H Hm].
  apply (enc_each_Ok _ _ _ _ _ string_law) in H as [Hf ->].
  unfold enc_u16 in *. rewrite <- app_assoc in *.
  apply decode_with_forth; [done|]. rewrite <- app_assoc, rbind_u16 by
    (unfold MAX_CONTEXT_FACTS in *; limits).
  rewrite !rbind_guard by done.
  rewrite (rbind_keyed _ _ _ _ _ _ fact_name_law); try done.
  - unfold rret. rewrite set_of_ascending by done. by destruct v.
  - unfold len. by rewrite Nat2N.id.
  - split; [rewrite list_fmap_id; by apply ascending_NoDup|]. intros x _. apply not_elem_of_nil.
Qed.

Lemma ContextReadRequest_back v bs :
  octets bs -> ContextReadRequest_decode bs = Ok v ->
  ContextReadRequest_good v /\
  exists bs', ContextReadRequest_encode v = Ok bs' /\ bs' ≡ₚ bs.
Proof.
  intros Ho (Hm & l & -> & H)%decode_with_Ok. apply Forall_app in Ho as [_ Ho].
  repeat read_step.
  match goal with Hr : dec_keyed _ _ _ _ _ = _ |- _ =>
    apply (dec_keyed_inv _ _ _ _ _ _ fact_name_law) in Hr
      as (-> & Hn & [Hd _] & Hg & Hl & _); [|done] end.
  rewrite list_fmap_id in Hd. rewrite app_nil_r in *.
  match goal with _ : NoDup ?fs, _ : length _ = N.to_nat ?n |- _ =>
    rename fs into facts; rename n into count end.
  pose proof (set_of_perm facts Hd) as Hp.
  assert (len (set_of facts) = count) as Hc.
  { unfold len. rewrite Hp, Hn. apply N2Nat.id. }
  split; [split; cbn [crr_facts]; [by rewrite Hp|apply ascending_set_of]|].
  exists (magic_bytes CONTEXT_READ_MAGIC ++ to_le 2 count ++ wire_many wire_string (set_of facts)).
  split; [|by rewrite (wire_many_perm _ _ _ Hp)].
  unfold ContextReadRequest_encode. cbn [crr_facts]. rewrite Hc.
  repeat (apply bind_Ok; exists (); split; [by apply reject_if_Ok|]).
  apply encode_with_back.
  - apply (enc_each_Ok _ _ _ _ _ string_law). split; [by rewrite Hp|].
    unfold enc_u16. by rewrite <- app_assoc.
  - unfold len in *. by rewrite !length_app, (Permutation_length (wire_many_perm _ _ _ Hp)),
      <- !length_app.
Qed.
