(* ===== verification/SchemaFiles.v ===== *)
(** * SchemaFiles: file system payloads

    The payload types of [crates/touchbar-broker-schema/src/lib.rs] for files,
    directories and their streams, each with its encoder and decoder as
    written and the law that they are inverse.  [usize::try_from] of a [u64]
    never fails on the 64-bit targets the program runs on. *)

From S2P Require Import Prelude BTree Text Wire Payload.

Definition FILE_READ_MAGIC : string := "OMFSRED1".
Definition FILE_REPLY_MAGIC : string := "OMFSRPL1".
Definition FILE_STREAM_REQUEST_MAGIC : string := "OMFSSTQ1".
Definition FILE_STREAM_OPENED_MAGIC : string := "OMFSSOP1".
Definition FILE_STREAM_EVENT_MAGIC : string := "OMFSSTE1".
Definition DIRECTORY_LIST_MAGIC : string := "OMFSLST1".
Definition DIRECTORY_REPLY_MAGIC : string := "OMFSDIR1".
Definition FILE_WRITE_MAGIC : string := "OMFSWRT1".
Definition FILE_PATH_MAGIC : string := "OMFSPTH1".
Definition FILE_RENAME_MAGIC : string := "OMFSREN1".
Definition FILE_MUTATION_MAGIC : string := "OMFSMUT1".
Definition FILE_WRITE_STREAM_MAGIC : string := "OMFSWSQ1".
Definition FILE_WRITE_STREAM_OPENED_MAGIC : string := "OMFSWSO1".
Definition FILE_WRITE_STREAM_CHUNK_MAGIC : string := "OMFSWSC1".
Definition FILE_WRITE_STREAM_COMMIT_MAGIC : string := "OMFSWSM1".

Definition MAX_FILE_CHUNK_BYTES : N := 48 * 1024.
#[global] Arguments MAX_FILE_CHUNK_BYTES : simpl never.
Definition MAX_FILE_WRITE_BYTES : N := 48 * 1024.
#[global] Arguments MAX_FILE_WRITE_BYTES : simpl never.
Definition MAX_FILE_WRITE_STREAM_CHUNK_BYTES : N := 12 * 1024.
#[global] Arguments MAX_FILE_WRITE_STREAM_CHUNK_BYTES : simpl never.
Definition MAX_FILE_STREAM_BYTES : N := 64 * 1024 * 1024.
#[global] Arguments MAX_FILE_STREAM_BYTES : simpl never.
Definition MAX_FILE_STREAM_CHUNK_BYTES : N := 12 * 1024.
#[global] Arguments MAX_FILE_STREAM_CHUNK_BYTES : simpl never.
Definition MAX_DIRECTORY_ENTRIES : N := 256.
#[global] Arguments MAX_DIRECTORY_ENTRIES : simpl never.

Ltac schema_constants ::=
  unfold MAX_FILE_CHUNK_BYTES, MAX_FILE_WRITE_BYTES, MAX_FILE_WRITE_STREAM_CHUNK_BYTES,
    MAX_FILE_STREAM_BYTES, MAX_FILE_STREAM_CHUNK_BYTES, MAX_DIRECTORY_ENTRIES in *.

(** ** Reading *)

Record FilesystemReadFile := {
  frf_mount : string; frf_path : string; frf_offset : N; frf_maximum_bytes : N }.
Record FilesystemReadStream := {
  frs_mount : string; frs_path : string; frs_offset : N; frs_maximum_bytes : N }.
Record FilesystemStreamOpened := { fso_resource_id : N }.
Inductive FilesystemStreamEvent :=
| FileMetadata (offset total_size : N)
| FileChunk (offset : N) (bytes : list N)
| FileComplete (end_offset total_bytes : N) (eof : bool).
Record FilesystemFileChunk := {
  ffc_offset : N; ffc_total_size : N; ffc_eof : bool; ffc_bytes : list N }.

Definition FilesystemReadFile_encode (v : FilesystemReadFile) : result SchemaError (list N) :=
  _ ← reject_if ((frf_maximum_bytes v =? 0)
                 || (MAX_FILE_CHUNK_BYTES <? frf_maximum_bytes v))%N LimitExceeded;
  encode_with FILE_READ_MAGIC (fun e =>
    e ← enc_string (frf_mount v) e;
    e ← enc_string (frf_path v) e;
    Ok (enc_u64 (frf_maximum_bytes v) (enc_u64 (frf_offset v) e))).
Definition FilesystemReadFile_decode (bytes : list N) : result SchemaError FilesystemReadFile :=
  value ← decode_with FILE_READ_MAGIC
    (read mount from dec_string in
     read path from dec_string in
     read offset from dec_u64 in
     read maximum_bytes from dec_u64 in
     rret {| frf_mount := mount; frf_path := path; frf_offset := offset;
             frf_maximum_bytes := maximum_bytes |}) bytes;
  _ ← reject_if ((frf_maximum_bytes value =? 0)
                 || (MAX_FILE_CHUNK_BYTES <? frf_maximum_bytes value))%N LimitExceeded;
  Ok value.

Definition FilesystemReadStream_encode (v : FilesystemReadStream)
  : result SchemaError (list N) :=
  _ ← reject_if ((frs_maximum_bytes v =? 0)
                 || (MAX_FILE_STREAM_BYTES <? frs_maximum_bytes v))%N LimitExceeded;
  encode_with FILE_STREAM_REQUEST_MAGIC (fun e =>
    e ← enc_string (frs_mount v) e;
    e ← enc_string (frs_path v) e;
    Ok (enc_u64 (frs_maximum_bytes v) (enc_u64 (frs_offset v) e))).
Definition FilesystemReadStream_decode (bytes : list N)
  : result SchemaError FilesystemReadStream :=
  value ← decode_with FILE_STREAM_REQUEST_MAGIC
    (read mount from dec_string in
     read path from dec_string in
     read offset from dec_u64 in
     read maximum_bytes from dec_u64 in
     rret {| frs_mount := mount; frs_path := path; frs_offset := offset;
             frs_maximum_bytes := maximum_bytes |}) bytes;
  _ ← reject_if ((frs_maximum_bytes value =? 0)
                 || (MAX_FILE_STREAM_BYTES <? frs_maximum_bytes value))%N LimitExceeded;
  Ok value.

Definition FilesystemStreamOpened_encode (v : FilesystemStreamOpened)
  : result SchemaError (list N) :=
  _ ← reject_if (fso_resource_id v =? 0)%N Malformed;
  encode_with FILE_STREAM_OPENED_MAGIC (fun e => Ok (enc_u64 (fso_resource_id v) e)).
Definition FilesystemStreamOpened_decode (bytes : list N)
  : result SchemaError FilesystemStreamOpened :=
  value ← decode_with FILE_STREAM_OPENED_MAGIC
    (read resource_id from dec_u64 in rret {| fso_resource_id := resource_id |}) bytes;
  _ ← reject_if (fso_resource_id value =? 0)%N Malformed;
  Ok value.

Definition FilesystemStreamEvent_encode (v : FilesystemStreamEvent)
  : result SchemaError (list N) :=
  encode_with FILE_STREAM_EVENT_MAGIC (fun e =>
    match v with
    | FileMetadata offset total_size => Ok (enc_u64 total_size (enc_u64 offset (enc_byte 0 e)))
    | FileChunk offset bytes =>
        _ ← reject_if ((len bytes =? 0) || (MAX_FILE_STREAM_CHUNK_BYTES <? len bytes))%N
              LimitExceeded;
        Ok (enc_raw bytes (enc_u64 (len bytes) (enc_u64 offset (enc_byte 1 e))))
    | FileComplete end_offset total_bytes eof =>
        Ok (enc_flag eof (enc_u64 total_bytes (enc_u64 end_offset (enc_byte 2 e))))
    end).
Definition FilesystemStreamEvent_decode : list N -> result SchemaError FilesystemStreamEvent :=
  decode_with FILE_STREAM_EVENT_MAGIC
    (read code from dec_byte in
     match code with
     | 0 => read offset from dec_u64 in
            read total_size from dec_u64 in
            rret (FileMetadata offset total_size)
     | 1 => read offset from dec_u64 in
            read length from dec_u64 in
            read _g from rguard ((length =? 0) || (MAX_FILE_STREAM_CHUNK_BYTES <? length))%N
                           LimitExceeded in
            read bytes from dec_take length in
            rret (FileChunk offset bytes)
     | 2 => read end_offset from dec_u64 in
            read total_bytes from dec_u64 in
            read eof from dec_flag in
            rret (FileComplete end_offset total_bytes eof)
     | _ => rerr Malformed
     end%N).

Definition FilesystemFileChunk_encode (v : FilesystemFileChunk) : result SchemaError (list N) :=
  _ ← reject_if (MAX_FILE_CHUNK_BYTES <? len (ffc_bytes v))%N LimitExceeded;
  encode_with FILE_REPLY_MAGIC (fun e =>
    let e := enc_flag (ffc_eof v) (enc_u64 (ffc_total_size v) (enc_u64 (ffc_offset v) e)) in
    Ok (enc_raw (ffc_bytes v) (enc_u64 (len (ffc_bytes v)) e))).
Definition FilesystemFileChunk_decode : list N -> result SchemaError FilesystemFileChunk :=
  decode_with FILE_REPLY_MAGIC
    (read offset from dec_u64 in
     read total_size from dec_u64 in
     read eof from dec_flag in
     read length from dec_u64 in
     read _g from rguard (MAX_FILE_CHUNK_BYTES <? length)%N LimitExceeded in
     read bytes from dec_take length in
     rret {| ffc_offset := offset; ffc_total_size := total_size; ffc_eof := eof;
             ffc_bytes := bytes |}).

(** ** Directories *)

Inductive FilesystemEntryKind := RegularFile | Directory.
Record FilesystemEntry := { fe_name : string; fe_kind : FilesystemEntryKind; fe_size : N }.
Record FilesystemListDirectory := {
  fld_mount : string; fld_path : string; fld_maximum_entries : N }.
Record FilesystemDirectoryEntries := {
  fde_entries : list FilesystemEntry; fde_truncated : bool }.

Definition FilesystemListDirectory_encode (v : FilesystemListDirectory)
  : result SchemaError (list N) :=
  _ ← reject_if ((fld_maximum_entries v =? 0)
                 || (MAX_DIRECTORY_ENTRIES <? fld_maximum_entries v))%N LimitExceeded;
  encode_with DIRECTORY_LIST_MAGIC (fun e =>
    e ← enc_string (fld_mount v) e;
    e ← enc_string (fld_path v) e;
    Ok (enc_u16 (fld_maximum_entries v) e)).
Definition FilesystemListDirectory_decode (bytes : list N)
  : result SchemaError FilesystemListDirectory :=
  value ← decode_with DIRECTORY_LIST_MAGIC
    (read mount from dec_string in
     read path from dec_string in
     read maximum_entries from dec_u16 in
     rret {| fld_mount := mount; fld_path := path;
             fld_maximum_entries := maximum_entries |}) bytes;
  _ ← reject_if ((fld_maximum_entries value =? 0)
                 || (MAX_DIRECTORY_ENTRIES <? fld_maximum_entries value))%N LimitExceeded;
  Ok value.

Definition entry_kind_code (kind : FilesystemEntryKind) : N :=
  match kind with RegularFile => 0 | Directory => 1 end.

Definition enc_entry (entry : FilesystemEntry) (e : Encoder) : result SchemaError Encoder :=
  e ← enc_string (fe_name entry) e;
  Ok (enc_u64 (fe_size entry) (enc_byte (entry_kind_code (fe_kind entry)) e)).

Definition dec_entry : Reader FilesystemEntry :=
  read name from dec_string in
  read code from dec_byte in
  read kind from match code with
                 | 0 => rret RegularFile | 1 => rret Directory | _ => rerr Malformed
                 end%N in
  read size from dec_u64 in
  rret {| fe_name := name; fe_kind := kind; fe_size := size |}.

Definition FilesystemDirectoryEntries_encode (v : FilesystemDirectoryEntries)
  : result SchemaError (list N) :=
  _ ← reject_if (MAX_DIRECTORY_ENTRIES <? len (fde_entries v))%N LimitExceeded;
  encode_with DIRECTORY_REPLY_MAGIC (fun e =>
    enc_each enc_entry (fde_entries v)
      (enc_u16 (len (fde_entries v)) (enc_flag (fde_truncated v) e))).
Definition FilesystemDirectoryEntries_decode
  : list N -> result SchemaError FilesystemDirectoryEntries :=
  decode_with DIRECTORY_REPLY_MAGIC
    (read truncated from dec_flag in
     read count from dec_u16 in
     read _g from rguard (MAX_DIRECTORY_ENTRIES <? count)%N LimitExceeded in
     read entries from dec_many (N.to_nat count) dec_entry in
     rret {| fde_entries := entries; fde_truncated := truncated |}).

(** ** Writing *)

Record FilesystemWriteFile := { fwf_mount : string; fwf_path : string; fwf_bytes : list N }.
Record FilesystemWriteStream := {
  fws_mount : string; fws_path : string; fws_expected_bytes : N }.
Record FilesystemWriteStreamOpened := { fwo_resource_id : N; fwo_maximum_chunk_bytes : N }.
Record FilesystemWriteStreamChunk := {
  fwc_resource_id : N; fwc_offset : N; fwc_bytes : list N }.
Record FilesystemWriteStreamCommit := { fwm_resource_id : N }.
Record FilesystemPath := { fp_mount : string; fp_path : string }.
Record FilesystemRename := { fr_mount : string; fr_source : string; fr_destination : string }.
Record FilesystemMutationResult := { fm_bytes_written : N; fm_resulting_size : option N }.

Definition FilesystemWriteStream_encode (v : FilesystemWriteStream)
  : result SchemaError (list N) :=
  _ ← reject_if (MAX_FILE_STREAM_BYTES <? fws_expected_bytes v)%N LimitExceeded;
  encode_with FILE_WRITE_STREAM_MAGIC (fun e =>
    e ← enc_string (fws_mount v) e;
    e ← enc_string (fws_path v) e;
    Ok (enc_u64 (fws_expected_bytes v) e)).
Definition FilesystemWriteStream_decode (bytes : list N)
  : result SchemaError FilesystemWriteStream :=
  value ← decode_with FILE_WRITE_STREAM_MAGIC
    (read mount from dec_string in
     read path from dec_string in
     read expected_bytes from dec_u64 in
     rret {| fws_mount := mount; fws_path := path; fws_expected_bytes := expected_bytes |}) bytes;
  _ ← reject_if (MAX_FILE_STREAM_BYTES <? fws_expected_bytes value)%N LimitExceeded;
  Ok value.

Definition FilesystemWriteStreamOpened_encode (v : FilesystemWriteStreamOpened)
  : result SchemaError (list N) :=
  _ ← reject_if ((fwo_resource_id v =? 0) || (fwo_maximum_chunk_bytes v =? 0)
                 || (MAX_FILE_WRITE_STREAM_CHUNK_BYTES <? fwo_maximum_chunk_bytes v))%N Malformed;
  encode_with FILE_WRITE_STREAM_OPENED_MAGIC (fun e =>
    Ok (enc_u32 (fwo_maximum_chunk_bytes v) (enc_u64 (fwo_resource_id v) e))).
Definition FilesystemWriteStreamOpened_decode (bytes : list N)
  : result SchemaError FilesystemWriteStreamOpened :=
  value ← decode_with FILE_WRITE_STREAM_OPENED_MAGIC
    (read resource_id from dec_u64 in
     read maximum_chunk_bytes from dec_u32 in
     rret {| fwo_resource_id := resource_id;
             fwo_maximum_chunk_bytes := maximum_chunk_bytes |}) bytes;
  _ ← reject_if ((fwo_resource_id value =? 0) || (fwo_maximum_chunk_bytes value =? 0)
                 || (MAX_FILE_WRITE_STREAM_CHUNK_BYTES <? fwo_maximum_chunk_bytes value))%N
        Malformed;
  Ok value.

Definition FilesystemWriteStreamChunk_encode (v : FilesystemWriteStreamChunk)
  : result SchemaError (list N) :=
  _ ← reject_if ((fwc_resource_id v =? 0) || (len (fwc_bytes v) =? 0)
                 || (MAX_FILE_WRITE_STREAM_CHUNK_BYTES <? len (fwc_bytes v)))%N LimitExceeded;
  encode_with FILE_WRITE_STREAM_CHUNK_MAGIC (fun e =>
    let e := enc_u64 (fwc_offset v) (enc_u64 (fwc_resource_id v) e) in
    Ok (enc_raw (fwc_bytes v) (enc_u32 (len (fwc_bytes v)) e))).
Definition FilesystemWriteStreamChunk_decode
  : list N -> result SchemaError FilesystemWriteStreamChunk :=
  decode_with FILE_WRITE_STREAM_CHUNK_MAGIC
    (read resource_id from dec_u64 in
     read offset from dec_u64 in
     read length from dec_u32 in
     read _g from rguard ((resource_id =? 0) || (length =? 0)
                          || (MAX_FILE_WRITE_STREAM_CHUNK_BYTES <? length))%N LimitExceeded in
     read bytes from dec_take length in
     rret {| fwc_resource_id := resource_id; fwc_offset := offset; fwc_bytes := bytes |}).

Definition FilesystemWriteStreamCommit_encode (v : FilesystemWriteStreamCommit)
  : result SchemaError (list N) :=
  _ ← reject_if (fwm_resource_id v =? 0)%N Malformed;
  encode_with FILE_WRITE_STREAM_COMMIT_MAGIC (fun e => Ok (enc_u64 (fwm_resource_id v) e)).
Definition FilesystemWriteStreamCommit_decode (bytes : list N)
  : result SchemaError FilesystemWriteStreamCommit :=
  value ← decode_with FILE_WRITE_STREAM_COMMIT_MAGIC
    (read resource_id from dec_u64 in rret {| fwm_resource_id := resource_id |}) bytes;
  _ ← reject_if (fwm_resource_id value =? 0)%N Malformed;
  Ok value.

Definition FilesystemWriteFile_encode (v : FilesystemWriteFile) : result SchemaError (list N) :=
  _ ← reject_if (MAX_FILE_WRITE_BYTES <? len (fwf_bytes v))%N LimitExceeded;
  encode_with FILE_WRITE_MAGIC (fun e =>
    e ← enc_string (fwf_mount v) e;
    e ← enc_string (fwf_path v) e;
    Ok (enc_raw (fwf_bytes v) (enc_u64 (len (fwf_bytes v)) e))).
Definition FilesystemWriteFile_decode : list N -> result SchemaError FilesystemWriteFile :=
  decode_with FILE_WRITE_MAGIC
    (read mount from dec_string in
     read path from dec_string in
     read length from dec_u64 in
     read _g from rguard (MAX_FILE_WRITE_BYTES <? length)%N LimitExceeded in
     read bytes from dec_take length in
     rret {| fwf_mount := mount; fwf_path := path; fwf_bytes := bytes |}).

Definition FilesystemPath_encode (v : FilesystemPath) : result SchemaError (list N) :=
  encode_with FILE_PATH_MAGIC (fun e =>
    e ← enc_string (fp_mount v) e; enc_string (fp_path v) e).
Definition FilesystemPath_decode : list N -> result SchemaError FilesystemPath :=
  decode_with FILE_PATH_MAGIC
    (read mount from dec_string in
     read path from dec_string in
     rret {| fp_mount := mount; fp_path := path |}).

Definition FilesystemRename_encode (v : FilesystemRename) : result SchemaError (list N) :=
  encode_with FILE_RENAME_MAGIC (fun e =>
    e ← enc_string (fr_mount v) e;
    e ← enc_string (fr_source v) e;
    enc_string (fr_destination v) e).
Definition FilesystemRename_decode : list N -> result SchemaError FilesystemRename :=
  decode_with FILE_RENAME_MAGIC
    (read mount from dec_string in
     read source from dec_string in
     read destination from dec_string in
     rret {| fr_mount := mount; fr_source := source; fr_destination := destination |}).

Definition FilesystemMutationResult_encode (v : FilesystemMutationResult)
  : result SchemaError (list N) :=
  encode_with FILE_MUTATION_MAGIC (fun e =>
    let e := enc_u64 (fm_bytes_written v) e in
    match fm_resulting_size v with
    | Some size => Ok (enc_u64 size (enc_byte 1 e))
    | None => Ok (enc_byte 0 e)
    end).
Definition FilesystemMutationResult_decode
  : list N -> result SchemaError FilesystemMutationResult :=
  decode_with FILE_MUTATION_MAGIC
    (read bytes_written from dec_u64 in
     read code from dec_byte in
     read resulting_size from match code with
                              | 0 => rret None
                              | 1 => read size from dec_u64 in rret (Some size)
                              | _ => rerr Malformed
                              end%N in
     rret {| fm_bytes_written := bytes_written; fm_resulting_size := resulting_size |}).

(** ** The values Rust's types admit *)

Definition FilesystemReadFile_good (v : FilesystemReadFile) : Prop :=
  text (frf_mount v) /\ text (frf_path v) /\ (frf_offset v <= u64_max)%N.
Definition FilesystemReadStream_good (v : FilesystemReadStream) : Prop :=
  text (frs_mount v) /\ text (frs_path v) /\ (frs_offset v <= u64_max)%N.
Definition FilesystemStreamOpened_good (v : FilesystemStreamOpened) : Prop :=
  (fso_resource_id v <= u64_max)%N.
Definition FilesystemStreamEvent_good (v : FilesystemStreamEvent) : Prop :=
  match v with
  | FileMetadata offset total_size => (offset <= u64_max)%N /\ (total_size <= u64_max)%N
  | FileChunk offset bytes => (offset <= u64_max)%N /\ octets bytes
  | FileComplete end_offset total_bytes _ =>
      (end_offset <= u64_max)%N /\ (total_bytes <= u64_max)%N
  end.
Definition FilesystemFileChunk_good (v : FilesystemFileChunk) : Prop :=
  (ffc_offset v <= u64_max)%N /\ (ffc_total_size v <= u64_max)%N /\ octets (ffc_bytes v).
Definition FilesystemListDirectory_good (v : FilesystemListDirectory) : Prop :=
  text (fld_mount v) /\ text (fld_path v).
Definition entry_good (v : FilesystemEntry) : Prop := text (fe_name v) /\ (fe_size v <= u64_max)%N.
Definition FilesystemDirectoryEntries_good (v : FilesystemDirectoryEntries) : Prop :=
  Forall entry_good (fde_entries v).
Definition FilesystemWriteFile_good (v : FilesystemWriteFile) : Prop :=
  text (fwf_mount v) /\ text (fwf_path v) /\ octets (fwf_bytes v).
Definition FilesystemWriteStream_good (v : FilesystemWriteStream) : Prop :=
  text (fws_mount v) /\ text (fws_path v).
Definition FilesystemWriteStreamOpened_good (v : FilesystemWriteStreamOpened) : Prop :=
  (fwo_resource_id v <= u64_max)%N /\ (fwo_maximum_chunk_bytes v <= u32_max)%N.
Definition FilesystemWriteStreamChunk_good (v : FilesystemWriteStreamChunk) : Prop :=
  (fwc_resource_id v <= u64_max)%N /\ (fwc_offset v <= u64_max)%N /\ octets (fwc_bytes v).
Definition FilesystemWriteStreamCommit_good (v : FilesystemWriteStreamCommit) : Prop :=
  (fwm_resource_id v <= u64_max)%N.
Definition FilesystemPath_good (v : FilesystemPath) : Prop := text (fp_mount v) /\ text (fp_path v).
Definition FilesystemRename_good (v : FilesystemRename) : Prop :=
  text (fr_mount v) /\ text (fr_source v) /\ text (fr_destination v).
Definition FilesystemMutationResult_good (v : FilesystemMutationResult) : Prop :=
  (fm_bytes_written v <= u64_max)%N /\ opt_all (fun size => size <= u64_max)%N (fm_resulting_size v).

Lemma FilesystemReadFile_law :
  SchemaLaw FilesystemReadFile_encode FilesystemReadFile_decode
    FilesystemReadFile_good.
Proof.
  schema_law @FilesystemReadFile_encode @FilesystemReadFile_decode
    @FilesystemReadFile_good.
Qed.
Lemma FilesystemReadStream_law :
  SchemaLaw FilesystemReadStream_encode FilesystemReadStream_decode
    FilesystemReadStream_good.
Proof.
  schema_law @FilesystemReadStream_encode @FilesystemReadStream_decode
    @FilesystemReadStream_good.
Qed.
Lemma FilesystemStreamOpened_law :
  SchemaLaw FilesystemStreamOpened_encode FilesystemStreamOpened_decode
    FilesystemStreamOpened_good.
Proof.
  schema_law @FilesystemStreamOpened_encode @FilesystemStreamOpened_decode
    @FilesystemStreamOpened_good.
Qed.
Lemma FilesystemStreamEvent_law :
  SchemaLaw FilesystemStreamEvent_encode FilesystemStreamEvent_decode
    FilesystemStreamEvent_good.
Proof.
  schema_law @FilesystemStreamEvent_encode @FilesystemStreamEvent_decode
    @FilesystemStreamEvent_good.
Qed.
Lemma FilesystemFileChunk_law :
  SchemaLaw FilesystemFileChunk_encode FilesystemFileChunk_decode
    FilesystemFileChunk_good.
Proof.
  schema_law @FilesystemFileChunk_encode @FilesystemFileChunk_decode
    @FilesystemFileChunk_good.
Qed.
Lemma FilesystemListDirectory_law :
  SchemaLaw FilesystemListDirectory_encode FilesystemListDirectory_decode
    FilesystemListDirectory_good.
Proof.
  schema_law @FilesystemListDirectory_encode @FilesystemListDirectory_decode
    @FilesystemListDirectory_good.
Qed.
Lemma FilesystemWriteFile_law :
  SchemaLaw FilesystemWriteFile_encode FilesystemWriteFile_decode
    FilesystemWriteFile_good.
Proof.
  schema_law @FilesystemWriteFile_encode @FilesystemWriteFile_decode
    @FilesystemWriteFile_good.
Qed.
Lemma FilesystemWriteStream_law :
  SchemaLaw FilesystemWriteStream_encode FilesystemWriteStream_decode
    FilesystemWriteStream_good.
Proof.
  schema_law @FilesystemWriteStream_encode @FilesystemWriteStream_decode
    @FilesystemWriteStream_good.
Qed.
Lemma FilesystemWriteStreamOpened_law :
  SchemaLaw FilesystemWriteStreamOpened_encode FilesystemWriteStreamOpened_decode
    FilesystemWriteStreamOpened_good.
Proof.
  schema_law @FilesystemWriteStreamOpened_encode @FilesystemWriteStreamOpened_decode
    @FilesystemWriteStreamOpened_good.
Qed.
Lemma FilesystemWriteStreamChunk_law :
  SchemaLaw FilesystemWriteStreamChunk_encode FilesystemWriteStreamChunk_decode
    FilesystemWriteStreamChunk_good.
Proof.
  schema_law @FilesystemWriteStreamChunk_encode @FilesystemWriteStreamChunk_decode
    @FilesystemWriteStreamChunk_good.
Qed.
Lemma FilesystemWriteStreamCommit_law :
  SchemaLaw FilesystemWriteStreamCommit_encode FilesystemWriteStreamCommit_decode
    FilesystemWriteStreamCommit_good.
Proof.
  schema_law @FilesystemWriteStreamCommit_encode @FilesystemWriteStreamCommit_decode
    @FilesystemWriteStreamCommit_good.
Qed.
Lemma FilesystemPath_law :
  SchemaLaw FilesystemPath_encode FilesystemPath_decode
    FilesystemPath_good.
Proof. schema_law @FilesystemPath_encode @FilesystemPath_decode @FilesystemPath_good. Qed.
Lemma FilesystemRename_law :
  SchemaLaw FilesystemRename_encode FilesystemRename_decode
    FilesystemRename_good.
Proof. schema_law @FilesystemRename_encode @FilesystemRename_decode @FilesystemRename_good. Qed.
Lemma FilesystemMutationResult_law :
  SchemaLaw FilesystemMutationResult_encode FilesystemMutationResult_decode
    FilesystemMutationResult_good.
Proof.
  schema_law @FilesystemMutationResult_encode @FilesystemMutationResult_decode
    @FilesystemMutationResult_good.
Qed.

(** *** Directory listings *)

Definition entry_limit (v : FilesystemEntry) : Prop := fits (fe_name v).
Definition wire_entry (v : FilesystemEntry) : list N :=
  wire_string (fe_name v) ++ entry_kind_code (fe_kind v) :: to_le 8 (fe_size v).

Lemma entry_law : ElementLaw enc_entry dec_entry entry_good entry_limit wire_entry.
Proof.
  split.
  - intros v e e'. unfold enc_entry, entry_limit, wire_entry. rewrite bind_Ok.
    setoid_rewrite enc_string_Ok. split.
    + intros (? & [? ->] & [= <-]). split; [done|]. same_bytes.
    + intros [? ->]. eexists. split; [done|]. f_equal. same_bytes.
  - intros [name kind size] l [Ht Hs] Hl. unfold dec_entry, wire_entry, entry_limit in *.
    cbn [fe_name fe_kind fe_size] in *. rewrite <- app_assoc, rbind_wire_string by done.
    cbn [app]. rewrite rbind_byte.
    destruct kind; cbn [entry_kind_code]; by rewrite rbind_ret, rbind_u64.
  - intros l v l' Ho H. unfold dec_entry in H. do 12 (try read_step).
    all: repeat read_step; unfold entry_good, entry_limit, wire_entry.
    all: cbn [fe_name fe_kind fe_size entry_kind_code].
    all: split_and!; try done; by rewrite <- ?app_assoc.
Qed.

Lemma FilesystemDirectoryEntries_law :
  SchemaLaw FilesystemDirectoryEntries_encode FilesystemDirectoryEntries_decode
    FilesystemDirectoryEntries_good.
Proof.
  split.
  - intros [entries truncated] bs Hg H.
    unfold FilesystemDirectoryEntries_encode, FilesystemDirectoryEntries_good in *.
    cbn [fde_entries fde_truncated] in *. inv_ok. apply encode_with_Ok in H as [H Hm].
    apply (enc_each_Ok _ _ _ _ _ entry_law) in H as [Hl ->].
    unfold enc_u16, enc_flag, enc_byte in *. rewrite <- !app_assoc in *.
    apply decode_with_forth; [done|]. rewrite <- !app_assoc. cbn [app].
    rewrite rbind_flag, rbind_u16, rbind_guard by
      (unfold MAX_DIRECTORY_ENTRIES in *; limits).
    rewrite (rbind_many _ _ _ _ _ entry_law); try done. unfold len. by rewrite Nat2N.id.
  - intros v bs Ho (Hm & l & -> & H)%decode_with_Ok. apply Forall_app in Ho as [_ Ho].
    repeat read_step.
    match goal with Hr : dec_many _ _ _ = _ |- _ =>
      apply (dec_many_inv _ _ _ _ _ entry_law) in Hr as (-> & Hn & Hg & Hl & _); [|done] end.
    split; [done|]. unfold FilesystemDirectoryEntries_encode. cbn [fde_entries fde_truncated].
    apply bind_Ok. exists (). unfold len at 1. rewrite Hn, N2Nat.id.
    split; [by apply reject_if_Ok|]. apply encode_with_back; [|done].
    apply (enc_each_Ok _ _ _ _ _ entry_law). split; [done|].
    unfold len, enc_u16, enc_flag, enc_byte. rewrite Hn, N2Nat.id.
    by rewrite <- !app_assoc, app_nil_r.
Qed.
