(* ===== verification/SchemaNet.v ===== *)
(** * SchemaNet: command, HTTP and D-Bus payloads

    The payload types of [crates/touchbar-broker-schema/src/lib.rs] for
    commands, HTTP and D-Bus, each with its encoder and decoder as written and
    the law that they are inverse.  An [f64] is its bit pattern. *)

From S2P Require Import Prelude BTree Text Wire Payload.

Definition CALL_MAGIC : string := "OMDBUSC1".
Definition REPLY_MAGIC : string := "OMDBUSR1".
Definition SUBSCRIPTION_MAGIC : string := "OMDBUSS1".
Definition OPENED_MAGIC : string := "OMDBUSO1".
Definition SIGNAL_MAGIC : string := "OMDBUSE1".
Definition HTTP_REQUEST_MAGIC : string := "OMHTTPQ1".
Definition HTTP_RESPONSE_MAGIC : string := "OMHTTPR1".
Definition HTTP_STREAM_OPENED_MAGIC : string := "OMHTTPO1".
Definition HTTP_STREAM_EVENT_MAGIC : string := "OMHTTPE1".
Definition COMMAND_REQUEST_MAGIC : string := "OMCMDQ01".
Definition COMMAND_OPENED_MAGIC : string := "OMCMDO01".
Definition COMMAND_EVENT_MAGIC : string := "OMCMDE01".

Definition MAX_ARGUMENTS : N := 32.
#[global] Arguments MAX_ARGUMENTS : simpl never.
Definition MAX_PROPERTIES : N := 64.
#[global] Arguments MAX_PROPERTIES : simpl never.
Definition MAX_HTTP_INLINE_BODY_BYTES : N := 47 * 1024.
#[global] Arguments MAX_HTTP_INLINE_BODY_BYTES : simpl never.
Definition MAX_HTTP_STREAM_CHUNK_BYTES : N := 12 * 1024.
#[global] Arguments MAX_HTTP_STREAM_CHUNK_BYTES : simpl never.
Definition MAX_COMMAND_VALUES : N := 32.
#[global] Arguments MAX_COMMAND_VALUES : simpl never.
Definition MAX_COMMAND_OUTPUT_CHUNK_BYTES : N := 12 * 1024.
#[global] Arguments MAX_COMMAND_OUTPUT_CHUNK_BYTES : simpl never.

Ltac schema_constants ::=
  unfold MAX_ARGUMENTS, MAX_PROPERTIES, MAX_HTTP_INLINE_BODY_BYTES, MAX_HTTP_STREAM_CHUNK_BYTES,
    MAX_COMMAND_VALUES, MAX_COMMAND_OUTPUT_CHUNK_BYTES in *.

(** ** Commands *)

Inductive CommandValue :=
| IntegerValue (name : string) (value : Z)
| FixedEnumValue (name value : string)
| TextValue (name value : string)
| ApprovedFileValue (name path : string)
| UrlValue (name value : string).

Definition command_value_name (v : CommandValue) : string :=
  match v with
  | IntegerValue name _ | FixedEnumValue name _ | TextValue name _ | ApprovedFileValue name _
  | UrlValue name _ => name
  end.

Record CommandRunRequest := { crq_command_id : string; crq_values : list CommandValue }.
Record CommandOpened := { co_resource_id : N }.
Inductive CommandEvent :=
| CommandStdout (bytes : list N)
| CommandStderr (bytes : list N)
| CommandExited (exit_code signal : option Z) (stdout_bytes stderr_bytes : N).

Definition enc_command_value (names : list string) (v : CommandValue) (e : Encoder)
  : result SchemaError Encoder :=
  _ ← reject_if (set_contains (command_value_name v) names) Malformed;
  match v with
  | IntegerValue name value => e ← enc_string name (enc_byte 0 e); Ok (enc_signed 8 value e)
  | FixedEnumValue name value => e ← enc_string name (enc_byte 1 e); enc_string value e
  | TextValue name value => e ← enc_string name (enc_byte 2 e); enc_string value e
  | ApprovedFileValue name path => e ← enc_string name (enc_byte 3 e); enc_string path e
  | UrlValue name value => e ← enc_string name (enc_byte 4 e); enc_string value e
  end.

Definition CommandRunRequest_encode (v : CommandRunRequest) : result SchemaError (list N) :=
  _ ← reject_if (MAX_COMMAND_VALUES <? len (crq_values v))%N LimitExceeded;
  encode_with COMMAND_REQUEST_MAGIC (fun e =>
    e ← enc_string (crq_command_id v) e;
    enc_keyed enc_command_value command_value_name [] (crq_values v)
      (enc_u16 (len (crq_values v)) e)).

Definition dec_command_value (names : list string) : Reader CommandValue :=
  read code from dec_byte in
  read value from
    match code with
    | 0 => read name from dec_string in read value from dec_signed 8 in rret (IntegerValue name value)
    | 1 => read name from dec_string in read value from dec_string in rret (FixedEnumValue name value)
    | 2 => read name from dec_string in read value from dec_string in rret (TextValue name value)
    | 3 => read name from dec_string in read path from dec_string in rret (ApprovedFileValue name path)
    | 4 => read name from dec_string in read value from dec_string in rret (UrlValue name value)
    | _ => rerr Malformed
    end%N in
  read _g from rguard (set_contains (command_value_name value) names) Malformed in
  rret value.

Definition CommandRunRequest_decode : list N -> result SchemaError CommandRunRequest :=
  decode_with COMMAND_REQUEST_MAGIC
    (read command_id from dec_string in
     read count from dec_u16 in
     read _g from rguard (MAX_COMMAND_VALUES <? count)%N LimitExceeded in
     read values from dec_keyed dec_command_value command_value_name [] (N.to_nat count) in
     rret {| crq_command_id := command_id; crq_values := values |}).

Definition CommandOpened_encode (v : CommandOpened) : result SchemaError (list N) :=
  _ ← reject_if (co_resource_id v =? 0)%N Malformed;
  encode_with COMMAND_OPENED_MAGIC (fun e => Ok (enc_u64 (co_resource_id v) e)).
Definition CommandOpened_decode (bytes : list N) : result SchemaError CommandOpened :=
  value ← decode_with COMMAND_OPENED_MAGIC
    (read resource_id from dec_u64 in rret {| co_resource_id := resource_id |}) bytes;
  _ ← reject_if (co_resource_id value =? 0)%N Malformed;
  Ok value.

Definition encode_optional_i32 (value : option Z) (e : Encoder) : Encoder :=
  match value with
  | Some value => enc_signed 4 value (enc_byte 1 e)
  | None => enc_byte 0 e
  end.
Definition decode_optional_i32 : Reader (option Z) :=
  read code from dec_byte in
  match code with
  | 0 => rret None
  | 1 => read value from dec_signed 4 in rret (Some value)
  | _ => rerr Malformed
  end%N.

Definition is_some {A} (o : option A) : bool := match o with Some _ => true | None => false end.

Definition CommandEvent_encode (v : CommandEvent) : result SchemaError (list N) :=
  encode_with COMMAND_EVENT_MAGIC (fun e =>
    match v with
    | CommandStdout bytes =>
        _ ← reject_if ((len bytes =? 0) || (MAX_COMMAND_OUTPUT_CHUNK_BYTES <? len bytes))%N
              LimitExceeded;
        Ok (enc_raw bytes (enc_u64 (len bytes) (enc_byte 0 e)))
    | CommandStderr bytes =>
        _ ← reject_if ((len bytes =? 0) || (MAX_COMMAND_OUTPUT_CHUNK_BYTES <? len bytes))%N
              LimitExceeded;
        Ok (enc_raw bytes (enc_u64 (len bytes) (enc_byte 1 e)))
    | CommandExited exit_code signal stdout_bytes stderr_bytes =>
        _ ← reject_if (Bool.eqb (is_some exit_code) (is_some signal)) Malformed;
        Ok (enc_u64 stderr_bytes (enc_u64 stdout_bytes
             (encode_optional_i32 signal (encode_optional_i32 exit_code (enc_byte 2 e)))))
    end).
Definition CommandEvent_decode : list N -> result SchemaError CommandEvent :=
  decode_with COMMAND_EVENT_MAGIC
    (read code from dec_byte in
     match code with
     | 0 => read length from dec_u64 in
            read _g from rguard ((length =? 0) || (MAX_COMMAND_OUTPUT_CHUNK_BYTES <? length))%N
                           LimitExceeded in
            read bytes from dec_take length in
            rret (CommandStdout bytes)
     | 1 => read length from dec_u64 in
            read _g from rguard ((length =? 0) || (MAX_COMMAND_OUTPUT_CHUNK_BYTES <? length))%N
                           LimitExceeded in
            read bytes from dec_take length in
            rret (CommandStderr bytes)
     | 2 => read exit_code from decode_optional_i32 in
            read signal from decode_optional_i32 in
            read _g from rguard (Bool.eqb (is_some exit_code) (is_some signal)) Malformed in
            read stdout_bytes from dec_u64 in
            read stderr_bytes from dec_u64 in
            rret (CommandExited exit_code signal stdout_bytes stderr_bytes)
     | _ => rerr Malformed
     end%N).

(** ** HTTP *)

Inductive HttpRequestMethod :=
| MethodGet | MethodHead | MethodPost | MethodPut | MethodPatch | MethodDelete.

Record HttpRequest := {
  hq_method : HttpRequestMethod; hq_url : string; hq_accept : option string;
  hq_content_type : option string; hq_body : list N }.
Record HttpResponse := {
  hp_status : N; hp_final_url : string; hp_content_type : option string;
  hp_etag : option string; hp_body : list N }.
Record HttpStreamOpened := { hso_resource_id : N }.
Inductive HttpStreamEvent :=
| HttpMetadata (status : N) (final_url : string) (content_type etag : option string)
| HttpChunk (bytes : list N)
| HttpComplete (total_bytes : N).

Definition http_method_code (method : HttpRequestMethod) : N :=
  match method with
  | MethodGet => 0 | MethodHead => 1 | MethodPost => 2 | MethodPut => 3 | MethodPatch => 4
  | MethodDelete => 5
  end.
Definition decode_http_method (code : N) : Reader HttpRequestMethod :=
  match code with
  | 0 => rret MethodGet | 1 => rret MethodHead | 2 => rret MethodPost | 3 => rret MethodPut
  | 4 => rret MethodPatch | 5 => rret MethodDelete | _ => rerr Malformed
  end%N.

(** [(100..=599).contains(&status)]. *)
Definition status_in_range (status : N) : bool := ((100 <=? status) && (status <=? 599))%N.

Definition HttpRequest_encode (v : HttpRequest) : result SchemaError (list N) :=
  _ ← reject_if (MAX_HTTP_INLINE_BODY_BYTES <? len (hq_body v))%N LimitExceeded;
  encode_with HTTP_REQUEST_MAGIC (fun e =>
    e ← enc_string (hq_url v) (enc_byte (http_method_code (hq_method v)) e);
    e ← enc_optional_string (hq_accept v) e;
    e ← enc_optional_string (hq_content_type v) e;
    Ok (enc_raw (hq_body v) (enc_u64 (len (hq_body v)) e))).
Definition HttpRequest_decode : list N -> result SchemaError HttpRequest :=
  decode_with HTTP_REQUEST_MAGIC
    (read code from dec_byte in
     read method from decode_http_method code in
     read url from dec_string in
     read accept from dec_optional_string in
     read content_type from dec_optional_string in
     read length from dec_u64 in
     read _g from rguard (MAX_HTTP_INLINE_BODY_BYTES <? length)%N LimitExceeded in
     read body from dec_take length in
     rret {| hq_method := method; hq_url := url; hq_accept := accept;
             hq_content_type := content_type; hq_body := body |}).

Definition HttpResponse_encode (v : HttpResponse) : result SchemaError (list N) :=
  _ ← reject_if (negb (status_in_range (hp_status v))
                 || (MAX_HTTP_INLINE_BODY_BYTES <? len (hp_body v))%N) LimitExceeded;
  encode_with HTTP_RESPONSE_MAGIC (fun e =>
    e ← enc_string (hp_final_url v) (enc_u16 (hp_status v) e);
    e ← enc_optional_string (hp_content_type v) e;
    e ← enc_optional_string (hp_etag v) e;
    Ok (enc_raw (hp_body v) (enc_u64 (len (hp_body v)) e))).
Definition HttpResponse_decode : list N -> result SchemaError HttpResponse :=
  decode_with HTTP_RESPONSE_MAGIC
    (read status from dec_u16 in
     read _g from rguard (negb (status_in_range status)) Malformed in
     read final_url from dec_string in
     read content_type from dec_optional_string in
     read etag from dec_optional_string in
     read length from dec_u64 in
     read _g from rguard (MAX_HTTP_INLINE_BODY_BYTES <? length)%N LimitExceeded in
     read body from dec_take length in
     rret {| hp_status := status; hp_final_url := final_url; hp_content_type := content_type;
             hp_etag := etag; hp_body := body |}).

Definition HttpStreamOpened_encode (v : HttpStreamOpened) : result SchemaError (list N) :=
  _ ← reject_if (hso_resource_id v =? 0)%N Malformed;
  encode_with HTTP_STREAM_OPENED_MAGIC (fun e => Ok (enc_u64 (hso_resource_id v) e)).
Definition HttpStreamOpened_decode (bytes : list N) : result SchemaError HttpStreamOpened :=
  value ← decode_with HTTP_STREAM_OPENED_MAGIC
    (read resource_id from dec_u64 in rret {| hso_resource_id := resource_id |}) bytes;
  _ ← reject_if (hso_resource_id value =? 0)%N Malformed;
  Ok value.

Definition HttpStreamEvent_encode (v : HttpStreamEvent) : result SchemaError (list N) :=
  encode_with HTTP_STREAM_EVENT_MAGIC (fun e =>
    match v with
    | HttpMetadata status final_url content_type etag =>
        _ ← reject_if (negb (status_in_range status)) Malformed;
        e ← enc_string final_url (enc_u16 status (enc_byte 0 e));
        e ← enc_optional_string content_type e;
        enc_optional_string etag e
    | HttpChunk bytes =>
        _ ← reject_if ((len bytes =? 0) || (MAX_HTTP_STREAM_CHUNK_BYTES <? len bytes))%N
              LimitExceeded;
        Ok (enc_raw bytes (enc_u64 (len bytes) (enc_byte 1 e)))
    | HttpComplete total_bytes => Ok (enc_u64 total_bytes (enc_byte 2 e))
    end).
Definition HttpStreamEvent_decode : list N -> result SchemaError HttpStreamEvent :=
  decode_with HTTP_STREAM_EVENT_MAGIC
    (read code from dec_byte in
     match code with
     | 0 => read status from dec_u16 in
            read _g from rguard (negb (status_in_range status)) Malformed in
            read final_url from dec_string in
            read content_type from dec_optional_string in
            read etag from dec_optional_string in
            rret (HttpMetadata status final_url content_type etag)
     | 1 => read length from dec_u64 in
            read _g from rguard ((length =? 0) || (MAX_HTTP_STREAM_CHUNK_BYTES <? length))%N
                           LimitExceeded in
            read bytes from dec_take length in
            rret (HttpChunk bytes)
     | 2 => read total_bytes from dec_u64 in rret (HttpComplete total_bytes)
     | _ => rerr Malformed
     end%N).

(** ** D-Bus *)

Inductive DbusBus := Session | System.
Inductive DbusReplyKind := ReplyUnit | ReplyVariantString | ReplyVariantI64.
Record DbusCall := {
  dca_bus : DbusBus; dca_destination : string; dca_path : string; dca_interface : string;
  dca_member : string; dca_arguments : list string; dca_reply : DbusReplyKind }.
Record DbusSubscription := {
  dsu_bus : DbusBus; dsu_sender : string; dsu_path : string; dsu_interface : string;
  dsu_member : string; dsu_signature : string; dsu_argument_zero : option string }.
Record DbusSubscriptionOpened := { dso_resource_id : N }.
(** [F64] carries [f64::to_bits]. *)
Inductive DbusValue :=
| U8Value (value : N)
| BoolValue (value : bool)
| I16Value (value : Z)
| U16Value (value : N)
| I32Value (value : Z)
| U32Value (value : N)
| I64Value (value : Z)
| U64Value (value : N)
| F64Value (bits : N)
| StringValue (value : string).
Record DbusProperty := { dp_name : string; dp_value : DbusValue }.
Record DbusPropertiesChanged := {
  dpc_interface_name : string; dpc_changed_properties : list DbusProperty;
  dpc_invalidated_properties : list string }.
Inductive DbusReply := UnitReply | StringReply (value : string) | I64Reply (value : Z).

Definition bus_code (bus : DbusBus) : N := match bus with Session => 0 | System => 1 end.
Definition dec_bus : Reader DbusBus :=
  read code from dec_byte in
  match code with 0 => rret Session | 1 => rret System | _ => rerr Malformed end%N.

(** [f64::is_finite] of a bit pattern: the exponent is not all ones. *)
Definition f64_is_finite (bits : N) : bool := negb ((bits / 2 ^ 52) mod 2048 =? 2047)%N.

Definition DbusSubscription_encode (v : DbusSubscription) : result SchemaError (list N) :=
  encode_with SUBSCRIPTION_MAGIC (fun e =>
    e ← enc_string (dsu_sender v) (enc_byte (bus_code (dsu_bus v)) e);
    e ← enc_string (dsu_path v) e;
    e ← enc_string (dsu_interface v) e;
    e ← enc_string (dsu_member v) e;
    e ← enc_string (dsu_signature v) e;
    enc_optional_string (dsu_argument_zero v) e).
Definition DbusSubscription_decode : list N -> result SchemaError DbusSubscription :=
  decode_with SUBSCRIPTION_MAGIC
    (read bus from dec_bus in
     read sender from dec_string in
     read path from dec_string in
     read interface from dec_string in
     read member from dec_string in
     read signature from dec_string in
     read argument_zero from dec_optional_string in
     rret {| dsu_bus := bus; dsu_sender := sender; dsu_path := path; dsu_interface := interface;
             dsu_member := member; dsu_signature := signature;
             dsu_argument_zero := argument_zero |}).

Definition DbusSubscriptionOpened_encode (v : DbusSubscriptionOpened)
  : result SchemaError (list N) :=
  _ ← reject_if (dso_resource_id v =? 0)%N Malformed;
  encode_with OPENED_MAGIC (fun e => Ok (enc_u64 (dso_resource_id v) e)).
Definition DbusSubscriptionOpened_decode (bytes : list N)
  : result SchemaError DbusSubscriptionOpened :=
  value ← decode_with OPENED_MAGIC
    (read resource_id from dec_u64 in rret {| dso_resource_id := resource_id |}) bytes;
  _ ← reject_if (dso_resource_id value =? 0)%N Malformed;
  Ok value.

Definition encode_value (value : DbusValue) (e : Encoder) : result SchemaError Encoder :=
  match value with
  | U8Value value => Ok (enc_byte value (enc_byte 0 e))
  | BoolValue value => Ok (enc_flag value (enc_byte 1 e))
  | I16Value value => Ok (enc_signed 2 value (enc_byte 2 e))
  | U16Value value => Ok (enc_u16 value (enc_byte 3 e))
  | I32Value value => Ok (enc_signed 4 value (enc_byte 4 e))
  | U32Value value => Ok (enc_u32 value (enc_byte 5 e))
  | I64Value value => Ok (enc_signed 8 value (enc_byte 6 e))
  | U64Value value => Ok (enc_u64 value (enc_byte 7 e))
  | F64Value bits =>
      if f64_is_finite bits then Ok (enc_u64 bits (enc_byte 8 e)) else Err Malformed
  | StringValue value => enc_string value (enc_byte 9 e)
  end.

Definition decode_value : Reader DbusValue :=
  read code from dec_byte in
  match code with
  | 0 => read value from dec_byte in rret (U8Value value)
  | 1 => read value from dec_flag in rret (BoolValue value)
  | 2 => read value from dec_signed 2 in rret (I16Value value)
  | 3 => read value from dec_u16 in rret (U16Value value)
  | 4 => read value from dec_signed 4 in rret (I32Value value)
  | 5 => read value from dec_u32 in rret (U32Value value)
  | 6 => read value from dec_signed 8 in rret (I64Value value)
  | 7 => read value from dec_u64 in rret (U64Value value)
  | 8 => read bits from dec_u64 in
         read _g from rguard (negb (f64_is_finite bits)) Malformed in
         rret (F64Value bits)
  | 9 => read value from dec_string in rret (StringValue value)
  | _ => rerr Malformed
  end%N.

Definition enc_property (property : DbusProperty) (e : Encoder) : result SchemaError Encoder :=
  e ← enc_string (dp_name property) e; encode_value (dp_value property) e.
Definition dec_property : Reader DbusProperty :=
  read name from dec_string in
  read value from decode_value in
  rret {| dp_name := name; dp_value := value |}.

Definition DbusPropertiesChanged_encode (v : DbusPropertiesChanged)
  : result SchemaError (list N) :=
  _ ← reject_if ((MAX_PROPERTIES <? len (dpc_changed_properties v))
                 || (MAX_PROPERTIES <? len (dpc_invalidated_properties v)))%N LimitExceeded;
  encode_with SIGNAL_MAGIC (fun e =>
    e ← enc_string (dpc_interface_name v) e;
    e ← enc_each enc_property (dpc_changed_properties v)
          (enc_u16 (len (dpc_changed_properties v)) e);
    enc_each enc_string (dpc_invalidated_properties v)
      (enc_u16 (len (dpc_invalidated_properties v)) e)).
Definition DbusPropertiesChanged_decode : list N -> result SchemaError DbusPropertiesChanged :=
  decode_with SIGNAL_MAGIC
    (read interface_name from dec_string in
     read changed_count from dec_u16 in
     read _g from rguard (MAX_PROPERTIES <? changed_count)%N LimitExceeded in
     read changed_properties from dec_many (N.to_nat changed_count) dec_property in
     read invalidated_count from dec_u16 in
     read _g from rguard (MAX_PROPERTIES <? invalidated_count)%N LimitExceeded in
     read invalidated_properties from dec_many (N.to_nat invalidated_count) dec_string in
     rret {| dpc_interface_name := interface_name; dpc_changed_properties := changed_properties;
             dpc_invalidated_properties := invalidated_properties |}).

(** ["s".repeat(self.arguments.len())]. *)
Fixpoint repeat_string (s : string) (n : nat) : string :=
  match n with O => "" | S n' => s +:+ repeat_string s n' end.
Definition dbus_call_signature (v : DbusCall) : string :=
  repeat_string "s" (length (dca_arguments v)).

Definition reply_kind_code (reply : DbusReplyKind) : N :=
  match reply with ReplyUnit => 0 | ReplyVariantString => 1 | ReplyVariantI64 => 2 end.

Definition DbusCall_encode (v : DbusCall) : result SchemaError (list N) :=
  _ ← reject_if (MAX_ARGUMENTS <? len (dca_arguments v))%N LimitExceeded;
  encode_with CALL_MAGIC (fun e =>
    e ← enc_string (dca_destination v) (enc_byte (bus_code (dca_bus v)) e);
    e ← enc_string (dca_path v) e;
    e ← enc_string (dca_interface v) e;
    e ← enc_string (dca_member v) e;
    let e := enc_byte (reply_kind_code (dca_reply v)) e in
    enc_each enc_string (dca_arguments v) (enc_u16 (len (dca_arguments v)) e)).
Definition DbusCall_decode : list N -> result SchemaError DbusCall :=
  decode_with CALL_MAGIC
    (read bus from dec_bus in
     read destination from dec_string in
     read path from dec_string in
     read interface from dec_string in
     read member from dec_string in
     read code from dec_byte in
     read reply from match code with
                     | 0 => rret ReplyUnit | 1 => rret ReplyVariantString
                     | 2 => rret ReplyVariantI64 | _ => rerr Malformed
                     end%N in
     read argument_count from dec_u16 in
     read _g from rguard (MAX_ARGUMENTS <? argument_count)%N LimitExceeded in
     read arguments from dec_many (N.to_nat argument_count) dec_string in
     rret {| dca_bus := bus; dca_destination := destination; dca_path := path;
             dca_interface := interface; dca_member := member; dca_arguments := arguments;
             dca_reply := reply |}).

Definition DbusReply_encode (v : DbusReply) : result SchemaError (list N) :=
  encode_with REPLY_MAGIC (fun e =>
    match v with
    | UnitReply => Ok (enc_byte 0 e)
    | StringReply value => enc_string value (enc_byte 1 e)
    | I64Reply value => Ok (enc_signed 8 value (enc_byte 2 e))
    end).
Definition DbusReply_decode : list N -> result SchemaError DbusReply :=
  decode_with REPLY_MAGIC
    (read code from dec_byte in
     match code with
     | 0 => rret UnitReply
     | 1 => read value from dec_string in rret (StringReply value)
     | 2 => read value from dec_signed 8 in rret (I64Reply value)
     | _ => rerr Malformed
     end%N).

(** ** The values Rust's types admit *)

Definition command_value_good (v : CommandValue) : Prop :=
  match v with
  | IntegerValue name value => text name /\ signed_range 8 value
  | FixedEnumValue name value | TextValue name value | ApprovedFileValue name value
  | UrlValue name value => text name /\ text value
  end.
Definition CommandRunRequest_good (v : CommandRunRequest) : Prop :=
  text (crq_command_id v) /\ Forall command_value_good (crq_values v).
Definition CommandOpened_good (v : CommandOpened) : Prop := (co_resource_id v <= u64_max)%N.
Definition CommandEvent_good (v : CommandEvent) : Prop :=
  match v with
  | CommandStdout bytes | CommandStderr bytes => octets bytes
  | CommandExited exit_code signal stdout_bytes stderr_bytes =>
      opt_all (signed_range 4) exit_code /\ opt_all (signed_range 4) signal /\
      (stdout_bytes <= u64_max)%N /\ (stderr_bytes <= u64_max)%N
  end.
Definition HttpRequest_good (v : HttpRequest) : Prop :=
  text (hq_url v) /\ opt_all text (hq_accept v) /\ opt_all text (hq_content_type v) /\
  octets (hq_body v).
Definition HttpResponse_good (v : HttpResponse) : Prop :=
  (hp_status v <= u16_max)%N /\ text (hp_final_url v) /\ opt_all text (hp_content_type v) /\
  opt_all text (hp_etag v) /\ octets (hp_body v).
Definition HttpStreamOpened_good (v : HttpStreamOpened) : Prop := (hso_resource_id v <= u64_max)%N.
Definition HttpStreamEvent_good (v : HttpStreamEvent) : Prop :=
  match v with
  | HttpMetadata status final_url content_type etag =>
      (status <= u16_max)%N /\ text final_url /\ opt_all text content_type /\ opt_all text etag
  | HttpChunk bytes => octets bytes
  | HttpComplete total_bytes => (total_bytes <= u64_max)%N
  end.
Definition DbusCall_good (v : DbusCall) : Prop :=
  text (dca_destination v) /\ text (dca_path v) /\ text (dca_interface v) /\
  text (dca_member v) /\ Forall text (dca_arguments v).
Definition DbusSubscription_good (v : DbusSubscription) : Prop :=
  text (dsu_sender v) /\ text (dsu_path v) /\ text (dsu_interface v) /\ text (dsu_member v) /\
  text (dsu_signature v) /\ opt_all text (dsu_argument_zero v).
Definition DbusSubscriptionOpened_good (v : DbusSubscriptionOpened) : Prop :=
  (dso_resource_id v <= u64_max)%N.
Definition dbus_value_good (v : DbusValue) : Prop :=
  match v with
  | U8Value value => is_byte value
  | BoolValue _ => True
  | I16Value value => signed_range 2 value
  | U16Value value => (value <= u16_max)%N
  | I32Value value => signed_range 4 value
  | U32Value value => (value <= u32_max)%N
  | I64Value value => signed_range 8 value
  | U64Value value | F64Value value => (value <= u64_max)%N
  | StringValue value => text value
  end.
Definition property_good (v : DbusProperty) : Prop :=
  text (dp_name v) /\ dbus_value_good (dp_value v).
Definition DbusPropertiesChanged_good (v : DbusPropertiesChanged) : Prop :=
  text (dpc_interface_name v) /\ Forall property_good (dpc_changed_properties v) /\
  Forall text (dpc_invalidated_properties v).
Definition DbusReply_good (v : DbusReply) : Prop :=
  match v with
  | UnitReply => True
  | StringReply value => text value
  | I64Reply value => signed_range 8 value
  end.

Ltac schema_unfold ::= unfold decode_http_method, dec_bus in *.

Lemma CommandOpened_law : SchemaLaw CommandOpened_encode CommandOpened_decode CommandOpened_good.
Proof. schema_law @CommandOpened_encode @CommandOpened_decode @CommandOpened_good. Qed.
Lemma HttpRequest_law : SchemaLaw HttpRequest_encode HttpRequest_decode HttpRequest_good.
Proof. schema_law @HttpRequest_encode @HttpRequest_decode @HttpRequest_good. Qed.
Lemma HttpResponse_law : SchemaLaw HttpResponse_encode HttpResponse_decode HttpResponse_good.
Proof. schema_law @HttpResponse_encode @HttpResponse_decode @HttpResponse_good. Qed.
Lemma HttpStreamOpened_law :
  SchemaLaw HttpStreamOpened_encode HttpStreamOpened_decode
    HttpStreamOpened_good.
Proof. schema_law @HttpStreamOpened_encode @HttpStreamOpened_decode @HttpStreamOpened_good. Qed.
Lemma HttpStreamEvent_law :
  SchemaLaw HttpStreamEvent_encode HttpStreamEvent_decode
    HttpStreamEvent_good.
Proof. schema_law @HttpStreamEvent_encode @HttpStreamEvent_decode @HttpStreamEvent_good. Qed.
Lemma DbusSubscription_law :
  SchemaLaw DbusSubscription_encode DbusSubscription_decode
    DbusSubscription_good.
Proof. schema_law @DbusSubscription_encode @DbusSubscription_decode @DbusSubscription_good. Qed.
Lemma DbusSubscriptionOpened_law :
  SchemaLaw DbusSubscriptionOpened_encode DbusSubscriptionOpened_decode
    DbusSubscriptionOpened_good.
Proof.
  schema_law @DbusSubscriptionOpened_encode @DbusSubscriptionOpened_decode
    @DbusSubscriptionOpened_good.
Qed.
Lemma DbusReply_law : SchemaLaw DbusReply_encode DbusReply_decode DbusReply_good.
Proof. schema_law @DbusReply_encode @DbusReply_decode @DbusReply_good. Qed.
Ltac schema_unfold ::=
  repeat match goal with o : option Z |- _ => destruct o end;
  unfold encode_optional_i32, decode_optional_i32 in *.

Lemma CommandEvent_law : SchemaLaw CommandEvent_encode CommandEvent_decode CommandEvent_good.
Proof. schema_law @CommandEvent_encode @CommandEvent_decode @CommandEvent_good. Qed.

(** *** Command values *)

Definition command_value_limit (v : CommandValue) : Prop :=
  match v with
  | IntegerValue name _ => fits name
  | FixedEnumValue name value | TextValue name value | ApprovedFileValue name value
  | UrlValue name value => fits name /\ fits value
  end.
Definition wire_command_value (v : CommandValue) : list N :=
  match v with
  | IntegerValue name value => 0%N :: wire_string name ++ signed_to_le 8 value
  | FixedEnumValue name value => 1%N :: wire_string name ++ wire_string value
  | TextValue name value => 2%N :: wire_string name ++ wire_string value
  | ApprovedFileValue name value => 3%N :: wire_string name ++ wire_string value
  | UrlValue name value => 4%N :: wire_string name ++ wire_string value
  end.

Lemma command_value_law :
  KeyedLaw command_value_good command_value_limit wire_command_value enc_command_value
    dec_command_value command_value_name.
Proof.
  split.
  - intros names v e e'. unfold enc_command_value. rewrite bind_Ok. setoid_rewrite reject_if_Ok.
    setoid_rewrite set_contains_false. split.
    + intros (_ & Hn & H). split; [split; [done|]|]; destruct v; write_inv; cbn; try done; same_bytes.
    + intros [[Hn Hl] ->]. exists (). split; [done|].
      destruct v; cbn -[app to_le] in *; destruct_and?; encode_goal.
  - intros names v l Hn Hg Hl. unfold dec_command_value.
    assert (set_contains (command_value_name v) names = false) as Hc
      by (by apply set_contains_false).
    destruct v; cbn -[app to_le] in *; destruct_and?; cbn [app]; rewrite <- ?app_assoc;
      repeat forth_step; done.
  - intros names l v l' Ho H. unfold dec_command_value in H. do 12 (try read_step).
    all: repeat read_step; cbn -[app to_le set_contains] in *.
    all: split_and!; try done; try by apply set_contains_false.
    all: cbn [app]; by rewrite <- ?app_assoc.
Qed.

Lemma CommandRunRequest_law :
  SchemaLaw CommandRunRequest_encode CommandRunRequest_decode CommandRunRequest_good.
Proof.
  split.
  - intros [id values] bs [Ht Hg] H. unfold CommandRunRequest_encode in H.
    cbn [crq_command_id crq_values] in *. write_inv.
    match goal with Hk : enc_keyed _ _ _ _ _ = Ok _ |- _ =>
      apply (enc_keyed_Ok _ _ _ _ _ _ command_value_law) in Hk as [[Hk Hl] ->] end.
    unfold enc_u16 in *. rewrite <- !app_assoc in *. apply decode_with_forth; [done|].
    rewrite <- !app_assoc, rbind_wire_string, rbind_u16, rbind_guard by
      (unfold MAX_COMMAND_VALUES in *; limits).
    rewrite (rbind_keyed _ _ _ _ _ _ command_value_law); try done.
    unfold len. by rewrite Nat2N.id.
  - intros v bs Ho (Hm & l & -> & H)%decode_with_Ok. apply Forall_app in Ho as [_ Ho].
    repeat read_step.
    match goal with Hr : dec_keyed _ _ _ _ _ = _ |- _ =>
      apply (dec_keyed_inv _ _ _ _ _ _ command_value_law) in Hr
        as (-> & Hn & Hk & Hg & Hl & _); [|done] end.
    split; [done|]. unfold CommandRunRequest_encode. cbn [crq_command_id crq_values].
    unfold len at 1 2. rewrite Hn, N2Nat.id. encode_goal.
    apply (enc_keyed_Ok _ _ _ _ _ _ command_value_law). split; [done|].
    unfold enc_u16. by rewrite <- !app_assoc, app_nil_r.
Qed.

(** *** D-Bus values *)

Definition dbus_value_limit (v : DbusValue) : Prop :=
  match v with
  | StringValue value => fits value
  | F64Value bits => f64_is_finite bits = true
  | _ => True
  end.
Definition wire_value (v : DbusValue) : list N :=
  match v with
  | U8Value value => [0%N; value]
  | BoolValue value => [1%N; bit value]
  | I16Value value => 2%N :: signed_to_le 2 value
  | U16Value value => 3%N :: to_le 2 value
  | I32Value value => 4%N :: signed_to_le 4 value
  | U32Value value => 5%N :: to_le 4 value
  | I64Value value => 6%N :: signed_to_le 8 value
  | U64Value value => 7%N :: to_le 8 value
  | F64Value bits => 8%N :: to_le 8 bits
  | StringValue value => 9%N :: wire_string value
  end.

Lemma value_law :
  ElementLaw encode_value decode_value dbus_value_good dbus_value_limit wire_value.
Proof.
  split.
  - intros v e e'.
    destruct v as [| | | | | | | |bits|]; cbn -[app to_le f64_is_finite];
      try (unfold enc_flag, enc_byte, enc_signed, enc_u16, enc_u32, enc_u64;
           rewrite <- ?app_assoc; split; [by intros [= <-]|by intros [_ ->]]).
    + unfold enc_byte, enc_u64. rewrite <- ?app_assoc.
      destruct (f64_is_finite bits); split; [by intros [= <-]|by intros [_ ->]|done|by intros [? _]].
    + rewrite enc_string_Ok. unfold enc_byte. by rewrite <- app_assoc.
  - intros v l Hg Hl. unfold decode_value.
    destruct v; cbn -[app to_le f64_is_finite] in *; cbn [app]; rewrite rbind_byte;
      try (repeat forth_step; done).
  - intros l v l' Ho H. unfold decode_value in H. do 14 (try read_step).
    all: repeat read_step; cbn -[app to_le f64_is_finite] in *.
    all: split_and!; try done; try by apply negb_false_iff.
Qed.

Lemma property_law :
  ElementLaw enc_property dec_property property_good
    (fun v => fits (dp_name v) /\ dbus_value_limit (dp_value v))
    (fun v => wire_string (dp_name v) ++ wire_value (dp_value v)).
Proof.
  split.
  - intros v e e'. unfold enc_property. rewrite bind_Ok. setoid_rewrite enc_string_Ok.
    setoid_rewrite (el_write _ _ _ _ _ value_law). rewrite app_assoc. naive_solver.
  - intros [name value] l [Ht Hg] [Hf Hl]. unfold dec_property. cbn [dp_name dp_value] in *.
    rewrite <- app_assoc, rbind_wire_string by done. unfold rbind.
    by rewrite (el_forth _ _ _ _ _ value_law).
  - intros l v l' Ho H. unfold dec_property in H. repeat read_step.
    match goal with Hv : decode_value _ = _ |- _ =>
      apply (el_back _ _ _ _ _ value_law) in Hv as (-> & ? & ? & ?); [|done] end.
    unfold property_good. cbn [dp_name dp_value]. by rewrite <- app_assoc.
Qed.

Lemma DbusPropertiesChanged_law :
  SchemaLaw DbusPropertiesChanged_encode DbusPropertiesChanged_decode
    DbusPropertiesChanged_good.
Proof.
  split.
  - intros [name changed invalid] bs (Ht & Hg & Hg') H. unfold DbusPropertiesChanged_encode in H.
    cbn [dpc_interface_name dpc_changed_properties dpc_invalidated_properties] in *. write_inv.
    repeat match goal with
    | Hk : enc_each enc_property _ _ = Ok _ |- _ =>
        apply (enc_each_Ok _ _ _ _ _ property_law) in Hk as [? ->]
    | Hk : enc_each enc_string _ _ = Ok _ |- _ =>
        apply (enc_each_Ok _ _ _ _ _ string_law) in Hk as [? ->]
    end.
    unfold enc_u16 in *. rewrite <- !app_assoc in *. apply decode_with_forth; [done|].
    rewrite <- !app_assoc, rbind_wire_string, rbind_u16, rbind_guard by
      (unfold MAX_PROPERTIES in *; limits).
    rewrite (rbind_many _ _ _ _ _ property_law) by (try done; unfold len; by rewrite Nat2N.id).
    rewrite rbind_u16, rbind_guard by (unfold MAX_PROPERTIES in *; limits).
    by rewrite (rbind_many _ _ _ _ _ string_law) by (try done; unfold len; by rewrite Nat2N.id).
  - intros v bs Ho (Hm & l & -> & H)%decode_with_Ok. apply Forall_app in Ho as [_ Ho].
    repeat first [read_step|match goal with
    | Hr : dec_many _ dec_property _ = _ |- _ =>
        apply (dec_many_inv _ _ _ _ _ property_law) in Hr as (-> & ? & ? & ? & ?); [|done]
    | Hr : dec_many _ dec_string _ = _ |- _ =>
        apply (dec_many_inv _ _ _ _ _ string_law) in Hr as (-> & ? & ? & ? & ?); [|done]
    end].
    split; [done|]. unfold DbusPropertiesChanged_encode.
    cbn [dpc_interface_name dpc_changed_properties dpc_invalidated_properties].
    repeat match goal with Hn : length ?l = N.to_nat ?n |- _ =>
      assert (len l = n) as -> by (unfold len; rewrite Hn; apply N2Nat.id); clear Hn end.
    encode_goal.
    + apply (enc_each_Ok _ _ _ _ _ property_law). by split.
    + apply (enc_each_Ok _ _ _ _ _ string_law). split; [done|].
      unfold enc_u16. by rewrite <- !app_assoc, app_nil_r.
Qed.

Lemma DbusCall_law : SchemaLaw DbusCall_encode DbusCall_decode DbusCall_good.
Proof.
  split.
  - intros [bus destination path interface member arguments reply] bs Hg H.
    unfold DbusCall_good, DbusCall_encode in *.
    cbn [dca_bus dca_destination dca_path dca_interface dca_member dca_arguments dca_reply] in *.
    destruct_and?. write_inv.
    match goal with Hk : enc_each enc_string _ _ = Ok _ |- _ =>
      apply (enc_each_Ok _ _ _ _ _ string_law) in Hk as [? ->] end.
    unfold enc_u16, enc_byte in *. rewrite <- !app_assoc in *. cbn [app] in *.
    apply decode_with_forth; [done|]. rewrite <- ?app_assoc. cbn [app]. rewrite <- ?app_assoc.
    unfold dec_bus. rewrite rbind_assoc, rbind_byte. destruct bus; cbn [bus_code].
    all: rewrite rbind_ret, !rbind_wire_string by done; cbn [app]; rewrite rbind_byte, <- ?app_assoc.
    all: destruct reply; cbn [reply_kind_code].
    all: rewrite rbind_ret, rbind_u16, rbind_guard by (unfold MAX_ARGUMENTS in *; limits).
    all: by rewrite (rbind_many _ _ _ _ _ string_law) by (try done; unfold len; by rewrite Nat2N.id).
  - intros v bs Ho (Hm & l & -> & H)%decode_with_Ok. apply Forall_app in Ho as [_ Ho].
    unfold dec_bus in H.
    repeat first [read_step|match goal with Hr : dec_many _ dec_string _ = _ |- _ =>
      apply (dec_many_inv _ _ _ _ _ string_law) in Hr as (-> & ? & ? & ? & ?); [|done] end].
    all: split; [done|]; unfold DbusCall_encode.
    all: cbn [dca_bus dca_destination dca_path dca_interface dca_member dca_arguments dca_reply
              bus_code reply_kind_code].
    all: match goal with Hn : length ?l = N.to_nat ?n |- _ =>
      assert (len l = n) as -> by (unfold len; rewrite Hn; apply N2Nat.id); clear Hn end.
    all: encode_goal; apply (enc_each_Ok _ _ _ _ _ string_law); split; [done|].
    all: unfold enc_u16, enc_byte; rewrite <- ?app_assoc; cbn [app]; by rewrite <- ?app_assoc, app_nil_r.
Qed.
