(* ===== verification/Schema.v ===== *)
(** * Schema: all capability payloads together

    The payload types of [crates/touchbar-broker-schema/src/lib.rs] as one
    closed universe: a schema names a payload type, its magic, encoder and
    decoder.  The theorems range over all of them: round trips, and that the
    magics keep the schemas apart. *)

From S2P Require Import Prelude BTree Text Wire Payload SchemaDesktop SchemaFiles SchemaNet.

Inductive Schema :=
| SAppearancePublish
| SContextReadRequest
| SContextSnapshot
| SContextSubscriptionOpened
| SClipboardReadRequest
| SClipboardWriteRequest
| SClipboardValue
| SSecretReadRequest
| SSecretValue
| SLocalConnect
| SLocalConnectionOpened
| SLocalSendFrame
| SLocalFrameEvent
| SNotificationSend
| SNotificationRemove
| SUriOpenRequest
| SFilesystemReadFile
| SFilesystemReadStream
| SFilesystemStreamOpened
| SFilesystemStreamEvent
| SFilesystemFileChunk
| SFilesystemListDirectory
| SFilesystemDirectoryEntries
| SFilesystemWriteFile
| SFilesystemWriteStream
| SFilesystemWriteStreamOpened
| SFilesystemWriteStreamChunk
| SFilesystemWriteStreamCommit
| SFilesystemPath
| SFilesystemRename
| SFilesystemMutationResult
| SCommandRunRequest
| SCommandOpened
| SCommandEvent
| SHttpRequest
| SHttpResponse
| SHttpStreamOpened
| SHttpStreamEvent
| SDbusCall
| SDbusReply
| SDbusSubscription
| SDbusSubscriptionOpened
| SDbusPropertiesChanged.

#[export] Instance Schema_eq_dec : EqDecision Schema. Proof. solve_decision. Defined.

Definition payload (s : Schema) : Type :=
  match s with
  | SAppearancePublish => AppearancePublish
  | SContextReadRequest => ContextReadRequest
  | SContextSnapshot => ContextSnapshot
  | SContextSubscriptionOpened => ContextSubscriptionOpened
  | SClipboardReadRequest => ClipboardReadRequest
  | SClipboardWriteRequest => ClipboardWriteRequest
  | SClipboardValue => ClipboardValue
  | SSecretReadRequest => SecretReadRequest
  | SSecretValue => SecretValue
  | SLocalConnect => LocalConnect
  | SLocalConnectionOpened => LocalConnectionOpened
  | SLocalSendFrame => LocalSendFrame
  | SLocalFrameEvent => LocalFrameEvent
  | SNotificationSend => NotificationSend
  | SNotificationRemove => NotificationRemove
  | SUriOpenRequest => UriOpenRequest
  | SFilesystemReadFile => FilesystemReadFile
  | SFilesystemReadStream => FilesystemReadStream
  | SFilesystemStreamOpened => FilesystemStreamOpened
  | SFilesystemStreamEvent => FilesystemStreamEvent
  | SFilesystemFileChunk => FilesystemFileChunk
  | SFilesystemListDirectory => FilesystemListDirectory
  | SFilesystemDirectoryEntries => FilesystemDirectoryEntries
  | SFilesystemWriteFile => FilesystemWriteFile
  | SFilesystemWriteStream => FilesystemWriteStream
  | SFilesystemWriteStreamOpened => FilesystemWriteStreamOpened
  | SFilesystemWriteStreamChunk => FilesystemWriteStreamChunk
  | SFilesystemWriteStreamCommit => FilesystemWriteStreamCommit
  | SFilesystemPath => FilesystemPath
  | SFilesystemRename => FilesystemRename
  | SFilesystemMutationResult => FilesystemMutationResult
  | SCommandRunRequest => CommandRunRequest
  | SCommandOpened => CommandOpened
  | SCommandEvent => CommandEvent
  | SHttpRequest => HttpRequest
  | SHttpResponse => HttpResponse
  | SHttpStreamOpened => HttpStreamOpened
  | SHttpStreamEvent => HttpStreamEvent
  | SDbusCall => DbusCall
  | SDbusReply => DbusReply
  | SDbusSubscription => DbusSubscription
  | SDbusSubscriptionOpened => DbusSubscriptionOpened
  | SDbusPropertiesChanged => DbusPropertiesChanged
  end.

Definition magic (s : Schema) : string :=
  match s with
  | SAppearancePublish => APPEARANCE_PUBLISH_MAGIC
  | SContextReadRequest => CONTEXT_READ_MAGIC
  | SContextSnapshot => CONTEXT_SNAPSHOT_MAGIC
  | SContextSubscriptionOpened => CONTEXT_OPENED_MAGIC
  | SClipboardReadRequest => CLIPBOARD_READ_MAGIC
  | SClipboardWriteRequest => CLIPBOARD_WRITE_MAGIC
  | SClipboardValue => CLIPBOARD_VALUE_MAGIC
  | SSecretReadRequest => SECRET_READ_MAGIC
  | SSecretValue => SECRET_VALUE_MAGIC
  | SLocalConnect => LOCAL_CONNECT_MAGIC
  | SLocalConnectionOpened => LOCAL_OPENED_MAGIC
  | SLocalSendFrame => LOCAL_SEND_MAGIC
  | SLocalFrameEvent => LOCAL_EVENT_MAGIC
  | SNotificationSend => NOTIFICATION_SEND_MAGIC
  | SNotificationRemove => NOTIFICATION_REMOVE_MAGIC
  | SUriOpenRequest => URI_OPEN_MAGIC
  | SFilesystemReadFile => FILE_READ_MAGIC
  | SFilesystemReadStream => FILE_STREAM_REQUEST_MAGIC
  | SFilesystemStreamOpened => FILE_STREAM_OPENED_MAGIC
  | SFilesystemStreamEvent => FILE_STREAM_EVENT_MAGIC
  | SFilesystemFileChunk => FILE_REPLY_MAGIC
  | SFilesystemListDirectory => DIRECTORY_LIST_MAGIC
  | SFilesystemDirectoryEntries => DIRECTORY_REPLY_MAGIC
  | SFilesystemWriteFile => FILE_WRITE_MAGIC
  | SFilesystemWriteStream => FILE_WRITE_STREAM_MAGIC
  | SFilesystemWriteStreamOpened => FILE_WRITE_STREAM_OPENED_MAGIC
  | SFilesystemWriteStreamChunk => FILE_WRITE_STREAM_CHUNK_MAGIC
  | SFilesystemWriteStreamCommit => FILE_WRITE_STREAM_COMMIT_MAGIC
  | SFilesystemPath => FILE_PATH_MAGIC
  | SFilesystemRename => FILE_RENAME_MAGIC
  | SFilesystemMutationResult => FILE_MUTATION_MAGIC
  | SCommandRunRequest => COMMAND_REQUEST_MAGIC
  | SCommandOpened => COMMAND_OPENED_MAGIC
  | SCommandEvent => COMMAND_EVENT_MAGIC
  | SHttpRequest => HTTP_REQUEST_MAGIC
  | SHttpResponse => HTTP_RESPONSE_MAGIC
  | SHttpStreamOpened => HTTP_STREAM_OPENED_MAGIC
  | SHttpStreamEvent => HTTP_STREAM_EVENT_MAGIC
  | SDbusCall => CALL_MAGIC
  | SDbusReply => REPLY_MAGIC
  | SDbusSubscription => SUBSCRIPTION_MAGIC
  | SDbusSubscriptionOpened => OPENED_MAGIC
  | SDbusPropertiesChanged => SIGNAL_MAGIC
  end.

Definition encode (s : Schema) : payload s -> result SchemaError (list N) :=
  match s with
  | SAppearancePublish => AppearancePublish_encode
  | SContextReadRequest => ContextReadRequest_encode
  | SContextSnapshot => ContextSnapshot_encode
  | SContextSubscriptionOpened => ContextSubscriptionOpened_encode
  | SClipboardReadRequest => ClipboardReadRequest_encode
  | SClipboardWriteRequest => ClipboardWriteRequest_encode
  | SClipboardValue => ClipboardValue_encode
  | SSecretReadRequest => SecretReadRequest_encode
  | SSecretValue => SecretValue_encode
  | SLocalConnect => LocalConnect_encode
  | SLocalConnectionOpened => LocalConnectionOpened_encode
  | SLocalSendFrame => LocalSendFrame_encode
  | SLocalFrameEvent => LocalFrameEvent_encode
  | SNotificationSend => NotificationSend_encode
  | SNotificationRemove => NotificationRemove_encode
  | SUriOpenRequest => UriOpenRequest_encode
  | SFilesystemReadFile => FilesystemReadFile_encode
  | SFilesystemReadStream => FilesystemReadStream_encode
  | SFilesystemStreamOpened => FilesystemStreamOpened_encode
  | SFilesystemStreamEvent => FilesystemStreamEvent_encode
  | SFilesystemFileChunk => FilesystemFileChunk_encode
  | SFilesystemListDirectory => FilesystemListDirectory_encode
  | SFilesystemDirectoryEntries => FilesystemDirectoryEntries_encode
  | SFilesystemWriteFile => FilesystemWriteFile_encode
  | SFilesystemWriteStream => FilesystemWriteStream_encode
  | SFilesystemWriteStreamOpened => FilesystemWriteStreamOpened_encode
  | SFilesystemWriteStreamChunk => FilesystemWriteStreamChunk_encode
  | SFilesystemWriteStreamCommit => FilesystemWriteStreamCommit_encode
  | SFilesystemPath => FilesystemPath_encode
  | SFilesystemRename => FilesystemRename_encode
  | SFilesystemMutationResult => FilesystemMutationResult_encode
  | SCommandRunRequest => CommandRunRequest_encode
  | SCommandOpened => CommandOpened_encode
  | SCommandEvent => CommandEvent_encode
  | SHttpRequest => HttpRequest_encode
  | SHttpResponse => HttpResponse_encode
  | SHttpStreamOpened => HttpStreamOpened_encode
  | SHttpStreamEvent => HttpStreamEvent_encode
  | SDbusCall => DbusCall_encode
  | SDbusReply => DbusReply_encode
  | SDbusSubscription => DbusSubscription_encode
  | SDbusSubscriptionOpened => DbusSubscriptionOpened_encode
  | SDbusPropertiesChanged => DbusPropertiesChanged_encode
  end.

Definition decode (s : Schema) : list N -> result SchemaError (payload s) :=
  match s with
  | SAppearancePublish => AppearancePublish_decode
  | SContextReadRequest => ContextReadRequest_decode
  | SContextSnapshot => ContextSnapshot_decode
  | SContextSubscriptionOpened => ContextSubscriptionOpened_decode
  | SClipboardReadRequest => ClipboardReadRequest_decode
  | SClipboardWriteRequest => ClipboardWriteRequest_decode
  | SClipboardValue => ClipboardValue_decode
  | SSecretReadRequest => SecretReadRequest_decode
  | SSecretValue => SecretValue_decode
  | SLocalConnect => LocalConnect_decode
  | SLocalConnectionOpened => LocalConnectionOpened_decode
  | SLocalSendFrame => LocalSendFrame_decode
  | SLocalFrameEvent => LocalFrameEvent_decode
  | SNotificationSend => NotificationSend_decode
  | SNotificationRemove => NotificationRemove_decode
  | SUriOpenRequest => UriOpenRequest_decode
  | SFilesystemReadFile => FilesystemReadFile_decode
  | SFilesystemReadStream => FilesystemReadStream_decode
  | SFilesystemStreamOpened => FilesystemStreamOpened_decode
  | SFilesystemStreamEvent => FilesystemStreamEvent_decode
  | SFilesystemFileChunk => FilesystemFileChunk_decode
  | SFilesystemListDirectory => FilesystemListDirectory_decode
  | SFilesystemDirectoryEntries => FilesystemDirectoryEntries_decode
  | SFilesystemWriteFile => FilesystemWriteFile_decode
  | SFilesystemWriteStream => FilesystemWriteStream_decode
  | SFilesystemWriteStreamOpened => FilesystemWriteStreamOpened_decode
  | SFilesystemWriteStreamChunk => FilesystemWriteStreamChunk_decode
  | SFilesystemWriteStreamCommit => FilesystemWriteStreamCommit_decode
  | SFilesystemPath => FilesystemPath_decode
  | SFilesystemRename => FilesystemRename_decode
  | SFilesystemMutationResult => FilesystemMutationResult_decode
  | SCommandRunRequest => CommandRunRequest_decode
  | SCommandOpened => CommandOpened_decode
  | SCommandEvent => CommandEvent_decode
  | SHttpRequest => HttpRequest_decode
  | SHttpResponse => HttpResponse_decode
  | SHttpStreamOpened => HttpStreamOpened_decode
  | SHttpStreamEvent => HttpStreamEvent_decode
  | SDbusCall => DbusCall_decode
  | SDbusReply => DbusReply_decode
  | SDbusSubscription => DbusSubscription_decode
  | SDbusSubscriptionOpened => DbusSubscriptionOpened_decode
  | SDbusPropertiesChanged => DbusPropertiesChanged_decode
  end.

(** The values Rust's types admit. *)
Definition good (s : Schema) : payload s -> Prop :=
  match s with
  | SAppearancePublish => AppearancePublish_good
  | SContextReadRequest => ContextReadRequest_good
  | SContextSnapshot => ContextSnapshot_good
  | SContextSubscriptionOpened => ContextSubscriptionOpened_good
  | SClipboardReadRequest => ClipboardReadRequest_good
  | SClipboardWriteRequest => ClipboardWriteRequest_good
  | SClipboardValue => ClipboardValue_good
  | SSecretReadRequest => SecretReadRequest_good
  | SSecretValue => SecretValue_good
  | SLocalConnect => LocalConnect_good
  | SLocalConnectionOpened => LocalConnectionOpened_good
  | SLocalSendFrame => LocalSendFrame_good
  | SLocalFrameEvent => LocalFrameEvent_good
  | SNotificationSend => NotificationSend_good
  | SNotificationRemove => NotificationRemove_good
  | SUriOpenRequest => UriOpenRequest_good
  | SFilesystemReadFile => FilesystemReadFile_good
  | SFilesystemReadStream => FilesystemReadStream_good
  | SFilesystemStreamOpened => FilesystemStreamOpened_good
  | SFilesystemStreamEvent => FilesystemStreamEvent_good
  | SFilesystemFileChunk => FilesystemFileChunk_good
  | SFilesystemListDirectory => FilesystemListDirectory_good
  | SFilesystemDirectoryEntries => FilesystemDirectoryEntries_good
  | SFilesystemWriteFile => FilesystemWriteFile_good
  | SFilesystemWriteStream => FilesystemWriteStream_good
  | SFilesystemWriteStreamOpened => FilesystemWriteStreamOpened_good
  | SFilesystemWriteStreamChunk => FilesystemWriteStreamChunk_good
  | SFilesystemWriteStreamCommit => FilesystemWriteStreamCommit_good
  | SFilesystemPath => FilesystemPath_good
  | SFilesystemRename => FilesystemRename_good
  | SFilesystemMutationResult => FilesystemMutationResult_good
  | SCommandRunRequest => CommandRunRequest_good
  | SCommandOpened => CommandOpened_good
  | SCommandEvent => CommandEvent_good
  | SHttpRequest => HttpRequest_good
  | SHttpResponse => HttpResponse_good
  | SHttpStreamOpened => HttpStreamOpened_good
  | SHttpStreamEvent => HttpStreamEvent_good
  | SDbusCall => DbusCall_good
  | SDbusReply => DbusReply_good
  | SDbusSubscription => DbusSubscription_good
  | SDbusSubscriptionOpened => DbusSubscriptionOpened_good
  | SDbusPropertiesChanged => DbusPropertiesChanged_good
  end.

(** The only payload whose encoding is not unique: a set of names may be sent
    in any order. *)
Definition canonical (s : Schema) : bool := negb (bool_decide (s = SContextReadRequest)).

Create HintDb schema.
#[export] Hint Resolve AppearancePublish_law ContextSnapshot_law ContextSubscriptionOpened_law
  ClipboardReadRequest_law ClipboardWriteRequest_law ClipboardValue_law SecretReadRequest_law
  SecretValue_law LocalConnect_law LocalConnectionOpened_law LocalSendFrame_law
  LocalFrameEvent_law NotificationSend_law NotificationRemove_law UriOpenRequest_law
  FilesystemReadFile_law FilesystemReadStream_law FilesystemStreamOpened_law
  FilesystemStreamEvent_law FilesystemFileChunk_law FilesystemListDirectory_law
  FilesystemDirectoryEntries_law FilesystemWriteFile_law FilesystemWriteStream_law
  FilesystemWriteStreamOpened_law FilesystemWriteStreamChunk_law FilesystemWriteStreamCommit_law
  FilesystemPath_law FilesystemRename_law FilesystemMutationResult_law CommandRunRequest_law
  CommandOpened_law CommandEvent_law HttpRequest_law HttpResponse_law HttpStreamOpened_law
  HttpStreamEvent_law DbusCall_law DbusReply_law DbusSubscription_law DbusSubscriptionOpened_law
  DbusPropertiesChanged_law : schema.

Lemma schema_law s : canonical s = true -> SchemaLaw (encode s) (decode s) (good s).
Proof. destruct s; first [discriminate|intros _; cbn [encode decode good]; auto with schema nocore]. Qed.

Lemma not_canonical s : canonical s = false -> s = SContextReadRequest.
Proof. unfold canonical. case_bool_decide; done. Qed.

Lemma schema_forth s v bs : good s v -> encode s v = Ok bs -> decode s bs = Ok v.
Proof.
  destruct (canonical s) eqn:Hc.
  - apply (sl_forth _ _ _ (schema_law s Hc)).
  - apply not_canonical in Hc as ->. apply ContextReadRequest_forth.
Qed.

Lemma schema_back s v bs :
  octets bs -> decode s bs = Ok v ->
  good s v /\ exists bs', encode s v = Ok bs' /\ bs' ≡ₚ bs /\ (canonical s = true -> bs' = bs).
Proof.
  intros Ho H. destruct (canonical s) eqn:Hc.
  - destruct (sl_back _ _ _ (schema_law s Hc) _ _ Ho H) as [Hg He]. split; [done|]. by exists bs.
  - apply not_canonical in Hc as ->.
    destruct (ContextReadRequest_back _ _ Ho H) as (Hg & bs' & He & Hp). split; [done|].
    by exists bs'.
Qed.

(** ** Magics *)

Lemma magic_inj s t : magic s = magic t -> s = t.
Proof. destruct s, t; first [reflexivity|discriminate]. Qed.

Lemma magic_length s : length (magic_bytes (magic s)) = 8.
Proof. by destruct s. Qed.

Lemma magic_bytes_inj m m' : magic_bytes m = magic_bytes m' -> m = m'.
Proof.
  unfold magic_bytes. intros H. by rewrite <- (bytes_string_bytes m), H, bytes_string_bytes.
Qed.

(** What every decoder does with its header. *)
Lemma dec_new_spec m bs :
  dec_new m bs =
    if (MAX_PAYLOAD_BYTES <? len bs)%N then Err LimitExceeded
    else if bool_decide (take (length (magic_bytes m)) bs = magic_bytes m)
         then Ok (drop (length (magic_bytes m)) bs) else Err Malformed.
Proof. unfold dec_new. destruct (MAX_PAYLOAD_BYTES <? len bs)%N; [done|]. by case_bool_decide. Qed.

(** [header s bs] is the header check of schema [s]. *)
Definition header (s : Schema) (bs : list N) : result SchemaError (list N) := dec_new (magic s) bs.

Lemma decode_header s bs e : header s bs = Err e -> decode s bs = Err e.
Proof.
  unfold header. destruct s; cbn [magic decode]; intros H;
    match goal with |- ?f _ = _ => unfold f end;
    unfold decode_context_snapshot, decode_with; by rewrite H.
Qed.

Lemma decode_magic s bs v : decode s bs = Ok v -> take 8 bs = magic_bytes (magic s) /\
  (len bs <= MAX_PAYLOAD_BYTES)%N.
Proof.
  intros H. destruct (header s bs) as [l|e] eqn:Hh; [|by rewrite (decode_header _ _ _ Hh) in H].
  unfold header in Hh. rewrite dec_new_spec, magic_length in Hh.
  destruct (N.ltb_spec MAX_PAYLOAD_BYTES (len bs)); [done|]. by case_bool_decide.
Qed.

(** ** The theorems *)

(** C13: Round trip: a value Rust's types admit that encodes
    at all is decoded back from its encoding; whatever a decoder accepts is
    such a value, and it encodes again, to the very packet it came from
    unless it is a set of fact names, and then to a permutation of it. *)
Theorem schema_roundtrip s v bs :
  octets bs ->
  (good s v /\ encode s v = Ok bs -> decode s bs = Ok v) /\
  (decode s bs = Ok v ->
   good s v /\ exists bs', encode s v = Ok bs' /\ bs' ≡ₚ bs /\ (canonical s = true -> bs' = bs)).
Proof. intros Ho. split; [intros []; by apply schema_forth|by apply schema_back]. Qed.

(** C14: Payloads are typed: what one decoder accepts, every
    decoder of another schema rejects as malformed, and no decoder accepts
    more than the payload limit. *)
Theorem schema_typed s t bs v :
  decode s bs = Ok v -> (len bs <= MAX_PAYLOAD_BYTES)%N /\ (t <> s -> decode t bs = Err Malformed).
Proof.
  intros [Hm Hl]%decode_magic. split; [done|]. intros Hne. apply decode_header.
  unfold header. rewrite dec_new_spec, magic_length, Hm.
  destruct (N.ltb_spec MAX_PAYLOAD_BYTES (len bs)); [lia|].
  case_bool_decide as E; [|done]. destruct Hne. symmetry.
  by apply magic_inj, magic_bytes_inj.
Qed.

Definition sample_uri : UriOpenRequest := {| uor_uri := "https://a" |}.
Definition sample_uri_bytes : list N := magic_bytes "OMURIOP1" ++ to_le 2 9 ++ string_bytes "https://a".

Example schema_roundtrip_witness :
  good SUriOpenRequest sample_uri /\ encode SUriOpenRequest sample_uri = Ok sample_uri_bytes /\
  decode SUriOpenRequest sample_uri_bytes = Ok sample_uri.
Proof.
  assert (good SUriOpenRequest sample_uri) as Hg by (vm_compute; reflexivity).
  assert (encode SUriOpenRequest sample_uri = Ok sample_uri_bytes) as He by (vm_compute; reflexivity).
  split; [exact Hg|]. split; [exact He|].
  apply (schema_roundtrip SUriOpenRequest sample_uri sample_uri_bytes); [|by split].
  apply (bool_decide_unpack _). vm_compute. exact I.
Defined.

Example schema_typed_witness :
  decode SUriOpenRequest sample_uri_bytes = Ok sample_uri /\
  decode SHttpRequest sample_uri_bytes = Err Malformed.
Proof.
  assert (decode SUriOpenRequest sample_uri_bytes = Ok sample_uri) as H by (vm_compute; reflexivity).
  split; [exact H|]. apply (schema_typed SUriOpenRequest SHttpRequest _ _ H). discriminate.
Defined.
