(* ===== verification/Address.v ===== *)
(** * Address: the network addresses a plugin's HTTP requests may reach

    Models [address_allowed], [ipv4_allowed] and [ipv6_allowed] of
    [crates/touchbar-plugin-supervisor/src/http.rs] with the parts of
    [std::net] they use, and states what they mean by address blocks. *)

From S2P Require Import Prelude BTree Text.
From Stdlib Require Import Btauto.

(** ** [std::net] *)

Record Ipv4Addr := { o0 : N; o1 : N; o2 : N; o3 : N }.
Record Ipv6Addr := { s0 : N; s1 : N; s2 : N; s3 : N; s4 : N; s5 : N; s6 : N; s7 : N }.
Inductive IpAddr := V4 (address : Ipv4Addr) | V6 (address : Ipv6Addr).
(** The flow information and scope of [SocketAddrV6] only order and
    distinguish addresses. *)
Inductive SocketAddr :=
| SocketV4 (address : Ipv4Addr) (port : N)
| SocketV6 (address : Ipv6Addr) (port flowinfo scope_id : N).
Definition sa_ip (a : SocketAddr) : IpAddr :=
  match a with SocketV4 address _ => V4 address | SocketV6 address _ _ _ => V6 address end.
Definition sa_port (a : SocketAddr) : N :=
  match a with SocketV4 _ port | SocketV6 _ port _ _ => port end.
(** [SocketAddr::new]. *)
Definition socket_addr (ip : IpAddr) (port : N) : SocketAddr :=
  match ip with V4 address => SocketV4 address port | V6 address => SocketV6 address port 0 0 end.

#[export] Instance Ipv4Addr_eq_dec : EqDecision Ipv4Addr. Proof. solve_decision. Defined.
#[export] Instance Ipv6Addr_eq_dec : EqDecision Ipv6Addr. Proof. solve_decision. Defined.
#[export] Instance IpAddr_eq_dec : EqDecision IpAddr. Proof. solve_decision. Defined.
#[export] Instance SocketAddr_eq_dec : EqDecision SocketAddr. Proof. solve_decision. Defined.

Definition v4_is_unspecified (a : Ipv4Addr) : bool :=
  ((o0 a =? 0) && (o1 a =? 0) && (o2 a =? 0) && (o3 a =? 0))%N.
Definition v4_is_multicast (a : Ipv4Addr) : bool := ((224 <=? o0 a) && (o0 a <=? 239))%N.
Definition v4_is_broadcast (a : Ipv4Addr) : bool :=
  ((o0 a =? 255) && (o1 a =? 255) && (o2 a =? 255) && (o3 a =? 255))%N.
Definition v4_is_private (a : Ipv4Addr) : bool :=
  ((o0 a =? 10) || (o0 a =? 172) && (16 <=? o1 a) && (o1 a <=? 31)
   || (o0 a =? 192) && (o1 a =? 168))%N.
Definition v4_is_loopback (a : Ipv4Addr) : bool := (o0 a =? 127)%N.
Definition v4_is_link_local (a : Ipv4Addr) : bool := ((o0 a =? 169) && (o1 a =? 254))%N.

Definition segments (a : Ipv6Addr) : list N :=
  [s0 a; s1 a; s2 a; s3 a; s4 a; s5 a; s6 a; s7 a].
Definition all_zero (l : list N) : bool := forallb (fun segment => segment =? 0)%N l.

Definition v6_is_unspecified (a : Ipv6Addr) : bool := all_zero (segments a).
Definition v6_is_multicast (a : Ipv6Addr) : bool := (N.land (s0 a) 0xff00 =? 0xff00)%N.
Definition v6_is_loopback (a : Ipv6Addr) : bool :=
  all_zero (take 7 (segments a)) && (s7 a =? 1)%N.

(** The address in two segments, most significant byte first; [as u8]. *)
Definition embedded_v4 (high low : N) : Ipv4Addr :=
  {| o0 := N.shiftr high 8 mod 256; o1 := high mod 256;
     o2 := N.shiftr low 8 mod 256; o3 := low mod 256 |}.
Definition to_ipv4_mapped (a : Ipv6Addr) : option Ipv4Addr :=
  if all_zero (take 5 (segments a)) && (s5 a =? 0xffff)%N
  then Some (embedded_v4 (s6 a) (s7 a)) else None.

(** *** Numeric values and order *)

Definition horner (b : N) (l : list N) : N := fold_left (fun v d => v * b + d)%N l 0%N.
Definition v4_value (a : Ipv4Addr) : N := horner 256 [o0 a; o1 a; o2 a; o3 a].
Definition v6_value (a : Ipv6Addr) : N := horner 65536 (segments a).

(** The order of [SocketAddr]: IPv4 first, then by address and port. *)
Definition socket_key (a : SocketAddr) : N * (N * (N * (N * N))) :=
  match a with
  | SocketV4 address port => (0, (v4_value address, (port, (0, 0))))
  | SocketV6 address port flowinfo scope_id => (1, (v6_value address, (port, (flowinfo, scope_id))))
  end%N.

(** *** [Display] *)

Definition v4_to_string (a : Ipv4Addr) : string :=
  pretty (o0 a) +:+ "." +:+ pretty (o1 a) +:+ "." +:+ pretty (o2 a) +:+ "." +:+ pretty (o3 a).

Definition hex_digit (d : N) : ascii := ascii_of_N (if (d <? 10)%N then 48 + d else 87 + d).
(** [{:x}] of a 16-bit value. *)
Definition lower_hex (v : N) : string :=
  let digits := [v / 4096; (v / 256) mod 16; (v / 16) mod 16; v mod 16]%N in
  let fix go (l : list N) :=
    match l with
    | [] => ""
    | [d] => String (hex_digit d) ""
    | d :: l' => if (d =? 0)%N then go l'
                 else foldr (fun d s => String (hex_digit d) s) "" l
    end in
  go digits.

(** The longest run of zero segments, the first of equals: start and length. *)
Fixpoint longest_zeros (l : list N) (i : nat) (current best : nat * nat) : nat * nat :=
  match l with
  | [] => best
  | segment :: l' =>
      if (segment =? 0)%N then
        let start := if (snd current =? 0)%nat then i else fst current in
        let current := (start, S (snd current)) in
        let best := if (snd best <? snd current)%nat then current else best in
        longest_zeros l' (S i) current best
      else longest_zeros l' (S i) (0, 0) best
  end.

Definition v6_to_string (a : Ipv6Addr) : string :=
  match to_ipv4_mapped a with
  | Some v4 => "::ffff:" +:+ v4_to_string v4
  | None =>
      let l := segments a in
      let '(start, count) := longest_zeros l 0 (0, 0) (0, 0) in
      let group l := join ":" (List.map lower_hex l) in
      if (1 <? count)%nat then group (take start l) +:+ "::" +:+ group (drop (start + count) l)
      else group l
  end.

Example display_examples :
  v4_to_string {| o0 := 192; o1 := 0; o2 := 2; o3 := 1 |} = "192.0.2.1" /\
  v6_to_string {| s0 := 0x2001; s1 := 0xdb8; s2 := 0; s3 := 0; s4 := 1; s5 := 0; s6 := 0; s7 := 1 |}
    = "2001:db8::1:0:0:1" /\
  v6_to_string {| s0 := 0; s1 := 0; s2 := 0; s3 := 0; s4 := 0; s5 := 0; s6 := 0; s7 := 1 |} = "::1" /\
  v6_to_string {| s0 := 0; s1 := 0; s2 := 0; s3 := 0; s4 := 0; s5 := 0xffff; s6 := 0xc000; s7 := 0x280 |}
    = "::ffff:192.0.2.128".
Proof. repeat split; vm_compute; reflexivity. Qed.

(** ** The policy *)

Definition ipv4_allowed (address : Ipv4Addr) (private_network : bool) : bool :=
  let a := o0 address in let b := o1 address in let c := o2 address in
  let always_forbidden :=
    v4_is_unspecified address || v4_is_multicast address || v4_is_broadcast address
    || (a =? 0)%N || (240 <=? a)%N in
  if always_forbidden then false
  else
    let non_public :=
      v4_is_private address || v4_is_loopback address || v4_is_link_local address
      || ((a =? 100) && ((64 <=? b) && (b <=? 127)))%N
      || ((a =? 192) && (b =? 0) && (c =? 0))%N
      || ((a =? 192) && (b =? 0) && (c =? 2))%N
      || ((a =? 198) && ((b =? 18) || (b =? 19)))%N
      || ((a =? 198) && (b =? 51) && (c =? 100))%N
      || ((a =? 203) && (b =? 0) && (c =? 113))%N in
    negb non_public || private_network.

Definition ipv6_allowed (address : Ipv6Addr) (private_network : bool) : bool :=
  if v6_is_unspecified address || v6_is_multicast address then false
  else if v6_is_loopback address then private_network
  else if all_zero (take 6 (segments address))
  then ipv4_allowed (embedded_v4 (s6 address) (s7 address)) private_network
  else if ((s0 address =? 0x64) && (s1 address =? 0xff9b))%N
          && all_zero (take 4 (drop 2 (segments address)))
  then ipv4_allowed (embedded_v4 (s6 address) (s7 address)) private_network
  else if (s0 address =? 0x2002)%N
  then ipv4_allowed (embedded_v4 (s1 address) (s2 address)) private_network
  else
    let non_public :=
      v6_is_loopback address
      || (N.land (s0 address) 0xfe00 =? 0xfc00)%N
      || (N.land (s0 address) 0xffc0 =? 0xfe80)%N
      || (N.land (s0 address) 0xffc0 =? 0xfec0)%N
      || ((s0 address =? 0x64) && (s1 address =? 0xff9b) && (s2 address =? 1))%N
      || ((s0 address =? 0x2001) && (s1 address =? 0xdb8))%N
      || (s0 address =? 0x100)%N && all_zero (drop 1 (segments address)) in
    negb non_public || private_network.

Definition address_allowed (address : IpAddr) (private_network : bool) : bool :=
  match address with
  | V4 address => ipv4_allowed address private_network
  | V6 address =>
      match to_ipv4_mapped address with
      | Some mapped => ipv4_allowed mapped private_network
      | None => ipv6_allowed address private_network
      end
  end.

(** ** What the policy means

    An address as a number, and blocks given by a base and a prefix length.
    The reserved blocks are those of the IANA special-purpose registries the
    code names. *)


Definition in_block (width v : N) (block : N * N) : bool :=
  (v / 2 ^ (width - snd block) =? fst block / 2 ^ (width - snd block))%N.

(** 0/8, 224/4, 240/4. *)
Definition unroutable4 : list (N * N) := [(0x00000000, 8); (0xe0000000, 4); (0xf0000000, 4)]%N.
(** 10/8, 172.16/12, 192.168/16, 127/8, 169.254/16, 100.64/10, 192.0.0/24,
    192.0.2/24, 198.18/15, 198.51.100/24, 203.0.113/24. *)
Definition special4 : list (N * N) :=
  [(0x0a000000, 8); (0xac100000, 12); (0xc0a80000, 16); (0x7f000000, 8); (0xa9fe0000, 16);
   (0x64400000, 10); (0xc0000000, 24); (0xc0000200, 24); (0xc6120000, 15); (0xc6336400, 24);
   (0xcb007100, 24)]%N.
(** fc00::/7, fe80::/10, fec0::/10, 64:ff9b:1::/48, 2001:db8::/32, 100::/128. *)
Definition special6 : list (N * N) :=
  [(0xfc00 * 2 ^ 112, 7); (0xfe80 * 2 ^ 112, 10); (0xfec0 * 2 ^ 112, 10);
   (0x64ff9b0001 * 2 ^ 80, 48); (0x20010db8 * 2 ^ 96, 32); (0x100 * 2 ^ 112, 128)]%N.

Definition routable4 (v : N) : bool := negb (existsb (in_block 32 v) unroutable4).
Definition public4 (v : N) : bool := negb (existsb (in_block 32 v) special4).

(** The IPv4 address inside an IPv4-mapped, IPv4-compatible, NAT64 or 6to4
    address. *)
Definition embedded (v : N) : option N :=
  if ((v / 2 ^ 32 =? 0xffff) || (v / 2 ^ 32 =? 0)
      || (v / 2 ^ 32 =? 0x64ff9b0000000000000000))%N then Some (v mod 2 ^ 32)%N
  else if (v / 2 ^ 112 =? 0x2002)%N then Some (v / 2 ^ 80 mod 2 ^ 32)%N
  else None.

Definition routable (ip : IpAddr) : bool :=
  match ip with
  | V4 a => routable4 (v4_value a)
  | V6 a =>
      let v := v6_value a in
      if (v =? 1)%N then true
      else match embedded v with
           | Some w => routable4 w
           | None => negb (v / 2 ^ 120 =? 0xff)%N
           end
  end.

Definition public (ip : IpAddr) : bool :=
  match ip with
  | V4 a => public4 (v4_value a)
  | V6 a =>
      let v := v6_value a in
      if (v =? 1)%N then false
      else match embedded v with
           | Some w => public4 w
           | None => negb (existsb (in_block 128 v) special6)
           end
  end.

(** The octets and segments are bytes and 16-bit values. *)
Definition ip_ok (ip : IpAddr) : Prop :=
  match ip with
  | V4 a => Forall (fun o => o < 256)%N [o0 a; o1 a; o2 a; o3 a]
  | V6 a => Forall (fun s => s < 65536)%N (segments a)
  end.

Lemma horner_app b l l' : horner b (l ++ l') = (horner b l * b ^ len l' + horner b l')%N.
Proof.
  unfold horner. rewrite fold_left_app. set (f := fun v d => (v * b + d)%N).
  assert (forall l v, fold_left f l v = (v * b ^ len l + fold_left f l 0)%N) as H.
  { clear. induction l as [|d l IH]; intros v; simpl; [unfold len; simpl; lia|].
    rewrite (IH (f v d)), (IH (f 0%N d)). unfold f. rewrite len_cons, N.pow_add_r, N.pow_1_r. lia. }
  by rewrite H.
Qed.

Lemma horner_bound b l : Forall (fun d => d < b)%N l -> (horner b l < b ^ len l)%N.
Proof.
  induction l as [|d l IH] using rev_ind; intros Hl.
  - unfold horner, len. simpl. lia.
  - apply Forall_app in Hl as [Hl Hd]. apply Forall_cons in Hd as [Hd _]. specialize (IH Hl).
    rewrite horner_app, len_app. change (len [d]) with 1%N. change (horner b [d]) with (0 * b + d)%N.
    rewrite N.pow_add_r, N.pow_1_r.
    assert ((horner b l + 1) * b <= b ^ len l * b)%N by (apply N.mul_le_mono_r; lia). lia.
Qed.

Lemma horner_div b l l' :
  Forall (fun d => d < b)%N l' -> (horner b (l ++ l') / b ^ len l' = horner b l)%N.
Proof.
  intros Hl. rewrite horner_app. apply horner_bound in Hl.
  rewrite N.div_add_l by lia. rewrite N.div_small by done. lia.
Qed.

Lemma horner_mod b l l' :
  Forall (fun d => d < b)%N l' -> (horner b (l ++ l') mod b ^ len l' = horner b l')%N.
Proof.
  intros Hl. rewrite horner_app. apply horner_bound in Hl.
  rewrite N.add_comm, N.Div0.mod_add. by apply N.mod_small.
Qed.

Lemma div_eq x d q : (0 < d)%N -> (x / d = q <-> d * q <= x < d * (q + 1))%N.
Proof.
  intros Hd. split; [intros <-|].
  - pose proof (N.div_mod x d ltac:(lia)) as E. pose proof (N.mod_lt x d ltac:(lia)) as L.
    rewrite N.mul_add_distr_l. generalize dependent (d * (x / d))%N.
    generalize dependent (x mod d)%N. lia.
  - intros [H1 H2]. symmetry. apply (N.div_unique x d q (x - d * q)); lia.
Qed.

Create Rewrite HintDb to_prop.
#[export] Hint Rewrite orb_true_iff andb_true_iff N.eqb_eq N.leb_le : to_prop.

(** An equality of numbers is a conjunction of conditions on their digits. *)
Ltac block :=
  apply eq_true_iff_eq; autorewrite with to_prop;
  rewrite ?(div_eq _ 16), ?(div_eq _ 64), ?(div_eq _ 2), ?(div_eq _ 512) by done; lia.

(** *** IPv4 *)

Section V4.
Context (a : Ipv4Addr) (Ha : Forall (fun o => o < 256)%N [o0 a; o1 a; o2 a; o3 a]).

(** The leading octets of the address as a number. *)
Lemma v4_prefix1 : (v4_value a / 2 ^ 24 = o0 a)%N.
Proof. apply (horner_div 256 [o0 a] [o1 a; o2 a; o3 a]). rewrite !Forall_cons in *. tauto. Qed.
Lemma v4_prefix2 : (v4_value a / 2 ^ 16 = o0 a * 256 + o1 a)%N.
Proof.
  apply (horner_div 256 [o0 a; o1 a] [o2 a; o3 a]). rewrite !Forall_cons in *. tauto.
Qed.
Lemma v4_prefix3 : (v4_value a / 2 ^ 8 = (o0 a * 256 + o1 a) * 256 + o2 a)%N.
Proof.
  apply (horner_div 256 [o0 a; o1 a; o2 a] [o3 a]). rewrite !Forall_cons in *. tauto.
Qed.

(** A prefix that ends inside an octet. *)
Lemma shorter_prefix v n k q : (v / 2 ^ n = q -> v / 2 ^ (n + k) = q / 2 ^ k)%N.
Proof. intros <-. by rewrite N.pow_add_r, N.Div0.div_div. Qed.

Lemma v4_blocks :
  routable4 (v4_value a) = negb ((o0 a =? 0) || ((224 <=? o0 a) && (o0 a <=? 239)) || (240 <=? o0 a))%N
  /\ public4 (v4_value a) = negb
    (v4_is_private a || v4_is_loopback a || v4_is_link_local a
      || ((o0 a =? 100) && ((64 <=? o1 a) && (o1 a <=? 127)))
      || ((o0 a =? 192) && (o1 a =? 0) && (o2 a =? 0))
      || ((o0 a =? 192) && (o1 a =? 0) && (o2 a =? 2))
      || ((o0 a =? 198) && ((o1 a =? 18) || (o1 a =? 19)))
      || ((o0 a =? 198) && (o1 a =? 51) && (o2 a =? 100))
      || ((o0 a =? 203) && (o1 a =? 0) && (o2 a =? 113)))%N.
Proof.
  pose proof (shorter_prefix _ 24 4 _ v4_prefix1) as P4.
  pose proof (shorter_prefix _ 16 4 _ v4_prefix2) as P12.
  pose proof (shorter_prefix _ 16 1 _ v4_prefix2) as P15.
  pose proof (shorter_prefix _ 16 6 _ v4_prefix2) as P10.
  pose proof v4_prefix1 as P8. pose proof v4_prefix2 as P16. pose proof v4_prefix3 as P24.
  unfold routable4, public4, in_block, unroutable4, special4, v4_is_private, v4_is_loopback,
    v4_is_link_local.
  cbn [existsb fst snd].
  change (32 - 8)%N with 24%N. change (32 - 4)%N with (24 + 4)%N. change (32 - 12)%N with (16 + 4)%N.
  change (32 - 16)%N with 16%N. change (32 - 10)%N with (16 + 6)%N. change (32 - 24)%N with 8%N.
  change (32 - 15)%N with (16 + 1)%N.
  rewrite P4, P8, P10, P12, P15, P16, P24. clear P4 P8 P10 P12 P15 P16 P24.
  rewrite !Forall_cons in Ha. destruct Ha as (H0 & H1 & H2 & H3 & _).
  set (a0 := o0 a) in *. set (a1 := o1 a) in *. set (a2 := o2 a) in *. clearbody a0 a1 a2.
  change (0 / 2 ^ 24)%N with 0%N.
  change (3758096384 / 2 ^ (24 + 4))%N with 14%N.
  change (4026531840 / 2 ^ (24 + 4))%N with 15%N.
  change (167772160 / 2 ^ 24)%N with 10%N.
  change (2886729728 / 2 ^ (16 + 4))%N with 2753%N.
  change (3232235520 / 2 ^ 16)%N with 49320%N.
  change (2130706432 / 2 ^ 24)%N with 127%N.
  change (2851995648 / 2 ^ 16)%N with 43518%N.
  change (1681915904 / 2 ^ (16 + 6))%N with 401%N.
  change (3221225472 / 2 ^ 8)%N with 12582912%N.
  change (3221225984 / 2 ^ 8)%N with 12582914%N.
  change (3323068416 / 2 ^ (16 + 1))%N with 25353%N.
  change (3325256704 / 2 ^ 8)%N with 12989284%N.
  change (3405803776 / 2 ^ 8)%N with 13303921%N.
  change (2 ^ 4)%N with 16%N. change (2 ^ 6)%N with 64%N. change (2 ^ 1)%N with 2%N.
  split; f_equal.
  - apply eq_true_iff_eq. autorewrite with to_prop. rewrite !(div_eq _ 16) by done. lia.
  - assert (((a0 * 256 + a1) / 16 =? 2753) = (a0 =? 172) && (16 <=? a1) && (a1 <=? 31))%N as ->
      by block.
    assert ((a0 * 256 + a1 =? 49320) = (a0 =? 192) && (a1 =? 168))%N as -> by block.
    assert ((a0 * 256 + a1 =? 43518) = (a0 =? 169) && (a1 =? 254))%N as -> by block.
    assert (((a0 * 256 + a1) / 64 =? 401) = (a0 =? 100) && ((64 <=? a1) && (a1 <=? 127)))%N as ->
      by block.
    assert (((a0 * 256 + a1) * 256 + a2 =? 12582912) = (a0 =? 192) && (a1 =? 0) && (a2 =? 0))%N
      as -> by block.
    assert (((a0 * 256 + a1) * 256 + a2 =? 12582914) = (a0 =? 192) && (a1 =? 0) && (a2 =? 2))%N
      as -> by block.
    assert (((a0 * 256 + a1) / 2 =? 25353) = (a0 =? 198) && ((a1 =? 18) || (a1 =? 19)))%N as ->
      by block.
    assert (((a0 * 256 + a1) * 256 + a2 =? 12989284) = (a0 =? 198) && (a1 =? 51) && (a2 =? 100))%N
      as -> by block.
    assert (((a0 * 256 + a1) * 256 + a2 =? 13303921) = (a0 =? 203) && (a1 =? 0) && (a2 =? 113))%N
      as -> by block.
    btauto.
Qed.
End V4.

Lemma ipv4_allowed_spec a p :
  Forall (fun o => o < 256)%N [o0 a; o1 a; o2 a; o3 a] ->
  ipv4_allowed a p = routable4 (v4_value a) && (public4 (v4_value a) || p).
Proof.
  intros Ha. destruct (v4_blocks a Ha) as [-> ->]. unfold ipv4_allowed.
  assert (v4_is_unspecified a || v4_is_multicast a || v4_is_broadcast a || (o0 a =? 0)
          || (240 <=? o0 a) = (o0 a =? 0) || ((224 <=? o0 a) && (o0 a <=? 239)) || (240 <=? o0 a))%N
    as ->.
  { unfold v4_is_unspecified, v4_is_multicast, v4_is_broadcast. block. }
  by destruct ((o0 a =? 0) || ((224 <=? o0 a) && (o0 a <=? 239)) || (240 <=? o0 a))%N.
Qed.

Lemma embedded_v4_spec high low :
  (high < 65536)%N -> (low < 65536)%N ->
  let a := embedded_v4 high low in
  Forall (fun o => o < 256)%N [o0 a; o1 a; o2 a; o3 a] /\ v4_value a = horner 65536 [high; low].
Proof.
  intros Hh Hl. unfold embedded_v4, v4_value, horner. cbn [fold_left o0 o1 o2 o3].
  rewrite !N.shiftr_div_pow2. change (2 ^ 8)%N with 256%N.
  assert (forall x, x < 65536 -> (x / 256) mod 256 = x / 256)%N as Hs.
  { intros x Hx. apply N.mod_small. by apply N.Div0.div_lt_upper_bound. }
  rewrite !Hs by done. split.
  - repeat (apply Forall_cons; split); try apply Forall_nil_2;
      first [by apply N.mod_lt|by apply N.Div0.div_lt_upper_bound].
  - pose proof (N.div_mod high 256 ltac:(done)). pose proof (N.div_mod low 256 ltac:(done)).
    revert H H0. generalize (high / 256)%N, (high mod 256)%N, (low / 256)%N, (low mod 256)%N.
    lia.
Qed.

(** *** IPv6 *)

(** Clearing the low bits of a 16-bit segment. *)
Lemma mask_spec s :
  (s < 65536)%N ->
  N.land s 0xff00 = (256 * (s / 256))%N /\ N.land s 0xfe00 = (512 * (s / 512))%N /\
  N.land s 0xffc0 = (64 * (s / 64))%N.
Proof.
  intros Hs.
  assert (forall k m, m = N.ldiff 0xffff (N.ones k) -> N.land s m = 2 ^ k * (s / 2 ^ k))%N as H.
  { intros k m ->. rewrite N.mul_comm, <- N.shiftl_mul_pow2, <- N.shiftr_div_pow2, <- N.ldiff_ones_r.
    apply N.bits_inj. intros i. rewrite N.land_spec, !N.ldiff_spec.
    destruct (N.testbit s i) eqn:Ht; [|done]. cbn [andb].
    assert (i < 16)%N as Hi.
    { destruct (N.lt_ge_cases i 16) as [|Hge]; [done|].
      rewrite (N.bits_above_log2 s i) in Ht; [done|].
      destruct (N.eq_dec s 0%N) as [->|Hne]; [rewrite N.bits_0 in Ht; done|].
      apply N.lt_le_trans with 16%N; [|done]. apply N.log2_lt_pow2; [lia|exact Hs]. }
    change 65535%N with (N.ones 16). by rewrite N.ones_spec_low. }
  split; [|split].
  - by apply (H 8%N).
  - by apply (H 9%N).
  - by apply (H 6%N).
Qed.

Section V6.
Context (a : Ipv6Addr) (Ha : Forall (fun s => s < 65536)%N (segments a)).

Lemma segment_bounds :
  (s0 a < 65536 /\ s1 a < 65536 /\ s2 a < 65536 /\ s3 a < 65536 /\
   s4 a < 65536 /\ s5 a < 65536 /\ s6 a < 65536 /\ s7 a < 65536)%N.
Proof. unfold segments in Ha. rewrite !Forall_cons in Ha. tauto. Qed.

Ltac bounded := pose proof segment_bounds; repeat (apply Forall_cons; split); [lia..|constructor].
Ltac prefix l l' := apply (horner_div 65536 l l'); bounded.

Lemma v6_prefix1 : (v6_value a / 2 ^ 112 = s0 a)%N.
Proof. prefix [s0 a] [s1 a; s2 a; s3 a; s4 a; s5 a; s6 a; s7 a]. Qed.
Lemma v6_prefix2 : (v6_value a / 2 ^ 96 = horner 65536 [s0 a; s1 a])%N.
Proof. prefix [s0 a; s1 a] [s2 a; s3 a; s4 a; s5 a; s6 a; s7 a]. Qed.
Lemma v6_prefix3 : (v6_value a / 2 ^ 80 = horner 65536 [s0 a; s1 a; s2 a])%N.
Proof. prefix [s0 a; s1 a; s2 a] [s3 a; s4 a; s5 a; s6 a; s7 a]. Qed.
Lemma v6_prefix6 : (v6_value a / 2 ^ 32 = horner 65536 [s0 a; s1 a; s2 a; s3 a; s4 a; s5 a])%N.
Proof. prefix [s0 a; s1 a; s2 a; s3 a; s4 a; s5 a] [s6 a; s7 a]. Qed.
Lemma v6_suffix2 : (v6_value a mod 2 ^ 32 = horner 65536 [s6 a; s7 a])%N.
Proof.
  apply (horner_mod 65536 [s0 a; s1 a; s2 a; s3 a; s4 a; s5 a] [s6 a; s7 a]).
  bounded.
Qed.
Lemma v6_middle2 : (v6_value a / 2 ^ 80 mod 2 ^ 32 = horner 65536 [s1 a; s2 a])%N.
Proof.
  rewrite v6_prefix3. apply (horner_mod 65536 [s0 a] [s1 a; s2 a]).
  bounded.
Qed.

Ltac digits :=
  pose proof segment_bounds; apply eq_true_iff_eq; unfold all_zero, segments, horner;
  cbn [forallb take drop fold_left andb]; autorewrite with to_prop; lia.

Lemma v6_conditions :
  let v := v6_value a in
  (v =? 1)%N = v6_is_loopback a /\
  (v =? 0)%N = v6_is_unspecified a /\
  (v / 2 ^ 32 =? 0xffff)%N = all_zero (take 5 (segments a)) && (s5 a =? 0xffff)%N /\
  (v / 2 ^ 32 =? 0)%N = all_zero (take 6 (segments a)) /\
  (v / 2 ^ 32 =? 0x64ff9b0000000000000000)%N =
    ((s0 a =? 0x64) && (s1 a =? 0xff9b))%N && all_zero (take 4 (drop 2 (segments a))) /\
  (v / 2 ^ 120 =? 0xff)%N = v6_is_multicast a /\
  existsb (in_block 128 v) special6 =
    (N.land (s0 a) 0xfe00 =? 0xfc00)%N || (N.land (s0 a) 0xffc0 =? 0xfe80)%N
    || (N.land (s0 a) 0xffc0 =? 0xfec0)%N
    || ((s0 a =? 0x64) && (s1 a =? 0xff9b) && (s2 a =? 1))%N
    || ((s0 a =? 0x2001) && (s1 a =? 0xdb8))%N
    || (s0 a =? 0x100)%N && all_zero (drop 1 (segments a)).
Proof.
  intros v. subst v.
  pose proof (shorter_prefix _ 112 8 _ v6_prefix1) as P8.
  pose proof (shorter_prefix _ 112 9 _ v6_prefix1) as P7.
  pose proof (shorter_prefix _ 112 6 _ v6_prefix1) as P10.
  change (112 + 8)%N with 120%N in P8. change (112 + 9)%N with 121%N in P7.
  change (112 + 6)%N with 118%N in P10.
  destruct (mask_spec (s0 a)) as (M8 & M9 & M6); [apply segment_bounds|].
  rewrite v6_prefix6, P8. unfold v6_is_multicast. rewrite M8.
  split_and!.
  - unfold v6_is_loopback, v6_value. digits.
  - unfold v6_is_unspecified, v6_value. digits.
  - digits.
  - digits.
  - digits.
  - change (2 ^ 8)%N with 256%N. generalize (s0 a / 256)%N. intros q. apply eq_true_iff_eq.
    autorewrite with to_prop. lia.
  - unfold special6, in_block. cbn [existsb fst snd].
    change (128 - 7)%N with 121%N. change (128 - 10)%N with 118%N. change (128 - 48)%N with 80%N.
    change (128 - 32)%N with 96%N. change (2 ^ (128 - 128))%N with 1%N.
    rewrite P7, P10, v6_prefix3, v6_prefix2, M9, M6, !N.div_1_r.
    change (0xfc00 * 2 ^ 112 / 2 ^ 121)%N with 126%N. change (2 ^ 9)%N with 512%N.
    change (0xfe80 * 2 ^ 112 / 2 ^ 118)%N with 1018%N. change (2 ^ 6)%N with 64%N.
    change (0xfec0 * 2 ^ 112 / 2 ^ 118)%N with 1019%N.
    change (0x64ff9b0001 * 2 ^ 80 / 2 ^ 80)%N with 433785077761%N.
    change (0x20010db8 * 2 ^ 96 / 2 ^ 96)%N with 536939960%N.
    assert (forall q c, (512 * q =? 512 * c) = (q =? c))%N as E9 by (intros; block).
    assert (forall q c, (64 * q =? 64 * c) = (q =? c))%N as E6 by (intros; block).
    change 0xfc00%N with (512 * 126)%N. change 0xfe80%N with (64 * 1018)%N.
    change 0xfec0%N with (64 * 1019)%N. rewrite E9, !E6.
    assert ((horner 65536 [s0 a; s1 a; s2 a] =? 433785077761) =
            (s0 a =? 0x64) && (s1 a =? 0xff9b) && (s2 a =? 1))%N as -> by digits.
    assert ((horner 65536 [s0 a; s1 a] =? 536939960) =
            (s0 a =? 0x2001) && (s1 a =? 0xdb8))%N as -> by digits.
    assert ((v6_value a =? 0x100 * 2 ^ 112)%N =
            (s0 a =? 0x100)%N && all_zero (drop 1 (segments a))) as ->.
    { unfold v6_value. change (0x100 * 2 ^ 112)%N with 0x1000000000000000000000000000000%N. digits. }
    btauto.
Qed.
End V6.

Lemma embedded_allowed high low p :
  (high < 65536)%N -> (low < 65536)%N ->
  ipv4_allowed (embedded_v4 high low) p =
    routable4 (horner 65536 [high; low]) && (public4 (horner 65536 [high; low]) || p).
Proof.
  intros Hh Hl. destruct (embedded_v4_spec high low Hh Hl) as [Hb <-]. by apply ipv4_allowed_spec.
Qed.

(** The address policy: an address is accepted exactly when
    it lies in no unroutable block and, unless the grant covers private
    networks, in no special-purpose block, where an IPv6 address that carries
    an IPv4 address is judged by the address it carries. *)
Theorem address_policy ip p :
  ip_ok ip -> address_allowed ip p = routable ip && (public ip || p).
Proof.
  destruct ip as [a|a]; cbn [ip_ok address_allowed routable public]; intros Ha;
    [by apply ipv4_allowed_spec|].
  destruct (v6_conditions a Ha) as (E1 & E0 & Em & Ec & En & Eu & Es).
  pose proof (segment_bounds a Ha) as Hb.
  pose proof (v6_suffix2 a Ha) as H2. pose proof (v6_middle2 a Ha) as Hmid.
  pose proof (v6_prefix1 a Ha) as H1.
  unfold to_ipv4_mapped, ipv6_allowed, embedded. rewrite <- Em, <- Ec, <- En, <- Eu, <- E1, <- E0.
  rewrite H1, H2, Hmid, Es. clear E1 E0 Em Ec En Es Hmid.
  set (v := v6_value a) in *.
  destruct (N.eqb_spec (v / 2 ^ 32) 0xffff) as [Hm|Hm]; cbn [orb].
  { rewrite embedded_allowed by tauto. destruct (N.eqb_spec v 1) as [->|_]; [done|]. done. }
  destruct (N.eqb_spec v 1) as [->|Hv1].
  { by destruct p. }
  destruct (N.eqb_spec v 0) as [Hv0|Hv0]; cbn [orb].
  { rewrite <- H2, Hv0. done. }
  destruct (N.eqb_spec (v / 2 ^ 32) 0) as [Hc|Hc]; cbn [orb].
  { rewrite embedded_allowed by tauto.
    destruct (N.eqb_spec (v / 2 ^ 120) 0xff) as [Hu|_]; [|done].
    exfalso. change (2 ^ 120)%N with (2 ^ 32 * 2 ^ 88)%N in Hu.
    rewrite <- N.Div0.div_div, Hc in Hu. done. }
  destruct (N.eqb_spec (v / 2 ^ 32) 0x64ff9b0000000000000000) as [Hn|Hn].
  { rewrite embedded_allowed by tauto.
    destruct (N.eqb_spec (v / 2 ^ 120) 0xff) as [Hu|_]; [|done].
    exfalso. change (2 ^ 120)%N with (2 ^ 32 * 2 ^ 88)%N in Hu.
    rewrite <- N.Div0.div_div, Hn in Hu. done. }
  destruct (N.eqb_spec (s0 a) 0x2002) as [H6|H6].
  { rewrite embedded_allowed by tauto.
    destruct (N.eqb_spec (v / 2 ^ 120) 0xff) as [Hu|_]; [|done].
    exfalso. change (2 ^ 120)%N with (2 ^ 112 * 2 ^ 8)%N in Hu.
    rewrite <- N.Div0.div_div, H1, H6 in Hu. done. }
  destruct (v / 2 ^ 120 =? 0xff)%N; [done|]. done.
Qed.

Example address_policy_witness :
  ip_ok (V4 {| o0 := 192; o1 := 168; o2 := 0; o3 := 1 |}) /\
  address_allowed (V4 {| o0 := 192; o1 := 168; o2 := 0; o3 := 1 |}) false = false.
Proof.
  assert (ip_ok (V4 {| o0 := 192; o1 := 168; o2 := 0; o3 := 1 |})) as H
    by (repeat (apply Forall_cons; split); [reflexivity..|constructor]).
  split; [exact H|]. rewrite (address_policy _ false H). vm_compute. reflexivity.
Defined.

(** The discard-only block is 100::/64 (RFC 6666); the policy recognises only
    its first address. *)
Theorem discard_prefix_reachable :
  let a := {| s0 := 0x100; s1 := 0; s2 := 0; s3 := 0; s4 := 0; s5 := 0; s6 := 0; s7 := 1 |} in
  (v6_value a / 2 ^ 64 = 0x100 * 2 ^ 112 / 2 ^ 64)%N /\ address_allowed (V6 a) false = true.
Proof. split; vm_compute; reflexivity. Qed.
