(* ===== verification/Quota.v ===== *)
(** * Quota: the durable rolling quota of a capability

    Models [PersistentQuota] of
    [crates/touchbar-plugin-supervisor/src/filesystem_write.rs]: the record of
    the newest tick and sixty slots, its file form, and [reserve] with its
    clock, which may go backwards, and its file operations, which may fail
    before or after the new record replaced the old one.  Locks, permissions
    and the temporary file are system calls.  Ticks are below [u64::MAX]. *)

From S2P Require Import Prelude BTree Text Wire Protocol.

Definition QUOTA_SLOTS : nat := 60.
Definition QUOTA_RECORD_BYTES : N := 16 + 60 * 8.
Definition QUOTA_RECORD_MAGIC : list N := string_bytes "OTBWQ002".

Record QuotaRecord := { qr_latest_tick : N; qr_slots : list N }.

(** [PersistentQuota::new]: the slot length of a window. *)
Definition seconds_per_slot (window_seconds : N) : option N :=
  if (window_seconds <? 60)%N || negb (window_seconds mod 60 =? 0)%N then None
  else Some (window_seconds / 60)%N.

Fixpoint read_slots (count : nat) (bytes : list N) : list N :=
  match count with
  | O => []
  | S count' => from_le (take 8 bytes) :: read_slots count' (drop 8 bytes)
  end.

Definition read_record (file : option (list N)) : result BrokerErrorCode (option QuotaRecord) :=
  match file with
  | None => Ok None
  | Some bytes =>
      if negb (len bytes =? QUOTA_RECORD_BYTES)%N then Err EInternal
      else if negb (bool_decide (take 8 bytes = QUOTA_RECORD_MAGIC)) then Err EInternal
      else Ok (Some {| qr_latest_tick := from_le (take 8 (drop 8 bytes));
                       qr_slots := read_slots QUOTA_SLOTS (drop 16 bytes) |})
  end.

Definition write_slots (slots : list N) : list N := flat_map (to_le 8) slots.
Definition record_bytes (record : QuotaRecord) : list N :=
  QUOTA_RECORD_MAGIC ++ to_le 8 (qr_latest_tick record) ++ write_slots (qr_slots record).

(** How writing and renaming the temporary file can end. *)
Inductive WriteOutcome := Written | NotWritten | WrittenNotSynced.

Definition write_record (outcome : WriteOutcome) (record : QuotaRecord) (file : option (list N))
  : option (list N) * result BrokerErrorCode () :=
  match outcome with
  | Written => (Some (record_bytes record), Ok ())
  | NotWritten => (file, Err EInternal)
  | WrittenNotSynced => (Some (record_bytes record), Err EInternal)
  end.

Definition slot_of (tick : N) : nat := N.to_nat (tick mod 60).

(** [for tick in first..first + count { slots[tick % QUOTA_SLOTS] = 0 }]. *)
Fixpoint clear_slots (first : N) (count : nat) (slots : list N) : list N :=
  match count with
  | O => slots
  | S count' => clear_slots (first + 1) count' (<[slot_of first := 0%N]> slots)
  end.

(** The record brought forward to the clock, and the tick to charge: a clock
    that went backwards charges the newest known slot. *)
Definition advance (current_tick : N) (record : QuotaRecord) : QuotaRecord * N :=
  if (qr_latest_tick record <=? current_tick)%N then
    let elapsed := (current_tick - qr_latest_tick record)%N in
    let slots :=
      if (60 <=? elapsed)%N then replicate (length (qr_slots record)) 0%N
      else clear_slots (qr_latest_tick record + 1) (N.to_nat elapsed) (qr_slots record) in
    ({| qr_latest_tick := current_tick; qr_slots := slots |}, current_tick)
  else (record, qr_latest_tick record).

Definition checked_sum (slots : list N) : option N :=
  fold_left (fun total value => t ← total; checked_add64 t value) slots (Some 0%N).

(** The charge itself: the tick charged and the new record. *)
Definition charge (current_tick bytes maximum : N) (record : option QuotaRecord)
  : result BrokerErrorCode (N * QuotaRecord) :=
  let record := default {| qr_latest_tick := current_tick;
                           qr_slots := replicate QUOTA_SLOTS 0%N |} record in
  let '(record, effective_tick) := advance current_tick record in
  used ← ok_or EQuotaExceeded (checked_sum (qr_slots record));
  next ← ok_or EQuotaExceeded (checked_add64 used bytes);
  _ ← reject_if (maximum <? next)%N EQuotaExceeded;
  let slot := slot_of effective_tick in
  value ← ok_or EQuotaExceeded (checked_add64 (nth slot (qr_slots record) 0%N) bytes);
  Ok (effective_tick, {| qr_latest_tick := qr_latest_tick record;
                         qr_slots := <[slot := value]> (qr_slots record) |}).

Definition reserve (slot_seconds now_seconds : N) (outcome : WriteOutcome) (bytes maximum : N)
    (file : option (list N)) : option (list N) * result BrokerErrorCode () :=
  let current_tick := (now_seconds / slot_seconds)%N in
  match (record ← read_record file; charge current_tick bytes maximum record) with
  | Ok (_, record) => write_record outcome record file
  | Err e => (file, Err e)
  end.

(** ** The file form of a record *)

Definition record_ok (record : QuotaRecord) : Prop :=
  (qr_latest_tick record <= u64_max)%N /\ length (qr_slots record) = 60 /\
  Forall (fun v => v <= u64_max)%N (qr_slots record).

Lemma u64_le8 v : (v <= u64_max)%N -> from_le (to_le 8 v) = v.
Proof. intros. apply from_to_le. unfold u64_max in *. simpl. lia. Qed.

Lemma read_write_slots slots :
  Forall (fun v => v <= u64_max)%N slots -> read_slots (length slots) (write_slots slots) = slots.
Proof.
  induction 1 as [|v slots Hv Hs IH]; [done|]. cbn [length read_slots write_slots flat_map].
  assert (length (to_le 8 v) = 8) as Hl by apply length_to_le.
  rewrite take_app_length', drop_app_length' by done. rewrite u64_le8 by done.
  change (flat_map (to_le 8) slots) with (write_slots slots). by rewrite IH.
Qed.

Lemma length_write_slots slots : length (write_slots slots) = 8 * length slots.
Proof.
  induction slots as [|v slots IH]; [done|]. cbn [write_slots flat_map length].
  rewrite length_app, length_to_le. change (flat_map (to_le 8) slots) with (write_slots slots).
  rewrite IH. lia.
Qed.

(** A record survives its file. *)
Lemma read_record_bytes record :
  record_ok record -> read_record (Some (record_bytes record)) = Ok (Some record).
Proof.
  intros (Ht & Hl & Hs). destruct record as [tick slots]. cbn [qr_latest_tick qr_slots] in *.
  unfold read_record, record_bytes. cbn [qr_latest_tick qr_slots].
  assert (length QUOTA_RECORD_MAGIC = 8) as Hm by done.
  assert (length (to_le 8 tick) = 8) as Ht8 by apply length_to_le.
  assert (len (QUOTA_RECORD_MAGIC ++ to_le 8 tick ++ write_slots slots) = QUOTA_RECORD_BYTES) as ->.
  { unfold len. rewrite !length_app, Hm, Ht8, length_write_slots, Hl. done. }
  rewrite N.eqb_refl. cbn [negb]. rewrite take_app_length' by done. rewrite bool_decide_true by done.
  cbn [negb]. repeat f_equal.
  - rewrite drop_app_length', take_app_length', u64_le8 by done. done.
  - rewrite app_assoc, drop_app_length' by (by rewrite length_app, Hm, Ht8).
    unfold QUOTA_SLOTS. rewrite <- Hl. by apply read_write_slots.
Qed.

(** ** The rolling window

    The charges made so far, oldest first: the tick charged and the bytes. *)

Definition in_window (t tick : N) : bool := ((tick <=? t) && (t <? tick + 60))%N.

(** What was charged in the sixty ticks up to [t]. *)
Definition window (t : N) (charges : list (N * N)) : N :=
  sumN (omap (fun c => if in_window t c.1 then Some c.2 else None) charges).

(** The part of the window in slot [j]. *)
Definition slot_sum (t : N) (j : nat) (charges : list (N * N)) : N :=
  sumN (omap (fun c => if in_window t c.1 && (slot_of c.1 =? j)%nat then Some c.2 else None) charges).

Definition slots_inv (latest : N) (slots : list N) (charges : list (N * N)) : Prop :=
  length slots = 60 /\ Forall (fun c => c.1 <= latest)%N charges /\
  forall j, j < 60 -> nth j slots 0%N = slot_sum latest j charges.

Lemma slot_of_bound tick : slot_of tick < 60.
Proof. unfold slot_of. pose proof (N.mod_lt tick 60 ltac:(done)). lia. Qed.

Lemma sumN_slots_add (f g : nat -> N) l :
  sumN ((fun j => f j + g j)%N <$> l) = (sumN (f <$> l) + sumN (g <$> l))%N.
Proof. induction l as [|j l IH]; [done|]. rewrite !fmap_cons. simpl. lia. Qed.

Lemma sumN_indicator (k : nat) (b : N) n :
  k < n -> sumN ((fun j => if (k =? j)%nat then b else 0%N) <$> seq 0 n) = b.
Proof.
  induction n as [|n IH]; intros Hk; [lia|]. rewrite seq_S, fmap_app, sumN_app. cbn [fmap list_fmap Nat.add].
  assert (forall m, m <= k -> sumN ((fun j => if (k =? j)%nat then b else 0%N) <$> seq 0 m) = 0%N) as Hz.
  { intros m Hm. induction m as [|m IHm]; [done|].
    rewrite seq_S, fmap_app, sumN_app, IHm by lia. simpl. destruct (Nat.eqb_spec k m); lia. }
  destruct (Nat.eqb_spec k n) as [->|Hne].
  - rewrite Hz by lia. simpl. lia.
  - rewrite IH by lia. simpl. lia.
Qed.

(** The slots together hold the window. *)
Lemma sum_slot_sums t charges : sumN ((fun j => slot_sum t j charges) <$> seq 0 60) = window t charges.
Proof.
  induction charges as [|[k b] charges IH].
  - unfold slot_sum. by vm_compute.
  - assert (forall j, slot_sum t j ((k, b) :: charges) =
      ((if (slot_of k =? j)%nat then (if in_window t k then b else 0) else 0)
       + slot_sum t j charges)%N) as Hs.
    { intros j. unfold slot_sum. cbn [omap list_omap fst snd].
      destruct (in_window t k), (slot_of k =? j)%nat; simpl; lia. }
    rewrite (list_fmap_ext _ _ _ (fun _ j _ => Hs j)), sumN_slots_add, IH.
    rewrite sumN_indicator by apply slot_of_bound.
    unfold window. cbn [omap list_omap fst snd]. by destruct (in_window t k).
Qed.

Lemma slots_total latest slots charges :
  slots_inv latest slots charges -> sumN slots = window latest charges.
Proof.
  intros (Hl & _ & Hs). rewrite <- sum_slot_sums. f_equal. apply list_eq. intros j.
  rewrite list_lookup_fmap. destruct (decide (j < 60)) as [Hj|Hj].
  - rewrite lookup_seq_lt by done. simpl. rewrite <- (Hs j Hj).
    destruct (lookup_lt_is_Some_2 slots j ltac:(lia)) as [v Hv]. rewrite Hv.
    by rewrite (nth_lookup_Some _ _ _ _ Hv).
  - rewrite lookup_seq_ge, lookup_ge_None_2 by lia. done.
Qed.

Lemma checked_sum_Some slots v : checked_sum slots = Some v -> v = sumN slots.
Proof.
  unfold checked_sum.
  assert (forall l s, fold_left (fun total value => t ← total; checked_add64 t value) l s = Some v ->
    exists s0, s = Some s0 /\ v = (s0 + sumN l)%N) as H.
  { induction l as [|a l IH]; intros s Hs; simpl in *; [exists v; split; [done|lia]|].
    apply IH in Hs as (s1 & Hs1 & ->). destruct s as [s0|]; [|done]. simpl in Hs1.
    apply checked_add64_Some in Hs1 as [_ ->]. exists s0. split; [done|lia]. }
  intros (s0 & [= <-] & ->)%H. lia.
Qed.

(** *** Bringing the record forward *)

Lemma slots_inv_step latest slots charges :
  slots_inv latest slots charges ->
  slots_inv (latest + 1) (<[slot_of (latest + 1) := 0%N]> slots) charges.
Proof.
  intros (Hl & Hc & Hs). split; [by rewrite length_insert|]. split.
  { eapply Forall_impl; [exact Hc|]. simpl. lia. }
  intros j Hj. destruct (decide (slot_of (latest + 1) = j)) as [<-|Hne].
  - rewrite nth_lookup, list_lookup_insert_eq by (rewrite Hl; apply slot_of_bound). simpl.
    unfold slot_sum. symmetry. clear Hs. induction Hc as [|[k b] charges Hk Hc IH]; [done|].
    cbn [omap list_omap fst snd] in *. unfold in_window at 1.
    destruct (N.leb_spec k (latest + 1)), (N.ltb_spec (latest + 1) (k + 60)),
      (Nat.eqb_spec (slot_of k) (slot_of (latest + 1))) as [E|E]; cbn [andb]; try apply IH.
    exfalso. unfold slot_of in E. apply N2Nat.inj in E.
    zify. Z.to_euclidean_division_equations. lia.
  - rewrite nth_lookup, list_lookup_insert_ne, <- nth_lookup, Hs by done.
    unfold slot_sum. clear Hs. induction Hc as [|[k b] charges Hk Hc IH]; [done|].
    cbn [omap list_omap fst snd] in *.
    assert (in_window latest k && (slot_of k =? j)%nat =
            in_window (latest + 1) k && (slot_of k =? j)%nat) as <-; [|by case_match; simpl; rewrite ?IH].
    unfold in_window. destruct (Nat.eqb_spec (slot_of k) j) as [E|_]; [|by rewrite !andb_false_r].
    rewrite !andb_true_r. subst j. unfold slot_of in Hne.
    destruct (N.leb_spec k latest), (N.leb_spec k (latest + 1)), (N.ltb_spec latest (k + 60)),
      (N.ltb_spec (latest + 1) (k + 60)); try done; try lia.
    exfalso. apply Hne. f_equal. zify. Z.to_euclidean_division_equations. lia.
Qed.

Lemma slots_inv_clear count latest slots charges :
  slots_inv latest slots charges ->
  slots_inv (latest + N.of_nat count) (clear_slots (latest + 1) count slots) charges.
Proof.
  revert latest slots. induction count as [|count IH]; intros latest slots H; cbn [clear_slots].
  - by rewrite N.add_0_r.
  - apply slots_inv_step, IH in H.
    by replace (latest + N.of_nat (S count))%N with (latest + 1 + N.of_nat count)%N by lia.
Qed.

Lemma slots_inv_expired latest current charges :
  Forall (fun c => c.1 <= latest)%N charges -> (latest + 60 <= current)%N ->
  slots_inv current (replicate 60 0%N) charges.
Proof.
  intros Hc Hle. split; [apply length_replicate|]. split.
  { eapply Forall_impl; [exact Hc|]. simpl. lia. }
  intros j Hj. rewrite nth_lookup, lookup_replicate_2 by done. simpl. symmetry. unfold slot_sum.
  induction Hc as [|[k b] charges Hk Hc IH]; [done|]. cbn [omap list_omap fst snd] in *.
  unfold in_window. destruct (N.ltb_spec current (k + 60)); [lia|]. rewrite andb_false_r. exact IH.
Qed.

Lemma slots_inv_fresh current : slots_inv current (replicate 60 0%N) [].
Proof.
  split; [apply length_replicate|]. split; [constructor|].
  intros j Hj. by rewrite nth_lookup, lookup_replicate_2.
Qed.

Lemma advance_inv current record charges record' tick :
  slots_inv (qr_latest_tick record) (qr_slots record) charges ->
  advance current record = (record', tick) ->
  tick = qr_latest_tick record' /\ (qr_latest_tick record <= tick)%N /\
  slots_inv (qr_latest_tick record') (qr_slots record') charges.
Proof.
  intros Hinv. unfold advance. destruct (N.leb_spec (qr_latest_tick record) current) as [Hle|Hlt].
  - intros [= <- <-]. cbn [qr_latest_tick qr_slots]. split; [done|]. split; [done|].
    destruct (N.leb_spec 60 (current - qr_latest_tick record)).
    + destruct Hinv as (-> & Hc & _). eapply slots_inv_expired; [done|lia].
    + replace current with (qr_latest_tick record + N.of_nat (N.to_nat (current - qr_latest_tick record)))%N
        at 1 by lia. by apply slots_inv_clear.
  - intros [= <- <-]. done.
Qed.

Lemma slots_inv_charge latest slots charges bytes :
  slots_inv latest slots charges ->
  slots_inv latest (<[slot_of latest := (nth (slot_of latest) slots 0 + bytes)%N]> slots)
    (charges ++ [(latest, bytes)]).
Proof.
  intros (Hl & Hc & Hs). split; [by rewrite length_insert|]. split.
  { apply Forall_app. split; [done|]. constructor; [simpl; lia|constructor]. }
  intros j Hj. unfold slot_sum. rewrite omap_app, sumN_app. cbn [omap list_omap fst snd].
  fold (slot_sum latest j charges). rewrite <- (Hs j Hj). unfold in_window at 1.
  destruct (N.leb_spec latest latest); [|lia]. destruct (N.ltb_spec latest (latest + 60)); [|lia].
  destruct (Nat.eqb_spec (slot_of latest) j) as [<-|Hne]; cbn [andb sumN foldr].
  - rewrite nth_lookup, list_lookup_insert_eq by (rewrite Hl; apply slot_of_bound). simpl. lia.
  - rewrite !nth_lookup, list_lookup_insert_ne by done. simpl. lia.
Qed.

Definition quota_inv (record : QuotaRecord) (charges : list (N * N)) : Prop :=
  slots_inv (qr_latest_tick record) (qr_slots record) charges.

(** A charge enters the window and keeps it within the maximum. *)
Lemma charge_Ok current bytes maximum record charges tick record' :
  (forall r, record = Some r -> quota_inv r charges) -> (record = None -> charges = []) ->
  charge current bytes maximum record = Ok (tick, record') ->
  tick = qr_latest_tick record' /\ quota_inv record' (charges ++ [(tick, bytes)]) /\
  Forall (fun c => c.1 <= tick)%N charges /\
  (window tick (charges ++ [(tick, bytes)]) <= maximum)%N.
Proof.
  intros Hsome Hnone H. unfold charge in H.
  set (r := default _ record) in H.
  assert (quota_inv r charges) as Hr.
  { subst r. destruct record as [r|]; cbn [default from_option id]; [by apply Hsome|].
    rewrite Hnone by done. apply slots_inv_fresh. }
  destruct (advance current r) as [r1 eff] eqn:Ha.
  apply (advance_inv _ _ charges) in Ha as (-> & Hle & Hinv); [|done].
  inv_ok. cbn [qr_latest_tick].
  pose proof (slots_total _ _ _ Hinv) as Htot.
  match goal with H1 : checked_sum _ = Some _, H2 : checked_add64 ?u bytes = Some ?n,
    H3 : checked_add64 (nth _ _ _) _ = Some _ |- _ =>
    apply checked_sum_Some in H1; apply checked_add64_Some in H2 as [_ H2];
    apply checked_add64_Some in H3 as [_ ->] end.
  subst. apply N.ltb_ge in Hok1.
  pose proof Hinv as (_ & Hc & _).
  split; [done|]. split; [by apply slots_inv_charge|]. split; [done|].
  unfold window in *. rewrite omap_app, sumN_app, <- Htot. cbn [omap list_omap fst snd].
  unfold in_window. destruct (N.leb_spec (qr_latest_tick r1) (qr_latest_tick r1)); [|lia].
  destruct (N.ltb_spec (qr_latest_tick r1) (qr_latest_tick r1 + 60)); [|lia]. simpl. lia.
Qed.

(** ** Histories *)

Record Attempt := {
  at_now_seconds : N; at_outcome : WriteOutcome; at_bytes : N; at_maximum : N }.

(** What an attempt charges: nothing when it is refused or its record never
    replaced the old one. *)
Definition charged (slot_seconds : N) (a : Attempt) (file : option (list N)) : list (N * N) :=
  match (record ← read_record file;
         charge (at_now_seconds a / slot_seconds) (at_bytes a) (at_maximum a) record),
        at_outcome a with
  | Ok (tick, _), (Written | WrittenNotSynced) => [(tick, at_bytes a)]
  | _, _ => []
  end.

Definition attempt (slot_seconds : N) (a : Attempt) (file : option (list N))
  : option (list N) * result BrokerErrorCode () :=
  reserve slot_seconds (at_now_seconds a) (at_outcome a) (at_bytes a) (at_maximum a) file.

Fixpoint history (slot_seconds : N) (attempts : list Attempt) (file : option (list N))
    (charges : list (N * N)) : option (list N) * list (N * N) :=
  match attempts with
  | [] => (file, charges)
  | a :: rest =>
      history slot_seconds rest (attempt slot_seconds a file).1
        (charges ++ charged slot_seconds a file)
  end.

Definition file_inv (file : option (list N)) (charges : list (N * N)) : Prop :=
  match file with
  | None => charges = []
  | Some bytes => exists r, bytes = record_bytes r /\ record_ok r /\ quota_inv r charges
  end.

Lemma Forall_clear (P : N -> Prop) first count slots :
  P 0%N -> Forall P slots -> Forall P (clear_slots first count slots).
Proof.
  intros H0. revert first slots. induction count as [|count IH]; intros first slots Hs; [done|].
  cbn [clear_slots]. apply IH. by apply Forall_insert.
Qed.

Lemma advance_values (P : N -> Prop) current record :
  P 0%N -> Forall P (qr_slots record) -> Forall P (qr_slots (advance current record).1).
Proof.
  intros H0 Hs. unfold advance. destruct (_ <=? _)%N; [|done]. cbn [fst qr_slots].
  destruct (_ <=? _)%N; [by apply Forall_replicate|by apply Forall_clear].
Qed.

Lemma charge_record_ok current bytes maximum record charges tick record' :
  (current <= u64_max)%N -> (forall r, record = Some r -> record_ok r) ->
  (forall r, record = Some r -> quota_inv r charges) -> (record = None -> charges = []) ->
  charge current bytes maximum record = Ok (tick, record') -> record_ok record'.
Proof.
  intros Hc Hok Hinv Hnone H.
  pose proof (charge_Ok _ _ _ _ _ _ _ Hinv Hnone H) as (_ & (Hlen & _) & _).
  unfold charge in H. set (r := default _ record) in H.
  assert (record_ok r \/ (qr_latest_tick r = current /\ Forall (fun v => v <= u64_max)%N (qr_slots r)))
    as Hr.
  { subst r. destruct record as [r|]; cbn [default from_option id qr_latest_tick qr_slots].
    - left. by apply Hok.
    - right. split; [done|]. by apply Forall_replicate. }
  assert ((qr_latest_tick r <= u64_max)%N /\ Forall (fun v => v <= u64_max)%N (qr_slots r)) as [Ht Hs].
  { destruct Hr as [(? & ? & ?)|[-> ?]]; done. }
  pose proof (advance_values (fun v => v <= u64_max)%N current r ltac:(done) Hs) as Hv.
  assert ((qr_latest_tick (advance current r).1 <= u64_max)%N) as Hl.
  { unfold advance. by destruct (_ <=? _)%N. }
  destruct (advance current r) as [r1 eff]. cbn [fst] in *. inv_ok.
  match goal with H3 : checked_add64 (nth _ _ _) _ = Some _ |- _ =>
    apply checked_add64_Some in H3 as [Hb ->] end.
  split; [done|]. split; [done|]. cbn [qr_slots] in *. apply Forall_insert; [done|done].
Qed.

Lemma file_inv_read file charges :
  file_inv file charges ->
  exists record, read_record file = Ok record /\ (forall r, record = Some r -> record_ok r) /\
    (forall r, record = Some r -> quota_inv r charges) /\ (record = None -> charges = []).
Proof.
  destruct file as [bytes|]; cbn [file_inv].
  - intros (r & -> & Hok & Hinv). exists (Some r). split; [by apply read_record_bytes|].
    split_and!; [by intros ? [= <-]|by intros ? [= <-]|done].
  - intros ->. by exists None.
Qed.

Lemma attempt_inv slot_seconds a file charges :
  file_inv file charges -> (at_now_seconds a / slot_seconds <= u64_max)%N ->
  file_inv (attempt slot_seconds a file).1 (charges ++ charged slot_seconds a file) /\
  (charged slot_seconds a file = [] \/ exists tick,
     charged slot_seconds a file = [(tick, at_bytes a)] /\ Forall (fun c => c.1 <= tick)%N charges /\
     (window tick (charges ++ [(tick, at_bytes a)]) <= at_maximum a)%N) /\
  ((attempt slot_seconds a file).2 = Ok () -> charged slot_seconds a file <> []).
Proof.
  intros Hf Hn. destruct (file_inv_read _ _ Hf) as (record & Hr & Hok & Hinv & Hnone).
  unfold attempt, charged, reserve. rewrite Hr. cbn [mbind result_bind].
  destruct (charge _ _ _ record) as [[tick record']|e] eqn:Hch.
  2:{ cbn. rewrite app_nil_r. split; [done|]. split; [by left|done]. }
  pose proof (charge_record_ok _ _ _ _ _ _ _ Hn Hok Hinv Hnone Hch) as Hok'.
  pose proof (charge_Ok _ _ _ _ _ _ _ Hinv Hnone Hch) as (_ & Hq & Hle & Hw).
  destruct (at_outcome a); cbn [write_record fst snd file_inv].
  - split; [by exists record'|]. split; [right; by exists tick|done].
  - rewrite app_nil_r. split; [done|]. split; [by left|done].
  - split; [by exists record'|]. split; [right; by exists tick|done].
Qed.

Lemma window_le t tick charges :
  Forall (fun c => c.1 <= tick)%N charges -> (tick <= t)%N ->
  (window t charges <= window tick charges)%N.
Proof.
  intros Hc Ht. unfold window. induction Hc as [|[k b] charges Hk Hc IH]; [done|].
  cbn [omap list_omap fst snd] in *.
  assert (in_window t k = true -> in_window tick k = true) as Himp.
  { unfold in_window. rewrite !andb_true_iff, !N.leb_le, !N.ltb_lt. lia. }
  destruct (in_window t k), (in_window tick k); simpl; try lia.
Qed.

Lemma window_charge t tick bytes charges maximum :
  Forall (fun c => c.1 <= tick)%N charges ->
  (window tick (charges ++ [(tick, bytes)]) <= maximum)%N ->
  (forall t, window t charges <= maximum)%N ->
  (window t (charges ++ [(tick, bytes)]) <= maximum)%N.
Proof.
  intros Hc Hw Hall. destruct (in_window t tick) eqn:Hin.
  - unfold in_window in Hin. apply andb_true_iff in Hin as [Hle _]. apply N.leb_le in Hle.
    etrans; [|exact Hw]. apply window_le; [|done]. apply Forall_app. split; [done|].
    constructor; [simpl; lia|constructor].
  - unfold window in *. rewrite omap_app, sumN_app. cbn [omap list_omap fst snd]. rewrite Hin.
    simpl. rewrite N.add_0_r. apply Hall.
Qed.

(** C15: The rolling quota: along every history of attempts
    that starts without a record, with any clock readings and any failures of
    the file operations, what was charged in any sixty consecutive ticks never
    exceeds the largest maximum asked for, every accepted attempt was charged
    its bytes, and the record is never rejected when it is read back. *)
Theorem quota_window slot_seconds attempts maximum file charges :
  Forall (fun a => (at_now_seconds a / slot_seconds <= u64_max)%N /\
                   (at_maximum a <= maximum)%N) attempts ->
  history slot_seconds attempts None [] = (file, charges) ->
  (forall t, window t charges <= maximum)%N /\
  is_ok (read_record file) = true /\
  forall a, (at_now_seconds a / slot_seconds <= u64_max)%N ->
    (attempt slot_seconds a file).2 = Ok () ->
    exists tick, charged slot_seconds a file = [(tick, at_bytes a)].
Proof.
  assert (forall attempts f cs, Forall (fun a => (at_now_seconds a / slot_seconds <= u64_max)%N /\
      (at_maximum a <= maximum)%N) attempts ->
    file_inv f cs -> (forall t, window t cs <= maximum)%N ->
    history slot_seconds attempts f cs = (file, charges) ->
    file_inv file charges /\ forall t, (window t charges <= maximum)%N) as H.
  { clear attempts. intros attempts. induction attempts as [|a attempts IH]; intros f cs Hall Hf Hw Hh.
    { by injection Hh as -> ->. }
    apply Forall_cons in Hall as [[Hn Hm] Hall]. cbn [history] in Hh.
    destruct (attempt_inv slot_seconds a f cs Hf Hn) as (Hf' & Hc & _).
    eapply IH; [done|exact Hf'| |exact Hh].
    destruct Hc as [->|(tick & -> & Hle & Hb)]; [by rewrite app_nil_r|].
    intros t. apply window_charge; [done|lia|done]. }
  intros Hall Hh. destruct (H attempts None [] Hall eq_refl ltac:(intros; unfold window; simpl; lia) Hh)
    as [Hf Hw].
  split; [done|]. destruct (file_inv_read _ _ Hf) as (record & Hr & _). split; [by rewrite Hr|].
  intros a Hn Ha. destruct (attempt_inv slot_seconds a file charges Hf Hn) as (_ & Hc & Hne).
  destruct Hc as [Hc|(tick & Hc & _)]; [by destruct (Hne Ha)|by exists tick].
Qed.

Definition sample_attempts : list Attempt :=
  [{| at_now_seconds := 100; at_outcome := Written; at_bytes := 4; at_maximum := 6 |};
   {| at_now_seconds := 30; at_outcome := Written; at_bytes := 2; at_maximum := 6 |};
   {| at_now_seconds := 120; at_outcome := WrittenNotSynced; at_bytes := 1; at_maximum := 6 |};
   {| at_now_seconds := 161; at_outcome := WrittenNotSynced; at_bytes := 5; at_maximum := 6 |}].

Example quota_window_witness :
  (history 1 sample_attempts None []).2 = [(100, 4); (100, 2); (161, 5)]%N /\
  (window 161 (history 1 sample_attempts None []).2 <= 6)%N.
Proof.
  split; [vm_compute; reflexivity|].
  refine (proj1 (quota_window 1 sample_attempts 6 _ _ _ (surjective_pairing _)) 161%N).
  unfold sample_attempts. repeat (apply Forall_cons; split); try (split; vm_compute; discriminate).
  constructor.
Defined.
