(* ===== verification/Web.v ===== *)
(** * Web: what the request backends share

    The error a malformed payload becomes, the consumption of the activation
    a request names, and the comparison of a URL with the origins of a scope,
    which [http.rs] and [desktop.rs] of
    [crates/touchbar-plugin-supervisor/src] repeat.  The [url] crate is the
    interface [UrlCrate]; no property of it is assumed. *)

From S2P Require Import Prelude BTree Text Capability Wire Protocol Lifecycle Executor Payload Address.

Definition schema_error (e : SchemaError) : BrokerErrorCode :=
  match e with Malformed => EInvalidRequest | LimitExceeded => EQuotaExceeded end.

(** [value.decode().map_err(schema_error)]. *)
Definition decoded {A} (r : result SchemaError A) : result BrokerErrorCode A :=
  map_err schema_error r.

(** The activation of the request, consumed under its own surface, item and
    widget: what the backends that need a user action do. *)
Definition consume_own {Identity} (request : BackendRequest Identity) (ledger : Activation.ActivationLedger) (now : N)
  : Activation.ActivationLedger * result BrokerErrorCode ActivationOrigin :=
  match bk_activation request with
  | None => (ledger, Err EActivationRequired)
  | Some a =>
      Activation.consume ledger (Some a)
        {| Activation.ae_surface_instance := ac_surface_instance a;
           Activation.ae_item_id := ac_item_id a;
           Activation.ae_widget_id := ac_widget_id a;
           Activation.ae_now_monotonic_micros := now |}
  end.

(** The request under another scope. *)
Definition with_scope {Identity} (scope : CapabilityScope) (request : BackendRequest Identity)
  : BackendRequest Identity :=
  {| bk_identity := bk_identity request; bk_request_id := bk_request_id request;
     bk_capability := bk_capability request; bk_authorized_scope := scope;
     bk_bindings := bk_bindings request; bk_activation := bk_activation request;
     bk_operation := bk_operation request; bk_payload := bk_payload request |}.

(** ** URLs *)

Inductive Host := Domain (host : string) | Ipv4Host (address : Ipv4Addr) | Ipv6Host (address : Ipv6Addr).

Class UrlCrate := {
  Url : Type;
  Url_parse : string -> option Url;
  Url_join : Url -> string -> option Url;
  Url_scheme : Url -> string;
  Url_username : Url -> string;
  Url_password : Url -> option string;
  Url_fragment : Url -> option string;
  Url_cannot_be_a_base : Url -> bool;
  Url_host : Url -> option Host;
  Url_port_or_known_default : Url -> option N;
  Url_path : Url -> string;
  Url_as_str : Url -> string;
}.

Definition is_some {A} (o : option A) : bool := match o with Some _ => true | None => false end.
Definition is_none {A} (o : option A) : bool := negb (is_some o).

Definition path_allowed (origin : HttpOriginRule) (path : string) : bool :=
  bool_decide (ho_path_prefixes origin = [])
  || existsb (fun prefix => starts_with path prefix) (ho_path_prefixes origin).

Definition dangerous_encoded_path (path : string) : bool :=
  let lowercase := to_ascii_lowercase path in
  contains lowercase "%2f" || contains lowercase "%5c" || contains lowercase "%2e"
  || contains lowercase "%00".

Section Urls.
Context {U : UrlCrate}.

Definition host_text (host : Host) : string :=
  match host with
  | Domain host => host
  | Ipv4Host host => v4_to_string host
  | Ipv6Host host => v6_to_string host
  end.
Definition canonical_url_host (url : Url) : option string := host_text <$> Url_host url.

(** The test of one origin of a scope against a URL. *)
Definition origin_matches (scheme host : string) (port : N) (path : string)
  (origin : HttpOriginRule) : bool :=
  String.eqb (ho_scheme origin) scheme && String.eqb (ho_host origin) host
  && (ho_port origin =? port)%N && path_allowed origin path.
End Urls.

(** ** Origins cover origins *)

Lemma is_some_true {A} (o : option A) : is_some o = true <-> exists a, o = Some a.
Proof. destruct o; simpl; naive_solver. Qed.

Lemma is_none_true {A} (o : option A) : is_none o = true <-> o = None.
Proof. destruct o; simpl; naive_solver. Qed.

Lemma path_allowed_narrow new old path :
  path_prefixes_subset (ho_path_prefixes new) (ho_path_prefixes old) = true ->
  path_allowed new path = true -> path_allowed old path = true.
Proof.
  unfold path_prefixes_subset, path_allowed.
  case_bool_decide as Ho; [done|]. b2p. rewrite forallb_True', !existsb_True'.
  intros [Hn Hsub] [?|(p & Hp & Hs)]; [done|]. right.
  destruct (proj1 (existsb_True' _ _) (Hsub p Hp)) as (q & Hq & Hpq).
  exists q. split; [done|]. by eapply starts_with_trans.
Qed.

Lemma origins_narrow new old scheme host port path :
  origins_subset new old = true ->
  existsb (origin_matches scheme host port path) new = true ->
  existsb (origin_matches scheme host port path) old = true.
Proof.
  unfold origins_subset, origin_matches. rewrite forallb_True', !existsb_True'.
  intros Hsub (o & Ho & Hm). destruct (proj1 (existsb_True' _ _) (Hsub o Ho)) as (a & Ha & Hoa).
  exists a. split; [done|]. b2p. rewrite !String.eqb_eq, !N.eqb_eq in *.
  destruct Hm as [[[H1 H2] H3] H4], Hoa as [[[H5 H6] H7] H8].
  repeat split; try congruence. by eapply path_allowed_narrow.
Qed.

(** ** A small URL crate for examples: [https://host/path], no more *)

Record SampleUrl := { su_host : string; su_path : string }.

Fixpoint before_slash (s : string) : string * string :=
  match s with
  | "" => ("", "/")
  | String c s' =>
      if Ascii.eqb c "/" then ("", s)
      else let '(host, path) := before_slash s' in (String c host, path)
  end.

Definition sample_parse (s : string) : option SampleUrl :=
  rest ← strip_prefix "https://" s;
  let '(host, path) := before_slash rest in Some {| su_host := host; su_path := path |}.

#[export] Instance sample_url_crate : UrlCrate := {|
  Url := SampleUrl;
  Url_parse := sample_parse;
  Url_join := fun _ location => sample_parse location;
  Url_scheme := fun _ => "https";
  Url_username := fun _ => "";
  Url_password := fun _ => None;
  Url_fragment := fun _ => None;
  Url_cannot_be_a_base := fun _ => false;
  Url_host := fun url => Some (Domain (su_host url));
  Url_port_or_known_default := fun _ => Some 443%N;
  Url_path := su_path;
  Url_as_str := fun url => "https://" +:+ su_host url +:+ su_path url;
|}.
