(* ===== verification/Desktop.v ===== *)
(** * Desktop: notifications and opening of URIs

    Models the request backends of
    [crates/touchbar-plugin-supervisor/src/desktop.rs]: decoding, scope checks,
    admission and execution.  The desktop portal itself is a transport whose
    answer is an argument; an execution returns the call it made, if any.
    [before] and [after] are what the cancellation token answers at its two
    uses. *)

From S2P Require Import Prelude BTree Text Capability Grants Wire Protocol Lifecycle Executor Payload SchemaDesktop Address Web Quota.

Module Notification.

Definition NOTIFICATION_SEND_OPERATION : string := "send".
Definition NOTIFICATION_REMOVE_OPERATION : string := "remove".

Inductive NotificationAuthorization := SendAuthorized (maximum_per_minute : N) | RemoveAuthorized.
Inductive NotificationOperation :=
| SendOperation (notification : SchemaDesktop.NotificationSend) (scope : NotificationScope)
| RemoveOperation (id : string).

Definition valid_kebab_id (value : string) : bool :=
  negb (String.eqb value "") && (slen value <=? 64)%N
  && negb (starts_with value "-") && negb (ends_with value "-")
  && all_bytes (fun byte => is_ascii_lowercase byte || is_ascii_digit byte
                            || Ascii.eqb byte "-") value.

Definition directional (c : N) : bool :=
  ((c =? 0x061c) || (c =? 0x200e) || (c =? 0x200f) || (0x202a <=? c) && (c <=? 0x202e)
   || (0x2066 <=? c) && (c <=? 0x2069))%N.
Definition safe_notification_text (value : string) (allow_layout : bool) : bool :=
  forallb (fun character =>
    let allowed_control := allow_layout && ((character =? 10) || (character =? 9))%N in
    (negb (is_control character) || allowed_control) && negb (directional character)) (chars value).

Definition policy_urgency (u : NotificationUrgencyValue) : NotificationUrgency :=
  match u with
  | UrgencyLow => LowUrgency | UrgencyNormal => NormalUrgency | UrgencyCritical => CriticalUrgency
  end.

Section Backend.
Context {Identity : Type}.
Implicit Types request : BackendRequest Identity.

Definition decode_notification request : result BrokerErrorCode NotificationOperation :=
  _ ← reject_if (negb (bool_decide (bk_capability request = NotificationSendV1))) EInvalidRequest;
  match bk_authorized_scope request with
  | Capability.NotificationSend scope =>
      if String.eqb (bk_operation request) NOTIFICATION_SEND_OPERATION then
        notification ← decoded (NotificationSend_decode (bk_payload request));
        _ ← reject_if (negb (valid_kebab_id (ns_id notification))
                       || negb (elem_b (ns_category notification) (ns_categories scope))
                       || String.eqb (ns_title notification) ""
                       || negb (safe_notification_text (ns_title notification) false)
                       || negb (safe_notification_text (ns_body notification) true))
              EInvalidRequest;
        _ ← reject_if (negb (elem_b (policy_urgency (ns_urgency notification))
                                    (Capability.ns_urgency scope))) EOutOfScope;
        Ok (SendOperation notification scope)
      else if String.eqb (bk_operation request) NOTIFICATION_REMOVE_OPERATION then
        remove ← decoded (NotificationRemove_decode (bk_payload request));
        _ ← reject_if (negb (valid_kebab_id (nr_id remove))) EInvalidRequest;
        Ok (RemoveOperation (nr_id remove))
      else Err EInvalidRequest
  | _ => Err EInvalidRequest
  end.

Definition authorize_notification_request request
  : result BrokerErrorCode NotificationAuthorization :=
  operation ← decode_notification request;
  match operation with
  | SendOperation _ scope => Ok (SendAuthorized (ns_maximum_per_minute scope))
  | RemoveOperation _ => Ok RemoveAuthorized
  end.

(** A rolling quota's refusal is a rate limit here. *)
Definition rate_limited (e : BrokerErrorCode) : BrokerErrorCode :=
  match e with EQuotaExceeded => ERateLimited | e => e end.

(** [Backend::authorize]; the quota file is the backend's state. *)
Definition authorize (now_seconds : N) (outcome : WriteOutcome) request (file : option (list N))
  : option (list N) * result BrokerErrorCode () :=
  match authorize_notification_request request with
  | Err e => (file, Err e)
  | Ok (SendAuthorized maximum_per_minute) =>
      let '(file, r) := reserve 1 now_seconds outcome 1 maximum_per_minute file in
      (file, map_err rate_limited r)
  | Ok RemoveAuthorized => (file, Ok ())
  end.

Inductive Call :=
| PortalSend (id source : string) (notification : SchemaDesktop.NotificationSend)
| PortalRemove (id : string).

(** [id_prefix] is [otb_] and half the digest of the source. *)
Definition portal_id (id_prefix id : string) : string := id_prefix +:+ "_" +:+ id.

Definition execute (id_prefix source : string) (before after : option BrokerErrorCode)
  (transport : Call -> result BrokerErrorCode ()) request : option Call * BrokerResult :=
  match before with
  | Some reason => (None, BrokerError reason)
  | None =>
      match decode_notification request with
      | Err e => (None, BrokerError e)
      | Ok operation =>
          let call :=
            match operation with
            | SendOperation notification _ =>
                PortalSend (portal_id id_prefix (ns_id notification)) source notification
            | RemoveOperation id => PortalRemove (portal_id id_prefix id)
            end in
          (Some call,
           match transport call, after with
           | Err e, _ => BrokerError e
           | Ok _, Some reason => BrokerError reason
           | Ok _, None => Success []
           end)
      end
  end.
End Backend.
End Notification.

Module Uri.

Definition URI_OPEN_OPERATION : string := "open".

Section Backend.
Context {Identity : Type} {U : UrlCrate}.
Implicit Types request : BackendRequest Identity.

Definition authorize_web_uri (scope : UriOpenScope) (uri : Url) : result BrokerErrorCode () :=
  _ ← reject_if (negb (String.eqb (Url_username uri) "") || is_some (Url_password uri)
                 || Url_cannot_be_a_base uri || is_none (Url_host uri)
                 || contains_byte (Url_as_str uri) "\" || dangerous_encoded_path (Url_path uri))
        EInvalidRequest;
  if bool_decide (uo_origins scope = []) then Ok ()
  else
    host ← ok_or EInvalidRequest (canonical_url_host uri);
    port ← ok_or EInvalidRequest (Url_port_or_known_default uri);
    reject_if (negb (existsb (origin_matches (Url_scheme uri) host port (Url_path uri))
                             (uo_origins scope))) EOutOfScope.

Definition control_byte (c : ascii) : bool := ((byte_of c <? 32) || (byte_of c =? 127))%N.

Definition authorize_uri request : result BrokerErrorCode Url :=
  _ ← reject_if (negb (bool_decide (bk_capability request = UriOpenV1))
                 || negb (String.eqb (bk_operation request) URI_OPEN_OPERATION)) EInvalidRequest;
  wire ← decoded (UriOpenRequest_decode (bk_payload request));
  match bk_authorized_scope request with
  | UriOpen scope =>
      uri ← ok_or EInvalidRequest (Url_parse (uor_uri wire));
      _ ← reject_if (negb (elem_b (Url_scheme uri) (uo_schemes scope))) EOutOfScope;
      _ ← (if String.eqb (Url_scheme uri) "http" || String.eqb (Url_scheme uri) "https"
           then authorize_web_uri scope uri
           else if String.eqb (Url_scheme uri) "mailto"
           then reject_if (negb (bool_decide (uo_origins scope = []))
                           || negb (Url_cannot_be_a_base uri)
                           || any_byte control_byte (uor_uri wire)) EInvalidRequest
           else Err EUnsupported);
      Ok uri
  | _ => Err EInvalidRequest
  end.

(** [Backend::authorize]. *)
Definition authorize request (ledger : Activation.ActivationLedger) (now : N)
  : Activation.ActivationLedger * result BrokerErrorCode () :=
  match authorize_uri request with
  | Err e => (ledger, Err e)
  | Ok _ =>
      let '(ledger, r) := consume_own request ledger now in
      (ledger, r ≫= fun _ => Ok ())
  end.

(** The call is the text handed to the portal. *)
Definition execute (before after : option BrokerErrorCode)
  (transport : string -> result BrokerErrorCode ()) request : option string * BrokerResult :=
  match before with
  | Some reason => (None, BrokerError reason)
  | None =>
      match authorize_uri request with
      | Err e => (None, BrokerError e)
      | Ok uri =>
          (Some (Url_as_str uri),
           match transport (Url_as_str uri), after with
           | Err e, _ => BrokerError e
           | Ok _, Some reason => BrokerError reason
           | Ok _, None => Success []
           end)
      end
  end.
End Backend.
End Uri.
