(* ===== verification/Personal.v ===== *)
(** * Personal: clipboard, secrets, context facts, local sockets

    Models the request backends of [clipboard.rs], [secret.rs], [context.rs]
    and [local.rs] under
    [crates/touchbar-plugin-supervisor/src]: decoding, scope checks, admission,
    and what an execution asks its transport.  The compositor, the secret
    service and sockets are transports whose answers are arguments. *)

From S2P Require Import Prelude BTree Text Capability Grants Wire Protocol Lifecycle Executor Payload SchemaDesktop Address Web Quota Desktop.

(** [usize::try_from(value).min(limit)]; [usize] holds every [u64]. *)
Definition effective_limit (value limit : N) : N := N.min value limit.

Module Clipboard.

Definition CLIPBOARD_READ_OPERATION : string := "read".
Definition CLIPBOARD_WRITE_OPERATION : string := "write".

Inductive ClipboardAuthorization :=
| ReadAuthorized (maximum_bytes maximum_operations_per_minute : N)
| WriteAuthorized (maximum_bytes maximum_operations_per_minute : N).
Definition maximum_operations_per_minute (a : ClipboardAuthorization) : N :=
  match a with ReadAuthorized _ m | WriteAuthorized _ m => m end.

Inductive ClipboardOperation :=
| Read (value : ClipboardReadRequest) (scope : ClipboardScope) (binding : ClipboardBinding)
| Write (value : ClipboardWriteRequest) (scope : ClipboardScope) (binding : ClipboardBinding).
Definition operation_scope (o : ClipboardOperation) : ClipboardScope :=
  match o with Read _ scope _ | Write _ scope _ => scope end.

Definition validate_mime (scope : ClipboardScope) (mime_type : string) : result BrokerErrorCode () :=
  _ ← reject_if (String.eqb mime_type "" || (MAX_CLIPBOARD_MIME_BYTES <? slen mime_type)%N
                 || negb (all_bytes is_ascii_byte mime_type)
                 || any_byte (fun byte => is_ascii_control byte || is_ascii_whitespace byte) mime_type
                 || negb (contains_byte mime_type "/")) EInvalidRequest;
  reject_if (negb (elem_b mime_type (cb_mime_types scope))) EOutOfScope.

Definition effective_maximum (scope : ClipboardScope) : N :=
  effective_limit (cb_maximum_bytes scope) MAX_CLIPBOARD_BYTES.

Section Backend.
Context {Identity : Type}.
Implicit Types request : BackendRequest Identity.

Definition decode_and_match request : result BrokerErrorCode ClipboardOperation :=
  match bk_authorized_scope request with
  | Capability.Clipboard scope =>
      binding ← ok_or EOutOfScope (clipboard (bk_bindings request));
      if bool_decide (bk_capability request = ClipboardReadV1)
         && String.eqb (bk_operation request) CLIPBOARD_READ_OPERATION
      then
        value ← decoded (ClipboardReadRequest_decode (bk_payload request));
        _ ← validate_mime scope (clr_mime_type value);
        Ok (Read value scope binding)
      else if bool_decide (bk_capability request = ClipboardWriteV1)
              && String.eqb (bk_operation request) CLIPBOARD_WRITE_OPERATION
      then
        value ← decoded (ClipboardWriteRequest_decode (bk_payload request));
        _ ← validate_mime scope (clw_mime_type value);
        Ok (Write value scope binding)
      else Err EInvalidRequest
  | _ => Err EInvalidRequest
  end.

(** The bound on a write, checked after the activation was consumed. *)
Definition authorized (operation : ClipboardOperation)
  : result BrokerErrorCode ClipboardAuthorization :=
  let scope := operation_scope operation in
  let maximum_bytes := effective_maximum scope in
  let maximum := cb_maximum_operations_per_minute scope in
  match operation with
  | Read _ _ _ => Ok (ReadAuthorized maximum_bytes maximum)
  | Write value _ _ =>
      _ ← reject_if (maximum_bytes <? len (clw_bytes value))%N EQuotaExceeded;
      Ok (WriteAuthorized maximum_bytes maximum)
  end.

Definition authorize_clipboard_request request (ledger : Activation.ActivationLedger) (now : N)
  : Activation.ActivationLedger * result BrokerErrorCode ClipboardAuthorization :=
  match decode_and_match request with
  | Err e => (ledger, Err e)
  | Ok operation =>
      let '(ledger, r) := consume_own request ledger now in
      (ledger,
       origin ← r;
       _ ← reject_if (negb (bool_decide (origin = PhysicalOrigin))) EActivationRequired;
       authorized operation)
  end.

(** [Backend::authorize]; the quota file is the backend's state. *)
Definition authorize (now_seconds : N) (outcome : WriteOutcome) request
  (ledger : Activation.ActivationLedger) (now : N) (file : option (list N))
  : Activation.ActivationLedger * option (list N) * result BrokerErrorCode () :=
  match authorize_clipboard_request request ledger now with
  | (ledger, Err e) => (ledger, file, Err e)
  | (ledger, Ok authorization) =>
      let '(file, r) :=
        reserve 1 now_seconds outcome 1 (maximum_operations_per_minute authorization) file in
      (ledger, file, map_err Notification.rate_limited r)
  end.

Inductive Call :=
| ReadCall (binding : ClipboardBinding) (mime_type : string) (maximum_bytes : N)
| WriteCall (binding : ClipboardBinding) (mime_type : string) (bytes : list N).

(** [transport] answers the bytes of a read, nothing for a write. *)
Definition execute (before after : option BrokerErrorCode)
  (transport : Call -> result BrokerErrorCode (list N)) request : option Call * BrokerResult :=
  match before with
  | Some reason => (None, BrokerError reason)
  | None =>
      match decode_and_match request with
      | Err e => (None, BrokerError e)
      | Ok (Read value scope binding) =>
          let maximum_bytes := effective_maximum scope in
          let call := ReadCall binding (clr_mime_type value) maximum_bytes in
          (Some call,
           match (material ← transport call;
                  _ ← reject_if (maximum_bytes <? len material)%N EQuotaExceeded;
                  _ ← match after with Some reason => Err reason | None => Ok () end;
                  decoded (ClipboardValue_encode
                             {| clv_mime_type := clr_mime_type value; clv_bytes := material |})) with
           | Ok payload => Success payload
           | Err e => BrokerError e
           end)
      | Ok (Write value scope binding) =>
          let maximum_bytes := effective_maximum scope in
          if (maximum_bytes <? len (clw_bytes value))%N then (None, BrokerError EQuotaExceeded)
          else
            let call := WriteCall binding (clw_mime_type value) (clw_bytes value) in
            (Some call,
             match transport call, after with
             | Err e, _ => BrokerError e
             | Ok _, Some reason => BrokerError reason
             | Ok _, None => Success []
             end)
      end
  end.
End Backend.
End Clipboard.

Module Secret.

Definition SECRET_READ_OPERATION : string := "read".

Definition valid_kebab_id (value : string) : bool :=
  negb (String.eqb value "") && (slen value <=? 64)%N
  && first_byte is_ascii_lowercase value && last_byte is_ascii_alphanumeric value
  && all_bytes (fun byte => is_ascii_lowercase byte || is_ascii_digit byte
                            || Ascii.eqb byte "-") value.

Definition valid_content_type (value : string) : bool :=
  negb (String.eqb value "") && (slen value <=? MAX_SECRET_CONTENT_TYPE_BYTES)%N
  && contains_byte value "/"
  && all_bytes (fun byte => in_range 32 126 byte && negb (Ascii.eqb byte "\")) value.

Definition validate_secret_value (size : N) (content_type : string) : result BrokerErrorCode () :=
  reject_if ((MAX_SECRET_BYTES <? size)%N || negb (valid_content_type content_type)) EQuotaExceeded.

Section Backend.
Context {Identity : Type}.
Implicit Types request : BackendRequest Identity.

Definition decode_and_match request : result BrokerErrorCode (SecretReadRequest * SecretBinding) :=
  _ ← reject_if (negb (bool_decide (bk_capability request = SecretReadV1))
                 || negb (String.eqb (bk_operation request) SECRET_READ_OPERATION)) EInvalidRequest;
  wanted ← decoded (SecretReadRequest_decode (bk_payload request));
  _ ← reject_if (negb (valid_kebab_id (srr_logical_name wanted))) EInvalidRequest;
  match bk_authorized_scope request with
  | SecretRead scope =>
      _ ← reject_if (negb (elem_b (srr_logical_name wanted) (sr_logical_names scope))) EOutOfScope;
      binding ← ok_or EOutOfScope (bt_get (srr_logical_name wanted) (secrets (bk_bindings request)));
      Ok (wanted, binding)
  | _ => Err EInvalidRequest
  end.

Definition authorize_secret_read_request request (ledger : Activation.ActivationLedger) (now : N)
  : Activation.ActivationLedger * result BrokerErrorCode () :=
  match decode_and_match request with
  | Err e => (ledger, Err e)
  | Ok _ =>
      let '(ledger, r) := consume_own request ledger now in
      (ledger, origin ← r;
               reject_if (negb (bool_decide (origin = PhysicalOrigin))) EActivationRequired)
  end.

(** [transport] answers the bytes of the item and their content type. *)
Definition execute (before after : option BrokerErrorCode)
  (transport : SecretBinding -> result BrokerErrorCode (list N * string)) request
  : option SecretBinding * BrokerResult :=
  match before with
  | Some reason => (None, BrokerError reason)
  | None =>
      match decode_and_match request with
      | Err e => (None, BrokerError e)
      | Ok (_, binding) =>
          (Some binding,
           match (material ← transport binding;
                  _ ← validate_secret_value (len material.1) material.2;
                  _ ← match after with Some reason => Err reason | None => Ok () end;
                  decoded (SecretValue_encode
                             {| sv_bytes := material.1; sv_content_type := material.2 |})) with
           | Ok payload => Success payload
           | Err e => BrokerError e
           end)
      end
  end.
End Backend.
End Secret.

#[export] Instance ContextFactValue_eq_dec : EqDecision ContextFactValue.
Proof. solve_decision. Defined.

(** ** Context facts

    The state of the backend with its subscriptions; publishing returns the
    payload and the resources it is emitted to.  The Hyprland source thread is
    left out: it calls [publish]. *)
Module Context.

Definition CONTEXT_SNAPSHOT_OPERATION : string := "snapshot".
Definition CONTEXT_SUBSCRIBE_OPERATION : string := "subscribe".

Record ContextState := {
  generation : N;
  facts : list (string * ContextFactValue);
  subscriptions : list (N * list string);
}.

Definition new : ContextState := {| generation := 1; facts := []; subscriptions := [] |}.

Definition supported_fact (fact : string) : bool :=
  String.eqb fact "application.id" || String.eqb fact "workspace.id".

Definition valid_value (value : ContextFactValue) : bool :=
  match value with
  | TextFact value =>
      negb (String.eqb value "") && (slen value <=? MAX_CONTEXT_VALUE_BYTES)%N
      && negb (existsb is_control (chars value))
  | BooleanFact _ => true
  end.

Definition snapshot_locked (state : ContextState) (requested : list string) : ContextSnapshot :=
  {| cs_generation := generation state;
     cs_facts := omap (fun key =>
       value ← bt_get key (facts state); Some {| cf_key := key; cf_value := value |}) requested |}.

(** [finished] tells the sinks whose stream is over. *)
Definition publish (finished : N -> bool) (state : ContextState) (key : string)
  (value : ContextFactValue) : ContextState * result BrokerErrorCode (list (N * list N)) :=
  if negb (supported_fact key) || negb (valid_value value) then (state, Err EInvalidRequest)
  else if bool_decide (bt_get key (facts state) = Some value) then (state, Ok [])
  else
    let state := {| generation := sat_add64 (generation state) 1;
                    facts := bt_insert key value (facts state);
                    subscriptions := subscriptions state |} in
    (state,
     payload ← decoded (ContextSnapshot_encode
       {| cs_generation := generation state;
          cs_facts := [{| cf_key := key; cf_value := value |}] |});
     Ok (omap (fun e : N * list string =>
           if elem_b key e.2 && negb (finished e.1) then Some (e.1, payload) else None)
         (subscriptions state))).

Section Backend.
Context {Identity : Type}.
Implicit Types request : BackendRequest Identity.

Definition decode_and_authorize request (operation : string)
  : result BrokerErrorCode (list string) :=
  _ ← reject_if (negb (bool_decide (bk_capability request = ContextReadV1))
                 || negb (String.eqb (bk_operation request) operation)) EInvalidRequest;
  requested ← decoded (ContextReadRequest_decode (bk_payload request));
  match bk_authorized_scope request with
  | ContextRead scope =>
      _ ← reject_if (negb (subset_b (crr_facts requested) (cr_facts scope))) EOutOfScope;
      _ ← reject_if (existsb (fun fact => negb (supported_fact fact)) (crr_facts requested))
            EUnsupported;
      Ok (crr_facts requested)
  | _ => Err EInvalidRequest
  end.

(** [Backend::execute]. *)
Definition execute (before after : option BrokerErrorCode) (state : ContextState) request
  : BrokerResult :=
  match before with
  | Some reason => BrokerError reason
  | None =>
      match (requested ← decode_and_authorize request CONTEXT_SNAPSHOT_OPERATION;
             decoded (ContextSnapshot_encode (snapshot_locked state requested))), after with
      | Err e, _ => BrokerError e
      | Ok _, Some reason => BrokerError reason
      | Ok payload, None => Success payload
      end
  end.

(** [ResourceBackend::open]: the response payload. *)
Definition open (resource_id : N) request (state : ContextState)
  : ContextState * result BrokerErrorCode (list N) :=
  match decode_and_authorize request CONTEXT_SUBSCRIBE_OPERATION with
  | Err e => (state, Err e)
  | Ok requested =>
      if bt_contains resource_id (subscriptions state) then (state, Err EInvalidRequest)
      else
        match decoded (ContextSubscriptionOpened_encode
                {| cso_resource_id := resource_id;
                   cso_snapshot := snapshot_locked state requested |}) with
        | Err e => (state, Err e)
        | Ok payload =>
            ({| generation := generation state; facts := facts state;
                subscriptions := bt_insert resource_id requested (subscriptions state) |}, Ok payload)
        end
  end.

(** [ResourceHandle::close]. *)
Definition close (resource_id : N) (state : ContextState) : ContextState :=
  {| generation := generation state; facts := facts state;
     subscriptions := bt_remove resource_id (subscriptions state) |}.
End Backend.
End Context.

(** ** Local sockets *)
Module Local.

Definition LOCAL_CONNECT_OPERATION : string := "connect".
Definition LOCAL_SEND_OPERATION : string := "send".

Record LocalConnectionAuthorization := {
  la_instance_id : N;
  la_endpoint : string;
  la_protocol : string;
  la_binding : LocalEndpointBinding;
  la_maximum_frame_bytes : N;
  la_maximum_bytes_per_minute : N;
}.

(** An open connection with its [closed] flag. *)
Record LocalConnection := { lcn_authorization : LocalConnectionAuthorization; lcn_closed : bool }.

Section Backend.
Context {Identity : Type} (instance_id : Identity -> N).
Implicit Types request : BackendRequest Identity.

Definition find_endpoint (scope : LocalConnectScope) (label protocol : string)
  : option LocalEndpointRequest :=
  List.find (fun endpoint => String.eqb (le_label endpoint) label
                             && String.eqb (le_protocol endpoint) protocol) (lc_endpoints scope).

Definition authorize_local_connect_request request
  : result BrokerErrorCode (LocalConnect * LocalConnectionAuthorization) :=
  _ ← reject_if (negb (bool_decide (bk_capability request = LocalConnectV1))
                 || negb (String.eqb (bk_operation request) LOCAL_CONNECT_OPERATION))
        EInvalidRequest;
  connect ← decoded (LocalConnect_decode (bk_payload request));
  match bk_authorized_scope request with
  | Capability.LocalConnect scope =>
      endpoint ← ok_or EOutOfScope
        (find_endpoint scope (SchemaDesktop.lc_endpoint connect) (lc_protocol connect));
      binding ← ok_or EOutOfScope
        (bt_get (le_label endpoint) (local_endpoints (bk_bindings request)));
      Ok (connect,
          {| la_instance_id := instance_id (bk_identity request);
             la_endpoint := lc_endpoint connect; la_protocol := le_protocol endpoint;
             la_binding := binding;
             la_maximum_frame_bytes :=
               effective_limit (lc_maximum_frame_bytes scope) MAX_LOCAL_FRAME_BYTES;
             la_maximum_bytes_per_minute := lc_maximum_bytes_per_minute scope |})
  | _ => Err EInvalidRequest
  end.

Definition authorize_local_send_frame request (frame : LocalSendFrame)
  (authorization : LocalConnectionAuthorization) : result BrokerErrorCode () :=
  match bk_authorized_scope request with
  | Capability.LocalConnect scope =>
      endpoint ← ok_or EOutOfScope
        (find_endpoint scope (la_endpoint authorization) (la_protocol authorization));
      binding ← ok_or EOutOfScope
        (bt_get (le_label endpoint) (local_endpoints (bk_bindings request)));
      reject_if (negb (instance_id (bk_identity request) =? la_instance_id authorization)%N
                 || negb (bool_decide (binding = la_binding authorization))
                 || negb (lc_maximum_bytes_per_minute scope
                          =? la_maximum_bytes_per_minute authorization)%N
                 || negb (effective_limit (lc_maximum_frame_bytes scope) MAX_LOCAL_FRAME_BYTES
                          =? la_maximum_frame_bytes authorization)%N
                 || (la_maximum_frame_bytes authorization <? len (lsf_bytes frame))%N) EOutOfScope
  | _ => Err EInvalidRequest
  end.

Definition authorize_local_send_request request (authorization : LocalConnectionAuthorization)
  : result BrokerErrorCode LocalSendFrame :=
  _ ← reject_if (negb (bool_decide (bk_capability request = LocalConnectV1))
                 || negb (String.eqb (bk_operation request) LOCAL_SEND_OPERATION))
        EInvalidRequest;
  frame ← decoded (LocalSendFrame_decode (bk_payload request));
  _ ← authorize_local_send_frame request frame authorization;
  Ok frame.

Definition match_send request (connections : list (N * LocalConnection))
  : result BrokerErrorCode (LocalSendFrame * LocalConnection) :=
  _ ← reject_if (negb (bool_decide (bk_capability request = LocalConnectV1))
                 || negb (String.eqb (bk_operation request) LOCAL_SEND_OPERATION))
        EInvalidRequest;
  frame ← decoded (LocalSendFrame_decode (bk_payload request));
  connection ← ok_or EUnavailable (bt_get (lsf_resource_id frame) connections);
  _ ← reject_if (lcn_closed connection) EUnavailable;
  _ ← authorize_local_send_frame request frame (lcn_authorization connection);
  Ok (frame, connection).
End Backend.
End Local.
