(* ===== verification/Files.v ===== *)
(** * Files: reading and writing under granted mounts, appearance workers

    Models the admission of [filesystem.rs], [filesystem_write.rs] and
    [appearance.rs] under [crates/touchbar-plugin-supervisor/src]: decoding,
    mounts, paths, operations, sizes and the order of upload chunks.  Opening
    a path beneath its mount (openat2 with RESOLVE_BENEATH) is the kernel's. *)

From S2P Require Import Prelude BTree Text Capability Grants Wire Protocol Lifecycle Executor Payload SchemaDesktop SchemaFiles Web Quota.

Module FilesRead.

Definition FILESYSTEM_READ_FILE_OPERATION : string := "read-file".
Definition FILESYSTEM_LIST_DIRECTORY_OPERATION : string := "list-directory".
Definition FILESYSTEM_READ_STREAM_OPERATION : string := "read-file-stream".

Inductive AuthorizedOperation := ReadFile (wanted : FilesystemReadFile) | List (wanted : FilesystemListDirectory).

Definition not_normal (c : Component) : bool := match c with Normal _ => false | _ => true end.

Definition validate_requested_mount_and_path (mount path : string) (allow_empty : bool)
  (requested_mounts : list FilesystemMountRequest)
  (mounts : list (string * FilesystemMountBinding)) : result BrokerErrorCode () :=
  _ ← reject_if (String.eqb mount ""
                 || negb (existsb (fun requested => String.eqb (fm_label requested) mount)
                                  requested_mounts)
                 || negb (bt_contains mount mounts)) EOutOfScope;
  if String.eqb path "" then reject_if (negb allow_empty) EInvalidRequest
  else reject_if (is_absolute path || existsb not_normal (components path)) EOutOfScope.

Section Backend.
Context {Identity : Type}.
Implicit Types request : BackendRequest Identity.

Definition validate_mount_and_path (mount path : string) (allow_empty : bool)
  (scope : FilesystemReadScope) (mounts : list (string * FilesystemMountBinding))
  : result BrokerErrorCode () :=
  validate_requested_mount_and_path mount path allow_empty (fr_mounts scope) mounts.

Definition decode_and_authorize request : result BrokerErrorCode AuthorizedOperation :=
  _ ← reject_if (negb (bool_decide (bk_capability request = FilesystemReadV1))) EInvalidRequest;
  match bk_authorized_scope request with
  | FilesystemRead scope =>
      let mounts := filesystem_mounts (bk_bindings request) in
      if String.eqb (bk_operation request) FILESYSTEM_READ_FILE_OPERATION then
        wanted ← decoded (FilesystemReadFile_decode (bk_payload request));
        _ ← validate_mount_and_path (frf_mount wanted) (frf_path wanted) false scope mounts;
        _ ← reject_if (negb (elem_b Capability.RegularFile (fr_kinds scope))) EOutOfScope;
        Ok (ReadFile wanted)
      else if String.eqb (bk_operation request) FILESYSTEM_LIST_DIRECTORY_OPERATION then
        wanted ← decoded (FilesystemListDirectory_decode (bk_payload request));
        _ ← validate_mount_and_path (fld_mount wanted) (fld_path wanted) true scope mounts;
        _ ← reject_if (negb (fr_enumerate scope)
                       || negb (elem_b Capability.Directory (fr_kinds scope))) EOutOfScope;
        Ok (List wanted)
      else Err EInvalidRequest
  | _ => Err EInvalidRequest
  end.

Definition decode_and_authorize_stream request : result BrokerErrorCode FilesystemReadStream :=
  _ ← reject_if (negb (bool_decide (bk_capability request = FilesystemReadV1))
                 || negb (String.eqb (bk_operation request) FILESYSTEM_READ_STREAM_OPERATION))
        EInvalidRequest;
  match bk_authorized_scope request with
  | FilesystemRead scope =>
      wanted ← decoded (FilesystemReadStream_decode (bk_payload request));
      _ ← validate_mount_and_path (frs_mount wanted) (frs_path wanted) false scope
            (filesystem_mounts (bk_bindings request));
      _ ← reject_if (negb (elem_b Capability.RegularFile (fr_kinds scope))) EOutOfScope;
      _ ← reject_if (fr_maximum_file_bytes scope <? frs_maximum_bytes wanted)%N EQuotaExceeded;
      Ok wanted
  | _ => Err EInvalidRequest
  end.

Definition authorize_appearance_read request : result BrokerErrorCode FilesystemReadFile :=
  _ ← reject_if (negb (bool_decide (bk_capability request = AppearanceProvideV1))
                 || negb (String.eqb (bk_operation request) FILESYSTEM_READ_FILE_OPERATION))
        EInvalidRequest;
  match bk_authorized_scope request with
  | AppearanceProvide scope =>
      wanted ← decoded (FilesystemReadFile_decode (bk_payload request));
      _ ← validate_requested_mount_and_path (frf_mount wanted) (frf_path wanted) false
            (ap_mounts scope) (filesystem_mounts (bk_bindings request));
      _ ← reject_if (ap_maximum_file_bytes scope <? frf_maximum_bytes wanted)%N EQuotaExceeded;
      Ok wanted
  | _ => Err EInvalidRequest
  end.
End Backend.
End FilesRead.

Module FilesWrite.

Definition INTERNAL_NAME_PREFIX : string := ".touchbar-".

Inductive AuthorizedMutation :=
| CreateFile (write : FilesystemWriteFile)
| ReplaceFile (write : FilesystemWriteFile)
| AppendFile (write : FilesystemWriteFile)
| DeleteFile (path : FilesystemPath)
| RenameFile (rename : FilesystemRename)
| CreateDir (path : FilesystemPath).

Definition written_bytes (m : AuthorizedMutation) : N :=
  match m with
  | CreateFile write | ReplaceFile write | AppendFile write => len (fwf_bytes write)
  | DeleteFile _ | RenameFile _ | CreateDir _ => 0
  end.

(** The operations and what each needs from the scope. *)
Definition mutation_operation (operation : string) : option WriteOperation :=
  if String.eqb operation "create-file" then Some Create
  else if String.eqb operation "replace-file" then Some Replace
  else if String.eqb operation "append-file" then Some Append
  else if String.eqb operation "delete-file" then Some DeleteOp
  else if String.eqb operation "rename" then Some Rename
  else if String.eqb operation "create-directory" then Some CreateDirectory
  else None.
Definition stream_operation (operation : string) : option WriteOperation :=
  if String.eqb operation "create-file-stream" then Some Create
  else if String.eqb operation "replace-file-stream" then Some Replace
  else if String.eqb operation "append-file-stream" then Some Append
  else None.
Definition FILESYSTEM_WRITE_STREAM_CHUNK_OPERATION : string := "write-stream-chunk".
Definition FILESYSTEM_WRITE_STREAM_COMMIT_OPERATION : string := "write-stream-commit".

Definition require_operation (scope : FilesystemWriteScope) (operation : WriteOperation)
  : result BrokerErrorCode () :=
  reject_if (negb (elem_b operation (fw_operations scope))) EOutOfScope.

(** Names are valid UTF-8 strings here, so [to_str] is [Some]. *)
Definition forbidden_component (c : Component) : bool :=
  match c with Normal name => starts_with name INTERNAL_NAME_PREFIX | _ => true end.

Section Backend.
Context {Identity : Type}.
Implicit Types request : BackendRequest Identity.

Definition filesystem_scope request : result BrokerErrorCode FilesystemWriteScope :=
  match bk_authorized_scope request with
  | FilesystemWrite scope => Ok scope
  | _ => Err EInvalidRequest
  end.

Definition validate_mount_and_path request (scope : FilesystemWriteScope) (mount path : string)
  : result BrokerErrorCode () :=
  _ ← reject_if (String.eqb mount ""
                 || negb (existsb (fun candidate => String.eqb (fm_label candidate) mount)
                                  (fw_mounts scope))
                 || negb (bt_contains mount (filesystem_mounts (bk_bindings request)))) EOutOfScope;
  reject_if (String.eqb path "" || is_absolute path
             || existsb forbidden_component (components path)) EOutOfScope.

Definition decode_write request : result BrokerErrorCode FilesystemWriteFile :=
  decoded (FilesystemWriteFile_decode (bk_payload request)).

(** The decoding of one operation; the scope's permission is checked first. *)
Definition decode_mutation request (operation : WriteOperation)
  : result BrokerErrorCode AuthorizedMutation :=
  match operation with
  | Create => write ← decode_write request; Ok (CreateFile write)
  | Replace => write ← decode_write request; Ok (ReplaceFile write)
  | Append => write ← decode_write request; Ok (AppendFile write)
  | DeleteOp => path ← decoded (FilesystemPath_decode (bk_payload request)); Ok (DeleteFile path)
  | Rename => rename ← decoded (FilesystemRename_decode (bk_payload request)); Ok (RenameFile rename)
  | CreateDirectory =>
      path ← decoded (FilesystemPath_decode (bk_payload request)); Ok (CreateDir path)
  end.

Definition check_mutation request (scope : FilesystemWriteScope) (mutation : AuthorizedMutation)
  : result BrokerErrorCode () :=
  match mutation with
  | CreateFile write | ReplaceFile write | AppendFile write =>
      _ ← validate_mount_and_path request scope (fwf_mount write) (fwf_path write);
      reject_if (fw_maximum_file_bytes scope <? len (fwf_bytes write))%N EQuotaExceeded
  | DeleteFile path | CreateDir path =>
      validate_mount_and_path request scope (fp_mount path) (fp_path path)
  | RenameFile rename =>
      _ ← validate_mount_and_path request scope (fr_mount rename) (fr_source rename);
      _ ← validate_mount_and_path request scope (fr_mount rename) (fr_destination rename);
      reject_if (String.eqb (fr_source rename) (fr_destination rename)) EInvalidRequest
  end.

Definition decode_and_authorize request : result BrokerErrorCode AuthorizedMutation :=
  _ ← reject_if (negb (bool_decide (bk_capability request = FilesystemWriteV1))) EInvalidRequest;
  scope ← filesystem_scope request;
  operation ← ok_or EInvalidRequest (mutation_operation (bk_operation request));
  _ ← require_operation scope operation;
  mutation ← decode_mutation request operation;
  _ ← check_mutation request scope mutation;
  Ok mutation.

Definition authorize_filesystem_write_mutation_request request : result BrokerErrorCode N :=
  mutation ← decode_and_authorize request; Ok (written_bytes mutation).

Definition authorize_filesystem_write_stream_begin_request request
  : result BrokerErrorCode FilesystemWriteStream :=
  _ ← reject_if (negb (bool_decide (bk_capability request = FilesystemWriteV1))) EInvalidRequest;
  scope ← filesystem_scope request;
  required_operation ← ok_or EInvalidRequest (stream_operation (bk_operation request));
  _ ← require_operation scope required_operation;
  stream ← decoded (FilesystemWriteStream_decode (bk_payload request));
  _ ← validate_mount_and_path request scope (fws_mount stream) (fws_path stream);
  _ ← reject_if (fw_maximum_file_bytes scope <? fws_expected_bytes stream)%N EQuotaExceeded;
  Ok stream.

Inductive StreamCommand :=
| Chunk (chunk : FilesystemWriteStreamChunk) (end_offset : N)
| Commit.

Definition authorize_filesystem_write_stream_command request
  (resource_id expected_bytes received_bytes : N) (expected_scope : FilesystemWriteScope)
  (expected_mounts : list (string * FilesystemMountBinding)) : result BrokerErrorCode StreamCommand :=
  _ ← reject_if (negb (bool_decide (bk_capability request = FilesystemWriteV1))) EInvalidRequest;
  scope ← filesystem_scope request;
  _ ← reject_if (negb (bool_decide (scope = expected_scope))
                 || negb (bool_decide (filesystem_mounts (bk_bindings request) = expected_mounts)))
        EOutOfScope;
  if String.eqb (bk_operation request) FILESYSTEM_WRITE_STREAM_CHUNK_OPERATION then
    chunk ← decoded (FilesystemWriteStreamChunk_decode (bk_payload request));
    _ ← reject_if (negb (fwc_resource_id chunk =? resource_id)%N
                   || negb (fwc_offset chunk =? received_bytes)%N) EInvalidRequest;
    end_offset ← ok_or EQuotaExceeded (checked_add64 (fwc_offset chunk) (len (fwc_bytes chunk)));
    _ ← reject_if (expected_bytes <? end_offset)%N EQuotaExceeded;
    Ok (Chunk chunk end_offset)
  else if String.eqb (bk_operation request) FILESYSTEM_WRITE_STREAM_COMMIT_OPERATION then
    commit ← decoded (FilesystemWriteStreamCommit_decode (bk_payload request));
    _ ← reject_if (negb (fwm_resource_id commit =? resource_id)%N
                   || negb (received_bytes =? expected_bytes)%N) EInvalidRequest;
    Ok Commit
  else Err EInvalidRequest.
End Backend.
End FilesWrite.

(** ** Appearance workers *)
Module Appearance.

Definition APPEARANCE_READ_FILE_OPERATION : string := "read-file".
Definition APPEARANCE_PUBLISH_OPERATION : string := "publish".

Section Backend.
Context {Identity : Type} (provider : string).
Implicit Types request : BackendRequest Identity.

Definition decode_publish request : result BrokerErrorCode AppearancePublish :=
  _ ← reject_if (negb (bool_decide (bk_capability request = AppearanceProvideV1))
                 || negb (String.eqb (bk_operation request) APPEARANCE_PUBLISH_OPERATION))
        EInvalidRequest;
  match bk_authorized_scope request with
  | AppearanceProvide scope =>
      publication ← map_err (fun _ => EInvalidRequest)
        (AppearancePublish_decode (bk_payload request));
      _ ← reject_if (negb (String.eqb (SchemaDesktop.ap_provider publication) provider)
                     || negb (elem_b provider (ap_providers scope))) EOutOfScope;
      Ok publication
  | _ => Err EInvalidRequest
  end.

Definition scope request : result BrokerErrorCode AppearanceProvideScope :=
  _ ← reject_if (negb (bool_decide (bk_capability request = AppearanceProvideV1))) EInvalidRequest;
  match bk_authorized_scope request with
  | AppearanceProvide scope =>
      if elem_b provider (ap_providers scope) then Ok scope else Err EOutOfScope
  | _ => Err EInvalidRequest
  end.

(** [Backend::authorize]. *)
Definition authorize request : result BrokerErrorCode () :=
  _ ← scope request;
  if String.eqb (bk_operation request) APPEARANCE_READ_FILE_OPERATION
  then _ ← FilesRead.authorize_appearance_read request; Ok ()
  else if String.eqb (bk_operation request) APPEARANCE_PUBLISH_OPERATION
  then _ ← decode_publish request; Ok ()
  else Err EInvalidRequest.

(** The publications of the last second, as nanoseconds of the monotonic
    clock, and whether one more is sent: what [execute] does after decoding.
    [sent] is the socket's answer. *)
Definition publish_rate (scope : AppearanceProvideScope) (now : N) (sent : result BrokerErrorCode ())
  (publications : list N) : list N * result BrokerErrorCode () :=
  let fix expire (l : list N) :=
    match l with
    | s :: l' => if (1000000000 <=? now - s)%N then expire l' else l
    | [] => []
    end in
  let publications := expire publications in
  if (ap_maximum_updates_per_second scope <=? len publications)%N
  then (publications, Err ERateLimited)
  else match sent with
       | Ok _ => (publications ++ [now], Ok ())
       | Err e => (publications, Err e)
       end.
End Backend.
End Appearance.
