(* ===== verification/Dbus.v ===== *)
(** * Dbus: method calls and signal subscriptions on the message buses

    Models the admission of
    [crates/touchbar-plugin-supervisor/src/dbus.rs]: decoding, the identifier
    checks of the [zbus] crate (the interface [ZbusNames]), matching against
    the rules of a scope, the supported shapes, and what an execution asks the
    transport.  The rules of a scope are a [BTreeSet], so a call is governed by
    the first matching rule in their order. *)

From S2P Require Import Prelude BTree Text Capability Grants Wire Protocol Lifecycle Executor Payload SchemaNet Web.

(** The identifier syntax of D-Bus, as [zbus] checks it. *)
Class ZbusNames := {
  well_known_name : string -> bool;
  object_path : string -> bool;
  interface_name : string -> bool;
  member_name : string -> bool;
}.
(** Elements of a bus name are separated by dots and not empty. *)
Class ZbusNamesLaws `{ZbusNames} :=
  well_known_name_end : forall s, well_known_name (s +:+ ".") = false.

Definition DBUS_CALL_OPERATION : string := "call".
Definition DBUS_SUBSCRIBE_OPERATION : string := "subscribe".

Definition bus_matches (policy : Capability.DbusBus) (wire : DbusBus) : bool :=
  match policy, wire with SessionBus, Session | SystemBus, System => true | _, _ => false end.

Definition destination_matches (pattern destination : string) : bool :=
  match strip_suffix ".*" pattern with
  | Some prefix =>
      match strip_prefix prefix destination with
      | Some suffix => starts_with suffix "." && (1 <? slen suffix)%N
      | None => false
      end
  | None => String.eqb destination pattern
  end.

Definition argument_matches (arguments : list string) (constraint : DbusArgumentConstraint) : bool :=
  match arguments !! N.to_nat (da_index constraint) with
  | None => false
  | Some argument =>
      match da_equals_string constraint, da_one_of_strings constraint with
      | Some expected, None => String.eqb argument expected
      | None, Some expected => elem_b argument expected
      | _, _ => false
      end
  end.

Definition rule_matches (call : DbusCall) (rule : DbusCallRule) : bool :=
  bus_matches (dc_bus rule) (dca_bus call)
  && destination_matches (dc_destination rule) (dca_destination call)
  && String.eqb (dc_path rule) (dca_path call)
  && String.eqb (dc_interface rule) (dca_interface call)
  && String.eqb (dc_member rule) (dca_member call)
  && String.eqb (dc_signature rule) (dbus_call_signature call)
  && forallb (argument_matches (dca_arguments call)) (dc_arguments rule).

Definition validate_supported_shape (call : DbusCall) : result BrokerErrorCode () :=
  match dca_arguments call, dca_reply call with
  | [], ReplyUnit | [_; _], ReplyVariantString | [_; _], ReplyVariantI64 => Ok ()
  | _, _ => Err EUnsupported
  end.

Definition signal_rule_matches (subscription : DbusSubscription) (rule : DbusSignalRule) : bool :=
  bus_matches (ds_bus rule) (dsu_bus subscription)
  && destination_matches (ds_sender rule) (dsu_sender subscription)
  && String.eqb (ds_path rule) (dsu_path subscription)
  && String.eqb (ds_interface rule) (dsu_interface subscription)
  && String.eqb (ds_member rule) (dsu_member subscription)
  && String.eqb (ds_signature rule) (dsu_signature subscription)
  && bool_decide (ds_argument_zero rule = dsu_argument_zero subscription).

Definition validate_supported_subscription (subscription : DbusSubscription)
  : result BrokerErrorCode () :=
  reject_if (ends_with (dsu_sender subscription) ".*"
             || negb (String.eqb (dsu_interface subscription) "org.freedesktop.DBus.Properties")
             || negb (String.eqb (dsu_member subscription) "PropertiesChanged")
             || negb (String.eqb (dsu_signature subscription) "sa{sv}as")
             || is_none (dsu_argument_zero subscription)) EUnsupported.

Section Backend.
Context {Identity : Type} `{ZbusNames}.
Implicit Types request : BackendRequest Identity.

Definition validate_call_identifiers (call : DbusCall) : result BrokerErrorCode () :=
  _ ← reject_if (negb (well_known_name (dca_destination call))) EInvalidRequest;
  _ ← reject_if (negb (object_path (dca_path call))) EInvalidRequest;
  _ ← reject_if (negb (interface_name (dca_interface call))) EInvalidRequest;
  reject_if (negb (member_name (dca_member call))) EInvalidRequest.

Definition validate_subscription_identifiers (subscription : DbusSubscription)
  : result BrokerErrorCode () :=
  _ ← reject_if (negb (well_known_name (dsu_sender subscription))) EInvalidRequest;
  _ ← reject_if (negb (object_path (dsu_path subscription))) EInvalidRequest;
  _ ← reject_if (negb (interface_name (dsu_interface subscription))) EInvalidRequest;
  _ ← reject_if (negb (member_name (dsu_member subscription))) EInvalidRequest;
  match dsu_argument_zero subscription with
  | Some argument_zero => reject_if (negb (interface_name argument_zero)) EInvalidRequest
  | None => Ok ()
  end.

Definition decode_and_match request : result BrokerErrorCode (DbusCall * DbusCallRule) :=
  _ ← reject_if (negb (bool_decide (bk_capability request = DbusCallV1))
                 || negb (String.eqb (bk_operation request) DBUS_CALL_OPERATION)) EInvalidRequest;
  call ← decoded (DbusCall_decode (bk_payload request));
  _ ← validate_call_identifiers call;
  match bk_authorized_scope request with
  | Capability.DbusCall scope =>
      rule ← ok_or EOutOfScope (List.find (rule_matches call) (dc_rules scope));
      Ok (call, rule)
  | _ => Err EInvalidRequest
  end.

(** [Backend::authorize]. *)
Definition authorize request (ledger : Activation.ActivationLedger) (now : N)
  : Activation.ActivationLedger * result BrokerErrorCode () :=
  match (m ← decode_and_match request; _ ← validate_supported_shape m.1; Ok m) with
  | Err e => (ledger, Err e)
  | Ok (_, rule) =>
      if dc_requires_user_activation rule then
        let '(ledger, r) := consume_own request ledger now in
        (ledger, r ≫= fun _ => Ok ())
      else (ledger, Ok ())
  end.

(** [Backend::execute]: the call and whether it may start the service. *)
Definition execute (before : option BrokerErrorCode)
  (transport : DbusCall * bool -> result BrokerErrorCode DbusReply) request
  : option (DbusCall * bool) * BrokerResult :=
  match before with
  | Some reason => (None, BrokerError reason)
  | None =>
      match (m ← decode_and_match request; _ ← validate_supported_shape m.1; Ok m) with
      | Err e => (None, BrokerError e)
      | Ok (call, rule) =>
          (Some (call, dc_allow_service_activation rule),
           match (reply ← transport (call, dc_allow_service_activation rule);
                  map_err (fun _ => EBackendFailed) (DbusReply_encode reply)) with
           | Ok payload => Success payload
           | Err e => BrokerError e
           end)
      end
  end.

Definition decode_and_match_subscription request
  : result BrokerErrorCode (DbusSubscription * DbusSignalRule) :=
  _ ← reject_if (negb (bool_decide (bk_capability request = DbusSubscribeV1))
                 || negb (String.eqb (bk_operation request) DBUS_SUBSCRIBE_OPERATION))
        EInvalidRequest;
  subscription ← decoded (DbusSubscription_decode (bk_payload request));
  _ ← validate_subscription_identifiers subscription;
  _ ← validate_supported_subscription subscription;
  match bk_authorized_scope request with
  | DbusSubscribe scope =>
      rule ← ok_or EOutOfScope (List.find (signal_rule_matches subscription) (ds_rules scope));
      Ok (subscription, rule)
  | _ => Err EInvalidRequest
  end.
End Backend.

(** ** A narrower rule matches fewer calls *)

Lemma destination_matches_spec pattern destination :
  destination_matches pattern destination = true <->
  (strip_suffix ".*" pattern = None /\ destination = pattern) \/
  exists prefix rest, pattern = prefix +:+ ".*" /\ destination = prefix +:+ "." +:+ rest /\ rest <> "".
Proof.
  unfold destination_matches. destruct (strip_suffix ".*" pattern) as [prefix|] eqn:Hs.
  - apply strip_suffix_Some in Hs as ->.
    destruct (strip_prefix prefix destination) as [suffix|] eqn:Hp.
    + apply strip_prefix_Some in Hp as ->. rewrite andb_true_iff, starts_with_spec, N.ltb_lt. split.
      * intros [[t ->] Hlen]. right. exists prefix, t. split; [done|]. split; [done|].
        intros ->. unfold slen in Hlen. simpl in Hlen. lia.
      * intros [[? _]|(p & r & Hpq & Hr & Hne)]; [done|].
        apply string_app_inj_r in Hpq as <-. apply (f_equal (strip_prefix prefix)) in Hr.
        assert (forall x, strip_prefix prefix (prefix +:+ x) = Some x) as Hx
          by (intros; by apply strip_prefix_Some).
        rewrite !Hx in Hr. injection Hr as ->. split; [by exists r|].
        destruct r; [done|]. unfold slen. simpl. lia.
    + split; [done|]. intros [[? _]|(p & r & Hpq & -> & _)]; [done|].
      apply string_app_inj_r in Hpq as <-.
      assert (strip_prefix prefix (prefix +:+ "." +:+ r) = Some ("." +:+ r)) as Hx
        by by apply strip_prefix_Some.
      congruence.
  - rewrite String.eqb_eq. split; [by left|].
    intros [[_ ->]|(p & r & -> & _)]; [done|]. by rewrite strip_suffix_app in Hs.
Qed.

Section Narrowing.
Context `{ZbusNamesLaws}.

Lemma destination_narrow new old destination :
  well_known_name destination = true -> dotted_name_subset new old = true ->
  destination_matches new destination = true -> destination_matches old destination = true.
Proof.
  rewrite dotted_name_subset_spec, !destination_matches_spec.
  intros Hname [->|(p & rest & -> & ->)]; [done|]. intros Hm. right.
  destruct Hm as [[_ ->]|(q & r & Hq & -> & Hr)].
  - exists p, rest. split; [done|]. split; [done|]. intros ->.
    rewrite well_known_name_end in Hname. done.
  - symmetry in Hq. apply app_star_inv in Hq as [y Hy]. exists p, (y +:+ r). split; [done|]. split.
    + change (q +:+ "." +:+ r) with (q +:+ ("." +:+ r)). rewrite <- string_app_assoc, Hy.
      by rewrite !string_app_assoc.
    + by destruct y.
Qed.

Lemma arguments_narrow new old (arguments : list string) :
  dbus_arguments_subset new old = true ->
  forallb (argument_matches arguments) new = true -> forallb (argument_matches arguments) old = true.
Proof.
  unfold dbus_arguments_subset. rewrite !forallb_True'. intros Hsub Hnew approved Ha.
  destruct (proj1 (existsb_True' _ _) (Hsub approved Ha)) as (requested & Hr & Hm).
  apply andb_true_iff in Hm as [Hi Hm]. apply N.eqb_eq in Hi.
  specialize (Hnew requested Hr). unfold argument_matches in *. rewrite <- Hi.
  destruct (arguments !! N.to_nat (da_index requested)) as [argument|]; [|done].
  destruct (da_equals_string requested), (da_one_of_strings requested),
    (da_equals_string approved), (da_one_of_strings approved); try done;
    rewrite ?String.eqb_eq in *; b2p; set_solver.
Qed.

Lemma rule_narrow new old call :
  well_known_name (dca_destination call) = true -> dbus_call_rule_subset new old = true ->
  rule_matches call new = true -> rule_matches call old = true.
Proof.
  unfold dbus_call_rule_subset, rule_matches. intros Hname Hsub Hm. b2p.
  rewrite !String.eqb_eq in *.
  repeat match goal with H : _ /\ _ |- _ => destruct H end.
  repeat split; try congruence.
  - by eapply destination_narrow.
  - by eapply arguments_narrow.
Qed.
End Narrowing.
