(* ===== verification/Command.v ===== *)
(** * Command: running the commands a scope describes

    Models the admission of
    [crates/touchbar-plugin-supervisor/src/command.rs] and the construction of
    the argument vector from the rule's template and the submitted values.
    Opening the executable, the approved files and the working directory, and
    the process with its cgroup, Landlock and seccomp containment are system
    calls; the opening of an approved file is an argument that answers the
    descriptor. *)

From S2P Require Import Prelude BTree Text Capability Grants Wire Protocol Lifecycle Executor Payload SchemaNet Web.

Definition COMMAND_RUN_OPERATION : string := "run".

(** [collect::<BTreeMap<_, _>>] of the values by name. *)
Definition values_by_name (values : list CommandValue) : list (string * CommandValue) :=
  fold_left (fun m value => bt_insert (command_value_name value) value m) values [].

(** [values.remove(name).ok_or(InvalidRequest)]. *)
Definition take_value (name : string) (values : list (string * CommandValue))
  : result BrokerErrorCode (CommandValue * list (string * CommandValue)) :=
  value ← ok_or EInvalidRequest (bt_get name values);
  Ok (value, bt_remove name values).

Definition valid_relative_path (value : string) : bool :=
  negb (String.eqb value "") && negb (is_absolute value)
  && forallb (fun c => match c with Normal _ => true | _ => false end) (components value).

Definition argument_name (argument : CommandArgument) : option string :=
  match argument with
  | Literal _ => None
  | BoundedInteger name _ _ | FixedEnum name _ | BoundedText name _ | ApprovedFile name _
  | UrlArgument name _ => Some name
  end.

Section Backend.
Context {Identity : Type} {U : UrlCrate}.
Implicit Types request : BackendRequest Identity.

(** The check of one value against its template. *)
Definition check_value (argument : CommandArgument) (value : CommandValue)
  : result BrokerErrorCode () :=
  match argument, value with
  | BoundedInteger _ minimum maximum, IntegerValue _ value =>
      reject_if ((value <? minimum) || (maximum <? value))%Z EOutOfScope
  | FixedEnum _ values, FixedEnumValue _ value =>
      reject_if (negb (elem_b value values)) EOutOfScope
  | BoundedText _ maximum_bytes, TextValue _ value =>
      reject_if ((maximum_bytes <? slen value)%N || contains_byte value "000") EOutOfScope
  | ApprovedFile _ _, ApprovedFileValue _ path =>
      reject_if (negb (valid_relative_path path)) EOutOfScope
  | UrlArgument _ schemes, UrlValue _ value =>
      url ← ok_or EInvalidRequest (Url_parse value);
      reject_if (negb (elem_b (Url_scheme url) schemes)) EOutOfScope
  | _, _ => Err EInvalidRequest
  end.

Definition validate_argument (values : list (string * CommandValue)) (argument : CommandArgument)
  : result BrokerErrorCode (list (string * CommandValue)) :=
  match argument_name argument with
  | None => Ok values
  | Some expected_name =>
      p ← take_value expected_name values;
      _ ← check_value argument p.1;
      Ok p.2
  end.

Definition validate_values (rule : CommandRule) (values : list CommandValue)
  : result BrokerErrorCode () :=
  rest ← foldR validate_argument (values_by_name values) (cm_arguments rule);
  reject_if (negb (bool_decide (rest.*1 = []))) EInvalidRequest.

Definition command_scope request : result BrokerErrorCode CommandRunScope :=
  match bk_authorized_scope request with
  | CommandRun scope => Ok scope
  | _ => Err EInvalidRequest
  end.

Definition decode_rule_and_values request
  : result BrokerErrorCode (CommandRule * CommandRunRequest) :=
  _ ← reject_if (negb (bool_decide (bk_capability request = CommandRunV1))
                 || negb (String.eqb (bk_operation request) COMMAND_RUN_OPERATION)) EInvalidRequest;
  scope ← command_scope request;
  submitted ← decoded (CommandRunRequest_decode (bk_payload request));
  match List.filter (fun rule => String.eqb (cm_id rule) (crq_command_id submitted))
          (cm_commands scope) with
  | [] => Err EOutOfScope
  | [rule] => _ ← validate_values rule (crq_values submitted); Ok (rule, submitted)
  | _ => Err EInvalidRequest
  end.

(** The argument vector of one template element; [open_approved] opens a path
    under a mount and answers the descriptor. *)
Definition build_argument (mounts : list (string * FilesystemMountBinding))
  (open_approved : FilesystemMountBinding -> string -> result BrokerErrorCode N)
  (state : list string * list (string * CommandValue)) (template : CommandArgument)
  : result BrokerErrorCode (list string * list (string * CommandValue)) :=
  let '(arguments, values) := state in
  match template with
  | Literal value => Ok (arguments ++ [value], values)
  | BoundedInteger name _ _ =>
      p ← take_value name values;
      match p.1 with
      | IntegerValue _ value => Ok (arguments ++ [pretty value], p.2)
      | _ => Err EInvalidRequest
      end
  | FixedEnum name _ | BoundedText name _ | UrlArgument name _ =>
      p ← take_value name values;
      match p.1 with
      | FixedEnumValue _ value | TextValue _ value | UrlValue _ value =>
          Ok (arguments ++ [value], p.2)
      | _ => Err EInvalidRequest
      end
  | ApprovedFile name mount =>
      p ← take_value name values;
      match p.1 with
      | ApprovedFileValue _ path =>
          mount_root ← ok_or EOutOfScope (bt_get mount mounts);
          file ← open_approved mount_root path;
          Ok (arguments ++ ["/proc/self/fd/" +:+ pretty file], p.2)
      | _ => Err EInvalidRequest
      end
  end.

Definition prepare_arguments request
  (open_approved : FilesystemMountBinding -> string -> result BrokerErrorCode N)
  : result BrokerErrorCode (list string) :=
  p ← decode_rule_and_values request;
  state ← foldR (build_argument (filesystem_mounts (bk_bindings request)) open_approved)
            ([], values_by_name (crq_values p.2)) (cm_arguments p.1);
  Ok state.1.

(** ** The processes and their output *)

(** [reserve_process]: the number of running processes after the attempt. *)
Definition reserve_process (active maximum : N) : result BrokerErrorCode N :=
  if (active <? maximum)%N then Ok (active + 1)%N else Err EQuotaExceeded.

(** [reserve_output]: the total after the attempt, and whether it was granted. *)
Definition reserve_output (total count maximum : N) : N * bool :=
  match checked_add64 total count with
  | Some next => if (next <=? maximum)%N then (next, true) else (total, false)
  | None => (total, false)
  end.
End Backend.

(** ** What reaches the command line *)

Section Spec.
Context {Identity : Type} {U : UrlCrate}.
Context (mounts : list (string * FilesystemMountBinding)).
Context (open_approved : FilesystemMountBinding -> string -> result BrokerErrorCode N).

(** The texts a template element allows on the command line. *)
Definition argument_allows (template : CommandArgument) (text : string) : Prop :=
  match template with
  | Literal value => text = value
  | BoundedInteger _ minimum maximum =>
      exists value : Z, (minimum <= value <= maximum)%Z /\ text = pretty value
  | FixedEnum _ values => text ∈ values
  | BoundedText _ maximum_bytes =>
      (slen text <= maximum_bytes)%N /\ contains_byte text "000" = false
  | UrlArgument _ schemes => exists url, Url_parse text = Some url /\ Url_scheme url ∈ schemes
  | ApprovedFile _ mount => exists root path file,
      bt_get mount mounts = Some root /\ valid_relative_path path = true /\
      open_approved root path = Ok file /\ text = "/proc/self/fd/" +:+ pretty file
  end.

(** The mounts of the template are bound and their files open. *)
Definition files_open (template : CommandArgument) : Prop :=
  match template with
  | ApprovedFile _ mount => exists root, bt_get mount mounts = Some root /\
      forall path, exists file, open_approved root path = Ok file
  | _ => True
  end.

Lemma build_validated values template values' :
  validate_argument values template = Ok values' ->
  (forall arguments state', build_argument mounts open_approved (arguments, values) template = Ok state' ->
     exists text, state' = (arguments ++ [text], values') /\ argument_allows template text) /\
  (files_open template -> forall arguments, exists state',
     build_argument mounts open_approved (arguments, values) template = Ok state').
Proof.
  unfold validate_argument, build_argument, take_value.
  destruct template; simpl; intros Hv; inv_ok; simpl in *; rewrite ?Hok1; simpl;
    try (split; [intros arguments state' [= <-]; eauto | eauto]; fail).
  all: match goal with v : CommandValue |- _ => destruct v end; try done; simpl in *; inv_ok.
  - b2p. rewrite !Z.ltb_ge in *. split; [intros; inv_ok; eauto 8|eauto].
  - b2p. split; [intros; inv_ok; eauto|eauto].
  - b2p. rewrite N.ltb_ge in *. split; [intros; inv_ok; naive_solver|eauto].
  - b2p. split.
    + intros arguments state' Hb. destruct (bt_get mount mounts) as [root|] eqn:Hm; [|done].
      simpl in Hb. destruct (open_approved root path) as [file|] eqn:Hf; [|done]. simpl in Hb. inv_ok.
      eexists. split; [done|]. exists root, path, file. done.
    + intros (root & Hroot & Hfile) arguments. destruct (Hfile path) as [file Hf].
      rewrite Hroot. simpl. rewrite Hf. simpl. eauto.
  - b2p. split; [intros; inv_ok; eauto 8|eauto].
Qed.
Lemma build_all templates values values' :
  foldR validate_argument values templates = Ok values' ->
  (forall arguments state',
     foldR (build_argument mounts open_approved) (arguments, values) templates = Ok state' ->
     exists texts, state'.1 = arguments ++ texts /\ Forall2 argument_allows templates texts) /\
  (Forall files_open templates -> forall arguments, exists state',
     foldR (build_argument mounts open_approved) (arguments, values) templates = Ok state').
Proof.
  revert values. induction templates as [|template templates IH]; intros values Hv; cbn [foldR] in *.
  - inv_ok. split; [|eauto]. intros arguments state' [= <-]. exists []. by rewrite app_nil_r.
  - apply bind_Ok in Hv as (values1 & Hv1 & Hv).
    destruct (build_validated _ _ _ Hv1) as [Hsome Hall]. destruct (IH _ Hv) as [IHsome IHall].
    split.
    + intros arguments state' Hb. apply bind_Ok in Hb as (state1 & Hb1 & Hb).
      destruct (Hsome _ _ Hb1) as (text & -> & Htext).
      destruct (IHsome _ _ Hb) as (texts & -> & Htexts).
      exists (text :: texts). rewrite <- (assoc_L app). auto.
    + rewrite Forall_cons. intros [Hf Hfs] arguments.
      destruct (Hall Hf arguments) as [state1 Hb1]. destruct (Hsome _ _ Hb1) as (text & -> & _).
      rewrite Hb1. cbn. by apply IHall.
Qed.

Lemma decode_rule_Ok (request : BackendRequest Identity) rule submitted :
  decode_rule_and_values request = Ok (rule, submitted) ->
  exists scope, bk_authorized_scope request = CommandRun scope /\ rule ∈ cm_commands scope /\
    cm_id rule = crq_command_id submitted /\ validate_values rule (crq_values submitted) = Ok () /\
    decoded (CommandRunRequest_decode (bk_payload request)) = Ok submitted /\
    List.filter (fun rule => String.eqb (cm_id rule) (crq_command_id submitted))
      (cm_commands scope) = [rule].
Proof.
  unfold decode_rule_and_values, command_scope. intros Hd. apply bind_Ok in Hd as (_ & _ & Hd).
  destruct (bk_authorized_scope request); try done. simpl in Hd.
  apply bind_Ok in Hd as (w & Hw & Hd).
  destruct (List.filter _ _) as [|r [|? ?]] eqn:Hfilter; try done.
  apply bind_Ok in Hd as ([] & Hv & Hd). injection Hd as <- <-.
  assert (In r (List.filter (fun rule => String.eqb (cm_id rule) (crq_command_id w)) (cm_commands s)))
    as [Hin Hid]%filter_In by (rewrite Hfilter; by left).
  exists s. apply String.eqb_eq in Hid. apply list_elem_of_In in Hin. auto 10.
Qed.
End Spec.

(** The command line of an accepted request follows the template of the one
    command of the scope it names: each element yields exactly one argument,
    the literal itself or a value within the element's bounds; building it
    cannot fail but by opening an approved file. *)
Theorem command_line_follows_rule {Identity} {U : UrlCrate} (request : BackendRequest Identity)
  (open_approved : FilesystemMountBinding -> string -> result BrokerErrorCode N) rule submitted
  (Hdecoded : decode_rule_and_values request = Ok (rule, submitted)) :
  let mounts := filesystem_mounts (bk_bindings request) in
  (exists scope, bk_authorized_scope request = CommandRun scope /\ rule ∈ cm_commands scope /\
     cm_id rule = crq_command_id submitted) /\
  (forall argv, prepare_arguments request open_approved = Ok argv ->
     Forall2 (argument_allows mounts open_approved) (cm_arguments rule) argv) /\
  (Forall (files_open mounts open_approved) (cm_arguments rule) ->
     exists argv, prepare_arguments request open_approved = Ok argv).
Proof.
  intros mounts. destruct (decode_rule_Ok request rule submitted Hdecoded)
    as (scope & Hscope & Hrule & Hid & Hv & _). split; [eauto|].
  unfold validate_values in Hv. apply bind_Ok in Hv as (rest & Hv & _).
  destruct (build_all mounts open_approved _ _ _ Hv) as [Hsome Hall].
  unfold prepare_arguments. rewrite Hdecoded. simpl. split.
  - intros argv Hb. apply bind_Ok in Hb as (state & Hb & Hargv). injection Hargv as <-.
    destruct (Hsome _ _ Hb) as (texts & -> & Htexts). done.
  - intros Hfs. destruct (Hall Hfs []) as [state Hs]. exists state.1.
    subst mounts. rewrite Hs. done.
Qed.

(** ** A narrower template accepts fewer values *)

Section Narrowing.
Context {Identity : Type} {U : UrlCrate}.

Lemma check_narrow new old value :
  command_argument_subset new old = true -> check_value new value = Ok () -> check_value old value = Ok ().
Proof.
  unfold command_argument_subset, check_value.
  destruct new, old; try done; destruct value; try done; b2p;
    rewrite ?String.eqb_eq, ?Z.leb_le, ?N.leb_le; intros Hsub; autorewrite with rust; b2p.
  - rewrite !Z.ltb_ge. lia.
  - set_solver.
  - rewrite !N.ltb_ge. intros [? ?]. split; [lia|done].
  - intros (url & Hurl & Hs). exists url. split; [done|].
    rewrite reject_if_Ok, negb_false_iff, elem_b_spec in *. set_solver.
Qed.

Lemma argument_name_narrow new old :
  command_argument_subset new old = true -> argument_name new = argument_name old.
Proof.
  destruct new, old; simpl; try done; b2p; rewrite ?String.eqb_eq; intros; destruct_and?; congruence.
Qed.

Lemma validate_argument_narrow new old values values' :
  command_argument_subset new old = true ->
  validate_argument values new = Ok values' -> validate_argument values old = Ok values'.
Proof.
  intros Hsub. unfold validate_argument. rewrite <- (argument_name_narrow _ _ Hsub).
  destruct (argument_name new) as [name|]; [|done]. destruct (take_value name values) as [p|]; [|done].
  simpl. intros Hv. apply bind_Ok in Hv as ([] & Hc & Hv). by rewrite (check_narrow _ _ _ Hsub Hc).
Qed.

Lemma validate_arguments_narrow news olds values values' :
  length news = length olds ->
  forallb (fun p => command_argument_subset p.1 p.2) (zip news olds) = true ->
  foldR validate_argument values news = Ok values' -> foldR validate_argument values olds = Ok values'.
Proof.
  revert olds values. induction news as [|new news IH]; intros [|old olds] values; simpl; try done.
  intros [= Hlen]. rewrite andb_true_iff. intros [Hsub Hsubs] Hv.
  apply bind_Ok in Hv as (values1 & Hv1 & Hv).
  rewrite (validate_argument_narrow _ _ _ _ Hsub Hv1). simpl. by apply IH.
Qed.

Lemma validate_values_narrow new old values :
  command_rule_subset new old = true -> validate_values new values = Ok () ->
  validate_values old values = Ok ().
Proof.
  unfold command_rule_subset, validate_values. b2p. rewrite N.eqb_eq. intros Hsub Hv.
  repeat match goal with H : _ /\ _ |- _ => destruct H end.
  apply bind_Ok in Hv as (rest & Hv & Hrest).
  erewrite validate_arguments_narrow; [exact Hrest| |done|exact Hv].
  unfold len in *. lia.
Qed.
End Narrowing.

(** ** An example *)

Definition sample_command_request : BackendRequest () :=
  {| bk_identity := (); bk_request_id := 1; bk_capability := CommandRunV1;
     bk_authorized_scope := CommandRun
       {| cm_commands := [{| cm_id := "volume"; cm_executable := "/usr/bin/volume";
            cm_arguments := [Literal "set"; BoundedInteger "level" 0 100];
            cm_environment := []; cm_working_directory := None; cm_maximum_output_bytes := 100;
            cm_timeout_milliseconds := 100 |}];
          cm_maximum_parallel_processes := 1 |};
     bk_bindings := {| filesystem_mounts := []; secrets := []; local_endpoints := []; clipboard := None |};
     bk_activation := None; bk_operation := "run";
     bk_payload := match CommandRunRequest_encode
       {| crq_command_id := "volume"; crq_values := [IntegerValue "level" 42] |} with
       Ok payload => payload | Err _ => [] end |}.

Lemma command_line_follows_rule_witness :
  prepare_arguments (U := sample_url_crate) sample_command_request (fun _ _ => Err EInternal)
    = Ok ["set"; "42"] /\
  argument_allows (U := sample_url_crate) [] (fun _ _ => Err EInternal) (BoundedInteger "level" 0 100) "42".
Proof.
  destruct (decode_rule_and_values (U := sample_url_crate) sample_command_request)
    as [[rule submitted]|e] eqn:H; [|vm_compute in H; discriminate H].
  pose proof (command_line_follows_rule (U := sample_url_crate) sample_command_request
    (fun _ _ => Err EInternal) rule submitted H) as (_ & Hargv & _).
  assert (prepare_arguments (U := sample_url_crate) sample_command_request (fun _ _ => Err EInternal)
    = Ok ["set"; "42"]) as Hp by (vm_compute; reflexivity).
  split; [exact Hp|]. specialize (Hargv _ Hp). vm_compute in H. injection H as <- _.
  inversion Hargv as [|? ? ? ? _ Hrest]; subst. by inversion Hrest.
Defined.
