(* ===== verification/Http.v ===== *)
(** * Http: requests to the origins a scope names

    Models [crates/touchbar-plugin-supervisor/src/http.rs]: decoding and
    authorization, the request rate, name resolution with its address filter,
    the redirect loop of a plain request and of a stream, and the checks on
    responses.  The outside is a world threaded through the loop: when the
    cancellation token fires, what the resolver answers, what the transport
    answers (for a stream, which callbacks it makes before it answers), and
    whether an event still finds its stream.  What the backend does to the
    outside is logged. *)

From S2P Require Import Prelude BTree Text Capability Grants Wire Protocol Lifecycle Executor Payload SchemaNet Address Web.

Definition HTTP_REQUEST_OPERATION : string := "request".
Definition HTTP_STREAM_OPERATION : string := "request-stream".
Definition MAX_REDIRECTS : nat := 5.
Definition MAX_SAFE_HEADER_BYTES : N := 4096.
Definition RATE_WINDOW_MICROS : N := 60000000.

#[export] Instance HttpRequestMethod_eq_dec : EqDecision HttpRequestMethod.
Proof. solve_decision. Defined.

Record HttpTransportResponse := {
  tr_status : N;
  tr_location : option string;
  tr_content_type : option string;
  tr_etag : option string;
  tr_content_encoding : option string;
  tr_body : list N;
}.

Definition policy_method (method : HttpRequestMethod) : HttpMethod :=
  match method with
  | MethodGet => HttpGet | MethodHead => HttpHead | MethodPost => HttpPost
  | MethodPut => HttpPut | MethodPatch => HttpPatch | MethodDelete => HttpDelete
  end.

Definition is_redirect (status : N) : bool :=
  existsb (N.eqb status) [301; 302; 303; 307; 308]%N.

Definition validate_header_value (value : string) : result BrokerErrorCode () :=
  reject_if (String.eqb value "" || (MAX_SAFE_HEADER_BYTES <? slen value)%N
             || any_byte (fun byte => (byte_of byte <? 32) || (byte_of byte =? 127))%N value)
    EInvalidRequest.

(** [.into_iter().flatten()]. *)
Definition flatten {A} (l : list (option A)) : list A := omap id l.

Definition validate_transport_response (response : HttpTransportResponse)
  (maximum_response_bytes : N) : result BrokerErrorCode () :=
  _ ← reject_if (negb ((100 <=? tr_status response) && (tr_status response <=? 599)))%N
        EBackendFailed;
  _ ← reject_if (maximum_response_bytes <? len (tr_body response))%N EQuotaExceeded;
  _ ← reject_if (match tr_content_encoding response with
                 | Some encoding => negb (eq_ignore_ascii_case encoding "identity")
                 | None => false
                 end) EUnsupported;
  _ ← mapR (fun value => map_err (fun _ => EBackendFailed) (validate_header_value value))
        (flatten [tr_location response; tr_content_type response; tr_etag response;
                  tr_content_encoding response]);
  Ok ().

Definition account_request_body (transmitted next_body_bytes maximum_request_bytes : N)
  : result BrokerErrorCode N :=
  transmitted ← ok_or EQuotaExceeded (checked_add64 transmitted next_body_bytes);
  _ ← reject_if (maximum_request_bytes <? transmitted)%N EQuotaExceeded;
  Ok transmitted.

(** [Vec::dedup]. *)
Fixpoint dedup {A} `{EqDecision A} (l : list A) : list A :=
  match l with
  | a :: (b :: _) as l' => if bool_decide (a = b) then dedup l' else a :: dedup l'
  | _ => l
  end.

Section Authorize.
Context {U : UrlCrate}.

Definition authorize_url (scope : HttpRequestScope) (method : HttpRequestMethod) (url : Url)
  : result BrokerErrorCode () :=
  _ ← reject_if (negb (elem_b (policy_method method) (hr_methods scope))) EOutOfScope;
  _ ← reject_if (negb (String.eqb (Url_username url) "") || is_some (Url_password url)
                 || is_some (Url_fragment url) || Url_cannot_be_a_base url
                 || is_none (Url_host url) || contains_byte (Url_as_str url) "\"
                 || dangerous_encoded_path (Url_path url)) EInvalidRequest;
  let scheme := Url_scheme url in
  _ ← reject_if (negb (String.eqb scheme "http") && negb (String.eqb scheme "https")) EOutOfScope;
  host ← ok_or EInvalidRequest (canonical_url_host url);
  port ← ok_or EInvalidRequest (Url_port_or_known_default url);
  reject_if (negb (existsb (origin_matches scheme host port (Url_path url)) (hr_origins scope)))
    EOutOfScope.

Definition authorize_wire_request_for_url (request : SchemaNet.HttpRequest)
  (scope : HttpRequestScope) (url : Url) : result BrokerErrorCode () :=
  _ ← reject_if (hr_maximum_request_bytes scope <? len (hq_body request))%N EQuotaExceeded;
  _ ← reject_if (match hq_method request with
                 | MethodGet | MethodHead =>
                     negb (bool_decide (hq_body request = [])) || is_some (hq_content_type request)
                 | _ => false
                 end) EInvalidRequest;
  _ ← mapR validate_header_value (flatten [hq_accept request; hq_content_type request]);
  authorize_url scope (hq_method request) url.

Definition authorize_wire_request (request : SchemaNet.HttpRequest) (scope : HttpRequestScope)
  : result BrokerErrorCode Url :=
  url ← ok_or EInvalidRequest (Url_parse (hq_url request));
  _ ← authorize_wire_request_for_url request scope url;
  Ok url.

Section Backend.
Context {Identity : Type}.
Implicit Types request : BackendRequest Identity.

Definition decode_request request (operation : string)
  : result BrokerErrorCode (SchemaNet.HttpRequest * HttpRequestScope) :=
  _ ← reject_if (negb (bool_decide (bk_capability request = HttpRequestV1))
                 || negb (String.eqb (bk_operation request) operation)) EInvalidRequest;
  match bk_authorized_scope request with
  | Capability.HttpRequest scope =>
      wire ← decoded (HttpRequest_decode (bk_payload request));
      Ok (wire, scope)
  | _ => Err EInvalidRequest
  end.

(** The requests that leave the rate window from its front. *)
Fixpoint expire_rate (now : N) (rate : list N) : list N :=
  match rate with
  | started :: rate' =>
      if (RATE_WINDOW_MICROS <=? sat_sub now started)%N then expire_rate now rate' else rate
  | [] => []
  end.

(** [authorize] of both operations; the queue of start times is the
    backend's state. *)
Definition authorize_operation request (operation : string) (now : N) (rate : list N)
  : list N * result BrokerErrorCode () :=
  match (p ← decode_request request operation; _ ← authorize_wire_request p.1 p.2; Ok p.2) with
  | Err e => (rate, Err e)
  | Ok scope =>
      let rate := expire_rate now rate in
      if (hr_maximum_requests_per_minute scope <=? len rate)%N then (rate, Err ERateLimited)
      else (rate ++ [now], Ok ())
  end.
End Backend.

(** ** The outside *)

(** What the transport is asked to send. *)
Record Sent := {
  st_wire : SchemaNet.HttpRequest;
  st_url : Url;
  st_addresses : list SocketAddr;
  st_maximum_response_bytes : N;
}.
Inductive Callback := MetadataCallback (response : HttpTransportResponse) | ChunkCallback (chunk : list N).
(** An emitted event is logged with the payload it is encoded to. *)
Inductive Action := DidSend (sent : Sent) | DidEmit (event : HttpStreamEvent) (payload : list N).

Class HttpWorld (W : Type) := {
  world_reason : W -> W * option BrokerErrorCode;
  world_resolve : string -> N -> W -> W * result BrokerErrorCode (list SocketAddr);
  world_send : Sent -> W -> W * result BrokerErrorCode HttpTransportResponse;
  world_stream : Sent -> W -> W * (list Callback * result BrokerErrorCode HttpTransportResponse);
  world_emit : list N -> W -> W * result BrokerErrorCode ();
}.

Context {W : Type} `{!HttpWorld W}.

(** The world, the log of actions and the error are threaded. *)
Definition Run (A : Type) : Type := W -> W * list Action * result BrokerErrorCode A.
#[export] Instance Run_ret : MRet Run := fun _ a w => (w, [], Ok a).
#[export] Instance Run_bind : MBind Run := fun _ _ k m w =>
  match m w with
  | (w1, log1, Ok a) => let '(w2, log2, r) := k a w1 in (w2, log1 ++ log2, r)
  | (w1, log1, Err e) => (w1, log1, Err e)
  end.
Definition lift {A} (r : result BrokerErrorCode A) : Run A := fun w => (w, [], r).

Definition check_reason : Run () := fun w =>
  let '(w, reason) := world_reason w in
  (w, [], match reason with Some reason => Err reason | None => Ok () end).
Definition resolve (host : string) (port : N) : Run (list SocketAddr) := fun w =>
  let '(w, r) := world_resolve host port w in (w, [], r).
Definition send (sent : Sent) : Run HttpTransportResponse := fun w =>
  let '(w, r) := world_send sent w in (w, [DidSend sent], r).
(** [event.encode()] and [events.emit_buffered(payload)]. *)
Definition emit_event (event : HttpStreamEvent) : Run () := fun w =>
  match HttpStreamEvent_encode event with
  | Ok payload => let '(w, r) := world_emit payload w in (w, [DidEmit event payload], r)
  | Err e => (w, [], Err (schema_error e))
  end.

Definition resolve_and_validate (url : Url) (private_network : bool) : Run (list SocketAddr) :=
  _ ← check_reason;
  port ← lift (ok_or EInvalidRequest (Url_port_or_known_default url));
  host ← lift (ok_or EInvalidRequest (Url_host url));
  addresses ← match host with
              | Ipv4Host address => mret [socket_addr (V4 address) port]
              | Ipv6Host address => mret [socket_addr (V6 address) port]
              | Domain host => resolve host port
              end;
  _ ← check_reason;
  let addresses := dedup (sort_by (key_le socket_key) addresses) in
  _ ← lift (reject_if (bool_decide (addresses = [])
                       || existsb (fun address =>
                            negb (sa_port address =? port)%N
                            || negb (address_allowed (sa_ip address) private_network)) addresses)
              EOutOfScope);
  mret addresses.

(** The request after a redirect with this status. *)
Definition redirected (status : N) (wire : SchemaNet.HttpRequest) : SchemaNet.HttpRequest :=
  if (status =? 303)%N && negb (bool_decide (hq_method wire = MethodHead))
  then {| hq_method := MethodGet; hq_url := hq_url wire; hq_accept := hq_accept wire;
          hq_content_type := None; hq_body := [] |}
  else wire.

Definition followed_location (response : HttpTransportResponse) : option string :=
  if is_redirect (tr_status response) then tr_location response else None.

(** The loop of [execute_inner]; [remaining] iterations of
    [0..=MAX_REDIRECTS] are left. *)
Fixpoint request_loop (scope : HttpRequestScope) (maximum_response_bytes : N) (remaining : nat)
  (wire : SchemaNet.HttpRequest) (url : Url) (transmitted : N) : Run HttpResponse :=
  match remaining with
  | O => lift (Err EInternal)
  | S remaining' =>
      _ ← check_reason;
      _ ← lift (authorize_url scope (hq_method wire) url);
      transmitted ← lift (account_request_body transmitted (len (hq_body wire))
                            (hr_maximum_request_bytes scope));
      addresses ← resolve_and_validate url (hr_private_network scope);
      response ← send {| st_wire := wire; st_url := url; st_addresses := addresses;
                         st_maximum_response_bytes := maximum_response_bytes |};
      _ ← lift (validate_transport_response response maximum_response_bytes);
      match followed_location response with
      | None =>
          mret {| hp_status := tr_status response; hp_final_url := Url_as_str url;
                  hp_content_type := tr_content_type response; hp_etag := tr_etag response;
                  hp_body := tr_body response |}
      | Some location =>
          match remaining' with
          | O => lift (Err EQuotaExceeded)
          | S _ =>
              next ← lift (ok_or EInvalidRequest (Url_join url location));
              let wire := redirected (tr_status response) wire in
              _ ← lift (authorize_wire_request_for_url wire scope next);
              request_loop scope maximum_response_bytes remaining' wire next transmitted
          end
      end
  end.

Definition execute_inner {Identity} (request : BackendRequest Identity) : Run HttpResponse :=
  p ← lift (decode_request request HTTP_REQUEST_OPERATION);
  let '(wire, scope) := p in
  url ← lift (authorize_wire_request wire scope);
  let maximum_response_bytes := N.min (hr_maximum_response_bytes scope) MAX_HTTP_INLINE_BODY_BYTES in
  request_loop scope maximum_response_bytes (S MAX_REDIRECTS) wire url 0.

(** [Backend::execute]. *)
Definition execute {Identity} (request : BackendRequest Identity) (w : W)
  : W * list Action * BrokerResult :=
  match execute_inner request w with
  | (w, log, Ok response) =>
      (w, log, match HttpResponse_encode response with
               | Ok payload => Success payload
               | Err _ => BrokerError EBackendFailed
               end)
  | (w, log, Err e) => (w, log, BrokerError e)
  end.

(** ** Streams *)

Definition emit_metadata (current_url : string) (response : HttpTransportResponse) : Run () :=
  if negb (is_redirect (tr_status response)) || is_none (tr_location response) then
    emit_event (HttpMetadata (tr_status response) current_url (tr_content_type response)
                  (tr_etag response))
  else mret ().

Definition emit_chunk (maximum_response_bytes total_bytes : N) (chunk : list N) : Run N :=
  total_bytes ← lift (ok_or EQuotaExceeded (checked_add64 total_bytes (len chunk)));
  _ ← lift (reject_if (maximum_response_bytes <? total_bytes)%N EQuotaExceeded);
  _ ← emit_event (HttpChunk chunk);
  mret total_bytes.

(** The callbacks of a transport, which returns the first error of one. *)
Fixpoint run_callbacks (current_url : string) (maximum_response_bytes total_bytes : N)
  (callbacks : list Callback) : Run N :=
  match callbacks with
  | [] => mret total_bytes
  | MetadataCallback response :: callbacks' =>
      _ ← emit_metadata current_url response;
      run_callbacks current_url maximum_response_bytes total_bytes callbacks'
  | ChunkCallback chunk :: callbacks' =>
      total_bytes ← emit_chunk maximum_response_bytes total_bytes chunk;
      run_callbacks current_url maximum_response_bytes total_bytes callbacks'
  end.

Definition stream (sent : Sent) (total_bytes : N) : Run (N * HttpTransportResponse) := fun w =>
  let '(w, (callbacks, answer)) := world_stream sent w in
  let '(w, log, r) :=
    (total_bytes ← run_callbacks (Url_as_str (st_url sent)) (st_maximum_response_bytes sent)
                     total_bytes callbacks;
     response ← lift answer;
     mret (total_bytes, response)) w in
  (w, DidSend sent :: log, r).

(** The loop of [execute_stream]. *)
Fixpoint stream_loop (scope : HttpRequestScope) (remaining : nat) (wire : SchemaNet.HttpRequest)
  (url : Url) (transmitted total_bytes : N) : Run N :=
  match remaining with
  | O => lift (Err EInternal)
  | S remaining' =>
      _ ← check_reason;
      _ ← lift (authorize_url scope (hq_method wire) url);
      transmitted ← lift (account_request_body transmitted (len (hq_body wire))
                            (hr_maximum_request_bytes scope));
      addresses ← resolve_and_validate url (hr_private_network scope);
      p ← stream {| st_wire := wire; st_url := url; st_addresses := addresses;
                    st_maximum_response_bytes := hr_maximum_response_bytes scope |} total_bytes;
      let '(total_bytes, response) := p in
      _ ← lift (validate_transport_response response (hr_maximum_response_bytes scope));
      match followed_location response with
      | None => mret total_bytes
      | Some location =>
          match remaining' with
          | O => lift (Err EQuotaExceeded)
          | S _ =>
              next ← lift (ok_or EInvalidRequest (Url_join url location));
              let wire := redirected (tr_status response) wire in
              _ ← lift (authorize_wire_request_for_url wire scope next);
              stream_loop scope remaining' wire next transmitted total_bytes
          end
      end
  end.

(** [ResourceBackend::open] decodes, the worker runs [execute_stream]. *)
Definition execute_stream (wire : SchemaNet.HttpRequest) (scope : HttpRequestScope) : Run N :=
  url ← lift (authorize_wire_request wire scope);
  stream_loop scope (S MAX_REDIRECTS) wire url 0 0.
End Authorize.

(** ** What the authorization functions promise *)

Section AuthorizeSpec.
Context {U : UrlCrate}.

(** The URL may be requested with the method under the scope. *)
Definition url_allowed (scope : HttpRequestScope) (method : HttpRequestMethod) (url : Url) : Prop :=
  policy_method method ∈ hr_methods scope /\
  Url_username url = "" /\ Url_password url = None /\ Url_fragment url = None /\
  (Url_scheme url = "http" \/ Url_scheme url = "https") /\
  contains_byte (Url_as_str url) "\" = false /\ dangerous_encoded_path (Url_path url) = false /\
  exists host port origin,
    Url_host url = Some host /\ Url_port_or_known_default url = Some port /\
    origin ∈ hr_origins scope /\ ho_scheme origin = Url_scheme url /\
    ho_host origin = host_text host /\ ho_port origin = port /\
    path_allowed origin (Url_path url) = true.

(** The request itself respects the scope's body limit and the header rules. *)
Definition wire_allowed (scope : HttpRequestScope) (wire : SchemaNet.HttpRequest) : Prop :=
  (len (hq_body wire) <= hr_maximum_request_bytes scope)%N /\
  (hq_method wire = MethodGet \/ hq_method wire = MethodHead ->
     hq_body wire = [] /\ hq_content_type wire = None) /\
  Forall (fun value => validate_header_value value = Ok ())
    (flatten [hq_accept wire; hq_content_type wire]).

(** Every address the transport may connect to passed the address policy. *)
Definition addresses_allowed (scope : HttpRequestScope) (url : Url) (addresses : list SocketAddr)
  : Prop :=
  addresses <> [] /\
  Forall (fun address => Url_port_or_known_default url = Some (sa_port address) /\
    address_allowed (sa_ip address) (hr_private_network scope) = true) addresses.

Definition send_allowed (scope : HttpRequestScope) (sent : Sent) : Prop :=
  url_allowed scope (hq_method (st_wire sent)) (st_url sent) /\
  wire_allowed scope (st_wire sent) /\ addresses_allowed scope (st_url sent) (st_addresses sent).

Lemma authorize_url_spec scope method url :
  authorize_url scope method url = Ok () -> url_allowed scope method url.
Proof.
  unfold authorize_url, url_allowed, canonical_url_host. intros H. inv_ok. b2p.
  rewrite ?String.eqb_eq in *. destruct_and?.
  destruct (Url_host url) as [host|] eqn:Hhost; [|done].
  destruct (Url_password url) eqn:?; [done|]. destruct (Url_fragment url) eqn:?; [done|].
  simpl in *. simplify_eq.
  match goal with H : existsb _ _ = true |- _ => apply existsb_True' in H as (origin & Hin & Hm) end.
  unfold origin_matches in Hm. b2p. rewrite ?String.eqb_eq, ?N.eqb_eq in Hm. destruct_and?.
  repeat split; try done. eauto 12.
Qed.

Lemma wire_spec wire scope url :
  authorize_wire_request_for_url wire scope url = Ok () ->
  wire_allowed scope wire /\ authorize_url scope (hq_method wire) url = Ok ().
Proof.
  unfold authorize_wire_request_for_url, wire_allowed. intros H.
  apply bind_Ok in H as ([] & H1 & H). apply bind_Ok in H as ([] & H2 & H).
  apply bind_Ok in H as (? & H3 & H). split; [|done].
  apply reject_if_Ok in H1, H2. apply N.ltb_ge in H1. split; [done|]. split.
  - intros Hm. assert (negb (bool_decide (hq_body wire = [])) || is_some (hq_content_type wire) = false)
      as Hb by (destruct Hm as [Hm|Hm]; by rewrite Hm in H2).
    b2p. destruct Hb as [? Hc]. split; [done|]. by destruct (hq_content_type wire).
  - apply mapR_Ok in H3. clear -H3. revert x H3. induction (flatten _) as [|h l IH]; intros x; [constructor|].
    inversion 1; subst. match goal with b : () |- _ => destruct b end. constructor; [done|]. by eapply IH.
Qed.
End AuthorizeSpec.

(** ** The loops *)

Section Runs.
Context {U : UrlCrate} {W : Type} `{!HttpWorld W}.

Definition sends (log : list Action) : list Sent :=
  omap (fun a => match a with DidSend sent => Some sent | DidEmit _ _ => None end) log.

Lemma sends_app log log' : sends (log ++ log') = sends log ++ sends log'.
Proof. apply omap_app. Qed.

Lemma run_bind_inv {A B} (m : Run A) (k : A -> Run B) (w w' : W) log r :
  (m ≫= k) w = (w', log, r) ->
  (exists e, m w = (w', log, Err e) /\ r = Err e) \/
  (exists w1 log1 a log2, m w = (w1, log1, Ok a) /\ k a w1 = (w', log2, r) /\ log = log1 ++ log2).
Proof.
  unfold mbind, Run_bind. destruct (m w) as [[w1 log1] [a|e]] eqn:Hm.
  - destruct (k a w1) as [[w2 log2] r2] eqn:Hk. intros [= <- <- <-]. right. eauto 10.
  - intros [= <- <- <-]. left. eauto.
Qed.

(** A run that does nothing to the outside. *)
Definition quiet {A} (m : Run (W := W) A) : Prop := forall w w' log r, m w = (w', log, r) -> log = [].

Lemma quiet_lift {A} (r : result BrokerErrorCode A) : quiet (lift r).
Proof. intros ???? [= _ <- _]. done. Qed.
Lemma quiet_ret {A} (a : A) : quiet (mret (M := Run) a).
Proof. intros ???? [= _ <- _]. done. Qed.
Lemma quiet_reason : quiet check_reason.
Proof. unfold check_reason. intros w w' log r. destruct (world_reason w). by intros [= _ <- _]. Qed.
Lemma quiet_resolve host port : quiet (resolve host port).
Proof. unfold resolve. intros w w' log r. destruct (world_resolve host port w). by intros [= _ <- _]. Qed.
Lemma quiet_bind {A B} (m : Run A) (k : A -> Run B) : quiet m -> (forall a, quiet (k a)) -> quiet (m ≫= k).
Proof.
  intros Hm Hk w w' log r H.
  apply run_bind_inv in H as [(e & H & ->)|(w1 & log1 & a & log2 & H1 & H2 & ->)]; [by eapply Hm|].
  by rewrite (Hm _ _ _ _ H1), (Hk _ _ _ _ _ H2).
Qed.
Lemma quiet_addresses url private_network : quiet (resolve_and_validate url private_network).
Proof.
  unfold resolve_and_validate.
  repeat first [apply quiet_bind; [|intros] | apply quiet_lift | apply quiet_ret | apply quiet_reason];
  match goal with host : Host |- _ => destruct host end;
    first [apply quiet_resolve | apply quiet_ret].
Qed.

(** A quiet step in front does not change what a run does. *)
Lemma quiet_step {A B} (m : Run A) (k : A -> Run B) (w w' : W) log r : quiet m ->
  (m ≫= k) w = (w', log, r) ->
  (exists e, log = [] /\ r = Err e) \/
  (exists w1 a, m w = (w1, [], Ok a) /\ k a w1 = (w', log, r)).
Proof.
  intros Hm H. apply run_bind_inv in H as [(e & H & ->)|(w1 & log1 & a & log2 & H1 & H2 & ->)].
  - left. rewrite (Hm _ _ _ _ H). eauto.
  - right. pose proof (Hm _ _ _ _ H1) as ->. eauto.
Qed.

Lemma lift_inv {A} (r : result BrokerErrorCode A) (w w' : W) log (a : A) :
  lift r w = (w', log, Ok a) -> w' = w /\ log = [] /\ r = Ok a.
Proof. by intros [= <- <- ->]. Qed.

Lemma dedup_subset {A} `{EqDecision A} (l : list A) a : a ∈ dedup l <-> a ∈ l.
Proof.
  induction l as [|b [|c l] IH]; [done|done|].
  change (dedup (b :: c :: l)) with (if bool_decide (b = c) then dedup (c :: l) else b :: dedup (c :: l)).
  case_bool_decide as Hbc.
  - subst. rewrite IH. set_solver.
  - rewrite !elem_of_cons in *. rewrite IH. set_solver.
Qed.

Lemma resolve_and_validate_Ok scope url (w w' : W) log addresses :
  resolve_and_validate url (hr_private_network scope) w = (w', log, Ok addresses) ->
  addresses_allowed scope url addresses.
Proof.
  unfold resolve_and_validate. intros H.
  repeat match type of H with
  | (_ ≫= _) _ = _ =>
      apply run_bind_inv in H as [(? & ? & ?)|(? & ? & ? & ? & ? & H & ?)]; [done|]
  end.
  repeat match goal with Hl : lift _ _ = (_, _, Ok _) |- _ => apply lift_inv in Hl as (_ & _ & Hl) end.
  injection H as _ _ <-. inv_ok. b2p.
  match goal with Hp : Url_port_or_known_default _ = Some _ |- _ => rename Hp into Hport end.
  destruct_and?. split; [done|]. apply Forall_forall. intros address Ha.
  match goal with He : existsb _ _ = false |- _ => rename He into Hex end.
  rewrite existsb_False' in Hex. specialize (Hex address Ha). b2p.
  rewrite N.eqb_eq in Hex. destruct Hex as [Hp Hallowed]. by rewrite Hp.
Qed.
(** The log of at most [n] more requests when [transmitted] body bytes are
    already spent. *)
Definition confined (scope : HttpRequestScope) (n : nat) (transmitted : N) (log : list Action) : Prop :=
  Forall (send_allowed scope) (sends log) /\ length (sends log) <= n /\
  (transmitted + sumN ((fun s => len (hq_body (st_wire s))) <$> sends log)
   <= hr_maximum_request_bytes scope)%N.

Lemma confined_nil scope n transmitted :
  (transmitted <= hr_maximum_request_bytes scope)%N -> confined scope n transmitted [].
Proof. unfold confined, sumN. simpl. split; [done|]. split; [lia|]. by rewrite N.add_0_r. Qed.

Lemma confined_send scope n transmitted transmitted' sent log :
  send_allowed scope sent -> transmitted' = (transmitted + len (hq_body (st_wire sent)))%N ->
  confined scope n transmitted' log -> confined scope (S n) transmitted (DidSend sent :: log).
Proof.
  intros Hs -> (Hf & Hl & Hb). unfold confined.
  change (sends (DidSend sent :: log)) with (sent :: sends log). rewrite fmap_cons.
  cbn [length sumN foldr]. fold (sumN ((fun s => len (hq_body (st_wire s))) <$> sends log)).
  split; [by constructor|]. split; lia.
Qed.

Lemma account_Ok transmitted next maximum transmitted' :
  account_request_body transmitted next maximum = Ok transmitted' ->
  transmitted' = (transmitted + next)%N /\ (transmitted' <= maximum)%N.
Proof.
  unfold account_request_body. intros H. inv_ok. rewrite checked_add64_Some, N.ltb_ge in *. lia.
Qed.

(** The steps before a request is sent. *)
Lemma before_send {B} scope wire url transmitted (k : N -> list SocketAddr -> Run (W := W) B) w w' log r :
  authorize_wire_request_for_url wire scope url = Ok () ->
  (_ ← check_reason;
   _ ← lift (authorize_url scope (hq_method wire) url);
   transmitted ← lift (account_request_body transmitted (len (hq_body wire))
                         (hr_maximum_request_bytes scope));
   addresses ← resolve_and_validate url (hr_private_network scope);
   k transmitted addresses) w = (w', log, r) ->
  (exists e, log = [] /\ r = Err e) \/
  exists w1 transmitted' addresses,
    transmitted' = (transmitted + len (hq_body wire))%N /\
    (transmitted' <= hr_maximum_request_bytes scope)%N /\
    (forall maximum, send_allowed scope
       {| st_wire := wire; st_url := url; st_addresses := addresses; st_maximum_response_bytes := maximum |}) /\
    k transmitted' addresses w1 = (w', log, r).
Proof.
  intros Hwire H. apply wire_spec in Hwire as [Hw Hurl].
  apply quiet_step in H as [?|(w1 & [] & _ & H)]; [by left| |apply quiet_reason].
  apply quiet_step in H as [?|(w2 & [] & _ & H)]; [by left| |apply quiet_lift].
  apply quiet_step in H as [?|(w3 & transmitted' & Ht & H)]; [by left| |apply quiet_lift].
  apply quiet_step in H as [?|(w4 & addresses & Ha & H)]; [by left| |apply quiet_addresses].
  apply lift_inv in Ht as (_ & _ & Ht). apply account_Ok in Ht as [Ht Hmax].
  right. exists w4, transmitted', addresses. split; [done|]. split; [done|]. split; [|done].
  intros maximum. split; [by apply authorize_url_spec|]. split; [done|].
  by eapply resolve_and_validate_Ok.
Qed.

Definition response_ok (maximum_response_bytes : N) (log : list Action) (response : HttpResponse) : Prop :=
  status_in_range (hp_status response) = true /\
  (len (hp_body response) <= maximum_response_bytes)%N /\
  exists sent, last (sends log) = Some sent /\ hp_final_url response = Url_as_str (st_url sent).

Lemma validate_response_Ok response maximum :
  validate_transport_response response maximum = Ok () ->
  status_in_range (tr_status response) = true /\ (len (tr_body response) <= maximum)%N.
Proof.
  unfold validate_transport_response, status_in_range. intros H. inv_ok. b2p.
  rewrite N.ltb_ge in *. done.
Qed.

Lemma last_cons_Some {A} (a b : A) l : last l = Some b -> last (a :: l) = Some b.
Proof. by destruct l. Qed.

Lemma request_loop_spec scope maximum remaining wire url transmitted w w' log r :
  authorize_wire_request_for_url wire scope url = Ok () ->
  (transmitted <= hr_maximum_request_bytes scope)%N ->
  request_loop scope maximum remaining wire url transmitted w = (w', log, r) ->
  confined scope remaining transmitted log /\
  forall response, r = Ok response -> response_ok maximum log response.
Proof.
  revert wire url transmitted w log r.
  induction remaining as [|remaining IH]; intros wire url transmitted w log r Hwire Ht H.
  - injection H as _ <- <-. split; [by apply confined_nil|done].
  - cbn [request_loop] in H. apply before_send in H
      as [(e & -> & ->)|(w1 & t' & addresses & -> & Hmax & Hsend & H)];
      [split; [by apply confined_nil|done]| |done].
    set (sent := {| st_wire := wire |}) in H.
    assert (confined scope (S remaining) transmitted [DidSend sent]) as Hone
      by (eapply confined_send; [apply Hsend|done|by apply confined_nil]).
    apply run_bind_inv in H as [(e & H & ->)|(w2 & log1 & response & log2 & H1 & H & ->)].
    { unfold send in H. destruct (world_send sent w1). injection H as _ <- _. done. }
    unfold send in H1. destruct (world_send sent w1) as [w3 answer]. injection H1 as <- <- ->.
    apply quiet_step in H as [(e & -> & ->)|(w4 & [] & Hv & H)]; [done| |apply quiet_lift].
    apply lift_inv in Hv as (-> & _ & Hv). apply validate_response_Ok in Hv as [Hstatus Hbody].
    destruct (followed_location response) as [location|].
    + destruct remaining as [|remaining]; [injection H as _ <- <-; done|].
      apply quiet_step in H as [(e & -> & ->)|(w5 & next & Hn & H)]; [done| |apply quiet_lift].
      apply quiet_step in H as [(e & -> & ->)|(w6 & [] & Hr & H)]; [done| |apply quiet_lift].
      apply lift_inv in Hr as (-> & _ & Hr).
      destruct (IH _ _ _ _ _ _ Hr Hmax H) as [Hc Hresponse]. split.
      * eapply confined_send; [apply Hsend|done|done].
      * intros r' ->. destruct (Hresponse r' eq_refl) as (? & ? & s' & Hs' & ?).
        split; [done|]. split; [done|]. exists s'. split; [|done].
        change (sends ([DidSend sent] ++ log2)) with (sent :: sends log2). by apply last_cons_Some.
    + injection H as _ <- <-. split; [done|]. intros r' [= <-]. split; [done|]. split; [done|].
      by exists sent.
Qed.

(** The bytes of the chunks the host received. *)
Definition chunk_bytes (log : list Action) : N :=
  sumN ((fun a => match a with DidEmit (HttpChunk bytes) _ => len bytes | _ => 0%N end) <$> log).

Lemma chunk_bytes_nil : chunk_bytes [] = 0%N.
Proof. done. Qed.

Lemma chunk_bytes_app log log' : chunk_bytes (log ++ log') = (chunk_bytes log + chunk_bytes log')%N.
Proof. unfold chunk_bytes. by rewrite fmap_app, sumN_app. Qed.

Lemma emit_event_spec event (w w' : W) log r :
  emit_event event w = (w', log, r) ->
  sends log = [] /\ (chunk_bytes log <= match event with HttpChunk bytes => len bytes | _ => 0 end)%N /\
  (r = Ok () -> chunk_bytes log = match event with HttpChunk bytes => len bytes | _ => 0%N end).
Proof.
  unfold emit_event. destruct (HttpStreamEvent_encode event) as [payload|e].
  - destruct (world_emit payload w) as [w1 r1]. intros [= _ <- _]. unfold chunk_bytes, sends, sumN.
    simpl. destruct event; simpl; rewrite ?N.add_0_r; done.
  - intros [= _ <- <-]. unfold chunk_bytes, sends, sumN. simpl. split; [done|]. split; [lia|done].
Qed.

Lemma emit_metadata_spec current_url response (w w' : W) log r :
  emit_metadata current_url response w = (w', log, r) -> sends log = [] /\ chunk_bytes log = 0%N.
Proof.
  unfold emit_metadata. destruct (_ || _).
  - intros H. apply emit_event_spec in H as (? & ? & _). split; [done|]. lia.
  - intros [= _ <- _]. done.
Qed.

Lemma emit_chunk_spec maximum total chunk (w w' : W) log r :
  (total <= maximum)%N -> emit_chunk maximum total chunk w = (w', log, r) ->
  sends log = [] /\ (total + chunk_bytes log <= maximum)%N /\
  (forall total', r = Ok total' -> total' = (total + chunk_bytes log)%N).
Proof.
  intros Ht H. unfold emit_chunk in H.
  assert (total + chunk_bytes [] <= maximum)%N as Hnil by (unfold chunk_bytes, sumN; simpl; lia).
  apply quiet_step in H as [(e & -> & ->)|(w1 & total1 & H1 & H)]; [done| |apply quiet_lift].
  apply lift_inv in H1 as (-> & _ & H1). rewrite ok_or_Ok, checked_add64_Some in H1.
  destruct H1 as [_ ->].
  apply quiet_step in H as [(e & -> & ->)|(w1 & [] & H1 & H)]; [done| |apply quiet_lift].
  apply lift_inv in H1 as (-> & _ & H1). rewrite reject_if_Ok, N.ltb_ge in H1.
  apply run_bind_inv in H as [(e & H & ->)|(w2 & log1 & [] & log2 & H2 & H & ->)].
  - apply emit_event_spec in H as (? & ? & _). split; [done|]. split; [lia|done].
  - injection H as _ <- <-. rewrite app_nil_r. apply emit_event_spec in H2 as (? & ? & Heq).
    specialize (Heq eq_refl). split; [done|]. split; [lia|]. intros t' [= <-]. lia.
Qed.

Lemma run_callbacks_spec current_url maximum callbacks total (w w' : W) log r :
  (total <= maximum)%N -> run_callbacks current_url maximum total callbacks w = (w', log, r) ->
  sends log = [] /\ (total + chunk_bytes log <= maximum)%N /\
  (forall total', r = Ok total' -> total' = (total + chunk_bytes log)%N).
Proof.
  revert total w log r. induction callbacks as [|[response|chunk] callbacks IH]; intros total w log r Ht H;
    cbn [run_callbacks] in H.
  - injection H as _ <- <-. unfold chunk_bytes, sumN. simpl. split; [done|]. split; [lia|].
    intros ? [= <-]. lia.
  - apply run_bind_inv in H as [(e & H & ->)|(w2 & log1 & [] & log2 & H2 & H & ->)].
    + apply emit_metadata_spec in H as [? ?]. split; [done|]. split; [lia|done].
    + apply emit_metadata_spec in H2 as [Hs1 Hc1]. apply IH in H as (Hs2 & Hc2 & Ht2); [|done].
      rewrite sends_app, chunk_bytes_app, Hs1, Hs2. split; [done|]. split; [lia|].
      intros t' ->. rewrite (Ht2 _ eq_refl). lia.
  - apply run_bind_inv in H as [(e & H & ->)|(w2 & log1 & total1 & log2 & H2 & H & ->)].
    + apply emit_chunk_spec in H as (? & ? & _); [|done]. done.
    + apply emit_chunk_spec in H2 as (Hs1 & Hc1 & Ht1); [|done]. specialize (Ht1 _ eq_refl). subst total1.
      apply IH in H as (Hs2 & Hc2 & Ht2); [|done].
      rewrite sends_app, chunk_bytes_app, Hs1, Hs2. split; [done|]. split; [lia|].
      intros t' ->. rewrite (Ht2 _ eq_refl). lia.
Qed.

Lemma confined_ext scope n transmitted log log' :
  sends log = sends log' -> confined scope n transmitted log -> confined scope n transmitted log'.
Proof. unfold confined. by intros ->. Qed.

Lemma stream_spec sent total (w w' : W) log r :
  (total <= st_maximum_response_bytes sent)%N -> stream sent total w = (w', log, r) ->
  sends log = [sent] /\ (total + chunk_bytes log <= st_maximum_response_bytes sent)%N /\
  (forall total' response, r = Ok (total', response) -> total' = (total + chunk_bytes log)%N).
Proof.
  intros Ht H. unfold stream in H. destruct (world_stream sent w) as [w1 [callbacks answer]].
  match type of H with context [?m w1] => destruct (m w1) as [[w2 log1] r1] eqn:H1 end.
  injection H as _ <- <-.
  change (sends (DidSend sent :: log1)) with (sent :: sends log1).
  change (chunk_bytes (DidSend sent :: log1)) with (chunk_bytes log1).
  apply run_bind_inv in H1 as [(e & H1 & ->)|(w3 & log2 & total1 & log3 & H1 & H2 & ->)].
  - apply run_callbacks_spec in H1 as (-> & ? & _); [|done]. done.
  - apply run_callbacks_spec in H1 as (Hs & Hc & Hv); [|done]. specialize (Hv _ eq_refl).
    assert (log3 = []) as ->
      by (apply (quiet_bind (lift answer) _ (quiet_lift _) (fun _ => quiet_ret _) _ _ _ _ H2)).
    rewrite app_nil_r, Hs. split; [done|]. split; [done|]. intros total' response ->.
    apply quiet_step in H2 as [(e & _ & ?)|(w4 & a & _ & H2)]; [done| |apply quiet_lift].
    by injection H2 as _ <- _.
Qed.

Lemma stream_loop_spec scope remaining wire url transmitted total w w' log r :
  authorize_wire_request_for_url wire scope url = Ok () ->
  (transmitted <= hr_maximum_request_bytes scope)%N ->
  (total <= hr_maximum_response_bytes scope)%N ->
  stream_loop scope remaining wire url transmitted total w = (w', log, r) ->
  confined scope remaining transmitted log /\
  (total + chunk_bytes log <= hr_maximum_response_bytes scope)%N /\
  (forall total', r = Ok total' -> total' = (total + chunk_bytes log)%N).
Proof.
  revert wire url transmitted total w log r.
  induction remaining as [|remaining IH]; intros wire url transmitted total w log r Hwire Ht Htotal H.
  - injection H as _ <- <-. split; [by apply confined_nil|]. rewrite chunk_bytes_nil.
    split; [lia|done].
  - cbn [stream_loop] in H. apply before_send in H
      as [(e & -> & ->)|(w1 & t' & addresses & -> & Hmax & Hsend & H)];
      [split; [by apply confined_nil|]; rewrite chunk_bytes_nil; split; [lia|done]| |done].
    set (sent := {| st_wire := wire |}) in H.
    assert (confined scope (S remaining) transmitted [DidSend sent]) as Hone
      by (eapply confined_send; [apply Hsend|done|by apply confined_nil]).
    apply run_bind_inv in H as [(e & H & ->)|(w2 & log1 & [total1 response] & log2 & H1 & H & ->)].
    { apply stream_spec in H as (Hs & Hc & _); [|done]. split; [by eapply (confined_ext _ _ _ [DidSend sent])|]. done. }
    apply stream_spec in H1 as (Hs & Hc & Hv); [|done]. specialize (Hv _ _ eq_refl).
    change (st_maximum_response_bytes sent) with (hr_maximum_response_bytes scope) in Hc.
    assert (forall e : BrokerErrorCode, confined scope (S remaining) transmitted (log1 ++ []) /\
      (total + chunk_bytes (log1 ++ []) <= hr_maximum_response_bytes scope)%N /\
      forall total', Err e = Ok total' -> total' = (total + chunk_bytes (log1 ++ []))%N) as Hstop.
    { intros e. rewrite app_nil_r. split; [by eapply (confined_ext _ _ _ [DidSend sent])|done]. }
    apply quiet_step in H as [(e & -> & ->)|(w4 & [] & _ & H)]; [apply Hstop| |apply quiet_lift].
    destruct (followed_location response) as [location|].
    + destruct remaining as [|remaining]; [injection H as _ <- <-; apply Hstop|].
      apply quiet_step in H as [(e & -> & ->)|(w5 & next & Hn & H)]; [apply Hstop| |apply quiet_lift].
      apply quiet_step in H as [(e & -> & ->)|(w6 & [] & Hr & H)]; [apply Hstop| |apply quiet_lift].
      apply lift_inv in Hr as (-> & _ & Hr). subst total1.
      destruct (IH _ _ _ _ _ _ _ Hr Hmax Hc H) as (Hconf & Hbytes & Hvalue).
      rewrite chunk_bytes_app. split; [|split; [lia|intros ? ->; rewrite (Hvalue _ eq_refl); lia]].
      eapply (confined_ext _ _ _ (DidSend sent :: log2)); [by rewrite sends_app, Hs|].
      eapply confined_send; [apply Hsend|done|done].
    + injection H as _ <- <-. rewrite app_nil_r. split; [by eapply (confined_ext _ _ _ [DidSend sent])|]. split; [done|].
      intros total' [= <-]. done.
Qed.
End Runs.

(** C32: What a plugin's HTTP request can do: whatever the resolver, the transport
    and the cancellation do, every request sent is allowed by the scope (URL,
    method, headers, no embedded credentials) and goes only to addresses the
    address policy allows for its port; at most six are sent, their bodies
    together stay within the scope's limit, a response is within its limit and
    names the URL that answered; the host receives at most the allowed bytes
    of a stream, and the reported total is exact. *)
Theorem http_confined {U : UrlCrate} {W Identity} `{!HttpWorld W} (request : BackendRequest Identity)
  (w w' : W) log scope :
  bk_authorized_scope request = Capability.HttpRequest scope ->
  (forall r, execute_inner request w = (w', log, r) ->
     confined scope 6 0 log /\
     forall response, r = Ok response ->
       response_ok (N.min (hr_maximum_response_bytes scope) MAX_HTTP_INLINE_BODY_BYTES) log response) /\
  (forall wire r, execute_stream wire scope w = (w', log, r) ->
     confined scope 6 0 log /\ (chunk_bytes log <= hr_maximum_response_bytes scope)%N /\
     forall total, r = Ok total -> total = chunk_bytes log).
Proof.
  intros Hscope.
  assert (forall wire url, authorize_wire_request wire scope = Ok url ->
    authorize_wire_request_for_url wire scope url = Ok ()) as Hauth.
  { unfold authorize_wire_request. intros wire url H. inv_ok. by destruct a0. }
  split.
  - intros r H. unfold execute_inner in H.
    apply quiet_step in H as [(e & -> & ->)|(w1 & [wire scope'] & Hd & H)];
      [split; [apply confined_nil; lia|done]| |apply quiet_lift].
    apply lift_inv in Hd as (-> & _ & Hd).
    assert (scope' = scope) as ->.
    { unfold decode_request in Hd. rewrite Hscope in Hd. inv_ok. done. }
    apply quiet_step in H as [(e & -> & ->)|(w2 & url & Hu & H)];
      [split; [apply confined_nil; lia|done]| |apply quiet_lift].
    apply lift_inv in Hu as (-> & _ & Hu).
    eapply request_loop_spec; [by apply Hauth|lia|exact H].
  - intros wire r H. unfold execute_stream in H.
    apply quiet_step in H as [(e & -> & ->)|(w2 & url & Hu & H)];
      [split; [apply confined_nil; lia|]; rewrite chunk_bytes_nil; split; [lia|done]| |apply quiet_lift].
    apply lift_inv in Hu as (-> & _ & Hu).
    apply stream_loop_spec in H as (? & ? & Hv); [|by apply Hauth|lia|lia].
    split; [done|]. split; [lia|]. intros total ->. rewrite (Hv _ eq_refl). lia.
Qed.

(** A world that redirects once: the state counts the answers. *)
#[export] Instance sample_world : HttpWorld nat := {|
  world_reason := fun w => (w, None);
  world_resolve := fun _ port w =>
    (w, Ok [SocketV4 {| o0 := 93; o1 := 184; o2 := 216; o3 := 34 |} port]);
  world_send := fun _ w =>
    (S w, Ok (match w with
              | O => {| tr_status := 307; tr_location := Some "https://b.example/v1/next";
                        tr_content_type := None; tr_etag := None; tr_content_encoding := None;
                        tr_body := [] |}
              | _ => {| tr_status := 200; tr_location := None; tr_content_type := Some "text/plain";
                        tr_etag := None; tr_content_encoding := None; tr_body := [104; 105]%N |}
              end));
  world_stream := fun _ w =>
    (w, ([ChunkCallback [1; 2; 3]%N],
         Ok {| tr_status := 200; tr_location := None; tr_content_type := None; tr_etag := None;
               tr_content_encoding := None; tr_body := [] |}));
  world_emit := fun _ w => (w, Ok ());
|}.

Definition sample_http_scope : HttpRequestScope :=
  {| hr_origins := [{| ho_scheme := "https"; ho_host := "a.example"; ho_port := 443; ho_path_prefixes := [] |};
                    {| ho_scheme := "https"; ho_host := "b.example"; ho_port := 443;
                       ho_path_prefixes := ["/v1/"] |}];
     hr_methods := [HttpPost]; hr_private_network := false; hr_maximum_request_bytes := 10;
     hr_maximum_response_bytes := 100; hr_maximum_requests_per_minute := 5 |}.
Definition sample_wire : SchemaNet.HttpRequest :=
  {| hq_method := MethodPost; hq_url := "https://a.example/"; hq_accept := None;
     hq_content_type := None; hq_body := [1; 2; 3]%N |}.
Definition sample_http_request : BackendRequest () :=
  {| bk_identity := (); bk_request_id := 1; bk_capability := HttpRequestV1;
     bk_authorized_scope := Capability.HttpRequest sample_http_scope;
     bk_bindings := {| filesystem_mounts := []; secrets := []; local_endpoints := []; clipboard := None |};
     bk_activation := None; bk_operation := "request";
     bk_payload := match HttpRequest_encode sample_wire with Ok payload => payload | Err _ => [] end |}.

(** The sample request is redirected, sent twice with six body bytes in all,
    and answered; the sample stream delivers its three bytes. *)
Lemma http_confined_witness :
  exists log response,
    execute_inner sample_http_request 0 = (2, log, Ok response) /\ length (sends log) = 2 /\
    confined sample_http_scope 6 0 log /\ response_ok 100 log response /\
  exists log' : list Action, execute_stream sample_wire sample_http_scope 0 = (0, log', Ok 3%N) /\
    3%N = chunk_bytes log'.
Proof.
  destruct (execute_inner sample_http_request 0) as [[w' log] r] eqn:H.
  destruct (execute_stream sample_wire sample_http_scope 0) as [[w'' log'] r'] eqn:H'.
  pose proof (proj1 (http_confined sample_http_request 0 w' log sample_http_scope eq_refl) r H) as [Hc Hr].
  pose proof (proj2 (http_confined sample_http_request 0 w'' log' sample_http_scope eq_refl)
    sample_wire r' H') as (_ & _ & Ht).
  vm_compute in H'. injection H' as <- <- <-.
  assert (exists response, r = Ok response) as [response ->].
  { vm_compute in H. injection H as _ _ <-. eauto. }
  exists log, response. split; [|split; [|split; [exact Hc|split; [exact (Hr response eq_refl)|]]]].
  - vm_compute in H. injection H as <- _ _. reflexivity.
  - vm_compute in H. injection H as _ <- _. reflexivity.
  - eexists. split; [reflexivity|]. apply Ht. reflexivity.
Defined.
