(* ===== verification/Narrowing.v ===== *)
(** * Narrowing: a covered scope admits no more than the scope that covers it

    The capability backends as [main.rs] of
    [crates/touchbar-plugin-supervisor] registers them, with the stateless
    part of their admission, and the theorem that connects
    [CapabilityScope::is_subset_of] (by which an update is granted without
    asking) with what the backends accept. *)

From S2P Require Import Prelude BTree Text Capability ScopeCheck Grants Wire Protocol Lifecycle Executor Payload SchemaDesktop SchemaFiles SchemaNet Address Web Quota Desktop Personal Files Dbus Command Http.

Section Admission.
Context {Identity : Type} (instance_id : Identity -> N) (provider : string).
Context {U : UrlCrate} `{ZbusNames}.
Implicit Types request : BackendRequest Identity.

Definition http_admits request (operation : string) : bool :=
  is_ok (p ← decode_request request operation; authorize_wire_request p.1 p.2).
Definition clipboard_admits request : bool :=
  is_ok (operation ← Clipboard.decode_and_match request; Clipboard.authorized operation).
Definition dbus_admits request : bool :=
  is_ok (m ← decode_and_match request; validate_supported_shape m.1).

(** Admission by the backends of a visual plugin's supervisor ([false]) or of
    an appearance worker's ([true]); what depends on time, quotas or the
    activation comes after it. *)
Definition admits (appearance : bool) request : bool :=
  if appearance then
    match bk_capability request with
    | AppearanceProvideV1 => is_ok (Appearance.authorize provider request)
    | _ => false
    end
  else
    match bk_capability request with
    | DbusCallV1 => dbus_admits request
    | ContextReadV1 =>
        is_ok (Context.decode_and_authorize request Context.CONTEXT_SNAPSHOT_OPERATION)
        || is_ok (Context.decode_and_authorize request Context.CONTEXT_SUBSCRIBE_OPERATION)
    | FilesystemReadV1 =>
        is_ok (FilesRead.decode_and_authorize request)
        || is_ok (FilesRead.decode_and_authorize_stream request)
    | FilesystemWriteV1 =>
        is_ok (FilesWrite.decode_and_authorize request)
        || is_ok (FilesWrite.authorize_filesystem_write_stream_begin_request request)
    | HttpRequestV1 =>
        http_admits request HTTP_REQUEST_OPERATION || http_admits request HTTP_STREAM_OPERATION
    | DbusSubscribeV1 => is_ok (decode_and_match_subscription request)
    | CommandRunV1 => is_ok (decode_rule_and_values request)
    | UriOpenV1 => is_ok (Uri.authorize_uri request)
    | NotificationSendV1 => is_ok (Notification.authorize_notification_request request)
    | SecretReadV1 => is_ok (Secret.decode_and_match request)
    | LocalConnectV1 => is_ok (Local.authorize_local_connect_request instance_id request)
    | ClipboardReadV1 | ClipboardWriteV1 => clipboard_admits request
    | AppearanceProvideV1 | UnknownCapability _ => false
    end.
End Admission.

(** ** Each backend *)

Section Narrow.
Context {Identity : Type} (instance_id : Identity -> N) (provider : string).
Context {U : UrlCrate} `{ZbusNamesLaws}.
Implicit Types request : BackendRequest Identity.

(** [f] accepts under [old] what it accepts under a scope that [old] covers. *)
Definition narrows {A} (f : BackendRequest Identity -> result BrokerErrorCode A) : Prop :=
  forall request old, is_subset_of (bk_authorized_scope request) old = true ->
    is_ok (f request) = true -> is_ok (f (with_scope old request)) = true.

(** The scopes of the request and of [old] are of one kind. *)
Ltac same_scope request old :=
  let Hsub := fresh "Hsub" in let Hok := fresh "Hok" in
  intros request old Hsub Hok; apply is_ok_true in Hok as [? Hok];
  revert Hsub Hok; cbn -[reject_if];
  destruct (bk_authorized_scope request) eqn:Hscope, old; cbn -[reject_if]; intros Hsub Hok;
  try discriminate Hsub;
  try (inv_ok; discriminate);
  b2p; destruct_and?.

Lemma context_narrows operation :
  narrows (fun request => Context.decode_and_authorize request operation).
Proof.
  unfold Context.decode_and_authorize. same_scope request old.
  apply is_ok_true. inv_ok. b2p. eexists.
  eapply reject_step; [by b2p|]. eapply bind_step; [done|]. 
  eapply reject_step; [b2p; set_solver|]. eapply reject_step; [done|]. done.
Qed.

Lemma label_narrow mount new old :
  mount_labels_subset new old = true ->
  existsb (fun requested => String.eqb (fm_label requested) mount) new = true ->
  existsb (fun requested => String.eqb (fm_label requested) mount) old = true.
Proof.
  unfold mount_labels_subset. rewrite forallb_True', !existsb_True'.
  intros Hsub (m & Hm & Heq). destruct (proj1 (existsb_True' _ _) (Hsub m Hm)) as (a & Ha & Hl).
  exists a. split; [done|]. apply String.eqb_eq in Heq, Hl. apply String.eqb_eq. congruence.
Qed.

Lemma mount_and_path_narrow mount path allow_empty new old mounts :
  mount_labels_subset new old = true ->
  FilesRead.validate_requested_mount_and_path mount path allow_empty new mounts = Ok () ->
  FilesRead.validate_requested_mount_and_path mount path allow_empty old mounts = Ok ().
Proof.
  unfold FilesRead.validate_requested_mount_and_path. intros Hsub Hok.
  apply bind_Ok in Hok as ([] & Hg & Hok). eapply reject_step; [|done].
  apply reject_if_Ok in Hg. b2p. destruct_and?. repeat split; try done. by eapply label_narrow.
Qed.

Lemma files_read_narrows : narrows FilesRead.decode_and_authorize.
Proof.
  unfold FilesRead.decode_and_authorize. same_scope request old.
  apply is_ok_true. apply bind_Ok in Hok as ([] & Hc & Hok). setoid_rewrite Hc. simpl.
  destruct (String.eqb _ _); [|destruct (String.eqb _ _); [|done]].
  all: apply bind_Ok in Hok as (wanted & Hd & Hok), Hok as ([] & Hv & Hok), Hok as ([] & Hk & Hok).
  all: eexists; eapply bind_step; [done|]; eapply bind_step; [by eapply mount_and_path_narrow|].
  all: apply reject_if_Ok in Hk; b2p; eapply reject_step; [|done]; b2p.
  - set_solver.
  - unfold bool_authority_subset in *. destruct (fr_enumerate s); [|by destruct Hk].
    simpl in *. split; [done|set_solver].
Qed.

Lemma files_stream_narrows : narrows FilesRead.decode_and_authorize_stream.
Proof.
  unfold FilesRead.decode_and_authorize_stream. same_scope request old.
  apply is_ok_true. apply bind_Ok in Hok as ([] & Hc & Hok). setoid_rewrite Hc. simpl.
  apply bind_Ok in Hok as (wanted & Hd & Hok), Hok as ([] & Hv & Hok), Hok as ([] & Hk & Hok),
    Hok as ([] & Hm & Hok).
  apply reject_if_Ok in Hk, Hm. b2p. rewrite N.ltb_ge, ?N.leb_le in *.
  eexists. eapply bind_step; [done|]. eapply bind_step; [by eapply mount_and_path_narrow|].
  eapply reject_step; [b2p; set_solver|]. eapply reject_step; [apply N.ltb_ge; lia|]. done.
Qed.

Lemma appearance_scope_narrows : narrows (Appearance.scope provider).
Proof.
  unfold Appearance.scope. same_scope request old.
  apply is_ok_true. apply bind_Ok in Hok as ([] & Hc & Hok). setoid_rewrite Hc. simpl.
  destruct (elem_b provider (ap_providers s)) eqn:Hp; [|done].
  replace (elem_b provider (ap_providers s0)) with true; [eauto|]. symmetry. b2p. set_solver.
Qed.

Lemma appearance_publish_narrows : narrows (Appearance.decode_publish provider).
Proof.
  unfold Appearance.decode_publish. same_scope request old.
  apply is_ok_true. apply bind_Ok in Hok as ([] & Hc & Hok). setoid_rewrite Hc. simpl.
  apply bind_Ok in Hok as (publication & Hd & Hok), Hok as ([] & Hp & Hok).
  apply reject_if_Ok in Hp. b2p. eexists. eapply bind_step; [done|].
  eapply reject_step; [|done]. b2p. set_solver.
Qed.

Lemma appearance_read_narrows : narrows FilesRead.authorize_appearance_read.
Proof.
  unfold FilesRead.authorize_appearance_read. same_scope request old.
  apply is_ok_true. apply bind_Ok in Hok as ([] & Hc & Hok). setoid_rewrite Hc. simpl.
  apply bind_Ok in Hok as (wanted & Hd & Hok), Hok as ([] & Hv & Hok), Hok as ([] & Hm & Hok).
  apply reject_if_Ok in Hm. rewrite N.ltb_ge, ?N.leb_le in *.
  eexists. eapply bind_step; [done|]. eapply bind_step; [by eapply mount_and_path_narrow|].
  eapply reject_step; [apply N.ltb_ge; lia|]. done.
Qed.

Lemma is_ok_bind {A B} (m : result BrokerErrorCode A) (k : A -> result BrokerErrorCode B) :
  is_ok (m ≫= k) = match m with Ok a => is_ok (k a) | Err _ => false end.
Proof. by destruct m. Qed.

Lemma appearance_narrows : narrows (Appearance.authorize provider).
Proof.
  intros request old Hsub. unfold Appearance.authorize. rewrite !is_ok_bind.
  pose proof (appearance_scope_narrows request old Hsub) as Hs.
  pose proof (appearance_read_narrows request old Hsub) as Hr.
  pose proof (appearance_publish_narrows request old Hsub) as Hp.
  destruct (Appearance.scope provider request); [|done].
  destruct (Appearance.scope provider (with_scope old request)); [|by discriminate Hs].
  change (bk_operation (with_scope old request)) with (bk_operation request).
  destruct (String.eqb _ _); [|destruct (String.eqb _ _); [|done]]; rewrite !is_ok_bind.
  - destruct (FilesRead.authorize_appearance_read request); [|done].
    destruct (FilesRead.authorize_appearance_read _); [done|by discriminate Hr].
  - destruct (Appearance.decode_publish provider request); [|done].
    destruct (Appearance.decode_publish _ _); [done|by discriminate Hp].
Qed.

(** Writing: the operations need the same permissions and checks. *)

Lemma write_path_narrow request new old mount path :
  mount_labels_subset (fw_mounts new) (fw_mounts old) = true ->
  FilesWrite.validate_mount_and_path request new mount path = Ok () ->
  FilesWrite.validate_mount_and_path request old mount path = Ok ().
Proof.
  unfold FilesWrite.validate_mount_and_path. intros Hsub Hok.
  apply bind_Ok in Hok as ([] & Hg & Hok). eapply reject_step; [|done].
  apply reject_if_Ok in Hg. b2p. destruct_and?. repeat split; try done. by eapply label_narrow.
Qed.

Lemma check_mutation_narrow request new old mutation :
  mount_labels_subset (fw_mounts new) (fw_mounts old) = true ->
  (fw_maximum_file_bytes new <= fw_maximum_file_bytes old)%N ->
  FilesWrite.check_mutation request new mutation = Ok () ->
  FilesWrite.check_mutation request old mutation = Ok ().
Proof.
  intros Hsub Hmax. destruct mutation; simpl; intros Hok;
    try (by eapply write_path_narrow);
    repeat match goal with
    | Hb : _ ≫= _ = Ok _ |- _ => apply bind_Ok in Hb as ([] & ? & Hb)
    end;
    repeat (eapply bind_step; [by eapply write_path_narrow|]); try done;
    apply reject_if_Ok in Hok; apply reject_if_Ok; rewrite N.ltb_ge in *; lia.
Qed.

Lemma write_narrows : narrows FilesWrite.decode_and_authorize.
Proof.
  unfold FilesWrite.decode_and_authorize, FilesWrite.filesystem_scope, FilesWrite.require_operation.
  same_scope request old.
  apply is_ok_true. apply bind_Ok in Hok as ([] & Hc & Hok). setoid_rewrite Hc. simpl.
  apply bind_Ok in Hok as (operation & Ho & Hok), Hok as ([] & Hr & Hok),
    Hok as (mutation & Hm & Hok), Hok as ([] & Hk & Hok).
  apply reject_if_Ok in Hr. b2p. rewrite N.leb_le in *.
  eexists. eapply bind_step; [done|]. eapply reject_step; [b2p; set_solver|].
  eapply bind_step; [exact Hm|].
  eapply bind_step; [by apply (check_mutation_narrow request s s0)|done].
Qed.

Lemma write_stream_narrows : narrows FilesWrite.authorize_filesystem_write_stream_begin_request.
Proof.
  unfold FilesWrite.authorize_filesystem_write_stream_begin_request, FilesWrite.filesystem_scope,
    FilesWrite.require_operation.
  same_scope request old.
  apply is_ok_true. apply bind_Ok in Hok as ([] & Hc & Hok). setoid_rewrite Hc. simpl.
  apply bind_Ok in Hok as (operation & Ho & Hok), Hok as ([] & Hr & Hok),
    Hok as (stream & Hm & Hok), Hok as ([] & Hv & Hok), Hok as ([] & Hk & Hok).
  apply reject_if_Ok in Hr, Hk. b2p. rewrite N.ltb_ge, ?N.leb_le in *.
  eexists. eapply bind_step; [done|]. eapply reject_step; [b2p; set_solver|].
  eapply bind_step; [exact Hm|]. eapply bind_step; [by apply (write_path_narrow request s s0)|].
  eapply reject_step; [apply N.ltb_ge; lia|done].
Qed.

(** The network. *)

Lemma authorize_url_narrow new old method url :
  hr_methods new ⊆ hr_methods old -> origins_subset (hr_origins new) (hr_origins old) = true ->
  authorize_url new method url = Ok () -> authorize_url old method url = Ok ().
Proof.
  unfold authorize_url. intros Hm Ho Hok.
  apply bind_Ok in Hok as ([] & H1 & Hok), Hok as ([] & H2 & Hok), Hok as ([] & H3 & Hok),
    Hok as (host & H4 & Hok), Hok as (port & H5 & Hok).
  apply reject_if_Ok in H1, Hok. b2p.
  eapply reject_step; [b2p; set_solver|]. eapply bind_step; [done|]. eapply bind_step; [done|].
  eapply bind_step; [done|]. eapply bind_step; [done|].
  apply reject_if_Ok. b2p. by eapply origins_narrow.
Qed.

Lemma http_narrows operation :
  narrows (fun request => p ← decode_request request operation; authorize_wire_request p.1 p.2).
Proof.
  unfold decode_request, authorize_wire_request, authorize_wire_request_for_url.
  same_scope request old.
  apply is_ok_true. apply bind_Ok in Hok as ([wire scope] & Hd & Hok).
  apply bind_Ok in Hd as ([] & Hc & Hd), Hd as (w & Hd & Hw). injection Hw as <- <-.
  apply bind_Ok in Hok as (url & Hu & Hok), Hok as ([] & Ha & Hok). cbn -[reject_if] in *.
  apply bind_Ok in Ha as ([] & H1' & Ha), Ha as ([] & H2' & Ha), Ha as (? & H3' & Ha).
  apply reject_if_Ok in H1'. rewrite N.ltb_ge, ?N.leb_le in *.
  eexists. eapply (bind_step _ (w, s0));
    [eapply bind_step; [exact Hc|eapply bind_step; [exact Hd|done]]|]. cbn -[reject_if].
  eapply bind_step; [done|]. eapply bind_step; [|done].
  eapply reject_step; [apply N.ltb_ge; lia|]. eapply bind_step; [done|]. eapply bind_step; [done|].
  by apply (authorize_url_narrow s s0).
Qed.

Lemma find_narrow {A B} (f : A -> bool) (g : B -> bool) (l : list A) (m : list B) a :
  List.find f l = Some a ->
  (forall a, a ∈ l -> f a = true -> exists b, b ∈ m /\ g b = true) -> exists b, List.find g m = Some b.
Proof.
  intros Hf Hall. apply find_some in Hf as [Hin Hfa]. apply list_elem_of_In in Hin.
  destruct (Hall a Hin Hfa) as (b & Hb & Hgb).
  destruct (List.find g m) as [b'|] eqn:Hg; [eauto|].
  apply list_elem_of_In in Hb. by rewrite (find_none _ _ Hg b Hb) in Hgb.
Qed.

Lemma identifiers_name call : validate_call_identifiers call = Ok () ->
  well_known_name (dca_destination call) = true.
Proof. unfold validate_call_identifiers. intros H1. inv_ok. by b2p. Qed.

Lemma dbus_narrows :
  narrows (fun request => m ← decode_and_match request; validate_supported_shape m.1).
Proof.
  unfold decode_and_match. same_scope request old.
  apply is_ok_true. apply bind_Ok in Hok as ([call rule] & Hd & Hok).
  apply bind_Ok in Hd as ([] & Hc & Hd), Hd as (w & Hw & Hd), Hd as ([] & Hi & Hd), Hd as (r & Hr & Hd).
  injection Hd as -> ->. apply ok_or_Ok in Hr.
  destruct (find_narrow _ (rule_matches call) _ (dc_rules s0) _ Hr) as [b Hb].
  { intros new Hnew Hm. rewrite forallb_True' in Hsub.
    destruct (proj1 (existsb_True' _ _) (Hsub new Hnew)) as (b & Hb & Hs). exists b. split; [done|].
    eapply rule_narrow; [by apply identifiers_name|done|done]. }
  eexists. eapply (bind_step _ (call, b)); [|exact Hok].
  eapply bind_step; [exact Hc|]. eapply bind_step; [exact Hw|]. eapply bind_step; [exact Hi|].
  by rewrite Hb.
Qed.

Lemma subscription_narrows : narrows decode_and_match_subscription.
Proof.
  unfold decode_and_match_subscription. same_scope request old.
  apply is_ok_true.
  apply bind_Ok in Hok as ([] & Hc & Hok), Hok as (w & Hw & Hok), Hok as ([] & Hi & Hok),
    Hok as ([] & Hs & Hok), Hok as (r & Hr & Hok). apply ok_or_Ok in Hr.
  destruct (find_narrow _ (signal_rule_matches w) _ (ds_rules s0) _ Hr) as [b Hb].
  { intros new Hnew Hm. exists new. split; [set_solver|done]. }
  eexists. eapply bind_step; [exact Hc|]. eapply bind_step; [exact Hw|].
  eapply bind_step; [exact Hi|]. eapply bind_step; [exact Hs|]. by rewrite Hb.
Qed.

(** The desktop. *)

Lemma notification_narrows : narrows Notification.authorize_notification_request.
Proof.
  unfold Notification.authorize_notification_request, Notification.decode_notification.
  same_scope request old.
  apply is_ok_true. apply bind_Ok in Hok as (operation & Hd & Hok).
  apply bind_Ok in Hd as ([] & Hc & Hd).
  destruct (String.eqb _ _) eqn:Hsend; [|destruct (String.eqb _ Notification.NOTIFICATION_REMOVE_OPERATION) eqn:Hremove; [|done]].
  - apply bind_Ok in Hd as (n & Hn & Hd), Hd as ([] & Hg & Hd), Hd as ([] & Hu & Hd).
    apply reject_if_Ok in Hg, Hu. b2p. destruct_and?.
    eexists. eapply (bind_step _ (Notification.SendOperation n s0)); [|done]. eapply bind_step; [exact Hc|]. cbn -[reject_if].
    eapply bind_step; [exact Hn|]. eapply reject_step; [b2p; repeat split; try done; set_solver|].
    eapply reject_step; [b2p; set_solver|]. done.
  - apply bind_Ok in Hd as (n & Hn & Hd), Hd as ([] & Hg & Hd).
    eexists. eapply (bind_step _ (Notification.RemoveOperation (nr_id n))); [|done]. eapply bind_step; [exact Hc|].
    eapply bind_step; [exact Hn|]. eapply bind_step; [exact Hg|]. done.
Qed.

Lemma secret_narrows : narrows Secret.decode_and_match.
Proof.
  unfold Secret.decode_and_match. same_scope request old.
  apply is_ok_true.
  apply bind_Ok in Hok as ([] & Hc & Hok), Hok as (w & Hw & Hok), Hok as ([] & Hg & Hok),
    Hok as ([] & Hs & Hok), Hok as (binding & Hb & Hok). apply reject_if_Ok in Hs. b2p.
  eexists. eapply bind_step; [exact Hc|]. eapply bind_step; [exact Hw|].
  eapply bind_step; [exact Hg|]. eapply reject_step; [b2p; set_solver|].
  eapply bind_step; [exact Hb|]. done.
Qed.

Lemma validate_mime_narrow new old mime_type :
  cb_mime_types new ⊆ cb_mime_types old ->
  Clipboard.validate_mime new mime_type = Ok () -> Clipboard.validate_mime old mime_type = Ok ().
Proof.
  unfold Clipboard.validate_mime. intros Hsub Hok. apply bind_Ok in Hok as ([] & Hc & Hok).
  eapply bind_step; [exact Hc|]. apply reject_if_Ok in Hok. apply reject_if_Ok. b2p. set_solver.
Qed.

Lemma clipboard_narrows :
  narrows (fun request => operation ← Clipboard.decode_and_match request; Clipboard.authorized operation).
Proof.
  unfold Clipboard.decode_and_match. same_scope request old.
  apply is_ok_true. apply bind_Ok in Hok as (operation & Hd & Hok).
  apply bind_Ok in Hd as (binding & Hb & Hd).
  assert (Clipboard.effective_maximum s <= Clipboard.effective_maximum s0)%N as Hmax.
  { unfold Clipboard.effective_maximum, effective_limit. rewrite N.leb_le in *. lia. }
  destruct (_ && _); [|destruct (_ && String.eqb _ Clipboard.CLIPBOARD_WRITE_OPERATION); [|done]].
  all: apply bind_Ok in Hd as (value & Hv & Hd), Hd as ([] & Hm & Hd); injection Hd as <-.
  - eexists. eapply (bind_step _ (Clipboard.Read value s0 binding)); [|done].
    eapply bind_step; [exact Hb|]. eapply bind_step; [exact Hv|].
    eapply bind_step; [by eapply validate_mime_narrow|done].
  - apply bind_Ok in Hok as ([] & Hk & Hok). apply reject_if_Ok in Hk. cbn in Hk.
    eexists. eapply (bind_step _ (Clipboard.Write value s0 binding)).
    + eapply bind_step; [exact Hb|]. eapply bind_step; [exact Hv|].
      eapply bind_step; [by eapply validate_mime_narrow|done].
    + unfold Clipboard.authorized. eapply reject_step; [|done]. cbn. rewrite N.ltb_ge in *. lia.
Qed.

Lemma local_narrows : narrows (Local.authorize_local_connect_request instance_id).
Proof.
  unfold Local.authorize_local_connect_request. same_scope request old.
  apply is_ok_true.
  apply bind_Ok in Hok as ([] & Hc & Hok), Hok as (w & Hw & Hok), Hok as (endpoint & He & Hok),
    Hok as (binding & Hb & Hok).
  apply ok_or_Ok in He. unfold Local.find_endpoint in *.
  destruct (find_narrow _ (fun endpoint => String.eqb (le_label endpoint) (SchemaDesktop.lc_endpoint w)
    && String.eqb (le_protocol endpoint) (lc_protocol w)) _ (lc_endpoints s0) _ He) as [e' He'].
  { intros new Hnew Hm. unfold endpoint_labels_subset in *.
    match goal with Hs : forallb _ _ = true |- _ => rewrite forallb_True' in Hs;
      destruct (proj1 (existsb_True' _ _) (Hs new Hnew)) as (b & Hin & Heq) end.
    exists b. split; [done|]. b2p. rewrite !String.eqb_eq in *. destruct_and?. split; congruence. }
  assert (le_label e' = le_label endpoint) as Hl.
  { apply find_some in He as [_ He], He' as [_ He']. b2p. rewrite !String.eqb_eq in *.
    destruct_and?. congruence. }
  eexists. eapply bind_step; [exact Hc|]. eapply bind_step; [exact Hw|].
  rewrite He'. eapply bind_step; [done|]. rewrite Hl. eapply bind_step; [exact Hb|done].
Qed.

(** Commands: the identifiers of a valid scope are distinct. *)
Lemma command_narrows request old :
  is_subset_of (bk_authorized_scope request) old = true ->
  (forall s, old = CommandRun s -> NoDup (cm_id <$> cm_commands s)) ->
  is_ok (decode_rule_and_values request) = true ->
  is_ok (decode_rule_and_values (with_scope old request)) = true.
Proof.
  intros Hsub Hnodup Hok. apply is_ok_true in Hok as [[rule submitted] Hok].
  pose proof Hok as Hd. apply decode_rule_Ok in Hd
    as (scope & Hscope & Hrule & Hid & Hv & Hw & _).
  rewrite Hscope in Hsub. destruct old; try done. cbn in Hsub. b2p. destruct Hsub as [_ Hsub].
  specialize (Hnodup _ eq_refl). rewrite forallb_True' in Hsub.
  destruct (proj1 (existsb_True' _ _) (Hsub rule Hrule)) as (approved & Ha & Hs).
  assert (cm_id approved = cm_id rule) as Haid.
  { unfold command_rule_subset in Hs. b2p. rewrite !String.eqb_eq in Hs. destruct_and?. congruence. }
  assert (List.filter (fun rule => String.eqb (cm_id rule) (crq_command_id submitted)) (cm_commands s)
    = [approved]) as Hfilter.
  { rewrite <- Hid, <- Haid. clear -Ha Hnodup. induction (cm_commands s) as [|c l IH]; [set_solver|].
    rewrite fmap_cons, NoDup_cons in Hnodup. destruct Hnodup as [Hnot Hnodup]. cbn.
    apply elem_of_cons in Ha as [->|Ha].
    - rewrite String.eqb_refl. f_equal. clear -Hnot. induction l as [|b l IH]; [done|]. cbn.
      destruct (String.eqb_spec (cm_id b) (cm_id c)) as [Heq|_]; [set_solver|]. apply IH. set_solver.
    - destruct (String.eqb_spec (cm_id c) (cm_id approved)) as [Heq|_]; [|by apply IH].
      exfalso. apply Hnot. rewrite Heq. apply list_elem_of_fmap. eauto. }
  apply is_ok_true. unfold decode_rule_and_values in *. apply bind_Ok in Hok as ([] & Hc & _).
  eexists. eapply bind_step; [exact Hc|]. eapply bind_step; [done|]. eapply bind_step; [exact Hw|].
  rewrite Hfilter. eapply bind_step; [by eapply validate_values_narrow|done].
Qed.

(** URIs: the update [uri_update_widens] is about. *)
Definition drops_origins (new old : CapabilityScope) : Prop :=
  match new, old with
  | UriOpen new, UriOpen old => uo_origins new = [] /\ uo_origins old <> []
  | _, _ => False
  end.

Lemma drops_origins_dec new old : base.Decision (drops_origins new old).
Proof. unfold drops_origins. destruct new, old; solve_decision. Defined.

Lemma web_uri_narrow new old uri :
  origins_subset (uo_origins new) (uo_origins old) = true ->
  (uo_origins new = [] -> uo_origins old = []) ->
  Uri.authorize_web_uri new uri = Ok () -> Uri.authorize_web_uri old uri = Ok ().
Proof.
  unfold Uri.authorize_web_uri. intros Hsub Hkeep Hok. apply bind_Ok in Hok as ([] & Hc & Hok).
  eapply bind_step; [exact Hc|].
  destruct (decide (uo_origins old = [])) as [Ho|Ho]; [by rewrite bool_decide_eq_true_2|].
  rewrite bool_decide_eq_false_2 in Hok by auto. rewrite bool_decide_eq_false_2 by done.
  apply bind_Ok in Hok as (host & Hh & Hok), Hok as (port & Hp & Hok).
  eapply bind_step; [exact Hh|]. eapply bind_step; [exact Hp|].
  apply reject_if_Ok in Hok. apply reject_if_Ok. b2p. by eapply origins_narrow.
Qed.

Lemma uri_narrows request old :
  is_subset_of (bk_authorized_scope request) old = true ->
  ~ drops_origins (bk_authorized_scope request) old ->
  is_ok (Uri.authorize_uri request) = true -> is_ok (Uri.authorize_uri (with_scope old request)) = true.
Proof.
  intros Hsub Hkeep Hok. revert request old Hsub Hkeep Hok. unfold Uri.authorize_uri, drops_origins.
  intros request old Hsub Hkeep Hok. apply is_ok_true in Hok as [uri Hok].
  apply bind_Ok in Hok as ([] & Hc & Hok), Hok as (w & Hw & Hok).
  destruct (bk_authorized_scope request) eqn:Hscope, old; try done. cbn in Hsub.
  assert (uo_origins s = [] -> uo_origins s0 = []) as Hkept.
  { intros Hn. destruct (decide (uo_origins s0 = [])); [done|by destruct Hkeep]. }
  apply bind_Ok in Hok as (url & Hu & Hok), Hok as ([] & Hs & Hok), Hok as ([] & Hk & Hok).
  apply reject_if_Ok in Hs. b2p. destruct Hsub as [Hschemes Horigins].
  apply is_ok_true. eexists. eapply bind_step; [exact Hc|]. eapply bind_step; [exact Hw|]. cbn.
  rewrite ok_or_Ok in Hu. rewrite Hu. cbn -[reject_if].
  eapply reject_step; [b2p; set_solver|]. eapply bind_step; [|done].
  destruct (String.eqb (Url_scheme url) "http" || String.eqb (Url_scheme url) "https");
    [by eapply web_uri_narrow|].
  destruct (String.eqb (Url_scheme url) "mailto"); [|done].
  apply reject_if_Ok in Hk. apply reject_if_Ok. b2p. destruct_and?. auto.
Qed.
End Narrow.

(** The identifiers of the commands of a validated scope are distinct. *)
Lemma validated_commands capability s :
  validate_capability_scope capability (CommandRun s) = Ok () -> NoDup (cm_id <$> cm_commands s).
Proof.
  unfold validate_capability_scope. rewrite app_nil_r. intros H.
  destruct (validate_scope capability (CommandRun s) "scope") eqn:Hs; [|done].
  apply validate_scope_nil in Hs as [Hs _]. apply Hs.
Qed.

(** A rule is no stricter than another: it demands a user activation, or
    refuses to start the service, only where the other does. *)
Definition no_stricter (approved rule : DbusCallRule) : Prop :=
  (dc_requires_user_activation approved = true -> dc_requires_user_activation rule = true) /\
  (dc_allow_service_activation rule = true -> dc_allow_service_activation approved = true).

Lemma subset_no_stricter rule approved : dbus_call_rule_subset rule approved = true -> no_stricter approved rule.
Proof.
  unfold dbus_call_rule_subset, activation_requirement_subset, bool_authority_subset, no_stricter. intros H.
  destruct (dc_requires_user_activation approved), (dc_requires_user_activation rule),
    (dc_allow_service_activation approved), (dc_allow_service_activation rule); try done;
    simpl in H; rewrite ?andb_false_r in H; done.
Qed.

(** The first element a search finds is one that satisfies it, or before it. *)
Lemma find_up_to {A} (f : A -> bool) before x after :
  f x = true -> exists first, List.find f (before ++ x :: after) = Some first /\ (first = x \/ first ∈ before).
Proof.
  intros Hx. induction before as [|b l IH]; cbn; [rewrite Hx; eauto|].
  destruct (f b); [exists b; set_solver|]. destruct IH as (first & Hf & [->|Hin]); [eauto|].
  exists first. set_solver.
Qed.

(** What governs a D-Bus call under the covering scope. *)
Lemma dbus_rule_covered {Identity} `{ZbusNamesLaws} (request : BackendRequest Identity) old call rule :
  is_subset_of (bk_authorized_scope request) old = true ->
  decode_and_match request = Ok (call, rule) ->
  exists s before approved after first, old = Capability.DbusCall s /\ dc_rules s = before ++ approved :: after /\
    rule_matches call approved = true /\ no_stricter approved rule /\
    decode_and_match (with_scope old request) = Ok (call, first) /\ (first = approved \/ first ∈ before).
Proof.
  unfold decode_and_match. intros Hsub Hd. apply bind_Ok in Hd as ([] & Hc & Hd),
    Hd as (w & Hw & Hd), Hd as ([] & Hi & Hd).
  destruct (bk_authorized_scope request), old; try done. cbn in Hsub.
  apply bind_Ok in Hd as (r & Hr & Hd). injection Hd as <- <-.
  apply ok_or_Ok in Hr. apply find_some in Hr as [Hin Hm]. apply list_elem_of_In in Hin.
  rewrite forallb_True' in Hsub. destruct (proj1 (existsb_True' _ _) (Hsub r Hin)) as (b & Hb & Hs).
  apply list_elem_of_split in Hb as (before & after & Hl).
  assert (rule_matches w b = true) as Hmb by (eapply rule_narrow; [by apply identifiers_name|done|done]).
  destruct (find_up_to (rule_matches w) before b after Hmb) as (first & Hf & Hor).
  exists s0, before, b, after, first. repeat split; try done; try by apply subset_no_stricter.
  eapply bind_step; [exact Hc|]. eapply bind_step; [exact Hw|]. eapply bind_step; [exact Hi|].
  cbn. by rewrite Hl, Hf.
Qed.

(** Close a goal by a backend's [narrows] lemma. *)
Tactic Notation "narrow" open_constr(lemma) :=
  let Hn := fresh in epose proof lemma as Hn; unfold narrows in Hn; by eapply Hn.

(** C33: The comparison of scopes is sound for the backends: a request admitted
    under a scope is admitted under every validated scope that covers it, for
    every capability a supervisor serves, with one exception: a URI scope
    without origins that is covered by one with some ([uri_update_widens]
    shows what goes wrong there).  A D-Bus call is then matched by a rule of
    the covering scope that demands an activation, or refuses to start a
    service, only where the narrower rule does; the rule the backend goes by is
    that one, or one before it that matches as well ([dbus_update_relaxes]
    shows that such a rule may be stricter). *)
Theorem covered_scope_admits {Identity} (instance_id : Identity -> N) (provider : string)
  {U : UrlCrate} `{ZbusNamesLaws} (appearance : bool) (request : BackendRequest Identity)
  (old : CapabilityScope)
  (Hcovered : is_subset_of (bk_authorized_scope request) old = true)
  (Hvalid : validate_capability_scope (bk_capability request) old = Ok ())
  (Hadmitted : admits instance_id provider appearance request = true) :
  (admits instance_id provider appearance (with_scope old request) = true \/
   drops_origins (bk_authorized_scope request) old) /\
  forall call rule, decode_and_match request = Ok (call, rule) ->
    exists s before approved after first, old = Capability.DbusCall s /\ dc_rules s = before ++ approved :: after /\
      rule_matches call approved = true /\ no_stricter approved rule /\
      decode_and_match (with_scope old request) = Ok (call, first) /\ (first = approved \/ first ∈ before).
Proof.
  split; [|intros; by eapply dbus_rule_covered].
  destruct (drops_origins_dec (bk_authorized_scope request) old) as [Horigins|Horigins]; [by right|left].
  unfold admits in *. change (bk_capability (with_scope old request)) with (bk_capability request).
  destruct appearance, (bk_capability request); try done;
    rewrite ?orb_true_iff in *;
    repeat match goal with Ha : _ \/ _ |- _ \/ _ => destruct Ha as [Ha|Ha]; [left|right] end.
  - narrow appearance_narrows.
  - narrow context_narrows.
  - narrow context_narrows.
  - narrow files_read_narrows.
  - narrow files_stream_narrows.
  - narrow write_narrows.
  - narrow write_stream_narrows.
  - narrow (http_narrows HTTP_REQUEST_OPERATION).
  - narrow (http_narrows HTTP_STREAM_OPERATION).
  - narrow dbus_narrows.
  - narrow subscription_narrows.
  - apply command_narrows; [done| |done]. intros s ->. by eapply validated_commands.
  - narrow clipboard_narrows.
  - narrow clipboard_narrows.
  - narrow secret_narrows.
  - narrow notification_narrows.
  - by apply uri_narrows.
  - narrow local_narrows.
Qed.

(** ** The exception: an update that drops the origins of URI opening *)

(** What [authorize_web_uri] rejects under every scope. *)
Definition unsafe_web_uri {U : UrlCrate} (uri : Url) : bool :=
  negb (String.eqb (Url_username uri) "") || is_some (Url_password uri)
  || Url_cannot_be_a_base uri || is_none (Url_host uri)
  || contains_byte (Url_as_str uri) "\" || dangerous_encoded_path (Url_path uri).

(** C34: An update that drops all origins of its URI scope needs no consent, since
    the empty set is covered by every set of origins; but the backend reads an
    empty set as no restriction, so after the update every web page may be
    opened where before only the listed origins were. *)
Theorem uri_update_widens {U : UrlCrate} (old new : UriOpenScope) (required : bool) (reason : string)
  (Hschemes : uo_schemes new ⊆ uo_schemes old) (Hold : uo_origins old <> [])
  (Hnew : uo_origins new = []) :
  let request scope := {| rq_capability := UriOpenV1; rq_required := required; rq_reason := reason;
                          rq_scope := UriOpen scope |} in
  (forall kind, change_kind (Some (request old)) (Some (request new)) = Some kind ->
     requires_consent {| pc_capability := UriOpenV1; pc_kind := kind;
                         pc_old := Some (request old); pc_new := Some (request new) |} = false) /\
  forall uri,
    (Uri.authorize_web_uri new uri = Ok () <-> unsafe_web_uri uri = false) /\
    (Uri.authorize_web_uri old uri = Ok () -> exists host port origin,
       canonical_url_host uri = Some host /\ Url_port_or_known_default uri = Some port /\
       origin ∈ uo_origins old /\ origin_matches (Url_scheme uri) host port (Url_path uri) origin = true).
Proof.
  intros request. split.
  - intros kind Hkind.
    assert (is_subset_of (rq_scope (request new)) (rq_scope (request old)) = true) as Hsub.
    { simpl. rewrite Hnew. rewrite (proj2 (subset_b_spec _ _) Hschemes). done. }
    unfold change_kind in Hkind. rewrite Hsub in Hkind. cbn [negb] in Hkind. apply Some_inj in Hkind.
    subst kind. unfold requires_consent. cbn [pc_kind]. by repeat case_match.
  - intros uri. unfold Uri.authorize_web_uri. rewrite Hnew. fold (unsafe_web_uri uri). split.
    + destruct (unsafe_web_uri uri); done.
    + intros H. apply bind_Ok in H as ([] & _ & H). rewrite bool_decide_eq_false_2 in H by done.
      apply bind_Ok in H as (host & Hh & H), H as (port & Hp & H).
      apply ok_or_Ok in Hh, Hp. apply reject_if_Ok in H. b2p.
      apply existsb_True' in H as (origin & Ho & Hm). eauto 10.
Qed.

(** ** Examples *)

#[export] Instance sample_zbus_names : ZbusNames := {|
  well_known_name := fun s => negb (ends_with s ".");
  object_path := fun _ => true;
  interface_name := fun _ => true;
  member_name := fun _ => true;
|}.
#[export] Instance sample_zbus_names_laws : ZbusNamesLaws.
Proof. intros s. simpl. unfold ends_with. by rewrite strip_suffix_app. Defined.

Definition sample_call_rule (destination : string) : DbusCallRule :=
  {| dc_bus := SessionBus; dc_destination := destination; dc_path := "/org/example";
     dc_interface := "org.example.Player"; dc_member := "Play"; dc_signature := "";
     dc_arguments := []; dc_allow_service_activation := false; dc_requires_user_activation := true |}.

Definition sample_dbus_request : BackendRequest () :=
  {| bk_identity := (); bk_request_id := 1; bk_capability := DbusCallV1;
     bk_authorized_scope := Capability.DbusCall {| dc_rules := [sample_call_rule "org.example.player"] |};
     bk_bindings := {| filesystem_mounts := []; secrets := []; local_endpoints := []; clipboard := None |};
     bk_activation := None; bk_operation := "call";
     bk_payload := match DbusCall_encode
       {| dca_bus := Session; dca_destination := "org.example.player"; dca_path := "/org/example";
          dca_interface := "org.example.Player"; dca_member := "Play"; dca_arguments := [];
          dca_reply := ReplyUnit |} with Ok payload => payload | Err _ => [] end |}.

(** A call of one player is admitted by the rule for all of them. *)
Lemma covered_scope_admits_witness :
  admits (fun _ => 1%N) "provider" false
    (with_scope (Capability.DbusCall {| dc_rules := [sample_call_rule "org.example.*"] |})
       sample_dbus_request) = true.
Proof.
  destruct (covered_scope_admits (fun _ => 1%N) "provider" false sample_dbus_request
    (Capability.DbusCall {| dc_rules := [sample_call_rule "org.example.*"] |})) as [[Ha|Hd] _].
  - vm_compute. reflexivity.
  - vm_compute. reflexivity.
  - vm_compute. reflexivity.
  - exact Ha.
  - destruct Hd.
Defined.

(** A rule for all players that demands an activation, before a rule for one
    player that demands none: the update that keeps the second alone is
    narrowed and granted without asking, and from then on that player is
    called without an activation, which it was not before. *)
Definition unattended (rule : DbusCallRule) : DbusCallRule :=
  {| dc_bus := dc_bus rule; dc_destination := dc_destination rule; dc_path := dc_path rule;
     dc_interface := dc_interface rule; dc_member := dc_member rule; dc_signature := dc_signature rule;
     dc_arguments := dc_arguments rule; dc_allow_service_activation := dc_allow_service_activation rule;
     dc_requires_user_activation := false |}.
Lemma dbus_update_relaxes :
  let all := sample_call_rule "org.example.*" in
  let one := unattended (sample_call_rule "org.example.player") in
  let old := Capability.DbusCall {| dc_rules := [all; one] |} in
  let new := Capability.DbusCall {| dc_rules := [one] |} in
  let granted scope := {| rq_capability := DbusCallV1; rq_required := true; rq_reason := "players"; rq_scope := scope |} in
  let ledger := Activation.new 64 in
  validate_capability_scope DbusCallV1 old = Ok () /\
  change_kind (Some (granted old)) (Some (granted new)) = Some Narrowed /\
  requires_consent {| pc_capability := DbusCallV1; pc_kind := Narrowed;
                      pc_old := Some (granted old); pc_new := Some (granted new) |} = false /\
  is_ok (Dbus.authorize (with_scope old sample_dbus_request) ledger 0).2 = false /\
  is_ok (Dbus.authorize (with_scope new sample_dbus_request) ledger 0).2 = true.
Proof. vm_compute. done. Qed.

Lemma uri_update_widens_witness :
  Uri.authorize_web_uri (U := sample_url_crate) {| uo_schemes := ["https"]; uo_origins := [] |}
    {| su_host := "anywhere.example"; su_path := "/" |} = Ok () /\
  Uri.authorize_web_uri (U := sample_url_crate)
    {| uo_schemes := ["https"];
       uo_origins := [{| ho_scheme := "https"; ho_host := "docs.example"; ho_port := 443; ho_path_prefixes := [] |}] |}
    {| su_host := "anywhere.example"; su_path := "/" |} = Err EOutOfScope.
Proof.
  split; [|vm_compute; reflexivity].
  apply (uri_update_widens (U := sample_url_crate)
    {| uo_schemes := ["https"];
       uo_origins := [{| ho_scheme := "https"; ho_host := "docs.example"; ho_port := 443; ho_path_prefixes := [] |}] |}
    {| uo_schemes := ["https"]; uo_origins := [] |} true "reason");
    [by apply subset_b_spec|discriminate|reflexivity|vm_compute; reflexivity].
Defined.
