(* ===== verification/Layout.v ===== *)
(** * Layout: resolving a composed bar into rectangles

    Models [crates/touchbar-layout/src/lib.rs]: item, group and bar
    specifications, validation, visibility units, hiding and compressing until
    the bar fits, the principal item, flexible space, and the recursive
    placement of groups.  Widths are [u64] in the code and never leave it;
    a subtraction below zero, an index out of range, an [expect] or a debug
    assertion that fails is a panic, [None] here. *)

From S2P Require Import Prelude BTree Text.

#[local] Set Warnings "-register-all".

Definition VISIBILITY_PRIORITY_LOW : Z := -1000.
Definition VISIBILITY_PRIORITY_NORMAL : Z := 0.
Definition MAX_GROUP_DEPTH : N := 8.

Record ItemSpec := {
  it_id : string;
  it_min_width : N;
  it_preferred_width : N;
  it_max_width : N;
  it_visibility_priority : Z;
  it_compression_priority : Z;
  it_visibility_group : option string;
}.

(** [ItemSpec::new]. *)
Definition ItemSpec_new (id : string) (min_width preferred_width max_width : N) : ItemSpec :=
  {| it_id := id; it_min_width := min_width; it_preferred_width := preferred_width;
     it_max_width := max_width; it_visibility_priority := VISIBILITY_PRIORITY_NORMAL;
     it_compression_priority := VISIBILITY_PRIORITY_NORMAL; it_visibility_group := None |}.
Definition with_visibility (item : ItemSpec) (priority : Z) (group : option string) : ItemSpec :=
  {| it_id := it_id item; it_min_width := it_min_width item;
     it_preferred_width := it_preferred_width item; it_max_width := it_max_width item;
     it_visibility_priority := priority; it_compression_priority := it_compression_priority item;
     it_visibility_group := group |}.

Inductive GroupLayout := Natural | EqualWidth.

Record GroupOf (E : Type) := {
  gr_id : string;
  gr_elements : list E;
  gr_layout : GroupLayout;
  gr_spacing : N;
  gr_visibility_priority : Z;
  gr_compression_priority : Z;
}.
Arguments gr_id {E}. Arguments gr_elements {E}. Arguments gr_layout {E}. Arguments gr_spacing {E}.
Arguments gr_visibility_priority {E}. Arguments gr_compression_priority {E}.

Inductive GroupElement := GroupItem (item : ItemSpec) | SubGroup (group : GroupOf GroupElement).
Definition GroupSpec : Type := GroupOf GroupElement.
(** [GroupSpec::new] with its layout and spacing. *)
Definition GroupSpec_new (id : string) (elements : list GroupElement) (layout : GroupLayout) (spacing : N)
  : GroupSpec :=
  {| gr_id := id; gr_elements := elements; gr_layout := layout; gr_spacing := spacing;
     gr_visibility_priority := VISIBILITY_PRIORITY_NORMAL;
     gr_compression_priority := VISIBILITY_PRIORITY_NORMAL |}.

Inductive Element :=
| Item (item : ItemSpec)
| Group (group : GroupSpec)
| FixedSpace (width : N)
| FlexibleSpace (minimum weight : N).

Record BarSpec := { bar_elements : list Element; bar_principal_item : option string }.

Record Placement := { pl_id : string; pl_x : N; pl_width : N }.
Record ResolvedLayout := {
  rl_placements : list Placement;
  rl_hidden_items : list string;
  rl_content_width : N;
}.

Inductive LayoutError :=
| EmptyItemId
| DuplicateItem (id : string)
| InvalidSizing (id : string)
| InvalidFlexibleSpace (element : nat)
| UnknownPrincipal (id : string)
| UnknownRequired (id : string)
| EmptyGroupId
| DuplicateGroup (id : string)
| GroupDepthExceeded (id : string)
| InvalidEqualWidthGroup (id : string)
| InconsistentVisibilityGroup (group : string)
| InsufficientWidth (available required : N).

(** ** Sizing *)

Record Sizing := { sz_minimum : N; sz_preferred : N; sz_maximum : N }.

Definition item_sizing (item : ItemSpec) : Sizing :=
  {| sz_minimum := it_min_width item; sz_preferred := it_preferred_width item;
     sz_maximum := it_max_width item |}.
Definition fixed_sizing (width : N) : Sizing :=
  {| sz_minimum := width; sz_preferred := width; sz_maximum := width |}.

(** [iter().max()] and [iter().min()] of a nonempty list. *)
Definition max_of (l : list N) : N := foldr N.max 0%N l.
Definition min_of (l : list N) : N :=
  match l with [] => 0%N | a :: l' => foldr N.min a l' end.

(** [Ord::clamp]; it panics when the bounds are crossed. *)
Definition clamp (value lower upper : N) : option N :=
  if (lower <=? upper)%N then Some (N.max lower (N.min value upper)) else None.

Definition active_sizing (children : list Sizing) : list Sizing :=
  List.filter (fun child => 0 <? sz_maximum child)%N children.

Definition gaps (spacing count : N) : N := (spacing * sat_sub count 1)%N.

(** [group_sizing] from the sizings of the children. *)
Definition combine_sizing {E} (group : GroupOf E) (children : list Sizing)
  : result LayoutError Sizing :=
  let children := active_sizing children in
  if bool_decide (length children = 0) then Ok (fixed_sizing 0)
  else
    let gaps := gaps (gr_spacing group) (len children) in
    match gr_layout group with
    | Natural =>
        Ok {| sz_minimum := sumN (sz_minimum <$> children) + gaps;
              sz_preferred := sumN (sz_preferred <$> children) + gaps;
              sz_maximum := sumN (sz_maximum <$> children) + gaps |}
    | EqualWidth =>
        let common_minimum := max_of (sz_minimum <$> children) in
        let common_maximum := min_of (sz_maximum <$> children) in
        if (common_maximum <? common_minimum)%N then Err (InvalidEqualWidthGroup (gr_id group))
        else
          let common_preferred :=
            N.max common_minimum (N.min (max_of (sz_preferred <$> children)) common_maximum) in
          let count := len children in
          Ok {| sz_minimum := common_minimum * count + gaps;
                sz_preferred := common_preferred * count + gaps;
                sz_maximum := common_maximum * count + gaps |}
    end%N.

Fixpoint group_element_sizing (element : GroupElement) : result LayoutError Sizing :=
  match element with
  | GroupItem item => Ok (item_sizing item)
  | SubGroup group =>
      children ← mapR group_element_sizing (gr_elements group);
      combine_sizing group children
  end.
Definition group_sizing (group : GroupSpec) : result LayoutError Sizing :=
  group_element_sizing (SubGroup group).
Definition element_sizing (element : Element) : result LayoutError Sizing :=
  match element with
  | Item item => Ok (item_sizing item)
  | Group group => group_sizing group
  | FixedSpace width => Ok (fixed_sizing width)
  | FlexibleSpace minimum _ => Ok (fixed_sizing minimum)
  end.

(** ** Validation *)

Definition validate_item (item : ItemSpec) (identifiers : list string)
  : result LayoutError (list string) :=
  _ ← reject_if (String.eqb (it_id item) "") EmptyItemId;
  _ ← reject_if ((it_min_width item =? 0) || (it_preferred_width item <? it_min_width item)
                 || (it_max_width item <? it_preferred_width item))%N (InvalidSizing (it_id item));
  let '(identifiers, inserted) := set_insert (it_id item) identifiers in
  _ ← reject_if (negb inserted) (DuplicateItem (it_id item));
  Ok identifiers.

(** The item and group identifiers seen are threaded. *)
Fixpoint validate_group_element (element : GroupElement) (depth : N)
  (seen : list string * list string) : result LayoutError (list string * list string) :=
  match element with
  | GroupItem item => items ← validate_item item seen.1; Ok (items, seen.2)
  | SubGroup group =>
      _ ← reject_if (String.eqb (gr_id group) "") EmptyGroupId;
      _ ← reject_if (MAX_GROUP_DEPTH <? depth)%N (GroupDepthExceeded (gr_id group));
      let '(groups, inserted) := set_insert (gr_id group) seen.2 in
      _ ← reject_if (negb inserted) (DuplicateGroup (gr_id group));
      seen ← (fix go (elements : list GroupElement) (seen : list string * list string) :=
                match elements with
                | [] => Ok seen
                | element :: elements' =>
                    seen ← validate_group_element element
                             (match element with SubGroup _ => depth + 1 | _ => depth end)%N seen;
                    go elements' seen
                end) (gr_elements group) (seen.1, groups);
      _ ← group_element_sizing element;
      Ok seen
  end.

Fixpoint validate_elements (index : nat) (elements : list Element)
  (seen : list string * list string) : result LayoutError (list string * list string) :=
  match elements with
  | [] => Ok seen
  | element :: elements' =>
      seen ← match element with
             | Item item => items ← validate_item item seen.1; Ok (items, seen.2)
             | Group group => validate_group_element (SubGroup group) 1 seen
             | FlexibleSpace _ weight =>
                 if (weight =? 0)%N then Err (InvalidFlexibleSpace index) else Ok seen
             | FixedSpace _ => Ok seen
             end;
      validate_elements (S index) elements' seen
  end.

Definition validate (bar : BarSpec) (required_items : list string) : result LayoutError () :=
  seen ← validate_elements 0 (bar_elements bar) ([], []);
  _ ← match bar_principal_item bar with
      | Some principal =>
          reject_if (negb (set_contains principal seen.1)) (UnknownPrincipal principal)
      | None => Ok ()
      end;
  match List.find (fun required => negb (set_contains required seen.1)) required_items with
  | Some unknown => Err (UnknownRequired unknown)
  | None => Ok ()
  end.

(** ** Visibility *)

Record VisibilityUnit := {
  vu_group : option string;
  vu_elements : list nat;
  vu_priority : Z;
  vu_trailing_element : nat;
  vu_required : bool;
}.

Fixpoint group_items (element : GroupElement) : list ItemSpec :=
  match element with
  | GroupItem item => [item]
  | SubGroup group => flat_map group_items (gr_elements group)
  end.
Definition element_items (element : Element) : list ItemSpec :=
  match element with
  | Item item => [item]
  | Group group => flat_map group_items (gr_elements group)
  | FixedSpace _ | FlexibleSpace _ _ => []
  end.

Definition group_contains_required (required_items : list string) : GroupElement -> bool :=
  fix go element :=
    match element with
    | GroupItem item => set_contains (it_id item) required_items
    | SubGroup group => existsb go (gr_elements group)
    end.
Definition group_contains_item (id : string) : GroupElement -> bool :=
  fix go element :=
    match element with
    | GroupItem item => String.eqb (it_id item) id
    | SubGroup group => existsb go (gr_elements group)
    end.
Definition contains_item (element : Element) (id : string) : bool :=
  match element with
  | Item item => String.eqb (it_id item) id
  | Group group => existsb (group_contains_item id) (gr_elements group)
  | FixedSpace _ | FlexibleSpace _ _ => false
  end.
Definition collect_item_ids (element : Element) : list string := it_id <$> element_items element.

(** Adding an item to the first unit of its visibility group, if there is one. *)
Fixpoint join_unit (required_items : list string) (index : nat) (item : ItemSpec) (group : string)
  (units : list VisibilityUnit) : option (result LayoutError (list VisibilityUnit)) :=
  match units with
  | [] => None
  | unit :: units' =>
      if bool_decide (vu_group unit = Some group) then
        Some (if negb (vu_priority unit =? it_visibility_priority item)%Z
              then Err (InconsistentVisibilityGroup group)
              else Ok ({| vu_group := vu_group unit; vu_elements := vu_elements unit ++ [index];
                          vu_priority := vu_priority unit; vu_trailing_element := index;
                          vu_required := vu_required unit || set_contains (it_id item) required_items |}
                       :: units'))
      else (units'' ← join_unit required_items index item group units';
            Some (u ← units''; Ok (unit :: u)))
  end.

Definition new_unit (index : nat) (group : option string) (priority : Z) (required : bool)
  : VisibilityUnit :=
  {| vu_group := group; vu_elements := [index]; vu_priority := priority;
     vu_trailing_element := index; vu_required := required |}.

Definition add_unit (required_items : list string) (units : list VisibilityUnit)
  (entry : nat * Element) : result LayoutError (list VisibilityUnit) :=
  let '(index, element) := entry in
  match element with
  | Item item =>
      let existing :=
        group ← it_visibility_group item; join_unit required_items index item group units in
      match existing with
      | Some units => units
      | None =>
          Ok (units ++ [new_unit index (it_visibility_group item) (it_visibility_priority item)
                          (set_contains (it_id item) required_items)])
      end
  | Group group =>
      Ok (units ++ [new_unit index None (gr_visibility_priority group)
                      (existsb (group_contains_required required_items) (gr_elements group))])
  | FixedSpace _ | FlexibleSpace _ _ => Ok units
  end.

(** [enumerate()]. *)
Definition indexed {A} (l : list A) : list (nat * A) := imap (fun i a => (i, a)) l.

Definition visibility_units (bar : BarSpec) (required_items : list string)
  : result LayoutError (list VisibilityUnit) :=
  foldR (add_unit required_items) [] (indexed (bar_elements bar)).

(** ** Widths *)

Definition checked_sub (a b : N) : option N := if (b <=? a)%N then Some (a - b)%N else None.

(** What an element takes with these widths for its content. *)
Definition element_width (content : Sizing -> N) (visible : bool) (sizing : Sizing)
  (element : Element) : N :=
  match element with
  | Item _ | Group _ => if visible then content sizing else 0
  | FixedSpace width => width
  | FlexibleSpace minimum _ => minimum
  end.
Definition element_widths (content : Sizing -> N) (elements : list Element) (visible : list bool)
  (sizing : list Sizing) : list N :=
  zip_with (fun element p => element_width content p.1 p.2 element) elements (zip visible sizing).
Definition total_width (elements : list Element) (visible : list bool) (sizing : list Sizing) : N :=
  sumN (element_widths sz_minimum elements visible sizing).

(** Hiding one element of a unit; the state is [visible] and [minimum_total]. *)
Definition hide_element (sizing : list Sizing) (state : list bool * N) (element : nat)
  : option (list bool * N) :=
  let '(visible, minimum_total) := state in
  is_visible ← visible !! element;
  if is_visible : bool then
    s ← sizing !! element;
    minimum_total ← checked_sub minimum_total (sz_minimum s);
    Some (<[element := false]> visible, minimum_total)
  else Some state.

Fixpoint hide_elements (sizing : list Sizing) (elements : list nat) (state : list bool * N)
  : option (list bool * N) :=
  match elements with
  | [] => Some state
  | element :: elements' => state ← hide_element sizing state element; hide_elements sizing elements' state
  end.

Fixpoint hide_units (sizing : list Sizing) (available : N) (units : list VisibilityUnit)
  (state : list bool * N) : option (list bool * N) :=
  match units with
  | [] => Some state
  | unit :: units' =>
      state ← hide_elements sizing (vu_elements unit) state;
      if (state.2 <=? available)%N then Some state
      else hide_units sizing available units' state
  end.

(** [left.0.cmp(&right.0).then_with(|| right.1.cmp(&left.1))] is not [Greater]. *)
Definition priority_le (left right : Z * nat) : bool :=
  match (left.1 ?= right.1)%Z with
  | Lt => true | Gt => false | Eq => (right.2 <=? left.2)%nat
  end.
Definition unit_le (left right : VisibilityUnit) : bool :=
  priority_le (vu_priority left, vu_trailing_element left) (vu_priority right, vu_trailing_element right).

(** One reduction, of both compression loops. *)
Definition reduce_width (index : nat) (minimum : N) (widths : list N) (excess : N)
  : option (list N * N) :=
  width ← widths !! index;
  room ← checked_sub width minimum;
  let reduction := N.min room excess in
  Some (<[index := (width - reduction)%N]> widths, (excess - reduction)%N).

(** The loop of [compress_to_fit], which stops before a candidate ... *)
Fixpoint compress_loop (candidates : list (nat * N)) (widths : list N) (excess : N)
  : option (list N * N) :=
  match candidates with
  | [] => Some (widths, excess)
  | (index, minimum) :: candidates' =>
      if (excess =? 0)%N then Some (widths, excess)
      else state ← reduce_width index minimum widths excess;
           compress_loop candidates' state.1 state.2
  end.
(** ... and the one of [natural_child_widths], which stops after it. *)
Fixpoint compress_loop_after (candidates : list (nat * N)) (widths : list N) (excess : N)
  : option (list N * N) :=
  match candidates with
  | [] => Some (widths, excess)
  | (index, minimum) :: candidates' =>
      state ← reduce_width index minimum widths excess;
      if (state.2 =? 0)%N then Some state else compress_loop_after candidates' state.1 state.2
  end.

Definition debug_assert (condition : bool) : option () := if condition then Some () else None.

(** The candidates of [compress_to_fit]: priority, index and minimum. *)
Definition compress_candidate (entry : nat * (Element * (bool * Sizing))) : option (Z * nat * N) :=
  let '(index, (element, (visible, sizing))) := entry in
  if visible : bool then
    match element with
    | Item item => Some (it_compression_priority item, index, sz_minimum sizing)
    | Group group => Some (gr_compression_priority group, index, sz_minimum sizing)
    | FixedSpace _ | FlexibleSpace _ _ => None
    end
  else None.
Definition candidate_le (left right : Z * nat * N) : bool := priority_le left.1 right.1.
Definition candidate_entry (c : Z * nat * N) : nat * N := (c.1.2, c.2).

Definition compress_to_fit (elements : list Element) (visible : list bool) (sizing : list Sizing)
  (widths : list N) (available_width : N) : option (list N) :=
  let excess := sat_sub (sumN widths) available_width in
  let candidates :=
    sort_by candidate_le
      (omap compress_candidate (indexed (zip elements (zip visible sizing)))) in
  state ← compress_loop (candidate_entry <$> candidates) widths excess;
  _ ← debug_assert (state.2 =? 0)%N;
  Some state.1.

(** One round over the growable children of [grow_widths]. *)
Fixpoint grow_round (sizing : list Sizing) (share extra assigned : N) (growable : list nat)
  (widths : list N) : option (list N * N) :=
  match growable with
  | [] => Some (widths, assigned)
  | index :: growable' =>
      s ← sizing !! index;
      width ← widths !! index;
      room ← checked_sub (sz_maximum s) width;
      left ← checked_sub extra assigned;
      let addition := N.min (N.min room share) left in
      let widths := <[index := (width + addition)%N]> widths in
      let assigned := (assigned + addition)%N in
      if (assigned =? extra)%N then Some (widths, assigned)
      else grow_round sizing share extra assigned growable' widths
  end.

Definition growable_indices (widths : list N) (sizing : list Sizing) : list nat :=
  omap (fun e : nat * (N * Sizing) => if (e.2.1 <? sz_maximum e.2.2)%N then Some e.1 else None)
    (indexed (zip widths sizing)).

(** The loop of [grow_widths]; [None] is a panic or too little fuel. *)
Fixpoint grow_loop (fuel : nat) (widths : list N) (sizing : list Sizing) (extra : N)
  : option (list N * N) :=
  if (extra =? 0)%N then Some (widths, extra)
  else
    match fuel with
    | O => None
    | S fuel' =>
        let growable := growable_indices widths sizing in
        if bool_decide (growable = []) then Some (widths, extra)
        else
          let share := N.max (extra / len growable) 1 in
          round ← grow_round sizing share extra 0 growable widths;
          _ ← debug_assert (0 <? round.2)%N;
          grow_loop fuel' round.1 sizing (extra - round.2)
    end.
Definition grow_widths (widths : list N) (sizing : list Sizing) (extra : N) : option (list N) :=
  state ← grow_loop (N.to_nat extra) widths sizing extra;
  _ ← debug_assert (state.2 =? 0)%N;
  Some state.1.

(** [expect] on a [Result]. *)
Definition expect {E A} (r : result E A) : option A :=
  match r with Ok a => Some a | Err _ => None end.

Definition group_element_compression_priority (element : GroupElement) : Z :=
  match element with
  | GroupItem item => it_compression_priority item
  | SubGroup group => gr_compression_priority group
  end.

Definition natural_child_widths (elements : list GroupElement) (content_width : N) : option (list N) :=
  sizing ← expect (mapR group_element_sizing elements);
  let widths := sz_preferred <$> sizing in
  let preferred := sumN widths in
  if (content_width <? preferred)%N then
    let candidates :=
      sort_by candidate_le
        (imap (fun index e => (group_element_compression_priority e.1, index, sz_minimum e.2))
           (zip elements sizing)) in
    state ← compress_loop_after (candidate_entry <$> candidates) widths (preferred - content_width);
    _ ← debug_assert (state.2 =? 0)%N;
    Some state.1
  else if (preferred <? content_width)%N
  then grow_widths widths sizing (content_width - preferred)
  else Some widths.

Definition equal_child_widths (count : nat) (content_width : N) : option (list N) :=
  if bool_decide (count = 0) then None
  else
    let base := (content_width / N.of_nat count)%N in
    let remainder := (content_width mod N.of_nat count)%N in
    Some ((fun index => base + if (N.of_nat index <? remainder)%N then 1 else 0)%N <$> seq 0 count).

(** ** Placing groups *)

Definition u32_limit : N := 2 ^ 32.
(** [u32::try_from(value).expect(..)] *)
Definition to_u32 (n : N) : option N := if (n <? u32_limit)%N then Some n else None.

Definition place_item (item : ItemSpec) (x width : N) : option (list Placement) :=
  x ← to_u32 x;
  width ← to_u32 width;
  Some [{| pl_id := it_id item; pl_x := x; pl_width := width |}].

Definition is_active (element : GroupElement) : option bool :=
  sizing ← expect (group_element_sizing element);
  Some (0 <? sz_maximum sizing)%N.
Fixpoint active_elements (elements : list GroupElement) : option (list GroupElement) :=
  match elements with
  | [] => Some []
  | element :: elements' =>
      active ← is_active element;
      rest ← active_elements elements';
      Some (if active : bool then element :: rest else rest)
  end.

Definition child_widths {E} (group : GroupOf E) (active : list GroupElement) (content_width : N)
  : option (list N) :=
  match gr_layout group with
  | Natural => natural_child_widths active content_width
  | EqualWidth => equal_child_widths (length active) content_width
  end.

(** The loop of [layout_group]: the active elements, in the order of the
    group, are zipped with their widths. *)
Definition place_children (layout : GroupElement -> N -> N -> option (list Placement)) (spacing : N)
  : list GroupElement -> list N -> N -> option (list Placement) :=
  fix place elements widths child_x :=
    match elements with
    | [] => Some []
    | element :: elements' =>
        active ← is_active element;
        if active : bool then
          match widths with
          | [] => Some []
          | child_width :: widths' =>
              placements ← layout element child_x child_width;
              rest ← place elements' widths' (child_x + child_width + spacing)%N;
              Some (placements ++ rest)
          end
        else place elements' widths child_x
    end.

Fixpoint layout_group_element (element : GroupElement) (x width : N) : option (list Placement) :=
  match element with
  | GroupItem item => place_item item x width
  | SubGroup group =>
      active ← active_elements (gr_elements group);
      if bool_decide (active = []) then Some []
      else
        content_width ← checked_sub width (gaps (gr_spacing group) (len active));
        widths ← child_widths group active content_width;
        place_children layout_group_element (gr_spacing group) (gr_elements group) widths x
  end.
Definition layout_group (group : GroupSpec) : N -> N -> option (list Placement) :=
  layout_group_element (SubGroup group).
Definition layout_element (element : Element) (x width : N) : option (list Placement) :=
  match element with
  | Item item => place_item item x width
  | Group group => layout_group group x width
  | FixedSpace _ | FlexibleSpace _ _ => Some []
  end.

(** ** The principal item and flexible space *)

(** The offset and width of the principal item inside its element. *)
Definition principal_metrics (element : Element) (width : N) (principal : string)
  : option (option (N * N)) :=
  match element with
  | Item item => Some (if String.eqb (it_id item) principal then Some (0%N, width) else None)
  | Group group =>
      placements ← layout_group group 0 width;
      Some (option_map (fun p => (pl_x p, pl_width p))
              (List.find (fun p => String.eqb (pl_id p) principal) placements))
  | FixedSpace _ | FlexibleSpace _ _ => Some None
  end.

Definition flexible_spaces (elements : list Element) (first past : nat) : list (nat * N) :=
  omap (fun e : nat * Element =>
          match e.2 with
          | FlexibleSpace _ weight =>
              if bool_decide (first <= e.1 < past) then Some (e.1, weight) else None
          | _ => None
          end) (indexed elements).

Fixpoint distribute_loop (flexible : list (nat * N)) (extra total_weight assigned : N)
  (widths : list N) : option (list N) :=
  match flexible with
  | [] => Some widths
  | (index, weight) :: flexible' =>
      addition ← match flexible' with
                 | [] => checked_sub extra assigned
                 | _ => Some (extra * weight / total_weight)%N
                 end;
      width ← widths !! index;
      distribute_loop flexible' extra total_weight (assigned + addition)%N
        (<[index := (width + addition)%N]> widths)
  end.
Definition distribute_flexible_space (elements : list Element) (widths : list N)
  (first past : nat) (extra : N) : option (list N) :=
  if (extra =? 0)%N then Some widths
  else
    let flexible := flexible_spaces elements first past in
    let total_weight := sumN flexible.*2 in
    if (total_weight =? 0)%N then Some widths
    else distribute_loop flexible extra total_weight 0 widths.

(** ** Resolving a bar *)

Definition is_content (element : Element) : bool :=
  match element with Item _ | Group _ => true | _ => false end.

(** Hiding units, lowest priority first, until the minimum fits. *)
Definition hide_to_fit (sizing : list Sizing) (units : list VisibilityUnit) (available_width : N)
  (state : list bool * N) : option (list bool * N) :=
  if (available_width <? state.2)%N
  then hide_units sizing available_width
         (List.filter (fun unit => negb (vu_required unit)) (sort_by unit_le units)) state
  else Some state.

Definition find_principal (elements : list Element) (visible : list bool) (principal : string)
  : option (nat * Element) :=
  fst <$> List.find (fun e : nat * Element * bool => e.2 && contains_item e.1.2 principal)
            (zip (indexed elements) visible).

(** Index, offset and width of the principal item, when it is visible. *)
Definition locate_principal (bar : BarSpec) (visible : list bool) (widths : list N)
  : option (option (nat * N * N)) :=
  match bar_principal_item bar with
  | None => Some None
  | Some principal =>
      match find_principal (bar_elements bar) visible principal with
      | None => Some None
      | Some (index, element) =>
          width ← widths !! index;
          metrics ← principal_metrics element width principal;
          Some (option_map (fun m : N * N => (index, m.1, m.2)) metrics)
      end
  end.

(** The principal item as near the centre as its neighbours allow. *)
Definition centre (elements : list Element) (widths : list N) (available_width : N)
  (principal : nat) (offset principal_width : N) : option (list N * option (nat * N)) :=
  let before := sumN (take principal widths) in
  let after := sumN (drop (S principal) widths) in
  width ← widths !! principal;
  free ← checked_sub available_width principal_width;
  let desired := sat_sub (free / 2) offset in
  room ← checked_sub available_width width;
  maximum ← checked_sub room after;
  x ← clamp desired before maximum;
  leading ← checked_sub x before;
  widths ← distribute_flexible_space elements widths 0 principal leading;
  rest ← checked_sub available_width x;
  rest ← checked_sub rest width;
  trailing ← checked_sub rest after;
  widths ← distribute_flexible_space elements widths (S principal) (length elements) trailing;
  Some (widths, Some (principal, x)).

Definition spread (bar : BarSpec) (visible : list bool) (widths : list N) (available_width : N)
  : option (list N * option (nat * N)) :=
  principal ← locate_principal bar visible widths;
  extra ← checked_sub available_width (sumN widths);
  match principal with
  | Some (principal, offset, principal_width) =>
      centre (bar_elements bar) widths available_width principal offset principal_width
  | None =>
      widths ← distribute_flexible_space (bar_elements bar) widths 0
                 (length (bar_elements bar)) extra;
      Some (widths, None)
  end.

(** The last loop of [resolve]: placements, hidden items and the position. *)
Fixpoint place_elements (principal : option (nat * N))
  (entries : list (nat * (Element * (bool * N)))) (x : N)
  : option (list Placement * list string * N) :=
  match entries with
  | [] => Some ([], [], x)
  | (index, (element, (visible, width))) :: entries' =>
      let x := match principal with
               | Some (p, principal_x) => if bool_decide (p = index) then principal_x else x
               | None => x
               end in
      placements ← (if visible : bool then layout_element element x width else Some []);
      let hidden := if visible : bool then [] else collect_item_ids element in
      rest ← place_elements principal entries' (x + width)%N;
      let '(ps, hs, x) := rest in
      Some (placements ++ ps, hidden ++ hs, x)
  end.

Definition prepare (bar : BarSpec) (required_items : list string)
  : result LayoutError (list VisibilityUnit * list Sizing) :=
  _ ← validate bar required_items;
  units ← visibility_units bar required_items;
  sizing ← mapR element_sizing (bar_elements bar);
  Ok (units, sizing).

(** The part of [resolve] after the bar is known to fit. *)
Definition arrange (bar : BarSpec) (visible : list bool) (sizing : list Sizing)
  (available_width : N) : option ResolvedLayout :=
  let elements := bar_elements bar in
  widths ← compress_to_fit elements visible sizing
             (element_widths sz_preferred elements visible sizing) available_width;
  spread ← spread bar visible widths available_width;
  let '(widths, principal) := spread in
  placed ← place_elements principal (indexed (zip elements (zip visible widths))) 0;
  let '(placements, hidden_items, x) := placed in
  Some {| rl_placements := placements; rl_hidden_items := hidden_items;
          rl_content_width := (x mod u32_limit)%N |}.

Definition resolve (bar : BarSpec) (available_width : N) (required_items : list string)
  : option (result LayoutError ResolvedLayout) :=
  match prepare bar required_items with
  | Err error => Some (Err error)
  | Ok (units, sizing) =>
      let visible := is_content <$> bar_elements bar in
      state ← hide_to_fit sizing units available_width
                (visible, total_width (bar_elements bar) visible sizing);
      let '(visible, minimum_total) := state in
      if (available_width <? minimum_total)%N
      then Some (Err (InsufficientWidth available_width (N.min minimum_total (u32_limit - 1))))
      else
        layout ← arrange bar visible sizing available_width;
        Some (Ok layout)
  end.
