(* ===== verification/LayoutSpec.v ===== *)
(** * What the layout promises

    Compression and growth of widths, the placement of groups, and the
    theorems about [Layout.resolve]: it returns for every bar, what it places
    is in order, inside the bar and within each item's width limits, required
    items are placed, and the error of a bar that cannot fit is exact. *)

From S2P Require Import Prelude BTree Text Layout.

#[local] Set Warnings "-register-all".

(** ** Sums *)

Lemma sumN_insert (l : list N) i v w :
  l !! i = Some w -> (sumN (<[i:=v]> l) + w = sumN l + v)%N.
Proof.
  revert i; induction l as [|a l IH]; intros [|i]; simpl; try done.
  - intros [= <-]. lia.
  - intros H. specialize (IH i H). lia.
Qed.

Lemma sumN_elem (l : list N) i w : l !! i = Some w -> (w <= sumN l)%N.
Proof. intros H. pose proof (sumN_insert l i 0 w H). lia. Qed.

Lemma sumN_le l k : Forall2 N.le l k -> (sumN l <= sumN k)%N.
Proof. induction 1; simpl; lia. Qed.

Lemma sumN_split (l : list N) i w :
  l !! i = Some w -> sumN l = (sumN (take i l) + w + sumN (drop (S i) l))%N.
Proof. intros H. rewrite <- (take_drop_middle l i w H) at 1. rewrite sumN_app. simpl. lia. Qed.

Lemma checked_sub_Some a b : (b <= a)%N -> checked_sub a b = Some (a - b)%N.
Proof. unfold checked_sub. intros ->%N.leb_le. done. Qed.

Lemma elem_indexed {A} (l : list A) i a : (i, a) ∈ indexed l <-> l !! i = Some a.
Proof.
  unfold indexed. rewrite elem_of_lookup_imap. split; [naive_solver|eauto].
Qed.

Lemma indexed_keys {A} (l : list A) : (indexed l).*1 = seq 0 (length l).
Proof.
  unfold indexed. rewrite fmap_imap. apply list_eq. intros i. rewrite list_lookup_imap.
  destruct (l !! i) eqn:Hi; simpl.
  - symmetry. apply lookup_seq. split; [done|]. by apply lookup_lt_Some in Hi.
  - symmetry. apply lookup_seq_ge. by apply lookup_ge_None in Hi.
Qed.

(** ** Compression *)

Section Compression.
Implicit Types (cands : list (nat * N)) (widths : list N) (excess : N).

(** What a compression loop leaves. *)
Record compressed cands widths excess widths' excess' : Prop := {
  cp_length : length widths' = length widths;
  cp_excess : (excess' <= excess)%N;
  cp_sum : (sumN widths' + excess = sumN widths + excess')%N;
  cp_other : forall i, i ∉ cands.*1 -> widths' !! i = widths !! i;
  cp_candidate : forall i m w, (i, m) ∈ cands -> widths !! i = Some w ->
    exists w', widths' !! i = Some w' /\ (m <= w' <= w)%N;
  cp_exhausted : excess' = 0%N \/ forall i m, (i, m) ∈ cands -> widths' !! i = Some m;
}.

Lemma compress_loop_spec cands widths excess :
  NoDup cands.*1 ->
  (forall i m, (i, m) ∈ cands -> exists w, widths !! i = Some w /\ (m <= w)%N) ->
  exists widths' excess', compress_loop cands widths excess = Some (widths', excess') /\
    compressed cands widths excess widths' excess'.
Proof.
  revert widths excess; induction cands as [|[i m] cands IH]; intros widths excess Hd Hc; cbn [compress_loop].
  { exists widths, excess. split; [done|]. split; try done; try set_solver. }
  destruct (excess =? 0)%N eqn:He.
  { apply N.eqb_eq in He as ->. exists widths, 0%N. split; [done|]. split; try done; [|by left].
    intros j n w Hj Hw. destruct (Hc j n Hj) as (w' & ? & ?). exists w. simplify_eq. split; [done|lia]. }
  rewrite fmap_cons, NoDup_cons in Hd. destruct Hd as [Hi Hd]. destruct (Hc i m) as (w & Hw & Hm); [set_solver|].
  unfold reduce_width. rewrite Hw. simpl. rewrite checked_sub_Some by done. simpl.
  set (r := N.min (w - m) excess).
  destruct (IH (<[i:=(w - r)%N]> widths) (excess - r)%N) as (widths' & excess' & -> & Hcp); [done| |].
  { intros j n Hj. rewrite list_lookup_insert_ne; [apply Hc; set_solver|].
    intros <-. apply Hi, (list_elem_of_fmap_2 fst _ _ Hj). }
  exists widths', excess'. split; [done|]. destruct Hcp as [Hl He' Hs Ho Hcand Hex].
  pose proof (sumN_insert widths i (w - r) w Hw) as Hsum.
  assert (Hi' : widths' !! i = Some (w - r)%N).
  { rewrite Ho by done. apply list_lookup_insert_eq. by eapply lookup_lt_Some. }
  rewrite length_insert in Hl. split; [done|lia|lia| | |].
  - intros j Hj. rewrite Ho by set_solver. rewrite list_lookup_insert_ne; set_solver.
  - intros j n u [[= -> ->]|Hj]%elem_of_cons Hu.
    + exists (w - r)%N. simplify_eq. split; [done|lia].
    + apply (Hcand j n u Hj). rewrite list_lookup_insert_ne; [done|].
      intros <-. apply Hi, (list_elem_of_fmap_2 fst _ _ Hj).
  - destruct Hex as [->|Hex]; [by left|]. destruct (decide (excess' = 0%N)) as [|Hne]; [by left|right].
    intros j n [[= -> ->]|Hj]%elem_of_cons; [|by apply Hex]. rewrite Hi'. f_equal. lia.
Qed.

Lemma compress_loop_after_eq cands widths excess :
  excess <> 0%N -> compress_loop_after cands widths excess = compress_loop cands widths excess.
Proof.
  revert widths excess; induction cands as [|[i m] cands IH]; intros widths excess He; [done|].
  cbn [compress_loop compress_loop_after]. apply N.eqb_neq in He as ->.
  destruct (reduce_width i m widths excess) as [[w e]|]; simpl; [|done].
  destruct (e =? 0)%N eqn:E; [|by apply IH, N.eqb_neq].
  apply N.eqb_eq in E as ->. by destruct cands as [|[] cands].
Qed.
End Compression.

(** ** Growth *)

Section Growth.
Implicit Types (widths : list N) (sizing : list Sizing).

Definition bounded (width : N) (s : Sizing) : Prop := (width <= sz_maximum s)%N.

Definition grown sizing widths widths' : Prop :=
  Forall2 bounded widths' sizing /\ Forall2 N.le widths widths'.

Lemma grown_refl sizing widths : Forall2 bounded widths sizing -> grown sizing widths widths.
Proof. split; [done|]. apply reflexivity. Qed.

Lemma grown_trans sizing a b c : grown sizing a b -> grown sizing b c -> grown sizing a c.
Proof. intros [_ H1] [Hc H2]. split; [done|]. by transitivity b. Qed.

(** One child grows. *)
Lemma grown_insert sizing widths i w s v :
  Forall2 bounded widths sizing -> widths !! i = Some w -> sizing !! i = Some s ->
  (w <= v <= sz_maximum s)%N -> grown sizing widths (<[i:=v]> widths).
Proof.
  intros Hb Hw Hs Hv. split.
  - rewrite <- (list_insert_id sizing i s Hs). apply Forall2_insert; [done|]. unfold bounded. lia.
  - rewrite <- (list_insert_id widths i w Hw) at 1. apply Forall2_insert; [|lia]. by apply grown_refl in Hb as [].
Qed.

Lemma grow_round_spec sizing share extra growable : forall assigned widths,
  Forall2 bounded widths sizing -> Forall (fun i => i < length widths) growable ->
  (assigned <= extra)%N ->
  exists widths' assigned', grow_round sizing share extra assigned growable widths = Some (widths', assigned') /\
    (assigned <= assigned' <= extra)%N /\ (sumN widths' + assigned = sumN widths + assigned')%N /\
    grown sizing widths widths' /\
    forall i w s growable', growable = i :: growable' -> widths !! i = Some w -> sizing !! i = Some s ->
      (w < sz_maximum s)%N -> (0 < share)%N -> (assigned < extra)%N -> (assigned < assigned')%N.
Proof.
  induction growable as [|i growable IH]; intros assigned widths Hb Hg Ha; cbn [grow_round].
  { exists widths, assigned. split; [done|]. split; [lia|]. split; [lia|]. split; [by apply grown_refl|done]. }
  apply Forall_cons in Hg as [[w Hw]%lookup_lt_is_Some Hg].
  destruct (Forall2_lookup_l _ _ _ _ _ Hb Hw) as (s & Hs & Hws). unfold bounded in Hws.
  rewrite Hs, Hw. simpl. rewrite !checked_sub_Some by done. simpl.
  set (d := N.min (N.min (sz_maximum s - w) share) (extra - assigned)).
  pose proof (grown_insert sizing widths i w s (w + d) Hb Hw Hs ltac:(lia)) as Hgi.
  pose proof (sumN_insert widths i (w + d) w Hw) as Hsum.
  assert (Hfirst : forall i' w' s' growable', i :: growable = i' :: growable' ->
    widths !! i' = Some w' -> sizing !! i' = Some s' -> (w' < sz_maximum s')%N -> (0 < share)%N ->
    (assigned < extra)%N -> (0 < d)%N).
  { intros i' w' s' g' [= -> ->] Hw' Hs'. simplify_eq. lia. }
  destruct (assigned + d =? extra)%N eqn:E.
  - apply N.eqb_eq in E. eexists _, _. split; [reflexivity|]. split; [lia|]. split; [lia|]. split; [done|].
    intros. lia.
  - destruct (IH (assigned + d)%N (<[i:=(w + d)%N]> widths)) as (widths' & assigned' & -> & ? & ? & Hgr & _);
      [apply Hgi|by rewrite length_insert|lia|].
    exists widths', assigned'. split; [done|]. split; [lia|]. split; [lia|].
    split; [by eapply grown_trans|]. intros i' w' s' g' H1 H2 H3 H4 H5 H6.
    specialize (Hfirst _ _ _ _ H1 H2 H3 H4 H5 H6). lia.
Qed.

Lemma elem_growable widths sizing i :
  i ∈ growable_indices widths sizing <->
  exists w s, widths !! i = Some w /\ sizing !! i = Some s /\ (w < sz_maximum s)%N.
Proof.
  unfold growable_indices. rewrite list_elem_of_omap. split.
  - intros ((j & w & s) & Hin & Hc). apply elem_indexed, lookup_zip_Some in Hin as [Hw Hs].
    cbn in Hc. case_match eqn:E; simplify_eq. apply N.ltb_lt in E. eauto.
  - intros (w & s & Hw & Hs & Hlt). exists (i, (w, s)). split.
    + apply elem_indexed, lookup_zip_Some. done.
    + cbn. apply N.ltb_lt in Hlt. by rewrite Hlt.
Qed.

Lemma grow_loop_spec sizing extra fuel : forall widths,
  Forall2 bounded widths sizing -> N.to_nat extra <= fuel ->
  exists widths' rest, grow_loop fuel widths sizing extra = Some (widths', rest) /\
    (sumN widths' + rest = sumN widths + extra)%N /\ grown sizing widths widths' /\
    (rest = 0%N \/ Forall2 (fun w s => w = sz_maximum s) widths' sizing).
Proof.
  revert extra; induction fuel as [|fuel IH]; intros extra widths Hb Hf; cbn [grow_loop].
  all: destruct (extra =? 0)%N eqn:E; [apply N.eqb_eq in E as ->; exists widths, 0%N;
    split; [done|]; split; [lia|]; split; [by apply grown_refl|by left]|apply N.eqb_neq in E].
  { lia. }
  destruct (growable_indices widths sizing) as [|i growable] eqn:Hg; cbn [bool_decide].
  - rewrite bool_decide_true by done. exists widths, extra. split; [done|]. split; [lia|].
    split; [by apply grown_refl|]. right. apply Forall2_same_length_lookup_2; [by eapply Forall2_length|].
    intros i w s Hw Hs. pose proof (Forall2_lookup_lr _ _ _ _ _ _ Hb Hw Hs) as Hle. unfold bounded in Hle.
    destruct (N.eq_dec w (sz_maximum s)) as [|Hne]; [done|]. exfalso.
    apply (not_elem_of_nil i). rewrite <- Hg. apply elem_growable. exists w, s. repeat split; try done. lia.
  - rewrite bool_decide_false by done. set (share := N.max _ _).
    destruct (grow_round_spec sizing share extra (i :: growable) 0 widths) as (w' & a & Hr & Ha & Hs & Hgr & Hp);
      [done| |lia|].
    { apply Forall_forall. intros j Hj. rewrite <- Hg in Hj. apply elem_growable in Hj as (w & _ & Hw & _).
      by eapply lookup_lt_Some. }
    rewrite Hr. simpl.
    assert (Hi : i ∈ growable_indices widths sizing) by (rewrite Hg; left).
    apply elem_growable in Hi as (w & s & Hw & Hsz & Hlt).
    specialize (Hp i w s growable eq_refl Hw Hsz Hlt ltac:(lia) ltac:(lia)).
    assert ((0 <? a)%N = true) as -> by (apply N.ltb_lt; lia). simpl.
    destruct (IH (extra - a)%N w') as (w'' & rest & -> & ? & ? & ?); [apply Hgr|lia|].
    exists w'', rest. split; [done|]. split; [lia|]. split; [by eapply grown_trans|done].
Qed.

Lemma grow_widths_spec widths sizing extra :
  Forall2 bounded widths sizing -> (sumN widths + extra <= sumN (sz_maximum <$> sizing))%N ->
  exists widths', grow_widths widths sizing extra = Some widths' /\
    sumN widths' = (sumN widths + extra)%N /\ grown sizing widths widths'.
Proof.
  intros Hb He. unfold grow_widths.
  destruct (grow_loop_spec sizing extra (N.to_nat extra) widths) as (w' & rest & -> & Hs & Hg & Hr); [done|lia|].
  simpl. assert (rest = 0%N) as ->.
  { destruct Hr as [|Hr]; [done|]. assert (sumN w' = sumN (sz_maximum <$> sizing)); [|lia].
    f_equal. apply list_eq_Forall2. by apply Forall2_fmap_r. }
  exists w'. split; [done|]. split; [lia|done].
Qed.
End Growth.

(** ** The widths of a group's children *)

Definition valid (s : Sizing) : Prop :=
  (sz_minimum s <= sz_preferred s <= sz_maximum s)%N.
Definition within (width : N) (s : Sizing) : Prop :=
  (sz_minimum s <= width <= sz_maximum s)%N.

(** The candidates of a group: every child with its minimum. *)
Lemma child_candidates (elements : list GroupElement) (sizing : list Sizing) :
  length elements = length sizing ->
  let cands := candidate_entry <$> sort_by candidate_le
        (imap (fun index e => (group_element_compression_priority e.1, index, sz_minimum e.2))
           (zip elements sizing)) in
  NoDup cands.*1 /\ forall i m, (i, m) ∈ cands <-> exists s, sizing !! i = Some s /\ m = sz_minimum s.
Proof.
  intros Hl cands.
  assert (Hp : cands ≡ₚ indexed (sz_minimum <$> sizing)).
  { unfold cands. rewrite sort_by_perm, fmap_imap.
    rewrite <- (snd_zip elements sizing) at 2 by lia. unfold indexed.
    by rewrite !imap_fmap. }
  split.
  - rewrite Hp, indexed_keys. apply NoDup_seq.
  - intros i m. rewrite Hp, elem_indexed, list_lookup_fmap_Some. naive_solver.
Qed.

Lemma natural_child_widths_spec elements sizing content_width :
  mapR group_element_sizing elements = Ok sizing -> Forall valid sizing ->
  (sumN (sz_minimum <$> sizing) <= content_width <= sumN (sz_maximum <$> sizing))%N ->
  exists widths, natural_child_widths elements content_width = Some widths /\
    sumN widths = content_width /\ Forall2 within widths sizing.
Proof.
  intros Hs Hv Hc. unfold natural_child_widths. rewrite Hs. simpl.
  pose proof (mapR_Ok group_element_sizing elements sizing) as [Hl _]. specialize (Hl Hs).
  apply Forall2_length in Hl. rewrite Forall_lookup in Hv.
  set (widths := sz_preferred <$> sizing).
  destruct (content_width <? sumN widths)%N eqn:E1; [apply N.ltb_lt in E1|apply N.ltb_ge in E1].
  - destruct (child_candidates elements sizing Hl) as [Hd Hin]. set (cands := candidate_entry <$> _) in *.
    rewrite compress_loop_after_eq by lia.
    destruct (compress_loop_spec cands widths (sumN widths - content_width)) as (ws & e & -> & [Hlen He Hsum _ Hw Hex]).
    { done. }
    { intros i m (s & Hi & ->)%Hin. exists (sz_preferred s). unfold widths.
      rewrite list_lookup_fmap, Hi. split; [done|]. apply (Hv _ _ Hi). }
    assert (e = 0%N) as ->.
    { destruct Hex as [|Hex]; [done|]. assert (ws = sz_minimum <$> sizing) as ->; [|lia].
      apply list_eq. intros i. rewrite list_lookup_fmap. destruct (sizing !! i) as [s|] eqn:Hi; simpl.
      - apply Hex, Hin. eauto.
      - apply lookup_ge_None. rewrite Hlen. unfold widths. rewrite length_fmap. by apply lookup_ge_None. }
    simpl. exists ws. split; [done|]. split; [lia|].
    apply Forall2_same_length_lookup_2; [by rewrite Hlen; unfold widths; rewrite length_fmap|].
    intros i w s Hi Hsi. destruct (Hw i (sz_minimum s) (sz_preferred s)) as (w' & Hw' & ?).
    { apply Hin. eauto. }
    { unfold widths. by rewrite list_lookup_fmap, Hsi. }
    simplify_eq. pose proof (Hv _ _ Hsi) as [_ Hp]. split; [lia|]. cbn in *. lia.
  - assert (Hb : Forall2 bounded widths sizing).
    { apply Forall2_fmap_l, Forall_Forall2_diag, Forall_lookup. intros i s Hi. apply (Hv _ _ Hi). }
    assert (Hm : Forall2 (fun w s => sz_minimum s <= w)%N widths sizing).
    { apply Forall2_fmap_l, Forall_Forall2_diag, Forall_lookup. intros i s Hi. apply (Hv _ _ Hi). }
    destruct (sumN widths <? content_width)%N eqn:E2; [apply N.ltb_lt in E2|apply N.ltb_ge in E2].
    + destruct (grow_widths_spec widths sizing (content_width - sumN widths) Hb ltac:(lia)) as (ws & -> & Hsum & Hbw & Hle).
      exists ws. split; [done|]. split; [lia|]. apply Forall2_same_length_lookup_2; [by eapply Forall2_length|].
      intros i w s Hi Hsi. pose proof (Forall2_lookup_lr _ _ _ _ _ _ Hbw Hi Hsi).
      destruct (Forall2_lookup_r _ _ _ _ _ Hle Hi) as (w0 & Hw0 & ?).
      pose proof (Forall2_lookup_lr _ _ _ _ _ _ Hm Hw0 Hsi) as Hm0. cbn in Hm0. split; [lia|done].
    + exists widths. split; [done|]. split; [lia|].
      apply Forall2_fmap_l, Forall_Forall2_diag, Forall_lookup. intros i s Hi.
      pose proof (Hv _ _ Hi) as []. by split.
Qed.

Lemma sumN_remainder b r a n :
  sumN ((fun index => b + if (N.of_nat index <? r)%N then 1 else 0)%N <$> seq a n) =
  (b * N.of_nat n + (N.min (N.of_nat (a + n)) r - N.min (N.of_nat a) r))%N.
Proof.
  revert a; induction n as [|n IH]; intros a; cbn [seq].
  { rewrite fmap_nil, N.mul_0_r. cbn [sumN foldr]. rewrite Nat.add_0_r. lia. }
  rewrite fmap_cons. cbn [sumN foldr]. change (foldr N.add 0%N) with sumN.
  rewrite IH, (Nat2N.inj_succ n), N.mul_succ_r.
  destruct (N.of_nat a <? r)%N eqn:E; [apply N.ltb_lt in E|apply N.ltb_ge in E]; lia.
Qed.

Lemma equal_child_widths_spec count content_width lower upper :
  count <> 0 -> (lower * N.of_nat count <= content_width <= upper * N.of_nat count)%N ->
  exists widths, equal_child_widths count content_width = Some widths /\ length widths = count /\
    sumN widths = content_width /\ Forall (fun w => lower <= w <= upper)%N widths.
Proof.
  intros Hc Hb. unfold equal_child_widths. rewrite bool_decide_false by done.
  pose proof (N.div_mod content_width (N.of_nat count) ltac:(lia)) as Hdm.
  pose proof (N.mod_upper_bound content_width (N.of_nat count) ltac:(lia)) as Hr.
  set (q := (content_width / _)%N) in *. set (r := (content_width mod _)%N) in *.
  eexists. split; [reflexivity|]. split; [by rewrite length_fmap, length_seq|].
  split; [rewrite sumN_remainder; lia|].
  apply Forall_fmap, Forall_forall. intros i _. cbn.
  assert (lower <= q)%N by nia. destruct (N.of_nat i <? r)%N eqn:E; [|nia].
  apply N.ltb_lt in E. assert (q < upper)%N by nia. lia.
Qed.

(** ** Sizings of groups *)

(** Induction over a group and its elements. *)
Lemma group_element_ind' (P : GroupElement -> Prop) :
  (forall item, P (GroupItem item)) ->
  (forall group, Forall P (gr_elements group) -> P (SubGroup group)) ->
  forall element, P element.
Proof.
  intros Hi Hg. fix IH 1. intros [item|[id elements layout spacing vp cp]]; [apply Hi|].
  apply Hg. cbn. induction elements as [|e elements IHe]; constructor; [apply IH|exact IHe].
Qed.

Definition item_ok (item : ItemSpec) : Prop :=
  (0 < it_min_width item /\ valid (item_sizing item))%N.

Lemma max_of_spec l : Forall (fun a => a <= max_of l)%N l.
Proof.
  induction l as [|a l IH]; simpl; constructor; [lia|]. eapply Forall_impl; [exact IH|]. cbn. lia.
Qed.

Lemma min_of_spec l : Forall (fun a => min_of l <= a)%N l.
Proof.
  destruct l as [|b l]; [constructor|]. cbn [min_of].
  assert (H : (foldr N.min b l <= b)%N /\ Forall (fun a => foldr N.min b l <= a)%N l).
  { induction l as [|a l [IHb IH]]; simpl; [split; [lia|constructor]|]. split; [lia|].
    constructor; [lia|]. eapply Forall_impl; [exact IH|]. cbn. lia. }
  constructor; apply H.
Qed.

Lemma min_of_pos l : l <> [] -> Forall (fun a => 0 < a)%N l -> (0 < min_of l)%N.
Proof.
  destruct l as [|b l]; [done|]. intros _ [Hb Hl]%Forall_cons. cbn [min_of].
  induction Hl; simpl; lia.
Qed.

Lemma sumN_fmap_le {A} (f g : A -> N) (l : list A) :
  Forall (fun a => f a <= g a)%N l -> (sumN (f <$> l) <= sumN (g <$> l))%N.
Proof. intros H. apply sumN_le, Forall2_fmap, Forall_Forall2_diag. exact H. Qed.

Lemma sumN_bounds {A} (f : A -> N) (l : list A) lower upper :
  Forall (fun a => lower <= f a <= upper)%N l ->
  (lower * len l <= sumN (f <$> l) <= upper * len l)%N.
Proof.
  induction 1; [rewrite len_nil, !N.mul_0_r; done|]. rewrite fmap_cons, len_cons. cbn [sumN foldr]. change (foldr N.add 0%N) with sumN. lia.
Qed.

Definition active_ok (s : Sizing) : Prop := valid s /\ (0 < sz_maximum s)%N.

Lemma active_sizing_ok children : Forall valid children -> Forall active_ok (active_sizing children).
Proof.
  rewrite !Forall_forall. unfold active_sizing. intros H s Hs.
  apply list_elem_of_In, filter_In in Hs as [Hin Hm%N.ltb_lt]. split; [|done].
  by apply H, list_elem_of_In.
Qed.

Lemma combine_sizing_valid {E} (group : GroupOf E) children s :
  Forall valid children -> combine_sizing group children = Ok s ->
  valid s /\ (sz_maximum s = 0%N -> active_sizing children = []).
Proof.
  intros Hv%active_sizing_ok. unfold combine_sizing. set (active := active_sizing children) in *.
  case_bool_decide as Hn.
  { intros [= <-]. split; [done|]. intros _. by apply nil_length_inv. }
  assert (Hne : active <> []) by (by intros ->).
  destruct (gr_layout group).
  - intros [= <-]. split.
    + split; cbn; apply N.add_le_mono_r, sumN_fmap_le; eapply Forall_impl; try exact Hv; intros ? []; by apply H.
    + destruct active as [|c active]; [done|]. cbn. apply Forall_cons in Hv as [[_ Hc] _]. lia.
  - destruct (_ <? _)%N eqn:Hlt; [done|]. apply N.ltb_ge in Hlt. intros [= <-].
    split; [split; cbn; apply N.add_le_mono_r, N.mul_le_mono_r; lia|].
    cbn. intros [Hz|Hz]%N.eq_add_0%proj1%N.eq_mul_0; [|apply nil_length_inv; unfold len in Hz; lia].
    exfalso. assert (0 < min_of (sz_maximum <$> active))%N; [|lia].
    apply min_of_pos; [by destruct active|]. apply Forall_fmap. eapply Forall_impl; [exact Hv|]. by intros ? [].
Qed.

Definition items_ok (items : list ItemSpec) : Prop := Forall item_ok items.

Lemma sizing_valid element : forall s,
  items_ok (group_items element) -> group_element_sizing element = Ok s ->
  valid s /\ (sz_maximum s = 0%N -> group_items element = []).
Proof.
  induction element as [item|group IH] using group_element_ind'; intros s Hi.
  { intros [= <-]. apply Forall_cons in Hi as [[Hp Hv] _]. split; [done|]. cbn in *. unfold valid in Hv. cbn in Hv. lia. }
  cbn [group_element_sizing]. intros (children & Hc & Hs)%bind_Ok. apply mapR_Ok in Hc.
  assert (H : Forall valid children /\
    (Forall (fun c => sz_maximum c = 0%N) children -> group_items (SubGroup group) = [])).
  { clear Hs. cbn [group_items] in *. revert Hi IH. induction Hc as [|e c es cs He Hc IHc]; [done|].
    cbn [flat_map]. unfold items_ok. rewrite Forall_app. intros [Hie Hi] [IHe IH]%Forall_cons.
    destruct (IHe c Hie He) as [Hv Hz]. destruct (IHc Hi IH) as [Hvs Hzs]. split; [by constructor|].
    intros [H1 H2]%Forall_cons. by rewrite Hz, Hzs. }
  destruct H as [Hv Hz]. apply combine_sizing_valid in Hs as [? Hm]; [|done]. split; [done|].
  intros Hact%Hm. apply Hz, Forall_forall. intros c Hcin. destruct (N.eq_dec (sz_maximum c) 0%N) as [|Hne]; [done|].
  exfalso. apply (not_elem_of_nil c). rewrite <- Hact. unfold active_sizing.
  apply list_elem_of_In, filter_In. split; [by apply list_elem_of_In|]. apply N.ltb_lt. lia.
Qed.

(** ** Placing a group *)

(** In order, without overlap, between two positions. *)
Fixpoint packed (lower upper : N) (placements : list Placement) : Prop :=
  match placements with
  | [] => (lower <= upper)%N
  | p :: placements' => (lower <= pl_x p)%N /\ packed (pl_x p + pl_width p) upper placements'
  end.

(** The placement of an item keeps its identifier and its width limits. *)
Definition fits (item : ItemSpec) (p : Placement) : Prop :=
  pl_id p = it_id item /\ within (pl_width p) (item_sizing item).

Lemma packed_weaken lower lower' upper upper' ps :
  (lower' <= lower)%N -> (upper <= upper')%N -> packed lower upper ps -> packed lower' upper' ps.
Proof.
  intros Hl Hu. revert lower lower' Hl; induction ps as [|p ps IH]; intros l l' Hl; simpl; [lia|].
  intros [? ?]. split; [lia|]. by eapply IH.
Qed.

Lemma packed_app lower middle upper ps qs :
  packed lower middle ps -> packed middle upper qs -> packed lower upper (ps ++ qs).
Proof.
  revert lower; induction ps as [|p ps IH]; intros lower; simpl.
  - intros ??. by eapply packed_weaken.
  - intros [? ?] ?. split; [done|]. by apply IH.
Qed.

Lemma packed_bounds lower upper ps p :
  packed lower upper ps -> p ∈ ps -> (lower <= pl_x p /\ pl_x p + pl_width p <= upper)%N.
Proof.
  revert lower; induction ps as [|q ps IH]; intros lower; simpl; [by intros _ ?%elem_of_nil|].
  intros [Hl Hp] [->|Hin]%elem_of_cons.
  - split; [done|]. clear -Hp. revert Hp. generalize (pl_x q + pl_width q)%N.
    induction ps as [|p ps IH]; simpl; [done|]. intros n [? ?%IH]. lia.
  - destruct (IH _ Hp Hin). lia.
Qed.

Definition places (items : list ItemSpec) (x width : N) (placed : option (list Placement)) : Prop :=
  exists ps, placed = Some ps /\ packed x (x + width) ps /\ Forall2 fits items ps.

Definition placeable (element : GroupElement) : Prop := forall s x width,
  items_ok (group_items element) -> group_element_sizing element = Ok s -> within width s ->
  (x + width < u32_limit)%N -> places (group_items element) x width (layout_group_element element x width).

Lemma place_item_spec item x width :
  within width (item_sizing item) -> (x + width < u32_limit)%N ->
  places [item] x width (place_item item x width).
Proof.
  intros Hw Hx. unfold place_item, to_u32.
  assert ((x <? u32_limit)%N = true) as -> by (apply N.ltb_lt; lia).
  assert ((width <? u32_limit)%N = true) as -> by (apply N.ltb_lt; lia). simpl.
  eexists. split; [reflexivity|]. split; [simpl; lia|].
  constructor; [by split|constructor].
Qed.

Lemma is_active_spec element s :
  group_element_sizing element = Ok s -> is_active element = Some (0 <? sz_maximum s)%N.
Proof. unfold is_active. by intros ->. Qed.

(** The room children take with the gaps between them. *)
Definition row (spacing : N) (widths : list N) : N := (sumN widths + gaps spacing (len widths))%N.

Lemma row_cons spacing w widths :
  widths <> [] -> row spacing (w :: widths) = (w + spacing + row spacing widths)%N.
Proof.
  intros Hw. assert (0 < len widths)%N by (destruct widths; [done|rewrite len_cons; lia]).
  unfold row, gaps, sat_sub. rewrite len_cons. cbn [sumN foldr]. change (foldr N.add 0%N) with sumN. nia.
Qed.

Lemma place_children_spec spacing elements children :
  Forall placeable elements -> items_ok (flat_map group_items elements) ->
  Forall2 (fun e c => group_element_sizing e = Ok c) elements children ->
  forall widths x upper, Forall2 within widths (active_sizing children) ->
  (widths <> [] -> x + row spacing widths <= upper)%N -> (upper < u32_limit)%N ->
  exists ps, place_children layout_group_element spacing elements widths x = Some ps /\
    match widths with [] => ps = [] | _ => packed x upper ps end /\
    Forall2 fits (flat_map group_items elements) ps.
Proof.
  intros Hp Hi Hc. revert Hp Hi. induction Hc as [|e c es cs He Hc IH]; intros Hp Hi widths x upper Hw Hx Hu.
  { apply Forall2_nil_inv_r in Hw as ->. by exists []. }
  apply Forall_cons in Hp as [Hpe Hp]. cbn [flat_map] in *. unfold items_ok in Hi.
  apply Forall_app in Hi as [Hie Hi]. cbn [place_children]. rewrite (is_active_spec e c He). simpl.
  destruct (sizing_valid e c Hie He) as [_ Hz]. revert Hw. unfold active_sizing. cbn [List.filter].
  destruct (0 <? sz_maximum c)%N eqn:Ha.
  2:{ intros Hw. apply N.ltb_ge in Ha. rewrite Hz by lia. by apply (IH Hp Hi widths x upper Hw Hx Hu). }
  intros (w & widths' & Hwc & Hw & ->)%Forall2_cons_inv_r. specialize (Hx ltac:(done)).
  assert (Hrow : (x + w <= upper)%N) by (unfold row in Hx; cbn [sumN foldr] in Hx; lia).
  destruct (Hpe c x w Hie He Hwc ltac:(lia)) as (ps & -> & Hps & Hfs). simpl.
  destruct (IH Hp Hi widths' (x + w + spacing)%N upper Hw) as (qs & Hq & Hqs & Hfq); [|done|].
  { intros Hne. rewrite row_cons in Hx by done. lia. }
  fold (place_children layout_group_element spacing). rewrite Hq. simpl.
  exists (ps ++ qs). split; [done|]. split; [|by apply Forall2_app].
  eapply packed_app; [exact Hps|]. destruct widths' as [|w' widths'].
  - subst qs. exact Hrow.
  - eapply packed_weaken; [| |exact Hqs]; lia.
Qed.

Lemma active_elements_spec elements children :
  Forall2 (fun e c => group_element_sizing e = Ok c) elements children ->
  exists active, active_elements elements = Some active /\
    mapR group_element_sizing active = Ok (active_sizing children).
Proof.
  induction 1 as [|e c es cs He Hc (active & IHa & IHm)]; [by exists []|].
  cbn [active_elements]. rewrite (is_active_spec e c He), IHa. simpl.
  unfold active_sizing in *. cbn [List.filter]. destruct (0 <? sz_maximum c)%N; [|by exists active].
  exists (e :: active). split; [done|]. cbn [mapR]. by rewrite He, IHm.
Qed.

Lemma child_widths_spec {E} (group : GroupOf E) active children s width :
  mapR group_element_sizing active = Ok (active_sizing children) -> Forall valid children ->
  active <> [] -> combine_sizing group children = Ok s -> within width s ->
  exists content widths, checked_sub width (gaps (gr_spacing group) (len active)) = Some content /\
    child_widths group active content = Some widths /\
    Forall2 within widths (active_sizing children) /\ row (gr_spacing group) widths = width.
Proof.
  intros Ha Hv%active_sizing_ok Hne. unfold combine_sizing. set (sizing := active_sizing children) in *.
  assert (Hl : length sizing = length active).
  { apply mapR_Ok, Forall2_length in Ha. done. }
  assert (length active <> 0) by by destruct active.
  rewrite bool_decide_false by lia. unfold child_widths.
  assert (Hlen : len sizing = len active) by (unfold len; by rewrite Hl). rewrite Hlen.
  set (g := gaps _ _). destruct (gr_layout group).
  - intros [= <-] Hw. unfold within in Hw. cbn in Hw. exists (width - g)%N.
    destruct (natural_child_widths_spec active sizing (width - g)) as (ws & Hn & Hsum & Hws); [done| |lia|].
    { eapply Forall_impl; [exact Hv|]. by intros ? []. }
    exists ws. rewrite checked_sub_Some by lia. split; [done|]. split; [done|]. split; [done|].
    unfold row. apply Forall2_length in Hws. unfold len. rewrite Hws, Hl. fold (len active).
    fold g. lia.
  - destruct (_ <? _)%N eqn:Hlt; [done|]. intros [= <-] Hw. unfold within in Hw. cbn in Hw.
    exists (width - g)%N.
    destruct (equal_child_widths_spec (length active) (width - g) (max_of (sz_minimum <$> sizing))
      (min_of (sz_maximum <$> sizing))) as (ws & He & Hwl & Hsum & Hws); [done|unfold len in *; lia|].
    exists ws. rewrite checked_sub_Some by lia. split; [done|]. split; [done|]. split.
    + apply Forall2_same_length_lookup_2; [lia|]. intros i w c Hi Hc.
      pose proof (Forall_lookup_1 _ _ _ _ Hws Hi) as Hwb. cbn in Hwb.
      pose proof (max_of_spec (sz_minimum <$> sizing)) as Hmax.
      pose proof (min_of_spec (sz_maximum <$> sizing)) as Hmin.
      rewrite Forall_fmap in Hmax, Hmin.
      pose proof (Forall_lookup_1 _ _ _ _ Hmax Hc). pose proof (Forall_lookup_1 _ _ _ _ Hmin Hc).
      cbn in *. unfold within. lia.
    + unfold row, len. rewrite Hwl. fold (len active). fold g. lia.
Qed.

(** Every group that validates is placed inside the width it is given. *)
Lemma layout_group_element_spec element : placeable element.
Proof.
  induction element as [item|group IH] using group_element_ind'; intros s x width Hi Hs Hw Hx.
  { injection Hs as <-. by apply place_item_spec. }
  cbn [group_element_sizing] in Hs. apply bind_Ok in Hs as (children & Hc%mapR_Ok & Hs).
  assert (Hv : Forall valid children).
  { cbn [group_items] in Hi. clear -Hc Hi. induction Hc as [|e c es cs He Hc IHc]; [constructor|].
    cbn [flat_map] in Hi. unfold items_ok in Hi. apply Forall_app in Hi as [Hie Hi].
    constructor; [by eapply sizing_valid|by apply IHc]. }
  destruct (active_elements_spec _ _ Hc) as (active & Ha & Hm).
  cbn [layout_group_element]. rewrite Ha. simpl. case_bool_decide as Hn.
  - subst active. injection Hm as Hm. destruct (combine_sizing_valid group children s Hv Hs) as [_ Hz].
    exists []. split; [done|]. split; [simpl; lia|].
    assert (Hempty : sz_maximum s = 0%N).
    { unfold combine_sizing in Hs. rewrite <- Hm in Hs. cbn in Hs. by injection Hs as <-. }
    destruct (sizing_valid (SubGroup group) s Hi) as [_ Hg].
    { cbn. apply mapR_Ok in Hc. by rewrite Hc. }
    change (Forall2 fits (group_items (SubGroup group)) []). rewrite Hg by done. constructor.
  - destruct (child_widths_spec group active children s width Hm Hv Hn Hs Hw)
      as (content & widths & -> & Hcw & Hws & Hrow). simpl. rewrite Hcw. simpl.
    destruct (place_children_spec (gr_spacing group) (gr_elements group) children IH Hi Hc widths x
      (x + width) Hws) as (ps & Hps & Hpk & Hf); [lia|done|].
    exists ps. split; [done|]. split; [|done].
    destruct widths; [|done]. exfalso. apply Hn. apply Forall2_length in Hws.
    apply mapR_Ok, Forall2_length in Hm. apply nil_length_inv. simpl in *. lia.
Qed.

(** ** What validation establishes *)

Definition element_ids (items : list ItemSpec) : list string := it_id <$> items.

Lemma validate_item_Ok item ids ids' :
  validate_item item ids = Ok ids' -> item_ok item /\ (it_id item ∉ ids) /\ ids' = set_add (it_id item) ids.
Proof.
  unfold validate_item, set_insert. intros H. inv_ok. b2p. split; [|split; [|done]].
  - rewrite N.eqb_neq, !N.ltb_ge in Hok0. unfold item_ok, valid. cbn. lia.
  - by apply set_contains_false.
Qed.

(** The items are well formed and new, and are added to those seen. *)
Record validated (items : list ItemSpec) (seen seen' : list string) : Prop := {
  vd_ok : items_ok items;
  vd_seen : seen' ≡ₚ element_ids items ++ seen;
  vd_nodup : NoDup seen -> NoDup seen';
}.

Lemma validated_nil seen : validated [] seen seen.
Proof. split; [constructor|done|done]. Qed.

Lemma validated_app items items' a b c :
  validated items a b -> validated items' b c -> validated (items ++ items') a c.
Proof.
  intros [? Hs ?] [? Hs' ?]. split; [by apply Forall_app|  |tauto].
  rewrite Hs', Hs. unfold element_ids. rewrite fmap_app. solve_Permutation.
Qed.

Lemma validated_item item ids ids' : validate_item item ids = Ok ids' -> validated [item] ids ids'.
Proof.
  intros (? & Hn & ->)%validate_item_Ok. split; [by apply Forall_singleton|by apply set_add_perm|].
  intros Hd. rewrite set_add_perm by done. by constructor.
Qed.

Lemma validate_group_element_Ok element : forall depth seen seen',
  validate_group_element element depth seen = Ok seen' ->
  validated (group_items element) seen.1 seen'.1 /\ is_ok (group_element_sizing element) = true.
Proof.
  induction element as [item|group IH] using group_element_ind'; intros depth seen seen' H.
  { cbn in H. inv_ok. split; [|done]. by apply validated_item. }
  cbn [validate_group_element] in H. inv_ok. unfold set_insert in H.
  apply bind_Ok in H as (_ & _ & H). apply bind_Ok in H as (seen1 & Hgo & H).
  apply bind_Ok in H as (sizing & Hsz & [= <-]). split; [|by rewrite Hsz].
  cbn [group_items]. revert Hgo.
  change seen.1 with (seen.1, set_add (gr_id group) seen.2).1 at 2.
  generalize (seen.1, set_add (gr_id group) seen.2). clear -IH.
  induction IH as [|e es He _ IHes]; intros s0 H; [injection H as <-; apply validated_nil|].
  apply bind_Ok in H as (s1 & H1 & H2). cbn [flat_map]. eapply validated_app; [eapply He, H1|by apply IHes].
Qed.

Lemma validate_elements_Ok elements : forall index seen seen',
  validate_elements index elements seen = Ok seen' ->
  validated (flat_map element_items elements) seen.1 seen'.1.
Proof.
  induction elements as [|e elements IH]; intros index seen seen' H.
  { injection H as <-. apply validated_nil. }
  cbn [validate_elements] in H. apply bind_Ok in H as (s1 & H1 & H2%IH).
  cbn [flat_map]. eapply validated_app; [|exact H2]. destruct e as [item|group|w|m w].
  - inv_ok. by apply validated_item.
  - by apply validate_group_element_Ok in H1 as [? _].
  - inv_ok. apply validated_nil.
  - case_match; inv_ok. apply validated_nil.
Qed.

Definition bar_items (bar : BarSpec) : list ItemSpec := flat_map element_items (bar_elements bar).

Lemma validate_bar_Ok bar required :
  validate bar required = Ok () ->
  items_ok (bar_items bar) /\ NoDup (element_ids (bar_items bar)) /\
  forall id, id ∈ required -> id ∈ element_ids (bar_items bar).
Proof.
  unfold validate. intros H. apply bind_Ok in H as (seen & Hv%validate_elements_Ok & H).
  destruct Hv as [Hi Hs Hd]. simpl in *. rewrite app_nil_r in Hs.
  split; [done|]. split; [rewrite <- Hs; apply Hd, NoDup_nil_2|].
  apply bind_Ok in H as (_ & _ & H). case_match eqn:E; [done|].
  intros id Hid. rewrite <- Hs. apply list_elem_of_In in Hid.
  pose proof (find_none _ _ E _ Hid) as Hc. by apply negb_false_iff, set_contains_spec in Hc.
Qed.

(** ** Visibility units *)

Lemma existsb_ext' {A} (f g : A -> bool) l : (forall a, f a = g a) -> existsb f l = existsb g l.
Proof. intros H. induction l; simpl; congruence. Qed.

Lemma existsb_flat_map {A B} (p : B -> bool) (f : A -> list B) l :
  existsb p (flat_map f l) = existsb (fun a => existsb p (f a)) l.
Proof. induction l as [|a l IH]; [done|]. cbn. by rewrite existsb_app, IH. Qed.

Lemma any_item (f : GroupElement -> bool) (p : ItemSpec -> bool) :
  (forall item, f (GroupItem item) = p item) ->
  (forall group, f (SubGroup group) = existsb f (gr_elements group)) ->
  forall element, f element = existsb p (group_items element).
Proof.
  intros Hi Hg element. induction element as [item|group IH] using group_element_ind'.
  - rewrite Hi. cbn. by rewrite orb_false_r.
  - rewrite Hg. cbn [group_items]. rewrite existsb_flat_map.
    induction IH as [|e es He _ IHes]; [done|]. cbn. by rewrite He, IHes.
Qed.

Definition is_required (required : list string) (item : ItemSpec) : bool :=
  set_contains (it_id item) required.

Lemma group_contains_required_spec required group :
  existsb (group_contains_required required) (gr_elements group) =
  existsb (is_required required) (element_items (Group group)).
Proof.
  cbn [element_items]. rewrite existsb_flat_map. apply existsb_ext'. intros e.
  by apply any_item.
Qed.

Lemma contains_item_spec element id :
  contains_item element id = existsb (fun item => String.eqb (it_id item) id) (element_items element).
Proof.
  destruct element as [item|group|w|m w]; try done; cbn [contains_item element_items].
  - cbn. by rewrite orb_false_r.
  - rewrite existsb_flat_map. apply existsb_ext'. intros e. by apply any_item.
Qed.

Section Units.
Context (required : list string).

Definition unit_indices (units : list VisibilityUnit) : list nat := concat (vu_elements <$> units).
Definition content_indices (entries : list (nat * Element)) : list nat :=
  omap (fun e : nat * Element => if is_content e.2 then Some e.1 else None) entries.

Lemma elem_unit_indices units i : i ∈ unit_indices units <-> exists u, u ∈ units /\ i ∈ vu_elements u.
Proof.
  unfold unit_indices. induction units as [|u units IH]; cbn; [set_solver|].
  rewrite elem_of_app, IH. set_solver.
Qed.

(** A unit that is not required holds no required item. *)
Definition optional_ok (entries : list (nat * Element)) (u : VisibilityUnit) : Prop :=
  vu_required u = false -> forall i, i ∈ vu_elements u ->
  exists e, (i, e) ∈ entries /\ existsb (is_required required) (element_items e) = false.

Definition units_ok (entries : list (nat * Element)) (units : list VisibilityUnit) : Prop :=
  unit_indices units ≡ₚ content_indices entries /\ Forall (optional_ok entries) units.

Lemma join_unit_spec index item group units units' :
  join_unit required index item group units = Some (Ok units') ->
  unit_indices units' ≡ₚ index :: unit_indices units /\
  forall u', u' ∈ units' -> u' ∈ units \/
    exists u, u ∈ units /\ vu_elements u' = vu_elements u ++ [index] /\
      vu_required u' = vu_required u || is_required required item.
Proof.
  revert units'; induction units as [|u units IH]; intros units' H; [done|]. cbn [join_unit] in H.
  case_bool_decide.
  - case_match; injection H as H; [done|]. simplify_eq. split.
    + unfold unit_indices. cbn. solve_Permutation.
    + intros u' [->|Hu]%elem_of_cons; [right; exists u; split; [left|done]|left; by right].
  - destruct (join_unit _ _ _ _ units) as [[us|]|]; try done. injection H as <-.
    destruct (IH us eq_refl) as [Hp He]. unfold unit_indices in *. cbn. split.
    + rewrite Hp. solve_Permutation.
    + intros u' [->|Hu]%elem_of_cons; [left; left|]. destruct (He u' Hu) as [|(v & ? & ?)]; [left; by right|].
      right. exists v. split; [by right|done].
Qed.

Lemma optional_weaken entries entry u : optional_ok entries u -> optional_ok (entries ++ [entry]) u.
Proof. intros H Hr i Hi. destruct (H Hr i Hi) as (e & ? & ?). exists e. split; [set_solver|done]. Qed.

Lemma add_new_unit entries units index e u :
  units_ok entries units -> is_content e = true -> vu_elements u = [index] ->
  vu_required u = existsb (is_required required) (element_items e) ->
  units_ok (entries ++ [(index, e)]) (units ++ [u]).
Proof.
  intros [Hp Ho] He Hu Hr. split.
  - unfold unit_indices, content_indices in *. rewrite fmap_app, concat_app, omap_app, Hp. cbn.
    by rewrite He, Hu.
  - apply Forall_app. split; [eapply Forall_impl; [exact Ho|]; intros; by apply optional_weaken|].
    apply Forall_singleton. intros Hf i Hi. rewrite Hu in Hi. apply list_elem_of_singleton in Hi as ->.
    exists e. split; [set_solver|congruence].
Qed.

Lemma add_unit_ok entries units entry units' :
  units_ok entries units -> add_unit required units entry = Ok units' ->
  units_ok (entries ++ [entry]) units'.
Proof.
  intros Hu H. destruct entry as [index [item|group|w|m w]]; cbn in H.
  - destruct (it_visibility_group item ≫= _) as [r|] eqn:Hj.
    2:{ injection H as <-. apply add_new_unit; try done. cbn. by rewrite orb_false_r. }
    subst r. destruct (it_visibility_group item) as [g|]; [|done]. simpl in Hj.
    apply join_unit_spec in Hj as [Hp He]. destruct Hu as [Hq Ho]. split.
    + rewrite Hp, Hq. unfold content_indices. rewrite omap_app. cbn. solve_Permutation.
    + rewrite Forall_forall in Ho |- *. intros u' [Hu'|(u & Hu & Hel & Hr)]%He.
      { by apply optional_weaken, Ho. }
      intros Hf i Hi. rewrite Hr in Hf. apply orb_false_iff in Hf as [Hf1 Hf2]. rewrite Hel in Hi.
      apply elem_of_app in Hi as [Hi|Hi].
      { by apply (optional_weaken _ _ _ (Ho u Hu)). }
      apply list_elem_of_singleton in Hi as ->. exists (Item item). split; [set_solver|]. cbn. by rewrite Hf2.
  - injection H as <-. apply add_new_unit; try done. cbn [new_unit vu_required].
    by rewrite group_contains_required_spec.
  - injection H as <-. destruct Hu as [Hp Ho]. split.
    + unfold content_indices in *. by rewrite omap_app, app_nil_r.
    + eapply Forall_impl; [exact Ho|]. intros; by apply optional_weaken.
  - injection H as <-. destruct Hu as [Hp Ho]. split.
    + unfold content_indices in *. by rewrite omap_app, app_nil_r.
    + eapply Forall_impl; [exact Ho|]. intros; by apply optional_weaken.
Qed.

Lemma visibility_units_ok bar units :
  visibility_units bar required = Ok units -> units_ok (indexed (bar_elements bar)) units.
Proof.
  unfold visibility_units. change (indexed (bar_elements bar)) with ([] ++ indexed (bar_elements bar)) at 2.
  assert (H0 : units_ok [] []) by (split; [done|constructor]). revert H0.
  generalize (@nil (nat * Element)), (@nil VisibilityUnit).
  induction (indexed (bar_elements bar)) as [|entry entries IH]; intros done us H0 H.
  { injection H as <-. by rewrite app_nil_r. }
  cbn [foldR] in H. apply bind_Ok in H as (us1 & H1%(add_unit_ok done) & H2); [|exact H0].
  change (entry :: entries) with ([entry] ++ entries). rewrite app_assoc. by apply (IH _ us1).
Qed.
End Units.

(** ** Hiding *)

Definition hide_indices (indices : list nat) (visible : list bool) : list bool :=
  fold_left (fun v i => <[i:=false]> v) indices visible.
Definition hide_all (units : list VisibilityUnit) (visible : list bool) : list bool :=
  hide_indices (unit_indices units) visible.

Lemma hide_indices_length indices visible : length (hide_indices indices visible) = length visible.
Proof. revert visible; induction indices as [|i l IH]; intros v; [done|]. cbn. by rewrite IH, length_insert. Qed.

Lemma hide_indices_lookup indices : forall visible i, i < length visible ->
  hide_indices indices visible !! i = if bool_decide (i ∈ indices) then Some false else visible !! i.
Proof.
  induction indices as [|j js IH]; intros visible i Hi; [done|]. unfold hide_indices in *.
  cbn [fold_left]. rewrite IH by (by rewrite length_insert).
  destruct (decide (i ∈ js)) as [Hin|Hin]; [rewrite !bool_decide_true by set_solver; done|].
  rewrite (bool_decide_false _ Hin). destruct (decide (i = j)) as [->|Hne].
  - rewrite bool_decide_true by set_solver. by apply list_lookup_insert_eq.
  - rewrite bool_decide_false by set_solver. by apply list_lookup_insert_ne.
Qed.

Lemma hide_all_cons u units visible :
  hide_all (u :: units) visible = hide_all units (hide_indices (vu_elements u) visible).
Proof. unfold hide_all, hide_indices, unit_indices. cbn. by rewrite fold_left_app. Qed.

Section Hiding.
Context (elements : list Element) (sizing : list Sizing).
Hypothesis Hlength : length sizing = length elements.

(** Only content is visible. *)
Definition visible_ok (visible : list bool) : Prop :=
  length visible = length elements /\
  forall i e, visible !! i = Some true -> elements !! i = Some e -> is_content e = true.

Lemma element_widths_lookup content visible i e v s :
  elements !! i = Some e -> visible !! i = Some v -> sizing !! i = Some s ->
  element_widths content elements visible sizing !! i = Some (element_width content v s e).
Proof.
  intros He Hv Hs. unfold element_widths. rewrite lookup_zip_with, He. simpl.
  assert (zip visible sizing !! i = Some (v, s)) as -> by by apply lookup_zip_Some.
  done.
Qed.

Lemma element_widths_length content visible :
  length visible = length elements -> length (element_widths content elements visible sizing) = length elements.
Proof. intros Hv. unfold element_widths. rewrite length_zip_with, length_zip. lia. Qed.

Lemma lookup_all (visible : list bool) (i : nat) :
  length visible = length elements -> i < length elements ->
  exists e v s, elements !! i = Some e /\ visible !! i = Some v /\ sizing !! i = Some s.
Proof.
  intros Hv Hi. destruct (lookup_lt_is_Some_2 elements i Hi) as [e He].
  destruct (lookup_lt_is_Some_2 visible i ltac:(lia)) as [v Hv'].
  destruct (lookup_lt_is_Some_2 sizing i ltac:(lia)) as [s Hs]. eauto 7.
Qed.

Lemma element_widths_hide content visible i e :
  length visible = length elements -> elements !! i = Some e -> is_content e = true ->
  element_widths content elements (<[i:=false]> visible) sizing =
  <[i:=0%N]> (element_widths content elements visible sizing).
Proof.
  intros Hv He Hc. apply list_eq. intros j. pose proof (lookup_lt_Some _ _ _ He) as Hi.
  destruct (decide (j < length elements)) as [Hj|Hj].
  - destruct (lookup_all visible j Hv Hj) as (e' & v & s & He' & Hv' & Hs).
    destruct (decide (i = j)) as [->|Hne].
    + rewrite list_lookup_insert_eq by (by rewrite element_widths_length).
      rewrite (element_widths_lookup _ _ _ e' false s He'); [| |done].
      * simplify_eq. by destruct e.
      * apply list_lookup_insert_eq. lia.
    + rewrite list_lookup_insert_ne by done. rewrite !(element_widths_lookup _ _ _ e' v s); try done.
      by rewrite list_lookup_insert_ne.
  - rewrite !lookup_ge_None_2; [done| |].
    + rewrite length_insert, element_widths_length; lia.
    + rewrite element_widths_length; [lia|]. by rewrite length_insert.
Qed.

Abbreviation total := (fun visible => total_width elements visible sizing).

Lemma hide_element_spec visible i e :
  length visible = length elements -> elements !! i = Some e -> is_content e = true ->
  hide_element sizing (visible, total visible) i = Some (<[i:=false]> visible, total (<[i:=false]> visible)).
Proof.
  intros Hv He Hc. destruct (lookup_all visible i Hv) as (e' & v & s & He' & Hv' & Hs).
  { by eapply lookup_lt_Some. }
  simplify_eq. unfold hide_element. rewrite Hv'. simpl. destruct v.
  - rewrite Hs. simpl. unfold total_width. rewrite (element_widths_hide _ _ _ e) by done.
    pose proof (element_widths_lookup sz_minimum visible i e true s He Hv' Hs) as Hl.
    assert (Hw : element_width sz_minimum true s e = sz_minimum s) by by destruct e. rewrite Hw in Hl.
    pose proof (sumN_insert _ i 0 _ Hl) as Hsum. rewrite checked_sub_Some by lia. simpl. do 2 f_equal. lia.
  - by rewrite list_insert_id.
Qed.

Definition content_all (indices : list nat) : Prop :=
  Forall (fun i => exists e, elements !! i = Some e /\ is_content e = true) indices.

Lemma hide_elements_spec indices : forall visible,
  length visible = length elements -> content_all indices ->
  hide_elements sizing indices (visible, total visible) =
  Some (hide_indices indices visible, total (hide_indices indices visible)).
Proof.
  induction indices as [|i indices IH]; intros visible Hv Hc; [done|].
  apply Forall_cons in Hc as [(e & He & Hce) Hc]. cbn [hide_elements].
  rewrite (hide_element_spec visible i e Hv He Hce). simpl. apply IH; [by rewrite length_insert|done].
Qed.

(** The shortest prefix of the units whose hiding makes the minimum fit. *)
Record hidden_prefix (available : N) (visible : list bool) (units hidden kept : list VisibilityUnit) : Prop := {
  hp_split : units = hidden ++ kept;
  hp_enough : kept = [] \/ (total (hide_all hidden visible) <= available)%N;
  hp_shortest : forall earlier u later, hidden = earlier ++ u :: later ->
    (available < total (hide_all earlier visible))%N;
}.

Lemma hide_units_spec available units : forall visible,
  length visible = length elements -> content_all (unit_indices units) ->
  (available < total visible)%N ->
  exists hidden kept, hidden_prefix available visible units hidden kept /\
    hide_units sizing available units (visible, total visible) =
    Some (hide_all hidden visible, total (hide_all hidden visible)).
Proof.
  induction units as [|u units IH]; intros visible Hv Hc Ha.
  { exists [], []. split; [|done]. split; [done|by left|]. by intros [] ? ? ?. }
  unfold unit_indices in Hc. cbn in Hc. apply Forall_app in Hc as [Hcu Hc]. cbn [hide_units].
  rewrite hide_elements_spec by done. simpl. set (v1 := hide_indices _ visible).
  destruct (total v1 <=? available)%N eqn:E.
  - apply N.leb_le in E. exists [u], units.
    assert (Hv1 : hide_all [u] visible = v1) by by rewrite hide_all_cons.
    rewrite Hv1. split; [|done]. split; [done|rewrite Hv1; by right|].
    intros [|u' earlier] u'' later [= -> Hl]; [done|]. by destruct earlier.
  - apply N.leb_gt in E. destruct (IH v1) as (hidden & kept & [-> He Hs] & ->);
      [unfold v1; by rewrite hide_indices_length|done|done|].
    exists (u :: hidden), kept. rewrite hide_all_cons. split; [|done]. split; [done|by rewrite hide_all_cons|].
    intros [|u' earlier] u'' later [= -> Hl]; [done|]. rewrite hide_all_cons. by eapply Hs.
Qed.
End Hiding.

(** [sort_by] sorts when the comparison is total and transitive. *)
Section SortSorted.
Context {A : Type} (le : A -> A -> bool).
Hypothesis le_total : forall a b, le a b = false -> le b a = true.
Hypothesis le_trans : forall a b c, le a b = true -> le b c = true -> le a c = true.

Definition sorted (l : list A) : Prop := forall front a back b, l = front ++ a :: back -> b ∈ back -> le a b = true.

Lemma sorted_cons a l : sorted (a :: l) <-> (forall b, b ∈ l -> le a b = true) /\ sorted l.
Proof.
  split.
  - intros H. split; [intros b; by apply (H [] a l b)|]. intros f x k b ->. by apply (H (a :: f)).
  - intros [Ha H] [|x f] y k b [= -> ->]; [apply Ha|by eapply H].
Qed.

Lemma insert_by_sorted a l : sorted l -> sorted (insert_by le a l).
Proof.
  induction l as [|b l IH]; cbn [insert_by]; rewrite ?sorted_cons.
  { intros _. split; [by intros ? ?%elem_of_nil|by intros []]. }
  intros [Hb Hl]. destruct (le a b) eqn:E.
  - rewrite !sorted_cons. split; [|done]. intros c [->|Hc]%elem_of_cons; [done|]. eapply le_trans; [exact E|by apply Hb].
  - rewrite sorted_cons. split; [|by apply IH]. intros c. rewrite insert_by_perm.
    intros [->|Hc]%elem_of_cons; [by apply le_total|by apply Hb].
Qed.

Lemma sort_by_sorted l : sorted (sort_by le l).
Proof. induction l as [|a l IH]; [by intros []|]. cbn. by apply insert_by_sorted. Qed.
End SortSorted.

Lemma priority_le_total a b : priority_le a b = false -> priority_le b a = true.
Proof.
  unfold priority_le. rewrite (Z.compare_antisym a.1 b.1). destruct (a.1 ?= b.1)%Z; simpl; try done.
  rewrite Nat.leb_gt, Nat.leb_le. lia.
Qed.

Lemma priority_le_spec a b :
  priority_le a b = true <-> (a.1 < b.1)%Z \/ a.1 = b.1 /\ b.2 <= a.2.
Proof.
  unfold priority_le. destruct (a.1 ?= b.1)%Z eqn:E.
  - apply Z.compare_eq_iff in E. rewrite Nat.leb_le. lia.
  - rewrite Z.compare_lt_iff in E. split; [by left|done].
  - rewrite Z.compare_gt_iff in E. split; [done|lia].
Qed.

Lemma priority_le_trans a b c : priority_le a b = true -> priority_le b c = true -> priority_le a c = true.
Proof. rewrite !priority_le_spec. lia. Qed.

(** ** Compressing the bar *)

Lemma omap_keys_sublist {A B} (f : nat * A -> option B) (g : B -> nat) (l : list (nat * A)) :
  (forall x c, f x = Some c -> g c = x.1) -> g <$> omap f l `sublist_of` l.*1.
Proof.
  intros H. induction l as [|x l IH]; [constructor|]. cbn. destruct (f x) as [c|] eqn:E; cbn.
  - rewrite (H _ _ E). by constructor.
  - by constructor.
Qed.

Lemma omap_indexed_NoDup {A B} (f : nat * A -> option B) (g : B -> nat) (l : list A) :
  (forall x c, f x = Some c -> g c = x.1) -> NoDup (g <$> omap f (indexed l)).
Proof.
  intros H. eapply sublist_NoDup; [|by apply omap_keys_sublist]. rewrite indexed_keys. apply NoDup_seq.
Qed.

Section Fitting.
Context (elements : list Element) (sizing : list Sizing).
Hypothesis Hsizing : Forall2 (fun e s => element_sizing e = Ok s) elements sizing.
Hypothesis Hvalid : Forall valid sizing.

Lemma sizing_length : length sizing = length elements.
Proof. symmetry. by eapply Forall2_length. Qed.

(** The width of an element that is laid out. *)
Definition width_ok (visible : bool) (s : Sizing) (element : Element) (width : N) : Prop :=
  if is_content element
  then if visible then within width s else width = 0%N
  else (element_width sz_minimum visible s element <= width)%N.

Lemma bar_candidates visible :
  visible_ok elements visible ->
  let cands := candidate_entry <$> sort_by candidate_le
        (omap compress_candidate (indexed (zip elements (zip visible sizing)))) in
  NoDup cands.*1 /\
  forall i m, (i, m) ∈ cands <-> exists e s, elements !! i = Some e /\ visible !! i = Some true /\
    sizing !! i = Some s /\ m = sz_minimum s.
Proof.
  intros [_ Hv] cands. split.
  - unfold cands. rewrite <- list_fmap_compose, sort_by_perm. apply omap_indexed_NoDup.
    intros [i [e [v s]]] c. cbn. destruct v, e; by intros [= <-].
  - intros i m. unfold cands. rewrite list_elem_of_fmap. setoid_rewrite sort_by_perm.
    setoid_rewrite list_elem_of_omap. split.
    + intros (c & Hce & [j [e [v s]]] & Hin & Hc). apply elem_indexed, lookup_zip_Some in Hin as [He Hz].
      apply lookup_zip_Some in Hz as [Hvi Hs]. cbn in *. destruct v; [|done].
      exists e, s. destruct e; simplify_eq; cbn in Hce; by injection Hce as -> ->.
    + intros (e & s & He & Hvi & Hs & ->). pose proof (Hv i e Hvi He) as Hc.
      assert (Hin : (i, (e, (true, s))) ∈ indexed (zip elements (zip visible sizing))).
      { apply elem_indexed, lookup_zip_Some. split; [done|]. by apply lookup_zip_Some. }
      destruct e; try done; eexists; (split; [|eexists; split; [exact Hin|reflexivity]]); done.
Qed.

Lemma compress_to_fit_spec visible available :
  visible_ok elements visible -> (total_width elements visible sizing <= available)%N ->
  let preferred := element_widths sz_preferred elements visible sizing in
  exists widths, compress_to_fit elements visible sizing preferred available = Some widths /\
    length widths = length elements /\ sumN widths = N.min (sumN preferred) available /\
    forall i e v s w, elements !! i = Some e -> visible !! i = Some v -> sizing !! i = Some s ->
      widths !! i = Some w -> width_ok v s e w.
Proof.
  intros Hvis Hfit preferred. pose proof sizing_length as Hl. pose proof Hvis as [Hvl Hv].
  assert (Hpl : length preferred = length elements) by by apply element_widths_length.
  destruct (bar_candidates visible Hvis) as [Hd Hin]. unfold compress_to_fit, sat_sub.
  set (cands := candidate_entry <$> _) in *.
  assert (Hp : forall i e v s, elements !! i = Some e -> visible !! i = Some v -> sizing !! i = Some s ->
    preferred !! i = Some (element_width sz_preferred v s e)) by (intros; by apply element_widths_lookup).
  assert (Hcontent : forall f e s, is_content e = true -> element_width f true s e = f s)
    by (intros f [] s ?; done).
  destruct (compress_loop_spec cands preferred (sumN preferred - available)) as (ws & e & -> & [Hwl He Hs Ho Hc Hx]).
  { done. }
  { intros i m (el & s & Hel & Hvi & Hsi & ->)%Hin. eexists. split; [by apply Hp|].
    rewrite Hcontent by by eapply Hv. by apply (Forall_lookup_1 _ _ _ _ Hvalid Hsi). }
  assert (Hhid : forall i el s, elements !! i = Some el -> visible !! i = Some false -> sizing !! i = Some s ->
    ws !! i = Some (element_width sz_preferred false s el)).
  { intros i el s Hel Hvi Hsi. rewrite Ho; [by apply Hp|]. rewrite list_elem_of_fmap.
    intros ([j m] & -> & (? & ? & ? & ? & ?)%Hin). cbn in *. congruence. }
  assert (e = 0%N) as ->.
  { destruct Hx as [|Hx]; [done|]. destruct (N.eq_dec e 0%N) as [|Hne]; [done|]. exfalso.
    assert (ws = element_widths sz_minimum elements visible sizing) as ->.
    2:{ unfold total_width in Hfit. lia. }
    apply list_eq. intros i. destruct (decide (i < length elements)) as [Hi|Hi].
    2:{ rewrite !lookup_ge_None_2; [done| |]; [rewrite element_widths_length; lia|lia]. }
    destruct (lookup_all elements sizing Hl visible i Hvl Hi) as (el & v & s & Hel & Hvi & Hsi).
    rewrite (element_widths_lookup _ _ _ _ _ el v s) by done. destruct v.
    - rewrite Hcontent by by eapply Hv. apply Hx, Hin. eauto 7.
    - rewrite (Hhid i el s) by done. by destruct el. }
  simpl. exists ws. split; [done|]. split; [lia|]. split; [lia|].
  intros i el v s w Hel Hvi Hsi Hw. unfold width_ok. destruct v.
  - pose proof (Hv i el Hvi Hel) as Hcon. rewrite Hcon.
    destruct (Hc i (sz_minimum s) (sz_preferred s)) as (w' & Hw' & ?); [apply Hin; eauto 7| |].
    { rewrite <- (Hcontent sz_preferred el s Hcon). by apply Hp. }
    simplify_eq. pose proof (Forall_lookup_1 _ _ _ _ Hvalid Hsi) as []. unfold within. lia.
  - rewrite (Hhid i el s) in Hw by done. injection Hw as <-. destruct el; simpl; lia.
Qed.
End Fitting.

(** ** Flexible space *)

(** Widths that only grew, and only inside a range. *)
Record widened (first past : nat) (amount : N) (widths widths' : list N) : Prop := {
  wd_length : length widths' = length widths;
  wd_sum : sumN widths' = (sumN widths + amount)%N;
  wd_le : Forall2 N.le widths widths';
  wd_outside : forall i, ~ (first <= i < past) -> widths' !! i = widths !! i;
}.

Lemma widened_refl first past widths : widened first past 0 widths widths.
Proof. split; [done|lia|reflexivity|done]. Qed.

Lemma distribute_loop_spec first past extra total flexible : forall assigned widths,
  NoDup flexible.*1 -> flexible <> [] -> (0 < total)%N ->
  Forall (fun f : nat * N => f.1 < length widths /\ first <= f.1 < past) flexible ->
  (assigned * total + extra * sumN flexible.*2 <= extra * total)%N ->
  exists widths', distribute_loop flexible extra total assigned widths = Some widths' /\
    widened first past (extra - assigned) widths widths' /\ (assigned <= extra)%N /\
    forall i, i ∉ flexible.*1 -> widths' !! i = widths !! i.
Proof.
  induction flexible as [|[i weight] flexible IH]; intros assigned widths Hd Hne Ht Hf Ha; [done|].
  rewrite fmap_cons, NoDup_cons in Hd. destruct Hd as [Hi Hd].
  apply Forall_cons in Hf as [[[w Hw]%lookup_lt_is_Some Hr] Hf]. cbn [fst snd] in *.
  rewrite fmap_cons in Ha. cbn [sumN foldr snd] in Ha. change (foldr N.add 0%N) with sumN in Ha.
  assert (Hae : (assigned <= extra)%N) by nia.
  assert (Hgrow : forall a, widened first past a widths (<[i:=(w + a)%N]> widths)).
  { intros a. pose proof (sumN_insert widths i (w + a) w Hw). split; [by rewrite length_insert|lia| |].
    - rewrite <- (list_insert_id widths i w Hw) at 1. apply Forall2_insert; [reflexivity|lia].
    - intros j Hj. apply list_lookup_insert_ne. intros <-. done. }
  cbn [distribute_loop]. destruct flexible as [|f flexible].
  - rewrite checked_sub_Some by done. simpl. rewrite Hw. simpl. eexists. split; [reflexivity|].
    split; [apply Hgrow|]. split; [done|]. intros j Hj. apply list_lookup_insert_ne. set_solver.
  - set (a := (extra * weight / total)%N). set (rest := f :: flexible) in *.
    assert (Hb : (a * total <= extra * weight)%N).
    { unfold a. rewrite N.mul_comm. apply N.Div0.mul_div_le. }
    simpl. rewrite Hw. simpl.
    destruct (IH (assigned + a)%N (<[i:=(w + a)%N]> widths)) as (ws & Hl & Hws & Hle & Ho); [done|done|done| | |].
    { eapply Forall_impl; [exact Hf|]. intros ? []. by rewrite length_insert. }
    { nia. }
    exists ws. split; [exact Hl|]. destruct (Hgrow a) as [? Hs1 Hl1 Ho1], Hws as [? Hs2 Hl2 Ho2].
    split; [|split; [done|]].
    + split; [congruence|lia|by etransitivity|]. intros j Hj. rewrite Ho2 by done. by apply Ho1.
    + intros j [Hj1 Hj2]%not_elem_of_cons. rewrite Ho by done. by apply list_lookup_insert_ne.
Qed.

Lemma distribute_spec elements widths first past extra :
  length widths = length elements ->
  exists widths' amount, distribute_flexible_space elements widths first past extra = Some widths' /\
    (amount <= extra)%N /\ widened first past amount widths widths' /\
    forall i e, elements !! i = Some e -> is_content e = true -> widths' !! i = widths !! i.
Proof.
  intros Hl. unfold distribute_flexible_space.
  destruct (extra =? 0)%N; [exists widths, 0%N; split; [done|]; split; [lia|]; split; [apply widened_refl|done]|].
  set (flexible := flexible_spaces elements first past).
  assert (Hin : forall f, f ∈ flexible -> first <= f.1 < past /\ exists m, elements !! f.1 = Some (FlexibleSpace m f.2)).
  { intros f. unfold flexible, flexible_spaces. rewrite list_elem_of_omap.
    intros ([i e] & He%elem_indexed & Hf). cbn in Hf. destruct e; try done. case_bool_decide; [|done].
    injection Hf as <-. cbn. eauto. }
  destruct (sumN flexible.*2 =? 0)%N eqn:Ht.
  { exists widths, 0%N. split; [done|]. split; [lia|]. split; [apply widened_refl|done]. }
  apply N.eqb_neq in Ht.
  destruct (distribute_loop_spec first past extra (sumN flexible.*2) flexible 0 widths) as (ws & -> & Hws & _ & Ho).
  - apply (omap_indexed_NoDup _ fst). intros [i e] c. cbn. destruct e; try done. case_bool_decide; [|done].
    by intros [= <-].
  - intros Hn. apply Ht. by rewrite Hn.
  - lia.
  - apply Forall_forall. intros f Hf. destruct (Hin f Hf) as [? [m Hm%lookup_lt_Some]]. split; [lia|done].
  - lia.
  - exists ws, extra. rewrite N.sub_0_r in Hws. split; [done|]. split; [lia|]. split; [done|].
    intros i e He Hc. apply Ho. intros ([j w] & -> & Hj)%list_elem_of_fmap. destruct (Hin _ Hj) as [_ [m Hm]].
    cbn in *. simplify_eq.
Qed.

Lemma widened_take first past amount widths widths' n :
  widened first past amount widths widths' -> n <= first -> take n widths' = take n widths.
Proof.
  intros [_ _ _ Ho] Hn. apply list_eq. intros i. rewrite !lookup_take. case_decide; [|done]. apply Ho. lia.
Qed.

Lemma widened_drop first past amount widths widths' n :
  widened first past amount widths widths' -> past <= n -> drop n widths' = drop n widths.
Proof. intros [_ _ _ Ho] Hn. apply list_eq. intros i. rewrite !lookup_drop. apply Ho. lia. Qed.

(** ** The principal item *)

(** Where the elements go: in order, from 0, inside the bar. *)
Definition arranged (available : N) (widths : list N) (principal : option (nat * N)) : Prop :=
  match principal with
  | None => (sumN widths <= available)%N
  | Some (p, x) => exists w, widths !! p = Some w /\ (sumN (take p widths) <= x)%N /\
      (x + w + sumN (drop (S p) widths) <= available)%N
  end.

Lemma element_items_ok bar i e :
  items_ok (bar_items bar) -> bar_elements bar !! i = Some e -> items_ok (element_items e).
Proof.
  unfold items_ok, bar_items. rewrite !Forall_forall. intros H He item Hin. apply H.
  apply list_elem_of_In, in_flat_map. exists e. split; apply list_elem_of_In; [|done].
  by eapply list_elem_of_lookup_2.
Qed.

Lemma layout_element_spec e s x width :
  items_ok (element_items e) -> element_sizing e = Ok s -> is_content e = true -> within width s ->
  (x + width < u32_limit)%N -> places (element_items e) x width (layout_element e x width).
Proof.
  intros Hi Hs Hc Hw Hx. destruct e as [item|group|w|m w]; try done.
  - injection Hs as <-. by apply place_item_spec.
  - by apply (layout_group_element_spec (SubGroup group) s).
Qed.

Lemma principal_metrics_spec e s width principal :
  items_ok (element_items e) -> element_sizing e = Ok s -> is_content e = true -> within width s ->
  (width < u32_limit)%N ->
  exists metrics, principal_metrics e width principal = Some metrics /\
    match metrics with Some (offset, w) => (offset + w <= width)%N | None => True end.
Proof.
  intros Hi Hs Hc Hw Hx. destruct e as [item|group|w|m w]; try done; cbn [principal_metrics].
  - eexists. split; [reflexivity|]. destruct (String.eqb _ _); [lia|done].
  - destruct (layout_element_spec (Group group) s 0 width Hi Hs Hc Hw) as (ps & Hps & Hpk & _); [lia|].
    cbn [layout_element] in Hps. rewrite Hps. simpl. eexists. split; [reflexivity|].
    destruct (List.find _ ps) as [p|] eqn:Hf; [|done]. cbn.
    apply find_some in Hf as [Hin%list_elem_of_In _]. apply (packed_bounds _ _ _ _ Hpk) in Hin. lia.
Qed.

Lemma find_principal_Some elements visible principal i e :
  find_principal elements visible principal = Some (i, e) ->
  elements !! i = Some e /\ visible !! i = Some true /\ contains_item e principal = true.
Proof.
  unfold find_principal. intros ([[j e'] v] & Hf & [= <- <-])%fmap_Some.
  apply find_some in Hf as [Hin%list_elem_of_In Hc]. cbn in Hc. apply andb_true_iff in Hc as [-> Hc].
  apply list_elem_of_lookup_1 in Hin as [k Hk]. apply lookup_zip_Some in Hk as [Hk Hv]. cbn in *.
  unfold indexed in Hk. rewrite list_lookup_imap in Hk. destruct (elements !! k) eqn:He; [|done].
  injection Hk as <- <-. done.
Qed.

(** Every checked subtraction in the goal stays above zero. *)
Ltac fits_below := repeat (rewrite checked_sub_Some by lia; simpl).

Lemma centre_spec elements widths available p w offset principal_width :
  length widths = length elements -> (sumN widths <= available)%N -> widths !! p = Some w ->
  (offset + principal_width <= w)%N ->
  exists widths' x, centre elements widths available p offset principal_width = Some (widths', Some (p, x)) /\
    length widths' = length elements /\ arranged available widths' (Some (p, x)) /\
    forall i e, elements !! i = Some e -> is_content e = true -> widths' !! i = widths !! i.
Proof.
  intros Hl Hs Hw Ho. pose proof (sumN_split widths p w Hw) as Hsplit. unfold centre. rewrite Hw. simpl.
  set (before := sumN (take p widths)) in *. set (after := sumN (drop (S p) widths)) in *.
  fits_below.
  set (desired := sat_sub _ _). set (maximum := (available - w - after)%N).
  assert (Hm : (before <= maximum)%N) by (unfold maximum; lia). unfold clamp.
  rewrite (proj2 (N.leb_le before maximum) Hm). simpl.
  set (x := N.max before (N.min desired maximum)). assert (Hx : (before <= x <= maximum)%N) by lia.
  unfold maximum in *. fits_below.
  destruct (distribute_spec elements widths 0 p (x - before) Hl) as (w1 & a1 & -> & Ha1 & Hw1 & Hc1). simpl.
  fits_below.
  destruct (distribute_spec elements w1 (S p) (length elements) (available - x - w - after))
    as (w2 & a2 & -> & Ha2 & Hw2 & Hc2); [by rewrite (wd_length _ _ _ _ _ Hw1)|]. simpl.
  assert (Hp2 : w2 !! p = Some w).
  { rewrite (wd_outside _ _ _ _ _ Hw2), (wd_outside _ _ _ _ _ Hw1) by lia. done. }
  assert (Hp1 : w1 !! p = Some w) by (by rewrite (wd_outside _ _ _ _ _ Hw1) by lia).
  pose proof (sumN_split w1 p w Hp1) as Hs1. pose proof (sumN_split w2 p w Hp2) as Hs2.
  pose proof (wd_sum _ _ _ _ _ Hw1) as Hu1. pose proof (wd_sum _ _ _ _ _ Hw2) as Hu2.
  rewrite (widened_drop _ _ _ _ _ (S p) Hw1) in Hs1 by lia.
  pose proof (widened_take _ _ _ _ _ p Hw2 ltac:(lia)) as Ht2. rewrite Ht2 in Hs2.
  fold after in Hs1. exists w2, x. split; [done|].
  split; [rewrite (wd_length _ _ _ _ _ Hw2), (wd_length _ _ _ _ _ Hw1); done|]. split.
  - exists w. split; [done|]. rewrite Ht2. lia.
  - intros i e He Hc. by rewrite (Hc2 i e), (Hc1 i e).
Qed.

Section Spread.
Context (bar : BarSpec) (sizing : list Sizing) (visible : list bool) (widths : list N) (available : N).
Hypothesis Hitems : items_ok (bar_items bar).
Hypothesis Hsizing : Forall2 (fun e s => element_sizing e = Ok s) (bar_elements bar) sizing.
Hypothesis Hvisible : visible_ok (bar_elements bar) visible.
Hypothesis Hlength : length widths = length (bar_elements bar).
Hypothesis Hwidths : forall i e v s w, bar_elements bar !! i = Some e -> visible !! i = Some v ->
  sizing !! i = Some s -> widths !! i = Some w -> width_ok v s e w.
Hypothesis Hfit : (sumN widths <= available < u32_limit)%N.

(** A visible element is content with its sizing, and a width inside it. *)
Lemma visible_element i e :
  bar_elements bar !! i = Some e -> visible !! i = Some true ->
  exists s w, is_content e = true /\ element_sizing e = Ok s /\ items_ok (element_items e) /\
    widths !! i = Some w /\ within w s /\ (w < u32_limit)%N.
Proof.
  intros He Hv. destruct (lookup_all (bar_elements bar) sizing (sizing_length _ _ Hsizing) visible i)
    as (e' & v & s & ? & ? & Hs); [apply Hvisible|by eapply lookup_lt_Some|]. simplify_eq.
  destruct (lookup_lt_is_Some_2 widths i) as [w Hw]; [rewrite Hlength; by eapply lookup_lt_Some|].
  pose proof (proj2 Hvisible i e Hv He) as Hc. exists s, w. split; [done|].
  split; [by apply (Forall2_lookup_lr _ _ _ _ _ _ Hsizing He Hs)|].
  split; [by eapply element_items_ok|]. split; [done|].
  pose proof (Hwidths i e true s w He Hv Hs Hw) as H. unfold width_ok in H. rewrite Hc in H.
  split; [done|]. pose proof (sumN_elem widths i w Hw). lia.
Qed.

Lemma locate_principal_spec :
  exists located, locate_principal bar visible widths = Some located /\
    match located with
    | Some (p, offset, w) => exists width, widths !! p = Some width /\ (offset + w <= width)%N
    | None => True
    end.
Proof.
  unfold locate_principal. destruct (bar_principal_item bar) as [principal|]; [|by eexists].
  destruct (find_principal _ _ _) as [[i e]|] eqn:Hf; [|by eexists].
  apply find_principal_Some in Hf as (He & Hv & _).
  destruct (visible_element i e He Hv) as (s & w & Hc & Hs & Hi & Hw & Hwi & Hlt). rewrite Hw. simpl.
  destruct (principal_metrics_spec e s w principal Hi Hs Hc Hwi Hlt) as (m & -> & Hm). simpl.
  eexists. split; [reflexivity|]. destruct m as [[o pw]|]; [|done]. cbn. eauto.
Qed.

Lemma spread_spec :
  exists widths' principal, spread bar visible widths available = Some (widths', principal) /\
    length widths' = length (bar_elements bar) /\ arranged available widths' principal /\
    forall i e, bar_elements bar !! i = Some e -> is_content e = true -> widths' !! i = widths !! i.
Proof.
  unfold spread. destruct locate_principal_spec as (located & -> & Hloc). simpl.
  rewrite checked_sub_Some by lia. simpl. destruct located as [[[p offset] pw]|].
  - destruct Hloc as (w & Hw & Ho).
    destruct (centre_spec (bar_elements bar) widths available p w offset pw Hlength ltac:(lia) Hw Ho)
      as (ws & x & -> & ? & ? & ?). by exists ws, (Some (p, x)).
  - destruct (distribute_spec (bar_elements bar) widths 0 (length (bar_elements bar)) (available - sumN widths) Hlength)
      as (ws & a & -> & Ha & Hw & Hc). simpl. exists ws, None. split; [done|].
    split; [by rewrite (wd_length _ _ _ _ _ Hw)|]. split; [|done].
    cbn. rewrite (wd_sum _ _ _ _ _ Hw). lia.
Qed.
End Spread.

(** ** Placing the bar *)

Section Placing.
Context (principal : option (nat * N)) (upper : N).
Hypothesis Hupper : (upper < u32_limit)%N.
Implicit Types (entries : list (nat * (Element * (bool * N)))).

Definition start (index : nat) (x : N) : N :=
  match principal with
  | Some (p, principal_x) => if bool_decide (p = index) then principal_x else x
  | None => x
  end.

(** The positions never move back and end inside the bar. *)
Fixpoint reach entries (x : N) : Prop :=
  match entries with
  | [] => (x <= upper)%N
  | (index, (_, (_, width))) :: entries' =>
      (x <= start index x)%N /\ reach entries' (start index x + width)%N
  end.

Definition entry_width (e : nat * (Element * (bool * N))) : N := e.2.2.2.

Lemma reach_app front back x :
  (forall p px, principal = Some (p, px) -> p ∉ front.*1) ->
  reach back (x + sumN (entry_width <$> front))%N -> reach (front ++ back) x.
Proof.
  intros Hp. revert x; induction front as [|[i [e [v w]]] front IH]; intros x H; cbn in *.
  { by rewrite N.add_0_r in H. }
  assert (start i x = x) as ->.
  { unfold start. destruct principal as [[p px]|]; [|done]. rewrite bool_decide_false; [done|].
    intros ->. eapply (Hp i px eq_refl). left. }
  split; [done|]. apply IH; [intros p px Hpp Hin; eapply (Hp p px Hpp); by right|].
  by rewrite <- N.add_assoc.
Qed.

Lemma reach_le entries x : reach entries x -> (x <= upper)%N.
Proof.
  revert x; induction entries as [|[i [e [v w]]] es IH]; intros x; cbn; [done|].
  intros [? ?%IH]. lia.
Qed.

Definition shown entries : list ItemSpec :=
  flat_map (fun e : nat * (Element * (bool * N)) => if e.2.2.1 then element_items e.2.1 else []) entries.
Definition unshown entries : list ItemSpec :=
  flat_map (fun e : nat * (Element * (bool * N)) => if e.2.2.1 then [] else element_items e.2.1) entries.

(** What a visible entry needs to be placed. *)
Definition entry_ok (e : nat * (Element * (bool * N))) : Prop :=
  e.2.2.1 = true -> exists s, is_content e.2.1 = true /\ element_sizing e.2.1 = Ok s /\
    items_ok (element_items e.2.1) /\ within e.2.2.2 s.

Lemma place_elements_spec entries : forall x,
  Forall entry_ok entries -> reach entries x ->
  exists ps hs x', place_elements principal entries x = Some (ps, hs, x') /\
    packed x x' ps /\ (x' <= upper)%N /\ Forall2 fits (shown entries) ps /\
    hs = element_ids (unshown entries).
Proof.
  induction entries as [|[i [e [v w]]] entries IH]; intros x Ho Hr.
  { exists [], [], x. cbn. by repeat split. }
  apply Forall_cons in Ho as [He Ho]. cbn [reach] in Hr. destruct Hr as [Hx Hr].
  cbn [place_elements]. fold (start i x). pose proof (reach_le _ _ Hr) as Hle.
  destruct (IH _ Ho Hr) as (ps & hs & x' & -> & Hpk & Hx' & Hf & ->).
  unfold shown, unshown. cbn [flat_map fst snd]. fold (shown entries) (unshown entries). destruct v.
  - destruct (He eq_refl) as (s & Hc & Hs & Hi & Hw). cbn in Hc, Hs, Hi, Hw.
    destruct (layout_element_spec e s (start i x) w Hi Hs Hc Hw) as (qs & -> & Hq & Hfq); [lia|]. simpl.
    exists (qs ++ ps), (element_ids (unshown entries)), x'. split; [done|].
    split; [|split; [done|split; [by apply Forall2_app|done]]].
    eapply packed_app; [|exact Hpk]. eapply packed_weaken; [exact Hx| |exact Hq]. lia.
  - simpl. eexists ps, _, x'. split; [reflexivity|]. split; [eapply packed_weaken; [| |exact Hpk]; lia|].
    split; [done|]. split; [done|]. unfold element_ids, collect_item_ids. by rewrite fmap_app.
Qed.
End Placing.

(** The entries of the last loop, from their three lists. *)
Section Entries.
Context (elements : list Element) (visible : list bool) (widths : list N).
Hypothesis Hv : length visible = length elements.
Hypothesis Hw : length widths = length elements.

Definition entries : list (nat * (Element * (bool * N))) := indexed (zip elements (zip visible widths)).

Lemma entries_keys : entries.*1 = seq 0 (length elements).
Proof. unfold entries. rewrite indexed_keys. f_equal. rewrite !length_zip. lia. Qed.

Lemma entries_widths : entry_width <$> entries = widths.
Proof.
  unfold entries, indexed. rewrite fmap_imap. apply list_eq. intros i. rewrite list_lookup_imap.
  destruct (decide (i < length elements)) as [Hi|Hi].
  - destruct (lookup_lt_is_Some_2 elements i Hi) as [e He].
    destruct (lookup_lt_is_Some_2 visible i ltac:(lia)) as [v Hvi].
    destruct (lookup_lt_is_Some_2 widths i ltac:(lia)) as [w Hwi].
    assert (zip elements (zip visible widths) !! i = Some (e, (v, w))) as ->; [|done].
    apply lookup_zip_Some. split; [done|]. by apply lookup_zip_Some.
  - rewrite !lookup_ge_None_2; [done|lia|]. rewrite !length_zip. lia.
Qed.

Lemma arranged_reach principal available :
  arranged available widths principal -> reach principal available entries 0.
Proof.
  destruct principal as [[p x]|]; cbn [arranged].
  - intros (w & Hp & Hx & Ha).
    assert (Hpl : p < length elements) by (rewrite <- Hw; by eapply lookup_lt_Some).
    rewrite <- (take_drop p entries). apply reach_app.
    { intros p' px [= <- <-]. rewrite fmap_take, entries_keys, take_seq by lia.
      rewrite elem_of_seq. lia. }
    rewrite fmap_take, entries_widths, N.add_0_l.
    assert (Hd : exists e v, drop p entries = (p, (e, (v, w))) :: drop (S p) entries).
    { destruct (lookup_lt_is_Some_2 entries p) as [[i [e [v w']]] He].
      { rewrite <- (length_fmap fst), entries_keys, length_seq. done. }
      exists e, v. rewrite (drop_S entries (i, (e, (v, w'))) p He). f_equal.
      assert (H1 : entries.*1 !! p = Some i) by (by rewrite list_lookup_fmap, He).
      rewrite entries_keys in H1. apply lookup_seq in H1 as [-> _].
      assert (H2 : (entry_width <$> entries) !! p = Some w') by (by rewrite list_lookup_fmap, He).
      rewrite entries_widths in H2. by simplify_eq. }
    destruct Hd as (e & v & ->). cbn [reach]. unfold start at 1 2. rewrite bool_decide_true by done.
    split; [done|]. rewrite <- (app_nil_r (drop (S p) entries)). apply reach_app.
    { intros p' px [= <- <-]. rewrite fmap_drop, entries_keys, drop_seq, elem_of_seq. lia. }
    rewrite fmap_drop, entries_widths. exact Ha.
  - intros Ha. rewrite <- (app_nil_r entries). apply reach_app; [done|]. by rewrite entries_widths.
Qed.

Lemma entries_elements : (fun e : nat * (Element * (bool * N)) => e.2.1) <$> entries = elements.
Proof.
  unfold entries, indexed. rewrite fmap_imap.
  rewrite <- (fst_zip elements (zip visible widths)) at 2 by (rewrite length_zip; lia).
  apply list_eq. intros i. rewrite list_lookup_imap, list_lookup_fmap. by destruct (_ !! i).
Qed.

Lemma shown_unshown : shown entries ++ unshown entries ≡ₚ flat_map element_items elements.
Proof.
  rewrite <- entries_elements. generalize entries. intros es.
  induction es as [|[i [e [v w]]] es IH]; [done|]. unfold shown, unshown in *. cbn in *.
  rewrite <- IH. destruct v; cbn; solve_Permutation.
Qed.
End Entries.

(** ** The whole of [resolve] *)

Definition items_of (elements : list Element) (visible : list bool) (shown : bool) : list ItemSpec :=
  flat_map (fun p : Element * bool => if Bool.eqb p.2 shown then element_items p.1 else [])
    (zip elements visible).

Lemma entries_visible elements visible widths :
  length visible = length elements -> length widths = length elements ->
  (fun e : nat * (Element * (bool * N)) => (e.2.1, e.2.2.1)) <$> entries elements visible widths =
  zip elements visible.
Proof.
  intros Hv Hw. unfold entries, indexed. rewrite fmap_imap. apply list_eq. intros i. rewrite list_lookup_imap.
  destruct (decide (i < length elements)) as [Hi|Hi].
  - destruct (lookup_lt_is_Some_2 elements i Hi) as [e He].
    destruct (lookup_lt_is_Some_2 visible i ltac:(lia)) as [v Hvi].
    destruct (lookup_lt_is_Some_2 widths i ltac:(lia)) as [w Hwi].
    assert (zip elements (zip visible widths) !! i = Some (e, (v, w))) as ->.
    { apply lookup_zip_Some. split; [done|]. by apply lookup_zip_Some. }
    symmetry. by apply lookup_zip_Some.
  - rewrite !lookup_ge_None_2; [done| |]; rewrite !length_zip; lia.
Qed.

Lemma shown_items elements visible widths :
  length visible = length elements -> length widths = length elements ->
  shown (entries elements visible widths) = items_of elements visible true /\
  unshown (entries elements visible widths) = items_of elements visible false.
Proof.
  intros Hv Hw. unfold items_of. rewrite <- (entries_visible elements visible widths Hv Hw).
  generalize (entries elements visible widths). intros es. unfold shown, unshown.
  induction es as [|[i [e [v w]]] es [IH1 IH2]]; [done|]. cbn. rewrite IH1, IH2. by destruct v.
Qed.

Lemma items_of_split elements visible :
  length visible = length elements ->
  items_of elements visible true ++ items_of elements visible false ≡ₚ flat_map element_items elements.
Proof.
  revert visible; induction elements as [|e es IH]; intros [|v vs]; try done.
  intros [= Hl]. unfold items_of in *. cbn. rewrite <- (IH vs Hl). destruct v; cbn; solve_Permutation.
Qed.

(** What a bar that passes [prepare] satisfies. *)
Record prepared (bar : BarSpec) (required : list string) (units : list VisibilityUnit)
  (sizing : list Sizing) : Prop := {
  pr_items : items_ok (bar_items bar);
  pr_nodup : NoDup (element_ids (bar_items bar));
  pr_required : forall id, id ∈ required -> id ∈ element_ids (bar_items bar);
  pr_units : units_ok required (indexed (bar_elements bar)) units;
  pr_sizing : Forall2 (fun e s => element_sizing e = Ok s) (bar_elements bar) sizing;
  pr_valid : Forall valid sizing;
}.

Lemma element_sizing_valid e s : items_ok (element_items e) -> element_sizing e = Ok s -> valid s.
Proof.
  destruct e as [item|group|w|m w]; intros Hi Hs.
  - by eapply (sizing_valid (GroupItem item)).
  - by eapply (sizing_valid (SubGroup group)).
  - injection Hs as <-. done.
  - injection Hs as <-. done.
Qed.

Lemma prepare_Ok bar required units sizing :
  prepare bar required = Ok (units, sizing) -> prepared bar required units sizing.
Proof.
  unfold prepare. intros H. apply bind_Ok in H as ([] & (Hi & Hd & Hr)%validate_bar_Ok & H).
  apply bind_Ok in H as (us & Hu%visibility_units_ok & H). apply bind_Ok in H as (ss & Hs%mapR_Ok & [= -> ->]).
  split; try done. apply Forall_lookup. intros i s Hsi.
  destruct (Forall2_lookup_r _ _ _ _ _ Hs Hsi) as (e & He & Hes).
  eapply element_sizing_valid; [|exact Hes]. by eapply element_items_ok.
Qed.

Lemma prepared_content bar required units sizing :
  prepared bar required units sizing -> content_all (bar_elements bar) (unit_indices units).
Proof.
  intros [_ _ _ [Hp _] _ _]. apply Forall_forall. intros i. rewrite Hp. unfold content_indices.
  rewrite list_elem_of_omap. intros ([j e] & Hin%elem_indexed & Hc). cbn in *.
  destruct (is_content e) eqn:E; [|done]. injection Hc as ->. eauto.
Qed.

Definition optional_units (units : list VisibilityUnit) : list VisibilityUnit :=
  List.filter (fun unit => negb (vu_required unit)) (sort_by unit_le units).
Definition all_content (bar : BarSpec) : list bool := is_content <$> bar_elements bar.

Lemma optional_units_elem units u : u ∈ optional_units units <-> u ∈ units /\ vu_required u = false.
Proof.
  unfold optional_units. rewrite list_elem_of_In, filter_In, <- list_elem_of_In, sort_by_perm, negb_true_iff.
  done.
Qed.

Section Resolve.
Context (bar : BarSpec) (required : list string) (units : list VisibilityUnit) (sizing : list Sizing).
Context (available : N).
Hypothesis Hprepared : prepared bar required units sizing.
Hypothesis Havailable : (available < u32_limit)%N.

Lemma hide_to_fit_spec :
  exists hidden kept, let visible := hide_all hidden (all_content bar) in
    hidden_prefix (bar_elements bar) sizing available (all_content bar) (optional_units units) hidden kept /\
    hide_to_fit sizing units available (all_content bar, total_width (bar_elements bar) (all_content bar) sizing) =
    Some (visible, total_width (bar_elements bar) visible sizing).
Proof.
  unfold hide_to_fit. cbn [snd]. destruct (available <? _)%N eqn:E.
  - apply N.ltb_lt in E. fold (optional_units units). destruct Hprepared.
    apply hide_units_spec; [by eapply sizing_length|unfold all_content; by rewrite length_fmap| |done].
    apply prepared_content in Hprepared. unfold content_all in *. rewrite Forall_forall in *.
    intros i (u & Hu & Hi)%elem_unit_indices. apply Hprepared, elem_unit_indices.
    apply optional_units_elem in Hu as [Hu _]. eauto.
  - apply N.ltb_ge in E. exists [], (optional_units units). split; [|done].
    split; [done|by right|]. by intros [] ? ?.
Qed.

Lemma hide_all_ok hidden : visible_ok (bar_elements bar) (hide_all hidden (all_content bar)).
Proof.
  unfold visible_ok, hide_all. rewrite hide_indices_length. unfold all_content. rewrite length_fmap.
  split; [done|]. intros i e Hv He. rewrite hide_indices_lookup in Hv by (rewrite length_fmap; by eapply lookup_lt_Some).
  case_bool_decide; [done|]. rewrite list_lookup_fmap, He in Hv. by injection Hv.
Qed.

(** A required item stays visible, whatever optional units are hidden. *)
Lemma required_shown hidden id :
  (forall u, u ∈ hidden -> u ∈ optional_units units) -> id ∈ required ->
  id ∈ element_ids (items_of (bar_elements bar) (hide_all hidden (all_content bar)) true).
Proof.
  intros Hh Hid. pose proof Hprepared as [_ _ Hr [_ Ho] _ _]. specialize (Hr id Hid).
  unfold element_ids, items_of, bar_items in *. apply list_elem_of_fmap in Hr as (item & -> & Hin).
  apply list_elem_of_In, in_flat_map in Hin as (e & [i Hi]%list_elem_of_In%list_elem_of_lookup_1 & Hie).
  apply list_elem_of_fmap. exists item. split; [done|]. apply list_elem_of_In, in_flat_map.
  assert (Hc : is_content e = true) by by destruct e.
  exists (e, true). split; [|exact Hie]. apply list_elem_of_In, list_elem_of_lookup_2 with i, lookup_zip_Some.
  split; [done|]. unfold hide_all. pose proof (lookup_lt_Some _ _ _ Hi) as Hlt.
  rewrite hide_indices_lookup by (unfold all_content; by rewrite length_fmap).
  case_bool_decide as Hhid; [|unfold all_content; rewrite list_lookup_fmap, Hi; simpl; by rewrite Hc].
  exfalso. apply elem_unit_indices in Hhid as (u & Hu & Hil). apply Hh, optional_units_elem in Hu as [Hu Huf].
  rewrite Forall_forall in Ho. destruct (Ho u Hu Huf i Hil) as (e' & He'%elem_indexed & Hn). simplify_eq.
  eapply existsb_False' in Hn; [|by apply list_elem_of_In]. unfold is_required in Hn.
  by apply set_contains_false in Hn.
Qed.

(** A layout of the bar with these elements visible. *)
Record laid_out (visible : list bool) (layout : ResolvedLayout) : Prop := {
  lo_packed : packed 0 (rl_content_width layout) (rl_placements layout);
  lo_inside : (rl_content_width layout <= available)%N;
  lo_fits : Forall2 fits (items_of (bar_elements bar) visible true) (rl_placements layout);
  lo_hidden : rl_hidden_items layout = element_ids (items_of (bar_elements bar) visible false);
}.

Lemma arrange_spec visible :
  visible_ok (bar_elements bar) visible ->
  (total_width (bar_elements bar) visible sizing <= available)%N ->
  exists layout, arrange bar visible sizing available = Some layout /\ laid_out visible layout.
Proof.
  intros Hv Ht. pose proof Hprepared as [Hi _ _ _ Hs Hval]. pose proof Hv as [Hvl _]. unfold arrange.
  destruct (compress_to_fit_spec _ _ Hs Hval visible available Hv Ht) as (ws & -> & Hwl & Hws & Hok). simpl.
  destruct (spread_spec bar sizing visible ws available Hi Hs Hv Hwl Hok ltac:(lia))
    as (ws' & principal & -> & Hwl' & Ha & Hsame). simpl. fold (entries (bar_elements bar) visible ws').
  destruct (place_elements_spec principal available Havailable (entries (bar_elements bar) visible ws') 0)
    as (ps & hs & x' & -> & Hpk & Hx' & Hf & ->).
  - apply Forall_forall. intros [i [e [v w]]] Hin. apply elem_indexed, lookup_zip_Some in Hin as [He Hz].
    apply lookup_zip_Some in Hz as [Hvi Hwi]. cbn in *. intros Hvt. cbn in Hvt. subst v.
    destruct (visible_element bar sizing visible ws available Hi Hs Hv Hwl Hok ltac:(lia) i e He Hvi)
      as (s & w' & Hc & Hes & Hie & Hw' & Hwi' & _). exists s. cbn. rewrite (Hsame i e He Hc) in Hwi. by simplify_eq.
  - by apply arranged_reach.
  - simpl. eexists. split; [reflexivity|]. destruct (shown_items _ visible ws' Hvl Hwl') as [H1 H2].
    rewrite H1 in Hf. rewrite H2. rewrite N.mod_small by lia. by split.
Qed.
End Resolve.

(** ** The order in which units are hidden *)

Lemma unit_le_total a b : unit_le a b = false -> unit_le b a = true.
Proof. apply priority_le_total. Qed.
Lemma unit_le_trans a b c : unit_le a b = true -> unit_le b c = true -> unit_le a c = true.
Proof. apply priority_le_trans. Qed.

Lemma sorted_filter {A} (le : A -> A -> bool) (p : A -> bool) l : sorted le l -> sorted le (List.filter p l).
Proof.
  induction l as [|a l IH]; [done|]. rewrite sorted_cons. intros [Ha Hl]. cbn.
  destruct (p a); [|by apply IH]. rewrite sorted_cons. split; [|by apply IH].
  intros b Hb. apply Ha. apply list_elem_of_In, filter_In in Hb as [Hb _]. by apply list_elem_of_In.
Qed.

Lemma sorted_app {A} (le : A -> A -> bool) l k a b : sorted le (l ++ k) -> a ∈ l -> b ∈ k -> le a b = true.
Proof.
  intros Hs (l1 & l2 & ->)%list_elem_of_split Hb. rewrite <- app_assoc in Hs.
  eapply (Hs l1 a (l2 ++ k)); [done|]. set_solver.
Qed.

Lemma resolve_prepared bar available required units sizing :
  (available < u32_limit)%N -> prepare bar required = Ok (units, sizing) ->
  exists hidden kept, let visible := hide_all hidden (all_content bar) in
    hidden_prefix (bar_elements bar) sizing available (all_content bar) (optional_units units) hidden kept /\
    let needed := total_width (bar_elements bar) visible sizing in
    if (available <? needed)%N
    then kept = [] /\ resolve bar available required =
           Some (Err (InsufficientWidth available (N.min needed (u32_limit - 1))))
    else exists layout, resolve bar available required = Some (Ok layout) /\
           laid_out bar available visible layout.
Proof.
  intros Ha Hp. pose proof (prepare_Ok _ _ _ _ Hp) as Hpr. unfold resolve. rewrite Hp.
  destruct (hide_to_fit_spec bar required units sizing available Hpr) as (hidden & kept & Hh & He).
  exists hidden, kept. split; [exact Hh|]. unfold all_content in He. rewrite He. simpl.
  set (needed := total_width _ _ _). change (total_width _ _ _) with needed.
  destruct (available <? needed)%N eqn:E.
  - apply N.ltb_lt in E. split; [|done]. destruct Hh as [_ [Hk|Hk] _]; [done|]. fold needed in Hk. lia.
  - apply N.ltb_ge in E.
    destruct (arrange_spec bar required units sizing available Hpr Ha (hide_all hidden (all_content bar)))
      as (layout & Hl & Ho); [apply hide_all_ok|exact E|].
    unfold all_content in Hl. rewrite Hl. by exists layout.
Qed.

(** Items stay in the order of the bar. *)
Lemma items_of_sublist elements visible shown :
  length visible = length elements -> items_of elements visible shown `sublist_of` flat_map element_items elements.
Proof.
  revert visible; induction elements as [|e es IH]; intros [|v vs]; try done.
  intros [= Hl]. unfold items_of in *. cbn. destruct (Bool.eqb v shown); [by apply sublist_app, IH|].
  apply sublist_inserts_l. by apply IH.
Qed.

(** Hiding more content never needs more width. *)
Lemma hide_indices_narrower elements sizing indices : length sizing = length elements -> forall visible,
  length visible = length elements -> content_all elements indices ->
  (total_width elements (hide_indices indices visible) sizing <= total_width elements visible sizing)%N.
Proof.
  intros Hs. induction indices as [|i indices IH]; intros visible Hv Hc; [done|].
  apply Forall_cons in Hc as [(e & He & Hce) Hc]. cbn [hide_indices fold_left].
  etransitivity; [apply IH; [by rewrite length_insert|done]|].
  unfold total_width. rewrite (element_widths_hide _ _ Hs sz_minimum visible i e Hv He Hce).
  assert (Hi : i < length (element_widths sz_minimum elements visible sizing)).
  { rewrite element_widths_length by done. by eapply lookup_lt_Some. }
  destruct (lookup_lt_is_Some_2 _ _ Hi) as [w Hw]. pose proof (sumN_insert _ i 0 _ Hw). lia.
Qed.
Lemma hide_all_app units units' visible : hide_all (units ++ units') visible = hide_all units' (hide_all units visible).
Proof. unfold hide_all, hide_indices, unit_indices. by rewrite fmap_app, concat_app, fold_left_app. Qed.

(** C16: Resolving never panics, and what it returns is determined by whether the
    bar is well-formed and by the width its required content needs.  A bar that
    validation refuses fails with that error; a well-formed bar fails exactly
    when everything optional hidden it still needs more than the available
    width, and the error names that width; otherwise it is laid out: the items
    that are shown are placed in the order of the bar, without overlap, inside
    the available width and each within its width limits, the others are
    reported as hidden in the order of the bar, and every required item is
    placed. *)
Theorem resolve_correct (bar : BarSpec) (available : N) (required : list string)
  (Havailable : (available < u32_limit)%N) :
  match prepare bar required with
  | Err error => resolve bar available required = Some (Err error)
  | Ok (units, sizing) =>
      let needed := total_width (bar_elements bar)
                      (hide_all (optional_units units) (all_content bar)) sizing in
      if (available <? needed)%N
      then resolve bar available required =
             Some (Err (InsufficientWidth available (N.min needed (u32_limit - 1))))
      else exists layout shown hidden,
        resolve bar available required = Some (Ok layout) /\
        packed 0 (rl_content_width layout) (rl_placements layout) /\
        (rl_content_width layout <= available)%N /\
        shown `sublist_of` bar_items bar /\ hidden `sublist_of` bar_items bar /\
        shown ++ hidden ≡ₚ bar_items bar /\ NoDup (element_ids (bar_items bar)) /\
        Forall2 fits shown (rl_placements layout) /\ rl_hidden_items layout = element_ids hidden /\
        forall id, id ∈ required -> id ∈ pl_id <$> rl_placements layout
  end.
Proof.
  destruct (prepare bar required) as [[units sizing]|e] eqn:Hp.
  2:{ unfold resolve. by rewrite Hp. }
  destruct (resolve_prepared bar available required units sizing Havailable Hp) as (hidden & kept & Hh & H).
  pose proof (prepare_Ok _ _ _ _ Hp) as Hpr. intros needed. cbv zeta in H.
  pose proof Hh as [Hs Henough _].
  assert (Hmore : needed = total_width (bar_elements bar) (hide_all kept (hide_all hidden (all_content bar))) sizing)
    by (unfold needed; by rewrite Hs, hide_all_app).
  destruct (hide_all_ok bar hidden) as [Hlen _].
  assert (Hle : (needed <= total_width (bar_elements bar) (hide_all hidden (all_content bar)) sizing)%N).
  { rewrite Hmore. apply hide_indices_narrower; [by eapply sizing_length, Hpr|done|].
    apply prepared_content in Hpr. unfold content_all in *. rewrite Forall_forall in *.
    intros i (u & Hu & Hi)%elem_unit_indices. apply Hpr, elem_unit_indices. exists u. split; [|done].
    assert (Hin : u ∈ optional_units units) by (rewrite Hs; set_solver). by apply optional_units_elem in Hin as [? _]. }
  destruct (available <? total_width _ (hide_all hidden _) _)%N eqn:E.
  - destruct H as [-> ->]. cbn in Hmore. rewrite <- Hmore in E |- *. by rewrite E.
  - apply N.ltb_ge in E. assert ((available <? needed)%N = false) as -> by (apply N.ltb_ge; lia).
    destruct H as (layout & -> & [Hpk Hin Hf Hhid]). eexists layout, _, _. split; [done|]. split; [done|]. split; [done|].
    split; [by apply items_of_sublist|]. split; [by apply items_of_sublist|]. split; [by apply items_of_split|].
    split; [apply Hpr|]. split; [done|]. split; [done|].
    intros id Hid. assert (Hids : pl_id <$> rl_placements layout =
      element_ids (items_of (bar_elements bar) (hide_all hidden (all_content bar)) true)).
    { clear -Hf. unfold element_ids. induction Hf as [|i p l ps [Hpid _] _ IH]; [done|]. cbn. by rewrite Hpid, IH. }
    rewrite Hids. eapply required_shown; [exact Hpr| |done]. rewrite Hs. set_solver.
Qed.

(** When content is hidden, it is the shortest run of the optional units in
    ascending priority whose removal lets the rest fit: no unit that is kept
    has a lower priority than one that is hidden, and one unit fewer would
    not have been enough. *)
Theorem resolve_hides_least (bar : BarSpec) (available : N) (required : list string)
  (layout : ResolvedLayout) (Havailable : (available < u32_limit)%N)
  (Hlayout : resolve bar available required = Some (Ok layout)) :
  exists units sizing hidden kept, prepare bar required = Ok (units, sizing) /\
    optional_units units = hidden ++ kept /\
    (forall u k, u ∈ hidden -> k ∈ kept -> (vu_priority u <= vu_priority k)%Z) /\
    rl_hidden_items layout =
      element_ids (items_of (bar_elements bar) (hide_all hidden (all_content bar)) false) /\
    forall earlier u later, hidden = earlier ++ u :: later ->
      (available < total_width (bar_elements bar) (hide_all earlier (all_content bar)) sizing)%N.
Proof.
  destruct (prepare bar required) as [[units sizing]|e] eqn:Hp.
  2:{ unfold resolve in Hlayout. by rewrite Hp in Hlayout. }
  destruct (resolve_prepared bar available required units sizing Havailable Hp) as (hidden & kept & [Hs He Hm] & H).
  cbv zeta in H. rewrite Hlayout in H. destruct (_ <? _)%N; [by destruct H|].
  destruct H as (layout' & [= <-] & [_ _ _ Hhid]). exists units, sizing, hidden, kept.
  split; [done|]. split; [done|]. split; [|by split].
  intros u k Hu Hk.
  assert (Hle : unit_le u k = true).
  { eapply sorted_app; [|exact Hu|exact Hk]. rewrite <- Hs.
    apply sorted_filter, sort_by_sorted; [apply unit_le_total|apply unit_le_trans]. }
  unfold unit_le in Hle. rewrite priority_le_spec in Hle. cbn in Hle. lia.
Qed.

Lemma grow_loop_more fuel fuel' widths sizing extra r :
  fuel <= fuel' -> grow_loop fuel widths sizing extra = Some r -> grow_loop fuel' widths sizing extra = Some r.
Proof.
  revert fuel' widths extra; induction fuel as [|fuel IH]; intros fuel' widths extra Hf; destruct fuel' as [|fuel'];
    try lia; cbn [grow_loop]; destruct (extra =? 0)%N; try done.
  case_bool_decide; [done|]. destruct (grow_round _ _ _ _ _ _) as [[w a]|]; simpl; [|done].
  destruct (debug_assert _); simpl; [|done]. apply IH. lia.
Qed.

(** The loop that grows the children of a group ends, after no more rounds
    than there are pixels to hand out: with any such fuel it has one result, in
    which no width shrank or passed its maximum, and either every pixel is
    handed out or every child is at its maximum. *)
Theorem grow_widths_terminates (widths : list N) (sizing : list Sizing) (extra : N)
  (Hbounded : Forall2 bounded widths sizing) :
  exists widths' rest,
    (forall fuel, N.to_nat extra <= fuel -> grow_loop fuel widths sizing extra = Some (widths', rest)) /\
    (sumN widths' + rest = sumN widths + extra)%N /\ grown sizing widths widths' /\
    (rest = 0%N \/ Forall2 (fun w s => w = sz_maximum s) widths' sizing).
Proof.
  destruct (grow_loop_spec sizing extra (N.to_nat extra) widths Hbounded) as (ws & rest & Hg & Hr); [done|].
  exists ws, rest. split; [|exact Hr]. intros fuel Hf. by eapply grow_loop_more.
Qed.

(** ** The unit tests of the crate, and the theorems at work *)

Definition plain (id : string) (minimum preferred : N) : Element :=
  Item (ItemSpec_new id minimum preferred preferred).
Definition child (id : string) (minimum preferred maximum : N) : GroupElement :=
  GroupItem (ItemSpec_new id minimum preferred maximum).
Definition at_ (id : string) (x width : N) : Placement := {| pl_id := id; pl_x := x; pl_width := width |}.
Definition bar_of (elements : list Element) (principal : option string) : BarSpec :=
  {| bar_elements := elements; bar_principal_item := principal |}.

Example flexible_space_pushes_trailing_content_to_the_edge :
  resolve (bar_of [plain "leading" 40 40; FlexibleSpace 0 1; plain "trailing" 40 40] None) 200 [] =
  Some (Ok {| rl_placements := [at_ "leading" 0 40; at_ "trailing" 160 40]; rl_hidden_items := [];
              rl_content_width := 200 |}).
Proof. vm_compute. reflexivity. Qed.

Example principal_item_centers_without_left_center_right_zones :
  resolve (bar_of [plain "wide-leading" 200 200; plain "principal" 100 100; plain "short-trailing" 50 50]
             (Some "principal")) 1000 [] =
  Some (Ok {| rl_placements := [at_ "wide-leading" 0 200; at_ "principal" 450 100; at_ "short-trailing" 550 50];
              rl_hidden_items := []; rl_content_width := 600 |}).
Proof. vm_compute. reflexivity. Qed.

Example equal_priority_overflow_hides_the_trailing_item_first :
  resolve (bar_of [plain "a" 80 80; plain "b" 80 80; plain "c" 80 80] None) 160 [] =
  Some (Ok {| rl_placements := [at_ "a" 0 80; at_ "b" 80 80]; rl_hidden_items := ["c"];
              rl_content_width := 160 |}).
Proof. vm_compute. reflexivity. Qed.

Example reports_when_required_content_cannot_fit :
  resolve (bar_of [plain "a" 100 100; plain "b" 100 100] None) 150 ["a"; "b"] =
  Some (Err (InsufficientWidth 150 200)).
Proof. vm_compute. reflexivity. Qed.

Example lays_out_nested_natural_groups_and_spacing :
  resolve (bar_of [Group (GroupSpec_new "root" [child "a" 10 20 30; SubGroup (GroupSpec_new "nested"
             [child "b" 20 30 40; child "c" 30 40 50] Natural 3)] Natural 5)] None) 98 [] =
  Some (Ok {| rl_placements := [at_ "a" 0 20; at_ "b" 25 30; at_ "c" 58 40]; rl_hidden_items := [];
              rl_content_width := 98 |}).
Proof. vm_compute. reflexivity. Qed.

Example equal_width_group_treats_a_nested_group_as_one_member :
  resolve (bar_of [Group (GroupSpec_new "columns" [SubGroup (GroupSpec_new "transport"
             [child "previous" 20 30 60; child "next" 20 30 60] Natural 0); child "play" 40 60 120]
             EqualWidth 0)] None) 120 [] =
  Some (Ok {| rl_placements := [at_ "previous" 0 30; at_ "next" 30 30; at_ "play" 60 60];
              rl_hidden_items := []; rl_content_width := 120 |}).
Proof. vm_compute. reflexivity. Qed.

Example centers_a_principal_item_nested_inside_a_group :
  resolve (bar_of [plain "leading" 100 100; FlexibleSpace 0 1;
             Group (GroupSpec_new "center" [child "before" 20 20 20; child "principal" 40 40 40] Natural 0);
             FlexibleSpace 0 1; plain "trailing" 20 20] (Some "principal")) 400 [] =
  Some (Ok {| rl_placements := [at_ "leading" 0 100; at_ "before" 160 20; at_ "principal" 180 40;
                                at_ "trailing" 380 20];
              rl_hidden_items := []; rl_content_width := 400 |}).
Proof. vm_compute. reflexivity. Qed.

(** Two items of the group [tools], which is hidden as one. *)
Definition tools_bar : BarSpec :=
  bar_of [Item (with_visibility (ItemSpec_new "group-a" 50 50 50) VISIBILITY_PRIORITY_LOW (Some "tools"));
          Item (with_visibility (ItemSpec_new "group-b" 50 50 50) VISIBILITY_PRIORITY_LOW (Some "tools"));
          plain "core" 100 100] None.
Definition tools_layout : ResolvedLayout :=
  {| rl_placements := [at_ "core" 0 100]; rl_hidden_items := ["group-a"; "group-b"];
     rl_content_width := 100 |}.

Example tools_hidden : resolve tools_bar 150 ["core"] = Some (Ok tools_layout).
Proof. vm_compute. reflexivity. Qed.

Lemma resolve_correct_witness :
  (150 < u32_limit)%N /\ resolve tools_bar 150 ["core"] = Some (Ok tools_layout) /\
  packed 0 100 (rl_placements tools_layout) /\ "core" ∈ pl_id <$> rl_placements tools_layout.
Proof.
  split; [vm_compute; reflexivity|]. split; [vm_compute; reflexivity|].
  pose proof (resolve_correct tools_bar 150 ["core"] eq_refl) as H.
  destruct (prepare tools_bar ["core"]) as [[units sizing]|e] eqn:Hp; [|vm_compute in Hp; discriminate Hp].
  cbv zeta in H. destruct (_ <? _)%N.
  - rewrite tools_hidden in H. discriminate H.
  - destruct H as (layout & shown & hidden & Hl & Hpk & _ & _ & _ & _ & _ & _ & _ & Hr).
    rewrite tools_hidden in Hl. injection Hl as <-. split; [exact Hpk|]. apply Hr. left.
Defined.

Lemma resolve_hides_least_witness :
  (150 < u32_limit)%N /\ resolve tools_bar 150 ["core"] = Some (Ok tools_layout) /\
  exists units sizing hidden kept, prepare tools_bar ["core"] = Ok (units, sizing) /\
    optional_units units = hidden ++ kept /\ rl_hidden_items tools_layout =
      element_ids (items_of (bar_elements tools_bar) (hide_all hidden (all_content tools_bar)) false).
Proof.
  split; [vm_compute; reflexivity|]. split; [vm_compute; reflexivity|].
  destruct (resolve_hides_least tools_bar 150 ["core"] tools_layout eq_refl tools_hidden)
    as (units & sizing & hidden & kept & H1 & H2 & _ & H3 & _).
  exists units, sizing, hidden, kept. by split.
Defined.

Lemma grow_widths_terminates_witness :
  let sizing := [{| sz_minimum := 10; sz_preferred := 20; sz_maximum := 30 |};
                 {| sz_minimum := 10; sz_preferred := 20; sz_maximum := 80 |}]%N in
  exists widths' rest,
    (forall fuel, 25 <= fuel -> grow_loop fuel [20; 20]%N sizing 25 = Some (widths', rest)) /\
    (sumN widths' + rest = 65)%N.
Proof.
  intros sizing.
  destruct (grow_widths_terminates [20; 20]%N sizing 25) as (ws & rest & H1 & H2 & _).
  { constructor; [vm_compute; discriminate|]. constructor; [vm_compute; discriminate|constructor]. }
  exists ws, rest. split; [exact H1|exact H2].
Defined.
