(* ===== verification/Model.v ===== *)
(** * Model: the item registry and contextual composition of bars

    Models [crates/touchbar-model/src/lib.rs]: context facts and predicates,
    the selector of the active chain, the transactional context that holds a
    new composition back while a gesture is captured, the registry of items
    and bars with its validation, and the composition of an active chain into
    the bar that [Layout.resolve] places.  An [unreachable!] that is reached
    is a panic, [None]. *)

From S2P Require Import Prelude BTree Text Layout LayoutSpec.

#[local] Set Warnings "-register-all".

(** ** Context *)

Inductive ContextValue := TextValue (value : string) | BooleanValue (value : bool).

#[export] Instance ContextValue_eq_dec : EqDecision ContextValue.
Proof. solve_decision. Defined.

Record ContextSnapshot := { cx_generation : N; cx_facts : list (string * ContextValue) }.

Inductive ContextPredicate :=
| Always
| Present (key : string)
| Equals (key : string) (value : ContextValue)
| All (predicates : list ContextPredicate)
| Any (predicates : list ContextPredicate)
| Not (predicate : ContextPredicate).

Fixpoint matches (predicate : ContextPredicate) (context : ContextSnapshot) : bool :=
  match predicate with
  | Always => true
  | Present key => bt_contains key (cx_facts context)
  | Equals key value => bool_decide (bt_get key (cx_facts context) = Some value)
  | All predicates => forallb (fun predicate => matches predicate context) predicates
  | Any predicates => existsb (fun predicate => matches predicate context) predicates
  | Not predicate => negb (matches predicate context)
  end.

Inductive ContextScope := GlobalScope | WorkspaceScope | ApplicationScope | WindowScope.

#[export] Instance ContextScope_eq_dec : EqDecision ContextScope.
Proof. solve_decision. Defined.

(** The derived order: the order of declaration. *)
Definition scope_rank (scope : ContextScope) : N :=
  match scope with
  | GlobalScope => 0 | WorkspaceScope => 1 | ApplicationScope => 2 | WindowScope => 3
  end.
#[export] Instance ContextScope_ord : Ord ContextScope := fun a b => cmp (scope_rank a) (scope_rank b).
#[export] Instance ContextScope_ord_laws : OrdLaws ContextScope.
Proof. apply (ord_laws_inj scope_rank); [by intros [] []|done]. Qed.

Record ContextRule := {
  cr_bar : string;
  cr_scope : ContextScope;
  cr_priority : Z;
  cr_predicate : ContextPredicate;
}.
Record ContextSelector := { cs_fallback : string; cs_rules : list ContextRule }.

(** The best rule of each scope so far, with its priority and index. *)
Abbreviation Selected := (list (ContextScope * (Z * nat * string))).

Definition select_rule (context : ContextSnapshot) (selected : Selected) (entry : nat * ContextRule)
  : Selected :=
  let '(index, rule) := entry in
  if negb (matches (cr_predicate rule) context) then selected
  else
    let replace :=
      match bt_get (cr_scope rule) selected with
      | None => true
      | Some (priority, previous, _) =>
          (priority <? cr_priority rule)%Z
          || ((cr_priority rule =? priority)%Z && (index <? previous)%nat)
      end in
    if replace then bt_insert (cr_scope rule) (cr_priority rule, index, cr_bar rule) selected
    else selected.

Definition select_chain (self : ContextSelector) (context : ContextSnapshot) : list string :=
  let selected := fold_left (select_rule context) (indexed (cs_rules self)) [] in
  let chain := (fun e => e.2.2) <$> rev selected in
  if existsb (fun bar => String.eqb bar (cs_fallback self)) chain then chain
  else chain ++ [cs_fallback self].

(** ** Transactional context *)

Record CompositionSnapshot := {
  co_generation : N;
  co_context_generation : N;
  co_active_bars : list string;
}.
Record TransactionalContext := {
  tc_selector : ContextSelector;
  tc_current : CompositionSnapshot;
  tc_pending : option CompositionSnapshot;
  tc_captured_contacts : list N;
  tc_next_generation : N;
}.

(** [wrapping_add(1).max(1)] *)
Definition next_generation (generation : N) : N := N.max (wrap_add64 generation 1) 1.

Definition transactional_new (selector : ContextSelector) (initial : ContextSnapshot)
  : TransactionalContext :=
  {| tc_selector := selector;
     tc_current := {| co_generation := 1; co_context_generation := cx_generation initial;
                      co_active_bars := select_chain selector initial |};
     tc_pending := None; tc_captured_contacts := []; tc_next_generation := 2 |}.

Definition update (self : TransactionalContext) (context : ContextSnapshot)
  : TransactionalContext * option CompositionSnapshot :=
  let candidate :=
    {| co_generation := tc_next_generation self; co_context_generation := cx_generation context;
       co_active_bars := select_chain (tc_selector self) context |} in
  let next := next_generation (tc_next_generation self) in
  if bool_decide (tc_captured_contacts self = []) then
    ({| tc_selector := tc_selector self; tc_current := candidate; tc_pending := tc_pending self;
        tc_captured_contacts := tc_captured_contacts self; tc_next_generation := next |},
     Some candidate)
  else
    ({| tc_selector := tc_selector self; tc_current := tc_current self; tc_pending := Some candidate;
        tc_captured_contacts := tc_captured_contacts self; tc_next_generation := next |},
     None).

Definition with_contacts (self : TransactionalContext) (contacts : list N) : TransactionalContext :=
  {| tc_selector := tc_selector self; tc_current := tc_current self; tc_pending := tc_pending self;
     tc_captured_contacts := contacts; tc_next_generation := tc_next_generation self |}.
Definition capture_started (self : TransactionalContext) (contact_id : N) : TransactionalContext :=
  with_contacts self (set_add contact_id (tc_captured_contacts self)).
Definition capture_ended (self : TransactionalContext) (contact_id : N)
  : TransactionalContext * option CompositionSnapshot :=
  let self := with_contacts self (set_remove contact_id (tc_captured_contacts self)) in
  match tc_captured_contacts self, tc_pending self with
  | [], Some pending =>
      ({| tc_selector := tc_selector self; tc_current := pending; tc_pending := None;
          tc_captured_contacts := []; tc_next_generation := tc_next_generation self |}, Some pending)
  | _, _ => (self, None)
  end.

(** ** Items and bars *)

Record ItemDefinition := {
  id_layout : ItemSpec;
  id_label : string;
  id_expanded_bar : option string;
  id_press_and_hold_bar : option string;
}.

Inductive BarGroupElement := BarGroupItem (item : string) | BarSubGroup (group : GroupOf BarGroupElement).
Definition BarGroup : Type := GroupOf BarGroupElement.
Inductive BarElement :=
| BarItem (item : string)
| BarGroupOf (group : BarGroup)
| BarFixedSpace (width : N)
| BarFlexibleSpace (minimum weight : N)
| ContextProxy.

Record BarDefinition := {
  bd_id : string;
  bd_elements : list BarElement;
  bd_principal_item : option string;
}.
Record Registry := {
  rg_items : list (string * ItemDefinition);
  rg_bars : list (string * BarDefinition);
}.
Definition empty_registry : Registry := {| rg_items := []; rg_bars := [] |}.

Inductive ModelError :=
| EmptyModelItemId
| EmptyItemLabel (item : string)
| EmptyBarId
| DuplicateModelItem (item : string)
| DuplicateBar (bar : string)
| UnknownItem (bar item : string)
| UnknownExpandedBar (item bar : string)
| MultipleContextProxies (bar : string)
| ZeroFlexibleWeight (bar : string)
| EmptyModelGroupId (bar : string)
| DuplicateModelGroup (bar group : string)
| ModelGroupDepthExceeded (bar group : string)
| PrincipalNotInBar (bar item : string)
| EmptyActiveChain
| UnknownActiveBar (bar : string)
| UnknownComposedItem (item : string).

Definition add_item (self : Registry) (item : ItemDefinition) : result ModelError Registry :=
  let id := it_id (id_layout item) in
  _ ← reject_if (String.eqb id "") EmptyModelItemId;
  _ ← reject_if (String.eqb (trim (id_label item)) "") (EmptyItemLabel id);
  _ ← reject_if (bt_contains id (rg_items self)) (DuplicateModelItem id);
  Ok {| rg_items := bt_insert id item (rg_items self); rg_bars := rg_bars self |}.

Definition add_bar (self : Registry) (bar : BarDefinition) : result ModelError Registry :=
  _ ← reject_if (String.eqb (bd_id bar) "") EmptyBarId;
  _ ← reject_if (bt_contains (bd_id bar) (rg_bars self)) (DuplicateBar (bd_id bar));
  Ok {| rg_items := rg_items self; rg_bars := bt_insert (bd_id bar) bar (rg_bars self) |}.

Definition is_proxy (element : BarElement) : bool :=
  match element with ContextProxy => true | _ => false end.

Definition bar_group_contains_item (target : string) : BarGroupElement -> bool :=
  fix go element :=
    match element with
    | BarGroupItem item => String.eqb item target
    | BarSubGroup group => existsb go (gr_elements group)
    end.
Definition bar_element_contains_item (element : BarElement) (target : string) : bool :=
  match element with
  | BarItem item => String.eqb item target
  | BarGroupOf group => existsb (bar_group_contains_item target) (gr_elements group)
  | BarFixedSpace _ | BarFlexibleSpace _ _ | ContextProxy => false
  end.

(** The group identifiers seen in the bar are threaded. *)
Fixpoint validate_bar_group (self : Registry) (bar : string) (element : BarGroupElement) (depth : N)
  (group_ids : list string) : result ModelError (list string) :=
  match element with
  | BarGroupItem item =>
      _ ← reject_if (negb (bt_contains item (rg_items self))) (UnknownItem bar item);
      Ok group_ids
  | BarSubGroup group =>
      _ ← reject_if (String.eqb (trim (gr_id group)) "") (EmptyModelGroupId bar);
      _ ← reject_if (MAX_GROUP_DEPTH <? depth)%N (ModelGroupDepthExceeded bar (gr_id group));
      let '(group_ids, inserted) := set_insert (gr_id group) group_ids in
      _ ← reject_if (negb inserted) (DuplicateModelGroup bar (gr_id group));
      (fix go (elements : list BarGroupElement) (group_ids : list string) :=
         match elements with
         | [] => Ok group_ids
         | element :: elements' =>
             group_ids ← validate_bar_group self bar element
                           (match element with BarSubGroup _ => depth + 1 | _ => depth end)%N group_ids;
             go elements' group_ids
         end) (gr_elements group) group_ids
  end.

Definition validate_bar_element (self : Registry) (bar : string) (group_ids : list string)
  (element : BarElement) : result ModelError (list string) :=
  match element with
  | BarItem item =>
      _ ← reject_if (negb (bt_contains item (rg_items self))) (UnknownItem bar item);
      Ok group_ids
  | BarGroupOf group => validate_bar_group self bar (BarSubGroup group) 1 group_ids
  | BarFlexibleSpace _ weight =>
      _ ← reject_if (weight =? 0)%N (ZeroFlexibleWeight bar);
      Ok group_ids
  | BarFixedSpace _ | ContextProxy => Ok group_ids
  end.

Definition validate_item_targets (self : Registry) (item : ItemDefinition) : result ModelError () :=
  match List.find (fun target => negb (bt_contains target (rg_bars self)))
          (omap id [id_expanded_bar item; id_press_and_hold_bar item]) with
  | Some target => Err (UnknownExpandedBar (it_id (id_layout item)) target)
  | None => Ok ()
  end.

Definition validate_bar (self : Registry) (bar : BarDefinition) : result ModelError () :=
  let proxy_count := length (List.filter is_proxy (bd_elements bar)) in
  _ ← reject_if (1 <? proxy_count)%nat (MultipleContextProxies (bd_id bar));
  _ ← foldR (validate_bar_element self (bd_id bar)) [] (bd_elements bar);
  match bd_principal_item bar with
  | Some principal =>
      reject_if (negb (existsb (fun element => bar_element_contains_item element principal) (bd_elements bar)))
        (PrincipalNotInBar (bd_id bar) principal)
  | None => Ok ()
  end.

Definition validate_registry (self : Registry) : result ModelError () :=
  _ ← mapR (validate_item_targets self) (bt_values (rg_items self));
  _ ← mapR (validate_bar self) (bt_values (rg_bars self));
  Ok ().

(** ** Composition *)

Definition without_proxy (elements : list BarElement) : list BarElement :=
  List.filter (fun element => negb (is_proxy element)) elements.

(** [iter().position(..)] *)
Fixpoint position {A} (p : A -> bool) (l : list A) : option nat :=
  match l with
  | [] => None
  | a :: l' => if p a then Some 0 else S <$> position p l'
  end.

Definition wrap (outer composed : list BarElement) : list BarElement :=
  match position is_proxy outer with
  | None => composed
  | Some proxy => take proxy outer ++ composed ++ drop (S proxy) outer
  end.

(** A [map] that can panic, collected into a [Result]. *)
Definition collect {E A B} (f : A -> option (result E B)) : list A -> option (result E (list B)) :=
  fix go l :=
    match l with
    | [] => Some (Ok [])
    | a :: l' =>
        b ← f a;
        match b with
        | Err error => Some (Err error)
        | Ok b => bs ← go l'; Some (b' ← bs; Ok (b :: b'))
        end
    end.

Definition with_elements {E F} (group : GroupOf E) (elements : list F) : GroupOf F :=
  {| gr_id := gr_id group; gr_elements := elements; gr_layout := gr_layout group;
     gr_spacing := gr_spacing group; gr_visibility_priority := gr_visibility_priority group;
     gr_compression_priority := gr_compression_priority group |}.

Definition registered {E} (self : Registry) (id : string) (error : E) : result E ItemSpec :=
  match bt_get id (rg_items self) with
  | Some item => Ok (id_layout item)
  | None => Err error
  end.

Fixpoint resolve_bar_group (self : Registry) (element : BarGroupElement)
  : result ModelError GroupElement :=
  match element with
  | BarGroupItem id => layout ← registered self id (UnknownComposedItem id); Ok (GroupItem layout)
  | BarSubGroup group =>
      elements ← mapR (resolve_bar_group self) (gr_elements group);
      Ok (SubGroup (with_elements group elements))
  end.

Definition resolve_element (self : Registry) (element : BarElement)
  : option (result ModelError Element) :=
  match element with
  | BarItem id => Some (layout ← registered self id (UnknownComposedItem id); Ok (Item layout))
  | BarGroupOf group =>
      Some (elements ← mapR (resolve_bar_group self) (gr_elements group);
            Ok (Group (with_elements group elements)))
  | BarFixedSpace width => Some (Ok (FixedSpace width))
  | BarFlexibleSpace minimum weight => Some (Ok (FlexibleSpace minimum weight))
  | ContextProxy => None
  end.

Definition wrap_active (self : Registry) (composed : list BarElement) (id : string)
  : result ModelError (list BarElement) :=
  match bt_get id (rg_bars self) with
  | None => Err (UnknownActiveBar id)
  | Some outer => Ok (wrap (bd_elements outer) composed)
  end.

(** The elements of the active bars, each wrapped in the next. *)
Definition compose_elements (self : Registry) (active : list string)
  : result ModelError (list BarElement) :=
  _ ← validate_registry self;
  match active with
  | [] => Err EmptyActiveChain
  | first :: rest =>
      match bt_get first (rg_bars self) with
      | None => Err (UnknownActiveBar first)
      | Some first_bar => foldR (wrap_active self) (without_proxy (bd_elements first_bar)) rest
      end
  end.

Definition find_principal_item (self : Registry) (active : list string) (composed : list BarElement)
  : option string :=
  first_some (fun id =>
    bar ← bt_get id (rg_bars self);
    principal ← bd_principal_item bar;
    if existsb (fun element => bar_element_contains_item element principal) composed
    then Some principal else None) active.

Definition compose_active_chain (self : Registry) (active : list string)
  : option (result ModelError BarSpec) :=
  match compose_elements self active with
  | Err error => Some (Err error)
  | Ok composed =>
      elements ← collect (resolve_element self) composed;
      Some (elements ← elements;
            Ok {| bar_elements := elements;
                  bar_principal_item := find_principal_item self active composed |})
  end.

(** ** The active chain, by scope *)

(** Reference: the matching rule of a scope with the highest priority, the
    earliest of equals. *)
Definition better (best : option ContextRule) (rule : ContextRule) : option ContextRule :=
  match best with
  | Some previous => if (cr_priority previous <? cr_priority rule)%Z then Some rule else best
  | None => Some rule
  end.
Definition candidates (rules : list ContextRule) (context : ContextSnapshot) (scope : ContextScope)
  : list ContextRule :=
  List.filter (fun rule => matches (cr_predicate rule) context && bool_decide (cr_scope rule = scope)) rules.
Definition winner (rules : list ContextRule) (context : ContextSnapshot) (scope : ContextScope)
  : option ContextRule :=
  fold_left better (candidates rules context scope) None.

Definition chain_of (self : ContextSelector) (context : ContextSnapshot) : list string :=
  omap (fun scope => cr_bar <$> winner (cs_rules self) context scope)
    [WindowScope; ApplicationScope; WorkspaceScope; GlobalScope].

Definition all_scopes : list ContextScope :=
  [GlobalScope; WorkspaceScope; ApplicationScope; WindowScope].

Lemma winner_snoc rules rule context scope :
  winner (rules ++ [rule]) context scope =
  if matches (cr_predicate rule) context && bool_decide (cr_scope rule = scope)
  then better (winner rules context scope) rule else winner rules context scope.
Proof.
  unfold winner, candidates. rewrite List.filter_app, fold_left_app. cbn. by destruct (_ && _).
Qed.

Lemma better_spec l best :
  match fold_left better l best with
  | None => l = [] /\ best = None
  | Some r => (fold_left better l best = best \/ r ∈ l) /\
      (forall b, best = Some b -> (cr_priority b <= cr_priority r)%Z) /\
      (forall x, x ∈ l -> (cr_priority x <= cr_priority r)%Z) /\
      (fold_left better l best = best \/ exists front back, l = front ++ r :: back /\
         (forall b, best = Some b -> (cr_priority b < cr_priority r)%Z) /\
         forall x, x ∈ front -> (cr_priority x < cr_priority r)%Z)
  end.
Proof.
  revert best; induction l as [|x l IH]; intros best; cbn.
  { destruct best; [|done]. split; [by left|]. split; [intros ? [= ->]; lia|]. split; [set_solver|by left]. }
  specialize (IH (better best x)). destruct (fold_left better l (better best x)) as [r|].
  2:{ destruct IH as [_ Hb]. exfalso. unfold better in Hb. destruct best; [by case_match|done]. }
  destruct IH as (H1 & H2 & H3 & H4). unfold better in *.
  destruct best as [b|].
  - destruct (cr_priority b <? cr_priority x)%Z eqn:E; [apply Z.ltb_lt in E|apply Z.ltb_ge in E].
    + specialize (H2 x eq_refl). split; [right; destruct H1 as [[= ->]|H1]; set_solver|].
      split; [intros ? [= <-]; lia|]. split; [intros y [->|Hy]%elem_of_cons; [done|by apply H3]|].
      right. destruct H4 as [[= ->]|(f & k & -> & Hb & Hf)].
      * exists [], l. split; [done|]. split; [intros ? [= <-]; lia|set_solver].
      * exists (x :: f), k. split; [done|]. specialize (Hb x eq_refl). split; [intros ? [= <-]; lia|].
        intros y [->|Hy]%elem_of_cons; [lia|by apply Hf].
    + specialize (H2 b eq_refl). split; [destruct H1 as [->|H1]; [by left|right; set_solver]|].
      split; [intros ? [= <-]; lia|]. split; [intros y [->|Hy]%elem_of_cons; [lia|by apply H3]|].
      destruct H4 as [->|(f & k & -> & Hb & Hf)]; [by left|right]. specialize (Hb b eq_refl).
      exists (x :: f), k. split; [done|]. split; [intros ? [= <-]; lia|].
      intros y [->|Hy]%elem_of_cons; [lia|by apply Hf].
  - specialize (H2 x eq_refl). split; [right; destruct H1 as [[= ->]|H1]; set_solver|].
    split; [done|]. split; [intros y [->|Hy]%elem_of_cons; [done|by apply H3]|].
    right. destruct H4 as [[= ->]|(f & k & -> & Hb & Hf)].
    + exists [], l. split; [done|]. split; [done|set_solver].
    + exists (x :: f), k. split; [done|]. split; [done|]. specialize (Hb x eq_refl).
      intros y [->|Hy]%elem_of_cons; [lia|by apply Hf].
Qed.

(** The winner is the first of the highest priority. *)
Lemma winner_spec rules context scope :
  match winner rules context scope with
  | None => candidates rules context scope = []
  | Some r => exists front back, candidates rules context scope = front ++ r :: back /\
      (forall x, x ∈ front -> (cr_priority x < cr_priority r)%Z) /\
      forall x, x ∈ back -> (cr_priority x <= cr_priority r)%Z
  end.
Proof.
  unfold winner. pose proof (better_spec (candidates rules context scope) None) as H.
  destruct (fold_left _ _ _) as [r|]; [|by destruct H]. destruct H as (_ & _ & H3 & [H4|(f & k & Hl & _ & Hf)]); [done|].
  exists f, k. split; [done|]. split; [done|]. intros x Hx. apply H3. rewrite Hl. set_solver.
Qed.

(** The map of the loop holds the winner of each scope. *)
Definition holds_winners (context : ContextSnapshot) (rules : list ContextRule) (selected : Selected) : Prop :=
  bt_sorted selected /\ forall scope,
    match bt_get scope selected with
    | None => winner rules context scope = None
    | Some (priority, index, bar) => exists r, winner rules context scope = Some r /\
        cr_priority r = priority /\ cr_bar r = bar /\ index < length rules
    end.

Lemma select_rule_winners context rules selected rule :
  holds_winners context rules selected ->
  holds_winners context (rules ++ [rule]) (select_rule context selected (length rules, rule)).
Proof.
  intros [Hs Hw]. unfold select_rule.
  assert (Hkeep : forall scope, winner (rules ++ [rule]) context scope = winner rules context scope ->
    match bt_get scope selected with
    | None => winner (rules ++ [rule]) context scope = None
    | Some (priority, index, bar) => exists r, winner (rules ++ [rule]) context scope = Some r /\
        cr_priority r = priority /\ cr_bar r = bar /\ index < length (rules ++ [rule])
    end).
  { intros scope ->. specialize (Hw scope). destruct (bt_get scope selected) as [[[p i] b]|]; [|done].
    destruct Hw as (r & ? & ? & ? & ?). exists r. rewrite length_app. cbn. repeat split; try done. lia. }
  destruct (matches _ _) eqn:Hm; cbn [negb].
  2:{ split; [done|]. intros scope. apply Hkeep. by rewrite winner_snoc, Hm. }
  pose proof (Hw (cr_scope rule)) as Hr. pose proof (Hkeep (cr_scope rule)) as Hkr.
  assert (Hne : forall scope, scope <> cr_scope rule ->
    winner (rules ++ [rule]) context scope = winner rules context scope).
  { intros scope Hn. rewrite winner_snoc, Hm, bool_decide_false by congruence. done. }
  assert (Hnew : (match winner rules context (cr_scope rule) with
                  | Some b => (cr_priority b <? cr_priority rule)%Z | None => true end) = true ->
    holds_winners context (rules ++ [rule])
      (bt_insert (cr_scope rule) (cr_priority rule, length rules, cr_bar rule) selected)).
  { intros Hb. split; [by apply bt_sorted_insert|]. intros scope.
    destruct (decide (scope = cr_scope rule)) as [->|Hn].
    - rewrite bt_get_insert_eq. exists rule. rewrite winner_snoc, Hm, bool_decide_true by done. cbn.
      rewrite length_app. cbn. split; [|repeat split; lia]. unfold better. case_match; [by rewrite Hb|done].
    - rewrite bt_get_insert_ne by done. by apply Hkeep, Hne. }
  destruct (bt_get (cr_scope rule) selected) as [[[p i] b]|] eqn:Hg.
  - destruct Hr as (r & Hwr & Hp & Hbr & Hi).
    assert ((length rules <? i)%nat = false) as -> by (apply Nat.ltb_ge; lia). rewrite andb_false_r, orb_false_r.
    rewrite Hwr in Hnew. rewrite <- Hp. destruct (cr_priority r <? cr_priority rule)%Z eqn:E; [by apply Hnew|].
    split; [done|]. intros scope. apply Hkeep. destruct (decide (scope = cr_scope rule)) as [->|Hn]; [|by apply Hne].
    rewrite winner_snoc, Hm, bool_decide_true, Hwr by done. cbn. by rewrite E.
  - rewrite Hr in Hnew. by apply Hnew.
Qed.

Lemma select_rules_winners context rest : forall rules selected,
  holds_winners context rules selected ->
  holds_winners context (rules ++ rest)
    (fold_left (select_rule context) (imap (fun i r => (length rules + i, r)) rest) selected).
Proof.
  induction rest as [|rule rest IH]; intros rules selected H; cbn; [by rewrite app_nil_r|].
  rewrite Nat.add_0_r. replace (rules ++ rule :: rest) with ((rules ++ [rule]) ++ rest) by by rewrite <- app_assoc.
  specialize (IH (rules ++ [rule]) _ (select_rule_winners context rules selected rule H)).
  erewrite imap_ext; [exact IH|]. intros i r _. cbn. rewrite length_app. cbn. f_equal. lia.
Qed.

(** The active chain holds, from the most to the least specific scope, the
    bar of the winning rule of each, and ends in the fallback bar unless it
    is already there. *)
Theorem select_chain_spec (self : ContextSelector) (context : ContextSnapshot) :
  select_chain self context =
  (let chain := chain_of self context in
   if existsb (fun bar => String.eqb bar (cs_fallback self)) chain then chain
   else chain ++ [cs_fallback self]) /\
  forall scope, match winner (cs_rules self) context scope with
  | None => candidates (cs_rules self) context scope = []
  | Some r => exists front back, candidates (cs_rules self) context scope = front ++ r :: back /\
      (forall x, x ∈ front -> (cr_priority x < cr_priority r)%Z) /\
      forall x, x ∈ back -> (cr_priority x <= cr_priority r)%Z
  end.
Proof.
  split; [|apply winner_spec]. unfold select_chain.
  pose proof (select_rules_winners context (cs_rules self) [] []) as H. cbn in H.
  set (selected := fold_left _ _ _) in *.
  assert (Hw : holds_winners context (cs_rules self) selected) by (apply H; split; [done|by intros []]).
  destruct Hw as [Hs Hw].
  assert (Hm : selected = omap (fun scope => (fun v => (scope, v)) <$> bt_get scope selected) all_scopes).
  { apply bt_ext; [done| |].
    - unfold all_scopes, bt_sorted. cbn. destruct (bt_get GlobalScope _), (bt_get WorkspaceScope _),
        (bt_get ApplicationScope _), (bt_get WindowScope _); repeat constructor.
    - intros scope. unfold all_scopes. cbn.
      destruct (bt_get GlobalScope _) eqn:?, (bt_get WorkspaceScope _) eqn:?, (bt_get ApplicationScope _) eqn:?,
        (bt_get WindowScope _) eqn:?, scope; cbn; congruence. }
  assert (Hc : (fun e => e.2.2) <$> rev selected = chain_of self context); [|by rewrite Hc].
  rewrite Hm. unfold chain_of, all_scopes. cbn.
  pose proof (Hw GlobalScope) as H0. pose proof (Hw WorkspaceScope) as H1.
  pose proof (Hw ApplicationScope) as H2. pose proof (Hw WindowScope) as H3. clear -H0 H1 H2 H3.
  assert (Hone : forall scope,
    match bt_get scope selected with
    | None => winner (cs_rules self) context scope = None
    | Some (priority, index, bar) => exists r, winner (cs_rules self) context scope = Some r /\
        cr_priority r = priority /\ cr_bar r = bar /\ index < length (cs_rules self)
    end -> cr_bar <$> winner (cs_rules self) context scope = snd <$> bt_get scope selected).
  { intros scope Hx. destruct (bt_get scope selected) as [[[p i] b]|]; [|by rewrite Hx].
    destruct Hx as (r & -> & _ & <- & _). done. }
  rewrite !Hone by done. clear.
  destruct (bt_get GlobalScope selected), (bt_get WorkspaceScope selected),
    (bt_get ApplicationScope selected), (bt_get WindowScope selected); done.
Qed.

(** ** Composition of the active chain *)

Fixpoint bar_group_items (element : BarGroupElement) : list string :=
  match element with
  | BarGroupItem item => [item]
  | BarSubGroup group => flat_map bar_group_items (gr_elements group)
  end.
Definition bar_element_items (element : BarElement) : list string :=
  match element with
  | BarItem item => [item]
  | BarGroupOf group => flat_map bar_group_items (gr_elements group)
  | BarFixedSpace _ | BarFlexibleSpace _ _ | ContextProxy => []
  end.

Lemma bar_group_element_ind (P : BarGroupElement -> Prop) :
  (forall item, P (BarGroupItem item)) ->
  (forall group, Forall P (gr_elements group) -> P (BarSubGroup group)) ->
  forall element, P element.
Proof.
  intros Hi Hg. fix IH 1. intros [item|[id elements layout spacing vp cp]]; [apply Hi|].
  apply Hg. cbn. induction elements as [|e elements IHe]; constructor; [apply IH|exact IHe].
Qed.

Lemma bar_element_contains_item_spec element target :
  bar_element_contains_item element target = true <-> target ∈ bar_element_items element.
Proof.
  assert (Hg : forall e, bar_group_contains_item target e = true <-> target ∈ bar_group_items e).
  { intros e. induction e as [item|group IH] using bar_group_element_ind; cbn [bar_group_items].
    - cbn. rewrite String.eqb_eq, list_elem_of_singleton. naive_solver.
    - cbn [bar_group_contains_item]. induction IH as [|e es He _ IHes]; cbn; [set_solver|].
      rewrite orb_true_iff, He, elem_of_app. by rewrite IHes. }
  destruct element as [item|group|w|m w|]; cbn [bar_element_contains_item bar_element_items];
    try (split; [done|by intros ?%elem_of_nil]).
  - rewrite String.eqb_eq, list_elem_of_singleton. naive_solver.
  - induction (gr_elements group) as [|e es IHes]; cbn; [set_solver|].
    by rewrite orb_true_iff, Hg, elem_of_app, IHes.
Qed.

(** Every item a bar names is registered. *)
Definition all_registered (self : Registry) (ids : list string) : Prop :=
  Forall (fun id => bt_contains id (rg_items self) = true) ids.

Lemma validate_bar_group_registered self bar element : forall depth seen seen',
  validate_bar_group self bar element depth seen = Ok seen' -> all_registered self (bar_group_items element).
Proof.
  induction element as [item|group IH] using bar_group_element_ind; intros depth seen seen' H.
  { cbn in H. inv_ok. apply Forall_singleton. by apply negb_false_iff. }
  cbn [validate_bar_group bar_group_items] in *. apply bind_Ok in H as (_ & _ & H).
  apply bind_Ok in H as (_ & _ & H). unfold set_insert in H. apply bind_Ok in H as (_ & _ & H).
  revert H. generalize (set_add (gr_id group) seen).
  induction IH as [|e es He _ IHes]; intros s H; [constructor|]. apply bind_Ok in H as (s1 & H1 & H2).
  cbn [flat_map]. apply Forall_app. split; [by eapply He|by eapply IHes].
Qed.

Record bar_valid (self : Registry) (bar : BarDefinition) : Prop := {
  bv_proxies : length (List.filter is_proxy (bd_elements bar)) <= 1;
  bv_registered : all_registered self (flat_map bar_element_items (bd_elements bar));
}.

Lemma validate_bar_valid self bar : validate_bar self bar = Ok () -> bar_valid self bar.
Proof.
  unfold validate_bar. intros H. apply bind_Ok in H as (_ & Hp%reject_if_Ok & H).
  apply bind_Ok in H as (seen & Hf & _). split; [by apply Nat.ltb_ge in Hp|].
  clear Hp. revert Hf. generalize (@nil string). induction (bd_elements bar) as [|e es IH]; intros s Hf; [constructor|].
  cbn [foldR] in Hf. apply bind_Ok in Hf as (s1 & He & Hf). cbn [flat_map]. apply Forall_app.
  split; [|by eapply IH]. destruct e as [item|group|w|m w|]; [| |constructor..].
  - cbn in He. inv_ok. apply Forall_singleton. by apply negb_false_iff.
  - by eapply (validate_bar_group_registered self (bd_id bar) (BarSubGroup group)).
Qed.

Lemma validate_registry_bar self id bar :
  validate_registry self = Ok () -> bt_get id (rg_bars self) = Some bar -> bar_valid self bar.
Proof.
  unfold validate_registry. intros H Hb. apply bind_Ok in H as (_ & _ & H). apply bind_Ok in H as (us & Hu & _).
  apply mapR_Ok in Hu. apply bt_get_elem, (list_elem_of_fmap_2 snd) in Hb.
  apply list_elem_of_lookup_1 in Hb as [i Hi]. destruct (Forall2_lookup_l _ _ _ _ _ Hu Hi) as ([] & _ & Hv).
  by apply validate_bar_valid.
Qed.

Lemma position_spec {A} (p : A -> bool) l :
  match position p l with
  | None => List.filter p l = []
  | Some i => exists front a back, l = front ++ a :: back /\ length front = i /\ p a = true /\
      List.filter p front = []
  end.
Proof.
  induction l as [|a l IH]; [done|]. cbn. destruct (p a) eqn:E; [by exists [], a, l|].
  destruct (position p l) as [i|]; cbn; [|done].
  destruct IH as (f & b & k & -> & <- & Hb & Hf). exists (a :: f), b, k. cbn. by rewrite E.
Qed.

(** What the active chain builds: no proxy is left, every item is registered
    and the elements already composed stay, in order. *)
Definition composable (self : Registry) (elements : list BarElement) : Prop :=
  List.filter is_proxy elements = [] /\ all_registered self (flat_map bar_element_items elements).

Lemma without_proxy_composable self bar : bar_valid self bar -> composable self (without_proxy (bd_elements bar)).
Proof.
  intros [_ Hr]. unfold without_proxy. induction (bd_elements bar) as [|e es IH]; [by split|].
  cbn [flat_map] in Hr. apply Forall_app in Hr as [He Hes]. destruct (IH Hes) as [Hp Hr].
  destruct e; cbn; split; try done; cbn in *; try (apply Forall_app; by split); by constructor; inversion He.
Qed.

Lemma wrap_composable self bar composed :
  bar_valid self bar -> composable self composed ->
  composable self (wrap (bd_elements bar) composed) /\ composed `sublist_of` wrap (bd_elements bar) composed.
Proof.
  intros [Hp Hr] [Hc Hcr]. unfold wrap. pose proof (position_spec is_proxy (bd_elements bar)) as Hpos.
  destruct (position _ _) as [i|]; [|by split].
  destruct Hpos as (front & a & back & He & <- & Ha & Hf). rewrite He in *.
  rewrite take_app_length. replace (drop (S (length front)) (front ++ a :: back)) with back.
  2:{ symmetry. change (a :: back) with ([a] ++ back). rewrite app_assoc.
      rewrite drop_app_length'; [done|]. rewrite length_app. cbn. lia. }
  split; [split|].
  - rewrite !List.filter_app, Hf, Hc. rewrite List.filter_app, Hf in Hp. cbn in Hp. rewrite Ha in Hp. cbn in Hp.
    apply nil_length_inv. cbn. lia.
  - rewrite !flat_map_app in *. cbn [flat_map] in Hr. unfold all_registered in *.
    rewrite !Forall_app in *. naive_solver.
  - apply sublist_inserts_l, sublist_inserts_r. done.
Qed.

Lemma compose_elements_spec self active :
  match compose_elements self active with
  | Err error => validate_registry self = Err error \/
      validate_registry self = Ok () /\ (active = [] /\ error = EmptyActiveChain \/
        exists id, id ∈ active /\ bt_get id (rg_bars self) = None /\ error = UnknownActiveBar id)
  | Ok composed => validate_registry self = Ok () /\ composable self composed /\
      (forall id, id ∈ active -> bt_contains id (rg_bars self) = true) /\
      exists first bar rest, active = first :: rest /\ bt_get first (rg_bars self) = Some bar /\
        without_proxy (bd_elements bar) `sublist_of` composed
  end.
Proof.
  unfold compose_elements. destruct (validate_registry self) as [[]|e] eqn:Hv; cbn; [|by left].
  destruct active as [|first rest]; [right; split; [done|by left]|].
  destruct (bt_get first (rg_bars self)) as [bar|] eqn:Hb.
  2:{ right. split; [done|]. right. exists first. split; [left|done]. }
  pose proof (validate_registry_bar self first bar Hv Hb) as Hbar.
  assert (H : forall rest composed, composable self composed ->
    match foldR (wrap_active self) composed rest with
    | Err error => exists id, id ∈ rest /\ bt_get id (rg_bars self) = None /\ error = UnknownActiveBar id
    | Ok result => composable self result /\ composed `sublist_of` result /\
        forall id, id ∈ rest -> bt_contains id (rg_bars self) = true
    end).
  { clear rest. intros rest. induction rest as [|id rest IH]; intros composed Hc; cbn; [split; [done|]; set_solver|].
    unfold wrap_active. destruct (bt_get id (rg_bars self)) as [outer|] eqn:Ho; cbn; [|exists id; set_solver].
    destruct (wrap_composable self outer composed (validate_registry_bar self id outer Hv Ho) Hc) as [Hw Hs].
    specialize (IH _ Hw). destruct (foldR _ _ _) as [result|error].
    - destruct IH as (? & ? & Hk). split; [done|]. split; [by etrans|].
      intros x [->|Hx]%elem_of_cons; [|by apply Hk]. unfold bt_contains. by rewrite Ho.
    - destruct IH as (x & ? & ? & ?). exists x. set_solver. }
  specialize (H rest _ (without_proxy_composable self bar Hbar)). destruct (foldR _ _ _) as [composed|error].
  - destruct H as (Hc & Hs & Hk). split; [done|]. split; [done|]. split.
    + intros id [->|Hid]%elem_of_cons; [unfold bt_contains; by rewrite Hb|by apply Hk].
    + by exists first, bar, rest.
  - right. split; [done|]. right. destruct H as (id & ? & ? & ?). exists id. set_solver.
Qed.

(** Items are registered under the identifier of their layout. *)
Definition registry_ok (self : Registry) : Prop :=
  bt_sorted (rg_items self) /\ bt_sorted (rg_bars self) /\
  (forall id item, bt_get id (rg_items self) = Some item -> it_id (id_layout item) = id) /\
  (forall id bar, bt_get id (rg_bars self) = Some bar -> bd_id bar = id).

Lemma empty_registry_ok : registry_ok empty_registry.
Proof. by repeat split. Qed.

Lemma add_item_ok self item self' : registry_ok self -> add_item self item = Ok self' -> registry_ok self'.
Proof.
  intros (Hi & Hb & Hki & Hkb) H. unfold add_item in H. inv_ok. cbn.
  split; [by apply bt_sorted_insert|]. split; [done|]. split; [|done]. cbn. intros id i.
  destruct (decide (id = it_id (id_layout item))) as [->|Hne];
    [rewrite bt_get_insert_eq; by intros [= <-]|rewrite bt_get_insert_ne by done; apply Hki].
Qed.

Lemma add_bar_ok self bar self' : registry_ok self -> add_bar self bar = Ok self' -> registry_ok self'.
Proof.
  intros (Hi & Hb & Hki & Hkb) H. unfold add_bar in H. inv_ok. cbn.
  split; [done|]. split; [by apply bt_sorted_insert|]. split; [done|]. cbn. intros id b.
  destruct (decide (id = bd_id bar)) as [->|Hne];
    [rewrite bt_get_insert_eq; by intros [= <-]|rewrite bt_get_insert_ne by done; apply Hkb].
Qed.

Lemma registered_Ok {E} self id (e : E) :
  registry_ok self -> bt_contains id (rg_items self) = true ->
  exists layout, registered self id e = Ok layout /\ it_id layout = id.
Proof.
  intros (_ & _ & Hk & _) H. unfold registered, bt_contains in *.
  destruct (bt_get id (rg_items self)) as [item|] eqn:Hg; [|done]. eauto.
Qed.

Lemma resolve_bar_group_Ok self element :
  registry_ok self -> all_registered self (bar_group_items element) ->
  exists e, resolve_bar_group self element = Ok e /\ element_ids (group_items e) = bar_group_items element.
Proof.
  intros Hk. induction element as [item|group IH] using bar_group_element_ind; intros Hr; cbn.
  - unfold all_registered in Hr. cbn in Hr. rewrite Forall_singleton in Hr. destruct (registered_Ok self item (UnknownComposedItem item) Hk Hr) as (l & -> & Hl).
    exists (GroupItem l). by rewrite <- Hl.
  - assert (H : exists es, mapR (resolve_bar_group self) (gr_elements group) = Ok es /\
      element_ids (flat_map group_items es) = flat_map bar_group_items (gr_elements group)).
    { cbn in Hr. induction IH as [|e es He _ IHes]; [by exists []|]. cbn [flat_map] in Hr.
      apply Forall_app in Hr as [Hre Hr]. destruct (He Hre) as (e' & He' & Hie).
      destruct (IHes Hr) as (es' & Hes' & Hies). exists (e' :: es'). cbn. rewrite He'. cbn. rewrite Hes'.
      split; [done|]. unfold element_ids in *. cbn. by rewrite fmap_app, Hie, Hies. }
    destruct H as (es & -> & Hes). by exists (SubGroup (with_elements group es)).
Qed.

Lemma resolve_element_Ok self element :
  registry_ok self -> is_proxy element = false -> all_registered self (bar_element_items element) ->
  exists e, resolve_element self element = Some (Ok e) /\
    element_ids (element_items e) = bar_element_items element.
Proof.
  intros Hk Hp Hr. destruct element as [item|group|w|m w|]; try done.
  - unfold all_registered in Hr. cbn in Hr. rewrite Forall_singleton in Hr. cbn.
    destruct (registered_Ok self item (UnknownComposedItem item) Hk Hr) as (l & -> & Hl).
    exists (Item l). by rewrite <- Hl.
  - destruct (resolve_bar_group_Ok self (BarSubGroup group) Hk Hr) as (e & He & Hi). cbn in *.
    destruct (mapR _ _) as [es|]; [|done]. injection He as <-. by exists (Group (with_elements group es)).
  - by eexists.
  - by eexists.
Qed.

Lemma collect_composed self composed :
  registry_ok self -> composable self composed ->
  exists elements, collect (resolve_element self) composed = Some (Ok elements) /\
    Forall2 (fun b e => resolve_element self b = Some (Ok e)) composed elements /\
    element_ids (flat_map element_items elements) = flat_map bar_element_items composed.
Proof.
  intros Hk [Hp Hr]. induction composed as [|b bs IH]; [by exists []|].
  cbn in Hp. destruct (is_proxy b) eqn:Hb; [done|]. cbn [flat_map] in Hr. apply Forall_app in Hr as [Hrb Hr].
  destruct (resolve_element_Ok self b Hk Hb Hrb) as (e & He & Hie). destruct (IH Hp Hr) as (es & Hes & Hf & Hies).
  exists (e :: es). cbn [collect]. rewrite He. cbn. rewrite Hes. cbn. split; [done|]. split; [by constructor|].
  unfold element_ids in *. by rewrite fmap_app, Hie, Hies.
Qed.

Lemma find_principal_item_spec self active composed principal :
  find_principal_item self active composed = Some principal ->
  principal ∈ flat_map bar_element_items composed.
Proof.
  unfold find_principal_item. induction active as [|id active IH]; cbn; [done|].
  destruct (bt_get id _ ≫= _) eqn:E; [|by apply IH]. intros [= ->].
  destruct (bt_get id (rg_bars self)) as [bar|]; [|done]. cbn in E.
  destruct (bd_principal_item bar) as [p|]; [|done]. cbn in E.
  destruct (existsb _ _) eqn:He; [|done]. injection E as ->.
  apply existsb_True' in He as (e & He & Hc). apply bar_element_contains_item_spec in Hc.
  apply list_elem_of_In, in_flat_map. exists e. split; by apply list_elem_of_In.
Qed.

(** Composing an active chain never panics and fails only for an invalid
    registry, an empty chain or an unknown bar, never on an item.  The
    composed bar resolves the composed elements one by one, keeps every
    element of the focused bar in order, and names a principal item that it
    contains, so the layout never reports it unknown. *)
Theorem compose_active_chain_total (self : Registry) (active : list string) (Hself : registry_ok self) :
  match compose_active_chain self active with
  | None => False
  | Some (Err error) => validate_registry self = Err error \/
      validate_registry self = Ok () /\ (active = [] /\ error = EmptyActiveChain \/
        exists id, id ∈ active /\ bt_get id (rg_bars self) = None /\ error = UnknownActiveBar id)
  | Some (Ok bar) => validate_registry self = Ok () /\
      (forall id, id ∈ active -> bt_contains id (rg_bars self) = true) /\
      (exists composed, compose_elements self active = Ok composed /\
        Forall2 (fun b e => resolve_element self b = Some (Ok e)) composed (bar_elements bar) /\
        element_ids (bar_items bar) = flat_map bar_element_items composed /\
        exists first focused rest, active = first :: rest /\ bt_get first (rg_bars self) = Some focused /\
          without_proxy (bd_elements focused) `sublist_of` composed) /\
      forall principal, bar_principal_item bar = Some principal -> principal ∈ element_ids (bar_items bar)
  end.
Proof.
  unfold compose_active_chain. pose proof (compose_elements_spec self active) as H.
  destruct (compose_elements self active) as [composed|error]; [|exact H].
  destruct H as (Hv & Hc & Hk & Hf). destruct (collect_composed self composed Hself Hc) as (es & -> & Hes & Hids).
  cbn. split; [done|]. split; [done|]. split.
  - exists composed. split; [done|]. by split.
  - intros principal Hp. change (principal ∈ element_ids (flat_map element_items es)). rewrite Hids. by eapply find_principal_item_spec.
Qed.

(** ** Transactional context *)

Inductive ContextStep :=
| StepUpdate (context : ContextSnapshot)
| StepCaptureStarted (contact_id : N)
| StepCaptureEnded (contact_id : N).

Definition context_step (self : TransactionalContext) (step : ContextStep) : TransactionalContext :=
  match step with
  | StepUpdate context => (update self context).1
  | StepCaptureStarted contact_id => capture_started self contact_id
  | StepCaptureEnded contact_id => (capture_ended self contact_id).1
  end.

(** The context of the last update. *)
Definition last_context (initial : ContextSnapshot) (steps : list ContextStep) : ContextSnapshot :=
  fold_left (fun context step => match step with StepUpdate c => c | _ => context end) steps initial.

Definition newest (self : TransactionalContext) : CompositionSnapshot :=
  default (tc_current self) (tc_pending self).

Record transactional (selector : ContextSelector) (context : ContextSnapshot) (self : TransactionalContext)
  : Prop := {
  ta_selector : tc_selector self = selector;
  ta_newest : co_active_bars (newest self) = select_chain selector context /\
              co_context_generation (newest self) = cx_generation context;
  ta_pending : tc_captured_contacts self = [] -> tc_pending self = None;
}.

Lemma set_add_not_nil {A} `{OrdLaws A} (x : A) s : set_add x s <> [].
Proof. destruct s as [|y s]; cbn; [done|]. by destruct (cmp x y). Qed.

Lemma transactional_step selector context self step :
  transactional selector context self ->
  transactional selector (last_context context [step]) (context_step self step).
Proof.
  intros [Hs Hn Hp]. destruct step as [c|id|id]; cbn [context_step last_context fold_left].
  - unfold update. case_bool_decide as Hc; split; cbn; try done.
    + unfold newest. cbn. by rewrite (Hp Hc), Hs.
    + by rewrite Hs.
  - split; [done|done|]. intros H. by apply set_add_not_nil in H.
  - unfold capture_ended. cbn. destruct (set_remove id _) eqn:E; [destruct (tc_pending self) eqn:Epd|]; cbn.
    + split; [done| |done]. unfold newest in *. cbn in *. by rewrite Epd in Hn.
    + split; [done| |done]. exact Hn.
    + split; [done| |done]. exact Hn.
Qed.

(** Whatever contexts arrive and gestures are captured, the newest snapshot
    is the one of the last context; it is the one shown as soon as no gesture
    is captured, and while one is captured what is shown does not change. *)
Theorem transactional_shows_newest (selector : ContextSelector) (initial : ContextSnapshot)
  (steps : list ContextStep) :
  let self := fold_left context_step steps (transactional_new selector initial) in
  co_active_bars (newest self) = select_chain selector (last_context initial steps) /\
  co_context_generation (newest self) = cx_generation (last_context initial steps) /\
  (tc_captured_contacts self = [] -> tc_current self = newest self) /\
  forall step, tc_captured_contacts (context_step self step) <> [] ->
    tc_captured_contacts self <> [] -> tc_current (context_step self step) = tc_current self.
Proof.
  intros self. assert (H : transactional selector (last_context initial steps) self).
  { assert (Hall : forall steps t c, transactional selector c t ->
      transactional selector (last_context c steps) (fold_left context_step steps t)).
    { clear. intros steps. induction steps as [|step steps IH]; intros t c H; [done|].
      by apply (IH (context_step t step)), (transactional_step selector c). }
    apply Hall. by split. }
  destruct H as [Hs [Hn Hg] Hp]. split; [done|]. split; [done|]. split.
  - intros Hc. unfold newest. by rewrite (Hp Hc).
  - intros [c|id|id] H1 H2; cbn in *; [|done|].
    + unfold update. by rewrite bool_decide_false.
    + unfold capture_ended in *. cbn in *. destruct (set_remove id _), (tc_pending _); done.
Qed.

(** ** A registry at work *)

Definition button (id : string) : ItemDefinition :=
  {| id_layout := ItemSpec_new id 20 30 40; id_label := id; id_expanded_bar := None;
     id_press_and_hold_bar := None |}.
Definition editor_registry : Registry :=
  {| rg_items := [("escape", button "escape"); ("run", button "run"); ("volume", button "volume")];
     rg_bars := [("editor", {| bd_id := "editor"; bd_elements := [BarItem "run"];
                               bd_principal_item := Some "run" |});
                 ("system", {| bd_id := "system";
                               bd_elements := [BarItem "escape"; ContextProxy; BarItem "volume"];
                               bd_principal_item := None |})] |}.

Lemma editor_registry_ok : registry_ok editor_registry.
Proof.
  split; [repeat constructor|]. split; [repeat constructor|]. split.
  - intros id item H%bt_get_elem. repeat (apply elem_of_cons in H as [[= -> ->]|H]; [done|]). by apply elem_of_nil in H.
  - intros id bar H%bt_get_elem. repeat (apply elem_of_cons in H as [[= -> ->]|H]; [done|]). by apply elem_of_nil in H.
Qed.

Lemma compose_active_chain_total_witness :
  registry_ok editor_registry /\
  exists bar, compose_active_chain editor_registry ["editor"; "system"] = Some (Ok bar) /\
    element_ids (bar_items bar) = ["escape"; "run"; "volume"] /\
    (forall principal, bar_principal_item bar = Some principal -> principal ∈ element_ids (bar_items bar)).
Proof.
  split; [exact editor_registry_ok|].
  pose proof (compose_active_chain_total editor_registry ["editor"; "system"] editor_registry_ok) as H.
  destruct (compose_active_chain editor_registry ["editor"; "system"]) as [[bar|error]|] eqn:E.
  - exists bar. split; [reflexivity|]. split; [|apply H]. vm_compute in E. injection E as <-. reflexivity.
  - vm_compute in E. discriminate E.
  - destruct H.
Defined.
