(* ===== verification/Profiles.v ===== *)
(** * Profiles: user-owned profiles and their composition

    Models [crates/touchbar-model/src/profiles.rs]: contributions, slots and
    profiles, the validation of a catalog, the composition of a profile in a
    context, and the controller that applies commands and holds a new
    composition back while a gesture is captured.  The code threads four
    collections through the composition: they are the record [Composing].  An
    [unreachable!] that is reached is a panic, [None]. *)

From S2P Require Import Prelude BTree Text Layout LayoutSpec Model.

#[local] Set Warnings "-register-all".

(** A computation that can fail or panic. *)
Definition Outcome (E A : Type) : Type := option (result E A).
#[export] Instance outcome_ret E : MRet (Outcome E) := fun _ a => Some (Ok a).
#[export] Instance outcome_bind E : MBind (Outcome E) := fun _ _ k m =>
  match m with None => None | Some (Err e) => Some (Err e) | Some (Ok a) => k a end.
Definition lift {E A} (r : result E A) : Outcome E A := Some r.
Definition unreachable {E A} : Outcome E A := None.

(** A loop that threads a state and collects values. *)
Definition mapS {E A B S} (f : S -> A -> Outcome E (B * S)) : S -> list A -> Outcome E (list B * S) :=
  fix go s l :=
    match l with
    | [] => mret ([], s)
    | a :: l' =>
        b ← f s a;
        bs ← go b.2 l';
        mret (b.1 :: bs.1, bs.2)
    end.

(** ** The catalog *)

Inductive SlotPolicy := Collect | Select | Fixed.

Record ContributionDefinition := {
  ct_id : string;
  ct_elements : list BarElement;
  ct_predicate : ContextPredicate;
  ct_scope : ContextScope;
  ct_priority : Z;
}.
Record ContributionBinding := { bn_contribution : string; bn_order : Z }.
Record SlotDefinition := { sl_id : string; sl_policy : SlotPolicy; sl_bindings : list ContributionBinding }.

Inductive ProfileGroupElement :=
| GroupSlot (slot : SlotDefinition)
| ProfileSubGroup (group : GroupOf ProfileGroupElement).
Definition ProfileGroup : Type := GroupOf ProfileGroupElement.
Inductive ProfileElement :=
| ProfileSlot (slot : SlotDefinition)
| ProfileGroupOf (group : ProfileGroup)
| ProfileFixedSpace (width : N)
| ProfileFlexibleSpace (minimum weight : N).
Record ProfileDefinition := {
  pf_id : string;
  pf_elements : list ProfileElement;
  pf_principal_item : option string;
}.
Record ProfileCatalog := {
  ca_contributions : list (string * ContributionDefinition);
  ca_profiles : list (string * ProfileDefinition);
}.
Definition empty_catalog : ProfileCatalog := {| ca_contributions := []; ca_profiles := [] |}.

Inductive ProfileError :=
| EmptyContributionId
| EmptyProfileId
| EmptySlotId (profile : string)
| EmptyModeId
| DuplicateContribution (contribution : string)
| DuplicateProfile (profile : string)
| DuplicateSlot (profile slot : string)
| InvalidGroupId (profile group : string)
| DuplicateProfileGroup (profile group : string)
| ProfileGroupDepthExceeded (profile group : string)
| InvalidContributionGroupId (contribution group : string)
| DuplicateContributionGroup (contribution group : string)
| ContributionGroupDepthExceeded (contribution group : string)
| DuplicateComposedGroup (group : string)
| UnknownContribution (profile slot contribution : string)
| UnknownProfile (profile : string)
| UnknownContributionItem (contribution item : string)
| DuplicateComposedItem (item : string)
| ContextProxyInContribution (contribution : string)
| ZeroFlexibleWeightInContribution (contribution : string)
| ZeroFlexibleWeightInProfile (profile : string)
| SpaceInGroupedSlot (profile slot contribution : string).

Definition add_contribution (self : ProfileCatalog) (contribution : ContributionDefinition)
  : result ProfileError ProfileCatalog :=
  let id := ct_id contribution in
  _ ← reject_if (String.eqb (trim id) "") EmptyContributionId;
  _ ← reject_if (bt_contains id (ca_contributions self)) (DuplicateContribution id);
  Ok {| ca_contributions := bt_insert id contribution (ca_contributions self);
        ca_profiles := ca_profiles self |}.

Definition add_profile (self : ProfileCatalog) (profile : ProfileDefinition)
  : result ProfileError ProfileCatalog :=
  let id := pf_id profile in
  _ ← reject_if (String.eqb (trim id) "") EmptyProfileId;
  _ ← reject_if (bt_contains id (ca_profiles self)) (DuplicateProfile id);
  Ok {| ca_contributions := ca_contributions self;
        ca_profiles := bt_insert id profile (ca_profiles self) |}.

(** ** Validation *)

Fixpoint validate_contribution_group (registry : Registry) (contribution : string)
  (element : BarGroupElement) (depth : N) (group_ids : list string) : result ProfileError (list string) :=
  match element with
  | BarGroupItem item =>
      _ ← reject_if (negb (bt_contains item (rg_items registry))) (UnknownContributionItem contribution item);
      Ok group_ids
  | BarSubGroup group =>
      _ ← reject_if (String.eqb (trim (gr_id group)) "") (InvalidContributionGroupId contribution (gr_id group));
      _ ← reject_if (MAX_GROUP_DEPTH <? depth)%N (ContributionGroupDepthExceeded contribution (gr_id group));
      let '(group_ids, inserted) := set_insert (gr_id group) group_ids in
      _ ← reject_if (negb inserted) (DuplicateContributionGroup contribution (gr_id group));
      (fix go (elements : list BarGroupElement) (group_ids : list string) :=
         match elements with
         | [] => Ok group_ids
         | element :: elements' =>
             group_ids ← validate_contribution_group registry contribution element
                           (match element with BarSubGroup _ => depth + 1 | _ => depth end)%N group_ids;
             go elements' group_ids
         end) (gr_elements group) group_ids
  end.

Definition validate_contribution_element (registry : Registry) (contribution : string)
  (group_ids : list string) (element : BarElement) : result ProfileError (list string) :=
  match element with
  | BarItem item =>
      _ ← reject_if (negb (bt_contains item (rg_items registry))) (UnknownContributionItem contribution item);
      Ok group_ids
  | BarGroupOf group => validate_contribution_group registry contribution (BarSubGroup group) 1 group_ids
  | BarFlexibleSpace _ weight =>
      _ ← reject_if (weight =? 0)%N (ZeroFlexibleWeightInContribution contribution);
      Ok group_ids
  | ContextProxy => Err (ContextProxyInContribution contribution)
  | BarFixedSpace _ => Ok group_ids
  end.
Definition validate_contribution (registry : Registry) (contribution : ContributionDefinition)
  : result ProfileError () :=
  _ ← foldR (validate_contribution_element registry (ct_id contribution)) [] (ct_elements contribution);
  Ok ().

Definition is_space (element : BarElement) : bool :=
  match element with BarFixedSpace _ | BarFlexibleSpace _ _ => true | _ => false end.

Definition validate_binding (self : ProfileCatalog) (profile slot : string) (nested : bool)
  (binding : ContributionBinding) : result ProfileError () :=
  let contribution := bn_contribution binding in
  definition ← ok_or (UnknownContribution profile slot contribution)
                 (bt_get contribution (ca_contributions self));
  reject_if (nested && existsb is_space (ct_elements definition)) (SpaceInGroupedSlot profile slot contribution).

Definition validate_slot (self : ProfileCatalog) (profile : string) (slot : SlotDefinition)
  (nested : bool) (slots : list string) : result ProfileError (list string) :=
  _ ← reject_if (String.eqb (trim (sl_id slot)) "") (EmptySlotId profile);
  let '(slots, inserted) := set_insert (sl_id slot) slots in
  _ ← reject_if (negb inserted) (DuplicateSlot profile (sl_id slot));
  _ ← mapR (validate_binding self profile (sl_id slot) nested) (sl_bindings slot);
  Ok slots.

(** The slot and group identifiers seen are threaded. *)
Fixpoint validate_profile_group (self : ProfileCatalog) (profile : string) (element : ProfileGroupElement)
  (depth : N) (seen : list string * list string) : result ProfileError (list string * list string) :=
  match element with
  | GroupSlot slot => slots ← validate_slot self profile slot true seen.1; Ok (slots, seen.2)
  | ProfileSubGroup group =>
      _ ← reject_if (String.eqb (trim (gr_id group)) "" || starts_with (gr_id group) "@slot/")
            (InvalidGroupId profile (gr_id group));
      _ ← reject_if (MAX_GROUP_DEPTH <? depth)%N (ProfileGroupDepthExceeded profile (gr_id group));
      let '(groups, inserted) := set_insert (gr_id group) seen.2 in
      _ ← reject_if (negb inserted) (DuplicateProfileGroup profile (gr_id group));
      (fix go (elements : list ProfileGroupElement) (seen : list string * list string) :=
         match elements with
         | [] => Ok seen
         | element :: elements' =>
             _ ← reject_if (match element with GroupSlot _ => MAX_GROUP_DEPTH <=? depth | _ => false end)%N
                   (ProfileGroupDepthExceeded profile (gr_id group));
             seen ← validate_profile_group self profile element
                      (match element with ProfileSubGroup _ => depth + 1 | _ => depth end)%N seen;
             go elements' seen
         end) (gr_elements group) (seen.1, groups)
  end.

Definition validate_profile_element (self : ProfileCatalog) (profile : string)
  (seen : list string * list string) (element : ProfileElement)
  : result ProfileError (list string * list string) :=
  match element with
  | ProfileSlot slot => slots ← validate_slot self profile slot false seen.1; Ok (slots, seen.2)
  | ProfileGroupOf group => validate_profile_group self profile (ProfileSubGroup group) 1 seen
  | ProfileFlexibleSpace _ weight =>
      _ ← reject_if (weight =? 0)%N (ZeroFlexibleWeightInProfile profile);
      Ok seen
  | ProfileFixedSpace _ => Ok seen
  end.
Definition validate_profile (self : ProfileCatalog) (profile : ProfileDefinition)
  : result ProfileError () :=
  _ ← foldR (validate_profile_element self (pf_id profile)) ([], []) (pf_elements profile);
  Ok ().

Definition validate_catalog (self : ProfileCatalog) (registry : Registry) : result ProfileError () :=
  _ ← mapR (validate_contribution registry) (bt_values (ca_contributions self));
  _ ← mapR (validate_profile self) (bt_values (ca_profiles self));
  Ok ().

(** ** Selecting bindings *)

(** [Iterator::max_by]: the last of equal maxima. *)
Definition max_by {A} (compare : A -> A -> comparison) (l : list A) : option A :=
  fold_left (fun best a =>
    match best with
    | None => Some a
    | Some b => match compare b a with Gt => Some b | _ => Some a end
    end) l None.
(** [Ordering::then_with] *)
Definition then_with (first second : comparison) : comparison :=
  match first with Eq => second | _ => first end.

Definition policy_is (a b : SlotPolicy) : bool :=
  match a, b with Collect, Collect | Select, Select | Fixed, Fixed => true | _, _ => false end.

Definition binding_key (entry : nat * ContributionBinding) : Z * N :=
  (bn_order entry.2, N.of_nat entry.1).
Definition active_binding (self : ProfileCatalog) (policy : SlotPolicy) (context : ContextSnapshot)
  (entry : nat * (nat * ContributionBinding)) : option (nat * ContributionDefinition) :=
  contribution ← bt_get (bn_contribution entry.2.2) (ca_contributions self);
  if policy_is policy Fixed || matches (ct_predicate contribution) context
  then Some (entry.1, contribution) else None.
Definition compare_candidates (left right : nat * ContributionDefinition) : comparison :=
  then_with (ct_priority left.2 ?= ct_priority right.2)%Z
    (then_with (cmp (ct_scope left.2) (ct_scope right.2)) (Nat.compare right.1 left.1)).

Definition select_bindings (self : ProfileCatalog) (slot : SlotDefinition) (context : ContextSnapshot)
  : list ContributionDefinition :=
  let bindings := sort_by (key_le binding_key) (indexed (sl_bindings slot)) in
  let candidates := omap (active_binding self (sl_policy slot) context) (indexed bindings) in
  if negb (policy_is (sl_policy slot) Select) then candidates.*2
  else match max_by compare_candidates candidates with
       | Some (_, contribution) => [contribution]
       | None => []
       end.

(** ** Composition *)

Record ComposedSlot := { cp_id : string; cp_path : list nat; cp_elements : nat * nat }.
Record ProfileComposition := {
  pc_profile : string;
  pc_active_contributions : list string;
  pc_slots : list ComposedSlot;
  pc_bar : BarSpec;
}.

(** The collections threaded through the composition. *)
Record Composing := {
  cg_contributions : list string;
  cg_slots : list ComposedSlot;
  cg_item_ids : list string;
  cg_group_ids : list string;
}.
Definition composing_start : Composing :=
  {| cg_contributions := []; cg_slots := []; cg_item_ids := []; cg_group_ids := [] |}.
Definition push_contribution (s : Composing) (id : string) : Composing :=
  {| cg_contributions := cg_contributions s ++ [id]; cg_slots := cg_slots s;
     cg_item_ids := cg_item_ids s; cg_group_ids := cg_group_ids s |}.
Definition push_slot (s : Composing) (slot : ComposedSlot) : Composing :=
  {| cg_contributions := cg_contributions s; cg_slots := cg_slots s ++ [slot];
     cg_item_ids := cg_item_ids s; cg_group_ids := cg_group_ids s |}.
Definition with_item_ids (s : Composing) (ids : list string) : Composing :=
  {| cg_contributions := cg_contributions s; cg_slots := cg_slots s;
     cg_item_ids := ids; cg_group_ids := cg_group_ids s |}.
Definition with_group_ids (s : Composing) (ids : list string) : Composing :=
  {| cg_contributions := cg_contributions s; cg_slots := cg_slots s;
     cg_item_ids := cg_item_ids s; cg_group_ids := ids |}.

Definition insert_composed_group (s : Composing) (group : string) : Outcome ProfileError Composing :=
  let '(ids, inserted) := set_insert group (cg_group_ids s) in
  _ ← lift (reject_if (negb inserted) (DuplicateComposedGroup group));
  mret (with_group_ids s ids).

Definition resolve_item (registry : Registry) (contribution id : string) (s : Composing)
  : Outcome ProfileError (ItemSpec * Composing) :=
  let '(ids, inserted) := set_insert id (cg_item_ids s) in
  _ ← lift (reject_if (negb inserted) (DuplicateComposedItem id));
  layout ← lift (registered registry id (UnknownContributionItem contribution id));
  mret (layout, with_item_ids s ids).

(** An item or a group of a contribution, [resolve_contribution_group]. *)
Fixpoint resolve_contribution_group (registry : Registry) (contribution : string)
  (s : Composing) (element : BarGroupElement) : Outcome ProfileError (GroupElement * Composing) :=
  match element with
  | BarGroupItem id =>
      item ← resolve_item registry contribution id s;
      mret (GroupItem item.1, item.2)
  | BarSubGroup group =>
      s ← insert_composed_group s (gr_id group);
      elements ← mapS (resolve_contribution_group registry contribution) s (gr_elements group);
      mret (SubGroup (with_elements group elements.1), elements.2)
  end.

Definition as_group (element : GroupElement) : Outcome ProfileError GroupSpec :=
  match element with SubGroup group => mret group | GroupItem _ => unreachable end.

Definition resolve_top_contribution_element (registry : Registry) (contribution : string)
  (s : Composing) (element : BarElement) : Outcome ProfileError (Element * Composing) :=
  match element with
  | BarItem id => item ← resolve_item registry contribution id s; mret (Item item.1, item.2)
  | BarGroupOf group =>
      resolved ← resolve_contribution_group registry contribution s (BarSubGroup group);
      group ← as_group resolved.1;
      mret (Group group, resolved.2)
  | BarFixedSpace width => mret (FixedSpace width, s)
  | BarFlexibleSpace minimum weight => mret (FlexibleSpace minimum weight, s)
  | ContextProxy => unreachable
  end.

Definition resolve_grouped_contribution_element (registry : Registry) (contribution : string)
  (s : Composing) (element : BarElement) : Outcome ProfileError (GroupElement * Composing) :=
  match element with
  | BarItem id => item ← resolve_item registry contribution id s; mret (GroupItem item.1, item.2)
  | BarGroupOf group => resolve_contribution_group registry contribution s (BarSubGroup group)
  | BarFixedSpace _ | BarFlexibleSpace _ _ | ContextProxy => unreachable
  end.

(** [compose_top_slot] and [compose_group_slot], by how they resolve. *)
Definition compose_slot {A} (resolve : string -> Composing -> BarElement -> Outcome ProfileError (A * Composing))
  (self : ProfileCatalog) (slot : SlotDefinition) (context : ContextSnapshot) (s : Composing)
  : Outcome ProfileError (list A * Composing) :=
  slots ← mapS (fun s contribution =>
            mapS (resolve (ct_id contribution)) (push_contribution s (ct_id contribution))
              (ct_elements contribution))
          s (select_bindings self slot context);
  mret (concat slots.1, slots.2).
Definition compose_top_slot (self : ProfileCatalog) (registry : Registry) :=
  compose_slot (resolve_top_contribution_element registry) self.
Definition compose_group_slot (self : ProfileCatalog) (registry : Registry) :=
  compose_slot (resolve_grouped_contribution_element registry) self.

Definition slot_group (id : string) (elements : list GroupElement) : GroupSpec :=
  {| gr_id := id; gr_elements := elements; gr_layout := Natural; gr_spacing := 0;
     gr_visibility_priority := 0; gr_compression_priority := 0 |}.
Definition slot_group_id (profile slot : string) : string :=
  ("@slot/" ++ profile ++ "/" ++ slot)%string.

(** A slot or group inside a profile group, [compose_profile_group]; [path]
    is the path of the element, which in the code is the path of the group and
    the number of elements before. *)
Fixpoint compose_profile_group (self : ProfileCatalog) (registry : Registry) (profile : string)
  (context : ContextSnapshot) (path : list nat) (s : Composing) (element : ProfileGroupElement)
  : Outcome ProfileError (GroupElement * Composing) :=
  match element with
  | GroupSlot slot =>
      slot_elements ← compose_group_slot self registry slot context s;
      let id := slot_group_id profile (sl_id slot) in
      s ← insert_composed_group slot_elements.2 id;
      mret (SubGroup (slot_group id slot_elements.1),
            push_slot s {| cp_id := sl_id slot; cp_path := path;
                           cp_elements := (0, length slot_elements.1) |})
  | ProfileSubGroup group =>
      s ← insert_composed_group s (gr_id group);
      elements ← (fix go (index : nat) (elements : list ProfileGroupElement) (s : Composing)
                    : Outcome ProfileError (list GroupElement * Composing) :=
                    match elements with
                    | [] => mret ([], s)
                    | element :: elements' =>
                        e ← compose_profile_group self registry profile context (path ++ [index]) s element;
                        es ← go (S index) elements' e.2;
                        mret (e.1 :: es.1, es.2)
                    end) 0 (gr_elements group) s;
      mret (SubGroup (with_elements group elements.1), elements.2)
  end.

(** One element of the profile; the elements so far are threaded. *)
Definition compose_element (self : ProfileCatalog) (registry : Registry) (profile : string)
  (context : ContextSnapshot) (state : list Element * Composing) (element : ProfileElement)
  : Outcome ProfileError (list Element * Composing) :=
  let '(elements, s) := state in
  match element with
  | ProfileFixedSpace width => mret (elements ++ [FixedSpace width], s)
  | ProfileFlexibleSpace minimum weight => mret (elements ++ [FlexibleSpace minimum weight], s)
  | ProfileSlot slot =>
      slot_elements ← compose_top_slot self registry slot context s;
      let start := length elements in
      let elements := elements ++ slot_elements.1 in
      mret (elements, push_slot slot_elements.2
              {| cp_id := sl_id slot; cp_path := []; cp_elements := (start, length elements) |})
  | ProfileGroupOf group =>
      composed ← compose_profile_group self registry profile context [length elements] s
                   (ProfileSubGroup group);
      group ← as_group composed.1;
      mret (elements ++ [Group group], composed.2)
  end.

Fixpoint compose_profile_elements (self : ProfileCatalog) (registry : Registry) (profile : string)
  (context : ContextSnapshot) (state : list Element * Composing) (elements : list ProfileElement)
  : Outcome ProfileError (list Element * Composing) :=
  match elements with
  | [] => mret state
  | element :: elements' =>
      state ← compose_element self registry profile context state element;
      compose_profile_elements self registry profile context state elements'
  end.

Definition compose (self : ProfileCatalog) (registry : Registry) (profile_id : string)
  (context : ContextSnapshot) : Outcome ProfileError ProfileComposition :=
  _ ← lift (validate_catalog self registry);
  profile ← lift (ok_or (UnknownProfile profile_id) (bt_get profile_id (ca_profiles self)));
  state ← compose_profile_elements self registry (pf_id profile) context ([], composing_start)
            (pf_elements profile);
  let '(elements, s) := state in
  let principal_item :=
    match pf_principal_item profile with
    | Some principal => if set_contains principal (cg_item_ids s) then Some principal else None
    | None => None
    end in
  mret {| pc_profile := pf_id profile; pc_active_contributions := cg_contributions s;
          pc_slots := cg_slots s;
          pc_bar := {| bar_elements := elements; bar_principal_item := principal_item |} |}.

(** ** Profile selection *)

Record ProfileRule := { pr_profile : string; pr_priority : Z; pr_predicate : ContextPredicate }.
Record ProfileSelector := { ps_fallback : string; ps_rules : list ProfileRule }.

Definition compare_rules (left right : nat * ProfileRule) : comparison :=
  then_with (pr_priority left.2 ?= pr_priority right.2)%Z (Nat.compare right.1 left.1).
Definition select_profile (self : ProfileSelector) (context : ContextSnapshot) : string :=
  match max_by compare_rules
          (List.filter (fun e : nat * ProfileRule => matches (pr_predicate e.2) context) (indexed (ps_rules self))) with
  | Some (_, rule) => pr_profile rule
  | None => ps_fallback self
  end.

(** ** The difference of two bars *)

Record CompositionDelta := {
  cd_retained_items : list string;
  cd_entering_items : list string;
  cd_leaving_items : list string;
}.
Definition item_ids (bar : BarSpec) : list string := set_of (element_ids (bar_items bar)).
Definition delta_between (previous : option BarSpec) (next : BarSpec) : CompositionDelta :=
  let previous := match previous with Some bar => item_ids bar | None => [] end in
  let next := item_ids next in
  {| cd_retained_items := List.filter (fun id => set_contains id next) previous;
     cd_entering_items := List.filter (fun id => negb (set_contains id previous)) next;
     cd_leaving_items := List.filter (fun id => negb (set_contains id next)) previous |}.

(** ** The controller *)

Inductive ControllerCommand :=
| SetContext (context : ContextSnapshot)
| SelectProfile (profile : string)
| UseAutomaticProfile
| ActivateMode (owner : N) (mode profile : string) (priority : Z)
| ReleaseMode (owner : N) (mode : string)
| ReleaseOwner (owner : N).

Record ProfileCompositionSnapshot := {
  sn_generation : N;
  sn_context_generation : N;
  sn_composition : ProfileComposition;
  sn_delta : CompositionDelta;
}.
Record ProfileLease := { pl_profile : string; pl_priority : Z; pl_sequence : N }.

Record CompositionController := {
  ctl_catalog : ProfileCatalog;
  ctl_registry : Registry;
  ctl_selector : ProfileSelector;
  ctl_context : ContextSnapshot;
  ctl_manual_profile : option string;
  ctl_modes : list ((N * string) * ProfileLease);
  ctl_current : ProfileCompositionSnapshot;
  ctl_pending : option ProfileCompositionSnapshot;
  ctl_captured_contacts : list N;
  ctl_next_generation : N;
  ctl_next_mode_sequence : N;
}.

Definition validate_selector (catalog : ProfileCatalog) (selector : ProfileSelector)
  : result ProfileError () :=
  _ ← reject_if (negb (bt_contains (ps_fallback selector) (ca_profiles catalog)))
        (UnknownProfile (ps_fallback selector));
  _ ← mapR (fun rule => reject_if (negb (bt_contains (pr_profile rule) (ca_profiles catalog)))
                          (UnknownProfile (pr_profile rule))) (ps_rules selector);
  Ok ().

Definition controller_new (catalog : ProfileCatalog) (registry : Registry)
  (selector : ProfileSelector) (context : ContextSnapshot)
  : Outcome ProfileError CompositionController :=
  _ ← lift (validate_catalog catalog registry);
  _ ← lift (validate_selector catalog selector);
  composition ← compose catalog registry (select_profile selector context) context;
  mret {| ctl_catalog := catalog; ctl_registry := registry; ctl_selector := selector;
          ctl_context := context; ctl_manual_profile := None; ctl_modes := [];
          ctl_current := {| sn_generation := 1; sn_context_generation := cx_generation context;
                            sn_composition := composition;
                            sn_delta := delta_between None (pc_bar composition) |};
          ctl_pending := None; ctl_captured_contacts := []; ctl_next_generation := 2;
          ctl_next_mode_sequence := 1 |}.

Definition compare_leases (left right : ProfileLease) : comparison :=
  then_with (pl_priority left ?= pl_priority right)%Z (pl_sequence left ?= pl_sequence right)%N.
Definition effective_profile (self : CompositionController) : string :=
  match ctl_manual_profile self with
  | Some profile => profile
  | None =>
      match max_by compare_leases (bt_values (ctl_modes self)) with
      | Some lease => pl_profile lease
      | None => select_profile (ctl_selector self) (ctl_context self)
      end
  end.

Definition require_profile (self : CompositionController) (profile : string) : result ProfileError () :=
  reject_if (negb (bt_contains profile (ca_profiles (ctl_catalog self)))) (UnknownProfile profile).

Definition build_snapshot (self : CompositionController)
  : Outcome ProfileError ProfileCompositionSnapshot :=
  composition ← compose (ctl_catalog self) (ctl_registry self) (effective_profile self) (ctl_context self);
  mret {| sn_generation := ctl_next_generation self;
          sn_context_generation := cx_generation (ctl_context self);
          sn_composition := composition;
          sn_delta := delta_between (Some (pc_bar (sn_composition (ctl_current self)))) (pc_bar composition) |}.

(** The fields a command changes before the composition is built. *)
Definition with_choice (self : CompositionController) (context : ContextSnapshot)
  (manual_profile : option string) (modes : list ((N * string) * ProfileLease))
  (next_mode_sequence : N) : CompositionController :=
  {| ctl_catalog := ctl_catalog self; ctl_registry := ctl_registry self;
     ctl_selector := ctl_selector self; ctl_context := context;
     ctl_manual_profile := manual_profile; ctl_modes := modes; ctl_current := ctl_current self;
     ctl_pending := ctl_pending self; ctl_captured_contacts := ctl_captured_contacts self;
     ctl_next_generation := ctl_next_generation self; ctl_next_mode_sequence := next_mode_sequence |}.
Definition with_shown (self : CompositionController) (current : ProfileCompositionSnapshot)
  (pending : option ProfileCompositionSnapshot) (captured : list N) (generation : N)
  : CompositionController :=
  {| ctl_catalog := ctl_catalog self; ctl_registry := ctl_registry self;
     ctl_selector := ctl_selector self; ctl_context := ctl_context self;
     ctl_manual_profile := ctl_manual_profile self; ctl_modes := ctl_modes self;
     ctl_current := current; ctl_pending := pending; ctl_captured_contacts := captured;
     ctl_next_generation := generation; ctl_next_mode_sequence := ctl_next_mode_sequence self |}.

(** The match of [apply]: the changed controller, if anything changed. *)
Definition change (self : CompositionController) (command : ControllerCommand)
  : result ProfileError (option CompositionController) :=
  let context := ctl_context self in
  let manual := ctl_manual_profile self in
  let modes := ctl_modes self in
  let sequence := ctl_next_mode_sequence self in
  match command with
  | SetContext context => Ok (Some (with_choice self context manual modes sequence))
  | SelectProfile profile =>
      _ ← require_profile self profile;
      Ok (Some (with_choice self context (Some profile) modes sequence))
  | UseAutomaticProfile =>
      Ok (match manual with
          | Some _ => Some (with_choice self context None modes sequence)
          | None => None
          end)
  | ActivateMode owner mode profile priority =>
      _ ← require_profile self profile;
      _ ← reject_if (String.eqb (trim mode) "") EmptyModeId;
      let lease := {| pl_profile := profile; pl_priority := priority; pl_sequence := sequence |} in
      Ok (Some (with_choice self context manual (bt_insert (owner, mode) lease modes) (next_generation sequence)))
  | ReleaseMode owner mode =>
      Ok (if bt_contains (owner, mode) modes
          then Some (with_choice self context manual (bt_remove (owner, mode) modes) sequence)
          else None)
  | ReleaseOwner owner =>
      let kept := List.filter (fun e : (N * string) * ProfileLease => negb (e.1.1 =? owner)%N) modes in
      Ok (if negb (length kept =? length modes)%nat
          then Some (with_choice self context manual kept sequence)
          else None)
  end.

(** [apply]: a panic is [None]; when the composition fails, the fields the
    command changed are put back. *)
Definition apply (self : CompositionController) (command : ControllerCommand)
  : option (CompositionController * result ProfileError (option ProfileCompositionSnapshot)) :=
  match change self command with
  | Err error => Some (self, Err error)
  | Ok None => Some (self, Ok None)
  | Ok (Some changed) =>
      candidate ← build_snapshot changed;
      match candidate with
      | Err error =>
          Some (with_choice changed (ctl_context self) (ctl_manual_profile self) (ctl_modes self)
                  (ctl_next_mode_sequence self), Err error)
      | Ok candidate =>
          let generation := next_generation (ctl_next_generation changed) in
          let captured := ctl_captured_contacts changed in
          if bool_decide (captured = [])
          then Some (with_shown changed candidate (ctl_pending changed) captured generation, Ok (Some candidate))
          else Some (with_shown changed (ctl_current changed) (Some candidate) captured generation, Ok None)
      end
  end.

Definition controller_capture_started (self : CompositionController) (contact_id : N)
  : CompositionController :=
  with_shown self (ctl_current self) (ctl_pending self)
    (set_add contact_id (ctl_captured_contacts self)) (ctl_next_generation self).
Definition controller_capture_ended (self : CompositionController) (contact_id : N)
  : CompositionController * option ProfileCompositionSnapshot :=
  let captured := set_remove contact_id (ctl_captured_contacts self) in
  let generation := ctl_next_generation self in
  match captured, ctl_pending self with
  | [], Some pending => (with_shown self pending None captured generation, Some pending)
  | _, pending => (with_shown self (ctl_current self) pending captured generation, None)
  end.
