(* ===== verification/ProfilesSpec.v ===== *)
(** * What composition and the controller promise

    The theorems about [Profiles]: composing a profile never panics and yields
    a bar whose items and groups are distinct and registered; the controller
    always shows, or holds ready, the composition of its current choice. *)

From S2P Require Import Prelude BTree Text Layout LayoutSpec Model Profiles.

#[local] Set Warnings "-register-all".

(** ** Outcomes that do not panic *)

(** The errors of a composition whose catalog is valid. *)
Definition expected (error : ProfileError) : Prop :=
  match error with
  | DuplicateComposedItem _ | DuplicateComposedGroup _ => True
  | _ => False
  end.

Definition yields {A} (P : A -> Prop) (o : Outcome ProfileError A) : Prop :=
  match o with None => False | Some (Err error) => expected error | Some (Ok a) => P a end.

Lemma yields_bind {A B} (P : A -> Prop) (Q : B -> Prop) (m : Outcome ProfileError A)
  (k : A -> Outcome ProfileError B) :
  yields P m -> (forall a, P a -> yields Q (k a)) -> yields Q (m ≫= k).
Proof. destruct m as [[a|e]|]; cbn; [by intros ? H; apply H|done|done]. Qed.

Lemma yields_reject {B} (Q : B -> Prop) c error (k : () -> Outcome ProfileError B) :
  expected error -> (c = false -> yields Q (k ())) -> yields Q (lift (reject_if c error) ≫= k).
Proof. destruct c; cbn; [done|]. intros _ H. by apply H. Qed.

Lemma yields_mono {A} (P Q : A -> Prop) (o : Outcome ProfileError A) :
  (forall a, P a -> Q a) -> yields P o -> yields Q o.
Proof. destruct o as [[a|e]|]; cbn; auto. Qed.

Lemma outcome_bind_Ok {E A B} (m : Outcome E A) (k : A -> Outcome E B) b :
  m ≫= k = Some (Ok b) -> exists a, m = Some (Ok a) /\ k a = Some (Ok b).
Proof. destruct m as [[a|]|]; [eauto|done|done]. Qed.

(** ** What a composition step adds *)

(** [ids] and [groups] are new, and are added to those seen. *)
Record extends (ids groups : list string) (s s' : Composing) : Prop := {
  ex_items : cg_item_ids s' ≡ₚ ids ++ cg_item_ids s;
  ex_groups : cg_group_ids s' ≡ₚ groups ++ cg_group_ids s;
  ex_items_nodup : NoDup (cg_item_ids s) -> NoDup (cg_item_ids s');
  ex_groups_nodup : NoDup (cg_group_ids s) -> NoDup (cg_group_ids s');
}.

Lemma extends_refl s : extends [] [] s s.
Proof. by split. Qed.

Lemma extends_trans ids ids' groups groups' a b c :
  extends ids groups a b -> extends ids' groups' b c -> extends (ids ++ ids') (groups ++ groups') a c.
Proof.
  intros [H1 H2 H3 H4] [H1' H2' H3' H4']. split; [| |tauto|tauto].
  - rewrite H1', H1. solve_Permutation.
  - rewrite H2', H2. solve_Permutation.
Qed.

(** Only the identifiers matter. *)
Lemma extends_frame ids groups a b a' b' :
  cg_item_ids a = cg_item_ids a' -> cg_group_ids a = cg_group_ids a' ->
  cg_item_ids b = cg_item_ids b' -> cg_group_ids b = cg_group_ids b' ->
  extends ids groups a b -> extends ids groups a' b'.
Proof. intros H1 H2 H3 H4 [A B C D]. split; rewrite <- ?H1, <- ?H2, <- ?H3, <- ?H4; done. Qed.

Fixpoint group_ids (element : GroupElement) : list string :=
  match element with
  | GroupItem _ => []
  | SubGroup group => gr_id group :: flat_map group_ids (gr_elements group)
  end.
Definition element_group_ids (element : Element) : list string :=
  match element with
  | Group group => group_ids (SubGroup group)
  | Item _ | FixedSpace _ | FlexibleSpace _ _ => []
  end.
Definition bar_group_ids (bar : BarSpec) : list string := flat_map element_group_ids (bar_elements bar).

(** A step that composes [ids] and [groups] out of a value. *)
Definition adds {A} (ids groups : A -> list string) (s : Composing) (r : A * Composing) : Prop :=
  extends (ids r.1) (groups r.1) s r.2.

Lemma mapS_yields {A B} (ids groups : B -> list string)
  (f : Composing -> A -> Outcome ProfileError (B * Composing)) l :
  (forall s a, a ∈ l -> yields (adds ids groups s) (f s a)) ->
  forall s, yields (adds (flat_map ids) (flat_map groups) s) (mapS f s l).
Proof.
  induction l as [|a l IH]; intros Hf s; cbn; [apply extends_refl|].
  eapply yields_bind; [apply Hf; left|]. intros [b s1] H1. cbn.
  eapply yields_bind; [apply IH; intros; apply Hf; by right|]. intros [bs s2] H2. cbn in *.
  unfold adds in *. cbn in *. by eapply extends_trans.
Qed.

Definition item_id_of (element : GroupElement) : list string := element_ids (group_items element).

Lemma insert_composed_group_yields s group :
  yields (extends [] [group] s) (insert_composed_group s group).
Proof.
  unfold insert_composed_group, set_insert. apply yields_reject; [done|]. intros Hn.
  apply negb_false_iff, negb_true_iff, set_contains_false in Hn. split; cbn; try done.
  - by apply set_add_perm.
  - intros Hd. rewrite set_add_perm by done. by constructor.
Qed.

Section Resolving.
Context (registry : Registry).
Hypothesis Hregistry : registry_ok registry.

Lemma resolve_item_yields contribution id s :
  bt_contains id (rg_items registry) = true ->
  yields (adds (fun item => [it_id item]) (fun _ => []) s) (resolve_item registry contribution id s).
Proof.
  intros Hid. unfold resolve_item, set_insert. apply yields_reject; [done|]. intros Hn.
  apply negb_false_iff, negb_true_iff, set_contains_false in Hn.
  destruct (registered_Ok registry id (UnknownContributionItem contribution id) Hregistry Hid) as (layout & -> & <-).
  split; cbn; try done; [by apply set_add_perm|]. intros Hd. rewrite set_add_perm by done. by constructor.
Qed.

Lemma all_registered_elem (elements : list BarGroupElement) e :
  all_registered registry (flat_map bar_group_items elements) -> e ∈ elements ->
  all_registered registry (bar_group_items e).
Proof.
  unfold all_registered. rewrite !Forall_forall. intros H He id Hid. apply H.
  apply list_elem_of_In, in_flat_map. exists e. split; by apply list_elem_of_In.
Qed.

Definition is_group (element : GroupElement) : Prop :=
  match element with SubGroup _ => True | GroupItem _ => False end.

Lemma flat_map_ids (elements : list GroupElement) :
  flat_map item_id_of elements = element_ids (flat_map group_items elements).
Proof.
  unfold item_id_of, element_ids. induction elements as [|e es IH]; [done|]. cbn. by rewrite fmap_app, IH.
Qed.

Lemma resolve_contribution_group_yields contribution element :
  all_registered registry (bar_group_items element) -> forall s,
  yields (fun r => adds item_id_of group_ids s r /\
      match element with BarSubGroup _ => is_group r.1 | _ => True end)
    (resolve_contribution_group registry contribution s element).
Proof.
  induction element as [item|group IH] using bar_group_element_ind; intros Hi s;
    cbn [resolve_contribution_group].
  - eapply yields_bind; [apply resolve_item_yields; by apply Forall_inv in Hi|].
    intros [layout s1] H. cbn. by split.
  - eapply yields_bind; [apply insert_composed_group_yields|]. intros s1 H1.
    eapply yields_bind; [apply (mapS_yields item_id_of group_ids)|].
    { intros s2 e He. rewrite Forall_forall in IH. eapply yields_mono; [|apply IH; [done|]]; [by intros ? []|].
      by apply (all_registered_elem (gr_elements group)). }
    intros [es s2] H2. cbn. split; [|done]. unfold adds in *. cbn in *.
    rewrite flat_map_ids in H2. exact (extends_trans [] _ [_] _ _ _ _ H1 H2).
Qed.

Lemma as_group_yields {B} (Q : B -> Prop) element (k : GroupSpec -> Outcome ProfileError B) :
  is_group element -> (forall group, element = SubGroup group -> yields Q (k group)) ->
  yields Q (as_group element ≫= k).
Proof. destruct element; [done|]. cbn. intros _ H. by apply H. Qed.

Definition top_ids (element : Element) : list string := element_ids (element_items element).

Lemma resolve_top_yields contribution element s :
  is_proxy element = false -> all_registered registry (bar_element_items element) ->
  yields (adds top_ids element_group_ids s)
    (resolve_top_contribution_element registry contribution s element).
Proof.
  intros Hp Hi. destruct element as [item|group|w|m w|]; try done; cbn [resolve_top_contribution_element].
  - eapply yields_bind; [apply resolve_item_yields; by apply Forall_inv in Hi|]. intros [layout s1] H. exact H.
  - eapply yields_bind; [by apply resolve_contribution_group_yields|]. intros [e s1] [H Hg]. cbn.
    apply as_group_yields; [done|]. intros g ->. exact H.
Qed.

Lemma resolve_grouped_yields contribution element s :
  is_proxy element = false -> is_space element = false -> all_registered registry (bar_element_items element) ->
  yields (adds item_id_of group_ids s)
    (resolve_grouped_contribution_element registry contribution s element).
Proof.
  intros Hp Hs Hi. destruct element as [item|group|w|m w|]; try done; cbn [resolve_grouped_contribution_element].
  - eapply yields_bind; [apply resolve_item_yields; by apply Forall_inv in Hi|]. intros [layout s1] H. exact H.
  - eapply yields_mono; [|by apply resolve_contribution_group_yields]. by intros ? [].
Qed.
End Resolving.

(** ** The catalog after validation *)

Definition no_space (contribution : ContributionDefinition) : Prop :=
  forall element, element ∈ ct_elements contribution -> is_space element = false.

(** What the composition relies on for a slot. *)
Definition slot_ok (self : ProfileCatalog) (nested : bool) (slot : SlotDefinition) : Prop :=
  nested = true -> forall binding contribution, binding ∈ sl_bindings slot ->
    bt_get (bn_contribution binding) (ca_contributions self) = Some contribution -> no_space contribution.

Fixpoint group_slots (element : ProfileGroupElement) : list SlotDefinition :=
  match element with
  | GroupSlot slot => [slot]
  | ProfileSubGroup group => flat_map group_slots (gr_elements group)
  end.

Lemma profile_group_element_ind (P : ProfileGroupElement -> Prop) :
  (forall slot, P (GroupSlot slot)) ->
  (forall group, Forall P (gr_elements group) -> P (ProfileSubGroup group)) ->
  forall element, P element.
Proof.
  intros Hi Hg. fix IH 1. intros [slot|[id elements layout spacing vp cp]]; [apply Hi|].
  apply Hg. cbn. induction elements as [|e elements IHe]; constructor; [apply IH|exact IHe].
Qed.

Lemma validate_slot_ok self profile slot nested slots slots' :
  validate_slot self profile slot nested slots = Ok slots' -> slot_ok self nested slot.
Proof.
  unfold validate_slot, set_insert. intros H. apply bind_Ok in H as (_ & _ & H).
  apply bind_Ok in H as (_ & _ & H). apply bind_Ok in H as (us & Hm%mapR_Ok & _).
  intros -> binding c [i Hb]%list_elem_of_lookup_1 Hc e He.
  destruct (Forall2_lookup_l _ _ _ _ _ Hm Hb) as (u & _ & Hv). unfold validate_binding in Hv.
  rewrite Hc in Hv. cbn in Hv. apply reject_if_Ok in Hv. by eapply existsb_False' in Hv.
Qed.

Lemma validate_profile_group_ok self profile element : forall depth seen seen',
  validate_profile_group self profile element depth seen = Ok seen' ->
  Forall (slot_ok self true) (group_slots element).
Proof.
  induction element as [slot|group IH] using profile_group_element_ind; intros depth seen seen' H.
  { cbn in H. apply bind_Ok in H as (slots & H & _). constructor; [|constructor]. by eapply validate_slot_ok. }
  cbn [validate_profile_group group_slots] in *. apply bind_Ok in H as (_ & _ & H).
  apply bind_Ok in H as (_ & _ & H). unfold set_insert in H. apply bind_Ok in H as (_ & _ & H).
  revert H. generalize (seen.1, set_add (gr_id group) seen.2).
  induction IH as [|e es He _ IHes]; intros s H; [constructor|]. apply bind_Ok in H as (_ & _ & H).
  apply bind_Ok in H as (s1 & H1 & H2). cbn [flat_map]. apply Forall_app. split; [by eapply He|by eapply IHes].
Qed.

Definition profile_element_ok (self : ProfileCatalog) (element : ProfileElement) : Prop :=
  match element with
  | ProfileGroupOf group => Forall (slot_ok self true) (group_slots (ProfileSubGroup group))
  | _ => True
  end.

Definition contribution_ok (registry : Registry) (contribution : ContributionDefinition) : Prop :=
  forall element, element ∈ ct_elements contribution ->
    is_proxy element = false /\ all_registered registry (bar_element_items element).

Record catalog_valid (self : ProfileCatalog) (registry : Registry) : Prop := {
  cv_contributions : forall id contribution,
    bt_get id (ca_contributions self) = Some contribution -> contribution_ok registry contribution;
  cv_profiles : forall id profile, bt_get id (ca_profiles self) = Some profile ->
    Forall (profile_element_ok self) (pf_elements profile);
}.

Lemma mapR_value {K V E B} `{OrdLaws K} (f : V -> result E B) (m : list (K * V)) bs k v :
  mapR f (bt_values m) = Ok bs -> bt_get k m = Some v -> exists b, f v = Ok b.
Proof.
  intros Hm%mapR_Ok Hg%bt_get_elem. apply (list_elem_of_fmap_2 snd), list_elem_of_lookup_1 in Hg as [i Hi].
  destruct (Forall2_lookup_l _ _ _ _ _ Hm Hi) as (b & _ & Hb). eauto.
Qed.

Lemma validate_contribution_group_registered registry contribution element : forall depth seen seen',
  validate_contribution_group registry contribution element depth seen = Ok seen' ->
  all_registered registry (bar_group_items element).
Proof.
  induction element as [item|group IH] using bar_group_element_ind; intros depth seen seen' H.
  { cbn in H. inv_ok. apply Forall_singleton. by apply negb_false_iff. }
  cbn [validate_contribution_group bar_group_items] in *. apply bind_Ok in H as (_ & _ & H).
  apply bind_Ok in H as (_ & _ & H). unfold set_insert in H. apply bind_Ok in H as (_ & _ & H).
  revert H. generalize (set_add (gr_id group) seen).
  induction IH as [|e es He _ IHes]; intros s H; [constructor|]. apply bind_Ok in H as (s1 & H1 & H2).
  cbn [flat_map]. apply Forall_app. split; [by eapply He|by eapply IHes].
Qed.

Lemma validate_contribution_element_ok registry contribution seen seen' element :
  validate_contribution_element registry contribution seen element = Ok seen' ->
  is_proxy element = false /\ all_registered registry (bar_element_items element).
Proof.
  destruct element as [item|group|w|m w|]; cbn [validate_contribution_element]; intros H; try done.
  - inv_ok. split; [done|]. apply Forall_singleton. by apply negb_false_iff.
  - split; [done|]. by eapply (validate_contribution_group_registered _ _ (BarSubGroup group)).
  - split; [done|]. constructor.
  - split; [done|]. constructor.
Qed.

Lemma validate_catalog_valid self registry :
  validate_catalog self registry = Ok () -> catalog_valid self registry.
Proof.
  unfold validate_catalog. intros H. apply bind_Ok in H as (cs & Hc & H). apply bind_Ok in H as (ps & Hp & _).
  split.
  - intros id c Hg. destruct (mapR_value _ _ _ _ _ Hc Hg) as (u & Hv). unfold validate_contribution in Hv.
    apply bind_Ok in Hv as (s & Hv & _). unfold contribution_ok. revert Hv. generalize (@nil string).
    induction (ct_elements c) as [|e es IH]; intros s0 Hv el; [by intros ?%elem_of_nil|].
    cbn [foldR] in Hv. apply bind_Ok in Hv as (s1 & He & Hv). intros [->|Hin]%elem_of_cons; [|by eapply IH].
    by eapply validate_contribution_element_ok.
  - intros id p Hg. destruct (mapR_value _ _ _ _ _ Hp Hg) as (u & Hv). unfold validate_profile in Hv.
    apply bind_Ok in Hv as (s & Hv & _). revert Hv. generalize (@nil string, @nil string).
    induction (pf_elements p) as [|e es IH]; intros s0 Hv; [constructor|].
    cbn [foldR] in Hv. apply bind_Ok in Hv as (s1 & He & Hv). constructor; [|by eapply IH].
    destruct e; try done. by eapply validate_profile_group_ok.
Qed.

Lemma select_bindings_elem self slot context c :
  c ∈ select_bindings self slot context ->
  exists binding, binding ∈ sl_bindings slot /\
    bt_get (bn_contribution binding) (ca_contributions self) = Some c /\
    (sl_policy slot = Fixed \/ matches (ct_predicate c) context = true).
Proof.
  unfold select_bindings. set (cands := omap _ _).
  assert (Hin : forall e, e ∈ cands -> exists binding, binding ∈ sl_bindings slot /\
    bt_get (bn_contribution binding) (ca_contributions self) = Some e.2 /\
    (sl_policy slot = Fixed \/ matches (ct_predicate e.2) context = true)).
  { intros e. unfold cands. rewrite list_elem_of_omap. intros ([i [j b]] & Hb%elem_indexed & Ha).
    apply list_elem_of_lookup_2 in Hb. rewrite sort_by_perm in Hb.
    apply elem_indexed, list_elem_of_lookup_2 in Hb. unfold active_binding in Ha. cbn in Ha.
    destruct (bt_get _ _) as [c'|] eqn:Hg; [|done]. cbn in Ha. destruct (_ || _) eqn:Ho; [|done].
    injection Ha as <-. exists b. split; [done|]. split; [done|]. cbn.
    apply orb_true_iff in Ho as [Ho|Ho]; [left; by destruct (sl_policy slot)|by right]. }
  destruct (negb _).
  - intros (e & -> & He)%list_elem_of_fmap. by apply Hin.
  - assert (Hmax : forall l best, (forall e, best = Some e -> e ∈ cands) -> (forall e, e ∈ l -> e ∈ cands) ->
      forall e, fold_left (fun best a => match best with None => Some a
        | Some b => match compare_candidates b a with Gt => Some b | _ => Some a end end) l best = Some e -> e ∈ cands).
    { intros l. induction l as [|a l IH]; intros best Hb Hl e He; [by apply Hb|]. cbn in He.
      eapply IH; [| |exact He]; [|intros; apply Hl; by right].
      intros x. destruct best as [b|]; [|intros [= <-]; apply Hl; left].
      destruct (compare_candidates b a); intros [= <-]; try (apply Hl; left). by apply Hb. }
    unfold max_by. destruct (fold_left _ cands None) as [[i c']|] eqn:Hm; [|by intros ?%elem_of_nil].
    intros ->%list_elem_of_singleton. apply (Hin (i, c')). eapply (Hmax cands None); done.
Qed.

(** ** Composing a profile *)

Lemma flat_map_concat {A B} (f : A -> list B) (ls : list (list A)) :
  flat_map f (concat ls) = flat_map (flat_map f) ls.
Proof. induction ls as [|l ls IH]; [done|]. cbn. by rewrite flat_map_app, IH. Qed.

Lemma compose_slot_yields {A} (ids groups : A -> list string)
  (resolve : string -> Composing -> BarElement -> Outcome ProfileError (A * Composing))
  self slot context s :
  (forall contribution element s, contribution ∈ select_bindings self slot context ->
     element ∈ ct_elements contribution -> yields (adds ids groups s) (resolve (ct_id contribution) s element)) ->
  yields (adds (flat_map ids) (flat_map groups) s) (compose_slot resolve self slot context s).
Proof.
  intros Hr. unfold compose_slot. eapply yields_bind.
  - apply (mapS_yields (flat_map ids) (flat_map groups)). intros s1 c Hc.
    eapply yields_mono; [|apply (mapS_yields ids groups); intros; by apply Hr].
    intros r Hx. eapply extends_frame; [..|exact Hx]; done.
  - intros [ls s2] H. unfold adds in *. cbn in *. by rewrite !flat_map_concat.
Qed.

Section Composition.
Context (self : ProfileCatalog) (registry : Registry) (context : ContextSnapshot).
Hypothesis Hregistry : registry_ok registry.
Hypothesis Hcatalog : catalog_valid self registry.

Lemma compose_top_slot_yields slot s :
  yields (adds (flat_map top_ids) (flat_map element_group_ids) s) (compose_top_slot self registry slot context s).
Proof.
  apply compose_slot_yields. intros c e s1 Hc He. apply select_bindings_elem in Hc as (b & _ & Hg & _).
  apply resolve_top_yields; [done|..]; by apply (cv_contributions _ _ Hcatalog _ _ Hg).
Qed.

Lemma compose_group_slot_yields slot s :
  slot_ok self true slot ->
  yields (adds (flat_map item_id_of) (flat_map group_ids) s) (compose_group_slot self registry slot context s).
Proof.
  intros Hs. apply compose_slot_yields. intros c e s1 Hc He.
  apply select_bindings_elem in Hc as (b & Hb & Hg & _).
  apply resolve_grouped_yields; [done|by apply (cv_contributions _ _ Hcatalog _ _ Hg)|by eapply Hs|].
  by apply (cv_contributions _ _ Hcatalog _ _ Hg).
Qed.

Lemma compose_profile_group_yields profile element : Forall (slot_ok self true) (group_slots element) ->
  forall path s, yields (fun r => adds item_id_of group_ids s r /\ is_group r.1)
    (compose_profile_group self registry profile context path s element).
Proof.
  induction element as [slot|group IH] using profile_group_element_ind; intros Hok path s;
    cbn [compose_profile_group].
  - apply Forall_cons in Hok as [Hs _]. eapply yields_bind; [by apply compose_group_slot_yields|].
    intros [es s1] H1. cbn [fst snd]. eapply yields_bind; [apply insert_composed_group_yields|].
    intros s2 H2. cbn. split; [|done]. unfold adds in *. cbn in *. rewrite flat_map_ids in H1.
    pose proof (extends_trans _ _ _ _ _ _ _ H1 H2) as H. rewrite app_nil_r in H.
    destruct H as [A B C D]. split; cbn; try done. rewrite B. solve_Permutation.
  - eapply yields_bind; [apply insert_composed_group_yields|]. intros s1 H1.
    assert (Hgo : forall index s2, yields (adds (flat_map item_id_of) (flat_map group_ids) s2)
      ((fix go (index : nat) (elements : list ProfileGroupElement) (s : Composing)
          : Outcome ProfileError (list GroupElement * Composing) :=
          match elements with
          | [] => mret ([], s)
          | element :: elements' =>
              e ← compose_profile_group self registry profile context (path ++ [index]) s element;
              es ← go (S index) elements' e.2;
              mret (e.1 :: es.1, es.2)
          end) index (gr_elements group) s2)).
    { cbn [group_slots] in Hok. clear H1. induction IH as [|e es He _ IHes]; intros index s2; [apply extends_refl|].
      cbn [flat_map] in Hok. apply Forall_app in Hok as [Hoe Hok].
      eapply yields_bind; [by apply He|]. intros [e' s3] [H3 _]. cbn [fst snd].
      eapply yields_bind; [by apply IHes|]. intros [es' s4] H4. unfold adds in *. cbn in *.
      by eapply extends_trans. }
    eapply yields_bind; [apply Hgo|]. intros [es s2] H2. cbn. split; [|done]. unfold adds in *. cbn in *.
    rewrite flat_map_ids in H2. exact (extends_trans [] _ [_] _ _ _ _ H1 H2).
Qed.

(** The state of [compose]: what is seen is what the elements hold. *)
Definition composed_state (state : list Element * Composing) : Prop :=
  extends (flat_map top_ids state.1) (flat_map element_group_ids state.1) composing_start state.2.

Lemma composed_extend elements s es s' :
  composed_state (elements, s) ->
  extends (flat_map top_ids es) (flat_map element_group_ids es) s s' -> composed_state (elements ++ es, s').
Proof.
  unfold composed_state. cbn. intros H1 H2. rewrite !flat_map_app. by eapply extends_trans.
Qed.

Lemma compose_element_yields profile state element :
  profile_element_ok self element -> composed_state state ->
  yields composed_state (compose_element self registry profile context state element).
Proof.
  destruct state as [elements s]. intros Hok Hs. destruct element as [slot|group|w|m w]; cbn [compose_element].
  - eapply yields_bind; [apply compose_top_slot_yields|]. intros [es s1] H1. cbn.
    pose proof (composed_extend _ _ es s1 Hs H1) as H. unfold composed_state in *.
    eapply extends_frame; [..|exact H]; done.
  - eapply yields_bind; [by apply compose_profile_group_yields|]. intros [e s1] [H1 Hg]. cbn.
    apply as_group_yields; [done|]. intros g ->. cbn. eapply composed_extend; [exact Hs|].
    unfold adds in H1. cbn in *. rewrite !app_nil_r. exact H1.
  - cbn. eapply composed_extend; [exact Hs|]. apply extends_refl.
  - cbn. eapply composed_extend; [exact Hs|]. apply extends_refl.
Qed.

Lemma compose_profile_elements_yields profile elements : forall state,
  Forall (profile_element_ok self) elements -> composed_state state ->
  yields composed_state (compose_profile_elements self registry profile context state elements).
Proof.
  induction elements as [|e es IH]; intros state Hok Hs; cbn [compose_profile_elements]; [exact Hs|].
  apply Forall_cons in Hok as [He Hok]. eapply yields_bind; [by apply compose_element_yields|].
  intros state' Hs'. by apply IH.
Qed.
End Composition.

Lemma flat_map_top_ids bar : flat_map top_ids (bar_elements bar) = element_ids (bar_items bar).
Proof.
  unfold top_ids, element_ids, bar_items. induction (bar_elements bar) as [|e es IH]; [done|].
  cbn. by rewrite fmap_app, IH.
Qed.

(** A composition whose items and groups are all distinct, and whose
    principal item it contains. *)
Definition composition_ok (composition : ProfileComposition) : Prop :=
  let bar := pc_bar composition in
  NoDup (element_ids (bar_items bar)) /\ NoDup (bar_group_ids bar) /\
  forall principal, bar_principal_item bar = Some principal -> principal ∈ element_ids (bar_items bar).

(** What composing a profile may result in. *)
Definition composes (self : ProfileCatalog) (registry : Registry) (id : string)
  (outcome : option (result ProfileError ProfileComposition)) : Prop :=
  match outcome with
  | None => False
  | Some (Err error) => validate_catalog self registry = Err error \/
      validate_catalog self registry = Ok () /\
      (bt_get id (ca_profiles self) = None /\ error = UnknownProfile id \/ expected error)
  | Some (Ok composition) => validate_catalog self registry = Ok () /\
      (exists profile, bt_get id (ca_profiles self) = Some profile /\ pc_profile composition = pf_id profile) /\
      composition_ok composition
  end.

Lemma compose_outcome (self : ProfileCatalog) (registry : Registry) (id : string) (context : ContextSnapshot) :
  registry_ok registry -> composes self registry id (compose self registry id context).
Proof.
  intros Hregistry.
  unfold composes, compose. destruct (validate_catalog self registry) as [[]|e] eqn:Hv; cbn; [|by left].
  pose proof (validate_catalog_valid _ _ Hv) as Hc.
  destruct (bt_get id (ca_profiles self)) as [profile|] eqn:Hp; cbn; [|right; split; [done|by left]].
  pose proof (compose_profile_elements_yields self registry context Hregistry Hc (pf_id profile)
    (pf_elements profile) ([], composing_start) (cv_profiles _ _ Hc _ _ Hp) (extends_refl _)) as H.
  destruct (compose_profile_elements _ _ _ _ _ _) as [[[elements s]|error]|]; cbn in H; [| |done]; cbn.
  2:{ right. split; [done|by right]. }
  split; [done|]. split; [eauto|]. unfold composed_state in H. cbn in H.
  destruct H as [Hi Hg Hni Hng]. cbn in *. rewrite app_nil_r in Hi, Hg.
  set (bar := {| bar_elements := elements; bar_principal_item := _ |}).
  change elements with (bar_elements bar) in Hi, Hg. rewrite flat_map_top_ids in Hi.
  change (NoDup (element_ids (bar_items bar)) /\ NoDup (bar_group_ids bar) /\
    forall principal, bar_principal_item bar = Some principal -> principal ∈ element_ids (bar_items bar)).
  split; [rewrite <- Hi; apply Hni, NoDup_nil_2|]. split; [unfold bar_group_ids; rewrite <- Hg; apply Hng, NoDup_nil_2|].
  intros principal Hpr. rewrite <- Hi. cbn in Hpr. destruct (pf_principal_item profile) as [p|]; [|done].
  destruct (set_contains p _) eqn:Hs; [|done]. injection Hpr as <-. by apply set_contains_spec.
Qed.

(** C18: Composing a profile never panics.  It fails only for an invalid catalog, an
    unknown profile, or an item or group that occurs twice; otherwise every
    item and every group of the bar is distinct and its principal item is in
    it. *)
Theorem compose_total (self : ProfileCatalog) (registry : Registry) (id : string)
  (context : ContextSnapshot) (Hregistry : registry_ok registry) :
  match compose self registry id context with
  | None => False
  | Some (Err error) => validate_catalog self registry = Err error \/
      validate_catalog self registry = Ok () /\
      (bt_get id (ca_profiles self) = None /\ error = UnknownProfile id \/ expected error)
  | Some (Ok composition) => validate_catalog self registry = Ok () /\
      (exists profile, bt_get id (ca_profiles self) = Some profile /\ pc_profile composition = pf_id profile) /\
      composition_ok composition
  end.
Proof. by apply compose_outcome. Qed.

(** ** Selecting the greatest *)

Section MaxBy.
Context {A K : Type} `{OrdLaws K} (key : A -> K) (compare : A -> A -> comparison).
Hypothesis Hcompare : forall a b, compare a b = cmp (key a) (key b).

(** [max_by] finds an element that no other exceeds. *)
Lemma max_by_spec l :
  match max_by compare l with
  | None => l = []
  | Some a => a ∈ l /\ forall b, b ∈ l -> cmp (key b) (key a) <> Gt
  end.
Proof.
  assert (Hle : forall a b c, cmp (key a) (key b) <> Gt -> cmp (key b) (key c) <> Gt -> cmp (key a) (key c) <> Gt).
  { intros a b c H1 H2. destruct (cmp (key a) (key b)) eqn:E1; [| |done].
    - apply cmp_eq in E1. by rewrite E1.
    - destruct (cmp (key b) (key c)) eqn:E2; [| |done].
      + apply cmp_eq in E2. by rewrite <- E2, E1.
      + by rewrite (cmp_lt_trans _ _ _ E1 E2). }
  unfold max_by. set (step := fun best a => _).
  assert (Hf : forall l best, match fold_left step l best with
    | None => l = [] /\ best = None
    | Some a => (a ∈ l \/ best = Some a) /\ (forall b, best = Some b -> cmp (key b) (key a) <> Gt) /\
        forall b, b ∈ l -> cmp (key b) (key a) <> Gt
    end).
  { clear l. intros l. induction l as [|x l IH]; intros best; cbn [fold_left].
    { destruct best as [a|]; [|done]. split; [by right|]. split; [|set_solver].
      intros b [= ->]. by rewrite cmp_refl. }
    specialize (IH (step best x)). destruct (fold_left step l (step best x)) as [a|].
    2:{ destruct IH as [_ Hs]. unfold step in Hs. destruct best as [b|]; [|done]. by destruct (compare b x). }
    destruct IH as (Hin & Hb & Hl).
    assert (Hx : cmp (key x) (key a) <> Gt /\ forall b, best = Some b -> cmp (key b) (key a) <> Gt).
    { unfold step in Hb. destruct best as [b|]; [|split; [by apply Hb|done]]. rewrite Hcompare in Hb.
      destruct (cmp (key b) (key x)) eqn:E.
      - split; [by apply Hb|]. intros ? [= <-]. eapply Hle; [|by apply (Hb x)]. by rewrite E.
      - split; [by apply Hb|]. intros ? [= <-]. eapply Hle; [|by apply (Hb x)]. by rewrite E.
      - split; [|intros ? [= <-]; by apply Hb]. eapply Hle; [|by apply (Hb b)].
        apply cmp_gt_lt in E. by rewrite E. }
    split; [|split; [exact (proj2 Hx)|]].
    - unfold step in Hin. destruct best as [b|]; [destruct (compare b x)|]; set_solver.
    - intros b [->|Hbl]%elem_of_cons; [exact (proj1 Hx)|by apply Hl]. }
  specialize (Hf l None). destruct (fold_left step l None) as [a|]; [|by destruct Hf].
  destruct Hf as ([Hin|] & _ & Hl); [by split|done].
Qed.
End MaxBy.

(** ** The controller *)

(** What is shown, or is shown once the last gesture ends. *)
Definition upcoming (self : CompositionController) : ProfileCompositionSnapshot :=
  default (ctl_current self) (ctl_pending self).

Definition known_profile (self : CompositionController) (profile : string) : Prop :=
  bt_contains profile (ca_profiles (ctl_catalog self)) = true.

Record controller_inv (self : CompositionController) : Prop := {
  ci_registry : registry_ok (ctl_registry self);
  ci_fallback : known_profile self (ps_fallback (ctl_selector self));
  ci_rules : Forall (fun rule => known_profile self (pr_profile rule)) (ps_rules (ctl_selector self));
  ci_manual : forall profile, ctl_manual_profile self = Some profile -> known_profile self profile;
  ci_modes : Forall (fun lease => known_profile self (pl_profile lease)) (bt_values (ctl_modes self));
  ci_synced : compose (ctl_catalog self) (ctl_registry self) (effective_profile self) (ctl_context self) =
    Some (Ok (sn_composition (upcoming self)));
  ci_generation : sn_context_generation (upcoming self) = cx_generation (ctl_context self);
  ci_pending : ctl_captured_contacts self = [] -> ctl_pending self = None;
  ci_delta : forall pending, ctl_pending self = Some pending ->
    sn_delta pending = delta_between (Some (pc_bar (sn_composition (ctl_current self))))
      (pc_bar (sn_composition pending));
}.

Inductive ControllerStep :=
| StepApply (command : ControllerCommand)
| StepCapture (contact_id : N)
| StepRelease (contact_id : N).

(** One call of the controller; [None] is a panic. *)
Definition controller_step (self : CompositionController) (step : ControllerStep)
  : option CompositionController :=
  match step with
  | StepApply command => fst <$> apply self command
  | StepCapture contact_id => Some (controller_capture_started self contact_id)
  | StepRelease contact_id => Some (controller_capture_ended self contact_id).1
  end.
Fixpoint controller_run (self : CompositionController) (steps : list ControllerStep)
  : option CompositionController :=
  match steps with
  | [] => Some self
  | step :: steps' => self ← controller_step self step; controller_run self steps'
  end.

Lemma select_profile_known (known : string -> Prop) selector context :
  known (ps_fallback selector) -> Forall (fun rule => known (pr_profile rule)) (ps_rules selector) ->
  known (select_profile selector context).
Proof.
  intros Hf Hr. unfold select_profile.
  pose proof (max_by_spec (fun e : nat * ProfileRule => (pr_priority e.2, (- Z.of_nat e.1)%Z)) compare_rules) as Hm.
  assert (Hc : forall a b, compare_rules a b = cmp (pr_priority a.2, (- Z.of_nat a.1)%Z) (pr_priority b.2, (- Z.of_nat b.1)%Z)).
  { intros a b. rewrite prod_cmp. unfold compare_rules, then_with. change (cmp (pr_priority a.2) (pr_priority b.2))
      with (pr_priority a.2 ?= pr_priority b.2)%Z. destruct (_ ?= _)%Z; try done. cbn.
    change (cmp ?x ?y) with (x ?= y)%Z. rewrite Z.compare_opp, Nat2Z.inj_compare. done. }
  specialize (Hm Hc). destruct (max_by _ _) as [[i rule]|] eqn:E; [|done].
  specialize (Hm (List.filter (fun e : nat * ProfileRule => matches (pr_predicate e.2) context) (indexed (ps_rules selector)))).
  rewrite E in Hm. destruct Hm as [Hin _]. apply list_elem_of_In, filter_In in Hin as [Hin _].
  apply list_elem_of_In, elem_indexed, list_elem_of_lookup_2 in Hin. rewrite Forall_forall in Hr. by apply Hr.
Qed.

Lemma compare_leases_key a b :
  compare_leases a b = cmp (pl_priority a, pl_sequence a) (pl_priority b, pl_sequence b).
Proof.
  rewrite prod_cmp. unfold compare_leases, then_with.
  change (cmp (pl_priority a) (pl_priority b)) with (pl_priority a ?= pl_priority b)%Z.
  by destruct (_ ?= _)%Z.
Qed.

Lemma effective_profile_known self : controller_inv self -> known_profile self (effective_profile self).
Proof.
  intros []. unfold effective_profile. destruct (ctl_manual_profile self) as [p|] eqn:Hm; [by apply ci_manual0|].
  pose proof (max_by_spec (fun l => (pl_priority l, pl_sequence l)) compare_leases compare_leases_key
    (bt_values (ctl_modes self))) as Hx.
  destruct (max_by _ _) as [lease|].
  - destruct Hx as [Hin _]. rewrite Forall_forall in ci_modes0. by apply ci_modes0.
  - by apply select_profile_known.
Qed.

Lemma controller_new_inv catalog registry selector context self :
  registry_ok registry -> controller_new catalog registry selector context = Some (Ok self) ->
  controller_inv self /\ ctl_captured_contacts self = [].
Proof.
  intros Hr. unfold controller_new. intros (u & _ & H)%outcome_bind_Ok.
  apply outcome_bind_Ok in H as ([] & Hs & H). injection Hs as Hs.
  apply outcome_bind_Ok in H as (composition & Hc & H). injection H as <-.
  unfold validate_selector in Hs. apply bind_Ok in Hs as (_ & Hf%reject_if_Ok & Hs).
  apply bind_Ok in Hs as (us & Hm%mapR_Ok & _). apply negb_false_iff in Hf.
  split; [|done]. split; try done. cbn. unfold known_profile. cbn. clear -Hm.
  induction Hm as [|rule u rules us Hu _ IH]; constructor; [|exact IH].
  apply reject_if_Ok in Hu. by apply negb_false_iff.
Qed.

(** [change] keeps everything but the choice of profile, and keeps every
    profile it can choose known. *)
Record changed_choice (self changed : CompositionController) : Prop := {
  cc_catalog : ctl_catalog changed = ctl_catalog self;
  cc_registry : ctl_registry changed = ctl_registry self;
  cc_selector : ctl_selector changed = ctl_selector self;
  cc_current : ctl_current changed = ctl_current self;
  cc_pending : ctl_pending changed = ctl_pending self;
  cc_captured : ctl_captured_contacts changed = ctl_captured_contacts self;
  cc_manual : forall profile, ctl_manual_profile changed = Some profile -> known_profile self profile;
  cc_modes : Forall (fun lease => known_profile self (pl_profile lease)) (bt_values (ctl_modes changed));
  cc_restore : with_choice changed (ctl_context self) (ctl_manual_profile self) (ctl_modes self)
                 (ctl_next_mode_sequence self) = self;
}.

Lemma bt_values_insert {K V} `{OrdLaws K} (P : V -> Prop) k v (m : list (K * V)) :
  P v -> Forall P (bt_values m) -> Forall P (bt_values (bt_insert k v m)).
Proof.
  unfold bt_values. rewrite !Forall_forall. intros Hv Hm x (e & -> & He)%list_elem_of_fmap.
  apply elem_of_bt_insert in He as [->|He]; [done|]. apply Hm. by apply (list_elem_of_fmap_2 snd).
Qed.

Lemma values_filter {K V} (P : V -> Prop) (f : K * V -> bool) (m : list (K * V)) :
  Forall P (bt_values m) -> Forall P (bt_values (List.filter f m)).
Proof.
  unfold bt_values. rewrite !Forall_forall. intros Hm x (e & -> & He)%list_elem_of_fmap.
  apply list_elem_of_In, filter_In in He as [He%list_elem_of_In _]. apply Hm. by apply (list_elem_of_fmap_2 snd).
Qed.

Lemma change_choice self command changed :
  controller_inv self -> change self command = Ok (Some changed) -> changed_choice self changed.
Proof.
  intros [] H.
  assert (Hgen : forall context manual modes sequence,
    (forall profile, manual = Some profile -> known_profile self profile) ->
    Forall (fun lease => known_profile self (pl_profile lease)) (bt_values modes) ->
    changed_choice self (with_choice self context manual modes sequence)).
  { intros. split; try done. by destruct self. }
  assert (Hreq : forall profile, require_profile self profile = Ok () -> known_profile self profile).
  { intros profile Hr%reject_if_Ok. by apply negb_false_iff in Hr. }
  destruct command as [c|p| |o m p z|o m|o]; cbn in H.
  - injection H as <-. by apply Hgen.
  - apply bind_Ok in H as ([] & Hr & H). injection H as <-. apply Hgen; [|done].
    intros ? [= <-]. by apply Hreq.
  - destruct (ctl_manual_profile self); [|done]. injection H as <-. by apply Hgen.
  - apply bind_Ok in H as ([] & Hr & H). apply bind_Ok in H as (_ & _ & H). injection H as <-.
    apply Hgen; [done|]. apply bt_values_insert; [by apply Hreq|done].
  - destruct (bt_contains _ _); [|done]. injection H as <-. apply Hgen; [done|].
    unfold bt_remove. by apply values_filter.
  - destruct (negb _); [|done]. injection H as <-. apply Hgen; [done|]. by apply values_filter.
Qed.

(** The invariant without what the composition establishes. *)
Lemma changed_known self changed : controller_inv self -> changed_choice self changed ->
  known_profile changed (ps_fallback (ctl_selector changed)) /\
  Forall (fun rule => known_profile changed (pr_profile rule)) (ps_rules (ctl_selector changed)) /\
  (forall profile, ctl_manual_profile changed = Some profile -> known_profile changed profile) /\
  Forall (fun lease => known_profile changed (pl_profile lease)) (bt_values (ctl_modes changed)).
Proof.
  intros [] []. unfold known_profile in *. rewrite cc_catalog0, cc_selector0. by repeat split.
Qed.

(** What a call of [apply] does: nothing when the command is refused or
    changes nothing, and otherwise the new composition is shown or kept. *)
Lemma apply_spec self command :
  controller_inv self ->
  match apply self command with
  | None => False
  | Some (self', r) => controller_inv self' /\
      match r with
      | Err _ => self' = self
      | Ok None => self' = self \/
          ctl_captured_contacts self <> [] /\ ctl_current self' = ctl_current self
      | Ok (Some shown) => ctl_captured_contacts self = [] /\ ctl_current self' = shown
      end
  end.
Proof.
  intros Hinv. unfold apply. destruct (change self command) as [[changed|]|error] eqn:Hch;
    [|split; [done|by left]|done].
  pose proof (change_choice _ _ _ Hinv Hch) as Hcc. pose proof (changed_known _ _ Hinv Hcc) as (Hf & Hr & Hm & Hl).
  pose proof (compose_outcome (ctl_catalog changed) (ctl_registry changed) (effective_profile changed)
    (ctl_context changed)) as Ht.
  pose proof Hinv as []. destruct Hcc. rewrite cc_registry0 in Ht at 1. specialize (Ht ci_registry0).
  unfold build_snapshot.
  destruct (compose (ctl_catalog changed) (ctl_registry changed) (effective_profile changed) (ctl_context changed))
    as [[composition|error]|] eqn:Hc; [| |done].
  2:{ change (outcome_bind ProfileError) with (outcome_bind ProfileError). cbn. by rewrite cc_restore0. }
  cbn. case_bool_decide as Hcap; cbn.
  - rewrite cc_captured0 in Hcap. split; [|done].
    assert (Hp : ctl_pending changed = None) by (rewrite cc_pending0; by apply ci_pending0).
    split; try done; cbn.
    + by rewrite cc_registry0.
    + unfold upcoming. cbn. rewrite Hp. exact Hc.
    + unfold upcoming. cbn. by rewrite Hp.
    + by rewrite Hp.
  - rewrite cc_captured0 in Hcap. split; [|right; by rewrite cc_current0].
    split; try done; cbn.
    + by rewrite cc_registry0.
    + intros H. by rewrite cc_captured0 in H.
    + by intros pending [= <-].
Qed.

Lemma controller_step_inv self step :
  controller_inv self ->
  exists self', controller_step self step = Some self' /\ controller_inv self' /\
    (ctl_captured_contacts self <> [] -> ctl_captured_contacts self' <> [] ->
     ctl_current self' = ctl_current self).
Proof.
  intros Hinv. destruct step as [command|id|id]; cbn [controller_step].
  - pose proof (apply_spec self command Hinv) as H. destruct (apply self command) as [[self' r]|]; [|done].
    exists self'. destruct H as [Hi Hr]. split; [done|]. split; [done|]. intros Hc _.
    destruct r as [[shown|]|e]; [by destruct Hr|destruct Hr as [->|[_ ?]]; done|by subst].
  - eexists. split; [done|]. destruct Hinv. split; [|done]. split; try done. cbn.
    intros H. by apply set_add_not_nil in H.
  - eexists. split; [done|]. destruct Hinv. unfold controller_capture_ended.
    destruct (set_remove id _) eqn:E; [destruct (ctl_pending self) as [pending|] eqn:Hp|]; cbn.
    + split; [|done]. split; try done; unfold upcoming in *; cbn; rewrite Hp in *; done.
    + split; [|done]. split; try done; unfold upcoming in *; cbn; rewrite Hp in *; done.
    + split; [|done]. split; try done; unfold upcoming in *; cbn.
Qed.

Lemma controller_run_inv steps : forall self, controller_inv self ->
  exists self', controller_run self steps = Some self' /\ controller_inv self'.
Proof.
  induction steps as [|step steps IH]; intros self Hinv; [by exists self|]. cbn [controller_run].
  destruct (controller_step_inv self step Hinv) as (self1 & -> & Hinv1 & _). by apply IH.
Qed.

(** C17: The controller never panics, whatever commands and gestures arrive.  What
    it shows, or holds ready while a gesture is captured, is the composition
    of the profile in force in the current context, with distinct items and
    groups and the difference to what is shown; the profile in force is always
    known; a gesture in progress never sees the bar change; and a refused
    command leaves the controller as it was. *)
Theorem controller_correct (catalog : ProfileCatalog) (registry : Registry)
  (selector : ProfileSelector) (context : ContextSnapshot) (initial : CompositionController)
  (steps : list ControllerStep) (Hregistry : registry_ok registry)
  (Hnew : controller_new catalog registry selector context = Some (Ok initial)) :
  exists self, controller_run initial steps = Some self /\
    compose (ctl_catalog self) (ctl_registry self) (effective_profile self) (ctl_context self) =
      Some (Ok (sn_composition (upcoming self))) /\
    composition_ok (sn_composition (upcoming self)) /\
    known_profile self (effective_profile self) /\
    (ctl_captured_contacts self = [] -> ctl_current self = upcoming self) /\
    (forall pending, ctl_pending self = Some pending -> sn_delta pending =
      delta_between (Some (pc_bar (sn_composition (ctl_current self)))) (pc_bar (sn_composition pending))) /\
    (forall step self', controller_step self step = Some self' ->
      ctl_captured_contacts self <> [] -> ctl_captured_contacts self' <> [] ->
      ctl_current self' = ctl_current self) /\
    (forall command self' error, apply self command = Some (self', Err error) -> self' = self).
Proof.
  destruct (controller_new_inv _ _ _ _ _ Hregistry Hnew) as [Hinv _].
  destruct (controller_run_inv steps initial Hinv) as (self & Hrun & Hself). exists self. split; [done|].
  pose proof Hself as []. split; [done|]. split.
  { pose proof (compose_outcome (ctl_catalog self) (ctl_registry self) (effective_profile self)
      (ctl_context self) ci_registry0) as Ht. rewrite ci_synced0 in Ht. by destruct Ht as (_ & _ & ?). }
  split; [by apply effective_profile_known|]. split.
  { intros Hc. unfold upcoming. by rewrite (ci_pending0 Hc). }
  split; [done|]. split.
  - intros step self' Hstep. destruct (controller_step_inv self step Hself) as (self2 & Hs & _ & Hcur).
    rewrite Hstep in Hs. injection Hs as <-. exact Hcur.
  - intros command self' error Ha. pose proof (apply_spec self command Hself) as H. rewrite Ha in H. by destruct H.
Qed.

(** The profile in force: the one selected by hand, else the one of the mode
    of highest priority, the latest of equals, else the one of the first
    matching rule of highest priority, else the fallback. *)
Theorem effective_profile_spec (self : CompositionController) :
  match ctl_manual_profile self with
  | Some profile => effective_profile self = profile
  | None =>
      match bt_values (ctl_modes self) with
      | [] => effective_profile self = select_profile (ctl_selector self) (ctl_context self)
      | leases => exists lease, lease ∈ leases /\ effective_profile self = pl_profile lease /\
          forall other, other ∈ leases -> (pl_priority other < pl_priority lease)%Z \/
            pl_priority other = pl_priority lease /\ (pl_sequence other <= pl_sequence lease)%N
      end
  end.
Proof.
  unfold effective_profile. destruct (ctl_manual_profile self); [done|].
  pose proof (max_by_spec (fun l => (pl_priority l, pl_sequence l)) compare_leases compare_leases_key
    (bt_values (ctl_modes self))) as H.
  destruct (bt_values (ctl_modes self)) as [|l ls]; [done|]. destruct (max_by _ _) as [lease|]; [|done].
  destruct H as [Hin Hle]. exists lease. split; [done|]. split; [done|]. intros other Ho. specialize (Hle other Ho).
  rewrite prod_cmp in Hle. change (cmp (pl_priority other) (pl_priority lease))
    with (pl_priority other ?= pl_priority lease)%Z in Hle.
  destruct (Z.compare_spec (pl_priority other) (pl_priority lease)); [|by left|done].
  right. split; [done|]. change (cmp (pl_sequence other) (pl_sequence lease))
    with (pl_sequence other ?= pl_sequence lease)%N in Hle. by apply N.compare_le_iff.
Qed.

(** ** A catalog at work *)

Definition demo_item (id : string) : ItemDefinition :=
  {| id_layout := ItemSpec_new id 20 30 40; id_label := id; id_expanded_bar := None;
     id_press_and_hold_bar := None |}.
Definition demo_registry : Registry :=
  {| rg_items := [("clock", demo_item "clock"); ("tools", demo_item "tools")]; rg_bars := [] |}.

Lemma demo_registry_ok : registry_ok demo_registry.
Proof.
  split; [repeat constructor|]. split; [done|]. split; [|done].
  intros id item H%bt_get_elem. apply elem_of_cons in H as [[= -> ->]|H]; [done|].
  apply list_elem_of_singleton in H as [= -> ->]. done.
Qed.

Definition contribution (id : string) (elements : list BarElement) (predicate : ContextPredicate)
  : ContributionDefinition :=
  {| ct_id := id; ct_elements := elements; ct_predicate := predicate; ct_scope := GlobalScope;
     ct_priority := 0 |}.
Definition slot (id : string) (policy : SlotPolicy) (bindings : list string) : SlotDefinition :=
  {| sl_id := id; sl_policy := policy;
     sl_bindings := (fun c => {| bn_contribution := c; bn_order := 0 |}) <$> bindings |}.
Definition profile (id : string) (elements : list ProfileElement) : ProfileDefinition :=
  {| pf_id := id; pf_elements := elements; pf_principal_item := Some "clock" |}.

Definition demo_catalog : ProfileCatalog :=
  {| ca_contributions := [("clock", contribution "clock" [BarItem "clock"] Always);
                          ("tools", contribution "tools" [BarItem "tools"] (Present "editor"))];
     ca_profiles := [("desk", profile "desk" [ProfileSlot (slot "left" Collect ["tools"]);
                                              ProfileFlexibleSpace 0 1;
                                              ProfileSlot (slot "right" Fixed ["clock"])]);
                     ("focus", profile "focus" [ProfileSlot (slot "only" Collect ["clock"])])] |}.
Definition demo_selector : ProfileSelector := {| ps_fallback := "desk"; ps_rules := [] |}.
Definition idle : ContextSnapshot := {| cx_generation := 1; cx_facts := [] |}.
Definition editing : ContextSnapshot :=
  {| cx_generation := 2; cx_facts := [("editor", BooleanValue true)] |}.

Definition shown_items (self : CompositionController) : list string :=
  element_ids (bar_items (pc_bar (sn_composition (ctl_current self)))).
Definition demo_controller : option CompositionController :=
  match controller_new demo_catalog demo_registry demo_selector idle with
  | Some (Ok self) => Some self
  | _ => None
  end.

(** The tools enter when an editor is focused, but not during a gesture; a
    mode replaces the bar until it is released. *)
Example controller_shows :
  (fun steps => shown_items <$> (self ← demo_controller; controller_run self steps)) <$>
    [[]; [StepApply (SetContext editing)];
     [StepCapture 7; StepApply (SetContext editing)];
     [StepCapture 7; StepApply (SetContext editing); StepRelease 7];
     [StepApply (SetContext editing); StepApply (ActivateMode 1 "m" "focus" 0)];
     [StepApply (SetContext editing); StepApply (ActivateMode 1 "m" "focus" 0); StepApply (ReleaseOwner 1)]] =
  [Some ["clock"]; Some ["tools"; "clock"]; Some ["clock"]; Some ["tools"; "clock"]; Some ["clock"];
   Some ["tools"; "clock"]].
Proof. vm_compute. reflexivity. Qed.

Lemma compose_total_witness :
  registry_ok demo_registry /\
  match compose demo_catalog demo_registry "desk" editing with
  | Some (Ok composition) => composition_ok composition
  | _ => False
  end.
Proof.
  split; [exact demo_registry_ok|].
  pose proof (compose_total demo_catalog demo_registry "desk" editing demo_registry_ok) as H.
  destruct (compose demo_catalog demo_registry "desk" editing) as [[composition|error]|] eqn:E.
  - apply H.
  - vm_compute in E. discriminate E.
  - exact H.
Defined.

Lemma controller_correct_witness :
  registry_ok demo_registry /\
  exists initial self, controller_new demo_catalog demo_registry demo_selector idle = Some (Ok initial) /\
    controller_run initial [StepCapture 7; StepApply (SetContext editing); StepRelease 7] = Some self /\
    composition_ok (sn_composition (upcoming self)) /\ known_profile self (effective_profile self).
Proof.
  split; [exact demo_registry_ok|].
  destruct (controller_new demo_catalog demo_registry demo_selector idle) as [[initial|error]|] eqn:E.
  - destruct (controller_correct demo_catalog demo_registry demo_selector idle initial
      [StepCapture 7; StepApply (SetContext editing); StepRelease 7] demo_registry_ok E)
      as (self & Hrun & _ & Hok & Hknown & _).
    exists initial, self. split; [reflexivity|]. split; [exact Hrun|]. split; [exact Hok|exact Hknown].
  - vm_compute in E. discriminate E.
  - vm_compute in E. discriminate E.
Defined.

(** ** Nesting *)

(** [n] groups around a slot. *)
Fixpoint nested (n : nat) (names : list string) (inner : ProfileGroupElement) : ProfileGroupElement :=
  match n, names with
  | S n, name :: names =>
      ProfileSubGroup {| gr_id := name; gr_elements := [nested n names inner]; gr_layout := Natural;
                         gr_spacing := 0; gr_visibility_priority := 0; gr_compression_priority := 0 |}
  | _, _ => inner
  end.
Definition deep_group : ProfileGroup :=
  {| gr_id := "g1"; gr_elements := [nested 6 ["g2"; "g3"; "g4"; "g5"; "g6"; "g7"]
                                      (GroupSlot (slot "inner" Fixed ["pair"]))];
     gr_layout := Natural; gr_spacing := 0; gr_visibility_priority := 0; gr_compression_priority := 0 |}.
Definition pair_group : BarGroup :=
  {| gr_id := "pair"; gr_elements := [BarGroupItem "clock"; BarGroupItem "tools"]; gr_layout := Natural;
     gr_spacing := 0; gr_visibility_priority := 0; gr_compression_priority := 0 |}.
Definition deep_catalog : ProfileCatalog :=
  {| ca_contributions := [("pair", contribution "pair" [BarGroupOf pair_group] Always)];
     ca_profiles := [("deep", profile "deep" [ProfileGroupOf deep_group])] |}.

(** Validation counts the groups of a profile and its slots, and the groups of
    a contribution, against the nesting limit, but not one inside the other:
    this valid catalog, whose slot sits at the limit, composes a bar that the
    layout refuses whatever the width. *)
Theorem composed_bar_too_deep (available : N) :
  validate_registry demo_registry = Ok () /\ validate_catalog deep_catalog demo_registry = Ok () /\
  exists composition, compose deep_catalog demo_registry "deep" idle = Some (Ok composition) /\
    Layout.resolve (pc_bar composition) available [] = Some (Err (GroupDepthExceeded "pair")).
Proof.
  split; [reflexivity|]. split; [reflexivity|].
  destruct (compose deep_catalog demo_registry "deep" idle) as [[composition|]|] eqn:E; vm_compute in E;
    try discriminate E.
  exists composition. split; [done|]. injection E as <-. unfold Layout.resolve.
  vm_compute. reflexivity.
Qed.
