(* ===== verification/Config.v ===== *)
(** * Config: the profile configuration of the user

    Models [crates/touchbar-profile-config/src/lib.rs]: the document, its
    validation, the qualified identity of an item, the regions, loading it
    from a file, and building the controller of [Profiles] from it.  The
    counters of elements and predicates ([usize]) count values in memory and
    do not overflow.  TOML is a parser of its own: [from_toml] takes it as an
    argument.  Theorems: [ConfigSpec]. *)

From S2P Require Import Prelude BTree Text Wire Layout LayoutSpec Model Profiles.

#[local] Set Warnings "-register-all".

Definition PROFILE_CONFIG_VERSION : N := 1.
Definition PROFILE_CONFIG_FILE : string := "profiles.toml".
Definition MAX_CONFIG_BYTES : N := 256 * 1024.
Definition MAX_PROFILES : N := 64.
Definition MAX_CONTRIBUTIONS : N := 256.
Definition MAX_RULES : N := 256.
Definition MAX_REGIONS : N := 64.
Definition MAX_CANVAS_WIDTH : N := 8192.
Definition MAX_ELEMENTS : N := 512.
Definition MAX_ITEMS : N := 256.
Definition MAX_PREDICATE_DEPTH : N := 8.
Definition MAX_PREDICATE_NODES : N := 128.
Definition MAX_CONTEXT_KEY_BYTES : N := 128.
Definition MAX_ID_BYTES : N := 256.
Definition MAX_VALUE_BYTES : N := 256.

(** ** The document *)

Inductive PredicateConfig :=
| AlwaysConfig
| PresentConfig (key : string)
| TextEquals (key value : string)
| BooleanEquals (key : string) (value : bool)
| AllConfig (predicates : list PredicateConfig)
| AnyConfig (predicates : list PredicateConfig)
| NotConfig (predicate : PredicateConfig).

Inductive ScopeConfig := GlobalConfig | WorkspaceConfig | ApplicationConfig | WindowConfig.
Inductive SlotPolicyConfig := CollectConfig | SelectConfig | FixedConfig.
Inductive GroupLayoutConfig := NaturalConfig | EqualWidthConfig.
Inductive RegionAnchor := Leading | Center | Trailing.
#[export] Instance RegionAnchor_eq_dec : EqDecision RegionAnchor.
Proof. solve_decision. Defined.

Record ProfileItemConfig := { pic_plugin : string; pic_item : string; pic_required : bool }.
Record ProfileItemRefConfig := { pir_plugin : string; pir_item : string }.
Record ContributionConfig := {
  cf_id : string;
  cf_items : list ProfileItemConfig;
  cf_scope : ScopeConfig;
  cf_priority : Z;
  cf_when : PredicateConfig;
}.

Inductive ProfileGroupElementConfig :=
| GroupedSlotConfig (id : string) (policy : SlotPolicyConfig) (contributions : list string)
| GroupedGroupConfig (id : string) (layout : GroupLayoutConfig) (spacing : N)
    (visibility_priority compression_priority : Z) (elements : list ProfileGroupElementConfig).
Inductive ProfileElementConfig :=
| SlotConfig (id : string) (policy : SlotPolicyConfig) (contributions : list string)
| GroupConfig (id : string) (layout : GroupLayoutConfig) (spacing : N)
    (visibility_priority compression_priority : Z) (elements : list ProfileGroupElementConfig)
| FixedSpaceConfig (width : N)
| FlexibleSpaceConfig (minimum weight : N).

Record ProfileConfig := {
  pg_id : string;
  pg_elements : list ProfileElementConfig;
  pg_principal_item : option ProfileItemRefConfig;
}.
Record ProfileRuleConfig := { rl_profile : string; rl_priority : Z; rl_when : PredicateConfig }.
Record RegionConfig := { re_id : string; re_anchor : RegionAnchor; re_x : N; re_width : N }.
Record ProfileDocument := {
  doc_version : N;
  doc_fallback : string;
  doc_contributions : list ContributionConfig;
  doc_profiles : list ProfileConfig;
  doc_rules : list ProfileRuleConfig;
  doc_regions : list RegionConfig;
}.

Inductive ConfigError :=
| ConfigTooLarge
| NotToml
| UnsupportedVersion (version : N)
| InvalidId (value : string)
| InvalidPluginId (value : string)
| InvalidFact (value : string)
| ProfileCount
| ContributionCount
| RuleCount
| RegionCount
| DuplicateRegion (id : string)
| RegionOutOfBounds (id : string)
| CenteredRegionOffset (id : string)
| DuplicateContributionId (id : string)
| EmptyContribution (id : string)
| RepeatedItem (contribution item : string)
| TooManyItems
| DuplicateProfileId (id : string)
| EmptyProfile (id : string)
| PrincipalNotAllowed (profile item : string)
| TooManyElements
| UnknownFallback (id : string)
| UnknownRuleProfile (id : string)
| FixedSpaceTooWide
| InvalidFlexibleSpace
| RepeatedGroup (profile group : string)
| GroupTooDeep (profile group : string)
| GroupSpacing (profile group : string)
| EmptyGroup (profile group : string)
| SlotTooDeep (profile group : string)
| RepeatedSlot (profile slot : string)
| UnboundSlot (profile slot : string)
| UnknownSlotContribution (profile slot contribution : string)
| RepeatedBinding (profile slot contribution : string)
| PredicateBudget
| EmptyPredicateList
| RequiredItemsMissing (missing : list string)
| ItemKeyMismatch (item : string)
| InvalidItem (error : ModelError)
| InvalidProfile (error : ProfileError)
| ProfileFileUnreadable
| UnsafeProfileFile.

(** ** Identifiers *)

Definition id_start (byte : ascii) : bool := is_ascii_lowercase byte || is_ascii_digit byte.
Definition one_of (allowed : string) (byte : ascii) : bool := contains_byte allowed byte.

Definition validate_id (value : string) : result ConfigError () :=
  let valid :=
    negb (String.eqb value "") && (slen value <=? MAX_ID_BYTES)%N
    && first_byte id_start value
    && all_bytes (fun byte => is_ascii_lowercase byte || is_ascii_digit byte || one_of "-_." byte) value in
  reject_if (negb valid) (InvalidId value).

Definition validate_plugin_id (value : string) : result ConfigError () :=
  let valid :=
    negb (String.eqb value "") && (slen value <=? MAX_VALUE_BYTES)%N
    && first_byte id_start value
    && all_bytes (fun byte => is_ascii_lowercase byte || is_ascii_digit byte || one_of "-_.:/" byte) value in
  reject_if (negb valid) (InvalidPluginId value).

Definition validate_fact (value : string) (maximum : N) : result ConfigError () :=
  reject_if (String.eqb value "" || (maximum <? slen value)%N
             || existsb (fun character => is_control character || is_whitespace character) (chars value))
    (InvalidFact value).

Definition qualified_item_id_unchecked (plugin item : string) : string := plugin +:+ "#" +:+ item.
Definition qualified_item_id (plugin item : string) : result ConfigError string :=
  _ ← validate_plugin_id plugin;
  _ ← validate_id item;
  Ok (qualified_item_id_unchecked plugin item).

Definition qualified (self : ProfileItemConfig) : string :=
  qualified_item_id_unchecked (pic_plugin self) (pic_item self).
Definition qualified_ref (self : ProfileItemRefConfig) : string :=
  qualified_item_id_unchecked (pir_plugin self) (pir_item self).

(** ** Validation *)

(** [nodes] is the number of predicates seen so far. *)
Fixpoint validate_predicate (predicate : PredicateConfig) (depth nodes : N) : result ConfigError N :=
  let nodes := (nodes + 1)%N in
  let children :=
    fix go (predicates : list PredicateConfig) (nodes : N) : result ConfigError N :=
      match predicates with
      | [] => Ok nodes
      | child :: predicates' =>
          nodes ← validate_predicate child (depth + 1) nodes;
          go predicates' nodes
      end in
  _ ← reject_if ((MAX_PREDICATE_DEPTH <? depth) || (MAX_PREDICATE_NODES <? nodes))%N PredicateBudget;
  match predicate with
  | AlwaysConfig => Ok nodes
  | PresentConfig key | BooleanEquals key _ =>
      _ ← validate_fact key MAX_CONTEXT_KEY_BYTES;
      Ok nodes
  | TextEquals key value =>
      _ ← validate_fact key MAX_CONTEXT_KEY_BYTES;
      _ ← validate_fact value MAX_VALUE_BYTES;
      Ok nodes
  | AllConfig predicates | AnyConfig predicates =>
      _ ← reject_if (bool_decide (length predicates = 0)) EmptyPredicateList;
      children predicates nodes
  | NotConfig predicate => validate_predicate predicate (depth + 1) nodes
  end.

(** [checked_add] of a [u32]. *)
Definition checked_add32 (a b : N) : option N := if (u32_max <? a + b)%N then None else Some (a + b)%N.

Definition validate_region (region_ids : list string) (region : RegionConfig)
  : result ConfigError (list string) :=
  let id := re_id region in
  _ ← validate_id id;
  let '(region_ids, inserted) := set_insert id region_ids in
  _ ← reject_if (negb inserted) (DuplicateRegion id);
  let outside := match checked_add32 (re_x region) (re_width region) with
                 | None => true
                 | Some last => (MAX_CANVAS_WIDTH <? last)%N
                 end in
  _ ← reject_if ((re_width region =? 0)%N || outside) (RegionOutOfBounds id);
  _ ← reject_if (bool_decide (re_anchor region = Center) && negb (re_x region =? 0)%N)
        (CenteredRegionOffset id);
  Ok region_ids.

(** One item: the identifiers of the contribution and of the document. *)
Definition validate_item (contribution : string) (seen : list string * list string)
  (item : ProfileItemConfig) : result ConfigError (list string * list string) :=
  let '(local_items, all_items) := seen in
  _ ← validate_plugin_id (pic_plugin item);
  _ ← validate_id (pic_item item);
  let '(local_items, inserted) := set_insert (qualified item) local_items in
  _ ← reject_if (negb inserted) (RepeatedItem contribution (qualified item));
  Ok (local_items, set_add (qualified item) all_items).

Definition validate_contribution_config (seen : list string * list string * N)
  (contribution : ContributionConfig) : result ConfigError (list string * list string * N) :=
  let '(contribution_ids, all_items, nodes) := seen in
  let id := cf_id contribution in
  _ ← validate_id id;
  let '(contribution_ids, inserted) := set_insert id contribution_ids in
  _ ← reject_if (negb inserted) (DuplicateContributionId id);
  _ ← reject_if (bool_decide (length (cf_items contribution) = 0)) (EmptyContribution id);
  items ← foldR (validate_item id) ([], all_items) (cf_items contribution);
  nodes ← validate_predicate (cf_when contribution) 1 nodes;
  Ok (contribution_ids, items.2, nodes).

Definition validate_slot_binding (profile slot : string) (contribution_ids bindings : list string)
  (contribution : string) : result ConfigError (list string) :=
  _ ← validate_id contribution;
  _ ← reject_if (negb (set_contains contribution contribution_ids))
        (UnknownSlotContribution profile slot contribution);
  let '(bindings, inserted) := set_insert contribution bindings in
  _ ← reject_if (negb inserted) (RepeatedBinding profile slot contribution);
  Ok bindings.

Definition validate_slot_config (id : string) (contributions : list string) (profile : string)
  (contribution_ids slots : list string) : result ConfigError (list string) :=
  _ ← validate_id id;
  let '(slots, inserted) := set_insert id slots in
  _ ← reject_if (negb inserted) (RepeatedSlot profile id);
  _ ← reject_if (bool_decide (length contributions = 0)) (UnboundSlot profile id);
  _ ← foldR (validate_slot_binding profile id contribution_ids) [] contributions;
  Ok slots.

(** What is threaded through the elements of a profile. *)
Record Counted := { ce_slots : list string; ce_groups : list string; ce_count : N }.
Definition count_element (s : Counted) : Counted :=
  {| ce_slots := ce_slots s; ce_groups := ce_groups s; ce_count := (ce_count s + 1)%N |}.
Definition counted_slots (s : Counted) (slots : list string) : Counted :=
  {| ce_slots := slots; ce_groups := ce_groups s; ce_count := ce_count s |}.
Definition counted_groups (s : Counted) (groups : list string) : Counted :=
  {| ce_slots := ce_slots s; ce_groups := groups; ce_count := ce_count s |}.

(** One element of the loop of [validate_group_config]: a slot in the group
    [parent] at [depth], or the call for a nested group, whose depth is
    [depth]. *)
Fixpoint validate_group_config (profile : string) (contribution_ids : list string) (parent : string)
  (element : ProfileGroupElementConfig) (depth : N) (s : Counted) : result ConfigError Counted :=
  match element with
  | GroupedSlotConfig slot _ contributions =>
      _ ← reject_if (MAX_GROUP_DEPTH <=? depth)%N (SlotTooDeep profile parent);
      slots ← validate_slot_config slot contributions profile contribution_ids (ce_slots s);
      Ok (counted_slots s slots)
  | GroupedGroupConfig id _ spacing _ _ elements =>
      _ ← validate_id id;
      let '(groups, inserted) := set_insert id (ce_groups s) in
      _ ← reject_if (negb inserted) (RepeatedGroup profile id);
      _ ← reject_if (MAX_GROUP_DEPTH <? depth)%N (GroupTooDeep profile id);
      _ ← reject_if (MAX_CANVAS_WIDTH <? spacing)%N (GroupSpacing profile id);
      _ ← reject_if (bool_decide (length elements = 0)) (EmptyGroup profile id);
      (fix go (elements : list ProfileGroupElementConfig) (s : Counted) : result ConfigError Counted :=
         match elements with
         | [] => Ok s
         | element :: elements' =>
             s ← validate_group_config profile contribution_ids id element
                   (match element with GroupedSlotConfig _ _ _ => depth | _ => depth + 1 end)%N
                   (count_element s);
             go elements' s
         end) elements (counted_groups s groups)
  end.

Definition validate_profile_element_config (profile : string) (contribution_ids : list string)
  (s : Counted) (element : ProfileElementConfig) : result ConfigError Counted :=
  let s := count_element s in
  match element with
  | SlotConfig id _ contributions =>
      slots ← validate_slot_config id contributions profile contribution_ids (ce_slots s);
      Ok (counted_slots s slots)
  | GroupConfig id layout spacing visibility_priority compression_priority elements =>
      validate_group_config profile contribution_ids ""
        (GroupedGroupConfig id layout spacing visibility_priority compression_priority elements) 1 s
  | FixedSpaceConfig width =>
      _ ← reject_if (MAX_CANVAS_WIDTH <? width)%N FixedSpaceTooWide;
      Ok s
  | FlexibleSpaceConfig minimum weight =>
      _ ← reject_if ((MAX_CANVAS_WIDTH <? minimum) || (weight =? 0))%N InvalidFlexibleSpace;
      Ok s
  end.

Definition validate_principal (profile : string) (all_items : list string)
  (principal : option ProfileItemRefConfig) : result ConfigError () :=
  match principal with
  | None => Ok ()
  | Some principal =>
      _ ← validate_plugin_id (pir_plugin principal);
      _ ← validate_id (pir_item principal);
      reject_if (negb (set_contains (qualified_ref principal) all_items))
        (PrincipalNotAllowed profile (qualified_ref principal))
  end.

Definition validate_profile_config (contribution_ids all_items : list string)
  (seen : list string * N) (profile : ProfileConfig) : result ConfigError (list string * N) :=
  let '(profile_ids, element_count) := seen in
  let id := pg_id profile in
  _ ← validate_id id;
  let '(profile_ids, inserted) := set_insert id profile_ids in
  _ ← reject_if (negb inserted) (DuplicateProfileId id);
  _ ← reject_if (bool_decide (length (pg_elements profile) = 0)) (EmptyProfile id);
  _ ← validate_principal id all_items (pg_principal_item profile);
  s ← foldR (validate_profile_element_config id contribution_ids)
        {| ce_slots := []; ce_groups := []; ce_count := element_count |} (pg_elements profile);
  Ok (profile_ids, ce_count s).

Definition validate_rule (profile_ids : list string) (nodes : N) (rule : ProfileRuleConfig)
  : result ConfigError N :=
  _ ← reject_if (negb (set_contains (rl_profile rule) profile_ids)) (UnknownRuleProfile (rl_profile rule));
  validate_predicate (rl_when rule) 1 nodes.

Definition validate (self : ProfileDocument) : result ConfigError () :=
  _ ← reject_if (negb (doc_version self =? PROFILE_CONFIG_VERSION)%N) (UnsupportedVersion (doc_version self));
  _ ← validate_id (doc_fallback self);
  _ ← reject_if ((len (doc_profiles self) =? 0) || (MAX_PROFILES <? len (doc_profiles self)))%N ProfileCount;
  _ ← reject_if (MAX_CONTRIBUTIONS <? len (doc_contributions self))%N ContributionCount;
  _ ← reject_if (MAX_RULES <? len (doc_rules self))%N RuleCount;
  _ ← reject_if (MAX_REGIONS <? len (doc_regions self))%N RegionCount;
  _ ← foldR validate_region [] (doc_regions self);
  seen ← foldR validate_contribution_config ([], [], 0%N) (doc_contributions self);
  let '(contribution_ids, all_items, predicate_nodes) := seen in
  _ ← reject_if (MAX_ITEMS <? len all_items)%N TooManyItems;
  profiles ← foldR (validate_profile_config contribution_ids all_items) ([], 0%N) (doc_profiles self);
  let '(profile_ids, element_count) := profiles in
  _ ← reject_if (MAX_ELEMENTS <? element_count)%N TooManyElements;
  _ ← reject_if (negb (set_contains (doc_fallback self) profile_ids)) (UnknownFallback (doc_fallback self));
  _ ← foldR (validate_rule profile_ids) predicate_nodes (doc_rules self);
  Ok ().

(** ** Queries *)

Definition all_item_configs (self : ProfileDocument) : list ProfileItemConfig :=
  flat_map cf_items (doc_contributions self).
Definition document_item_ids (self : ProfileDocument) : list string :=
  set_of (List.map qualified (all_item_configs self)).
Definition required_item_ids (self : ProfileDocument) : list string :=
  set_of (List.map qualified (List.filter pic_required (all_item_configs self))).
Definition document_profile_ids (self : ProfileDocument) : list string := List.map pg_id (doc_profiles self).

Definition region (self : ProfileDocument) (id : string) (canvas_width : N) : option (N * N) :=
  region ← List.find (fun region => String.eqb (re_id region) id) (doc_regions self);
  let width := N.min (re_width region) canvas_width in
  let free := (canvas_width - width)%N in
  let x := match re_anchor region with
           | Leading => N.min (re_x region) free
           | Center => (free / 2)%N
           | Trailing => sat_sub free (re_x region)
           end in
  Some (x, width).

(** ** The model of a document *)

Definition scope_model (scope : ScopeConfig) : ContextScope :=
  match scope with
  | GlobalConfig => GlobalScope | WorkspaceConfig => WorkspaceScope
  | ApplicationConfig => ApplicationScope | WindowConfig => WindowScope
  end.
Definition policy_model (policy : SlotPolicyConfig) : SlotPolicy :=
  match policy with CollectConfig => Collect | SelectConfig => Select | FixedConfig => Fixed end.
Definition layout_model (layout : GroupLayoutConfig) : GroupLayout :=
  match layout with NaturalConfig => Natural | EqualWidthConfig => EqualWidth end.

Fixpoint predicate_model (predicate : PredicateConfig) : ContextPredicate :=
  match predicate with
  | AlwaysConfig => Always
  | PresentConfig key => Present key
  | TextEquals key value => Equals key (TextValue value)
  | BooleanEquals key value => Equals key (BooleanValue value)
  | AllConfig predicates => All (List.map predicate_model predicates)
  | AnyConfig predicates => Any (List.map predicate_model predicates)
  | NotConfig predicate => Not (predicate_model predicate)
  end.

(** The [as] cast of a [usize] to an [i32]. *)
Definition as_i32 (n : nat) : Z := ((Z.of_nat n + 2 ^ 31) mod 2 ^ 32 - 2 ^ 31)%Z.

Definition slot_model (id : string) (policy : SlotPolicyConfig) (contributions : list string)
  : SlotDefinition :=
  {| sl_id := id; sl_policy := policy_model policy;
     sl_bindings := (fun e : nat * string => {| bn_contribution := e.2; bn_order := as_i32 e.1 |})
                      <$> indexed contributions |}.

Fixpoint group_element_model (element : ProfileGroupElementConfig) : ProfileGroupElement :=
  match element with
  | GroupedSlotConfig id policy contributions => GroupSlot (slot_model id policy contributions)
  | GroupedGroupConfig id layout spacing visibility_priority compression_priority elements =>
      ProfileSubGroup
        {| gr_id := id; gr_elements := List.map group_element_model elements;
           gr_layout := layout_model layout; gr_spacing := spacing;
           gr_visibility_priority := visibility_priority;
           gr_compression_priority := compression_priority |}
  end.
Definition element_model (element : ProfileElementConfig) : ProfileElement :=
  match element with
  | SlotConfig id policy contributions => ProfileSlot (slot_model id policy contributions)
  | GroupConfig id layout spacing visibility_priority compression_priority elements =>
      ProfileGroupOf
        {| gr_id := id; gr_elements := List.map group_element_model elements;
           gr_layout := layout_model layout; gr_spacing := spacing;
           gr_visibility_priority := visibility_priority;
           gr_compression_priority := compression_priority |}
  | FixedSpaceConfig width => ProfileFixedSpace width
  | FlexibleSpaceConfig minimum weight => ProfileFlexibleSpace minimum weight
  end.

(** ** Building *)

Abbreviation Connected := (list (string * ItemSpec)).

(** A loop that can fail or panic. *)
Fixpoint foldO {E A S} (f : S -> A -> Outcome E S) (s : S) (l : list A) : Outcome E S :=
  match l with
  | [] => mret s
  | a :: l' => s ← f s a; foldO f s l'
  end.
Definition wrap_err {E F A} (f : E -> F) (o : Outcome E A) : Outcome F A :=
  map_err f <$> o.

(** The [expect] of the item that was filtered is a panic. *)
Definition register_item (connected : Connected) (registry : Registry) (item : string)
  : Outcome ConfigError Registry :=
  match bt_get item connected with
  | None => unreachable
  | Some spec =>
      _ ← lift (reject_if (negb (String.eqb (it_id spec) item)) (ItemKeyMismatch item));
      lift (map_err InvalidItem
              (add_item registry {| id_layout := spec; id_label := item; id_expanded_bar := None;
                                    id_press_and_hold_bar := None |}))
  end.

Definition contribution_model (connected : Connected) (contribution : ContributionConfig)
  : ContributionDefinition :=
  {| ct_id := cf_id contribution;
     ct_elements := List.map BarItem (List.filter (fun item => bt_contains item connected)
                                        (List.map qualified (cf_items contribution)));
     ct_predicate := predicate_model (cf_when contribution);
     ct_scope := scope_model (cf_scope contribution);
     ct_priority := cf_priority contribution |}.

Definition profile_model (connected : Connected) (profile : ProfileConfig) : ProfileDefinition :=
  {| pf_id := pg_id profile; pf_elements := List.map element_model (pg_elements profile);
     pf_principal_item :=
       principal ← pg_principal_item profile;
       if bt_contains (qualified_ref principal) connected then Some (qualified_ref principal) else None |}.

Definition selector_model (self : ProfileDocument) : ProfileSelector :=
  {| ps_fallback := doc_fallback self;
     ps_rules := List.map (fun rule => {| pr_profile := rl_profile rule; pr_priority := rl_priority rule;
                                          pr_predicate := predicate_model (rl_when rule) |})
                   (doc_rules self) |}.

Definition build_registry (self : ProfileDocument) (connected : Connected) : Outcome ConfigError Registry :=
  foldO (register_item connected) empty_registry
    (List.filter (fun item => bt_contains item connected) (document_item_ids self)).
Definition build_catalog (self : ProfileDocument) (connected : Connected)
  : result ProfileError ProfileCatalog :=
  catalog ← foldR (fun catalog contribution => add_contribution catalog (contribution_model connected contribution))
              empty_catalog (doc_contributions self);
  foldR (fun catalog profile => add_profile catalog (profile_model connected profile))
    catalog (doc_profiles self).

Record BuiltProfile := {
  bp_controller : CompositionController;
  bp_item_ids : list string;
  bp_profile_ids : list string;
}.

Definition missing_items (self : ProfileDocument) (connected : Connected) : list string :=
  List.filter (fun item => negb (bt_contains item connected)) (required_item_ids self).

Definition build (self : ProfileDocument) (connected : Connected) (context : ContextSnapshot)
  : Outcome ConfigError BuiltProfile :=
  _ ← lift (validate self);
  let missing := missing_items self connected in
  _ ← lift (reject_if (negb (bool_decide (length missing = 0))) (RequiredItemsMissing missing));
  registry ← build_registry self connected;
  catalog ← lift (map_err InvalidProfile (build_catalog self connected));
  controller ← wrap_err InvalidProfile (controller_new catalog registry (selector_model self) context);
  mret {| bp_controller := controller; bp_item_ids := document_item_ids self;
          bp_profile_ids := document_profile_ids self |}.

(** ** Loading *)

(** [toml] is [toml::from_str]. *)
Definition from_toml (toml : string -> option ProfileDocument) (source : string)
  : result ConfigError ProfileDocument :=
  _ ← reject_if (MAX_CONFIG_BYTES <? slen source)%N ConfigTooLarge;
  document ← ok_or NotToml (toml source);
  _ ← validate document;
  Ok document.

(** The environment: [TOUCHBAR_HOME], [XDG_CONFIG_HOME] and [HOME]. *)
Definition discover_path (touchbar_home xdg_config_home home : option string) : option string :=
  match touchbar_home with
  | Some root => Some (path_join root PROFILE_CONFIG_FILE)
  | None =>
      root ← match xdg_config_home with
             | Some root => Some root
             | None => option_map (fun home => path_join home ".config") home
             end;
      Some (path_join (path_join root "touchbar") PROFILE_CONFIG_FILE)
  end.

(** What the file system answers about the opened file. *)
Record ProfileFileMetadata := {
  pm_is_file : bool; pm_nlink : N; pm_uid : N; pm_mode : N; pm_len : N;
}.

(** 18 is [0o022].  [metadata] is what inspecting the opened file answers, [contents] the
    bytes that reading at most a number of bytes gives; [None] is a failed
    call.  [read_to_string] refuses what is not UTF-8. *)
Definition load (toml : string -> option ProfileDocument) (metadata : option ProfileFileMetadata)
  (euid : N) (contents : N -> option string) : result ConfigError ProfileDocument :=
  metadata ← ok_or ProfileFileUnreadable metadata;
  _ ← reject_if (negb (pm_is_file metadata) || negb (pm_nlink metadata =? 1)%N
                 || negb (pm_uid metadata =? euid)%N || negb (N.land (pm_mode metadata) 18 =? 0)%N
                 || (MAX_CONFIG_BYTES <? pm_len metadata)%N) UnsafeProfileFile;
  source ← ok_or ProfileFileUnreadable (contents (MAX_CONFIG_BYTES + 1)%N);
  _ ← reject_if (negb (utf8_valid (string_bytes source))) ProfileFileUnreadable;
  from_toml toml source.
