(* ===== verification/ConfigSpec.v ===== *)
(** * ConfigSpec: what an accepted profile configuration promises

    About [Config]: the checks of a document imply the checks of the catalog
    built from it, so an accepted document whose required items are connected
    builds unless two active contributions claim the same item; the qualified
    identity of an item is unambiguous; a region lies inside the canvas. *)

From S2P Require Import Prelude BTree Text Wire Layout LayoutSpec Model Profiles ProfilesSpec Config.

#[local] Set Warnings "-register-all".

(** ** Identifiers *)

Lemma first_byte_app f s t : first_byte f s = true -> first_byte f (s +:+ t) = true.
Proof. by destruct s. Qed.

Lemma white_space_not_id : forallb (fun w => negb (first_byte id_start w)) white_space = true.
Proof. by vm_compute. Qed.

Lemma white_space_first w : w ∈ white_space -> first_byte id_start w = true -> False.
Proof.
  intros Hw Hf. pose proof white_space_not_id as H. rewrite forallb_forall in H.
  apply list_elem_of_In, H in Hw. by rewrite Hf in Hw.
Qed.

(** Trimming removes nothing from the front of an identifier. *)
Lemma trim_start_id s : first_byte id_start s = true -> trim_start s = s.
Proof.
  intros Hs. unfold trim_start. destruct (String.length s); [done|]. cbn [trim_with].
  destruct (first_some _ white_space) as [t|] eqn:E; [|done]. exfalso.
  apply first_some_Some in E as (w & Hw & E%strip_prefix_Some).
  destruct w as [|c w]; [|eapply white_space_first; [exact Hw|]; rewrite E in Hs; by cbn in *].
  by apply (white_space_first "" Hw); vm_compute in Hw; repeat (apply elem_of_cons in Hw as [?|Hw]; [done|]);
    apply elem_of_nil in Hw.
Qed.

Lemma trim_end_id fuel s : first_byte id_start s = true -> first_byte id_start (trim_with strip_suffix fuel s) = true.
Proof.
  revert s. induction fuel as [|fuel IH]; intros s Hs; [done|]. cbn [trim_with].
  destruct (first_some _ white_space) as [t|] eqn:E; [|done]. apply IH.
  apply first_some_Some in E as (w & Hw & E%strip_suffix_Some). rewrite E in Hs.
  destruct t as [|c t]; [|done]. exfalso. by eapply white_space_first.
Qed.

Lemma trim_id s : first_byte id_start s = true -> String.eqb (trim s) "" = false.
Proof.
  intros Hs. unfold trim. rewrite trim_start_id by done. unfold trim_end.
  pose proof (trim_end_id (String.length s) s Hs) as H. by destruct (trim_with _ _ _).
Qed.

Lemma id_not_slot s : first_byte id_start s = true -> starts_with s "@slot/" = false.
Proof.
  intros Hs. destruct (starts_with s "@slot/") eqn:E; [|done]. apply starts_with_spec in E as [t ->].
  by vm_compute in Hs.
Qed.

Lemma validate_id_start s u : validate_id s = Ok u -> first_byte id_start s = true.
Proof.
  unfold validate_id. intros H%reject_if_Ok%negb_false_iff.
  by repeat (apply andb_true_iff in H as [H ?]).
Qed.
Lemma validate_plugin_id_start s u : validate_plugin_id s = Ok u -> first_byte id_start s = true.
Proof.
  unfold validate_plugin_id. intros H%reject_if_Ok%negb_false_iff.
  by repeat (apply andb_true_iff in H as [H ?]).
Qed.

(** A byte that an identifier cannot hold splits it uniquely. *)
Lemma app_sep_inj f c (a b x y : string) :
  f c = false -> all_bytes f a = true -> all_bytes f x = true ->
  a +:+ String c b = x +:+ String c y -> a = x /\ b = y.
Proof.
  intros Hc. revert x. induction a as [|d a IH]; intros [|e x] Ha Hx H; cbn in *.
  - by injection H.
  - injection H as <- _. apply andb_true_iff in Hx as [Hx _]. congruence.
  - injection H as -> _. apply andb_true_iff in Ha as [Ha _]. congruence.
  - injection H as -> H. apply andb_true_iff in Ha as [_ Ha], Hx as [_ Hx].
    by destruct (IH x Ha Hx H) as [-> ->].
Qed.

(** The qualified identity of an item determines the plugin and the item. *)
Theorem qualified_item_id_injective (plugin plugin' item item' id : string)
  (H : qualified_item_id plugin item = Ok id) (H' : qualified_item_id plugin' item' = Ok id) :
  plugin = plugin' /\ item = item'.
Proof.
  unfold qualified_item_id in *. inv_ok. unfold validate_plugin_id in *.
  repeat match goal with H : reject_if _ _ = Ok _ |- _ => apply reject_if_Ok in H as H%negb_false_iff end.
  repeat match goal with H : _ && _ = true |- _ => apply andb_true_iff in H as [? ?] end.
  unfold qualified_item_id_unchecked in *.
  eapply app_sep_inj; [| | |by symmetry]; try done. done.
Qed.
Lemma qualified_item_id_injective_witness :
  qualified_item_id "github:a/b" "volume" = Ok "github:a/b#volume" /\ "github:a/b" = "github:a/b".
Proof.
  split; [by vm_compute|].
  by apply (qualified_item_id_injective "github:a/b" "github:a/b" "volume" "volume" "github:a/b#volume").
Defined.

(** ** Regions *)

(** A region lies inside the canvas and keeps its width when the canvas is
    wide enough. *)
Theorem region_inside (self : ProfileDocument) (id : string) (canvas_width x width : N)
  (H : region self id canvas_width = Some (x, width)) :
  (x + width <= canvas_width)%N /\
  exists declared, declared ∈ doc_regions self /\ re_id declared = id /\
    width = N.min (re_width declared) canvas_width /\
    ((re_x declared + re_width declared <= canvas_width)%N ->
     x = match re_anchor declared with
         | Leading => re_x declared
         | Center => ((canvas_width - re_width declared) / 2)%N
         | Trailing => (canvas_width - re_width declared - re_x declared)%N
         end).
Proof.
  unfold region in H. destruct (List.find _ _) as [declared|] eqn:Hf; [|done]. cbn in H.
  apply List.find_some in Hf as [Hin%list_elem_of_In Hid%String.eqb_eq].
  injection H as <- <-. unfold sat_sub.
  pose proof (N.Div0.div_le_upper_bound (canvas_width - N.min (re_width declared) canvas_width) 2
                (canvas_width - N.min (re_width declared) canvas_width) ltac:(lia)).
  split; [destruct (re_anchor declared); lia|]. exists declared. repeat split; [done|done|].
  intros Hw. rewrite (N.min_l (re_width declared)) by lia. destruct (re_anchor declared); lia.
Qed.

(** ** Loops over distinct identifiers *)

(** A loop that inserts a new key for each element. *)
Lemma foldR_distinct {E A S} (f : S -> A -> result E S) (key : A -> string) (keys : S -> list string) l :
  (forall s a s', a ∈ l -> f s a = Ok s' -> key a ∉ keys s /\ forall k, k ∈ keys s' <-> k = key a \/ k ∈ keys s) ->
  forall s s', foldR f s l = Ok s' ->
  NoDup (List.map key l) /\ (forall k, k ∈ List.map key l -> k ∉ keys s) /\
  (forall k, k ∈ keys s' <-> k ∈ List.map key l \/ k ∈ keys s).
Proof.
  induction l as [|a l IH]; intros Hf s s' H; cbn in *.
  { injection H as <-. split; [constructor|]. set_solver. }
  apply bind_Ok in H as (s1 & H1 & H2). apply Hf in H1 as [Hn Hk]; [|set_solver].
  apply IH in H2 as (Hd & Hfresh & Hall); [|intros; eapply Hf; [set_solver|done]].
  split; [|split].
  - constructor; [|done]. intros Hin. apply (Hfresh _ Hin). apply Hk. by left.
  - intros k [->|Hin]%elem_of_cons; [done|]. intros Hks. apply (Hfresh _ Hin). apply Hk. by right.
  - intros k. rewrite Hall, Hk. set_solver.
Qed.

Lemma foldR_each {E A S} (f : S -> A -> result E S) l s s' a :
  foldR f s l = Ok s' -> a ∈ l -> exists s1 s2, f s1 a = Ok s2.
Proof.
  revert s. induction l as [|b l IH]; intros s H; [by intros ?%elem_of_nil|].
  cbn in H. apply bind_Ok in H as (s1 & H1 & H2). intros [->|Hin]%elem_of_cons; [eauto|by eapply IH].
Qed.

(** A loop that succeeds at each of its elements. *)
Lemma foldR_total {E A S} (P : S -> list A -> Prop) (f : S -> A -> result E S) l : forall s,
  P s l -> (forall s a l', P s (a :: l') -> exists s', f s a = Ok s' /\ P s' l') ->
  exists s', foldR f s l = Ok s' /\ P s' [].
Proof.
  induction l as [|a l IH]; intros s Hp Hstep; cbn; [eauto|].
  destruct (Hstep _ _ _ Hp) as (s1 & -> & Hp1). by apply IH.
Qed.

Lemma set_insert_new (x : string) s s' inserted :
  set_insert x s = (s', inserted) -> inserted = true -> x ∉ s /\ forall y, y ∈ s' <-> y = x \/ y ∈ s.
Proof.
  unfold set_insert. intros [= <- <-] H%negb_true_iff%set_contains_false. split; [done|].
  intros y. apply elem_of_set_add.
Qed.

(** Turns the successful insertions of the context into facts. *)
Ltac insertions :=
  repeat (inv_ok;
    match goal with
    | H : (let '(_, _) := set_insert ?x ?s in _) = Ok _ |- _ =>
        let i := fresh "inserted" in let t := fresh "added" in let E := fresh "Eset" in
        destruct (set_insert x s) as [t i] eqn:E
    end);
  inv_ok;
  repeat match goal with
  | E : set_insert _ _ = (_, ?i), H : negb ?i = false |- _ =>
      apply negb_false_iff in H; apply (set_insert_new _ _ _ _ E) in H as [? ?]; clear E
  end.

(** ** What the validation of a document checks *)

Record document_ok (self : ProfileDocument) (contribution_ids : list string) : Prop := {
  dk_contributions : NoDup (List.map cf_id (doc_contributions self));
  dk_contribution_ids : forall id, id ∈ contribution_ids <-> id ∈ List.map cf_id (doc_contributions self);
  dk_contribution_id : forall c, c ∈ doc_contributions self -> first_byte id_start (cf_id c) = true;
  dk_item : forall c item, c ∈ doc_contributions self -> item ∈ cf_items c ->
    first_byte id_start (qualified item) = true;
  dk_profiles : NoDup (document_profile_ids self);
  dk_profile : forall p, p ∈ doc_profiles self -> first_byte id_start (pg_id p) = true /\
    exists n s, foldR (validate_profile_element_config (pg_id p) contribution_ids)
                  {| ce_slots := []; ce_groups := []; ce_count := n |} (pg_elements p) = Ok s;
  dk_fallback : doc_fallback self ∈ document_profile_ids self;
  dk_rules : forall rule, rule ∈ doc_rules self -> rl_profile rule ∈ document_profile_ids self;
}.

Lemma validate_item_start contribution seen seen' item :
  validate_item contribution seen item = Ok seen' -> first_byte id_start (qualified item) = true.
Proof.
  unfold validate_item. destruct seen as [l a]. intros H. insertions.
  unfold qualified, qualified_item_id_unchecked. apply first_byte_app. by eapply validate_plugin_id_start.
Qed.

Lemma validate_contribution_config_spec s c s' :
  validate_contribution_config s c = Ok s' ->
  (cf_id c ∉ s.1.1 /\ forall k, k ∈ s'.1.1 <-> k = cf_id c \/ k ∈ s.1.1) /\
  first_byte id_start (cf_id c) = true /\
  forall item, item ∈ cf_items c -> first_byte id_start (qualified item) = true.
Proof.
  unfold validate_contribution_config. destruct s as [[ids items] nodes]. intros H. insertions. cbn.
  split; [done|]. split; [by eapply validate_id_start|]. intros item Hin.
  match goal with H : foldR _ _ _ = Ok _ |- _ => destruct (foldR_each _ _ _ _ _ H Hin) as (s1 & s2 & Hs) end.
  by eapply validate_item_start.
Qed.

Lemma validate_profile_config_spec ids items s p s' :
  validate_profile_config ids items s p = Ok s' ->
  (pg_id p ∉ s.1 /\ forall k, k ∈ s'.1 <-> k = pg_id p \/ k ∈ s.1) /\
  first_byte id_start (pg_id p) = true /\
  exists n s, foldR (validate_profile_element_config (pg_id p) ids)
                {| ce_slots := []; ce_groups := []; ce_count := n |} (pg_elements p) = Ok s.
Proof.
  unfold validate_profile_config. destruct s as [seen count]. intros H. insertions. cbn.
  split; [done|]. split; [by eapply validate_id_start|]. eauto.
Qed.

Lemma validate_ok self u : validate self = Ok u -> exists contribution_ids, document_ok self contribution_ids.
Proof.
  unfold validate. intros H. inv_ok.
  match goal with H : foldR validate_contribution_config _ _ = Ok ?s |- _ =>
    destruct s as [[ids items] nodes]; rename H into Hc end.
  inv_ok.
  match goal with H : foldR (validate_profile_config _ _) _ _ = Ok ?s |- _ =>
    destruct s as [pids count]; rename H into Hp end.
  inv_ok. exists ids.
  pose proof (foldR_distinct _ cf_id (fun s => s.1.1) _
    (fun s a s' _ H => proj1 (validate_contribution_config_spec s a s' H)) _ _ Hc) as (Hd & _ & Hk).
  pose proof (foldR_distinct _ pg_id fst _
    (fun s a s' _ H => proj1 (validate_profile_config_spec ids items s a s' H)) _ _ Hp) as (Hpd & _ & Hpk).
  cbn in Hk, Hpk. split.
  - done.
  - intros id. rewrite Hk. set_solver.
  - intros c Hin. destruct (foldR_each _ _ _ _ _ Hc Hin) as (? & ? & Hs).
    by apply validate_contribution_config_spec in Hs as (_ & ? & _).
  - intros c item Hin Hi. destruct (foldR_each _ _ _ _ _ Hc Hin) as (? & ? & Hs).
    apply validate_contribution_config_spec in Hs as (_ & _ & Hs). by apply Hs.
  - done.
  - intros p Hin. destruct (foldR_each _ _ _ _ _ Hp Hin) as (? & ? & Hs).
    by apply validate_profile_config_spec in Hs as (_ & ? & ?).
  - match goal with H : negb (set_contains _ _) = false |- _ =>
      apply negb_false_iff, set_contains_spec, Hpk in H as [?|?%elem_of_nil]; done end.
  - intros rule Hin.
    match goal with H : foldR (validate_rule _) _ _ = Ok _ |- _ =>
      destruct (foldR_each _ _ _ _ _ H Hin) as (? & ? & Hs) end.
    unfold validate_rule in Hs. apply bind_Ok in Hs as (_ & Hs%reject_if_Ok & _).
    by apply negb_false_iff, set_contains_spec, Hpk in Hs as [?|?%elem_of_nil].
Qed.

(** ** The registry and the catalog that are built *)

Definition keys_match (connected : Connected) : Prop :=
  forall id spec, bt_get id connected = Some spec -> it_id spec = id.

(** The registry holds the connected items of the document. *)
Record registry_of (self : ProfileDocument) (connected : Connected) (registry : Registry) : Prop := {
  ro_ok : registry_ok registry;
  ro_bars : rg_bars registry = [];
  ro_items : forall id, bt_contains id (rg_items registry) = true <->
    id ∈ document_item_ids self /\ bt_contains id connected = true;
}.

Lemma register_items connected ids : keys_match connected -> NoDup ids ->
  Forall (fun id => first_byte id_start id = true /\ bt_contains id connected = true) ids ->
  forall registry, registry_ok registry -> rg_bars registry = [] ->
  (forall id, id ∈ ids -> bt_contains id (rg_items registry) = false) ->
  exists registry', foldO (register_item connected) registry ids = Some (Ok registry') /\
    registry_ok registry' /\ rg_bars registry' = [] /\
    forall id, bt_contains id (rg_items registry') = true <->
      id ∈ ids \/ bt_contains id (rg_items registry) = true.
Proof.
  intros Hk. induction ids as [|id ids IH]; intros Hd Ha registry Hr Hb Hf.
  { exists registry. split; [done|]. set_solver. }
  inversion Hd as [|? ? Hn Hd']; subst. inversion Ha as [|? ? [Hs Hc] Ha']; subst.
  unfold bt_contains in Hc. destruct (bt_get id connected) as [spec|] eqn:Hg; [|done].
  pose proof (Hk _ _ Hg) as Hid.
  set (item := {| id_layout := spec; id_label := id; id_expanded_bar := None; id_press_and_hold_bar := None |}).
  assert (Hadd : exists r, add_item registry item = Ok r /\ rg_bars r = [] /\
    rg_items r = bt_insert id item (rg_items registry)).
  { unfold add_item, item. cbn [id_layout id_label]. rewrite Hid, (trim_id _ Hs), (Hf id) by set_solver.
    destruct id; [done|]. cbn. eauto. }
  destruct Hadd as (r & Hadd & Hrb & Hri).
  destruct (IH Hd' Ha' r) as (r' & Hfold & Hok & Hbars & Hall).
  - by eapply add_item_ok.
  - done.
  - intros id' Hin. apply bt_contains_false. rewrite Hri, bt_get_insert_ne by set_solver.
    apply bt_contains_false, Hf. set_solver.
  - exists r'. split; [|split; [done|split; [done|]]].
    + assert (Hstep : register_item connected registry id = Some (Ok r)).
      { unfold register_item. rewrite Hg, Hid, String.eqb_refl. fold item. by rewrite Hadd. }
      cbn [foldO]. rewrite Hstep. exact Hfold.
    + intros id'. rewrite Hall, Hri, !bt_contains_spec, bt_keys_insert, elem_of_set_add. set_solver.
Qed.

Lemma elem_of_filter_b {A} (f : A -> bool) (l : list A) a : a ∈ List.filter f l <-> a ∈ l /\ f a = true.
Proof. rewrite !list_elem_of_In. apply filter_In. Qed.

Lemma document_item_ids_start self ids id : document_ok self ids -> id ∈ document_item_ids self ->
  first_byte id_start id = true.
Proof.
  intros Hd. unfold document_item_ids. rewrite elem_of_set_of, list_elem_of_In, in_map_iff.
  intros (item & <- & Hin). unfold all_item_configs in Hin. apply in_flat_map in Hin as (c & Hc & Hi).
  by apply (dk_item _ _ Hd c item); apply list_elem_of_In.
Qed.

Lemma build_registry_ok self ids connected : document_ok self ids -> keys_match connected ->
  exists registry, build_registry self connected = Some (Ok registry) /\ registry_of self connected registry.
Proof.
  intros Hd Hk. unfold build_registry.
  destruct (register_items connected
              (List.filter (fun item => bt_contains item connected) (document_item_ids self)) Hk)
    with (registry := empty_registry) as (r & H & Hok & Hb & Hi); try done.
  - apply ascending_NoDup, ascending_filter, ascending_set_of.
  - apply Forall_forall. intros id [Hin Hc]%elem_of_filter_b. split; [|done].
    by eapply document_item_ids_start.
  - exists r. split; [done|]. split; try done. intros id. rewrite Hi, elem_of_filter_b. cbn. naive_solver.
Qed.

(** The catalog holds the contributions and the profiles of the document. *)
Record catalog_of (self : ProfileDocument) (connected : Connected) (catalog : ProfileCatalog) : Prop := {
  co_contribution : forall id c, (id, c) ∈ ca_contributions catalog ->
    exists config, config ∈ doc_contributions self /\ c = contribution_model connected config;
  co_contributions : forall id, bt_contains id (ca_contributions catalog) = true <->
    id ∈ List.map cf_id (doc_contributions self);
  co_profile : forall id p, (id, p) ∈ ca_profiles catalog ->
    exists config, config ∈ doc_profiles self /\ p = profile_model connected config /\ id = pg_id config;
  co_profiles : forall id, bt_contains id (ca_profiles catalog) = true <-> id ∈ document_profile_ids self;
}.

(** Adding definitions with distinct, valid identifiers to a map. *)
Lemma add_all {A V S} (key : A -> string) (value : A -> V) (map : S -> list (string * V))
  (add : S -> A -> result ProfileError S) (l : list A) (s : S) :
  NoDup (List.map key l) ->
  (forall s a, a ∈ l -> bt_contains (key a) (map s) = false ->
    exists s', add s a = Ok s' /\ map s' = bt_insert (key a) (value a) (map s)) ->
  map s = [] ->
  exists s', foldR add s l = Ok s' /\
    (forall k v, (k, v) ∈ map s' -> exists a, a ∈ l /\ v = value a /\ k = key a) /\
    (forall k, bt_contains k (map s') = true <-> k ∈ List.map key l).
Proof.
  intros Hd Hadd Hs.
  assert (Hgen : forall s, (forall a, a ∈ l -> bt_contains (key a) (map s) = false) ->
    exists s', foldR add s l = Ok s' /\
      (forall k v, (k, v) ∈ map s' ->
        (exists a, a ∈ l /\ v = value a /\ k = key a) \/ (k, v) ∈ map s) /\
      (forall k, bt_contains k (map s') = true <-> k ∈ List.map key l \/ bt_contains k (map s) = true)).
  { clear Hs. induction l as [|a l IH]; intros s0 Hf.
    { exists s0. split; [done|]. split; [by right|]. set_solver. }
    inversion Hd as [|? ? Hn Hd']; subst.
    destruct (Hadd s0 a) as (s1 & Ha & Hm); [set_solver|apply Hf; set_solver|].
    destruct (IH Hd' (fun s b Hb => Hadd s b ltac:(set_solver)) s1) as (s2 & Hfold & Hget & Hall).
    - intros b Hb. apply bt_contains_false. rewrite Hm, bt_get_insert_ne.
      + apply bt_contains_false, Hf. set_solver.
      + intros Heq. apply Hn. rewrite <- Heq. apply list_elem_of_In, in_map, list_elem_of_In. done.
    - exists s2. cbn [foldR]. rewrite Ha. cbn. split; [done|]. split.
      + intros k v H. apply Hget in H as [(b & Hb & Hv & Hkey)|H]; [left; exists b; set_solver|].
        rewrite Hm in H. apply elem_of_bt_insert in H as [[= -> ->]|H]; [|by right].
        left. exists a. set_solver.
      + intros k. rewrite Hall, Hm, !bt_contains_spec, bt_keys_insert, elem_of_set_add. cbn. set_solver. }
  destruct (Hgen s) as (s' & Hfold & Hget & Hall); [by intros; rewrite Hs|].
  exists s'. split; [done|]. rewrite Hs in *. split.
  - intros k v Hk. apply Hget in Hk as [?|?%elem_of_nil]; done.
  - intros k. rewrite Hall. cbn. naive_solver.
Qed.

(** [foldR] keeps what each step keeps. *)
Lemma foldR_keeps {E A S X} (g : S -> X) (f : S -> A -> result E S) l s s' :
  (forall s a s', f s a = Ok s' -> g s' = g s) -> foldR f s l = Ok s' -> g s' = g s.
Proof.
  intros Hf. revert s. induction l as [|a l IH]; intros s H; cbn in H; [by injection H as <-|].
  apply bind_Ok in H as (s1 & H1 & H2). rewrite (IH _ H2). by eapply Hf.
Qed.

Lemma build_catalog_ok self ids connected : document_ok self ids ->
  exists catalog, build_catalog self connected = Ok catalog /\ catalog_of self connected catalog.
Proof.
  intros Hd. unfold build_catalog.
  destruct (add_all cf_id (contribution_model connected) ca_contributions
              (fun catalog c => add_contribution catalog (contribution_model connected c))
              (doc_contributions self) empty_catalog) as (c1 & H1 & Hget1 & Hall1); [apply Hd| |done|].
  { intros s a Ha Hn. unfold add_contribution. cbn [contribution_model ct_id]. rewrite (trim_id _ (dk_contribution_id _ _ Hd _ Ha)), Hn. eauto. }
  assert (Hp1 : ca_profiles c1 = []).
  { change (@nil (string * ProfileDefinition)) with (ca_profiles empty_catalog).
    eapply (foldR_keeps ca_profiles); [|exact H1].
    unfold add_contribution. intros s a s' H. by inv_ok. }
  destruct (add_all pg_id (profile_model connected) ca_profiles
              (fun catalog p => add_profile catalog (profile_model connected p))
              (doc_profiles self) c1) as (c2 & H2 & Hget2 & Hall2); [apply Hd| |done|].
  { intros s a Ha Hn. unfold add_profile. cbn [profile_model pf_id]. destruct (dk_profile _ _ Hd _ Ha) as [Hs _].
    rewrite (trim_id _ Hs), Hn. eauto. }
  assert (Hc2 : ca_contributions c2 = ca_contributions c1).
  { eapply (foldR_keeps ca_contributions); [|exact H2].
    unfold add_profile. intros s a s' H. by inv_ok. }
  exists c2. rewrite H1. cbn. split; [done|]. split; rewrite ?Hc2; try done.
  intros id c (config & ? & ? & _)%Hget1. eauto.
Qed.

(** ** The catalog validates *)

Lemma mapR_all {E A B} (f : A -> result E B) l :
  (forall a, a ∈ l -> exists b, f a = Ok b) -> exists bs, mapR f l = Ok bs.
Proof.
  induction l as [|a l IH]; intros Hf; [by eexists|].
  destruct (Hf a) as [b Hb]; [set_solver|]. destruct IH as [bs Hbs]; [intros; apply Hf; set_solver|].
  exists (b :: bs). cbn. by rewrite Hb, Hbs.
Qed.

Lemma bt_values_elem {K V} (m : list (K * V)) v : v ∈ bt_values m -> exists k, (k, v) ∈ m.
Proof. unfold bt_values. intros (e & -> & Hin)%list_elem_of_fmap. exists e.1. by destruct e. Qed.

Lemma contribution_validates registry connected config :
  (forall item, item ∈ cf_items config -> bt_contains (qualified item) connected = true ->
     bt_contains (qualified item) (rg_items registry) = true) ->
  exists u, validate_contribution registry (contribution_model connected config) = Ok u.
Proof.
  intros Hr. unfold validate_contribution. cbn [contribution_model ct_id ct_elements].
  set (ids := List.filter _ _).
  assert (Hids : Forall (fun id => bt_contains id (rg_items registry) = true) ids).
  { apply Forall_forall. intros id [Hin Hc]%elem_of_filter_b.
    apply list_elem_of_In, in_map_iff in Hin as (item & <- & Hin). apply Hr; [by apply list_elem_of_In|done]. }
  enough (H : foldR (validate_contribution_element registry (cf_id config)) [] (List.map BarItem ids) = Ok [])
    by (rewrite H; by eexists).
  induction Hids as [|id ids' Hid _ IH]; [done|]. cbn. by rewrite Hid.
Qed.

(** What the slots of a document rely on. *)
Definition items_only (self : ProfileCatalog) (id : string) : Prop :=
  exists c, bt_get id (ca_contributions self) = Some c /\ forall e, e ∈ ct_elements c -> exists item, e = BarItem item.

Section Simulation.
Context (self : ProfileCatalog) (profile : string) (contribution_ids : list string).
Hypothesis known : forall id, id ∈ contribution_ids -> items_only self id.

Lemma binding_validates slot nested id order :
  id ∈ contribution_ids ->
  validate_binding self profile slot nested {| bn_contribution := id; bn_order := order |} = Ok ().
Proof.
  intros (c & Hc & Hi)%known. unfold validate_binding. cbn [bn_contribution]. rewrite Hc. cbn.
  enough (H : existsb is_space (ct_elements c) = false) by (rewrite H; by rewrite andb_false_r).
  apply existsb_False'. intros e He. by destruct (Hi e He) as [item ->].
Qed.

Lemma slot_validates id policy contributions nested slots slots' :
  validate_slot_config id contributions profile contribution_ids slots = Ok slots' ->
  validate_slot self profile (slot_model id policy contributions) nested slots = Ok slots'.
Proof.
  unfold validate_slot_config, validate_slot. cbn [slot_model sl_id sl_bindings]. intros H. inv_ok.
  match goal with H : validate_id _ = _ |- _ => apply validate_id_start in H as Hs end.
  rewrite (trim_id _ Hs). cbn. unfold set_insert in *.
  destruct (set_contains id slots); cbn in *; [by inv_ok|]. inv_ok.
  match goal with H : foldR _ _ _ = Ok _ |- _ => rename H into Hf end.
  destruct (mapR_all (validate_binding self profile id nested)
    ((fun e : nat * string => {| bn_contribution := e.2; bn_order := as_i32 e.1 |}) <$> indexed contributions))
    as [bs ->]; [|done].
  intros b (e & -> & He)%list_elem_of_fmap. exists (). apply binding_validates.
  assert (Hin : e.2 ∈ contributions).
  { unfold indexed in He. apply elem_of_lookup_imap in He as (i & x & -> & Hx). by eapply list_elem_of_lookup_2. }
  destruct (foldR_each _ _ _ _ _ Hf Hin) as (s1 & s2 & Hb). unfold validate_slot_binding in Hb.
  apply bind_Ok in Hb as (_ & _ & Hb). apply bind_Ok in Hb as (_ & Hb%reject_if_Ok & _).
  by apply negb_false_iff, set_contains_spec in Hb.
Qed.

Lemma config_group_ind (P : ProfileGroupElementConfig -> Prop) :
  (forall id policy contributions, P (GroupedSlotConfig id policy contributions)) ->
  (forall id layout spacing vp cp elements, Forall P elements ->
     P (GroupedGroupConfig id layout spacing vp cp elements)) ->
  forall element, P element.
Proof.
  intros Hs Hg. fix IH 1. intros [id policy cs|id layout spacing vp cp elements]; [apply Hs|].
  apply Hg. induction elements as [|e elements IHe]; constructor; [apply IH|exact IHe].
Qed.

Lemma group_validates element : forall parent depth s s',
  validate_group_config profile contribution_ids parent element depth s = Ok s' ->
  validate_profile_group self profile (group_element_model element) depth (ce_slots s, ce_groups s)
  = Ok (ce_slots s', ce_groups s').
Proof.
  induction element as [id policy cs|id layout spacing vp cp elements IH] using config_group_ind;
    intros parent depth s s' H; cbn [validate_group_config] in H.
  - inv_ok. cbn [group_element_model validate_profile_group fst].
    match goal with H : validate_slot_config _ _ _ _ _ = _ |- _ =>
      rewrite (slot_validates _ policy _ true _ _ H) end. done.
  - apply bind_Ok in H as (_ & Hs%validate_id_start & H).
    cbn [group_element_model validate_profile_group gr_id gr_elements fst snd].
    rewrite (trim_id _ Hs), (id_not_slot _ Hs). cbn [orb]. unfold set_insert in *.
    apply bind_Ok in H as (_ & Hn%reject_if_Ok & H). apply bind_Ok in H as (_ & Hd%reject_if_Ok & H).
    apply bind_Ok in H as (_ & _ & H). apply bind_Ok in H as (_ & _ & H).
    rewrite Hd, Hn. cbn. clear Hn Hd.
    change (ce_slots s) with (ce_slots (counted_groups s (set_add id (ce_groups s)))) at 1.
    change (set_add id (ce_groups s)) with (ce_groups (counted_groups s (set_add id (ce_groups s)))) at 2.
    revert H. generalize (counted_groups s (set_add id (ce_groups s))).
    induction IH as [|e es He _ IHes]; intros s0 H; [by injection H as <-|].
    apply bind_Ok in H as (s1 & H1 & H2). cbn [List.map].
    assert (Hslot : match group_element_model e with GroupSlot _ => MAX_GROUP_DEPTH <=? depth | _ => false end%N = false).
    { destruct e as [eid ep ecs|]; [|done]. cbn [validate_group_config] in H1.
      by apply bind_Ok in H1 as (_ & H1%reject_if_Ok & _). }
    rewrite Hslot. cbn [reject_if].
    match goal with |- (Ok ?u ≫= ?k) = _ => change (Ok u ≫= k) with (k u) end. cbv beta.
    assert (Hdepth : (match group_element_model e with ProfileSubGroup _ => depth + 1 | _ => depth end
                      = match e with GroupedSlotConfig _ _ _ => depth | _ => depth + 1 end)%N) by (by destruct e).
    apply He in H1. cbn [count_element ce_slots ce_groups] in H1. rewrite Hdepth, H1. cbn. by apply IHes.
Qed.

Lemma element_validates s s' element :
  validate_profile_element_config profile contribution_ids s element = Ok s' ->
  validate_profile_element self profile (ce_slots s, ce_groups s) (element_model element)
  = Ok (ce_slots s', ce_groups s').
Proof.
  destruct element as [id policy cs|id layout spacing vp cp elements|w|m w];
    cbn [validate_profile_element_config element_model validate_profile_element]; intros H.
  - inv_ok. match goal with H : validate_slot_config _ _ _ _ _ = _ |- _ =>
      cbn in H |- *; rewrite (slot_validates _ policy _ false _ _ H) end. done.
  - by apply group_validates in H.
  - by inv_ok.
  - apply bind_Ok in H as (_ & Hw%reject_if_Ok & H). apply orb_false_iff in Hw as [_ ->].
    by injection H as <-.
Qed.

Lemma elements_validate elements : forall s s',
  foldR (validate_profile_element_config profile contribution_ids) s elements = Ok s' ->
  foldR (validate_profile_element self profile) (ce_slots s, ce_groups s) (List.map element_model elements)
  = Ok (ce_slots s', ce_groups s').
Proof.
  induction elements as [|e es IH]; intros s s' H; cbn in *; [by injection H as <-|].
  apply bind_Ok in H as (s1 & H1%element_validates & H2%IH). rewrite H1. exact H2.
Qed.

End Simulation.

Lemma catalog_items_only self connected catalog ids id : document_ok self ids ->
  catalog_of self connected catalog -> id ∈ ids -> items_only catalog id.
Proof.
  intros Hd Hc Hin. apply (dk_contribution_ids _ _ Hd) in Hin. apply (co_contributions _ _ _ Hc) in Hin.
  unfold bt_contains in Hin. destruct (bt_get id (ca_contributions catalog)) as [c|] eqn:Hg; [|done].
  exists c. split; [done|]. destruct (co_contribution _ _ _ Hc _ _ (bt_get_elem _ _ _ Hg)) as (config & _ & ->).
  intros e He%list_elem_of_In. cbn in He. apply in_map_iff in He as (item & <- & _). eauto.
Qed.

Lemma catalog_validates self connected registry catalog ids : document_ok self ids ->
  registry_of self connected registry -> catalog_of self connected catalog ->
  validate_catalog catalog registry = Ok ().
Proof.
  intros Hd Hr Hc. unfold validate_catalog.
  destruct (mapR_all (validate_contribution registry) (bt_values (ca_contributions catalog))) as [us ->].
  { intros c (id & Hin)%bt_values_elem. destruct (co_contribution _ _ _ Hc _ _ Hin) as (config & Hcf & ->).
    apply contribution_validates. intros item Hi Hconn. apply (ro_items _ _ _ Hr). split; [|done].
    unfold document_item_ids. apply elem_of_set_of, list_elem_of_In, in_map_iff. exists item. split; [done|].
    apply in_flat_map. exists config. by rewrite <- !list_elem_of_In. }
  cbn.
  destruct (mapR_all (validate_profile catalog) (bt_values (ca_profiles catalog))) as [us' ->]; [|done].
  intros p (id & Hin)%bt_values_elem. destruct (co_profile _ _ _ Hc _ _ Hin) as (config & Hcf & -> & _).
  destruct (dk_profile _ _ Hd _ Hcf) as (_ & n & s & Hv).
  unfold validate_profile. cbn [profile_model pf_id pf_elements].
  pose proof (elements_validate catalog (pg_id config) ids
    (fun id => catalog_items_only self connected catalog ids id Hd Hc) _ _ _ Hv) as Hm.
  cbn in Hm. rewrite Hm. by eexists.
Qed.

(** ** Groups do not clash

    The composition names a group after each slot inside a group and keeps
    the groups of the profile.  A validated profile never repeats one, so when
    its contributions hold items only, no two groups of its bar have the same
    identifier. *)

Fixpoint composed_groups (profile : string) (element : ProfileGroupElement) : list string :=
  match element with
  | GroupSlot slot => [slot_group_id profile (sl_id slot)]
  | ProfileSubGroup group => gr_id group :: flat_map (composed_groups profile) (gr_elements group)
  end.
Definition composed_element_groups (profile : string) (element : ProfileElement) : list string :=
  match element with
  | ProfileGroupOf group => composed_groups profile (ProfileSubGroup group)
  | _ => []
  end.

(** Every step of the computation adds the groups [added], which is new, and
    does not fail because of a group. *)
Definition only_adds {A} (added : list string) (s : Composing) (o : Outcome ProfileError (A * Composing)) : Prop :=
  NoDup added -> (forall g, g ∈ added -> g ∉ cg_group_ids s) ->
  match o with
  | Some (Ok r) => forall g, g ∈ cg_group_ids r.2 <-> g ∈ added \/ g ∈ cg_group_ids s
  | Some (Err (DuplicateComposedGroup _)) => False
  | _ => True
  end.

Lemma only_adds_bind {A B} added added' s (m : Outcome ProfileError (A * Composing))
  (k : A * Composing -> Outcome ProfileError (B * Composing)) :
  only_adds added s m -> (forall a s', only_adds added' s' (k (a, s'))) -> only_adds (added ++ added') s (m ≫= k).
Proof.
  intros Hm Hk Hd Hf. apply NoDup_app in Hd as (Hd & Hdisj & Hd').
  specialize (Hm Hd (fun g Hg => Hf g (proj2 (elem_of_app _ _ _) (or_introl Hg)))).
  destruct m as [[[a s']|e]|]; [|exact Hm|done]. cbn in Hm |- *.
  assert (Hf' : forall g, g ∈ added' -> g ∉ cg_group_ids s').
  { intros g Hg [Hin|Hin]%Hm; [by apply (Hdisj g)|]. apply (Hf g); [set_solver|done]. }
  specialize (Hk a s' Hd' Hf'). destruct (k (a, s')) as [[[b s'']|e]|]; [|done|done].
  intros g. rewrite (Hk g), (Hm g). set_solver.
Qed.

Lemma only_adds_ret {A} s (a : A) s' : cg_group_ids s' = cg_group_ids s -> only_adds [] s (mret (a, s')).
Proof. intros H _ _ g. cbn. rewrite H. set_solver. Qed.

Lemma only_adds_frame {A} added s s' (o : Outcome ProfileError (A * Composing)) :
  cg_group_ids s = cg_group_ids s' -> only_adds added s o -> only_adds added s' o.
Proof. unfold only_adds. by intros ->. Qed.

Lemma only_adds_after {A B} added s (m : Outcome ProfileError (A * Composing))
  (f : A -> Composing -> B * Composing) :
  (forall a s', cg_group_ids (f a s').2 = cg_group_ids s') ->
  only_adds added s m -> only_adds added s (r ← m; mret (f r.1 r.2)).
Proof.
  intros Hf Hm. rewrite <- (app_nil_r added). apply only_adds_bind; [done|]. intros a s' _ _ g. cbn.
  rewrite Hf. set_solver.
Qed.

(** Entering a group. *)
Lemma only_adds_insert {A} group added s (k : Composing -> Outcome ProfileError (A * Composing)) :
  (forall s', only_adds added s' (k s')) ->
  only_adds (group :: added) s (insert_composed_group s group ≫= k).
Proof.
  intros Hk Hd Hf. inversion Hd as [|? ? Hn Hd']; subst. unfold insert_composed_group, set_insert.
  assert (Hg : set_contains group (cg_group_ids s) = false) by (apply set_contains_false, Hf; set_solver).
  rewrite Hg. cbn. specialize (Hk (with_group_ids s (set_add group (cg_group_ids s))) Hd').
  destruct (k _) as [[r|e]|]; [|apply Hk|done].
  - intros g. rewrite Hk; cbn; rewrite ?elem_of_set_add; [set_solver|].
    intros g' Hg' [->|Hin]%elem_of_set_add; [done|]. apply (Hf g'); [set_solver|done].
  - intros g' Hg'. cbn. intros [->|Hin]%elem_of_set_add; [done|]. apply (Hf g'); [set_solver|done].
Qed.

Section NoClash.
Context (self : ProfileCatalog) (registry : Registry) (context : ContextSnapshot) (profile : string).
Hypothesis all_items : forall id c, bt_get id (ca_contributions self) = Some c ->
  forall e, e ∈ ct_elements c -> exists item, e = BarItem item.

Lemma resolve_item_adds {A} (f : ItemSpec -> A) contribution id s :
  only_adds [] s (item ← resolve_item registry contribution id s; mret (f item.1, item.2)).
Proof.
  intros _ _. unfold resolve_item, set_insert. destruct (set_contains id _); cbn; [done|].
  unfold registered. destruct (bt_get id (rg_items registry)); cbn; [set_solver|done].
Qed.

Lemma mapS_adds {A B} (f : Composing -> A -> Outcome ProfileError (B * Composing)) l :
  (forall a s, a ∈ l -> only_adds [] s (f s a)) -> forall s, only_adds [] s (mapS f s l).
Proof.
  induction l as [|a l IH]; intros Hf s; [by apply only_adds_ret|].
  apply (only_adds_bind [] []); [apply Hf; set_solver|]. intros b s'.
  apply (only_adds_after [] s' _ (fun bs s'' => (b :: bs, s''))); [done|].
  apply IH. intros; apply Hf; set_solver.
Qed.

Lemma compose_slot_adds {A} (resolve : string -> Composing -> BarElement -> Outcome ProfileError (A * Composing)) slot s :
  (forall contribution id s, only_adds [] s (resolve contribution s (BarItem id))) ->
  only_adds [] s (compose_slot resolve self slot context s).
Proof.
  intros Hr. unfold compose_slot. apply (only_adds_after [] s _ (fun slots s' => (concat slots, s'))); [done|].
  apply mapS_adds. intros c s0 Hc. eapply only_adds_frame; [|apply mapS_adds]; [done|].
  intros e s1 He. apply select_bindings_elem in Hc as (binding & _ & Hg & _).
  by destruct (all_items _ _ Hg e He) as [item ->].
Qed.

Lemma group_adds element : forall path s,
  only_adds (composed_groups profile element) s (compose_profile_group self registry profile context path s element).
Proof.
  induction element as [slot|group IH] using profile_group_element_ind; intros path s.
  - cbn [composed_groups compose_profile_group].
    change [slot_group_id profile (sl_id slot)] with ([] ++ [slot_group_id profile (sl_id slot)]).
    apply only_adds_bind.
    { apply compose_slot_adds. intros. apply (resolve_item_adds GroupItem). }
    intros elements s'. cbn [fst snd]. apply only_adds_insert. intros s''. by apply only_adds_ret.
  - cbn [composed_groups compose_profile_group]. apply only_adds_insert. intros s'.
    apply (only_adds_after _ s' _ (fun elements s'' => (SubGroup (with_elements group elements), s''))); [done|].
    generalize 0 as index. revert s'. induction IH as [|e es He _ IHes]; intros s' index; [by apply only_adds_ret|].
    cbn [flat_map]. apply only_adds_bind; [apply He|]. intros e' s''.
    by apply (only_adds_after _ s'' _ (fun es s''' => (e' :: es, s'''))).
Qed.

Lemma elements_add elements : forall state,
  NoDup (flat_map (composed_element_groups profile) elements) ->
  (forall g, g ∈ flat_map (composed_element_groups profile) elements -> g ∉ cg_group_ids state.2) ->
  forall g, compose_profile_elements self registry profile context state elements
            <> Some (Err (DuplicateComposedGroup g)).
Proof.
  enough (H : forall state, only_adds (flat_map (composed_element_groups profile) elements) state.2
    (compose_profile_elements self registry profile context state elements)).
  { intros state Hd Hf g Hg. specialize (H state Hd Hf). by rewrite Hg in H. }
  induction elements as [|e es IH]; intros [shown s]; [by apply only_adds_ret|].
  cbn [flat_map compose_profile_elements]. apply only_adds_bind; [|intros a s'; apply (IH (a, s'))].
  destruct e as [slot|group|w|m w]; cbn [composed_element_groups compose_element snd].
  - apply (only_adds_after [] s _ (fun elements s' => (shown ++ elements,
      push_slot s' {| cp_id := sl_id slot; cp_path := []; cp_elements := (length shown, length (shown ++ elements)) |})));
      [done|].
    apply compose_slot_adds. intros. apply (resolve_item_adds Item).
  - rewrite <- (app_nil_r (composed_groups _ _)). apply only_adds_bind; [apply group_adds|].
    intros composed s'. destruct composed as [i|g]; cbn [as_group fst snd]; [by intros _ _|by apply only_adds_ret].
  - by apply only_adds_ret.
  - by apply only_adds_ret.
Qed.

End NoClash.

(** The groups the composition will add, given what the validation saw. *)
Definition taken (profile : string) (seen : list string * list string) (g : string) : Prop :=
  (exists slot, slot ∈ seen.1 /\ g = slot_group_id profile slot) \/ g ∈ seen.2.
Definition seen_ok (seen : list string * list string) : Prop :=
  forall g, g ∈ seen.2 -> starts_with g "@slot/" = false.
Record fresh (profile : string) (added : list string) (seen seen' : list string * list string) : Prop := {
  fr_ok : seen_ok seen';
  fr_distinct : NoDup added;
  fr_new : forall g, g ∈ added -> ~ taken profile seen g;
  fr_taken : forall g, g ∈ added -> taken profile seen' g;
  fr_grows : forall g, taken profile seen g -> taken profile seen' g;
}.

Lemma fresh_nil profile seen seen' : seen_ok seen' -> seen.1 ⊆ seen'.1 -> seen.2 ⊆ seen'.2 ->
  fresh profile [] seen seen'.
Proof.
  intros Hok H1 H2. split; [done|constructor|set_solver|set_solver|].
  intros g [(slot & Hs & ->)|Hg]; [left; exists slot; set_solver|right; set_solver].
Qed.

Lemma fresh_app profile a b s1 s2 s3 : fresh profile a s1 s2 -> fresh profile b s2 s3 -> fresh profile (a ++ b) s1 s3.
Proof.
  intros [? Hd1 Hn1 Ht1 Hg1] [? Hd2 Hn2 Ht2 Hg2]. split; [done| | | |].
  - apply NoDup_app. split; [done|]. split; [|done]. intros g Ha Hb. by apply (Hn2 g Hb), Ht1.
  - intros g [Ha|Hb]%elem_of_app; [by apply Hn1|]. intros Ht. by apply (Hn2 g Hb), Hg1.
  - intros g [Ha|Hb]%elem_of_app; [by apply Hg2, Ht1|by apply Ht2].
  - intros g Ht. by apply Hg2, Hg1.
Qed.

Lemma slot_group_id_inj profile a b : slot_group_id profile a = slot_group_id profile b -> a = b.
Proof. unfold slot_group_id. by intros H%string_app_inj_l%string_app_inj_l%string_app_inj_l. Qed.

Lemma slot_group_reserved profile slot : starts_with (slot_group_id profile slot) "@slot/" = true.
Proof. apply starts_with_spec. by eexists. Qed.

Lemma slot_fresh self profile slot nested seen slots' : seen_ok seen ->
  validate_slot self profile slot nested seen.1 = Ok slots' ->
  fresh profile [slot_group_id profile (sl_id slot)] seen (slots', seen.2) /\ seen.1 ⊆ slots'.
Proof.
  intros Hok. unfold validate_slot. intros H. insertions.
  match goal with H : sl_id slot ∉ _, H' : forall y, y ∈ _ <-> _ |- _ => rename H into Hn, H' into Ha end.
  split; [|set_solver]. split; [exact Hok|by apply NoDup_singleton| | |].
  - intros g ->%list_elem_of_singleton [(s & Hs & Heq%slot_group_id_inj)|Hg]; [congruence|].
    apply Hok in Hg. by rewrite slot_group_reserved in Hg.
  - intros g ->%list_elem_of_singleton. left. exists (sl_id slot). cbn. set_solver.
  - intros g [(s & Hs & ->)|Hg]; [left; exists s; cbn; set_solver|by right].
Qed.

Lemma group_fresh self profile element : forall depth seen seen', seen_ok seen ->
  validate_profile_group self profile element depth seen = Ok seen' ->
  fresh profile (composed_groups profile element) seen seen'.
Proof.
  induction element as [slot|group IH] using profile_group_element_ind; intros depth seen seen' Hok H.
  { cbn [validate_profile_group] in H. apply bind_Ok in H as (slots & H & Heq). injection Heq as <-.
    by apply slot_fresh in H as [? _]. }
  cbn [validate_profile_group composed_groups] in *. apply bind_Ok in H as (_ & Hs%reject_if_Ok & H).
  apply orb_false_iff in Hs as [_ Hs]. apply bind_Ok in H as (_ & _ & H). unfold set_insert in H.
  apply bind_Ok in H as (_ & Hn%reject_if_Ok & H). apply negb_false_iff, negb_true_iff, set_contains_false in Hn.
  apply (fresh_app profile [gr_id group] _ _ (seen.1, set_add (gr_id group) seen.2)).
  { split; [|by apply NoDup_singleton| | |].
    - intros g [->|Hg]%elem_of_set_add; [done|by apply Hok].
    - intros g ->%list_elem_of_singleton [(s & _ & Heq)|Hg]; [|done].
      by rewrite Heq, slot_group_reserved in Hs.
    - intros g ->%list_elem_of_singleton. right. apply elem_of_set_add. by left.
    - intros g [?|Hg]; [by left|]. right. apply elem_of_set_add. by right. }
  assert (Hok1 : seen_ok (seen.1, set_add (gr_id group) seen.2)).
  { intros g [->|Hg]%elem_of_set_add; [done|by apply Hok]. }
  revert Hok1 H. generalize (seen.1, set_add (gr_id group) seen.2).
  induction IH as [|e es He _ IHes]; intros s Hok1 H.
  { injection H as <-. by apply fresh_nil. }
  apply bind_Ok in H as (_ & _ & H). apply bind_Ok in H as (s1 & H1 & H2). apply He in H1; [|done].
  cbn [flat_map]. eapply fresh_app; [exact H1|]. eapply IHes; [by eapply fr_ok|exact H2].
Qed.

Lemma profile_fresh self profile elements : forall seen seen', seen_ok seen ->
  foldR (validate_profile_element self profile) seen elements = Ok seen' ->
  fresh profile (flat_map (composed_element_groups profile) elements) seen seen'.
Proof.
  induction elements as [|e es IH]; intros seen seen' Hok H; cbn in H.
  { injection H as <-. by apply fresh_nil. }
  apply bind_Ok in H as (s1 & H1 & H2). cbn [flat_map]. eapply fresh_app.
  - instantiate (1 := s1). destruct e as [slot|group|w|m w]; cbn [composed_element_groups validate_profile_element] in *.
    + apply bind_Ok in H1 as (slots & H1 & Heq). injection Heq as <-.
      apply slot_fresh in H1 as [? ?]; [|done]. by apply fresh_nil.
    + by eapply group_fresh.
    + injection H1 as <-. by apply fresh_nil.
    + inv_ok. by apply fresh_nil.
  - eapply IH; [|exact H2]. destruct e as [slot|group|w|m w]; cbn [validate_profile_element] in H1.
    + apply bind_Ok in H1 as (slots & _ & Heq). by injection Heq as <-.
    + by eapply fr_ok, group_fresh.
    + by injection H1 as <-.
    + by inv_ok.
Qed.


Lemma compose_no_group_clash self registry id context g :
  (forall id c, bt_get id (ca_contributions self) = Some c ->
    forall e, e ∈ ct_elements c -> exists item, e = BarItem item) ->
  validate_catalog self registry = Ok () ->
  compose self registry id context <> Some (Err (DuplicateComposedGroup g)).
Proof.
  intros Hi Hv H. unfold compose in H. rewrite Hv in H. cbn in H.
  destruct (bt_get id (ca_profiles self)) as [profile|] eqn:Hp; cbn in H; [|done].
  unfold validate_catalog in Hv. apply bind_Ok in Hv as (_ & _ & Hv). apply bind_Ok in Hv as (ps & Hps & _).
  destruct (mapR_value _ _ _ _ _ Hps Hp) as (u & Hu). unfold validate_profile in Hu.
  apply bind_Ok in Hu as (seen & Hf & _).
  apply profile_fresh in Hf as [_ Hd Hn _ _]; [|by intros ? ?%elem_of_nil].
  pose proof (elements_add self registry context (pf_id profile) Hi (pf_elements profile) ([], composing_start) Hd
    (fun g _ Hg => not_elem_of_nil g Hg) g) as Hno.
  apply Hno. destruct (compose_profile_elements _ _ _ _ _ _) as [[[es s]|e]|]; cbn in H; [done|by injection H as ->|done].
Qed.

(** ** Building *)

Lemma selector_known self connected catalog ids : document_ok self ids -> catalog_of self connected catalog ->
  validate_selector catalog (selector_model self) = Ok ().
Proof.
  intros Hd Hc. unfold validate_selector, selector_model. cbn [ps_fallback ps_rules].
  rewrite (proj2 (co_profiles _ _ _ Hc _) (dk_fallback _ _ Hd)). cbn.
  match goal with |- context [mapR ?f ?l] => destruct (mapR_all f l) as [us Hus] end.
  { intros rule (r & <- & Hr%list_elem_of_In)%list_elem_of_In%in_map_iff. cbn.
    rewrite (proj2 (co_profiles _ _ _ Hc _) (dk_rules _ _ Hd _ Hr)). by eexists. }
  by rewrite Hus.
Qed.

Lemma controller_builds self connected registry catalog ids context : document_ok self ids ->
  registry_of self connected registry -> catalog_of self connected catalog ->
  match controller_new catalog registry (selector_model self) context with
  | None => False
  | Some (Err error) => exists item, error = DuplicateComposedItem item
  | Some (Ok controller) => controller_inv controller /\ ctl_captured_contacts controller = [] /\
      ctl_catalog controller = catalog
  end.
Proof.
  intros Hd Hr Hc. destruct (controller_new _ _ _ _) as [[controller|error]|] eqn:Hnew.
  - destruct (controller_new_inv _ _ _ _ _ (ro_ok _ _ _ Hr) Hnew) as [? ?]. split; [done|]. split; [done|].
    unfold controller_new in Hnew. apply outcome_bind_Ok in Hnew as (? & _ & Hnew).
    apply outcome_bind_Ok in Hnew as (? & _ & Hnew). apply outcome_bind_Ok in Hnew as (? & _ & Hnew).
    by injection Hnew as <-.
  - unfold controller_new in Hnew. rewrite (catalog_validates _ _ _ _ _ Hd Hr Hc) in Hnew. cbn -[compose] in Hnew.
    rewrite (selector_known _ _ _ _ Hd Hc) in Hnew. cbn -[compose] in Hnew.
    set (id := select_profile (selector_model self) context) in *.
    pose proof (compose_outcome catalog registry id context (ro_ok _ _ _ Hr)) as Ht.
    destruct (compose catalog registry id context) as [[composition|e]|] eqn:He; cbn -[compose] in Hnew; [discriminate Hnew| |destruct Ht].
    injection Hnew as <-. destruct Ht as [Ht|(Hv & [[Hp ->]|Ht])].
    + by rewrite (catalog_validates _ _ _ _ _ Hd Hr Hc) in Ht.
    + exfalso. assert (Hknown : bt_contains id (ca_profiles catalog) = true).
      { apply (select_profile_known (fun id => bt_contains id (ca_profiles catalog) = true)).
        - apply (co_profiles _ _ _ Hc), (dk_fallback _ _ Hd).
        - apply Forall_forall. intros rule (r & <- & Hin%list_elem_of_In)%list_elem_of_In%in_map_iff.
          apply (co_profiles _ _ _ Hc), (dk_rules _ _ Hd _ Hin). }
      unfold bt_contains in Hknown. by rewrite Hp in Hknown.
    + destruct e; try done; [|by eexists]. exfalso. revert He. apply compose_no_group_clash; [|done].
      intros cid c Hg%bt_get_elem e He. destruct (co_contribution _ _ _ Hc _ _ Hg) as (config & _ & ->).
      apply list_elem_of_In in He. cbn in He. apply in_map_iff in He as (item & <- & _). eauto.
  - unfold controller_new in Hnew. rewrite (catalog_validates _ _ _ _ _ Hd Hr Hc) in Hnew. cbn -[compose] in Hnew.
    rewrite (selector_known _ _ _ _ Hd Hc) in Hnew. cbn -[compose] in Hnew.
    pose proof (compose_outcome catalog registry (select_profile (selector_model self) context) context (ro_ok _ _ _ Hr)).
    by destruct (compose _ _ _ _) as [[?|?]|].
Qed.

(** What building a document may result in. *)
Definition builds (self : ProfileDocument) (connected : Connected)
  (outcome : Outcome ConfigError BuiltProfile) : Prop :=
  let missing := missing_items self connected in
  match outcome with
  | None => False
  | Some (Err error) =>
      missing <> [] /\ error = RequiredItemsMissing missing \/
      missing = [] /\ exists item, error = InvalidProfile (DuplicateComposedItem item)
  | Some (Ok built) =>
      missing = [] /\
      bp_item_ids built = document_item_ids self /\ bp_profile_ids built = document_profile_ids self /\
      controller_inv (bp_controller built) /\ ctl_captured_contacts (bp_controller built) = [] /\
      forall id, known_profile (bp_controller built) id <-> id ∈ document_profile_ids self
  end.

Lemma build_outcome (self : ProfileDocument) (connected : Connected) (context : ContextSnapshot) :
  validate self = Ok () -> keys_match connected -> builds self connected (build self connected context).
Proof.
  intros Hv Hk. unfold builds. set (missing := missing_items self connected). unfold build. rewrite Hv. cbn [lift].
  destruct (validate_ok _ _ Hv) as [ids Hd].
  destruct (build_registry_ok _ _ connected Hd Hk) as (registry & Hreg & Hr).
  destruct (build_catalog_ok _ _ connected Hd) as (catalog & Hcat & Hc).
  fold missing. destruct missing as [|m ms] eqn:Hm; [|cbn; by left].
  cbn -[controller_new]. rewrite Hreg. cbn -[controller_new]. rewrite Hcat. cbn -[controller_new].
  pose proof (controller_builds _ _ _ _ _ context Hd Hr Hc) as Hb.
  destruct (controller_new _ _ _ _) as [[controller|error]|]; cbn; [|right|done].
  - destruct Hb as (Hi & Hcap & Hcc). repeat (split; [done|]). intros id. unfold known_profile. cbn.
    rewrite Hcc. apply (co_profiles _ _ _ Hc).
  - destruct Hb as [item ->]. split; [done|]. eauto.
Qed.

(** C19: A document that validates builds whenever its required items are
    connected: nothing panics, no check of the model fails, and only two
    active contributions claiming the same item stop it.  The controller that
    is built satisfies the invariant and offers the document's profiles. *)
Theorem validated_document_builds (self : ProfileDocument) (connected : Connected) (context : ContextSnapshot)
  (Hv : validate self = Ok ()) (Hk : keys_match connected) :
  let missing := missing_items self connected in
  match build self connected context with
  | None => False
  | Some (Err error) =>
      missing <> [] /\ error = RequiredItemsMissing missing \/
      missing = [] /\ exists item, error = InvalidProfile (DuplicateComposedItem item)
  | Some (Ok built) =>
      missing = [] /\
      bp_item_ids built = document_item_ids self /\ bp_profile_ids built = document_profile_ids self /\
      controller_inv (bp_controller built) /\ ctl_captured_contacts (bp_controller built) = [] /\
      forall id, known_profile (bp_controller built) id <-> id ∈ document_profile_ids self
  end.
Proof. by apply build_outcome. Qed.

(** ** A document *)

Definition desk_document : ProfileDocument :=
  {| doc_version := 1; doc_fallback := "desk";
     doc_contributions :=
       [{| cf_id := "sound";
           cf_items := [{| pic_plugin := "github:a/b"; pic_item := "volume"; pic_required := true |}];
           cf_scope := GlobalConfig; cf_priority := 0; cf_when := AlwaysConfig |};
        {| cf_id := "clock";
           cf_items := [{| pic_plugin := "github:a/b"; pic_item := "clock"; pic_required := false |}];
           cf_scope := ApplicationConfig; cf_priority := 5;
           cf_when := TextEquals "application.id" "firefox" |}];
     doc_profiles :=
       [{| pg_id := "desk";
           pg_elements :=
             [SlotConfig "left" FixedConfig ["sound"]; FlexibleSpaceConfig 8 1;
              GroupConfig "right" NaturalConfig 4 0 0 [GroupedSlotConfig "inner" CollectConfig ["clock"]]];
           pg_principal_item := Some {| pir_plugin := "github:a/b"; pir_item := "volume" |} |}];
     doc_rules := [{| rl_profile := "desk"; rl_priority := 1; rl_when := AlwaysConfig |}];
     doc_regions := [{| re_id := "over"; re_anchor := Trailing; re_x := 10; re_width := 300 |}] |}.
Definition desk_connected : Connected :=
  [("github:a/b#clock", ItemSpec_new "github:a/b#clock" 40 80 600);
   ("github:a/b#volume", ItemSpec_new "github:a/b#volume" 40 80 600)].

Lemma validated_document_builds_witness :
  validate desk_document = Ok () /\ keys_match desk_connected /\
  match build desk_document desk_connected {| cx_generation := 1; cx_facts := [("application.id", TextValue "firefox")] |} with
  | Some (Ok built) => missing_items desk_document desk_connected = [] /\ controller_inv (bp_controller built) /\
      item_ids (pc_bar (sn_composition (ctl_current (bp_controller built)))) = ["github:a/b#clock"; "github:a/b#volume"]
  | _ => False
  end.
Proof.
  assert (Hv : validate desk_document = Ok ()) by (by vm_compute).
  assert (Hk : keys_match desk_connected).
  { intros id spec H%bt_get_elem.
    repeat (apply elem_of_cons in H as [[= -> ->]|H]; [done|]). by apply elem_of_nil in H. }
  split; [exact Hv|]. split; [exact Hk|].
  pose proof (validated_document_builds desk_document desk_connected
    {| cx_generation := 1; cx_facts := [("application.id", TextValue "firefox")] |} Hv Hk) as H.
  destruct (build _ _ _) as [[built|]|] eqn:E; [|vm_compute in E; discriminate|done].
  destruct H as (? & _ & _ & ? & _). split; [done|]. split; [done|].
  vm_compute in E. injection E as <-. by vm_compute.
Defined.

Lemma region_inside_witness :
  region desk_document "over" 1000 = Some (690%N, 300%N) /\ (690 + 300 <= 1000)%N.
Proof.
  split; [by vm_compute|]. by destruct (region_inside desk_document "over" 1000 690 300 ltac:(by vm_compute)).
Defined.
