(* ===== verification/LiveProfiles.v ===== *)
(** * LiveProfiles: the profiles of the running session

    Models [crates/touchbar-sessiond/src/live_profiles.rs]: the adapter that
    keeps the controller of [Profiles] in step with the user's document and
    with the items that are connected, and that holds a reload back while a
    contact is captured.  A method that changes the state and can fail returns
    both; [None] is a panic.  Theorems: [LiveProfilesSpec]. *)

From S2P Require Import Prelude BTree Text Layout LayoutSpec Model Profiles Config.

#[local] Set Warnings "-register-all".

Record LiveProfiles := {
  lp_document : ProfileDocument;
  lp_context : ContextSnapshot;
  lp_controller : option CompositionController;
  lp_current : option ProfileCompositionSnapshot;
  lp_connected : Connected;
  lp_pending_connected : option Connected;
  lp_pending_document : option ProfileDocument;
  lp_captured_contacts : list N;
  lp_manual_profile : option string;
  lp_next_generation : N;
  lp_last_bar : option BarSpec;
}.

Inductive LiveError :=
| UnknownLiveProfile (profile : string)
| ConfigurationError (error : ConfigError)
| CompositionError (error : ProfileError).

Abbreviation Snapshot := ProfileCompositionSnapshot.
(** The state after a method and what it returned. *)
Definition Published : Type := option (LiveProfiles * result LiveError (option Snapshot)).

Definition live_new (document : ProfileDocument) (context : ContextSnapshot) : LiveProfiles :=
  {| lp_document := document; lp_context := context; lp_controller := None; lp_current := None;
     lp_connected := []; lp_pending_connected := None; lp_pending_document := None;
     lp_captured_contacts := []; lp_manual_profile := None; lp_next_generation := 1; lp_last_bar := None |}.
Definition configured (document : ProfileDocument) : LiveProfiles :=
  live_new document {| cx_generation := 1; cx_facts := [] |}.

Definition ready (self : LiveProfiles) : bool := bool_decide (is_Some (lp_controller self)).
Definition active_profile (self : LiveProfiles) : option string :=
  (fun snapshot => pc_profile (sn_composition snapshot)) <$> lp_current self.
Definition missing_required_items (self : LiveProfiles) : list string :=
  List.filter (fun item => negb (set_contains item (bt_keys (lp_connected self))))
    (required_item_ids (lp_document self)).

(** ** Changes of one part of the state *)

Definition with_controller (self : LiveProfiles) (controller : option CompositionController) : LiveProfiles :=
  {| lp_document := lp_document self; lp_context := lp_context self; lp_controller := controller;
     lp_current := lp_current self; lp_connected := lp_connected self;
     lp_pending_connected := lp_pending_connected self; lp_pending_document := lp_pending_document self;
     lp_captured_contacts := lp_captured_contacts self; lp_manual_profile := lp_manual_profile self;
     lp_next_generation := lp_next_generation self; lp_last_bar := lp_last_bar self |}.
Definition with_document (self : LiveProfiles) (document : ProfileDocument) (manual : option string) : LiveProfiles :=
  {| lp_document := document; lp_context := lp_context self; lp_controller := lp_controller self;
     lp_current := lp_current self; lp_connected := lp_connected self;
     lp_pending_connected := lp_pending_connected self; lp_pending_document := lp_pending_document self;
     lp_captured_contacts := lp_captured_contacts self; lp_manual_profile := manual;
     lp_next_generation := lp_next_generation self; lp_last_bar := lp_last_bar self |}.
Definition with_connected (self : LiveProfiles) (connected : Connected) : LiveProfiles :=
  {| lp_document := lp_document self; lp_context := lp_context self; lp_controller := lp_controller self;
     lp_current := lp_current self; lp_connected := connected;
     lp_pending_connected := None; lp_pending_document := lp_pending_document self;
     lp_captured_contacts := lp_captured_contacts self; lp_manual_profile := lp_manual_profile self;
     lp_next_generation := lp_next_generation self; lp_last_bar := lp_last_bar self |}.
Definition with_pending (self : LiveProfiles) (document : option ProfileDocument) (connected : option Connected)
  : LiveProfiles :=
  {| lp_document := lp_document self; lp_context := lp_context self; lp_controller := lp_controller self;
     lp_current := lp_current self; lp_connected := lp_connected self;
     lp_pending_connected := connected; lp_pending_document := document;
     lp_captured_contacts := lp_captured_contacts self; lp_manual_profile := lp_manual_profile self;
     lp_next_generation := lp_next_generation self; lp_last_bar := lp_last_bar self |}.
Definition with_contacts (self : LiveProfiles) (contacts : list N) (controller : option CompositionController)
  : LiveProfiles :=
  {| lp_document := lp_document self; lp_context := lp_context self; lp_controller := controller;
     lp_current := lp_current self; lp_connected := lp_connected self;
     lp_pending_connected := lp_pending_connected self; lp_pending_document := lp_pending_document self;
     lp_captured_contacts := contacts; lp_manual_profile := lp_manual_profile self;
     lp_next_generation := lp_next_generation self; lp_last_bar := lp_last_bar self |}.
Definition with_manual (self : LiveProfiles) (manual : option string) : LiveProfiles :=
  with_document self (lp_document self) manual.
Definition with_live_context (self : LiveProfiles) (context : ContextSnapshot) : LiveProfiles :=
  {| lp_document := lp_document self; lp_context := context; lp_controller := lp_controller self;
     lp_current := lp_current self; lp_connected := lp_connected self;
     lp_pending_connected := lp_pending_connected self; lp_pending_document := lp_pending_document self;
     lp_captured_contacts := lp_captured_contacts self; lp_manual_profile := lp_manual_profile self;
     lp_next_generation := lp_next_generation self; lp_last_bar := lp_last_bar self |}.
(** No bar: the profile waits for its required items. *)
Definition with_blank (self : LiveProfiles) : LiveProfiles :=
  {| lp_document := lp_document self; lp_context := lp_context self; lp_controller := None;
     lp_current := None; lp_connected := lp_connected self;
     lp_pending_connected := lp_pending_connected self; lp_pending_document := lp_pending_document self;
     lp_captured_contacts := lp_captured_contacts self; lp_manual_profile := lp_manual_profile self;
     lp_next_generation := lp_next_generation self;
     lp_last_bar := Some {| bar_elements := []; bar_principal_item := None |} |}.

(** ** Publishing *)

Definition normalize (self : LiveProfiles) (snapshot : Snapshot) : LiveProfiles * Snapshot :=
  let bar := pc_bar (sn_composition snapshot) in
  let snapshot :=
    {| sn_generation := lp_next_generation self; sn_context_generation := cx_generation (lp_context self);
       sn_composition := sn_composition snapshot;
       sn_delta := delta_between (lp_last_bar self) bar |} in
  ({| lp_document := lp_document self; lp_context := lp_context self; lp_controller := lp_controller self;
      lp_current := Some snapshot; lp_connected := lp_connected self;
      lp_pending_connected := lp_pending_connected self; lp_pending_document := lp_pending_document self;
      lp_captured_contacts := lp_captured_contacts self; lp_manual_profile := lp_manual_profile self;
      lp_next_generation := next_generation (lp_next_generation self); lp_last_bar := Some bar |},
   snapshot).

(** [Ok(raw.map(|snapshot| self.normalize(snapshot)))] *)
Definition publish (self : LiveProfiles) (raw : option Snapshot) : Published :=
  match raw with
  | None => Some (self, Ok None)
  | Some raw => let '(self, snapshot) := normalize self raw in Some (self, Ok (Some snapshot))
  end.

Definition relevant_items (document : ProfileDocument) (connected : Connected) : Connected :=
  List.filter (fun e : string * ItemSpec => set_contains e.1 (document_item_ids document)) connected.
Definition all_connected (required : list string) (connected : Connected) : bool :=
  forallb (fun id => bt_contains id connected) required.

Definition rebuild (self : LiveProfiles) (connected : Connected) : Published :=
  let self := with_connected self connected in
  if negb (all_connected (required_item_ids (lp_document self)) (lp_connected self))
  then Some (with_blank self, Ok None)
  else
    built ← build (lp_document self) (lp_connected self) (lp_context self);
    match built with
    | Err error => Some (self, Err (ConfigurationError error))
    | Ok built =>
        let controller := bp_controller built in
        selected ← match lp_manual_profile self with
                   | None => Some (controller, Ok None)
                   | Some profile => apply controller (SelectProfile profile)
                   end;
        match selected with
        | (_, Err error) => Some (self, Err (CompositionError error))
        | (controller, Ok _) => publish (with_controller self (Some controller)) (Some (ctl_current controller))
        end
    end.

#[export] Instance ItemSpec_eq_dec : EqDecision ItemSpec.
Proof. solve_decision. Defined.

Definition try_initialize (self : LiveProfiles) (connected : Connected) : Published :=
  let relevant := relevant_items (lp_document self) connected in
  if bool_decide (relevant = lp_connected self) && bool_decide (lp_pending_connected self = None)
  then Some (self, Ok None)
  else if negb (bool_decide (lp_captured_contacts self = []))
  then Some (with_pending self (lp_pending_document self) (Some relevant), Ok None)
  else rebuild self relevant.

(** The manual profile if the document has it. *)
Definition keep_manual (document : ProfileDocument) (manual : option string) : option string :=
  profile ← manual;
  if existsb (fun id => String.eqb id profile) (document_profile_ids document) then Some profile else None.

Definition replace_document (self : LiveProfiles) (document : ProfileDocument) (connected : Connected) : Published :=
  match validate document with
  | Err error => Some (self, Err (ConfigurationError error))
  | Ok _ =>
      let relevant := relevant_items document connected in
      trial ← (if all_connected (required_item_ids document) relevant
               then option_map (fun built : result ConfigError BuiltProfile => _ ← built; Ok ())
                      (build document relevant (lp_context self))
               else Some (Ok ()));
      match trial with
      | Err error => Some (self, Err (ConfigurationError error))
      | Ok _ =>
          if negb (bool_decide (lp_captured_contacts self = []))
          then Some (with_pending self (Some document) (Some relevant), Ok None)
          else rebuild (with_document self document (keep_manual document (lp_manual_profile self))) relevant
      end
  end.

(** ** Commands for the controller *)

Definition command (self : LiveProfiles) (command : ControllerCommand) : Published :=
  match lp_controller self with
  | None => Some (self, Ok None)
  | Some controller =>
      answer ← apply controller command;
      let '(controller, raw) := answer in
      let self := with_controller self (Some controller) in
      match raw with
      | Err error => Some (self, Err (CompositionError error))
      | Ok raw => publish self raw
      end
  end.

Definition select_live_profile (self : LiveProfiles) (profile : string) : Published :=
  if negb (existsb (fun id => String.eqb id profile) (document_profile_ids (lp_document self)))
  then Some (self, Err (UnknownLiveProfile profile))
  else command (with_manual self (Some profile)) (SelectProfile profile).

Definition use_automatic_profile (self : LiveProfiles) : Published :=
  command (with_manual self None) UseAutomaticProfile.

Definition set_fact (self : LiveProfiles) (key : string) (value : ContextValue) : Published :=
  let context := {| cx_generation := next_generation (cx_generation (lp_context self));
                    cx_facts := bt_insert key value (cx_facts (lp_context self)) |} in
  command (with_live_context self context) (SetContext context).

(** ** Contacts *)

Definition live_capture_started (self : LiveProfiles) (contact_id : N) : LiveProfiles :=
  with_contacts self (set_add contact_id (lp_captured_contacts self))
    ((fun controller => controller_capture_started controller contact_id) <$> lp_controller self).

Definition live_capture_ended (self : LiveProfiles) (contact_id : N) : Published :=
  let '(controller, context_snapshot) :=
    match lp_controller self with
    | None => (None, None)
    | Some controller =>
        let '(controller, snapshot) := controller_capture_ended controller contact_id in
        (Some controller, snapshot)
    end in
  let self := with_contacts self (set_remove contact_id (lp_captured_contacts self)) controller in
  if bool_decide (lp_captured_contacts self = []) then
    let self :=
      match lp_pending_document self with
      | None => self
      | Some document =>
          with_pending (with_document self document (keep_manual document (lp_manual_profile self)))
            None (lp_pending_connected self)
      end in
    match lp_pending_connected self with
    | Some connected => rebuild (with_pending self (lp_pending_document self) None) connected
    | None => publish self context_snapshot
    end
  else publish self context_snapshot.
