(* ===== verification/LiveProfilesSpec.v ===== *)
(** * LiveProfilesSpec: what the session shows, and when it changes

    About [LiveProfiles]: an invariant of every call, the exact relation
    between what a call publishes and what was published before, and two
    behaviours that the code does not mean to have: a reload that is held
    back during a gesture can lose its items, and a selection that is refused
    stays in force. *)

From S2P Require Import Prelude BTree Text Layout LayoutSpec Model Profiles ProfilesSpec Config ConfigSpec LiveProfiles.

#[local] Set Warnings "-register-all".

(** The caller keys an item by its layout identity. *)
Definition connected_ok (connected : Connected) : Prop :=
  Forall (fun e : string * ItemSpec => it_id e.2 = e.1) connected.

Lemma connected_ok_keys connected : connected_ok connected -> keys_match connected.
Proof. intros H id spec Hg%bt_get_elem. by eapply Forall_forall in H as H'; [|exact Hg]. Qed.

Lemma relevant_items_ok document connected : connected_ok connected -> connected_ok (relevant_items document connected).
Proof.
  unfold connected_ok, relevant_items. rewrite !Forall_forall. intros H e [Hin _]%elem_of_filter_b. by apply H.
Qed.

Record live_inv (self : LiveProfiles) : Prop := {
  li_document : validate (lp_document self) = Ok ();
  li_pending_document : forall document, lp_pending_document self = Some document -> validate document = Ok ();
  li_connected : connected_ok (lp_connected self);
  li_pending_connected : forall connected, lp_pending_connected self = Some connected -> connected_ok connected;
  li_controller : forall controller, lp_controller self = Some controller ->
    controller_inv controller /\ ctl_captured_contacts controller = lp_captured_contacts self;
  li_shown : is_Some (lp_current self) <-> is_Some (lp_controller self);
  li_bar : forall snapshot, lp_current self = Some snapshot -> lp_last_bar self = Some (pc_bar (sn_composition snapshot));
  li_pending : lp_captured_contacts self = [] -> lp_pending_document self = None /\ lp_pending_connected self = None;
  li_together : is_Some (lp_pending_document self) -> is_Some (lp_pending_connected self);
}.

(** What a call published, against the state before it. *)
Definition published (self self' : LiveProfiles) (r : result LiveError (option Snapshot)) : Prop :=
  match r with
  | Ok (Some snapshot) =>
      lp_captured_contacts self' = [] /\ lp_current self' = Some snapshot /\
      sn_generation snapshot = lp_next_generation self /\
      lp_next_generation self' = next_generation (lp_next_generation self) /\
      sn_context_generation snapshot = cx_generation (lp_context self') /\
      sn_delta snapshot = delta_between (lp_last_bar self) (pc_bar (sn_composition snapshot)) /\
      exists controller, lp_controller self' = Some controller /\
        sn_composition snapshot = sn_composition (ctl_current controller)
  | _ =>
      lp_next_generation self' = lp_next_generation self /\
      (lp_current self' = lp_current self /\ lp_last_bar self' = lp_last_bar self \/
       lp_captured_contacts self' = [] /\ lp_current self' = None /\ missing_required_items self' <> [])
  end.

Definition outcome_ok (self : LiveProfiles) (o : Published) : Prop :=
  match o with
  | None => False
  | Some (self', r) => live_inv self' /\ published self self' r
  end.

(** ** Publishing *)

Lemma apply_captured self command self' r : apply self command = Some (self', r) -> controller_inv self ->
  ctl_captured_contacts self' = ctl_captured_contacts self.
Proof.
  intros H Hinv. unfold apply in H. destruct (change self command) as [[changed|]|error] eqn:Hch; [|by injection H as <- _..].
  pose proof (cc_captured _ _ (change_choice _ _ _ Hinv Hch)) as Hc.
  destruct (build_snapshot changed) as [[candidate|error]|]; cbn in H; [|by injection H as <- _|done].
  case_bool_decide; injection H as <- _; done.
Qed.

Lemma keys_contain (id : string) (connected : Connected) :
  set_contains id (bt_keys connected) = bt_contains id connected.
Proof. apply eq_true_iff_eq. by rewrite set_contains_spec, bt_contains_spec. Qed.

(** Publishing the controller's bar when no contact is captured. *)
Lemma publish_ok self controller raw : live_inv self -> lp_controller self = Some controller ->
  lp_captured_contacts self = [] -> raw = ctl_current controller ->
  outcome_ok self (publish self (Some raw)).
Proof.
  intros [] Hc Hcap ->. unfold publish. cbn. split.
  - split; cbn; try done. by intros ? [= <-].
  - repeat (split; [done|]). eauto.
Qed.

(** [published] only reads these parts of the state before the call. *)
Lemma published_frame self self1 self' r :
  lp_next_generation self1 = lp_next_generation self -> lp_last_bar self1 = lp_last_bar self ->
  lp_current self1 = lp_current self -> published self1 self' r -> published self self' r.
Proof. unfold published. by intros -> -> ->. Qed.

Lemma outcome_frame self self1 o :
  lp_next_generation self1 = lp_next_generation self -> lp_last_bar self1 = lp_last_bar self ->
  lp_current self1 = lp_current self -> outcome_ok self1 o -> outcome_ok self o.
Proof.
  intros H1 H2 H3. destruct o as [[self' r]|]; [|done]. intros [? ?]. split; [done|]. by eapply published_frame.
Qed.

Lemma unchanged_ok self r : live_inv self -> match r with Ok (Some _) => False | _ => True end ->
  outcome_ok self (Some (self, r)).
Proof. intros Hi Hr. split; [done|]. destruct r as [[s|]|e]; [done|..]; (split; [done|by left]). Qed.

Lemma all_connected_missing document connected :
  all_connected (required_item_ids document) connected = true <-> missing_items document connected = [].
Proof.
  unfold all_connected, missing_items. induction (required_item_ids document) as [|id ids IH]; cbn; [done|].
  destruct (bt_contains id connected); cbn; [exact IH|done].
Qed.

(** ** Rebuilding *)

(** The state of [rebuild] before anything can fail. *)
Lemma with_connected_inv self connected : live_inv self -> connected_ok connected ->
  lp_captured_contacts self = [] -> live_inv (with_connected self connected).
Proof.
  intros [] Hc Hcap. split; try done; cbn; intros H; [split; [by apply li_pending0|done]|].
  destruct (li_pending0 Hcap) as [Hd _]. by rewrite Hd in H; destruct H.
Qed.

Lemma rebuild_ok self connected : live_inv self -> connected_ok connected -> lp_captured_contacts self = [] ->
  outcome_ok self (rebuild self connected).
Proof.
  intros Hi Hc Hcap. pose proof (with_connected_inv self connected Hi Hc Hcap) as Hi1. unfold rebuild.
  set (self1 := with_connected self connected) in *.
  destruct (all_connected _ _) eqn:Hall; cbn [negb].
  2:{ split.
    - destruct Hi1. split; try done; cbn. by split; intros [? ?].
    - split; [done|]. right. split; [done|]. split; [done|]. unfold missing_required_items. cbn. intros Hm.
      enough (Ht : all_connected (required_item_ids (lp_document self1)) (lp_connected self1) = true) by congruence.
      apply all_connected_missing. unfold missing_items. rewrite <- Hm. apply List.filter_ext.
      intros id. by rewrite <- keys_contain. }
  pose proof (build_outcome (lp_document self1) (lp_connected self1) (lp_context self1)
    (li_document _ Hi1) (connected_ok_keys _ (li_connected _ Hi1))) as Hb.
  destruct (build _ _ _) as [[built|error]|] eqn:Hbuild; [| |done].
  2:{ cbn. split; [done|]. split; [done|by left]. }
  destruct Hb as (_ & _ & _ & Hinv & Hcc & _). cbn -[publish outcome_ok with_controller].
  assert (Hset : forall controller, controller_inv controller -> ctl_captured_contacts controller = [] ->
    outcome_ok self (publish (with_controller self1 (Some controller)) (Some (ctl_current controller)))).
  { intros controller Hci Hcz. unfold publish, normalize. cbn. split.
    - destruct Hi1. split; cbn in *; try done; [|by intros ? [= <-]]. intros ? [= <-]. by rewrite Hcap.
    - repeat (split; [done|]). eauto. }
  destruct (lp_manual_profile self) as [profile|]; cbn -[publish outcome_ok with_controller apply]; [|by apply Hset].
  pose proof (apply_spec (bp_controller built) (SelectProfile profile) Hinv) as Ha.
  destruct (apply _ _) as [[controller r]|] eqn:Happly; [|done]. cbn -[publish outcome_ok with_controller].
  destruct Ha as [Hci Hr]. destruct r as [r|error]; [apply Hset; [done|]|].
  - by rewrite (apply_captured _ _ _ _ Happly Hinv).
  - split; [done|]. split; [done|by left].
Qed.

(** ** The calls *)

Lemma try_initialize_ok self connected : live_inv self -> connected_ok connected ->
  outcome_ok self (try_initialize self connected).
Proof.
  intros Hi Hc. unfold try_initialize. destruct (bool_decide _ && _); [by apply unchanged_ok|].
  pose proof (relevant_items_ok (lp_document self) connected Hc) as Hr.
  case_bool_decide as Hcap; cbn -[rebuild]; [by apply rebuild_ok|]. split; [|by split; [|left]].
  destruct Hi. split; try done; cbn. by intros ? [= <-].
Qed.

Lemma with_document_inv self document manual : live_inv self -> validate document = Ok () ->
  live_inv (with_document self document manual).
Proof. intros [] Hv. by split. Qed.

Lemma replace_document_ok self document connected : live_inv self -> connected_ok connected ->
  outcome_ok self (replace_document self document connected).
Proof.
  intros Hi Hc. unfold replace_document. destruct (validate document) as [[]|error] eqn:Hv; [|by apply unchanged_ok].
  set (relevant := relevant_items document connected).
  pose proof (relevant_items_ok document connected Hc : connected_ok relevant) as Hr.
  assert (Htrial : forall trial, (if all_connected (required_item_ids document) relevant
    then option_map (fun built : result ConfigError BuiltProfile => _ ← built; Ok ())
           (build document relevant (lp_context self)) else Some (Ok ())) = trial -> trial <> None).
  { intros trial <-. destruct (all_connected _ _); [|done].
    pose proof (build_outcome document relevant (lp_context self) Hv (connected_ok_keys _ Hr)).
    by destruct (build _ _ _). }
  destruct (if all_connected _ _ then _ else _) as [[[]|error]|]; [| |by eapply Htrial];
    cbn -[rebuild outcome_ok]; [|by apply unchanged_ok].
  case_bool_decide as Hcap; cbn -[rebuild outcome_ok].
  - eapply outcome_frame; [..|apply rebuild_ok]; try done. by apply with_document_inv.
  - split; [|by split; [|left]]. destruct Hi. split; try done; cbn; by intros ? [= <-].
Qed.

Lemma command_ok self c : live_inv self -> outcome_ok self (command self c).
Proof.
  intros Hi. unfold command. destruct (lp_controller self) as [controller|] eqn:Hc; [|by apply unchanged_ok].
  destruct (li_controller _ Hi _ Hc) as [Hci Hcap]. pose proof (apply_spec controller c Hci) as Ha.
  destruct (apply controller c) as [[controller' r]|] eqn:Happly; [|done].
  destruct Ha as [Hci' Hr]. pose proof (apply_captured _ _ _ _ Happly Hci) as Hcap'.
  assert (Hi' : live_inv (with_controller self (Some controller'))).
  { pose proof (li_shown _ Hi) as Hs. rewrite Hc in Hs. destruct Hi. split; try done; cbn in *.
    - intros ? [= <-]. by rewrite Hcap'.
    - rewrite Hs. by split. }
  cbn -[publish outcome_ok]. destruct r as [[shown|]|error].
  - destruct Hr as [Hz <-]. eapply outcome_frame; [..|eapply publish_ok]; try done. cbn. by rewrite <- Hcap.
  - split; [done|]. by split; [|left].
  - split; [done|]. by split; [|left].
Qed.

Lemma with_manual_inv self manual : live_inv self -> live_inv (with_manual self manual).
Proof. intros [] . by split. Qed.

Lemma set_fact_ok self key value : live_inv self -> outcome_ok self (set_fact self key value).
Proof. intros Hi. eapply outcome_frame; [..|apply command_ok]; try done. by destruct Hi. Qed.

Lemma select_live_profile_ok self profile : live_inv self -> outcome_ok self (select_live_profile self profile).
Proof.
  intros Hi. unfold select_live_profile. destruct (negb _); [by apply unchanged_ok|].
  eapply outcome_frame; [..|apply command_ok]; try done. by apply with_manual_inv.
Qed.

Lemma use_automatic_profile_ok self : live_inv self -> outcome_ok self (use_automatic_profile self).
Proof. intros Hi. eapply outcome_frame; [..|apply command_ok]; try done. by apply with_manual_inv. Qed.

Lemma capture_started_inv self id : live_inv self -> live_inv (live_capture_started self id).
Proof.
  intros []. split; try done; cbn.
  - intros controller Hc. destruct (lp_controller self) as [c|] eqn:E; [|done]. cbn in Hc. injection Hc as <-.
    destruct (li_controller0 _ eq_refl) as [Hci Hcc]. split; [|cbn; by rewrite Hcc].
    by destruct (controller_step_inv c (StepCapture id) Hci) as (c' & [= <-] & ? & _).
  - rewrite li_shown0. by rewrite fmap_is_Some.
  - intros H. by apply set_add_not_nil in H.
Qed.

Lemma controller_ended c id : controller_inv c ->
  controller_inv (controller_capture_ended c id).1 /\
  ctl_captured_contacts (controller_capture_ended c id).1 = set_remove id (ctl_captured_contacts c) /\
  forall shown, (controller_capture_ended c id).2 = Some shown ->
    ctl_current (controller_capture_ended c id).1 = shown /\ set_remove id (ctl_captured_contacts c) = [].
Proof.
  intros Hci. destruct (controller_step_inv c (StepRelease id) Hci) as (c' & [= <-] & ? & _).
  split; [done|]. unfold controller_capture_ended. destruct (set_remove id _); [destruct (ctl_pending c)|]; cbn;
    (split; [done|]); by intros ? [= <-].
Qed.

Lemma live_capture_ended_ok self id : live_inv self -> outcome_ok self (live_capture_ended self id).
Proof.
  intros Hi. unfold live_capture_ended.
  set (ended := match lp_controller self with None => _ | Some _ => _ end).
  assert (He : live_inv (with_contacts (with_pending self None None) (set_remove id (lp_captured_contacts self)) ended.1) /\
    forall shown, ended.2 = Some shown -> exists c, ended.1 = Some c /\ ctl_current c = shown /\
      set_remove id (lp_captured_contacts self) = []).
  { unfold ended. pose proof (li_shown _ Hi) as Hs. destruct (lp_controller self) as [c|] eqn:Hc.
    - destruct (li_controller _ Hi _ Hc) as [Hci Hcap]. destruct (controller_ended c id Hci) as (Hci' & Hcap' & Hsh).
      destruct (controller_capture_ended c id) as [c' shown]. cbn in *. rewrite Hcap in *. split.
      + destruct Hi. split; try done; cbn; [by intros ? [= <-]|rewrite Hs; by split|by intros [? ?]].
      + intros s Hshown. destruct (Hsh s Hshown) as [? ?]. by exists c'.
    - split; [|done]. destruct Hi. split; try done; cbn; by intros [? ?]. }
  destruct ended as [controller shown]. cbn [fst snd] in He. destruct He as [Hi1 Hshown].
  set (self1 := with_contacts self _ controller).
  assert (Hpub : set_remove id (lp_captured_contacts self) <> [] \/
      lp_pending_document self = None /\ lp_pending_connected self = None ->
    live_inv self1 /\ outcome_ok self (publish self1 shown)).
  { intros Hp. assert (Hi2 : live_inv self1).
    { destruct Hi1, Hi. split; try done; cbn. intros H. by destruct Hp as [Hp|Hp]. }
    split; [done|]. destruct shown as [s|]; [|by split; [|split; [|left]]].
    destruct (Hshown s eq_refl) as (c & Hc & <- & Hz).
    eapply outcome_frame; [..|eapply publish_ok]; try done. }
  case_bool_decide as Hz; cbn in Hz; [|apply Hpub; by left].
  assert (Hdoc : forall document, lp_pending_document self = Some document -> validate document = Ok ()) by apply Hi.
  assert (Hconn : forall connected, lp_pending_connected self = Some connected -> connected_ok connected) by apply Hi.
  destruct (lp_pending_connected self) as [connected|] eqn:Hpc.
  - change (lp_pending_document self1) with (lp_pending_document self).
    destruct (lp_pending_document self) as [document|] eqn:Hpd; cbn -[rebuild self1 outcome_ok];
      change (lp_pending_connected self1) with (lp_pending_connected self); rewrite Hpc;
      (eapply outcome_frame; [| | |apply rebuild_ok]); try done; try (by apply Hconn).
    all: destruct Hi1; split; try done; cbn; rewrite ?Hpd; (by apply Hdoc) || (by intros [? ?]) || done.
  - assert (Hpd : lp_pending_document self = None).
    { pose proof (li_together _ Hi) as Ht. rewrite Hpc in Ht. destruct (lp_pending_document self); [|done].
      by destruct (Ht ltac:(by eexists)). }
    cbn -[publish outcome_ok]. rewrite Hpd. cbn -[publish outcome_ok]. rewrite Hpc. apply Hpub. by right.
Qed.

(** ** Sequences of calls *)

Inductive LiveStep :=
| TryInitialize (connected : Connected)
| ReplaceDocument (document : ProfileDocument) (connected : Connected)
| SelectLiveProfile (profile : string)
| UseAutomaticLiveProfile
| SetFact (key : string) (value : ContextValue)
| LiveCaptureStarted (contact_id : N)
| LiveCaptureEnded (contact_id : N).

Definition step_ok (step : LiveStep) : Prop :=
  match step with
  | TryInitialize connected | ReplaceDocument _ connected => connected_ok connected
  | _ => True
  end.

Definition live_step (self : LiveProfiles) (step : LiveStep) : Published :=
  match step with
  | TryInitialize connected => try_initialize self connected
  | ReplaceDocument document connected => replace_document self document connected
  | SelectLiveProfile profile => select_live_profile self profile
  | UseAutomaticLiveProfile => use_automatic_profile self
  | SetFact key value => set_fact self key value
  | LiveCaptureStarted contact_id => Some (live_capture_started self contact_id, Ok None)
  | LiveCaptureEnded contact_id => live_capture_ended self contact_id
  end.

Fixpoint live_run (self : LiveProfiles) (steps : list LiveStep) : option LiveProfiles :=
  match steps with
  | [] => Some self
  | step :: steps' => answer ← live_step self step; live_run answer.1 steps'
  end.

Lemma live_step_ok self step : live_inv self -> step_ok step -> outcome_ok self (live_step self step).
Proof.
  intros Hi Hs. destruct step; cbn [live_step step_ok] in *.
  - by apply try_initialize_ok.
  - by apply replace_document_ok.
  - by apply select_live_profile_ok.
  - by apply use_automatic_profile_ok.
  - by apply set_fact_ok.
  - split; [by apply capture_started_inv|]. by split; [|left].
  - by apply live_capture_ended_ok.
Qed.

Lemma configured_inv document : validate document = Ok () -> live_inv (configured document).
Proof.
  intros Hv. split; try done; cbn; try (by intros [? ?]); [constructor|].
  split; by intros [? ?].
Qed.

Lemma live_run_inv steps : forall self, live_inv self -> Forall step_ok steps ->
  exists self', live_run self steps = Some self' /\ live_inv self'.
Proof.
  induction steps as [|step steps IH]; intros self Hi Hs; [by exists self|]. inversion Hs; subst.
  pose proof (live_step_ok self step Hi ltac:(done)) as Hstep. cbn [live_run].
  destruct (live_step self step) as [[self1 r]|]; [|done]. destruct Hstep as [Hi1 _]. by apply IH.
Qed.

(** C23: Whatever the user, the plugins and the contacts do, the session never
    panics.  A call that publishes a bar publishes the controller's, with the
    exact difference to the bar before it, and never during a gesture: while
    a contact stays captured the bar and what it was compared with do not
    change.  Otherwise the bar stays, or is blank because a required item is
    missing. *)
Theorem live_profiles_correct (document : ProfileDocument) (steps : list LiveStep)
  (Hv : validate document = Ok ()) (Hsteps : Forall step_ok steps) :
  exists self, live_run (configured document) steps = Some self /\ live_inv self /\
    forall step, step_ok step ->
    match live_step self step with
    | None => False
    | Some (self', r) => published self self' r /\
        (lp_captured_contacts self' <> [] ->
         lp_current self' = lp_current self /\ lp_last_bar self' = lp_last_bar self)
    end.
Proof.
  destruct (live_run_inv steps (configured document) (configured_inv _ Hv) Hsteps) as (self & Hrun & Hi).
  exists self. split; [done|]. split; [done|]. intros step Hs. pose proof (live_step_ok self step Hi Hs) as H.
  destruct (live_step self step) as [[self' r]|]; [|done]. destruct H as [_ Hp]. split; [done|]. intros Hc.
  destruct r as [[s|]|e]; cbn in Hp; [by destruct Hp|..]; destruct Hp as [_ [?|[? _]]]; done.
Qed.

(** ** A session *)

Definition lone_document (item : string) : ProfileDocument :=
  {| doc_version := 1; doc_fallback := "desk";
     doc_contributions :=
       [{| cf_id := "only";
           cf_items := [{| pic_plugin := "p"; pic_item := item; pic_required := true |}];
           cf_scope := GlobalConfig; cf_priority := 0; cf_when := AlwaysConfig |}];
     doc_profiles :=
       [{| pg_id := "desk"; pg_elements := [SlotConfig "slot" FixedConfig ["only"]]; pg_principal_item := None |}];
     doc_rules := []; doc_regions := [] |}.
Definition clock_and_volume : Connected :=
  [("p#clock", ItemSpec_new "p#clock" 40 80 600); ("p#volume", ItemSpec_new "p#volume" 40 80 600)].

Lemma clock_and_volume_ok : connected_ok clock_and_volume.
Proof. by repeat constructor. Qed.

Definition shown_ids (self : LiveProfiles) : option (list string) :=
  (fun snapshot => item_ids (pc_bar (sn_composition snapshot))) <$> lp_current self.

Lemma live_profiles_correct_witness :
  Forall step_ok [TryInitialize clock_and_volume; LiveCaptureStarted 7;
                  ReplaceDocument (lone_document "clock") clock_and_volume] /\
  exists self, live_run (configured (lone_document "volume"))
      [TryInitialize clock_and_volume; LiveCaptureStarted 7;
       ReplaceDocument (lone_document "clock") clock_and_volume] = Some self /\
    shown_ids self = Some ["p#volume"] /\
    match live_step self (LiveCaptureEnded 7) with
    | Some (self', Ok (Some snapshot)) => shown_ids self' = Some ["p#clock"] /\
        sn_delta snapshot = delta_between (lp_last_bar self) (pc_bar (sn_composition snapshot))
    | _ => False
    end.
Proof.
  assert (Hs : Forall step_ok [TryInitialize clock_and_volume; LiveCaptureStarted 7;
                  ReplaceDocument (lone_document "clock") clock_and_volume]).
  { repeat constructor; apply clock_and_volume_ok. }
  split; [exact Hs|].
  destruct (live_profiles_correct (lone_document "volume") _ ltac:(by vm_compute) Hs) as (self & Hrun & _ & Hstep).
  exists self. split; [exact Hrun|]. specialize (Hstep (LiveCaptureEnded 7) I).
  vm_compute in Hrun. injection Hrun as Hrun. symmetry in Hrun. split; [by rewrite Hrun|].
  destruct (live_step self (LiveCaptureEnded 7)) as [[self' [[snapshot|]|]]|] eqn:E;
    rewrite Hrun in E; vm_compute in E; [|discriminate E..].
  injection E as E _. symmetry in E. split; [by rewrite E|]. by destruct Hstep as [(_ & _ & _ & _ & _ & Hd & _) _].
Defined.

(** A reload that is held back by a gesture loses the items of the new
    document when an item connects or leaves during the gesture: the items of
    the old document replace those that were held back.  The new document
    then finds its required item missing, although it is connected. *)
Theorem held_back_reload_loses_items :
  let reload := [TryInitialize clock_and_volume; LiveCaptureStarted 7;
                 ReplaceDocument (lone_document "clock") clock_and_volume] in
  let outcome steps :=
    (fun self => (document_item_ids (lp_document self), missing_required_items self, shown_ids self))
      <$> live_run (configured (lone_document "volume")) steps in
  outcome (reload ++ [LiveCaptureEnded 7]) = Some (["p#clock"], [], Some ["p#clock"]) /\
  outcome (reload ++ [TryInitialize clock_and_volume; LiveCaptureEnded 7]) = Some (["p#clock"], ["p#clock"], None).
Proof. split; by vm_compute. Qed.

(** ** A refused selection *)

Definition two_profiles : ProfileDocument :=
  {| doc_version := 1; doc_fallback := "desk";
     doc_contributions :=
       List.map (fun id => {| cf_id := id;
           cf_items := [{| pic_plugin := "p"; pic_item := "clock"; pic_required := true |}];
           cf_scope := GlobalConfig; cf_priority := 0; cf_when := AlwaysConfig |}) ["one"; "other"];
     doc_profiles :=
       [{| pg_id := "desk"; pg_elements := [SlotConfig "slot" FixedConfig ["one"]]; pg_principal_item := None |};
        {| pg_id := "both"; pg_elements := [SlotConfig "slot" FixedConfig ["one"; "other"]]; pg_principal_item := None |}];
     doc_rules := []; doc_regions := [] |}.
Definition clock_of_width (width : N) : Connected := [("p#clock", ItemSpec_new "p#clock" width width width)].
Definition shown_widths (self : LiveProfiles) : option (list N) :=
  (fun snapshot => it_preferred_width <$> bar_items (pc_bar (sn_composition snapshot))) <$> lp_current self.

(** A selection that the controller refuses stays the manual profile: the
    session reports a profile that it does not show, and no item that connects
    afterwards reaches the bar. *)
Theorem refused_selection_stays :
  let session := [TryInitialize (clock_of_width 40); SelectLiveProfile "both"; TryInitialize (clock_of_width 90)] in
  (fun self => (lp_manual_profile self, active_profile self, shown_widths self, lp_connected self))
    <$> live_run (configured two_profiles) session
  = Some (Some "both", Some "desk", Some [40%N], clock_of_width 90) /\
  (fun self => shown_widths self)
    <$> live_run (configured two_profiles) [TryInitialize (clock_of_width 40); TryInitialize (clock_of_width 90)]
  = Some (Some [90%N]).
Proof. split; by vm_compute. Qed.
