(* ===== verification/Presentation.v ===== *)
(** * Presentation: popovers and expanded content in the bar

    Models [crates/touchbar-sessiond/src/presentation.rs]: the placement of a
    popover over the item it belongs to, and the bar in which the content of
    an item, or of a slot of the active profile, replaces the compact one.
    Theorems: [PresentationSpec]. *)

From S2P Require Import Prelude BTree Text Layout LayoutSpec Model Profiles.

#[local] Set Warnings "-register-all".

Record Anchor := { an_x : N; an_width : N }.

(** The saturating addition of a [u32]. *)
Definition sat_add32 (a b : N) : N := N.min u32_max (a + b).

(** [None] is a panic: the [expect] of the placement, or the difference
    [available_width - placement.width]. *)
Definition resolve_popover (anchor : Anchor) (item : ItemSpec) (available_width : N)
  : option (result LayoutError Placement) :=
  resolved ← resolve {| bar_elements := [Item item]; bar_principal_item := None |} available_width [];
  match resolved with
  | Err error => Some (Err error)
  | Ok layout =>
      placement ← head (rl_placements layout);
      let center := sat_add32 (an_x anchor) (an_width anchor / 2) in
      free ← checked_sub available_width (pl_width placement);
      Some (Ok {| pl_id := pl_id placement;
                  pl_x := N.min (sat_sub center (pl_width placement / 2)) free;
                  pl_width := pl_width placement |})
  end.

Inductive PresentationError :=
| SourceNotInBar
| UnknownSlot (slot : string)
| InvalidSlotSpan
| InvalidSlotPath
| PathNotGroup
| SpaceInGroup.

(** ** Finding the source *)

Definition is_item (source : string) (item : ItemSpec) : bool := String.eqb (it_id item) source.

(** The loop over the elements of a group: an item is the source, or [find]
    finds it below. *)
Definition search_group (source : string) (find : GroupElement -> option (list nat * nat))
  : nat -> list GroupElement -> option (list nat * nat) :=
  fix go index elements :=
    match elements with
    | [] => None
    | element :: elements' =>
        if match element with GroupItem item => is_item source item | _ => false end
        then Some ([], index)
        else match find element with
             | Some (path, item_index) => Some (index :: path, item_index)
             | None => go (S index) elements'
             end
    end.

(** The path of the group that contains the source below an element, and the
    index of the source in it. *)
Fixpoint find_item_in_group (element : GroupElement) (source : string) : option (list nat * nat) :=
  match element with
  | GroupItem _ => None
  | SubGroup group =>
      search_group source (fun element => find_item_in_group element source) 0 (gr_elements group)
  end.

Fixpoint find_item_container (index : nat) (elements : list Element) (source : string)
  : option (list nat * nat) :=
  match elements with
  | [] => None
  | element :: elements' =>
      let inside :=
        match element with
        | Item item => if is_item source item then Some ([], index) else None
        | Group group =>
            found ← find_item_in_group (SubGroup group) source;
            Some (index :: found.1, found.2)
        | FixedSpace _ | FlexibleSpace _ _ => None
        end in
      match inside with
      | Some found => Some found
      | None => find_item_container (S index) elements' source
      end
  end.

(** ** Removing the items that are presented *)

Definition some_list {A} (o : option A) : list A := match o with Some a => [a] | None => [] end.

Fixpoint prune_group_element (replacement_items : list string) (element : GroupElement)
  : option GroupElement :=
  match element with
  | GroupItem item => if set_contains (it_id item) replacement_items then None else Some (GroupItem item)
  | SubGroup group =>
      Some (SubGroup (with_elements group
        (flat_map (fun element => some_list (prune_group_element replacement_items element))
           (gr_elements group))))
  end.
Definition prune_group (group : GroupSpec) (replacement_items : list string) : GroupSpec :=
  with_elements group
    (flat_map (fun element => some_list (prune_group_element replacement_items element)) (gr_elements group)).
Definition prune_element (replacement_items : list string) (element : Element) : option Element :=
  match element with
  | Item item => if set_contains (it_id item) replacement_items then None else Some (Item item)
  | Group group => Some (Group (prune_group group replacement_items))
  | FixedSpace _ | FlexibleSpace _ _ => Some element
  end.

(** ** Rewriting *)

(** The loop over [0..=len]: the replacement goes in at the start of the
    range, the elements of the range are left out, and the others are
    pruned. *)
Fixpoint rewrite_range {A} (prune : A -> option A) (first last : nat) (replacement : list A)
  (index : nat) (elements : list A) : list A :=
  (if (index =? first)%nat then replacement else []) ++
  match elements with
  | [] => []
  | element :: elements' =>
      (if (first <=? index)%nat && (index <? last)%nat then [] else some_list (prune element)) ++
      rewrite_range prune first last replacement (S index) elements'
  end.
Definition rewrite_top_range (elements : list Element) (first last : nat) (replacement : list Element)
  (replacement_items : list string) : list Element :=
  rewrite_range (prune_element replacement_items) first last replacement 0 elements.

(** The loop that rewrites the element at the target and prunes the others. *)
Definition rewrite_at {A} (prune : A -> option A) (rewrite : A -> result PresentationError A) (target : nat)
  : nat -> list A -> result PresentationError (list A) :=
  fix go index elements :=
    match elements with
    | [] => Ok []
    | element :: elements' =>
        rewritten ← (if (index =? target)%nat then element ← rewrite element; Ok [element]
                     else Ok (some_list (prune element)));
        rest ← go (S index) elements';
        Ok (rewritten ++ rest)
    end.

Definition valid_span {A} (first last : nat) (elements : list A) : bool :=
  negb ((last <? first)%nat || (length elements <? last)%nat).

Fixpoint rewrite_group (group : GroupSpec) (path : list nat) (first last : nat)
  (replacement : list GroupElement) (replacement_items : list string)
  : result PresentationError GroupSpec :=
  match path with
  | [] =>
      _ ← reject_if (negb (valid_span first last (gr_elements group))) InvalidSlotSpan;
      Ok (with_elements group
            (rewrite_range (prune_group_element replacement_items) first last replacement 0 (gr_elements group)))
  | target :: path' =>
      _ ← reject_if (length (gr_elements group) <=? target)%nat InvalidSlotPath;
      let rewrite element :=
        match element with
        | SubGroup child =>
            child ← rewrite_group child path' first last replacement replacement_items;
            Ok (SubGroup child)
        | GroupItem _ => Err PathNotGroup
        end in
      elements ← rewrite_at (prune_group_element replacement_items) rewrite target 0 (gr_elements group);
      Ok (with_elements group elements)
  end.

Definition element_to_group_element (element : Element) : result PresentationError GroupElement :=
  match element with
  | Item item => Ok (GroupItem item)
  | Group group => Ok (SubGroup group)
  | FixedSpace _ | FlexibleSpace _ _ => Err SpaceInGroup
  end.

Definition rewrite_bar (elements : list Element) (path : list nat) (first last : nat)
  (replacement : list Element) (replacement_items : list string) : result PresentationError (list Element) :=
  match path with
  | [] =>
      _ ← reject_if (negb (valid_span first last elements)) InvalidSlotSpan;
      Ok (rewrite_top_range elements first last replacement replacement_items)
  | target :: path' =>
      grouped ← mapR element_to_group_element replacement;
      _ ← reject_if (length elements <=? target)%nat InvalidSlotPath;
      let rewrite element :=
        match element with
        | Group group =>
            group ← rewrite_group group path' first last grouped replacement_items;
            Ok (Group group)
        | _ => Err PathNotGroup
        end in
      rewrite_at (prune_element replacement_items) rewrite target 0 elements
  end.

(** ** The bars *)

Definition item_ids_from_elements (elements : list Element) : list string :=
  set_of (flat_map collect_item_ids elements).

(** [content.principal_item.or_else(..)] *)
Definition presented_bar (compact content : BarSpec) (elements : list Element) : BarSpec :=
  {| bar_elements := elements;
     bar_principal_item :=
       match bar_principal_item content with
       | Some principal => Some principal
       | None =>
           principal ← bar_principal_item compact;
           if set_contains principal (item_ids_from_elements elements) then Some principal else None
       end |}.

Definition in_place_content_bar (compact : BarSpec) (source : string) (content : BarSpec)
  : result PresentationError BarSpec :=
  let content_items := item_ids_from_elements (bar_elements content) in
  container ← ok_or SourceNotInBar (find_item_container 0 (bar_elements compact) source);
  let '(path, index) := container in
  elements ← rewrite_bar (bar_elements compact) path index (index + 1) (bar_elements content) content_items;
  Ok (presented_bar compact content elements).

(** An item presented in the place of the source keeps its constraints under
    the identity of the source. *)
Definition as_source (source : string) (expanded : ItemSpec) : BarSpec :=
  {| bar_elements :=
       [Item {| it_id := source; it_min_width := it_min_width expanded;
                it_preferred_width := it_preferred_width expanded; it_max_width := it_max_width expanded;
                it_visibility_priority := it_visibility_priority expanded;
                it_compression_priority := it_compression_priority expanded;
                it_visibility_group := it_visibility_group expanded |}];
     bar_principal_item := None |}.
Definition in_place_bar (compact : BarSpec) (source : string) (expanded : ItemSpec)
  : result PresentationError BarSpec :=
  in_place_content_bar compact source (as_source source expanded).

Definition slot_content_bar (compact : BarSpec) (slots : list ComposedSlot) (target : string)
  (content : BarSpec) : result PresentationError BarSpec :=
  slot ← ok_or (UnknownSlot target) (List.find (fun slot => String.eqb (cp_id slot) target) slots);
  let content_items := item_ids_from_elements (bar_elements content) in
  elements ← rewrite_bar (bar_elements compact) (cp_path slot) (cp_elements slot).1 (cp_elements slot).2
               (bar_elements content) content_items;
  Ok (presented_bar compact content elements).
Definition slot_bar (compact : BarSpec) (slots : list ComposedSlot) (target source : string)
  (expanded : ItemSpec) : result PresentationError BarSpec :=
  slot_content_bar compact slots target (as_source source expanded).

Definition full_bar (source : string) (available_width : N) : BarSpec :=
  {| bar_elements := [Item (ItemSpec_new source available_width available_width available_width)];
     bar_principal_item := Some source |}.

(** The tests of the module. *)
Definition test_popover (x width : N) : option (N * N) :=
  match resolve_popover {| an_x := x; an_width := width |} (ItemSpec_new "volume.popover" 220 360 500) 1004 with
  | Some (Ok placement) => Some (pl_x placement, pl_width placement)
  | _ => None
  end.
Example popover_examples :
  test_popover 0 80 = Some (0, 360)%N /\ test_popover 400 80 = Some (260, 360)%N /\
  test_popover 960 44 = Some (644, 360)%N.
Proof. by vm_compute. Qed.
