(* ===== verification/PresentationSpec.v ===== *)
(** * PresentationSpec: presented content takes the place it is given

    About [Presentation]: a popover lies inside the bar and keeps to its
    item's widths, and a bar in which content replaces an item or a slot has
    every item once: the content's, and those of the compact bar that are
    neither replaced nor presented. *)

From S2P Require Import Prelude BTree Text Layout LayoutSpec Model Profiles ProfilesSpec Presentation.

#[local] Set Warnings "-register-all".

(** ** Rewriting a list of elements *)

Definition keep (items ids : list string) : list string :=
  List.filter (fun id => negb (set_contains id items)) ids.

Lemma keep_app items a b : keep items (a ++ b) = keep items a ++ keep items b.
Proof. apply List.filter_app. Qed.

Lemma elem_of_keep items ids id : id ∈ keep items ids <-> id ∈ ids /\ id ∉ items.
Proof.
  unfold keep. rewrite list_elem_of_In, filter_In, <- list_elem_of_In, negb_true_iff. by rewrite set_contains_false.
Qed.

Lemma NoDup_keep items ids : NoDup ids -> NoDup (keep items ids).
Proof. rewrite !NoDup_ListNoDup. apply List.NoDup_filter. Qed.

Section Rewriting.
Context {A : Type} (ids : A -> list string) (items : list string) (prune : A -> option A).
Hypothesis prune_ids : forall a, flat_map ids (some_list (prune a)) = keep items (ids a).

Definition pruned (elements : list A) : list A := flat_map (fun a => some_list (prune a)) elements.

Lemma pruned_ids elements : flat_map ids (pruned elements) = keep items (flat_map ids elements).
Proof.
  unfold pruned. induction elements as [|a l IH]; [done|]. cbn [flat_map].
  by rewrite flat_map_app, prune_ids, IH, keep_app.
Qed.

Lemma rewrite_range_after first last replacement elements : forall index, first < index ->
  rewrite_range prune first last replacement index elements = pruned (drop (last - index) elements).
Proof.
  induction elements as [|a l IH]; intros index Hi; cbn [rewrite_range].
  - rewrite (proj2 (Nat.eqb_neq index first)) by lia. by rewrite drop_nil.
  - rewrite (proj2 (Nat.eqb_neq index first)) by lia. rewrite (proj2 (Nat.leb_le first index)) by lia. cbn [andb app].
    rewrite IH by lia. destruct (Nat.ltb_spec index last) as [Hl|Hl].
    + replace (last - index) with (S (last - S index)) by lia. done.
    + by replace (last - index) with 0 by lia; replace (last - S index) with 0 by lia.
Qed.

Lemma rewrite_range_spec first last replacement elements : forall index, index <= first -> first <= last ->
  first - index <= length elements ->
  rewrite_range prune first last replacement index elements
  = pruned (take (first - index) elements) ++ replacement ++ pruned (drop (last - index) elements).
Proof.
  induction elements as [|a l IH]; intros index Hi Hf Hl; cbn [length rewrite_range] in *.
  - replace index with first by lia. rewrite Nat.eqb_refl. by rewrite take_nil, drop_nil, !app_nil_r.
  - destruct (Nat.eqb_spec index first) as [->|Hne].
    + rewrite Nat.sub_diag, Nat.leb_refl. cbn [take andb pruned flat_map app].
      rewrite rewrite_range_after by lia. f_equal. destruct (Nat.ltb_spec first last) as [H|H].
      * by replace (last - first) with (S (last - S first)) by lia.
      * by replace (last - first) with 0 by lia; replace (last - S first) with 0 by lia.
    + rewrite (proj2 (Nat.leb_gt first index)) by lia. cbn [andb app]. rewrite IH by lia.
      replace (first - index) with (S (first - S index)) by lia.
      replace (last - index) with (S (last - S index)) by lia. cbn [take drop pruned flat_map].
      by rewrite <- app_assoc.
Qed.

Lemma rewrite_range_ids first last replacement elements : valid_span first last elements = true ->
  flat_map ids (rewrite_range prune first last replacement 0 elements)
  = keep items (flat_map ids (take first elements)) ++ flat_map ids replacement
    ++ keep items (flat_map ids (drop last elements)).
Proof.
  unfold valid_span. intros [H1%Nat.ltb_ge H2%Nat.ltb_ge]%negb_true_iff%orb_false_iff.
  rewrite rewrite_range_spec by lia. by rewrite !Nat.sub_0_r, !flat_map_app, !pruned_ids.
Qed.

Lemma rewrite_at_spec rewrite target elements : forall index, index <= target ->
  match elements !! (target - index) with
  | None => exists es, rewrite_at prune rewrite target index elements = Ok es
  | Some a =>
      rewrite_at prune rewrite target index elements =
        (a ← rewrite a; Ok (pruned (take (target - index) elements) ++ [a]
                            ++ pruned (drop (S (target - index)) elements)))
  end.
Proof.
  assert (Hafter : forall elements index, target < index ->
    rewrite_at prune rewrite target index elements = Ok (pruned elements)).
  { intros l. induction l as [|a l IH]; intros index Hi; [done|]. cbn [rewrite_at].
    rewrite (proj2 (Nat.eqb_neq index target)) by lia. cbn. by rewrite IH by lia. }
  induction elements as [|a l IH]; intros index Hi; [by eexists|]. cbn [rewrite_at].
  destruct (Nat.eqb_spec index target) as [->|Hne].
  - rewrite Nat.sub_diag. cbn. destruct (rewrite a) as [b|e]; [|done]. cbn.
    rewrite Hafter by lia. done.
  - specialize (IH (S index) ltac:(lia)). replace (target - index) with (S (target - S index)) by lia.
    cbn [lookup list_lookup]. change (list_lookup (target - S index) l) with (l !! (target - S index)).
    destruct (l !! (target - S index)) as [b|].
    + cbn. rewrite IH. destruct (rewrite b); [|done]. cbn. by rewrite <- app_assoc.
    + destruct IH as [es ->]. by eexists.
Qed.

End Rewriting.

(** ** Groups and bars *)

Definition element_group_ids' (element : GroupElement) : list string := it_id <$> group_items element.
Definition ids_of (elements : list Element) : list string := flat_map collect_item_ids elements.
Definition grouped_ids (elements : list GroupElement) : list string := flat_map element_group_ids' elements.

Lemma group_ids_flat (elements : list GroupElement) : it_id <$> flat_map group_items elements = grouped_ids elements.
Proof. induction elements as [|e l IH]; [done|]. cbn. by rewrite fmap_app, IH. Qed.

Lemma ids_of_items elements : ids_of elements = element_ids (flat_map element_items elements).
Proof. unfold element_ids. induction elements as [|e l IH]; [done|]. cbn. by rewrite fmap_app, <- IH. Qed.

Lemma prune_group_element_ids items element :
  flat_map element_group_ids' (some_list (prune_group_element items element)) = keep items (element_group_ids' element).
Proof.
  induction element as [item|group IH] using group_element_ind'.
  - cbn. destruct (set_contains (it_id item) items) eqn:E; cbn; by rewrite ?E.
  - cbn [prune_group_element some_list flat_map]. rewrite app_nil_r. unfold element_group_ids' in *.
    cbn [group_items with_elements gr_elements]. rewrite !group_ids_flat.
    induction IH as [|e l He _ IHl]; [done|]. cbn [flat_map]. unfold grouped_ids in *.
    rewrite flat_map_app. cbn [flat_map]. rewrite keep_app, IHl. f_equal. exact He.
Qed.

Lemma prune_element_ids items element :
  flat_map collect_item_ids (some_list (prune_element items element)) = keep items (collect_item_ids element).
Proof.
  destruct element as [item|group|w|m w]; [| |done|done].
  - cbn. destruct (set_contains (it_id item) items) eqn:E; cbn; by rewrite ?E.
  - cbn [prune_element some_list flat_map]. rewrite app_nil_r.
    pose proof (prune_group_element_ids items (SubGroup group)) as H.
    cbn [prune_group_element some_list flat_map] in H. by rewrite app_nil_r in H.
Qed.

(** The items of a span below a path. *)
Fixpoint group_span (elements : list GroupElement) (path : list nat) (first last : nat) : option (list string) :=
  match path with
  | [] => if valid_span first last elements then Some (grouped_ids (take (last - first) (drop first elements))) else None
  | target :: path' =>
      match elements !! target with
      | Some (SubGroup group) => group_span (gr_elements group) path' first last
      | _ => None
      end
  end.
Definition bar_span (elements : list Element) (path : list nat) (first last : nat) : option (list string) :=
  match path with
  | [] => if valid_span first last elements then Some (ids_of (take (last - first) (drop first elements))) else None
  | target :: path' =>
      match elements !! target with
      | Some (Group group) => group_span (gr_elements group) path' first last
      | _ => None
      end
  end.

(** What replacing a span leaves. *)
Definition replaced (items replacement : list string) (compact span result : list string) : Prop :=
  exists before after, compact = before ++ span ++ after /\
    result = keep items before ++ replacement ++ keep items after.

Lemma replaced_span {A} (f : A -> list string) items replacement elements first last :
  valid_span first last elements = true ->
  replaced items replacement (flat_map f elements) (flat_map f (take (last - first) (drop first elements)))
    (keep items (flat_map f (take first elements)) ++ replacement ++ keep items (flat_map f (drop last elements))).
Proof.
  unfold valid_span. intros [H1%Nat.ltb_ge H2%Nat.ltb_ge]%negb_true_iff%orb_false_iff.
  exists (flat_map f (take first elements)), (flat_map f (drop last elements)). split; [|done].
  rewrite <- !flat_map_app. f_equal. rewrite <- (take_drop first elements) at 1. f_equal.
  rewrite <- (take_drop (last - first) (drop first elements)) at 1. f_equal.
  rewrite drop_drop. f_equal. lia.
Qed.

Lemma replaced_inside {A} (f : A -> list string) items replacement (elements : list A) target a a' span prune :
  (forall a, flat_map f (some_list (prune a)) = keep items (f a)) ->
  elements !! target = Some a -> replaced items replacement (f a) span (f a') ->
  replaced items replacement (flat_map f elements) span
    (flat_map f (pruned prune (take target elements) ++ [a'] ++ pruned prune (drop (S target) elements))).
Proof.
  intros Hp Ha (before & after & H1 & H2). rewrite !flat_map_app, !(pruned_ids _ _ _ Hp). cbn. rewrite app_nil_r.
  exists (flat_map f (take target elements) ++ before), (after ++ flat_map f (drop (S target) elements)).
  rewrite H2, !keep_app, <- !app_assoc. split; [|done].
  rewrite <- (take_drop_middle elements target a Ha) at 1. by rewrite flat_map_app; cbn; rewrite H1, <- !app_assoc.
Qed.

Definition misplaced (error : PresentationError) : Prop :=
  match error with InvalidSlotSpan | InvalidSlotPath | PathNotGroup => True | _ => False end.

Section Spans.
Context (first last : nat) (items : list string).

Lemma rewrite_group_spec (replacement : list GroupElement) path : forall group,
  match group_span (gr_elements group) path first last with
  | None => exists error, rewrite_group group path first last replacement items = Err error /\ misplaced error
  | Some span => exists group', rewrite_group group path first last replacement items = Ok group' /\
      replaced items (grouped_ids replacement) (grouped_ids (gr_elements group)) span (grouped_ids (gr_elements group'))
  end.
Proof.
  induction path as [|target path IH]; intros group; cbn [group_span rewrite_group].
  - destruct (valid_span first last (gr_elements group)) eqn:Hv; cbn; [|by eexists].
    eexists. split; [done|]. cbn. unfold grouped_ids.
    rewrite (rewrite_range_ids _ items _ (prune_group_element_ids items)) by done. by apply replaced_span.
  - pose proof (rewrite_at_spec (prune_group_element items)
      (fun element => match element with
                      | SubGroup child => child ← rewrite_group child path first last replacement items; Ok (SubGroup child)
                      | GroupItem _ => Err PathNotGroup
                      end) target (gr_elements group) 0 ltac:(lia)) as Hat.
    rewrite Nat.sub_0_r in Hat.
    destruct (gr_elements group !! target) as [element|] eqn:Ha.
    2:{ apply lookup_ge_None in Ha. rewrite (proj2 (Nat.leb_le _ _)) by lia. cbn. by eexists. }
    assert (Hlt : target < length (gr_elements group)) by (eapply lookup_lt_Some; exact Ha).
    rewrite (proj2 (Nat.leb_gt _ _)) by lia. cbn [reject_if mbind result_bind].
    rewrite Hat. clear Hat. destruct element as [item|child]; [by eexists|]. specialize (IH child).
    destruct (group_span (gr_elements child) path first last) as [span|].
    + destruct IH as (child' & -> & Hr). cbn [mbind result_bind]. eexists. split; [done|].
      apply (replaced_inside element_group_ids' items (grouped_ids replacement) (gr_elements group) target
        (SubGroup child) (SubGroup child') span (prune_group_element items)); [apply prune_group_element_ids|exact Ha|].
      unfold element_group_ids'. cbn [group_items]. by rewrite !group_ids_flat.
    + destruct IH as (error & -> & He). cbn. by exists error.
Qed.

Lemma rewrite_bar_spec (elements replacement : list Element) path :
  match rewrite_bar elements path first last replacement items with
  | Ok elements' => exists span, bar_span elements path first last = Some span /\
      replaced items (ids_of replacement) (ids_of elements) span (ids_of elements')
  | Err SpaceInGroup => path <> [] /\ exists element, element ∈ replacement /\ element_items element = []
  | Err error => misplaced error /\ bar_span elements path first last = None
  end.
Proof.
  destruct path as [|target path]; cbn [rewrite_bar bar_span].
  - destruct (valid_span first last elements) eqn:Hv; cbn; [|done]. eexists. split; [done|].
    unfold ids_of, rewrite_top_range. rewrite (rewrite_range_ids _ items _ (prune_element_ids items)) by done.
    by apply replaced_span.
  - destruct (mapR element_to_group_element replacement) as [grouped|e] eqn:Hg; cbn [mbind result_bind].
    2:{ cut (e = SpaceInGroup /\ exists element, element ∈ replacement /\ element_items element = []).
      { intros [-> H]. done. }
      revert Hg. clear. induction replacement as [|x l IH]; cbn; [done|].
      destruct x as [item|group|w|m w]; cbn; try (intros [= <-]; split; [done|]; eexists; split; [by left|done]);
        (destruct (mapR element_to_group_element l); cbn; [done|]; intros [= ->];
         destruct (IH eq_refl) as [-> (el & Hel & Hi)]; split; [done|]; exists el; set_solver). }
    assert (Hids : grouped_ids grouped = ids_of replacement).
    { revert Hg. clear. intros Hm%mapR_Ok. induction Hm as [|x g l gs Hx _ IH]; [done|].
      unfold grouped_ids, ids_of in *. cbn. rewrite IH. f_equal. by destruct x; try done; injection Hx as <-. }
    pose proof (rewrite_at_spec (prune_element items)
      (fun element => match element with
                      | Group group => group ← rewrite_group group path first last grouped items; Ok (Group group)
                      | _ => Err PathNotGroup
                      end) target elements 0 ltac:(lia)) as Hat.
    rewrite Nat.sub_0_r in Hat.
    destruct (elements !! target) as [element|] eqn:Ha.
    2:{ apply lookup_ge_None in Ha. by rewrite (proj2 (Nat.leb_le _ _)) by lia. }
    assert (Hlt : target < length elements) by (eapply lookup_lt_Some; exact Ha).
    rewrite (proj2 (Nat.leb_gt _ _)) by lia. cbn [reject_if mbind result_bind].
    rewrite Hat. clear Hat. destruct element as [item|child|w|m w]; try done.
    pose proof (rewrite_group_spec grouped path child) as Hr.
    destruct (group_span (gr_elements child) path first last) as [span|].
    + destruct Hr as (child' & -> & Hr). cbn [mbind result_bind]. exists span. split; [done|].
      apply (replaced_inside collect_item_ids items (ids_of replacement) elements target
        (Group child) (Group child') span (prune_element items)); [apply prune_element_ids|exact Ha|].
      unfold collect_item_ids. cbn [element_items]. rewrite !group_ids_flat. by rewrite <- Hids.
    + destruct Hr as (error & -> & He). cbn. by destruct error.
Qed.

End Spans.

(** ** Finding the source *)

Lemma one_span {A} (f : A -> list string) (elements : list A) i a :
  elements !! i = Some a ->
  valid_span i (i + 1) elements = true /\ flat_map f (take (i + 1 - i) (drop i elements)) = f a.
Proof.
  intros Ha. pose proof (lookup_lt_Some _ _ _ Ha). split.
  - unfold valid_span. rewrite (proj2 (Nat.ltb_ge _ _)), (proj2 (Nat.ltb_ge _ _)) by lia. done.
  - replace (i + 1 - i) with 1 by lia. rewrite (drop_S _ _ _ Ha). cbn. by rewrite app_nil_r.
Qed.

Definition finds (element : GroupElement) (source : string) : Prop :=
  match find_item_in_group element source, element with
  | Some (path, index), SubGroup group => group_span (gr_elements group) path index (index + 1) = Some [source]
  | Some _, GroupItem _ => False
  | None, SubGroup _ => source ∉ element_group_ids' element
  | None, GroupItem _ => True
  end.

Lemma find_item_in_group_spec source element : finds element source.
Proof.
  induction element as [item|group IH] using group_element_ind'; [done|].
  unfold finds. cbn [find_item_in_group].
  set (go := search_group source (fun element => find_item_in_group element source)).
  assert (Hgo : forall l index, Forall (fun e => finds e source) l ->
    match go index l with
    | Some (path, i) =>
        (path = [] /\ exists j item, i = index + j /\ l !! j = Some (GroupItem item) /\ it_id item = source) \/
        (exists j child p, path = (index + j) :: p /\ l !! j = Some (SubGroup child) /\
          group_span (gr_elements child) p i (i + 1) = Some [source])
    | None => source ∉ grouped_ids l
    end).
  { clear. induction l as [|e l IHl]; intros index Hl; [by apply not_elem_of_nil|].
    inversion Hl as [|? ? He Hl']; subst. cbn [go search_group]. fold (search_group source (fun element => find_item_in_group element source)). fold go. unfold finds in He.
    destruct (match e with GroupItem item => is_item source item | _ => false end) eqn:Hitem.
    { destruct e as [item|]; [|done]. apply String.eqb_eq in Hitem. left. split; [done|].
      exists 0, item. by rewrite Nat.add_0_r. }
    destruct (find_item_in_group e source) as [[p i]|] eqn:Hf.
    { destruct e as [item|child]; [done|]. right. exists 0, child, p. by rewrite Nat.add_0_r. }
    specialize (IHl (S index) Hl'). destruct (go (S index) l) as [[path i]|].
    - destruct IHl as [(-> & j & item & -> & Hj & Hid)|(j & child & p & -> & Hj & Hs)]; [left|right].
      + split; [done|]. exists (S j), item. by rewrite <- Nat.add_succ_comm.
      + exists (S j), child, p. by rewrite <- Nat.add_succ_comm.
    - unfold grouped_ids in *. cbn [flat_map]. rewrite elem_of_app. intros [Hin|Hin]; [|done].
      destruct e as [item|child]; [|done]. cbn in Hin. apply list_elem_of_singleton in Hin. subst.
      unfold is_item in Hitem. by rewrite String.eqb_refl in Hitem. }
  specialize (Hgo (gr_elements group) 0 IH). destruct (go 0 (gr_elements group)) as [[path i]|].
  - destruct Hgo as [(-> & j & item & -> & Hj & Hid)|(j & child & p & -> & Hj & Hs)]; cbn [group_span].
    + change (0 + j) with j. destruct (one_span element_group_ids' _ _ _ Hj) as [-> Hone]. unfold grouped_ids.
      rewrite Hone. cbn. by rewrite Hid.
    + change (0 + j) with j. by rewrite Hj.
  - unfold element_group_ids'. cbn [group_items]. by rewrite group_ids_flat.
Qed.

Lemma find_item_container_spec source elements : forall index,
  match find_item_container index elements source with
  | Some (path, i) =>
      (path = [] /\ exists j item, i = index + j /\ elements !! j = Some (Item item) /\ it_id item = source) \/
      (exists j group p, path = (index + j) :: p /\ elements !! j = Some (Group group) /\
        group_span (gr_elements group) p i (i + 1) = Some [source])
  | None => source ∉ ids_of elements
  end.
Proof.
  induction elements as [|e l IH]; intros index; [by apply not_elem_of_nil|]. cbn [find_item_container].
  assert (Hnext : source ∉ collect_item_ids e ->
    match find_item_container (S index) l source with
    | Some (path, i) =>
        (path = [] /\ exists j item, i = index + j /\ (e :: l) !! j = Some (Item item) /\ it_id item = source) \/
        (exists j group p, path = (index + j) :: p /\ (e :: l) !! j = Some (Group group) /\
          group_span (gr_elements group) p i (i + 1) = Some [source])
    | None => source ∉ ids_of (e :: l)
    end).
  { intros Hn. specialize (IH (S index)). destruct (find_item_container (S index) l source) as [[path i]|].
    - destruct IH as [(-> & j & item & -> & Hj & Hid)|(j & child & p & -> & Hj & Hs)]; [left|right].
      + split; [done|]. exists (S j), item. by rewrite <- Nat.add_succ_comm.
      + exists (S j), child, p. by rewrite <- Nat.add_succ_comm.
    - unfold ids_of in *. cbn [flat_map]. by rewrite elem_of_app; intros [?|?]. }
  destruct e as [item|group|w|m w].
  - unfold is_item. destruct (String.eqb_spec (it_id item) source) as [Hid|Hid].
    + left. split; [done|]. exists 0, item. by rewrite Nat.add_0_r.
    + apply Hnext. cbn. intros Hin%list_elem_of_singleton. by apply Hid.
  - pose proof (find_item_in_group_spec source (SubGroup group)) as Hf. unfold finds in Hf.
    destruct (find_item_in_group (SubGroup group) source) as [[p i]|]; cbn [mbind option_bind fst snd].
    + right. exists 0, group, p. by rewrite Nat.add_0_r.
    + apply Hnext. exact Hf.
  - apply Hnext. by apply not_elem_of_nil.
  - apply Hnext. by apply not_elem_of_nil.
Qed.

Lemma source_span source elements path i :
  find_item_container 0 elements source = Some (path, i) ->
  bar_span elements path i (i + 1) = Some [source].
Proof.
  intros Hf. pose proof (find_item_container_spec source elements 0) as H. rewrite Hf in H.
  destruct H as [(-> & j & item & -> & Hj & Hid)|(j & group & p & -> & Hj & Hs)]; cbn [bar_span Nat.add].
  - destruct (one_span collect_item_ids _ _ _ Hj) as [-> Hone]. unfold ids_of. rewrite Hone. cbn. by rewrite Hid.
  - by rewrite Hj.
Qed.

(** ** Every item once *)

Lemma replaced_elem items replacement compact span result :
  (forall id, id ∈ items <-> id ∈ replacement) -> NoDup compact ->
  replaced items replacement compact span result ->
  forall id, id ∈ result <-> id ∈ replacement \/ id ∈ compact /\ id ∉ span.
Proof.
  intros Hitems Hd (before & after & -> & ->) id. rewrite !elem_of_app, !elem_of_keep, Hitems.
  apply NoDup_app in Hd as (_ & Hb & Hd). apply NoDup_app in Hd as (_ & Hs & _).
  split.
  - intros [[Hin Hn]|[Hin|[Hin Hn]]]; [|by left|].
    + right. split; [by left|]. intros Hsp. apply (Hb id Hin). apply elem_of_app. by left.
    + right. split; [right; by right|]. intros Hsp. by apply (Hs id Hsp).
  - intros [Hin|[Hin Hn]]; [right; by left|].
    destruct (decide (id ∈ replacement)) as [|Hr]; [right; by left|].
    destruct Hin as [Hin|[Hin|Hin]]; [by left|done|right; by right].
Qed.

Lemma replaced_NoDup items replacement compact span result :
  (forall id, id ∈ items <-> id ∈ replacement) -> NoDup compact -> NoDup replacement ->
  replaced items replacement compact span result -> NoDup result.
Proof.
  intros Hitems Hd Hr (before & after & -> & ->).
  apply NoDup_app in Hd as (Hb & Hdisj & Hd). apply NoDup_app in Hd as (_ & _ & Ha).
  apply NoDup_app. split; [by apply NoDup_keep|]. split.
  - intros id [Hin Hn]%elem_of_keep [Hin'|[Hin' _]%elem_of_keep]%elem_of_app; [by apply Hn, Hitems|].
    apply (Hdisj id Hin). apply elem_of_app. by right.
  - apply NoDup_app. split; [done|]. split; [|by apply NoDup_keep].
    intros id Hin [_ Hn]%elem_of_keep. by apply Hn, Hitems.
Qed.

Lemma item_ids_elem elements id : id ∈ item_ids_from_elements elements <-> id ∈ ids_of elements.
Proof. apply elem_of_set_of. Qed.

(** The principal item of a bar is in the bar. *)
Definition principal_ok (bar : BarSpec) : Prop :=
  forall principal, bar_principal_item bar = Some principal -> principal ∈ ids_of (bar_elements bar).

(** The items of a bar in which content replaced a span. *)
Definition presents (compact content : BarSpec) (span : list string) (bar : BarSpec) : Prop :=
  NoDup (ids_of (bar_elements bar)) /\ principal_ok bar /\
  forall id, id ∈ ids_of (bar_elements bar) <->
    id ∈ ids_of (bar_elements content) \/ id ∈ ids_of (bar_elements compact) /\ id ∉ span.

Lemma presented_bar_ok compact content span elements :
  NoDup (ids_of (bar_elements compact)) -> NoDup (ids_of (bar_elements content)) -> principal_ok content ->
  replaced (item_ids_from_elements (bar_elements content)) (ids_of (bar_elements content))
    (ids_of (bar_elements compact)) span (ids_of elements) ->
  presents compact content span (presented_bar compact content elements).
Proof.
  intros Hd Hc Hp Hr. pose proof (item_ids_elem (bar_elements content)) as Hi.
  pose proof (replaced_elem _ _ _ _ _ Hi Hd Hr) as Hall.
  split; [exact (replaced_NoDup _ _ _ _ _ Hi Hd Hc Hr)|]. split; [|exact Hall].
  intros principal. cbn. destruct (bar_principal_item content) as [p|] eqn:Hcp.
  - intros [= <-]. apply Hall. left. by apply Hp.
  - destruct (bar_principal_item compact) as [p|]; [|done]. cbn.
    destruct (set_contains p (item_ids_from_elements elements)) eqn:E; [|done]. intros [= <-].
    apply set_contains_spec in E. by apply item_ids_elem.
Qed.

(** An element with nothing to present. *)
Definition has_space (bar : BarSpec) : Prop :=
  exists element, element ∈ bar_elements bar /\ element_items element = [].

(** C24: Presenting content in the place of an item: the item is found wherever it
    is, every item of the new bar occurs once, and the bar holds the content
    and all other items of the compact bar; only a source that is not in the
    bar and a space that would end up inside a group are refused. *)
Theorem in_place_content_correct (compact : BarSpec) (source : string) (content : BarSpec)
  (Hcompact : NoDup (ids_of (bar_elements compact))) (Hcontent : NoDup (ids_of (bar_elements content)))
  (Hprincipal : principal_ok content) :
  match in_place_content_bar compact source content with
  | Ok bar => source ∈ ids_of (bar_elements compact) /\ presents compact content [source] bar
  | Err SourceNotInBar => source ∉ ids_of (bar_elements compact)
  | Err SpaceInGroup => source ∈ ids_of (bar_elements compact) /\ has_space content
  | Err _ => False
  end.
Proof.
  unfold in_place_content_bar. set (items := item_ids_from_elements (bar_elements content)).
  destruct (find_item_container 0 (bar_elements compact) source) as [[path i]|] eqn:Hf; cbn [ok_or mbind result_bind].
  2:{ pose proof (find_item_container_spec source (bar_elements compact) 0) as H. by rewrite Hf in H. }
  pose proof (source_span _ _ _ _ Hf) as Hspan.
  pose proof (rewrite_bar_spec i (i + 1) items (bar_elements compact) (bar_elements content) path) as Hr.
  assert (Hin : source ∈ ids_of (bar_elements compact)).
  { pose proof (find_item_container_spec source (bar_elements compact) 0) as H. rewrite Hf in H.
    destruct (decide (source ∈ ids_of (bar_elements compact))) as [|Hn]; [done|]. exfalso.
    pose proof (rewrite_bar_spec i (i + 1) [] (bar_elements compact) [] path) as He.
    destruct (rewrite_bar _ _ _ _ [] []) as [es|e].
    - destruct He as (span & Hs & before & after & Heq & _). rewrite Hspan in Hs. injection Hs as <-.
      apply Hn. rewrite Heq. set_solver.
    - destruct e; try (by destruct He; congruence). destruct He as (_ & el & Hel & _). by apply elem_of_nil in Hel. }
  destruct (rewrite_bar _ _ _ _ _ _) as [elements|error]; cbn.
  - destruct Hr as (span & Hs & Hr). rewrite Hspan in Hs. injection Hs as <-. split; [done|].
    by apply presented_bar_ok.
  - destruct error; try (by destruct Hr as [_ Hr]; rewrite Hspan in Hr); by destruct Hr.
Qed.

(** Presenting content in a slot: the same, for the span the slot covers in
    the compact bar.  A slot whose span is not in the bar is refused. *)
Theorem slot_content_correct (compact : BarSpec) (slots : list ComposedSlot) (target : string) (content : BarSpec)
  (Hcompact : NoDup (ids_of (bar_elements compact))) (Hcontent : NoDup (ids_of (bar_elements content)))
  (Hprincipal : principal_ok content) :
  match List.find (fun slot => String.eqb (cp_id slot) target) slots with
  | None => slot_content_bar compact slots target content = Err (UnknownSlot target)
  | Some slot =>
      let span := bar_span (bar_elements compact) (cp_path slot) (cp_elements slot).1 (cp_elements slot).2 in
      match slot_content_bar compact slots target content with
      | Ok bar => exists ids, span = Some ids /\ presents compact content ids bar
      | Err SpaceInGroup => cp_path slot <> [] /\ has_space content
      | Err error => misplaced error /\ span = None
      end
  end.
Proof.
  unfold slot_content_bar. destruct (List.find _ slots) as [slot|] eqn:Hf; [|done]. cbn [ok_or mbind result_bind].
  set (items := item_ids_from_elements (bar_elements content)).
  pose proof (rewrite_bar_spec (cp_elements slot).1 (cp_elements slot).2 items (bar_elements compact)
    (bar_elements content) (cp_path slot)) as Hr.
  destruct (rewrite_bar _ _ _ _ _ _) as [elements|error]; cbn [mbind result_bind].
  - destruct Hr as (span & Hs & Hr). exists span. split; [done|]. by apply presented_bar_ok.
  - by destruct error.
Qed.

(** ** Popovers *)

Definition lone (item : ItemSpec) : BarSpec := {| bar_elements := [Item item]; bar_principal_item := None |}.

Lemma lone_prepare item ids : validate_item item [] = Ok ids ->
  exists unit, vu_elements unit = [0] /\ vu_required unit = false /\
    prepare (lone item) [] = Ok ([unit], [item_sizing item]).
Proof.
  intros H. unfold prepare, validate. cbn -[validate_item visibility_units]. rewrite H. cbn -[visibility_units].
  exists (new_unit 0 (it_visibility_group item) (it_visibility_priority item) false).
  split; [done|]. split; [done|]. cbn. by destruct (it_visibility_group item).
Qed.

Lemma lone_prepare_error item error : validate_item item [] = Err error ->
  prepare (lone item) [] = Err error.
Proof. intros H. unfold prepare, validate. cbn -[validate_item visibility_units]. by rewrite H. Qed.

(** What the bar of one item resolves to: the item, or nothing when it is too
    wide. *)
Lemma lone_resolve item available ids : (available < u32_limit)%N -> validate_item item [] = Ok ids ->
  exists layout, resolve (lone item) available [] = Some (Ok layout) /\
    if (it_min_width item <=? available)%N
    then exists p, rl_placements layout = [p] /\ fits item p /\ (pl_width p <= available)%N
    else rl_placements layout = [].
Proof.
  intros Ha Hv. destruct (lone_prepare _ _ Hv) as (unit & He & Hr & Hp).
  destruct (resolve_prepared (lone item) available [] _ _ Ha Hp) as (hidden & kept & [Hs Henough Hshort] & H).
  unfold optional_units in Hs. cbn in Hs. rewrite Hr in Hs. cbn in Hs. cbv zeta in H.
  destruct hidden as [|u [|u' hidden]]; [..|discriminate Hs].
  - destruct Henough as [->|Hle]; [done|]. rewrite (proj2 (N.ltb_ge _ _) Hle) in H. cbn in Hle.
    destruct H as (layout & Hlayout & [Hpk Hw Hf _]). exists layout. split; [done|].
    rewrite (proj2 (N.leb_le (it_min_width item) available)) by lia. cbn in Hf.
    inversion Hf as [|? p ? ps Hfit Hnil Heq Hps]; subst. inversion Hnil; subst. rewrite <- Hps in Hpk.
    destruct Hpk as [_ Hin]. cbn in Hin. exists p. split; [done|]. split; [done|lia].
  - injection Hs as <- <-. specialize (Hshort [] unit [] eq_refl). cbn in Hshort.
    unfold hide_all in H. cbn in H. rewrite He in H. cbn in H.
    assert ((available <? 0 + 0)%N = false) as E by (apply N.ltb_ge; lia). rewrite E in H.
    destruct H as (layout & Hlayout & [_ _ Hf _]). exists layout. split; [done|].
    rewrite (proj2 (N.leb_gt (it_min_width item) available)) by lia.
    cbn in Hf. by inversion Hf.
Qed.

(** C25: A popover lies inside the bar, is as wide as its item allows and is
    centred on its anchor when there is room.  It is refused only when its
    item is invalid.  But the placement that is taken to exist does not when
    the item is wider than the bar: the session panics. *)
Theorem popover_correct (anchor : Anchor) (item : ItemSpec) (available_width : N)
  (Havailable : (available_width < u32_limit)%N) :
  match validate_item item [] with
  | Err error => resolve_popover anchor item available_width = Some (Err error)
  | Ok _ =>
      if (it_min_width item <=? available_width)%N
      then exists p, resolve_popover anchor item available_width = Some (Ok p) /\
        pl_id p = it_id item /\ (it_min_width item <= pl_width p <= it_max_width item)%N /\
        (pl_x p + pl_width p <= available_width)%N /\
        let x := (sat_add32 (an_x anchor) (an_width anchor / 2) - pl_width p / 2)%N in
        (x + pl_width p <= available_width)%N -> pl_x p = x
      else resolve_popover anchor item available_width = None
  end.
Proof.
  destruct (validate_item item []) as [ids|error] eqn:Hv.
  2:{ unfold resolve_popover, resolve. fold (lone item). by rewrite (lone_prepare_error _ _ Hv). }
  destruct (lone_resolve item available_width ids Havailable Hv) as (layout & Hr & Hl).
  unfold resolve_popover. fold (lone item). rewrite Hr. cbn [mbind option_bind].
  destruct (it_min_width item <=? available_width)%N eqn:Hm; [|by rewrite Hl].
  destruct Hl as (p & -> & [Hid [Hmin Hmax]] & Hw). cbn [head mbind option_bind].
  rewrite checked_sub_Some by done. cbn [mbind option_bind]. eexists. split; [done|]. cbn in *. unfold sat_sub.
  split; [done|]. split; [lia|]. split; lia.
Qed.

(** ** The tests of the module, and the theorems at work *)

Definition compact_example : BarSpec :=
  {| bar_elements :=
       [Item (ItemSpec_new "left" 40 80 120);
        Group (GroupSpec_new "tools" [GroupItem (ItemSpec_new "source" 40 80 120);
                                      GroupItem (ItemSpec_new "other" 40 80 120)] Natural 8);
        FlexibleSpace 8 1; Item (ItemSpec_new "status" 40 80 120)];
     bar_principal_item := Some "status" |}.
Definition content_example : BarSpec :=
  {| bar_elements := [Item (ItemSpec_new "source" 100 160 220); Item (ItemSpec_new "status" 60 80 120)];
     bar_principal_item := Some "status" |}.
Definition slots_example : list ComposedSlot :=
  [{| cp_id := "leading"; cp_path := []; cp_elements := (0, 1) |};
   {| cp_id := "inner"; cp_path := [1]; cp_elements := (1, 2) |};
   {| cp_id := "lost"; cp_path := [0]; cp_elements := (0, 1) |}].
Definition presented_ids (r : result PresentationError BarSpec) : option (list string * option string) :=
  match r with Ok bar => Some (ids_of (bar_elements bar), bar_principal_item bar) | Err _ => None end.

Example presentation_examples :
  presented_ids (in_place_content_bar compact_example "source" content_example)
    = Some (["left"; "source"; "status"; "other"], Some "status") /\
  presented_ids (in_place_bar compact_example "left" (ItemSpec_new "popover" 200 300 500))
    = Some (["left"; "source"; "other"; "status"], Some "status") /\
  in_place_bar compact_example "missing" (ItemSpec_new "x" 1 1 1) = Err SourceNotInBar /\
  presented_ids (slot_bar compact_example slots_example "leading" "status" (ItemSpec_new "x" 1 1 1))
    = Some (["status"; "source"; "other"], Some "status") /\
  slot_content_bar compact_example slots_example "lost" content_example = Err PathNotGroup /\
  in_place_content_bar compact_example "source" {| bar_elements := [FixedSpace 4]; bar_principal_item := None |}
    = Err SpaceInGroup.
Proof. by vm_compute. Qed.

Ltac distinct := vm_compute; repeat (constructor; [by rewrite ?elem_of_cons, ?elem_of_nil; intuition discriminate|]); constructor.

Lemma example_hypotheses :
  NoDup (ids_of (bar_elements compact_example)) /\ NoDup (ids_of (bar_elements content_example)) /\
  principal_ok content_example.
Proof. split; [distinct|]. split; [distinct|]. intros p [= <-]. vm_compute. set_solver. Qed.

Lemma in_place_content_correct_witness :
  (NoDup (ids_of (bar_elements compact_example)) /\ NoDup (ids_of (bar_elements content_example)) /\
   principal_ok content_example) /\
  exists bar, in_place_content_bar compact_example "source" content_example = Ok bar /\
    presents compact_example content_example ["source"] bar.
Proof.
  split; [exact example_hypotheses|]. destruct example_hypotheses as (Hd & Hc & Hp).
  pose proof (in_place_content_correct compact_example "source" content_example Hd Hc Hp) as H.
  destruct (in_place_content_bar compact_example "source" content_example) as [bar|e] eqn:E.
  - exists bar. by destruct H as [_ H].
  - vm_compute in E. discriminate E.
Defined.

Lemma slot_content_correct_witness :
  exists bar, slot_content_bar compact_example slots_example "inner" content_example = Ok bar /\
    presents compact_example content_example ["other"] bar.
Proof.
  destruct example_hypotheses as (Hd & Hc & Hp).
  pose proof (slot_content_correct compact_example slots_example "inner" content_example Hd Hc Hp) as H.
  destruct (slot_content_bar compact_example slots_example "inner" content_example) as [bar|e] eqn:E.
  - exists bar. split; [done|]. cbv zeta in H. destruct H as (ids & Hs & H). vm_compute in Hs. injection Hs as <-. exact H.
  - vm_compute in E. discriminate E.
Defined.

Lemma popover_correct_witness :
  (1004 < u32_limit)%N /\
  (exists p, resolve_popover {| an_x := 400; an_width := 80 |} (ItemSpec_new "volume" 220 360 500) 1004 = Some (Ok p) /\
     pl_x p = 260%N) /\
  resolve_popover {| an_x := 400; an_width := 80 |} (ItemSpec_new "volume" 2000 2000 2000) 1004 = None.
Proof.
  assert (Ha : (1004 < u32_limit)%N) by done. split; [exact Ha|]. split.
  - pose proof (popover_correct {| an_x := 400; an_width := 80 |} (ItemSpec_new "volume" 220 360 500) 1004 Ha) as H.
    destruct H as (p & Hp & _). exists p. split; [exact Hp|]. vm_compute in Hp. by injection Hp as <-.
  - exact (popover_correct {| an_x := 400; an_width := 80 |} (ItemSpec_new "volume" 2000 2000 2000) 1004 Ha).
Defined.
