(* ===== verification/Hardware.v ===== *)
(** * Hardware: the protocol between the hardware daemon and the session

    Models [crates/touchbar-protocol/src/hardware_ipc.rs] (the swapchain header
    with its descriptors and the fixed-size messages of both directions) and
    the input sequences of [src/lib.rs].  A fixed array is a list, updated at
    an offset; what a system call transferred is an argument. *)

From S2P Require Import Prelude BTree Text Wire Payload.
From Stdlib Require String.

Definition SWAPCHAIN_MAGIC : list N := magic_bytes "TBARHWD1".
Definition SWAPCHAIN_VERSION : N := 1.
Definition SWAPCHAIN_HEADER_SIZE : nat := 48.
Definition MIN_SWAPCHAIN_BUFFERS : N := 2.
Definition MAX_SWAPCHAIN_BUFFERS : N := 3.
Definition MESSAGE_MAGIC : list N := magic_bytes "TBARMSG1".
Definition MESSAGE_VERSION : N := 1.
Definition MESSAGE_SIZE : nat := 32.

(** The kinds of [io::Error] the module constructs; the last one is
    [io::Error::last_os_error]. *)
Inductive IoError :=
| InvalidData (message : string)
| UnexpectedEof (message : string)
| WriteZero (message : string)
| LastOsError.

(** ** Fixed arrays *)

(** [target[offset..offset + n].copy_from_slice(value)]: out of range is a
    panic. *)
Definition copy_at (target : list N) (offset : nat) (value : list N) : option (list N) :=
  if (offset + length value <=? length target)%nat
  then Some (take offset target ++ value ++ drop (offset + length value) target)
  else None.
Definition put_u16 (target : list N) (offset : nat) (value : N) := copy_at target offset (to_le 2 value).
Definition put_u32 (target : list N) (offset : nat) (value : N) := copy_at target offset (to_le 4 value).
Definition put_u64 (target : list N) (offset : nat) (value : N) := copy_at target offset (to_le 8 value).
Definition put_i32 (target : list N) (offset : nat) (value : Z) :=
  copy_at target offset (signed_to_le 4 value).

(** [source[offset..offset + n]]: every use reads a fixed field of an array
    of fixed size. *)
Definition field (source : list N) (offset n : nat) : list N := take n (drop offset source).
Definition get_u16 (source : list N) (offset : nat) : N := from_le (field source offset 2).
Definition get_u32 (source : list N) (offset : nat) : N := from_le (field source offset 4).
Definition get_u64 (source : list N) (offset : nat) : N := from_le (field source offset 8).
Definition get_i32 (source : list N) (offset : nat) : Z := signed_from_le 4 (field source offset 4).

(** ** Messages *)

Inductive TouchPhase := TouchDown | TouchMotion | TouchUp | TouchCancel.

Record TouchEvent := {
  te_phase : TouchPhase;
  te_contact_id : N;
  te_time_ms : N;
  te_x_millipixels : Z;
  te_y_millipixels : Z;
}.

Inductive KeyPhase := Released | Pressed | Repeat.

Inductive SystemKey :=
| BrightnessDown | BrightnessUp | KeyboardIlluminationDown | KeyboardIlluminationUp
| PreviousSong | PlayPause | NextSong | Mute | VolumeDown | VolumeUp | MicrophoneMute | SearchKey
| F1 | F2 | F3 | F4 | F5 | F6 | F7 | F8 | F9 | F10 | F11 | F12.

Inductive SessionMessage :=
| FrameReady (index sequence : N)
| Key (key : SystemKey) (phase : KeyPhase).

Inductive HardwareMessage :=
| BufferReleased (index sequence : N)
| Touch (event : TouchEvent)
| FnChanged (pressed : bool).

#[export] Instance TouchPhase_eq_dec : EqDecision TouchPhase. Proof. solve_decision. Defined.
#[export] Instance TouchEvent_eq_dec : EqDecision TouchEvent. Proof. solve_decision. Defined.
#[export] Instance KeyPhase_eq_dec : EqDecision KeyPhase. Proof. solve_decision. Defined.
#[export] Instance SystemKey_eq_dec : EqDecision SystemKey. Proof. solve_decision. Defined.
#[export] Instance SessionMessage_eq_dec : EqDecision SessionMessage. Proof. solve_decision. Defined.
#[export] Instance HardwareMessage_eq_dec : EqDecision HardwareMessage. Proof. solve_decision. Defined.

(** [key as u16]: the declared discriminants. *)
Definition key_code (key : SystemKey) : N :=
  match key with
  | BrightnessDown => 1 | BrightnessUp => 2 | KeyboardIlluminationDown => 3
  | KeyboardIlluminationUp => 4 | PreviousSong => 5 | PlayPause => 6 | NextSong => 7 | Mute => 8
  | VolumeDown => 9 | VolumeUp => 10 | MicrophoneMute => 11 | SearchKey => 12
  | F1 => 21 | F2 => 22 | F3 => 23 | F4 => 24 | F5 => 25 | F6 => 26 | F7 => 27 | F8 => 28
  | F9 => 29 | F10 => 30 | F11 => 31 | F12 => 32
  end%N.

Definition decode_key (value : N) : result IoError SystemKey :=
  match value with
  | 1 => Ok BrightnessDown | 2 => Ok BrightnessUp | 3 => Ok KeyboardIlluminationDown
  | 4 => Ok KeyboardIlluminationUp | 5 => Ok PreviousSong | 6 => Ok PlayPause | 7 => Ok NextSong
  | 8 => Ok Mute | 9 => Ok VolumeDown | 10 => Ok VolumeUp | 11 => Ok MicrophoneMute
  | 12 => Ok SearchKey
  | 21 => Ok F1 | 22 => Ok F2 | 23 => Ok F3 | 24 => Ok F4 | 25 => Ok F5 | 26 => Ok F6
  | 27 => Ok F7 | 28 => Ok F8 | 29 => Ok F9 | 30 => Ok F10 | 31 => Ok F11 | 32 => Ok F12
  | _ => Err (InvalidData "unknown system key")
  end%N.

(** ** Swapchain *)

Inductive OutputTransform := Identity | QuarterTurn.

Record HardwareSwapchain := {
  hw_logical_width : N;
  hw_logical_height : N;
  hw_physical_width : N;
  hw_physical_height : N;
  hw_format : N;
  hw_pitch : N;
  hw_buffer_size : N;
  hw_buffer_count : N;
}.
#[export] Instance HardwareSwapchain_eq_dec : EqDecision HardwareSwapchain.
Proof. solve_decision. Defined.

(** [checked_mul] at 32 and 64 bits. *)
Definition checked_mul32 (a b : N) : option N := if (a * b <=? u32_max)%N then Some (a * b)%N else None.
Definition checked_mul64 (a b : N) : option N := if (a * b <=? u64_max)%N then Some (a * b)%N else None.

Definition validate (self : HardwareSwapchain) : result IoError HardwareSwapchain :=
  let '{| hw_logical_width := lw; hw_logical_height := lh; hw_physical_width := pw;
          hw_physical_height := ph |} := self in
  _ ← reject_if (negb ((MIN_SWAPCHAIN_BUFFERS <=? hw_buffer_count self)
                        && (hw_buffer_count self <=? MAX_SWAPCHAIN_BUFFERS))%N)
        (InvalidData "swapchain must contain two or three buffers");
  _ ← reject_if ((lw =? 0) || (lh =? 0) || (pw =? 0) || (ph =? 0))%N
        (InvalidData "swapchain dimensions must be nonzero");
  _ ← reject_if ((16384 <? lw) || (16384 <? lh) || (16384 <? pw) || (16384 <? ph))%N
        (InvalidData "swapchain dimensions exceed protocol limits");
  minimum_pitch ← ok_or (InvalidData "swapchain pitch overflow") (checked_mul32 pw 4);
  _ ← reject_if (hw_pitch self <? minimum_pitch)%N
        (InvalidData "swapchain pitch is smaller than one XRGB row");
  minimum_size ← ok_or (InvalidData "swapchain size overflow") (checked_mul64 (hw_pitch self) ph);
  _ ← reject_if (hw_buffer_size self <? minimum_size)%N
        (InvalidData "swapchain buffer is smaller than its layout");
  Ok self.

Definition transform (self : HardwareSwapchain) : option OutputTransform :=
  if ((hw_physical_width self =? hw_logical_width self)
      && (hw_physical_height self =? hw_logical_height self))%N then Some Identity
  else if ((hw_physical_width self =? hw_logical_height self)
           && (hw_physical_height self =? hw_logical_width self))%N then Some QuarterTurn
  else None.

(** The fields written one after the other; [None] is a panic. *)
Definition fill_header (info : HardwareSwapchain) : option (list N) :=
  header ← copy_at (replicate SWAPCHAIN_HEADER_SIZE 0%N) 0 SWAPCHAIN_MAGIC;
  header ← put_u16 header 8 SWAPCHAIN_VERSION;
  header ← put_u16 header 10 (hw_buffer_count info);
  header ← put_u32 header 12 (hw_logical_width info);
  header ← put_u32 header 16 (hw_logical_height info);
  header ← put_u32 header 20 (hw_physical_width info);
  header ← put_u32 header 24 (hw_physical_height info);
  header ← put_u32 header 28 (hw_format info);
  header ← put_u32 header 32 (hw_pitch info);
  put_u64 header 40 (hw_buffer_size info).

Definition encode (self : HardwareSwapchain) : option (result IoError (list N)) :=
  match validate self with
  | Err error => Some (Err error)
  | Ok info => Ok <$> fill_header info
  end.

Definition decode (header : list N) : result IoError HardwareSwapchain :=
  _ ← reject_if (negb (bool_decide (field header 0 8 = SWAPCHAIN_MAGIC)))
        (InvalidData "invalid hardware swapchain magic");
  _ ← reject_if (negb (get_u16 header 8 =? SWAPCHAIN_VERSION)%N)
        (InvalidData "unsupported hardware swapchain protocol version");
  validate
    {| hw_buffer_count := get_u16 header 10; hw_logical_width := get_u32 header 12;
       hw_logical_height := get_u32 header 16; hw_physical_width := get_u32 header 20;
       hw_physical_height := get_u32 header 24; hw_format := get_u32 header 28;
       hw_pitch := get_u32 header 32; hw_buffer_size := get_u64 header 40 |}.

(** ** Descriptor passing *)

(** What the module uses of the [libc] crate: constants, and the sizes of
    control messages. *)
Class Libc := {
  SOL_SOCKET : Z;
  SCM_RIGHTS : Z;
  MSG_CTRUNC : N;
  MSG_TRUNC : N;
  CMSG_LEN : N -> N;
  CMSG_SPACE : N -> N;
}.
(** Documented: the length is the header and the data; the space of the
    largest message fits the control buffer of 64 bytes. *)
Class LibcLaws `{Libc} : Prop := {
  cmsg_len_data n : CMSG_LEN n = (CMSG_LEN 0 + n)%N;
  cmsg_space_fits n : (n <= 12)%N -> (CMSG_SPACE n <= 64)%N;
}.

(** A control message and the descriptors in its data. *)
Record ControlMessage := {
  cmsg_level : Z;
  cmsg_type : Z;
  cmsg_len : N;
  cmsg_data : list Z;
}.

Section Descriptors.
Context `{Libc}.

(** The message handed to [sendmsg]. *)
Record Outgoing := { og_bytes : list N; og_control : list ControlMessage }.

Definition sent_result (sent : Z) (size : nat) (short : string) : result IoError () :=
  if (sent <? 0)%Z then Err LastOsError
  else if negb (sent =? Z.of_nat size)%Z then Err (WriteZero short)
  else Ok ().

(** The message, if any, and the result, given the answer of [sendmsg]. *)
Definition send_hardware_swapchain (info : HardwareSwapchain) (buffers : list Z) (sent : Z)
  : option (option Outgoing * result IoError ()) :=
  header ← encode info;
  match header with
  | Err error => Some (None, Err error)
  | Ok header =>
      if negb (len buffers =? hw_buffer_count info)%N
      then Some (None, Err (InvalidData "descriptor count does not match swapchain header"))
      else
        let rights_bytes := (len buffers * 4)%N in
        if (64 <? CMSG_SPACE rights_bytes)%N
        then Some (None, Err (InvalidData "descriptor control message is too large"))
        else
          Some (Some {| og_bytes := header;
                        og_control := [{| cmsg_level := SOL_SOCKET; cmsg_type := SCM_RIGHTS;
                                          cmsg_len := CMSG_LEN rights_bytes;
                                          cmsg_data := buffers |}] |},
                sent_result sent (length header) "short ADP swapchain descriptor message")
  end.

(** What [recvmsg] left: its answer, the header array, the control messages
    and the flags. *)
Record Incoming := {
  ic_received : Z;
  ic_buffer : list N;
  ic_control : list ControlMessage;
  ic_flags : N;
}.

(** One control message: the descriptors it adds. *)
Definition take_descriptors (message : ControlMessage) : result IoError (list Z) :=
  _ ← reject_if (negb (cmsg_level message =? SOL_SOCKET)%Z || negb (cmsg_type message =? SCM_RIGHTS)%Z)
        (InvalidData "unexpected swapchain ancillary message");
  let header_len := CMSG_LEN 0 in
  _ ← reject_if (cmsg_len message <? header_len)%N
        (InvalidData "malformed descriptor control message");
  let payload_len := (cmsg_len message - header_len)%N in
  _ ← reject_if (negb (payload_len mod 4 =? 0)%N) (InvalidData "malformed descriptor payload");
  Ok (take (N.to_nat (payload_len / 4)) (cmsg_data message)).

(** The loop over the control messages: the descriptors owned when it ends
    and its result. *)
Fixpoint collect_descriptors (control : list ControlMessage) (descriptors : list Z)
  : list Z * result IoError () :=
  match control with
  | [] => (descriptors, Ok ())
  | message :: control' =>
      match take_descriptors message with
      | Err error => (descriptors, Err error)
      | Ok more => collect_descriptors control' (descriptors ++ more)
      end
  end.

(** The checks after the loop. *)
Definition check_received (incoming : Incoming) (descriptors : list Z)
  : result IoError HardwareSwapchain :=
  _ ← reject_if (negb (N.land (ic_flags incoming) (N.lor MSG_CTRUNC MSG_TRUNC) =? 0)%N)
        (InvalidData "truncated ADP swapchain message");
  _ ← reject_if (ic_received incoming =? 0)%Z
        (UnexpectedEof "presenter closed before sending a swapchain");
  _ ← reject_if (negb (ic_received incoming =? Z.of_nat SWAPCHAIN_HEADER_SIZE)%Z)
        (UnexpectedEof "short ADP swapchain header");
  info ← decode (ic_buffer incoming);
  _ ← reject_if (negb (len descriptors =? hw_buffer_count info)%N)
        (InvalidData "received descriptor count does not match header");
  Ok info.

(** The result and the descriptors that an early return closes. *)
Definition receive_hardware_swapchain (incoming : Incoming)
  : result IoError (HardwareSwapchain * list Z) * list Z :=
  if (ic_received incoming <? 0)%Z then (Err LastOsError, []) else
  match collect_descriptors (ic_control incoming) [] with
  | (descriptors, Err error) => (Err error, descriptors)
  | (descriptors, Ok _) =>
      match check_received incoming descriptors with
      | Err error => (Err error, descriptors)
      | Ok info => (Ok (info, descriptors), [])
      end
  end.
End Descriptors.

(** ** Fixed-size messages *)

Record WireFields := {
  wf_kind : N;
  wf_value : N;
  wf_payload : N;
  wf_x : Z;
  wf_y : Z;
}.

Definition fill_message (fields : WireFields) : option (list N) :=
  message ← copy_at (replicate MESSAGE_SIZE 0%N) 0 MESSAGE_MAGIC;
  message ← put_u16 message 8 MESSAGE_VERSION;
  message ← put_u16 message 10 (wf_kind fields);
  message ← put_u32 message 12 (wf_value fields);
  message ← put_u64 message 16 (wf_payload fields);
  message ← put_i32 message 24 (wf_x fields);
  put_i32 message 28 (wf_y fields).

(** The bytes handed to [sendmsg] and the result, given its answer. *)
Definition send_fields (fields : WireFields) (sent : Z) : option (list N * result IoError ()) :=
  message ← fill_message fields;
  Some (message, sent_result sent (length message) "short ADP swapchain event").

Definition receive_fields (received : Z) (message : list N) : result IoError WireFields :=
  _ ← reject_if (received <? 0)%Z LastOsError;
  _ ← reject_if (received =? 0)%Z (UnexpectedEof "presenter closed before sending an event");
  _ ← reject_if (negb (received =? Z.of_nat MESSAGE_SIZE)%Z) (UnexpectedEof "short ADP swapchain event");
  _ ← reject_if (negb (bool_decide (field message 0 8 = MESSAGE_MAGIC)))
        (InvalidData "invalid hardware message magic");
  _ ← reject_if (negb (get_u16 message 8 =? MESSAGE_VERSION)%N)
        (InvalidData "unsupported hardware message version");
  Ok {| wf_kind := get_u16 message 10; wf_value := get_u32 message 12;
        wf_payload := get_u64 message 16; wf_x := get_i32 message 24; wf_y := get_i32 message 28 |}.

Definition key_phase_code (phase : KeyPhase) : N :=
  match phase with Released => 0 | Pressed => 1 | Repeat => 2 end%N.
Definition touch_phase_code (phase : TouchPhase) : N :=
  match phase with TouchDown => 3 | TouchMotion => 4 | TouchUp => 5 | TouchCancel => 6 end%N.

Definition session_fields (event : SessionMessage) : WireFields :=
  match event with
  | FrameReady index sequence =>
      {| wf_kind := 1; wf_value := index; wf_payload := sequence; wf_x := 0; wf_y := 0 |}
  | Key key phase =>
      {| wf_kind := 8; wf_value := key_code key; wf_payload := key_phase_code phase;
         wf_x := 0; wf_y := 0 |}
  end.
Definition send_session_message (event : SessionMessage) (sent : Z)
  : option (list N * result IoError ()) := send_fields (session_fields event) sent.

Definition hardware_fields (event : HardwareMessage) : WireFields :=
  match event with
  | BufferReleased index sequence =>
      {| wf_kind := 2; wf_value := index; wf_payload := sequence; wf_x := 0; wf_y := 0 |}
  | Touch touch =>
      {| wf_kind := touch_phase_code (te_phase touch); wf_value := te_contact_id touch;
         wf_payload := te_time_ms touch; wf_x := te_x_millipixels touch;
         wf_y := te_y_millipixels touch |}
  | FnChanged pressed =>
      {| wf_kind := 7; wf_value := bit pressed; wf_payload := 0; wf_x := 0; wf_y := 0 |}
  end.
Definition send_hardware_message (event : HardwareMessage) (sent : Z)
  : option (list N * result IoError ()) := send_fields (hardware_fields event) sent.

(** The match of [receive_session_message]; its guards are in the arms. *)
Definition session_message (fields : WireFields) : result IoError SessionMessage :=
  _ ← reject_if (negb (wf_x fields =? 0)%Z || negb (wf_y fields =? 0)%Z)
        (InvalidData "session message has nonzero reserved fields");
  match wf_kind fields with
  | 1 =>
      if (wf_value fields <=? u16_max)%N
      then Ok (FrameReady (wf_value fields) (wf_payload fields))
      else Err (InvalidData "hardware buffer index is out of range")
  | 8 =>
      match wf_payload fields with
      | 0 => key ← decode_key (wf_value fields); Ok (Key key Released)
      | 1 => key ← decode_key (wf_value fields); Ok (Key key Pressed)
      | 2 => key ← decode_key (wf_value fields); Ok (Key key Repeat)
      | _ => Err (InvalidData "unknown system key phase")
      end
  | _ => Err (InvalidData "message is not valid from a user session")
  end%N.
Definition receive_session_message (received : Z) (message : list N)
  : result IoError SessionMessage :=
  fields ← receive_fields received message;
  session_message fields.

Definition touch_message (phase : TouchPhase) (fields : WireFields) : result IoError HardwareMessage :=
  if (u32_max <? wf_payload fields)%N then Err (InvalidData "Touch Bar event time is out of range")
  else Ok (Touch {| te_phase := phase; te_contact_id := wf_value fields;
                    te_time_ms := wf_payload fields; te_x_millipixels := wf_x fields;
                    te_y_millipixels := wf_y fields |}).

Definition hardware_message (fields : WireFields) : result IoError HardwareMessage :=
  let still := ((wf_x fields =? 0)%Z && (wf_y fields =? 0)%Z)%bool in
  match wf_kind fields with
  | 2 =>
      if (wf_value fields <=? u16_max)%N && still
      then Ok (BufferReleased (wf_value fields) (wf_payload fields))
      else Err (InvalidData "invalid hardware buffer release")
  | 3 => touch_message TouchDown fields
  | 4 => touch_message TouchMotion fields
  | 5 => touch_message TouchUp fields
  | 6 => touch_message TouchCancel fields
  | 7 =>
      if (wf_value fields <=? 1)%N && (wf_payload fields =? 0)%N && still
      then Ok (FnChanged (wf_value fields =? 1)%N)
      else Err (InvalidData "invalid Fn state message")
  | _ => Err (InvalidData "message is not valid from the hardware daemon")
  end%N.
Definition receive_hardware_message (received : Z) (message : list N)
  : result IoError HardwareMessage :=
  fields ← receive_fields received message;
  hardware_message fields.

(** ** Input sequences *)

Definition split_input_sequence (sequence : N) : option (N * N) :=
  if negb (sequence =? 0)%N
  then Some (N.land (N.shiftr sequence 32) u32_max, N.land sequence u32_max)
  else None.
Definition join_input_sequence (high low : N) : option N :=
  let sequence := N.lor (N.shiftl high 32) low in
  if negb (sequence =? 0)%N then Some sequence else None.

(** * Theorems *)

(** ** Fields of arrays *)

Lemma field_split l offset n next :
  next = (offset + n)%nat -> drop offset l = field l offset n ++ drop next l.
Proof. intros ->. unfold field. by rewrite <- drop_drop, take_drop. Qed.

Lemma length_field l offset n : (offset + n <= length l)%nat -> length (field l offset n) = n.
Proof. intros. unfold field. rewrite length_take, length_drop. lia. Qed.

Lemma field_octets l offset n : octets l -> octets (field l offset n).
Proof. intros H. by apply Forall_take, Forall_drop. Qed.

Lemma le_field l offset n :
  octets l -> (offset + n <= length l)%nat -> to_le n (from_le (field l offset n)) = field l offset n.
Proof.
  intros Ho Hl. rewrite <- (length_field l offset n Hl) at 1. by apply to_from_le, field_octets.
Qed.

Lemma le_field_bound l offset n :
  octets l -> (offset + n <= length l)%nat -> (from_le (field l offset n) < 256 ^ N.of_nat n)%N.
Proof.
  intros Ho Hl. rewrite <- (length_field l offset n Hl) at 2. by apply from_le_bound, field_octets.
Qed.

Lemma signed_field l offset :
  octets l -> (offset + 4 <= length l)%nat ->
  signed_range 4 (get_i32 l offset) /\ signed_to_le 4 (get_i32 l offset) = field l offset 4.
Proof.
  intros Ho Hl. apply signed_to_from; [lia|by apply field_octets|by apply length_field].
Qed.

(** The layout of a message and of a header. *)
Definition message_bytes (fields : WireFields) : list N :=
  MESSAGE_MAGIC ++ to_le 2 MESSAGE_VERSION ++ to_le 2 (wf_kind fields) ++
  to_le 4 (wf_value fields) ++ to_le 8 (wf_payload fields) ++
  signed_to_le 4 (wf_x fields) ++ signed_to_le 4 (wf_y fields).

Definition header_bytes (info : HardwareSwapchain) : list N :=
  SWAPCHAIN_MAGIC ++ to_le 2 SWAPCHAIN_VERSION ++ to_le 2 (hw_buffer_count info) ++
  to_le 4 (hw_logical_width info) ++ to_le 4 (hw_logical_height info) ++
  to_le 4 (hw_physical_width info) ++ to_le 4 (hw_physical_height info) ++
  to_le 4 (hw_format info) ++ to_le 4 (hw_pitch info) ++ replicate 4 0%N ++
  to_le 8 (hw_buffer_size info).

Lemma fill_message_eq fields : fill_message fields = Some (message_bytes fields).
Proof. reflexivity. Qed.
Lemma fill_header_eq info : fill_header info = Some (header_bytes info).
Proof. reflexivity. Qed.

(** ** Messages *)

(** The integer widths of the fields of a message. *)
Record fields_in_range (fields : WireFields) : Prop := {
  range_kind : (wf_kind fields <= u16_max)%N;
  range_value : (wf_value fields <= u32_max)%N;
  range_payload : (wf_payload fields <= u64_max)%N;
  range_x : signed_range 4 (wf_x fields);
  range_y : signed_range 4 (wf_y fields);
}.

Lemma width_bound n v m : (256 ^ N.of_nat n = m + 1)%N -> (v <= m)%N -> (v < 256 ^ N.of_nat n)%N.
Proof. lia. Qed.

Lemma from_to_le_bound n v m : (256 ^ N.of_nat n = m + 1)%N -> (v <= m)%N -> from_le (to_le n v) = v.
Proof. intros. by eapply from_to_le, width_bound. Qed.

Lemma octets_signed n z : octets (signed_to_le n z).
Proof. apply to_le_bytes. Qed.

Lemma octets_magic s : octets (magic_bytes s).
Proof. apply string_bytes_byte. Qed.

Ltac solve_octets :=
  repeat first [apply Forall_app_2 | apply to_le_bytes | apply octets_signed | apply octets_magic
               | apply Forall_replicate; done].

Lemma message_bytes_shape fields : length (message_bytes fields) = MESSAGE_SIZE /\ octets (message_bytes fields).
Proof. split; [reflexivity|]. unfold message_bytes, MESSAGE_MAGIC. solve_octets. Qed.

Lemma header_bytes_shape info :
  length (header_bytes info) = SWAPCHAIN_HEADER_SIZE /\ octets (header_bytes info).
Proof.
  split; [reflexivity|]. unfold header_bytes, SWAPCHAIN_MAGIC. solve_octets.
Qed.

(** Fields written are read back. *)
Lemma receive_sent_fields fields :
  fields_in_range fields -> receive_fields 32 (message_bytes fields) = Ok fields.
Proof.
  intros [Hk Hv Hp Hx Hy]. unfold receive_fields, get_u16, get_u32, get_u64, get_i32.
  change (field (message_bytes fields) 0 8) with MESSAGE_MAGIC.
  change (field (message_bytes fields) 8 2) with (to_le 2 1).
  change (field (message_bytes fields) 10 2) with (to_le 2 (wf_kind fields)).
  change (field (message_bytes fields) 12 4) with (to_le 4 (wf_value fields)).
  change (field (message_bytes fields) 16 8) with (to_le 8 (wf_payload fields)).
  change (field (message_bytes fields) 24 4) with (signed_to_le 4 (wf_x fields)).
  change (field (message_bytes fields) 28 4) with (signed_to_le 4 (wf_y fields)).
  rewrite (from_to_le_bound 2 _ u16_max), (from_to_le_bound 4 _ u32_max), (from_to_le_bound 8 _ u64_max) by done.
  rewrite !signed_from_to by (done || lia). by destruct fields.
Qed.

Lemma message_split message :
  length message = MESSAGE_SIZE ->
  message = field message 0 8 ++ field message 8 2 ++ field message 10 2 ++ field message 12 4 ++
            field message 16 8 ++ field message 24 4 ++ field message 28 4.
Proof.
  unfold MESSAGE_SIZE. intros Hl. rewrite <- (drop_0 message) at 1.
  rewrite (field_split message 0 8 8), (field_split message 8 2 10), (field_split message 10 2 12),
    (field_split message 12 4 16), (field_split message 16 8 24), (field_split message 24 4 28),
    (field_split message 28 4 32), (drop_ge message 32), app_nil_r by lia. done.
Qed.

Lemma take_field l offset n next :
  next = (offset + n)%nat -> take next l = take offset l ++ field l offset n.
Proof. intros ->. unfold field. by rewrite take_take_drop. Qed.

Lemma header_split header :
  take 36 header = field header 0 8 ++ field header 8 2 ++ field header 10 2 ++ field header 12 4 ++
    field header 16 4 ++ field header 20 4 ++ field header 24 4 ++ field header 28 4 ++ field header 32 4.
Proof.
  rewrite (take_field header 32 4 36), (take_field header 28 4 32), (take_field header 24 4 28),
    (take_field header 20 4 24), (take_field header 16 4 20), (take_field header 12 4 16),
    (take_field header 10 2 12), (take_field header 8 2 10), (take_field header 0 8 8), take_0 by done.
  by rewrite <- !app_assoc, app_nil_l.
Qed.

Lemma u16_field l offset : octets l -> (offset + 2 <= length l)%nat -> (get_u16 l offset <= u16_max)%N.
Proof. intros Ho Hl. pose proof (le_field_bound l offset 2 Ho Hl) as H. unfold get_u16, u16_max. simpl in H. lia. Qed.
Lemma u32_field l offset : octets l -> (offset + 4 <= length l)%nat -> (get_u32 l offset <= u32_max)%N.
Proof. intros Ho Hl. pose proof (le_field_bound l offset 4 Ho Hl) as H. unfold get_u32, u32_max. simpl in H. lia. Qed.
Lemma u64_field l offset : octets l -> (offset + 8 <= length l)%nat -> (get_u64 l offset <= u64_max)%N.
Proof. intros Ho Hl. pose proof (le_field_bound l offset 8 Ho Hl) as H. unfold get_u64, u64_max. simpl in H. lia. Qed.

(** A message that is read is the one its fields are written to. *)
Lemma receive_fields_inv received message fields :
  length message = MESSAGE_SIZE -> octets message -> receive_fields received message = Ok fields ->
  received = 32%Z /\ fields_in_range fields /\ message = message_bytes fields.
Proof.
  intros Hl Ho. unfold receive_fields. intros H. inv_ok.
  apply negb_false_iff in Hok1, Hok2, Hok3. apply Z.eqb_eq in Hok1. apply bool_decide_eq_true in Hok2.
  apply N.eqb_eq in Hok3. split; [done|].
  destruct (signed_field message 24 Ho ltac:(rewrite Hl; unfold MESSAGE_SIZE; lia)) as [Hx Hx'].
  destruct (signed_field message 28 Ho ltac:(rewrite Hl; unfold MESSAGE_SIZE; lia)) as [Hy Hy'].
  split.
  - split; cbn [wf_kind wf_value wf_payload wf_x wf_y];
      [apply u16_field|apply u32_field|apply u64_field|done|done]; (done || rewrite Hl; unfold MESSAGE_SIZE; lia).
  - unfold message_bytes. cbn [wf_kind wf_value wf_payload wf_x wf_y].
    rewrite Hx', Hy', <- Hok2, <- Hok3. unfold get_u16, get_u32, get_u64.
    rewrite !le_field by (done || rewrite Hl; unfold MESSAGE_SIZE; lia). by apply message_split.
Qed.

(** ** Directions *)

Definition session_in_range (event : SessionMessage) : Prop :=
  match event with
  | FrameReady index sequence => (index <= u16_max)%N /\ (sequence <= u64_max)%N
  | Key _ _ => True
  end.
Definition hardware_in_range (event : HardwareMessage) : Prop :=
  match event with
  | BufferReleased index sequence => (index <= u16_max)%N /\ (sequence <= u64_max)%N
  | Touch touch => (te_contact_id touch <= u32_max)%N /\ (te_time_ms touch <= u32_max)%N /\
      signed_range 4 (te_x_millipixels touch) /\ signed_range 4 (te_y_millipixels touch)
  | FnChanged _ => True
  end.

Lemma decode_key_code key : decode_key (key_code key) = Ok key.
Proof. by destruct key. Qed.

Lemma decode_key_Ok value key : decode_key value = Ok key -> value = key_code key.
Proof.
  unfold decode_key. intros H.
  repeat (destruct value as [|value]; try discriminate H; []); revert H.
  repeat (destruct value as [value|value|]; try discriminate); by intros [= <-].
Qed.

Lemma session_fields_range event : session_in_range event -> fields_in_range (session_fields event).
Proof.
  destruct event as [index sequence|key phase]; cbn; intros H.
  - destruct H. split; cbn; [done|unfold u16_max, u32_max in *; lia|done|done|done].
  - split; cbn; [done|by destruct key|by destruct phase|done|done].
Qed.

Lemma hardware_fields_range event : hardware_in_range event -> fields_in_range (hardware_fields event).
Proof.
  destruct event as [index sequence|touch|pressed]; cbn; intros H.
  - destruct H. split; cbn; [done|unfold u16_max, u32_max in *; lia|done|done|done].
  - destruct H as (Hc & Ht & Hx & Hy). split; cbn; [by destruct (te_phase touch)|done| |done|done].
    unfold u32_max, u64_max in *. lia.
  - split; cbn; [done|by destruct pressed|done|done|done].
Qed.

Lemma session_message_fields event : session_in_range event -> session_message (session_fields event) = Ok event.
Proof.
  destruct event as [index sequence|key phase]; cbn.
  - intros [Hi _]. by apply N.leb_le in Hi as ->.
  - intros _. destruct phase; by rewrite decode_key_code.
Qed.

Lemma session_message_inv fields event :
  fields_in_range fields -> session_message fields = Ok event ->
  session_in_range event /\ fields = session_fields event.
Proof.
  intros Hr H. unfold session_message in H. inv_ok. apply orb_false_iff in Hok as [Hx Hy].
  apply negb_false_iff, Z.eqb_eq in Hx, Hy. destruct fields as [kind value payload x y]. cbn in *. subst x y.
  destruct Hr as [_ _ Hp _ _]. cbn in Hp.
  destruct kind as [|[[[[]| |]|[[]| |]|]|[[[]|[]|]|[[]|[]|]|]|]]; cbn in H; try discriminate H.
  - destruct payload as [|[[]|[]|]]; cbn in H; try discriminate H; inv_ok;
      match goal with Hk : decode_key _ = Ok _ |- _ => apply decode_key_Ok in Hk as -> end; by split.
  - destruct (N.leb_spec value u16_max) as [Hi|]; [|discriminate H]. injection H as <-. by repeat split.
Qed.

Lemma hardware_message_fields event :
  hardware_in_range event -> hardware_message (hardware_fields event) = Ok event.
Proof.
  destruct event as [index sequence|touch|pressed]; cbn.
  - intros [Hi _]. by apply N.leb_le in Hi as ->.
  - intros (_ & Ht & _). destruct touch as [phase contact time x y]. cbn in *.
    destruct phase; cbn; unfold touch_message; cbn; by rewrite (proj2 (N.ltb_ge _ _) Ht).
  - intros _. by destruct pressed.
Qed.

Lemma touch_message_inv phase fields event :
  fields_in_range fields -> touch_message phase fields = Ok event ->
  wf_kind fields = touch_phase_code phase ->
  hardware_in_range event /\ fields = hardware_fields event.
Proof.
  intros [_ Hv _ Hx Hy] H Hk. unfold touch_message in H.
  destruct (N.ltb_spec u32_max (wf_payload fields)); [discriminate H|]. injection H as <-. cbn.
  rewrite <- Hk. by destruct fields.
Qed.

Lemma hardware_message_inv fields event :
  fields_in_range fields -> hardware_message fields = Ok event ->
  hardware_in_range event /\ fields = hardware_fields event.
Proof.
  intros Hr H. unfold hardware_message in H.
  destruct (wf_kind fields) as [|[[[]|[]|]|[[]|[]|]|]] eqn:Hk; cbn in H; try discriminate H;
    try (eapply touch_message_inv; [exact Hr|exact H|exact Hk]).
  - destruct ((wf_value fields <=? 1)%N) eqn:Hv; [|discriminate H].
    destruct (wf_payload fields =? 0)%N eqn:Hp; [|discriminate H]. cbn in H.
    destruct (wf_x fields =? 0)%Z eqn:Hx; [|discriminate H].
    destruct (wf_y fields =? 0)%Z eqn:Hy; [|discriminate H]. injection H as <-.
    apply N.leb_le in Hv. apply N.eqb_eq in Hp. apply Z.eqb_eq in Hx, Hy. split; [done|].
    destruct fields as [kind value payload x y]. cbn in *. subst. f_equal.
    unfold bit. destruct (N.eqb_spec value 1); lia.
  - destruct (wf_value fields <=? u16_max)%N eqn:Hv; [|discriminate H]. cbn in H.
    destruct (wf_x fields =? 0)%Z eqn:Hx; [|discriminate H].
    destruct (wf_y fields =? 0)%Z eqn:Hy; [|discriminate H]. injection H as <-.
    apply N.leb_le in Hv. apply Z.eqb_eq in Hx, Hy. destruct Hr as [_ _ Hp _ _].
    split; [done|]. destruct fields as [kind value payload x y]. cbn in *. by subst.
Qed.

(** The kinds of one direction are refused in the other. *)
Lemma directions_disjoint event other : session_fields event <> hardware_fields other.
Proof.
  intros H%(f_equal wf_kind). destruct event, other as [| [[] ? ? ? ?]|]; discriminate H.
Qed.

(** C40: Each message either direction sends is 32 bytes, is read back as itself
    by the other side and refused by the side it is not meant for; and what a
    side accepts is, byte for byte, the encoding of the message it returns,
    with every field in the range of its type. *)
Theorem hardware_messages_exchange :
  (forall event sent, session_in_range event ->
    exists message, send_session_message event sent =
        Some (message, sent_result sent 32 "short ADP swapchain event") /\
      length message = MESSAGE_SIZE /\ octets message /\
      receive_session_message 32 message = Ok event /\
      is_ok (receive_hardware_message 32 message) = false) /\
  (forall event sent, hardware_in_range event ->
    exists message, send_hardware_message event sent =
        Some (message, sent_result sent 32 "short ADP swapchain event") /\
      length message = MESSAGE_SIZE /\ octets message /\
      receive_hardware_message 32 message = Ok event /\
      is_ok (receive_session_message 32 message) = false) /\
  (forall received message event, length message = MESSAGE_SIZE -> octets message ->
    receive_session_message received message = Ok event ->
    received = 32%Z /\ session_in_range event /\ fill_message (session_fields event) = Some message) /\
  (forall received message event, length message = MESSAGE_SIZE -> octets message ->
    receive_hardware_message received message = Ok event ->
    received = 32%Z /\ hardware_in_range event /\ fill_message (hardware_fields event) = Some message).
Proof.
  split; [|split; [|split]].
  - intros event sent Hr. exists (message_bytes (session_fields event)).
    pose proof (session_fields_range event Hr) as Hf. split; [reflexivity|].
    split; [apply message_bytes_shape|]. split; [apply message_bytes_shape|].
    unfold receive_session_message, receive_hardware_message. rewrite receive_sent_fields by done. cbn [mbind result_bind].
    split; [by apply session_message_fields|].
    destruct (hardware_message _) as [other|] eqn:E; [|done].
    apply hardware_message_inv in E as [_ E]; [|done]. by apply directions_disjoint in E.
  - intros event sent Hr. exists (message_bytes (hardware_fields event)).
    pose proof (hardware_fields_range event Hr) as Hf. split; [reflexivity|].
    split; [apply message_bytes_shape|]. split; [apply message_bytes_shape|].
    unfold receive_session_message, receive_hardware_message. rewrite receive_sent_fields by done. cbn [mbind result_bind].
    split; [by apply hardware_message_fields|].
    destruct (session_message _) as [other|] eqn:E; [|done].
    apply session_message_inv in E as [_ E]; [|done]. symmetry in E. by apply directions_disjoint in E.
  - intros received message event Hl Ho H. unfold receive_session_message in H. inv_ok.
    apply receive_fields_inv in Hok as (-> & Hr & ->); [|done|done].
    apply session_message_inv in H as [Hi ->]; [|done]. by rewrite fill_message_eq.
  - intros received message event Hl Ho H. unfold receive_hardware_message in H. inv_ok.
    apply receive_fields_inv in Hok as (-> & Hr & ->); [|done|done].
    apply hardware_message_inv in H as [Hi ->]; [|done]. by rewrite fill_message_eq.
Qed.

Definition demo_touch : HardwareMessage :=
  Touch {| te_phase := TouchMotion; te_contact_id := 77; te_time_ms := 1234;
           te_x_millipixels := -12500; te_y_millipixels := 59750 |}.

Lemma hardware_messages_exchange_witness :
  (exists message, send_hardware_message demo_touch 32 = Some (message, Ok ()) /\
     receive_hardware_message 32 message = Ok demo_touch /\
     is_ok (receive_session_message 32 message) = false) /\
  fill_message (session_fields (Key F12 Pressed)) =
    Some ((84 :: 66 :: 65 :: 82 :: 77 :: 83 :: 71 :: 49 :: 1 :: 0 :: 8 :: 0 :: 32 :: 0 :: 0 :: 0 :: 1 ::
           replicate 15 0)%N).
Proof.
  split.
  - destruct (proj1 (proj2 hardware_messages_exchange) demo_touch 32%Z) as (m & Hs & _ & _ & Hm & Hr).
    { vm_compute. repeat split; discriminate. }
    exists m. split; [exact Hs|]. by split.
  - apply (proj1 (proj2 (proj2 hardware_messages_exchange)) 32%Z); [reflexivity| |vm_compute; reflexivity].
    repeat (constructor; [reflexivity|]). constructor.
Defined.

(** ** The swapchain *)

(** The integer widths of the header. *)
Record info_in_range (info : HardwareSwapchain) : Prop := {
  range_logical_width : (hw_logical_width info <= u32_max)%N;
  range_logical_height : (hw_logical_height info <= u32_max)%N;
  range_physical_width : (hw_physical_width info <= u32_max)%N;
  range_physical_height : (hw_physical_height info <= u32_max)%N;
  range_format : (hw_format info <= u32_max)%N;
  range_pitch : (hw_pitch info <= u32_max)%N;
  range_buffer_size : (hw_buffer_size info <= u64_max)%N;
  range_buffer_count : (hw_buffer_count info <= u16_max)%N;
}.

(** What the privileged side may rely on. *)
Record swapchain_ok (info : HardwareSwapchain) : Prop := {
  ok_count : (2 <= hw_buffer_count info <= 3)%N;
  ok_logical_width : (1 <= hw_logical_width info <= 16384)%N;
  ok_logical_height : (1 <= hw_logical_height info <= 16384)%N;
  ok_physical_width : (1 <= hw_physical_width info <= 16384)%N;
  ok_physical_height : (1 <= hw_physical_height info <= 16384)%N;
  ok_row : (4 * hw_physical_width info <= hw_pitch info)%N;
  ok_size : (hw_pitch info * hw_physical_height info <= hw_buffer_size info)%N;
}.

Ltac refuse := split; [intros [? ? ? ? ? ? ?]; lia|split; discriminate].

(** The checks, and that neither multiplication overflows. *)
Lemma validate_spec info :
  info_in_range info ->
  match validate info with
  | Ok info' => info' = info /\ swapchain_ok info
  | Err error => ~ swapchain_ok info /\
      error <> InvalidData "swapchain pitch overflow" /\ error <> InvalidData "swapchain size overflow"
  end.
Proof.
  intros Hr. unfold validate. destruct info as [lw lh pw ph f pitch size count] eqn:Hi. rewrite <- Hi in *.
  assert (hw_logical_width info = lw /\ hw_logical_height info = lh /\ hw_physical_width info = pw /\
          hw_physical_height info = ph) as (Elw & Elh & Epw & Eph) by (by subst info).
  clear Hi. unfold reject_if, MIN_SWAPCHAIN_BUFFERS, MAX_SWAPCHAIN_BUFFERS.
  destruct (negb _) eqn:E1; cbn [mbind result_bind].
  { apply negb_true_iff, andb_false_iff in E1. rewrite !N.leb_gt in E1. refuse. }
  apply negb_false_iff, andb_true_iff in E1. rewrite !N.leb_le in E1.
  destruct ((lw =? 0) || _ || _ || _)%N eqn:E2; cbn [mbind result_bind].
  { rewrite !orb_true_iff, !N.eqb_eq in E2. refuse. }
  rewrite !orb_false_iff, !N.eqb_neq in E2.
  destruct ((16384 <? lw) || _ || _ || _)%N eqn:E3; cbn [mbind result_bind].
  { rewrite !orb_true_iff, !N.ltb_lt in E3. refuse. }
  rewrite !orb_false_iff, !N.ltb_ge in E3. unfold checked_mul32.
  destruct (N.leb_spec (pw * 4) u32_max) as [_|Ho]; [|unfold u32_max in Ho; lia]. cbn [ok_or mbind result_bind].
  destruct (N.ltb_spec (hw_pitch info) (pw * 4)); cbn [mbind result_bind]; [refuse|].
  pose proof (range_pitch _ Hr) as Hp. unfold checked_mul64.
  destruct (N.leb_spec (hw_pitch info * ph) u64_max) as [_|Ho]; cbn [ok_or mbind result_bind].
  2: { unfold u32_max, u64_max in *. pose proof (N.mul_le_mono _ _ _ _ Hp (proj2 E3)). lia. }
  destruct (N.ltb_spec (hw_buffer_size info) (hw_pitch info * ph)); cbn [mbind result_bind].
  { split; [|split; discriminate]. intros [? ? ? ? ? ? Hs]. rewrite Eph in Hs. lia. }
  split; [done|]. split; lia.
Qed.

Lemma decode_header_bytes info :
  info_in_range info -> decode (header_bytes info) = validate info.
Proof.
  intros [H1 H2 H3 H4 H5 H6 H7 H8]. unfold decode, get_u16, get_u32, get_u64.
  change (field (header_bytes info) 0 8) with SWAPCHAIN_MAGIC.
  change (field (header_bytes info) 8 2) with (to_le 2 1).
  change (field (header_bytes info) 10 2) with (to_le 2 (hw_buffer_count info)).
  change (field (header_bytes info) 12 4) with (to_le 4 (hw_logical_width info)).
  change (field (header_bytes info) 16 4) with (to_le 4 (hw_logical_height info)).
  change (field (header_bytes info) 20 4) with (to_le 4 (hw_physical_width info)).
  change (field (header_bytes info) 24 4) with (to_le 4 (hw_physical_height info)).
  change (field (header_bytes info) 28 4) with (to_le 4 (hw_format info)).
  change (field (header_bytes info) 32 4) with (to_le 4 (hw_pitch info)).
  change (field (header_bytes info) 40 8) with (to_le 8 (hw_buffer_size info)).
  rewrite (from_to_le_bound 2 _ u16_max), !(from_to_le_bound 4 _ u32_max), (from_to_le_bound 8 _ u64_max) by done.
  by destruct info.
Qed.

(** An accepted header is valid, and re-encodes to itself but for the four
    bytes nothing is written to. *)
Lemma decode_inv header info :
  length header = SWAPCHAIN_HEADER_SIZE -> octets header -> decode header = Ok info ->
  info_in_range info /\ swapchain_ok info /\ validate info = Ok info /\
  header_bytes info = take 36 header ++ replicate 4 0%N ++ drop 40 header.
Proof.
  intros Hl Ho H. unfold decode in H. inv_ok. apply negb_false_iff in Hok, Hok0.
  apply bool_decide_eq_true in Hok. apply N.eqb_eq in Hok0.
  match type of H with validate ?i = _ => set (info' := i) in H end.
  assert (forall offset n, (offset + n <= 48)%nat -> (offset + n <= length header)%nat) as Hb by (intros; by rewrite Hl).
  assert (info_in_range info') as Hr.
  { split; cbn; first [apply u16_field|apply u32_field|apply u64_field]; (done || apply Hb; lia). }
  pose proof (validate_spec info' Hr) as Hv. rewrite H in Hv. destruct Hv as [-> Hv].
  split; [done|]. split; [done|]. split; [done|].
  unfold header_bytes. cbn [info' hw_buffer_count hw_logical_width hw_logical_height hw_physical_width
    hw_physical_height hw_format hw_pitch hw_buffer_size].
  rewrite <- Hok, <- Hok0. unfold get_u16, get_u32, get_u64.
  rewrite !le_field by (done || apply Hb; lia).
  assert (drop 40 header = field header 40 8) as ->.
  { unfold field. rewrite take_ge; [done|]. rewrite length_drop, Hl. unfold SWAPCHAIN_HEADER_SIZE. lia. }
  by rewrite header_split, <- !app_assoc.
Qed.

Section Exchange.
Context `{LibcLaws}.

(** What the kernel delivers of a message with [sent] descriptors: the bytes
    and as many new descriptors. *)
Definition delivers (outgoing : Outgoing) (descriptors : list Z) (incoming : Incoming) : Prop :=
  ic_received incoming = Z.of_nat (length (og_bytes outgoing)) /\
  ic_buffer incoming = og_bytes outgoing /\
  ic_control incoming =
    List.map (fun message => {| cmsg_level := cmsg_level message; cmsg_type := cmsg_type message;
                           cmsg_len := cmsg_len message; cmsg_data := descriptors |}) (og_control outgoing) /\
  N.land (ic_flags incoming) (N.lor MSG_CTRUNC MSG_TRUNC) = 0%N.

(** All descriptors the control messages carry. *)
Definition delivered_descriptors (control : list ControlMessage) : list Z :=
  flat_map (fun message =>
    match take_descriptors message with Ok descriptors => descriptors | Err _ => [] end) control.

Lemma collect_descriptors_all control descriptors :
  Forall (fun message => is_ok (take_descriptors message) = true) control ->
  collect_descriptors control descriptors = (descriptors ++ delivered_descriptors control, Ok ()).
Proof.
  intros Hc. revert descriptors. induction Hc as [|message control Hm _ IH]; intros descriptors; cbn.
  - by rewrite app_nil_r.
  - destruct (take_descriptors message); [|discriminate Hm]. by rewrite IH, <- app_assoc.
Qed.

Lemma collect_descriptors_Ok control descriptors all u :
  collect_descriptors control descriptors = (all, Ok u) ->
  all = descriptors ++ delivered_descriptors control /\
  Forall (fun message => is_ok (take_descriptors message) = true) control.
Proof.
  revert descriptors. induction control as [|message control IH]; intros descriptors; cbn.
  - intros [= <- _]. split; [by rewrite app_nil_r|constructor].
  - destruct (take_descriptors message) as [more|] eqn:E; [|done]. intros [-> Hf]%IH. split.
    + by rewrite <- app_assoc.
    + constructor; [by rewrite E|done].
Qed.

(** Every failure to receive closes what was received. *)
Lemma receive_closes incoming :
  match receive_hardware_swapchain incoming with
  | (Ok (_, descriptors), closed) => closed = [] /\ descriptors = delivered_descriptors (ic_control incoming)
  | (Err _, closed) => (0 <= ic_received incoming)%Z ->
      Forall (fun message => is_ok (take_descriptors message) = true) (ic_control incoming) ->
      closed = delivered_descriptors (ic_control incoming)
  end.
Proof.
  unfold receive_hardware_swapchain. destruct (Z.ltb_spec (ic_received incoming) 0); [lia|].
  destruct (collect_descriptors _ _) as [descriptors [u|error]] eqn:E.
  - pose proof E as [-> _]%collect_descriptors_Ok. cbn. by destruct (check_received _ _).
  - intros _ Hc. apply (collect_descriptors_all _ []) in Hc. by rewrite Hc in E.
Qed.

(** The daemon sends a swapchain exactly when its layout fits its buffers and
    there are as many descriptors as buffers, and the session receives what
    was sent.  Whatever arrives, the session accepts only such a layout, with
    exactly the descriptors of the message, and a refusal closes all of them. *)
Theorem swapchain_exchange :
  (forall info buffers sent, info_in_range info ->
    match send_hardware_swapchain info buffers sent with
    | None => False
    | Some (None, answer) => is_ok answer = false /\
        (~ swapchain_ok info \/ len buffers <> hw_buffer_count info)
    | Some (Some outgoing, answer) => swapchain_ok info /\ len buffers = hw_buffer_count info /\
        answer = sent_result sent SWAPCHAIN_HEADER_SIZE "short ADP swapchain descriptor message" /\
        forall descriptors incoming, length descriptors = length buffers ->
          delivers outgoing descriptors incoming ->
          receive_hardware_swapchain incoming = (Ok (info, descriptors), [])
    end) /\
  (forall incoming, length (ic_buffer incoming) = SWAPCHAIN_HEADER_SIZE -> octets (ic_buffer incoming) ->
    match receive_hardware_swapchain incoming with
    | (Ok (info, descriptors), closed) => closed = [] /\
        descriptors = delivered_descriptors (ic_control incoming) /\
        swapchain_ok info /\ len descriptors = hw_buffer_count info /\
        encode info = Some (Ok (take 36 (ic_buffer incoming) ++ replicate 4 0%N ++ drop 40 (ic_buffer incoming)))
    | (Err _, closed) => (0 <= ic_received incoming)%Z ->
        Forall (fun message => is_ok (take_descriptors message) = true) (ic_control incoming) ->
        closed = delivered_descriptors (ic_control incoming)
    end).
Proof.
  split.
  - intros info buffers sent Hr. unfold send_hardware_swapchain, encode.
    pose proof (validate_spec info Hr) as Hv. destruct (validate info) as [info'|error] eqn:Ev.
    2: { cbn. split; [done|]. left. apply Hv. }
    destruct Hv as [-> Hv]. rewrite fill_header_eq. cbn [fmap option_fmap option_map mbind option_bind].
    destruct (N.eqb_spec (len buffers) (hw_buffer_count info)) as [Hn|Hn]; cbn [negb].
    2: { split; [done|]. by right. }
    pose proof (ok_count _ Hv). pose proof (cmsg_space_fits (len buffers * 4) ltac:(lia)) as Hs.
    apply N.ltb_ge in Hs as ->. split; [done|]. split; [done|]. split; [reflexivity|].
    intros descriptors incoming Hd (Hi & Hb & Hc & Hf). cbn in Hi, Hb, Hc.
    unfold receive_hardware_swapchain. rewrite Hi, Hc. cbn [Z.ltb Z.compare collect_descriptors].
    assert (take_descriptors {| cmsg_level := SOL_SOCKET; cmsg_type := SCM_RIGHTS;
              cmsg_len := CMSG_LEN (len buffers * 4); cmsg_data := descriptors |} = Ok descriptors) as ->.
    { unfold take_descriptors. cbn [cmsg_level cmsg_type cmsg_len cmsg_data]. rewrite !Z.eqb_refl. cbn [negb orb].
      rewrite (cmsg_len_data (len buffers * 4)). unfold reject_if. cbn [mbind result_bind].
      destruct (N.ltb_spec (CMSG_LEN 0 + len buffers * 4) (CMSG_LEN 0)); [lia|]. cbn [mbind result_bind].
      rewrite N.add_comm, N.add_sub, N.Div0.mod_mul. cbn [negb N.eqb mbind result_bind].
      rewrite N.div_mul by done. unfold len. by rewrite Nat2N.id, <- Hd, firstn_all. }
    cbn [app]. unfold check_received. rewrite Hf, Hb. cbn [negb N.eqb reject_if mbind result_bind].
    rewrite Hi. change (Z.of_nat (length (header_bytes info))) with 48%Z.
    cbn [Z.eqb negb reject_if mbind result_bind Pos.eqb SWAPCHAIN_HEADER_SIZE Z.of_nat Pos.of_succ_nat Pos.succ].
    rewrite decode_header_bytes, Ev by done. cbn [mbind result_bind]. unfold len in *. rewrite Hd, Hn, N.eqb_refl. done.
  - intros incoming Hl Ho. pose proof (receive_closes incoming) as Hcl. revert Hcl.
    unfold receive_hardware_swapchain. destruct (ic_received incoming <? 0)%Z; [done|].
    destruct (collect_descriptors _ _) as [descriptors [u|error]]; [|done].
    destruct (check_received incoming descriptors) as [info|error] eqn:E; [|exact (fun Hc => Hc)]. intros [_ Hd].
    unfold check_received in E. inv_ok. apply negb_false_iff, N.eqb_eq in Hok3.
    apply decode_inv in Hok2 as (Hr & Hv & Hvv & He); [|done|done].
    split; [done|]. split; [done|]. split; [done|]. split; [done|].
    unfold encode. by rewrite Hvv, fill_header_eq, He.
Qed.
End Exchange.

(** The constants of Linux on a 64-bit machine. *)
#[local] Instance linux : Libc :=
  {| SOL_SOCKET := 1; SCM_RIGHTS := 1; MSG_CTRUNC := 8; MSG_TRUNC := 32;
     CMSG_LEN n := 16 + n; CMSG_SPACE n := 16 + (n + 7) / 8 * 8 |}%N.
#[local] Instance linux_laws : LibcLaws.
Proof.
  split; [intros n; cbn; lia|]. intros n Hn. cbn [CMSG_SPACE linux].
  pose proof (N.Div0.div_le_mono (n + 7) (12 + 7) 8 ltac:(lia)) as H. change ((12 + 7) / 8)%N with 2%N in H. lia.
Qed.

Definition adp : HardwareSwapchain :=
  {| hw_logical_width := 2008; hw_logical_height := 60; hw_physical_width := 60;
     hw_physical_height := 2008; hw_format := 875713112; hw_pitch := 256;
     hw_buffer_size := 256 * 2008; hw_buffer_count := 2 |}.

Definition adp_message : Incoming :=
  {| ic_received := 48; ic_buffer := header_bytes adp; ic_flags := 0;
     ic_control := [{| cmsg_level := 1; cmsg_type := 1; cmsg_len := 24; cmsg_data := [7; 9]%Z |}] |}.

Lemma swapchain_exchange_witness :
  receive_hardware_swapchain adp_message = (Ok (adp, [7; 9]%Z), []) /\ swapchain_ok adp /\
  transform adp = Some QuarterTurn.
Proof.
  assert (info_in_range adp) as Hr by (split; vm_compute; discriminate).
  pose proof (proj1 swapchain_exchange adp [3; 4]%Z 48%Z Hr) as H.
  destruct (send_hardware_swapchain adp [3; 4]%Z 48%Z) as [[[outgoing|] answer]|] eqn:E;
    [|vm_compute in E; discriminate E|done].
  vm_compute in E. injection E as <- <-. destruct H as (Hv & _ & _ & H).
  split; [|by split]. apply H; [done|]. by repeat split.
Defined.

(** ** Input sequences *)

(** A sequence number crosses the two words of the Wayland event unchanged;
    zero is the absence of one in both forms. *)
Lemma input_sequence_roundtrip (sequence : N) : (sequence <= u64_max)%N ->
  match split_input_sequence sequence with
  | None => sequence = 0%N
  | Some (high, low) => sequence <> 0%N /\ (high <= u32_max)%N /\ (low <= u32_max)%N /\
      join_input_sequence high low = Some sequence
  end.
Proof.
  intros Hs. unfold split_input_sequence. destruct (N.eqb_spec sequence 0) as [|Hn]; cbn [negb]; [done|].
  assert (u32_max = N.ones 32) as Hm by reflexivity. rewrite !Hm, !N.land_ones.
  assert (sequence / 2 ^ 32 < 2 ^ 32)%N as Hh.
  { apply N.Div0.div_lt_upper_bound. unfold u64_max in Hs. simpl. lia. }
  rewrite N.shiftr_div_pow2, (N.mod_small (sequence / 2 ^ 32)) by done.
  pose proof (N.mod_lt sequence (2 ^ 32) ltac:(done)) as Hl.
  split; [done|]. split; [change (N.ones 32) with (2 ^ 32 - 1)%N; lia|].
  split; [change (N.ones 32) with (2 ^ 32 - 1)%N; lia|].
  unfold join_input_sequence. rewrite <- N.land_ones, <- N.shiftr_div_pow2, <- N.ldiff_ones_r, N.lor_comm.
  assert (N.lor (N.land sequence (N.ones 32)) (N.ldiff sequence (N.ones 32)) = sequence) as ->.
  { apply N.bits_inj. intros k. rewrite N.lor_spec, N.land_spec, N.ldiff_spec.
    destruct (N.testbit sequence k), (N.testbit (N.ones 32) k); done. }
  apply N.eqb_neq in Hn. by rewrite Hn.
Qed.

Example input_sequence_words :
  split_input_sequence (2 ^ 32 + 5) = Some (1, 5)%N /\ join_input_sequence 1 5 = Some (2 ^ 32 + 5)%N /\
  split_input_sequence 0 = None.
Proof. by vm_compute. Qed.
