(* ===== verification/Float.v ===== *)
(** * Float: [f32] and [f64]

    IEEE 754 arithmetic with the Standard Library's executable specification
    [SpecFloat], at the two precisions Rust has, with the comparisons, the
    rounding functions and the saturating integer casts the source uses. *)

From Stdlib Require Export SpecFloat.
From S2P Require Import Prelude.

Definition float : Type := spec_float.

(** ** Comparisons *)

Definition is_nan (x : float) : bool := match x with S754_nan => true | _ => false end.
(** [x <= y] and [x < y]: false on a NaN. *)
Definition fle (x y : float) : bool := SFleb x y.
Definition flt (x y : float) : bool := SFltb x y.
(** [f.max(g)] and [f.min(g)]: the other operand when one is NaN. *)
Definition fmax (x y : float) : float := if is_nan x then y else if flt x y then y else x.
Definition fmin (x y : float) : float := if is_nan x then y else if flt y x then y else x.

(** ** Integers *)

(** The integer [m * 2 ^ e] rounded down, up, and half away from zero, as
    [round], [floor] and [ceil] of a magnitude; [e] is negative. *)
Definition shift_floor (m : Z) (e : Z) : Z := Z.shiftr m (- e).
Definition shift_ceil (m : Z) (e : Z) : Z := (- Z.shiftr (- m) (- e))%Z.
Definition shift_round (m : Z) (e : Z) : Z := Z.shiftr (m + Z.shiftl 1 (- e - 1)) (- e).

Definition signed (negative : bool) (m : positive) : Z := if negative then Zneg m else Zpos m.

(** [value as iN]: truncation towards zero, saturating, zero for a NaN. *)
Definition saturate (low high : Z) (x : float) : Z :=
  match x with
  | S754_nan | S754_zero _ => 0
  | S754_infinity negative => if negative then low else high
  | S754_finite negative m e =>
      let magnitude := if (0 <=? e)%Z then Z.shiftl (Zpos m) e else shift_floor (Zpos m) e in
      Z.max low (Z.min high (if negative then - magnitude else magnitude))
  end%Z.

(** ** The two formats *)

Section Format.
Variables prec emax : Z.

(** The nearest value of an integer. *)
Definition of_int (z : Z) : float := binary_normalize prec emax z 0 false.

(** Integral values computed on the integer of a value with a fraction: the
    sign of a zero is kept. *)
Definition integral (f : bool -> positive -> Z -> Z) (x : float) : float :=
  match x with
  | S754_finite negative m e =>
      if (0 <=? e)%Z then x else binary_normalize prec emax (f negative m e) 0 negative
  | _ => x
  end.
Definition floor_of : float -> float := integral (fun negative m e => shift_floor (signed negative m) e).
Definition ceil_of : float -> float := integral (fun negative m e => shift_ceil (signed negative m) e).
(** [f.round()]: half-way cases away from zero. *)
Definition round_of : float -> float := integral (fun negative m e =>
  if negative then (- shift_round (Zpos m) e)%Z else shift_round (Zpos m) e).
End Format.

Module F32.
Definition of_Z : Z -> float := of_int 24 128.
Definition add : float -> float -> float := SFadd 24 128.
Definition sub : float -> float -> float := SFsub 24 128.
Definition mul : float -> float -> float := SFmul 24 128.
Definition div : float -> float -> float := SFdiv 24 128.
(** The literal [n / d]: both integers are exact, so is the nearest value. *)
Definition lit (n d : Z) : float := div (of_Z n) (of_Z d).
Definition floor : float -> float := floor_of 24 128.
Definition ceil : float -> float := ceil_of 24 128.
Definition round : float -> float := round_of 24 128.
End F32.

Module F64.
Definition of_Z : Z -> float := of_int 53 1024.
Definition add : float -> float -> float := SFadd 53 1024.
Definition sub : float -> float -> float := SFsub 53 1024.
Definition mul : float -> float -> float := SFmul 53 1024.
Definition div : float -> float -> float := SFdiv 53 1024.
Definition lit (n d : Z) : float := div (of_Z n) (of_Z d).
Definition floor : float -> float := floor_of 53 1024.
Definition ceil : float -> float := ceil_of 53 1024.
Definition round : float -> float := round_of 53 1024.
End F64.

Definition to_i32 : float -> Z := saturate (- 2 ^ 31) (2 ^ 31 - 1).

Example float_rounding :
  to_i32 (F64.round (F64.lit 5 2)) = 3%Z /\ to_i32 (F64.round (F64.lit (-5) 2)) = (-3)%Z /\
  to_i32 (F64.lit (-5) 2) = (-2)%Z /\ to_i32 (F64.floor (F64.lit (-5) 2)) = (-3)%Z /\
  to_i32 (F64.ceil (F64.lit 5 2)) = 3%Z /\ F64.ceil (F64.lit (-1) 2) = S754_zero true /\
  to_i32 (F64.div (F64.of_Z 1) (S754_zero false)) = (2 ^ 31 - 1)%Z /\
  F64.add (F64.lit 1 10) (F64.lit 2 10) <> F64.lit 3 10.
Proof. vm_compute. repeat split; discriminate. Qed.

(** A saturating cast lands in its range. *)
Lemma saturate_range low high x : (low <= 0 <= high)%Z -> (low <= saturate low high x <= high)%Z.
Proof. intros H. destruct x as [|[]| |]; cbn; lia. Qed.
