(* ===== verification/Router.v ===== *)
(** * Router: which surface a contact belongs to

    Models [crates/touchbar-sessiond/src/input.rs]: hit testing against the
    surfaces on the bar, and the capture that keeps a contact with its surface
    until it ends.  The captures are a hash map: it is listed in the order of
    the contacts, which the code leaves open. *)

From S2P Require Import Prelude BTree Float Profiles.

#[local] Set Warnings "-register-all".

Inductive Phase := Down | Motion | Up | Cancel.
#[export] Instance Phase_eq_dec : EqDecision Phase.
Proof. solve_decision. Defined.

Record Contact := { co_id : N; co_phase : Phase; co_x : float; co_y : float; co_time_ms : N }.

Section Router.
Context {K : Type} `{EqDecision K}.

Record Target := {
  tg_key : K;
  tg_x : float;
  tg_y : float;
  tg_width : float;
  tg_height : float;
  tg_layer : N;
  tg_visible : bool;
}.

Definition target_contains (self : Target) (x y : float) : bool :=
  tg_visible self
  && fle (tg_x self) x
  && fle x (F64.add (tg_x self) (tg_width self))
  && fle (tg_y self) y
  && fle y (F64.add (tg_y self) (tg_height self)).

Record RoutedContact := {
  ro_target : K;
  ro_id : N;
  ro_phase : Phase;
  ro_local_x : float;
  ro_local_y : float;
  ro_time_ms : N;
}.

Abbreviation Captures := (list (N * K)).

Definition compare_layers (left right : Target) : comparison := (tg_layer left ?= tg_layer right)%N.
Definition hit_target (x y : float) (targets : list Target) : option K :=
  tg_key <$> max_by compare_layers (List.filter (fun target => target_contains target x y) targets).

Definition ends (phase : Phase) : bool := match phase with Up | Cancel => true | Down | Motion => false end.

Definition route (captures : Captures) (contact : Contact) (targets : list Target)
  : Captures * option RoutedContact :=
  let captured :=
    match co_phase contact with
    | Down =>
        if bt_contains (co_id contact) captures then (captures, None)
        else match hit_target (co_x contact) (co_y contact) targets with
             | None => (captures, None)
             | Some key => (bt_insert (co_id contact) key captures, Some key)
             end
    | Motion | Up | Cancel => (captures, bt_get (co_id contact) captures)
    end in
  let '(captures, key) := captured in
  match key with
  | None => (captures, None)
  | Some key =>
      match List.find (fun target => bool_decide (tg_key target = key)) targets with
      | None => (captures, None)
      | Some target =>
          (if ends (co_phase contact) then bt_remove (co_id contact) captures else captures,
           Some {| ro_target := key; ro_id := co_id contact; ro_phase := co_phase contact;
                   ro_local_x := F64.sub (co_x contact) (tg_x target);
                   ro_local_y := F64.sub (co_y contact) (tg_y target);
                   ro_time_ms := co_time_ms contact |})
      end
  end.

Definition is_captured_by (captures : Captures) (contact_id : N) (target : K) : bool :=
  bool_decide (bt_get contact_id captures = Some target).
Definition captured_target (captures : Captures) (contact_id : N) : option K := bt_get contact_id captures.

(** The captures, and the target before. *)
Definition retarget (captures : Captures) (contact_id : N) (target : K) : Captures * option K :=
  match bt_get contact_id captures with
  | None => (captures, None)
  | Some captured => (bt_insert contact_id target captures, Some captured)
  end.

Definition cancel_target (captures : Captures) (target : K) : Captures * list N :=
  (List.filter (fun e : N * K => negb (bool_decide (e.2 = target))) captures,
   fst <$> List.filter (fun e : N * K => bool_decide (e.2 = target)) captures).

(** [drain]: nothing stays. *)
Definition cancel_all (captures : Captures) : Captures * list (N * K) := ([], captures).

(** ** What routing does *)

Lemma hit_target_spec x y targets key : hit_target x y targets = Some key ->
  exists target, target ∈ targets /\ tg_key target = key /\ target_contains target x y = true /\
    forall other, other ∈ targets -> target_contains other x y = true -> (tg_layer other <= tg_layer target)%N.
Proof.
  unfold hit_target, max_by. intros H.
  assert (Hgen : forall l best r,
    (forall b, best = Some b -> b ∈ targets /\ target_contains b x y = true) ->
    (forall t, t ∈ l -> t ∈ targets /\ target_contains t x y = true) ->
    fold_left (fun best a => match best with None => Some a
      | Some b => match compare_layers b a with Gt => Some b | _ => Some a end end) l best = Some r ->
    (r ∈ targets /\ target_contains r x y = true) /\ (forall b, best = Some b -> (tg_layer b <= tg_layer r)%N) /\
    forall t, t ∈ l -> (tg_layer t <= tg_layer r)%N).
  { induction l as [|a l IH]; intros best r Hb Hl Hr; cbn in Hr.
    { subst. split; [by apply Hb|]. split; [by intros ? [= ->]|by intros ? ?%elem_of_nil]. }
    apply IH in Hr as (Hin & Hbest & Hrest); [| |intros t Ht; apply Hl; set_solver].
    - split; [done|]. destruct best as [b|].
      + unfold compare_layers in Hbest. destruct (N.compare_spec (tg_layer b) (tg_layer a)) as [Hc|Hc|Hc];
          specialize (Hbest _ eq_refl); (split; [intros ? [= <-]; lia|]);
          intros t [->|Ht]%elem_of_cons; try lia; by apply Hrest.
      + specialize (Hbest _ eq_refl). split; [done|]. intros t [->|Ht]%elem_of_cons; [done|by apply Hrest].
    - intros b. destruct best as [c|]; [destruct (compare_layers c a)|]; intros [= <-];
        first [by apply Hb | by apply Hl; set_solver]. }
  destruct (fold_left _ _ None) as [target|] eqn:Hf; [|done]. injection H as <-.
  destruct (Hgen (List.filter (fun target => target_contains target x y) targets) None target)
    as ([Hin Hc] & _ & Hall); [intros ? [=]| |exact Hf|].
  { intros t Ht%list_elem_of_In%filter_In. by rewrite list_elem_of_In. }
  exists target. repeat split; try done. intros other Ho Hoc. apply Hall. apply list_elem_of_In, filter_In.
  by rewrite <- list_elem_of_In.
Qed.

(** Every contact is routed to the surface that captured it: a new contact to
    the topmost surface under it, the others to their surface wherever they
    are, with the point in that surface's coordinates.  Only the end of a
    contact releases it. *)
Theorem route_correct (captures captures' : Captures) (contact : Contact) (targets : list Target)
  (routed : RoutedContact) (Hroute : route captures contact targets = (captures', Some routed)) :
  ro_id routed = co_id contact /\ ro_phase routed = co_phase contact /\
  (exists target, target ∈ targets /\ tg_key target = ro_target routed /\
     ro_local_x routed = F64.sub (co_x contact) (tg_x target) /\
     ro_local_y routed = F64.sub (co_y contact) (tg_y target)) /\
  match co_phase contact with
  | Down => bt_get (co_id contact) captures = None /\
      captures' = bt_insert (co_id contact) (ro_target routed) captures /\
      exists target, target ∈ targets /\ tg_key target = ro_target routed /\
        target_contains target (co_x contact) (co_y contact) = true /\
        forall other, other ∈ targets -> target_contains other (co_x contact) (co_y contact) = true ->
          (tg_layer other <= tg_layer target)%N
  | Motion => bt_get (co_id contact) captures = Some (ro_target routed) /\ captures' = captures
  | Up | Cancel => bt_get (co_id contact) captures = Some (ro_target routed) /\
      captures' = bt_remove (co_id contact) captures
  end.
Proof.
  unfold route in Hroute.
  assert (Hfind : forall key target, List.find (fun target => bool_decide (tg_key target = key)) targets = Some target ->
    target ∈ targets /\ tg_key target = key).
  { intros key target [Hin Hk]%List.find_some. apply bool_decide_eq_true in Hk. by rewrite list_elem_of_In. }
  destruct (co_phase contact) eqn:Hp; cbn [ends] in *.
  1: { destruct (bt_contains (co_id contact) captures) eqn:Hc; [done|]. apply bt_contains_false in Hc.
       destruct (hit_target _ _ targets) as [key|] eqn:Hh; [|done].
       destruct (List.find _ targets) as [target|] eqn:Hf; [|done]. injection Hroute as <- <-.
       apply Hfind in Hf as [? ?]. cbn. do 3 (split; [by eauto|]). split; [done|]. split; [done|]. by apply hit_target_spec. }
  all: destruct (bt_get (co_id contact) captures) as [key|] eqn:Hg; [|done];
       destruct (List.find _ targets) as [target|] eqn:Hf; [|done]; injection Hroute as <- <-;
       apply Hfind in Hf as [? ?]; cbn; do 3 (split; [by eauto|]); done.
Qed.

End Router.

Arguments Target : clear implicits.
Arguments RoutedContact : clear implicits.

(** The tests of the module. *)
Definition at_point (id : N) (phase : Phase) (x y : Z) : Contact :=
  {| co_id := id; co_phase := phase; co_x := F64.of_Z x; co_y := F64.of_Z y; co_time_ms := 1 |}.
Definition test_target (key : N) (x width : Z) (layer : N) : Target N :=
  {| tg_key := key; tg_x := F64.of_Z x; tg_y := F64.of_Z 0; tg_width := F64.of_Z width;
     tg_height := F64.of_Z 60; tg_layer := layer; tg_visible := true |}.

Lemma route_correct_witness :
  exists routed, route [] (at_point 7 Down 20 12) [test_target 1 0 100 1; test_target 2 10 80 2]
    = ([(7%N, 2%N)], Some routed) /\ ro_local_x routed = F64.of_Z 10 /\
    bt_get 7%N [(7%N, 2%N)] = Some (ro_target routed).
Proof.
  destruct (route [] (at_point 7 Down 20 12) [test_target 1 0 100 1; test_target 2 10 80 2]) as [captures [routed|]] eqn:E.
  - pose proof (route_correct _ _ _ _ _ E) as (_ & _ & _ & _ & Hc & _). vm_compute in E. injection E as <- <-.
    eexists. split; [done|]. split; [by vm_compute|]. by vm_compute.
  - vm_compute in E. discriminate E.
Defined.
