(* ===== verification/Dispatch.v ===== *)
(** * Dispatch: touches of the session

    Models the touch handling of [crates/touchbar-sessiond/src/main.rs]:
    which surfaces are targets while content is presented, the delivery of a
    contact to its surface with its sequence number and origin, the transfer
    of a contact to a presented neighbour, and the cancellation of contacts.
    What these do to other processes and to the screen is listed as
    [Effect]s, in order; laying out the bar again is one of them.  The
    presented items and whether a selection dismisses them come from the
    catalog of the plugins and are kept with the presentation.  A hash map of
    the code is a sorted association list.  [None] is a panic.  Theorems:
    [DispatchSpec]. *)

From S2P Require Import Prelude BTree Float Layout LayoutSpec Model Profiles Config LiveProfiles Router.

#[local] Set Warnings "-register-all".

Inductive InputOrigin := Physical | Synthetic.
#[export] Instance InputOrigin_eq_dec : EqDecision InputOrigin.
Proof. solve_decision. Defined.
Inductive DismissReason := OutsidePress | Selection | SourceHidden.
Inductive SurfaceKind := ItemSurface | BackdropSurface.
#[export] Instance SurfaceKind_eq_dec : EqDecision SurfaceKind.
Proof. solve_decision. Defined.

(** [ObjectId] *)
Definition ObjectId : Type := N.

Record LayerGeometry := { lg_x : N; lg_width : N; lg_height : N; lg_z_index : N }.
Record SurfaceState := {
  su_kind : SurfaceKind;
  su_layout_id : string;
  su_compact_spec : ItemSpec;
  su_layer_id : N;
  su_geometry : LayerGeometry;
  su_visible : bool;
}.
(** [ap_items] are the items of the presented bar, [ap_dismiss_on_selection]
    what the catalog says of it. *)
Record ActivePresentation := {
  ap_surface : ObjectId;
  ap_session_id : N;
  ap_persistent : bool;
  ap_items : list string;
  ap_dismiss_on_selection : bool;
}.

Record Session := {
  se_surfaces : list (ObjectId * SurfaceState);
  se_live_profiles : option LiveProfiles;
  se_input : list (N * ObjectId);
  se_next_input_sequence : N;
  se_input_sequences : list (N * N);
  se_input_origins : list (N * InputOrigin);
  se_active_presentation : option ActivePresentation;
  se_backdrop_surface : option ObjectId;
}.

Inductive Effect :=
| TouchDown (target : ObjectId) (time_ms contact_id : N) (local_x local_y : float) (sequence : N) (origin : InputOrigin)
| TouchMotion (target : ObjectId) (time_ms contact_id : N) (local_x local_y : float) (sequence : N) (origin : InputOrigin)
| TouchUp (target : ObjectId) (time_ms contact_id : N) (local_x local_y : float) (sequence : N) (origin : InputOrigin)
| TouchCancel (target : ObjectId) (time_ms contact_id : N) (sequence : N) (origin : InputOrigin)
| PresentationEnded (target : ObjectId) (session_id : N) (reason : DismissReason)
| RemoveLayer (layer_id : N)
| ApplyProfileSnapshot (snapshot : Snapshot)
| RelayoutCompact.

Definition with_input (s : Session) (input : list (N * ObjectId)) : Session :=
  {| se_surfaces := se_surfaces s; se_live_profiles := se_live_profiles s; se_input := input;
     se_next_input_sequence := se_next_input_sequence s; se_input_sequences := se_input_sequences s;
     se_input_origins := se_input_origins s; se_active_presentation := se_active_presentation s;
     se_backdrop_surface := se_backdrop_surface s |}.
Definition with_sequences (s : Session) (next : N) (sequences : list (N * N)) (origins : list (N * InputOrigin))
  : Session :=
  {| se_surfaces := se_surfaces s; se_live_profiles := se_live_profiles s; se_input := se_input s;
     se_next_input_sequence := next; se_input_sequences := sequences;
     se_input_origins := origins; se_active_presentation := se_active_presentation s;
     se_backdrop_surface := se_backdrop_surface s |}.
Definition with_live_profiles (s : Session) (profiles : option LiveProfiles) : Session :=
  {| se_surfaces := se_surfaces s; se_live_profiles := profiles; se_input := se_input s;
     se_next_input_sequence := se_next_input_sequence s; se_input_sequences := se_input_sequences s;
     se_input_origins := se_input_origins s; se_active_presentation := se_active_presentation s;
     se_backdrop_surface := se_backdrop_surface s |}.
Definition with_presentation (s : Session) (presentation : option ActivePresentation) : Session :=
  {| se_surfaces := se_surfaces s; se_live_profiles := se_live_profiles s; se_input := se_input s;
     se_next_input_sequence := se_next_input_sequence s; se_input_sequences := se_input_sequences s;
     se_input_origins := se_input_origins s; se_active_presentation := presentation;
     se_backdrop_surface := se_backdrop_surface s |}.
Definition with_surfaces (s : Session) (surfaces : list (ObjectId * SurfaceState)) (backdrop : option ObjectId)
  : Session :=
  {| se_surfaces := surfaces; se_live_profiles := se_live_profiles s; se_input := se_input s;
     se_next_input_sequence := se_next_input_sequence s; se_input_sequences := se_input_sequences s;
     se_input_origins := se_input_origins s; se_active_presentation := se_active_presentation s;
     se_backdrop_surface := backdrop |}.

(** ** Targets *)

Definition active_presentation_items (s : Session) : list ObjectId :=
  match se_active_presentation s with
  | None => []
  | Some presentation =>
      let presented := List.filter (fun e : ObjectId * SurfaceState =>
                         set_contains (it_id (su_compact_spec e.2)) (ap_items presentation)) (se_surfaces s) in
      ap_surface presentation
        :: List.filter (fun id => negb (id =? ap_surface presentation)%N) (presented.*1)
  end.

Definition input_target (e : ObjectId * SurfaceState) : Target ObjectId :=
  let geometry := su_geometry e.2 in
  {| tg_key := e.1;
     tg_x := F64.of_Z (Z.of_N (lg_x geometry));
     tg_y := F64.of_Z 0;
     tg_width := F64.of_Z (Z.of_N (lg_width geometry));
     tg_height := F64.of_Z (Z.of_N (lg_height geometry));
     tg_layer := N.lor (N.shiftl (lg_z_index geometry) 32) (su_layer_id e.2);
     tg_visible := su_visible e.2 |}.
Definition is_target (s : Session) (e : ObjectId * SurfaceState) : bool :=
  bool_decide (su_kind e.2 = ItemSurface)
  && match se_active_presentation s with
     | None => true
     | Some _ => existsb (fun id => id =? e.1)%N (active_presentation_items s)
     end.
Definition input_targets (s : Session) : list (Target ObjectId) :=
  List.map input_target (List.filter (is_target s) (se_surfaces s)).

Definition dismisses_presentation_on_selection (s : Session) (target : ObjectId) : bool :=
  match se_active_presentation s with
  | None => false
  | Some presentation =>
      if negb (ap_persistent presentation) then true
      else if (ap_surface presentation =? target)%N then false
      else bt_contains (ap_surface presentation) (se_surfaces s) && ap_dismiss_on_selection presentation
  end.

(** ** Delivery *)

(** [split_input_sequence(..).expect(..)] *)
Definition allocated (sequence : N) : option N := if (sequence =? 0)%N then None else Some sequence.

Definition emit_surface_touch (s : Session) (target : ObjectId) (phase : Phase) (time_ms contact_id : N)
  (local_x local_y : float) (input_sequence : N) (origin : InputOrigin) : option (list Effect) :=
  match bt_get target (se_surfaces s) with
  | None => Some []
  | Some _ =>
      sequence ← allocated input_sequence;
      Some [match phase with
            | Down => TouchDown target time_ms contact_id local_x local_y sequence origin
            | Motion => TouchMotion target time_ms contact_id local_x local_y sequence origin
            | Up => TouchUp target time_ms contact_id local_x local_y sequence origin
            | Cancel => TouchCancel target time_ms contact_id sequence origin
            end]
  end.

Definition restore_compact_with_reason (s : Session) (reason : DismissReason) : Session * list Effect :=
  match se_active_presentation s with
  | None => (s, [])
  | Some presentation =>
      (with_presentation s None,
       (if bt_contains (ap_surface presentation) (se_surfaces s)
        then [PresentationEnded (ap_surface presentation) (ap_session_id presentation) reason] else [])
       ++ [RelayoutCompact])
  end.

(** The transfer of a contact while content is presented transiently. *)
Definition transfer (s : Session) (contact : Contact) (targets : list (Target ObjectId))
  : option (Session * list Effect) :=
  let transient := match se_active_presentation s with
                   | Some presentation => negb (ap_persistent presentation)
                   | None => false
                   end in
  let moved := match co_phase contact with Motion | Up => true | Down | Cancel => false end in
  match captured_target (se_input s) (co_id contact), hit_target (co_x contact) (co_y contact) targets,
        bt_get (co_id contact) (se_input_sequences s), bt_get (co_id contact) (se_input_origins s) with
  | Some current, Some target, Some sequence, Some origin =>
      if transient && moved && negb (target =? current)%N then
        cancelled ← emit_surface_touch s current Cancel (co_time_ms contact) (co_id contact)
                      (F64.of_Z 0) (F64.of_Z 0) sequence origin;
        let s := with_input s (retarget (se_input s) (co_id contact) target).1 in
        down ← match bt_get target (se_surfaces s) with
               | None => Some []
               | Some surface =>
                   emit_surface_touch s target Down (co_time_ms contact) (co_id contact)
                     (F64.sub (co_x contact) (F64.of_Z (Z.of_N (lg_x (su_geometry surface))))) (co_y contact)
                     sequence origin
               end;
        Some (s, cancelled ++ down)
      else Some (s, [])
  | _, _, _, _ => Some (s, [])
  end.

(** The sequence of a routed contact; [None] when the touch is dropped. *)
Definition take_sequence (s : Session) (routed : RoutedContact ObjectId) (origin : InputOrigin)
  : Session * option N :=
  let id := ro_id routed in
  match ro_phase routed with
  | Down =>
      let sequence := se_next_input_sequence s in
      match checked_add64 sequence 1 with
      | None => (s, None)
      | Some next =>
          (with_sequences s next (bt_insert id sequence (se_input_sequences s))
             (bt_insert id origin (se_input_origins s)), Some sequence)
      end
  | Motion =>
      if negb (bool_decide (bt_get id (se_input_origins s) = Some origin)) then (s, None)
      else (s, bt_get id (se_input_sequences s))
  | Up | Cancel =>
      let removed := bt_get id (se_input_origins s) in
      let s := with_sequences s (se_next_input_sequence s) (se_input_sequences s)
                 (bt_remove id (se_input_origins s)) in
      if negb (bool_decide (removed = Some origin)) then (s, None)
      else (with_sequences s (se_next_input_sequence s) (bt_remove id (se_input_sequences s)) (se_input_origins s),
            bt_get id (se_input_sequences s))
  end.

(** [capture_ended]: an error is reported and gives no snapshot. *)
Definition end_capture (s : Session) (contact_id : N) : option (Session * option Snapshot) :=
  match se_live_profiles s with
  | None => Some (s, None)
  | Some profiles =>
      answer ← live_capture_ended profiles contact_id;
      let '(profiles, r) := answer in
      Some (with_live_profiles s (Some profiles), match r with Ok snapshot => snapshot | Err _ => None end)
  end.

Definition applied (snapshot : option Snapshot) : list Effect :=
  match snapshot with Some snapshot => [ApplyProfileSnapshot snapshot] | None => [] end.

(** A routed contact is delivered. *)
Definition deliver (s : Session) (routed : RoutedContact ObjectId) (origin : InputOrigin) (sequence : N)
  : option (Session * list Effect * bool) :=
  let dismiss_on_selection :=
    bool_decide (ro_phase routed = Up) && dismisses_presentation_on_selection s (ro_target routed) in
  touched ← emit_surface_touch s (ro_target routed) (ro_phase routed) (ro_time_ms routed) (ro_id routed)
              (ro_local_x routed) (ro_local_y routed) sequence origin;
  committed ← match ro_phase routed with
              | Down =>
                  Some (with_live_profiles s
                          ((fun profiles => live_capture_started profiles (ro_id routed)) <$> se_live_profiles s), None)
              | Up | Cancel => end_capture s (ro_id routed)
              | Motion => Some (s, None)
              end;
  let '(s, committed) := committed in
  let '(s, restored) := if dismiss_on_selection then restore_compact_with_reason s Selection else (s, []) in
  Some (s, touched ++ applied committed ++ restored, true).

Definition dispatch_touch (s : Session) (contact : Contact) (origin : InputOrigin)
  : option (Session * list Effect * bool) :=
  let targets := input_targets s in
  transferred ← transfer s contact targets;
  let '(s, moved) := transferred in
  let '(input, routed) := route (se_input s) contact targets in
  let s := with_input s input in
  match routed with
  | None =>
      if bool_decide (co_phase contact = Down)
         && match se_active_presentation s with Some presentation => ap_persistent presentation | None => false end
      then let '(s, restored) := restore_compact_with_reason s OutsidePress in Some (s, moved ++ restored, true)
      else Some (s, moved, false)
  | Some routed =>
      let '(s, sequence) := take_sequence s routed origin in
      match sequence with
      | None => Some (s, moved, false)
      | Some sequence =>
          delivered ← deliver s routed origin sequence;
          let '(s, effects, handled) := delivered in
          Some (s, moved ++ effects, handled)
      end
  end.

(** ** Cancelling *)

(** [snapshot.or(deferred)] *)
Definition latest (snapshot deferred : option Snapshot) : option Snapshot :=
  match snapshot with Some _ => snapshot | None => deferred end.

Definition forget_contact (s : Session) (contact : N) : Session :=
  with_sequences s (se_next_input_sequence s) (bt_remove contact (se_input_sequences s))
    (bt_remove contact (se_input_origins s)).

(** The loop of [cancel_plugin_contacts]. *)
Fixpoint cancel_contacts (s : Session) (time_ms : N) (deferred : option Snapshot) (cancelled : list (N * ObjectId))
  : option (Session * list Effect * option Snapshot) :=
  match cancelled with
  | [] => Some (s, [], deferred)
  | (contact, target) :: cancelled' =>
      match bt_get contact (se_input_sequences s) with
      | None => cancel_contacts s time_ms deferred cancelled'
      | Some sequence =>
          let s := with_sequences s (se_next_input_sequence s) (bt_remove contact (se_input_sequences s))
                     (se_input_origins s) in
          match bt_get contact (se_input_origins s) with
          | None => cancel_contacts s time_ms deferred cancelled'
          | Some origin =>
              let s := forget_contact s contact in
              touched ← emit_surface_touch s target Cancel time_ms contact (F64.of_Z 0) (F64.of_Z 0) sequence origin;
              ended ← end_capture s contact;
              rest ← cancel_contacts ended.1 time_ms (latest ended.2 deferred) cancelled';
              let '(s, effects, deferred) := rest in
              Some (s, touched ++ effects, deferred)
          end
      end
  end.

Definition cancel_plugin_contacts (s : Session) (time_ms : N) : option (Session * list Effect) :=
  let '(input, cancelled) := cancel_all (se_input s) in
  outcome ← cancel_contacts (with_input s input) time_ms None cancelled;
  let '(s, effects, deferred) := outcome in
  Some (s, effects ++ applied deferred).

(** The loop of [remove_surface]. *)
Fixpoint forget_contacts (s : Session) (deferred : option Snapshot) (cancelled : list N)
  : option (Session * option Snapshot) :=
  match cancelled with
  | [] => Some (s, deferred)
  | contact :: cancelled' =>
      ended ← end_capture (forget_contact s contact) contact;
      forget_contacts ended.1 (latest ended.2 deferred) cancelled'
  end.

Definition connected_item_specs (s : Session) : Connected :=
  fold_left (fun specs (e : ObjectId * SurfaceState) =>
               if bool_decide (su_kind e.2 = ItemSurface)
               then bt_insert (su_layout_id e.2) (su_compact_spec e.2) specs else specs)
    (se_surfaces s) [].

(** [try_initialize_live_profiles]: an error is reported by the caller. *)
Definition try_initialize_live_profiles (s : Session) : option (Session * list Effect) :=
  match se_live_profiles s with
  | None => Some (s, [])
  | Some profiles =>
      answer ← try_initialize profiles (connected_item_specs s);
      let '(profiles, r) := answer in
      Some (with_live_profiles s (Some profiles), applied match r with Ok snapshot => snapshot | Err _ => None end)
  end.

Definition remove_surface (s : Session) (id : ObjectId) : option (Session * list Effect) :=
  let was_presentation := existsb (fun item => item =? id)%N (active_presentation_items s) in
  let was_backdrop := bool_decide (se_backdrop_surface s = Some id) in
  let '(input, cancelled) := cancel_target (se_input s) id in
  forgotten ← forget_contacts (with_input s input) None cancelled;
  let '(s, deferred) := forgotten in
  let removed := match bt_get id (se_surfaces s) with
                 | Some surface => [RemoveLayer (su_layer_id surface)]
                 | None => []
                 end in
  let s := with_surfaces s (bt_remove id (se_surfaces s)) (se_backdrop_surface s) in
  let '(s, restored) := if was_presentation then restore_compact_with_reason s SourceHidden else (s, []) in
  let s := if was_backdrop then with_surfaces s (se_surfaces s) None else s in
  initialized ← try_initialize_live_profiles s;
  let '(s, profiles) := initialized in
  Some (s, removed ++ restored ++ applied deferred ++ profiles ++ [RelayoutCompact]).
