(* ===== verification/DispatchSpec.v ===== *)
(** * DispatchSpec: every surface sees well-formed touches

    About [Dispatch]: the touches that surfaces receive follow the touch
    protocol; the four records the session keeps of a contact agree as long as
    contacts end from the origin they began on; two ways in which a gesture is
    lost although its contact ended. *)

From S2P Require Import Prelude BTree Float Layout LayoutSpec Model Profiles ProfilesSpec Config ConfigSpec LiveProfiles LiveProfilesSpec Router Dispatch.

#[local] Set Warnings "-register-all".

(** ** The captured contacts of the profiles *)

Lemma rebuild_captured self connected self' r : rebuild self connected = Some (self', r) ->
  lp_captured_contacts self' = lp_captured_contacts self.
Proof.
  unfold rebuild. destruct (negb _); [by intros [= <- _]|].
  destruct (build _ _ _) as [[built|error]|]; cbn -[publish apply]; [|by intros [= <- _]|done].
  destruct (lp_manual_profile self); cbn -[publish apply]; [|by intros [= <- _]].
  destruct (apply _ _) as [[controller [raw|error]]|]; cbn -[publish]; [by intros [= <- _]..|done].
Qed.

Lemma capture_ended_captured self id self' r : live_capture_ended self id = Some (self', r) ->
  lp_captured_contacts self' = set_remove id (lp_captured_contacts self).
Proof.
  unfold live_capture_ended. set (ended := match lp_controller self with None => _ | Some _ => _ end).
  destruct ended as [controller shown].
  assert (Hpub : forall s, publish s shown = Some (self', r) -> lp_captured_contacts self' = lp_captured_contacts s).
  { intros s. unfold publish. destruct shown; [|by intros [= <- _]]. cbn. by intros [= <- _]. }
  case_bool_decide; [|by intros ->%Hpub].
  cbn -[publish rebuild]. destruct (lp_pending_document self); cbn -[publish rebuild];
    (destruct (lp_pending_connected self); [by intros ->%rebuild_captured|by intros ->%Hpub]).
Qed.

Lemma try_initialize_captured self connected self' r : try_initialize self connected = Some (self', r) ->
  lp_captured_contacts self' = lp_captured_contacts self.
Proof.
  unfold try_initialize. destruct (_ && _); [by intros [= <- _]|].
  case_bool_decide; [by intros ->%rebuild_captured|by intros [= <- _]].
Qed.

(** ** The invariant of the session *)

Record session_inv (s : Session) : Prop := {
  si_sorted : bt_sorted (se_input s);
  si_surfaces : bt_sorted (se_surfaces s);
  si_sequences : forall c, is_Some (bt_get c (se_input_sequences s)) <-> is_Some (bt_get c (se_input s));
  si_origins : forall c, is_Some (bt_get c (se_input_origins s)) <-> is_Some (bt_get c (se_input s));
  si_targets : forall c t, bt_get c (se_input s) = Some t -> is_Some (bt_get t (se_surfaces s));
  si_next : (0 < se_next_input_sequence s)%N;
  si_allocated : forall c q, bt_get c (se_input_sequences s) = Some q -> (0 < q < se_next_input_sequence s)%N;
  si_live : forall profiles, se_live_profiles s = Some profiles ->
    live_inv profiles /\ forall c, c ∈ lp_captured_contacts profiles <-> is_Some (bt_get c (se_input s));
  si_specs : forall id surface, (id, surface) ∈ se_surfaces s -> su_kind surface = ItemSurface ->
    it_id (su_compact_spec surface) = su_layout_id surface;
}.

(** ** The touch protocol

    A surface hears of a contact from a down to an up or a cancel, with motions
    between, all with one sequence number and one origin. *)

Abbreviation Held := (list (N * (ObjectId * N * InputOrigin))).

Definition hold (m : Held) (c : N) (h : ObjectId * N * InputOrigin) (after : Held) : option Held :=
  if bool_decide (bt_get c m = Some h) then Some after else None.
Definition observe (m : Held) (e : Effect) : option Held :=
  match e with
  | TouchDown t _ c _ _ q o => if bt_contains c m then None else Some (bt_insert c (t, q, o) m)
  | TouchMotion t _ c _ _ q o => hold m c (t, q, o) m
  | TouchUp t _ c _ _ q o | TouchCancel t _ c q o => hold m c (t, q, o) (bt_remove c m)
  | _ => Some m
  end.
Fixpoint observe_all (m : Held) (effects : list Effect) : option Held :=
  match effects with
  | [] => Some m
  | e :: effects' => m ← observe m e; observe_all m effects'
  end.

(** What the surfaces hold is what the session recorded. *)
Definition tracks (s : Session) (m : Held) : Prop :=
  forall c, bt_get c m = (t ← bt_get c (se_input s); q ← bt_get c (se_input_sequences s);
                          o ← bt_get c (se_input_origins s); Some (t, q, o)).

Definition follows (s : Session) (effects : list Effect) (s' : Session) : Prop :=
  forall m, tracks s m -> exists m', observe_all m effects = Some m' /\ tracks s' m'.

Lemma observe_all_app a b m : observe_all m (a ++ b) = m' ← observe_all m a; observe_all m' b.
Proof. revert m. induction a as [|e a IH]; intros m; [done|]. cbn. destruct (observe m e); cbn; [apply IH|done]. Qed.

Lemma follows_app s1 s2 s3 a b : follows s1 a s2 -> follows s2 b s3 -> follows s1 (a ++ b) s3.
Proof.
  intros Ha Hb m Hm. destruct (Ha m Hm) as (m1 & H1 & Hm1). destruct (Hb m1 Hm1) as (m2 & H2 & Hm2).
  exists m2. split; [|done]. by rewrite observe_all_app, H1.
Qed.

(** Effects that no surface hears as a touch. *)
Definition silent (e : Effect) : Prop :=
  match e with
  | TouchDown _ _ _ _ _ _ _ | TouchMotion _ _ _ _ _ _ _ | TouchUp _ _ _ _ _ _ _ | TouchCancel _ _ _ _ _ => False
  | _ => True
  end.

(** The parts of the session that record contacts. *)
Definition same_contacts (s s' : Session) : Prop :=
  se_input s' = se_input s /\ se_input_sequences s' = se_input_sequences s /\ se_input_origins s' = se_input_origins s.

Lemma follows_silent s s' effects : same_contacts s s' -> Forall silent effects -> follows s effects s'.
Proof.
  intros (H1 & H2 & H3) He m Hm. exists m. split.
  - induction He as [|e effects He _ IH]; [done|]. by destruct e.
  - intros c. rewrite (Hm c). by rewrite H1, H2, H3.
Qed.

Lemma restore_silent s reason :
  Forall silent (restore_compact_with_reason s reason).2 /\
  same_contacts s (restore_compact_with_reason s reason).1 /\
  (session_inv s -> session_inv (restore_compact_with_reason s reason).1).
Proof.
  unfold restore_compact_with_reason. destruct (se_active_presentation s) as [p|]; cbn.
  - split; [|split; [done|by intros []]]. destruct (bt_contains _ _); repeat constructor.
  - split; [constructor|done].
Qed.

Lemma applied_silent snapshot : Forall silent (applied snapshot).
Proof. by destruct snapshot; repeat constructor. Qed.

(** ** Targets are surfaces *)

Lemma input_targets_surface s key target :
  bt_sorted (se_surfaces s) -> target ∈ input_targets s -> tg_key target = key -> is_Some (bt_get key (se_surfaces s)).
Proof.
  intros Hs Hin <-. unfold input_targets in Hin.
  apply list_elem_of_In, in_map_iff in Hin as (e & <- & [He _]%filter_In). exists e.2. cbn.
  apply bt_get_iff; [done|]. apply list_elem_of_In. by destruct e.
Qed.

Definition touch (phase : Phase) (target : ObjectId) (time_ms contact_id : N) (x y : float) (sequence : N)
  (origin : InputOrigin) : Effect :=
  match phase with
  | Down => TouchDown target time_ms contact_id x y sequence origin
  | Motion => TouchMotion target time_ms contact_id x y sequence origin
  | Up => TouchUp target time_ms contact_id x y sequence origin
  | Cancel => TouchCancel target time_ms contact_id sequence origin
  end.

Lemma emit_ok s target phase time_ms id x y sequence origin :
  is_Some (bt_get target (se_surfaces s)) -> (0 < sequence)%N ->
  emit_surface_touch s target phase time_ms id x y sequence origin =
    Some [touch phase target time_ms id x y sequence origin].
Proof.
  intros [surface Hs] Hq. unfold emit_surface_touch, allocated. rewrite Hs.
  rewrite (proj2 (N.eqb_neq _ _)) by lia. cbn. by destruct phase.
Qed.

Lemma hit_in_surfaces s x y key : session_inv s -> hit_target x y (input_targets s) = Some key ->
  is_Some (bt_get key (se_surfaces s)).
Proof.
  intros Hi Hh. apply hit_target_spec in Hh as (target & Hin & Hk & _).
  eapply input_targets_surface; [apply Hi|exact Hin|exact Hk].
Qed.

(** What neither a transfer nor a routing changes. *)
Definition same_frame (s s' : Session) : Prop :=
  se_surfaces s' = se_surfaces s /\ se_live_profiles s' = se_live_profiles s /\
  se_next_input_sequence s' = se_next_input_sequence s /\
  se_input_sequences s' = se_input_sequences s /\ se_input_origins s' = se_input_origins s /\
  se_active_presentation s' = se_active_presentation s.

Lemma retarget_inv s id target : session_inv s -> is_Some (bt_get id (se_input s)) ->
  is_Some (bt_get target (se_surfaces s)) -> session_inv (with_input s (bt_insert id target (se_input s))).
Proof.
  intros [] Hid Ht.
  assert (Hdom : forall c, is_Some (bt_get c (bt_insert id target (se_input s))) <-> is_Some (bt_get c (se_input s))).
  { intros c. destruct (decide (c = id)) as [->|Hne]; [rewrite bt_get_insert_eq; split; [done|by eexists]|].
    by rewrite bt_get_insert_ne. }
  split; try done; cbn.
  - by apply bt_sorted_insert.
  - intros c. by rewrite Hdom.
  - intros c. by rewrite Hdom.
  - intros c t. destruct (decide (c = id)) as [->|Hne]; [rewrite bt_get_insert_eq; by intros [= <-]|].
    rewrite bt_get_insert_ne by done. apply si_targets0.
  - intros profiles Hp. destruct (si_live0 _ Hp) as [? Hc]. split; [done|]. intros c. by rewrite Hdom, Hc.
Qed.

Lemma transfer_ok s contact : session_inv s ->
  exists s' effects, transfer s contact (input_targets s) = Some (s', effects) /\
    session_inv s' /\ follows s effects s' /\ same_frame s s'.
Proof.
  intros Hi. unfold transfer.
  assert (Hstay : exists s' effects, Some (s, @nil Effect) = Some (s', effects) /\
    session_inv s' /\ follows s effects s' /\ same_frame s s').
  { exists s, []. split; [done|]. split; [done|]. split; [by apply follows_silent; [|constructor]|done]. }
  unfold captured_target. destruct (bt_get (co_id contact) (se_input s)) as [current|] eqn:Hc; [|done].
  destruct (hit_target _ _ _) as [target|] eqn:Hh; [|done].
  destruct (bt_get _ (se_input_sequences s)) as [q|] eqn:Hq; [|done].
  destruct (bt_get _ (se_input_origins s)) as [o|] eqn:Ho; [|done].
  destruct (_ && _ && _); [|done].
  pose proof (hit_in_surfaces _ _ _ _ Hi Hh) as Ht. pose proof (si_allocated _ Hi _ _ Hq) as [Hq0 _].
  rewrite emit_ok by (done || by eapply si_targets). cbn [mbind option_bind].
  unfold retarget. rewrite Hc. cbn [fst].
  set (s1 := with_input s (bt_insert (co_id contact) target (se_input s))).
  change (se_surfaces s1) with (se_surfaces s). destruct Ht as [surface Hs]. rewrite Hs.
  rewrite emit_ok by (done || by exists surface). cbn [mbind option_bind].
  eexists s1, _. split; [done|].
  split; [by apply retarget_inv; [|exists current|exists surface]|]. split; [|done].
  intros m Hm. pose proof (Hm (co_id contact)) as Hmc. rewrite Hc, Hq, Ho in Hmc. cbn in Hmc.
  exists (bt_insert (co_id contact) (target, q, o) (bt_remove (co_id contact) m)). split.
  - cbn. unfold hold. rewrite bool_decide_eq_true_2 by done. cbn.
    assert (Hno : bt_contains (co_id contact) (bt_remove (co_id contact) m) = false).
    { apply bt_contains_false, bt_get_remove_eq. }
    by rewrite Hno.
  - intros c. cbn. destruct (decide (c = co_id contact)) as [->|Hne].
    + rewrite !bt_get_insert_eq, Hq, Ho. done.
    + rewrite !bt_get_insert_ne, bt_get_remove_ne by done. apply Hm.
Qed.

(** ** Delivery *)

Lemma route_none {captures : list (N * ObjectId)} contact targets captures' :
  route captures contact targets = (captures', None) -> captures' = captures.
Proof.
  unfold route. destruct (co_phase contact); cbn [ends].
  1: { destruct (bt_contains _ _); [by intros [= <-]|]. destruct (hit_target _ _ _) as [key|] eqn:Hh; [|by intros [= <-]].
       destruct (List.find _ _) eqn:Hf; [done|]. exfalso.
       apply hit_target_spec in Hh as (target & Hin & Hk & _). apply list_elem_of_In in Hin.
       pose proof (List.find_none _ _ Hf _ Hin) as Hn. by apply bool_decide_eq_false in Hn. }
  all: destruct (bt_get _ _); [|by intros [= <-]]; destruct (List.find _ _); [done|by intros [= <-]].
Qed.

Lemma with_input_same s : with_input s (se_input s) = s.
Proof. by destruct s. Qed.

Lemma end_capture_ok s id : (forall profiles, se_live_profiles s = Some profiles -> live_inv profiles) ->
  exists s' shown, end_capture s id = Some (s', shown) /\
    se_surfaces s' = se_surfaces s /\ same_contacts s s' /\
    se_next_input_sequence s' = se_next_input_sequence s /\ se_active_presentation s' = se_active_presentation s /\
    forall profiles', se_live_profiles s' = Some profiles' -> live_inv profiles' /\
      exists profiles, se_live_profiles s = Some profiles /\
        lp_captured_contacts profiles' = set_remove id (lp_captured_contacts profiles).
Proof.
  intros Hi. unfold end_capture. destruct (se_live_profiles s) as [profiles|] eqn:Hp.
  2:{ exists s, None. repeat (split; [done|]). by rewrite Hp. }
  pose proof (live_capture_ended_ok profiles id (Hi _ eq_refl)) as Ho.
  destruct (live_capture_ended profiles id) as [[profiles' r]|] eqn:He; [|done]. cbn [mbind option_bind].
  eexists _, _. split; [done|]. cbn. repeat (split; [done|]). intros ? [= <-]. destruct Ho as [? _]. split; [done|].
  exists profiles. split; [done|]. by eapply capture_ended_captured.
Qed.

(** The contact of an up or a cancel is forgotten everywhere. *)
Definition forgets (s s' : Session) (id : N) : Prop :=
  forall c, c <> id ->
    bt_get c (se_input s') = bt_get c (se_input s) /\
    bt_get c (se_input_sequences s') = bt_get c (se_input_sequences s) /\
    bt_get c (se_input_origins s') = bt_get c (se_input_origins s).

Lemma forget_inv s s' id : session_inv s -> bt_sorted (se_input s') ->
  se_surfaces s' = se_surfaces s -> se_next_input_sequence s' = se_next_input_sequence s ->
  bt_get id (se_input s') = None -> bt_get id (se_input_sequences s') = None -> bt_get id (se_input_origins s') = None ->
  forgets s s' id ->
  (forall profiles', se_live_profiles s' = Some profiles' -> live_inv profiles' /\
     exists profiles, se_live_profiles s = Some profiles /\
       lp_captured_contacts profiles' = set_remove id (lp_captured_contacts profiles)) ->
  session_inv s'.
Proof.
  intros [] Hsorted Hsu Hnx H1 H2 H3 Hf Hl. split; try done; rewrite ?Hsu, ?Hnx; try done.
  - intros c. destruct (decide (c = id)) as [->|Hne]; [by rewrite H1, H2|].
    destruct (Hf c Hne) as (-> & -> & _). apply si_sequences0.
  - intros c. destruct (decide (c = id)) as [->|Hne]; [by rewrite H1, H3|].
    destruct (Hf c Hne) as (-> & _ & ->). apply si_origins0.
  - intros c t. destruct (decide (c = id)) as [->|Hne]; [by rewrite H1|].
    destruct (Hf c Hne) as (-> & _ & _). apply si_targets0.
  - intros c q. destruct (decide (c = id)) as [->|Hne]; [by rewrite H2|].
    destruct (Hf c Hne) as (_ & -> & _). apply si_allocated0.
  - intros profiles' Hp. destruct (Hl _ Hp) as (Hli & profiles & Hps & Hcap). split; [done|]. intros c.
    destruct (si_live0 _ Hps) as [_ Hc]. rewrite Hcap, elem_of_set_remove, Hc.
    destruct (decide (c = id)) as [->|Hne].
    + rewrite H1. split; [by intros [? _]|by intros [? ?]].
    + destruct (Hf c Hne) as (-> & _ & _). naive_solver.
Qed.

Lemma forget_follows s s' id t q o e : 
  bt_get id (se_input s) = Some t -> bt_get id (se_input_sequences s) = Some q -> bt_get id (se_input_origins s) = Some o ->
  bt_get id (se_input s') = None -> forgets s s' id ->
  (forall m, observe m e = hold m id (t, q, o) (bt_remove id m)) -> follows s [e] s'.
Proof.
  intros Ht Hq Ho H1 Hf He m Hm. exists (bt_remove id m). split.
  - cbn. rewrite He. unfold hold. rewrite bool_decide_eq_true_2; [done|]. by rewrite (Hm id), Ht, Hq, Ho.
  - intros c. destruct (decide (c = id)) as [->|Hne].
    + by rewrite bt_get_remove_eq, H1.
    + rewrite bt_get_remove_ne by done. destruct (Hf c Hne) as (-> & -> & ->). apply Hm.
Qed.

(** The end of a contact comes from where its start came from. *)
Definition fair (s : Session) (contact : Contact) (origin : InputOrigin) : Prop :=
  ends (co_phase contact) = true ->
  forall o, bt_get (co_id contact) (se_input_origins s) = Some o -> o = origin.

(** The state and the effects of a step are well formed. *)
Definition step_ok (s s' : Session) (effects : list Effect) : Prop := session_inv s' /\ follows s effects s'.

Lemma step_app s1 s2 s3 a b : step_ok s1 s2 a -> step_ok s2 s3 b -> step_ok s1 s3 (a ++ b).
Proof. intros [_ Ha] [Hi Hb]. split; [done|]. by eapply follows_app. Qed.

Lemma step_silent s s' effects : session_inv s' -> same_contacts s s' -> Forall silent effects -> step_ok s s' effects.
Proof. intros Hi Hs He. split; [done|]. by apply follows_silent. Qed.

(** A new contact. *)
Lemma deliver_down s routed origin next : session_inv s -> ro_phase routed = Down ->
  bt_get (ro_id routed) (se_input s) = None -> is_Some (bt_get (ro_target routed) (se_surfaces s)) ->
  next = (se_next_input_sequence s + 1)%N ->
  let q := se_next_input_sequence s in
  let s1 := with_sequences (with_input s (bt_insert (ro_id routed) (ro_target routed) (se_input s))) next
              (bt_insert (ro_id routed) q (se_input_sequences s)) (bt_insert (ro_id routed) origin (se_input_origins s)) in
  exists s' effects handled, deliver s1 routed origin q = Some (s', effects, handled) /\ step_ok s s' effects.
Proof.
  intros Hi Hp Hn Ht -> q s1. unfold deliver. rewrite Hp. rewrite (bool_decide_eq_false_2 (Down = Up)) by done.
  cbn [andb]. rewrite emit_ok; [|done|apply Hi]. cbn [mbind option_bind].
  eexists _, _, _. split; [done|]. cbn [applied app touch].
  assert (Hdom : forall (A : Type) (v : A) (m : list (N * A)) c,
    (is_Some (bt_get c m) <-> is_Some (bt_get c (se_input s))) ->
    is_Some (bt_get c (bt_insert (ro_id routed) v m)) <->
    is_Some (bt_get c (bt_insert (ro_id routed) (ro_target routed) (se_input s)))).
  { intros A v m c Hm. destruct (decide (c = ro_id routed)) as [->|Hne];
      [by rewrite !bt_get_insert_eq; split; intros; eexists|by rewrite !bt_get_insert_ne]. }
  destruct Hi. split.
  - split; cbn; try done.
    + by apply bt_sorted_insert.
    + intros c. by apply Hdom.
    + intros c. by apply Hdom.
    + intros c t. destruct (decide (c = ro_id routed)) as [->|Hne]; [rewrite bt_get_insert_eq; by intros [= <-]|].
      rewrite bt_get_insert_ne by done. apply si_targets0.
    + lia.
    + intros c p. destruct (decide (c = ro_id routed)) as [->|Hne].
      * rewrite bt_get_insert_eq. intros [= <-]. unfold q. lia.
      * rewrite bt_get_insert_ne by done. intros Hq. apply si_allocated0 in Hq. lia.
    + intros profiles Hl. destruct (se_live_profiles s) as [ps|]; [|done]. cbn in Hl. injection Hl as <-.
      destruct (si_live0 _ eq_refl) as [Hli Hc]. split; [by apply capture_started_inv|]. intros c. cbn.
      rewrite elem_of_set_add, Hc. destruct (decide (c = ro_id routed)) as [->|Hne].
      * rewrite bt_get_insert_eq. split; [by eexists|by left].
      * rewrite bt_get_insert_ne by done. naive_solver.
  - intros m Hm. exists (bt_insert (ro_id routed) (ro_target routed, q, origin) m). split.
    + cbn. assert (Hno : bt_contains (ro_id routed) m = false).
      { apply bt_contains_false. by rewrite (Hm (ro_id routed)), Hn. }
      by rewrite Hno.
    + intros c. cbn. destruct (decide (c = ro_id routed)) as [->|Hne]; [by rewrite !bt_get_insert_eq|].
      rewrite !bt_get_insert_ne by done. apply Hm.
Qed.

(** A motion changes nothing. *)
Lemma deliver_motion s routed origin q : session_inv s -> ro_phase routed = Motion ->
  bt_get (ro_id routed) (se_input s) = Some (ro_target routed) ->
  bt_get (ro_id routed) (se_input_sequences s) = Some q -> bt_get (ro_id routed) (se_input_origins s) = Some origin ->
  exists s' effects handled, deliver s routed origin q = Some (s', effects, handled) /\ step_ok s s' effects.
Proof.
  intros Hi Hp Hc Hq Ho. unfold deliver. rewrite Hp. rewrite (bool_decide_eq_false_2 (Motion = Up)) by done.
  cbn [andb]. rewrite emit_ok; [|by eapply si_targets|by eapply si_allocated]. cbn [mbind option_bind].
  eexists _, _, _. split; [done|]. split; [done|]. intros m Hm. exists m. split; [|done]. cbn. unfold hold.
  rewrite bool_decide_eq_true_2; [done|]. by rewrite (Hm (ro_id routed)), Hc, Hq, Ho.
Qed.

(** The end of a contact. *)
Lemma deliver_end s routed origin q : session_inv s -> ends (ro_phase routed) = true ->
  bt_get (ro_id routed) (se_input s) = Some (ro_target routed) ->
  bt_get (ro_id routed) (se_input_sequences s) = Some q -> bt_get (ro_id routed) (se_input_origins s) = Some origin ->
  let s1 := with_sequences (with_input s (bt_remove (ro_id routed) (se_input s))) (se_next_input_sequence s)
              (bt_remove (ro_id routed) (se_input_sequences s)) (bt_remove (ro_id routed) (se_input_origins s)) in
  exists s' effects handled, deliver s1 routed origin q = Some (s', effects, handled) /\ step_ok s s' effects.
Proof.
  intros Hi He Hc Hq Ho s1. unfold deliver. set (dismiss := _ && _).
  rewrite emit_ok; [|exact (si_targets _ Hi _ _ Hc)|exact (proj1 (si_allocated _ Hi _ _ Hq))]. cbn [mbind option_bind].
  destruct (end_capture_ok s1 (ro_id routed)) as (s2 & shown & Hend & Hsu & Hsame & Hnx & _ & Hlive).
  { intros profiles Hl. by apply (si_live _ Hi) in Hl as [? _]. }
  assert (Hcommit : match ro_phase routed with
      | Down => Some (with_live_profiles s1 ((fun profiles => live_capture_started profiles (ro_id routed))
                                              <$> se_live_profiles s1), None)
      | Motion => Some (s1, None)
      | Up | Cancel => end_capture s1 (ro_id routed)
      end = Some (s2, shown)) by (by destruct (ro_phase routed)).
  rewrite Hcommit. cbn [mbind option_bind]. destruct Hsame as (Hin & Hse & Hor).
  assert (Hinv : session_inv s2).
  { eapply (forget_inv s s2 (ro_id routed)); try done; rewrite ?Hin, ?Hse, ?Hor; cbn.
    - by apply bt_sorted_remove, Hi.
    - apply bt_get_remove_eq.
    - apply bt_get_remove_eq.
    - apply bt_get_remove_eq.
    - intros c Hne. rewrite Hin, Hse, Hor. cbn. by rewrite !bt_get_remove_ne. }
  assert (Hfollow : follows s [touch (ro_phase routed) (ro_target routed) (ro_time_ms routed) (ro_id routed)
      (ro_local_x routed) (ro_local_y routed) q origin] s2).
  { eapply (forget_follows s s2 (ro_id routed)); try done; rewrite ?Hin; cbn.
    - apply bt_get_remove_eq.
    - intros c Hne. rewrite Hin, Hse, Hor. cbn. by rewrite !bt_get_remove_ne.
    - intros m. by destruct (ro_phase routed). }
  pose proof (restore_silent s2 Selection) as (Hrs & Hrc & Hri).
  destruct (if dismiss then restore_compact_with_reason s2 Selection else (s2, [])) as [s3 restored] eqn:Hd.
  eexists _, _, _. split; [done|].
  assert (Hlast : step_ok s2 s3 (applied shown ++ restored)).
  { destruct dismiss.
    - rewrite Hd in *. cbn in *. apply step_silent; [by apply Hri|done|]. apply Forall_app. by split; [apply applied_silent|].
    - injection Hd as <- <-. apply step_silent; [done|done|]. apply Forall_app. by split; [apply applied_silent|]. }
  by apply (step_app s s2 s3 [_]).
Qed.

(** Every touch the session dispatches reaches surfaces as the touch protocol
    has it: nothing panics, and the session's records of a contact - its
    surface, its sequence number, its origin, and the gesture the profiles
    wait for - agree with each other and with what the surfaces were told. *)
Lemma dispatch_ok s contact origin : session_inv s -> fair s contact origin ->
  (se_next_input_sequence s < u64_max)%N ->
  exists s' effects handled, dispatch_touch s contact origin = Some (s', effects, handled) /\ step_ok s s' effects.
Proof.
  intros Hi Hfair Hnext. unfold dispatch_touch.
  destruct (transfer_ok s contact Hi) as (s1 & moved & -> & Hi1 & Hf1 & Hsu & Hlv & Hnx & Hsq & Hor & Hap).
  cbn [mbind option_bind]. assert (H1 : step_ok s s1 moved) by (by split).
  destruct (route (se_input s1) contact (input_targets s)) as [input [routed|]] eqn:Hroute.
  2:{ apply route_none in Hroute as ->. rewrite with_input_same.
      destruct (_ && _); [|by eexists _, _, _].
      pose proof (restore_silent s1 OutsidePress) as (Hrs & Hrc & Hri).
      destruct (restore_compact_with_reason s1 OutsidePress) as [s2 restored].
      eexists _, _, _. split; [done|]. eapply step_app; [exact H1|]. by apply step_silent; [apply Hri|..]. }
  apply route_correct in Hroute as (Hid & Hph & (target & Hin & Hkey & _) & Hroute).
  rewrite <- Hid in Hroute. unfold fair in Hfair. rewrite <- Hid, <- Hph in Hfair. rewrite <- Hor in Hfair.
  assert (Htarget : is_Some (bt_get (ro_target routed) (se_surfaces s1))).
  { rewrite Hsu. eapply input_targets_surface; [apply Hi|exact Hin|exact Hkey]. }
  assert (Hfinish : forall s2 origin' sequence,
    (exists s' effects handled, deliver s2 routed origin' sequence = Some (s', effects, handled) /\ step_ok s1 s' effects) ->
    exists s' effects handled,
      (delivered ← deliver s2 routed origin' sequence;
       let '(s, effects, handled) := delivered in Some (s, moved ++ effects, handled)) = Some (s', effects, handled) /\
      step_ok s s' effects).
  { intros s2 o q (s' & effects & handled & -> & Hok). eexists _, _, _. split; [done|]. by eapply step_app. }
  unfold take_sequence. rewrite Hph. destruct (co_phase contact) eqn:Hp.
  - destruct Hroute as (Hn & -> & _). cbn [se_next_input_sequence with_input].
    assert (Hadd : checked_add64 (se_next_input_sequence s1) 1 = Some (se_next_input_sequence s1 + 1)%N).
    { apply checked_add64_Some. lia. }
    rewrite Hadd. apply Hfinish. exact (deliver_down s1 routed origin _ Hi1 Hph Hn Htarget eq_refl).
  - destruct Hroute as [Hc ->]. rewrite with_input_same. cbn [with_input].
    case_bool_decide as Ho; cbn [negb]; [|by eexists _, _, _].
    destruct (bt_get (ro_id routed) (se_input_sequences s1)) as [q|] eqn:Hq; [|by eexists _, _, _].
    apply Hfinish. by eapply deliver_motion.
  - destruct Hroute as [Hc ->].
    assert (Hq : is_Some (bt_get (ro_id routed) (se_input_sequences s1))) by (apply (si_sequences _ Hi1); by eexists).
    assert (Ho : is_Some (bt_get (ro_id routed) (se_input_origins s1))) by (apply (si_origins _ Hi1); by eexists).
    destruct Hq as [q Hq], Ho as [o Ho]. pose proof (Hfair ltac:(by rewrite Hph) o Ho) as ->.
    cbn [se_input_origins se_input_sequences with_input with_sequences]. rewrite Ho, Hq.
    rewrite bool_decide_eq_true_2 by done. cbn [negb]. apply Hfinish.
    exact (deliver_end s1 routed origin q Hi1 (f_equal ends Hph) Hc Hq Ho).
  - destruct Hroute as [Hc ->].
    assert (Hq : is_Some (bt_get (ro_id routed) (se_input_sequences s1))) by (apply (si_sequences _ Hi1); by eexists).
    assert (Ho : is_Some (bt_get (ro_id routed) (se_input_origins s1))) by (apply (si_origins _ Hi1); by eexists).
    destruct Hq as [q Hq], Ho as [o Ho]. pose proof (Hfair ltac:(by rewrite Hph) o Ho) as ->.
    cbn [se_input_origins se_input_sequences with_input with_sequences]. rewrite Ho, Hq.
    rewrite bool_decide_eq_true_2 by done. cbn [negb]. apply Hfinish.
    exact (deliver_end s1 routed origin q Hi1 (f_equal ends Hph) Hc Hq Ho).
Qed.

(** ** Cancelling *)


Lemma sorted_cons_fresh {V} (k : N) (v : V) m : bt_sorted ((k, v) :: m) -> bt_sorted m /\ bt_get k m = None.
Proof.
  intros Hs. pose proof (ascending_NoDup _ Hs) as Hd. cbn in Hd. inversion Hd as [|? ? Hn Hd']; subst. split.
  - unfold bt_sorted, bt_keys in *. cbn in Hs. destruct (m.*1); [done|by destruct Hs].
  - by apply bt_get_None.
Qed.

Lemma get_cons {V} (k c : N) (v : V) m : bt_sorted ((k, v) :: m) ->
  bt_get c ((k, v) :: m) = if bool_decide (c = k) then Some v else bt_get c m.
Proof.
  intros Hs. destruct (sorted_cons_fresh _ _ _ Hs) as [Hm Hn]. case_bool_decide as Hc.
  - subst. apply elem_bt_get; [done|]. by left.
  - destruct (bt_get c m) as [w|] eqn:Hg.
    + apply elem_bt_get; [done|]. right. by apply bt_get_elem.
    + apply bt_get_None. cbn. apply bt_get_None in Hg. by intros [?|?]%elem_of_cons.
Qed.

(** The loop of [cancel_plugin_contacts]: every contact that is left gets one
    cancellation.  [with_input s cancelled] is what the surfaces know. *)
Lemma cancel_contacts_ok time_ms cancelled : forall s deferred, session_inv (with_input s cancelled) ->
  exists s' effects deferred', cancel_contacts s time_ms deferred cancelled = Some (s', effects, deferred') /\
    se_input s' = se_input s /\ step_ok (with_input s cancelled) (with_input s' []) effects.
Proof.
  induction cancelled as [|[c t] cancelled IH]; intros s deferred Hi; cbn [cancel_contacts].
  { eexists _, _, _. split; [done|]. split; [done|]. by apply step_silent. }
  pose proof (sorted_cons_fresh _ _ _ (si_sorted _ Hi)) as [Hsorted Hfresh].
  assert (Hc : bt_get c (se_input (with_input s ((c, t) :: cancelled))) = Some t).
  { change (bt_get c ((c, t) :: cancelled) = Some t). rewrite get_cons by exact (si_sorted _ Hi).
    by rewrite bool_decide_eq_true_2. }
  assert (Hq : is_Some (bt_get c (se_input_sequences s))) by (apply (si_sequences _ Hi); by eexists).
  assert (Ho : is_Some (bt_get c (se_input_origins s))) by (apply (si_origins _ Hi); by eexists).
  destruct Hq as [q Hq], Ho as [o Ho]. rewrite Hq. cbn [se_input_origins with_sequences]. rewrite Ho.
  set (s1 := forget_contact _ c).
  rewrite emit_ok; [|exact (si_targets _ Hi _ _ Hc)|exact (proj1 (si_allocated _ Hi _ _ Hq))]. cbn [mbind option_bind].
  destruct (end_capture_ok s1 c) as (s2 & shown & -> & Hsu & (Hin & Hse & Hor) & Hnx & _ & Hlive).
  { intros profiles Hl. by apply (si_live _ Hi) in Hl as [? _]. }
  cbn [mbind option_bind fst snd].
  assert (Hfg : forgets (with_input s ((c, t) :: cancelled)) (with_input s2 cancelled) c).
  { intros d Hd. split.
    - change (bt_get d cancelled = bt_get d ((c, t) :: cancelled)). rewrite get_cons by exact (si_sorted _ Hi).
      by rewrite bool_decide_eq_false_2.
    - cbn [se_input_sequences se_input_origins with_input]. rewrite Hse, Hor. unfold s1, forget_contact.
      cbn [se_input_sequences se_input_origins with_sequences]. by rewrite !bt_get_remove_ne. }
  assert (Hi2 : session_inv (with_input s2 cancelled)).
  { eapply (forget_inv _ _ c Hi); try done.
    - change (bt_get c (se_input_sequences s2) = None). rewrite Hse. exact (bt_get_remove_eq c _).
    - change (bt_get c (se_input_origins s2) = None). rewrite Hor. exact (bt_get_remove_eq c _). }
  destruct (IH s2 (latest shown deferred) Hi2) as (s' & effects & deferred' & -> & Hin' & Hok).
  cbn [mbind option_bind]. eexists _, _, _. split; [done|]. split; [by rewrite Hin', Hin|].
  eapply step_app; [|exact Hok]. split; [done|].
  by eapply (forget_follows _ _ c t q o); try done; cbn.
Qed.

Lemma cancel_plugin_contacts_ok s time_ms : session_inv s ->
  exists s' effects, cancel_plugin_contacts s time_ms = Some (s', effects) /\ step_ok s s' effects /\ se_input s' = [].
Proof.
  intros Hi. unfold cancel_plugin_contacts, cancel_all.
  destruct (cancel_contacts_ok time_ms (se_input s) (with_input s []) None) as (s' & effects & deferred & -> & Hin & Hok).
  { by destruct s. }
  cbn [mbind option_bind]. eexists _, _. split; [done|]. cbn in Hin. split; [|done].
  assert (Hs : with_input s' [] = s') by (rewrite <- Hin; by destruct s').
  rewrite Hs in Hok. assert (Hs2 : with_input (with_input s []) (se_input s) = s) by (by destruct s).
  rewrite Hs2 in Hok. eapply step_app; [exact Hok|]. apply step_silent; [apply Hok|done|apply applied_silent].
Qed.

(** ** Removing a surface *)

(** The captures while the contacts of a surface are forgotten: those of
    other surfaces and those still to forget. *)
Definition remaining (input : list (N * ObjectId)) (id : ObjectId) (contacts : list N) : list (N * ObjectId) :=
  List.filter (fun e : N * ObjectId => negb (bool_decide (e.2 = id)) || bool_decide (e.1 ∈ contacts)) input.

Lemma sorted_filter_entries (f : N * ObjectId -> bool) input : bt_sorted input -> bt_sorted (List.filter f input).
Proof.
  unfold bt_sorted, bt_keys. induction input as [|[k t] l IH]; [done|]. cbn. intros [Hk Hl].
  specialize (IH Hl). destruct (f (k, t)); [|done]. cbn. split; [|done].
  rewrite Forall_forall in *. intros c (e & -> & [He _]%elem_of_filter_b)%list_elem_of_fmap.
  apply Hk. by apply list_elem_of_fmap_2.
Qed.

Lemma get_filter (f : N * ObjectId -> bool) input c : bt_sorted input ->
  bt_get c (List.filter f input) = t ← bt_get c input; if f (c, t) then Some t else None.
Proof.
  intros Hs. pose proof (sorted_filter_entries f input Hs) as Hf.
  destruct (bt_get c input) as [t|] eqn:Hg; cbn.
  - destruct (f (c, t)) eqn:Hft.
    + apply elem_bt_get; [done|]. apply elem_of_filter_b. split; [by apply bt_get_elem|done].
    + apply bt_get_None. intros (e & Heq & [He Hfe]%elem_of_filter_b)%list_elem_of_fmap.
      destruct e as [k u]. cbn in Heq. subst. apply elem_bt_get in He; [|done]. congruence.
  - apply bt_get_None. intros (e & Heq & [He _]%elem_of_filter_b)%list_elem_of_fmap. apply bt_get_None in Hg.
    apply Hg. rewrite Heq. by apply list_elem_of_fmap_2.
Qed.

Lemma forget_contacts_ok input id contacts : bt_sorted input ->
  Forall (fun c => bt_get c input = Some id) contacts -> NoDup contacts -> forall s deferred,
  session_inv (with_input s (remaining input id contacts)) ->
  exists s' deferred', forget_contacts s deferred contacts = Some (s', deferred') /\
    se_input s' = se_input s /\ se_surfaces s' = se_surfaces s /\
    session_inv (with_input s' (remaining input id [])).
Proof.
  intros Hsorted Hc Hd. induction contacts as [|c contacts IH]; intros s deferred Hi.
  { exists s, deferred. do 3 (split; [done|]). done. }
  cbn [forget_contacts]. inversion Hc as [|? ? Hcid Hc']; subst. inversion Hd as [|? ? Hn Hd']; subst.
  destruct (end_capture_ok (forget_contact s c) c) as (s2 & shown & -> & Hsu & (Hin & Hse & Hor) & Hnx & _ & Hlive).
  { intros profiles Hl. by apply (si_live _ Hi) in Hl as [? _]. }
  cbn [mbind option_bind fst snd].
  assert (Hi2 : session_inv (with_input s2 (remaining input id contacts))).
  { eapply (forget_inv _ _ c Hi); try done.
    - by apply sorted_filter_entries.
    - change (bt_get c (remaining input id contacts) = None). unfold remaining. rewrite get_filter, Hcid by done.
      cbn. by rewrite bool_decide_eq_true_2, bool_decide_eq_false_2.
    - change (bt_get c (se_input_sequences s2) = None). rewrite Hse. exact (bt_get_remove_eq c _).
    - change (bt_get c (se_input_origins s2) = None). rewrite Hor. exact (bt_get_remove_eq c _).
    - intros d Hd2. split.
      + change (bt_get d (remaining input id contacts) = bt_get d (remaining input id (c :: contacts))).
        unfold remaining. rewrite !get_filter by done. destruct (bt_get d input) as [t|]; [|done]. cbn.
        rewrite (bool_decide_ext (d ∈ c :: contacts) (d ∈ contacts)); [done|]. rewrite elem_of_cons. naive_solver.
      + cbn [se_input_sequences se_input_origins with_input]. rewrite Hse, Hor. unfold forget_contact.
        cbn [se_input_sequences se_input_origins with_sequences]. by rewrite !bt_get_remove_ne. }
  destruct (IH Hc' Hd' s2 (latest shown deferred) Hi2) as (s' & deferred' & Hf & Hin' & Hsu' & Hi').
  exists s', deferred'. split; [exact Hf|]. split; [by rewrite Hin', Hin|]. split; [by rewrite Hsu', Hsu|done].
Qed.

Lemma connected_specs_ok s : session_inv s -> connected_ok (connected_item_specs s).
Proof.
  intros Hi. unfold connected_item_specs.
  assert (Hgen : forall l specs, (forall id su, (id, su) ∈ l -> (id, su) ∈ se_surfaces s) -> connected_ok specs ->
    connected_ok (fold_left (fun specs (e : ObjectId * SurfaceState) =>
      if bool_decide (su_kind e.2 = ItemSurface)
      then bt_insert (su_layout_id e.2) (su_compact_spec e.2) specs else specs) l specs)).
  { induction l as [|[id su] l IH]; intros specs Hl Hs; [done|]. cbn [fold_left]. apply IH; [set_solver|].
    cbn. case_bool_decide as Hk; [|done]. unfold connected_ok in *. rewrite Forall_forall in *.
    intros e [->|He]%elem_of_bt_insert; [|by apply Hs]. cbn. eapply (si_specs _ Hi); [apply Hl; by left|done]. }
  apply Hgen; [done|constructor].
Qed.

Lemma try_initialize_live_profiles_ok s : session_inv s ->
  exists s' effects, try_initialize_live_profiles s = Some (s', effects) /\ session_inv s' /\
    same_contacts s s' /\ Forall silent effects.
Proof.
  intros Hi. unfold try_initialize_live_profiles. destruct (se_live_profiles s) as [profiles|] eqn:Hl.
  2:{ exists s, []. do 3 (split; [done|]). constructor. }
  pose proof (try_initialize_ok profiles _ (proj1 (si_live _ Hi _ Hl)) (connected_specs_ok s Hi)) as Ho.
  destruct (try_initialize profiles (connected_item_specs s)) as [[profiles' r]|] eqn:Ht; [|done].
  cbn [mbind option_bind]. eexists _, _. split; [done|]. split; [|split; [done|apply applied_silent]].
  pose proof (si_live _ Hi _ Hl) as [_ Hcap]. destruct Hi. split; try done. cbn. intros ? [= <-].
  split; [by destruct Ho|]. by rewrite (try_initialize_captured _ _ _ _ Ht).
Qed.

Lemma remaining_all input id : bt_sorted input -> remaining input id (cancel_target input id).2 = input.
Proof.
  intros Hs. unfold remaining, cancel_target. cbn. 
  rewrite (List.filter_ext_in _ (fun _ => true)).
  - induction input as [|e l IH]; [done|]. cbn. f_equal. apply IH. by destruct e, (sorted_cons_fresh _ _ _ Hs).
  - intros e He%list_elem_of_In. case_bool_decide as Hid; [|done]. cbn. apply bool_decide_eq_true_2.
    apply list_elem_of_fmap_2, elem_of_filter_b. split; [done|]. by apply bool_decide_eq_true_2.
Qed.

Lemma remaining_none input id : remaining input id [] = (cancel_target input id).1.
Proof.
  unfold remaining, cancel_target. cbn. apply List.filter_ext. intros e.
  rewrite (bool_decide_eq_false_2 (e.1 ∈ [])) by (apply not_elem_of_nil). by rewrite orb_false_r.
Qed.

Lemma remove_surface_ok s id : session_inv s ->
  exists s' effects, remove_surface s id = Some (s', effects) /\ session_inv s' /\
    (forall c, bt_get c (se_input s') <> Some id) /\ bt_get id (se_surfaces s') = None.
Proof.
  intros Hi. unfold remove_surface. pose proof (si_sorted _ Hi) as Hsorted.
  pose proof (remaining_all (se_input s) id Hsorted) as Hall. pose proof (remaining_none (se_input s) id) as Hnone.
  assert (Hcontacts : Forall (fun c => bt_get c (se_input s) = Some id) (cancel_target (se_input s) id).2 /\
    NoDup (cancel_target (se_input s) id).2).
  { cbn. split.
    - apply Forall_forall. intros c (e & -> & [He Hid%bool_decide_eq_true]%elem_of_filter_b)%list_elem_of_fmap.
      apply elem_bt_get; [done|]. destruct e. cbn in *. by subst.
    - apply (ascending_NoDup _ (sorted_filter_entries _ _ Hsorted)). }
  destruct (cancel_target (se_input s) id) as [kept contacts]. cbn [fst snd] in *. destruct Hcontacts as [Hcid Hnd].
  destruct (forget_contacts_ok (se_input s) id contacts Hsorted Hcid Hnd (with_input s kept) None)
    as (s1 & deferred & -> & Hin1 & Hsu1 & Hi1).
  { rewrite Hall. by destruct s. }
  cbn [mbind option_bind]. rewrite Hnone in Hi1. cbn in Hin1, Hsu1. rewrite <- Hin1 in Hi1. rewrite with_input_same in Hi1.
  set (s2 := with_surfaces s1 (bt_remove id (se_surfaces s1)) (se_backdrop_surface s1)).
  assert (Hkept : forall c, bt_get c (se_input s1) <> Some id).
  { intros c. rewrite Hin1, <- Hnone. unfold remaining. rewrite get_filter by done.
    destruct (bt_get c (se_input s)) as [t|]; [|done]. cbn.
    rewrite (bool_decide_eq_false_2 (c ∈ [])) by (apply not_elem_of_nil). rewrite orb_false_r.
    case_bool_decide; cbn; congruence. }
  assert (Hi2 : session_inv s2).
  { destruct Hi1. split; try done; cbn.
    - by apply bt_sorted_remove.
    - intros c t Hc. rewrite bt_get_remove_ne; [by eapply si_targets0|]. intros ->. by apply (Hkept c).
    - intros i su [_ Hsu]%elem_of_bt_remove. by eapply si_specs0. }
  assert (Hgone : bt_get id (se_surfaces s2) = None) by apply bt_get_remove_eq.
  destruct (if existsb _ _ then _ else _) as [s3 restored] eqn:H3.
  assert (Hs3 : session_inv s3 /\ se_input s3 = se_input s2 /\ se_surfaces s3 = se_surfaces s2).
  { destruct (existsb _ _); [|by injection H3 as <- _].
    pose proof (restore_silent s2 SourceHidden) as (_ & (Hr & _) & Hri). rewrite H3 in *. cbn in *.
    split; [by apply Hri|]. split; [done|]. unfold restore_compact_with_reason in H3.
    destruct (se_active_presentation s2); by injection H3 as <- _. }
  destruct Hs3 as (Hi3 & Hin3 & Hsu3). set (s4 := if bool_decide _ then _ else _).
  assert (Hs4 : session_inv s4 /\ se_input s4 = se_input s3 /\ se_surfaces s4 = se_surfaces s3).
  { unfold s4. case_bool_decide; [|done]. split; [|done]. by destruct Hi3. }
  destruct Hs4 as (Hi4 & Hin4 & Hsu4).
  destruct (try_initialize_live_profiles_ok s4 Hi4) as (s5 & profiles & Ht & Hi5 & (Hin5 & _) & _).
  rewrite Ht. cbn [mbind option_bind]. eexists _, _. split; [done|]. split; [done|]. split.
  - intros c. rewrite Hin5, Hin4, Hin3. apply Hkept.
  - unfold try_initialize_live_profiles in Ht. 
    assert (Hsu5 : se_surfaces s5 = se_surfaces s4).
    { destruct (se_live_profiles s4); [|by injection Ht as <- _].
      destruct (try_initialize _ _) as [[? ?]|]; [|done]. by injection Ht as <- _. }
    by rewrite Hsu5, Hsu4, Hsu3.
Qed.

(** ** Whatever comes from wherever

    The records of a contact may disagree: an end from another origin than the
    start's releases the capture, but not the sequence number; a start after
    the last sequence number is captured without one.  Still, what surfaces
    hear with one sequence number is a contact. *)

Record contacts_inv (s : Session) : Prop := {
  ci_sorted : bt_sorted (se_input s);
  ci_surfaces : bt_sorted (se_surfaces s);
  ci_origins : forall c o, bt_get c (se_input_origins s) = Some o ->
    is_Some (bt_get c (se_input s)) /\ is_Some (bt_get c (se_input_sequences s));
  ci_targets : forall c t, bt_get c (se_input s) = Some t -> is_Some (bt_get t (se_surfaces s));
  ci_next : (0 < se_next_input_sequence s)%N;
  ci_allocated : forall c q, bt_get c (se_input_sequences s) = Some q -> (0 < q < se_next_input_sequence s)%N;
  ci_distinct : forall c d q, is_Some (bt_get c (se_input_origins s)) -> is_Some (bt_get d (se_input_origins s)) ->
    bt_get c (se_input_sequences s) = Some q -> bt_get d (se_input_sequences s) = Some q -> c = d;
  ci_live : forall profiles, se_live_profiles s = Some profiles -> live_inv profiles;
  ci_specs : forall id surface, (id, surface) ∈ se_surfaces s -> su_kind surface = ItemSurface ->
    it_id (su_compact_spec surface) = su_layout_id surface;
}.

(** What was heard: the sequence numbers that are down with their surface,
    contact and origin; a bound of the numbers heard so far; the contact that
    was just cancelled, and may go down again elsewhere. *)
Record Sounding := {
  sd_down : list (N * (ObjectId * N * InputOrigin));
  sd_bound : N;
  sd_moved : option (N * N * InputOrigin);
}.
Definition silence : Sounding := {| sd_down := []; sd_bound := 0; sd_moved := None |}.
Definition sounding (m : Sounding) (q : N) (h : ObjectId * N * InputOrigin) (after : Sounding) : option Sounding :=
  if bool_decide (bt_get q (sd_down m) = Some h) then Some after else None.
Definition hear (m : Sounding) (e : Effect) : option Sounding :=
  match e with
  | TouchDown t _ c _ _ q o =>
      if negb (bt_contains q (sd_down m)) && ((sd_bound m <=? q)%N || bool_decide (sd_moved m = Some (q, c, o)))
      then Some {| sd_down := bt_insert q (t, c, o) (sd_down m); sd_bound := N.max (sd_bound m) (q + 1); sd_moved := None |}
      else None
  | TouchMotion t _ c _ _ q o =>
      sounding m q (t, c, o) {| sd_down := sd_down m; sd_bound := sd_bound m; sd_moved := None |}
  | TouchUp t _ c _ _ q o =>
      sounding m q (t, c, o) {| sd_down := bt_remove q (sd_down m); sd_bound := sd_bound m; sd_moved := None |}
  | TouchCancel t _ c q o =>
      sounding m q (t, c, o) {| sd_down := bt_remove q (sd_down m); sd_bound := sd_bound m; sd_moved := Some (q, c, o) |}
  | _ => Some m
  end.
Fixpoint hear_all (m : Sounding) (effects : list Effect) : option Sounding :=
  match effects with
  | [] => Some m
  | e :: effects' => m ← hear m e; hear_all m effects'
  end.
Lemma hear_all_app a b m : hear_all m (a ++ b) = m' ← hear_all m a; hear_all m' b.
Proof. revert m. induction a as [|e a IH]; intros m; [done|]. cbn. destruct (hear m e); cbn; [apply IH|done]. Qed.

(** What the session has a record of is down, and later starts are new. *)
Definition heard_of (s : Session) (m : Sounding) : Prop :=
  (forall c t q o, bt_get c (se_input s) = Some t -> bt_get c (se_input_sequences s) = Some q ->
     bt_get c (se_input_origins s) = Some o -> bt_get q (sd_down m) = Some (t, c, o)) /\
  (forall q, is_Some (bt_get q (sd_down m)) -> (q < se_next_input_sequence s)%N) /\
  (sd_bound m <= se_next_input_sequence s)%N.
Definition relays (s : Session) (effects : list Effect) (s' : Session) : Prop :=
  forall m, heard_of s m -> exists m', hear_all m effects = Some m' /\ heard_of s' m'.

Lemma relays_app s1 s2 s3 a b : relays s1 a s2 -> relays s2 b s3 -> relays s1 (a ++ b) s3.
Proof.
  intros Ha Hb m Hm. destruct (Ha m Hm) as (m1 & H1 & Hm1). destruct (Hb m1 Hm1) as (m2 & H2 & Hm2).
  exists m2. split; [|done]. by rewrite hear_all_app, H1.
Qed.

(** Records are dropped, and nothing else changes of those that are left. *)
Record shrinks (s s' : Session) : Prop := {
  sh_sorted : bt_sorted (se_input s');
  sh_surfaces : bt_sorted (se_surfaces s');
  sh_targets : forall c t, bt_get c (se_input s') = Some t -> is_Some (bt_get t (se_surfaces s'));
  sh_next : se_next_input_sequence s' = se_next_input_sequence s;
  sh_origins : forall c o, bt_get c (se_input_origins s') = Some o ->
    bt_get c (se_input_origins s) = Some o /\ bt_get c (se_input s') = bt_get c (se_input s) /\
    bt_get c (se_input_sequences s') = bt_get c (se_input_sequences s);
  sh_sequences : forall c q, bt_get c (se_input_sequences s') = Some q -> bt_get c (se_input_sequences s) = Some q;
  sh_live : forall profiles, se_live_profiles s' = Some profiles -> live_inv profiles;
  sh_specs : forall id surface, (id, surface) ∈ se_surfaces s' -> (id, surface) ∈ se_surfaces s;
}.

Lemma shrinks_inv s s' : contacts_inv s -> shrinks s s' -> contacts_inv s'.
Proof.
  intros [] []. split; try done; rewrite ?sh_next0; try done.
  - intros c o Ho. destruct (sh_origins0 _ _ Ho) as (Ho' & -> & ->). by apply (ci_origins0 c o).
  - intros c q Hq. by eapply ci_allocated0, sh_sequences0.
  - intros c d q [o Ho] [p Hp] Hc Hd. destruct (sh_origins0 _ _ Ho) as (Hco & _ & _), (sh_origins0 _ _ Hp) as (Hdo & _ & _).
    apply (ci_distinct0 c d q); [by exists o|by exists p|by apply sh_sequences0..].
  - intros id su Hin. by apply ci_specs0 with id, sh_specs0.
Qed.
Lemma shrinks_heard s s' m : shrinks s s' -> heard_of s m -> heard_of s' m.
Proof.
  intros [] (Hm & Hn & Hb). split; [|split; by rewrite sh_next0]. intros c t q o Ht Hq Ho.
  destruct (sh_origins0 _ _ Ho) as (Ho' & Ei & Eq). rewrite Ei in Ht. rewrite Eq in Hq. by apply Hm.
Qed.
Lemma shrinks_trans a b c : shrinks a b -> shrinks b c -> shrinks a c.
Proof.
  intros [] []. split; try done; try congruence.
  - intros d o Ho. destruct (sh_origins1 _ _ Ho) as (H1 & -> & ->). by apply sh_origins0.
  - intros d q Hq. by apply sh_sequences0, sh_sequences1.
  - intros id su Hin. by apply sh_specs0, sh_specs1.
Qed.

(** The state and the effects of a step are well formed. *)
Definition step_sound (s s' : Session) (effects : list Effect) : Prop := contacts_inv s' /\ relays s effects s'.
Lemma sound_app s1 s2 s3 a b : step_sound s1 s2 a -> step_sound s2 s3 b -> step_sound s1 s3 (a ++ b).
Proof. intros [_ Ha] [Hi Hb]. split; [done|]. by eapply relays_app. Qed.

Lemma hear_silent effects m : Forall silent effects -> hear_all m effects = Some m.
Proof. induction 1 as [|e effects He _ IH]; [done|]. by destruct e. Qed.
Lemma sound_shrinks s s' effects : contacts_inv s -> shrinks s s' -> Forall silent effects -> step_sound s s' effects.
Proof.
  intros Hi Hs He. split; [by eapply shrinks_inv|]. intros m Hm. exists m. split; [by apply hear_silent|].
  by eapply shrinks_heard.
Qed.

(** Only the profiles and the presentation change. *)
Lemma same_shrinks s s' : contacts_inv s -> se_surfaces s' = se_surfaces s -> same_contacts s s' ->
  se_next_input_sequence s' = se_next_input_sequence s ->
  (forall profiles, se_live_profiles s' = Some profiles -> live_inv profiles) -> shrinks s s'.
Proof.
  intros [] Hsu (Hin & Hsq & Hor) Hnx Hlv. split; rewrite ?Hsu, ?Hin, ?Hsq, ?Hor, ?Hnx; try done.
Qed.
Lemma shrinks_refl s : contacts_inv s -> shrinks s s.
Proof. intros Hi. by apply same_shrinks; [..|apply Hi]. Qed.
Lemma restore_shrinks s reason : contacts_inv s -> shrinks s (restore_compact_with_reason s reason).1.
Proof.
  intros Hi. unfold restore_compact_with_reason. destruct (se_active_presentation s); cbn; [|by apply shrinks_refl].
  apply same_shrinks; try done. apply Hi.
Qed.
Lemma restore_sound s reason : contacts_inv s ->
  step_sound s (restore_compact_with_reason s reason).1 (restore_compact_with_reason s reason).2.
Proof. intros Hi. apply sound_shrinks; [done|by apply restore_shrinks|apply restore_silent]. Qed.

(** A contact whose record is dropped ends. *)
Lemma end_sound s s' c t q o e : contacts_inv s -> shrinks s s' ->
  bt_get c (se_input s) = Some t -> bt_get c (se_input_sequences s) = Some q -> bt_get c (se_input_origins s) = Some o ->
  bt_get c (se_input_origins s') = None ->
  (forall m, exists moved, hear m e = sounding m q (t, c, o)
     {| sd_down := bt_remove q (sd_down m); sd_bound := sd_bound m; sd_moved := moved |}) -> step_sound s s' [e].
Proof.
  intros Hi Hs Ht Hq Ho Hgone He. split; [by eapply shrinks_inv|]. intros m Hh. pose proof Hh as (Hm & _).
  destruct (He m) as [moved Hhear]. eexists. split.
  - cbn [hear_all]. rewrite Hhear. unfold sounding. rewrite bool_decide_eq_true_2 by by apply Hm. done.
  - destruct (shrinks_heard _ _ _ Hs Hh) as (Hm' & Hn' & Hb'). split; [|split; [|done]].
    + intros d u p o' Hu Hp Ho'. assert (Hpq : p <> q).
      { intros ->. destruct (sh_origins _ _ Hs _ _ Ho') as (Hod & _ & Hsd). rewrite Hsd in Hp.
        assert (d = c) as -> by (eapply (ci_distinct _ Hi); [by exists o'|by exists o|done|done]). congruence. }
      cbn. rewrite bt_get_remove_ne by done. by apply Hm'.
    + cbn. intros p Hp. destruct (decide (p = q)) as [->|Hne]; [rewrite bt_get_remove_eq in Hp; by destruct Hp|].
      rewrite bt_get_remove_ne in Hp by done. by apply Hn'.
Qed.

(** *** Transfer and delivery *)

Lemma hit_surface s x y key : contacts_inv s -> hit_target x y (input_targets s) = Some key ->
  is_Some (bt_get key (se_surfaces s)).
Proof.
  intros Hi Hh. apply hit_target_spec in Hh as (target & Hin & Hk & _).
  eapply input_targets_surface; [apply Hi|exact Hin|exact Hk].
Qed.

Lemma transfer_sound s contact : contacts_inv s ->
  exists s' effects, transfer s contact (input_targets s) = Some (s', effects) /\ step_sound s s' effects /\
    same_frame s s'.
Proof.
  intros Hi. unfold transfer.
  assert (Hstay : exists s' effects, Some (s, @nil Effect) = Some (s', effects) /\ step_sound s s' effects /\
    same_frame s s').
  { exists s, []. split; [done|]. split; [|done]. apply sound_shrinks; [done|by apply shrinks_refl|constructor]. }
  unfold captured_target. destruct (bt_get (co_id contact) (se_input s)) as [current|] eqn:Hc; [|done].
  destruct (hit_target _ _ _) as [target|] eqn:Hh; [|done].
  destruct (bt_get _ (se_input_sequences s)) as [q|] eqn:Hq; [|done].
  destruct (bt_get _ (se_input_origins s)) as [o|] eqn:Ho; [|done].
  destruct (_ && _ && _); [|done].
  pose proof (hit_surface _ _ _ _ Hi Hh) as Ht. pose proof (ci_allocated _ Hi _ _ Hq) as [Hq0 Hqn].
  rewrite emit_ok by (done || by eapply ci_targets). cbn [mbind option_bind].
  unfold retarget. rewrite Hc. cbn [fst].
  set (id := co_id contact) in *. set (s1 := with_input s (bt_insert id target (se_input s))).
  change (se_surfaces s1) with (se_surfaces s). destruct Ht as [surface Hs]. rewrite Hs.
  rewrite emit_ok by (done || by exists surface). cbn [mbind option_bind].
  eexists s1, _. split; [done|]. split; [|done]. split.
  - destruct Hi. split; try done; cbn.
    + by apply bt_sorted_insert.
    + intros c p Hp. split; [|by destruct (ci_origins0 _ _ Hp)].
      destruct (decide (c = id)) as [->|Hne]; [rewrite bt_get_insert_eq; by eexists|].
      rewrite bt_get_insert_ne by done. by destruct (ci_origins0 _ _ Hp).
    + intros c t. destruct (decide (c = id)) as [->|Hne]; [rewrite bt_get_insert_eq; intros [= <-]; by eexists|].
      rewrite bt_get_insert_ne by done. apply ci_targets0.
  - intros m (Hm & Hn & Hb). eexists. split.
    + cbn. unfold sounding. rewrite bool_decide_eq_true_2 by (by apply Hm). cbn.
      assert (Hno : bt_contains q (bt_remove q (sd_down m)) = false) by (apply bt_contains_false, bt_get_remove_eq).
      rewrite Hno. rewrite (bool_decide_eq_true_2 (Some _ = Some _)) by done. rewrite orb_true_r. done.
    + split; [|split]; cbn; [| |lia].
      * intros c t p o'. destruct (decide (c = id)) as [->|Hne].
        { rewrite bt_get_insert_eq, Hq, Ho. intros [= <-] [= <-] [= <-]. apply bt_get_insert_eq. }
        rewrite bt_get_insert_ne by done. intros Hct Hcp Hco.
        assert (p <> q). { intros ->. apply Hne. apply (ci_distinct _ Hi c id q); [by exists o'|by exists o|done|done]. }
        rewrite bt_get_insert_ne, bt_get_remove_ne by done. by apply Hm.
      * intros p. destruct (decide (p = q)) as [->|Hne]; [done|].
        rewrite bt_get_insert_ne, bt_get_remove_ne by done. apply Hn.
Qed.

(** A new contact. *)
Lemma sound_down s routed origin next : contacts_inv s -> ro_phase routed = Down ->
  bt_get (ro_id routed) (se_input s) = None -> is_Some (bt_get (ro_target routed) (se_surfaces s)) ->
  next = (se_next_input_sequence s + 1)%N ->
  let q := se_next_input_sequence s in
  let s1 := with_sequences (with_input s (bt_insert (ro_id routed) (ro_target routed) (se_input s))) next
              (bt_insert (ro_id routed) q (se_input_sequences s)) (bt_insert (ro_id routed) origin (se_input_origins s)) in
  exists s' effects handled, deliver s1 routed origin q = Some (s', effects, handled) /\ step_sound s s' effects.
Proof.
  intros Hi Hp Hn Ht -> q s1. unfold deliver. rewrite Hp. rewrite (bool_decide_eq_false_2 (Down = Up)) by done.
  cbn [andb]. rewrite emit_ok; [|done|apply Hi]. cbn [mbind option_bind].
  eexists _, _, _. split; [done|]. cbn [applied app touch]. set (id := ro_id routed) in *. split.
  - destruct Hi. split; cbn; try done.
    + by apply bt_sorted_insert.
    + intros c o. destruct (decide (c = id)) as [->|Hne]; [rewrite !bt_get_insert_eq; by split; eexists|].
      rewrite !bt_get_insert_ne by done. apply ci_origins0.
    + intros c t. destruct (decide (c = id)) as [->|Hne]; [rewrite bt_get_insert_eq; by intros [= <-]|].
      rewrite bt_get_insert_ne by done. apply ci_targets0.
    + lia.
    + intros c p. destruct (decide (c = id)) as [->|Hne].
      * rewrite bt_get_insert_eq. intros [= <-]. unfold q. lia.
      * rewrite bt_get_insert_ne by done. intros Hq. apply ci_allocated0 in Hq. lia.
    + intros c d p. destruct (decide (c = id)) as [->|Hc], (decide (d = id)) as [->|Hd];
        rewrite ?bt_get_insert_eq, ?bt_get_insert_ne by done; try done.
      * intros _ _ [= <-] Hd'. apply ci_allocated0 in Hd'. unfold q in Hd'. lia.
      * intros _ _ Hc' [= <-]. apply ci_allocated0 in Hc'. unfold q in Hc'. lia.
      * apply ci_distinct0.
    + intros profiles Hl. destruct (se_live_profiles s) as [ps|]; [|done]. cbn in Hl. injection Hl as <-.
      apply capture_started_inv. by apply ci_live0.
  - intros m (Hm & Hl & Hb).
    assert (Hno : bt_get q (sd_down m) = None).
    { destruct (bt_get q (sd_down m)) eqn:E; [|done]. assert (q < q)%N; [apply Hl; by eexists|lia]. }
    eexists. split.
    { cbn. rewrite (proj2 (bt_contains_false _ _) Hno). fold q in Hb. rewrite (proj2 (N.leb_le _ _) Hb). done. }
    split; [|split]; cbn; [| |unfold q; lia].
    + intros c t p o. destruct (decide (c = id)) as [->|Hne].
      { rewrite !bt_get_insert_eq. intros [= <-] [= <-] [= <-]. apply bt_get_insert_eq. }
      rewrite !bt_get_insert_ne by done. intros Hct Hcp Hco.
      assert (p <> q) by (apply (ci_allocated _ Hi) in Hcp; unfold q; lia).
      rewrite bt_get_insert_ne by done. by apply Hm.
    + intros p. destruct (decide (p = q)) as [->|Hne]; [unfold q; lia|].
      rewrite bt_get_insert_ne by done. intros Hp'%Hl. lia.
Qed.

(** A motion changes nothing. *)
Lemma sound_motion s routed origin q : contacts_inv s -> ro_phase routed = Motion ->
  bt_get (ro_id routed) (se_input s) = Some (ro_target routed) ->
  bt_get (ro_id routed) (se_input_sequences s) = Some q -> bt_get (ro_id routed) (se_input_origins s) = Some origin ->
  exists s' effects handled, deliver s routed origin q = Some (s', effects, handled) /\ step_sound s s' effects.
Proof.
  intros Hi Hp Hc Hq Ho. unfold deliver. rewrite Hp. rewrite (bool_decide_eq_false_2 (Motion = Up)) by done.
  cbn [andb]. rewrite emit_ok; [|by eapply ci_targets|by eapply ci_allocated]. cbn [mbind option_bind].
  eexists _, _, _. split; [done|]. split; [done|]. intros m (Hm & Hn & Hb).
  exists {| sd_down := sd_down m; sd_bound := sd_bound m; sd_moved := None |}. split; [|done].
  cbn. unfold sounding. by rewrite bool_decide_eq_true_2 by by apply Hm.
Qed.

(** The end of a contact that is recorded. *)
Lemma sound_end s routed origin q : contacts_inv s -> ends (ro_phase routed) = true ->
  bt_get (ro_id routed) (se_input s) = Some (ro_target routed) ->
  bt_get (ro_id routed) (se_input_sequences s) = Some q -> bt_get (ro_id routed) (se_input_origins s) = Some origin ->
  let s1 := with_sequences (with_input s (bt_remove (ro_id routed) (se_input s))) (se_next_input_sequence s)
              (bt_remove (ro_id routed) (se_input_sequences s)) (bt_remove (ro_id routed) (se_input_origins s)) in
  exists s' effects handled, deliver s1 routed origin q = Some (s', effects, handled) /\ step_sound s s' effects.
Proof.
  intros Hi He Hc Hq Ho s1. unfold deliver. set (dismiss := _ && _).
  rewrite emit_ok; [|exact (ci_targets _ Hi _ _ Hc)|exact (proj1 (ci_allocated _ Hi _ _ Hq))]. cbn [mbind option_bind].
  destruct (end_capture_ok s1 (ro_id routed)) as (s2 & shown & Hend & Hsu & (Hin & Hse & Hor) & Hnx & _ & Hlive).
  { intros profiles Hl. by apply (ci_live _ Hi) in Hl. }
  assert (Hcommit : match ro_phase routed with
      | Down => Some (with_live_profiles s1 ((fun profiles => live_capture_started profiles (ro_id routed))
                                              <$> se_live_profiles s1), None)
      | Motion => Some (s1, None)
      | Up | Cancel => end_capture s1 (ro_id routed)
      end = Some (s2, shown)) by (by destruct (ro_phase routed)).
  rewrite Hcommit. cbn [mbind option_bind].
  assert (Hs2 : shrinks s s2).
  { split; rewrite ?Hsu, ?Hnx; try done.
    - rewrite Hin. by apply bt_sorted_remove, Hi.
    - apply Hi.
    - intros c t. rewrite Hin. cbn. destruct (decide (c = ro_id routed)) as [->|Hne]; [by rewrite bt_get_remove_eq|].
      rewrite bt_get_remove_ne by done. apply Hi.
    - intros c o. rewrite Hor, Hin, Hse. cbn. destruct (decide (c = ro_id routed)) as [->|Hne]; [by rewrite bt_get_remove_eq|].
      by rewrite !bt_get_remove_ne.
    - intros c p. rewrite Hse. cbn. destruct (decide (c = ro_id routed)) as [->|Hne]; [by rewrite bt_get_remove_eq|].
      by rewrite !bt_get_remove_ne.
    - intros profiles Hl. by destruct (Hlive _ Hl). }
  assert (Hsound : step_sound s s2 [touch (ro_phase routed) (ro_target routed) (ro_time_ms routed) (ro_id routed)
      (ro_local_x routed) (ro_local_y routed) q origin]).
  { eapply (end_sound s s2 (ro_id routed)); try done.
    - rewrite Hor. apply bt_get_remove_eq.
    - intros m. destruct (ro_phase routed); try done; by eexists. }
  pose proof (shrinks_inv _ _ Hi Hs2) as Hi2. pose proof (restore_sound s2 Selection Hi2) as Hrs.
  destruct (if dismiss then restore_compact_with_reason s2 Selection else (s2, [])) as [s3 restored] eqn:Hd.
  eexists _, _, _. split; [done|]. apply (sound_app s s2 s3 [_]); [exact Hsound|].
  apply (sound_app s2 s2 s3 (applied shown)).
  { apply sound_shrinks; [done|by apply shrinks_refl|apply applied_silent]. }
  destruct dismiss; [by rewrite Hd in Hrs|]. injection Hd as <- <-.
  apply sound_shrinks; [done|by apply shrinks_refl|constructor].
Qed.

Lemma dispatch_sound s contact origin : contacts_inv s ->
  exists s' effects handled, dispatch_touch s contact origin = Some (s', effects, handled) /\ step_sound s s' effects.
Proof.
  intros Hi. unfold dispatch_touch.
  destruct (transfer_sound s contact Hi) as (s1 & moved & -> & H1 & Hsu & Hlv & Hnx & Hsq & Hor & Hap).
  cbn [mbind option_bind]. pose proof H1 as [Hi1 _].
  destruct (route (se_input s1) contact (input_targets s)) as [input [routed|]] eqn:Hroute.
  2:{ apply route_none in Hroute as ->. rewrite with_input_same. destruct (_ && _); [|by eexists _, _, _].
      pose proof (restore_sound s1 OutsidePress Hi1) as Hr.
      destruct (restore_compact_with_reason s1 OutsidePress) as [s2 restored].
      eexists _, _, _. split; [done|]. by eapply sound_app. }
  apply route_correct in Hroute as (Hid & Hph & (target & Hin & Hkey & _) & Hroute). rewrite <- Hid in Hroute.
  assert (Htarget : is_Some (bt_get (ro_target routed) (se_surfaces s1))).
  { rewrite Hsu. eapply input_targets_surface; [apply Hi|exact Hin|exact Hkey]. }
  assert (Hfinish : forall s2 origin' sequence,
    (exists s' effects handled, deliver s2 routed origin' sequence = Some (s', effects, handled) /\ step_sound s1 s' effects) ->
    exists s' effects handled,
      (delivered ← deliver s2 routed origin' sequence;
       let '(s, effects, handled) := delivered in Some (s, moved ++ effects, handled)) = Some (s', effects, handled) /\
      step_sound s s' effects).
  { intros s2 o q (s' & effects & handled & -> & Hok). eexists _, _, _. split; [done|]. by eapply sound_app. }
  assert (Hstop : forall s2, shrinks s1 s2 -> exists s' effects handled,
    Some (s2, moved, false) = Some (s', effects, handled) /\ step_sound s s' effects).
  { intros s2 Hs2. eexists _, _, _. split; [done|]. rewrite <- (app_nil_r moved). eapply sound_app; [exact H1|].
    by apply sound_shrinks; [..|constructor]. }
  set (id := ro_id routed) in *.
  (* an end whose capture is released and whose origin is dropped *)
  assert (Hended : bt_get id (se_input s1) = Some (ro_target routed) ->
    ends (ro_phase routed) = true -> input = bt_remove id (se_input s1) ->
    exists s' effects handled,
      (let '(s, sequence) := take_sequence (with_input s1 input) routed origin in
       match sequence with
       | None => Some (s, moved, false)
       | Some sequence =>
           delivered ← deliver s routed origin sequence;
           let '(s, effects, handled) := delivered in Some (s, moved ++ effects, handled)
       end) = Some (s', effects, handled) /\ step_sound s s' effects).
  { intros Hc He ->. unfold take_sequence. fold id.
    assert (Hphase : forall (A : Type) (a b c : A), match ro_phase routed with Down => a | Motion => b | Up | Cancel => c end = c)
      by (by destruct (ro_phase routed)). rewrite Hphase. cbn [se_input_origins with_input with_sequences se_input_sequences].
    assert (Hdrop : forall sequences, (forall c, c <> id -> bt_get c sequences = bt_get c (se_input_sequences s1)) ->
      (forall q, bt_get id sequences = Some q -> bt_get id (se_input_sequences s1) = Some q) ->
      shrinks s1 (with_sequences (with_input s1 (bt_remove id (se_input s1))) (se_next_input_sequence s1)
                    sequences (bt_remove id (se_input_origins s1)))).
    { intros sequences Hse Hsid. split; try done; cbn.
      - by apply bt_sorted_remove, Hi1.
      - apply Hi1.
      - intros c t. destruct (decide (c = id)) as [->|Hne]; [by rewrite bt_get_remove_eq|].
        rewrite bt_get_remove_ne by done. apply Hi1.
      - intros c o. destruct (decide (c = id)) as [->|Hne]; [by rewrite bt_get_remove_eq|].
        rewrite !bt_get_remove_ne, Hse by done. done.
      - intros c q. destruct (decide (c = id)) as [->|Hne]; [apply Hsid|]. by rewrite Hse.
      - apply Hi1. }
    case_bool_decide as Ho; cbn [negb].
    2:{ apply Hstop, Hdrop; done. }
    destruct (ci_origins _ Hi1 _ _ Ho) as [_ [q Hq]]. rewrite Hq. apply Hfinish.
    exact (sound_end s1 routed origin q Hi1 He Hc Hq Ho). }
  destruct (co_phase contact) eqn:Hp.
  - destruct Hroute as (Hn & -> & _). unfold take_sequence. rewrite Hph.
    cbn [se_next_input_sequence with_input]. fold id.
    destruct (checked_add64 (se_next_input_sequence s1) 1) as [next|] eqn:Hadd.
    + apply checked_add64_Some in Hadd as [_ ->]. apply Hfinish.
      exact (sound_down s1 routed origin _ Hi1 Hph Hn Htarget eq_refl).
    + eexists _, _, _. split; [done|]. rewrite <- (app_nil_r moved). eapply sound_app; [exact H1|]. split.
      * pose proof Hi1 as []. split; try done; cbn.
        -- by apply bt_sorted_insert.
        -- intros c o Ho. destruct (ci_origins0 _ _ Ho) as [[u Hu] ?]. split; [|done].
           destruct (decide (c = id)) as [->|Hne]; [congruence|]. rewrite bt_get_insert_ne by done. by exists u.
        -- intros c t. destruct (decide (c = id)) as [->|Hne]; [rewrite bt_get_insert_eq; by intros [= <-]|].
           rewrite bt_get_insert_ne by done. apply ci_targets0.
      * intros m (Hm & Hl & Hb). exists m. split; [done|]. split; [|done]. cbn. intros c t q o Ht Hq Ho.
        destruct (ci_origins _ Hi1 _ _ Ho) as [[u Hu] _]. assert (c <> id) by (intros ->; congruence).
        rewrite bt_get_insert_ne in Ht by done. by apply Hm.
  - destruct Hroute as [Hc ->]. rewrite with_input_same. unfold take_sequence. rewrite Hph. fold id.
    case_bool_decide as Ho; cbn [negb]; [|apply Hstop, shrinks_refl, Hi1].
    destruct (bt_get id (se_input_sequences s1)) as [q|] eqn:Hq; [|apply Hstop, shrinks_refl, Hi1].
    apply Hfinish. by eapply sound_motion.
  - destruct Hroute as [Hc Hin']. apply Hended; [done|by rewrite Hph|done].
  - destruct Hroute as [Hc Hin']. apply Hended; [done|by rewrite Hph|done].
Qed.


(** *** Cancelling and removing *)

Lemma cancel_contacts_sound time_ms cancelled : forall s deferred, contacts_inv (with_input s cancelled) ->
  exists s' effects deferred', cancel_contacts s time_ms deferred cancelled = Some (s', effects, deferred') /\
    se_input s' = se_input s /\ step_sound (with_input s cancelled) (with_input s' []) effects.
Proof.
  induction cancelled as [|[c t] cancelled IH]; intros s deferred Hi; cbn [cancel_contacts].
  { eexists _, _, _. split; [done|]. split; [done|]. apply sound_shrinks; [done|by apply shrinks_refl|constructor]. }
  pose proof (sorted_cons_fresh _ _ _ (ci_sorted _ Hi)) as [Hsorted Hfresh].
  assert (Hget : forall d, bt_get d ((c, t) :: cancelled) = if bool_decide (d = c) then Some t else bt_get d cancelled)
    by (intros d; apply get_cons, (ci_sorted _ Hi)).
  (* the rest, after the record of this contact is dropped *)
  assert (Hrest : forall s2, bt_get c (se_input_origins s2) = None -> se_surfaces s2 = se_surfaces s ->
    se_next_input_sequence s2 = se_next_input_sequence s ->
    (forall d, d <> c -> bt_get d (se_input_sequences s2) = bt_get d (se_input_sequences s) /\
                         bt_get d (se_input_origins s2) = bt_get d (se_input_origins s)) ->
    (forall q, bt_get c (se_input_sequences s2) = Some q -> bt_get c (se_input_sequences s) = Some q) ->
    (forall profiles, se_live_profiles s2 = Some profiles -> live_inv profiles) ->
    shrinks (with_input s ((c, t) :: cancelled)) (with_input s2 cancelled)).
  { intros s2 Hc2 Hsu Hnx Hd Hcq Hlv. split; cbn; rewrite ?Hsu, ?Hnx; try done.
    - apply (ci_surfaces _ Hi).
    - intros d u Hu. apply (ci_targets _ Hi d u). cbn [se_input with_input]. rewrite Hget.
      case_bool_decide as Hdc; [subst; congruence|done].
    - intros d o Ho. assert (Hdc : d <> c) by (intros ->; congruence). destruct (Hd d Hdc) as [-> Eo].
      rewrite Eo in Ho. split; [done|]. split; [|done].
      change (bt_get d cancelled = bt_get d ((c, t) :: cancelled)). rewrite Hget. by rewrite bool_decide_eq_false_2.
    - intros d q. destruct (decide (d = c)) as [->|Hdc]; [apply Hcq|]. by destruct (Hd d Hdc) as [-> _]. }
  assert (Hskip : forall s2, se_input s2 = se_input s ->
    shrinks (with_input s ((c, t) :: cancelled)) (with_input s2 cancelled) ->
    exists s' effects deferred', cancel_contacts s2 time_ms deferred cancelled = Some (s', effects, deferred') /\
      se_input s' = se_input s /\ step_sound (with_input s ((c, t) :: cancelled)) (with_input s' []) effects).
  { intros s2 Hin Hs2. destruct (IH s2 deferred) as (s' & effects & deferred' & -> & Hin' & Hok).
    { by eapply shrinks_inv. }
    eexists _, _, _. split; [done|]. split; [by rewrite Hin', Hin|].
    apply (sound_app _ (with_input s2 cancelled) _ [] effects); [|exact Hok].
    by apply sound_shrinks; [..|constructor]. }
  destruct (bt_get c (se_input_sequences s)) as [q|] eqn:Hq.
  2:{ apply Hskip; [done|]. apply Hrest; try done; [|intros p; by rewrite Hq|intros profiles; apply (ci_live _ Hi)].
      destruct (bt_get c (se_input_origins s)) as [o|] eqn:Ho; [|done].
      destruct (ci_origins _ Hi c o Ho) as [_ [q' Hq']]. cbn in Hq'. congruence. }
  cbn [se_input_origins with_sequences].
  destruct (bt_get c (se_input_origins s)) as [o|] eqn:Ho.
  2:{ apply Hskip; [done|]. apply Hrest; try done; cbn; [|intros p; by rewrite bt_get_remove_eq|intros profiles; apply (ci_live _ Hi)].
      intros d Hd. by rewrite bt_get_remove_ne. }
  set (s1 := forget_contact _ c).
  assert (Hc : bt_get c (se_input (with_input s ((c, t) :: cancelled))) = Some t).
  { change (bt_get c ((c, t) :: cancelled) = Some t). rewrite Hget. by rewrite bool_decide_eq_true_2. }
  rewrite emit_ok; [|exact (ci_targets _ Hi _ _ Hc)|exact (proj1 (ci_allocated _ Hi _ _ Hq))]. cbn [mbind option_bind].
  destruct (end_capture_ok s1 c) as (s2 & shown & -> & Hsu & (Hin & Hse & Hor) & Hnx & _ & Hlive).
  { intros profiles Hl. by apply (ci_live _ Hi) in Hl. }
  cbn [mbind option_bind fst snd].
  assert (Hs2 : shrinks (with_input s ((c, t) :: cancelled)) (with_input s2 cancelled)).
  { apply Hrest; try done.
    - rewrite Hor. exact (bt_get_remove_eq c _).
    - intros d Hd. rewrite Hse, Hor. unfold s1, forget_contact. cbn [se_input_sequences se_input_origins with_sequences].
      by rewrite !bt_get_remove_ne.
    - intros p. rewrite Hse. unfold s1, forget_contact. cbn [se_input_sequences with_sequences]. by rewrite bt_get_remove_eq.
    - intros profiles Hl. by destruct (Hlive _ Hl). }
  destruct (IH s2 (latest shown deferred) (shrinks_inv _ _ Hi Hs2)) as (s' & effects & deferred' & -> & Hin' & Hok).
  cbn [mbind option_bind]. eexists _, _, _. split; [done|]. split; [by rewrite Hin', Hin|].
  eapply sound_app; [|exact Hok]. eapply (end_sound _ _ c t q o); try done; [|intros m; by eexists].
  change (bt_get c (se_input_origins s2) = None). rewrite Hor. exact (bt_get_remove_eq c _).
Qed.

Lemma cancel_plugin_contacts_sound s time_ms : contacts_inv s ->
  exists s' effects, cancel_plugin_contacts s time_ms = Some (s', effects) /\ step_sound s s' effects /\ se_input s' = [].
Proof.
  intros Hi. unfold cancel_plugin_contacts, cancel_all.
  destruct (cancel_contacts_sound time_ms (se_input s) (with_input s []) None)
    as (s' & effects & deferred & -> & Hin & Hok).
  { by destruct s. }
  cbn [mbind option_bind]. eexists _, _. split; [done|]. cbn in Hin. split; [|done].
  assert (Hs : with_input s' [] = s') by (rewrite <- Hin; by destruct s').
  rewrite Hs in Hok. assert (Hs2 : with_input (with_input s []) (se_input s) = s) by (by destruct s).
  rewrite Hs2 in Hok. eapply sound_app; [exact Hok|]. pose proof Hok as [Hi' _].
  apply sound_shrinks; [done|by apply shrinks_refl|apply applied_silent].
Qed.

Lemma forget_contacts_records contacts : forall s deferred,
  (forall profiles, se_live_profiles s = Some profiles -> live_inv profiles) ->
  exists s' deferred', forget_contacts s deferred contacts = Some (s', deferred') /\
    se_input s' = se_input s /\ se_surfaces s' = se_surfaces s /\ se_next_input_sequence s' = se_next_input_sequence s /\
    (forall c, bt_get c (se_input_origins s') = (if bool_decide (c ∈ contacts) then None else bt_get c (se_input_origins s)) /\
               bt_get c (se_input_sequences s') =
                 (if bool_decide (c ∈ contacts) then None else bt_get c (se_input_sequences s))) /\
    (forall profiles, se_live_profiles s' = Some profiles -> live_inv profiles).
Proof.
  induction contacts as [|d contacts IH]; intros s deferred Hl; cbn [forget_contacts].
  { exists s, deferred. do 4 (split; [done|]). split; [|done]. intros c.
    by rewrite bool_decide_eq_false_2 by apply not_elem_of_nil. }
  destruct (end_capture_ok (forget_contact s d) d) as (s2 & shown & -> & Hsu & (Hin & Hse & Hor) & Hnx & _ & Hlive); [exact Hl|].
  cbn [mbind option_bind fst snd].
  destruct (IH s2 (latest shown deferred)) as (s' & deferred' & -> & Hin' & Hsu' & Hnx' & Hrec & Hlv').
  { intros profiles Hp. by destruct (Hlive _ Hp). }
  exists s', deferred'. split; [done|]. split; [by rewrite Hin', Hin|]. split; [by rewrite Hsu', Hsu|].
  split; [by rewrite Hnx', Hnx|]. split; [|done]. intros c. destruct (Hrec c) as [-> ->].
  rewrite Hse, Hor. unfold forget_contact. cbn [se_input_sequences se_input_origins with_sequences].
  destruct (decide (c ∈ contacts)) as [Hc|Hc].
  - rewrite !bool_decide_eq_true_2 by set_solver. done.
  - rewrite (bool_decide_eq_false_2 (c ∈ contacts)) by done. destruct (decide (c = d)) as [->|Hne].
    + rewrite !bt_get_remove_eq. by rewrite bool_decide_eq_true_2 by set_solver.
    + rewrite !bt_get_remove_ne by done. by rewrite bool_decide_eq_false_2 by set_solver.
Qed.

Lemma connected_specs_sound s : (forall id surface, (id, surface) ∈ se_surfaces s -> su_kind surface = ItemSurface ->
    it_id (su_compact_spec surface) = su_layout_id surface) -> connected_ok (connected_item_specs s).
Proof.
  intros Hspecs. unfold connected_item_specs.
  assert (Hgen : forall l specs, (forall id su, (id, su) ∈ l -> (id, su) ∈ se_surfaces s) -> connected_ok specs ->
    connected_ok (fold_left (fun specs (e : ObjectId * SurfaceState) =>
      if bool_decide (su_kind e.2 = ItemSurface)
      then bt_insert (su_layout_id e.2) (su_compact_spec e.2) specs else specs) l specs)).
  { induction l as [|[id su] l IH]; intros specs Hl Hs; [done|]. cbn [fold_left]. apply IH; [set_solver|].
    cbn. case_bool_decide as Hk; [|done]. unfold connected_ok in *. rewrite Forall_forall in *.
    intros e [->|He]%elem_of_bt_insert; [|by apply Hs]. cbn. eapply Hspecs; [apply Hl; by left|done]. }
  apply Hgen; [done|constructor].
Qed.

Lemma try_initialize_sound s : contacts_inv s ->
  exists s' effects, try_initialize_live_profiles s = Some (s', effects) /\ shrinks s s' /\ Forall silent effects /\
    se_input s' = se_input s /\ se_surfaces s' = se_surfaces s.
Proof.
  intros Hi. unfold try_initialize_live_profiles. destruct (se_live_profiles s) as [profiles|] eqn:Hl.
  2:{ exists s, []. split; [done|]. split; [by apply shrinks_refl|]. split; [constructor|done]. }
  pose proof (try_initialize_ok profiles _ (ci_live _ Hi _ Hl) (connected_specs_sound s (ci_specs _ Hi))) as Ho.
  destruct (try_initialize profiles (connected_item_specs s)) as [[profiles' r]|] eqn:Ht; [|done].
  cbn [mbind option_bind]. eexists _, _. split; [done|]. split; [|split; [apply applied_silent|done]].
  apply same_shrinks; try done. cbn. intros ? [= <-]. by destruct Ho.
Qed.

Lemma get_kept (input : list (N * ObjectId)) (id : ObjectId) c : bt_sorted input ->
  bt_get c (cancel_target input id).1 = t ← bt_get c input; if bool_decide (t = id) then None else Some t.
Proof.
  intros Hs. cbn. rewrite (get_filter (fun e => negb (bool_decide (e.2 = id)))) by done.
  destruct (bt_get c input) as [t|]; [|done]. cbn. by case_bool_decide.
Qed.
Lemma elem_cancelled (input : list (N * ObjectId)) (id : ObjectId) c : bt_sorted input -> c ∈ (cancel_target input id).2 <-> bt_get c input = Some id.
Proof.
  intros Hs. cbn. rewrite list_elem_of_fmap. split.
  - intros (e & -> & [He Hid%bool_decide_eq_true]%elem_of_filter_b). apply elem_bt_get; [done|]. destruct e. cbn in *. by subst.
  - intros Hc. exists (c, id). split; [done|]. apply elem_of_filter_b. split; [by apply bt_get_elem|].
    by apply bool_decide_eq_true_2.
Qed.

Lemma remove_surface_sound s id : contacts_inv s ->
  exists s' effects, remove_surface s id = Some (s', effects) /\ step_sound s s' effects /\
    (forall c, bt_get c (se_input s') <> Some id) /\ bt_get id (se_surfaces s') = None.
Proof.
  intros Hi. unfold remove_surface. pose proof (ci_sorted _ Hi) as Hsorted.
  pose proof (fun c => get_kept (se_input s) id c Hsorted) as Hkept.
  pose proof (fun c => elem_cancelled (se_input s) id c Hsorted) as Hcancelled.
  assert (Hks : bt_sorted (cancel_target (se_input s) id).1) by by apply sorted_filter_entries.
  destruct (cancel_target (se_input s) id) as [kept contacts]. cbn [fst snd] in *.
  destruct (forget_contacts_records contacts (with_input s kept) None) as (s1 & deferred & -> & Hin & Hsu & Hnx & Hrec & Hlv).
  { apply (ci_live _ Hi). }
  cbn [mbind option_bind]. cbn in Hin, Hsu, Hnx.
  set (s2 := with_surfaces s1 (bt_remove id (se_surfaces s1)) (se_backdrop_surface s1)).
  assert (Hfree : forall c, bt_get c (se_input s2) <> Some id).
  { intros c. cbn. rewrite Hin, Hkept. destruct (bt_get c (se_input s)) as [t|]; [|done]. cbn. case_bool_decide; congruence. }
  assert (Hs2 : shrinks s s2).
  { split; try done; cbn.
    - by rewrite Hin.
    - rewrite Hsu. apply bt_sorted_remove, Hi.
    - intros c t Hc. rewrite Hsu. rewrite bt_get_remove_ne; [|intros ->; by apply (Hfree c)].
      rewrite Hin, Hkept in Hc. destruct (bt_get c (se_input s)) as [u|] eqn:Hu; [|done]. cbn in Hc.
      case_bool_decide; [done|]. injection Hc as <-. by eapply ci_targets.
    - intros c o Ho. destruct (Hrec c) as [E1 E2]. rewrite E1 in Ho. rewrite E2. cbn in Ho |- *.
      case_bool_decide as Hc; [done|]. split; [done|]. split; [|done]. rewrite Hin, Hkept.
      destruct (bt_get c (se_input s)) as [t|] eqn:Ht; [|done]. cbn. case_bool_decide as Hti; [|done].
      exfalso. apply Hc, Hcancelled. by subst.
    - intros c q Hq. destruct (Hrec c) as [_ E2]. rewrite E2 in Hq. by case_bool_decide.
    - intros i su. rewrite Hsu. by intros [_ ?]%elem_of_bt_remove. }
  pose proof (shrinks_inv _ _ Hi Hs2) as Hi2.
  assert (Hgone : bt_get id (se_surfaces s2) = None) by apply bt_get_remove_eq.
  destruct (if existsb _ _ then _ else _) as [s3 restored] eqn:H3.
  assert (Hs3 : shrinks s2 s3 /\ Forall silent restored /\ se_input s3 = se_input s2 /\ se_surfaces s3 = se_surfaces s2).
  { destruct (existsb _ _).
    - pose proof (restore_shrinks s2 SourceHidden Hi2) as Hr. pose proof (restore_silent s2 SourceHidden) as (Hsil & _).
      rewrite H3 in *. cbn in *. split; [done|]. split; [done|]. unfold restore_compact_with_reason in H3.
      destruct (se_active_presentation s2); by injection H3 as <- _.
    - injection H3 as <- <-. split; [by apply shrinks_refl|]. split; [constructor|done]. }
  destruct Hs3 as (Hs3 & Hsil3 & Hin3 & Hsu3). pose proof (shrinks_inv _ _ Hi2 Hs3) as Hi3. set (s4 := if bool_decide _ then _ else _).
  assert (Hs4 : shrinks s3 s4 /\ se_input s4 = se_input s3 /\ se_surfaces s4 = se_surfaces s3).
  { unfold s4. case_bool_decide; [|split; [by apply shrinks_refl|done]]. split; [|done].
    apply same_shrinks; try done. apply Hi3. }
  destruct Hs4 as (Hs4 & Hin4 & Hsu4).
  destruct (try_initialize_sound s4 (shrinks_inv _ _ Hi3 Hs4)) as (s5 & profiles & -> & Hs5 & Hsil5 & Hin5 & Hsu5).
  cbn [mbind option_bind]. eexists _, _. split; [done|]. split.
  - apply sound_shrinks; [done|exact (shrinks_trans _ _ _ Hs2 (shrinks_trans _ _ _ Hs3 (shrinks_trans _ _ _ Hs4 Hs5)))|].
    repeat (apply Forall_app; split); try done; [|apply applied_silent|by repeat constructor].
    destruct (bt_get id (se_surfaces s1)); by repeat constructor.
  - split; [intros c; rewrite Hin5, Hin4, Hin3; apply Hfree|by rewrite Hsu5, Hsu4, Hsu3].
Qed.

(** ** The session *)

Inductive SessionStep :=
| StepTouch (contact : Contact) (origin : InputOrigin)
| StepCancelAll (time_ms : N)
| StepRemove (id : ObjectId).

Definition session_step (s : Session) (step : SessionStep) : option (Session * list Effect) :=
  match step with
  | StepTouch contact origin => outcome ← dispatch_touch s contact origin; Some outcome.1
  | StepCancelAll time_ms => cancel_plugin_contacts s time_ms
  | StepRemove id => remove_surface s id
  end.

(** The sequence numbers of 64 bits are not exhausted, and a contact ends
    where it began. *)
Definition step_fair (s : Session) (step : SessionStep) : Prop :=
  match step with
  | StepTouch contact origin => fair s contact origin /\ (se_next_input_sequence s < u64_max)%N
  | _ => True
  end.

(** C26: Whatever the contacts do, from whichever origin, and whichever surfaces
    go, the session does not panic.  What surfaces hear with one sequence
    number is one contact with one origin: it starts once, with a number never
    heard before, on one surface, goes to another only after the first heard a
    cancellation, moves only in between, and ends at most once.  Cancelling
    leaves no contact captured, a removed surface keeps none.

    A contact may end from another origin than it began on, and the 64-bit
    sequence numbers may be exhausted; the records of the session then
    disagree, and an end is withheld ([foreign_release_sticks]).  Apart from
    these ([step_fair]), records that agree keep agreeing and are exactly what
    the surfaces hold, so that cancelling ends every contact exactly once.
    Even then the end of a contact that is not routed is not heard
    ([release_during_presentation_lost]). *)
Theorem touches_follow_protocol (s : Session) (step : SessionStep) (Hi : contacts_inv s) :
  match session_step s step with
  | None => False
  | Some (s', effects) => contacts_inv s' /\ relays s effects s' /\
      match step with
      | StepTouch _ _ => True
      | StepCancelAll _ => se_input s' = []
      | StepRemove id => (forall c, bt_get c (se_input s') <> Some id) /\ bt_get id (se_surfaces s') = None
      end /\
      (session_inv s -> step_fair s step -> session_inv s' /\
         match step with StepRemove _ => True | _ => follows s effects s' end)
  end.
Proof.
  destruct step as [contact origin|time_ms|id]; cbn [session_step step_fair].
  - destruct (dispatch_sound s contact origin Hi) as (s' & effects & handled & Hd & Hi' & Hr). rewrite Hd. cbn.
    split; [done|]. split; [done|]. split; [done|]. intros Hs [Hf Hn].
    destruct (dispatch_ok s contact origin Hs Hf Hn) as (s2 & effects2 & handled2 & Hd2 & Hok).
    rewrite Hd in Hd2. injection Hd2 as <- <- _. exact Hok.
  - destruct (cancel_plugin_contacts_sound s time_ms Hi) as (s' & effects & Hd & [Hi' Hr] & Hin). rewrite Hd.
    split; [done|]. split; [done|]. split; [done|]. intros Hs _.
    destruct (cancel_plugin_contacts_ok s time_ms Hs) as (s2 & effects2 & Hd2 & Hok & _).
    rewrite Hd in Hd2. injection Hd2 as <- <-. exact Hok.
  - destruct (remove_surface_sound s id Hi) as (s' & effects & Hd & [Hi' Hr] & Hgone). rewrite Hd.
    split; [done|]. split; [done|]. split; [done|]. intros Hs _.
    destruct (remove_surface_ok s id Hs) as (s2 & effects2 & Hd2 & Hok & _).
    rewrite Hd in Hd2. by injection Hd2 as <- <-.
Qed.

(** ** Two surfaces *)

Definition surface_at (x layer : N) (id : string) : SurfaceState :=
  {| su_kind := ItemSurface; su_layout_id := id; su_compact_spec := ItemSpec_new id 100 100 100;
     su_layer_id := layer; su_geometry := {| lg_x := x; lg_width := 100; lg_height := 60; lg_z_index := 100 |};
     su_visible := true |}.
Definition two_surfaces : Session :=
  {| se_surfaces := [(1, surface_at 0 1 "p#volume"); (2, surface_at 200 2 "p#clock")]%N;
     se_live_profiles := Some (configured (lone_document "volume"));
     se_input := []; se_next_input_sequence := 1; se_input_sequences := []; se_input_origins := [];
     se_active_presentation := None; se_backdrop_surface := None |}.

Lemma two_surfaces_inv : session_inv two_surfaces.
Proof.
  split; cbn; try done; try (intros; split; by intros [? ?]).
  - repeat constructor.
  - intros profiles [= <-]. split; [apply configured_inv; by vm_compute|]. intros c. cbn.
    split; [by intros ?%elem_of_nil|by intros [? ?]].
  - intros id surface Hin. repeat (apply elem_of_cons in Hin as [[= -> ->]|Hin]; [done|]). by apply elem_of_nil in Hin.
Qed.

Lemma two_surfaces_contacts : contacts_inv two_surfaces.
Proof.
  pose proof two_surfaces_inv as []. split; try done.
  - intros profiles Hp. by destruct (si_live0 _ Hp).
Qed.

Definition finger (id : N) (phase : Phase) (x : Z) : Contact := at_point id phase x 30.
Definition heard (o : option (Session * list Effect * bool)) : option (list (Phase * ObjectId * N * N)) :=
  (fun r : Session * list Effect * bool => omap (fun e : Effect => match e with
      | TouchDown t _ c _ _ q _ => Some (Down, t, c, q)
      | TouchMotion t _ c _ _ q _ => Some (Motion, t, c, q)
      | TouchUp t _ c _ _ q _ => Some (Up, t, c, q)
      | TouchCancel t _ c q _ => Some (Cancel, t, c, q)
      | _ => None
      end) r.1.2) <$> o.
Definition after (o : option (Session * list Effect * bool)) (k : Session -> option (Session * list Effect * bool)) :=
  r ← o; k r.1.1.
Definition waiting (o : option (Session * list Effect * bool)) : option (list N * list N) :=
  r ← o; profiles ← se_live_profiles r.1.1; Some ((se_input r.1.1).*1, lp_captured_contacts profiles).

(** A press, and its end from another origin: the surface heard the press,
    and the session goes on. *)
Lemma touches_follow_protocol_witness :
  match session_step two_surfaces (StepTouch (finger 0 Down 50) Physical) with
  | Some (s1, pressed) =>
      (m ← hear_all silence pressed; Some (sd_down m)) = Some [(1%N, (1%N, 0%N, Physical))] /\ session_inv s1 /\
      match session_step s1 (StepTouch (finger 0 Up 50) Synthetic) with
      | Some (s2, released) => contacts_inv s2 /\ released = []
      | None => False
      end
  | None => False
  end.
Proof.
  assert (Hf : step_fair two_surfaces (StepTouch (finger 0 Down 50) Physical)) by (split; [by intros ?|done]).
  pose proof (touches_follow_protocol two_surfaces (StepTouch (finger 0 Down 50) Physical) two_surfaces_contacts) as H.
  destruct (session_step two_surfaces (StepTouch (finger 0 Down 50) Physical)) as [[s1 pressed]|] eqn:E; [|done].
  destruct H as (Hi1 & _ & _ & Hs). destruct (Hs two_surfaces_inv Hf) as [Hs1 _].
  pose proof (touches_follow_protocol s1 (StepTouch (finger 0 Up 50) Synthetic) Hi1) as H2.
  split; [|split; [exact Hs1|]].
  - vm_compute in E. injection E as <- <-. by vm_compute.
  - destruct (session_step s1 (StepTouch (finger 0 Up 50) Synthetic)) as [[s2 released]|] eqn:E2; [|done].
    destruct H2 as [Hi2 _]. split; [exact Hi2|]. vm_compute in E. injection E as <- _. vm_compute in E2. by injection E2 as _ <-.
Defined.

(** ** Two gestures that are lost *)

(** While a second finger presents content, the surface of the first is no
    target.  The end of the first finger is then dropped without a trace: it
    stays captured, the profiles keep waiting for it, and its next press is
    ignored. *)
Theorem release_during_presentation_lost :
  let popover := {| ap_surface := 2%N; ap_session_id := 1; ap_persistent := false; ap_items := [];
                    ap_dismiss_on_selection := false |} in
  let pressed := after (dispatch_touch two_surfaces (finger 0 Down 50) Physical)
                   (fun s => dispatch_touch s (finger 1 Down 250) Physical) in
  let released := after pressed (fun s => dispatch_touch (with_presentation s (Some popover)) (finger 0 Up 50) Physical) in
  let dismissed := after released (fun s => dispatch_touch s (finger 1 Up 250) Physical) in
  let again := after dismissed (fun s => dispatch_touch s (finger 0 Down 50) Physical) in
  heard pressed = Some [(Down, 2%N, 1%N, 2%N)] /\ heard released = Some [] /\
  waiting dismissed = Some ([0%N], [0%N]) /\ heard again = Some [] /\ waiting again = Some ([0%N], [0%N]).
Proof. by vm_compute. Qed.

(** The end of a contact from another origin releases the capture but neither
    its sequence number nor the gesture the profiles wait for: from then on
    they wait for a contact that no longer exists. *)
Theorem foreign_release_sticks :
  let down := dispatch_touch two_surfaces (finger 0 Down 50) Physical in
  let foreign := after down (fun s => dispatch_touch s (finger 0 Up 50) Synthetic) in
  let up := after foreign (fun s => dispatch_touch s (finger 0 Up 50) Physical) in
  heard foreign = Some [] /\ heard up = Some [] /\ waiting up = Some ([], [0%N]).
Proof. by vm_compute. Qed.
