(* ===== verification/Manifest.v ===== *)
(** * Manifest: the manifest of a plugin package

    Models [PluginManifest] of [crates/touchbar-package/src/lib.rs] and its
    validation, which collects every issue of a manifest with its field and
    message, in order.  The loops that fill a set thread it through the
    elements.  Decoding the TOML text is third-party ([ManifestCodec]).
    Theorems: [ManifestSpec]. *)

From S2P Require Import Prelude BTree Text Package Normalize Layout Grants.

#[local] Set Warnings "-register-all".

Definition SUPPORTED_MANIFEST_VERSION : N := 1.
Definition SUPPORTED_COMPONENT_WORLD : string := "touchbar:plugin/plugin@1.0.0".
Definition SUPPORTED_APPEARANCE_PROVIDER_WORLD : string := "touchbar:plugin/appearance-provider@1.0.0".
Definition MAX_TOUCHBAR_WIDTH : N := 8192.
Definition MAX_ASSETS : N := 64.
Definition MAX_ASSET_WIDTH : N := MAX_TOUCHBAR_WIDTH.
Definition MAX_ASSET_HEIGHT : N := 240.
Definition MAX_ASSET_PIXELS : N := 2 * 1024 * 1024.
Definition MAX_PRESENTATION_BARS : N := 64.
Definition MAX_PRESENTATION_BAR_ELEMENTS : N := 64.
Definition MAX_AUTOMATIC_PROFILES : N := 64.
Definition MAX_AUTOMATIC_PROFILE_ITEMS : N := 64.
Definition MAX_AUTOMATIC_PROFILE_CONTEXTS : N := 64.
Definition MAX_APPEARANCE_PROVIDERS : N := 8.
Definition MAX_LOCAL_ID_BYTES : N := 64.
Definition MAX_PRESENTATION_GROUP_DEPTH : N := 8.
Definition MAX_PRESENTATION_SPACE : N := MAX_TOUCHBAR_WIDTH.
Definition MAX_FLEXIBLE_SPACE_WEIGHT : N := 1024.

(** ** Data *)

Inductive RuntimeSpec :=
| ComponentRuntimeSpec (entrypoint world : string)
| NativeRuntimeSpec (targets : list (string * string)).

Record ItemContribution := {
  ic_id : string;
  ic_label : string;
  ic_default_width : N;
  ic_show_in_default_profile : bool;
  ic_expanded_bar : option string;
  ic_press_and_hold_bar : option string;
}.

Record AutomaticProfile := {
  au_id : string;
  au_label : string;
  au_items : list string;
  au_principal_item : option string;
  au_applications : list string;
  au_activities : list string;
  au_enabled_by_default : bool;
}.

Record AppearanceProvider := {
  ar_id : string;
  ar_label : string;
  ar_entrypoint : string;
  ar_world : string;
  ar_build_package : option string;
  ar_desktop_sessions : list string;
  ar_mounts : list string;
}.

(** [PresentationGroupLayout] has the constructors of [GroupLayout]. *)
Inductive PresentationGroupElement :=
| DeclaredGroupItem (item : string) (minimum_width preferred_width maximum_width : N)
| DeclaredSubGroup (id : string) (layout : GroupLayout) (spacing : N)
    (visibility_priority compression_priority : Z) (elements : list PresentationGroupElement).
Inductive PresentationBarElement :=
| DeclaredItem (item : string) (minimum_width preferred_width maximum_width : N)
| DeclaredFixedSpace (width : N)
| DeclaredFlexibleSpace (minimum weight : N)
| DeclaredGroup (id : string) (layout : GroupLayout) (spacing : N)
    (visibility_priority compression_priority : Z) (elements : list PresentationGroupElement).

Record PresentationBar := {
  pb_id : string;
  pb_minimum_width : N;
  pb_preferred_width : N;
  pb_maximum_width : N;
  pb_dismiss_on_selection : bool;
  pb_elements : list PresentationBarElement;
  pb_principal_item : option string;
}.

Inductive AssetKind := Png | SymbolicSvg.
Record AssetDefinition := {
  as_id : string;
  as_path : string;
  as_kind : AssetKind;
  as_width : N;
  as_height : N;
}.

Record PluginMetadata `{SemVer} := {
  pm_name : string;
  pm_version : Version;
  pm_description : string;
  pm_license : string;
  pm_source : GithubSource;
}.
Arguments Build_PluginMetadata {_}.

Record PluginManifest `{SemVer, ScopeCodec} := {
  mf_manifest_version : N;
  mf_plugin : PluginMetadata;
  mf_runtime : RuntimeSpec;
  mf_items : list ItemContribution;
  mf_bars : list PresentationBar;
  mf_profiles : list AutomaticProfile;
  mf_appearance_providers : list AppearanceProvider;
  mf_assets : list AssetDefinition;
  mf_permissions : list PermissionRequest;
}.
Arguments Build_PluginManifest {_ _}.

(** What the policy reads of a manifest. *)
Definition permission_view `{SemVer, ScopeCodec} (self : PluginManifest) : Normalize.PluginManifest :=
  {| appearance_providers :=
       List.map (fun provider => {| avp_id := ar_id provider; avp_mounts := ar_mounts provider |})
         (mf_appearance_providers self);
     permissions := mf_permissions self |}.

(** ** Issues *)

Record ValidationIssue := { vi_field : string; vi_message : string }.
Abbreviation Issues := (list ValidationIssue).
Definition issue (field message : string) : Issues := [{| vi_field := field; vi_message := message |}].
Definition flag (wrong : bool) (field message : string) : Issues := if wrong then issue field message else [].

(** A field with its index. *)
Definition at_index (field : string) (index : nat) : string := field +:+ "[" +:+ pretty index +:+ "]".

(** A loop over [enumerate] that adds issues and changes a state. *)
Fixpoint check_each {A X} (check : nat -> A -> X -> Issues * X) (index : nat) (l : list A) (s : X) : Issues * X :=
  match l with
  | [] => ([], s)
  | a :: l' =>
      let '(issues, s) := check index a s in
      let '(issues', s) := check_each check (S index) l' s in
      (issues ++ issues', s)
  end.

Definition validate_nonempty (field value : string) : Issues :=
  flag (String.eqb (trim value) "") field "must not be empty".

(** A segment of a kebab-case identifier. *)
Definition not_kebab (value : string) : bool :=
  String.eqb value "" || starts_with value "-" || ends_with value "-" || contains value "--"
  || negb (all_bytes (fun byte => is_ascii_lowercase byte || is_ascii_digit byte || Ascii.eqb byte "-") value)
  || negb (first_byte is_ascii_lowercase value).

Definition validate_kebab_id (field value : string) : Issues :=
  flag (not_kebab value || (MAX_LOCAL_ID_BYTES <? slen value)%N) field
    ("must be a lowercase kebab-case identifier beginning with a letter and at most "
     +:+ pretty MAX_LOCAL_ID_BYTES +:+ " bytes").

Definition validate_dotted_id (field value : string) : Issues :=
  flag (existsb not_kebab (split "." value)) field "must be a dot-separated lowercase identifier".

Definition context_byte (byte : ascii) : bool :=
  is_ascii_lowercase byte || is_ascii_digit byte
  || existsb (Ascii.eqb byte) ["-"; "_"; "."; ":"]%char.
Definition context_identity (value : string) : bool :=
  negb (String.eqb value "") && (slen value <=? 112)%N && String.eqb value (trim value)
  && all_bytes context_byte value.
Definition check_context_identity (field : string) (index : nat) (value : string) (unique : list string)
  : Issues * list string :=
  let '(unique, inserted) := set_insert value unique in
  (flag (negb (context_identity value)) (at_index field index)
     "must be an exact lowercase application or activity identity"
   ++ flag (negb inserted) (at_index field index) ("repeats context identity `" +:+ value +:+ "`"), unique).
Definition validate_context_identities (field : string) (values : list string) : Issues :=
  (check_each (check_context_identity field) 0 values []).1.

Definition validate_package_path (field value : string) : Issues :=
  flag (negb (negb (String.eqb value "") && negb (contains value "\")
              && forallb (fun component => match component with Normal _ => true | _ => false end)
                   (components value))) field
    "must be a normalized relative path contained within the package".

Definition validate_world (world : string) : Issues :=
  flag (negb (String.eqb world SUPPORTED_COMPONENT_WORLD)) "runtime.world"
    ("must be " +:+ SUPPORTED_COMPONENT_WORLD).

Definition validate_target_triple (field value : string) : Issues :=
  let parts := split "-" value in
  flag ((len parts <? 3)%N
        || existsb (fun part =>
             String.eqb part ""
             || negb (all_bytes (fun byte => is_ascii_lowercase byte || is_ascii_digit byte || Ascii.eqb byte "_")
                        part)) parts) field
    "must be a lowercase Rust-style target triple".

(** [str::rsplit_once] at a byte. *)
Fixpoint rsplit_once (sep : ascii) (s : string) : option (string * string) :=
  match s with
  | "" => None
  | String c s' =>
      match rsplit_once sep s' with
      | Some (before, after) => Some (String c before, after)
      | None => if Ascii.eqb c sep then Some ("", s') else None
      end
  end.
(** [Path::extension]: what follows the last dot of the file name, unless
    that dot begins the name. *)
Definition extension (path : string) : option string :=
  name ← file_name path;
  split ← rsplit_once "." name;
  if String.eqb split.1 "" then None else Some split.2.
Definition has_extension (path expected : string) : bool := bool_decide (extension path = Some expected).

(** ** Presentation bars *)

Record Content := {
  ct_element_count : N;
  ct_items : list string;
  ct_groups : list string;
}.
Definition empty_content : Content := {| ct_element_count := 0; ct_items := []; ct_groups := [] |}.
Definition count_element (content : Content) : Content :=
  {| ct_element_count := sat_add64 (ct_element_count content) 1; ct_items := ct_items content;
     ct_groups := ct_groups content |}.
Definition with_items (content : Content) (items : list string) : Content :=
  {| ct_element_count := ct_element_count content; ct_items := items; ct_groups := ct_groups content |}.
Definition with_groups (content : Content) (groups : list string) : Content :=
  {| ct_element_count := ct_element_count content; ct_items := ct_items content; ct_groups := groups |}.

Definition wrong_sizing (minimum_width preferred_width maximum_width : N) : bool :=
  ((minimum_width =? 0) || (preferred_width <? minimum_width) || (maximum_width <? preferred_width)
   || (MAX_PRESENTATION_SPACE <? maximum_width))%N.

Definition validate_presentation_item (declared_items : list string) (field item : string)
  (minimum_width preferred_width maximum_width : N) (content : Content) : Issues * (Sizing * Content) :=
  let '(items, inserted) := set_insert item (ct_items content) in
  (validate_kebab_id (field +:+ ".item") item
   ++ flag (wrong_sizing minimum_width preferred_width maximum_width) (field +:+ ".minimum_width")
        ("item sizing must satisfy 1 <= minimum_width <= preferred_width <= maximum_width <= "
         +:+ pretty MAX_PRESENTATION_SPACE)
   ++ flag (negb (existsb (fun declared => String.eqb declared item) declared_items)) (field +:+ ".item")
        "references an item not declared by this package"
   ++ flag (negb inserted) (field +:+ ".item") "duplicates an item in the same presentation bar",
   ({| sz_minimum := minimum_width; sz_preferred := preferred_width; sz_maximum := maximum_width |},
    with_items content items)).

(** The sums saturate at 64 bits. *)
Definition sat_sum (start : N) (l : list N) : N := fold_left sat_add64 l start.

Definition presentation_group_sizing (field : string) (layout : GroupLayout) (spacing : N) (children : list Sizing)
  : Issues * Sizing :=
  let gap_width := sat_mul64 spacing (sat_sub (len children) 1) in
  match layout with
  | Natural =>
      ([], {| sz_minimum := sat_sum gap_width (sz_minimum <$> children);
              sz_preferred := sat_sum gap_width (sz_preferred <$> children);
              sz_maximum := sat_sum gap_width (sz_maximum <$> children) |})
  | EqualWidth =>
      let common_minimum := max_of (sz_minimum <$> children) in
      let common_maximum := min_of (sz_maximum <$> children) in
      let preferred_candidate := max_of (sz_preferred <$> children) in
      let preferred := if (common_minimum <=? common_maximum)%N
                       then N.max common_minimum (N.min preferred_candidate common_maximum)
                       else common_minimum in
      let total width := sat_add64 (sat_mul64 width (len children)) gap_width in
      (flag (common_maximum <? common_minimum)%N (field +:+ ".element")
         "equal-width group children have incompatible width ranges",
       {| sz_minimum := total common_minimum; sz_preferred := total preferred;
          sz_maximum := total common_maximum |})
  end.

(** The loop over the children of a group. *)
Definition check_children
  (check : PresentationGroupElement -> string -> N -> Content -> Issues * (Sizing * Content))
  (field : string) (depth : N)
  : nat -> list PresentationGroupElement -> Content -> Issues * (list Sizing * Content) :=
  fix go index elements content :=
    match elements with
    | [] => ([], ([], content))
    | element :: elements' =>
        let '(issues, (sizing, content)) := check element (at_index (field +:+ ".element") index) depth content in
        let '(issues', (children, content)) := go (S index) elements' content in
        (issues ++ issues', (sizing :: children, content))
    end.

Definition validate_presentation_group
  (check : PresentationGroupElement -> string -> N -> Content -> Issues * (Sizing * Content))
  (id : string) (layout : GroupLayout) (spacing : N) (elements : list PresentationGroupElement)
  (field : string) (depth : N) (content : Content) : Issues * (Sizing * Content) :=
  let '(groups, inserted) := set_insert id (ct_groups content) in
  let content := with_groups content groups in
  let issues :=
    validate_kebab_id (field +:+ ".id") id
    ++ flag (negb inserted) (field +:+ ".id") "duplicate group id in presentation bar"
    ++ flag (MAX_PRESENTATION_GROUP_DEPTH <? depth)%N (field +:+ ".element")
         ("presentation groups may be nested at most " +:+ pretty MAX_PRESENTATION_GROUP_DEPTH +:+ " levels") in
  if bool_decide (length elements = 0)
  then (issues ++ issue (field +:+ ".element") "a presentation group must contain at least one item or group",
        (fixed_sizing 0, content))
  else
    let spaced := flag (MAX_PRESENTATION_SPACE <? spacing)%N (field +:+ ".spacing")
                    ("group spacing must not exceed " +:+ pretty MAX_PRESENTATION_SPACE) in
    let '(below, (children, content)) := check_children check field depth 0 elements content in
    let '(sized, sizing) := presentation_group_sizing field layout spacing children in
    (issues ++ spaced ++ below ++ sized, (sizing, content)).

Fixpoint validate_presentation_group_element (declared_items : list string) (element : PresentationGroupElement)
  (field : string) (depth : N) (content : Content) : Issues * (Sizing * Content) :=
  let content := count_element content in
  match element with
  | DeclaredGroupItem item minimum_width preferred_width maximum_width =>
      validate_presentation_item declared_items field item minimum_width preferred_width maximum_width content
  | DeclaredSubGroup id layout spacing _ _ elements =>
      validate_presentation_group (fun element => validate_presentation_group_element declared_items element)
        id layout spacing elements field (sat_add64 depth 1) content
  end.

Definition validate_presentation_bar_element (declared_items : list string) (element : PresentationBarElement)
  (field : string) (depth : N) (content : Content) : Issues * (Sizing * Content) :=
  let content := count_element content in
  match element with
  | DeclaredItem item minimum_width preferred_width maximum_width =>
      validate_presentation_item declared_items field item minimum_width preferred_width maximum_width content
  | DeclaredFixedSpace width =>
      (flag ((width =? 0) || (MAX_PRESENTATION_SPACE <? width))%N (field +:+ ".width")
         ("fixed-space width must be between 1 and " +:+ pretty MAX_PRESENTATION_SPACE),
       (fixed_sizing width, content))
  | DeclaredFlexibleSpace minimum weight =>
      (flag (MAX_PRESENTATION_SPACE <? minimum)%N (field +:+ ".minimum")
         ("flexible-space minimum must not exceed " +:+ pretty MAX_PRESENTATION_SPACE)
       ++ flag ((weight =? 0) || (MAX_FLEXIBLE_SPACE_WEIGHT <? weight))%N (field +:+ ".weight")
            ("flexible-space weight must be between 1 and " +:+ pretty MAX_FLEXIBLE_SPACE_WEIGHT),
       ({| sz_minimum := minimum; sz_preferred := minimum; sz_maximum := MAX_PRESENTATION_SPACE |}, content))
  | DeclaredGroup id layout spacing _ _ elements =>
      validate_presentation_group (validate_presentation_group_element declared_items)
        id layout spacing elements field (sat_add64 depth 1) content
  end.

Definition add_sizing (a b : Sizing) : Sizing :=
  {| sz_minimum := sat_add64 (sz_minimum a) (sz_minimum b);
     sz_preferred := sat_add64 (sz_preferred a) (sz_preferred b);
     sz_maximum := sat_add64 (sz_maximum a) (sz_maximum b) |}.

Definition check_bar_element (declared_items : list string) (prefix : string) (index : nat)
  (element : PresentationBarElement) (s : Sizing * Content) : Issues * (Sizing * Content) :=
  let '(issues, (sizing, content)) :=
    validate_presentation_bar_element declared_items element (at_index (prefix +:+ ".element") index) 0 s.2 in
  (issues, (add_sizing s.1 sizing, content)).

Definition validate_bar (item_ids : list string) (index : nat) (bar : PresentationBar) (bar_ids : list string)
  : Issues * list string :=
  let prefix := at_index "bar" index in
  let '(bar_ids, inserted) := set_insert (pb_id bar) bar_ids in
  let '(below, (sizing, content)) :=
    check_each (check_bar_element item_ids prefix) 0 (pb_elements bar) (fixed_sizing 0, empty_content) in
  (validate_kebab_id (prefix +:+ ".id") (pb_id bar)
   ++ flag (wrong_sizing (pb_minimum_width bar) (pb_preferred_width bar) (pb_maximum_width bar))
        (prefix +:+ ".minimum_width")
        ("presentation sizing must satisfy 1 <= minimum_width <= preferred_width <= maximum_width <= "
         +:+ pretty MAX_PRESENTATION_SPACE)
   ++ flag (negb inserted) (prefix +:+ ".id") "duplicate presentation bar id"
   ++ flag (bool_decide (length (pb_elements bar) = 0)) (prefix +:+ ".element")
        "a presentation bar must contain at least one element"
   ++ below
   ++ flag (MAX_PRESENTATION_BAR_ELEMENTS <? ct_element_count content)%N (prefix +:+ ".element")
        ("a presentation bar may contain at most " +:+ pretty MAX_PRESENTATION_BAR_ELEMENTS
         +:+ " elements across its group tree")
   ++ flag (pb_minimum_width bar <? sz_minimum sizing)%N (prefix +:+ ".minimum_width")
        ("must be at least the " +:+ pretty (sz_minimum sizing) +:+ "-pixel sum of element minimums")
   ++ flag (bool_decide (length (ct_items content) = 0)) (prefix +:+ ".element")
        "a presentation bar must contain at least one item"
   ++ match pb_principal_item bar with
      | None => []
      | Some principal =>
          validate_kebab_id (prefix +:+ ".principal_item") principal
          ++ flag (negb (set_contains principal (ct_items content))) (prefix +:+ ".principal_item")
               "must name an item in this presentation bar"
      end, bar_ids).

(** The bars an item refers to. *)
Definition validate_target (bar_ids : list string) (field : string) (target : option string) : Issues :=
  match target with
  | None => []
  | Some target =>
      validate_kebab_id field target
      ++ flag (negb (set_contains target bar_ids)) field "references an unknown presentation bar"
  end.
Definition validate_item_bars (bar_ids : list string) (entry : nat * ItemContribution) : Issues :=
  let '(index, item) := entry in
  validate_target bar_ids (at_index "items" index +:+ ".expanded_bar") (ic_expanded_bar item)
  ++ validate_target bar_ids (at_index "items" index +:+ ".press_and_hold_bar") (ic_press_and_hold_bar item).

(** ** Items and profiles *)

Definition validate_item (index : nat) (item : ItemContribution) (item_ids : list string) : Issues * list string :=
  let '(item_ids, inserted) := set_insert (ic_id item) item_ids in
  (validate_kebab_id (at_index "items" index +:+ ".id") (ic_id item)
   ++ validate_nonempty (at_index "items" index +:+ ".label") (ic_label item)
   ++ flag (negb inserted) (at_index "items" index +:+ ".id") "duplicate item id"
   ++ flag (negb ((1 <=? ic_default_width item) && (ic_default_width item <=? MAX_TOUCHBAR_WIDTH)))%N
        (at_index "items" index +:+ ".default_width")
        ("must be between 1 and " +:+ pretty MAX_TOUCHBAR_WIDTH), item_ids).

Definition validate_profile_item (item_ids : list string) (prefix : string) (index : nat) (item : string)
  (profile_items : list string) : Issues * list string :=
  let field := at_index (prefix +:+ ".items") index in
  let '(profile_items, inserted) := set_insert item profile_items in
  (validate_kebab_id field item
   ++ flag (negb (set_contains item item_ids)) field ("references unknown package item `" +:+ item +:+ "`")
   ++ flag (negb inserted) field ("repeats package item `" +:+ item +:+ "`"), profile_items).

Definition validate_profile (item_ids : list string) (index : nat) (profile : AutomaticProfile)
  (profile_ids : list string) : Issues * list string :=
  let prefix := at_index "profile" index in
  let '(profile_ids, inserted) := set_insert (au_id profile) profile_ids in
  let '(below, profile_items) := check_each (validate_profile_item item_ids prefix) 0 (au_items profile) [] in
  let context_count := sat_add64 (len (au_applications profile)) (len (au_activities profile)) in
  (validate_kebab_id (prefix +:+ ".id") (au_id profile)
   ++ validate_nonempty (prefix +:+ ".label") (au_label profile)
   ++ flag (negb inserted) (prefix +:+ ".id") "duplicate automatic profile id"
   ++ flag ((len (au_items profile) =? 0) || (MAX_AUTOMATIC_PROFILE_ITEMS <? len (au_items profile)))%N
        (prefix +:+ ".items")
        ("must contain 1..=" +:+ pretty MAX_AUTOMATIC_PROFILE_ITEMS +:+ " package-local item IDs")
   ++ below
   ++ match au_principal_item profile with
      | None => []
      | Some principal =>
          validate_kebab_id (prefix +:+ ".principal_item") principal
          ++ flag (negb (set_contains principal profile_items)) (prefix +:+ ".principal_item")
               "must reference an item in this automatic profile"
      end
   ++ flag ((context_count =? 0) || (MAX_AUTOMATIC_PROFILE_CONTEXTS <? context_count))%N
        (prefix +:+ ".applications")
        ("applications and activities must contain 1..=" +:+ pretty MAX_AUTOMATIC_PROFILE_CONTEXTS
         +:+ " exact identities in total")
   ++ validate_context_identities (prefix +:+ ".applications") (au_applications profile)
   ++ validate_context_identities (prefix +:+ ".activities") (au_activities profile), profile_ids).

(** ** Appearance providers *)

Definition validate_mount (prefix : string) (index : nat) (mount : string) (mounts : list string)
  : Issues * list string :=
  let '(mounts, inserted) := set_insert mount mounts in
  (validate_kebab_id (at_index (prefix +:+ ".mounts") index) mount
   ++ flag (negb inserted) (at_index (prefix +:+ ".mounts") index) "duplicate appearance provider mount label",
   mounts).

Definition build_package_byte (byte : ascii) : bool :=
  is_ascii_alphanumeric byte || existsb (Ascii.eqb byte) ["-"; "_"]%char.

(** The identifiers and the entry points seen are threaded. *)
Definition validate_provider (index : nat) (provider : AppearanceProvider) (seen : list string * list string)
  : Issues * (list string * list string) :=
  let prefix := at_index "appearance-provider" index in
  let '(provider_ids, new_id) := set_insert (ar_id provider) seen.1 in
  let '(provider_paths, new_path) := set_insert (ar_entrypoint provider) seen.2 in
  (validate_kebab_id (prefix +:+ ".id") (ar_id provider)
   ++ validate_nonempty (prefix +:+ ".label") (ar_label provider)
   ++ validate_package_path (prefix +:+ ".entrypoint") (ar_entrypoint provider)
   ++ flag (negb (has_extension (ar_entrypoint provider) "wasm")) (prefix +:+ ".entrypoint")
        "an appearance provider entrypoint must have a .wasm extension"
   ++ flag (negb (String.eqb (ar_world provider) SUPPORTED_APPEARANCE_PROVIDER_WORLD)) (prefix +:+ ".world")
        ("unsupported appearance provider world " +:+ ar_world provider +:+ "; this host supports "
         +:+ SUPPORTED_APPEARANCE_PROVIDER_WORLD)
   ++ match ar_build_package provider with
      | None => []
      | Some build_package =>
          validate_nonempty (prefix +:+ ".build_package") build_package
          ++ flag (negb (all_bytes build_package_byte build_package)) (prefix +:+ ".build_package")
               "must contain only ASCII letters, digits, '-' or '_'"
      end
   ++ flag (negb new_id) (prefix +:+ ".id") "duplicate appearance provider id"
   ++ flag (negb new_path) (prefix +:+ ".entrypoint") "duplicate appearance provider entrypoint"
   ++ flag (bool_decide (length (ar_desktop_sessions provider) = 0)) (prefix +:+ ".desktop_sessions")
        "must contain at least one exact desktop session identity"
   ++ validate_context_identities (prefix +:+ ".desktop_sessions") (ar_desktop_sessions provider)
   ++ flag ((len (ar_mounts provider) =? 0) || (32 <? len (ar_mounts provider)))%N (prefix +:+ ".mounts")
        "must contain 1..=32 appearance permission mount labels"
   ++ (check_each (validate_mount prefix) 0 (ar_mounts provider) []).1, (provider_ids, provider_paths)).

(** ** Runtime and assets *)

Definition validate_native_target (index : nat) (target : string * string) (triples : list string)
  : Issues * list string :=
  let prefix := at_index "runtime.targets" index in
  let '(triples, inserted) := set_insert target.1 triples in
  (validate_target_triple (prefix +:+ ".target") target.1
   ++ validate_package_path (prefix +:+ ".entrypoint") target.2
   ++ flag (negb inserted) (prefix +:+ ".target") "duplicate native target", triples).

Definition validate_runtime (runtime : RuntimeSpec) : Issues :=
  match runtime with
  | ComponentRuntimeSpec entrypoint world =>
      validate_package_path "runtime.entrypoint" entrypoint
      ++ flag (negb (has_extension entrypoint "wasm")) "runtime.entrypoint"
           "a component entrypoint must have a .wasm extension"
      ++ validate_world world
  | NativeRuntimeSpec targets =>
      flag (bool_decide (length targets = 0)) "runtime.targets"
        "a native runtime must provide at least one target artifact"
      ++ (check_each validate_native_target 0 targets []).1
  end.

Definition asset_kind_to_string (kind : AssetKind) : string :=
  match kind with Png => "png" | SymbolicSvg => "symbolic-svg" end.
Definition expected_extension (kind : AssetKind) : string :=
  match kind with Png => "png" | SymbolicSvg => "svg" end.

(** The identifiers, the paths and the pixels so far are threaded. *)
Definition validate_asset (index : nat) (asset : AssetDefinition) (seen : list string * list string * N)
  : Issues * (list string * list string * N) :=
  let prefix := at_index "asset" index in
  let '(asset_ids, asset_paths, total) := seen in
  let '(asset_ids, new_id) := set_insert (as_id asset) asset_ids in
  let '(asset_paths, new_path) := set_insert (as_path asset) asset_paths in
  (validate_kebab_id (prefix +:+ ".id") (as_id asset)
   ++ validate_package_path (prefix +:+ ".path") (as_path asset)
   ++ flag (negb match components (as_path asset) with
                 | Normal first :: _ => String.eqb first "assets"
                 | _ => false
                 end) (prefix +:+ ".path") "an asset path must be beneath assets/"
   ++ flag (negb (has_extension (as_path asset) (expected_extension (as_kind asset)))) (prefix +:+ ".path")
        ("a " +:+ asset_kind_to_string (as_kind asset) +:+ " asset must have a ."
         +:+ expected_extension (as_kind asset) +:+ " extension")
   ++ flag (negb new_id) (prefix +:+ ".id") "duplicate asset id"
   ++ flag (negb new_path) (prefix +:+ ".path") "duplicate asset path"
   ++ flag ((as_width asset =? 0) || (MAX_ASSET_WIDTH <? as_width asset))%N (prefix +:+ ".width")
        ("asset width must be between 1 and " +:+ pretty MAX_ASSET_WIDTH)
   ++ flag ((as_height asset =? 0) || (MAX_ASSET_HEIGHT <? as_height asset))%N (prefix +:+ ".height")
        ("asset height must be between 1 and " +:+ pretty MAX_ASSET_HEIGHT),
   (asset_ids, asset_paths, sat_add64 total (as_width asset * as_height asset))).

(** ** The manifest *)

Section Manifest.
Context `{SemVer, ScopeCodec}.

Definition validate_permission (entry : nat * PermissionRequest) : Issues :=
  let '(index, permission) := entry in
  validate_dotted_id (permission_field index "capability") (pr_capability permission)
  ++ validate_nonempty (permission_field index "reason") (pr_reason permission).

Definition manifest_issues (self : PluginManifest) : Issues :=
  let '(items, item_ids) := check_each validate_item 0 (mf_items self) [] in
  let '(bars, bar_ids) := check_each (validate_bar item_ids) 0 (mf_bars self) [] in
  let '(assets, (_, total_asset_pixels)) := check_each validate_asset 0 (mf_assets self) ([], [], 0%N) in
  flag (negb (mf_manifest_version self =? SUPPORTED_MANIFEST_VERSION)%N) "manifest_version"
    ("unsupported manifest version " +:+ pretty (mf_manifest_version self) +:+ "; this host supports "
     +:+ pretty SUPPORTED_MANIFEST_VERSION)
  ++ validate_nonempty "plugin.name" (pm_name (mf_plugin self))
  ++ validate_nonempty "plugin.description" (pm_description (mf_plugin self))
  ++ validate_nonempty "plugin.license" (pm_license (mf_plugin self))
  ++ flag (bool_decide (length (mf_items self) = 0)) "items"
       "a plugin pack must contribute at least one stable item"
  ++ items
  ++ flag (MAX_AUTOMATIC_PROFILES <? len (mf_profiles self))%N "profile"
       ("a package may declare at most " +:+ pretty MAX_AUTOMATIC_PROFILES +:+ " automatic profiles")
  ++ (check_each (validate_profile item_ids) 0 (mf_profiles self) []).1
  ++ flag (MAX_APPEARANCE_PROVIDERS <? len (mf_appearance_providers self))%N "appearance-provider"
       ("a package may declare at most " +:+ pretty MAX_APPEARANCE_PROVIDERS +:+ " appearance providers")
  ++ flag (negb (bool_decide (length (mf_appearance_providers self) = 0))
           && match mf_runtime self with ComponentRuntimeSpec _ _ => false | NativeRuntimeSpec _ => true end)
       "appearance-provider" "appearance providers require a component package runtime"
  ++ (check_each validate_provider 0 (mf_appearance_providers self) ([], [])).1
  ++ flag (MAX_PRESENTATION_BARS <? len (mf_bars self))%N "bar"
       ("a package may declare at most " +:+ pretty MAX_PRESENTATION_BARS +:+ " presentation bars")
  ++ bars
  ++ flat_map (validate_item_bars bar_ids) (enumerate (mf_items self))
  ++ validate_runtime (mf_runtime self)
  ++ flag (MAX_ASSETS <? len (mf_assets self))%N "asset"
       ("a package may declare at most " +:+ pretty MAX_ASSETS +:+ " assets")
  ++ assets
  ++ flag (MAX_ASSET_PIXELS <? total_asset_pixels)%N "asset"
       ("declared assets exceed the " +:+ pretty MAX_ASSET_PIXELS +:+ "-pixel package budget")
  ++ flat_map validate_permission (enumerate (mf_permissions self)).

Definition validate (self : PluginManifest) : result Issues () :=
  match manifest_issues self with [] => Ok () | issues => Err issues end.

Inductive ManifestError := ParseError | InvalidManifest (issues : Issues).

(** [toml] is [toml::from_str]. *)
Definition from_toml (toml : string -> option PluginManifest) (source : string)
  : result ManifestError PluginManifest :=
  manifest ← ok_or ParseError (toml source);
  _ ← map_err InvalidManifest (validate manifest);
  Ok manifest.

(** ** Artifacts *)

(** The iterator over the files a package needs. *)
Inductive RuntimeArtifactPaths := OnePath (path : option string) | ManyPaths (targets : list (string * string)).
Definition runtime_next (paths : RuntimeArtifactPaths) : option string * RuntimeArtifactPaths :=
  match paths with
  | OnePath path => (path, OnePath None)
  | ManyPaths [] => (None, ManyPaths [])
  | ManyPaths (target :: targets) => (Some target.2, ManyPaths targets)
  end.
Record ArtifactPaths := {
  at_runtime : RuntimeArtifactPaths;
  at_providers : list AppearanceProvider;
  at_assets : list AssetDefinition;
}.
Definition artifact_paths (self : PluginManifest) : ArtifactPaths :=
  {| at_runtime := match mf_runtime self with
                   | ComponentRuntimeSpec entrypoint _ => OnePath (Some entrypoint)
                   | NativeRuntimeSpec targets => ManyPaths targets
                   end;
     at_providers := mf_appearance_providers self; at_assets := mf_assets self |}.
Definition artifact_next (self : ArtifactPaths) : option string * ArtifactPaths :=
  let '(path, runtime) := runtime_next (at_runtime self) in
  match path, at_providers self, at_assets self with
  | Some path, providers, assets =>
      (Some path, {| at_runtime := runtime; at_providers := providers; at_assets := assets |})
  | None, provider :: providers, assets =>
      (Some (ar_entrypoint provider), {| at_runtime := runtime; at_providers := providers; at_assets := assets |})
  | None, [], asset :: assets =>
      (Some (as_path asset), {| at_runtime := runtime; at_providers := []; at_assets := assets |})
  | None, [], [] => (None, {| at_runtime := runtime; at_providers := []; at_assets := [] |})
  end.
End Manifest.
