(* ===== verification/ManifestSpec.v ===== *)
(** * ManifestSpec: what a validated manifest is

    [manifest_ok] states declaratively what the validation of [Manifest]
    demands; a manifest validates exactly when it holds.  The bars of a
    validated manifest are then composed in [ContentSpec]. *)

From S2P Require Import Prelude BTree Text Package Normalize Layout Grants Manifest.

#[local] Set Warnings "-register-all".

(** ** Issues *)

Lemma flag_nil wrong field message : flag wrong field message = [] <-> wrong = false.
Proof. by destruct wrong. Qed.
Lemma app_nil {A} (l k : list A) : l ++ k = [] <-> l = [] /\ k = [].
Proof. split; [apply app_nil|by intros [-> ->]]. Qed.
Lemma no_issues_flat_map {A B} (f : A -> list B) l : flat_map f l = [] <-> Forall (fun a => f a = []) l.
Proof.
  induction l as [|a l IH]; cbn; [split; [constructor|done]|].
  by rewrite app_nil, Forall_cons, IH.
Qed.

Section Loops.
Context {A X : Type} (check : nat -> A -> X -> Issues * X) (step : A -> X -> X) (good : A -> X -> Prop).
Hypothesis check_step : forall i a s, (check i a s).2 = step a s.
Hypothesis check_good : forall i a s, (check i a s).1 = [] <-> good a s.

Fixpoint all_good (l : list A) (s : X) : Prop :=
  match l with [] => True | a :: l' => good a s /\ all_good l' (step a s) end.

Lemma check_each_state l : forall i s, (check_each check i l s).2 = fold_left (fun s a => step a s) l s.
Proof.
  induction l as [|a l IH]; intros i s; cbn; [done|].
  pose proof (check_step i a s) as Hs. destruct (check i a s) as [issues s1]. cbn in Hs. subst s1.
  specialize (IH (S i) (step a s)). by destruct (check_each check (S i) l (step a s)).
Qed.

Lemma check_each_nil l : forall i s, (check_each check i l s).1 = [] <-> all_good l s.
Proof.
  induction l as [|a l IH]; intros i s; cbn; [done|].
  pose proof (check_step i a s) as Hs. pose proof (check_good i a s) as Hg.
  destruct (check i a s) as [issues s1]. cbn in Hs, Hg. subst s1.
  specialize (IH (S i) (step a s)). destruct (check_each check (S i) l (step a s)) as [issues' s2]. cbn in *.
  by rewrite app_nil, Hg, IH.
Qed.
End Loops.

(** What is threaded is the set of the keys seen. *)
Lemma elem_of_set_adds {A} (key : A -> string) l x : forall s,
  x ∈ fold_left (fun s a => set_add (key a) s) l s <-> x ∈ s \/ x ∈ key <$> l.
Proof.
  induction l as [|a l IH]; intros s; cbn; [split; [by left|by intros [?|?%not_elem_of_nil]]|].
  rewrite IH, elem_of_set_add, elem_of_cons. tauto.
Qed.

Lemma all_good_distinct {A} (key : A -> string) (P : A -> Prop) l : forall s,
  all_good (fun a => set_add (key a)) (fun a s => P a /\ key a ∉ s) l s <->
  Forall P l /\ NoDup (key <$> l) /\ (forall x, x ∈ key <$> l -> x ∉ s).
Proof.
  induction l as [|a l IH]; intros s; cbn.
  { split; [|done]. intros _. split; [constructor|]. split; [constructor|]. by intros x ?%not_elem_of_nil. }
  rewrite IH, Forall_cons, NoDup_cons. split.
  - intros [[HP Ha] (Hl & Hnd & Hs)]. split; [done|]. split.
    + split; [|done]. intros Hin. apply (Hs _ Hin), elem_of_set_add. by left.
    + intros x [->|Hx]%elem_of_cons; [done|]. intros Hxs. apply (Hs _ Hx), elem_of_set_add. by right.
  - intros [[HP Hl] [[Ha Hnd] Hs]]. split; [split; [done|apply Hs, elem_of_cons; by left]|].
    split; [done|]. split; [done|]. intros x Hx [->|Hxs]%elem_of_set_add; [done|].
    apply (Hs x); [|done]. apply elem_of_cons. by right.
Qed.

Section Distinct.
Context {A : Type} (check : nat -> A -> list string -> Issues * list string) (key : A -> string) (P : A -> Prop).
Hypothesis check_key : forall i a s, (check i a s).2 = set_add (key a) s.
Hypothesis check_fresh : forall i a s, (check i a s).1 = [] <-> P a /\ key a ∉ s.

Lemma check_distinct l : (check_each check 0 l []).1 = [] <-> Forall P l /\ NoDup (key <$> l).
Proof.
  rewrite (check_each_nil check _ _ check_key check_fresh), all_good_distinct.
  split; [tauto|]. intros [? ?]. split; [done|]. split; [done|]. by intros x _ ?%not_elem_of_nil.
Qed.
Lemma check_keys x l : x ∈ (check_each check 0 l []).2 <-> x ∈ key <$> l.
Proof.
  rewrite (check_each_state check _ check_key), elem_of_set_adds. split; [|by right].
  by intros [?%not_elem_of_nil|?].
Qed.
End Distinct.

Lemma set_insert_eq (x : string) s : set_insert x s = (set_add x s, negb (set_contains x s)).
Proof. unfold set_insert. by destruct (set_contains x s). Qed.
Lemma not_inserted (x : string) s : negb (negb (set_contains x s)) = false <-> x ∉ s.
Proof. by rewrite Bool.negb_involutive, set_contains_false. Qed.

(** ** Identifiers, texts and paths *)

Definition kebab_id (value : string) : Prop := not_kebab value = false /\ (slen value <= MAX_LOCAL_ID_BYTES)%N.
Definition nonblank (value : string) : Prop := trim value <> "".
Definition package_path (value : string) : Prop :=
  value <> "" /\ contains value "\" = false /\
  Forall (fun component => exists name, component = Normal name) (components value).
Definition identities (values : list string) : Prop :=
  Forall (fun value => context_identity value = true) values /\ NoDup values.

Lemma validate_kebab_id_nil field value : validate_kebab_id field value = [] <-> kebab_id value.
Proof. unfold validate_kebab_id, kebab_id. by rewrite flag_nil, orb_false_iff, N.ltb_ge. Qed.
Lemma validate_nonempty_nil field value : validate_nonempty field value = [] <-> nonblank value.
Proof. unfold validate_nonempty, nonblank. by rewrite flag_nil, String.eqb_neq. Qed.
Lemma validate_package_path_nil field value : validate_package_path field value = [] <-> package_path value.
Proof.
  unfold validate_package_path, package_path.
  rewrite flag_nil, negb_false_iff, !andb_true_iff, !negb_true_iff, String.eqb_neq, forallb_True'.
  assert (forall c, match c with Normal _ => true | _ => false end = true <-> exists name, c = Normal name) as Hc.
  { intros [| | |name]; split; try done; try (by intros [? ?]). by exists name. }
  rewrite Forall_forall. setoid_rewrite Hc. tauto.
Qed.
Lemma validate_context_identities_nil field values : validate_context_identities field values = [] <-> identities values.
Proof.
  unfold validate_context_identities, identities.
  rewrite (check_distinct _ (fun value => value) (fun value => context_identity value = true)).
  - by rewrite list_fmap_id.
  - intros i a s. unfold check_context_identity. by rewrite set_insert_eq.
  - intros i a s. unfold check_context_identity. rewrite set_insert_eq. cbn [fst].
    by rewrite app_nil, !flag_nil, negb_false_iff, not_inserted.
Qed.

#[local] Hint Rewrite @app_nil flag_nil validate_kebab_id_nil validate_nonempty_nil validate_package_path_nil
  validate_context_identities_nil not_inserted : issues.
Ltac issues := autorewrite with issues.

(** ** Items and profiles *)

Definition item_ok (item : ItemContribution) : Prop :=
  kebab_id (ic_id item) /\ nonblank (ic_label item) /\ (1 <= ic_default_width item <= MAX_TOUCHBAR_WIDTH)%N.

Definition profile_ok (item_ids : list string) (profile : AutomaticProfile) : Prop :=
  kebab_id (au_id profile) /\ nonblank (au_label profile) /\
  (1 <= len (au_items profile) <= MAX_AUTOMATIC_PROFILE_ITEMS)%N /\
  Forall (fun item => kebab_id item /\ item ∈ item_ids) (au_items profile) /\ NoDup (au_items profile) /\
  match au_principal_item profile with None => True | Some p => kebab_id p /\ p ∈ au_items profile end /\
  (1 <= len (au_applications profile) + len (au_activities profile) <= MAX_AUTOMATIC_PROFILE_CONTEXTS)%N /\
  identities (au_applications profile) /\ identities (au_activities profile).

Lemma validate_item_fresh i item s : (validate_item i item s).1 = [] <-> item_ok item /\ ic_id item ∉ s.
Proof.
  unfold validate_item, item_ok. rewrite set_insert_eq. cbn [fst]. issues.
  rewrite negb_false_iff, andb_true_iff, !N.leb_le. tauto.
Qed.
Lemma items_ok l : (check_each validate_item 0 l []).1 = [] <-> Forall item_ok l /\ NoDup (ic_id <$> l).
Proof. apply check_distinct; [done|apply validate_item_fresh]. Qed.
Lemma item_ids_of x l : x ∈ (check_each validate_item 0 l []).2 <-> x ∈ ic_id <$> l.
Proof. by apply check_keys. Qed.

Lemma profile_items_nil ids prefix l : (check_each (validate_profile_item ids prefix) 0 l []).1 = [] <->
  Forall (fun item => kebab_id item /\ item ∈ ids) l /\ NoDup l.
Proof.
  rewrite (check_distinct _ (fun item => item) (fun item => kebab_id item /\ item ∈ ids)).
  - by rewrite list_fmap_id.
  - done.
  - intros i a s. unfold validate_profile_item. rewrite set_insert_eq. cbn [fst]. issues.
    rewrite negb_false_iff, set_contains_spec. tauto.
Qed.
Lemma profile_items_of ids prefix x l : x ∈ (check_each (validate_profile_item ids prefix) 0 l []).2 <-> x ∈ l.
Proof. rewrite (check_keys _ (fun item => item)); [by rewrite list_fmap_id|done]. Qed.

(** A count bounded by a small number does not see the saturation. *)
Lemma sat_add64_bound a b n : (n < u64_max)%N -> (sat_add64 a b <= n <-> a + b <= n)%N.
Proof. unfold sat_add64. lia. Qed.
Lemma sat_add64_pos a b : (1 <= sat_add64 a b <-> 1 <= a + b)%N.
Proof. unfold sat_add64, u64_max. lia. Qed.

Lemma orb_range (n max : N) : ((n =? 0) || (max <? n))%N = false <-> (1 <= n <= max)%N.
Proof. rewrite orb_false_iff, N.eqb_neq, N.ltb_ge. lia. Qed.

Lemma validate_profile_fresh ids i profile s :
  (validate_profile ids i profile s).1 = [] <-> profile_ok ids profile /\ au_id profile ∉ s.
Proof.
  unfold validate_profile, profile_ok. rewrite set_insert_eq.
  set (prefix := at_index "profile" i).
  pose proof (profile_items_nil ids prefix (au_items profile)) as Hi.
  pose proof (fun x => profile_items_of ids prefix x (au_items profile)) as Hs.
  destruct (check_each _ 0 (au_items profile) []) as [below profile_items]. cbn [fst snd] in *.
  assert (Hp : match au_principal_item profile with
               | None => []
               | Some principal =>
                   validate_kebab_id (prefix +:+ ".principal_item") principal
                   ++ flag (negb (set_contains principal profile_items)) (prefix +:+ ".principal_item")
                        "must reference an item in this automatic profile"
               end = [] <->
               match au_principal_item profile with None => True | Some p => kebab_id p /\ p ∈ au_items profile end).
  { destruct (au_principal_item profile) as [p|]; [|done]. issues.
    by rewrite negb_false_iff, set_contains_spec, Hs. }
  issues. rewrite Hi, Hp, !orb_range, sat_add64_bound, sat_add64_pos by done. tauto.
Qed.
Lemma profiles_ok ids l : (check_each (validate_profile ids) 0 l []).1 = [] <->
  Forall (profile_ok ids) l /\ NoDup (au_id <$> l).
Proof.
  apply check_distinct; [|apply validate_profile_fresh].
  intros i a s. unfold validate_profile. rewrite set_insert_eq. by destruct (check_each _ 0 (au_items a) []).
Qed.

(** ** Providers, runtime and assets *)

Definition provider_ok (provider : AppearanceProvider) : Prop :=
  kebab_id (ar_id provider) /\ nonblank (ar_label provider) /\
  package_path (ar_entrypoint provider) /\ extension (ar_entrypoint provider) = Some "wasm" /\
  ar_world provider = SUPPORTED_APPEARANCE_PROVIDER_WORLD /\
  match ar_build_package provider with
  | None => True
  | Some package => nonblank package /\ all_bytes build_package_byte package = true
  end /\
  ar_desktop_sessions provider <> [] /\ identities (ar_desktop_sessions provider) /\
  (1 <= len (ar_mounts provider) <= 32)%N /\ Forall kebab_id (ar_mounts provider) /\ NoDup (ar_mounts provider).

Lemma has_extension_nil path expected : negb (has_extension path expected) = false <-> extension path = Some expected.
Proof. unfold has_extension. by rewrite negb_false_iff, bool_decide_eq_true. Qed.
Lemma length_0 {A} (l : list A) : bool_decide (length l = 0) = false <-> l <> [].
Proof. rewrite bool_decide_eq_false. by destruct l. Qed.

Lemma mounts_nil prefix l : (check_each (validate_mount prefix) 0 l []).1 = [] <-> Forall kebab_id l /\ NoDup l.
Proof.
  rewrite (check_distinct _ (fun mount => mount) kebab_id); [by rewrite list_fmap_id|done|].
  intros i a s. unfold validate_mount. rewrite set_insert_eq. cbn [fst]. by issues.
Qed.

Definition provider_step (provider : AppearanceProvider) (seen : list string * list string) : list string * list string :=
  (set_add (ar_id provider) seen.1, set_add (ar_entrypoint provider) seen.2).

Lemma validate_provider_fresh i provider seen : (validate_provider i provider seen).1 = [] <->
  provider_ok provider /\ ar_id provider ∉ seen.1 /\ ar_entrypoint provider ∉ seen.2.
Proof.
  unfold validate_provider, provider_ok. rewrite !set_insert_eq. cbn [fst].
  assert (Hb : forall field, match ar_build_package provider with
               | None => []
               | Some build_package =>
                   validate_nonempty field build_package
                   ++ flag (negb (all_bytes build_package_byte build_package)) field
                        "must contain only ASCII letters, digits, '-' or '_'"
               end = [] <->
               match ar_build_package provider with
               | None => True
               | Some package => nonblank package /\ all_bytes build_package_byte package = true
               end).
  { intros field. destruct (ar_build_package provider) as [p|]; [|done]. issues. by rewrite negb_false_iff. }
  issues. rewrite Hb, mounts_nil, orb_range, has_extension_nil, length_0, negb_false_iff, String.eqb_eq. tauto.
Qed.

(** Two sets are threaded. *)
Lemma all_good_both {A X} (key key' : A -> string) (P : A -> Prop) (step : A -> X -> X) (first second : X -> list string) l :
  (forall a s, first (step a s) = set_add (key a) (first s)) ->
  (forall a s, second (step a s) = set_add (key' a) (second s)) ->
  forall s, all_good step (fun a s => P a /\ key a ∉ first s /\ key' a ∉ second s) l s <->
    all_good (fun a => set_add (key a)) (fun a s => P a /\ key a ∉ s) l (first s) /\
    all_good (fun a => set_add (key' a)) (fun a s => P a /\ key' a ∉ s) l (second s).
Proof.
  intros H1 H2. induction l as [|a l IH]; intros s; cbn; [done|].
  rewrite IH, H1, H2. tauto.
Qed.
Lemma distinct_both {A X} (key key' : A -> string) (P : A -> Prop) (step : A -> X -> X) (first second : X -> list string) l s :
  (forall a s, first (step a s) = set_add (key a) (first s)) ->
  (forall a s, second (step a s) = set_add (key' a) (second s)) -> first s = [] -> second s = [] ->
  all_good step (fun a s => P a /\ key a ∉ first s /\ key' a ∉ second s) l s <->
  Forall P l /\ NoDup (key <$> l) /\ NoDup (key' <$> l).
Proof.
  intros H1 H2 Hs1 Hs2. rewrite (all_good_both key key' P step first second), !all_good_distinct, Hs1, Hs2 by done.
  assert (forall x : string, x ∉ []) by (intros x; apply not_elem_of_nil). naive_solver.
Qed.

Lemma providers_ok l : (check_each validate_provider 0 l ([], [])).1 = [] <->
  Forall provider_ok l /\ NoDup (ar_id <$> l) /\ NoDup (ar_entrypoint <$> l).
Proof.
  rewrite (check_each_nil _ provider_step
    (fun a s => provider_ok a /\ ar_id a ∉ s.1 /\ ar_entrypoint a ∉ s.2)); [|done|apply validate_provider_fresh].
  by apply distinct_both.
Qed.

Definition target_triple (value : string) : Prop :=
  let parts := split "-" value in
  (3 <= len parts)%N /\
  Forall (fun part => part <> "" /\
    all_bytes (fun byte => is_ascii_lowercase byte || is_ascii_digit byte || Ascii.eqb byte "_") part = true) parts.
Lemma validate_target_triple_nil field value : validate_target_triple field value = [] <-> target_triple value.
Proof.
  unfold validate_target_triple, target_triple. rewrite flag_nil, orb_false_iff, N.ltb_ge, existsb_False', Forall_forall.
  setoid_rewrite orb_false_iff. setoid_rewrite negb_false_iff. setoid_rewrite String.eqb_neq. done.
Qed.

Definition runtime_ok (runtime : RuntimeSpec) : Prop :=
  match runtime with
  | ComponentRuntimeSpec entrypoint world =>
      package_path entrypoint /\ extension entrypoint = Some "wasm" /\ world = SUPPORTED_COMPONENT_WORLD
  | NativeRuntimeSpec targets =>
      targets <> [] /\ Forall (fun target => target_triple target.1 /\ package_path target.2) targets /\
      NoDup (fst <$> targets)
  end.
Lemma validate_runtime_nil runtime : validate_runtime runtime = [] <-> runtime_ok runtime.
Proof.
  destruct runtime as [entrypoint world|targets]; cbn [validate_runtime runtime_ok].
  - unfold validate_world. issues. by rewrite has_extension_nil, negb_false_iff, String.eqb_eq.
  - issues. rewrite length_0.
    rewrite (check_distinct _ fst (fun target => target_triple target.1 /\ package_path target.2)); [done|done|].
    intros i a s. unfold validate_native_target. rewrite set_insert_eq. cbn [fst]. issues.
    rewrite validate_target_triple_nil. tauto.
Qed.

Definition asset_ok (asset : AssetDefinition) : Prop :=
  kebab_id (as_id asset) /\ package_path (as_path asset) /\
  (exists rest, components (as_path asset) = Normal "assets" :: rest) /\
  extension (as_path asset) = Some (expected_extension (as_kind asset)) /\
  (1 <= as_width asset <= MAX_ASSET_WIDTH)%N /\ (1 <= as_height asset <= MAX_ASSET_HEIGHT)%N.
Definition asset_pixels (assets : list AssetDefinition) : N :=
  sumN ((fun asset => as_width asset * as_height asset)%N <$> assets).

Definition asset_step (asset : AssetDefinition) (seen : list string * list string * N) : list string * list string * N :=
  (set_add (as_id asset) seen.1.1, set_add (as_path asset) seen.1.2,
   sat_add64 seen.2 (as_width asset * as_height asset)).

Lemma beneath_assets path :
  match components path with Normal first :: _ => String.eqb first "assets" | _ => false end = true <->
  exists rest, components path = Normal "assets" :: rest.
Proof.
  destruct (components path) as [|[| | |name] rest]; try (split; [done|by intros [? ?]]).
  rewrite String.eqb_eq. split; [intros ->; by exists rest|]. intros [? H]. by injection H.
Qed.

Lemma validate_asset_fresh i asset seen : (validate_asset i asset seen).1 = [] <->
  asset_ok asset /\ as_id asset ∉ seen.1.1 /\ as_path asset ∉ seen.1.2.
Proof.
  destruct seen as [[ids paths] total]. unfold validate_asset, asset_ok. rewrite !set_insert_eq. cbn [fst snd]. issues.
  rewrite has_extension_nil, !orb_range, negb_false_iff, beneath_assets. tauto.
Qed.
Lemma asset_total l : forall s,
  (fold_left (fun s a => asset_step a s) l s).2 = sat_sum s.2 ((fun asset => as_width asset * as_height asset)%N <$> l).
Proof. induction l as [|a l IH]; intros s; cbn; [done|]. by rewrite IH. Qed.
Lemma sat_sum_eq l : forall start, (start <= u64_max)%N -> sat_sum start l = N.min u64_max (start + sumN l).
Proof.
  induction l as [|a l IH]; intros start Hs; cbn; [lia|].
  change (fold_left sat_add64 l (sat_add64 start a)) with (sat_sum (sat_add64 start a) l).
  rewrite IH by (unfold sat_add64; lia). unfold sat_add64. fold (sumN l). lia.
Qed.

Lemma assets_ok l : (check_each validate_asset 0 l ([], [], 0%N)).1 = [] <->
  Forall asset_ok l /\ NoDup (as_id <$> l) /\ NoDup (as_path <$> l).
Proof.
  rewrite (check_each_nil _ asset_step
    (fun a s => asset_ok a /\ as_id a ∉ s.1.1 /\ as_path a ∉ s.1.2)).
  - by apply distinct_both.
  - by intros i a [[? ?] ?].
  - apply validate_asset_fresh.
Qed.
Lemma assets_total l n : (n < u64_max)%N ->
  ((n <? (check_each validate_asset 0 l ([], [], 0%N)).2.2)%N = false <-> (asset_pixels l <= n)%N).
Proof.
  intros Hn. rewrite (check_each_state _ asset_step) by by intros i a [[? ?] ?].
  rewrite asset_total, sat_sum_eq, N.ltb_ge by (cbn; unfold u64_max; lia). unfold asset_pixels. cbn [snd]. lia.
Qed.

(** ** Presentation bars *)

Fixpoint declared_items (element : PresentationGroupElement) : list string :=
  match element with
  | DeclaredGroupItem item _ _ _ => [item]
  | DeclaredSubGroup _ _ _ _ _ elements => flat_map declared_items elements
  end.
Fixpoint declared_groups (element : PresentationGroupElement) : list string :=
  match element with
  | DeclaredGroupItem _ _ _ _ => []
  | DeclaredSubGroup id _ _ _ _ elements => id :: flat_map declared_groups elements
  end.
Fixpoint declared_count (element : PresentationGroupElement) : N :=
  match element with
  | DeclaredGroupItem _ _ _ _ => 1
  | DeclaredSubGroup _ _ _ _ _ elements => 1 + sumN (List.map declared_count elements)
  end.
Fixpoint declared_sizing (element : PresentationGroupElement) : Sizing :=
  match element with
  | DeclaredGroupItem _ minimum_width preferred_width maximum_width =>
      {| sz_minimum := minimum_width; sz_preferred := preferred_width; sz_maximum := maximum_width |}
  | DeclaredSubGroup _ layout spacing _ _ elements =>
      (presentation_group_sizing "" layout spacing (List.map declared_sizing elements)).2
  end.

Definition compatible (layout : GroupLayout) (children : list Sizing) : Prop :=
  match layout with
  | Natural => True
  | EqualWidth => (max_of (sz_minimum <$> children) <= min_of (sz_maximum <$> children))%N
  end.

(** [depth] is that of the element around. *)
Fixpoint declared_ok (item_ids : list string) (depth : N) (element : PresentationGroupElement) : Prop :=
  match element with
  | DeclaredGroupItem item minimum_width preferred_width maximum_width =>
      kebab_id item /\ wrong_sizing minimum_width preferred_width maximum_width = false /\ item ∈ item_ids
  | DeclaredSubGroup id layout spacing _ _ elements =>
      kebab_id id /\ (depth < MAX_PRESENTATION_GROUP_DEPTH)%N /\ elements <> [] /\
      (spacing <= MAX_PRESENTATION_SPACE)%N /\
      Forall (fun ok => ok) (List.map (declared_ok item_ids (depth + 1)) elements) /\
      compatible layout (List.map declared_sizing elements)
  end.

Lemma declared_ind (P : PresentationGroupElement -> Prop) :
  (forall item minimum preferred maximum, P (DeclaredGroupItem item minimum preferred maximum)) ->
  (forall id layout spacing visibility compression elements, Forall P elements ->
     P (DeclaredSubGroup id layout spacing visibility compression elements)) ->
  forall element, P element.
Proof.
  intros Hi Hg. fix IH 1. intros [item a b c|id layout spacing v c elements]; [apply Hi|].
  apply Hg. induction elements as [|e es IHes]; constructor; [apply IH|apply IHes].
Qed.

Definition adds (l s : list string) : list string := fold_left (fun s x => set_add x s) l s.
Definition fresh (l s : list string) : Prop := NoDup l /\ forall x, x ∈ l -> x ∉ s.

Lemma elem_of_adds l s x : x ∈ adds l s <-> x ∈ s \/ x ∈ l.
Proof. unfold adds. rewrite (elem_of_set_adds (fun x => x)). by rewrite list_fmap_id. Qed.
Lemma adds_app l k s : adds (l ++ k) s = adds k (adds l s).
Proof. apply fold_left_app. Qed.
Lemma unseen_nil s : fresh [] s.
Proof. split; [constructor|]. by intros x ?%not_elem_of_nil. Qed.
Lemma fresh_single x s : fresh [x] s <-> x ∉ s.
Proof.
  unfold fresh. split; [intros [_ H]; by apply H, list_elem_of_singleton|].
  intros H. split; [apply NoDup_singleton|]. by intros y ->%list_elem_of_singleton.
Qed.
Lemma unseen_app l k s : fresh (l ++ k) s <-> fresh l s /\ fresh k (adds l s).
Proof.
  unfold fresh. rewrite NoDup_app. setoid_rewrite elem_of_adds. setoid_rewrite elem_of_app. split.
  - intros [(Hl & Hlk & Hk) Hs]. repeat split; [done|by intros x Hx; apply Hs; left|done|].
    intros x Hx [Hxs|Hxl]; [by apply (Hs x); [right|]|by apply (Hlk x)].
  - intros [[Hl Hs] [Hk Hlk]]. repeat split; [done| |done|].
    + intros x Hx Hxk. apply (Hlk x Hxk). by right.
    + intros x [Hx|Hx] Hxs; [by apply (Hs x)|]. apply (Hlk x Hx). by left.
Qed.
Lemma fresh_cons x l s : fresh (x :: l) s <-> x ∉ s /\ fresh l (set_add x s).
Proof. change (x :: l) with ([x] ++ l). by rewrite unseen_app, fresh_single. Qed.
Lemma fresh_empty l : fresh l [] <-> NoDup l.
Proof. split; [by intros []|]. intros H. split; [done|]. intros x _. apply not_elem_of_nil. Qed.

Definition content_after (items groups : list string) (count : N) (content : Content) : Content :=
  {| ct_element_count := sat_add64 (ct_element_count content) count;
     ct_items := adds items (ct_items content); ct_groups := adds groups (ct_groups content) |}.
Lemma content_after_app items groups count items' groups' count' content :
  content_after items' groups' count' (content_after items groups count content) =
  content_after (items ++ items') (groups ++ groups') (count + count') content.
Proof.
  unfold content_after. cbn. rewrite !adds_app. f_equal. unfold sat_add64. lia.
Qed.

(** What the validation of an element leaves, and when it has no issue. *)
Definition leaves (element : PresentationGroupElement) (content : Content) : Sizing * Content :=
  (declared_sizing element,
   content_after (declared_items element) (declared_groups element) (declared_count element) content).
Definition faultless (item_ids : list string) (depth : N) (element : PresentationGroupElement) (content : Content)
  : Prop :=
  declared_ok item_ids depth element /\
  fresh (declared_items element) (ct_items content) /\ fresh (declared_groups element) (ct_groups content).

Lemma declared_in item (item_ids : list string) :
  negb (existsb (fun declared => String.eqb declared item) item_ids) = false <-> item ∈ item_ids.
Proof.
  rewrite negb_false_iff, existsb_True'. setoid_rewrite String.eqb_eq. split; [by intros (x & ? & ->)|].
  intros ?. by exists item.
Qed.

Lemma presentation_item_faultless item_ids depth field item a b c content :
  (validate_presentation_item item_ids field item a b c (count_element content)).1 = [] <->
  faultless item_ids depth (DeclaredGroupItem item a b c) content.
Proof.
  unfold validate_presentation_item, faultless. rewrite set_insert_eq. cbn [ct_items count_element].
  cbn [fst declared_ok declared_items declared_groups]. issues. rewrite declared_in, fresh_single.
  pose proof (unseen_nil (ct_groups content)). tauto.
Qed.

Lemma group_sizing_field field layout spacing children :
  (presentation_group_sizing field layout spacing children).2 = (presentation_group_sizing "" layout spacing children).2.
Proof. by destruct layout. Qed.
Lemma group_sizing_issues field layout spacing children :
  (presentation_group_sizing field layout spacing children).1 = [] <-> compatible layout children.
Proof. destruct layout; cbn; [done|]. by rewrite flag_nil, N.ltb_ge. Qed.

(** The count of a content is a 64-bit integer. *)
Definition counted (content : Content) : Prop := (ct_element_count content <= u64_max)%N.
Lemma counted_after items groups count content : counted (content_after items groups count content).
Proof. unfold counted, content_after, sat_add64. cbn. lia. Qed.
Lemma content_after_nil content : counted content -> content_after [] [] 0 content = content.
Proof. destruct content as [n items groups]. unfold counted, content_after, sat_add64. cbn. intros. f_equal. lia. Qed.

Section Children.
Context (check : PresentationGroupElement -> string -> N -> Content -> Issues * (Sizing * Content)) (depth : N).
Context (elements : list PresentationGroupElement).
Hypothesis check_state : Forall (fun element => forall field content,
  (check element field depth content).2 = leaves element content) elements.

Lemma children_state field : forall index content, counted content ->
  (check_children check field depth index elements content).2 =
  (List.map declared_sizing elements,
   content_after (flat_map declared_items elements) (flat_map declared_groups elements)
     (sumN (List.map declared_count elements)) content).
Proof.
  pose proof check_state as Hst. clear check_state.
  induction Hst as [|element elements' He _ IH]; intros index content Hc; cbn.
  { by rewrite content_after_nil. }
  pose proof (He (at_index (field +:+ ".element") index) content) as H1.
  destruct (check element _ depth content) as [issues s]. cbn [snd] in H1. subst s. unfold leaves.
  set (content1 := content_after _ _ _ content).
  pose proof (IH (S index) content1 (counted_after _ _ _ _)) as H2.
  match type of H2 with (?go _ _ _).2 = _ => destruct (go (S index) elements' content1) as [issues' s] end.
  cbn [snd] in *. subst s. by unfold content1; rewrite content_after_app.
Qed.

Lemma children_issues item_ids field : Forall (fun element => forall field content,
    (check element field depth content).1 = [] <-> faultless item_ids depth element content) elements ->
  forall index content,
  (check_children check field depth index elements content).1 = [] <->
  Forall (declared_ok item_ids depth) elements /\
  fresh (flat_map declared_items elements) (ct_items content) /\
  fresh (flat_map declared_groups elements) (ct_groups content).
Proof.
  pose proof check_state as Hst. clear check_state.
  induction Hst as [|element elements' He _ IH]; intros Hf index content; cbn.
  { pose proof (unseen_nil (ct_items content)). pose proof (unseen_nil (ct_groups content)).
    split; [|done]. intros _. split; [constructor|done]. }
  apply Forall_cons in Hf as [Hf1 Hf].
  pose proof (He (at_index (field +:+ ".element") index) content) as H1.
  pose proof (Hf1 (at_index (field +:+ ".element") index) content) as H2.
  destruct (check element _ depth content) as [issues s]. cbn [fst snd] in *. subst s. unfold leaves.
  set (content1 := content_after _ _ _ content).
  pose proof (IH Hf (S index) content1) as H3.
  match type of H3 with (?go _ _ _).1 = _ <-> _ => destruct (go (S index) elements' content1) as [issues' [children s]] end.
  cbn [fst] in *. rewrite app_nil, H2, H3, Forall_cons, !unseen_app. unfold faultless, content1.
  cbn [ct_items ct_groups content_after]. tauto.
Qed.
End Children.

Lemma group_sizing_nil field layout spacing : (presentation_group_sizing field layout spacing []).2 = fixed_sizing 0.
Proof.
  assert (Hg : sat_mul64 spacing (sat_sub (len (@nil Sizing)) 1) = 0%N) .
  { unfold sat_mul64. change (sat_sub (len (@nil Sizing)) 1) with 0%N. by rewrite N.mul_0_r. }
  unfold presentation_group_sizing. rewrite Hg. by destruct layout.
Qed.

(** The group itself, whose children are checked one level deeper. *)
Section Group.
Context (check : PresentationGroupElement -> string -> N -> Content -> Issues * (Sizing * Content)) (depth : N).
Context (id : string) (layout : GroupLayout) (spacing : N) (v c : Z) (elements : list PresentationGroupElement).
Hypothesis check_state : Forall (fun element => forall field content,
  (check element field depth content).2 = leaves element content) elements.

Let within (content : Content) : Content :=
  with_groups (count_element content) (set_add id (ct_groups content)).

Lemma counted_within content : counted (within content).
Proof. unfold counted, within, count_element, sat_add64. cbn. lia. Qed.

Lemma group_state field content :
  (validate_presentation_group check id layout spacing elements field depth (count_element content)).2 =
  leaves (DeclaredSubGroup id layout spacing v c elements) content.
Proof.
  unfold validate_presentation_group. rewrite set_insert_eq. cbv zeta. change (with_groups _ _) with (within content).
  pose proof (counted_within content) as Hc.
  assert (Hafter : content_after (flat_map declared_items elements) (flat_map declared_groups elements)
                     (sumN (List.map declared_count elements)) (within content) =
                   content_after (flat_map declared_items elements) (id :: flat_map declared_groups elements)
                     (1 + sumN (List.map declared_count elements)) content).
  { unfold content_after, within. cbn. f_equal. unfold sat_add64. lia. }
  unfold leaves. cbn [declared_items declared_groups declared_sizing declared_count].
  case_bool_decide as Hlen.
  - assert (elements = []) as -> by (by destruct elements). cbn [snd flat_map List.map] in *.
    rewrite <- Hafter, content_after_nil by done. by rewrite group_sizing_nil.
  - pose proof (children_state check depth elements check_state field 0 (within content) Hc) as H1.
    destruct (check_children check field depth 0 elements (within content)) as [below s]. cbn [snd] in H1. subst s.
    pose proof (group_sizing_field field layout spacing (List.map declared_sizing elements)) as H3.
    destruct (presentation_group_sizing field layout spacing _) as [sized sizing]. cbn [snd] in *. subst sizing.
    by rewrite Hafter.
Qed.

Lemma group_issues item_ids field content : Forall (fun element => forall field content,
    (check element field depth content).1 = [] <-> faultless item_ids depth element content) elements ->
  (validate_presentation_group check id layout spacing elements field depth (count_element content)).1 = [] <->
  (kebab_id id /\ (depth <= MAX_PRESENTATION_GROUP_DEPTH)%N /\ elements <> [] /\
   (spacing <= MAX_PRESENTATION_SPACE)%N /\ Forall (declared_ok item_ids depth) elements /\
   compatible layout (List.map declared_sizing elements)) /\
  fresh (flat_map declared_items elements) (ct_items content) /\
  fresh (id :: flat_map declared_groups elements) (ct_groups content).
Proof.
  intros Hf. unfold validate_presentation_group. rewrite set_insert_eq. cbv zeta.
  change (with_groups _ _) with (within content). case_bool_decide as Hlen.
  - assert (elements = []) as -> by (by destruct elements). cbn [fst].
    rewrite app_nil. split; [by intros [_ ?]|]. by intros ((_ & _ & ? & _) & _).
  - assert (Hne : elements <> []) by (by intros ->).
    pose proof (children_state check depth elements check_state field 0 _ (counted_within content)) as H1.
    pose proof (children_issues check depth elements check_state item_ids field Hf 0 (within content)) as H2.
    destruct (check_children check field depth 0 elements (within content)) as [below s]. cbn [fst snd] in *. subst s.
    pose proof (group_sizing_issues field layout spacing (List.map declared_sizing elements)) as H4.
    destruct (presentation_group_sizing field layout spacing _) as [sized sizing]. cbn [fst] in *.
    issues. rewrite H2, H4, !N.ltb_ge, fresh_cons. change (ct_items (within content)) with (ct_items content).
    change (ct_groups (within content)) with (set_add id (ct_groups content)).
    change (ct_groups (count_element content)) with (ct_groups content). tauto.
Qed.
End Group.

Lemma group_element_state item_ids element : forall field depth content,
  (validate_presentation_group_element item_ids element field depth content).2 = leaves element content.
Proof.
  induction element as [item a b c|id layout spacing v c elements IH] using declared_ind; intros field depth content.
  { done. }
  cbn [validate_presentation_group_element]. apply group_state.
  eapply Forall_impl; [exact IH|]. intros e He field' content'. apply He.
Qed.

Lemma group_element_issues item_ids element : forall field depth content, (depth <= MAX_PRESENTATION_GROUP_DEPTH)%N ->
  (validate_presentation_group_element item_ids element field depth content).1 = [] <->
  faultless item_ids depth element content.
Proof.
  induction element as [item a b c|id layout spacing v c elements IH] using declared_ind; intros field depth content Hd.
  { apply presentation_item_faultless. }
  cbn [validate_presentation_group_element].
  assert (Hs : sat_add64 depth 1 = (depth + 1)%N).
  { unfold sat_add64, MAX_PRESENTATION_GROUP_DEPTH, u64_max in *. lia. }
  rewrite Hs. unfold faultless. cbn [declared_ok declared_items declared_groups].
  assert (Hstate : Forall (fun element => forall field content,
    (validate_presentation_group_element item_ids element field (depth + 1) content).2 = leaves element content) elements).
  { apply Forall_forall. intros e _ field' content'. apply group_element_state. }
  destruct (decide (depth < MAX_PRESENTATION_GROUP_DEPTH)%N) as [Hlt|Hge].
  - rewrite (group_issues _ _ id layout spacing elements Hstate item_ids).
    + rewrite Forall_map. change (fun x => declared_ok item_ids (depth + 1) x) with (declared_ok item_ids (depth + 1)).
      assert ((depth + 1 <= MAX_PRESENTATION_GROUP_DEPTH)%N <-> (depth < MAX_PRESENTATION_GROUP_DEPTH)%N) by lia. tauto.
    + eapply Forall_impl; [exact IH|]. intros e He field' content'. apply He. lia.
  - split; [|by intros ((_ & ? & _) & _)]. unfold validate_presentation_group. rewrite set_insert_eq. cbv zeta.
    assert (Hdeep : (MAX_PRESENTATION_GROUP_DEPTH <? depth + 1)%N = true) by (apply N.ltb_lt; lia). rewrite Hdeep.
    case_bool_decide; [by intros [[_ [_ ?]%app_nil]%app_nil _]%app_nil|].
    destruct (check_children _ _ _ _ _ _) as [below [children content1]].
    destruct (presentation_group_sizing _ _ _ _) as [sized sizing]. cbn [fst].
    by intros [[_ [_ ?]%app_nil]%app_nil _]%app_nil.
Qed.

(** *** Elements of a bar *)

Definition as_group_element (element : PresentationBarElement) : option PresentationGroupElement :=
  match element with
  | DeclaredItem item a b c => Some (DeclaredGroupItem item a b c)
  | DeclaredGroup id layout spacing v c elements => Some (DeclaredSubGroup id layout spacing v c elements)
  | DeclaredFixedSpace _ | DeclaredFlexibleSpace _ _ => None
  end.
Definition bar_items (element : PresentationBarElement) : list string :=
  match as_group_element element with Some e => declared_items e | None => [] end.
Definition bar_groups (element : PresentationBarElement) : list string :=
  match as_group_element element with Some e => declared_groups e | None => [] end.
Definition bar_count (element : PresentationBarElement) : N :=
  match as_group_element element with Some e => declared_count e | None => 1 end.
Definition bar_sizing (element : PresentationBarElement) : Sizing :=
  match element with
  | DeclaredFixedSpace width => fixed_sizing width
  | DeclaredFlexibleSpace minimum _ =>
      {| sz_minimum := minimum; sz_preferred := minimum; sz_maximum := MAX_PRESENTATION_SPACE |}
  | _ => match as_group_element element with Some e => declared_sizing e | None => fixed_sizing 0 end
  end.
Definition bar_element_ok (item_ids : list string) (element : PresentationBarElement) : Prop :=
  match element with
  | DeclaredFixedSpace width => (1 <= width <= MAX_PRESENTATION_SPACE)%N
  | DeclaredFlexibleSpace minimum weight =>
      (minimum <= MAX_PRESENTATION_SPACE)%N /\ (1 <= weight <= MAX_FLEXIBLE_SPACE_WEIGHT)%N
  | _ => match as_group_element element with Some e => declared_ok item_ids 0 e | None => False end
  end.

Definition bar_step (element : PresentationBarElement) (s : Sizing * Content) : Sizing * Content :=
  (add_sizing s.1 (bar_sizing element),
   content_after (bar_items element) (bar_groups element) (bar_count element) s.2).

Lemma check_bar_element_state item_ids prefix i element s :
  (check_bar_element item_ids prefix i element s).2 = bar_step element s.
Proof.
  unfold check_bar_element. set (field := at_index _ i).
  assert (H : (validate_presentation_bar_element item_ids element field 0 s.2).2 =
    (bar_sizing element, content_after (bar_items element) (bar_groups element) (bar_count element) s.2)).
  { destruct element as [item a b c|width|minimum weight|id layout spacing v c elements]; [done|done|done|].
    apply (group_element_state item_ids (DeclaredSubGroup id layout spacing v c elements)). }
  destruct (validate_presentation_bar_element _ _ _ _ _) as [issues s']. cbn [snd] in *. by subst s'.
Qed.
Lemma check_bar_element_nil item_ids prefix i element s :
  (check_bar_element item_ids prefix i element s).1 = [] <->
  bar_element_ok item_ids element /\ fresh (bar_items element) (ct_items s.2) /\ fresh (bar_groups element) (ct_groups s.2).
Proof.
  unfold check_bar_element. set (field := at_index _ i).
  assert (H : (validate_presentation_bar_element item_ids element field 0 s.2).1 = [] <->
    bar_element_ok item_ids element /\ fresh (bar_items element) (ct_items s.2) /\ fresh (bar_groups element) (ct_groups s.2)).
  { pose proof (unseen_nil (ct_items s.2)). pose proof (unseen_nil (ct_groups s.2)).
    destruct element as [item a b c|width|minimum weight|id layout spacing v c elements].
    - apply (group_element_issues item_ids (DeclaredGroupItem item a b c)). done.
    - cbn. issues. rewrite orb_range. tauto.
    - cbn. issues. rewrite orb_range, N.ltb_ge. tauto.
    - apply (group_element_issues item_ids (DeclaredSubGroup id layout spacing v c elements)). done. }
  by destruct (validate_presentation_bar_element _ _ _ _ _) as [issues [? ?]].
Qed.

Lemma all_bar_elements item_ids elements : forall s,
  all_good bar_step (fun element s => bar_element_ok item_ids element /\
    fresh (bar_items element) (ct_items s.2) /\ fresh (bar_groups element) (ct_groups s.2)) elements s <->
  Forall (bar_element_ok item_ids) elements /\
  fresh (flat_map bar_items elements) (ct_items s.2) /\ fresh (flat_map bar_groups elements) (ct_groups s.2).
Proof.
  induction elements as [|e es IH]; intros s; cbn.
  { pose proof (unseen_nil (ct_items s.2)). pose proof (unseen_nil (ct_groups s.2)). split; [|done].
    intros _. split; [constructor|done]. }
  rewrite IH, Forall_cons, !unseen_app. cbn [ct_items ct_groups content_after]. tauto.
Qed.
Lemma bar_elements_state elements : forall s, counted s.2 -> (sz_minimum s.1 <= u64_max)%N ->
  (fold_left (fun s element => bar_step element s) elements s).2 =
    content_after (flat_map bar_items elements) (flat_map bar_groups elements) (sumN (bar_count <$> elements)) s.2 /\
  sz_minimum (fold_left (fun s element => bar_step element s) elements s).1 =
    N.min u64_max (sz_minimum s.1 + sumN ((fun e => sz_minimum (bar_sizing e)) <$> elements)).
Proof.
  induction elements as [|e es IH]; intros s Hc Hm; cbn.
  { rewrite content_after_nil by done. split; [done|lia]. }
  destruct (IH (bar_step e s)) as [-> ->].
  { apply counted_after. }
  { cbn. unfold sat_add64. lia. }
  cbn. rewrite content_after_app. split; [done|]. unfold sat_add64. fold (sumN ((fun e => sz_minimum (bar_sizing e)) <$> es)). lia.
Qed.

Definition bar_ok (item_ids : list string) (bar : PresentationBar) : Prop :=
  kebab_id (pb_id bar) /\
  wrong_sizing (pb_minimum_width bar) (pb_preferred_width bar) (pb_maximum_width bar) = false /\
  Forall (bar_element_ok item_ids) (pb_elements bar) /\
  NoDup (flat_map bar_items (pb_elements bar)) /\ NoDup (flat_map bar_groups (pb_elements bar)) /\
  (sumN (bar_count <$> pb_elements bar) <= MAX_PRESENTATION_BAR_ELEMENTS)%N /\
  (sumN ((fun e => sz_minimum (bar_sizing e)) <$> pb_elements bar) <= pb_minimum_width bar)%N /\
  flat_map bar_items (pb_elements bar) <> [] /\
  match pb_principal_item bar with
  | None => True
  | Some principal => kebab_id principal /\ principal ∈ flat_map bar_items (pb_elements bar)
  end.

Lemma adds_nil l : adds l [] <> [] <-> l <> [].
Proof.
  split; [by intros H ->|]. intros Hl Ha. destruct l as [|x l]; [done|].
  apply (not_elem_of_nil x). rewrite <- Ha. apply elem_of_adds. right. apply elem_of_cons. by left.
Qed.

Lemma validate_bar_fresh ids i bar s : (validate_bar ids i bar s).1 = [] <-> bar_ok ids bar /\ pb_id bar ∉ s.
Proof.
  unfold validate_bar, bar_ok. rewrite set_insert_eq. set (prefix := at_index "bar" i).
  pose proof (check_each_nil _ _ _ (check_bar_element_state ids prefix) (check_bar_element_nil ids prefix)
    (pb_elements bar) 0 (fixed_sizing 0, empty_content)) as Hn.
  pose proof (check_each_state _ _ (check_bar_element_state ids prefix) (pb_elements bar) 0 (fixed_sizing 0, empty_content)) as Hs.
  destruct (bar_elements_state (pb_elements bar) (fixed_sizing 0, empty_content)) as [Hc Hm]; [done|done|].
  rewrite <- Hs in Hc, Hm. rewrite all_bar_elements in Hn. clear Hs.
  destruct (check_each _ 0 (pb_elements bar) _) as [below [sizing content]]. cbn [fst snd] in *. subst content.
  cbn [ct_items ct_groups empty_content sz_minimum fixed_sizing] in *. rewrite !fresh_empty in Hn.
  set (items := flat_map bar_items (pb_elements bar)) in *.
  cbn [ct_element_count content_after ct_items empty_content].
  assert (Hp : match pb_principal_item bar with
               | None => []
               | Some principal =>
                   validate_kebab_id (prefix +:+ ".principal_item") principal
                   ++ flag (negb (set_contains principal (adds items []))) (prefix +:+ ".principal_item")
                        "must name an item in this presentation bar"
               end = [] <->
               match pb_principal_item bar with
               | None => True
               | Some principal => kebab_id principal /\ principal ∈ items
               end).
  { destruct (pb_principal_item bar) as [p|]; [|done]. issues.
    rewrite negb_false_iff, set_contains_spec, elem_of_adds. pose proof (not_elem_of_nil p). tauto. }
  issues. rewrite Hn, Hp, !length_0, adds_nil, Hm, !N.ltb_ge, sat_add64_bound by done.
  assert (Hw : wrong_sizing (pb_minimum_width bar) (pb_preferred_width bar) (pb_maximum_width bar) = false ->
    (N.min u64_max (0 + sumN ((fun e => sz_minimum (bar_sizing e)) <$> pb_elements bar)) <= pb_minimum_width bar)%N <->
    (sumN ((fun e => sz_minimum (bar_sizing e)) <$> pb_elements bar) <= pb_minimum_width bar)%N).
  { unfold wrong_sizing, MAX_PRESENTATION_SPACE, MAX_TOUCHBAR_WIDTH, u64_max. rewrite !orb_false_iff, !N.ltb_ge. lia. }
  assert (He : items <> [] -> pb_elements bar <> []) by (intros Hi He; apply Hi; unfold items; by rewrite He).
  rewrite N.add_0_l. tauto.
Qed.
Lemma bars_ok ids l : (check_each (validate_bar ids) 0 l []).1 = [] <-> Forall (bar_ok ids) l /\ NoDup (pb_id <$> l).
Proof.
  apply check_distinct; [|apply validate_bar_fresh].
  intros i a s. unfold validate_bar. rewrite set_insert_eq. by destruct (check_each _ 0 (pb_elements a) _) as [? [? ?]].
Qed.
Lemma bar_ids_of ids x l : x ∈ (check_each (validate_bar ids) 0 l []).2 <-> x ∈ pb_id <$> l.
Proof.
  apply check_keys.
  intros i a s. unfold validate_bar. rewrite set_insert_eq. by destruct (check_each _ 0 (pb_elements a) _) as [? [? ?]].
Qed.

(** ** The manifest *)

Definition dotted_id (value : string) : Prop := Forall (fun segment => not_kebab segment = false) (split "." value).
Lemma validate_dotted_id_nil field value : validate_dotted_id field value = [] <-> dotted_id value.
Proof. unfold validate_dotted_id, dotted_id. by rewrite flag_nil, existsb_False', Forall_forall. Qed.

Definition known_bar (bar_ids : list string) (target : option string) : Prop :=
  match target with None => True | Some target => kebab_id target /\ target ∈ bar_ids end.
Lemma validate_target_nil bar_ids field target : validate_target bar_ids field target = [] <-> known_bar bar_ids target.
Proof. destruct target as [t|]; cbn; [|done]. issues. by rewrite negb_false_iff, set_contains_spec. Qed.

Lemma enumerate_Forall {A} (P : A -> Prop) (l : list A) :
  Forall (fun entry : nat * A => P entry.2) (enumerate l) <-> Forall P l.
Proof.
  rewrite !Forall_forall. split.
  - intros H a Ha. destruct (enumerate_elem' l a Ha) as [i Hi]. apply (H _ Hi).
  - intros H [i a] Ha. apply H. by apply enumerate_elem in Ha.
Qed.

Section Spec.
Context `{SemVer, ScopeCodec}.

Definition item_ids (self : PluginManifest) : list string := ic_id <$> mf_items self.
Definition bar_ids (self : PluginManifest) : list string := pb_id <$> mf_bars self.

Record manifest_ok (self : PluginManifest) : Prop := {
  ok_version : mf_manifest_version self = SUPPORTED_MANIFEST_VERSION;
  ok_texts : nonblank (pm_name (mf_plugin self)) /\ nonblank (pm_description (mf_plugin self)) /\
    nonblank (pm_license (mf_plugin self));
  ok_items : mf_items self <> [] /\ Forall item_ok (mf_items self) /\ NoDup (item_ids self);
  ok_targets : Forall (fun item => known_bar (bar_ids self) (ic_expanded_bar item) /\
    known_bar (bar_ids self) (ic_press_and_hold_bar item)) (mf_items self);
  ok_profiles : (len (mf_profiles self) <= MAX_AUTOMATIC_PROFILES)%N /\
    Forall (profile_ok (item_ids self)) (mf_profiles self) /\ NoDup (au_id <$> mf_profiles self);
  ok_providers : (len (mf_appearance_providers self) <= MAX_APPEARANCE_PROVIDERS)%N /\
    Forall provider_ok (mf_appearance_providers self) /\ NoDup (ar_id <$> mf_appearance_providers self) /\
    NoDup (ar_entrypoint <$> mf_appearance_providers self) /\
    (mf_appearance_providers self = [] \/ exists entrypoint world, mf_runtime self = ComponentRuntimeSpec entrypoint world);
  ok_bars : (len (mf_bars self) <= MAX_PRESENTATION_BARS)%N /\
    Forall (bar_ok (item_ids self)) (mf_bars self) /\ NoDup (bar_ids self);
  ok_runtime : runtime_ok (mf_runtime self);
  ok_assets : (len (mf_assets self) <= MAX_ASSETS)%N /\ (asset_pixels (mf_assets self) <= MAX_ASSET_PIXELS)%N /\
    Forall asset_ok (mf_assets self) /\ NoDup (as_id <$> mf_assets self) /\ NoDup (as_path <$> mf_assets self);
  ok_permissions : Forall (fun permission => dotted_id (pr_capability permission) /\ nonblank (pr_reason permission))
    (mf_permissions self);
}.

Lemma bars_ok_ext ids ids' bars : (forall x, x ∈ ids <-> x ∈ ids') -> Forall (bar_ok ids) bars <-> Forall (bar_ok ids') bars.
Proof.
  intros Hx.
  assert (Hd : forall e depth, declared_ok ids depth e <-> declared_ok ids' depth e).
  { induction e as [item a b c|id layout spacing v c elements IH] using declared_ind; intros depth; cbn; [by rewrite Hx|].
    rewrite !Forall_map. assert (Forall (fun x => declared_ok ids (depth + 1) x) elements <->
                                 Forall (fun x => declared_ok ids' (depth + 1) x) elements) as ->; [|done].
    rewrite !Forall_forall. rewrite Forall_forall in IH. split; intros H1 e He; apply (IH e He), H1, He. }
  apply Forall_iff. intros bar. unfold bar_ok.
  assert (Forall (bar_element_ok ids) (pb_elements bar) <-> Forall (bar_element_ok ids') (pb_elements bar)) as ->; [|done].
  apply Forall_iff. intros e. unfold bar_element_ok. destruct e; cbn [as_group_element]; rewrite ?Hd; done.
Qed.

Lemma needs_component self :
  negb (bool_decide (length (mf_appearance_providers self) = 0))
  && match mf_runtime self with ComponentRuntimeSpec _ _ => false | NativeRuntimeSpec _ => true end = false <->
  mf_appearance_providers self = [] \/ exists entrypoint world, mf_runtime self = ComponentRuntimeSpec entrypoint world.
Proof.
  rewrite andb_false_iff, negb_false_iff, bool_decide_eq_true. rewrite length_zero_iff_nil.
  destruct (mf_runtime self) as [e w|t]; [by split; [right; exists e, w|by right]|].
  split; [intros [?|?]; [by left|done]|intros [?|(? & ? & ?)]; [by left|done]].
Qed.

Lemma manifest_issues_spec (self : PluginManifest) : validate self = Ok () <-> manifest_ok self.
Proof.
  assert (Hv : validate self = Ok () <-> manifest_issues self = []).
  { unfold validate. by destruct (manifest_issues self). }
  rewrite Hv. unfold manifest_issues.
  pose proof (items_ok (mf_items self)) as Hi. pose proof (fun x => item_ids_of x (mf_items self)) as Hids.
  destruct (check_each validate_item 0 (mf_items self) []) as [items ids]. cbn [fst snd] in Hi, Hids.
  pose proof (bars_ok ids (mf_bars self)) as Hb. pose proof (fun x => bar_ids_of ids x (mf_bars self)) as Hbids.
  destruct (check_each (validate_bar ids) 0 (mf_bars self) []) as [bars bids]. cbn [fst snd] in Hb, Hbids.
  pose proof (assets_ok (mf_assets self)) as Ha. pose proof (assets_total (mf_assets self) MAX_ASSET_PIXELS eq_refl) as Ht.
  destruct (check_each validate_asset 0 (mf_assets self) ([], [], 0%N)) as [assets [paths total]]. cbn [fst snd] in Ha, Ht.
  assert (Hprofiles : Forall (profile_ok ids) (mf_profiles self) <-> Forall (profile_ok (item_ids self)) (mf_profiles self)).
  { apply Forall_iff. intros p. unfold profile_ok.
    assert (Forall (fun item => kebab_id item /\ item ∈ ids) (au_items p) <->
            Forall (fun item => kebab_id item /\ item ∈ item_ids self) (au_items p)) as ->; [|done].
    apply Forall_iff. intros x. by rewrite Hids. }
  assert (Htargets : Forall (fun entry : nat * ItemContribution => validate_item_bars bids entry = []) (enumerate (mf_items self)) <->
    Forall (fun item => known_bar (bar_ids self) (ic_expanded_bar item) /\
      known_bar (bar_ids self) (ic_press_and_hold_bar item)) (mf_items self)).
  { rewrite <- (enumerate_Forall _ (mf_items self)). apply Forall_iff. intros [i item]. cbn.
    rewrite app_nil, !validate_target_nil. unfold known_bar, bar_ids.
    by destruct (ic_expanded_bar item), (ic_press_and_hold_bar item); rewrite ?Hbids. }
  assert (Hperms : Forall (fun entry => validate_permission entry = []) (enumerate (mf_permissions self)) <->
    Forall (fun permission => dotted_id (pr_capability permission) /\ nonblank (pr_reason permission)) (mf_permissions self)).
  { rewrite <- (enumerate_Forall _ (mf_permissions self)). apply Forall_iff. intros [i permission]. cbn.
    by rewrite app_nil, validate_dotted_id_nil, validate_nonempty_nil. }
  issues. rewrite !no_issues_flat_map, Hi, Hb, Ha, Ht, Htargets, Hperms, profiles_ok, providers_ok, validate_runtime_nil,
    Hprofiles, (bars_ok_ext _ _ _ Hids), needs_component, length_0, negb_false_iff, N.eqb_eq, !N.ltb_ge.
  split.
  - intros. destruct_and!. by constructor.
  - intros [? ? ? ? ? ? ? ? ? ?]. unfold item_ids, bar_ids in *. tauto.
Qed.

(** C20: Validation decides the specification of manifests: a manifest validates
    exactly when it holds, so that no field of a validated manifest is out of
    its bounds, no identifier is malformed or doubled, no reference dangles,
    no path leaves the package, and the widths of each bar are consistent. *)
Theorem validate_manifest_spec (self : PluginManifest) : validate self = Ok () <-> manifest_ok self.
Proof. apply manifest_issues_spec. Qed.
End Spec.
