(* ===== verification/Catalog.v ===== *)
(** * Catalog: what installed packages contribute to the session

    Models the catalogs of [crates/touchbar-sessiond/src/plugins.rs]: which
    presentation bars the items of the installed packages have, which profiles
    packages add to the user's document, and which appearance provider is
    active; and the part of a package's permissions each of its processes
    gets.  A [BTreeMap] is a sorted association list.  Theorems:
    [CatalogSpec]. *)

From S2P Require Import Prelude BTree Text Capability Package Normalize Layout Model Profiles Config Grants Manifest.

#[local] Set Warnings "-register-all".

(** ** Presentation bars *)

Record ItemBars := { ib_expanded : option string; ib_press_and_hold : option string }.
Record PresentationCatalog := {
  pc_item_bars : list ((string * string) * ItemBars);
  pc_bars : list ((string * string) * PresentationBar);
  pc_enabled_items : list (string * string);
}.
Definition empty_presentations : PresentationCatalog :=
  {| pc_item_bars := []; pc_bars := []; pc_enabled_items := [] |}.

Inductive CatalogError :=
| DuplicateInstalledItem (source item : string)
| DuplicateInstalledBar (source bar : string).

(** An item that is not enabled is passed over. *)
Definition add_item (source : string) (enabled : list string) (self : PresentationCatalog) (item : ItemContribution)
  : result CatalogError PresentationCatalog :=
  if negb (set_contains (ic_id item) enabled) then Ok self
  else
    let key := (source, ic_id item) in
    let '(enabled_items, inserted) := set_insert key (pc_enabled_items self) in
    _ ← reject_if (negb inserted) (DuplicateInstalledItem source (ic_id item));
    Ok {| pc_item_bars := bt_insert key {| ib_expanded := ic_expanded_bar item;
                                           ib_press_and_hold := ic_press_and_hold_bar item |} (pc_item_bars self);
          pc_bars := pc_bars self; pc_enabled_items := enabled_items |}.
Definition add_bar (source : string) (self : PresentationCatalog) (bar : PresentationBar)
  : result CatalogError PresentationCatalog :=
  let key := (source, pb_id bar) in
  _ ← reject_if (bt_contains key (pc_bars self)) (DuplicateInstalledBar source (pb_id bar));
  Ok {| pc_item_bars := pc_item_bars self; pc_bars := bt_insert key bar (pc_bars self);
        pc_enabled_items := pc_enabled_items self |}.

Definition item_enabled (self : PresentationCatalog) (source item : string) : bool :=
  set_contains (source, item) (pc_enabled_items self).

Fixpoint presentation_group_element_enabled (catalog : PresentationCatalog) (source : string)
  (element : PresentationGroupElement) : bool :=
  match element with
  | DeclaredGroupItem item _ _ _ => item_enabled catalog source item
  | DeclaredSubGroup _ _ _ _ _ elements => existsb (presentation_group_element_enabled catalog source) elements
  end.
Definition presentation_element_enabled (catalog : PresentationCatalog) (source : string)
  (element : PresentationBarElement) : bool :=
  match element with
  | DeclaredItem item _ _ _ => item_enabled catalog source item
  | DeclaredGroup _ _ _ _ _ elements => existsb (presentation_group_element_enabled catalog source) elements
  | DeclaredFixedSpace _ | DeclaredFlexibleSpace _ _ => false
  end.

Definition bar_for_item (self : PresentationCatalog) (source item : string) (persistent : bool)
  : option PresentationBar :=
  links ← bt_get (source, item) (pc_item_bars self);
  bar ← (if persistent then ib_expanded links else ib_press_and_hold links);
  bar ← bt_get (source, bar) (pc_bars self);
  if existsb (presentation_element_enabled self source) (pb_elements bar) then Some bar else None.

Section Presentations.
Context `{SemVer, ScopeCodec}.

Definition add_presentations (self : PresentationCatalog) (manifest : PluginManifest) (enabled : list string)
  : result CatalogError PresentationCatalog :=
  let source := github_source_to_string (pm_source (mf_plugin manifest)) in
  self ← foldR (add_item source enabled) self (mf_items manifest);
  foldR (add_bar source) self (mf_bars manifest).
End Presentations.

(** ** Packaged profiles *)

Record PackagedProfile := { pp_source : GithubSource; pp_definition : AutomaticProfile }.
Record PackagedProfileCatalog := {
  pk_enabled_items : list ProfileItemConfig;
  pk_profiles : list PackagedProfile;
  pk_manages_default_visibility : bool;
}.
Definition empty_packaged : PackagedProfileCatalog :=
  {| pk_enabled_items := []; pk_profiles := []; pk_manages_default_visibility := false |}.

Section Packaged.
Context `{SemVer, ScopeCodec}.

Definition add_profiles (self : PackagedProfileCatalog) (source : GithubSource) (manifest : PluginManifest)
  (enabled_items enabled_profiles : list string) : PackagedProfileCatalog :=
  {| pk_enabled_items := pk_enabled_items self ++
       List.map (fun item => {| pic_plugin := github_source_to_string source; pic_item := ic_id item;
                                pic_required := false |})
         (List.filter (fun item => ic_show_in_default_profile item && set_contains (ic_id item) enabled_items)
            (mf_items manifest));
     pk_profiles := pk_profiles self ++
       List.map (fun definition => {| pp_source := source; pp_definition := definition |})
         (List.filter (fun profile => set_contains (au_id profile) enabled_profiles
                                      && forallb (fun item => set_contains item enabled_items) (au_items profile))
            (mf_profiles manifest));
     pk_manages_default_visibility := pk_manages_default_visibility self
       || (negb (bool_decide (length (mf_profiles manifest) = 0))
           || existsb (fun item => set_contains (ic_id item) enabled_items && negb (ic_show_in_default_profile item))
                (mf_items manifest)) |}.
End Packaged.

Definition packaged_definition_id (source : GithubSource) (local : string) : string :=
  "package." +:+ pretty (slen (gs_owner source)) +:+ "." +:+ gs_owner source
  +:+ "." +:+ pretty (slen (gs_repository source)) +:+ "." +:+ gs_repository source +:+ "." +:+ local.

(** A single predicate stands for itself. *)
Definition any_of (predicates : list PredicateConfig) : PredicateConfig :=
  match predicates with [predicate] => predicate | _ => AnyConfig predicates end.
Definition exact_text_matches (key : string) (values : list string) : PredicateConfig :=
  any_of (List.map (TextEquals key) values).
Definition exact_activity_matches (values : list string) : PredicateConfig :=
  any_of (List.map (fun value => BooleanEquals ("activity." +:+ value) true) values).

(** The document of a user who has none. *)
Definition automatic_document (enabled_items : list ProfileItemConfig) : ProfileDocument :=
  let '(contributions, elements) :=
    if bool_decide (length enabled_items = 0) then ([], [FlexibleSpaceConfig 0 1])
    else ([{| cf_id := "automatic.installed-items"; cf_items := enabled_items; cf_scope := GlobalConfig;
              cf_priority := 0; cf_when := AlwaysConfig |}],
          [SlotConfig "installed-items" FixedConfig ["automatic.installed-items"]]) in
  {| doc_version := PROFILE_CONFIG_VERSION; doc_fallback := "automatic.default"; doc_contributions := contributions;
     doc_profiles := [{| pg_id := "automatic.default"; pg_elements := elements; pg_principal_item := None |}];
     doc_rules := []; doc_regions := [] |}.

(** [i32::saturating_sub] *)
Definition sat_sub_i32 (a b : Z) : Z := Z.max (- 2 ^ 31) (a - b).
Definition user_priority_floor (document : ProfileDocument) : Z :=
  match List.map rl_priority (doc_rules document) with
  | [] => 0
  | priority :: priorities => foldr Z.min priority priorities
  end.

Definition packaged_rules (application_priority activity_priority : Z) (id : string) (definition : AutomaticProfile)
  : list ProfileRuleConfig :=
  (if bool_decide (length (au_activities definition) = 0) then []
   else [{| rl_profile := id; rl_priority := activity_priority;
            rl_when := exact_activity_matches (au_activities definition) |}])
  ++ (if bool_decide (length (au_applications definition) = 0) then []
      else [{| rl_profile := id; rl_priority := application_priority;
               rl_when := exact_text_matches "application.id" (au_applications definition) |}]).

Definition add_packaged (application_priority activity_priority : Z) (document : ProfileDocument)
  (packaged : PackagedProfile) : ProfileDocument :=
  let definition := pp_definition packaged in
  let source := github_source_to_string (pp_source packaged) in
  let profile_id := packaged_definition_id (pp_source packaged) (au_id definition) in
  let contribution_id := profile_id +:+ ".items" in
  {| doc_version := doc_version document; doc_fallback := doc_fallback document;
     doc_contributions := doc_contributions document ++
       [{| cf_id := contribution_id;
           cf_items := List.map (fun item => {| pic_plugin := source; pic_item := item; pic_required := false |})
                         (au_items definition);
           cf_scope := GlobalConfig; cf_priority := 0; cf_when := AlwaysConfig |}];
     doc_profiles := doc_profiles document ++
       [{| pg_id := profile_id; pg_elements := [SlotConfig "package-items" FixedConfig [contribution_id]];
           pg_principal_item := (fun item => {| pir_plugin := source; pir_item := item |})
                                  <$> au_principal_item definition |}];
     doc_rules := doc_rules document ++ packaged_rules application_priority activity_priority profile_id definition;
     doc_regions := doc_regions document |}.

Definition merged_document (self : PackagedProfileCatalog) (user : option ProfileDocument) : ProfileDocument :=
  let document := match user with Some document => document | None => automatic_document (pk_enabled_items self) end in
  let floor := user_priority_floor document in
  fold_left (add_packaged (sat_sub_i32 floor 2) (sat_sub_i32 floor 1)) (pk_profiles self) document.

Definition merge (self : PackagedProfileCatalog) (user : option ProfileDocument)
  : result ConfigError (option ProfileDocument) :=
  if bool_decide (length (pk_profiles self) = 0)
     && (bool_decide (is_Some user) || negb (pk_manages_default_visibility self))
  then Ok user
  else
    let document := merged_document self user in
    _ ← Config.validate document;
    Ok (Some document).

(** ** Appearance providers and the policies of processes *)

Record ProviderIdentity := { pi_plugin : string; pi_id : string; pi_label : string }.
Record AppearanceProviderCatalog := {
  ac_active : option ProviderIdentity;
  ac_declared : N;
  ac_eligible : N;
}.
Definition empty_providers : AppearanceProviderCatalog := {| ac_active := None; ac_declared := 0; ac_eligible := 0 |}.

Definition provides (provider : AppearanceProvider) (grant : EffectiveGrant) : bool :=
  allows grant && bool_decide (rq_capability (eg_request grant) = AppearanceProvideV1)
  && match rq_scope (eg_request grant) with
     | AppearanceProvide scope => set_contains (ar_id provider) (ap_providers scope)
     | _ => false
     end.
Definition authorized_provider_identity (plugin : string) (provider : AppearanceProvider)
  (policy : option EffectivePolicy) : option ProviderIdentity :=
  policy ← policy;
  _ ← List.find (provides provider) (ep_grants policy);
  Some {| pi_plugin := plugin; pi_id := ar_id provider; pi_label := ar_label provider |}.

(** The order of the pairs of plugin and identifier. *)
Definition identity_before (a b : ProviderIdentity) : bool :=
  match cmp (pi_plugin a, pi_id a) (pi_plugin b, pi_id b) with Lt => true | _ => false end.

Definition add_provider (plugin : string) (policy : option EffectivePolicy) (desktop_sessions : list string)
  (self : AppearanceProviderCatalog) (provider : AppearanceProvider) : AppearanceProviderCatalog :=
  if negb (existsb (fun session => set_contains session desktop_sessions) (ar_desktop_sessions provider)) then self
  else
    match authorized_provider_identity plugin provider policy with
    | None => self
    | Some candidate =>
        {| ac_active := if match ac_active self with None => true | Some active => identity_before candidate active end
                        then Some candidate else ac_active self;
           ac_declared := ac_declared self; ac_eligible := sat_add64 (ac_eligible self) 1 |}
    end.

Section Providers.
Context `{SemVer, ScopeCodec}.

Definition add_providers (self : AppearanceProviderCatalog) (manifest : PluginManifest)
  (policy : option EffectivePolicy) (desktop_sessions : list string) : AppearanceProviderCatalog :=
  fold_left (add_provider (github_source_to_string (pm_source (mf_plugin manifest))) policy desktop_sessions)
    (mf_appearance_providers manifest)
    {| ac_active := ac_active self;
       ac_declared := sat_add64 (ac_declared self) (len (mf_appearance_providers manifest));
       ac_eligible := ac_eligible self |}.

Record PolicyInput := { pl_package : PackageInstance; pl_requests : list CapabilityRequest }.
Definition visual_worker (self : PolicyInput) : PolicyInput :=
  {| pl_package := pl_package self;
     pl_requests := List.filter (fun request => negb (bool_decide (rq_capability request = AppearanceProvideV1)))
                      (pl_requests self) |}.
Definition appearance_request (provider : AppearanceProvider) (request : CapabilityRequest) : option CapabilityRequest :=
  match rq_scope request with
  | AppearanceProvide scope =>
      Some {| rq_capability := rq_capability request; rq_required := rq_required request;
              rq_reason := rq_reason request;
              rq_scope := AppearanceProvide
                {| ap_providers := List.filter (fun id => String.eqb id (ar_id provider)) (ap_providers scope);
                   ap_mounts := List.filter (fun mount => set_contains (fm_label mount) (set_of (ar_mounts provider)))
                                  (ap_mounts scope);
                   ap_maximum_file_bytes := ap_maximum_file_bytes scope;
                   ap_maximum_updates_per_second := ap_maximum_updates_per_second scope |} |}
  | _ => None
  end.
Definition appearance_worker (self : PolicyInput) (provider : AppearanceProvider) : PolicyInput :=
  {| pl_package := pl_package self; pl_requests := omap (appearance_request provider) (pl_requests self) |}.
End Providers.
