(* ===== verification/Surfaces.v ===== *)
(** * Surfaces: the surfaces of the session and what they present

    Models the surfaces of [crates/touchbar-sessiond/src/main.rs] and the bar
    that is presented for one of them: the bar a package declares for the
    item, composed of the surfaces of those of its items that are enabled.
    The buffers of a surface and its opacity, which is always one, are left
    out.  A hash map is a sorted association list.  Theorems: [ContentSpec]. *)

From S2P Require Import Prelude BTree Layout Manifest Catalog.

#[local] Set Warnings "-register-all".

Definition TOUCHBAR_HEIGHT : N := 60.

Inductive SurfaceKind := ItemSurface | BackdropSurface.
#[export] Instance SurfaceKind_eq_dec : EqDecision SurfaceKind.
Proof. solve_decision. Defined.

(** [ObjectId] *)
Definition ObjectId : Type := N.

Record LayerGeometry := { lg_x : N; lg_width : N; lg_height : N; lg_z_index : N }.
#[export] Instance LayerGeometry_eq_dec : EqDecision LayerGeometry.
Proof. solve_decision. Defined.

Inductive PresentationKind := Anchored | InPlace | InSlot | InRegion | FullBar.
#[export] Instance PresentationKind_eq_dec : EqDecision PresentationKind.
Proof. solve_decision. Defined.

Record SurfaceState := {
  su_kind : SurfaceKind;
  su_plugin_id : string;
  su_item_id : string;
  su_layout_id : string;
  su_compact_spec : ItemSpec;
  su_expanded_spec : option ItemSpec;
  su_layer_id : N;
  su_compact_geometry : LayerGeometry;
  su_geometry : LayerGeometry;
  su_pending_configures : list (N * LayerGeometry);
  su_deferred_configure : option LayerGeometry;
  su_configured : bool;
  su_visible : bool;
}.

Record ActivePresentation := {
  ap_surface : ObjectId;
  ap_session_id : N;
  ap_persistent : bool;
  ap_policy : PresentationKind;
  ap_target : string;
  ap_content_bar : option string;
}.

Inductive ContentError :=
| SourceUnavailable
| BarNotEnabled
| ItemNotConnected (item : string)
| NoEnabledItems.

Abbreviation Surfaces := (list (ObjectId * SurfaceState)).

(** The surface of an item of a plugin. *)
Definition is_item_of (plugin item : string) (surface : SurfaceState) : bool :=
  bool_decide (su_kind surface = ItemSurface) && String.eqb (su_plugin_id surface) plugin
  && String.eqb (su_item_id surface) item.
Definition surface_of (surfaces : Surfaces) (plugin item : string) : option SurfaceState :=
  List.find (is_item_of plugin item) (bt_values surfaces).

Section Content.
Context (catalog : PresentationCatalog) (surfaces : Surfaces) (plugin : string).

(** An item that is not enabled is left out; the layout identifiers of the
    items included so far are threaded. *)
Definition content_item (item : string) (minimum_width preferred_width maximum_width : N) (included : list string)
  : result ContentError (option ItemSpec * list string) :=
  if negb (item_enabled catalog plugin item) then Ok (None, included)
  else
    surface ← ok_or (ItemNotConnected item) (surface_of surfaces plugin item);
    Ok (Some (ItemSpec_new (su_layout_id surface) minimum_width preferred_width maximum_width),
        set_add (su_layout_id surface) included).

(** The group of the included elements; none when it is empty. *)
Definition content_group (id : string) (layout : GroupLayout) (spacing : N)
  (visibility_priority compression_priority : Z) (elements : list GroupElement) : option GroupSpec :=
  if bool_decide (length elements = 0) then None
  else Some {| gr_id := plugin +:+ ":" +:+ id; gr_elements := elements; gr_layout := layout; gr_spacing := spacing;
               gr_visibility_priority := visibility_priority; gr_compression_priority := compression_priority |}.

Fixpoint presentation_group_element (element : PresentationGroupElement) (included : list string)
  : result ContentError (option GroupElement * list string) :=
  match element with
  | DeclaredGroupItem item minimum_width preferred_width maximum_width =>
      '(spec, included) ← content_item item minimum_width preferred_width maximum_width included;
      Ok (option_map GroupItem spec, included)
  | DeclaredSubGroup id layout spacing visibility_priority compression_priority elements =>
      '(elements, included) ←
        (fix go (elements : list PresentationGroupElement) (included : list string) :=
           match elements with
           | [] => Ok ([], included)
           | element :: elements' =>
               '(spec, included) ← presentation_group_element element included;
               '(specs, included) ← go elements' included;
               Ok (match spec with Some spec => spec :: specs | None => specs end, included)
           end) elements included;
      Ok (option_map SubGroup (content_group id layout spacing visibility_priority compression_priority elements), included)
  end.
Definition presentation_group_spec (id : string) (layout : GroupLayout) (spacing : N)
  (visibility_priority compression_priority : Z) (elements : list PresentationGroupElement) (included : list string)
  : result ContentError (option GroupElement * list string) :=
  presentation_group_element
    (DeclaredSubGroup id layout spacing visibility_priority compression_priority elements) included.

(** The elements so far, the spaces that wait for an item and the items
    included. *)
Record Building := {
  bd_elements : list Element;
  bd_pending_spaces : list Element;
  bd_included : list string;
}.
Definition wait_space (s : Building) (space : Element) : Building :=
  {| bd_elements := bd_elements s; bd_pending_spaces := bd_pending_spaces s ++ [space]; bd_included := bd_included s |}.
(** Spaces before the first item are dropped. *)
Definition push_element (s : Building) (element : Element) (included : list string) : Building :=
  {| bd_elements := bd_elements s
       ++ (if bool_decide (length (bd_included s) = 0) then [] else bd_pending_spaces s) ++ [element];
     bd_pending_spaces := []; bd_included := included |}.

Definition content_element (s : Building) (element : PresentationBarElement) : result ContentError Building :=
  match element with
  | DeclaredItem item minimum_width preferred_width maximum_width =>
      '(spec, included) ← content_item item minimum_width preferred_width maximum_width (bd_included s);
      Ok match spec with Some spec => push_element s (Item spec) included | None => s end
  | DeclaredFixedSpace width => Ok (wait_space s (FixedSpace width))
  | DeclaredFlexibleSpace minimum weight => Ok (wait_space s (FlexibleSpace minimum weight))
  | DeclaredGroup id layout spacing visibility_priority compression_priority elements =>
      '(group, included) ← presentation_group_spec id layout spacing visibility_priority compression_priority
                             elements (bd_included s);
      Ok match group with
         | Some (SubGroup group) => push_element s (Group group) included
         | _ => {| bd_elements := bd_elements s; bd_pending_spaces := bd_pending_spaces s; bd_included := included |}
         end
  end.

(** The principal item, if it is connected and included. *)
Definition content_principal (principal : option string) (included : list string) : option string :=
  principal ← principal;
  surface ← List.find (fun surface => is_item_of plugin principal surface
                                      && set_contains (su_layout_id surface) included) (bt_values surfaces);
  Some (it_id (su_compact_spec surface)).

Definition declared_content (declared : PresentationBar) : result ContentError BarSpec :=
  s ← foldR content_element {| bd_elements := []; bd_pending_spaces := []; bd_included := [] |} (pb_elements declared);
  _ ← reject_if (bool_decide (length (bd_included s) = 0)) NoEnabledItems;
  Ok {| bar_elements := bd_elements s;
        bar_principal_item := content_principal (pb_principal_item declared) (bd_included s) |}.
End Content.

(** The bar of the source's item, if it is still the presented one. *)
Definition enabled_bar (catalog : PresentationCatalog) (source : SurfaceState) (persistent : bool) (expected : string)
  : result ContentError PresentationBar :=
  ok_or BarNotEnabled
    (declared ← bar_for_item catalog (su_plugin_id source) (su_item_id source) persistent;
     if String.eqb (pb_id declared) expected then Some declared else None).

Definition presentation_content_bar (catalog : PresentationCatalog) (surfaces : Surfaces)
  (presentation : ActivePresentation) : result ContentError (option BarSpec) :=
  match ap_content_bar presentation with
  | None => Ok None
  | Some expected =>
      source ← ok_or SourceUnavailable (bt_get (ap_surface presentation) surfaces);
      declared ← enabled_bar catalog source (ap_persistent presentation) expected;
      bar ← declared_content catalog surfaces (su_plugin_id source) declared;
      Ok (Some bar)
  end.

(** Without a bar the source's own sizing is the container's. *)
Definition presentation_content_sizing (catalog : PresentationCatalog) (surfaces : Surfaces)
  (presentation : ActivePresentation) (fallback : ItemSpec) : result ContentError ItemSpec :=
  match ap_content_bar presentation with
  | None => Ok fallback
  | Some expected =>
      source ← ok_or SourceUnavailable (bt_get (ap_surface presentation) surfaces);
      declared ← enabled_bar catalog source (ap_persistent presentation) expected;
      Ok (ItemSpec_new (su_layout_id source) (pb_minimum_width declared) (pb_preferred_width declared)
            (pb_maximum_width declared))
  end.
