(* ===== verification/ContentSpec.v ===== *)
(** * ContentSpec: declared bars become bars that fit

    The bar a validated manifest declares is composed of its items' surfaces
    into a bar the layout accepts, and that fits in its declared minimum
    width with every item shown; the widths the validation computes with
    saturating sums are those of the layout.  This holds while all items of
    the bar are enabled: with one of them disabled the bar may be refused. *)

From S2P Require Import Prelude BTree Text Package Normalize Layout LayoutSpec Model Profiles Config Grants Manifest ManifestSpec Catalog Surfaces.

#[local] Set Warnings "-register-all".

(** ** A bar whose minimum fits is shown whole *)

Lemma minimum_width elements sizing :
  Forall2 (fun e s => element_sizing e = Ok s) elements sizing ->
  total_width elements (is_content <$> elements) sizing = sumN (sz_minimum <$> sizing).
Proof.
  unfold total_width, element_widths. induction 1 as [|e s elements sizing He _ IH]; [done|].
  cbn [fmap list_fmap zip_with zip]. unfold fmap in IH. cbn [sumN foldr]. f_equal; [|exact IH].
  destruct e as [item|group|w|m w]; cbn in *; try done; by injection He as <-.
Qed.

Lemma visibility_units_total bar required :
  Forall (fun item => it_visibility_group item = None) (LayoutSpec.bar_items bar) ->
  exists units, visibility_units bar required = Ok units.
Proof.
  unfold visibility_units, LayoutSpec.bar_items. generalize (@nil VisibilityUnit) as units. unfold indexed. generalize 0 as i.
  assert (H : forall l (units : list VisibilityUnit) (entries : list (nat * Element)),
    entries.*2 = l -> Forall (fun item => it_visibility_group item = None) (flat_map element_items l) ->
    exists units', foldR (add_unit required) units entries = Ok units').
  { induction l as [|e l IH]; intros units [|[i e'] entries]; try done; [by exists units|].
    cbn [fmap list_fmap]. intros [= -> Hl] Hv. cbn [flat_map] in Hv. apply Forall_app in Hv as [He Hv].
    cbn [foldR]. destruct e as [item|group|w|m w]; cbn [add_unit]; try (apply IH; [exact Hl|exact Hv]).
    apply Forall_cons in He as [He _]. rewrite He. cbn. by apply IH. }
  intros _ units Hv. apply (H (bar_elements bar)); [|exact Hv].
  unfold imap. clear. apply list_eq. intros i. rewrite list_lookup_fmap, list_lookup_imap. by destruct (bar_elements bar !! i).
Qed.

Lemma resolve_fits bar available required sizing : (available < u32_limit)%N ->
  Layout.validate bar required = Ok () ->
  Forall (fun item => it_visibility_group item = None) (LayoutSpec.bar_items bar) ->
  mapR element_sizing (bar_elements bar) = Ok sizing -> (sumN (sz_minimum <$> sizing) <= available)%N ->
  exists layout, resolve bar available required = Some (Ok layout) /\
    laid_out bar available (all_content bar) layout.
Proof.
  intros Ha Hv Hu Hs Hm. destruct (visibility_units_total bar required Hu) as [units Hunits].
  assert (Hp : prepare bar required = Ok (units, sizing)) by (unfold prepare; by rewrite Hv; cbn; rewrite Hunits; cbn; rewrite Hs).
  apply mapR_Ok in Hs. pose proof (minimum_width _ _ Hs) as Hw.
  destruct (resolve_prepared bar available required units sizing Ha Hp) as (hidden & kept & [Hsplit _ Hshort] & H).
  destruct hidden as [|u hidden].
  - cbn [hide_all] in H. cbv zeta in H. unfold all_content, hide_all in H. cbn in H. unfold fmap in *.
    rewrite Hw, (proj2 (N.ltb_ge _ _) Hm) in H. exact H.
  - specialize (Hshort [] u hidden eq_refl). unfold all_content, hide_all in Hshort. cbn in Hshort.
    unfold fmap in *. rewrite Hw in Hshort. lia.
Qed.

(** ** The declared widths are those of the layout *)

Section Bar.
Context (plugin : string).

Notation qualified item := (qualified_item_id_unchecked plugin item).

(** The element with every item included. *)
Fixpoint content_of (element : PresentationGroupElement) : GroupElement :=
  match element with
  | DeclaredGroupItem item minimum_width preferred_width maximum_width =>
      GroupItem (ItemSpec_new (qualified item) minimum_width preferred_width maximum_width)
  | DeclaredSubGroup id layout spacing visibility_priority compression_priority elements =>
      SubGroup {| gr_id := plugin +:+ ":" +:+ id; gr_elements := List.map content_of elements; gr_layout := layout;
                  gr_spacing := spacing; gr_visibility_priority := visibility_priority;
                  gr_compression_priority := compression_priority |}
  end.

Lemma sat_sum_exact start l : (start <= u64_max)%N -> (sat_sum start l < u64_max)%N -> sat_sum start l = (start + sumN l)%N.
Proof. intros Hs. rewrite sat_sum_eq by done. lia. Qed.
Lemma sat_sum_le start l : (start <= u64_max)%N -> (sat_sum start l <= start + sumN l)%N.
Proof. intros Hs. rewrite sat_sum_eq by done. lia. Qed.
Lemma gap_bound spacing n : (sat_mul64 spacing n <= u64_max)%N.
Proof. unfold sat_mul64. lia. Qed.
Lemma max_of_elem l a : a ∈ l -> (a <= max_of l)%N.
Proof. intros Ha. pose proof (max_of_spec l) as H. rewrite Forall_forall in H. by apply H. Qed.
Lemma min_of_le l k : Forall2 N.le l k -> (min_of l <= min_of k)%N.
Proof.
  destruct 1 as [|a b l k Hab Hlk]; [done|]. cbn [min_of]. induction Hlk as [|c d l k Hcd _ IH]; cbn; lia.
Qed.
Lemma active_all children : Forall (fun s => 0 < sz_maximum s)%N children -> active_sizing children = children.
Proof.
  unfold active_sizing. induction 1 as [|s l Hs _ IH]; [done|]. cbn.
  rewrite IH. by rewrite (proj2 (N.ltb_lt _ _) Hs).
Qed.

(** The sizing of the layout agrees with the declared one: the same minimum,
    no smaller maximum. *)
Definition agrees (declared actual : Sizing) : Prop :=
  sz_minimum actual = sz_minimum declared /\ (sz_maximum declared <= sz_maximum actual)%N /\
  valid actual /\ (0 < sz_minimum actual)%N.

Lemma group_agrees id layout spacing v c (elements : list GroupElement) declared actual :
  declared <> [] -> Forall2 agrees declared actual -> compatible layout declared ->
  (sz_minimum (presentation_group_sizing "" layout spacing declared).2 < u64_max)%N ->
  exists s, combine_sizing {| gr_id := id; gr_elements := elements; gr_layout := layout; gr_spacing := spacing;
              gr_visibility_priority := v; gr_compression_priority := c |} actual = Ok s /\
    agrees (presentation_group_sizing "" layout spacing declared).2 s.
Proof.
  intros Hne Ha Hc Hm. unfold combine_sizing. cbn [gr_layout gr_spacing gr_id].
  assert (Hlen : len actual = len declared) by (unfold len; f_equal; symmetry; by eapply Forall2_length).
  assert (Hact : active_sizing actual = actual).
  { apply active_all. clear -Ha. induction Ha as [|d a l k (_ & _ & Hv & Hp) _ IH]; constructor; [|done].
    unfold valid in Hv. lia. }
  rewrite Hact. case_bool_decide as H0; [destruct Ha; done|].
  assert (Hmins : sz_minimum <$> actual = sz_minimum <$> declared).
  { clear -Ha. induction Ha as [|d a l k [Hmin _] _ IH]; [done|]. cbn. by rewrite Hmin, IH. }
  assert (Hmaxs : Forall2 N.le (sz_maximum <$> declared) (sz_maximum <$> actual)).
  { clear -Ha. induction Ha as [|d a l k (_ & ? & _) _ IH]; by constructor. }
  assert (Hgap : forall x, (sat_add64 x (sat_mul64 spacing (sat_sub (len declared) 1)) < u64_max)%N ->
    sat_add64 x (sat_mul64 spacing (sat_sub (len declared) 1)) = (x + gaps spacing (len declared))%N).
  { unfold sat_add64, sat_mul64, gaps. lia. }
  assert (Hpos : (1 <= len declared)%N) by (destruct declared; [done|unfold len; cbn; lia]).
  pose proof (gap_bound spacing (sat_sub (len declared) 1)) as Hg.
  destruct layout; cbn [presentation_group_sizing snd sz_minimum] in Hm |- *.
  - eexists. split; [done|]. rewrite sat_sum_exact in Hm by done.
    assert (Hgap' : sat_mul64 spacing (sat_sub (len declared) 1) = gaps spacing (len declared)).
    { revert Hm. unfold sat_mul64, gaps. lia. }
    rewrite Hlen, Hmins. repeat split; cbn.
    + rewrite sat_sum_eq by done. rewrite Hgap' in *. lia.
    + pose proof (sat_sum_le _ (sz_maximum <$> declared) Hg) as Hle. pose proof (sumN_le _ _ Hmaxs). lia.
    + rewrite <- Hmins. apply N.add_le_mono_r, sumN_fmap_le. clear -Ha. induction Ha as [|d a l k (_ & _ & [? ?] & _) _ IH]; by constructor.
    + apply N.add_le_mono_r, sumN_fmap_le. clear -Ha. induction Ha as [|d a l k (_ & _ & [? ?] & _) _ IH]; by constructor.
    + destruct Ha as [|d a l k (Hmin & _ & _ & Hp) _]; [done|]. cbn. lia.
  - assert (Hcm : (max_of (sz_minimum <$> actual) <= min_of (sz_maximum <$> actual))%N).
    { rewrite Hmins. etransitivity; [exact Hc|]. by apply min_of_le. }
    rewrite (proj2 (N.ltb_ge _ _) Hcm). eexists. split; [done|]. rewrite Hlen, Hmins in *.
    set (common := max_of (sz_minimum <$> declared)) in *.
    assert (Hmul : sat_mul64 common (len declared) = (common * len declared)%N).
    { revert Hm. unfold sat_add64, sat_mul64. lia. }
    assert (Hp : (0 < common)%N).
    { destruct Ha as [|d a l k (Hmin & _ & _ & Hp) _]; [done|]. unfold common. cbn. lia. }
    assert (Hmaxc : (min_of (sz_maximum <$> declared) <= min_of (sz_maximum <$> actual))%N) by by apply min_of_le.
    set (upper := min_of (sz_maximum <$> actual)) in *. set (lower := min_of (sz_maximum <$> declared)) in *.
    set (preferred := max_of (sz_preferred <$> actual)). repeat split; cbn.
    + rewrite Hgap by done. by rewrite Hmul.
    + assert (lower * len declared <= upper * len declared)%N by by apply N.mul_le_mono_r.
      revert H. unfold sat_add64, sat_mul64, gaps. lia.
    + apply N.add_le_mono_r, N.mul_le_mono_r. lia.
    + apply N.add_le_mono_r, N.mul_le_mono_r. lia.
    + nia.
Qed.

Lemma group_minimum_children layout spacing declared s :
  (sz_minimum (presentation_group_sizing "" layout spacing declared).2 < u64_max)%N -> s ∈ declared ->
  (sz_minimum s < u64_max)%N.
Proof.
  intros Hm Hs. pose proof (gap_bound spacing (sat_sub (len declared) 1)) as Hg.
  assert (Hin : sz_minimum s ∈ sz_minimum <$> declared) by (apply list_elem_of_fmap; eauto).
  destruct layout; cbn [presentation_group_sizing snd sz_minimum] in Hm.
  - rewrite sat_sum_eq in Hm by done.
    assert (sz_minimum s <= sumN (sz_minimum <$> declared))%N; [|lia].
    apply list_elem_of_lookup in Hin as [i Hi]. by eapply sumN_elem.
  - apply max_of_elem in Hin. assert (1 <= len declared)%N.
    { destruct declared; [by apply not_elem_of_nil in Hs|unfold len; cbn; lia]. }
    revert Hm. unfold sat_add64, sat_mul64. nia.
Qed.

Lemma content_sizing item_ids element : forall depth,
  declared_ok item_ids depth element -> (sz_minimum (declared_sizing element) < u64_max)%N ->
  exists s, group_element_sizing (content_of element) = Ok s /\ agrees (declared_sizing element) s.
Proof.
  induction element as [item a b c|id layout spacing v c elements IH] using declared_ind; intros depth Hok Hm.
  { destruct Hok as (_ & Hw & _). eexists. split; [done|]. unfold wrong_sizing in Hw.
    rewrite !orb_false_iff, N.eqb_neq, !N.ltb_ge in Hw. unfold agrees, valid. cbn. lia. }
  cbn [declared_ok declared_sizing content_of group_element_sizing gr_elements] in *.
  destruct Hok as (_ & _ & Hne & _ & Hch & Hc). rewrite Forall_map in Hch.
  assert (H : exists actual, mapR group_element_sizing (List.map content_of elements) = Ok actual /\
    Forall2 agrees (List.map declared_sizing elements) actual).
  { assert (Hsmall : Forall (fun e => sz_minimum (declared_sizing e) < u64_max)%N elements).
    { apply Forall_forall. intros e He. eapply group_minimum_children; [exact Hm|]. by apply list_elem_of_fmap_2. }
    clear -IH Hch Hsmall. induction IH as [|e es He _ IHes]; [by exists []|].
    apply Forall_cons in Hch as [H1 H2], Hsmall as [H3 H4]. destruct (He _ H1 H3) as (s & Hs & Ha).
    destruct (IHes H2 H4) as (ss & Hss & Has). exists (s :: ss). cbn [List.map mapR]. rewrite Hs. cbn.
    rewrite Hss. split; [done|by constructor]. }
  destruct H as (actual & -> & Ha). cbn [mbind result_bind].
  apply group_agrees; [by destruct elements|done|done|done].
Qed.

(** ** The layout accepts the content *)

Notation group_id id := (plugin +:+ ":" +:+ id).
Definition item_layout_ids (items : list string) : list string := List.map (fun item => qualified item) items.
Definition group_layout_ids (groups : list string) : list string := List.map (fun id => group_id id) groups.

Lemma adds_cons x l s : adds (x :: l) s = adds l (set_add x s).
Proof. done. Qed.

Lemma content_item_validates item a b c s : wrong_sizing a b c = false -> qualified item ∉ s ->
  Layout.validate_item (ItemSpec_new (qualified item) a b c) s = Ok (set_add (qualified item) s).
Proof.
  intros Hw Hs. unfold wrong_sizing in Hw. rewrite !orb_false_iff, !N.ltb_ge in Hw. destruct Hw as [[[H1 H2] H3] _].
  unfold Layout.validate_item. cbn [it_id it_min_width it_preferred_width it_max_width ItemSpec_new].
  rewrite H1, (proj2 (N.ltb_ge _ _) H2), (proj2 (N.ltb_ge _ _) H3), set_insert_eq.
  assert (String.eqb (qualified item) "" = false) as ->.
  { apply String.eqb_neq. unfold qualified_item_id_unchecked. by destruct plugin. }
  apply set_contains_false in Hs. by rewrite Hs.
Qed.

Lemma content_validates item_ids element : forall depth layout_depth seen,
  declared_ok item_ids depth element -> (sz_minimum (declared_sizing element) < u64_max)%N ->
  match element with DeclaredSubGroup _ _ _ _ _ _ => layout_depth = (depth + 1)%N | _ => True end ->
  fresh (item_layout_ids (declared_items element)) seen.1 -> fresh (group_layout_ids (declared_groups element)) seen.2 ->
  Layout.validate_group_element (content_of element) layout_depth seen =
  Ok (adds (item_layout_ids (declared_items element)) seen.1, adds (group_layout_ids (declared_groups element)) seen.2).
Proof.
  induction element as [item a b c|id layout spacing v c elements IH] using declared_ind;
    intros depth layout_depth seen Hok Hm Hd Hi Hg.
  { destruct Hok as (_ & Hw & _). cbn in *. apply fresh_single in Hi. by rewrite content_item_validates. }
  destruct (content_sizing item_ids _ _ Hok Hm) as (s & Hs & _). subst layout_depth.
  cbn [declared_ok declared_sizing content_of] in *. destruct Hok as (Hk & Hdepth & Hne & _ & Hch & Hc).
  rewrite Forall_map in Hch. cbn [declared_items declared_groups] in Hi, Hg |- *.
  unfold group_layout_ids in Hg |- *. cbn [List.map] in Hg |- *. apply fresh_cons in Hg as [Hid Hg].
  cbn [Layout.validate_group_element gr_id gr_elements].
  assert (String.eqb (group_id id) "" = false) as -> by (apply String.eqb_neq; by destruct plugin).
  rewrite set_insert_eq. rewrite (proj2 (N.ltb_ge MAX_GROUP_DEPTH (depth + 1))).
  2:{ unfold MAX_PRESENTATION_GROUP_DEPTH in Hdepth. unfold MAX_GROUP_DEPTH. lia. }
  apply set_contains_false in Hid. rewrite Hid. cbn [negb reject_if mbind result_bind].
  assert (Hsmall : Forall (fun e => sz_minimum (declared_sizing e) < u64_max)%N elements).
  { apply Forall_forall. intros e He. eapply group_minimum_children; [exact Hm|]. by apply list_elem_of_fmap_2. }
  match goal with |- context [?go (List.map content_of elements) (seen.1, ?gs)] =>
    assert (Hgo : forall state, fresh (item_layout_ids (flat_map declared_items elements)) state.1 ->
      fresh (group_layout_ids (flat_map declared_groups elements)) state.2 ->
      go (List.map content_of elements) state =
      Ok (adds (item_layout_ids (flat_map declared_items elements)) state.1,
          adds (group_layout_ids (flat_map declared_groups elements)) state.2)) end.
  { clear -IH Hch Hsmall. induction IH as [|e es He _ IHes]; intros [xs gs]; [done|].
    apply Forall_cons in Hch as [H1 H2], Hsmall as [H3 H4]. cbn [flat_map List.map]. unfold item_layout_ids, group_layout_ids.
    rewrite !map_app. intros [Hi1 Hi2]%unseen_app [Hg1 Hg2]%unseen_app.
    rewrite (He (depth + 1)%N _ (xs, gs) H1 H3); [|by destruct e|done|done].
    cbn [mbind result_bind]. rewrite IHes by done. cbn [fst snd]. by rewrite !adds_app. }
  rewrite Hgo by done. cbn [mbind result_bind fst snd]. cbn [content_of] in Hs. cbn [Layout.group_element_sizing gr_elements] in Hs |- *. rewrite Hs. cbn [mbind result_bind]. by rewrite adds_cons.
Qed.

(** ** Composing the content *)

(** The item's surface, registered under its qualified identifier. *)
Definition connected (surfaces : Surfaces) (item : string) : Prop :=
  exists surface, surface_of surfaces plugin item = Some surface /\
    su_layout_id surface = qualified item /\ it_id (su_compact_spec surface) = qualified item.

Section Included.
Context (catalog : PresentationCatalog) (surfaces : Surfaces).

Definition included (item : string) : Prop := item_enabled catalog plugin item = true /\ connected surfaces item.

Lemma content_item_included item a b c ids : included item ->
  content_item catalog surfaces plugin item a b c ids =
  Ok (Some (ItemSpec_new (qualified item) a b c), set_add (qualified item) ids).
Proof. intros [He (surface & Hs & Hl & _)]. unfold content_item. rewrite He, Hs. cbn. by rewrite Hl. Qed.

Lemma group_element_included item_ids element : forall depth ids, declared_ok item_ids depth element ->
  Forall included (declared_items element) ->
  presentation_group_element catalog surfaces plugin element ids =
  Ok (Some (content_of element), adds (item_layout_ids (declared_items element)) ids).
Proof.
  induction element as [item a b c|id layout spacing v c elements IH] using declared_ind; intros depth ids Hok Hin.
  { cbn in *. apply Forall_cons in Hin as [Hin _]. by rewrite content_item_included. }
  cbn [declared_ok] in Hok. destruct Hok as (_ & _ & Hne & _ & Hch & _). rewrite Forall_map in Hch.
  cbn [declared_items] in *. cbn [presentation_group_element].
  match goal with |- context [?go elements ids] =>
    assert (Hgo : forall ids, go elements ids =
      Ok (List.map content_of elements, adds (item_layout_ids (flat_map declared_items elements)) ids)) end.
  { clear -IH Hch Hin. induction IH as [|e es He _ IHes]; intros ids; [done|].
    apply Forall_cons in Hch as [H1 H2]. cbn [flat_map] in Hin. apply Forall_app in Hin as [H3 H4].
    rewrite (He _ ids H1 H3). cbn [mbind result_bind]. rewrite IHes by done. cbn [mbind result_bind flat_map List.map].
    unfold item_layout_ids. by rewrite map_app, adds_app. }
  rewrite Hgo. cbn [mbind result_bind]. unfold content_group.
  rewrite bool_decide_eq_false_2 by (rewrite length_map; by destruct elements). done.
Qed.

(** The element of the bar with every item included. *)
Definition element_of (element : PresentationBarElement) : Element :=
  match element with
  | DeclaredFixedSpace width => FixedSpace width
  | DeclaredFlexibleSpace minimum weight => FlexibleSpace minimum weight
  | DeclaredItem item a b c => Item (ItemSpec_new (qualified item) a b c)
  | DeclaredGroup id layout spacing v c elements =>
      Group {| gr_id := group_id id; gr_elements := List.map content_of elements; gr_layout := layout;
               gr_spacing := spacing; gr_visibility_priority := v; gr_compression_priority := c |}
  end.
Definition is_space (element : PresentationBarElement) : Prop := as_group_element element = None.

(** The spaces before the first and after the last item are dropped. *)
Definition trims (elements : list PresentationBarElement) (s : Building) : Prop :=
  exists lead middle trail, elements = lead ++ middle ++ trail /\ Forall is_space lead /\ Forall is_space trail /\
    bd_elements s = element_of <$> middle /\ bd_pending_spaces s = element_of <$> trail /\
    bd_included s = adds (item_layout_ids (flat_map bar_items elements)) [] /\ (bd_included s = [] -> middle = []).

Lemma trims_space elements s element : trims elements s -> is_space element ->
  trims (elements ++ [element]) (wait_space s (element_of element)).
Proof.
  intros (lead & middle & trail & -> & Hl & Ht & He & Hp & Hi & Hn) Hs. exists lead, middle, (trail ++ [element]).
  split; [by rewrite <- !app_assoc|]. split; [done|]. split; [apply Forall_app; by split; [|apply Forall_singleton]|].
  cbn. rewrite fmap_app, Hp. split; [done|]. split; [done|]. split; [|done].
  rewrite flat_map_app, Hi. cbn. unfold bar_items at 3. rewrite Hs. by rewrite app_nil_r.
Qed.

Lemma trims_push elements s element : trims elements s -> ~ is_space element -> bar_items element <> [] ->
  trims (elements ++ [element])
    (push_element s (element_of element) (adds (item_layout_ids (bar_items element)) (bd_included s))).
Proof.
  intros (lead & middle & trail & -> & Hl & Ht & He & Hp & Hi & Hn) Hs Hne.
  set (all := lead ++ middle ++ trail) in *.
  assert (Hincluded : adds (item_layout_ids (bar_items element)) (bd_included s) =
    adds (item_layout_ids (flat_map bar_items (all ++ [element]))) []).
  { rewrite Hi, flat_map_app. cbn. rewrite app_nil_r. unfold item_layout_ids. by rewrite map_app, adds_app. }
  assert (Hsome : adds (item_layout_ids (bar_items element)) (bd_included s) <> []).
  { intros H0. destruct (bar_items element) as [|x l]; [done|]. apply (not_elem_of_nil (qualified x)).
    rewrite <- H0. apply elem_of_adds. right. cbn. apply elem_of_cons. by left. }
  unfold push_element. case_bool_decide as Hlen.
  - assert (H0 : bd_included s = []) by by destruct (bd_included s). pose proof (Hn H0) as ->.
    exists (lead ++ trail), [element], []. cbn [bd_elements bd_pending_spaces bd_included].
    split; [unfold all; by cbn|]. split; [by apply Forall_app|]. split; [done|].
    rewrite He. by repeat split.
  - exists lead, (middle ++ trail ++ [element]), []. cbn [bd_elements bd_pending_spaces bd_included].
    split; [unfold all; by rewrite app_nil_r, <- !app_assoc|]. split; [done|]. split; [done|].
    rewrite He, Hp, !fmap_app. by repeat split.
Qed.

Lemma bar_items_nonempty item_ids element : bar_element_ok item_ids element -> ~ is_space element -> bar_items element <> [].
Proof.
  assert (H : forall e depth, declared_ok item_ids depth e -> declared_items e <> []).
  { induction e as [item a b c|id layout spacing v c elements IH] using declared_ind; intros depth Hok; [done|].
    cbn in Hok |- *. destruct Hok as (_ & _ & Hne & _ & Hch & _). rewrite Forall_map in Hch.
    destruct elements as [|e es]; [done|]. apply Forall_cons in IH as [He _], Hch as [H1 _].
    cbn. specialize (He _ H1). by destruct (declared_items e). }
  destruct element as [item a b c|w|m w|id layout spacing v c elements]; intros Hok Hs; try done.
  apply (H (DeclaredSubGroup id layout spacing v c elements) 0%N). exact Hok.
Qed.

Lemma content_element_trims item_ids elements s element : trims elements s -> bar_element_ok item_ids element ->
  Forall included (bar_items element) ->
  exists s', content_element catalog surfaces plugin s element = Ok s' /\ trims (elements ++ [element]) s'.
Proof.
  intros Ht Hok Hin. destruct element as [item a b c|w|m w|id layout spacing v c es].
  - cbn in Hin. apply Forall_cons in Hin as [Hin _]. cbn [content_element]. rewrite content_item_included by done.
    eexists. split; [done|]. by apply (trims_push elements s (DeclaredItem item a b c)).
  - eexists. split; [done|]. by apply (trims_space elements s (DeclaredFixedSpace w)).
  - eexists. split; [done|]. by apply (trims_space elements s (DeclaredFlexibleSpace m w)).
  - cbn [content_element]. unfold presentation_group_spec.
    rewrite (group_element_included item_ids (DeclaredSubGroup id layout spacing v c es) 0) by done.
    eexists. split; [done|]. cbn [mbind result_bind content_of].
    apply (trims_push elements s (DeclaredGroup id layout spacing v c es)); [done|done|].
    by apply (bar_items_nonempty item_ids (DeclaredGroup id layout spacing v c es)).
Qed.

Lemma content_elements item_ids elements : forall before s, trims before s -> Forall (bar_element_ok item_ids) elements ->
  Forall included (flat_map bar_items elements) ->
  exists s', foldR (content_element catalog surfaces plugin) s elements = Ok s' /\ trims (before ++ elements) s'.
Proof.
  induction elements as [|e es IH]; intros before s Ht Hok Hin; [exists s; by rewrite app_nil_r|].
  apply Forall_cons in Hok as [H1 H2]. cbn [flat_map] in Hin. apply Forall_app in Hin as [H3 H4].
  destruct (content_element_trims item_ids before s e Ht H1 H3) as (s1 & Hs & Ht1).
  destruct (IH _ s1 Ht1 H2 H4) as (s2 & Hs2 & Ht2). exists s2. cbn [foldR]. rewrite Hs. cbn.
  split; [done|]. by rewrite <- app_assoc in Ht2.
Qed.
End Included.

(** *** The trimmed elements *)

Lemma spaces_nothing elements : Forall is_space elements ->
  flat_map bar_items elements = [] /\ flat_map bar_groups elements = [].
Proof.
  unfold bar_items, bar_groups, is_space. induction 1 as [|e es He _ [IH1 IH2]]; [done|]. cbn. by rewrite He, IH1, IH2.
Qed.

Lemma element_sizing_agrees item_ids element : bar_element_ok item_ids element ->
  (sz_minimum (bar_sizing element) < u64_max)%N ->
  exists s, element_sizing (element_of element) = Ok s /\ sz_minimum s = sz_minimum (bar_sizing element).
Proof.
  intros Hok Hm. destruct element as [item a b c|w|m w|id layout spacing v c es]; cbn [element_of element_sizing].
  - by eexists.
  - by eexists.
  - by eexists.
  - destruct (content_sizing item_ids (DeclaredSubGroup id layout spacing v c es) 0 Hok Hm) as (s & Hs & Ha & _).
    by exists s.
Qed.

Lemma elements_sizing item_ids elements : Forall (bar_element_ok item_ids) elements ->
  Forall (fun e => sz_minimum (bar_sizing e) < u64_max)%N elements ->
  exists sizing, mapR element_sizing (element_of <$> elements) = Ok sizing /\
    sz_minimum <$> sizing = (fun e => sz_minimum (bar_sizing e)) <$> elements.
Proof.
  induction elements as [|e es IH]; intros Hok Hm; [by exists []|].
  apply Forall_cons in Hok as [H1 H2], Hm as [H3 H4]. destruct (element_sizing_agrees item_ids e H1 H3) as (s & Hs & Ha).
  destruct (IH H2 H4) as (ss & Hss & Has). exists (s :: ss). cbn [fmap list_fmap mapR]. rewrite Hs. cbn [mbind result_bind].
  rewrite Hss. split; [done|]. cbn. by rewrite Ha, Has.
Qed.

Lemma content_elements_validate item_ids elements : forall index seen, Forall (bar_element_ok item_ids) elements ->
  Forall (fun e => sz_minimum (bar_sizing e) < u64_max)%N elements ->
  fresh (item_layout_ids (flat_map bar_items elements)) seen.1 ->
  fresh (group_layout_ids (flat_map bar_groups elements)) seen.2 ->
  validate_elements index (element_of <$> elements) seen =
  Ok (adds (item_layout_ids (flat_map bar_items elements)) seen.1,
      adds (group_layout_ids (flat_map bar_groups elements)) seen.2).
Proof.
  induction elements as [|e es IH]; intros index [xs gs] Hok Hm; [done|].
  apply Forall_cons in Hok as [H1 H2], Hm as [H3 H4]. cbn [flat_map fst snd]. unfold item_layout_ids, group_layout_ids.
  rewrite !map_app. intros [Hi1 Hi2]%unseen_app [Hg1 Hg2]%unseen_app.
  rewrite !adds_app. cbn [fmap list_fmap validate_elements].
  assert (Hnext : forall seen, seen = (adds (item_layout_ids (bar_items e)) xs, adds (group_layout_ids (bar_groups e)) gs) ->
    validate_elements (S index) (element_of <$> es) seen =
    Ok (adds (item_layout_ids (flat_map bar_items es)) (adds (item_layout_ids (bar_items e)) xs),
        adds (group_layout_ids (flat_map bar_groups es)) (adds (group_layout_ids (bar_groups e)) gs))).
  { intros seen ->. by rewrite (IH (S index)). }
  unfold fmap in Hnext. destruct e as [item a b c|w|m w|id layout spacing v c elements]; cbn [element_of].
  - destruct H1 as (_ & Hw & _). cbn in Hi1. apply fresh_single in Hi1. cbn [fst snd].
    rewrite content_item_validates by done. cbn [mbind result_bind]. by apply Hnext.
  - cbn [mbind result_bind]. by apply Hnext.
  - destruct H1 as [_ [Hw _]]. rewrite (proj2 (N.eqb_neq w 0)) by lia. cbn [mbind result_bind]. by apply Hnext.
  - pose proof (content_validates item_ids (DeclaredSubGroup id layout spacing v c elements) 0 1 (xs, gs) H1 H3 eq_refl Hi1 Hg1) as Hv.
    cbn [content_of] in Hv. rewrite Hv. cbn [mbind result_bind]. by apply Hnext.
Qed.

Lemma element_of_items element : element_ids (element_items (element_of element)) = item_layout_ids (bar_items element) /\
  Forall (fun item => it_visibility_group item = None) (element_items (element_of element)).
Proof.
  assert (H : forall e, element_ids (group_items (content_of e)) = item_layout_ids (declared_items e) /\
    Forall (fun item => it_visibility_group item = None) (group_items (content_of e))).
  { induction e as [item a b c|id layout spacing v c elements IH] using declared_ind; [split; [done|by repeat constructor]|].
    cbn [content_of group_items gr_elements declared_items].
    induction IH as [|e es [He1 He2] _ [IH1 IH2]]; [split; [done|constructor]|]. cbn [List.map flat_map].
    unfold element_ids, item_layout_ids in *. rewrite fmap_app, map_app, He1, IH1. split; [done|]. by apply Forall_app. }
  destruct element as [item a b c|w|m w|id layout spacing v c elements]; [split; [done|by repeat constructor]|by split|by split|].
  apply (H (DeclaredSubGroup id layout spacing v c elements)).
Qed.
Lemma elements_of_items elements :
  element_ids (flat_map element_items (element_of <$> elements)) = item_layout_ids (flat_map bar_items elements) /\
  Forall (fun item => it_visibility_group item = None) (flat_map element_items (element_of <$> elements)).
Proof.
  induction elements as [|e es [IH1 IH2]]; [split; [done|constructor]|]. cbn [fmap list_fmap flat_map].
  destruct (element_of_items e) as [H1 H2]. unfold element_ids, item_layout_ids in *.
  rewrite fmap_app, map_app. split; [by rewrite H1, IH1|]. by apply Forall_app.
Qed.

(** *** Names *)

Lemma NoDup_map_inj {A B} (f : A -> B) l : (forall a b, f a = f b -> a = b) -> NoDup l -> NoDup (List.map f l).
Proof. intros Hf Hl. assert (Inj eq eq f) by (intros a b; apply Hf). by apply (NoDup_fmap_2 f). Qed.
Lemma item_layout_ids_fresh items : NoDup items -> fresh (item_layout_ids items) [].
Proof.
  intros Hi. apply fresh_empty, NoDup_map_inj; [|done]. intros a b. unfold qualified_item_id_unchecked.
  by intros H%string_app_inj_l%string_app_inj_l.
Qed.
Lemma group_layout_ids_fresh groups : NoDup groups -> fresh (group_layout_ids groups) [].
Proof. intros Hg. apply fresh_empty, NoDup_map_inj; [|done]. intros a b. by intros H%string_app_inj_l%string_app_inj_l. Qed.

Section Composed.
Context (catalog : PresentationCatalog) (surfaces : Surfaces).

(** The principal item of the content is the declared one. *)
Lemma content_principal_included principal items ids : principal ∈ items ->
  Forall (included catalog surfaces) items -> (forall item, item ∈ items -> qualified item ∈ ids) ->
  content_principal surfaces plugin (Some principal) ids = Some (qualified principal).
Proof.
  intros Hp Hin Hids. rewrite Forall_forall in Hin. destruct (Hin _ Hp) as (_ & surface & Hs & Hl & Hspec).
  unfold content_principal. cbn [mbind option_bind]. unfold surface_of in Hs.
  assert (Hf : List.find (fun surface => is_item_of plugin principal surface && set_contains (su_layout_id surface) ids)
                 (bt_values surfaces) = Some surface).
  { revert Hs. induction (bt_values surfaces) as [|s l IH]; [done|]. cbn. destruct (is_item_of plugin principal s); [|exact IH].
    intros [= ->]. rewrite Hl. by rewrite (proj2 (set_contains_spec _ _) (Hids _ Hp)). }
  rewrite Hf. cbn. by rewrite Hspec.
Qed.

Lemma visible_all (bar : BarSpec) : items_of (bar_elements bar) (all_content bar) true = LayoutSpec.bar_items bar /\
  items_of (bar_elements bar) (all_content bar) false = [].
Proof.
  unfold items_of, all_content, LayoutSpec.bar_items. induction (bar_elements bar) as [|e l [IH1 IH2]]; [done|].
  rewrite fmap_cons. cbn [zip zip_with flat_map]. rewrite IH1, IH2. by destruct e.
Qed.

Lemma declared_bar_fits item_ids bar required width : bar_ok item_ids bar ->
  Forall (included catalog surfaces) (flat_map bar_items (pb_elements bar)) ->
  (pb_minimum_width bar <= width < u32_limit)%N ->
  (forall id, id ∈ required -> id ∈ item_layout_ids (flat_map bar_items (pb_elements bar))) ->
  exists content layout, declared_content catalog surfaces plugin bar = Ok content /\
    bar_principal_item content = option_map (fun item => qualified item) (pb_principal_item bar) /\
    resolve content width required = Some (Ok layout) /\
    pl_id <$> rl_placements layout = item_layout_ids (flat_map bar_items (pb_elements bar)) /\
    rl_hidden_items layout = [] /\
    packed 0 (rl_content_width layout) (rl_placements layout) /\ (rl_content_width layout <= width)%N.
Proof.
  intros (_ & Hw & Hok & Hni & Hng & _ & Hmin & Hne & Hprincipal) Hin Hwidth Hreq.
  set (elements := pb_elements bar) in *. set (items := flat_map bar_items elements) in *.
  destruct (content_elements catalog surfaces item_ids elements [] {| bd_elements := []; bd_pending_spaces := []; bd_included := [] |})
    as (s & Hs & lead & middle & trail & He & Hl & Ht & Hme & _ & Hi & _); [by exists [], [], []|done|done|].
  unfold declared_content. cbn [app] in He, Hi. fold elements. rewrite Hs. cbn [mbind result_bind].
  fold items in Hi. assert (Hin' : forall item, item ∈ items -> qualified item ∈ bd_included s).
  { intros item Hit. rewrite Hi. apply elem_of_adds. right. unfold item_layout_ids. by apply list_elem_of_fmap_2. }
  rewrite bool_decide_eq_false_2.
  2:{ destruct items as [|item items']; [done|]. specialize (Hin' item (list_elem_of_here _ _)). intros H0.
      destruct (bd_included s); [by apply not_elem_of_nil in Hin'|done]. }
  cbn [reject_if mbind result_bind]. set (content := {| bar_elements := _ |}).
  assert (Hmid : flat_map bar_items middle = items /\ flat_map bar_groups middle = flat_map bar_groups elements).
  { destruct (spaces_nothing _ Hl) as [L1 L2], (spaces_nothing _ Ht) as [T1 T2].
    unfold items. rewrite He, !flat_map_app, L1, L2, T1, T2, !app_nil_r. done. }
  destruct Hmid as [Hmi Hmg]. rewrite He in Hok. apply Forall_app in Hok as [_ [Hok _]%Forall_app].
  assert (Hsum : (sumN ((fun e => sz_minimum (bar_sizing e)) <$> middle) <= pb_minimum_width bar)%N).
  { etransitivity; [|exact Hmin]. rewrite He, !fmap_app, !sumN_app. lia. }
  assert (Hbound : (pb_minimum_width bar < u64_max)%N).
  { unfold u32_limit in Hwidth. assert (2 ^ 32 < u64_max)%N by done. lia. }
  assert (Hsmall : Forall (fun e => sz_minimum (bar_sizing e) < u64_max)%N middle).
  { apply Forall_lookup. intros i e Hie.
    assert (sz_minimum (bar_sizing e) <= sumN ((fun e => sz_minimum (bar_sizing e)) <$> middle))%N; [|lia].
    apply (sumN_elem _ i). by rewrite list_lookup_fmap, Hie. }
  destruct (elements_sizing item_ids middle Hok Hsmall) as (sizing & Hsz & Hszm).
  assert (Hce : bar_elements content = element_of <$> middle) by exact Hme.
  destruct (elements_of_items middle) as [Hids Hgroups].
  assert (Hp : bar_principal_item content = option_map (fun item => qualified item) (pb_principal_item bar)).
  { cbn [bar_principal_item content]. destruct (pb_principal_item bar) as [p|]; [|done]. destruct Hprincipal as [_ Hp].
    by apply content_principal_included with items. }
  assert (Hv : Layout.validate content required = Ok ()).
  { unfold Layout.validate. rewrite Hce. rewrite (content_elements_validate item_ids middle 0 ([], [])).
    2: done. 2: done. 2: rewrite Hmi; by apply item_layout_ids_fresh. 2: rewrite Hmg; by apply group_layout_ids_fresh.
    cbn [mbind result_bind fst]. rewrite Hp, Hmi.
    assert (Hc : forall x, x ∈ item_layout_ids items -> set_contains x (adds (item_layout_ids items) []) = true).
    { intros x Hx. apply set_contains_spec, elem_of_adds. by right. }
    assert (List.find (fun id => negb (set_contains id (adds (item_layout_ids items) []))) required = None) as ->.
    { clear -Hreq Hc. induction required as [|r rs IH]; [done|]. cbn [List.find].
      rewrite Hc by (apply Hreq, elem_of_cons; by left). apply IH. intros id Hid. apply Hreq, elem_of_cons. by right. }
    destruct (pb_principal_item bar) as [p|]; cbn [option_map]; [|done]. destruct Hprincipal as [_ Hpi].
    by rewrite Hc by (unfold item_layout_ids; by apply list_elem_of_fmap_2). }
  destruct (resolve_fits content width required sizing) as (layout & Hlayout & [Hpk Hinside Hf Hh]); [lia|exact Hv| | | |].
  - unfold LayoutSpec.bar_items. by rewrite Hce.
  - by rewrite Hce.
  - rewrite Hszm. lia.
  - destruct (visible_all content) as [V1 V2]. rewrite V1 in Hf. rewrite V2 in Hh. exists content, layout.
    split; [done|]. split; [exact Hp|]. split; [exact Hlayout|]. split; [|done].
    rewrite <- Hmi, <- Hids. unfold LayoutSpec.bar_items in Hf. rewrite Hce in Hf. unfold element_ids.
    clear -Hf. induction Hf as [|i p l ps [Hpid _] _ IH]; [done|]. cbn. by rewrite Hpid, IH.
Qed.
End Composed.
End Bar.

(** ** Bars of a validated manifest *)

Section Fits.
Context `{SemVer, ScopeCodec}.

(** C21: Every bar of a validated manifest whose items are all enabled and connected
    is composed, and resolves at any width from its declared minimum on, with
    any of its items required: all its items are placed, in the declared
    order, without overlap and inside the width, and the principal item is the
    declared one. *)
Theorem validated_bar_fits (manifest : PluginManifest) (catalog : PresentationCatalog) (surfaces : Surfaces)
  (plugin : string) (bar : PresentationBar) (required : list string) (width : N)
  (Hvalid : Manifest.validate manifest = Ok ()) (Hbar : bar ∈ mf_bars manifest)
  (Hincluded : Forall (included plugin catalog surfaces) (flat_map bar_items (pb_elements bar)))
  (Hrequired : forall id, id ∈ required -> id ∈ item_layout_ids plugin (flat_map bar_items (pb_elements bar)))
  (Hwidth : (pb_minimum_width bar <= width < u32_limit)%N) :
  exists content layout, declared_content catalog surfaces plugin bar = Ok content /\
    bar_principal_item content =
      option_map (fun item => qualified_item_id_unchecked plugin item) (pb_principal_item bar) /\
    resolve content width required = Some (Ok layout) /\
    pl_id <$> rl_placements layout = item_layout_ids plugin (flat_map bar_items (pb_elements bar)) /\
    rl_hidden_items layout = [] /\
    packed 0 (rl_content_width layout) (rl_placements layout) /\ (rl_content_width layout <= width)%N.
Proof.
  apply manifest_issues_spec, ok_bars in Hvalid as (_ & Hok & _). rewrite Forall_forall in Hok.
  eapply declared_bar_fits; [by apply Hok|done..].
Qed.
End Fits.

(** ** A bar that is refused when one of its items is disabled *)

Definition tool (id : string) (target : option string) : ItemContribution :=
  {| ic_id := id; ic_label := id; ic_default_width := 80; ic_show_in_default_profile := true;
     ic_expanded_bar := target; ic_press_and_hold_bar := None |}.
Definition pair_bar : PresentationBar :=
  {| pb_id := "tools"; pb_minimum_width := 210; pb_preferred_width := 210; pb_maximum_width := 400;
     pb_dismiss_on_selection := false;
     pb_elements := [DeclaredFixedSpace 10; DeclaredGroup "all" EqualWidth 0 0 0
       [DeclaredGroupItem "wide" 100 100 100;
        DeclaredSubGroup "pair" Natural 0 0 0
          [DeclaredGroupItem "left" 50 50 50; DeclaredGroupItem "right" 50 50 50]]];
     pb_principal_item := Some "wide" |}.
Definition tools_manifest `{SemVer, ScopeCodec} (version : Version) (bar : PresentationBar) : PluginManifest :=
  {| mf_manifest_version := 1;
     mf_plugin := {| pm_name := "Tools"; pm_version := version; pm_description := "Three tools";
                     pm_license := "MIT"; pm_source := {| gs_owner := "acme"; gs_repository := "tools" |} |};
     mf_runtime := ComponentRuntimeSpec "plugin.wasm" SUPPORTED_COMPONENT_WORLD;
     mf_items := [tool "wide" (Some "tools"); tool "left" None; tool "right" None]; mf_bars := [bar]; mf_profiles := [];
     mf_appearance_providers := []; mf_assets := []; mf_permissions := [] |}.

Definition tool_surface (item : string) : SurfaceState :=
  let spec := ItemSpec_new ("github:acme/tools#" +:+ item) 40 80 80 in
  let geometry := {| lg_x := 0; lg_width := 80; lg_height := TOUCHBAR_HEIGHT; lg_z_index := 0 |} in
  {| su_kind := ItemSurface; su_plugin_id := "github:acme/tools"; su_item_id := item;
     su_layout_id := "github:acme/tools#" +:+ item; su_compact_spec := spec; su_expanded_spec := Some spec;
     su_layer_id := 0; su_compact_geometry := geometry; su_geometry := geometry; su_pending_configures := [];
     su_deferred_configure := None; su_configured := true; su_visible := true |}.
Definition tool_surfaces : Surfaces :=
  [(1%N, tool_surface "wide"); (2%N, tool_surface "left"); (3%N, tool_surface "right")].

(** The items with these identifiers are enabled. *)
Definition tools_presented `{SemVer, ScopeCodec} (version : Version) (enabled : list string)
  : result CatalogError PresentationCatalog :=
  add_presentations empty_presentations (tools_manifest version pair_bar) enabled.
Definition from_wide (bar : string) : ActivePresentation :=
  {| ap_surface := 1%N; ap_session_id := 1; ap_persistent := true; ap_policy := FullBar; ap_target := "";
     ap_content_bar := Some bar |}.
Definition presented_width (catalog : result CatalogError PresentationCatalog) (width : N)
  : option (result LayoutError ResolvedLayout) :=
  match catalog with
  | Ok catalog =>
      match presentation_content_bar catalog tool_surfaces (from_wide "tools") with
      | Ok (Some content) => resolve content width []
      | _ => None
      end
  | Err _ => None
  end.

(** A manifest that validates declares a bar which is laid out while its three
    items are enabled; with one of them disabled the session still presents
    the bar, but the layout refuses what is left of it at every width. *)
Theorem disabled_item_refuses `{SemVer, ScopeCodec} (version : Version) (width : N) :
  Manifest.validate (tools_manifest version pair_bar) = Ok () /\
  (exists layout, presented_width (tools_presented version ["wide"; "left"; "right"]) 1000 = Some (Ok layout)) /\
  presented_width (tools_presented version ["wide"; "left"]) width =
    Some (Err (InvalidEqualWidthGroup "github:acme/tools:all")).
Proof. split; [by vm_compute|]. split; [eexists; by vm_compute|]. by vm_compute. Qed.

#[local] Instance numbered_versions : SemVer := { Version := N * N * N }.
#[local] Existing Instance sample_codec.
Definition first_version : Version := (1, 0, 0)%N.

Lemma validated_bar_fits_witness :
  Manifest.validate (tools_manifest first_version pair_bar) = Ok () /\
  exists content layout, declared_content
      {| pc_item_bars := []; pc_bars := [];
         pc_enabled_items := [("github:acme/tools", "left"); ("github:acme/tools", "right"); ("github:acme/tools", "wide")] |}
      tool_surfaces "github:acme/tools" pair_bar = Ok content /\
    resolve content 300 ["github:acme/tools#left"] = Some (Ok layout) /\
    pl_id <$> rl_placements layout = ["github:acme/tools#wide"; "github:acme/tools#left"; "github:acme/tools#right"].
Proof.
  assert (Hv : Manifest.validate (tools_manifest first_version pair_bar) = Ok ()) by by vm_compute.
  split; [exact Hv|].
  destruct (validated_bar_fits (tools_manifest first_version pair_bar)
    {| pc_item_bars := []; pc_bars := [];
       pc_enabled_items := [("github:acme/tools", "left"); ("github:acme/tools", "right"); ("github:acme/tools", "wide")] |}
    tool_surfaces "github:acme/tools" pair_bar ["github:acme/tools#left"] 300 Hv)
    as (content & layout & Hc & _ & Hl & Hp & _).
  - by apply list_elem_of_singleton.
  - repeat constructor; try done; by eexists.
  - intros id ->%list_elem_of_singleton. by vm_compute; right; left.
  - done.
  - by exists content, layout.
Defined.
