(* ===== verification/CatalogSpec.v ===== *)
(** * CatalogSpec: what packages add to the profiles of a user

    The document a user's profiles and the installed packages' are merged
    into: the profile it selects in every context, and the identifiers of
    packaged profiles.  The budgets of a document are shared by all packages,
    so that manifests which validate may not merge. *)

From S2P Require Import Prelude BTree Text Capability Package Normalize Layout LayoutSpec Model Profiles ProfilesSpec Config Grants Manifest Catalog.

#[local] Set Warnings "-register-all".

(** ** The selected rule *)

Definition rule_key (e : nat * ProfileRule) : Z * Z := (pr_priority e.2, (- Z.of_nat e.1)%Z).
Lemma compare_rules_key a b : compare_rules a b = cmp (rule_key a) (rule_key b).
Proof.
  unfold rule_key. rewrite prod_cmp. unfold compare_rules, then_with.
  change (cmp (pr_priority a.2) (pr_priority b.2)) with (pr_priority a.2 ?= pr_priority b.2)%Z.
  destruct (_ ?= _)%Z; try done. cbn. change (cmp ?x ?y) with (x ?= y)%Z. by rewrite Z.compare_opp, Nat2Z.inj_compare.
Qed.

(** A matching rule wins when no earlier one has its priority and no later one
    more. *)
Definition wins (context : ContextSnapshot) (rules : list ProfileRule) (rule : ProfileRule) : Prop :=
  matches (pr_predicate rule) context = true /\
  exists before after, rules = before ++ rule :: after /\
    Forall (fun r => matches (pr_predicate r) context = true -> pr_priority r < pr_priority rule)%Z before /\
    Forall (fun r => matches (pr_predicate r) context = true -> pr_priority r <= pr_priority rule)%Z after.

Lemma select_profile_wins fallback rules context rule : wins context rules rule ->
  select_profile {| ps_fallback := fallback; ps_rules := rules |} context = pr_profile rule.
Proof.
  intros (Hm & before & after & -> & Hb & Ha). unfold select_profile. cbn [ps_rules ps_fallback].
  set (entries := List.filter _ _).
  assert (Hentry : (length before, rule) ∈ entries).
  { apply list_elem_of_In, filter_In. split; [|done]. apply list_elem_of_In, elem_indexed. by rewrite list_lookup_middle. }
  pose proof (max_by_spec rule_key compare_rules compare_rules_key entries) as Hx.
  destruct (max_by compare_rules entries) as [[i r]|]; [|rewrite Hx in Hentry; by apply not_elem_of_nil in Hentry].
  destruct Hx as [Hin Hmax]. specialize (Hmax _ Hentry).
  apply list_elem_of_In, filter_In in Hin as [Hin%list_elem_of_In%elem_indexed Hr]. cbn in Hr.
  unfold rule_key in Hmax. rewrite prod_cmp in Hmax. cbn in Hmax.
  change (cmp (pr_priority rule) (pr_priority r)) with (pr_priority rule ?= pr_priority r)%Z in Hmax.
  rewrite Forall_forall in Hb, Ha.
  destruct (lt_eq_lt_dec i (length before)) as [[Hlt| ->]|Hgt].
  - rewrite lookup_app_l in Hin by done. apply list_elem_of_lookup_2 in Hin. specialize (Hb _ Hin Hr).
    destruct (Z.compare_spec (pr_priority rule) (pr_priority r)); [lia|lia|done].
  - rewrite list_lookup_middle in Hin by done. by injection Hin as ->.
  - rewrite lookup_app_r in Hin by lia. destruct (i - length before) as [|k] eqn:Hk; [lia|].
    cbn in Hin. apply list_elem_of_lookup_2 in Hin. specialize (Ha _ Hin Hr).
    destruct (Z.compare_spec (pr_priority rule) (pr_priority r)) as [He|?|?]; [|lia|done].
    change (cmp ?x ?y) with (x ?= y)%Z in Hmax. destruct (Z.compare_spec (- Z.of_nat (length before)) (- Z.of_nat i)); [lia|lia|done].
Qed.

Lemma winner_exists context rules : Exists (fun r => matches (pr_predicate r) context = true) rules ->
  exists rule, wins context rules rule.
Proof.
  induction rules as [|r rules IH]; [by intros ?%Exists_nil|]. intros He.
  destruct (decide (Exists (fun r => matches (pr_predicate r) context = true) rules)) as [Hrest|Hrest].
  - destruct (IH Hrest) as (rule & Hm & before & after & -> & Hb & Ha).
    destruct (matches (pr_predicate r) context) eqn:Hr; [destruct (Z.ltb_spec (pr_priority r) (pr_priority rule)) as [Hlt|Hge]|].
    + exists rule. split; [done|]. exists (r :: before), after. split; [done|]. split; [by constructor|done].
    + exists r. split; [done|]. exists [], (before ++ rule :: after). split; [done|]. split; [constructor|].
      apply Forall_app. split; [|constructor; [done|]].
      * eapply Forall_impl; [exact Hb|]. cbn. intros x Hx H1. specialize (Hx H1). lia.
      * eapply Forall_impl; [exact Ha|]. cbn. intros x Hx H1. specialize (Hx H1). lia.
    + exists rule. split; [done|]. exists (r :: before), after. split; [done|]. split; [|done].
      constructor; [|done]. by rewrite Hr.
  - apply Exists_cons in He as [Hr|]; [|done]. exists r. split; [done|]. exists [], rules. split; [done|].
    split; [constructor|]. apply Forall_forall. intros x Hx Hmx. exfalso. apply Hrest, Exists_exists. eauto.
Qed.

Lemma no_match_fallback fallback rules context : Forall (fun r => matches (pr_predicate r) context = false) rules ->
  select_profile {| ps_fallback := fallback; ps_rules := rules |} context = fallback.
Proof.
  intros Hn. unfold select_profile. cbn [ps_rules ps_fallback].
  assert (List.filter (fun e : nat * ProfileRule => matches (pr_predicate e.2) context) (indexed rules) = []) as ->; [|done].
  rewrite Forall_forall in Hn. assert (He : forall e, e ∈ indexed rules -> matches (pr_predicate e.2) context = false).
  { intros [i r] Hin%elem_indexed%list_elem_of_lookup_2. by apply Hn. }
  clear Hn. induction (indexed rules) as [|e l IH]; [done|]. cbn. rewrite (He e (list_elem_of_here _ _)). apply IH.
  intros x Hx. by apply He, elem_of_cons; right.
Qed.

(** ** The merged document *)

(** The value of an exact fact. *)
Definition fact (context : ContextSnapshot) (key : string) (value : ContextValue) : bool :=
  matches (Equals key value) context.
(** One of the activities of the profile is going on, or its application is in
    front. *)
Definition in_activity (context : ContextSnapshot) (packaged : PackagedProfile) : bool :=
  existsb (fun activity => fact context ("activity." +:+ activity) (BooleanValue true))
    (au_activities (pp_definition packaged)).
Definition in_application (context : ContextSnapshot) (packaged : PackagedProfile) : bool :=
  existsb (fun application => fact context "application.id" (TextValue application))
    (au_applications (pp_definition packaged)).
Definition profile_id_of (packaged : PackagedProfile) : string :=
  packaged_definition_id (pp_source packaged) (au_id (pp_definition packaged)).

Lemma existsb_map {A B} (f : A -> B) (p : B -> bool) l : existsb p (List.map f l) = existsb (fun a => p (f a)) l.
Proof. induction l as [|a l IH]; [done|]. cbn. by rewrite IH. Qed.
Lemma any_of_matches predicates context :
  matches (predicate_model (any_of predicates)) context =
  existsb (fun predicate => matches (predicate_model predicate) context) predicates.
Proof.
  destruct predicates as [|p [|q l]]; cbn; [done|by rewrite orb_false_r|].
  f_equal. f_equal. induction l as [|r l IH]; [done|]. cbn. by rewrite IH.
Qed.
Lemma activity_matches values context : matches (predicate_model (exact_activity_matches values)) context =
  existsb (fun activity => fact context ("activity." +:+ activity) (BooleanValue true)) values.
Proof. unfold exact_activity_matches. rewrite any_of_matches, existsb_map. done. Qed.
Lemma application_matches values context : matches (predicate_model (exact_text_matches "application.id" values)) context =
  existsb (fun application => fact context "application.id" (TextValue application)) values.
Proof. unfold exact_text_matches. rewrite any_of_matches, existsb_map. done. Qed.

Definition rule_model (rule : ProfileRuleConfig) : ProfileRule :=
  {| pr_profile := rl_profile rule; pr_priority := rl_priority rule; pr_predicate := predicate_model (rl_when rule) |}.
Definition rule_matches (context : ContextSnapshot) (rule : ProfileRuleConfig) : bool :=
  matches (predicate_model (rl_when rule)) context.

Section Merged.
Context (application_priority activity_priority : Z).

Definition rules_of (packaged : PackagedProfile) : list ProfileRuleConfig :=
  packaged_rules application_priority activity_priority (profile_id_of packaged) (pp_definition packaged).

Lemma add_packaged_rules profiles : forall document,
  doc_rules (fold_left (add_packaged application_priority activity_priority) profiles document) =
  doc_rules document ++ flat_map rules_of profiles.
Proof.
  induction profiles as [|p ps IH]; intros document; cbn [fold_left flat_map]; [by rewrite app_nil_r|].
  rewrite IH. cbn [add_packaged doc_rules]. by rewrite <- app_assoc.
Qed.

(** The merged document extends the user's. *)
Definition extends (document merged : ProfileDocument) : Prop :=
  doc_version merged = doc_version document /\ doc_fallback merged = doc_fallback document /\
  doc_regions merged = doc_regions document /\
  doc_contributions document `prefix_of` doc_contributions merged /\
  doc_profiles document `prefix_of` doc_profiles merged /\ doc_rules document `prefix_of` doc_rules merged.
Lemma add_packaged_extends profiles : forall document,
  extends document (fold_left (add_packaged application_priority activity_priority) profiles document).
Proof.
  induction profiles as [|p ps IH]; intros document; cbn [fold_left]; [by repeat split|].
  destruct (IH (add_packaged application_priority activity_priority document p)) as (? & ? & ? & ? & ? & ?).
  repeat split; try done.
  all: etransitivity; [|eassumption]; cbn; by apply prefix_app_r.
Qed.

Lemma rules_of_inactive context packaged rule : in_activity context packaged = false ->
  rule ∈ rules_of packaged -> rule_matches context rule = true ->
  rl_priority rule = application_priority /\ in_application context packaged = true.
Proof.
  unfold rules_of, packaged_rules, rule_matches. intros Ha [Hr|Hr]%elem_of_app.
  - case_bool_decide; [by apply not_elem_of_nil in Hr|]. apply list_elem_of_singleton in Hr as ->. cbn [rl_when].
    rewrite activity_matches. unfold in_activity in Ha. by rewrite Ha.
  - case_bool_decide; [by apply not_elem_of_nil in Hr|]. apply list_elem_of_singleton in Hr as ->. cbn [rl_when rl_priority].
    rewrite application_matches. done.
Qed.
Lemma rules_of_priority packaged rule : rule ∈ rules_of packaged ->
  rl_priority rule = application_priority \/ rl_priority rule = activity_priority.
Proof.
  unfold rules_of, packaged_rules. intros [Hr|Hr]%elem_of_app; case_bool_decide; try by apply not_elem_of_nil in Hr.
  - apply list_elem_of_singleton in Hr as ->. by right.
  - apply list_elem_of_singleton in Hr as ->. by left.
Qed.
End Merged.

(** *** The selection *)

Lemma priority_floor document rule : rule ∈ doc_rules document -> (user_priority_floor document <= rl_priority rule)%Z.
Proof.
  unfold user_priority_floor. intros Hr.
  assert (Hin : rl_priority rule ∈ List.map rl_priority (doc_rules document)) by by apply list_elem_of_fmap_2.
  destruct (List.map rl_priority (doc_rules document)) as [|p ps]; [by apply not_elem_of_nil in Hin|].
  apply elem_of_cons in Hin as [->|Hin]; clear Hr.
  - induction ps as [|q ps IH]; cbn; lia.
  - induction ps as [|q ps IH]; cbn; [by apply not_elem_of_nil in Hin|].
    apply elem_of_cons in Hin as [->|Hin]; [lia|]. specialize (IH Hin). lia.
Qed.

Lemma wins_app context rules packaged rule : wins context rules rule ->
  Forall (fun r => pr_priority r <= pr_priority rule)%Z packaged -> wins context (rules ++ packaged) rule.
Proof.
  intros (Hm & before & after & -> & Hb & Ha) Hp. split; [done|]. exists before, (after ++ packaged).
  split; [by rewrite <- app_assoc|]. split; [done|]. apply Forall_app. split; [done|].
  eapply Forall_impl; [exact Hp|]. by intros r Hr _.
Qed.

Lemma find_none_iff' {A} (p : A -> bool) l : (forall a, In a l -> p a = false) -> List.find p l = None.
Proof. induction l as [|a l IH]; intros H; [done|]. cbn. rewrite (H a (or_introl eq_refl)). apply IH. intros b Hb. apply H. by right. Qed.
Lemma find_split {A} (p : A -> bool) l a : List.find p l = Some a ->
  p a = true /\ exists before after, l = before ++ a :: after /\ Forall (fun b => p b = false) before.
Proof.
  induction l as [|b l IH]; cbn; [done|]. destruct (p b) eqn:Hb.
  - intros [= ->]. split; [done|]. exists [], l. by split.
  - intros (Ha & before & after & -> & Hf)%IH. split; [done|]. exists (b :: before), after. split; [done|]. by constructor.
Qed.

Section Selection.
Context (document : ProfileDocument) (profiles : list PackagedProfile) (context : ContextSnapshot).
Context (application_priority activity_priority : Z).
Notation merged := (fold_left (add_packaged application_priority activity_priority) profiles document).
Notation user_rules := (List.map rule_model (doc_rules document)).
Notation packaged_rules_of l := (List.map rule_model (flat_map (rules_of application_priority activity_priority) l)).

Lemma merged_selector : selector_model merged =
  {| ps_fallback := doc_fallback document; ps_rules := user_rules ++ packaged_rules_of profiles |}.
Proof.
  unfold selector_model. fold rule_model. rewrite add_packaged_rules, map_app.
  by destruct (add_packaged_extends application_priority activity_priority profiles document) as (_ & -> & _).
Qed.

Lemma packaged_elem r l : r ∈ packaged_rules_of l <->
  exists packaged rule, packaged ∈ l /\ rule ∈ rules_of application_priority activity_priority packaged /\ r = rule_model rule.
Proof.
  rewrite list_elem_of_In, in_map_iff. setoid_rewrite in_flat_map. setoid_rewrite <- list_elem_of_In. naive_solver.
Qed.

Hypothesis below : Forall (fun rule => application_priority <= rl_priority rule /\ activity_priority <= rl_priority rule)%Z
  (doc_rules document).

Lemma user_selected : existsb (rule_matches context) (doc_rules document) = true ->
  select_profile (selector_model merged) context = select_profile (selector_model document) context.
Proof.
  intros He. rewrite merged_selector. unfold selector_model.
  change (List.map _ (doc_rules document)) with user_rules.
  destruct (winner_exists context user_rules) as [rule Hw].
  { apply Exists_exists. apply existsb_True' in He as (rule & Hin & Hm). exists (rule_model rule). split; [|done].
    by apply list_elem_of_fmap_2. }
  rewrite (select_profile_wins _ _ _ _ Hw). apply select_profile_wins, wins_app; [exact Hw|].
  destruct Hw as (_ & before & after & Hu & _). assert (Hin : rule ∈ user_rules) by (rewrite Hu; set_solver).
  apply list_elem_of_In, in_map_iff in Hin as (config & <- & Hin%list_elem_of_In).
  rewrite Forall_forall in below. specialize (below _ Hin). apply Forall_forall.
  intros r (packaged & rule & _ & Hr & ->)%packaged_elem. apply rules_of_priority in Hr. cbn. lia.
Qed.

Hypothesis unmatched : existsb (rule_matches context) (doc_rules document) = false.

Lemma user_unmatched (r : ProfileRule) : r ∈ user_rules -> matches (pr_predicate r) context = false.
Proof.
  intros (config & <- & Hin)%list_elem_of_In%in_map_iff.
  exact (proj1 (existsb_False' _ _) unmatched config (proj2 (list_elem_of_In _ _) Hin)).
Qed.

Lemma rule_wins before packaged after rule l : profiles = before ++ packaged :: after ->
  rules_of application_priority activity_priority packaged = l ++ rule :: drop (S (length l)) (rules_of application_priority activity_priority packaged) ->
  rule_matches context rule = true ->
  Forall (fun r => rule_matches context r = true -> rl_priority r < rl_priority rule)%Z
    (flat_map (rules_of application_priority activity_priority) before ++ l) ->
  (forall p r, p ∈ profiles -> r ∈ rules_of application_priority activity_priority p -> rule_matches context r = true ->
     rl_priority r <= rl_priority rule)%Z ->
  select_profile (selector_model merged) context = rl_profile rule.
Proof.
  intros Hp Hl Hm Hb Hle. rewrite merged_selector.
  change (rl_profile rule) with (pr_profile (rule_model rule)). apply select_profile_wins. split; [exact Hm|].
  set (tail := drop _ _) in Hl.
  exists (user_rules ++ packaged_rules_of before ++ List.map rule_model l),
    (List.map rule_model tail ++ packaged_rules_of after).
  rewrite Hp, flat_map_app. cbn [flat_map]. rewrite Hl, !map_app. cbn [List.map].
  split; [by rewrite <- !app_assoc|]. split.
  - apply Forall_app. split.
    + apply Forall_forall. intros r Hr Hmr. by rewrite user_unmatched in Hmr.
    + rewrite <- map_app. rewrite Forall_map. exact Hb.
  - apply Forall_app. split; rewrite Forall_map; apply Forall_forall; intros r Hr Hmr.
    + apply (Hle packaged r); [rewrite Hp; set_solver|rewrite Hl; set_solver|done].
    + apply list_elem_of_In, in_flat_map in Hr as (p & Hin%list_elem_of_In & Hr%list_elem_of_In).
      apply (Hle p r); [rewrite Hp; set_solver|done|done].
Qed.

(** The first packaged profile with an activity going on. *)
Lemma activity_selected packaged : (application_priority < activity_priority)%Z ->
  List.find (in_activity context) profiles = Some packaged ->
  select_profile (selector_model merged) context = profile_id_of packaged.
Proof.
  intros activities_first (Ha & before & after & Hp & Hbefore)%find_split.
  set (rule := {| rl_profile := profile_id_of packaged; rl_priority := activity_priority;
                  rl_when := exact_activity_matches (au_activities (pp_definition packaged)) |}).
  apply (rule_wins before packaged after rule []).
  - exact Hp.
  - unfold rules_of, packaged_rules. unfold in_activity in Ha. case_bool_decide as Hz.
    { by destruct (au_activities (pp_definition packaged)). }
    cbn [app length drop]. reflexivity.
  - unfold rule_matches. cbn [rl_when rule]. by rewrite activity_matches.
  - rewrite app_nil_r. apply Forall_forall. intros r Hr Hmr.
    apply list_elem_of_In, in_flat_map in Hr as (p & Hin%list_elem_of_In & Hr%list_elem_of_In).
    rewrite Forall_forall in Hbefore. destruct (rules_of_inactive _ _ _ _ _ (Hbefore p Hin) Hr Hmr) as [-> _]. exact activities_first.
  - intros p r _ Hr _. apply rules_of_priority in Hr. cbn [rl_priority rule]. lia.
Qed.

(** Without one, the first whose application is in front. *)
Lemma application_selected packaged : List.find (in_activity context) profiles = None ->
  List.find (in_application context) profiles = Some packaged ->
  select_profile (selector_model merged) context = profile_id_of packaged.
Proof.
  intros Hnone (Ha & before & after & Hp & Hbefore)%find_split.
  assert (Hinactive : forall p, p ∈ profiles -> in_activity context p = false).
  { intros p Hin. by apply (find_none _ _ Hnone), list_elem_of_In. }
  set (rule := {| rl_profile := profile_id_of packaged; rl_priority := application_priority;
                  rl_when := exact_text_matches "application.id" (au_applications (pp_definition packaged)) |}).
  set (l := if bool_decide (length (au_activities (pp_definition packaged)) = 0) then []
            else [{| rl_profile := profile_id_of packaged; rl_priority := activity_priority;
                     rl_when := exact_activity_matches (au_activities (pp_definition packaged)) |}]).
  assert (Hin : packaged ∈ profiles) by (rewrite Hp; set_solver).
  assert (Hrules : rules_of application_priority activity_priority packaged = l ++ [rule]).
  { unfold rules_of, packaged_rules. fold l. f_equal. unfold in_application in Ha. case_bool_decide as Hz; [|done].
    by destruct (au_applications (pp_definition packaged)). }
  apply (rule_wins before packaged after rule l).
  - exact Hp.
  - rewrite Hrules. rewrite drop_ge; [done|]. rewrite length_app. cbn. lia.
  - unfold rule_matches. cbn [rl_when rule]. by rewrite application_matches.
  - apply Forall_app. split; apply Forall_forall; intros r Hr Hmr; exfalso.
    + apply list_elem_of_In, in_flat_map in Hr as (p & Hpin%list_elem_of_In & Hr%list_elem_of_In).
      rewrite Forall_forall in Hbefore. assert (Hpp : p ∈ profiles) by (rewrite Hp; set_solver).
      destruct (rules_of_inactive _ _ _ _ _ (Hinactive p Hpp) Hr Hmr) as [_ Hx]. by rewrite (Hbefore p Hpin) in Hx.
    + specialize (Hinactive _ Hin). unfold l in Hr. case_bool_decide; [by apply not_elem_of_nil in Hr|].
      apply list_elem_of_singleton in Hr as ->. unfold rule_matches in Hmr. cbn [rl_when] in Hmr.
      rewrite activity_matches in Hmr. unfold in_activity in Hinactive. by rewrite Hinactive in Hmr.
  - intros p r Hpp Hr Hmr. destruct (rules_of_inactive _ _ _ _ _ (Hinactive p Hpp) Hr Hmr) as [-> _]. done.
Qed.

(** With equal priorities, the first with either. *)
Lemma either_selected packaged : application_priority = activity_priority ->
  List.find (fun p => in_activity context p || in_application context p) profiles = Some packaged ->
  select_profile (selector_model merged) context = profile_id_of packaged.
Proof.
  intros Heq (Ha & before & after & Hp & Hbefore)%find_split.
  assert (Hsilent : forall r, r ∈ flat_map (rules_of application_priority activity_priority) before ->
    rule_matches context r = true -> False).
  { intros r Hr Hmr. apply list_elem_of_In, in_flat_map in Hr as (p & Hin%list_elem_of_In & Hr%list_elem_of_In).
    rewrite Forall_forall in Hbefore. specialize (Hbefore p Hin). apply orb_false_iff in Hbefore as [H1 H2].
    destruct (rules_of_inactive _ _ _ _ _ H1 Hr Hmr) as [_ Hx]. by rewrite H2 in Hx. }
  destruct (in_activity context packaged) eqn:Hact.
  - set (rule := {| rl_profile := profile_id_of packaged; rl_priority := activity_priority;
                    rl_when := exact_activity_matches (au_activities (pp_definition packaged)) |}).
    apply (rule_wins before packaged after rule []); [exact Hp| | | |].
    + unfold rules_of, packaged_rules. unfold in_activity in Hact.
      case_bool_decide; [by destruct (au_activities (pp_definition packaged))|done].
    + unfold rule_matches. cbn [rl_when rule]. by rewrite activity_matches.
    + rewrite app_nil_r. apply Forall_forall. intros r Hr Hmr. by destruct (Hsilent r Hr Hmr).
    + intros p r _ Hr _. apply rules_of_priority in Hr. cbn [rl_priority rule]. lia.
  - cbn in Ha. set (rule := {| rl_profile := profile_id_of packaged; rl_priority := application_priority;
                    rl_when := exact_text_matches "application.id" (au_applications (pp_definition packaged)) |}).
    set (l := if bool_decide (length (au_activities (pp_definition packaged)) = 0) then []
              else [{| rl_profile := profile_id_of packaged; rl_priority := activity_priority;
                       rl_when := exact_activity_matches (au_activities (pp_definition packaged)) |}]).
    assert (Hrules : rules_of application_priority activity_priority packaged = l ++ [rule]).
    { unfold rules_of, packaged_rules. fold l. f_equal. unfold in_application in Ha. case_bool_decide; [|done].
      by destruct (au_applications (pp_definition packaged)). }
    apply (rule_wins before packaged after rule l); [exact Hp| | | |].
    + rewrite Hrules. rewrite drop_ge; [done|]. rewrite length_app. cbn. lia.
    + unfold rule_matches. cbn [rl_when rule]. by rewrite application_matches.
    + apply Forall_app. split; apply Forall_forall; intros r Hr Hmr; exfalso; [by apply (Hsilent r)|].
      assert (Hin : r ∈ rules_of application_priority activity_priority packaged) by (rewrite Hrules; set_solver).
      unfold l in Hr. case_bool_decide; [by apply not_elem_of_nil in Hr|].
      apply list_elem_of_singleton in Hr as ->. unfold rule_matches in Hmr. cbn [rl_when] in Hmr.
      rewrite activity_matches in Hmr. unfold in_activity in Hact. by rewrite Hact in Hmr.
    + intros p r _ Hr _. apply rules_of_priority in Hr. cbn [rl_priority rule]. lia.
Qed.

Lemma fallback_selected : List.find (in_activity context) profiles = None ->
  List.find (in_application context) profiles = None ->
  select_profile (selector_model merged) context = doc_fallback document.
Proof.
  intros Hact Happ. rewrite merged_selector. apply no_match_fallback, Forall_app. split; apply Forall_forall; intros r Hr.
  - by apply user_unmatched.
  - apply packaged_elem in Hr as (p & rule & Hin & Hr & ->). apply Bool.not_true_iff_false. intros Hmr.
    destruct (rules_of_inactive _ _ context _ _ (find_none _ _ Hact p (proj1 (list_elem_of_In _ _) Hin)) Hr Hmr) as [_ Hx].
    by rewrite (find_none _ _ Happ p (proj1 (list_elem_of_In _ _) Hin)) in Hx.
Qed.
End Selection.

Lemma merge_result self user merged : merge self user = Ok (Some merged) ->
  merged = merged_document self user /\ (user = Some merged \/ Config.validate merged = Ok ()).
Proof.
  unfold merge. destruct (bool_decide (length (pk_profiles self) = 0) && _) eqn:He.
  - intros [= ->]. apply andb_true_iff in He as [He _]. apply bool_decide_eq_true in He.
    unfold merged_document. destruct (pk_profiles self); [|done]. split; [done|by left].
  - destruct (Config.validate (merged_document self user)) as [[]|e] eqn:Hv; [|done]. cbn. intros [= <-]. split; [done|by right].
Qed.

(** C22: Merging that succeeds extends the user's document, or the automatic one of
    a user without, into a valid one, and selects in every context: the profile
    the user's rules select when one of them matches; else the first packaged
    profile one of whose activities is going on; else the first whose
    application is in front; else the fallback.  When a rule of the user has
    one of the two lowest priorities of a 32-bit integer, there is no room for
    two below it: activities and applications then count alike, and the first
    packaged profile with either is selected. *)
Theorem merged_selection (self : PackagedProfileCatalog) (user : option ProfileDocument) (merged : ProfileDocument)
  (context : ContextSnapshot) :
  let document := match user with Some document => document | None => automatic_document (pk_enabled_items self) end in
  let selected := select_profile (selector_model merged) context in
  merge self user = Ok (Some merged) ->
  Forall (fun rule => - 2 ^ 31 <= rl_priority rule < 2 ^ 31)%Z (doc_rules document) ->
  (user = Some merged \/ Config.validate merged = Ok ()) /\ extends document merged /\
  if existsb (rule_matches context) (doc_rules document)
  then selected = select_profile (selector_model document) context
  else if (- 2 ^ 31 + 2 <=? user_priority_floor document)%Z
  then match List.find (in_activity context) (pk_profiles self) with
       | Some packaged => selected = profile_id_of packaged
       | None =>
           match List.find (in_application context) (pk_profiles self) with
           | Some packaged => selected = profile_id_of packaged
           | None => selected = doc_fallback document
           end
       end
  else match List.find (fun packaged => in_activity context packaged || in_application context packaged)
               (pk_profiles self) with
       | Some packaged => selected = profile_id_of packaged
       | None => selected = doc_fallback document
       end.
Proof.
  intros document selected [Hmerged Hvalid]%merge_result Hrange. split; [exact Hvalid|].
  unfold selected. rewrite Hmerged. unfold merged_document. fold document.
  set (floor := user_priority_floor document).
  assert (Hfloor : (- 2 ^ 31 <= floor)%Z).
  { unfold floor, user_priority_floor. clear -Hrange.
    rewrite <- (Forall_map rl_priority (fun p => - 2 ^ 31 <= p < 2 ^ 31)%Z) in Hrange.
    destruct (List.map rl_priority (doc_rules document)) as [|p ps]; [lia|].
    apply Forall_cons in Hrange as [Hp Hps]. induction Hps as [|q ps Hq _ IH]; cbn in *; lia. }
  assert (Hbelow : Forall (fun rule => sat_sub_i32 floor 2 <= rl_priority rule /\ sat_sub_i32 floor 1 <= rl_priority rule)%Z
            (doc_rules document)).
  { apply Forall_forall. intros rule Hr. apply priority_floor in Hr. fold floor in Hr. unfold sat_sub_i32. lia. }
  split; [apply add_packaged_extends|]. destruct (existsb _ _) eqn:Hu; [by apply user_selected|].
  destruct (- 2 ^ 31 + 2 <=? floor)%Z eqn:Hroom; [apply Z.leb_le in Hroom|apply Z.leb_gt in Hroom].
  - assert (Hlt : (sat_sub_i32 floor 2 < sat_sub_i32 floor 1)%Z) by (unfold sat_sub_i32; lia).
    destruct (List.find (in_activity context) _) eqn:Hact; [by apply activity_selected|].
    destruct (List.find (in_application context) _) eqn:Happ; [by apply application_selected|by apply fallback_selected].
  - assert (Heq : sat_sub_i32 floor 2 = sat_sub_i32 floor 1) by (unfold sat_sub_i32; lia).
    destruct (List.find _ _) eqn:Heither; [by apply either_selected|].
    apply fallback_selected; [done|..]; apply find_none_iff'; intros p Hp;
      by destruct (orb_false_elim _ _ (find_none _ _ Heither p Hp)).
Qed.

(** ** The identifiers of packaged profiles *)

Notation no_dot := (all_bytes (fun byte => negb (Ascii.eqb byte "."%char))).

Lemma pretty_no_dot (n : N) : no_dot (pretty n) = true.
Proof.
  assert (H : forall n s, no_dot s = true -> no_dot (pretty_N_go n s) = true).
  { clear n. intros n. induction (N.lt_wf_0 n) as [n _ IH]; intros s Hs.
    destruct (N.eq_dec n 0%N) as [->|Hn]; [by rewrite pretty_N_go_0|].
    rewrite pretty_N_go_step by lia. apply IH; [apply N.div_lt; lia|]. cbn. rewrite Hs, andb_true_r.
    unfold pretty_N_char. by repeat case_match. }
  unfold pretty, pretty_N. destruct (decide (n = 0%N)); [done|]. by apply H.
Qed.
Lemma cut_at_dot a b x y : no_dot a = true -> no_dot b = true -> a +:+ "." +:+ x = b +:+ "." +:+ y -> a = b /\ x = y.
Proof.
  revert b. induction a as [|c a IH]; intros [|d b]; cbn; try done.
  - intros _ _ [= H]. by split.
  - intros _ [Hd _]%andb_true_iff [= <- _]. done.
  - intros [Hc _]%andb_true_iff _ [= -> _]. done.
  - intros [_ Ha]%andb_true_iff [_ Hb]%andb_true_iff [= -> H]. by destruct (IH b Ha Hb H) as [-> ->].
Qed.
Lemma same_length_app a b x y : slen a = slen b -> a +:+ x = b +:+ y -> a = b /\ x = y.
Proof.
  unfold slen. intros Hl. apply Nat2N.inj in Hl. revert b Hl. induction a as [|c a IH]; intros [|d b]; cbn; try done.
  intros [= Hl] [= -> H]. by destruct (IH b Hl H) as [-> ->].
Qed.

Lemma sized_inj a b x y : pretty (slen a) +:+ "." +:+ a +:+ x = pretty (slen b) +:+ "." +:+ b +:+ y -> a = b /\ x = y.
Proof.
  intros [Hl H]%cut_at_dot; [|apply pretty_no_dot..]. apply (inj pretty) in Hl. by apply same_length_app.
Qed.

(** Packages never claim each other's profiles, or the user's: the identifier
    of a packaged profile determines the package and the profile, though an
    owner, a repository or a local identifier may hold the separator. *)
Theorem packaged_id_injective (source source' : GithubSource) (local local' : string) :
  packaged_definition_id source local = packaged_definition_id source' local' -> source = source' /\ local = local'.
Proof.
  destruct source as [owner repository], source' as [owner' repository']. unfold packaged_definition_id.
  cbn [gs_owner gs_repository]. intros H%string_app_inj_l. apply sized_inj in H as [-> H].
  apply (string_app_inj_l ".") in H. apply sized_inj in H as [-> H]. by apply (string_app_inj_l ".") in H as ->.
Qed.

(** ** Budgets shared by packages *)

Definition numbered (prefix : string) (count : nat) : list string :=
  List.map (fun n : nat => prefix +:+ pretty n) (seq 0 count).
Definition profile_for (id : string) (applications : list string) : AutomaticProfile :=
  {| au_id := id; au_label := id; au_items := ["clock"]; au_principal_item := None; au_applications := applications;
     au_activities := []; au_enabled_by_default := true |}.
Definition clock_manifest `{SemVer, ScopeCodec} (version : Version) (repository : string)
  (profiles : list AutomaticProfile) : PluginManifest :=
  {| mf_manifest_version := 1;
     mf_plugin := {| pm_name := "Clock"; pm_version := version; pm_description := "A clock"; pm_license := "MIT";
                     pm_source := {| gs_owner := "acme"; gs_repository := repository |} |};
     mf_runtime := ComponentRuntimeSpec "plugin.wasm" SUPPORTED_COMPONENT_WORLD;
     mf_items := [{| ic_id := "clock"; ic_label := "Clock"; ic_default_width := 80; ic_show_in_default_profile := true;
                     ic_expanded_bar := None; ic_press_and_hold_bar := None |}];
     mf_bars := []; mf_profiles := profiles; mf_appearance_providers := []; mf_assets := []; mf_permissions := [] |}.
(** The catalog of these packages with everything enabled. *)
Definition installed `{SemVer, ScopeCodec} (manifests : list PluginManifest) : PackagedProfileCatalog :=
  fold_left (fun catalog manifest => add_profiles catalog (pm_source (mf_plugin manifest)) manifest
                                       (ic_id <$> mf_items manifest) (au_id <$> mf_profiles manifest))
    manifests empty_packaged.

(** Manifests that validate need not merge.  A package may declare 64
    profiles, but the automatic document adds one to them; and two packages
    with a profile for 64 applications each, either of which merges, together
    exceed the number of predicates of a document, so that the profiles of
    all packages are refused. *)
Theorem packages_exceed_budgets `{SemVer, ScopeCodec} (version : Version) :
  let many := clock_manifest version "many" (List.map (fun id => profile_for id ["editor"]) (numbered "profile" 64)) in
  let one := clock_manifest version "one" [profile_for "apps" (numbered "app" 64)] in
  let other := clock_manifest version "other" [profile_for "apps" (numbered "app" 64)] in
  Manifest.validate many = Ok () /\ merge (installed [many]) None = Err ProfileCount /\
  Manifest.validate one = Ok () /\ Manifest.validate other = Ok () /\
  (exists document, merge (installed [one]) None = Ok (Some document)) /\
  merge (installed [one; other]) None = Err PredicateBudget.
Proof.
  cbv zeta. split; [by vm_compute|]. split; [by vm_compute|]. split; [by vm_compute|]. split; [by vm_compute|].
  split; [|by vm_compute]. eexists. by vm_compute.
Qed.

(** ** The theorems at work *)

Definition desk_user : ProfileDocument :=
  {| doc_version := PROFILE_CONFIG_VERSION; doc_fallback := "desk";
     doc_contributions := [{| cf_id := "clock"; cf_items := [{| pic_plugin := "github:acme/one"; pic_item := "clock"; pic_required := false |}];
                              cf_scope := GlobalConfig; cf_priority := 0; cf_when := AlwaysConfig |}];
     doc_profiles := [{| pg_id := "desk"; pg_elements := [SlotConfig "clock" FixedConfig ["clock"]]; pg_principal_item := None |}];
     doc_rules := [{| rl_profile := "desk"; rl_priority := 5; rl_when := TextEquals "application.id" "app1" |}];
     doc_regions := [] |}.
Definition picker : PackagedProfileCatalog :=
  {| pk_enabled_items := []; pk_manages_default_visibility := true;
     pk_profiles := [{| pp_source := {| gs_owner := "acme"; gs_repository := "one" |};
                        pp_definition := profile_for "apps" ["app1"; "app2"] |};
                     {| pp_source := {| gs_owner := "acme"; gs_repository := "two" |};
                        pp_definition := {| au_id := "picker"; au_label := "Picker"; au_items := ["clock"];
                                            au_principal_item := None; au_applications := [];
                                            au_activities := ["picker"]; au_enabled_by_default := true |} |}] |}.
Definition picking (application : string) (active : bool) : ContextSnapshot :=
  {| cx_generation := 1; cx_facts := [("activity.picker", BooleanValue active); ("application.id", TextValue application)] |}.

Example picker_selects :
  match merge picker (Some desk_user) with
  | Ok (Some merged) =>
      List.map (select_profile (selector_model merged)) [picking "app1" true; picking "app2" true; picking "app2" false; picking "x" false]
  | _ => []
  end = ["desk"; "package.4.acme.3.two.picker"; "package.4.acme.3.one.apps"; "desk"].
Proof. by vm_compute. Qed.

(** A user rule of the lowest priority lets an application win over the
    activity going on. *)
Example no_room_below :
  match merge picker (Some {| doc_version := doc_version desk_user; doc_fallback := doc_fallback desk_user;
                              doc_contributions := doc_contributions desk_user; doc_profiles := doc_profiles desk_user;
                              doc_rules := [{| rl_profile := "desk"; rl_priority := - 2 ^ 31;
                                               rl_when := TextEquals "application.id" "app1" |}];
                              doc_regions := doc_regions desk_user |}) with
  | Ok (Some merged) => select_profile (selector_model merged) (picking "app2" true)
  | _ => ""
  end = "package.4.acme.3.one.apps".
Proof. by vm_compute. Qed.

Lemma merged_selection_witness :
  Forall (fun rule => - 2 ^ 31 <= rl_priority rule < 2 ^ 31)%Z (doc_rules desk_user) /\
  exists merged, merge picker (Some desk_user) = Ok (Some merged) /\
    select_profile (selector_model merged) (picking "app2" true) = "package.4.acme.3.two.picker".
Proof.
  assert (Hr : Forall (fun rule => - 2 ^ 31 <= rl_priority rule < 2 ^ 31)%Z (doc_rules desk_user)) by by repeat constructor.
  split; [exact Hr|]. destruct (merge picker (Some desk_user)) as [[merged|]|error] eqn:Hm; [|vm_compute in Hm; discriminate Hm..].
  exists merged. split; [done|].
  destruct (merged_selection picker (Some desk_user) merged (picking "app2" true) Hm Hr) as (_ & _ & H). exact H.
Defined.

Lemma packaged_id_injective_witness :
  exists source source' local local', packaged_definition_id source local = packaged_definition_id source' local' /\
    source = source' /\ local = local'.
Proof.
  exists {| gs_owner := "acme"; gs_repository := "tools.v2" |}, {| gs_owner := "acme"; gs_repository := "tools.v2" |}, "apps", "apps".
  split; [done|]. by apply packaged_id_injective.
Defined.
