(* ===== verification/Bar.v ===== *)
(** * Bar: the built-in system bar

    Models [crates/touchbar-system-bar/src/lib.rs]: the media and function
    layers, the geometry of the buttons in [f32], and what touches and the Fn
    key mean.  Rendering is not modelled.  A counter that would leave [usize]
    is a panic, [None]. *)

From S2P Require Import Prelude BTree Text Payload Hardware Float.
From Stdlib Require String.

(** [SystemKey] is ordered by its declaration. *)
#[export] Instance SystemKey_ord : Ord SystemKey := fun a b => cmp (key_code a) (key_code b).
#[export] Instance SystemKey_ord_laws : OrdLaws SystemKey.
Proof.
  apply (ord_laws_inj key_code).
  - intros a b E. apply (f_equal decode_key) in E. rewrite !decode_key_code in E. by injection E.
  - done.
Qed.

(** ** Data *)

Inductive SystemLayer := Media | Function_.

Inductive SystemIcon :=
| BrightnessDownIcon | BrightnessUpIcon | KeyboardIlluminationDownIcon | KeyboardIlluminationUpIcon
| MicrophoneMuteIcon | SearchIcon | PreviousIcon | PlayPauseIcon | NextIcon | MuteIcon
| VolumeDownIcon | VolumeUpIcon.

Inductive ButtonVisual := VisualText (text : string) | VisualIcon (icon : SystemIcon).

Record Rect := { rc_x : float; rc_y : float; rc_width : float; rc_height : float }.

Definition contains (self : Rect) (x y : float) : bool :=
  fle (rc_x self) x && fle x (F32.add (rc_x self) (rc_width self))
  && fle (rc_y self) y && fle y (F32.add (rc_y self) (rc_height self)).

Record SystemButton := {
  bn_key : SystemKey;
  bn_visual : ButtonVisual;
  bn_visual_bounds : Rect;
  bn_content_bounds : Rect;
  bn_hit_bounds : Rect;
  bn_pressed : bool;
}.

Record KeyTransition := { kt_key : SystemKey; kt_phase : KeyPhase }.

Record ContactState := {
  cn_key : SystemKey;
  cn_hit_bounds : Rect;
  cn_active : bool;
}.

Record SystemBar := {
  sb_default_layer : SystemLayer;
  sb_active_layer : SystemLayer;
  sb_fn_pressed : bool;
  sb_width : float;
  sb_height : float;
  sb_contacts : list (N * ContactState);
  sb_pressed : list (SystemKey * N);
}.

#[export] Instance SystemLayer_eq_dec : EqDecision SystemLayer. Proof. solve_decision. Defined.
#[export] Instance KeyTransition_eq_dec : EqDecision KeyTransition. Proof. solve_decision. Defined.

Definition with_contacts (bar : SystemBar) contacts : SystemBar :=
  {| sb_default_layer := sb_default_layer bar; sb_active_layer := sb_active_layer bar;
     sb_fn_pressed := sb_fn_pressed bar; sb_width := sb_width bar; sb_height := sb_height bar;
     sb_contacts := contacts; sb_pressed := sb_pressed bar |}.
Definition with_pressed (bar : SystemBar) pressed : SystemBar :=
  {| sb_default_layer := sb_default_layer bar; sb_active_layer := sb_active_layer bar;
     sb_fn_pressed := sb_fn_pressed bar; sb_width := sb_width bar; sb_height := sb_height bar;
     sb_contacts := sb_contacts bar; sb_pressed := pressed |}.
Definition with_layer (bar : SystemBar) fn_pressed layer : SystemBar :=
  {| sb_default_layer := sb_default_layer bar; sb_active_layer := layer;
     sb_fn_pressed := fn_pressed; sb_width := sb_width bar; sb_height := sb_height bar;
     sb_contacts := sb_contacts bar; sb_pressed := sb_pressed bar |}.

(** ** Layers *)

Definition MEDIA : list (SystemKey * ButtonVisual) :=
  [(BrightnessDown, VisualIcon BrightnessDownIcon); (BrightnessUp, VisualIcon BrightnessUpIcon);
   (MicrophoneMute, VisualIcon MicrophoneMuteIcon); (SearchKey, VisualIcon SearchIcon);
   (KeyboardIlluminationDown, VisualIcon KeyboardIlluminationDownIcon);
   (KeyboardIlluminationUp, VisualIcon KeyboardIlluminationUpIcon);
   (PreviousSong, VisualIcon PreviousIcon); (PlayPause, VisualIcon PlayPauseIcon);
   (NextSong, VisualIcon NextIcon); (Mute, VisualIcon MuteIcon);
   (VolumeDown, VisualIcon VolumeDownIcon); (VolumeUp, VisualIcon VolumeUpIcon)].

Definition FUNCTION : list (SystemKey * ButtonVisual) :=
  [(F1, VisualText "F1"); (F2, VisualText "F2"); (F3, VisualText "F3"); (F4, VisualText "F4");
   (F5, VisualText "F5"); (F6, VisualText "F6"); (F7, VisualText "F7"); (F8, VisualText "F8");
   (F9, VisualText "F9"); (F10, VisualText "F10"); (F11, VisualText "F11"); (F12, VisualText "F12")].

Definition definitions (layer : SystemLayer) : list (SystemKey * ButtonVisual) :=
  match layer with Media => MEDIA | Function_ => FUNCTION end.
Definition alternate (layer : SystemLayer) : SystemLayer :=
  match layer with Media => Function_ | Function_ => Media end.

(** [SystemBar::new]. *)
Definition bar_new (default_layer : SystemLayer) (width height : float) : SystemBar :=
  {| sb_default_layer := default_layer; sb_active_layer := default_layer; sb_fn_pressed := false;
     sb_width := fmax width (F32.of_Z 1); sb_height := fmax height (F32.of_Z 1);
     sb_contacts := []; sb_pressed := [] |}.

(** ** Geometry *)

(** One button, given the extent of a cell; the gap is 16 and the outer
    margin 0. *)
Definition button (self : SystemBar) (extent visual_top visual_height hit_top hit_height : float)
  (index : nat) (definition : SystemKey * ButtonVisual) : SystemButton :=
  let x := F32.floor (F32.add (F32.of_Z 0)
             (F32.mul (F32.of_Z (Z.of_nat index)) (F32.add extent (F32.of_Z 16)))) in
  {| bn_key := definition.1; bn_visual := definition.2;
     bn_visual_bounds := {| rc_x := x; rc_y := visual_top; rc_width := F32.ceil extent;
                            rc_height := visual_height |};
     bn_content_bounds := {| rc_x := x; rc_y := F32.of_Z 0; rc_width := F32.ceil extent;
                             rc_height := sb_height self |};
     bn_hit_bounds := {| rc_x := x; rc_y := hit_top; rc_width := extent; rc_height := hit_height |};
     bn_pressed := bt_contains definition.1 (sb_pressed self) |}.

Definition buttons (self : SystemBar) : list SystemButton :=
  let definitions := definitions (sb_active_layer self) in
  let gap := F32.of_Z 16 in
  let outer := F32.of_Z 0 in
  let count := F32.of_Z (Z.of_nat (length definitions)) in
  let available :=
    fmax (F32.sub (F32.sub (sb_width self) (F32.mul outer (F32.of_Z 2)))
            (F32.mul gap (F32.sub count (F32.of_Z 1)))) count in
  let extent := F32.div available count in
  let radius := fmin (F32.of_Z 8) (F32.mul (sb_height self) (F32.lit 15 100)) in
  let arc_top := F32.mul (sb_height self) (F32.lit 15 100) in
  let arc_bottom := F32.mul (sb_height self) (F32.lit 85 100) in
  let visual_top := fmax (F32.sub arc_top radius) (F32.of_Z 0) in
  let visual_height :=
    fmax (F32.add (F32.sub arc_bottom arc_top) (F32.mul radius (F32.of_Z 2))) (F32.of_Z 1) in
  let hit_top := F32.mul (sb_height self) (F32.lit 10 100) in
  let hit_height := fmax (F32.mul (sb_height self) (F32.lit 80 100)) (F32.of_Z 1) in
  imap (button self extent visual_top visual_height hit_top hit_height) definitions.

(** ** Operations *)

Definition transition (phase : KeyPhase) (key : SystemKey) : KeyTransition :=
  {| kt_key := key; kt_phase := phase |}.

Definition activate (self : SystemBar) (key : SystemKey) : option (SystemBar * list KeyTransition) :=
  count ← checked_add64 (default 0%N (bt_get key (sb_pressed self))) 1;
  Some (with_pressed self (bt_insert key count (sb_pressed self)),
        if (count =? 1)%N then [transition Pressed key] else []).

Definition deactivate (self : SystemBar) (key : SystemKey) : option (SystemBar * list KeyTransition) :=
  match bt_get key (sb_pressed self) with
  | None => Some (self, [])
  | Some 0%N => None
  | Some count =>
      let count := (count - 1)%N in
      if (count =? 0)%N
      then Some (with_pressed self (bt_remove key (sb_pressed self)), [transition Released key])
      else Some (with_pressed self (bt_insert key count (sb_pressed self)), [])
  end.

Definition cancel_all (self : SystemBar) : SystemBar * list KeyTransition :=
  (with_pressed (with_contacts self []) [],
   List.map (transition Released) (bt_keys (sb_pressed self))).

Definition set_fn_override (self : SystemBar) (layer : option SystemLayer)
  : SystemBar * list KeyTransition :=
  let pressed := match layer with Some _ => true | None => false end in
  let next := default (sb_default_layer self) layer in
  if Bool.eqb (sb_fn_pressed self) pressed && bool_decide (sb_active_layer self = next)
  then (self, [])
  else
    let '(bar, releases) := cancel_all self in
    (with_layer bar pressed next, releases).

Definition set_fn_pressed (self : SystemBar) (pressed : bool) : SystemBar * list KeyTransition :=
  set_fn_override self (if pressed then Some (alternate (sb_default_layer self)) else None).

Definition handle_touch (self : SystemBar) (event : TouchEvent)
  : option (SystemBar * list KeyTransition) :=
  let x := F32.div (F32.of_Z (te_x_millipixels event)) (F32.of_Z 1000) in
  let y := F32.div (F32.of_Z (te_y_millipixels event)) (F32.of_Z 1000) in
  let id := te_contact_id event in
  match te_phase event with
  | TouchDown =>
      if bt_contains id (sb_contacts self) then Some (self, [])
      else
        match List.find (fun button => contains (bn_hit_bounds button) x y) (buttons self) with
        | None => Some (self, [])
        | Some button =>
            let state := {| cn_key := bn_key button; cn_hit_bounds := bn_hit_bounds button;
                            cn_active := true |} in
            activate (with_contacts self (bt_insert id state (sb_contacts self))) (bn_key button)
        end
  | TouchMotion =>
      match bt_get id (sb_contacts self) with
      | None => Some (self, [])
      | Some state =>
          let inside := contains (cn_hit_bounds state) x y in
          if Bool.eqb inside (cn_active state) then Some (self, [])
          else
            let state := {| cn_key := cn_key state; cn_hit_bounds := cn_hit_bounds state;
                            cn_active := inside |} in
            let self := with_contacts self (bt_insert id state (sb_contacts self)) in
            if inside then activate self (cn_key state) else deactivate self (cn_key state)
      end
  | TouchUp | TouchCancel =>
      match bt_get id (sb_contacts self) with
      | None => Some (self, [])
      | Some state =>
          let self := with_contacts self (bt_remove id (sb_contacts self)) in
          if cn_active state then deactivate self (cn_key state) else Some (self, [])
      end
  end.

(** ** Geometry on the reference panel *)

Definition reference_bar : SystemBar := bar_new Media (F32.of_Z 2008) (F32.of_Z 60).

Example reference_geometry :
  List.map (fun b => to_i32 (rc_x (bn_visual_bounds b))) (buttons reference_bar) =
    [0; 168; 337; 506; 674; 843; 1012; 1180; 1349; 1518; 1686; 1855]%Z /\
  Forall (fun b => to_i32 (rc_width (bn_visual_bounds b)) = 153%Z /\
    rc_y (bn_visual_bounds b) = F32.of_Z 1 /\ rc_height (bn_visual_bounds b) = F32.of_Z 58 /\
    rc_y (bn_hit_bounds b) = F32.of_Z 6 /\ rc_height (bn_hit_bounds b) = F32.of_Z 48)
    (buttons reference_bar).
Proof. split; [vm_compute; reflexivity|]. repeat (constructor; [vm_compute; repeat split|]). constructor. Qed.

(** * Theorems *)

(** ** Histories of a bar *)

Inductive BarStep :=
| TouchStep (event : TouchEvent)
| FnStep (pressed : bool)
| OverrideStep (layer : option SystemLayer)
| CancelStep.

Definition bar_step (self : SystemBar) (step : BarStep) : option (SystemBar * list KeyTransition) :=
  match step with
  | TouchStep event => handle_touch self event
  | FnStep pressed => Some (set_fn_pressed self pressed)
  | OverrideStep layer => Some (set_fn_override self layer)
  | CancelStep => Some (cancel_all self)
  end.

Fixpoint bar_run (self : SystemBar) (steps : list BarStep) : option (SystemBar * list KeyTransition) :=
  match steps with
  | [] => Some (self, [])
  | step :: steps' =>
      '(self, transitions) ← bar_step self step;
      '(self, more) ← bar_run self steps';
      Some (self, transitions ++ more)
  end.

Definition step_in_range (step : BarStep) : Prop :=
  match step with TouchStep event => (te_contact_id event <= u32_max)%N | _ => True end.

(** The keys held after some transitions; [None] when a key is pressed twice,
    released without being held, or repeated. *)
Fixpoint held (keys : list SystemKey) (transitions : list KeyTransition) : option (list SystemKey) :=
  match transitions with
  | [] => Some keys
  | t :: transitions' =>
      match kt_phase t with
      | Pressed => if set_contains (kt_key t) keys then None else held (set_add (kt_key t) keys) transitions'
      | Released => if set_contains (kt_key t) keys then held (set_remove (kt_key t) keys) transitions' else None
      | Repeat => None
      end
  end.

Lemma held_app keys ts us :
  held keys (ts ++ us) = (keys ← held keys ts; held keys us).
Proof.
  revert keys; induction ts as [|t ts IH]; intros keys; cbn; [done|].
  destruct (kt_phase t), (set_contains (kt_key t) keys); done.
Qed.

(** ** Counters *)

Definition active_on (key : SystemKey) (entry : N * ContactState) : bool :=
  cn_active entry.2 && bool_decide (cn_key entry.2 = key).
Definition fingers (key : SystemKey) (contacts : list (N * ContactState)) : N :=
  len (List.filter (active_on key) contacts).
Definition one (b : bool) : N := if b then 1%N else 0%N.
Definition presses (key : SystemKey) (pressed : list (SystemKey * N)) : N :=
  default 0%N (bt_get key pressed).

Lemma fingers_perm key l k : l ≡ₚ k -> fingers key l = fingers key k.
Proof.
  intros H. unfold fingers, len. f_equal. induction H as [|x l k H IH|x y l|l k m H1 IH1 H2 IH2]; cbn.
  - done.
  - destruct (active_on key x); cbn; lia.
  - destruct (active_on key x), (active_on key y); cbn; lia.
  - lia.
Qed.

Lemma fingers_cons key e l : fingers key (e :: l) = (one (active_on key e) + fingers key l)%N.
Proof. unfold fingers. cbn. destruct (active_on key e); cbn [one]; rewrite ?len_cons; lia. Qed.

(** A map keyed by [u32] has at most [2 ^ 32] entries. *)
Lemma bounded_length (l : list N) (n : N) :
  NoDup l -> Forall (fun x => x < n)%N l -> (len l <= n)%N.
Proof.
  intros Hn Hl. unfold len. assert (length l <= N.to_nat n)%nat; [|lia].
  rewrite <- (length_seq (N.to_nat n) 0), <- (length_fmap N.to_nat l).
  apply submseteq_length, NoDup_submseteq.
  - by apply NoDup_fmap_2; [intros ???; lia|].
  - intros x (y & -> & Hy)%list_elem_of_fmap. rewrite Forall_forall in Hl. specialize (Hl y Hy).
    apply elem_of_seq. lia.
Qed.

(** The counters agree with the fingers, give or take some of one key. *)
Record counted (contacts : list (N * ContactState)) (pressed : list (SystemKey * N))
  (more less : SystemKey -> N) : Prop := {
  counted_sorted : bt_sorted pressed;
  counted_positive : forall key, bt_get key pressed <> Some 0%N;
  counted_sum : forall key, (presses key pressed + less key = fingers key contacts + more key)%N;
}.

Definition nothing (_ : SystemKey) : N := 0%N.
Definition only (key k : SystemKey) : N := one (bool_decide (key = k)).

Record bar_ok (self : SystemBar) : Prop := {
  bar_contacts : bt_sorted (sb_contacts self);
  bar_ids : Forall (fun id => id < u32_max + 1)%N (bt_keys (sb_contacts self));
  bar_counted : counted (sb_contacts self) (sb_pressed self) nothing nothing;
}.

Lemma fingers_bound key contacts :
  bt_sorted contacts -> Forall (fun id => id < u32_max + 1)%N (bt_keys contacts) ->
  (fingers key contacts <= u32_max + 1)%N.
Proof.
  intros Hs Hi. apply (bounded_length _ _ (ascending_NoDup _ Hs)) in Hi. unfold bt_keys, len in Hi.
  rewrite length_fmap in Hi. unfold fingers, len. 
  pose proof (filter_length_le (active_on key) contacts). lia.
Qed.

Lemma held_pressed keys key :
  set_contains key keys = false -> held keys [transition Pressed key] = Some (set_add key keys).
Proof. intros H. cbn. by rewrite H. Qed.
Lemma held_released keys key :
  set_contains key keys = true -> held keys [transition Released key] = Some (set_remove key keys).
Proof. intros H. cbn. by rewrite H. Qed.

(** Counting one more finger on a key. *)
Lemma activate_spec self key :
  bt_sorted (sb_contacts self) -> Forall (fun id => id < u32_max + 1)%N (bt_keys (sb_contacts self)) ->
  counted (sb_contacts self) (sb_pressed self) nothing (only key) ->
  exists pressed ts, activate self key = Some (with_pressed self pressed, ts) /\
    counted (sb_contacts self) pressed nothing nothing /\
    held (bt_keys (sb_pressed self)) ts = Some (bt_keys pressed).
Proof.
  intros Hs Hi [Hsort Hpos Hsum]. pose proof (Hsum key) as Hk. unfold only, nothing in Hk.
  rewrite bool_decide_eq_true_2 in Hk by done. cbn [one] in Hk.
  pose proof (fingers_bound key _ Hs Hi) as Hb. unfold activate. fold (presses key (sb_pressed self)).
  destruct (checked_add64 (presses key (sb_pressed self)) 1) as [count|] eqn:Ec.
  2: { apply checked_add64_None in Ec. unfold u64_max, u32_max in *. lia. }
  apply checked_add64_Some in Ec as [_ ->]. cbn [mbind option_bind]. eexists _, _. split; [done|]. split.
  - split.
    + by apply bt_sorted_insert.
    + intros k. destruct (decide (k = key)) as [->|Hne].
      * rewrite bt_get_insert_eq. intros [= H]. lia.
      * rewrite bt_get_insert_ne by done. apply Hpos.
    + intros k. unfold nothing, presses in *. destruct (decide (k = key)) as [->|Hne].
      * rewrite bt_get_insert_eq. cbn [from_option id]. lia.
      * rewrite bt_get_insert_ne by done. pose proof (Hsum k) as H. unfold only, nothing, presses in H.
        rewrite bool_decide_eq_false_2 in H by done. exact H.
  - rewrite bt_keys_insert. unfold presses in *. destruct (bt_get key (sb_pressed self)) as [n|] eqn:Eg; cbn [from_option id].
    + assert (n <> 0%N) by (intros ->; by apply (Hpos key)).
      assert (key ∈ bt_keys (sb_pressed self)) as Hin by (apply bt_contains_spec; unfold bt_contains; by rewrite Eg).
      destruct (N.eqb_spec (n + 1) 1); [lia|]. cbn [held]. f_equal.
      apply ascending_ext; [done|by apply ascending_add|]. intros x. rewrite elem_of_set_add. naive_solver.
    + apply held_pressed, set_contains_false. by apply bt_get_None.
Qed.

(** Counting one less. *)
Lemma deactivate_spec self key :
  counted (sb_contacts self) (sb_pressed self) (only key) nothing ->
  exists pressed ts, deactivate self key = Some (with_pressed self pressed, ts) /\
    counted (sb_contacts self) pressed nothing nothing /\
    held (bt_keys (sb_pressed self)) ts = Some (bt_keys pressed).
Proof.
  intros [Hsort Hpos Hsum]. pose proof (Hsum key) as Hk. unfold only, nothing in Hk.
  rewrite bool_decide_eq_true_2 in Hk by done. cbn [one] in Hk. unfold deactivate, presses in *.
  destruct (bt_get key (sb_pressed self)) as [n|] eqn:Eg; cbn [from_option id] in Hk; [|lia].
  assert (set_contains key (bt_keys (sb_pressed self)) = true) as Hin.
  { apply set_contains_spec, bt_contains_spec. unfold bt_contains. by rewrite Eg. }
  destruct n as [|p]; [lia|]. destruct (N.eqb_spec (N.pos p - 1) 0) as [H1|H1].
  - eexists _, _. split; [done|]. split.
    + split; [by apply bt_sorted_remove| |]; intros k; unfold presses.
      * destruct (decide (k = key)) as [->|Hne]; [by rewrite bt_get_remove_eq|].
        rewrite bt_get_remove_ne by done. apply Hpos.
      * unfold nothing. destruct (decide (k = key)) as [->|Hne].
        -- rewrite bt_get_remove_eq. cbn [from_option id]. lia.
        -- rewrite bt_get_remove_ne by done. pose proof (Hsum k) as H. unfold only, nothing in H.
           by rewrite bool_decide_eq_false_2 in H by done.
    + rewrite held_released by done. by rewrite bt_keys_remove.
  - eexists _, _. split; [done|]. split.
    + split; [by apply bt_sorted_insert| |]; intros k; unfold presses.
      * destruct (decide (k = key)) as [->|Hne]; [rewrite bt_get_insert_eq; intros [= H]; lia|].
        rewrite bt_get_insert_ne by done. apply Hpos.
      * unfold nothing. destruct (decide (k = key)) as [->|Hne].
        -- rewrite bt_get_insert_eq. cbn [from_option id]. lia.
        -- rewrite bt_get_insert_ne by done. pose proof (Hsum k) as H. unfold only, nothing in H.
           by rewrite bool_decide_eq_false_2 in H by done.
    + cbn [held]. f_equal. rewrite bt_keys_insert. apply ascending_ext; [done|by apply ascending_add|].
      intros x. rewrite elem_of_set_add. apply set_contains_spec in Hin. naive_solver.
Qed.

(** Everything is released at once. *)
Lemma held_release_all keys :
  ascending keys -> held keys (List.map (transition Released) keys) = Some [].
Proof.
  induction keys as [|key keys IH]; [done|]. intros Ha.
  assert (set_remove key (key :: keys) = keys) as Hr.
  { pose proof (ascending_NoDup _ Ha) as [Hk _]%NoDup_cons.
    apply ascending_ext; [by apply ascending_remove|apply Ha|]. intros x.
    rewrite elem_of_set_remove, elem_of_cons. naive_solver. }
  cbn [List.map held transition kt_phase kt_key].
  assert (set_contains key (key :: keys) = true) as -> by (apply set_contains_spec; left).
  rewrite Hr. apply IH, Ha.
Qed.

Lemma cancel_all_spec self :
  bar_ok self ->
  bar_ok (cancel_all self).1 /\ sb_contacts (cancel_all self).1 = [] /\ sb_pressed (cancel_all self).1 = [] /\
  held (bt_keys (sb_pressed self)) (cancel_all self).2 = Some [].
Proof.
  intros [_ _ [Hs _ _]]. split; [|split; [done|split; [done|by apply held_release_all]]].
  split; [done|constructor|]. by split.
Qed.

Lemma recount contacts contacts' pressed more less :
  counted contacts pressed nothing nothing ->
  (forall key, fingers key contacts' + more key = fingers key contacts + less key)%N ->
  counted contacts' pressed more less.
Proof.
  intros [Hs Hp Hc] H. split; [done|done|]. intros key. specialize (Hc key). specialize (H key).
  unfold nothing in Hc. lia.
Qed.

Lemma active_on_only id key bounds k active :
  one (active_on k (id, {| cn_key := key; cn_hit_bounds := bounds; cn_active := active |})) =
    (if active then only key k else 0)%N.
Proof. unfold active_on, only. cbn. by destruct active. Qed.

(** Contacts that lost, gained or changed one entry. *)
Lemma fingers_removed id state contacts k :
  bt_sorted contacts -> bt_get id contacts = Some state ->
  fingers k contacts = (one (active_on k (id, state)) + fingers k (bt_remove id contacts))%N.
Proof. intros Hs Hg. by rewrite (fingers_perm _ _ _ (bt_remove_perm _ _ _ Hs Hg)), fingers_cons. Qed.

Lemma fingers_inserted id state contacts k :
  bt_sorted contacts ->
  fingers k (bt_insert id state contacts) =
    (one (active_on k (id, state)) + fingers k (bt_remove id contacts))%N.
Proof. intros Hs. by rewrite (fingers_perm _ _ _ (bt_insert_perm id state contacts Hs)), fingers_cons. Qed.

Lemma ids_insert id (state : ContactState) contacts :
  (id <= u32_max)%N -> Forall (fun id => id < u32_max + 1)%N (bt_keys contacts) ->
  Forall (fun id => id < u32_max + 1)%N (bt_keys (bt_insert id state contacts)).
Proof.
  intros Hid Hc. rewrite bt_keys_insert. apply Forall_forall. intros x [->|Hx]%elem_of_set_add; [lia|].
  by eapply Forall_forall in Hc.
Qed.

Lemma ids_remove id (contacts : list (N * ContactState)) :
  Forall (fun id => id < u32_max + 1)%N (bt_keys contacts) ->
  Forall (fun id => id < u32_max + 1)%N (bt_keys (bt_remove id contacts)).
Proof.
  intros Hc. rewrite bt_keys_remove. apply Forall_forall. intros x [_ Hx]%elem_of_set_remove.
  by eapply Forall_forall in Hc.
Qed.

(** What every step preserves. *)
Definition step_ok (self : SystemBar) (outcome : option (SystemBar * list KeyTransition)) : Prop :=
  exists self' ts, outcome = Some (self', ts) /\ bar_ok self' /\
    held (bt_keys (sb_pressed self)) ts = Some (bt_keys (sb_pressed self')).

Lemma step_ok_idle self : bar_ok self -> step_ok self (Some (self, [])).
Proof. intros. by eexists _, _. Qed.

Lemma activate_ok self contacts key :
  bt_sorted contacts -> Forall (fun id => id < u32_max + 1)%N (bt_keys contacts) ->
  counted contacts (sb_pressed self) nothing (only key) ->
  step_ok self (activate (with_contacts self contacts) key).
Proof.
  intros Hs Hi Hc. destruct (activate_spec (with_contacts self contacts) key Hs Hi Hc) as (p & ts & -> & Hc' & Hh).
  eexists _, _. split; [done|]. by split.
Qed.

Lemma deactivate_ok self contacts key :
  bt_sorted contacts -> Forall (fun id => id < u32_max + 1)%N (bt_keys contacts) ->
  counted contacts (sb_pressed self) (only key) nothing ->
  step_ok self (deactivate (with_contacts self contacts) key).
Proof.
  intros Hs Hi Hc. destruct (deactivate_spec (with_contacts self contacts) key Hc) as (p & ts & -> & Hc' & Hh).
  eexists _, _. split; [done|]. by split.
Qed.

Lemma release_ok self id :
  bar_ok self ->
  step_ok self
    match bt_get id (sb_contacts self) with
    | None => Some (self, [])
    | Some state =>
        let self := with_contacts self (bt_remove id (sb_contacts self)) in
        if cn_active state then deactivate self (cn_key state) else Some (self, [])
    end.
Proof.
  intros Hb. pose proof Hb as [Hs Hi Hc]. destruct (bt_get id (sb_contacts self)) as [[key bounds active]|] eqn:Eg;
    [|by apply step_ok_idle]. cbn.
  pose proof (fun k => fingers_removed id _ _ k Hs Eg) as Hf. setoid_rewrite active_on_only in Hf.
  pose proof (bt_sorted_remove id _ Hs) as Hs'. pose proof (ids_remove id _ Hi) as Hi'. destruct active.
  - apply deactivate_ok; [done|done|]. apply (recount _ _ _ _ _ Hc). intros k. rewrite Hf. unfold nothing. lia.
  - eexists _, _. split; [done|]. split; [|done]. split; [done|done|]. apply (recount _ _ _ _ _ Hc).
    intros k. rewrite Hf. done.
Qed.

Lemma handle_touch_ok self event :
  bar_ok self -> (te_contact_id event <= u32_max)%N -> step_ok self (handle_touch self event).
Proof.
  intros Hb Hid. pose proof Hb as [Hs Hi Hc]. unfold handle_touch.
  destruct (te_phase event); [| |by apply release_ok..].
  - destruct (bt_contains _ _) eqn:Ec; [by apply step_ok_idle|]. apply bt_contains_false in Ec.
    destruct (List.find _ _) as [b|]; [|by apply step_ok_idle].
    apply activate_ok; [by apply bt_sorted_insert|by apply ids_insert|]. apply (recount _ _ _ _ _ Hc).
    intros k. rewrite fingers_inserted, bt_remove_fresh, active_on_only by done. unfold nothing. lia.
  - destruct (bt_get _ _) as [[key bounds active]|] eqn:Eg; [|by apply step_ok_idle]. cbn [cn_active cn_key cn_hit_bounds].
    destruct (Bool.eqb _ active) eqn:Ea; [by apply step_ok_idle|]. apply eqb_false_iff in Ea.
    pose proof (fun k => fingers_removed _ _ _ k Hs Eg) as Hf. setoid_rewrite active_on_only in Hf.
    destruct (contains _ _ _), active; try done;
      [apply activate_ok|apply deactivate_ok]; try (by apply bt_sorted_insert); try (by apply ids_insert);
      apply (recount _ _ _ _ _ Hc); intros k; rewrite fingers_inserted, Hf, active_on_only by done;
      unfold nothing; lia.
Qed.

Lemma set_fn_override_ok self layer : bar_ok self -> step_ok self (Some (set_fn_override self layer)).
Proof.
  intros Hb. unfold set_fn_override. destruct (_ && _); [by apply step_ok_idle|].
  pose proof (cancel_all_spec self Hb) as ([Hs Hi Hc] & H1 & H2 & Hh).
  destruct (cancel_all self) as [bar ts] eqn:E. cbn in *.
  eexists _, _. split; [done|]. split; [by split|]. cbn. by rewrite Hh, H2.
Qed.

Lemma bar_step_ok self step : bar_ok self -> step_in_range step -> step_ok self (bar_step self step).
Proof.
  intros Hb Hr. destruct step as [event|pressed|layer|]; cbn [bar_step].
  - by apply handle_touch_ok.
  - by apply set_fn_override_ok.
  - by apply set_fn_override_ok.
  - pose proof (cancel_all_spec self Hb) as (Hb' & _ & Hp & Hh). eexists _, _.
    split; [by rewrite <- surjective_pairing|]. by rewrite Hh, Hp.
Qed.

Lemma bar_new_ok layer width height : bar_ok (bar_new layer width height).
Proof. split; [done|constructor|]. by split. Qed.

(** C38: Whatever is touched, and however the Fn key and the layers change, the
    bar never panics; no key is pressed twice or released without being
    pressed; the keys its transitions leave held are exactly those a finger
    is on; and cancelling releases all of them. *)
Theorem system_bar_balanced (layer : SystemLayer) (width height : float) (steps : list BarStep)
  (Hsteps : Forall step_in_range steps) :
  exists self transitions, bar_run (bar_new layer width height) steps = Some (self, transitions) /\
    held [] transitions = Some (bt_keys (sb_pressed self)) /\
    (forall key, key ∈ bt_keys (sb_pressed self) <->
      exists id state, bt_get id (sb_contacts self) = Some state /\ cn_active state = true /\ cn_key state = key) /\
    held [] (transitions ++ (cancel_all self).2) = Some [].
Proof.
  assert (forall self, bar_ok self -> exists self' ts, bar_run self steps = Some (self', ts) /\ bar_ok self' /\
    held (bt_keys (sb_pressed self)) ts = Some (bt_keys (sb_pressed self'))) as H.
  { induction Hsteps as [|step steps Hr _ IH]; intros self Hb; [by eexists _, _|].
    destruct (bar_step_ok self step Hb Hr) as (self1 & ts1 & E1 & Hb1 & Hh1).
    destruct (IH self1 Hb1) as (self2 & ts2 & E2 & Hb2 & Hh2). cbn [bar_run]. rewrite E1. cbn [mbind option_bind].
    rewrite E2. cbn [mbind option_bind]. eexists _, _. split; [done|]. split; [done|].
    by rewrite held_app, Hh1. }
  destruct (H _ (bar_new_ok layer width height)) as (self & ts & E & Hb & Hh). clear H.
  exists self, ts. split; [done|]. split; [done|]. split.
  - intros key. pose proof Hb as [Hs _ [_ Hpos Hsum]]. specialize (Hsum key). unfold nothing, presses in Hsum.
    rewrite <- bt_contains_spec. unfold bt_contains. split.
    + destruct (bt_get key (sb_pressed self)) as [n|] eqn:Eg; [|done]. intros _. cbn in Hsum.
      assert (n <> 0%N) by (intros ->; by apply (Hpos key)). unfold fingers in Hsum.
      destruct (List.filter (active_on key) (sb_contacts self)) as [|[id state] l] eqn:Ef.
      { unfold len in Hsum. simpl in Hsum. lia. }
      assert (In (id, state) (List.filter (active_on key) (sb_contacts self))) as Hin by (rewrite Ef; by left).
      apply filter_In in Hin as [Hin Ha]. unfold active_on in Ha. cbn in Ha. b2p.
      exists id, state. split; [|done]. apply elem_bt_get; [done|]. by apply list_elem_of_In.
    + intros (id & state & Hg & Ha & Hk). rewrite (fingers_removed id state _ key Hs Hg) in Hsum.
      assert (active_on key (id, state) = true) as Hon by (unfold active_on; cbn; rewrite Ha; by apply bool_decide_eq_true_2).
      rewrite Hon in Hsum. cbn [one] in Hsum. destruct (bt_get key (sb_pressed self)); [done|]. cbn in Hsum. lia.
  - change [] with (bt_keys (sb_pressed (bar_new layer width height))) at 1.
    rewrite held_app, Hh. cbn [mbind option_bind]. by apply cancel_all_spec.
Qed.

Definition touch_at (phase : TouchPhase) (id : N) (x : Z) : BarStep :=
  TouchStep {| te_phase := phase; te_contact_id := id; te_time_ms := 0;
               te_x_millipixels := x; te_y_millipixels := 30000 |}.

(** Two fingers on one key, one leaving it and coming back, then Fn. *)
Definition two_fingers : list BarStep :=
  [touch_at TouchDown 1 1000; touch_at TouchDown 2 2000; touch_at TouchUp 1 1000;
   touch_at TouchMotion 2 170000; touch_at TouchMotion 2 3000; FnStep true; touch_at TouchUp 2 3000;
   touch_at TouchDown 3 2000000].

Example two_fingers_transitions :
  snd <$> bar_run reference_bar two_fingers =
    Some [transition Pressed BrightnessDown; transition Released BrightnessDown;
          transition Pressed BrightnessDown; transition Released BrightnessDown;
          transition Pressed F12].
Proof. vm_compute. reflexivity. Qed.

Lemma system_bar_balanced_witness :
  Forall step_in_range two_fingers /\
  exists self transitions, bar_run reference_bar two_fingers = Some (self, transitions) /\
    held [] transitions = Some [F12] /\ held [] (transitions ++ (cancel_all self).2) = Some [].
Proof.
  assert (Forall step_in_range two_fingers) as H.
  { repeat (constructor; [vm_compute; first [discriminate|exact I]|]). constructor. }
  split; [exact H|].
  destruct (system_bar_balanced Media (F32.of_Z 2008) (F32.of_Z 60) two_fingers H)
    as (self & transitions & Hrun & Hheld & _ & Hrel).
  exists self, transitions. split; [exact Hrun|]. split; [|exact Hrel].
  change (bar_new Media (F32.of_Z 2008) (F32.of_Z 60)) with reference_bar in Hrun.
  assert (bt_keys (sb_pressed self) = [F12]) as Hk.
  { vm_compute in Hrun. injection Hrun as <- _. reflexivity. }
  rewrite <- Hk. exact Hheld.
Defined.
