(* ===== verification/Touch.v ===== *)
(** * Touch: from kernel events to contacts

    Models the touch half of [crates/touchbard/src/main.rs]: [TouchInput], the
    decoder of the multitouch protocol with its [f64] coordinate mapping, and
    [WakeContacts], which hides the finger that wakes a dark panel.  What a
    [read] returned and the milliseconds since the start are arguments; a panic
    is [None]. *)

From S2P Require Import Prelude BTree Text Payload Hardware Float Bar.
From Stdlib Require String.

Definition EV_SYN : N := 0.
Definition EV_ABS : N := 3.
Definition SYN_REPORT : N := 0.
Definition SYN_DROPPED : N := 3.
Definition ABS_MT_SLOT : N := 47.
Definition ABS_MT_POSITION_X : N := 53.
Definition ABS_MT_POSITION_Y : N := 54.
Definition ABS_MT_TRACKING_ID : N := 57.

(** ** State *)

Record LinuxInputEvent := { ev_kind : N; ev_code : N; ev_value : Z }.
Record InputAbsInfo := { ax_minimum : Z; ax_maximum : Z }.

Record TouchSlot := {
  ts_contact_id : option N;
  ts_x : Z;
  ts_y : Z;
  ts_pending : option TouchPhase;
}.
Definition empty_slot : TouchSlot :=
  {| ts_contact_id := None; ts_x := 0; ts_y := 0; ts_pending := None |}.

Record TouchInput := {
  ti_x_axis : InputAbsInfo;
  ti_y_axis : InputAbsInfo;
  ti_current_slot : nat;
  ti_slots : list TouchSlot;
  ti_display_width : N;
  ti_display_height : N;
  ti_scene_width : N;
  ti_scene_height : N;
}.

Definition with_slots (self : TouchInput) (slots : list TouchSlot) : TouchInput :=
  {| ti_x_axis := ti_x_axis self; ti_y_axis := ti_y_axis self; ti_current_slot := ti_current_slot self;
     ti_slots := slots; ti_display_width := ti_display_width self;
     ti_display_height := ti_display_height self; ti_scene_width := ti_scene_width self;
     ti_scene_height := ti_scene_height self |}.
Definition with_current_slot (self : TouchInput) (slot : nat) : TouchInput :=
  {| ti_x_axis := ti_x_axis self; ti_y_axis := ti_y_axis self; ti_current_slot := slot;
     ti_slots := ti_slots self; ti_display_width := ti_display_width self;
     ti_display_height := ti_display_height self; ti_scene_width := ti_scene_width self;
     ti_scene_height := ti_scene_height self |}.

(** [a - b] in [i32]: overflow is a panic. *)
Definition sub_i32 (a b : Z) : option Z :=
  if ((- 2 ^ 31 <=? a - b) && (a - b <? 2 ^ 31))%Z then Some (a - b)%Z else None.

Inductive TouchError :=
| InvalidAxisRange (axis : N)
| InvalidSlotRange
| UnsupportedSlotCount (count : N)
| DeviceClosed
| PartialEvent
| ReadFailed.

(** The check of [query_abs_axis] on what the kernel reported. *)
Definition query_abs_axis (axis : N) (info : InputAbsInfo) : result TouchError InputAbsInfo :=
  _ ← reject_if (ax_maximum info <=? ax_minimum info)%Z (InvalidAxisRange axis);
  Ok info.

(** [TouchInput::open], given the three axes the device reports. *)
Definition open_input (display_width display_height scene_width scene_height : N)
  (x_info y_info slot_info : InputAbsInfo) : option (result TouchError TouchInput) :=
  let axes :=
    x ← query_abs_axis ABS_MT_POSITION_X x_info;
    y ← query_abs_axis ABS_MT_POSITION_Y y_info;
    slots ← query_abs_axis ABS_MT_SLOT slot_info;
    Ok (x, y, slots) in
  match axes with
  | Err error => Some (Err error)
  | Ok (x_axis, y_axis, slot_axis) =>
      range ← sub_i32 (ax_maximum slot_axis) (ax_minimum slot_axis);
      count ← sub_i32 range (-1);
      Some (
        if (count <? 0)%Z then Err InvalidSlotRange
        else if (count =? 0)%Z || (1024 <? count)%Z then Err (UnsupportedSlotCount (Z.to_N count))
        else Ok {| ti_x_axis := x_axis; ti_y_axis := y_axis; ti_current_slot := 0;
                   ti_slots := replicate (Z.to_nat count) empty_slot;
                   ti_display_width := display_width; ti_display_height := display_height;
                   ti_scene_width := scene_width; ti_scene_height := scene_height |})
  end.

(** ** Coordinates *)

Definition normalize_axis (value : Z) (axis : InputAbsInfo) (extent : N) : option float :=
  let clamped := Z.max (ax_minimum axis) (Z.min (ax_maximum axis) value) in
  position ← sub_i32 clamped (ax_minimum axis);
  range ← sub_i32 (ax_maximum axis) (ax_minimum axis);
  Some (F64.mul (F64.div (F64.of_Z position) (F64.of_Z range)) (F64.of_Z (Z.of_N (sat_sub extent 1)))).

Definition transform (self : TouchInput) (x y : Z) : option (Z * Z) :=
  display_x ← normalize_axis x (ti_x_axis self) (ti_display_width self);
  display_y ← normalize_axis y (ti_y_axis self) (ti_display_height self);
  let centre (display scene : N) :=
    F64.div (F64.sub (F64.of_Z (Z.of_N display)) (F64.of_Z (Z.of_N scene))) (F64.of_Z 2) in
  let scene_left := centre (ti_display_width self) (ti_scene_width self) in
  let scene_top := centre (ti_display_height self) (ti_scene_height self) in
  Some (to_i32 (F64.round (F64.mul (F64.sub display_x scene_left) (F64.of_Z 1000))),
        to_i32 (F64.round (F64.mul (F64.sub display_y scene_top) (F64.of_Z 1000)))).

(** ** Frames *)

Definition touch_event (self : TouchInput) (time_ms : N) (slot : TouchSlot) (phase : TouchPhase)
  (contact_id : N) : option TouchEvent :=
  '(x, y) ← transform self (ts_x slot) (ts_y slot);
  Some {| te_phase := phase; te_contact_id := contact_id; te_time_ms := time_ms;
          te_x_millipixels := x; te_y_millipixels := y |}.

(** One slot at the end of a frame: what it becomes and what it reports. *)
Definition flush_slot (self : TouchInput) (time_ms : N) (slot : TouchSlot)
  : option (TouchSlot * list TouchEvent) :=
  match ts_pending slot with
  | None => Some (slot, [])
  | Some phase =>
      let taken := {| ts_contact_id := ts_contact_id slot; ts_x := ts_x slot; ts_y := ts_y slot;
                      ts_pending := None |} in
      match ts_contact_id slot with
      | None => Some (taken, [])
      | Some contact_id =>
          event ← touch_event self time_ms slot phase contact_id;
          let ended := {| ts_contact_id := None; ts_x := ts_x slot; ts_y := ts_y slot;
                          ts_pending := None |} in
          Some (if bool_decide (phase = TouchUp) then ended else taken, [event])
      end
  end.

(** One slot when the kernel dropped events. *)
Definition cancel_slot (self : TouchInput) (time_ms : N) (slot : TouchSlot)
  : option (TouchSlot * list TouchEvent) :=
  match ts_contact_id slot with
  | None => Some (slot, [])
  | Some contact_id =>
      event ← touch_event self time_ms slot TouchCancel contact_id;
      Some ({| ts_contact_id := None; ts_x := ts_x slot; ts_y := ts_y slot; ts_pending := None |}, [event])
  end.

(** [for index in 0..self.slots.len()]: the slots in order. *)
Fixpoint each_slot (f : TouchSlot -> option (TouchSlot * list TouchEvent)) (slots : list TouchSlot)
  : option (list TouchSlot * list TouchEvent) :=
  match slots with
  | [] => Some ([], [])
  | slot :: slots' =>
      '(slot, events) ← f slot;
      '(slots', more) ← each_slot f slots';
      Some (slot :: slots', events ++ more)
  end.

Definition flush_frame (self : TouchInput) (time_ms : N) : option (TouchInput * list TouchEvent) :=
  '(slots, events) ← each_slot (flush_slot self time_ms) (ti_slots self);
  Some (with_slots self slots, events).
Definition input_cancel_all (self : TouchInput) (time_ms : N) : option (TouchInput * list TouchEvent) :=
  '(slots, events) ← each_slot (cancel_slot self time_ms) (ti_slots self);
  Some (with_slots self slots, events).

(** [let slot = &mut self.slots[self.current_slot]; ..]. *)
Definition update_slot (self : TouchInput) (f : TouchSlot -> TouchSlot) : option TouchInput :=
  slot ← ti_slots self !! ti_current_slot self;
  Some (with_slots self (<[ti_current_slot self := f slot]> (ti_slots self))).

Definition track (value : Z) (slot : TouchSlot) : TouchSlot :=
  if (value <? 0)%Z then
    match ts_contact_id slot with
    | Some _ => {| ts_contact_id := ts_contact_id slot; ts_x := ts_x slot; ts_y := ts_y slot;
                   ts_pending := Some TouchUp |}
    | None => slot
    end
  else {| ts_contact_id := Some (Z.to_N value); ts_x := ts_x slot; ts_y := ts_y slot;
          ts_pending := Some TouchDown |}.

Definition moved (slot : TouchSlot) : option TouchPhase :=
  match ts_contact_id slot, ts_pending slot with
  | Some _, None => Some TouchMotion
  | _, pending => pending
  end.
Definition move_x (value : Z) (slot : TouchSlot) : TouchSlot :=
  {| ts_contact_id := ts_contact_id slot; ts_x := value; ts_y := ts_y slot; ts_pending := moved slot |}.
Definition move_y (value : Z) (slot : TouchSlot) : TouchSlot :=
  {| ts_contact_id := ts_contact_id slot; ts_x := ts_x slot; ts_y := value; ts_pending := moved slot |}.

Definition process_event (self : TouchInput) (time_ms : N) (event : LinuxInputEvent)
  : option (TouchInput * list TouchEvent) :=
  let value := ev_value event in
  let silent (o : option TouchInput) := self ← o; Some (self, []) in
  if (ev_kind event =? EV_ABS)%N then
    if (ev_code event =? ABS_MT_SLOT)%N then
      silent (Some (if (0 <=? value)%Z && (value <? Z.of_nat (length (ti_slots self)))%Z
                    then with_current_slot self (Z.to_nat value) else self))
    else if (ev_code event =? ABS_MT_TRACKING_ID)%N then silent (update_slot self (track value))
    else if (ev_code event =? ABS_MT_POSITION_X)%N then silent (update_slot self (move_x value))
    else if (ev_code event =? ABS_MT_POSITION_Y)%N then silent (update_slot self (move_y value))
    else Some (self, [])
  else if (ev_kind event =? EV_SYN)%N then
    if (ev_code event =? SYN_REPORT)%N then flush_frame self time_ms
    else if (ev_code event =? SYN_DROPPED)%N then input_cancel_all self time_ms
    else Some (self, [])
  else Some (self, []).

Fixpoint process_events (self : TouchInput) (events : list (N * LinuxInputEvent))
  : option (TouchInput * list TouchEvent) :=
  match events with
  | [] => Some (self, [])
  | (time_ms, event) :: events' =>
      '(self, output) ← process_event self time_ms event;
      '(self, more) ← process_events self events';
      Some (self, output ++ more)
  end.

(** What [read] returned: a number of bytes and the records they hold, each
    with the time at which it is processed. *)
Inductive ReadResult :=
| ReadBytes (bytes : N) (events : list (N * LinuxInputEvent))
| ReadWouldBlock
| ReadError.

(** The size of a [LinuxInputEvent]. *)
Definition EVENT_SIZE : N := 24.

(** The read loop: it ends when the device would block; an error keeps the
    state and drops the output. *)
Fixpoint read_events (self : TouchInput) (reads : list ReadResult) (output : list TouchEvent)
  : option (TouchInput * result TouchError (list TouchEvent)) :=
  match reads with
  | [] | ReadWouldBlock :: _ => Some (self, Ok output)
  | ReadError :: _ => Some (self, Err ReadFailed)
  | ReadBytes bytes events :: reads' =>
      if (bytes =? 0)%N then Some (self, Err DeviceClosed)
      else if negb (bytes mod EVENT_SIZE =? 0)%N then Some (self, Err PartialEvent)
      else
        '(self, more) ← process_events self (take (N.to_nat (bytes / EVENT_SIZE)) events);
        read_events self reads' (output ++ more)
  end.

(** ** Waking contacts *)

Definition ends (event : TouchEvent) : bool :=
  match te_phase event with TouchUp | TouchCancel => true | _ => false end.

(** [WakeContacts::consume]: the hidden contacts and whether the event is. *)
Definition consume (contacts : list N) (event : TouchEvent) (woke_panel : bool) : list N * bool :=
  let id := te_contact_id event in
  if woke_panel then
    (if ends event then set_remove id contacts else set_add id contacts, true)
  else if negb (set_contains id contacts) then (contacts, false)
  else (if ends event then set_remove id contacts else contacts, true).

(** The loop over one batch: the events that are delivered. *)
Fixpoint deliver (contacts : list N) (woke_panel : bool) (events : list TouchEvent)
  : list N * list TouchEvent :=
  match events with
  | [] => (contacts, [])
  | event :: events' =>
      let '(contacts, consumed) := consume contacts event woke_panel in
      let '(contacts, delivered) := deliver contacts woke_panel events' in
      (contacts, if consumed then delivered else event :: delivered)
  end.
Fixpoint deliver_batches (contacts : list N) (batches : list (bool * list TouchEvent))
  : list N * list TouchEvent :=
  match batches with
  | [] => (contacts, [])
  | (woke_panel, events) :: batches' =>
      let '(contacts, delivered) := deliver contacts woke_panel events in
      let '(contacts, more) := deliver_batches contacts batches' in
      (contacts, delivered ++ more)
  end.

Definition test_input : TouchInput :=
  {| ti_x_axis := {| ax_minimum := 0; ax_maximum := 23044 |};
     ti_y_axis := {| ax_minimum := 0; ax_maximum := 639 |};
     ti_current_slot := 0; ti_slots := replicate 4 empty_slot; ti_display_width := 2008;
     ti_display_height := 60; ti_scene_width := 1004; ti_scene_height := 60 |}.

Example maps_the_sensor :
  transform test_input 0 0 = Some (-502000, 0)%Z /\
  transform test_input 23044 639 = Some (1505000, 59000)%Z.
Proof. vm_compute. done. Qed.

(** * Theorems *)

(** ** The lifecycle of contacts *)

(** For a receiver of the events alone: the contacts that are down after a
    stream; [None] when one goes down twice, or moves or is lifted without
    being down.  A cancellation of a contact that is not down is ignored. *)
Fixpoint tracks (live : list N) (events : list TouchEvent) : option (list N) :=
  match events with
  | [] => Some live
  | event :: events' =>
      let id := te_contact_id event in
      match te_phase event with
      | TouchDown => if set_contains id live then None else tracks (set_add id live) events'
      | TouchMotion => if set_contains id live then tracks live events' else None
      | TouchUp => if set_contains id live then tracks (set_remove id live) events' else None
      | TouchCancel => tracks (set_remove id live) events'
      end
  end.

Lemma tracks_app live l k : tracks live (l ++ k) = (live ← tracks live l; tracks live k).
Proof.
  revert live; induction l as [|event l IH]; intros live; cbn; [done|].
  destruct (te_phase event), (set_contains (te_contact_id event) live); cbn; done.
Qed.

Lemma tracks_ascending live events live' :
  ascending live -> tracks live events = Some live' -> ascending live'.
Proof.
  revert live; induction events as [|event events IH]; intros live Ha; cbn; [by intros [= <-]|].
  destruct (te_phase event), (set_contains (te_contact_id event) live); try done; apply IH;
    by (apply ascending_add || apply ascending_remove || idtac).
Qed.

(** What the kernel and the decoder have said of contacts: those the kernel has
    begun that were not reported yet, and those that are down. *)
Record Lives := { lv_begun : list N; lv_down : list N }.

(** [None] when a contact goes down that was not begun or is down, one moves
    or is lifted that is not down, or one is cancelled that is neither begun
    nor down: every beginning is used up by one Down or one Cancel, and every
    Down by one Up or one Cancel. *)
Definition live_event (t : Lives) (event : TouchEvent) : option Lives :=
  let id := te_contact_id event in
  match te_phase event with
  | TouchDown =>
      if set_contains id (lv_begun t) && negb (set_contains id (lv_down t))
      then Some {| lv_begun := set_remove id (lv_begun t); lv_down := set_add id (lv_down t) |} else None
  | TouchMotion => if set_contains id (lv_down t) then Some t else None
  | TouchUp =>
      if set_contains id (lv_down t)
      then Some {| lv_begun := lv_begun t; lv_down := set_remove id (lv_down t) |} else None
  | TouchCancel =>
      if set_contains id (lv_begun t) || set_contains id (lv_down t)
      then Some {| lv_begun := set_remove id (lv_begun t); lv_down := set_remove id (lv_down t) |} else None
  end.
Fixpoint live_events (t : Lives) (events : list TouchEvent) : option Lives :=
  match events with
  | [] => Some t
  | event :: events' => t ← live_event t event; live_events t events'
  end.

(** The contact the kernel begins with an event. *)
Definition begins (event : LinuxInputEvent) : option N :=
  if (ev_kind event =? EV_ABS)%N && (ev_code event =? ABS_MT_TRACKING_ID)%N && (0 <=? ev_value event)%Z
  then Some (Z.to_N (ev_value event)) else None.
Definition begin (t : Lives) (new : option N) : Lives :=
  match new with
  | Some id => {| lv_begun := set_add id (lv_begun t); lv_down := lv_down t |}
  | None => t
  end.
(** The contacts after the kernel's events and what the decoder makes of each. *)
Fixpoint lifecycle (t : Lives) (self : TouchInput) (events : list (N * LinuxInputEvent)) : option Lives :=
  match events with
  | [] => Some t
  | (time_ms, event) :: events' =>
      '(self, output) ← process_event self time_ms event;
      t ← live_events (begin t (begins event)) output;
      lifecycle t self events'
  end.

Lemma live_events_app t l k : live_events t (l ++ k) = (t ← live_events t l; live_events t k).
Proof. revert t; induction l as [|event l IH]; intros t; cbn; [done|]. destruct (live_event t event); [apply IH|done]. Qed.

(** A receiver sees no more wrong than that. *)
Lemma live_events_tracks t events t' :
  live_events t events = Some t' -> tracks (lv_down t) events = Some (lv_down t').
Proof.
  revert t; induction events as [|event events IH]; intros t; cbn; [by intros [= <-]|]. unfold live_event.
  destruct (te_phase event), (set_contains (te_contact_id event) (lv_begun t)),
    (set_contains (te_contact_id event) (lv_down t)); cbn; try done; apply IH.
Qed.

Definition lives_ok (t : Lives) : Prop := ascending (lv_begun t) /\ ascending (lv_down t).
Lemma live_events_ok t events t' : lives_ok t -> live_events t events = Some t' -> lives_ok t'.
Proof.
  revert t; induction events as [|event events IH]; intros t Ht; cbn; [by intros [= <-]|].
  destruct (live_event t event) as [t1|] eqn:E; [|done]. cbn. apply IH. unfold live_event in E. destruct Ht.
  destruct (te_phase event), (set_contains (te_contact_id event) (lv_begun t)),
    (set_contains (te_contact_id event) (lv_down t)); try done; injection E as <-; split; cbn;
    by repeat (apply ascending_add || apply ascending_remove).
Qed.

Definition axis_ok (axis : InputAbsInfo) : Prop :=
  (- 2 ^ 31 <= ax_minimum axis /\ ax_minimum axis < ax_maximum axis /\
   ax_maximum axis - ax_minimum axis < 2 ^ 31)%Z.

Lemma normalize_axis_total value axis extent : axis_ok axis -> normalize_axis value axis extent <> None.
Proof.
  intros (Hl & Hm & Hr). unfold normalize_axis, sub_i32.
  set (c := Z.max _ _). assert (0 <= c - ax_minimum axis < 2 ^ 31)%Z as Hc by lia.
  assert (((- 2 ^ 31 <=? c - ax_minimum axis) && (c - ax_minimum axis <? 2 ^ 31))%Z = true) as ->
    by (apply andb_true_iff; lia).
  assert (((- 2 ^ 31 <=? ax_maximum axis - ax_minimum axis) && (ax_maximum axis - ax_minimum axis <? 2 ^ 31))%Z
          = true) as -> by (apply andb_true_iff; lia).
  done.
Qed.

Lemma touch_event_total self time_ms slot phase id :
  axis_ok (ti_x_axis self) -> axis_ok (ti_y_axis self) ->
  exists event, touch_event self time_ms slot phase id = Some event /\
    te_phase event = phase /\ te_contact_id event = id.
Proof.
  intros Hx Hy. unfold touch_event, transform.
  pose proof (normalize_axis_total (ts_x slot) _ (ti_display_width self) Hx) as H1.
  pose proof (normalize_axis_total (ts_y slot) _ (ti_display_height self) Hy) as H2.
  destruct (normalize_axis (ts_x slot) _ _); [|done]. destruct (normalize_axis (ts_y slot) _ _); [|done].
  cbn [mbind option_bind]. by eexists.
Qed.

(** The contacts of the slots, and the contact of a slot that was reported or
    is new in this frame. *)
Definition contact_ids (slots : list TouchSlot) : list N := omap ts_contact_id slots.
Definition reported (slot : TouchSlot) (id : N) : Prop :=
  ts_contact_id slot = Some id /\ ts_pending slot <> Some TouchDown.

Definition fresh (slot : TouchSlot) (id : N) : Prop :=
  ts_contact_id slot = Some id /\ ts_pending slot = Some TouchDown.

Record slot_ok (slot : TouchSlot) : Prop := {
  slot_idle : ts_contact_id slot = None -> ts_pending slot = None;
  slot_pending : ts_pending slot <> Some TouchCancel;
}.

Record input_ok (t : Lives) (self : TouchInput) : Prop := {
  input_x : axis_ok (ti_x_axis self);
  input_y : axis_ok (ti_y_axis self);
  input_current : (ti_current_slot self < length (ti_slots self))%nat;
  input_slots : Forall slot_ok (ti_slots self);
  input_distinct : NoDup (contact_ids (ti_slots self));
  input_ascending : lives_ok t;
  input_down : forall id, id ∈ lv_down t <-> exists slot, slot ∈ ti_slots self /\ reported slot id;
  input_begun : forall id, id ∈ lv_begun t <-> exists slot, slot ∈ ti_slots self /\ fresh slot id;
}.

Lemma elem_of_contact_ids id slots :
  id ∈ contact_ids slots <-> exists slot, slot ∈ slots /\ ts_contact_id slot = Some id.
Proof. unfold contact_ids. rewrite list_elem_of_omap. naive_solver. Qed.

(** What one slot does at the end of a frame, or when it is cancelled. *)
Record slot_step (slot slot' : TouchSlot) (events : list TouchEvent) : Prop := {
  step_slot : slot_ok slot' /\ ts_pending slot' = None;
  step_contact : ts_contact_id slot' = None \/ ts_contact_id slot' = ts_contact_id slot;
  step_lives : forall t,
    (forall id, ts_contact_id slot = Some id ->
       (id ∈ lv_down t <-> reported slot id) /\ (id ∈ lv_begun t <-> fresh slot id)) ->
    exists t', live_events t events = Some t' /\
      forall id, (id ∈ lv_down t' <-> (if bool_decide (ts_contact_id slot = Some id)
                                      then ts_contact_id slot' = Some id else id ∈ lv_down t)) /\
        (id ∈ lv_begun t' <-> ts_contact_id slot <> Some id /\ id ∈ lv_begun t);
}.

Lemma flush_slot_step self time_ms slot :
  axis_ok (ti_x_axis self) -> axis_ok (ti_y_axis self) -> slot_ok slot ->
  exists slot' events, flush_slot self time_ms slot = Some (slot', events) /\ slot_step slot slot' events.
Proof.
  intros Hx Hy [Hidle Hcancel]. destruct slot as [[id|] x y [phase|]]; unfold flush_slot;
    cbn [ts_pending ts_contact_id] in *.
  - destruct (touch_event_total self time_ms
      {| ts_contact_id := Some id; ts_x := x; ts_y := y; ts_pending := Some phase |} phase id Hx Hy)
      as (event & -> & Hp & Hi). cbn [mbind option_bind]. eexists _, _. split; [done|].
    split.
    + by case_bool_decide.
    + case_bool_decide; [by left|by right].
    + intros t Hl. specialize (Hl id eq_refl) as [Hd Hb]. unfold reported, fresh in *. cbn [ts_contact_id ts_pending] in *.
      cbn [live_events]. unfold live_event. rewrite Hp, Hi. destruct phase; try done.
      * assert (id ∉ lv_down t) as Hn by naive_solver. assert (id ∈ lv_begun t) as Hn' by naive_solver.
        apply set_contains_false in Hn as ->. apply set_contains_spec in Hn' as ->. cbn.
        eexists; split; [done|]. intros i. cbn. rewrite elem_of_set_add, elem_of_set_remove. case_bool_decide; naive_solver.
      * assert (id ∈ lv_down t) as Hn by naive_solver. apply set_contains_spec in Hn as ->. cbn.
        eexists; split; [done|]. intros i. case_bool_decide; naive_solver.
      * assert (id ∈ lv_down t) as Hn by naive_solver. apply set_contains_spec in Hn as ->. cbn.
        eexists; split; [done|]. intros i. cbn. rewrite elem_of_set_remove. case_bool_decide; naive_solver.
  - eexists _, _. split; [done|]. split; [by split|by right|].
    intros t Hl. exists t. split; [done|]. intros i. specialize (Hl i). unfold reported, fresh in Hl.
    cbn [ts_contact_id ts_pending] in *. case_bool_decide; naive_solver.
  - by specialize (Hidle eq_refl).
  - eexists _, _. split; [done|]. split; [by split|by left|]. intros t Hl. exists t. split; [done|].
    intros i. case_bool_decide; naive_solver.
Qed.

Lemma cancel_slot_step self time_ms slot :
  axis_ok (ti_x_axis self) -> axis_ok (ti_y_axis self) -> slot_ok slot ->
  exists slot' events, cancel_slot self time_ms slot = Some (slot', events) /\ slot_step slot slot' events.
Proof.
  intros Hx Hy [Hidle Hcancel]. destruct slot as [[id|] x y pending]; unfold cancel_slot;
    cbn [ts_pending ts_contact_id] in *.
  - destruct (touch_event_total self time_ms
      {| ts_contact_id := Some id; ts_x := x; ts_y := y; ts_pending := pending |} TouchCancel id Hx Hy)
      as (event & -> & Hp & Hi). cbn [mbind option_bind]. eexists _, _. split; [done|]. split; [by split|by left|].
    intros t Hl. specialize (Hl id eq_refl) as [Hd Hb]. unfold reported, fresh in *. cbn [ts_contact_id ts_pending] in *.
    cbn [live_events]. unfold live_event. rewrite Hp, Hi.
    assert (set_contains id (lv_begun t) || set_contains id (lv_down t) = true) as ->.
    { apply orb_true_iff. rewrite !set_contains_spec, Hd, Hb. destruct (decide (pending = Some TouchDown)); naive_solver. }
    cbn. eexists; split; [done|]. intros i. cbn. rewrite !elem_of_set_remove. case_bool_decide; naive_solver.
  - rewrite Hidle by done. eexists _, _. split; [done|]. split; [by split|by left|].
    intros t Hl. exists t. split; [done|]. intros i. case_bool_decide; naive_solver.
Qed.

Lemma contact_ids_cons slot slots :
  contact_ids (slot :: slots) =
    match ts_contact_id slot with Some id => [id] | None => [] end ++ contact_ids slots.
Proof. unfold contact_ids. cbn. by destruct (ts_contact_id slot). Qed.

Lemma each_slot_ok f slots t :
  (forall slot, slot_ok slot -> exists slot' events, f slot = Some (slot', events) /\ slot_step slot slot' events) ->
  Forall slot_ok slots -> NoDup (contact_ids slots) ->
  (forall id, id ∈ contact_ids slots ->
     (id ∈ lv_down t <-> exists slot, slot ∈ slots /\ reported slot id) /\
     (id ∈ lv_begun t <-> exists slot, slot ∈ slots /\ fresh slot id)) ->
  exists slots' events t', each_slot f slots = Some (slots', events) /\
    live_events t events = Some t' /\ length slots' = length slots /\
    Forall (fun slot => slot_ok slot /\ ts_pending slot = None) slots' /\
    (contact_ids slots' `sublist_of` contact_ids slots) /\
    forall id, (id ∈ lv_down t' <-> id ∈ contact_ids slots' \/ ((id ∉ contact_ids slots) /\ id ∈ lv_down t)) /\
      (id ∈ lv_begun t' <-> (id ∉ contact_ids slots) /\ id ∈ lv_begun t).
Proof.
  intros Hf Hok. revert t. induction Hok as [|slot slots Hs _ IH]; intros t Hnd Hl; cbn [each_slot].
  { eexists _, _, t. split; [done|]. split; [done|]. split; [done|]. split; [constructor|]. split; [constructor|].
    intros id. set_solver. }
  destruct (Hf slot Hs) as (slot' & events & -> & [Hslot Hcontact Hlives]). cbn [mbind option_bind].
  rewrite contact_ids_cons in Hnd, Hl. apply NoDup_app in Hnd as (_ & Hdisj & Hnd).
  assert (forall id, ts_contact_id slot = Some id -> id ∉ contact_ids slots) as Hfresh.
  { intros id E. apply Hdisj. rewrite E. left. }
  assert (forall id (P : TouchSlot -> N -> Prop), (forall s i, P s i -> ts_contact_id s = Some i) ->
    ((exists s, s ∈ slot :: slots /\ P s id) <-> if bool_decide (ts_contact_id slot = Some id) then P slot id else exists s, s ∈ slots /\ P s id))
    as Hsplit.
  { intros id P HP. case_bool_decide as E; split.
    - intros (s & [->|Hin]%elem_of_cons & Hr); [done|]. exfalso. apply (Hfresh id E), elem_of_contact_ids. eauto.
    - intros Hr. exists slot. split; [left|done].
    - intros (s & [->|Hin]%elem_of_cons & Hr); [by apply HP in Hr|]. by exists s.
    - intros (s & Hin & Hr). exists s. split; [by right|done]. }
  assert (forall s i, reported s i -> ts_contact_id s = Some i) as Hrep by (by intros ? ? []).
  assert (forall s i, fresh s i -> ts_contact_id s = Some i) as Hfr by (by intros ? ? []).
  destruct (Hlives t) as (t1 & Ht & Hl1).
  { intros id E. destruct (Hl id) as [-> ->]; [rewrite E; set_solver|].
    rewrite (Hsplit id reported), (Hsplit id fresh) by done. by rewrite bool_decide_eq_true_2. }
  destruct (IH t1 Hnd) as (slots' & more & t2 & -> & Ht2 & Hlen & Hok' & Hsub & Hl2).
  { intros id Hin. assert (ts_contact_id slot <> Some id) as E by (intros E; by destruct (Hfresh id E)).
    destruct (Hl id) as [Hd Hb]; [set_solver|]. rewrite (Hsplit id reported) in Hd by done.
    rewrite (Hsplit id fresh) in Hb by done. specialize (Hl1 id). rewrite bool_decide_eq_false_2 in Hl1, Hd, Hb by done.
    naive_solver. }
  cbn [mbind option_bind]. eexists _, _, t2. split; [done|]. split; [by rewrite live_events_app, Ht|].
  split; [by cbn; rewrite Hlen|]. split; [by constructor|]. rewrite !contact_ids_cons. split.
  - destruct Hcontact as [-> | ->]; [by apply sublist_inserts_l|by apply sublist_app].
  - intros id. destruct (Hl2 id) as [-> ->], (Hl1 id) as [-> ->]. rewrite !elem_of_app. case_bool_decide as E.
    + rewrite E. destruct Hcontact as [Hc|Hc]; rewrite ?Hc, ?E; set_solver.
    + assert (id ∉ match ts_contact_id slot' with Some id => [id] | None => [] end).
      { destruct Hcontact as [-> | ->]; [set_solver|]. destruct (ts_contact_id slot); set_solver. }
      assert (id ∉ match ts_contact_id slot with Some id => [id] | None => [] end).
      { destruct (ts_contact_id slot); set_solver. }
      tauto.
Qed.

(** ** Events *)

(** What the kernel's multitouch protocol guarantees when a driver reports at
    most one change of contact per slot and frame: a new contact starts in an
    empty slot with an identifier not in use, and does not end within the
    frame that started it. *)
Definition kernel_event (self : TouchInput) (event : LinuxInputEvent) : bool :=
  if (ev_kind event =? EV_ABS)%N && (ev_code event =? ABS_MT_TRACKING_ID)%N then
    match ti_slots self !! ti_current_slot self with
    | None => true
    | Some slot =>
        if (ev_value event <? 0)%Z then negb (bool_decide (ts_pending slot = Some TouchDown))
        else bool_decide (ts_contact_id slot = None)
             && bool_decide (Z.to_N (ev_value event) ∉ contact_ids (ti_slots self))
    end
  else true.

Fixpoint kernel_history (self : TouchInput) (events : list (N * LinuxInputEvent)) : bool :=
  match events with
  | [] => true
  | (time_ms, event) :: events' =>
      kernel_event self event &&
      match process_event self time_ms event with
      | Some (self', _) => kernel_history self' events'
      | None => true
      end
  end.

Lemma kernel_event_spec self event slot :
  kernel_event self event = true -> ev_kind event = EV_ABS -> ev_code event = ABS_MT_TRACKING_ID ->
  ti_slots self !! ti_current_slot self = Some slot ->
  if (ev_value event <? 0)%Z then ts_pending slot <> Some TouchDown
  else ts_contact_id slot = None /\ Z.to_N (ev_value event) ∉ contact_ids (ti_slots self).
Proof.
  unfold kernel_event. intros H Ek Ec Hs. rewrite Ek, Ec, Hs in H. cbn [N.eqb Pos.eqb andb EV_ABS ABS_MT_TRACKING_ID] in H.
  destruct (ev_value event <? 0)%Z; [by apply negb_true_iff, bool_decide_eq_false in H|].
  apply andb_true_iff in H as [H1%bool_decide_eq_true H2%bool_decide_eq_true]. done.
Qed.

Lemma frame_ok self t f :
  input_ok t self ->
  (forall slot, slot_ok slot -> exists slot' events, f slot = Some (slot', events) /\ slot_step slot slot' events) ->
  exists slots' events t', each_slot f (ti_slots self) = Some (slots', events) /\
    live_events t events = Some t' /\ input_ok t' (with_slots self slots').
Proof.
  intros [Hx Hy Hc Hs Hd Ha Hl Hb] Hf.
  destruct (each_slot_ok f (ti_slots self) t Hf Hs Hd (fun id _ => conj (Hl id) (Hb id)))
    as (slots' & events & t' & E & Ht & Hlen & Hok & Hsub & Hl'). eexists _, _, _. split; [exact E|].
  split; [exact Ht|]. split; cbn; try done.
  - by rewrite Hlen.
  - eapply Forall_impl; [exact Hok|]. by intros ? [].
  - by eapply sublist_NoDup.
  - by eapply live_events_ok.
  - intros id. rewrite (proj1 (Hl' id)), elem_of_contact_ids. rewrite Forall_forall in Hok. split.
    + intros [(slot & Hin & E')|[Hn Hin]].
      * exists slot. split; [done|]. split; [done|]. by rewrite (proj2 (Hok slot Hin)).
      * exfalso. apply Hn, elem_of_contact_ids. apply Hl in Hin as (slot & Hin & Hr & _). by exists slot.
    + intros (slot & Hin & Hr & _). left. by exists slot.
  - intros id. rewrite (proj2 (Hl' id)), elem_of_contact_ids, Hb. rewrite Forall_forall in Hok. split.
    + intros [Hn (slot & Hin & Hr & _)]. destruct Hn. by exists slot.
    + intros (slot & Hin & _ & Hp). by rewrite (proj2 (Hok slot Hin)) in Hp.
Qed.

(** A slot that is updated in place. *)
Lemma update_slot_ok self t new f :
  input_ok t self ->
  (forall slot, ti_slots self !! ti_current_slot self = Some slot -> slot_ok slot ->
    slot_ok (f slot) /\ (forall id, reported (f slot) id <-> reported slot id) /\
    (forall id, fresh (f slot) id <-> fresh slot id \/ new = Some id) /\
    (ts_contact_id (f slot) = ts_contact_id slot \/
     ts_contact_id slot = None /\ exists id, ts_contact_id (f slot) = Some id /\ id ∉ contact_ids (ti_slots self))) ->
  exists self', update_slot self f = Some self' /\ input_ok (begin t new) self'.
Proof.
  intros [Hx Hy Hc Hs Hd Ha Hl Hb] Hf. unfold update_slot.
  destruct (lookup_lt_is_Some_2 _ _ Hc) as [slot Hslot]. rewrite Hslot. cbn [mbind option_bind].
  eexists. split; [done|]. set (i := ti_current_slot self) in *. set (slots := ti_slots self) in *.
  pose proof Hslot as Hin. apply list_elem_of_lookup_2 in Hin. rewrite Forall_forall in Hs.
  destruct (Hf slot Hslot (Hs slot Hin)) as (Hok & Hrep & Hfr & Hcontact).
  pose proof (take_drop_middle slots i slot Hslot) as Hsplit.
  assert (<[i := f slot]> slots = take i slots ++ f slot :: drop (S i) slots) as Hins.
  { rewrite insert_take_drop; [done|]. by apply lookup_lt_Some in Hslot. }
  assert (forall s, s ∈ slots <-> s ∈ take i slots \/ s = slot \/ s ∈ drop (S i) slots) as Hmem.
  { intros s. rewrite <- elem_of_cons, <- elem_of_app. by rewrite Hsplit. }
  split; cbn [with_slots ti_x_axis ti_y_axis ti_current_slot ti_slots]; try done.
  - by rewrite length_insert.
  - apply Forall_insert; [by apply Forall_forall|done].
  - rewrite Hins. rewrite <- Hsplit in Hd. unfold contact_ids in *. rewrite omap_app in *. cbn [omap list_omap] in *.
    destruct Hcontact as [->|(E & id & -> & Hn)]; [done|]. rewrite E in Hd.
    rewrite <- Permutation_middle. constructor; [|done]. intros Hi. apply Hn.
    unfold contact_ids. rewrite <- Hsplit, omap_app. cbn [omap list_omap]. by rewrite E.
  - destruct Ha. destruct new; [split; cbn; [by apply ascending_add|done]|done].
  - intros id. assert (lv_down (begin t new) = lv_down t) as -> by by destruct new. rewrite Hl, Hins. split.
    + intros (s & [H|[->|H]]%Hmem & Hr); [exists s|exists (f slot)|exists s];
        (split; [set_solver|try apply Hrep; done]).
    + intros (s & Hs' & Hr). rewrite elem_of_app, elem_of_cons in Hs'.
      destruct Hs' as [H|[->|H]]; [exists s|exists slot|exists s];
        (split; [apply Hmem; tauto|try apply Hrep; done]).
  - intros id. assert (id ∈ lv_begun (begin t new) <-> id ∈ lv_begun t \/ new = Some id) as ->.
    { destruct new; cbn; rewrite ?elem_of_set_add; naive_solver. }
    rewrite Hb, Hins. split.
    + intros [(s & [H|[->|H]]%Hmem & Hr)|Hn]; [exists s|exists (f slot)|exists s|exists (f slot)];
        (split; [set_solver|try apply Hfr; tauto]).
    + intros (s & Hs' & Hr). rewrite elem_of_app, elem_of_cons in Hs'.
      destruct Hs' as [H|[->|H]]; [left; exists s| |left; exists s]; [split; [apply Hmem; tauto|done]| |split; [apply Hmem; tauto|done]].
      apply Hfr in Hr as [Hr|Hn]; [left; exists slot; split; [apply Hmem; tauto|done]|by right].
Qed.

Lemma moved_reported slot slot' id :
  slot_ok slot -> ts_contact_id slot' = ts_contact_id slot -> ts_pending slot' = moved slot ->
  slot_ok slot' /\ (reported slot' id <-> reported slot id) /\ (fresh slot' id <-> fresh slot id \/ None = Some id).
Proof.
  intros [Hidle Hcancel] Hc Hp. unfold moved in Hp. split.
  - split; rewrite ?Hc, ?Hp; destruct (ts_contact_id slot), (ts_pending slot); naive_solver.
  - unfold reported, fresh. rewrite Hc, Hp. destruct (ts_contact_id slot), (ts_pending slot); naive_solver.
Qed.

Lemma process_event_ok self t time_ms event :
  input_ok t self -> kernel_event self event = true ->
  exists self' output t', process_event self time_ms event = Some (self', output) /\
    live_events (begin t (begins event)) output = Some t' /\ input_ok t' self'.
Proof.
  intros Hok Hev. pose proof Hok as [Hx Hy Hc Hs Hd Ha Hl Hb]. unfold process_event, begins.
  assert (exists self' output t', Some (self, []) = Some (self', output) /\
    live_events (begin t None) output = Some t' /\ input_ok t' self') as Hidle by (by exists self, [], t).
  assert (forall o self' new, o = Some self' -> input_ok (begin t new) self' ->
    exists self'' output t', (self ← o; Some (self, [])) = Some (self'', output) /\
      live_events (begin t new) output = Some t' /\ input_ok t' self'') as Hsilent.
  { intros o self' new -> Hok'. by exists self', [], (begin t new). }
  destruct (N.eqb_spec (ev_kind event) EV_ABS) as [Ek|Ek]; cbn [andb].
  - destruct (N.eqb_spec (ev_code event) ABS_MT_SLOT) as [->|_]; cbn [andb].
    + eapply (Hsilent _ _ None); [reflexivity|]. destruct (_ && _) eqn:E; [|done]. b2p.
      split; cbn; try done. lia.
    + destruct (N.eqb_spec (ev_code event) ABS_MT_TRACKING_ID) as [Ec|_]; cbn [andb].
      * pose proof (fun slot => kernel_event_spec self event slot Hev Ek Ec) as Hev'.
        edestruct (update_slot_ok self t) as (self' & E & Hok'); [exact Hok| |by eapply Hsilent].
        intros slot Hslot Hsl. specialize (Hev' slot Hslot). unfold track, reported, fresh.
        destruct (Z.ltb_spec (ev_value event) 0) as [Hlt|Hle].
        -- rewrite (proj2 (Z.leb_gt 0 (ev_value event)) Hlt).
           destruct (ts_contact_id slot) as [id|] eqn:Eid;
             [split; [by split|]; cbn; split; [|split; [|by left]]; intros i; naive_solver
             |split; [done|]; split; [|split; [|by left]]; intros i; naive_solver].
        -- rewrite (proj2 (Z.leb_le 0 (ev_value event)) Hle). destruct Hev' as [Hn Hfresh].
           split; [by split|]. cbn. rewrite Hn. split; [naive_solver|]. split; [naive_solver|]. right. eauto.
      * destruct (N.eqb_spec (ev_code event) ABS_MT_POSITION_X) as [_|_];
          [|destruct (N.eqb_spec (ev_code event) ABS_MT_POSITION_Y) as [_|_]; [|done]].
        -- destruct (update_slot_ok self t None (move_x (ev_value event)) Hok) as (self' & E & Hok').
           { intros slot _ Hsl. split; [by apply (moved_reported slot _ 0)|].
             split; [intros i; by apply moved_reported|]. split; [intros i; by apply moved_reported|by left]. }
           by eapply Hsilent.
        -- destruct (update_slot_ok self t None (move_y (ev_value event)) Hok) as (self' & E & Hok').
           { intros slot _ Hsl. split; [by apply (moved_reported slot _ 0)|].
             split; [intros i; by apply moved_reported|]. split; [intros i; by apply moved_reported|by left]. }
           by eapply Hsilent.
  - destruct (N.eqb_spec (ev_kind event) EV_SYN); [|done].
    destruct (N.eqb_spec (ev_code event) SYN_REPORT);
      [|destruct (N.eqb_spec (ev_code event) SYN_DROPPED); [|done]].
    + unfold flush_frame. destruct (frame_ok self t (flush_slot self time_ms) Hok) as (slots' & output & t' & -> & Ht & Hok').
      { intros slot. by apply flush_slot_step. }
      cbn [mbind option_bind]. by eexists _, _, _.
    + unfold input_cancel_all. destruct (frame_ok self t (cancel_slot self time_ms) Hok) as (slots' & output & t' & -> & Ht & Hok').
      { intros slot. by apply cancel_slot_step. }
      cbn [mbind option_bind]. by eexists _, _, _.
Qed.

Lemma process_events_ok self t events :
  input_ok t self -> kernel_history self events = true ->
  exists self' output t', process_events self events = Some (self', output) /\
    lifecycle t self events = Some t' /\ tracks (lv_down t) output = Some (lv_down t') /\ input_ok t' self'.
Proof.
  revert self t; induction events as [|[time_ms event] events IH]; intros self t Hok Hk.
  { by exists self, [], t. }
  apply andb_true_iff in Hk as [Hev Hk]. destruct (process_event_ok self t time_ms event Hok Hev) as (self1 & o1 & t1 & E & Ht & Hok1).
  rewrite E in Hk. destruct (IH self1 t1 Hok1 Hk) as (self2 & o2 & t2 & E2 & Hl2 & Ht2 & Hok2).
  exists self2, (o1 ++ o2), t2. cbn [process_events lifecycle]. rewrite E. cbn [mbind option_bind]. rewrite E2, Ht.
  split; [done|]. split; [done|]. split; [|done]. apply live_events_tracks in Ht.
  assert (lv_down (begin t (begins event)) = lv_down t) as Hd by by destruct (begins event).
  rewrite Hd in Ht. by rewrite tracks_app, Ht.
Qed.

(** A device the daemon opens starts with no contact. *)
Lemma open_input_ok dw dh sw sh x y slots self :
  (- 2 ^ 31 <= ax_minimum x /\ ax_maximum x - ax_minimum x < 2 ^ 31)%Z ->
  (- 2 ^ 31 <= ax_minimum y /\ ax_maximum y - ax_minimum y < 2 ^ 31)%Z ->
  open_input dw dh sw sh x y slots = Some (Ok self) -> input_ok {| lv_begun := []; lv_down := [] |} self.
Proof.
  intros Hx Hy. unfold open_input, query_abs_axis, reject_if.
  destruct (Z.leb_spec (ax_maximum x) (ax_minimum x)); [done|].
  destruct (Z.leb_spec (ax_maximum y) (ax_minimum y)); [done|].
  destruct (Z.leb_spec (ax_maximum slots) (ax_minimum slots)); [done|]. cbn [mbind result_bind].
  destruct (sub_i32 (ax_maximum slots) _) as [range|]; [|done]. cbn [mbind option_bind].
  destruct (sub_i32 range _) as [count|]; [|done]. cbn [mbind option_bind].
  destruct (Z.ltb_spec count 0); [done|]. destruct (_ || _) eqn:E; [done|]. b2p. intros [= <-].
  split; cbn; try (unfold axis_ok; lia); try done.
  - rewrite length_replicate. lia.
  - by apply Forall_replicate.
  - assert (omap ts_contact_id (replicate (Z.to_nat count) empty_slot) = []) as ->; [|constructor].
    induction (Z.to_nat count) as [|n IHn]; [done|]. exact IHn.
  - intros id. split; [set_solver|]. intros (slot & [-> _]%elem_of_replicate & [Hc _]). done.
  - intros id. split; [set_solver|]. intros (slot & [-> _]%elem_of_replicate & [Hc _]). done.
Qed.


Definition abs (code : N) (value : Z) : N * LinuxInputEvent :=
  (0%N, {| ev_kind := EV_ABS; ev_code := code; ev_value := value |}).
Definition report : N * LinuxInputEvent :=
  (0%N, {| ev_kind := EV_SYN; ev_code := SYN_REPORT; ev_value := 0 |}).
Definition phases (events : list TouchEvent) : list (TouchPhase * N) :=
  List.map (fun event => (te_phase event, te_contact_id event)) events.

Definition x_axis : InputAbsInfo := {| ax_minimum := 0; ax_maximum := 23044 |}.
Definition y_axis : InputAbsInfo := {| ax_minimum := 0; ax_maximum := 639 |}.
Definition four_slots : InputAbsInfo := {| ax_minimum := 0; ax_maximum := 3 |}.

(** Two fingers, the second lifted first. *)
Definition two_contacts : list (N * LinuxInputEvent) :=
  [abs ABS_MT_TRACKING_ID 17; abs ABS_MT_POSITION_X 6322; abs ABS_MT_POSITION_Y 320; report;
   abs ABS_MT_SLOT 1; abs ABS_MT_TRACKING_ID 18; report; abs ABS_MT_POSITION_X 9768; report;
   abs ABS_MT_TRACKING_ID (-1); report].


(** A contact that was begun when the kernel dropped events is cancelled
    without having gone down. *)
Example dropped_contact_cancelled :
  exists self output,
    process_events test_input [abs ABS_MT_TRACKING_ID 5; (0%N, {| ev_kind := EV_SYN; ev_code := SYN_DROPPED; ev_value := 0 |})]
      = Some (self, output) /\
    phases output = [(TouchCancel, 5%N)].
Proof. eexists _, _. split; vm_compute; reflexivity. Qed.

(** An axis that spans more than an [i32] is accepted, and the first contact
    panics. *)
Example wide_axis_panics :
  let wide := {| ax_minimum := - 2 ^ 31; ax_maximum := 2 ^ 31 - 1 |} in
  match open_input 2008 60 1004 60 wide y_axis four_slots with
  | Some (Ok self) => process_events self [abs ABS_MT_TRACKING_ID 5; report] = None
  | _ => False
  end.
Proof. vm_compute. reflexivity. Qed.

(** The protocol also lets a driver replace the contact of a slot at once:
    the first contact is then never lifted. *)
Definition replaced_contact : list (N * LinuxInputEvent) :=
  [abs ABS_MT_TRACKING_ID 5; report; abs ABS_MT_TRACKING_ID 6; report; abs ABS_MT_TRACKING_ID (-1); report].

Example replaced_contact_stays_down :
  exists self output, process_events test_input replaced_contact = Some (self, output) /\
    phases output = [(TouchDown, 5); (TouchDown, 6); (TouchUp, 6)]%N /\
    tracks [] output = Some [5%N] /\ Forall (fun slot => ts_contact_id slot = None) (ti_slots self).
Proof.
  eexists _, _. split; [vm_compute; reflexivity|]. split; [reflexivity|]. split; [reflexivity|].
  repeat (constructor; [reflexivity|]). constructor.
Qed.

(** ** Waking contacts *)

(** Hidden contacts are down, and the receiver knows the others. *)
Record hiding (live hidden shown : list N) : Prop := {
  hiding_live : ascending live;
  hiding_hidden : ascending hidden;
  hiding_shown : ascending shown;
  hiding_sub : forall id, id ∈ hidden -> id ∈ live;
  hiding_split : forall id, id ∈ shown <-> id ∈ live /\ (id ∉ hidden);
}.

Ltac solve_hiding :=
  split; [by repeat (apply ascending_add || apply ascending_remove)
         |by repeat (apply ascending_add || apply ascending_remove)
         |by repeat (apply ascending_add || apply ascending_remove)
         |intros i; rewrite ?elem_of_set_add, ?elem_of_set_remove; naive_solver
         |intros i; rewrite ?elem_of_set_add, ?elem_of_set_remove; naive_solver].

(** Nothing of a waking batch is delivered. *)
Lemma deliver_waking hidden events : (deliver hidden true events).2 = [].
Proof.
  revert hidden; induction events as [|event events IH]; intros hidden; cbn [deliver consume]; [done|].
  specialize (IH (if ends event then set_remove (te_contact_id event) hidden else set_add (te_contact_id event) hidden)).
  by destruct (deliver _ true events).
Qed.

Lemma deliver_waking_hiding live hidden shown events live' :
  hiding live hidden shown -> shown = [] -> tracks live events = Some live' ->
  hiding live' (deliver hidden true events).1 [].
Proof.
  revert live hidden shown. induction events as [|event events IH]; intros live hidden shown Hh -> Ht; cbn in Ht.
  { by injection Ht as <-. }
  cbn [deliver consume]. set (id := te_contact_id event) in *.
  assert (forall live1 hidden1, hiding live1 hidden1 [] -> tracks live1 events = Some live' ->
    hiding live' (let '(contacts, delivered) := deliver hidden1 true events in (contacts, delivered)).1 []) as Hnext.
  { intros live1 hidden1 Hh1 Ht1. specialize (IH live1 hidden1 [] Hh1 eq_refl Ht1). by destruct (deliver hidden1 true events). }
  destruct Hh as [Hl Hi Hs Hsub Hsp]. unfold ends. setoid_rewrite elem_of_nil in Hsp.
  destruct (te_phase event).
  - destruct (set_contains id live) eqn:E; [done|]. apply set_contains_false in E. eapply Hnext; [|exact Ht].
    split; [by apply ascending_add|by apply ascending_add|done| |]; intros i;
      rewrite ?elem_of_nil, ?elem_of_set_add; [naive_solver|].
    split; [done|]. intros [[->|H] Hn]; [naive_solver|]. apply (Hsp i). naive_solver.
  - destruct (set_contains id live) eqn:E; [|done]. apply set_contains_spec in E. eapply Hnext; [|exact Ht].
    split; [done|by apply ascending_add|done| |]; intros i; rewrite ?elem_of_nil, ?elem_of_set_add; [naive_solver|].
    split; [done|]. intros [H Hn]. apply (Hsp i). naive_solver.
  - destruct (set_contains id live) eqn:E; [|done]. eapply Hnext; [|exact Ht].
    split; [by apply ascending_remove|by apply ascending_remove|done| |]; intros i;
      rewrite ?elem_of_nil, ?elem_of_set_remove; [naive_solver|].
    split; [done|]. intros [[Hne H] Hn]. apply (Hsp i). naive_solver.
  - eapply Hnext; [|exact Ht].
    split; [by apply ascending_remove|by apply ascending_remove|done| |]; intros i;
      rewrite ?elem_of_nil, ?elem_of_set_remove; [naive_solver|].
    split; [done|]. intros [[Hne H] Hn]. apply (Hsp i). naive_solver.
Qed.

Lemma deliver_awake live hidden shown events live' :
  hiding live hidden shown -> tracks live events = Some live' ->
  exists shown', tracks shown (deliver hidden false events).2 = Some shown' /\
    hiding live' (deliver hidden false events).1 shown'.
Proof.
  revert live hidden shown. induction events as [|event events IH]; intros live hidden shown Hh Ht; cbn in Ht.
  { injection Ht as <-. by exists shown. }
  cbn [deliver consume]. set (id := te_contact_id event) in *. pose proof Hh as [Hl Hi Hs Hsub Hsp].
  destruct (set_contains id hidden) eqn:E; cbn [negb].
  - apply set_contains_spec in E. pose proof (Hsub id E) as E'. apply set_contains_spec in E'.
    assert (forall live1 hidden1, hiding live1 hidden1 shown -> tracks live1 events = Some live' ->
      exists shown', tracks shown (let '(contacts, delivered) := deliver hidden1 false events in (contacts, delivered)).2
          = Some shown' /\
        hiding live' (let '(contacts, delivered) := deliver hidden1 false events in (contacts, delivered)).1 shown') as Hnext.
    { intros live1 hidden1 Hh1 Ht1. specialize (IH live1 hidden1 shown Hh1 Ht1). by destruct (deliver hidden1 false events). }
    rewrite E' in Ht. unfold ends. destruct (te_phase event); [done|by eapply Hnext|eapply Hnext; [|exact Ht]..];
      solve_hiding.
  - apply set_contains_false in E.
    assert (forall live1 shown1, hiding live1 hidden shown1 -> tracks live1 events = Some live' ->
      tracks shown (event :: (deliver hidden false events).2) = tracks shown1 (deliver hidden false events).2 ->
      exists shown', tracks shown
          (let '(contacts, delivered) := deliver hidden false events in (contacts, event :: delivered)).2 = Some shown' /\
        hiding live' (let '(contacts, delivered) := deliver hidden false events in (contacts, event :: delivered)).1 shown')
      as Hnext.
    { intros live1 shown1 Hh1 Ht1 Heq. specialize (IH live1 hidden shown1 Hh1 Ht1).
      destruct (deliver hidden false events). cbn [fst snd] in *. by rewrite Heq. }
    assert (set_contains id shown = set_contains id live) as Hc.
    { destruct (set_contains id live) eqn:El.
      - apply set_contains_spec in El. apply set_contains_spec. by apply Hsp.
      - apply set_contains_false in El. apply set_contains_false. naive_solver. }
    cbn [tracks] in Hnext. fold id in Hnext. rewrite Hc in Hnext.
    destruct (te_phase event); [destruct (set_contains id live) eqn:El; [done|]
      |destruct (set_contains id live) eqn:El; [|done]|destruct (set_contains id live) eqn:El; [|done]|];
      (eapply Hnext; [|exact Ht|reflexivity]); [| done | |];
      try (rewrite set_contains_false in El); solve_hiding.
Qed.

(** At every batch that wakes the panel, no contact that was delivered is
    still down. *)
Fixpoint wakes_quietly (live hidden : list N) (batches : list (bool * list TouchEvent)) : bool :=
  match batches with
  | [] => true
  | (woke_panel, events) :: batches' =>
      (if woke_panel then forallb (fun id => set_contains id hidden) live else true) &&
      match tracks live events with
      | None => true
      | Some live' => wakes_quietly live' (deliver hidden woke_panel events).1 batches'
      end
  end.

Lemma deliver_batches_hiding live hidden shown batches live' :
  hiding live hidden shown -> wakes_quietly live hidden batches = true ->
  tracks live (flat_map snd batches) = Some live' ->
  exists shown', tracks shown (deliver_batches hidden batches).2 = Some shown' /\
    hiding live' (deliver_batches hidden batches).1 shown'.
Proof.
  revert live hidden shown. induction batches as [|[woke events] batches IH]; intros live hidden shown Hh Hq Ht.
  { cbn in Ht. injection Ht as <-. by exists shown. }
  cbn [flat_map snd] in Ht. rewrite tracks_app in Ht. cbn [wakes_quietly] in Hq.
  destruct (tracks live events) as [live1|] eqn:E; [|done]. cbn [mbind option_bind] in Ht.
  apply andb_true_iff in Hq as [Hq Hrest].
  assert (exists shown1, tracks shown (deliver hidden woke events).2 = Some shown1 /\
    hiding live1 (deliver hidden woke events).1 shown1) as (shown1 & Ht1 & Hh1).
  { destruct woke; [|by eapply deliver_awake]. exists []. rewrite deliver_waking.
    assert (shown = []) as ->.
    { destruct shown as [|id shown]; [done|]. destruct Hh as [_ _ _ _ Hsp]. rewrite forallb_forall in Hq.
      destruct (proj1 (Hsp id) ltac:(left)) as [Hin Hn]. exfalso. apply Hn, set_contains_spec, Hq.
      by apply list_elem_of_In. }
    split; [done|]. by eapply deliver_waking_hiding. }
  destruct (IH live1 _ shown1 Hh1 Hrest Ht) as (shown2 & Ht2 & Hh2). cbn [deliver_batches].
  destruct (deliver hidden woke events) as [hidden1 delivered]. cbn [fst snd] in *.
  destruct (deliver_batches hidden1 batches) as [hidden2 more]. cbn [fst snd] in *.
  exists shown2. split; [|done]. by rewrite tracks_app, Ht1.
Qed.

(** A finger that wakes the panel is hidden for its whole life and every
    other contact is delivered from its first event to its last, provided no
    delivered contact is still down when the panel wakes. *)
Theorem wake_contacts_hide (batches : list (bool * list TouchEvent)) (live : list N)
  (Hlive : tracks [] (flat_map snd batches) = Some live)
  (Hquiet : wakes_quietly [] [] batches = true) :
  exists shown, tracks [] (deliver_batches [] batches).2 = Some shown /\
    forall id, id ∈ shown <-> id ∈ live /\ (id ∉ (deliver_batches [] batches).1).
Proof.
  destruct (deliver_batches_hiding [] [] [] batches live) as (shown & Ht & [_ _ _ _ Hs]); [|done|done|by exists shown].
  split; [done|done|done|set_solver|set_solver].
Qed.

Definition contact (phase : TouchPhase) (id : N) : TouchEvent :=
  {| te_phase := phase; te_contact_id := id; te_time_ms := 0;
     te_x_millipixels := 10000; te_y_millipixels := 30000 |}.

Definition waking_finger : list (bool * list TouchEvent) :=
  [(true, [contact TouchDown 7]); (false, [contact TouchDown 8; contact TouchMotion 7]);
   (false, [contact TouchUp 7; contact TouchDown 9; contact TouchUp 9])].

Lemma wake_contacts_hide_witness :
  tracks [] (flat_map snd waking_finger) = Some [8%N] /\ wakes_quietly [] [] waking_finger = true /\
  phases (deliver_batches [] waking_finger).2 = [(TouchDown, 8); (TouchDown, 9); (TouchUp, 9)]%N /\
  exists shown, tracks [] (deliver_batches [] waking_finger).2 = Some shown /\ (8%N ∈ shown).
Proof.
  assert (tracks [] (flat_map snd waking_finger) = Some [8%N]) as Hlive by (vm_compute; reflexivity).
  assert (wakes_quietly [] [] waking_finger = true) as Hquiet by (vm_compute; reflexivity).
  split; [exact Hlive|]. split; [exact Hquiet|]. split; [vm_compute; reflexivity|].
  destruct (wake_contacts_hide waking_finger [8%N] Hlive Hquiet) as (shown & Ht & Hs).
  exists shown. split; [exact Ht|]. apply Hs. split; [left|]. intros H. vm_compute in H.
  by apply elem_of_nil in H.
Defined.

(** A finger that rests on a button until the panel goes dark and then lifts:
    the panel wakes on the lift, which is hidden with it, so the receiver
    never learns that the finger is gone and the button's key stays pressed. *)
Theorem resting_finger_stays_down :
  let batches := [(false, [contact TouchDown 7]); (true, [contact TouchUp 7])] in
  tracks [] (flat_map snd batches) = Some [] /\
  tracks [] (deliver_batches [] batches).2 = Some [7%N] /\
  exists bar transitions,
    bar_run reference_bar (List.map TouchStep (deliver_batches [] batches).2) = Some (bar, transitions) /\
    held [] transitions = Some [BrightnessDown].
Proof.
  split; [reflexivity|]. split; [reflexivity|]. eexists _, _. split; [vm_compute; reflexivity|]. reflexivity.
Qed.
