(* ===== verification/Daemon.v ===== *)
(** * Daemon: the hardware service

    Models the service loop of [crates/touchbard]: the virtual keyboard
    ([src/uinput.rs]), the Fn key ([src/fn_input.rs]), the recovery gesture
    ([src/recovery.rs]), the backlight ([src/backlight.rs]) and
    [ServiceHardware] with [serve] ([src/main.rs]).  The devices, the session
    socket and the clock are the interface [DaemonWorld]; what a poll found is
    an argument; every action is logged with its outcome; a panic is [None]. *)

From S2P Require Import Prelude BTree Text Payload Hardware Float Bar Touch.
From Stdlib Require String.

(** ** Constants, durations in nanoseconds *)

Definition seconds (n : N) : N := (n * 1000000000)%N.
Definition HOLD_DURATION : N := seconds 8.
Definition BACKLIGHT_DIM_TIMEOUT : N := seconds 30.
Definition BACKLIGHT_OFF_TIMEOUT : N := seconds 60.
Definition SUBMIT_TIMEOUT : N := seconds 5.
Definition EV_KEY : N := 1.
Definition KEY_FN : N := 464.
Definition ACTIVE_LEVEL_255 : N := 128.
Definition DIMMED_LEVEL_255 : N := 1.
Definition IDLE_LEVEL_255 : N := 0.

(** The keys of [input_linux] the keyboard uses. *)
Inductive LinuxKey :=
| LinuxBrightnessDown | LinuxBrightnessUp | LinuxIllumDown | LinuxIllumUp | LinuxPreviousSong
| LinuxPlayPause | LinuxNextSong | LinuxMute | LinuxVolumeDown | LinuxVolumeUp | LinuxMicMute
| LinuxSearch | LinuxF1 | LinuxF2 | LinuxF3 | LinuxF4 | LinuxF5 | LinuxF6 | LinuxF7 | LinuxF8
| LinuxF9 | LinuxF10 | LinuxF11 | LinuxF12.
#[export] Instance LinuxKey_eq_dec : EqDecision LinuxKey. Proof. solve_decision. Defined.

Definition linux_key (key : SystemKey) : LinuxKey :=
  match key with
  | BrightnessDown => LinuxBrightnessDown | BrightnessUp => LinuxBrightnessUp
  | KeyboardIlluminationDown => LinuxIllumDown | KeyboardIlluminationUp => LinuxIllumUp
  | PreviousSong => LinuxPreviousSong | PlayPause => LinuxPlayPause | NextSong => LinuxNextSong
  | Mute => LinuxMute | VolumeDown => LinuxVolumeDown | VolumeUp => LinuxVolumeUp
  | MicrophoneMute => LinuxMicMute | SearchKey => LinuxSearch
  | F1 => LinuxF1 | F2 => LinuxF2 | F3 => LinuxF3 | F4 => LinuxF4 | F5 => LinuxF5 | F6 => LinuxF6
  | F7 => LinuxF7 | F8 => LinuxF8 | F9 => LinuxF9 | F10 => LinuxF10 | F11 => LinuxF11
  | F12 => LinuxF12
  end.

Definition all_keys : list SystemKey :=
  [BrightnessDown; BrightnessUp; KeyboardIlluminationDown; KeyboardIlluminationUp; PreviousSong;
   PlayPause; NextSong; Mute; VolumeDown; VolumeUp; MicrophoneMute; SearchKey;
   F1; F2; F3; F4; F5; F6; F7; F8; F9; F10; F11; F12].

(** ** The recovery gesture *)

Inductive RecoveryAction := EnterFallback | ResumeSessions.
#[export] Instance RecoveryAction_eq_dec : EqDecision RecoveryAction. Proof. solve_decision. Defined.

Record RecoveryGesture := {
  rg_pressed_since : option N;
  rg_fired_for_press : bool;
  rg_fallback_locked : bool;
}.

Definition gesture_new (fn_pressed : bool) (now : N) : RecoveryGesture :=
  {| rg_pressed_since := if fn_pressed then Some now else None; rg_fired_for_press := false;
     rg_fallback_locked := false |}.
Definition fn_changed (self : RecoveryGesture) (pressed : bool) (now : N) : RecoveryGesture :=
  {| rg_pressed_since := if pressed then Some now else None; rg_fired_for_press := false;
     rg_fallback_locked := rg_fallback_locked self |}.
Definition gesture_poll (self : RecoveryGesture) (now : N) : RecoveryGesture * option RecoveryAction :=
  match rg_pressed_since self with
  | None => (self, None)
  | Some pressed_since =>
      if rg_fired_for_press self || (sat_sub now pressed_since <? HOLD_DURATION)%N then (self, None)
      else
        let locked := negb (rg_fallback_locked self) in
        ({| rg_pressed_since := Some pressed_since; rg_fired_for_press := true;
            rg_fallback_locked := locked |},
         Some (if locked then EnterFallback else ResumeSessions))
  end.
Definition sessions_allowed (self : RecoveryGesture) : bool := negb (rg_fallback_locked self).

(** ** The Fn key *)

Definition fn_state (kind code : N) (value : Z) : option bool :=
  if (kind =? EV_KEY)%N && (code =? KEY_FN)%N then
    if (value =? 0)%Z then Some false else if (value =? 1)%Z then Some true else None
  else None.

Inductive FnError := FnReadFailed | FnClosed | FnPartial.

(** One record of a batch: the state and the last change. *)
Definition fn_event (state : bool * option bool) (event : LinuxInputEvent) : bool * option bool :=
  let '(pressed, changed) := state in
  match fn_state (ev_kind event) (ev_code event) (ev_value event) with
  | Some now => if Bool.eqb pressed now then state else (now, Some now)
  | None => state
  end.

Fixpoint read_changed (pressed : bool) (changed : option bool) (reads : list ReadResult)
  : bool * result FnError (option bool) :=
  match reads with
  | [] | ReadWouldBlock :: _ => (pressed, Ok changed)
  | ReadError :: _ => (pressed, Err FnReadFailed)
  | ReadBytes bytes events :: reads' =>
      if (bytes =? 0)%N then (pressed, Err FnClosed)
      else if negb (bytes mod EVENT_SIZE =? 0)%N then (pressed, Err FnPartial)
      else
        let '(pressed, changed) :=
          fold_left fn_event (snd <$> take (N.to_nat (bytes / EVENT_SIZE)) events) (pressed, changed) in
        read_changed pressed changed reads'
  end.

(** ** The backlight *)

Record Backlight := {
  bl_active_value : N;
  bl_dimmed_value : N;
  bl_idle_value : N;
  bl_current_value : option N;
}.

(** The levels [TouchBarBacklight::open] derives from the maximum. *)
Definition backlight_levels (max : N) : option Backlight :=
  if (max =? 0)%N then None
  else
    let level l := N.max 1 (N.min max ((l * max + 127) / 255)) in
    Some {| bl_active_value := level ACTIVE_LEVEL_255; bl_dimmed_value := level DIMMED_LEVEL_255;
            bl_idle_value := IDLE_LEVEL_255 * max / 255; bl_current_value := None |}.

Inductive BacklightState := BacklightActive | BacklightDimmed | BacklightOff.
#[export] Instance BacklightState_eq_dec : EqDecision BacklightState. Proof. solve_decision. Defined.

(** ** The service *)

Inductive ServiceScanout := FallbackScanout | SessionScanout (index sequence : N).
#[export] Instance ServiceScanout_eq_dec : EqDecision ServiceScanout. Proof. solve_decision. Defined.

Record ServiceHardware := {
  hs_session_framebuffers : N;
  hs_session_prime_fds : list Z;
  hs_swapchain : HardwareSwapchain;
  hs_scanout : ServiceScanout;
  hs_fn_pressed : bool;
  hs_keyboard : list SystemKey;
  hs_backlight : Backlight;
  hs_fallback_bar : SystemBar;
  hs_last_activity : N;
  hs_backlight_state : BacklightState;
  hs_wake_contacts : list N;
  hs_recovery_gesture : RecoveryGesture;
}.

Inductive Action :=
| WriteKey (key : LinuxKey) (value : Z)
| WriteBacklight (value : N)
| SendSwapchain (info : HardwareSwapchain) (buffers : list Z)
| SendHardware (message : HardwareMessage)
| DirtyFramebuffer (index : N)
| FlipSession (index : N)
| FlipFallback
| RenderFallback
| SetMarker (locked : bool).

Inductive Device := TouchDevice | FnDevice | SeatDevice.

Inductive DaemonError :=
| ActionFailed (action : Action)
| RepeatNotPressed
| DeviceLost (device : Device)
| PollError
| ShutdownError
| TouchFailed (error : TouchError)
| FnFailed (error : FnError)
| SeatFailed
| AcceptFailed
| PeerUnknown
| SubmitTimeout
| SessionClosed
| ReceiveFailed (error : IoError)
| BufferOutOfRange
| BufferResubmitted
| StaleSequence.

(** The devices, the session socket and the clock. *)
Class DaemonWorld (W : Type) := {
  world_act : Action -> W -> W * bool;
  world_now : W -> W * N;
}.

Definition Log : Type := list (Action * bool).

Section Service.
Context {W : Type} `{!DaemonWorld W}.

(** State, world, log and error are threaded; [None] is a panic. *)
Definition Daemon (A : Type) : Type :=
  ServiceHardware -> W -> option (ServiceHardware * W * Log * result DaemonError A).
#[export] Instance daemon_ret : MRet Daemon := fun _ a s w => Some (s, w, [], Ok a).
#[export] Instance daemon_bind : MBind Daemon := fun _ _ k m s w =>
  match m s w with
  | None => None
  | Some (s1, w1, log1, Err error) => Some (s1, w1, log1, Err error)
  | Some (s1, w1, log1, Ok a) =>
      match k a s1 w1 with
      | None => None
      | Some (s2, w2, log2, r) => Some (s2, w2, log1 ++ log2, r)
      end
  end.

Definition throw {A} (error : DaemonError) : Daemon A := fun s w => Some (s, w, [], Err error).
Definition lift {A} (r : result DaemonError A) : Daemon A := fun s w => Some (s, w, [], r).
Definition get : Daemon ServiceHardware := fun s w => Some (s, w, [], Ok s).
Definition now : Daemon N := fun s w => let '(w, t) := world_now w in Some (s, w, [], Ok t).
(** An effect and its outcome. *)
Definition attempt (action : Action) : Daemon bool := fun s w =>
  let '(w, done) := world_act action w in Some (s, w, [(action, done)], Ok done).
Definition act (action : Action) : Daemon () :=
  done ← attempt action;
  if (done : bool) then mret () else throw (ActionFailed action).

(** *** Assignments *)

Definition set_scanout (v : ServiceScanout) : Daemon () := fun s w => Some (
  {| hs_session_framebuffers := hs_session_framebuffers s; hs_session_prime_fds := hs_session_prime_fds s;
     hs_swapchain := hs_swapchain s; hs_scanout := v; hs_fn_pressed := hs_fn_pressed s;
     hs_keyboard := hs_keyboard s; hs_backlight := hs_backlight s; hs_fallback_bar := hs_fallback_bar s;
     hs_last_activity := hs_last_activity s; hs_backlight_state := hs_backlight_state s;
     hs_wake_contacts := hs_wake_contacts s; hs_recovery_gesture := hs_recovery_gesture s |}, w, [], Ok ()).
Definition set_fn (v : bool) : Daemon () := fun s w => Some (
  {| hs_session_framebuffers := hs_session_framebuffers s; hs_session_prime_fds := hs_session_prime_fds s;
     hs_swapchain := hs_swapchain s; hs_scanout := hs_scanout s; hs_fn_pressed := v;
     hs_keyboard := hs_keyboard s; hs_backlight := hs_backlight s; hs_fallback_bar := hs_fallback_bar s;
     hs_last_activity := hs_last_activity s; hs_backlight_state := hs_backlight_state s;
     hs_wake_contacts := hs_wake_contacts s; hs_recovery_gesture := hs_recovery_gesture s |}, w, [], Ok ()).
Definition set_keyboard (v : list SystemKey) : Daemon () := fun s w => Some (
  {| hs_session_framebuffers := hs_session_framebuffers s; hs_session_prime_fds := hs_session_prime_fds s;
     hs_swapchain := hs_swapchain s; hs_scanout := hs_scanout s; hs_fn_pressed := hs_fn_pressed s;
     hs_keyboard := v; hs_backlight := hs_backlight s; hs_fallback_bar := hs_fallback_bar s;
     hs_last_activity := hs_last_activity s; hs_backlight_state := hs_backlight_state s;
     hs_wake_contacts := hs_wake_contacts s; hs_recovery_gesture := hs_recovery_gesture s |}, w, [], Ok ()).
Definition set_backlight (v : Backlight) : Daemon () := fun s w => Some (
  {| hs_session_framebuffers := hs_session_framebuffers s; hs_session_prime_fds := hs_session_prime_fds s;
     hs_swapchain := hs_swapchain s; hs_scanout := hs_scanout s; hs_fn_pressed := hs_fn_pressed s;
     hs_keyboard := hs_keyboard s; hs_backlight := v; hs_fallback_bar := hs_fallback_bar s;
     hs_last_activity := hs_last_activity s; hs_backlight_state := hs_backlight_state s;
     hs_wake_contacts := hs_wake_contacts s; hs_recovery_gesture := hs_recovery_gesture s |}, w, [], Ok ()).
Definition set_bar (v : SystemBar) : Daemon () := fun s w => Some (
  {| hs_session_framebuffers := hs_session_framebuffers s; hs_session_prime_fds := hs_session_prime_fds s;
     hs_swapchain := hs_swapchain s; hs_scanout := hs_scanout s; hs_fn_pressed := hs_fn_pressed s;
     hs_keyboard := hs_keyboard s; hs_backlight := hs_backlight s; hs_fallback_bar := v;
     hs_last_activity := hs_last_activity s; hs_backlight_state := hs_backlight_state s;
     hs_wake_contacts := hs_wake_contacts s; hs_recovery_gesture := hs_recovery_gesture s |}, w, [], Ok ()).
Definition set_activity (last : N) : Daemon () := fun s w => Some (
  {| hs_session_framebuffers := hs_session_framebuffers s; hs_session_prime_fds := hs_session_prime_fds s;
     hs_swapchain := hs_swapchain s; hs_scanout := hs_scanout s; hs_fn_pressed := hs_fn_pressed s;
     hs_keyboard := hs_keyboard s; hs_backlight := hs_backlight s; hs_fallback_bar := hs_fallback_bar s;
     hs_last_activity := last; hs_backlight_state := hs_backlight_state s;
     hs_wake_contacts := hs_wake_contacts s; hs_recovery_gesture := hs_recovery_gesture s |}, w, [], Ok ()).
Definition set_backlight_state (v : BacklightState) : Daemon () := fun s w => Some (
  {| hs_session_framebuffers := hs_session_framebuffers s; hs_session_prime_fds := hs_session_prime_fds s;
     hs_swapchain := hs_swapchain s; hs_scanout := hs_scanout s; hs_fn_pressed := hs_fn_pressed s;
     hs_keyboard := hs_keyboard s; hs_backlight := hs_backlight s; hs_fallback_bar := hs_fallback_bar s;
     hs_last_activity := hs_last_activity s; hs_backlight_state := v;
     hs_wake_contacts := hs_wake_contacts s; hs_recovery_gesture := hs_recovery_gesture s |}, w, [], Ok ()).
Definition set_wake_contacts (v : list N) : Daemon () := fun s w => Some (
  {| hs_session_framebuffers := hs_session_framebuffers s; hs_session_prime_fds := hs_session_prime_fds s;
     hs_swapchain := hs_swapchain s; hs_scanout := hs_scanout s; hs_fn_pressed := hs_fn_pressed s;
     hs_keyboard := hs_keyboard s; hs_backlight := hs_backlight s; hs_fallback_bar := hs_fallback_bar s;
     hs_last_activity := hs_last_activity s; hs_backlight_state := hs_backlight_state s;
     hs_wake_contacts := v; hs_recovery_gesture := hs_recovery_gesture s |}, w, [], Ok ()).
Definition set_gesture (v : RecoveryGesture) : Daemon () := fun s w => Some (
  {| hs_session_framebuffers := hs_session_framebuffers s; hs_session_prime_fds := hs_session_prime_fds s;
     hs_swapchain := hs_swapchain s; hs_scanout := hs_scanout s; hs_fn_pressed := hs_fn_pressed s;
     hs_keyboard := hs_keyboard s; hs_backlight := hs_backlight s; hs_fallback_bar := hs_fallback_bar s;
     hs_last_activity := hs_last_activity s; hs_backlight_state := hs_backlight_state s;
     hs_wake_contacts := hs_wake_contacts s; hs_recovery_gesture := v |}, w, [], Ok ()).

(** *** The virtual keyboard *)

Definition write_key (key : SystemKey) (value : Z) : Daemon () := act (WriteKey (linux_key key) value).

Definition emit (key : SystemKey) (phase : KeyPhase) : Daemon () :=
  s ← get;
  let '(inserted, fresh) := set_insert key (hs_keyboard s) in
  let held := set_contains key (hs_keyboard s) in
  match phase with
  | Pressed => if fresh then _ ← set_keyboard inserted; write_key key 1 else mret ()
  | Repeat => if held then write_key key 2 else throw RepeatNotPressed
  | Released => if held then _ ← set_keyboard (set_remove key (hs_keyboard s)); write_key key 0 else mret ()
  end.

(** [for x in l { f(x)?; }] *)
Fixpoint each {A} (f : A -> Daemon ()) (l : list A) : Daemon () :=
  match l with
  | [] => mret ()
  | a :: l' => _ ← f a; each f l'
  end.

Definition release_all : Daemon () :=
  s ← get;
  _ ← set_keyboard [];
  each (fun key => write_key key 0) (hs_keyboard s).

(** *** The backlight *)

Definition backlight_set (value : N) : Daemon () :=
  s ← get;
  let b := hs_backlight s in
  if bool_decide (bl_current_value b = Some value) then mret ()
  else
    _ ← act (WriteBacklight value);
    set_backlight {| bl_active_value := bl_active_value b; bl_dimmed_value := bl_dimmed_value b;
                     bl_idle_value := bl_idle_value b; bl_current_value := Some value |}.

Definition wake : Daemon bool :=
  time ← now;
  _ ← set_activity time;
  s ← get;
  let woke_dark_panel := bool_decide (hs_backlight_state s = BacklightOff) in
  _ ← (if bool_decide (hs_backlight_state s = BacklightActive) then mret ()
       else _ ← backlight_set (bl_active_value (hs_backlight s)); set_backlight_state BacklightActive);
  mret woke_dark_panel.

Definition update_idle_backlight : Daemon () :=
  time ← now;
  s ← get;
  let elapsed := sat_sub time (hs_last_activity s) in
  if (BACKLIGHT_OFF_TIMEOUT <=? elapsed)%N && negb (bool_decide (hs_backlight_state s = BacklightOff)) then
    _ ← backlight_set (bl_idle_value (hs_backlight s)); set_backlight_state BacklightOff
  else if (BACKLIGHT_DIM_TIMEOUT <=? elapsed)%N && bool_decide (hs_backlight_state s = BacklightActive) then
    _ ← backlight_set (bl_dimmed_value (hs_backlight s)); set_backlight_state BacklightDimmed
  else mret ().

(** *** Recovery and fallback *)

Definition poll_recovery_gesture : Daemon (option RecoveryAction) :=
  time ← now;
  s ← get;
  let '(gesture, action) := gesture_poll (hs_recovery_gesture s) time in
  _ ← set_gesture gesture;
  match action with
  | None => mret None
  | Some action =>
      _ ← release_all;
      _ ← attempt (SetMarker (bool_decide (action = EnterFallback)));
      mret (Some action)
  end.

Definition emit_fallback_transitions (transitions : list KeyTransition) : Daemon () :=
  each (fun t => emit (kt_key t) (kt_phase t)) transitions.

(** [self.fallback_bar.f(..)] for an operation that returns transitions. *)
Definition on_bar (f : SystemBar -> option (SystemBar * list KeyTransition)) : Daemon (list KeyTransition) :=
  fun s w =>
    match f (hs_fallback_bar s) with
    | None => None
    | Some (bar, transitions) => (_ ← set_bar bar; mret transitions) s w
    end.

Definition refresh_fallback : Daemon () := act RenderFallback.

Definition show_fallback : Daemon () :=
  releases ← on_bar (fun bar => Some (cancel_all bar));
  _ ← emit_fallback_transitions releases;
  s ← get;
  transitions ← on_bar (fun bar => Some (set_fn_pressed bar (hs_fn_pressed s)));
  _ ← emit_fallback_transitions transitions;
  _ ← release_all;
  _ ← refresh_fallback;
  s ← get;
  _ ← (if bool_decide (hs_scanout s = FallbackScanout) then mret () else act FlipFallback);
  set_scanout FallbackScanout.

(** *** What a poll found *)

(** The devices every loop watches; [Some] when the descriptor is readable,
    with what reading it gave. *)
Record Devices := {
  dv_shutdown : option (result DaemonError bool);
  dv_touch_lost : bool;
  dv_fn_lost : bool;
  dv_seat_lost : bool;
  dv_touches : option (result TouchError (list TouchEvent));
  dv_fn : option (list ReadResult);
  dv_seat : option (result DaemonError bool);
}.

Definition require_hardware_fd (lost : bool) (device : Device) : Daemon () :=
  if lost then throw (DeviceLost device) else mret ().

(** [poll_fds[4].revents & POLLIN != 0 && shutdown.consume()?]. *)
Definition shutdown_requested (devices : Devices) : Daemon bool :=
  match dv_shutdown devices with None => mret false | Some outcome => lift outcome end.

Definition require_devices (devices : Devices) : Daemon () :=
  _ ← require_hardware_fd (dv_touch_lost devices) TouchDevice;
  _ ← require_hardware_fd (dv_fn_lost devices) FnDevice;
  require_hardware_fd (dv_seat_lost devices) SeatDevice.

(** The touches of a batch that reach [receiver]: a batch may wake the
    panel. *)
Definition handle_touches (devices : Devices) (receiver : TouchEvent -> Daemon ()) : Daemon bool :=
  match dv_touches devices with
  | None => mret false
  | Some (Err error) => throw (TouchFailed error)
  | Some (Ok events) =>
      woke_panel ← (match events with [] => mret false | _ => wake end);
      redraws ← (fix go events : Daemon bool :=
        match events with
        | [] => mret false
        | event :: events' =>
            s ← get;
            let '(contacts, consumed) := consume (hs_wake_contacts s) event woke_panel in
            _ ← set_wake_contacts contacts;
            if consumed then go events'
            else _ ← receiver event; _ ← go events'; mret true
        end) events;
      mret redraws
  end.

(** The Fn key: its change is told to [receiver]. *)
Definition handle_fn (devices : Devices) (receiver : bool -> Daemon ()) : Daemon bool :=
  match dv_fn devices with
  | None => mret false
  | Some reads =>
      _ ← wake;
      s ← get;
      let '(pressed, outcome) := read_changed (hs_fn_pressed s) None reads in
      _ ← set_fn pressed;
      match outcome with
      | Err error => throw (FnFailed error)
      | Ok None => mret false
      | Ok (Some pressed) =>
          time ← now;
          s ← get;
          _ ← set_gesture (fn_changed (hs_recovery_gesture s) pressed time);
          _ ← receiver pressed;
          mret true
      end
  end.

Definition handle_seat (devices : Devices) : Daemon () :=
  match dv_seat devices with
  | None => mret ()
  | Some outcome =>
      active ← lift outcome;
      if (active : bool) then _ ← wake; mret () else mret ()
  end.

(** *** Waiting for a session *)

(** A connection: its peer and the user active on the seat. *)
Record Connection := {
  cn_peer_uid : option N;
  cn_active_uid : option N;
}.

Inductive WaitPoll :=
| WaitInterrupted
| WaitFailed
| WaitReady (devices : Devices) (connection : option (option Connection)).

(** [None]: continue; [Some None]: shutdown; [Some (Some c)]: accepted. *)
Definition wait_step (poll : WaitPoll) : Daemon (option (option Connection)) :=
  match poll with
  | WaitInterrupted => mret None
  | WaitFailed => throw PollError
  | WaitReady devices connection =>
      shutdown ← shutdown_requested devices;
      if (shutdown : bool) then mret (Some None) else
      _ ← require_devices devices;
      touched ← handle_touches devices (fun event =>
        transitions ← on_bar (fun bar => handle_touch bar event);
        emit_fallback_transitions transitions);
      changed ← handle_fn devices (fun pressed =>
        transitions ← on_bar (fun bar => Some (set_fn_pressed bar pressed));
        emit_fallback_transitions transitions);
      _ ← handle_seat devices;
      _ ← poll_recovery_gesture;
      _ ← (if (touched : bool) || (changed : bool) then refresh_fallback else mret ());
      _ ← update_idle_backlight;
      match connection with
      | None => mret None
      | Some None => throw AcceptFailed
      | Some (Some c) =>
          s ← get;
          if negb (sessions_allowed (hs_recovery_gesture s)) then mret None else
          match cn_peer_uid c with
          | None => throw PeerUnknown
          | Some actual_uid =>
              if bool_decide (cn_active_uid c = Some actual_uid) then
                releases ← on_bar (fun bar => Some (cancel_all bar));
                _ ← emit_fallback_transitions releases;
                _ ← release_all;
                _ ← refresh_fallback;
                mret (Some (Some c))
              else mret None
          end
      end
  end.

(** The loop over the polls given; [None] when it is still waiting after the
    last of them. *)
Fixpoint wait_for_session (polls : list WaitPoll) : Daemon (option (option Connection)) :=
  match polls with
  | [] => mret None
  | poll :: polls' =>
      outcome ← wait_step poll;
      match outcome with
      | None => wait_for_session polls'
      | Some _ => mret outcome
      end
  end.

(** *** A session *)

Inductive SessionPoll :=
| SessionInterrupted
| SessionPollFailed
| SessionReady (devices : Devices) (peer_closed : bool) (message : option (result IoError SessionMessage)).

(** The locals of the loop. *)
Record SessionLocals := {
  sl_waiting_started : N;
  sl_displayed : bool;
  sl_last_sequence : N;
}.

Definition frame_ready (locals : SessionLocals) (index sequence : N) : Daemon SessionLocals :=
  s ← get;
  _ ← (if (index <? hs_session_framebuffers s)%N then mret () else throw BufferOutOfRange);
  _ ← (match hs_scanout s with
       | SessionScanout active _ => if (active =? index)%N then throw BufferResubmitted else mret ()
       | FallbackScanout => mret ()
       end);
  _ ← (if (sequence <=? sl_last_sequence locals)%N then throw StaleSequence else mret ());
  _ ← (if sl_displayed locals then mret () else _ ← wake; mret ());
  _ ← act (DirtyFramebuffer index);
  _ ← act (FlipSession index);
  s ← get;
  _ ← (match hs_scanout s with
       | SessionScanout released_index released_sequence =>
           act (SendHardware (BufferReleased (released_index mod 2 ^ 16) released_sequence))
       | FallbackScanout => mret ()
       end);
  _ ← set_scanout (SessionScanout index sequence);
  mret {| sl_waiting_started := sl_waiting_started locals; sl_displayed := true;
          sl_last_sequence := sequence |}.

(** [inl]: the session ended with this answer; [inr]: continue. *)
Definition session_step (locals : SessionLocals) (poll : SessionPoll) : Daemon (bool + SessionLocals) :=
  time ← (if sl_displayed locals then mret (sl_waiting_started locals) else now);
  if negb (sl_displayed locals) && (SUBMIT_TIMEOUT <=? sat_sub time (sl_waiting_started locals))%N
  then throw SubmitTimeout
  else
  match poll with
  | SessionInterrupted => mret (inr locals)
  | SessionPollFailed => throw PollError
  | SessionReady devices peer_closed message =>
      shutdown ← shutdown_requested devices;
      if (shutdown : bool) then mret (inl false) else
      _ ← require_devices devices;
      _ ← handle_touches devices (fun event => act (SendHardware (Touch event)));
      _ ← handle_fn devices (fun pressed => act (SendHardware (FnChanged pressed)));
      _ ← handle_seat devices;
      recovery ← poll_recovery_gesture;
      if bool_decide (recovery = Some EnterFallback) then mret (inl true) else
      _ ← update_idle_backlight;
      if (peer_closed : bool) then throw SessionClosed else
      match message with
      | None => mret (inr locals)
      | Some (Err error) => throw (ReceiveFailed error)
      | Some (Ok (Key key phase)) => _ ← emit key phase; mret (inr locals)
      | Some (Ok (FrameReady index sequence)) =>
          locals ← frame_ready locals index sequence;
          mret (inr locals)
      end
  end.

(** [None] when the session still runs after the last poll. *)
Fixpoint session_loop (locals : SessionLocals) (polls : list SessionPoll) : Daemon (option bool) :=
  match polls with
  | [] => mret None
  | poll :: polls' =>
      outcome ← session_step locals poll;
      match outcome with
      | inl answer => mret (Some answer)
      | inr locals => session_loop locals polls'
      end
  end.

Definition run_session_inner (polls : list SessionPoll) : Daemon (option bool) :=
  s ← get;
  _ ← act (SendSwapchain (hs_swapchain s) (hs_session_prime_fds s));
  _ ← act (SendHardware (FnChanged (hs_fn_pressed s)));
  started ← now;
  session_loop {| sl_waiting_started := started; sl_displayed := false; sl_last_sequence := 0 |} polls.

(** [let result = m;]: the error is a value. *)
Definition catch {A} (m : Daemon A) : Daemon (result DaemonError A) := fun s w =>
  match m s w with
  | None => None
  | Some (s, w, log, r) => Some (s, w, log, Ok r)
  end.

Definition device_lost {A} (r : result DaemonError A) : bool :=
  match r with Err (DeviceLost _) => true | _ => false end.

(** A session that still runs is left as it is. *)
Definition run_session (polls : list SessionPoll) : Daemon (option bool) :=
  result ← catch (run_session_inner polls);
  match result with
  | Ok None => mret None
  | _ =>
      _ ← catch release_all;
      if device_lost result then lift result
      else
        restored ← catch show_fallback;
        match restored with
        | Err error => if is_ok result then throw error else lift result
        | Ok _ => lift result
        end
  end.

Definition prepare_shutdown : Daemon () :=
  releases ← on_bar (fun bar => Some (cancel_all bar));
  _ ← emit_fallback_transitions releases;
  _ ← release_all;
  s ← get;
  backlight_set (bl_idle_value (hs_backlight s)).

(** The service: the polls of each wait and of the session that follows.
    [false] when it still runs after the last of them. *)
Fixpoint serve (rounds : list (list WaitPoll * list SessionPoll)) : Daemon bool :=
  match rounds with
  | [] => mret false
  | (waits, polls) :: rounds' =>
      outcome ← wait_for_session waits;
      match outcome with
      | None => mret false
      | Some None => _ ← prepare_shutdown; mret true
      | Some (Some _) =>
          result ← catch (run_session polls);
          match result with
          | Ok None => mret false
          | Ok (Some true) => serve rounds'
          | Ok (Some false) => _ ← prepare_shutdown; mret true
          | Err error => if device_lost result then throw error else serve rounds'
          end
      end
  end.
End Service.
Arguments Daemon W A : clear implicits.

(** * Theorems *)

(** ** A logic of the service's operations *)

Section Logic.
Context {W : Type} `{!DaemonWorld W}.

Definition state_ok (s : ServiceHardware) : Prop :=
  bar_ok (hs_fallback_bar s) /\ ascending (hs_keyboard s).

(** An operation never panics, keeps the state well formed and relates the
    states before and after it by its log. *)
Definition valid {A} (R : ServiceHardware -> Log -> ServiceHardware -> Prop) (m : Daemon W A) : Prop :=
  forall s w, state_ok s ->
    match m s w with
    | None => False
    | Some (s', _, log, _) => state_ok s' /\ R s log s'
    end.

(** Actions on neither the keyboard nor the scanout. *)
Definition benign (action : Action) : bool :=
  match action with
  | WriteKey _ _ | FlipSession _ | FlipFallback | SendHardware (BufferReleased _ _) => false
  | _ => true
  end.
Definition same_core (s s' : ServiceHardware) : Prop :=
  hs_keyboard s' = hs_keyboard s /\ hs_scanout s' = hs_scanout s /\
  hs_session_framebuffers s' = hs_session_framebuffers s.

Class Monitor (R : ServiceHardware -> Log -> ServiceHardware -> Prop) : Prop := {
  monitor_app s l s' l' s'' : R s l s' -> R s' l' s'' -> R s (l ++ l') s'';
  monitor_benign s log s' : state_ok s -> same_core s s' -> Forall (fun e => benign e.1 = true) log -> R s log s';
  monitor_emit key phase : valid R (emit key phase : Daemon W _);
  monitor_release : valid R (release_all : Daemon W _);
}.

Section Rules.
Context (R : ServiceHardware -> Log -> ServiceHardware -> Prop) {HR : Monitor R}.

Lemma valid_benign {A} (m : Daemon W A) :
  (forall s w, state_ok s -> exists s' w' log r, m s w = Some (s', w', log, r) /\ state_ok s' /\
    same_core s s' /\ Forall (fun e => benign e.1 = true) log) -> valid R m.
Proof.
  intros H s w Hs. destruct (H s w Hs) as (s' & w' & log & r & -> & Hs' & Hc & Hl).
  split; [done|]. by apply monitor_benign.
Qed.

Ltac solve_benign :=
  eexists _, _, _, _; split; [reflexivity|]; split; [assumption|];
  split; [split; [reflexivity|split; reflexivity]|]; repeat constructor; auto.

Lemma valid_ret {A} (a : A) : valid R (mret a : Daemon W A).
Proof. apply valid_benign. intros s w Hs. solve_benign. Qed.
Lemma valid_throw {A} e : valid R (throw e : Daemon W A).
Proof. apply valid_benign. intros s w Hs. solve_benign. Qed.
Lemma valid_lift {A} r : valid R (lift r : Daemon W A).
Proof. apply valid_benign. intros s w Hs. solve_benign. Qed.
Lemma valid_get : valid R (get : Daemon W _).
Proof. apply valid_benign. intros s w Hs. solve_benign. Qed.
Lemma valid_now : valid R (now : Daemon W _).
Proof.
  apply valid_benign. intros s w Hs. unfold now. destruct (world_now w). solve_benign.
Qed.

Lemma valid_attempt action : benign action = true -> valid R (attempt action : Daemon W _).
Proof.
  intros Hb. apply valid_benign. intros s w Hs. unfold attempt. destruct (world_act action w).
  solve_benign.
Qed.

Lemma valid_bind {A B} (m : Daemon W A) (k : A -> Daemon W B) :
  valid R m -> (forall a, valid R (k a)) -> valid R (m ≫= k).
Proof.
  intros Hm Hk s w Hs. specialize (Hm s w Hs). unfold mbind, daemon_bind.
  destruct (m s w) as [[[[s1 w1] log1] [a|error]]|]; [|exact Hm|exact Hm]. destruct Hm as [Hs1 H1].
  specialize (Hk a s1 w1 Hs1). destruct (k a s1 w1) as [[[[s2 w2] log2] r]|]; [|exact Hk].
  destruct Hk as [Hs2 H2]. split; [done|]. by eapply monitor_app.
Qed.

(** After [get] the state is well formed. *)
Lemma valid_get_bind {A} (k : ServiceHardware -> Daemon W A) :
  (forall s, state_ok s -> valid R (k s)) -> valid R (get ≫= k).
Proof.
  intros Hk s w Hs. unfold mbind, daemon_bind, get. specialize (Hk s Hs s w Hs).
  by destruct (k s s w) as [[[[s2 w2] log2] r]|].
Qed.

Lemma valid_catch {A} (m : Daemon W A) : valid R m -> valid R (catch m).
Proof.
  intros Hm s w Hs. specialize (Hm s w Hs). unfold catch. by destruct (m s w) as [[[[s1 w1] log1] r]|].
Qed.

Lemma valid_act action : benign action = true -> valid R (act action : Daemon W _).
Proof.
  intros Hb. apply valid_bind; [by apply valid_attempt|]. intros []; [apply valid_ret|apply valid_throw].
Qed.

Lemma valid_each {A} (f : A -> Daemon W ()) l : (forall a, valid R (f a)) -> valid R (each f l).
Proof.
  intros Hf. induction l; cbn [each]; [apply valid_ret|]. apply valid_bind; [done|]. by intros [].
Qed.

Ltac solve_setter := apply valid_benign; intros s w Hs; solve_benign.
Lemma valid_set_fn v : valid R (set_fn v : Daemon W _). Proof. solve_setter. Qed.
Lemma valid_set_backlight v : valid R (set_backlight v : Daemon W _). Proof. solve_setter. Qed.
Lemma valid_set_activity v : valid R (set_activity v : Daemon W _). Proof. solve_setter. Qed.
Lemma valid_set_backlight_state v : valid R (set_backlight_state v : Daemon W _). Proof. solve_setter. Qed.
Lemma valid_set_wake_contacts v : valid R (set_wake_contacts v : Daemon W _). Proof. solve_setter. Qed.
Lemma valid_set_gesture v : valid R (set_gesture v : Daemon W _). Proof. solve_setter. Qed.

Lemma valid_on_bar f :
  (forall bar, bar_ok bar -> exists bar' ts, f bar = Some (bar', ts) /\ bar_ok bar') -> valid R (on_bar f : Daemon W _).
Proof.
  intros Hf. apply valid_benign. intros s w [Hb Hk]. destruct (Hf _ Hb) as (bar' & ts & E & Hb').
  unfold on_bar. rewrite E. eexists _, _, _, _. split; [reflexivity|]. split; [by split|]. split; [by split|constructor].
Qed.
End Rules.
End Logic.

Create HintDb daemon.
#[export] Hint Resolve valid_ret valid_throw valid_lift valid_get valid_now valid_catch valid_act valid_attempt
  valid_each valid_set_fn valid_set_backlight valid_set_activity valid_set_backlight_state
  valid_set_wake_contacts valid_set_gesture monitor_emit monitor_release : daemon.

#[export] Hint Extern 0 (benign _ = true) => reflexivity : daemon.
#[export] Hint Extern 0 (Monitor _) => eassumption : daemon.

(** Follow the text of an operation down to its primitives. *)
Ltac follow :=
  repeat first
    [ progress eauto with daemon nocore
    | eapply valid_bind; [eassumption| |intros ?]
    | match goal with
      | |- valid _ (if ?b then _ else _) => destruct b
      | |- valid _ (match ?x with _ => _ end) => destruct x
      end ].

Section Operations.
Context {W : Type} `{!DaemonWorld W} (R : ServiceHardware -> Log -> ServiceHardware -> Prop) {HR : Monitor R}.

Lemma valid_backlight_set v : valid R (backlight_set v : Daemon W _).
Proof. unfold backlight_set. follow. Qed.
Hint Resolve valid_backlight_set : daemon.

Lemma valid_wake : valid R (wake : Daemon W _).
Proof. unfold wake. follow. Qed.
Hint Resolve valid_wake : daemon.

Lemma valid_update_idle_backlight : valid R (update_idle_backlight : Daemon W _).
Proof. unfold update_idle_backlight. follow. Qed.
Hint Resolve valid_update_idle_backlight : daemon.

Lemma valid_poll_recovery_gesture : valid R (poll_recovery_gesture : Daemon W _).
Proof. unfold poll_recovery_gesture. follow. Qed.
Hint Resolve valid_poll_recovery_gesture : daemon.

Lemma valid_emit_fallback_transitions ts : valid R (emit_fallback_transitions ts : Daemon W _).
Proof. unfold emit_fallback_transitions. follow. Qed.
Hint Resolve valid_emit_fallback_transitions : daemon.

Lemma valid_on_cancel : valid R (on_bar (fun bar => Some (cancel_all bar)) : Daemon W _).
Proof.
  apply (valid_on_bar R). intros bar Hb. pose proof (cancel_all_spec bar Hb) as (Hb' & _).
  destruct (cancel_all bar) as [bar' ts]. by exists bar', ts.
Qed.
Lemma valid_on_fn v : valid R (on_bar (fun bar => Some (set_fn_pressed bar v)) : Daemon W _).
Proof.
  apply (valid_on_bar R). intros bar Hb. destruct (set_fn_override_ok bar (if v then Some (alternate (sb_default_layer bar)) else None) Hb)
    as (bar' & ts & E & Hb' & _). by exists bar', ts.
Qed.
Lemma valid_on_touch event :
  (te_contact_id event <= u32_max)%N -> valid R (on_bar (fun bar => handle_touch bar event) : Daemon W _).
Proof.
  intros Hid. apply (valid_on_bar R). intros bar Hb. destruct (handle_touch_ok bar event Hb Hid) as (bar' & ts & E & Hb' & _).
  by exists bar', ts.
Qed.
Hint Resolve valid_on_cancel valid_on_fn valid_on_touch : daemon.

(** The contact identifiers of a poll are [u32]. *)
Definition devices_ok (devices : Devices) : Prop :=
  match dv_touches devices with
  | Some (Ok events) => Forall (fun event => te_contact_id event <= u32_max)%N events
  | _ => True
  end.

Lemma valid_shutdown_requested devices : valid R (shutdown_requested devices : Daemon W _).
Proof. unfold shutdown_requested. follow. Qed.
Lemma valid_require_hardware_fd lost device : valid R (require_hardware_fd lost device : Daemon W _).
Proof. unfold require_hardware_fd. follow. Qed.
Hint Resolve valid_shutdown_requested valid_require_hardware_fd : daemon.
Lemma valid_require_devices devices : valid R (require_devices devices : Daemon W _).
Proof. unfold require_devices. follow. Qed.
Hint Resolve valid_require_devices : daemon.

Lemma valid_handle_touches devices receiver :
  devices_ok devices -> (forall event, (te_contact_id event <= u32_max)%N -> valid R (receiver event)) ->
  valid R (handle_touches devices receiver : Daemon W _).
Proof.
  intros Hd Hr. unfold handle_touches, devices_ok in *. destruct (dv_touches devices) as [[events|error]|]; [|follow..].
  apply valid_bind; [done|destruct events; follow|]. intros woke. apply valid_bind; [done| |follow].
  induction Hd as [|event events He _ IH]; [follow|]. apply valid_bind; [done|follow|]. intros s.
  destruct (consume _ event woke) as [contacts consumed]. apply valid_bind; [done|follow|]. intros _.
  destruct consumed; [exact IH|]. apply valid_bind; [done|by apply Hr|]. intros _. apply valid_bind; [done|exact IH|follow].
Qed.

Lemma valid_handle_fn devices receiver :
  (forall pressed, valid R (receiver pressed)) -> valid R (handle_fn devices receiver : Daemon W _).
Proof. intros Hr. unfold handle_fn. follow. Qed.

Lemma valid_handle_seat devices : valid R (handle_seat devices : Daemon W _).
Proof. unfold handle_seat. follow. Qed.
Hint Resolve valid_handle_seat : daemon.

Definition wait_ok (poll : WaitPoll) : Prop :=
  match poll with WaitReady devices _ => devices_ok devices | _ => True end.
Definition session_ok (poll : SessionPoll) : Prop :=
  match poll with SessionReady devices _ _ => devices_ok devices | _ => True end.

Lemma valid_wait_step poll : wait_ok poll -> valid R (wait_step poll : Daemon W _).
Proof.
  intros Hp. destruct poll as [| |devices connection]; cbn [wait_step]; [follow|follow|].
  apply valid_bind; [done|follow|]. intros []; [follow|]. apply valid_bind; [done|follow|]. intros _.
  apply valid_bind; [done|apply valid_handle_touches; [done|intros event He; follow]|]. intros touched.
  apply valid_bind; [done|apply valid_handle_fn; intros pressed; follow|]. intros changed. unfold refresh_fallback. follow.
Qed.
Hint Resolve valid_wait_step : daemon.

Lemma valid_wait_for_session polls : Forall wait_ok polls -> valid R (wait_for_session polls : Daemon W _).
Proof. induction 1; cbn [wait_for_session]; follow. Qed.

End Operations.

#[export] Hint Resolve valid_backlight_set valid_wake valid_update_idle_backlight valid_poll_recovery_gesture
  valid_emit_fallback_transitions valid_on_cancel valid_on_fn valid_on_touch valid_shutdown_requested
  valid_require_devices valid_handle_seat valid_wait_step valid_wait_for_session : daemon.

(** ** Keys *)

Definition key_of (key : LinuxKey) : option SystemKey :=
  List.find (fun k => bool_decide (linux_key k = key)) all_keys.

#[local] Arguments key_of : simpl never.

Lemma key_of_linux_key key : key_of (linux_key key) = Some key.
Proof. by destruct key. Qed.

Definition writes_ok (log : Log) : bool :=
  forallb (fun e => match e.1 with WriteKey _ _ => e.2 | _ => true end) log.

(** The keys the kernel holds down after the writes of a log that succeeded;
    [None] when one is pressed twice, released or repeated without being down. *)
Fixpoint kernel_keys (keys : list SystemKey) (log : Log) : option (list SystemKey) :=
  match log with
  | [] => Some keys
  | (WriteKey key value, true) :: log' =>
      key ← key_of key;
      match value, set_contains key keys with
      | 1%Z, false => kernel_keys (set_add key keys) log'
      | 0%Z, true => kernel_keys (set_remove key keys) log'
      | 2%Z, true => kernel_keys keys log'
      | _, _ => None
      end
  | _ :: log' => kernel_keys keys log'
  end.

Lemma kernel_keys_app keys l k : kernel_keys keys (l ++ k) = (keys ← kernel_keys keys l; kernel_keys keys k).
Proof.
  revert keys; induction l as [|[action ok] l IH]; intros keys; [done|]. cbn [app kernel_keys].
  destruct action, ok; try done. destruct (key_of key) as [sk|]; [|done]. cbn [mbind option_bind].
  destruct value as [|[[]|[]|]|]; try done; destruct (set_contains sk keys); done.
Qed.

Lemma kernel_keys_benign keys log :
  Forall (fun e => match e.1 with WriteKey _ _ => False | _ => True end) log -> kernel_keys keys log = Some keys.
Proof. induction 1 as [|[action ok] log Ha _ IH]; [done|]. cbn in *. by destruct action. Qed.

(** When every write succeeded, the kernel holds what the keyboard records. *)
Definition keys_follow (s : ServiceHardware) (log : Log) (s' : ServiceHardware) : Prop :=
  writes_ok log = true -> kernel_keys (hs_keyboard s) log = Some (hs_keyboard s').

Section Keys.
Context {W : Type} `{!DaemonWorld W}.

Lemma write_key_outcome key value s (w : W) :
  exists w' done r, write_key key value s w = Some (s, w', [(WriteKey (linux_key key) value, done)], r).
Proof.
  unfold write_key, act, attempt, mbind, daemon_bind. destruct (world_act _ w) as [w' []]; by eexists _, _, _.
Qed.

(** The keyboard changes with the write of a key. *)
Lemma keys_write key value keyboard s (w : W) :
  state_ok s -> ascending keyboard ->
  match value, set_contains key (hs_keyboard s) with
  | 1%Z, false => keyboard = set_add key (hs_keyboard s)
  | 0%Z, true => keyboard = set_remove key (hs_keyboard s)
  | _, _ => False
  end ->
  match (_ ← (set_keyboard keyboard : Daemon W _); write_key key value) s w with
  | None => False
  | Some (s', _, log, _) => state_ok s' /\ keys_follow s log s'
  end.
Proof.
  intros [Hb Hk] Ha Hv. unfold mbind, daemon_bind, set_keyboard. cbv beta iota.
  match goal with |- context [write_key key value ?s1 w] => destruct (write_key_outcome key value s1 w) as (w' & ok & r & ->) end.
  split; [by split|]. unfold keys_follow. cbn. destruct ok; [|done]. intros _. rewrite key_of_linux_key. cbn [mbind option_bind].
  destruct value as [|[]|], (set_contains key (hs_keyboard s)); try done; by rewrite Hv.
Qed.

Lemma keys_emit key phase : valid keys_follow (emit key phase : Daemon W _).
Proof.
  intros s w Hs. unfold emit, set_insert. unfold mbind at 1, daemon_bind at 1, get.
  assert (state_ok s /\ keys_follow s [] s) as Hidle by done. pose proof Hs as [_ Hk].
  destruct phase, (set_contains key (hs_keyboard s)) eqn:E; cbn [negb]; try exact Hidle.
  - pose proof (keys_write key 0 (set_remove key (hs_keyboard s)) s w Hs (ascending_remove _ _ Hk)) as H. rewrite E in H.
    specialize (H eq_refl).
    match type of H with match ?o with _ => _ end => destruct o as [[[[s' w'] log] r]|]; exact H end.
  - pose proof (keys_write key 1 (set_add key (hs_keyboard s)) s w Hs (ascending_add _ _ Hk)) as H. rewrite E in H.
    specialize (H eq_refl).
    match type of H with match ?o with _ => _ end => destruct o as [[[[s' w'] log] r]|]; exact H end.
  - destruct (write_key_outcome key 2 s w) as (w' & ok & r & ->). split; [done|]. unfold keys_follow. cbn.
    destruct ok; [|done]. intros _. rewrite key_of_linux_key. cbn [mbind option_bind]. by rewrite E.
Qed.

Lemma kernel_release key keys log :
  ascending (key :: keys) ->
  kernel_keys (key :: keys) ((WriteKey (linux_key key) 0, true) :: log) = kernel_keys keys log.
Proof.
  intros Ha. cbn [kernel_keys]. rewrite key_of_linux_key. cbn [mbind option_bind].
  assert (set_contains key (key :: keys) = true) as -> by (apply set_contains_spec; left).
  pose proof (ascending_NoDup _ Ha) as [Hn _]%NoDup_cons. f_equal.
  apply ascending_ext; [by apply ascending_remove|apply Ha|]. intros x.
  rewrite elem_of_set_remove, elem_of_cons. naive_solver.
Qed.

Lemma write_key_result key value s (w : W) :
  exists (w' : W) (ok : bool), write_key key value s w = Some (s, w', [(WriteKey (linux_key key) value, ok)],
    (if ok then Ok () else Err (ActionFailed (WriteKey (linux_key key) value)))).
Proof.
  unfold write_key, act, attempt, mbind, daemon_bind. destruct (world_act _ w) as [w' ok].
  exists w', ok. by destruct ok.
Qed.

(** Writing a release for each of some keys. *)
Lemma release_each keys s (w : W) :
  exists w' log r, each (fun key => write_key key 0) keys s w = Some (s, w', log, r) /\
    Forall (fun e => match e.1 with WriteKey _ _ => True | _ => False end) log /\
    (writes_ok log = true -> ascending keys -> kernel_keys keys log = Some []).
Proof.
  revert w; induction keys as [|key keys IH]; intros w; cbn [each].
  { eexists _, _, _. split; [done|]. by split. }
  unfold mbind, daemon_bind. destruct (write_key_result key 0 s w) as (w1 & [] & ->).
  - destruct (IH w1) as (w2 & log & r & -> & Hl & Hk). eexists _, _, _. split; [done|]. split; [by constructor|].
    intros Hw Ha. cbn [app]. rewrite kernel_release by done. by apply Hk, Ha.
  - eexists _, _, _. split; [done|]. split; [by repeat constructor|]. done.
Qed.

Lemma release_all_outcome s (w : W) :
  state_ok s -> exists s' w' log r, release_all s w = Some (s', w', log, r) /\ state_ok s' /\
    keys_follow s log s' /\ hs_keyboard s' = [] /\ hs_scanout s' = hs_scanout s /\
    hs_session_framebuffers s' = hs_session_framebuffers s /\
    Forall (fun e => match e.1 with WriteKey _ _ => True | _ => False end) log.
Proof.
  intros [Hb Hk]. unfold release_all, get, set_keyboard. unfold mbind, daemon_bind. cbv beta iota.
  match goal with |- context [each _ _ ?s1 w] => destruct (release_each (hs_keyboard s) s1 w) as (w' & log & r & -> & Hl & Hf) end.
  eexists _, _, _, _. split; [done|]. split; [by split|]. split; [|done]. intros Hw. by apply Hf.
Qed.

Lemma keys_release : valid keys_follow (release_all : Daemon W _).
Proof.
  intros s w Hs. by destruct (release_all_outcome s w Hs) as (s' & w' & log & r & -> & Hs' & Hk & _).
Qed.

#[export] Instance keys_monitor : Monitor (W := W) keys_follow.
Proof.
  split.
  - intros s l s' l' s'' H1 H2 Hw. unfold writes_ok in Hw. rewrite forallb_app in Hw.
    apply andb_true_iff in Hw as [Hw1 Hw2]. rewrite kernel_keys_app, H1 by done. by apply H2.
  - intros s log s' _ (Hk & _ & _) Hl _. rewrite Hk. apply kernel_keys_benign.
    eapply Forall_impl; [exact Hl|]. intros [[] ok]; done.
  - apply keys_emit.
  - apply keys_release.
Qed.
End Keys.

Section KeysService.
Context {W : Type} `{!DaemonWorld W}.

Lemma keys_act action :
  match action with WriteKey _ _ => False | _ => True end -> valid keys_follow (act action : Daemon W _).
Proof.
  intros Ha s w Hs. unfold act, attempt, mbind, daemon_bind. destruct (world_act action w) as [w' ok].
  assert (kernel_keys (hs_keyboard s) ([(action, ok)] ++ []) = Some (hs_keyboard s)) as Hk.
  { apply kernel_keys_benign. repeat constructor. cbn. by destruct action. }
  destruct ok; (split; [exact Hs|intros _; exact Hk]).
Qed.

Lemma keys_set_scanout v : valid keys_follow (set_scanout v : Daemon W _).
Proof. by intros s w Hs. Qed.

Hint Extern 1 => exact I : daemon.
Hint Resolve keys_act keys_set_scanout keys_monitor : daemon.

Lemma keys_show_fallback : valid keys_follow (show_fallback : Daemon W _).
Proof. pose proof (keys_monitor (W := W)). unfold show_fallback, refresh_fallback. follow. Qed.
Hint Resolve keys_show_fallback : daemon.

Lemma keys_frame_ready locals index sequence : valid keys_follow (frame_ready locals index sequence : Daemon W _).
Proof. pose proof (keys_monitor (W := W)). unfold frame_ready. follow. Qed.
Hint Resolve keys_frame_ready : daemon.

Lemma keys_session_step locals poll : session_ok poll -> valid keys_follow (session_step locals poll : Daemon W _).
Proof.
  pose proof (keys_monitor (W := W)) as HR. intros Hp. unfold session_step.
  apply valid_bind; [done|follow|]. intros time. destruct (_ && _); [follow|].
  destruct poll as [| |devices closed message]; [follow|follow|].
  apply valid_bind; [done|follow|]. intros []; [follow|]. apply valid_bind; [done|follow|]. intros _.
  apply valid_bind; [done|apply valid_handle_touches; [done|done|intros event _; follow]|]. intros _.
  apply valid_bind; [done|apply valid_handle_fn; [done|intros pressed; follow]|]. intros _. follow.
Qed.
Hint Resolve keys_session_step : daemon.

Lemma keys_session_loop locals polls : Forall session_ok polls -> valid keys_follow (session_loop locals polls : Daemon W _).
Proof.
  pose proof (keys_monitor (W := W)) as HR. intros Hp. revert locals.
  induction Hp as [|poll polls Ho _ IH]; intros locals; cbn [session_loop]; follow.
Qed.
Hint Resolve keys_session_loop : daemon.

Lemma keys_run_session_inner polls :
  Forall session_ok polls -> valid keys_follow (run_session_inner polls : Daemon W _).
Proof. pose proof (keys_monitor (W := W)) as HR. intros Hp. unfold run_session_inner. follow. Qed.
Hint Resolve keys_run_session_inner : daemon.

Lemma keys_run_session polls : Forall session_ok polls -> valid keys_follow (run_session polls : Daemon W _).
Proof. pose proof (keys_monitor (W := W)) as HR. intros Hp. unfold run_session. follow. Qed.
Hint Resolve keys_run_session : daemon.

Lemma keys_prepare_shutdown : valid keys_follow (prepare_shutdown : Daemon W _).
Proof. pose proof (keys_monitor (W := W)) as HR. unfold prepare_shutdown. follow. Qed.
Hint Resolve keys_prepare_shutdown : daemon.

Definition round_ok (round : list WaitPoll * list SessionPoll) : Prop :=
  Forall wait_ok round.1 /\ Forall session_ok round.2.

Lemma keys_serve rounds : Forall round_ok rounds -> valid keys_follow (serve rounds : Daemon W _).
Proof.
  pose proof (keys_monitor (W := W)) as HR. intros Hr. 
  induction Hr as [|[waits polls] rounds [Hw Hp] _ IH]; cbn [serve]; [follow|]. cbn in Hw, Hp.
  apply valid_bind; [done|follow|]. intros [[c|]|]; [|follow|follow].
  apply valid_bind; [done|follow|]. intros [[[]|]|error]; follow.
Qed.
End KeysService.

(** ** A session leaves no key down *)

Section Release.
Context {W : Type} `{!DaemonWorld W}.

Definition stays_released {A} (m : Daemon W A) : Prop :=
  forall s w, hs_keyboard s = [] ->
    match m s w with None => True | Some (s', _, _, _) => hs_keyboard s' = [] end.

Lemma stays_bind {A B} (m : Daemon W A) (k : A -> Daemon W B) :
  stays_released m -> (forall a, stays_released (k a)) -> stays_released (m ≫= k).
Proof.
  intros Hm Hk s w Hs. specialize (Hm s w Hs). unfold mbind, daemon_bind.
  destruct (m s w) as [[[[s1 w1] log1] [a|error]]|]; [|exact Hm|exact Hm].
  specialize (Hk a s1 w1 Hm). by destruct (k a s1 w1) as [[[[s2 w2] log2] r]|].
Qed.

Lemma stays_on_bar {A} f (k : list KeyTransition -> Daemon W A) :
  (forall bar bar' ts, f bar = Some (bar', ts) -> Forall (fun t => kt_phase t = Released) ts) ->
  (forall ts, Forall (fun t => kt_phase t = Released) ts -> stays_released (k ts)) ->
  stays_released (on_bar f ≫= k).
Proof.
  intros Hf Hk s w Hs. unfold mbind at 1, daemon_bind at 1, on_bar.
  destruct (f (hs_fallback_bar s)) as [[bar ts]|] eqn:E; [|done]. specialize (Hk ts (Hf _ _ _ E)).
  unfold set_bar, mbind, daemon_bind, mret, daemon_ret. cbv beta iota.
  match goal with |- context [k ts ?s1 w] => specialize (Hk s1 w Hs); destruct (k ts s1 w) as [[[[s2 w2] log2] r]|] end; done.
Qed.

Lemma stays_act action : stays_released (act action : Daemon W _).
Proof.
  intros s w Hs. unfold act, attempt, mbind, daemon_bind. destruct (world_act action w) as [w' ok]. by destruct ok.
Qed.

Lemma stays_emit_released ts :
  Forall (fun t => kt_phase t = Released) ts -> stays_released (emit_fallback_transitions ts : Daemon W _).
Proof.
  unfold emit_fallback_transitions. induction 1 as [|t ts Ht _ IH]; cbn [each]; [by intros s w Hs|].
  apply stays_bind; [|by intros []]. intros s w Hs. unfold emit, set_insert. rewrite Ht.
  unfold mbind, daemon_bind, get. rewrite Hs. done.
Qed.

Lemma stays_release_all : stays_released (release_all : Daemon W _).
Proof.
  intros s w Hs. unfold release_all, get, set_keyboard. unfold mbind, daemon_bind. cbv beta iota. by rewrite Hs.
Qed.

Lemma released_cancel bar bar' ts :
  Some (cancel_all bar) = Some (bar', ts) -> Forall (fun t => kt_phase t = Released) ts.
Proof.
  unfold cancel_all. intros [= _ <-]. apply Forall_forall. intros t Ht.
  apply list_elem_of_In, in_map_iff in Ht as (key & <- & _). done.
Qed.

Lemma released_fn v bar bar' ts :
  Some (set_fn_pressed bar v) = Some (bar', ts) -> Forall (fun t => kt_phase t = Released) ts.
Proof.
  unfold set_fn_pressed, set_fn_override. destruct (_ && _); [by intros [= _ <-]|].
  destruct (cancel_all bar) as [b releases] eqn:E. intros [= _ <-]. eapply (released_cancel bar b). by rewrite E.
Qed.

Lemma stays_show_fallback : stays_released (show_fallback : Daemon W _).
Proof.
  unfold show_fallback. apply stays_on_bar; [apply released_cancel|]. intros ts Hts.
  apply stays_bind; [by apply stays_emit_released|]. intros _. apply stays_bind; [by intros s w Hs|]. intros s0.
  apply stays_on_bar; [apply released_fn|]. intros ts' Hts'. apply stays_bind; [by apply stays_emit_released|]. intros _.
  apply stays_bind; [apply stays_release_all|]. intros _. apply stays_bind; [apply stays_act|]. intros _.
  apply stays_bind; [by intros s w Hs|]. intros s1. apply stays_bind; [|by intros _ s w Hs].
  destruct (bool_decide _); [by intros s w Hs|apply stays_act].
Qed.

Lemma catch_bind_inv {A B} (m : Daemon W A) (k : result DaemonError A -> Daemon W B) s w s' w' log r :
  (catch m ≫= k) s w = Some (s', w', log, r) ->
  exists s1 w1 log1 r1 log2, m s w = Some (s1, w1, log1, r1) /\ k r1 s1 w1 = Some (s', w', log2, r) /\
    log = log1 ++ log2.
Proof.
  unfold mbind, daemon_bind, catch. destruct (m s w) as [[[[s1 w1] log1] r1]|]; [|done].
  destruct (k r1 s1 w1) as [[[[s2 w2] log2] r2]|] eqn:E; [|done]. intros [= <- <- <- <-].
  by exists s1, w1, log1, r1, log2.
Qed.

(** However a session ends, no key stays pressed. *)
Lemma run_session_releases polls s w s' w' log r :
  state_ok s -> Forall session_ok polls ->
  run_session polls s w = Some (s', w', log, r) -> r <> Ok None -> hs_keyboard s' = [].
Proof.
  intros Hs Hp H Hr. unfold run_session in H. apply catch_bind_inv in H as (s1 & w1 & log1 & r1 & log2 & H1 & H2 & _).
  assert (state_ok s1) as Hs1.
  { assert (valid keys_follow (run_session_inner polls : Daemon W _)) as Hv.
    { pose proof (keys_monitor (W := W)) as HR. unfold run_session_inner.
      apply valid_bind; [done|by apply valid_get|]. intros s0.
      repeat (apply valid_bind; [done|first [by apply keys_act|by apply valid_now]|intros ?]). by apply keys_session_loop. }
    specialize (Hv s w Hs). rewrite H1 in Hv. apply Hv. }
  assert (forall k : Daemon W (option bool), stays_released k ->
    (_ ← catch release_all; k) s1 w1 = Some (s', w', log2, r) -> hs_keyboard s' = []) as Hend.
  { intros k Hk H. apply catch_bind_inv in H as (s2 & w2 & log3 & r2 & log4 & H3 & H4 & _).
    destruct (release_all_outcome s1 w1 Hs1) as (s3 & w3 & l3 & r3 & E & _ & _ & Hkb & _). rewrite E in H3.
    injection H3 as -> -> -> ->. specialize (Hk s2 w2 Hkb). by rewrite H4 in Hk. }
  assert (stays_released (if device_lost r1 then lift r1 else
    restored ← catch show_fallback;
    match restored with
    | Err error => if is_ok r1 then throw error else lift r1
    | Ok _ => lift r1
    end)) as Hrest.
  { destruct (device_lost r1); [by intros s0 w0 H0|]. apply stays_bind.
    - intros s0 w0 H0. pose proof (stays_show_fallback s0 w0 H0) as Hf. unfold catch.
      by destruct (show_fallback s0 w0) as [[[[? ?] ?] ?]|].
    - intros [u|error]; [by intros s0 w0 H0|]. by destruct (is_ok r1); intros s0 w0 H0. }
  destruct r1 as [[answer|]|error]; [by apply (Hend _ Hrest)| |by apply (Hend _ Hrest)].
  unfold mret, daemon_ret in H2. injection H2 as <- <- <- <-. done.
Qed.

(** [bind] step by step: the first operation ended well. *)
Lemma bind_Ok_inv {A B} (m : Daemon W A) (k : A -> Daemon W B) s w s' w' log b :
  (m ≫= k) s w = Some (s', w', log, Ok b) ->
  exists s1 w1 log1 a log2, m s w = Some (s1, w1, log1, Ok a) /\ k a s1 w1 = Some (s', w', log2, Ok b) /\
    log = log1 ++ log2.
Proof.
  unfold mbind, daemon_bind. destruct (m s w) as [[[[s1 w1] log1] [a|error]]|]; [|done|done].
  destruct (k a s1 w1) as [[[[s2 w2] log2] r2]|] eqn:E; [|done]. intros [= <- <- <- ->].
  by exists s1, w1, log1, a, log2.
Qed.

Lemma stays_backlight_set v : stays_released (backlight_set v : Daemon W _).
Proof.
  unfold backlight_set. apply stays_bind; [by intros s w Hs|]. intros s0. destruct (bool_decide _); [by intros s w Hs|].
  apply stays_bind; [apply stays_act|]. by intros [] s w Hs.
Qed.

Lemma prepare_shutdown_releases s w s' w' log u :
  state_ok s -> prepare_shutdown s w = Some (s', w', log, Ok u) -> hs_keyboard s' = [].
Proof.
  pose proof (keys_monitor (W := W)) as HR. intros Hs H. unfold prepare_shutdown in H.
  apply bind_Ok_inv in H as (s1 & w1 & l1 & ts & l2 & H1 & H & _).
  pose proof (valid_on_cancel keys_follow s w Hs) as Hv1. rewrite H1 in Hv1. destruct Hv1 as [Hs1 _].
  apply bind_Ok_inv in H as (s2 & w2 & l3 & [] & l4 & H2 & H & _).
  pose proof (valid_emit_fallback_transitions keys_follow ts s1 w1 Hs1) as Hv2. rewrite H2 in Hv2. destruct Hv2 as [Hs2 _].
  apply bind_Ok_inv in H as (s3 & w3 & l5 & [] & l6 & H3 & H & _).
  destruct (release_all_outcome s2 w2 Hs2) as (s4 & w4 & l7 & r4 & E & _ & _ & Hk & _). rewrite E in H3.
  injection H3 as -> -> -> ->. apply bind_Ok_inv in H as (s5 & w5 & l8 & s6 & l9 & H4 & H & _).
  injection H4 as <- <- <- <-. pose proof (stays_backlight_set (bl_idle_value (hs_backlight s3)) s3 w3 Hk) as Hb.
  by rewrite H in Hb.
Qed.
End Release.

(** ** Admission *)

Section Admission.
Context {W : Type} `{!DaemonWorld W}.

(** Operations on the keyboard alone. *)
Definition keyboard_only {A} (m : Daemon W A) : Prop :=
  forall s w, match m s w with
    | None => True
    | Some (s', _, _, _) => hs_recovery_gesture s' = hs_recovery_gesture s /\ hs_fallback_bar s' = hs_fallback_bar s
    end.

Lemma keyboard_only_bind {A B} (m : Daemon W A) (k : A -> Daemon W B) :
  keyboard_only m -> (forall a, keyboard_only (k a)) -> keyboard_only (m ≫= k).
Proof.
  intros Hm Hk s w. specialize (Hm s w). unfold mbind, daemon_bind.
  destruct (m s w) as [[[[s1 w1] log1] [a|error]]|]; [|exact Hm|exact Hm]. destruct Hm as [H1 H2].
  specialize (Hk a s1 w1). destruct (k a s1 w1) as [[[[s2 w2] log2] r]|]; [|done]. destruct Hk. by split; etransitivity.
Qed.

Lemma keyboard_only_act action : keyboard_only (act action : Daemon W _).
Proof.
  intros s w. unfold act, attempt, mbind, daemon_bind. destruct (world_act action w) as [w' ok]. by destruct ok.
Qed.

Lemma keyboard_only_emit key phase : keyboard_only (emit key phase : Daemon W _).
Proof.
  unfold emit. apply keyboard_only_bind; [by intros s w|]. intros s0. destruct (set_insert _ _) as [inserted fresh].
  destruct phase; match goal with |- context [if ?b then _ else _] => destruct b end; try (by intros s w);
    first [apply keyboard_only_act | apply keyboard_only_bind; [by intros s w|intros []; apply keyboard_only_act]].
Qed.

Lemma keyboard_only_each {A} (f : A -> Daemon W ()) l : (forall a, keyboard_only (f a)) -> keyboard_only (each f l).
Proof.
  intros Hf. induction l; cbn [each]; [by intros s w|]. apply keyboard_only_bind; [done|]. by intros [].
Qed.

Lemma keyboard_only_release_all : keyboard_only (release_all : Daemon W _).
Proof.
  unfold release_all. apply keyboard_only_bind; [by intros s w|]. intros s0. apply keyboard_only_bind; [by intros s w|].
  intros []. apply keyboard_only_each. intros key. apply keyboard_only_act.
Qed.

Lemma valid_bind_Ok {A B} (m : Daemon W A) (k : A -> Daemon W B) s w s' w' log b :
  valid keys_follow m -> state_ok s -> (m ≫= k) s w = Some (s', w', log, Ok b) ->
  exists s1 w1 log1 a log2, state_ok s1 /\ m s w = Some (s1, w1, log1, Ok a) /\
    k a s1 w1 = Some (s', w', log2, Ok b).
Proof.
  intros Hm Hs H. apply bind_Ok_inv in H as (s1 & w1 & log1 & a & log2 & H1 & H2 & _).
  exists s1, w1, log1, a, log2. specialize (Hm s w Hs). rewrite H1 in Hm. split; [apply Hm|]. by split.
Qed.

(** Taking over for a session: nothing stays pressed or touched. *)
Lemma take_over s w s' w' log (u : option (option Connection)) :
  state_ok s ->
  (releases ← on_bar (fun bar => Some (cancel_all bar));
   _ ← emit_fallback_transitions releases;
   _ ← release_all;
   _ ← refresh_fallback;
   mret u : Daemon W _) s w = Some (s', w', log, Ok u) ->
  hs_recovery_gesture s' = hs_recovery_gesture s /\ hs_keyboard s' = [] /\
  sb_contacts (hs_fallback_bar s') = [] /\ sb_pressed (hs_fallback_bar s') = [].
Proof.
  intros Hs H. pose proof (keys_monitor (W := W)) as HR.
  apply (valid_bind_Ok _ _ _ _ _ _ _ _ (valid_on_cancel keys_follow) Hs) in H as (s1 & w1 & l1 & ts & l2 & Hs1 & HA & H).
  assert (hs_recovery_gesture s1 = hs_recovery_gesture s /\ sb_contacts (hs_fallback_bar s1) = [] /\
    sb_pressed (hs_fallback_bar s1) = []) as (Hg & Hc & Hp).
  { unfold on_bar in HA. destruct (cancel_all_spec _ (proj1 Hs)) as (_ & Hc & Hp & _).
    destruct (cancel_all (hs_fallback_bar s)) as [bar ts']. unfold set_bar, mbind, daemon_bind in HA. cbn in HA.
    injection HA as <- _ _ _. done. }
  apply (valid_bind_Ok _ _ _ _ _ _ _ _ (valid_emit_fallback_transitions keys_follow ts) Hs1)
    in H as (s2 & w2 & l3 & u2 & l4 & Hs2 & HB & H).
  assert (keyboard_only (emit_fallback_transitions ts : Daemon W _)) as Hk2.
  { apply keyboard_only_each. intros t. apply keyboard_only_emit. }
  specialize (Hk2 s1 w1). rewrite HB in Hk2. destruct Hk2 as [Hg2 Hb2].
  apply (valid_bind_Ok _ _ _ _ _ _ _ _ keys_release Hs2) in H as (s3 & w3 & l5 & u3 & l6 & Hs3 & HC & H).
  pose proof (keyboard_only_release_all s2 w2) as Hk3. rewrite HC in Hk3. destruct Hk3 as [Hg3 Hb3].
  destruct (release_all_outcome s2 w2 Hs2) as (s4 & w4 & l7 & r4 & E & _ & _ & Hkb & _). rewrite E in HC.
  injection HC as -> -> -> ->.
  apply bind_Ok_inv in H as (s5 & w5 & l8 & u5 & l9 & HD & H & _). unfold mret, daemon_ret in H. injection H as <- <- <-.
  unfold refresh_fallback, act, attempt, mbind, daemon_bind in HD. destruct (world_act RenderFallback w3) as [w6 []]; [|done].
  injection HD as <- _ _. by rewrite Hg3, Hg2, Hg, Hb3, Hb2.
Qed.

(** A connection becomes a session only when its peer is the user active on
    the seat and recovery has not locked sessions out; it starts with no key
    pressed and no finger on the fallback bar. *)
Lemma wait_step_admits poll s w s' w' log c :
  state_ok s -> wait_ok poll -> wait_step poll s w = Some (s', w', log, Ok (Some (Some c))) ->
  (exists uid, cn_peer_uid c = Some uid /\ cn_active_uid c = Some uid) /\
  sessions_allowed (hs_recovery_gesture s') = true /\ hs_keyboard s' = [] /\
  sb_contacts (hs_fallback_bar s') = [] /\ sb_pressed (hs_fallback_bar s') = [].
Proof.
  pose proof (keys_monitor (W := W)) as HR.
  intros Hs Hp H. destruct poll as [| |devices connection]; cbn [wait_step] in H; [done|done|].
  apply valid_bind_Ok in H as (s1 & w1 & l1 & shutdown & l2 & Hs1 & _ & H); [|follow|done]. destruct shutdown; [done|].
  apply valid_bind_Ok in H as (s2 & w2 & l3 & u2 & l4 & Hs2 & _ & H); [|follow|done].
  apply valid_bind_Ok in H as (s3 & w3 & l5 & touched & l6 & Hs3 & _ & H);
    [|apply valid_handle_touches; [done|done|intros event He; follow]|done].
  apply valid_bind_Ok in H as (s4 & w4 & l7 & changed & l8 & Hs4 & _ & H);
    [|apply valid_handle_fn; [done|intros pressed; follow]|done].
  apply valid_bind_Ok in H as (s5 & w5 & l9 & u5 & l10 & Hs5 & _ & H); [|follow|done].
  apply valid_bind_Ok in H as (s6 & w6 & l11 & u6 & l12 & Hs6 & _ & H); [|follow|done].
  apply valid_bind_Ok in H as (s7 & w7 & l13 & u7 & l14 & Hs7 & _ & H); [|unfold refresh_fallback; follow|done].
  apply valid_bind_Ok in H as (s8 & w8 & l15 & u8 & l16 & Hs8 & _ & H); [|follow|done].
  destruct connection as [[c'|]|]; [|done|done].
  apply bind_Ok_inv in H as (s9 & w9 & l17 & s0 & l18 & Hg & H & _). injection Hg as <- <- <- <-.
  destruct (sessions_allowed (hs_recovery_gesture s8)) eqn:Ea; cbn [negb] in H; [|done].
  destruct (cn_peer_uid c') as [uid|] eqn:Eu; [|done]. destruct (bool_decide _) eqn:Ed; [|done].
  apply bool_decide_eq_true in Ed.
  assert (c' = c) as ->.
  { do 4 (apply bind_Ok_inv in H as (? & ? & ? & ? & ? & _ & H & _)). by injection H. }
  apply take_over in H as (Hgest & Hk & Hc & Hpr); [|done]. rewrite Hgest. by repeat split; [exists uid| | | |].
Qed.

Lemma wait_for_session_admits polls s w s' w' log c :
  state_ok s -> Forall wait_ok polls -> wait_for_session polls s w = Some (s', w', log, Ok (Some (Some c))) ->
  (exists uid, cn_peer_uid c = Some uid /\ cn_active_uid c = Some uid) /\
  sessions_allowed (hs_recovery_gesture s') = true /\ hs_keyboard s' = [] /\
  sb_contacts (hs_fallback_bar s') = [] /\ sb_pressed (hs_fallback_bar s') = [].
Proof.
  pose proof (keys_monitor (W := W)) as HR.
  intros Hs Hp. revert s w log Hs. induction Hp as [|poll polls Ho _ IH]; intros s w log Hs; cbn [wait_for_session]; [done|].
  intros H. apply bind_Ok_inv in H as (s1 & w1 & l1 & outcome & l2 & H1 & H & _).
  pose proof (valid_wait_step keys_follow poll Ho s w Hs) as Hv. rewrite H1 in Hv. destruct Hv as [Hs1 _].
  destruct outcome as [o|]; [|by eapply IH]. injection H as <- <- <- ->.
  exact (wait_step_admits poll s w _ _ _ c Hs Ho H1).
Qed.
End Admission.
