(* ===== verification/Scanout.v ===== *)
(** * Scanout: what the hardware service guarantees

    Theorems about [Daemon]: the buffers of a session, the keys of the whole
    service and the admission of sessions. *)

From S2P Require Import Prelude BTree Text Payload Hardware Float Bar Touch Daemon.
From Stdlib Require String.

(** ** The buffers of a session *)

(** What the log of a session says about its buffers: the one shown, the one
    just retired whose release is owed, the sequence of the buffer that was
    already shown when the session began, until it is released, and the last
    sequence of the session's own that was released. *)
Record Scan := {
  sc_shown : option N;
  sc_owed : option N;
  sc_inherited : option N;
  sc_released : N;
}.
Definition scan_start (scanout : ServiceScanout) : Scan :=
  match scanout with
  | FallbackScanout => {| sc_shown := None; sc_owed := None; sc_inherited := None; sc_released := 0 |}
  | SessionScanout index sequence =>
      {| sc_shown := Some index; sc_owed := None; sc_inherited := Some sequence; sc_released := 0 |}
  end.

(** [None] when the shown buffer is flipped in again, when a buffer is flipped
    in before the last one retired was released, or when anything but that
    buffer is released, or out of sequence. *)
Definition scan_entry (sc : Scan) (entry : Action * bool) : option Scan :=
  match entry with
  | (FlipSession index, true) =>
      if bool_decide (sc_owed sc = None) && negb (bool_decide (sc_shown sc = Some index))
      then Some {| sc_shown := Some index; sc_owed := sc_shown sc; sc_inherited := sc_inherited sc;
                   sc_released := sc_released sc |}
      else None
  | (SendHardware (BufferReleased index sequence), _) =>
      if bool_decide (sc_owed sc = Some index)
      then match sc_inherited sc with
           | Some inherited =>
               if (sequence =? inherited)%N
               then Some {| sc_shown := sc_shown sc; sc_owed := None; sc_inherited := None; sc_released := sc_released sc |}
               else None
           | None =>
               if (sc_released sc <? sequence)%N
               then Some {| sc_shown := sc_shown sc; sc_owed := None; sc_inherited := None; sc_released := sequence |}
               else None
           end
      else None
  | _ => Some sc
  end.
Fixpoint scan (sc : Scan) (log : Log) : option Scan :=
  match log with
  | [] => Some sc
  | entry :: log' => sc ← scan_entry sc entry; scan sc log'
  end.

Lemma scan_app sc l k : scan sc (l ++ k) = (sc ← scan sc l; scan sc k).
Proof. revert sc; induction l as [|e l IH]; intros sc; cbn; [done|]. destruct (scan_entry sc e); [apply IH|done]. Qed.

(** Neither shows nor releases a buffer. *)
Definition still (action : Action) : bool :=
  match action with
  | FlipSession _ | FlipFallback | SendHardware (BufferReleased _ _) => false
  | _ => true
  end.

Lemma scan_still sc log : Forall (fun e => still e.1 = true) log -> scan sc log = Some sc.
Proof.
  induction 1 as [|[action ok] log Ha _ IH]; [done|]. cbn in *.
  destruct action as [| | |[]| | | | |]; try discriminate Ha; exact IH.
Qed.

Definition scanout_kept (s : ServiceHardware) (log : Log) (s' : ServiceHardware) : Prop :=
  hs_scanout s' = hs_scanout s /\ hs_session_framebuffers s' = hs_session_framebuffers s /\
  Forall (fun e => still e.1 = true) log.

(** The buffer the state names is one of the service's. *)
Definition scanout_ok (s : ServiceHardware) : Prop :=
  (hs_session_framebuffers s <= 2 ^ 16)%N /\
  match hs_scanout s with FallbackScanout => True | SessionScanout index _ => (index < hs_session_framebuffers s)%N end.

Section Buffers.
Context {W : Type} `{!DaemonWorld W}.

#[export] Instance scanout_monitor : Monitor (W := W) scanout_kept.
Proof.
  split.
  - intros s l s' l' s'' (H1 & H2 & H3) (H4 & H5 & H6). split; [congruence|]. split; [congruence|]. by apply Forall_app.
  - intros s log s' _ (_ & H1 & H2) Hl. split; [done|]. split; [done|]. eapply Forall_impl; [exact Hl|].
    intros [[| | |[]| | | | |] ok]; done.
  - intros key phase s w Hs. pose proof (keys_emit key phase s w Hs) as Hk.
    assert (match emit key phase s w with None => True | Some (s', _, log, _) => scanout_kept s log s' end) as Hsc.
    { unfold emit, set_insert. unfold mbind at 1, daemon_bind at 1, get.
      destruct phase, (set_contains key (hs_keyboard s)); cbn [negb];
        try (by split; [|split]); unfold mbind, daemon_bind, set_keyboard;
        match goal with |- context [write_key key ?v ?s1 w] =>
          destruct (write_key_outcome key v s1 w) as (w' & ok & r & ->) end;
        (split; [done|split; [done|by repeat constructor]]). }
    destruct (emit key phase s w) as [[[[s' w'] log] r]|]; [|done]. split; [apply Hk|exact Hsc].
  - intros s w Hs. destruct (release_all_outcome s w Hs) as (s' & w' & log & r & -> & Hs' & _ & _ & H1 & H2 & Hl).
    split; [done|]. split; [done|]. split; [done|]. eapply Forall_impl; [exact Hl|]. by intros [[] ok].
Qed.

(** What the loop of a session maintains. *)
Record following (locals : SessionLocals) (s : ServiceHardware) (sc : Scan) : Prop := {
  following_owed : sc_owed sc = None;
  following_released : (sc_released sc <= sl_last_sequence locals)%N;
  following_shown :
    match hs_scanout s with
    | FallbackScanout => sc_shown sc = None /\ sc_inherited sc = None
    | SessionScanout index sequence => sc_shown sc = Some index /\
        match sc_inherited sc with
        | Some inherited => sequence = inherited
        | None => sequence = sl_last_sequence locals /\ (sc_released sc < sequence)%N
        end
    end;
}.

Definition sound (s : ServiceHardware) : Prop := state_ok s /\ scanout_ok s.
Lemma sound_kept s s' : state_ok s' -> hs_scanout s' = hs_scanout s ->
  hs_session_framebuffers s' = hs_session_framebuffers s -> sound s -> sound s'.
Proof. intros Hs' H1 H2 [_ H3]. split; [done|]. unfold scanout_ok. by rewrite H1, H2. Qed.

(** The outcome of a step of the loop. *)
Definition scanned {A} (s : ServiceHardware) (sc : Scan) (good : A -> ServiceHardware -> Scan -> Prop)
  (outcome : option (ServiceHardware * W * Log * result DaemonError A)) : Prop :=
  match outcome with
  | None => False
  | Some (s', _, log, r) => sound s' /\ hs_session_framebuffers s' = hs_session_framebuffers s /\
      exists sc', scan sc log = Some sc' /\ match r with Ok a => good a s' sc' | Err _ => True end
  end.

Lemma scanned_kept {A} (m : Daemon W A) s w sc (good : A -> ServiceHardware -> Scan -> Prop) :
  valid scanout_kept m -> sound s ->
  (forall a s', sound s' -> hs_scanout s' = hs_scanout s ->
    hs_session_framebuffers s' = hs_session_framebuffers s -> good a s' sc) ->
  scanned s sc good (m s w).
Proof.
  intros Hm Hs Hg. specialize (Hm s w (proj1 Hs)). unfold scanned. destruct (m s w) as [[[[s' w'] log] r]|]; [|done].
  destruct Hm as (Hs1 & H1 & H2 & Hl). assert (sound s') as Hs' by by eapply sound_kept. split; [done|]. split; [done|]. exists sc. split; [by apply scan_still|].
  destruct r; [by apply Hg|done].
Qed.

Lemma scanned_bind {A B} (m : Daemon W A) (k : A -> Daemon W B) s w sc good1 good :
  scanned s sc good1 (m s w) ->
  (forall a s1 w1 sc1, sound s1 -> hs_session_framebuffers s1 = hs_session_framebuffers s ->
    good1 a s1 sc1 -> scanned s1 sc1 good (k a s1 w1)) ->
  scanned s sc good ((m ≫= k) s w).
Proof.
  intros Hm Hk. unfold scanned in Hm. unfold mbind, daemon_bind.
  destruct (m s w) as [[[[s1 w1] log1] [a|error]]|]; [|exact Hm|exact Hm].
  destruct Hm as (Hs1 & Hf1 & sc1 & Hsc1 & Hg1). specialize (Hk a s1 w1 sc1 Hs1 Hf1 Hg1). unfold scanned in *.
  destruct (k a s1 w1) as [[[[s2 w2] log2] r]|]; [|done]. destruct Hk as (Hs2 & Hf2 & sc2 & Hsc2 & Hg2).
  split; [done|]. split; [congruence|]. exists sc2. split; [|done]. by rewrite scan_app, Hsc1.
Qed.

(** A kept prefix of an operation. *)
Lemma scanned_after {A B} (m : Daemon W A) (k : A -> Daemon W B) locals s w sc good :
  valid scanout_kept m -> sound s -> following locals s sc ->
  (forall a s1 w1, sound s1 -> hs_session_framebuffers s1 = hs_session_framebuffers s ->
    hs_scanout s1 = hs_scanout s -> following locals s1 sc -> scanned s1 sc good (k a s1 w1)) ->
  scanned s sc good ((m ≫= k) s w).
Proof.
  intros Hm Hs Hf Hk.
  eapply (scanned_bind _ _ _ _ _ (fun _ s1 sc1 => sc1 = sc /\ hs_scanout s1 = hs_scanout s)).
  { apply scanned_kept; [done|done|]. by intros. }
  intros a s1 w1 sc1 Hs1 Hb [-> Hsc]. apply Hk; [done|done|done|].
  destruct Hf as [H1 H2 H3]. split; [done|done|]. by rewrite Hsc.
Qed.

Lemma scanned_throw {A} error s w sc (good : A -> ServiceHardware -> Scan -> Prop) :
  sound s -> scanned s sc good ((throw error : Daemon W A) s w).
Proof. intros Hs. split; [done|]. split; [done|]. by exists sc. Qed.

Lemma flip_scanned index s (w : W) sc locals :
  sound s -> following locals s sc -> sc_shown sc <> Some index ->
  scanned s sc (fun _ s' sc' => s' = s /\
    sc' = {| sc_shown := Some index; sc_owed := sc_shown sc; sc_inherited := sc_inherited sc; sc_released := sc_released sc |})
    (act (FlipSession index) s w).
Proof.
  intros Hs Hf Hn. unfold act, attempt, mbind, daemon_bind. destruct (world_act _ w) as [w' ok].
  destruct ok; (split; [done|]; split; [done|]); [|by exists sc]. eexists. split; [|done]. cbn.
  rewrite (following_owed _ _ _ Hf), bool_decide_eq_true_2, bool_decide_eq_false_2 by done. done.
Qed.

Lemma scanned_get {A} (k : ServiceHardware -> Daemon W A) s w sc good :
  scanned s sc good (k s s w) -> scanned s sc good ((get ≫= k) s w).
Proof. unfold mbind, daemon_bind, get. by destruct (k s s w) as [[[[s2 w2] log2] r]|]. Qed.

(** The end of a frame: the retired buffer is released. *)
Lemma retire_scanned locals index sequence s (w : W) sc :
  sound s -> following locals s sc ->
  (index < hs_session_framebuffers s)%N -> (sl_last_sequence locals < sequence)%N ->
  scanned s {| sc_shown := Some index; sc_owed := sc_shown sc; sc_inherited := sc_inherited sc;
               sc_released := sc_released sc |}
    (fun locals' s' sc' => following locals' s' sc')
    ((_ ← (match hs_scanout s with
           | SessionScanout released_index released_sequence =>
               act (SendHardware (BufferReleased (released_index mod 2 ^ 16) released_sequence))
           | FallbackScanout => mret ()
           end);
      _ ← set_scanout (SessionScanout index sequence);
      mret {| sl_waiting_started := sl_waiting_started locals; sl_displayed := true;
              sl_last_sequence := sequence |}) s w).
Proof.
  intros Hs [Ho Hr Hshown] Hi Hq. pose proof (proj2 Hs) as [Hb Hri].
  assert (forall released s' (w' : W), sound s' -> hs_session_framebuffers s' = hs_session_framebuffers s ->
    (released < sequence)%N ->
    scanned s' {| sc_shown := Some index; sc_owed := None; sc_inherited := None; sc_released := released |}
      (fun locals' s' sc' => following locals' s' sc')
      ((_ ← set_scanout (SessionScanout index sequence);
        mret {| sl_waiting_started := sl_waiting_started locals; sl_displayed := true;
                sl_last_sequence := sequence |}) s' w')) as Hset.
  { intros released s' w' [Hs' [Hb' _]] Hf' Hlt. unfold mbind, daemon_bind, set_scanout, mret, daemon_ret. cbv beta iota.
    split; [split; [exact Hs'|split; [exact Hb'|cbn; by rewrite Hf']]|]. split; [done|]. eexists. split; [reflexivity|].
    split; cbn; [done|lia|]. repeat split; done. }
  destruct (hs_scanout s) as [|released q].
  - destruct Hshown as [Hshown Hinh]. rewrite Hshown, Hinh. eapply (scanned_bind _ _ _ _ _ (fun _ s' sc' => s' = s /\
      sc' = {| sc_shown := Some index; sc_owed := None; sc_inherited := None; sc_released := sc_released sc |})).
    { split; [done|]. split; [done|]. by eexists. }
    intros _ s1 w1 sc1 Hs1 _ [-> ->]. apply Hset; [done|done|lia].
  - destruct Hshown as (Hshown & Hq').
    eapply (scanned_bind _ _ _ _ _ (fun _ s' sc' => s' = s /\ exists last, (last < sequence)%N /\
      sc' = {| sc_shown := Some index; sc_owed := None; sc_inherited := None; sc_released := last |})).
    { unfold act, attempt, mbind, daemon_bind. destruct (world_act _ w) as [w' ok].
      rewrite N.mod_small by lia. rewrite Hshown.
      assert (exists last, (last < sequence)%N /\ forall ok,
        scan {| sc_shown := Some index; sc_owed := Some released; sc_inherited := sc_inherited sc; sc_released := sc_released sc |}
          [(SendHardware (BufferReleased released q), ok)] =
        Some {| sc_shown := Some index; sc_owed := None; sc_inherited := None; sc_released := last |}) as (last & Hl & Hscan).
      { cbn. rewrite bool_decide_eq_true_2 by done. destruct (sc_inherited sc) as [inherited|].
        - subst q. exists (sc_released sc). split; [lia|]. by rewrite N.eqb_refl.
        - destruct Hq' as [-> Hlt]. exists (sl_last_sequence locals). split; [done|]. by apply N.ltb_lt in Hlt as ->. }
      destruct ok; (split; [done|]; split; [done|]); eexists; (split; [by apply Hscan|]); [|done]. split; [done|]. by exists last. }
    intros _ s1 w1 sc1 Hs1 _ [-> (last & Hl & ->)]. by apply Hset.
Qed.

(** A frame: the new buffer is flipped in, the old one released. *)
Lemma frame_ready_scanned locals index sequence s w sc :
  sound s -> following locals s sc ->
  scanned s sc (fun locals' s' sc' => following locals' s' sc') (frame_ready locals index sequence s w).
Proof.
  pose proof (scanout_monitor) as HR. intros Hs Hf. unfold frame_ready. apply scanned_get.
  destruct (N.ltb_spec index (hs_session_framebuffers s)) as [Hi|];
    [|eapply scanned_bind; [by apply (scanned_throw _ _ _ _ (fun _ _ _ => False))|done]].
  eapply scanned_after; [by apply valid_ret|done|done|]. intros _ s1 w1 Hs1 Hb1 Hsc1 Hf1.
  assert (forall k : Daemon W SessionLocals, (forall s2 w2, sound s2 -> hs_session_framebuffers s2 = hs_session_framebuffers s ->
      hs_scanout s2 = hs_scanout s -> following locals s2 sc -> sc_shown sc <> Some index ->
      scanned s2 sc (fun locals' s' sc' => following locals' s' sc') (k s2 w2)) ->
    scanned s1 sc (fun locals' s' sc' => following locals' s' sc')
      ((_ ← (match hs_scanout s with
             | SessionScanout active _ => if (active =? index)%N then throw BufferResubmitted else mret ()
             | FallbackScanout => mret ()
             end); k) s1 w1)) as Hresubmitted.
  { intros k Hk. pose proof (following_shown _ _ _ Hf) as Hshown. destruct (hs_scanout s) as [|active q] eqn:E.
    - eapply scanned_after; [by apply valid_ret|done|done|]. intros _ s2 w2 Hs2 Hb2 Hsc2 Hf2.
      apply Hk; [done|congruence|congruence|done|]. by rewrite (proj1 Hshown).
    - destruct Hshown as (Hshown & _). destruct (N.eqb_spec active index) as [|Hne].
      + eapply scanned_bind; [by apply (scanned_throw _ _ _ _ (fun _ _ _ => False))|done].
      + eapply scanned_after; [by apply valid_ret|done|done|]. intros _ s2 w2 Hs2 Hb2 Hsc2 Hf2.
        apply Hk; [done|congruence|congruence|done|]. rewrite Hshown. congruence. }
  apply Hresubmitted. clear Hresubmitted s1 w1 Hs1 Hb1 Hsc1 Hf1. intros s1 w1 Hs1 Hb1 Hsc1 Hf1 Hnew.
  destruct (N.leb_spec sequence (sl_last_sequence locals)) as [|Hseq];
    [eapply scanned_bind; [by apply (scanned_throw _ _ _ _ (fun _ _ _ => False))|done]|].
  eapply scanned_after; [by apply valid_ret|done|done|]. intros _ s2 w2 Hs2 Hb2 Hsc2 Hf2.
  eapply scanned_after; [|done|done|].
  { destruct (sl_displayed locals); [by apply valid_ret|]. apply valid_bind; [done|by apply valid_wake|].
    intros _. by apply valid_ret. }
  intros _ s3 w3 Hs3 Hb3 Hsc3 Hf3.
  eapply scanned_after; [by apply valid_act|done|done|]. intros _ s4 w4 Hs4 Hb4 Hsc4 Hf4.
  eapply scanned_bind; [by eapply flip_scanned|]. intros [] s5 w5 sc5 Hs5 Hb5 [-> ->]. apply scanned_get.
  apply retire_scanned; [done|done|congruence|done].
Qed.

Lemma session_step_scanned locals poll s w sc :
  sound s -> session_ok poll -> following locals s sc ->
  scanned s sc (fun outcome s' sc' => exists locals', following locals' s' sc' /\
    match outcome with inl _ => True | inr locals'' => locals'' = locals' end) (session_step locals poll s w).
Proof.
  pose proof (scanout_monitor) as HR. intros Hs Hp Hf. unfold session_step.
  eapply scanned_after; [destruct (sl_displayed locals); [by apply valid_ret|by apply valid_now]|done|done|].
  intros time s1 w1 Hs1 Hb1 _ Hf1. destruct (_ && _); [by apply scanned_throw|].
  assert (forall s2 (w2 : W) answer, sound s2 -> following locals s2 sc ->
    match answer with inl _ => True | inr l => l = locals end ->
    scanned s2 sc (fun outcome s' sc' => exists locals', following locals' s' sc' /\
      match outcome with inl _ => True | inr locals'' => locals'' = locals' end)
      ((mret answer : Daemon W (bool + SessionLocals)) s2 w2)) as Hret.
  { intros s2 w2 answer Hs2 Hf2 Ha. split; [done|]. split; [done|]. exists sc. split; [done|]. by exists locals. }
  destruct poll as [| |devices closed message]; [by apply Hret|by apply scanned_throw|].
  eapply scanned_after; [by apply valid_shutdown_requested|done|done|]. intros shutdown s2 w2 Hs2 Hb2 _ Hf2.
  destruct shutdown; [by apply Hret|].
  eapply scanned_after; [by apply valid_require_devices|done|done|]. intros _ s3 w3 Hs3 Hb3 _ Hf3.
  eapply scanned_after; [apply valid_handle_touches; [done|done|intros event _; by apply valid_act]|done|done|].
  intros _ s4 w4 Hs4 Hb4 _ Hf4.
  eapply scanned_after; [apply valid_handle_fn; [done|intros pressed; by apply valid_act]|done|done|].
  intros _ s5 w5 Hs5 Hb5 _ Hf5.
  eapply scanned_after; [by apply valid_handle_seat|done|done|]. intros _ s6 w6 Hs6 Hb6 _ Hf6.
  eapply scanned_after; [by apply valid_poll_recovery_gesture|done|done|]. intros recovery s7 w7 Hs7 Hb7 _ Hf7.
  destruct (bool_decide _); [by apply Hret|].
  eapply scanned_after; [by apply valid_update_idle_backlight|done|done|]. intros _ s8 w8 Hs8 Hb8 _ Hf8.
  destruct closed; [by apply scanned_throw|]. destruct message as [[[index sequence|key phase]|error]|].
  - eapply scanned_bind; [by apply frame_ready_scanned|].
    intros locals' s9 w9 sc9 Hs9 Hb9 Hf9. split; [done|]. split; [done|]. exists sc9. split; [done|]. by exists locals'.
  - eapply scanned_after; [by apply monitor_emit|done|done|]. intros _ s9 w9 Hs9 _ _ Hf9. by apply Hret.
  - by apply scanned_throw.
  - by apply Hret.
Qed.

Lemma session_loop_scanned polls locals s w sc :
  sound s -> Forall session_ok polls -> following locals s sc ->
  scanned s sc (fun _ s' sc' => exists locals', following locals' s' sc') (session_loop locals polls s w).
Proof.
  intros Hs Hp. revert locals s w sc Hs. induction Hp as [|poll polls Ho _ IH]; intros locals s w sc Hs Hf; cbn [session_loop].
  { split; [done|]. split; [done|]. exists sc. split; [done|]. by exists locals. }
  eapply scanned_bind; [by apply session_step_scanned|]. intros outcome s1 w1 sc1 Hs1 Hb1 (locals1 & Hf1 & Ho1).
  destruct outcome as [answer|locals']; [|subst locals'; by apply IH].
  split; [done|]. split; [done|]. exists sc1. split; [done|]. by exists locals1.
Qed.
Lemma run_session_inner_scanned polls s w :
  sound s -> Forall session_ok polls ->
  scanned s (scan_start (hs_scanout s)) (fun _ s' sc' => exists locals', following locals' s' sc') (run_session_inner polls s w).
Proof.
  pose proof (scanout_monitor) as HR. intros Hs Hp.
  assert (forall started s', hs_scanout s' = hs_scanout s ->
    following {| sl_waiting_started := started; sl_displayed := false; sl_last_sequence := 0 |} s'
      (scan_start (hs_scanout s))) as Hf.
  { intros started s' E. unfold scan_start. split; rewrite ?E; by destruct (hs_scanout s). }
  unfold run_session_inner. apply scanned_get.
  eapply scanned_after; [by apply valid_act|done|by apply (Hf 0%N)|]. intros _ s1 w1 Hs1 Hb1 E1 Hf1.
  eapply scanned_after; [by apply valid_act|done|done|]. intros _ s2 w2 Hs2 Hb2 E2 Hf2.
  eapply scanned_after; [by apply valid_now|done|done|]. intros started s3 w3 Hs3 Hb3 E3 Hf3.
  apply session_loop_scanned; [done|done|]. apply Hf. congruence.
Qed.

(** ** The scanout over the life of the service *)

Definition stays_named (s : ServiceHardware) (_ : Log) (s' : ServiceHardware) : Prop := scanout_ok s -> scanout_ok s'.

Lemma kept_named s log s' : scanout_kept s log s' -> stays_named s log s'.
Proof. intros (H1 & H2 & _). unfold stays_named, scanout_ok. by rewrite H1, H2. Qed.
Lemma valid_weaken {A} (R R' : ServiceHardware -> Log -> ServiceHardware -> Prop) (m : Daemon W A) :
  (forall s log s', R s log s' -> R' s log s') -> valid R m -> valid R' m.
Proof.
  intros HR Hm s w Hs. specialize (Hm s w Hs). destruct (m s w) as [[[[s' w'] log] r]|]; [|done].
  destruct Hm. split; [done|]. by apply HR.
Qed.
#[export] Instance named_monitor : Monitor (W := W) stays_named.
Proof.
  split.
  - intros s l s' l' s'' H1 H2 H. by apply H2, H1.
  - intros s log s' _ (_ & H1 & H2) _. unfold stays_named, scanout_ok. by rewrite H1, H2.
  - intros key phase. eapply valid_weaken; [apply kept_named|apply (monitor_emit (R := scanout_kept))].
  - eapply valid_weaken; [apply kept_named|apply (monitor_release (R := scanout_kept))].
Qed.

Lemma named_flip_fallback : valid stays_named (act FlipFallback : Daemon W _).
Proof.
  intros s w Hs. unfold act, attempt, mbind, daemon_bind. destruct (world_act _ w) as [w' ok]. destruct ok; (split; [exact Hs|intros H; exact H]).
Qed.
Lemma named_set_fallback : valid stays_named (set_scanout FallbackScanout : Daemon W _).
Proof. intros s w Hs. split; [done|]. intros [H _]. by split. Qed.
Hint Resolve named_flip_fallback named_set_fallback named_monitor : daemon.

Lemma named_show_fallback : valid stays_named (show_fallback : Daemon W _).
Proof. pose proof named_monitor. unfold show_fallback, refresh_fallback. follow. Qed.
Lemma named_run_session_inner polls : Forall session_ok polls -> valid stays_named (run_session_inner polls : Daemon W _).
Proof.
  intros Hp s w Hs. pose proof (keys_run_session_inner polls Hp s w Hs) as Hk.
  pose proof (fun H => run_session_inner_scanned polls s w (conj Hs H) Hp) as Hn. unfold scanned in Hn.
  destruct (run_session_inner polls s w) as [[[[s' w'] log] r]|]; [|done]. split; [apply Hk|]. intros H. by apply Hn in H as ((_ & H) & _).
Qed.
Hint Resolve named_show_fallback named_run_session_inner : daemon.
Lemma named_run_session polls : Forall session_ok polls -> valid stays_named (run_session polls : Daemon W _).
Proof. pose proof named_monitor as HR. intros Hp. unfold run_session. follow. Qed.
Hint Resolve named_run_session : daemon.
Lemma named_prepare_shutdown : valid stays_named (prepare_shutdown : Daemon W _).
Proof. pose proof named_monitor as HR. unfold prepare_shutdown. follow. Qed.
Hint Resolve named_prepare_shutdown : daemon.
Lemma named_serve rounds : Forall round_ok rounds -> valid stays_named (serve rounds : Daemon W _).
Proof.
  pose proof named_monitor as HR. intros Hr.
  induction Hr as [|[waits polls] rounds [Hw Hp] _ IH]; cbn [serve]; [follow|]. cbn in Hw, Hp.
  apply valid_bind; [done|by apply valid_wait_for_session|]. intros [[c|]|]; [|follow|follow].
  apply valid_bind; [done|follow|]. intros [[[]|]|error]; follow.
Qed.

(** When nothing failed, the fallback is shown again. *)
Lemma show_fallback_shows s w s' w' log u : (show_fallback : Daemon W _) s w = Some (s', w', log, Ok u) -> hs_scanout s' = FallbackScanout.
Proof.
  unfold show_fallback. intros H. do 9 (apply bind_Ok_inv in H as (? & ? & ? & ? & ? & _ & H & _)).
  unfold set_scanout in H. by injection H as <- _ _ _.
Qed.
Lemma run_session_shows polls s w s' w' log answer :
  run_session polls s w = Some (s', w', log, Ok (Some answer)) -> hs_scanout s' = FallbackScanout.
Proof.
  unfold run_session. intros H. apply bind_Ok_inv in H as (s1 & w1 & l1 & result & l2 & _ & H & _).
  destruct result as [[a|]|error]; [|done|].
  - apply bind_Ok_inv in H as (s2 & w2 & l3 & ? & l4 & _ & H & _).
    change (device_lost (Ok (Some a) : result DaemonError (option bool))) with false in H. cbv iota in H.
    apply bind_Ok_inv in H as (s3 & w3 & l5 & restored & l6 & H1 & H & _). unfold catch in H1.
    destruct (show_fallback s2 w2) as [[[[s4 w4] l7] [u|e]]|] eqn:E; [| |done];
      injection H1 as <- <- _ <-; [|done]. injection H as <- _ _ _. by eapply show_fallback_shows.
  - apply bind_Ok_inv in H as (s2 & w2 & l3 & ? & l4 & _ & H & _). destruct (device_lost _); [done|].
    by apply bind_Ok_inv in H as (s3 & w3 & l5 & [u|e] & l6 & _ & H & _).
Qed.
End Buffers.

(** ** The service *)


Lemma serve_shutdown {W} `{!DaemonWorld W} rounds s (w : W) s' w' log :
  state_ok s -> Forall round_ok rounds -> serve rounds s w = Some (s', w', log, Ok true) -> hs_keyboard s' = [].
Proof.
  pose proof (keys_monitor (W := W)) as HR. intros Hs Hr. revert s w log Hs.
  induction Hr as [|[waits polls] rounds [Hw Hp] _ IH]; intros s w log Hs; cbn [serve]; [done|]. cbn in Hw, Hp.
  assert (forall s1 w1 l1, state_ok s1 -> (_ ← prepare_shutdown; mret true) s1 w1 = Some (s', w', l1, Ok true) ->
    hs_keyboard s' = []) as Hend.
  { intros s1 w1 l1 Hs1 H. apply bind_Ok_inv in H as (s2 & w2 & l2 & u & l3 & H1 & H2 & _).
    apply prepare_shutdown_releases in H1; [|done]. unfold mret, daemon_ret in H2. by injection H2 as <- _ _. }
  intros H. apply (valid_bind_Ok _ _ _ _ _ _ _ _ (valid_wait_for_session keys_follow waits Hw) Hs)
    in H as (s1 & w1 & l1 & outcome & l2 & Hs1 & _ & H).
  destruct outcome as [[c|]|]; [|by eapply Hend|done].
  apply (valid_bind_Ok _ _ _ _ _ _ _ _ (valid_catch keys_follow _ (keys_run_session polls Hp)) Hs1)
    in H as (s2 & w2 & l3 & result & l4 & Hs2 & _ & H).
  destruct result as [[[]|]|error]; [by eapply IH|by eapply Hend|done|].
  destruct (device_lost (Err error : result DaemonError (option bool))); [done|by eapply IH].
Qed.

(** C36: The service never panics, whatever the devices, the sessions and the
    clock do.  As long as the kernel accepts the key events, it holds down
    exactly the keys the service records, each pressed once and released once;
    and no key is down when a session has ended or the service has stopped. *)
Theorem service_keys_balanced {W} `{!DaemonWorld W} (s : ServiceHardware) (w : W) (Hs : state_ok s) :
  (forall rounds, Forall round_ok rounds ->
    match serve rounds s w with
    | None => False
    | Some (s', _, log, r) =>
        (writes_ok log = true -> kernel_keys (hs_keyboard s) log = Some (hs_keyboard s')) /\
        (r = Ok true -> hs_keyboard s' = [])
    end) /\
  (forall polls, Forall session_ok polls ->
    match run_session polls s w with
    | None => False
    | Some (s', _, log, r) =>
        (writes_ok log = true -> kernel_keys (hs_keyboard s) log = Some (hs_keyboard s')) /\
        (r <> Ok None -> hs_keyboard s' = [])
    end).
Proof.
  split.
  - intros rounds Hr. pose proof (keys_serve rounds Hr s w Hs) as Hv.
    destruct (serve rounds s w) as [[[[s' w'] log] r]|] eqn:E; [|done]. destruct Hv as [_ Hk]. split; [done|].
    intros ->. by eapply serve_shutdown.
  - intros polls Hp. pose proof (keys_run_session polls Hp s w Hs) as Hv.
    destruct (run_session polls s w) as [[[[s' w'] log] r]|] eqn:E; [|done]. destruct Hv as [_ Hk]. split; [done|].
    intros Hr. by eapply run_session_releases.
Qed.

(** C37: The hardware is lent only to the user active on the seat, never while the
    recovery gesture has locked sessions out, and with nothing pressed. *)
Theorem session_admission {W} `{!DaemonWorld W} (polls : list WaitPoll) (s s' : ServiceHardware) (w w' : W)
  (log : Log) (c : Connection) (Hs : state_ok s) (Hpolls : Forall wait_ok polls)
  (Hwait : wait_for_session polls s w = Some (s', w', log, Ok (Some (Some c)))) :
  (exists uid, cn_peer_uid c = Some uid /\ cn_active_uid c = Some uid) /\
  sessions_allowed (hs_recovery_gesture s') = true /\ hs_keyboard s' = [] /\
  sb_contacts (hs_fallback_bar s') = [] /\ sb_pressed (hs_fallback_bar s') = [].
Proof. by eapply wait_for_session_admits. Qed.

(** ** A run *)

(** Every action succeeds and every look at the clock takes a second. *)
#[local] Instance clockwork : DaemonWorld N :=
  {| world_act _ t := (t, true); world_now t := ((t + seconds 1)%N, (t + seconds 1)%N) |}.

Definition service : ServiceHardware :=
  {| hs_session_framebuffers := 3; hs_session_prime_fds := [7; 8; 9]%Z; hs_swapchain := adp;
     hs_scanout := FallbackScanout; hs_fn_pressed := false; hs_keyboard := [];
     hs_backlight := {| bl_active_value := 128; bl_dimmed_value := 1; bl_idle_value := 0;
                        bl_current_value := Some 128%N |};
     hs_fallback_bar := reference_bar; hs_last_activity := 0; hs_backlight_state := BacklightActive;
     hs_wake_contacts := []; hs_recovery_gesture := gesture_new false 0 |}.

Lemma service_ok : state_ok service.
Proof. split; [apply bar_new_ok|done]. Qed.

Definition quiet : Devices :=
  {| dv_shutdown := None; dv_touch_lost := false; dv_fn_lost := false; dv_seat_lost := false;
     dv_touches := None; dv_fn := None; dv_seat := None |}.
Definition touching (events : list TouchEvent) : Devices :=
  {| dv_shutdown := None; dv_touch_lost := false; dv_fn_lost := false; dv_seat_lost := false;
     dv_touches := Some (Ok events); dv_fn := None; dv_seat := None |}.
Definition connection (peer : N) : Connection := {| cn_peer_uid := Some peer; cn_active_uid := Some 1000%N |}.

(** A key touched on the fallback bar, a stranger, then the user. *)
Definition waits : list WaitPoll :=
  [WaitReady (touching [contact TouchDown 4]) None;
   WaitReady quiet (Some (Some (connection 1001)));
   WaitReady quiet (Some (Some (connection 1000)))].
(** Two frames, a key, a third frame on the first buffer. *)
Definition frames : list SessionPoll :=
  [SessionReady quiet false (Some (Ok (FrameReady 0 1)));
   SessionReady quiet false (Some (Ok (FrameReady 1 2)));
   SessionReady quiet false (Some (Ok (Key F5 Pressed)));
   SessionReady quiet false (Some (Ok (FrameReady 0 3)));
   SessionReady quiet true None].

Definition log_of {A} (o : option (ServiceHardware * N * Log * result DaemonError A)) : list Action :=
  match o with Some (_, _, log, _) => log.*1 | None => [] end.

Example service_run :
  log_of (serve [(waits, frames)] service 0%N) =
    [WriteKey LinuxBrightnessDown 1; RenderFallback;
     WriteKey LinuxBrightnessDown 0; RenderFallback;
     SendSwapchain adp [7; 8; 9]; SendHardware (FnChanged false);
     DirtyFramebuffer 0; FlipSession 0;
     DirtyFramebuffer 1; FlipSession 1; SendHardware (BufferReleased 0 1);
     WriteKey LinuxF5 1;
     DirtyFramebuffer 0; FlipSession 0; SendHardware (BufferReleased 1 2);
     WriteKey LinuxF5 0; RenderFallback; FlipFallback]%Z%N.
Proof. vm_compute. reflexivity. Qed.

(** A service whose fallback could not be restored after a session that showed
    its buffer 0 as its frame 9. *)
Definition unrestored : ServiceHardware :=
  {| hs_session_framebuffers := 3; hs_session_prime_fds := [7; 8; 9]%Z; hs_swapchain := adp;
     hs_scanout := SessionScanout 0 9; hs_fn_pressed := false; hs_keyboard := [];
     hs_backlight := hs_backlight service; hs_fallback_bar := reference_bar; hs_last_activity := 0;
     hs_backlight_state := BacklightActive; hs_wake_contacts := []; hs_recovery_gesture := gesture_new false 0 |}.
Definition frame (index sequence : N) : SessionPoll := SessionReady quiet false (Some (Ok (FrameReady index sequence))).

(** The next session is told to reuse a buffer it has not submitted, which
    [DirectOutput::poll_releases] takes for an error; submitting the buffer
    ends the session as well. *)
Example inherited_buffer_released :
  log_of (run_session_inner [frame 1 1; frame 2 2] unrestored 0%N) =
    [SendSwapchain adp [7; 8; 9]; SendHardware (FnChanged false);
     DirtyFramebuffer 1; FlipSession 1; SendHardware (BufferReleased 0 9);
     DirtyFramebuffer 2; FlipSession 2; SendHardware (BufferReleased 1 1)]%Z%N /\
  match run_session_inner [frame 0 1] unrestored 0%N with
  | Some (_, _, _, r) => r = Err BufferResubmitted
  | None => False
  end.
Proof. split; vm_compute; reflexivity. Qed.


Lemma service_keys_balanced_witness :
  state_ok service /\
  exists s' w' log r, run_session frames service 0%N = Some (s', w', log, r) /\
    kernel_keys [] log = Some [] /\ hs_keyboard s' = [] /\ r = Err SessionClosed.
Proof.
  split; [exact service_ok|].
  assert (Forall session_ok frames) as Hp by (repeat (constructor; [exact I|]); constructor).
  pose proof (proj2 (service_keys_balanced service 0%N service_ok) frames Hp) as H.
  destruct (run_session frames service 0%N) as [[[[s' w'] log] r]|] eqn:E; [|destruct H].
  assert (writes_ok log = true /\ r = Err SessionClosed) as [Hw Hr].
  { vm_compute in E. injection E as _ _ <- <-. split; vm_compute; reflexivity. }
  destruct H as [Hk He]. specialize (Hk Hw). assert (hs_keyboard s' = []) as Hkb by (apply He; rewrite Hr; discriminate).
  exists s', w', log, r. split; [reflexivity|]. split; [|split; [exact Hkb|exact Hr]].
  rewrite Hkb in Hk. exact Hk.
Defined.

Lemma session_admission_witness :
  Forall wait_ok waits /\
  exists s' w' log, wait_for_session waits service 0%N = Some (s', w', log, Ok (Some (Some (connection 1000)))) /\
    hs_keyboard s' = [] /\ sessions_allowed (hs_recovery_gesture s') = true.
Proof.
  assert (Forall wait_ok waits) as Hp.
  { repeat (constructor; [first [exact I | cbn; repeat constructor; discriminate]|]). constructor. }
  split; [exact Hp|].
  destruct (wait_for_session waits service 0%N) as [[[[s' w'] log] r]|] eqn:E; [|vm_compute in E; discriminate E].
  assert (r = Ok (Some (Some (connection 1000)))) as Hr by (vm_compute in E; injection E as _ _ _ <-; reflexivity).
  rewrite Hr in E.
  destruct (session_admission waits service s' 0%N w' log (connection 1000) service_ok Hp E) as (_ & Ha & Hk & _).
  exists s', w', log. rewrite Hr. split; [reflexivity|]. split; [exact Hk|exact Ha].
Defined.
