(* ===== verification/Posix.v ===== *)
(** * Posix: programs over the system calls of the file backends

    A backend operation is a [Prog]: a tree of system calls whose answers
    choose the branch taken.  [interpret] gives it meaning over any semantics
    of the calls; [run] over an executable kernel, an instance of [Kernel].
    Below it, the helpers [filesystem.rs] and [filesystem_write.rs] of
    [crates/touchbar-plugin-supervisor/src] share: opening mounts and paths
    beneath them, metadata, the loops that read and write.

    An [OwnedFd] is an opaque handle here: closing it frees its number, never
    the handle.  The loops retry interrupted calls; [Starved] is a loop that
    was not done after [rounds] rounds. *)

From S2P Require Import Prelude BTree Text Capability Grants Wire Protocol Address Files.

(** ** System calls *)

Inductive Errno :=
| EXDEV | ELOOP | ENOENT | ENOTDIR | EACCES | EPERM | EEXIST | EISDIR | ENOTEMPTY
| ENOSPC | EDQUOT | EFBIG | ENOSYS | EINTR | OtherErrno.
#[export] Instance Errno_eq_dec : EqDecision Errno. Proof. solve_decision. Defined.

Inductive OpenFlag := O_RDONLY | O_PATH | O_DIRECTORY | O_NONBLOCK | O_CLOEXEC | O_NOFOLLOW.
#[export] Instance OpenFlag_eq_dec : EqDecision OpenFlag. Proof. solve_decision. Defined.
Inductive ResolveFlag := RESOLVE_NO_XDEV | RESOLVE_NO_MAGICLINKS | RESOLVE_NO_SYMLINKS | RESOLVE_BENEATH.
#[export] Instance ResolveFlag_eq_dec : EqDecision ResolveFlag. Proof. solve_decision. Defined.
Record OpenHow := { oh_flags : list OpenFlag; oh_resolve : list ResolveFlag }.
#[export] Instance OpenHow_eq_dec : EqDecision OpenHow. Proof. solve_decision. Defined.
Inductive RenameFlag := RENAME_NOREPLACE | RENAME_EXCHANGE.
#[export] Instance RenameFlag_eq_dec : EqDecision RenameFlag. Proof. solve_decision. Defined.

(** [st_mode & S_IFMT]. *)
Inductive FileFormat := S_IFREG | S_IFDIR | OtherFormat.
#[export] Instance FileFormat_eq_dec : EqDecision FileFormat. Proof. solve_decision. Defined.

Record Stat := {
  st_dev : N; st_ino : N; st_format : FileFormat; st_permissions : N; st_nlink : N; st_uid : N;
  st_size : Z; st_mtime : Z; st_mtime_nsec : Z; st_ctime : Z; st_ctime_nsec : Z;
}.

(** [AtRoot]: [AT_FDCWD], only used with absolute paths. *)
Inductive Fd := AtRoot | Handle (n : N).
#[export] Instance Fd_eq_dec : EqDecision Fd. Proof. solve_decision. Defined.

(** The calls, the two questions the code asks other threads - whether it is
    cancelled ([CancellationToken::reason]) and whether the handle of its
    upload was closed - and what it tells the sink of its resource's events. *)
Inductive Syscall :=
| Openat2 (root : Fd) (path : string) (how : OpenHow)
| Duplicate (fd : Fd)
| CreateExclusive (parent : Fd) (name : string)
| Getrandom (count : N)
| Fstat (fd : Fd)
| Fstatat (parent : Fd) (name : string)
| Pread (fd : Fd) (count offset : N)
| WriteCall (fd : Fd) (bytes : list N)
| Pwrite (fd : Fd) (bytes : list N) (offset : N)
| Fdatasync (fd : Fd)
| Renameat2 (source_parent : Fd) (source : string) (destination_parent : Fd) (destination : string)
    (flags : RenameFlag)
| Unlinkat (parent : Fd) (name : string)
| Mkdirat (parent : Fd) (name : string)
| Reopen (fd : Fd)
| Fsync (fd : Fd)
| Fdopendir (fd : Fd)
| Readdir (fd : Fd)
| Geteuid
| Getenv (name : string)
| CancelReason
| HandleClosed
| EmitBuffered (payload : list N)
| CompleteResource (payload : list N)
| FinishResource (error : BrokerErrorCode).

(** What each answers. *)
Definition Answer (s : Syscall) : Type :=
  match s with
  | Openat2 _ _ _ | Duplicate _ | CreateExclusive _ _ | Reopen _ => result Errno Fd
  | Getrandom _ | Pread _ _ _ => result Errno (list N)
  | Fstat _ | Fstatat _ _ => result Errno Stat
  | WriteCall _ _ | Pwrite _ _ _ => result Errno N
  | Fdatasync _ | Renameat2 _ _ _ _ _ | Unlinkat _ _ | Mkdirat _ _ | Fsync _ | Fdopendir _ => result Errno ()
  | Readdir _ => option string
  | Geteuid => N
  | Getenv _ => option string
  | CancelReason => option BrokerErrorCode
  | HandleClosed => bool
  | EmitBuffered _ | CompleteResource _ => result BrokerErrorCode ()
  | FinishResource _ => ()
  end.

(** ** Programs *)

Inductive Prog (A : Type) : Type :=
| Ret (a : A)
| Panic
| Starved
| Call (s : Syscall) (k : Answer s -> Prog A).
Arguments Ret {A} a.
Arguments Panic {A}.
Arguments Starved {A}.
Arguments Call {A} s k.

Fixpoint pbind {A B} (p : Prog A) (f : A -> Prog B) : Prog B :=
  match p with
  | Ret a => f a
  | Panic => Panic
  | Starved => Starved
  | Call s k => Call s (fun a => pbind (k a) f)
  end.

(** A program with the error type of the broker. *)
Definition Io (A : Type) : Type := Prog (result BrokerErrorCode A).
Definition pure {A} (a : A) : Io A := Ret (Ok a).
Definition fail {A} (error : BrokerErrorCode) : Io A := Ret (Err error).
Definition lift {A} (r : result BrokerErrorCode A) : Io A := Ret r.
(** The operator [?] of Rust: an error ends the program. *)
Definition try {A B} (p : Io A) (f : A -> Io B) : Io B :=
  pbind p (fun r => match r with Ok a => f a | Err error => fail error end).
Definition ask (s : Syscall) : Prog (Answer s) := Call s Ret.
(** [x ⇐ p; q] goes on with the result itself, [x ↢ p; q] with its value. *)
Notation "x ⇐ p ; q" := (pbind p (fun x => q)) (at level 20, p at level 100, q at level 200).
Notation "x ↢ p ; q" := (try p (fun x => q)) (at level 20, p at level 100, q at level 200).

(** ** Meaning *)

Section Interpret.
Context {W : Type} (step : forall s, W -> (Answer s -> W -> Prop) -> Prop).

(** Every run from [w] ends in [post], or starves in [starved]; none
    panics. *)
Fixpoint interpret {A} (p : Prog A) (w : W) (post : A -> W -> Prop) (starved : W -> Prop) : Prop :=
  match p with
  | Ret a => post a w
  | Panic => False
  | Starved => starved w
  | Call s k => step s w (fun a w' => interpret (k a) w' post starved)
  end.

Class Monotone : Prop :=
  step_mono s w (P Q : Answer s -> W -> Prop) : (forall a w', P a w' -> Q a w') -> step s w P -> step s w Q.
Context `{!Monotone}.

Lemma interpret_mono {A} (p : Prog A) w (P Q : A -> W -> Prop) (S T : W -> Prop) :
  (forall a w', P a w' -> Q a w') -> (forall w', S w' -> T w') -> interpret p w P S -> interpret p w Q T.
Proof.
  intros HPQ HST. revert w; induction p as [a| | |s k IH]; intros w; cbn [interpret]; auto.
  apply step_mono. intros a w'. apply IH.
Qed.

Lemma interpret_pbind {A B} (p : Prog A) (f : A -> Prog B) w P S :
  interpret p w (fun a w' => interpret (f a) w' P S) S -> interpret (pbind p f) w P S.
Proof.
  revert w; induction p as [a| | |s k IH]; intros w; cbn [interpret pbind]; auto.
  apply step_mono. intros a w'. apply IH.
Qed.

Lemma interpret_then {A B} (p : Prog A) (f : A -> Prog B) w M P S :
  interpret p w M S -> (forall a w', M a w' -> interpret (f a) w' P S) -> interpret (pbind p f) w P S.
Proof. intros Hp Hf. apply interpret_pbind. revert Hp. apply interpret_mono; [exact Hf|done]. Qed.
End Interpret.

(** An executable kernel, with the other threads. *)
Class Kernel (W : Type) := kernel_call : forall s, W -> Answer s * W.

Inductive Outcome (A : Type) := Done (a : A) | Panicked | StarvedOut.
Arguments Done {A} a.
Arguments Panicked {A}.
Arguments StarvedOut {A}.

Fixpoint run {W A} `{!Kernel W} (p : Prog A) (w : W) : Outcome A * W :=
  match p with
  | Ret a => (Done a, w)
  | Panic => (Panicked, w)
  | Starved => (StarvedOut, w)
  | Call s k => let '(a, w') := kernel_call s w in run (k a) w'
  end.

(** A semantics describes a kernel through [R] when each call keeps [R]; then
    it describes its runs. *)
Lemma interpret_run {W V A} `{!Kernel W} (step : forall s, V -> (Answer s -> V -> Prop) -> Prop)
  (R : W -> V -> Prop) (p : Prog A) (w : W) (v : V) P S :
  (forall s w v Q, R w v -> step s v Q -> exists v', R (kernel_call s w).2 v' /\ Q (kernel_call s w).1 v') ->
  R w v -> interpret step p v P S ->
  exists v', R (run p w).2 v' /\
    match (run p w).1 with Done a => P a v' | Panicked => False | StarvedOut => S v' end.
Proof.
  intros Hstep. revert w v; induction p as [a| | |s k IH]; intros w v HR H; cbn [interpret run] in *;
    [by eauto|done|by eauto|].
  destruct (Hstep s w v _ HR H) as (v' & HR' & H'). destruct (kernel_call s w) as [a w'].
  by apply (IH a w' v').
Qed.

(** ** Errors and metadata *)

(** [os_error] of [filesystem.rs]. *)
Definition read_os_error (error : Errno) : BrokerErrorCode :=
  match error with
  | EXDEV | ELOOP | ENOENT | ENOTDIR | EACCES | EPERM => EOutOfScope
  | ENOSYS => EUnsupported
  | _ => EBackendFailed
  end.

(** [os_error] of [filesystem_write.rs]. *)
Definition os_error (error : Errno) : BrokerErrorCode :=
  match error with
  | EXDEV | ELOOP | ENOENT | ENOTDIR | EACCES | EPERM | EEXIST | EISDIR | ENOTEMPTY => EOutOfScope
  | ENOSPC | EDQUOT | EFBIG => EQuotaExceeded
  | ENOSYS => EUnsupported
  | _ => EBackendFailed
  end.

(** [if let Some(reason) = cancellation.reason() { return Err(reason) }]. *)
Definition check_cancelled : Io () :=
  reason ⇐ ask CancelReason;
  match reason with Some reason => fail reason | None => pure () end.

(** [CString::new]. *)
Definition c_string (value : string) : result BrokerErrorCode string :=
  if contains_byte value "000" then Err EInvalidRequest else Ok value.

Definition u64_of (size : Z) : result BrokerErrorCode N :=
  if (0 <=? size)%Z then Ok (Z.to_N size) else Err EBackendFailed.

Section Errors.
Variable os_error : Errno -> BrokerErrorCode.

Definition descriptor_metadata (descriptor : Fd) : Io Stat :=
  metadata ⇐ ask (Fstat descriptor); lift (map_err os_error metadata).

Definition validate_regular_file (descriptor : Fd) (maximum_file_bytes : N) : Io Stat :=
  metadata ↢ descriptor_metadata descriptor;
  if negb (bool_decide (st_format metadata = S_IFREG)) || negb (st_nlink metadata =? 1)%N
  then fail EOutOfScope
  else
    size ↢ lift (u64_of (st_size metadata));
    if (maximum_file_bytes <? size)%N then fail EQuotaExceeded else pure metadata.

Definition RESOLVE_FLAGS : list ResolveFlag :=
  [RESOLVE_NO_XDEV; RESOLVE_NO_MAGICLINKS; RESOLVE_NO_SYMLINKS; RESOLVE_BENEATH].

Definition open_at_beneath (root : Fd) (path : string) (flags : list OpenFlag) : Io Fd :=
  descriptor ⇐ ask (Openat2 root path
    {| oh_flags := flags ++ [O_CLOEXEC; O_NOFOLLOW]; oh_resolve := RESOLVE_FLAGS |});
  lift (map_err os_error descriptor).

Definition open_beneath (root : Fd) (path : string) (flags : list OpenFlag) : Io Fd :=
  path ↢ lift (c_string path);
  open_at_beneath root path flags.
End Errors.

(** ** Mounts *)

Definition normalized_absolute_path (path : string) : bool :=
  is_absolute path &&
  match components path with
  | RootDir :: rest => forallb (fun c => negb (FilesRead.not_normal c)) rest
  | _ => false
  end.

Definition home : Prog (option string) := ask (Getenv "HOME").
Definition or_home (variable below : string) : Prog (option string) :=
  value ⇐ ask (Getenv variable);
  match value with
  | Some path => Ret (Some path)
  | None => path ⇐ home; Ret (option_map (fun path => path_join path below) path)
  end.

Definition standard_directory_root (directory : StandardDirectoryBinding) : Io string :=
  path ⇐ match directory with
         | Home => home
         | XdgConfig => or_home "XDG_CONFIG_HOME" ".config"
         | XdgData => or_home "XDG_DATA_HOME" ".local/share"
         | XdgState => or_home "XDG_STATE_HOME" ".local/state"
         | XdgCache => or_home "XDG_CACHE_HOME" ".cache"
         | XdgRuntime => ask (Getenv "XDG_RUNTIME_DIR")
         end;
  path ↢ lift (ok_or EOutOfScope path);
  if normalized_absolute_path path then pure path else fail EOutOfScope.

(** A directory selected by the user: no component may be a symlink. *)
Definition selected_directory : OpenHow :=
  {| oh_flags := [O_PATH; O_DIRECTORY; O_CLOEXEC; O_NOFOLLOW];
     oh_resolve := [RESOLVE_NO_MAGICLINKS; RESOLVE_NO_SYMLINKS] |}.

Definition validate_xdg_runtime_directory (path : string) : Io () :=
  path ↢ lift (c_string path);
  descriptor ⇐ ask (Openat2 AtRoot path selected_directory);
  descriptor ↢ lift (map_err read_os_error descriptor);
  metadata ↢ descriptor_metadata read_os_error descriptor;
  current_user ⇐ ask Geteuid;
  if negb (st_uid metadata =? current_user)%N || negb (N.land (st_permissions metadata) 63 =? 0)%N
  then fail EOutOfScope else pure ().

Definition bound_path (binding : FilesystemMountBinding) : Io string :=
  match binding with
  | MountPath path => pure path
  | StandardDirectory directory relative =>
      root ↢ standard_directory_root directory;
      _ ↢ (if bool_decide (directory = XdgRuntime) then validate_xdg_runtime_directory root else pure ());
      pure (path_join root relative)
  end.

Definition open_bound_mount (binding : FilesystemMountBinding) : Io Fd :=
  path ↢ bound_path binding;
  if negb (normalized_absolute_path path) then fail EOutOfScope else
  path ↢ lift (c_string path);
  descriptor ⇐ ask (Openat2 AtRoot path selected_directory);
  descriptor ↢ lift (map_err read_os_error descriptor);
  metadata ↢ descriptor_metadata read_os_error descriptor;
  if negb (bool_decide (st_format metadata = S_IFDIR)) then fail EOutOfScope else pure descriptor.
