(* ===== verification/Mutation.v ===== *)
(** * Mutation: the changes of the file write backend

    Models the execution half of [filesystem_write.rs] of
    [crates/touchbar-plugin-supervisor/src] as programs over the system calls
    of [Posix]: temporary files, complete writes, copies, the exchange that
    commits them and its rollback, and the six mutations.  The mutex that
    serializes a plugin's mutations is the sequence of the programs. *)

From S2P Require Import Prelude BTree Text Capability Grants Wire Protocol Lifecycle Executor Payload SchemaFiles Web Address Files Posix.
Import FilesWrite.

#[export] Instance Component_eq_dec : EqDecision Component. Proof. solve_decision. Defined.

Fixpoint prefixes (s : string) : list string :=
  match s with
  | "" => [""]
  | String c s' => "" :: List.map (String c) (prefixes s')
  end.

(** [Path::parent]: what is before the last component, without the
    separators that end it. *)
Definition path_parent (path : string) : option string :=
  match List.rev (components path) with
  | (Normal _ | CurDir | ParentDir) :: rest =>
      List.find (fun p => bool_decide (components p = List.rev rest)) (prefixes path)
  | _ => None
  end.

Definition COPY_BUFFER_BYTES : N := 64 * 1024.
(** The largest [off_t]. *)
Definition i64_max : N := 2 ^ 63 - 1.

Section Calls.
(** The rounds each loop may take. *)
Variable rounds : nat.

(** ** Names and descriptors *)

Definition open_mount {Identity} (request : BackendRequest Identity) (mount : string) : Io Fd :=
  binding ↢ lift (ok_or EOutOfScope (bt_get mount (filesystem_mounts (bk_bindings request))));
  open_bound_mount binding.

Definition open_parent (root : Fd) (path : string) : Io (Fd * string) :=
  name ↢ lift (name ← ok_or EInvalidRequest (file_name path); c_string name);
  parent ↢ lift (ok_or EInvalidRequest (path_parent path));
  descriptor ↢ (if String.eqb parent ""
                then descriptor ⇐ ask (Duplicate root); lift (map_err os_error descriptor)
                else open_beneath os_error root parent [O_PATH; O_DIRECTORY]);
  pure (descriptor, name).

Definition create_exclusive (parent : Fd) (name : string) : Io Fd :=
  descriptor ⇐ ask (CreateExclusive parent name); lift (map_err os_error descriptor).

(** The random bytes of a name. *)
Fixpoint fill_random (rounds : nat) (random : list N) : Io (list N) :=
  if (16 <=? len random)%N then pure random else
  match rounds with
  | O => Starved
  | S rounds =>
      answer ⇐ ask (Getrandom (16 - len random)%N);
      match answer with
      | Err EINTR => fill_random rounds random
      | Err _ | Ok [] => fail EBackendFailed
      | Ok bytes => fill_random rounds (random ++ bytes)
      end
  end.

(** [format!("{byte:02x}")]. *)
Definition hex_byte (byte : N) : string :=
  String (hex_digit (byte / 16)) (String (hex_digit (byte mod 16)) "").
Definition temporary_of (random : list N) : string :=
  INTERNAL_NAME_PREFIX +:+ String.concat "" (List.map hex_byte (take 16 random)) +:+ ".tmp".
Definition temporary_name : Io string :=
  random ↢ fill_random rounds []; pure (temporary_of random).

Definition unlink (parent : Fd) (name : string) : Prog () :=
  _ ⇐ ask (Unlinkat parent name); Ret ().
Definition unlink_checked (parent : Fd) (name : string) : Io () :=
  unlinked ⇐ ask (Unlinkat parent name); lift (map_err os_error unlinked).
Definition rename_at (source_parent : Fd) (source : string) (destination_parent : Fd) (destination : string)
  (flags : RenameFlag) : Io () :=
  renamed ⇐ ask (Renameat2 source_parent source destination_parent destination flags);
  lift (map_err os_error renamed).
Definition metadata_at (parent : Fd) (name : string) : Io Stat :=
  metadata ⇐ ask (Fstatat parent name); lift (map_err os_error metadata).
Definition fdatasync (descriptor : Fd) : Io () :=
  synced ⇐ ask (Fdatasync descriptor); lift (map_err os_error synced).
Definition sync_directory (descriptor : Fd) : Io () :=
  sync_descriptor ⇐ ask (Reopen descriptor);
  sync_descriptor ↢ lift (map_err os_error sync_descriptor);
  synced ⇐ ask (Fsync sync_descriptor);
  lift (map_err os_error synced).

(** ** Metadata *)

Definition same_file (left right : Stat) : bool :=
  (st_dev left =? st_dev right)%N && (st_ino left =? st_ino right)%N
  && bool_decide (st_format right = S_IFREG) && (st_nlink right =? 1)%N.
Definition same_snapshot (left right : Stat) : bool :=
  same_file left right && (st_size left =? st_size right)%Z
  && (st_mtime left =? st_mtime right)%Z && (st_mtime_nsec left =? st_mtime_nsec right)%Z.
Definition same_precommit_snapshot (left right : Stat) : bool :=
  same_snapshot left right
  && (st_ctime left =? st_ctime right)%Z && (st_ctime_nsec left =? st_ctime_nsec right)%Z.

(** ** Contents *)

Fixpoint write_all (rounds : nat) (descriptor : Fd) (bytes : list N) : Io () :=
  if (len bytes =? 0)%N then pure () else
  match rounds with
  | O => Starved
  | S rounds =>
      _ ↢ check_cancelled;
      count ⇐ ask (WriteCall descriptor bytes);
      match count with
      | Err EINTR => write_all rounds descriptor bytes
      | Err error => fail (os_error error)
      | Ok count =>
          if (count =? 0)%N then fail EBackendFailed
          else if (len bytes <? count)%N then Panic
          else write_all rounds descriptor (drop (N.to_nat count) bytes)
      end
  end.

Definition write_and_sync (descriptor : Fd) (bytes : list N) : Io () :=
  _ ↢ write_all rounds descriptor bytes; fdatasync descriptor.

Fixpoint pwrite_all_at (rounds : nat) (descriptor : Fd) (bytes : list N) (offset : N) : Io () :=
  if (len bytes =? 0)%N then pure () else
  match rounds with
  | O => Starved
  | S rounds =>
      _ ↢ check_cancelled;
      if (i64_max <? offset)%N then fail EQuotaExceeded else
      count ⇐ ask (Pwrite descriptor bytes offset);
      match count with
      | Err EINTR => pwrite_all_at rounds descriptor bytes offset
      | Err error => fail (os_error error)
      | Ok count =>
          if (count =? 0)%N then fail EBackendFailed
          else if (len bytes <? count)%N then Panic
          else
            offset ↢ lift (ok_or EQuotaExceeded (checked_add64 offset count));
            pwrite_all_at rounds descriptor (drop (N.to_nat count) bytes) offset
      end
  end.

Fixpoint copy_from (budget : nat) (source destination : Fd) (length offset : N) : Io () :=
  if (length <=? offset)%N then pure () else
  match budget with
  | O => Starved
  | S budget =>
      _ ↢ check_cancelled;
      let remaining := N.min (length - offset) COPY_BUFFER_BYTES in
      if (i64_max <? offset)%N then fail EBackendFailed else
      answer ⇐ ask (Pread source remaining offset);
      match answer with
      | Err EINTR => copy_from budget source destination length offset
      | Err error => fail (os_error error)
      | Ok bytes =>
          if (len bytes =? 0)%N then fail EBackendFailed
          else if (COPY_BUFFER_BYTES <? len bytes)%N then Panic
          else
            _ ↢ pwrite_all_at rounds destination bytes offset;
            offset ↢ lift (ok_or EBackendFailed (checked_add64 offset (len bytes)));
            copy_from budget source destination length offset
      end
  end.
Definition copy_exact (source destination : Fd) (length : N) : Io () :=
  copy_from rounds source destination length 0.

(** ** Committing *)

Definition exchange_and_remove (parent : Fd) (temporary_name target_name : string) (expected_target : Stat)
  (require_unchanged_snapshot : bool) : Io () :=
  exchanged ⇐ rename_at parent temporary_name parent target_name RENAME_EXCHANGE;
  match exchanged with
  | Err error => _ ⇐ unlink parent temporary_name; fail error
  | Ok _ =>
      swapped ⇐ metadata_at parent temporary_name;
      let valid := match swapped with
                   | Ok metadata => if require_unchanged_snapshot then same_snapshot expected_target metadata
                                    else same_file expected_target metadata
                   | Err _ => false
                   end in
      if negb valid then
        rollback ⇐ rename_at parent temporary_name parent target_name RENAME_EXCHANGE;
        match swapped, rollback with
        | Err error, Ok _ => fail error
        | _, _ => fail EBackendFailed
        end
      else unlink_checked parent temporary_name
  end.

(** [match p { Ok(a) => a, Err(error) => { unlink(..); return Err(error) } }]. *)
Definition or_unlink {A B} (parent : Fd) (name : string) (p : Io A) (f : A -> Io B) : Io B :=
  outcome ⇐ p;
  match outcome with
  | Ok a => f a
  | Err error => _ ⇐ unlink parent name; fail error
  end.

(** ** The mutations *)

Definition receipt (bytes_written : N) (resulting_size : option N) : FilesystemMutationResult :=
  {| fm_bytes_written := bytes_written; fm_resulting_size := resulting_size |}.

Section Requests.
Context {Identity : Type} (request : BackendRequest Identity).

Definition create_file (write : FilesystemWriteFile) : Io FilesystemMutationResult :=
  root ↢ open_mount request (fwf_mount write);
  opened ↢ open_parent root (fwf_path write);
  let '(parent, name) := opened in
  temporary_name ↢ temporary_name;
  temporary ↢ create_exclusive parent temporary_name;
  or_unlink parent temporary_name (write_and_sync temporary (fwf_bytes write)) (fun _ =>
  or_unlink parent temporary_name check_cancelled (fun _ =>
  or_unlink parent temporary_name (descriptor_metadata os_error temporary) (fun temporary_metadata =>
  or_unlink parent temporary_name (rename_at parent temporary_name parent name RENAME_NOREPLACE) (fun _ =>
  committed ⇐ metadata_at parent name;
  if negb match committed with Ok metadata => same_file temporary_metadata metadata | Err _ => false end then
    rollback ⇐ rename_at parent name parent temporary_name RENAME_NOREPLACE;
    _ ⇐ (if is_ok rollback then unlink parent temporary_name else Ret ());
    fail EBackendFailed
  else
    _ ↢ sync_directory parent;
    pure (receipt (len (fwf_bytes write)) (Some (len (fwf_bytes write)))))))).

(** The error is [errno] as it is after the removal, which changes it when it
    fails. *)
Definition failed_sync {A} (parent : Fd) (name : string) (error : Errno) : Io A :=
  unlinked ⇐ ask (Unlinkat parent name);
  fail (os_error (match unlinked with Ok _ => error | Err error => error end)).

Definition append_file (write : FilesystemWriteFile) : Io FilesystemMutationResult :=
  scope ↢ lift (filesystem_scope request);
  root ↢ open_mount request (fwf_mount write);
  opened ↢ open_parent root (fwf_path write);
  let '(parent, name) := opened in
  existing ↢ open_at_beneath os_error parent name [O_RDONLY; O_NONBLOCK];
  existing_metadata ↢ validate_regular_file os_error existing (fw_maximum_file_bytes scope);
  initial ↢ lift (u64_of (st_size existing_metadata));
  resulting_size ↢ lift (ok_or EQuotaExceeded (checked_add64 initial (len (fwf_bytes write))));
  if (fw_maximum_file_bytes scope <? resulting_size)%N then fail EQuotaExceeded else
  temporary_name ↢ temporary_name;
  temporary ↢ create_exclusive parent temporary_name;
  or_unlink parent temporary_name
    (_ ↢ copy_exact existing temporary initial;
     pwrite_all_at rounds temporary (fwf_bytes write) initial) (fun _ =>
  synced ⇐ ask (Fdatasync temporary);
  match synced with Err error => failed_sync parent temporary_name error | Ok _ =>
  or_unlink parent temporary_name (descriptor_metadata os_error existing) (fun after_copy =>
  if negb (same_precommit_snapshot existing_metadata after_copy)
  then _ ⇐ unlink parent temporary_name; fail EBackendFailed else
  or_unlink parent temporary_name check_cancelled (fun _ =>
  _ ↢ exchange_and_remove parent temporary_name name existing_metadata true;
  _ ↢ sync_directory parent;
  pure (receipt (len (fwf_bytes write)) (Some resulting_size)))) end).

Definition replace_file (write : FilesystemWriteFile) : Io FilesystemMutationResult :=
  scope ↢ lift (filesystem_scope request);
  root ↢ open_mount request (fwf_mount write);
  opened ↢ open_parent root (fwf_path write);
  let '(parent, name) := opened in
  existing ↢ open_at_beneath os_error parent name [O_PATH];
  existing_metadata ↢ validate_regular_file os_error existing (fw_maximum_file_bytes scope);
  temporary_name ↢ temporary_name;
  temporary ↢ create_exclusive parent temporary_name;
  or_unlink parent temporary_name (write_and_sync temporary (fwf_bytes write)) (fun _ =>
  or_unlink parent temporary_name check_cancelled (fun _ =>
  _ ↢ exchange_and_remove parent temporary_name name existing_metadata false;
  _ ↢ sync_directory parent;
  pure (receipt (len (fwf_bytes write)) (Some (len (fwf_bytes write)))))).

(** [let _ = rename_at(..); return Err(error)]. *)
Definition roll_back {A} (source_parent : Fd) (source : string) (destination_parent : Fd) (destination : string)
  (error : BrokerErrorCode) : Io A :=
  _ ⇐ rename_at source_parent source destination_parent destination RENAME_NOREPLACE; fail error.

Definition delete_file (path : FilesystemPath) : Io FilesystemMutationResult :=
  scope ↢ lift (filesystem_scope request);
  root ↢ open_mount request (fp_mount path);
  opened ↢ open_parent root (fp_path path);
  let '(parent, name) := opened in
  existing ↢ open_at_beneath os_error parent name [O_PATH];
  existing_metadata ↢ validate_regular_file os_error existing (fw_maximum_file_bytes scope);
  _ ↢ check_cancelled;
  quarantine ↢ temporary_name;
  _ ↢ rename_at parent name parent quarantine RENAME_NOREPLACE;
  moved ⇐ metadata_at parent quarantine;
  match moved with
  | Err error => roll_back parent quarantine parent name error
  | Ok moved =>
      if negb (same_file existing_metadata moved)
      then roll_back parent quarantine parent name EBackendFailed
      else
        _ ↢ unlink_checked parent quarantine;
        _ ↢ sync_directory parent;
        pure (receipt 0 None)
  end.

Definition rename_file (rename : FilesystemRename) : Io FilesystemMutationResult :=
  scope ↢ lift (filesystem_scope request);
  root ↢ open_mount request (fr_mount rename);
  opened_source ↢ open_parent root (fr_source rename);
  let '(source_parent, source_name) := opened_source in
  opened_destination ↢ open_parent root (fr_destination rename);
  let '(destination_parent, destination_name) := opened_destination in
  source ↢ open_at_beneath os_error source_parent source_name [O_PATH];
  source_metadata ↢ validate_regular_file os_error source (fw_maximum_file_bytes scope);
  _ ↢ check_cancelled;
  _ ↢ rename_at source_parent source_name destination_parent destination_name RENAME_NOREPLACE;
  destination_metadata ⇐ metadata_at destination_parent destination_name;
  match destination_metadata with
  | Err error => roll_back destination_parent destination_name source_parent source_name error
  | Ok destination_metadata =>
      if negb (same_file source_metadata destination_metadata)
      then roll_back destination_parent destination_name source_parent source_name EBackendFailed
      else
        _ ↢ sync_directory source_parent;
        _ ↢ (if negb (bool_decide (source_parent = destination_parent))
             then sync_directory destination_parent else pure ());
        pure (receipt 0 None)
  end.

Definition create_directory (path : FilesystemPath) : Io FilesystemMutationResult :=
  root ↢ open_mount request (fp_mount path);
  opened ↢ open_parent root (fp_path path);
  let '(parent, name) := opened in
  _ ↢ check_cancelled;
  made ⇐ ask (Mkdirat parent name);
  _ ↢ lift (map_err os_error made);
  _ ↢ sync_directory parent;
  pure (receipt 0 None).

Definition mutate (mutation : AuthorizedMutation) : Io FilesystemMutationResult :=
  match mutation with
  | CreateFile write => create_file write
  | ReplaceFile write => replace_file write
  | AppendFile write => append_file write
  | DeleteFile path => delete_file path
  | RenameFile rename => rename_file rename
  | CreateDir path => create_directory path
  end.

(** [Backend::execute] for an operation that is not of an upload. *)
Definition execute_mutation : Io (list N) :=
  _ ↢ check_cancelled;
  mutation ↢ lift (decode_and_authorize request);
  receipt ↢ mutate mutation;
  lift (decoded (FilesystemMutationResult_encode receipt)).
End Requests.
End Calls.
