(* ===== verification/Tree.v ===== *)
(** * Tree: what the system calls promise

    A view of the file system - directories, contents, open handles - and
    [documented], the effect the manual pages give each call of [Posix] when
    no other process changes the files meanwhile: a call that fails changes
    nothing, a call that succeeds has its effect at once.  [promised] is the
    semantics of programs it gives. *)

From stdpp Require Import gmap.
From S2P Require Import Prelude BTree Text Capability Grants Wire Protocol Files Posix Mutation.
Import FilesWrite.

Record Fs := {
  fs_root : N;
  fs_dirs : gmap N (gmap string N);
  fs_data : gmap N (list N);
  fs_open : gmap N N;
  fs_pos : gmap N N;
}.

Definition with_dirs (fs : Fs) dirs : Fs :=
  {| fs_root := fs_root fs; fs_dirs := dirs; fs_data := fs_data fs; fs_open := fs_open fs; fs_pos := fs_pos fs |}.
Definition with_data (fs : Fs) data pos : Fs :=
  {| fs_root := fs_root fs; fs_dirs := fs_dirs fs; fs_data := data; fs_open := fs_open fs; fs_pos := pos |}.
Definition with_open (fs : Fs) h i : Fs :=
  {| fs_root := fs_root fs; fs_dirs := fs_dirs fs; fs_data := fs_data fs;
     fs_open := <[h := i]> (fs_open fs); fs_pos := <[h := 0%N]> (fs_pos fs) |}.

(** The file or directory behind a handle. *)
Definition object (fs : Fs) (fd : Fd) : option N :=
  match fd with AtRoot => Some (fs_root fs) | Handle h => fs_open fs !! h end.

(** Following names downwards from [i], and a path from [start]. *)
Fixpoint walk (dirs : gmap N (gmap string N)) (i : N) (names : list Component) : option N :=
  match names with
  | [] => Some i
  | Normal name :: names => dir ← dirs !! i; j ← dir !! name; walk dirs j names
  | CurDir :: names => walk dirs i names
  | _ => None
  end.
Definition resolve_path (fs : Fs) (start : N) (path : string) : option N :=
  match components path with
  | RootDir :: names => walk (fs_dirs fs) (fs_root fs) names
  | names => walk (fs_dirs fs) start names
  end.

(** [bytes] written over [data] at [offset]. *)
Definition write_at (offset : N) (bytes data : list N) : list N :=
  take (N.to_nat offset) (data ++ replicate (N.to_nat offset - length data) 0%N) ++ bytes
    ++ drop (N.to_nat offset + length bytes) data.

(** An inode nothing names or has open. *)
Record unused (fs : Fs) (i : N) : Prop := {
  un_dir : fs_dirs fs !! i = None;
  un_data : fs_data fs !! i = None;
  un_entry : forall d dir name, fs_dirs fs !! d = Some dir -> dir !! name <> Some i;
  un_open : forall h, fs_open fs !! h <> Some i;
  un_root : fs_root fs <> i;
}.

(** A new handle of [i]. *)
Definition opens (fs : Fs) (fd : Fd) (i : N) (fs' : Fs) : Prop :=
  exists h, fd = Handle h /\ fs_open fs !! h = None /\ fs' = with_open fs h i.
Definition changes_nothing {A} (fs : Fs) (_ : A) (fs' : Fs) : Prop := fs' = fs.
(** An error changes nothing, a success does [f]. *)
Definition or_nothing {A} (fs : Fs) (f : A -> Fs -> Prop) (answer : result Errno A) (fs' : Fs) : Prop :=
  match answer with Ok a => f a fs' | Err _ => fs' = fs end.
Definition entry_of (fs : Fs) (parent : Fd) (d : N) (dir : gmap string N) : Prop :=
  object fs parent = Some d /\ fs_dirs fs !! d = Some dir.

Definition documented (fs : Fs) (s : Syscall) : Answer s -> Fs -> Prop :=
  match s return Answer s -> Fs -> Prop with
  | Openat2 root path how => or_nothing fs (fun fd fs' =>
      exists start i, object fs root = Some start /\ resolve_path fs start path = Some i /\ opens fs fd i fs')
  | Duplicate fd => or_nothing fs (fun fd' fs' => exists i, object fs fd = Some i /\ opens fs fd' i fs')
  | Reopen fd => or_nothing fs (fun fd' fs' => exists i, object fs fd = Some i /\ opens fs fd' i fs')
  | CreateExclusive parent name => or_nothing fs (fun fd fs' =>
      exists d dir i, entry_of fs parent d dir /\ dir !! name = None /\ unused fs i /\
        opens (with_data (with_dirs fs (<[d := <[name := i]> dir]> (fs_dirs fs)))
                 (<[i := []]> (fs_data fs)) (fs_pos fs)) fd i fs')
  | Fstat fd => fun answer fs' => fs' = fs /\
      match answer with
      | Ok metadata => forall i, object fs fd = Some i -> st_format metadata = S_IFREG ->
          exists data, fs_data fs !! i = Some data /\ st_size metadata = Z.of_N (len data)
      | Err _ => True
      end
  | Pread fd count offset => fun answer fs' => fs' = fs /\
      match answer with
      | Ok bytes => exists i data, object fs fd = Some i /\ fs_data fs !! i = Some data /\
          (len bytes <= count)%N /\ bytes = take (length bytes) (drop (N.to_nat offset) data)
      | Err _ => True
      end
  | WriteCall fd bytes => or_nothing fs (fun count fs' => (count <= len bytes)%N /\
      exists h i data pos, fd = Handle h /\ fs_open fs !! h = Some i /\ fs_data fs !! i = Some data /\
        fs_pos fs !! h = Some pos /\
        fs' = with_data fs (<[i := write_at pos (take (N.to_nat count) bytes) data]> (fs_data fs))
                (<[h := (pos + count)%N]> (fs_pos fs)))
  | Pwrite fd bytes offset => or_nothing fs (fun count fs' => (count <= len bytes)%N /\
      exists i data, object fs fd = Some i /\ fs_data fs !! i = Some data /\
        fs' = with_data fs (<[i := write_at offset (take (N.to_nat count) bytes) data]> (fs_data fs)) (fs_pos fs))
  | Renameat2 p1 n1 p2 n2 RENAME_NOREPLACE => or_nothing fs (fun _ fs' =>
      exists d1 dir1 d2 dir2 i, entry_of fs p1 d1 dir1 /\ entry_of fs p2 d2 dir2 /\
        dir1 !! n1 = Some i /\ dir2 !! n2 = None /\
        fs' = with_dirs fs (alter (insert n2 i) d2 (alter (delete n1) d1 (fs_dirs fs))))
  | Renameat2 p1 n1 p2 n2 RENAME_EXCHANGE => or_nothing fs (fun _ fs' =>
      exists d1 dir1 d2 dir2 i j, entry_of fs p1 d1 dir1 /\ entry_of fs p2 d2 dir2 /\
        dir1 !! n1 = Some i /\ dir2 !! n2 = Some j /\
        fs' = with_dirs fs (alter (insert n2 i) d2 (alter (insert n1 j) d1 (fs_dirs fs))))
  | Unlinkat parent name => or_nothing fs (fun _ fs' =>
      exists d dir i, entry_of fs parent d dir /\ dir !! name = Some i /\
        fs' = with_dirs fs (alter (delete name) d (fs_dirs fs)))
  | Mkdirat parent name => or_nothing fs (fun _ fs' =>
      exists d dir i, entry_of fs parent d dir /\ dir !! name = None /\ unused fs i /\
        fs' = with_dirs fs (<[i := ∅]> (<[d := <[name := i]> dir]> (fs_dirs fs))))
  | Getrandom _ | Fstatat _ _ | Fdatasync _ | Fsync _ | Fdopendir _ | Readdir _ | Geteuid | Getenv _
  | CancelReason | HandleClosed | EmitBuffered _ | CompleteResource _ | FinishResource _ => changes_nothing fs
  end.

Definition promised (s : Syscall) (fs : Fs) (Q : Answer s -> Fs -> Prop) : Prop :=
  forall a fs', documented fs s a fs' -> Q a fs'.
#[export] Instance promised_mono : Monotone promised.
Proof. intros s fs P Q HPQ H a fs' Hd. by apply HPQ, H. Qed.

(** A kernel that keeps these promises, seen through [view]. *)
Class PromisingKernel (W : Type) `{Kernel W} := {
  view : W -> Fs;
  kernel_promises : forall s w, documented (view w) s (kernel_call s w).1 (view (kernel_call s w).2);
}.

Lemma promised_run {W A} `{PromisingKernel W} (p : Prog A) (w : W) P S :
  interpret promised p (view w) P S ->
  match (run p w).1 with Done a => P a (view (run p w).2) | Panicked => False | StarvedOut => S (view (run p w).2) end.
Proof.
  intros Hp.
  destruct (interpret_run promised (fun w fs => view w = fs) p w (view w) P S) as (fs' & <- & Hr); [|done..|done].
  intros s w' ? Q <- Hs. eexists; split; [done|]. apply Hs, kernel_promises.
Qed.

(** ** What the user sees *)

(** The names of the broker's own files. *)
Definition reserved (name : string) : bool := starts_with name INTERNAL_NAME_PREFIX.
Definition visible_dir (dir : gmap string N) : gmap string N := filter (fun e => reserved e.1 = false) dir.
Definition visible (dirs : gmap N (gmap string N)) : gmap N (gmap string N) := visible_dir <$> dirs.

Lemma visible_dir_insert name i dir :
  visible_dir (<[name := i]> dir) =
    if reserved name then visible_dir (delete name dir) else <[name := i]> (visible_dir dir).
Proof.
  unfold visible_dir. destruct (reserved name) eqn:E.
  - rewrite map_filter_insert_False by (cbn; congruence). done.
  - by rewrite map_filter_insert_True.
Qed.
Lemma visible_dir_delete name dir : visible_dir (delete name dir) = delete name (visible_dir dir).
Proof. apply map_filter_delete. Qed.
Lemma visible_dir_reserved name dir : reserved name = true -> delete name (visible_dir dir) = visible_dir dir.
Proof.
  intros H. apply delete_id. unfold visible_dir. apply map_lookup_filter_None. right. cbn. intros ? _. congruence.
Qed.
Lemma visible_dir_delete_reserved name dir : reserved name = true -> visible_dir (delete name dir) = visible_dir dir.
Proof. intros H. by rewrite visible_dir_delete, visible_dir_reserved. Qed.
Lemma visible_dir_insert_reserved name i dir : reserved name = true -> visible_dir (<[name := i]> dir) = visible_dir dir.
Proof. intros H. by rewrite visible_dir_insert, H, visible_dir_delete_reserved. Qed.
Lemma visible_alter f d dirs :
  visible (alter f d dirs) = match dirs !! d with Some dir => <[d := visible_dir (f dir)]> (visible dirs) | None => visible dirs end.
Proof.
  unfold visible. destruct (dirs !! d) as [dir|] eqn:E.
  - rewrite <- fmap_insert. f_equal. apply map_eq. intros k. destruct (decide (k = d)) as [->|].
    + by rewrite lookup_alter_eq, lookup_insert_eq, E.
    + by rewrite lookup_alter_ne, lookup_insert_ne.
  - by rewrite alter_id by (intros x; congruence).
Qed.
