(* ===== verification/Memory.v ===== *)
(** * Memory: a file system in memory

    A kernel that keeps the promises of [Tree], to run the operations of the
    file backends on: files and directories in maps, one handle and one inode
    number after another, no failures but those the calls themselves give. *)

From stdpp Require Import gmap.
From Stdlib Require Import ZifyBool.
From S2P Require Import Prelude BTree Text Capability Grants Wire Protocol Files Posix Mutation Tree.

(** The files, and the next number. *)
Record Memory := { mem_fs : Fs; mem_next : N }.

Definition unused_b (fs : Fs) (i : N) : bool :=
  bool_decide (fs_dirs fs !! i = None) && bool_decide (fs_data fs !! i = None)
  && bool_decide (map_Forall (fun _ dir => map_Forall (fun _ j => j <> i) dir) (fs_dirs fs))
  && bool_decide (map_Forall (fun _ j => j <> i) (fs_open fs)) && negb (fs_root fs =? i)%N.
Lemma unused_b_spec fs i : unused_b fs i = true -> unused fs i.
Proof.
  unfold unused_b. rewrite !andb_true_iff. intros [[[[H1 H2] H3] H4] H5].
  apply bool_decide_eq_true in H1, H2, H3, H4. split; [done|done| | |lia].
  - intros d dir name Hd Hn. by apply (H3 d dir Hd name i Hn).
  - intros h Hh. by apply (H4 h i Hh).
Qed.

Section Calls.
Variable m : Memory.
Abbreviation fs := (mem_fs m).

Definition next (fs' : Fs) : Memory := {| mem_fs := fs'; mem_next := mem_next m + 1 |}.
Definition fails {A} (error : Errno) : result Errno A * Memory := (Err error, m).
Definition in_dir {A} (parent : Fd) (f : N -> gmap string N -> result Errno A * Memory) : result Errno A * Memory :=
  match object fs parent with
  | None => fails OtherErrno
  | Some d => match fs_dirs fs !! d with None => fails ENOTDIR | Some dir => f d dir end
  end.

Definition mem_open (i : option N) : result Errno Fd * Memory :=
  match i with
  | Some i =>
      if bool_decide (fs_open fs !! mem_next m = None)
      then (Ok (Handle (mem_next m)), next (with_open fs (mem_next m) i))
      else fails OtherErrno
  | None => fails ENOENT
  end.
Definition mem_create (parent : Fd) (name : string) : result Errno Fd * Memory :=
  in_dir parent (fun d dir =>
    let i := mem_next m in
    if bool_decide (is_Some (dir !! name)) then fails EEXIST
    else if unused_b fs i && bool_decide (fs_open fs !! i = None)
    then (Ok (Handle i),
          next (with_open (with_data (with_dirs fs (<[d := <[name := i]> dir]> (fs_dirs fs)))
                             (<[i := []]> (fs_data fs)) (fs_pos fs)) i i))
    else fails ENOSPC).
Definition mem_stat (i : N) : Stat :=
  {| st_dev := 1; st_ino := i;
     st_format := if bool_decide (is_Some (fs_dirs fs !! i)) then S_IFDIR
                  else if bool_decide (is_Some (fs_data fs !! i)) then S_IFREG else OtherFormat;
     st_permissions := 448; st_nlink := 1; st_uid := 0;
     st_size := match fs_data fs !! i with Some data => Z.of_N (len data) | None => 0 end;
     st_mtime := 0; st_mtime_nsec := 0; st_ctime := 0; st_ctime_nsec := 0 |}.
Definition mem_pread (fd : Fd) (count offset : N) : result Errno (list N) * Memory :=
  match object fs fd with
  | None => fails OtherErrno
  | Some i => match fs_data fs !! i with
              | None => fails EISDIR
              | Some data => (Ok (take (N.to_nat count) (drop (N.to_nat offset) data)), m)
              end
  end.
Definition mem_pwrite (fd : Fd) (bytes : list N) (offset : N) : result Errno N * Memory :=
  match object fs fd with
  | None => fails OtherErrno
  | Some i => match fs_data fs !! i with
              | None => fails EISDIR
              | Some data => (Ok (len bytes), next (with_data fs (<[i := write_at offset bytes data]> (fs_data fs)) (fs_pos fs)))
              end
  end.
Definition mem_write (fd : Fd) (bytes : list N) : result Errno N * Memory :=
  match fd with
  | AtRoot => fails OtherErrno
  | Handle h =>
      match fs_open fs !! h, fs_pos fs !! h with
      | Some i, Some pos =>
          match fs_data fs !! i with
          | None => fails EISDIR
          | Some data => (Ok (len bytes), next (with_data fs (<[i := write_at pos bytes data]> (fs_data fs))
                                                 (<[h := (pos + len bytes)%N]> (fs_pos fs))))
          end
      | _, _ => fails OtherErrno
      end
  end.
Definition mem_rename (p1 : Fd) (n1 : string) (p2 : Fd) (n2 : string) (flags : RenameFlag) : result Errno () * Memory :=
  in_dir p1 (fun d1 dir1 => in_dir p2 (fun d2 dir2 =>
    match dir1 !! n1, dir2 !! n2, flags with
    | Some i, None, RENAME_NOREPLACE =>
        (Ok (), next (with_dirs fs (alter (insert n2 i) d2 (alter (delete n1) d1 (fs_dirs fs)))))
    | Some i, Some j, RENAME_EXCHANGE =>
        (Ok (), next (with_dirs fs (alter (insert n2 i) d2 (alter (insert n1 j) d1 (fs_dirs fs)))))
    | Some _, Some _, RENAME_NOREPLACE => fails EEXIST
    | _, _, _ => fails ENOENT
    end)).
Definition mem_unlink (parent : Fd) (name : string) : result Errno () * Memory :=
  in_dir parent (fun d dir =>
    match dir !! name with
    | Some _ => (Ok (), next (with_dirs fs (alter (delete name) d (fs_dirs fs))))
    | None => fails ENOENT
    end).
Definition mem_mkdir (parent : Fd) (name : string) : result Errno () * Memory :=
  in_dir parent (fun d dir =>
    let i := mem_next m in
    if bool_decide (is_Some (dir !! name)) then fails EEXIST
    else if unused_b fs i
    then (Ok (), next (with_dirs fs (<[i := ∅]> (<[d := <[name := i]> dir]> (fs_dirs fs)))))
    else fails ENOSPC).

Definition memory_call (s : Syscall) : Answer s * Memory :=
  match s return Answer s * Memory with
  | Openat2 root path _ => mem_open (start ← object fs root; resolve_path fs start path)
  | Duplicate fd => mem_open (object fs fd)
  | Reopen fd => mem_open (object fs fd)
  | CreateExclusive parent name => mem_create parent name
  | Getrandom count => (Ok (replicate (N.to_nat count) (mem_next m mod 256)%N), next fs)
  | Fstat fd => match object fs fd with Some i => (Ok (mem_stat i), m) | None => fails OtherErrno end
  | Fstatat parent name => in_dir parent (fun _ dir =>
      match dir !! name with Some i => (Ok (mem_stat i), m) | None => fails ENOENT end)
  | Pread fd count offset => mem_pread fd count offset
  | WriteCall fd bytes => mem_write fd bytes
  | Pwrite fd bytes offset => mem_pwrite fd bytes offset
  | Fdatasync _ => (Ok (), m)
  | Fsync _ => (Ok (), m)
  | Fdopendir _ => (Ok (), m)
  | Renameat2 p1 n1 p2 n2 flags => mem_rename p1 n1 p2 n2 flags
  | Unlinkat parent name => mem_unlink parent name
  | Mkdirat parent name => mem_mkdir parent name
  | Readdir _ => (None, m)
  | Geteuid => (0%N, m)
  | Getenv _ => (None, m)
  | CancelReason => (None, m)
  | HandleClosed => (false, m)
  | EmitBuffered _ | CompleteResource _ => (Ok (), m)
  | FinishResource _ => ((), m)
  end.

Lemma in_dir_cases {A} parent (f : N -> gmap string N -> result Errno A * Memory) (P : result Errno A * Memory -> Prop) :
  (forall error, P (fails error)) -> (forall d dir, entry_of fs parent d dir -> P (f d dir)) -> P (in_dir parent f).
Proof.
  intros HE Hf. unfold in_dir. destruct (object fs parent) as [d|] eqn:Eo; [|done].
  destruct (fs_dirs fs !! d) as [dir|] eqn:Ed; [|done]. by apply Hf.
Qed.
End Calls.

#[export] Instance memory_kernel : Kernel Memory := fun s m => memory_call m s.

Lemma mem_open_promises m (i : option N) (r := mem_open m i) :
  match r.1 with
  | Ok fd => exists j, i = Some j /\ opens (mem_fs m) fd j (mem_fs r.2)
  | Err _ => mem_fs r.2 = mem_fs m
  end.
Proof.
  subst r. unfold mem_open. destruct i as [j|]; [|done].
  destruct (bool_decide_reflect (fs_open (mem_fs m) !! mem_next m = None)); [|done]. cbn. exists j. split; [done|]. by eexists.
Qed.

#[export] Program Instance memory_promises : PromisingKernel Memory := {| view := mem_fs |}.
Next Obligation.
  intros s m. unfold kernel_call, memory_kernel. destruct s; cbn [memory_call]; try done.
  - pose proof (mem_open_promises m (start ← object (mem_fs m) root; resolve_path (mem_fs m) start path)) as H. cbn zeta in H.
    destruct (mem_open _ _) as [[fd|error] m']; [|exact H]. destruct H as (j & Hj & Ho).
    apply bind_Some in Hj as (start & Hs & Hr). by exists start, j.
  - pose proof (mem_open_promises m (object (mem_fs m) fd)) as H. cbn zeta in H.
    destruct (mem_open _ _) as [[fd'|error] m']; exact H.
  - unfold mem_create. apply in_dir_cases; [done|]. intros d dir He.
    destruct (bool_decide_reflect (is_Some (dir !! name))) as [|Hn]; [done|].
    destruct (unused_b _ _) eqn:Eu; [|done]. destruct (bool_decide_reflect (fs_open (mem_fs m) !! mem_next m = None)); [|done].
    exists d, dir, (mem_next m). split; [done|]. split; [by apply eq_None_not_Some|]. split; [by apply unused_b_spec|]. by eexists.
  - destruct (object (mem_fs m) fd) as [i|] eqn:Eo; [|done]. split; [done|]. intros j Hj. rewrite Eo in Hj. injection Hj as <-. cbn.
    destruct (bool_decide_reflect (is_Some (fs_dirs (mem_fs m) !! i))); [done|].
    destruct (bool_decide_reflect (is_Some (fs_data (mem_fs m) !! i))) as [[data Hd]|]; [|done]. intros _. rewrite Hd. by exists data.
  - apply in_dir_cases; [done|]. intros d dir He. by destruct (dir !! name).
  - unfold mem_pread. destruct (object (mem_fs m) fd) as [i|] eqn:Eo; [|done]. destruct (fs_data (mem_fs m) !! i) as [data|] eqn:Ed; [|done].
    split; [done|]. exists i, data. split; [done|]. split; [done|]. split; [unfold len; rewrite length_take; lia|].
    rewrite length_take. destruct (decide (N.to_nat count <= length (drop (N.to_nat offset) data))).
    + by rewrite Nat.min_l.
    + rewrite Nat.min_r by lia. rewrite !take_ge by lia. done.
  - unfold mem_write. destruct fd as [|h]; [done|]. destruct (fs_open (mem_fs m) !! h) as [i|] eqn:Eo; [|done].
    destruct (fs_pos (mem_fs m) !! h) as [pos|] eqn:Ep; [|done]. destruct (fs_data (mem_fs m) !! i) as [data|] eqn:Ed; [|done].
    split; [done|]. exists h, i, data, pos. do 4 (split; [done|]). cbn. unfold len. by rewrite Nat2N.id, firstn_all.
  - unfold mem_pwrite. destruct (object (mem_fs m) fd) as [i|] eqn:Eo; [|done]. destruct (fs_data (mem_fs m) !! i) as [data|] eqn:Ed; [|done].
    split; [done|]. exists i, data. do 2 (split; [done|]). cbn. unfold len. by rewrite Nat2N.id, firstn_all.
  - unfold mem_rename. destruct flags; apply in_dir_cases; try done; intros d1 dir1 He1; apply in_dir_cases; try done; intros d2 dir2 He2;
      destruct (dir1 !! source) as [i|] eqn:E1; try done; destruct (dir2 !! destination) as [j|] eqn:E2; try done.
    + by exists d1, dir1, d2, dir2, i.
    + by exists d1, dir1, d2, dir2, i, j.
  - unfold mem_unlink. apply in_dir_cases; [done|]. intros d dir He. destruct (dir !! name) as [i|] eqn:En; [|done]. by exists d, dir, i.
  - unfold mem_mkdir. apply in_dir_cases; [done|]. intros d dir He.
    destruct (bool_decide_reflect (is_Some (dir !! name))) as [|Hn]; [done|]. destruct (unused_b _ _) eqn:Eu; [|done].
    exists d, dir, (mem_next m). split; [done|]. split; [by apply eq_None_not_Some|]. split; [by apply unused_b_spec|done].
  - pose proof (mem_open_promises m (object (mem_fs m) fd)) as H. cbn zeta in H.
    destruct (mem_open _ _) as [[fd'|error] m']; exact H.
Qed.
