(* ===== verification/MutationSpec.v ===== *)
(** * MutationSpec: the mutations are all or nothing

    Over a kernel that keeps the promises of [Tree]: whatever call fails and
    whenever the request is cancelled, the visible names and the contents
    after a mutation are those before it or those it was asked for, and the
    latter when it reports success. *)

From stdpp Require Import gmap.
From Stdlib Require Import ZifyBool.
From S2P Require Import Prelude BTree Text Capability Grants Wire Protocol Lifecycle Executor Payload SchemaFiles Web Address Files Posix Mutation Tree Memory.
Import FilesWrite.

(** ** Rules *)

Lemma interpret_ask {W A} (step : forall s, W -> (Answer s -> W -> Prop) -> Prop) `{!Monotone step} s
  (f : Answer s -> Prog A) w P S :
  step s w (fun a w' => interpret step (f a) w' P S) -> interpret step (pbind (ask s) f) w P S.
Proof. done. Qed.

Lemma interpret_try {W A B} (step : forall s, W -> (Answer s -> W -> Prop) -> Prop) `{!Monotone step}
  (p : Io A) (f : A -> Io B) w M T P S :
  interpret step p w M T -> (forall w', T w' -> S w') ->
  (forall a w', M (Ok a) w' -> interpret step (f a) w' P S) ->
  (forall e w', M (Err e) w' -> P (Err e) w') -> interpret step (try p f) w P S.
Proof.
  intros Hp HT Hf He. apply interpret_pbind; [exact _|]. revert Hp. apply interpret_mono; [exact _| |done].
  intros [a|e] w' HM; [by apply Hf|by apply He].
Qed.

(** Nothing but handles changes. *)
Record grows (fs fs' : Fs) : Prop := {
  gr_root : fs_root fs' = fs_root fs;
  gr_dirs : fs_dirs fs' = fs_dirs fs;
  gr_data : fs_data fs' = fs_data fs;
  gr_open : forall h i, fs_open fs !! h = Some i -> fs_open fs' !! h = Some i;
  gr_pos : forall h p, fs_open fs !! h <> None -> fs_pos fs !! h = Some p -> fs_pos fs' !! h = Some p;
}.
#[export] Instance grows_refl : Reflexive grows.
Proof. by split. Qed.
#[export] Instance grows_trans : Transitive grows.
Proof.
  intros a b c [R1 D1 A1 O1 P1] [R2 D2 A2 O2 P2]. split; try congruence; [by eauto|].
  intros h p Hh Hp. apply P2; [|by apply P1]. destruct (fs_open a !! h) eqn:E; [|done]. by rewrite (O1 _ _ E).
Qed.

Lemma opens_grows fs fd i fs' : opens fs fd i fs' -> grows fs fs' /\ object fs' fd = Some i.
Proof.
  intros (h & -> & Hh & ->). split; [split; [done..| |]|by apply lookup_insert_eq].
  - intros h' j Hj. cbn. rewrite lookup_insert_ne; [done|congruence].
  - intros h' p Ho Hp. cbn. rewrite lookup_insert_ne; [done|]. intros ->. congruence.
Qed.
Lemma grows_object fs fs' fd i : grows fs fs' -> object fs fd = Some i -> object fs' fd = Some i.
Proof. intros [R _ _ O _]. destruct fd; cbn; [congruence|by apply O]. Qed.
Lemma grows_resolve fs fs' start path : grows fs fs' -> resolve_path fs' start path = resolve_path fs start path.
Proof. intros [R D _ _ _]. unfold resolve_path. by rewrite R, D. Qed.
Lemma grows_entry fs fs' parent d dir : grows fs fs' -> entry_of fs parent d dir -> entry_of fs' parent d dir.
Proof. intros Hg [Ho Hd]. split; [by eapply grows_object|]. by rewrite (gr_dirs _ _ Hg). Qed.

(** The calls that only look. *)
Definition looks (s : Syscall) : bool :=
  match s with
  | CreateExclusive _ _ | WriteCall _ _ | Pwrite _ _ _ | Renameat2 _ _ _ _ _ | Unlinkat _ _ | Mkdirat _ _ => false
  | _ => true
  end.
Lemma looks_grows fs s a fs' : looks s = true -> documented fs s a fs' -> grows fs fs'.
Proof.
  destruct s; try discriminate; intros _; cbn [documented]; unfold changes_nothing, or_nothing;
    repeat match goal with a : Answer _ |- _ => destruct a end;
    try (intros ->; reflexivity); try (intros [-> _]; reflexivity).
  - intros (? & ? & _ & _ & H). by apply opens_grows in H as [].
  - intros (? & _ & H). by apply opens_grows in H as [].
  - intros (? & _ & H). by apply opens_grows in H as [].
Qed.

Fixpoint only_looks {A} (p : Prog A) : Prop :=
  match p with
  | Ret _ | Starved => True
  | Panic => False
  | Call s k => looks s = true /\ forall a, only_looks (k a)
  end.
Lemma only_looks_pbind {A B} (p : Prog A) (f : A -> Prog B) :
  only_looks p -> (forall a, only_looks (f a)) -> only_looks (pbind p f).
Proof. intros Hp Hf. induction p as [a| | |s k IH]; cbn in *; [done..|]. destruct Hp as [Hs Hk]. split; [done|]. intros a. by apply IH. Qed.
Lemma only_looks_try {A B} (p : Io A) (f : A -> Io B) :
  only_looks p -> (forall a, only_looks (f a)) -> only_looks (try p f).
Proof. intros Hp Hf. apply only_looks_pbind; [done|]. by intros [a|e]. Qed.
Lemma only_looks_interpret {A} (p : Prog A) fs :
  only_looks p -> interpret promised p fs (fun _ fs' => grows fs fs') (fun fs' => grows fs fs').
Proof.
  intros Hp. assert (forall fs1, grows fs fs1 -> interpret promised p fs1 (fun _ fs' => grows fs fs') (fun fs' => grows fs fs')) as H;
    [|by apply H].
  induction p as [a| | |s k IH]; intros fs1 Hg; cbn in *; [done..|]. destruct Hp as [Hs Hk].
  intros a fs2 Hd. apply IH; [done|]. etransitivity; [done|]. by eapply looks_grows.
Qed.

Lemma looks_then {A B} (p : Prog A) (f : A -> Prog B) fs P S :
  only_looks p -> (forall fs', grows fs fs' -> S fs') ->
  (forall a fs', grows fs fs' -> interpret promised (f a) fs' P S) -> interpret promised (pbind p f) fs P S.
Proof.
  intros Hp HS Hf. apply interpret_pbind; [exact _|].
  eapply interpret_mono; [exact _| | |by apply only_looks_interpret]; [exact Hf|exact HS].
Qed.
Lemma looks_try {A B} (p : Io A) (f : A -> Io B) fs P S :
  only_looks p -> (forall fs', grows fs fs' -> S fs') -> (forall e fs', grows fs fs' -> P (Err e) fs') ->
  (forall a fs', grows fs fs' -> interpret promised (f a) fs' P S) -> interpret promised (try p f) fs P S.
Proof. intros Hp HS HE Hf. apply looks_then; [done..|]. intros [a|e] fs' Hg; [by apply Hf|by apply HE]. Qed.

Create HintDb looks.
#[export] Hint Resolve only_looks_pbind only_looks_try : looks.
Ltac looking := repeat first
  [ apply only_looks_try; [|intros ?] | apply only_looks_pbind; [|intros ?]
  | progress (unfold lift, pure, fail, ask; cbn [only_looks looks]) | split; [reflexivity|intros ?] | exact I | assumption
  | match goal with
    | |- only_looks (match ?r with _ => _ end) => destruct r
    | |- only_looks (let '_ := ?r in _) => destruct r
    end ].

Lemma check_cancelled_looks : only_looks check_cancelled.
Proof. unfold check_cancelled. looking. Qed.
Lemma descriptor_metadata_looks e fd : only_looks (descriptor_metadata e fd).
Proof. unfold descriptor_metadata. looking. Qed.
Lemma bound_path_looks b : only_looks (bound_path b).
Proof.
  destruct b as [path|directory relative]; cbn [bound_path]; [exact I|].
  unfold standard_directory_root, validate_xdg_runtime_directory, descriptor_metadata, or_home, home. looking.
Qed.
Lemma fill_random_looks rounds random : only_looks (fill_random rounds random).
Proof.
  revert random; induction rounds as [|n IH]; intros random; cbn [fill_random]; [by destruct (_ <=? _)%N|].
  destruct (_ <=? _)%N; [done|]. apply only_looks_pbind; [by split|]. intros [[|]|[]]; cbn; auto.
Qed.
Lemma metadata_at_looks parent name : only_looks (metadata_at parent name).
Proof. unfold metadata_at. looking. Qed.
Lemma fdatasync_looks fd : only_looks (fdatasync fd).
Proof. unfold fdatasync. looking. Qed.
Lemma sync_directory_looks fd : only_looks (sync_directory fd).
Proof. unfold sync_directory. looking. Qed.

(** ** Opening *)

(** The directory and the name a path of a mount stands for. *)
Definition mounted {Identity} (request : BackendRequest Identity) (fs : Fs) (mount : string) (root : N) : Prop :=
  exists binding mount_path, bt_get mount (filesystem_mounts (bk_bindings request)) = Some binding /\
    (forall p, binding = MountPath p -> mount_path = p) /\
    resolve_path fs (fs_root fs) mount_path = Some root.
Definition below (fs : Fs) (root : N) (path : string) (d : N) (name : string) : Prop :=
  exists parent, path_parent path = Some parent /\ resolve_path fs root parent = Some d /\ file_name path = Some name.

Lemma promised_lift {A} (r : result BrokerErrorCode A) fs P S :
  P r fs -> interpret promised (lift r) fs P S.
Proof. done. Qed.

Lemma open_at_beneath_promised e root path flags fs start :
  object fs root = Some start ->
  interpret promised (open_at_beneath e root path flags) fs
    (fun r fs' => grows fs fs' /\ forall fd, r = Ok fd -> exists i, resolve_path fs start path = Some i /\ object fs' fd = Some i)
    (grows fs).
Proof.
  intros Hroot. apply interpret_ask; [exact _|]. intros answer fs' Hd. cbn [interpret lift].
  split; [by apply (looks_grows _ (Openat2 _ _ _) _ _ eq_refl) in Hd|]. intros fd Hfd. destruct answer as [fd'|error]; [|done].
  injection Hfd as ->. destruct Hd as (start' & i & Hs & Hr & Ho). exists i. rewrite Hroot in Hs. injection Hs as <-.
  split; [done|]. by destruct (opens_grows _ _ _ _ Ho).
Qed.

Lemma open_bound_mount_promised binding fs :
  interpret promised (open_bound_mount binding) fs
    (fun r fs' => grows fs fs' /\ forall root, r = Ok root -> exists mount_path i,
      (forall p, binding = MountPath p -> mount_path = p) /\
      resolve_path fs (fs_root fs) mount_path = Some i /\ object fs' root = Some i)
    (grows fs).
Proof.
  unfold open_bound_mount.
  eapply (interpret_try _ _ _ _ (fun r fs1 => grows fs fs1 /\ forall mp p, r = Ok mp -> binding = MountPath p -> mp = p) (grows fs));
    [|done| |by intros e w [Hg _]].
  { destruct binding as [path|directory relative].
    - cbn. split; [done|]. intros mp p [= <-] [= <-]. done.
    - eapply interpret_mono; [exact _| | |apply only_looks_interpret, bound_path_looks]; [|done].
      intros r fs1 Hg. split; [done|discriminate 2]. }
  intros mp fs1 [Hg1 Hmp]. destruct (normalized_absolute_path mp); cbn [negb]; [|done].
  unfold c_string. destruct (contains_byte mp _); [done|]. cbn [try lift pbind].
  apply interpret_ask; [exact _|]. intros answer fs2 Hd. pose proof (looks_grows _ (Openat2 _ _ _) _ _ eq_refl Hd) as Hg2.
  destruct answer as [fd|error]; cbn [map_err lift try pbind fail interpret]; [|by split; [etransitivity|]].
  destruct Hd as (start & i & Hs & Hr & Ho). cbn in Hs. injection Hs as <-. apply opens_grows in Ho as [_ Ho].
  rewrite (grows_resolve _ _ _ _ Hg1), (gr_root _ _ Hg1) in Hr.
  eapply interpret_try; [exact _|apply only_looks_interpret, descriptor_metadata_looks| | |].
  - intros fs3 Hg3. do 2 (etransitivity; [done|]). done.
  - intros metadata fs3 Hg3. assert (grows fs fs3) as Hg by (do 2 (etransitivity; [done|]); done).
    destruct (bool_decide _); cbn [negb interpret fail pure]; (split; [done|]); [|done].
    intros root [= <-]. exists mp, i. split; [naive_solver|]. split; [done|]. exact (grows_object _ _ _ _ Hg3 Ho).
  - intros e fs3 Hg3. split; [|done]. do 2 (etransitivity; [done|]). done.
Qed.

Lemma open_mount_promised {Identity} (request : BackendRequest Identity) mount fs :
  interpret promised (open_mount request mount) fs
    (fun r fs' => grows fs fs' /\ forall root, r = Ok root -> exists i, mounted request fs mount i /\ object fs' root = Some i)
    (grows fs).
Proof.
  unfold open_mount. destruct (bt_get mount _) as [binding|] eqn:E; cbn; [|done].
  eapply interpret_mono; [exact _| | |apply open_bound_mount_promised]; [|done].
  intros r fs' [Hg Hr]. split; [done|]. intros root Hroot. destruct (Hr root Hroot) as (mp & i & Hmp & Hi & Ho).
  exists i. split; [|done]. by exists binding, mp.
Qed.

Lemma open_parent_promised root path fs start :
  object fs root = Some start ->
  interpret promised (open_parent root path) fs
    (fun r fs' => grows fs fs' /\ forall fd name, r = Ok (fd, name) ->
      exists d, below fs start path d name /\ object fs' fd = Some d)
    (grows fs).
Proof.
  intros Hroot. unfold open_parent. destruct (file_name path) as [name|] eqn:En; cbn; [|done].
  unfold c_string. destruct (contains_byte name _); [done|]. cbn.
  destruct (path_parent path) as [parent|] eqn:Ep; cbn; [|done].
  eapply (interpret_try _ _ _ _ (fun r fs1 => grows fs fs1 /\ forall fd, r = Ok fd ->
    exists d, resolve_path fs start parent = Some d /\ object fs1 fd = Some d) (grows fs));
    [|done| |].
  - destruct (String.eqb_spec parent "") as [->|].
    + intros answer fs' Hd. cbn [pbind lift interpret]. split; [by eapply (looks_grows _ (Duplicate _))|].
      intros fd Hfd. destruct answer as [fd'|error]; [|done]. injection Hfd as ->.
      destruct Hd as (i & Hi & Ho). apply opens_grows in Ho as [_ Ho]. exists i. split; [|done].
      rewrite Hroot in Hi. by injection Hi as ->.
    + unfold open_beneath, c_string. destruct (contains_byte parent _); [done|]. cbn [try lift pbind].
      exact (open_at_beneath_promised os_error root parent [O_PATH; O_DIRECTORY] fs start Hroot).
  - intros fd fs' [Hg Hf]. split; [done|]. intros fd' name' [= <- <-]. destruct (Hf fd eq_refl) as (d & Hd & Ho).
    exists d. split; [|done]. by exists parent.
  - intros e fs' [Hg _]. by split.
Qed.

Definition located {Identity} (request : BackendRequest Identity) (fs : Fs) (mount path : string) (d : N) (name : string) : Prop :=
  exists root, mounted request fs mount root /\ below fs root path d name.

Lemma promised_place {Identity A} (request : BackendRequest Identity) mount path (f : Fd * string -> Io A) fs P S :
  (forall fs', grows fs fs' -> S fs') ->
  (forall e fs', grows fs fs' -> P (Err e) fs') ->
  (forall parent name d fs', grows fs fs' -> located request fs mount path d name -> object fs' parent = Some d ->
    interpret promised (f (parent, name)) fs' P S) ->
  interpret promised (root ↢ open_mount request mount; opened ↢ open_parent root path; f opened) fs P S.
Proof.
  intros HS HE Hf. eapply interpret_try; [exact _|apply open_mount_promised|by auto| |by intros e fs' [Hg _]; auto].
  intros root fs1 [Hg1 Hr]. destruct (Hr root eq_refl) as (start & Hm & Ho).
  eapply interpret_try; [exact _|by apply open_parent_promised| | |].
  - intros fs' Hg. apply HS. by etransitivity.
  - intros [parent name] fs2 [Hg2 Hp]. destruct (Hp parent name eq_refl) as (d & Hb & Hd).
    apply (Hf parent name d); [by etransitivity| |done]. exists start. split; [done|].
    destruct Hb as (p & Hpp & Hpr & Hn). exists p. split; [done|]. split; [|done].
    by rewrite (grows_resolve fs fs1) in Hpr.
  - intros e fs2 [Hg2 _]. apply HE. by etransitivity.
Qed.

(** A file name is one component. *)
Lemma split_piece sep s w : w ∈ split sep s -> contains_byte w sep = false.
Proof.
  revert w; induction s as [|c s IH]; intros w Hw; cbn [split] in Hw.
  { apply list_elem_of_singleton in Hw as ->. done. }
  destruct (Ascii.eqb c sep) eqn:E.
  { apply elem_of_cons in Hw as [->|Hw]; [done|by apply IH]. }
  destruct (split sep s) as [|v ws] eqn:Es.
  { apply list_elem_of_singleton in Hw as ->. unfold contains_byte, any_byte. cbn. by rewrite E. }
  apply elem_of_cons in Hw as [->|Hw].
  - unfold contains_byte, any_byte in *. cbn. rewrite E. cbn. apply IH. left.
  - apply IH. by right.
Qed.
Lemma split_whole sep w : contains_byte w sep = false -> split sep w = [w].
Proof.
  induction w as [|c w IH]; [done|]. unfold contains_byte, any_byte in *. cbn [all_bytes]. intros H. cbn [split].
  destruct (Ascii.eqb c sep); [done|]. cbn in H. by rewrite IH.
Qed.
Lemma leading_dot (parts : list string) (P : list Component -> Prop) :
  P [CurDir] -> P [] -> P (match parts with "." :: _ => [CurDir] | _ => [] end).
Proof. intros H1 H2. repeat match goal with |- context [match ?x with _ => _ end] => destruct x; try assumption end. Qed.
Lemma leading_name name : name <> "." -> (match name with "." => [CurDir] | _ => [] end) = [].
Proof.
  intros H. lazy beta iota.
  repeat match goal with |- context [match ?x with _ => _ end] => is_var x; destruct x; try reflexivity end.
  done.
Qed.
Lemma components_name path name : Normal name ∈ components path -> components name = [Normal name].
Proof.
  intros H. unfold components in H. apply elem_of_app in H as [H|H].
  { destruct (starts_with path "/"); [by apply list_elem_of_singleton in H|].
    revert H. apply leading_dot; [by intros ?%list_elem_of_singleton|by intros ?%elem_of_nil]. }
  apply list_elem_of_In, in_flat_map in H as (w & Hw%list_elem_of_In & H). apply split_piece in Hw.
  destruct (String.eqb_spec w "") as [|Hne]; [done|]. destruct (String.eqb_spec w ".") as [|Hnd]; [done|].
  destruct (String.eqb_spec w "..") as [|Hnp]; [by destruct H as [|[]]|]. destruct H as [[= ->]|[]].
  unfold components. rewrite split_whole by done. cbn [flat_map].
  destruct (String.eqb_spec name "") as [|_]; [done|]. destruct (String.eqb_spec name ".") as [|_]; [done|].
  destruct (String.eqb_spec name "..") as [|_]; [done|].
  assert (starts_with name "/" = false) as ->.
  { destruct (starts_with name "/") eqn:E; [|done]. apply starts_with_spec in E as [t ->]. by cbn in Hw. }
  by rewrite leading_name.
Qed.
Lemma file_name_component path name : file_name path = Some name -> Normal name ∈ components path.
Proof.
  unfold file_name. destruct (List.rev (components path)) as [|[| | |w] rest] eqn:E; try done. intros [= ->].
  apply list_elem_of_In. apply in_rev. rewrite E. by left.
Qed.
Lemma resolve_name fs d dir path name : file_name path = Some name -> fs_dirs fs !! d = Some dir ->
  resolve_path fs d name = dir !! name.
Proof.
  intros Hn Hd. apply file_name_component, components_name in Hn. unfold resolve_path. rewrite Hn. cbn.
  rewrite Hd. cbn. by destruct (dir !! name).
Qed.

Lemma validated_name {Identity} (request : BackendRequest Identity) scope mount path name :
  validate_mount_and_path request scope mount path = Ok () -> file_name path = Some name -> reserved name = false.
Proof.
  unfold validate_mount_and_path. intros H Hn. inv_ok.
  apply orb_false_iff in H as [_ H]. apply file_name_component in Hn.
  destruct (reserved name) eqn:E; [|done].
  assert (existsb forbidden_component (components path) = true) as Hx; [|congruence].
  apply existsb_exists. exists (Normal name). split; [by apply list_elem_of_In|]. done.
Qed.

(** ** A temporary file *)

(** What was there is still there: the visible names, and the contents of
    every file. *)
Record kept (fs fs' : Fs) : Prop := {
  kp_names : visible (fs_dirs fs') = visible (fs_dirs fs);
  kp_data : forall j data, fs_data fs !! j = Some data -> fs_data fs' !! j = Some data;
}.
Lemma grows_kept fs fs' : grows fs fs' -> kept fs fs'.
Proof. intros [R D A O P]. split; congruence. Qed.
Lemma kept_trans a b c : kept a b -> kept b c -> kept a c.
Proof. intros [N1 D1] [N2 D2]. split; [congruence|by eauto]. Qed.

Lemma write_at_end data bytes : write_at (len data) bytes data = data ++ bytes.
Proof.
  unfold write_at, len. rewrite Nat2N.id, Nat.sub_diag. cbn [replicate]. rewrite app_nil_r, take_ge by lia.
  rewrite drop_ge by lia. by rewrite app_nil_r.
Qed.
Lemma take_take_drop {A} (l : list A) n m : take n l ++ take m (drop n l) = take (n + m) l.
Proof. revert l; induction n as [|n IH]; intros [|a l]; cbn; [done..| |by rewrite IH]. by rewrite take_nil. Qed.

Section Staging.
Context (fs0 : Fs) (parent : Fd) (d : N) (dir : gmap string N) (tmp : string).
Hypothesis Hentry : entry_of fs0 parent d dir.
Hypothesis Hreserved : reserved tmp = true.

(** Next to what was there, the temporary file [i], open as [h]. *)
Record staged (h i : N) (content : list N) (fs : Fs) : Prop := {
  sg_root : fs_root fs = fs_root fs0;
  sg_dirs : fs_dirs fs = <[d := <[tmp := i]> dir]> (fs_dirs fs0);
  sg_data : fs_data fs = <[i := content]> (fs_data fs0);
  sg_unused : unused fs0 i;
  sg_open : forall h' j, fs_open fs0 !! h' = Some j -> fs_open fs !! h' = Some j;
  sg_handle : fs_open fs !! h = Some i;
}.

Lemma grows_staged h i content fs fs' : grows fs fs' -> staged h i content fs -> staged h i content fs'.
Proof.
  intros [R D A O P] [R1 D1 A1 U1 O1 H1]. split; [congruence..|done| |by apply O]. intros h' j Hj. by apply O, O1.
Qed.
Lemma staged_object h i content fs fd j : staged h i content fs -> object fs0 fd = Some j -> object fs fd = Some j.
Proof. intros [R _ _ _ O _]. destruct fd; cbn; [congruence|by apply O]. Qed.
Lemma staged_entry h i content fs : staged h i content fs -> entry_of fs parent d (<[tmp := i]> dir).
Proof.
  intros Hs. destruct Hentry as [Ho Hd]. split; [by eapply staged_object|]. rewrite (sg_dirs _ _ _ _ Hs). apply lookup_insert_eq.
Qed.
Lemma staged_lookup h i content fs : staged h i content fs -> fs_data fs !! i = Some content.
Proof. intros Hs. rewrite (sg_data _ _ _ _ Hs). apply lookup_insert_eq. Qed.

Lemma staged_data h i content fs j data :
  staged h i content fs -> fs_data fs0 !! j = Some data -> fs_data fs !! j = Some data.
Proof.
  intros Hs Hj. rewrite (sg_data _ _ _ _ Hs), lookup_insert_ne; [done|].
  intros ->. by rewrite (un_data _ _ (sg_unused _ _ _ _ Hs)) in Hj.
Qed.

Lemma visible_tmp i : visible (<[d := <[tmp := i]> dir]> (fs_dirs fs0)) = visible (fs_dirs fs0).
Proof.
  destruct Hentry as [_ Hd]. unfold visible. rewrite fmap_insert, visible_dir_insert, Hreserved.
  rewrite visible_dir_delete, visible_dir_reserved by done. apply insert_id. by rewrite lookup_fmap, Hd.
Qed.
Lemma staged_kept h i content fs : staged h i content fs -> kept fs0 fs.
Proof. intros Hs. split; [by rewrite (sg_dirs _ _ _ _ Hs), visible_tmp|]. intros j data. by eapply staged_data. Qed.

Lemma create_exclusive_promised :
  interpret promised (create_exclusive parent tmp) fs0
    (fun r fs => match r with
                 | Ok fd => exists h i, fd = Handle h /\ staged h i [] fs /\ fs_pos fs !! h = Some 0%N
                 | Err _ => fs = fs0
                 end) (fun _ => False).
Proof.
  apply interpret_ask; [exact _|]. intros answer fs Hd. cbn [lift interpret].
  destruct answer as [fd|error]; [|exact Hd].
  destruct Hd as (d' & dir' & i & [Ho Hd] & Hfree & Hu & h & -> & Hh & ->). destruct Hentry as [Ho' Hd'].
  rewrite Ho' in Ho. injection Ho as <-. rewrite Hd' in Hd. injection Hd as <-.
  exists h, i. split; [done|]. cbn in Hh. split; [|apply lookup_insert_eq].
  split; cbn; [done..| |apply lookup_insert_eq]. intros h' j Hj. rewrite lookup_insert_ne; [done|congruence].
Qed.

Lemma staged_write h i content content' pos fs :
  staged h i content fs -> staged h i content' (with_data fs (<[i := content']> (fs_data fs)) pos).
Proof. intros [R D A U O H]. split; cbn; try done. by rewrite A, insert_insert_eq. Qed.

(** Writing at the end of what was written. *)
Lemma write_all_promised rounds h i content bytes fs :
  staged h i content fs -> fs_pos fs !! h = Some (len content) ->
  interpret promised (write_all rounds (Handle h) bytes) fs
    (fun r fs' => exists n, staged h i (content ++ take n bytes) fs' /\ (r = Ok () -> take n bytes = bytes))
    (fun fs' => exists n, staged h i (content ++ take n bytes) fs').
Proof.
  revert content bytes fs; induction rounds as [|rounds IH]; intros content bytes fs Hs Hp; cbn [write_all].
  { destruct (len bytes =? 0)%N eqn:E; cbn [interpret]; exists 0; rewrite app_nil_r; [|done]. split; [done|].
    intros _. destruct bytes; [done|]. rewrite len_cons in E. lia. }
  destruct (len bytes =? 0)%N eqn:E.
  { exists 0. rewrite app_nil_r. split; [done|]. intros _. destruct bytes; [done|]. rewrite len_cons in E. lia. }
  eapply interpret_try; [exact _|apply only_looks_interpret, check_cancelled_looks| | |].
  - intros fs1 Hg. exists 0. rewrite app_nil_r. by eapply grows_staged.
  - intros [] fs1 Hg. assert (fs_pos fs1 !! h = Some (len content)) as Hp1.
    { apply Hg; [by rewrite (sg_handle _ _ _ _ Hs)|done]. }
    apply (grows_staged _ _ _ _ _ Hg) in Hs. clear Hg Hp fs. apply interpret_ask; [exact _|]. intros answer fs2 Hd.
    destruct answer as [count|error].
    + destruct Hd as (Hc & h' & i' & data & pos & [= <-] & Hh & Hi & Hpos & ->).
      rewrite (sg_handle _ _ _ _ Hs) in Hh. injection Hh as <-. rewrite (staged_lookup _ _ _ _ Hs) in Hi. injection Hi as <-.
      rewrite Hp1 in Hpos. injection Hpos as <-. rewrite write_at_end.
      destruct (count =? 0)%N eqn:E0.
      { assert (count = 0%N) as -> by lia. cbn [N.to_nat take]. rewrite app_nil_r. exists 0. rewrite app_nil_r. split; [|done].
        by apply (staged_write _ _ content). }
      destruct (len bytes <? count)%N eqn:E1; [lia|].
      eapply interpret_mono; [exact _| | |apply (IH (content ++ take (N.to_nat count) bytes))].
      * intros r fs3 (n & Hs3 & Hr). exists (N.to_nat count + n). rewrite <- app_assoc, take_take_drop in Hs3. split; [done|].
        intros Hok. rewrite <- take_take_drop, (Hr Hok). apply take_drop.
      * intros fs3 (n & Hs3). exists (N.to_nat count + n). by rewrite <- app_assoc, take_take_drop in Hs3.
      * by apply (staged_write _ _ content).
      * cbn. rewrite lookup_insert_eq. f_equal. rewrite len_app. unfold len. rewrite length_take. unfold len in E1. lia.
    + cbn in Hd. subst fs2. destruct error;
        try (cbn [interpret fail]; exists 0; rewrite app_nil_r; split; [done|discriminate]).
      by apply IH.
  - intros e fs1 Hg. exists 0. rewrite app_nil_r. split; [exact (grows_staged _ _ _ _ _ Hg Hs)|done].
Qed.

Lemma pwrite_all_at_promised rounds h i content bytes offset fs :
  staged h i content fs -> offset = len content ->
  interpret promised (pwrite_all_at rounds (Handle h) bytes offset) fs
    (fun r fs' => exists n, staged h i (content ++ take n bytes) fs' /\ (r = Ok () -> take n bytes = bytes))
    (fun fs' => exists n, staged h i (content ++ take n bytes) fs').
Proof.
  revert content bytes offset fs; induction rounds as [|rounds IH]; intros content bytes offset fs Hs ->; cbn [pwrite_all_at].
  { destruct (len bytes =? 0)%N eqn:E; cbn [interpret]; exists 0; rewrite app_nil_r; [|done]. split; [done|].
    intros _. destruct bytes; [done|]. rewrite len_cons in E. lia. }
  destruct (len bytes =? 0)%N eqn:E.
  { exists 0. rewrite app_nil_r. split; [done|]. intros _. destruct bytes; [done|]. rewrite len_cons in E. lia. }
  assert (forall fs1 (r : result BrokerErrorCode ()), staged h i content fs1 -> r <> Ok () ->
    exists n, staged h i (content ++ take n bytes) fs1 /\ (r = Ok () -> take n bytes = bytes)) as Hnone.
  { intros fs1 r Hs1 Hr. exists 0. by rewrite app_nil_r. }
  eapply interpret_try; [exact _|apply only_looks_interpret, check_cancelled_looks| | |].
  - intros fs1 Hg. exists 0. rewrite app_nil_r. exact (grows_staged _ _ _ _ _ Hg Hs).
  - intros [] fs1 Hg. apply (grows_staged _ _ _ _ _ Hg) in Hs. clear Hg fs.
    destruct (i64_max <? len content)%N; [by apply Hnone|]. apply interpret_ask; [exact _|]. intros answer fs2 Hd.
    destruct answer as [count|error].
    + destruct Hd as (Hc & i' & data & Hh & Hi & ->). cbn in Hh.
      rewrite (sg_handle _ _ _ _ Hs) in Hh. injection Hh as <-. rewrite (staged_lookup _ _ _ _ Hs) in Hi. injection Hi as <-.
      rewrite write_at_end. apply (staged_write _ _ _ (content ++ take (N.to_nat count) bytes) (fs_pos fs1)) in Hs.
      assert (forall (r : result BrokerErrorCode ()) fs3 n, staged h i ((content ++ take (N.to_nat count) bytes) ++ take n (drop (N.to_nat count) bytes)) fs3 ->
        staged h i (content ++ take (N.to_nat count + n) bytes) fs3) as Hmore.
      { intros _ fs3 n. by rewrite <- app_assoc, take_take_drop. }
      destruct (count =? 0)%N.
      { exists (N.to_nat count). by split. }
      destruct (len bytes <? count)%N eqn:E1; [lia|]. 
      destruct (checked_add64 _ _) as [sum|] eqn:Ea; [apply checked_add64_Some in Ea as [_ ->]|]; cbn [ok_or lift try pbind interpret fail]; [|exists (N.to_nat count); by split].
      eapply interpret_mono; [exact _| | |apply (IH _ _ _ _ Hs)].
      * intros r fs3 (n & Hs3 & Hr). exists (N.to_nat count + n). split; [by apply (Hmore r)|].
        intros Hok. rewrite <- take_take_drop, (Hr Hok). apply take_drop.
      * intros fs3 (n & Hs3). exists (N.to_nat count + n). by apply (Hmore (Ok ())).
      * rewrite len_app. unfold len. rewrite length_take. unfold len in E1. lia.
    + cbn in Hd. subst fs2. destruct error; try (by apply Hnone). by apply IH.
  - intros e fs1 Hg. apply Hnone; [exact (grows_staged _ _ _ _ _ Hg Hs)|done].
Qed.

Lemma write_and_sync_promised rounds h i bytes fs :
  staged h i [] fs -> fs_pos fs !! h = Some 0%N ->
  interpret promised (write_and_sync rounds (Handle h) bytes) fs
    (fun r fs' => exists content, staged h i content fs' /\ (r = Ok () -> content = bytes))
    (fun fs' => exists content, staged h i content fs').
Proof.
  intros Hs Hp. eapply interpret_try; [exact _|exact (write_all_promised rounds h i [] bytes fs Hs Hp)| | |].
  - intros fs' (n & Hs'). by eexists.
  - intros [] fs1 (n & Hs1 & Hr). rewrite (Hr eq_refl) in Hs1.
    eapply interpret_mono; [exact _| | |apply only_looks_interpret, fdatasync_looks].
    + intros r fs' Hg. exists bytes. split; [exact (grows_staged _ _ _ _ _ Hg Hs1)|done].
    + intros fs' Hg. exists bytes. exact (grows_staged _ _ _ _ _ Hg Hs1).
  - intros e fs1 (n & Hs1 & _). by eexists.
Qed.

(** Copying a file that was there. *)
Lemma copy_from_promised rounds budget source j old h i content length offset fs :
  object fs0 source = Some j -> fs_data fs0 !! j = Some old ->
  staged h i content fs -> offset = len content -> content = take (N.to_nat offset) old ->
  interpret promised (copy_from rounds budget source (Handle h) length offset) fs
    (fun r fs' => exists content', staged h i content' fs' /\
      (r = Ok () -> (length <= len content')%N /\ content' = take (N.to_nat (len content')) old))
    (fun fs' => exists content', staged h i content' fs').
Proof.
  intros Ho Hj. revert content offset fs; induction budget as [|budget IH]; intros content offset fs Hs -> Hc; cbn [copy_from].
  { destruct (length <=? len content)%N eqn:E; cbn [interpret]; exists content; [|done]. split; [done|]. intros _. by split; [lia|]. }
  destruct (length <=? len content)%N eqn:E.
  { exists content. split; [done|]. intros _. by split; [lia|]. }
  assert (forall fs1 (r : result BrokerErrorCode ()) content', staged h i content' fs1 -> r <> Ok () ->
    exists c', staged h i c' fs1 /\ (r = Ok () -> (length <= len c')%N /\ c' = take (N.to_nat (len c')) old)) as Hnone.
  { intros fs1 r content' Hs1 Hr. by exists content'. }
  eapply interpret_try; [exact _|apply only_looks_interpret, check_cancelled_looks| | |].
  - intros fs1 Hg. exists content. exact (grows_staged _ _ _ _ _ Hg Hs).
  - intros [] fs1 Hg. apply (grows_staged _ _ _ _ _ Hg) in Hs. clear Hg fs. cbv zeta.
    destruct (i64_max <? len content)%N; [by eapply Hnone|]. apply interpret_ask; [exact _|]. intros answer fs2 Hd.
    destruct answer as [bytes|error].
    + destruct Hd as (-> & j' & data & Hj' & Hd & Hlen & Hb).
      rewrite (staged_object _ _ _ _ _ _ Hs Ho) in Hj'. injection Hj' as <-.
      rewrite (staged_data _ _ _ _ _ _ Hs Hj) in Hd. injection Hd as <-.
      destruct (len bytes =? 0)%N; [by eapply Hnone|].
      destruct (COPY_BUFFER_BYTES <? len bytes)%N eqn:E1; [lia|].
      eapply interpret_try; [exact _|by apply pwrite_all_at_promised| | |].
      * intros fs3 (n & Hs3). by eexists.
      * intros [] fs3 (n & Hs3 & Hr). rewrite (Hr eq_refl) in Hs3. 
        destruct (checked_add64 _ _) as [sum|] eqn:Ea; [apply checked_add64_Some in Ea as [_ ->]|]; cbn [ok_or lift try pbind interpret fail]; [|by eapply Hnone].
        apply (IH _ _ _ Hs3); [by rewrite len_app|]. rewrite Hc at 1. rewrite Hb at 1.
        rewrite take_take_drop. f_equal. unfold len. lia.
      * intros e fs3 (n & Hs3 & _). by eapply Hnone.
    + destruct Hd as [-> _]. destruct error; try exact (Hnone fs1 (Err _) content Hs ltac:(discriminate)). exact (IH content _ fs1 Hs eq_refl Hc).
  - intros e fs1 Hg. exact (Hnone fs1 (Err e) content (grows_staged _ _ _ _ _ Hg Hs) ltac:(discriminate)).
Qed.

Lemma copy_append_promised rounds source j old h i bytes fs :
  object fs0 source = Some j -> fs_data fs0 !! j = Some old -> staged h i [] fs ->
  interpret promised (_ ↢ copy_exact rounds source (Handle h) (len old); pwrite_all_at rounds (Handle h) bytes (len old)) fs
    (fun r fs' => exists content, staged h i content fs' /\ (r = Ok () -> content = old ++ bytes))
    (fun fs' => exists content, staged h i content fs').
Proof.
  intros Ho Hj Hs. eapply interpret_try; [exact _|by eapply (copy_from_promised rounds rounds source j old h i [])|done| |].
  - intros [] fs1 (content & Hs1 & Hr). destruct (Hr eq_refl) as [Hl Hc].
    assert (content = old) as ->.
    { rewrite Hc, take_ge; [done|]. unfold len in *. lia. }
    eapply interpret_mono; [exact _| | |by apply (pwrite_all_at_promised rounds h i old)].
    + intros r fs2 (n & Hs2 & Hb). exists (old ++ take n bytes). split; [done|]. intros Hok. by rewrite (Hb Hok).
    + intros fs2 (n & Hs2). by eexists.
  - intros e fs1 (content & Hs1 & _). by exists content.
Qed.

(** ** The entries of the directory *)

(** The directory holds [entries] instead of [dir]. *)
Record arranged (entries : gmap string N) (data : gmap N (list N)) (fs : Fs) : Prop := {
  ar_root : fs_root fs = fs_root fs0;
  ar_dirs : fs_dirs fs = <[d := entries]> (fs_dirs fs0);
  ar_data : fs_data fs = data;
  ar_open : forall h' j, fs_open fs0 !! h' = Some j -> fs_open fs !! h' = Some j;
}.
Lemma staged_arranged h i content fs :
  staged h i content fs -> arranged (<[tmp := i]> dir) (<[i := content]> (fs_data fs0)) fs.
Proof. by intros [R D A U O H]. Qed.
Lemma grows_arranged entries data fs fs' : grows fs fs' -> arranged entries data fs -> arranged entries data fs'.
Proof. intros [R D A O P] [R1 D1 A1 O1]. split; [congruence..|]. intros h' j Hj. by apply O, O1. Qed.
Lemma arranged_start fs : grows fs0 fs -> arranged dir (fs_data fs0) fs.
Proof.
  intros [R D A O P]. destruct Hentry as [_ Hd]. split; [done| |done|done]. rewrite D. by rewrite insert_id.
Qed.
Lemma arranged_entry entries data fs : arranged entries data fs -> entry_of fs parent d entries.
Proof.
  intros [R D A O]. destruct Hentry as [Ho _]. split; [|rewrite D; apply lookup_insert_eq].
  destruct parent; cbn in *; [congruence|by apply O].
Qed.
Lemma entry_of_unique fs d1 dir1 d2 dir2 : entry_of fs parent d1 dir1 -> entry_of fs parent d2 dir2 -> d1 = d2 /\ dir1 = dir2.
Proof. intros [Ho Hd] [Ho' Hd']. rewrite Ho in Ho'. injection Ho' as ->. rewrite Hd in Hd'. by injection Hd'. Qed.
Lemma alter_here {A} (f : A -> A) x (m : gmap N A) : alter f d (<[d := x]> m) = <[d := f x]> m.
Proof.
  apply map_eq. intros k. destruct (decide (k = d)) as [->|].
  - by rewrite lookup_alter_eq, !lookup_insert_eq.
  - by rewrite lookup_alter_ne, !lookup_insert_ne by done.
Qed.
Lemma arranged_alter entries data fs f dirs :
  arranged entries data fs -> dirs = alter f d (fs_dirs fs) -> arranged (f entries) data (with_dirs fs dirs).
Proof. intros [R D A O] ->. split; cbn; [done| |done|done]. by rewrite D, alter_here. Qed.

Lemma unlink_arranged entries data fs name (answer : result Errno ()) fs' :
  arranged entries data fs -> documented fs (Unlinkat parent name) answer fs' ->
  match answer with Ok _ => arranged (delete name entries) data fs' | Err _ => fs' = fs end.
Proof.
  intros Ha Hd. destruct answer; [|done]. destruct Hd as (d' & dir' & i & He & Hn & ->).
  destruct (entry_of_unique _ _ _ _ _ He (arranged_entry _ _ _ Ha)) as [-> ->].
  by eapply arranged_alter.
Qed.
Lemma rename_arranged entries data fs n1 n2 (answer : result Errno ()) fs' :
  arranged entries data fs -> documented fs (Renameat2 parent n1 parent n2 RENAME_NOREPLACE) answer fs' ->
  match answer with
  | Ok _ => exists i, entries !! n1 = Some i /\ entries !! n2 = None /\ arranged (<[n2 := i]> (delete n1 entries)) data fs'
  | Err _ => fs' = fs
  end.
Proof.
  intros Ha Hd. destruct answer; [|done]. destruct Hd as (d1 & dir1 & d2 & dir2 & i & He1 & He2 & Hn1 & Hn2 & ->).
  destruct (entry_of_unique _ _ _ _ _ He1 (arranged_entry _ _ _ Ha)) as [-> ->].
  destruct (entry_of_unique _ _ _ _ _ He2 (arranged_entry _ _ _ Ha)) as [-> ->].
  exists i. split; [done|]. split; [done|].
  apply (arranged_alter entries data fs (fun e => <[n2 := i]> (delete n1 e))); [done|]. symmetry.
  apply map_eq. intros k. destruct (decide (k = d)) as [->|].
  - rewrite !lookup_alter_eq. by destruct (fs_dirs fs !! d).
  - by rewrite !lookup_alter_ne by done.
Qed.
Lemma exchange_arranged entries data fs n1 n2 (answer : result Errno ()) fs' :
  arranged entries data fs -> documented fs (Renameat2 parent n1 parent n2 RENAME_EXCHANGE) answer fs' ->
  match answer with
  | Ok _ => exists i j, entries !! n1 = Some i /\ entries !! n2 = Some j /\
      arranged (<[n2 := i]> (<[n1 := j]> entries)) data fs'
  | Err _ => fs' = fs
  end.
Proof.
  intros Ha Hd. destruct answer; [|done]. destruct Hd as (d1 & dir1 & d2 & dir2 & i & j & He1 & He2 & Hn1 & Hn2 & ->).
  destruct (entry_of_unique _ _ _ _ _ He1 (arranged_entry _ _ _ Ha)) as [-> ->].
  destruct (entry_of_unique _ _ _ _ _ He2 (arranged_entry _ _ _ Ha)) as [-> ->].
  exists i, j. split; [done|]. split; [done|].
  apply (arranged_alter entries data fs (fun e => <[n2 := i]> (<[n1 := j]> e))); [done|]. symmetry.
  apply map_eq. intros k. destruct (decide (k = d)) as [->|].
  - rewrite !lookup_alter_eq. by destruct (fs_dirs fs !! d).
  - by rewrite !lookup_alter_ne by done.
Qed.
Lemma visible_same x y : visible_dir x = visible_dir y ->
  visible (<[d := x]> (fs_dirs fs0)) = visible (<[d := y]> (fs_dirs fs0)).
Proof. intros H. unfold visible. rewrite !fmap_insert. by rewrite H. Qed.
Lemma arranged_kept entries data fs :
  arranged entries data fs -> visible_dir entries = visible_dir dir ->
  (forall j content, fs_data fs0 !! j = Some content -> data !! j = Some content) -> kept fs0 fs.
Proof.
  intros [R D A O] Hv Hdata. destruct Hentry as [_ Hd]. split; [|by rewrite A].
  rewrite D, (visible_same _ _ Hv). by rewrite insert_id.
Qed.

(** ** Committing *)

Definition either (E : Fs -> Prop) (fs : Fs) : Prop := kept fs0 fs \/ E fs.
Definition settled {A} (E : Fs -> Prop) (r : result BrokerErrorCode A) (fs : Fs) : Prop :=
  match r with Ok _ => E fs | Err _ => either E fs end.

(** The name stands for a new file with this content. *)
Definition installed (old : option N) (name : string) (content : list N) (fs : Fs) : Prop :=
  exists i entries, unused fs0 i /\ dir !! name = old /\
    arranged entries (<[i := content]> (fs_data fs0)) fs /\
    visible_dir entries = <[name := i]> (visible_dir dir).
Lemma grows_installed old name content fs fs' :
  grows fs fs' -> installed old name content fs -> installed old name content fs'.
Proof. intros Hg (i & x & Hu & Hn & Ha & Hv). exists i, x. split; [done|]. split; [done|]. split; [by eapply grows_arranged|done]. Qed.

Lemma unused_data i content j data :
  unused fs0 i -> fs_data fs0 !! j = Some data -> <[i := content]> (fs_data fs0) !! j = Some data.
Proof. intros Hu Hj. rewrite lookup_insert_ne; [done|]. intros ->. by rewrite (un_data _ _ Hu) in Hj. Qed.

Ltac entries := rewrite ?visible_dir_insert, ?visible_dir_delete, ?visible_dir_insert, ?Hreserved,
  ?visible_dir_delete, ?visible_dir_reserved by done.

Lemma visible_tmp_dir i : visible_dir (<[tmp := i]> dir) = visible_dir dir.
Proof. by entries. Qed.

(** Removing the temporary file, whether it works or not. *)
Lemma unlink_kept entries data fs :
  arranged entries data fs -> visible_dir entries = visible_dir dir ->
  (forall j content, fs_data fs0 !! j = Some content -> data !! j = Some content) ->
  interpret promised (unlink parent tmp) fs (fun _ fs' => kept fs0 fs') (fun _ => False).
Proof.
  intros Ha Hv Hdata. apply interpret_ask; [exact _|]. intros answer fs' Hd. cbn [interpret].
  apply (unlink_arranged _ _ _ _ _ _ Ha) in Hd. destruct answer.
  - eapply arranged_kept; [done| |done]. by rewrite visible_dir_delete, Hv, visible_dir_reserved.
  - subst. by eapply arranged_kept.
Qed.
Lemma unlink_staged h i content fs :
  staged h i content fs -> interpret promised (unlink parent tmp) fs (fun _ fs' => kept fs0 fs') (fun _ => False).
Proof.
  intros Hs. eapply unlink_kept; [exact (staged_arranged _ _ _ _ Hs)|apply visible_tmp_dir|].
  intros j data. apply unused_data. exact (sg_unused _ _ _ _ Hs).
Qed.

Lemma discard_staged {A} h i content fs (error : BrokerErrorCode) (E : Fs -> Prop) :
  staged h i content fs ->
  interpret promised (_ ⇐ unlink parent tmp; @fail A error) fs (settled E) (either E).
Proof.
  intros Hs. apply interpret_pbind; [exact _|]. eapply interpret_mono; [exact _| | |by eapply unlink_staged]; [|done].
  intros [] fs' Hk. by left.
Qed.

Lemma or_unlink_staged {A B} (p : Io A) (f : A -> Io B) fs (E : Fs -> Prop) :
  interpret promised p fs (fun r fs' =>
    match r with
    | Ok a => interpret promised (f a) fs' (settled E) (either E)
    | Err _ => exists h i content, staged h i content fs'
    end)
    (fun fs' => exists h i content, staged h i content fs') ->
  interpret promised (or_unlink parent tmp p f) fs (settled E) (either E).
Proof.
  intros Hp. apply interpret_pbind; [exact _|]. revert Hp. apply interpret_mono; [exact _| |].
  - intros [a|e] fs' Hr; [done|]. destruct Hr as (h & i & content & Hs). by eapply discard_staged.
  - intros fs' (h & i & content & Hs). left. by eapply staged_kept.
Qed.
Lemma or_unlink_looks {A B} (p : Io A) (f : A -> Io B) h i content fs (E : Fs -> Prop) :
  only_looks p -> staged h i content fs ->
  (forall a fs', staged h i content fs' -> interpret promised (f a) fs' (settled E) (either E)) ->
  interpret promised (or_unlink parent tmp p f) fs (settled E) (either E).
Proof.
  intros Hp Hs Hf. apply or_unlink_staged.
  eapply interpret_mono; [exact _| | |by apply only_looks_interpret].
  - intros r fs' Hg. apply (grows_staged _ _ _ _ _ Hg) in Hs. destruct r; [by apply Hf|by exists h, i, content].
  - intros fs' Hg. exists h, i, content. exact (grows_staged _ _ _ _ _ Hg Hs).
Qed.

Lemma rename_at_promised n1 n2 flags fs (P : result BrokerErrorCode () -> Fs -> Prop) S :
  (forall answer fs', documented fs (Renameat2 parent n1 parent n2 flags) answer fs' -> P (map_err os_error answer) fs') ->
  interpret promised (rename_at parent n1 parent n2 flags) fs P S.
Proof. intros H. apply interpret_ask; [exact _|]. intros answer fs' Hd. by apply H. Qed.

(** After the commit only looks are left. *)
Lemma finish_looks {A} (p : Io A) fs (E : Fs -> Prop) :
  only_looks p -> E fs -> (forall fs', grows fs fs' -> E fs') -> interpret promised p fs (settled E) (either E).
Proof.
  intros Hp HE Hg. eapply interpret_mono; [exact _| | |by apply only_looks_interpret].
  - intros [a|e] fs' H; [|right]; by apply Hg.
  - intros fs' H. right. by apply Hg.
Qed.

Context (name : string).
Hypothesis Hname : reserved name = false.
Lemma name_tmp : name <> tmp.
Proof. congruence. Qed.

Lemma visible_entries i : visible_dir (<[name := i]> (delete tmp (<[tmp := i]> dir))) = <[name := i]> (visible_dir dir).
Proof. rewrite visible_dir_insert, Hname. by entries. Qed.
Lemma visible_exchanged i j :
  visible_dir (<[name := i]> (<[tmp := j]> (<[tmp := i]> dir))) = <[name := i]> (visible_dir dir).
Proof. rewrite visible_dir_insert, Hname. f_equal. by entries. Qed.
Lemma visible_rolled_back i j x :
  dir !! name = Some j -> visible_dir x = <[name := i]> (visible_dir dir) ->
  visible_dir (<[name := j]> (<[tmp := i]> x)) = visible_dir dir.
Proof.
  intros Hn Hx. rewrite visible_dir_insert, Hname, visible_dir_insert, Hreserved, visible_dir_delete, Hx.
  rewrite delete_insert_ne by (symmetry; apply name_tmp). rewrite visible_dir_reserved by done. rewrite insert_insert_eq.
  apply insert_id. unfold visible_dir. by rewrite map_lookup_filter_Some.
Qed.

Lemma exchange_and_remove_promised h i content fs j expected unchanged :
  staged h i content fs -> dir !! name = Some j ->
  interpret promised (exchange_and_remove parent tmp name expected unchanged) fs
    (settled (installed (Some j) name content)) (either (installed (Some j) name content)).
Proof.
  intros Hs Hn. pose proof (staged_arranged _ _ _ _ Hs) as Ha. pose proof (sg_unused _ _ _ _ Hs) as Hu.
  unfold exchange_and_remove. eapply interpret_then; [exact _|eapply (rename_at_promised _ _ _ _
    (fun r fs1 => match r with
      | Ok _ => arranged (<[name := i]> (<[tmp := j]> (<[tmp := i]> dir))) (<[i := content]> (fs_data fs0)) fs1
      | Err _ => staged h i content fs1 end))|].
  { intros answer fs1 Hd. apply (exchange_arranged _ _ _ _ _ _ _ Ha) in Hd. destruct answer as [u|error]; cbn [map_err]; [|by subst].
    destruct Hd as (i' & j' & Hi & Hj & Hd). rewrite lookup_insert_eq in Hi. injection Hi as <-.
    rewrite lookup_insert_ne, Hn in Hj by (symmetry; apply name_tmp). by injection Hj as <-. }
  intros [u|error] fs1 H1; [clear u fs Hs Ha|by eapply discard_staged].
  apply looks_then; [apply metadata_at_looks| |].
  { intros fs2 Hg. right. eexists _, _. split; [exact Hu|]. split; [done|].
    split; [exact (grows_arranged _ _ _ _ Hg H1)|apply visible_exchanged]. }
  intros swapped fs2 Hg. apply (grows_arranged _ _ _ _ Hg) in H1. clear Hg fs1. cbv zeta.
  assert (installed (Some j) name content fs2) as Hi.
  { eexists _, _. split; [exact Hu|]. split; [done|]. split; [exact H1|]. apply visible_exchanged. }
  destruct (negb _).
  - eapply interpret_then; [exact _|eapply (rename_at_promised _ _ _ _
      (fun r fs3 => match r with Ok _ => kept fs0 fs3 | Err _ => installed (Some j) name content fs3 end))|].
    + intros answer fs3 Hd. apply (exchange_arranged _ _ _ _ _ _ _ H1) in Hd. destruct answer as [u|error]; cbn [map_err]; [|by subst].
      destruct Hd as (i' & j' & Hi' & Hj' & Hd).
      rewrite lookup_insert_ne, lookup_insert_eq in Hi' by apply name_tmp. injection Hi' as <-.
      rewrite lookup_insert_eq in Hj'. injection Hj' as <-.
      eapply arranged_kept; [exact Hd|apply visible_rolled_back; [done|apply visible_exchanged]|].
      intros k data. by apply unused_data.
    + intros [u|error] fs3 H3; destruct swapped; cbn [interpret fail settled]; by (left + right).
  - apply interpret_ask; [exact _|]. intros answer fs3 Hd. cbn [lift interpret].
    apply (unlink_arranged _ _ _ _ _ _ H1) in Hd. destruct answer as [u|error]; cbn [map_err settled]; [|subst; by right].
    eexists _, _. split; [exact Hu|]. split; [done|]. split; [exact Hd|].
    rewrite visible_dir_delete, visible_exchanged, delete_insert_ne by (symmetry; apply name_tmp). by rewrite visible_dir_reserved.
Qed.

(** The end of [replace_file] and [append_file]. *)
Lemma exchange_commit_promised {A} h i content fs j expected unchanged (receipt : A) :
  staged h i content fs -> dir !! name = Some j ->
  interpret promised (_ ↢ exchange_and_remove parent tmp name expected unchanged; _ ↢ sync_directory parent; pure receipt) fs
    (settled (installed (Some j) name content)) (either (installed (Some j) name content)).
Proof.
  intros Hs Hn. eapply interpret_try; [exact _|by eapply exchange_and_remove_promised|done| |by intros e fs' H].
  intros u fs' Hi. apply finish_looks; [|done|].
  - apply only_looks_try; [apply sync_directory_looks|]. by intros [].
  - intros fs2 Hg. by eapply grows_installed.
Qed.

(** The end of [create_file]. *)
Lemma create_commit_promised {A} h i content fs (metadata : Stat) (receipt : A) :
  staged h i content fs ->
  interpret promised
    (or_unlink parent tmp (rename_at parent tmp parent name RENAME_NOREPLACE) (fun _ =>
     committed ⇐ metadata_at parent name;
     if negb match committed with Ok m => same_file metadata m | Err _ => false end then
       rollback ⇐ rename_at parent name parent tmp RENAME_NOREPLACE;
       _ ⇐ (if is_ok rollback then unlink parent tmp else Ret ());
       fail EBackendFailed
     else _ ↢ sync_directory parent; pure receipt)) fs
    (settled (installed None name content)) (either (installed None name content)).
Proof.
  intros Hs. pose proof (staged_arranged _ _ _ _ Hs) as Ha. pose proof (sg_unused _ _ _ _ Hs) as Hu.
  apply or_unlink_staged, rename_at_promised. intros answer fs1 Hd.
  apply (rename_arranged _ _ _ _ _ _ _ Ha) in Hd. destruct answer as [u|error]; cbn [map_err];
    [|subst; by exists h, i, content].
  destruct Hd as (i' & Hi' & Hfree & H1). rewrite lookup_insert_eq in Hi'. injection Hi' as <-.
  rewrite lookup_insert_ne in Hfree by (symmetry; apply name_tmp).
  assert (forall fs', grows fs1 fs' -> installed None name content fs') as Hdone.
  { intros fs' Hg. eexists _, _. split; [exact Hu|]. split; [done|].
    split; [exact (grows_arranged _ _ _ _ Hg H1)|apply visible_entries]. }
  apply looks_then; [apply metadata_at_looks|intros fs' Hg; right; by apply Hdone|].
  intros committed fs2 Hg2. apply (grows_arranged _ _ _ _ Hg2) in H1. destruct (negb _).
  - apply interpret_pbind; [exact _|]. apply rename_at_promised. intros answer fs3 Hd.
    apply (rename_arranged _ _ _ _ _ _ _ H1) in Hd. destruct answer as [u'|error]; cbn [map_err is_ok].
    + destruct Hd as (i' & Hi' & _ & H3). rewrite lookup_insert_eq in Hi'. injection Hi' as <-.
      apply interpret_pbind; [exact _|]. eapply interpret_mono; [exact _| | |eapply unlink_kept; [exact H3| |]]; [|done| |].
      * intros [] fs4 Hk. by left.
      * rewrite visible_dir_insert, Hreserved, !visible_dir_delete, visible_entries, delete_insert_id, visible_dir_reserved; [done..|].
        unfold visible_dir. apply map_lookup_filter_None. by left.
      * intros j data. by apply unused_data.
    + subst fs3. cbn. right. by apply Hdone.
  - apply finish_looks; [|by apply Hdone|].
    + apply only_looks_try; [apply sync_directory_looks|]. by intros [].
    + intros fs' Hg. apply Hdone. by etransitivity.
Qed.
End Staging.

(** ** Staging *)

Lemma temporary_reserved random : reserved (temporary_of random) = true.
Proof. apply starts_with_spec. by eexists. Qed.
Lemma temporary_name_promised rounds fs :
  interpret promised (temporary_name rounds) fs
    (fun r fs' => grows fs fs' /\ forall name, r = Ok name -> reserved name = true) (grows fs).
Proof.
  apply looks_try; [apply fill_random_looks|done|done|]. intros random fs' Hg. split; [done|].
  intros name [= <-]. apply temporary_reserved.
Qed.

Lemma grows_unused fs fs' i : grows fs fs' -> unused fs' i -> unused fs i.
Proof.
  intros [R D A O P] [U1 U2 U3 U4 U5]. split; [congruence..| | |congruence].
  - intros d dir name. rewrite <- D. apply U3.
  - intros h Hh. by apply (U4 h), O.
Qed.

Lemma promised_stage {A} rounds parent d (f : string -> Fd -> Io A) fs P S :
  object fs parent = Some d ->
  (forall fs', grows fs fs' -> S fs') -> (forall e fs', grows fs fs' -> P (Err e) fs') ->
  (forall fs0 dir tmp h i fs', grows fs fs0 -> entry_of fs0 parent d dir -> reserved tmp = true ->
    staged fs0 d dir tmp h i [] fs' -> fs_pos fs' !! h = Some 0%N -> interpret promised (f tmp (Handle h)) fs' P S) ->
  interpret promised (tmp ↢ temporary_name rounds; fd ↢ create_exclusive parent tmp; f tmp fd) fs P S.
Proof.
  intros Hd HS HE Hf. eapply interpret_try; [exact _|apply temporary_name_promised|done| |by intros e fs' [Hg _]; auto].
  intros tmp fs0 [Hg Ht]. specialize (Ht tmp eq_refl). destruct (fs_dirs fs0 !! d) as [dir|] eqn:Edir.
  - assert (entry_of fs0 parent d dir) as He by (by split; [eapply grows_object|]).
    eapply interpret_try; [exact _|by eapply create_exclusive_promised|done| |].
    + intros fd fs' (h & i & -> & Hs & Hp). by eapply Hf.
    + intros e fs' ->. by apply HE.
  - apply interpret_pbind; [exact _|]. apply interpret_ask; [exact _|]. intros answer fs' Hc. cbn [lift interpret].
    destruct answer as [fd|error]; cbn [map_err interpret fail].
    + destruct Hc as (d' & dir & i & [Ho Hdir] & _). rewrite (grows_object _ _ _ _ Hg Hd) in Ho. injection Ho as <-. congruence.
    + cbn in Hc. subst. by apply HE.
Qed.

(** The existing file a name stands for. *)
Lemma promised_existing {A} parent d path name flags (f : Fd -> Io A) fs P S :
  object fs parent = Some d -> file_name path = Some name ->
  (forall fs', grows fs fs' -> S fs') -> (forall e fs', grows fs fs' -> P (Err e) fs') ->
  (forall fs' dir j existing, grows fs fs' -> fs_dirs fs' !! d = Some dir -> dir !! name = Some j ->
    object fs' existing = Some j -> interpret promised (f existing) fs' P S) ->
  interpret promised (existing ↢ open_at_beneath os_error parent name flags; f existing) fs P S.
Proof.
  intros Hd Hn HS HE Hf.
  eapply interpret_try; [exact _|by apply (open_at_beneath_promised os_error parent name flags fs d)|done| |by intros e fs' [Hg _]; auto].
  intros existing fs' [Hg He]. destruct (He existing eq_refl) as (j & Hr & Ho).
  destruct (fs_dirs fs !! d) as [dir|] eqn:Edir.
  - rewrite (resolve_name _ _ dir path) in Hr by done. apply (Hf fs' dir j); [done| |done|done]. by rewrite (gr_dirs _ _ Hg).
  - unfold resolve_path in Hr. rewrite (components_name path) in Hr by (by apply file_name_component). cbn in Hr.
    by rewrite Edir in Hr.
Qed.

Lemma validate_regular_file_looks e fd maximum : only_looks (validate_regular_file e fd maximum).
Proof.
  apply only_looks_try; [apply descriptor_metadata_looks|]. intros metadata. unfold u64_of. looking.
Qed.

(** ** What each mutation means *)

(** [name] of [d] stands for the new file [i]; nothing else changed. *)
Record writes (fs : Fs) (d : N) (dir : gmap string N) (name : string) (i : N) (content : list N) (fs' : Fs) : Prop := {
  wr_dir : fs_dirs fs !! d = Some dir;
  wr_unused : unused fs i;
  wr_names : visible (fs_dirs fs') = visible (<[d := <[name := i]> dir]> (fs_dirs fs));
  wr_content : fs_data fs' !! i = Some content;
  wr_kept : forall j data, fs_data fs !! j = Some data -> fs_data fs' !! j = Some data;
}.
(** The names became those of [dirs]; nothing else changed. *)
Record moves (fs : Fs) (dirs : gmap N (gmap string N)) (fs' : Fs) : Prop := {
  mv_names : visible (fs_dirs fs') = visible dirs;
  mv_kept : forall j data, fs_data fs !! j = Some data -> fs_data fs' !! j = Some data;
}.

Definition intended {Identity} (request : BackendRequest Identity) (fs : Fs) (mutation : AuthorizedMutation) (fs' : Fs) : Prop :=
  match mutation with
  | CreateFile write => exists d dir name i, located request fs (fwf_mount write) (fwf_path write) d name /\
      dir !! name = None /\ writes fs d dir name i (fwf_bytes write) fs'
  | ReplaceFile write => exists d dir name i j, located request fs (fwf_mount write) (fwf_path write) d name /\
      dir !! name = Some j /\ writes fs d dir name i (fwf_bytes write) fs'
  | AppendFile write => exists d dir name i j old, located request fs (fwf_mount write) (fwf_path write) d name /\
      dir !! name = Some j /\ fs_data fs !! j = Some old /\ writes fs d dir name i (old ++ fwf_bytes write) fs'
  | DeleteFile path => exists d dir name j, located request fs (fp_mount path) (fp_path path) d name /\
      fs_dirs fs !! d = Some dir /\ dir !! name = Some j /\ moves fs (<[d := delete name dir]> (fs_dirs fs)) fs'
  | RenameFile rename => exists d1 dir1 n1 d2 dir2 n2 i,
      located request fs (fr_mount rename) (fr_source rename) d1 n1 /\
      located request fs (fr_mount rename) (fr_destination rename) d2 n2 /\
      fs_dirs fs !! d1 = Some dir1 /\ fs_dirs fs !! d2 = Some dir2 /\ dir1 !! n1 = Some i /\ dir2 !! n2 = None /\
      moves fs (alter (insert n2 i) d2 (alter (delete n1) d1 (fs_dirs fs))) fs'
  | CreateDir path => exists d dir name i, located request fs (fp_mount path) (fp_path path) d name /\
      fs_dirs fs !! d = Some dir /\ dir !! name = None /\ unused fs i /\
      moves fs (<[i := ∅]> (<[d := <[name := i]> dir]> (fs_dirs fs))) fs'
  end.

(** ** The mutations *)

Section Mutations.
Context {Identity : Type} (request : BackendRequest Identity) (rounds : nat) (fs : Fs).

Lemma located_name mount path d name : located request fs mount path d name -> file_name path = Some name.
Proof. by intros (root & _ & p & _ & _ & Hf). Qed.
Lemma either_grows E fs' : grows fs fs' -> either fs E fs'.
Proof. intros Hg. left. by apply grows_kept. Qed.

(** From the state before the temporary file to the state before the call. *)
Lemma settled_from {A} fs0 (E E0 : Fs -> Prop) (p : Io A) w :
  grows fs fs0 -> (forall fs', E0 fs' -> E fs') ->
  interpret promised p w (settled fs0 E0) (either fs0 E0) -> interpret promised p w (settled fs E) (either fs E).
Proof.
  intros Hg HE. assert (forall fs', either fs0 E0 fs' -> either fs E fs') as He.
  { intros fs' [Hk|H]; [left|right; by apply HE]. eapply kept_trans; [by apply grows_kept|done]. }
  apply interpret_mono; [exact _| |done]. intros [a|e] fs'; [apply HE|apply He].
Qed.

Lemma installed_writes fs0 d dir old name content fs' :
  grows fs fs0 -> fs_dirs fs0 !! d = Some dir -> reserved name = false ->
  installed fs0 d dir old name content fs' ->
  dir !! name = old /\ exists i, writes fs d dir name i content fs'.
Proof.
  intros Hg Hd Hn (i & x & Hu & Ho & [R D A O] & Hv). split; [done|]. exists i. split.
  - by rewrite <- (gr_dirs _ _ Hg).
  - by eapply grows_unused.
  - rewrite D, (gr_dirs _ _ Hg). apply visible_same. by rewrite Hv, visible_dir_insert, Hn.
  - rewrite A. apply lookup_insert_eq.
  - intros j data Hj. rewrite A. apply unused_data; [done|]. by rewrite (gr_data _ _ Hg).
Qed.

Lemma create_file_settles write :
  (forall name, file_name (fwf_path write) = Some name -> reserved name = false) ->
  interpret promised (create_file rounds request write) fs
    (settled fs (intended request fs (CreateFile write))) (either fs (intended request fs (CreateFile write))).
Proof.
  intros Hnames. apply promised_place; [apply either_grows|intros e; apply either_grows|].
  intros parent name d fs1 Hg1 Hl Hd. pose proof (located_name _ _ _ _ Hl) as Hfile.
  pose proof (Hnames _ Hfile) as Hname.
  eapply promised_stage; [exact Hd| | |].
  1-2: intros; apply either_grows; by etransitivity.
  intros fs0 dir tmp h i fs2 Hg0 He Ht Hs Hpos. assert (grows fs fs0) as Hg by (by etransitivity).
  eapply (settled_from fs0 _ (installed fs0 d dir None name (fwf_bytes write))); [done| |].
  { intros fs' Hi. eapply installed_writes in Hi as (Hn & i' & Hw); [|done|apply He|done].
    by exists d, dir, name, i'. }
  apply (or_unlink_staged fs0 parent d dir tmp He Ht).
  eapply interpret_mono; [exact _| | |by eapply write_and_sync_promised].
  2: { intros fs3 (content & H3). by exists h, i, content. }
  intros [u|error] fs3 (content & H3 & Hw); [|by exists h, i, content]. destruct u. rewrite (Hw eq_refl) in H3.
  eapply (or_unlink_looks fs0 parent d dir tmp He Ht); [apply check_cancelled_looks|exact H3|]. intros _ fs4 H4.
  eapply (or_unlink_looks fs0 parent d dir tmp He Ht); [apply descriptor_metadata_looks|exact H4|]. intros metadata fs5 H5.
  by eapply (create_commit_promised fs0 parent d dir tmp He Ht).
Qed.

Lemma replace_file_settles write :
  (forall name, file_name (fwf_path write) = Some name -> reserved name = false) ->
  interpret promised (replace_file rounds request write) fs
    (settled fs (intended request fs (ReplaceFile write))) (either fs (intended request fs (ReplaceFile write))).
Proof.
  intros Hnames. unfold replace_file. destruct (filesystem_scope request) as [scope|error]; [|by left; apply grows_kept].
  apply promised_place; [apply either_grows|intros e; apply either_grows|].
  intros parent name d fs1 Hg1 Hl Hd. pose proof (located_name _ _ _ _ Hl) as Hfile.
  pose proof (Hnames _ Hfile) as Hname.
  eapply promised_existing; [exact Hd|exact Hfile| | |].
  1-2: intros; apply either_grows; by etransitivity.
  intros fs2 dir j existing Hg2 Hdir Hj Ho. apply looks_try; [apply validate_regular_file_looks| | |].
  1-2: intros; apply either_grows; (do 2 (etransitivity; [done|])); done.
  intros expected fs3 Hg3. assert (grows fs fs3) as Hg by (do 2 (etransitivity; [done|]); done).
  eapply promised_stage; [exact (grows_object _ _ _ _ Hg3 (grows_object _ _ _ _ Hg2 Hd))| | |].
  1-2: intros; apply either_grows; by etransitivity.
  intros fs0 dir' tmp h i fs4 Hg0 He Ht Hs Hpos. assert (grows fs fs0) as Hg' by (by etransitivity).
  assert (dir' = dir) as ->.
  { destruct He as [_ He]. rewrite (gr_dirs _ _ Hg0), (gr_dirs _ _ Hg3), Hdir in He. by injection He. }
  eapply (settled_from fs0 _ (installed fs0 d dir (Some j) name (fwf_bytes write))); [done| |].
  { intros fs' Hi. eapply installed_writes in Hi as (Hn & i' & Hw); [|done|apply He|done]. by exists d, dir, name, i', j. }
  apply (or_unlink_staged fs0 parent d dir tmp He Ht).
  eapply interpret_mono; [exact _| | |by eapply write_and_sync_promised].
  2: { intros fs5 (content & H5). by exists h, i, content. }
  intros [u|error] fs5 (content & H5 & Hw); [|by exists h, i, content]. destruct u. rewrite (Hw eq_refl) in H5.
  eapply (or_unlink_looks fs0 parent d dir tmp He Ht); [apply check_cancelled_looks|exact H5|]. intros _ fs6 H6.
  by eapply (exchange_commit_promised fs0 parent d dir tmp He Ht).
Qed.

Lemma validate_regular_file_promised e fd maximum w i :
  object w fd = Some i ->
  interpret promised (validate_regular_file e fd maximum) w
    (fun r w' => grows w w' /\ forall metadata, r = Ok metadata ->
      exists data, fs_data w !! i = Some data /\ st_size metadata = Z.of_N (len data)) (grows w).
Proof.
  intros Ho. apply interpret_pbind; [exact _|]. apply interpret_ask; [exact _|]. intros answer w' [-> Hd]. cbn [lift interpret].
  destruct answer as [metadata|error]; cbn [map_err]; [|done].
  destruct (bool_decide_reflect (st_format metadata = S_IFREG)) as [Hf|]; cbn [negb orb]; [|done].
  destruct (negb _); [done|]. unfold u64_of. destruct (_ <=? _)%Z; cbn; [|done]. destruct (_ <? _)%N; cbn; (split; [done|]); [done|].
  intros ? [= <-]. by apply Hd.
Qed.

Lemma append_file_settles write :
  (forall name, file_name (fwf_path write) = Some name -> reserved name = false) ->
  interpret promised (append_file rounds request write) fs
    (settled fs (intended request fs (AppendFile write))) (either fs (intended request fs (AppendFile write))).
Proof.
  intros Hnames. unfold append_file. destruct (filesystem_scope request) as [scope|error]; [|by left; apply grows_kept].
  apply promised_place; [apply either_grows|intros e; apply either_grows|].
  intros parent name d fs1 Hg1 Hl Hd. pose proof (located_name _ _ _ _ Hl) as Hfile.
  pose proof (Hnames _ Hfile) as Hname.
  eapply promised_existing; [exact Hd|exact Hfile| | |].
  1-2: intros; apply either_grows; by etransitivity.
  intros fs2 dir j existing Hg2 Hdir Hj Ho.
  eapply interpret_try; [exact _|by apply validate_regular_file_promised| | |].
  { intros fs3 Hg3. apply either_grows; (do 2 (etransitivity; [done|])); done. }
  2: { intros e fs3 [Hg3 _]. apply either_grows; (do 2 (etransitivity; [done|])); done. }
  intros expected fs3 [Hg3 Hsize]. destruct (Hsize expected eq_refl) as (old & Hold & Hst). clear Hsize.
  assert (grows fs fs3) as Hg by (do 2 (etransitivity; [done|]); done).
  unfold u64_of. rewrite Hst. destruct (0 <=? _)%Z; [|by apply either_grows]. rewrite N2Z.id.
  cbn [lift try pbind]. destruct (checked_add64 _ _) as [size|]; [|by apply either_grows]. cbn [ok_or].
  destruct (_ <? size)%N; [by apply either_grows|].
  eapply promised_stage; [exact (grows_object _ _ _ _ Hg3 (grows_object _ _ _ _ Hg2 Hd))| | |].
  1-2: intros; apply either_grows; by etransitivity.
  intros fs0 dir' tmp h i fs4 Hg0 He Ht Hs Hpos. assert (grows fs fs0) as Hg' by (by etransitivity).
  assert (dir' = dir) as ->.
  { destruct He as [_ He]. rewrite (gr_dirs _ _ Hg0), (gr_dirs _ _ Hg3), Hdir in He. by injection He. }
  eapply (settled_from fs0 _ (installed fs0 d dir (Some j) name (old ++ fwf_bytes write))); [done| |].
  { intros fs' Hi. eapply installed_writes in Hi as (Hn & i' & Hw); [|done|apply He|done]. exists d, dir, name, i', j, old.
    split; [done|]. split; [done|]. split; [|done]. by rewrite <- (gr_data _ _ Hg1), <- (gr_data _ _ Hg2). }
  assert (object fs0 existing = Some j) as Ho0 by (eapply grows_object; [|exact (grows_object _ _ _ _ Hg3 Ho)]; done).
  assert (fs_data fs0 !! j = Some old) as Hj0 by (by rewrite (gr_data _ _ Hg0), (gr_data _ _ Hg3)).
  apply (or_unlink_staged fs0 parent d dir tmp He Ht).
  eapply interpret_mono; [exact _| | |by eapply copy_append_promised].
  2: { intros fs5 (content & H5). by exists h, i, content. }
  intros [u|error] fs5 (content & H5 & Hw); [|by exists h, i, content]. destruct u. rewrite (Hw eq_refl) in H5.
  apply looks_then; [by split|intros fs6 Hg6; left; eapply staged_kept; [exact He|exact Ht|exact (grows_staged _ _ _ _ _ _ _ _ _ Hg6 H5)]|].
  intros synced fs6 Hg6. pose proof (grows_staged _ _ _ _ _ _ _ _ _ Hg6 H5) as H6. destruct synced as [u|error].
  2: { apply interpret_ask; [exact _|]. intros answer fs7 Hd7. cbn [interpret fail]. left.
       pose proof (unlink_staged fs0 parent d dir tmp He Ht h i _ fs6 H6 answer fs7 Hd7) as H7. exact H7. }
  eapply (or_unlink_looks fs0 parent d dir tmp He Ht); [apply descriptor_metadata_looks|exact H6|]. intros after fs7 H7.
  destruct (negb _).
  { by eapply (discard_staged fs0 parent d dir tmp He Ht). }
  eapply (or_unlink_looks fs0 parent d dir tmp He Ht); [apply check_cancelled_looks|exact H7|]. intros _ fs8 H8.
  by eapply (exchange_commit_promised fs0 parent d dir tmp He Ht).
Qed.

(** The directory shows [entries], the contents are those there were. *)
Definition rearranged fs0 (d : N) (entries : gmap string N) (fs' : Fs) : Prop :=
  exists x, arranged fs0 d x (fs_data fs0) fs' /\ visible_dir x = visible_dir entries.
Lemma grows_rearranged fs0 d entries fs1 fs2 : grows fs1 fs2 -> rearranged fs0 d entries fs1 -> rearranged fs0 d entries fs2.
Proof. intros Hg (x & Ha & Hv). exists x. split; [by eapply grows_arranged|done]. Qed.
Lemma rearranged_moves fs0 d entries fs' : grows fs fs0 -> rearranged fs0 d entries fs' -> moves fs (<[d := entries]> (fs_dirs fs)) fs'.
Proof.
  intros Hg (x & [R D A O] & Hv). split; [|intros j data Hj; by rewrite A, (gr_data _ _ Hg)].
  rewrite D, (gr_dirs _ _ Hg). by apply visible_same.
Qed.

(** What follows the renaming in [delete_file]. *)
Lemma delete_commit_promised {A} fs0 parent d dir name quarantine j w expected (receipt : A) :
  entry_of fs0 parent d dir -> reserved quarantine = true -> reserved name = false -> dir !! name = Some j ->
  arranged fs0 d (<[quarantine := j]> (delete name dir)) (fs_data fs0) w ->
  interpret promised
    (moved ⇐ metadata_at parent quarantine;
     match moved with
     | Err error => roll_back parent quarantine parent name error
     | Ok moved =>
         if negb (same_file expected moved) then roll_back parent quarantine parent name EBackendFailed
         else _ ↢ unlink_checked parent quarantine; _ ↢ sync_directory parent; pure receipt
     end) w
    (settled fs0 (rearranged fs0 d (delete name dir))) (either fs0 (rearranged fs0 d (delete name dir))).
Proof.
  intros He Hq Hn Hj Ha.
  assert (visible_dir (<[quarantine := j]> (delete name dir)) = visible_dir (delete name dir)) as Hv.
  { by apply visible_dir_insert_reserved. }
  assert (forall error w1, arranged fs0 d (<[quarantine := j]> (delete name dir)) (fs_data fs0) w1 ->
    interpret promised (@roll_back A parent quarantine parent name error) w1
      (settled fs0 (rearranged fs0 d (delete name dir))) (either fs0 (rearranged fs0 d (delete name dir)))) as Hback.
  { intros error w1 H1. apply interpret_pbind; [exact _|]. apply rename_at_promised. intros answer w2 Hd.
    apply (rename_arranged fs0 parent d dir He _ _ _ _ _ _ _ H1) in Hd. cbn [interpret fail settled].
    destruct answer as [u|e]; [left|right; subst; by eexists].
    destruct Hd as (i & Hi & _ & H2). rewrite lookup_insert_eq in Hi. injection Hi as <-.
    eapply arranged_kept; [exact He|exact H2| |done].
    rewrite visible_dir_insert, Hn, visible_dir_delete_reserved, visible_dir_insert_reserved by done.
    rewrite visible_dir_delete, insert_delete_eq. apply insert_id. unfold visible_dir. by rewrite map_lookup_filter_Some. }
  apply looks_then; [apply metadata_at_looks|intros w1 Hg; right; exists (<[quarantine := j]> (delete name dir)); split; [by eapply grows_arranged|done]|].
  intros moved w1 Hg. apply (grows_arranged _ _ _ _ _ _ Hg) in Ha.
  destruct moved as [moved|error]; [|by apply Hback]. destruct (negb _); [by apply Hback|].
  eapply (interpret_try _ _ _ _ (settled fs0 (rearranged fs0 d (delete name dir))) (either fs0 (rearranged fs0 d (delete name dir))));
    [|done| |done].
  - apply interpret_ask; [exact _|]. intros answer w2 Hd. cbn [lift interpret].
    apply (unlink_arranged fs0 parent d dir He _ _ _ _ _ _ Ha) in Hd.
    destruct answer; cbn [map_err settled]; [|subst; right; by eexists].
    eexists. split; [exact Hd|]. by rewrite visible_dir_delete_reserved.
  - intros u w2 H2. apply finish_looks; [|exact H2|].
    + apply only_looks_try; [apply sync_directory_looks|]. by intros [].
    + intros w3 Hg3. by eapply grows_rearranged.
Qed.

Lemma delete_file_settles path :
  (forall name, file_name (fp_path path) = Some name -> reserved name = false) ->
  interpret promised (delete_file rounds request path) fs
    (settled fs (intended request fs (DeleteFile path))) (either fs (intended request fs (DeleteFile path))).
Proof.
  intros Hnames. unfold delete_file. destruct (filesystem_scope request) as [scope|error]; [|by left; apply grows_kept].
  apply promised_place; [apply either_grows|intros e; apply either_grows|].
  intros parent name d fs1 Hg1 Hl Hd. pose proof (located_name _ _ _ _ Hl) as Hfile.
  pose proof (Hnames _ Hfile) as Hname.
  eapply promised_existing; [exact Hd|exact Hfile| | |].
  1-2: intros; apply either_grows; by etransitivity.
  intros fs2 dir j existing Hg2 Hdir Hj Ho. assert (grows fs fs2) as Hg02 by (by etransitivity).
  apply looks_try; [apply validate_regular_file_looks| | |].
  1-2: intros; apply either_grows; by etransitivity.
  intros expected fs3 Hg3. assert (grows fs fs3) as Hg03 by (by etransitivity).
  apply looks_try; [apply check_cancelled_looks| | |].
  1-2: intros; apply either_grows; by etransitivity.
  intros _ fs4 Hg4. assert (grows fs fs4) as Hg04 by (by etransitivity).
  eapply interpret_try; [exact _|apply temporary_name_promised| | |].
  { intros; apply either_grows; by etransitivity. }
  2: { intros e fs5 [Hg5 _]; apply either_grows; by etransitivity. }
  intros quarantine fs0 [Hg5 Hq]. specialize (Hq quarantine eq_refl). assert (grows fs fs0) as Hg by (by etransitivity).
  assert (entry_of fs0 parent d dir) as He.
  { assert (grows fs2 fs0) as Hg20 by (do 2 (etransitivity; [done|]); done).
    split; [exact (grows_object _ _ _ _ Hg20 (grows_object _ _ _ _ Hg2 Hd))|by rewrite (gr_dirs _ _ Hg20)]. }
  eapply (settled_from fs0 _ (rearranged fs0 d (delete name dir))); [done| |].
  { intros fs' Hr. exists d, dir, name, j. split; [done|]. split; [|split; [done|by eapply rearranged_moves]].
    by rewrite <- (gr_dirs _ _ Hg1), <- (gr_dirs _ _ Hg2). }
  apply interpret_pbind; [exact _|]. apply rename_at_promised. intros answer fs5 Hd5.
  apply (rename_arranged fs0 parent d dir He _ _ _ _ _ _ _ (arranged_start fs0 parent d dir He fs0 (reflexivity _))) in Hd5.
  destruct answer as [u|error]; cbn [map_err interpret fail]; [|subst; left; by apply grows_kept].
  destruct Hd5 as (i & Hi & _ & H5). rewrite Hj in Hi. injection Hi as <-.
  by apply (delete_commit_promised fs0 parent d dir name quarantine j).
Qed.

Lemma rename_back d1 n1 d2 n2 i (dirs : gmap N (gmap string N)) dir1 dir2 :
  dirs !! d1 = Some dir1 -> dirs !! d2 = Some dir2 -> dir1 !! n1 = Some i -> dir2 !! n2 = None ->
  alter (insert n1 i) d1 (alter (delete n2) d2 (alter (insert n2 i) d2 (alter (delete n1) d1 dirs))) = dirs.
Proof.
  intros H1 H2 Hn1 Hn2. apply map_eq. intros k. destruct (decide (d1 = d2)) as [<-|Hd].
  - rewrite H1 in H2. injection H2 as <-. destruct (decide (k = d1)) as [->|].
    + rewrite !lookup_alter_eq, H1. cbn. f_equal.
      rewrite delete_insert_id by (by rewrite lookup_delete_None; right). rewrite insert_delete_eq. by apply insert_id.
    + by rewrite !lookup_alter_ne by done.
  - destruct (decide (k = d1)) as [->|]; [|destruct (decide (k = d2)) as [->|]].
    + rewrite lookup_alter_eq, !lookup_alter_ne, lookup_alter_eq, H1 by done. cbn.
      by rewrite insert_delete_eq, insert_id.
    + rewrite lookup_alter_ne, !lookup_alter_eq, lookup_alter_ne, H2 by done. cbn. by rewrite delete_insert_id.
    + by rewrite !lookup_alter_ne by done.
Qed.

(** What follows the renaming in [rename_file]: [dirs] are the new names. *)
Lemma rename_commit_promised {A} fs0 p1 d1 dir1 n1 p2 d2 dir2 n2 i w expected (receipt : A) :
  entry_of fs0 p1 d1 dir1 -> entry_of fs0 p2 d2 dir2 -> dir1 !! n1 = Some i -> dir2 !! n2 = None ->
  let dirs := alter (insert n2 i) d2 (alter (delete n1) d1 (fs_dirs fs0)) in
  let E fs' := moves fs0 dirs fs' in
  w = with_dirs fs0 dirs ->
  interpret promised
    (moved ⇐ metadata_at p2 n2;
     match moved with
     | Err error => roll_back p2 n2 p1 n1 error
     | Ok moved =>
         if negb (same_file expected moved) then roll_back p2 n2 p1 n1 EBackendFailed
         else
           _ ↢ sync_directory p1;
           _ ↢ (if negb (bool_decide (p1 = p2)) then sync_directory p2 else pure ());
           pure receipt
     end) w (settled fs0 E) (either fs0 E).
Proof.
  intros He1 He2 Hn1 Hn2 dirs E ->.
  assert (forall fs', grows (with_dirs fs0 dirs) fs' -> E fs') as HE.
  { intros fs' [R D Da O P]. cbn in *. split; [by rewrite D|]. intros j data. by rewrite Da. }
  assert (forall error w1, grows (with_dirs fs0 dirs) w1 ->
    interpret promised (@roll_back A p2 n2 p1 n1 error) w1 (settled fs0 E) (either fs0 E)) as Hback.
  { intros error w1 Hg. apply interpret_pbind; [exact _|]. apply interpret_ask; [exact _|]. intros answer w2 Hd.
    cbn [lift interpret fail settled]. destruct answer as [u|e]; [left|right; cbn in Hd; subst; by apply HE].
    destruct Hd as (d2' & dir2' & d1' & dir1' & i' & [Ho2 Hd2] & [Ho1 Hd1] & Hi & _ & ->).
    destruct He1 as [Ho1' Hd1'], He2 as [Ho2' Hd2'].
    assert (d1' = d1) as ->.
    { pose proof (grows_object _ _ _ _ Hg (Ho1' : object (with_dirs fs0 dirs) p1 = Some d1)). congruence. }
    assert (d2' = d2) as ->.
    { pose proof (grows_object _ _ _ _ Hg (Ho2' : object (with_dirs fs0 dirs) p2 = Some d2)). congruence. }
    rewrite (gr_dirs _ _ Hg) in Hd2. cbn in Hd2. unfold dirs in Hd2. rewrite lookup_alter_eq in Hd2.
    destruct (alter (delete n1) d1 (fs_dirs fs0) !! d2) as [x|]; [|done]. injection Hd2 as <-.
    rewrite lookup_insert_eq in Hi. injection Hi as <-. split; cbn.
    - rewrite (gr_dirs _ _ Hg). cbn. unfold dirs. by rewrite (rename_back _ _ _ _ _ _ dir1 dir2).
    - intros j data. by rewrite (gr_data _ _ Hg). }
  apply looks_then; [apply metadata_at_looks|intros w1 Hg; right; by apply HE|].
  intros moved w1 Hg. destruct moved as [moved|error]; [|by apply Hback]. destruct (negb _); [by apply Hback|].
  apply finish_looks; [|by apply HE|intros w2 Hg2; apply HE; by etransitivity].
  apply only_looks_try; [apply sync_directory_looks|]. intros []. apply only_looks_try; [|by intros []].
  destruct (negb _); [apply sync_directory_looks|done].
Qed.

Lemma rename_file_settles rename :
  interpret promised (rename_file request rename) fs
    (settled fs (intended request fs (RenameFile rename))) (either fs (intended request fs (RenameFile rename))).
Proof.
  unfold rename_file. destruct (filesystem_scope request) as [scope|error]; [|by left; apply grows_kept].
  cbn [lift try pbind].
  eapply interpret_try; [exact _|apply open_mount_promised|apply either_grows| |intros e w [Hg _]; by apply either_grows].
  intros root fs1 [Hg1 Hr]. destruct (Hr root eq_refl) as (start & Hm & Ho). clear Hr.
  eapply interpret_try; [exact _|by apply open_parent_promised| | |intros e w [Hg _]; apply either_grows; by etransitivity].
  { intros w Hg. apply either_grows. by etransitivity. }
  intros [p1 n1] fs2 [Hg2 Hp1]. destruct (Hp1 _ _ eq_refl) as (d1 & Hb1 & Ho1). clear Hp1.
  assert (grows fs fs2) as Hg02 by (by etransitivity).
  eapply interpret_try; [exact _|apply open_parent_promised, (grows_object _ _ _ _ Hg2 Ho)| | |intros e w [Hg _]; apply either_grows; by etransitivity].
  { intros w Hg. apply either_grows. by etransitivity. }
  intros [p2 n2] fs3 [Hg3 Hp2]. destruct (Hp2 _ _ eq_refl) as (d2 & Hb2 & Ho2). clear Hp2.
  assert (grows fs fs3) as Hg03 by (by etransitivity). assert (grows fs1 fs3) as Hg13 by (by etransitivity).
  assert (forall path d n fs', grows fs fs' -> below fs' start path d n -> below fs start path d n) as Hbelow.
  { intros path d n fs' Hg (p & Hp & Hr & Hf). exists p. split; [done|]. split; [|done]. by rewrite (grows_resolve fs fs') in Hr. }
  apply Hbelow in Hb1; [|done]. apply Hbelow in Hb2; [|done].
  apply looks_try; [unfold open_at_beneath; looking| | |].
  1-2: intros; apply either_grows; by etransitivity.
  intros source fs4 Hg4. apply looks_try; [apply validate_regular_file_looks| | |].
  1-2: intros; apply either_grows; do 2 (etransitivity; [done|]); done.
  intros expected fs5 Hg5. apply looks_try; [apply check_cancelled_looks| | |].
  1-2: intros; apply either_grows; do 3 (etransitivity; [done|]); done.
  intros _ fs0 Hg6. assert (grows fs3 fs0) as Hg30 by (do 2 (etransitivity; [done|]); done).
  assert (grows fs fs0) as Hg by (by etransitivity).
  apply interpret_pbind; [exact _|]. apply interpret_ask; [exact _|]. intros answer fs7 Hd. cbn [lift interpret].
  destruct answer as [u|error]; cbn [map_err interpret fail]; [|cbn in Hd; subst; by apply either_grows].
  destruct Hd as (d1' & dir1 & d2' & dir2 & i & He1 & He2 & Hn1 & Hn2 & ->).
  assert (d1' = d1) as ->.
  { destruct He1 as [He1 _]. rewrite (grows_object _ _ _ _ Hg30 (grows_object _ _ _ _ Hg3 Ho1)) in He1. by injection He1. }
  assert (d2' = d2) as ->.
  { destruct He2 as [He2 _]. rewrite (grows_object _ _ _ _ Hg30 Ho2) in He2. by injection He2. }
  eapply (settled_from fs0); [done| |by eapply (rename_commit_promised fs0 p1 d1 dir1 n1 p2 d2 dir2 n2 i)].
  intros fs' [N K]. destruct He1 as [_ He1], He2 as [_ He2]. rewrite (gr_dirs _ _ Hg) in *.
  exists d1, dir1, n1, d2, dir2, n2, i. split; [by exists start|]. split; [by exists start|]. do 4 (split; [done|]).
  split; [done|]. intros j data Hj. apply K. by rewrite (gr_data _ _ Hg).
Qed.

Lemma create_directory_settles path :
  interpret promised (create_directory request path) fs
    (settled fs (intended request fs (CreateDir path))) (either fs (intended request fs (CreateDir path))).
Proof.
  apply promised_place; [apply either_grows|intros e; apply either_grows|].
  intros parent name' d fs1 Hg1 Hl Hd. apply looks_try; [apply check_cancelled_looks| | |].
  1-2: intros; apply either_grows; by etransitivity.
  intros _ fs0 Hg2. assert (grows fs fs0) as Hg by (by etransitivity).
  apply interpret_ask; [exact _|]. intros answer fs3 Hd3. cbn [lift interpret].
  destruct answer as [u|error]; cbn [map_err try pbind interpret fail]; [|cbn in Hd3; subst; by apply either_grows].
  destruct Hd3 as (d' & dir & i & [Ho Hdir] & Hfree & Hu & ->).
  rewrite (grows_object _ _ _ _ Hg2 Hd) in Ho. injection Ho as <-.
  assert (forall fs', grows (with_dirs fs0 (<[i := ∅]> (<[d := <[name' := i]> dir]> (fs_dirs fs0)))) fs' ->
    intended request fs (CreateDir path) fs') as HE.
  { intros fs' [R D A O P]. cbn in *. rewrite (gr_dirs _ _ Hg) in *. exists d, dir, name', i.
    split; [done|]. split; [done|]. split; [done|]. split; [by eapply grows_unused|].
    split; [by rewrite D|]. intros j data. by rewrite A, (gr_data _ _ Hg). }
  apply finish_looks; [|by apply HE|done].
  do 2 (apply only_looks_try; [first [done|apply sync_directory_looks]|intros []]). done.
Qed.
End Mutations.

(** ** All or nothing *)

Lemma mutate_settles {Identity} (request : BackendRequest Identity) rounds fs mutation :
  decode_and_authorize request = Ok mutation ->
  interpret promised (mutate rounds request mutation) fs
    (settled fs (intended request fs mutation)) (either fs (intended request fs mutation)).
Proof.
  intros H. unfold decode_and_authorize in H. inv_ok. unfold check_mutation in *.
  destruct mutation as [write|write|write|path|rename|path]; cbn [mutate]; inv_ok;
    repeat match goal with u : () |- _ => destruct u end.
  - apply create_file_settles. intros name. by eapply validated_name.
  - apply replace_file_settles. intros name. by eapply validated_name.
  - apply append_file_settles. intros name. by eapply validated_name.
  - apply delete_file_settles. intros name. by eapply validated_name.
  - apply rename_file_settles.
  - apply create_directory_settles.
Qed.

Lemma located_grows {Identity} (request : BackendRequest Identity) fs fs1 mount path d name :
  grows fs fs1 -> located request fs1 mount path d name -> located request fs mount path d name.
Proof.
  intros Hg (root & (binding & mp & Hb & Hmp & Hr) & (p & Hp & Hd & Hf)).
  rewrite (grows_resolve fs fs1), (gr_root _ _ Hg) in Hr by done. rewrite (grows_resolve fs fs1) in Hd by done.
  exists root. split; [by exists binding, mp|by exists p].
Qed.
Lemma writes_grows fs fs1 d dir name i content fs' :
  grows fs fs1 -> writes fs1 d dir name i content fs' -> writes fs d dir name i content fs'.
Proof.
  intros Hg [D U N C K]. rewrite (gr_dirs _ _ Hg) in *. split; [done|by eapply grows_unused|done|done|].
  by rewrite (gr_data _ _ Hg) in K.
Qed.
Lemma moves_grows fs fs1 dirs fs' : grows fs fs1 -> moves fs1 dirs fs' -> moves fs dirs fs'.
Proof. intros Hg [N K]. split; [done|]. by rewrite (gr_data _ _ Hg) in K. Qed.
Lemma intended_grows {Identity} (request : BackendRequest Identity) fs fs1 mutation fs' :
  grows fs fs1 -> intended request fs1 mutation fs' -> intended request fs mutation fs'.
Proof.
  intros Hg. pose proof (gr_dirs _ _ Hg) as Hdirs. pose proof (gr_data _ _ Hg) as Hdata. destruct mutation; cbn [intended].
  - intros (d & dir & name & i & Hl & Hn & Hw). exists d, dir, name, i.
    split; [by eapply located_grows|]. split; [done|by eapply writes_grows].
  - intros (d & dir & name & i & j & Hl & Hn & Hw). exists d, dir, name, i, j.
    split; [by eapply located_grows|]. split; [done|by eapply writes_grows].
  - intros (d & dir & name & i & j & old & Hl & Hn & Ho & Hw). exists d, dir, name, i, j, old.
    split; [by eapply located_grows|]. split; [done|]. split; [congruence|by eapply writes_grows].
  - intros (d & dir & name & j & Hl & Hd & Hn & Hm). rewrite Hdirs in *. exists d, dir, name, j.
    split; [by eapply located_grows|]. split; [done|]. split; [done|by eapply moves_grows].
  - intros (d1 & dir1 & n1 & d2 & dir2 & n2 & i & Hl1 & Hl2 & Hd1 & Hd2 & Hn1 & Hn2 & Hm). rewrite Hdirs in *.
    exists d1, dir1, n1, d2, dir2, n2, i. split; [by eapply located_grows|]. split; [by eapply located_grows|].
    do 4 (split; [done|]). by eapply moves_grows.
  - intros (d & dir & name & i & Hl & Hd & Hn & Hu & Hm). rewrite Hdirs in *. exists d, dir, name, i.
    split; [by eapply located_grows|]. split; [done|]. split; [done|]. split; [by eapply grows_unused|by eapply moves_grows].
Qed.

(** C27: A mutation over a kernel that keeps its promises, alone in the
    directories it changes: it never panics; whichever calls fail and whenever
    it is cancelled, the visible names and the contents are either those there
    were or exactly those that were asked for; and success reports the
    latter. *)
Theorem mutation_atomic {Identity W} `{PromisingKernel W} (request : BackendRequest Identity) (rounds : nat) (w : W) :
  let '(outcome, w') := run (execute_mutation rounds request) w in
  outcome <> Panicked /\
  (kept (view w) (view w') \/
   exists mutation, decode_and_authorize request = Ok mutation /\ intended request (view w) mutation (view w')) /\
  (forall payload, outcome = Done (Ok payload) ->
   exists mutation, decode_and_authorize request = Ok mutation /\ intended request (view w) mutation (view w')).
Proof.
  set (E := fun fs' => exists mutation, decode_and_authorize request = Ok mutation /\ intended request (view w) mutation fs').
  assert (interpret promised (execute_mutation rounds request) (view w) (settled (view w) E) (either (view w) E)) as Hi.
  { apply looks_try; [apply check_cancelled_looks| | |].
    1-2: intros; left; by apply grows_kept.
    intros [] fs1 Hg. cbn [lift try pbind]. destruct (decode_and_authorize request) as [mutation|error] eqn:Em;
      [|left; by apply grows_kept]. cbn [pbind].
    assert (interpret promised (mutate rounds request mutation) fs1 (settled (view w) E) (either (view w) E)) as Hm.
    { eapply settled_from; [exact Hg| |by apply mutate_settles]. intros fs' Hm. exists mutation. split; [done|].
      by eapply intended_grows. }
    eapply interpret_try; [exact _|exact Hm|done| |by intros e fs' H'].
    intros receipt fs' HE. cbn [lift interpret]. destruct (decoded _); cbn [settled]; [done|by right]. }
  pose proof (promised_run _ w _ _ Hi) as Hr. destruct (run _ w) as [outcome w']. cbn [fst snd] in Hr.
  destruct outcome as [[payload|error]| |]; cbn [settled] in Hr; [|split; [done|split; [exact Hr|done]]|done|].
  - split; [done|]. split; [by right|done].
  - split; [done|]. split; [exact Hr|done].
Qed.

(** ** In memory *)

(** A mount [/home/user/notes] that holds [log] with three bytes. *)
Definition demo_files : Fs :=
  {| fs_root := 0%N;
     fs_dirs := list_to_map [(0%N, list_to_map [("home", 1%N)]); (1%N, list_to_map [("user", 2%N)]);
                             (2%N, list_to_map [("notes", 3%N)]); (3%N, list_to_map [("log", 4%N)])];
     fs_data := list_to_map [(4%N, [1; 2; 3]%N)];
     fs_open := ∅; fs_pos := ∅ |}.
Definition demo_memory : Memory := {| mem_fs := demo_files; mem_next := 10 |}.

Definition demo_request (operation : string) (payload : result SchemaError (list N)) : BackendRequest () :=
  {| bk_identity := (); bk_request_id := 1; bk_capability := FilesystemWriteV1;
     bk_authorized_scope := FilesystemWrite {|
       fw_mounts := [{| fm_label := "notes"; fm_suggested_location := None |}];
       fw_operations := [Create; Replace; Append; DeleteOp; Rename; CreateDirectory];
       fw_maximum_file_bytes := 100; fw_maximum_total_bytes_per_hour := 1000 |};
     bk_bindings := {| filesystem_mounts := [("notes", MountPath "/home/user/notes")]; secrets := [];
                       local_endpoints := []; clipboard := None |};
     bk_activation := None; bk_operation := operation;
     bk_payload := match payload with Ok bytes => bytes | Err _ => [] end |}.
Definition demo_append : BackendRequest () :=
  demo_request "append-file" (FilesystemWriteFile_encode {| fwf_mount := "notes"; fwf_path := "log"; fwf_bytes := [4; 5]%N |}).

(** The names and contents of the mount after a run. *)
Definition demo_notes (m : Memory) : list (string * option (list N)) :=
  match fs_dirs (mem_fs m) !! 3%N with
  | Some dir => (fun e => (e.1, fs_data (mem_fs m) !! e.2)) <$> map_to_list dir
  | None => []
  end.

Lemma mutation_atomic_witness :
  let '(outcome, m) := run (execute_mutation 100 demo_append) demo_memory in
  (exists payload, outcome = Done (Ok payload)) /\ demo_notes m = [("log", Some [1; 2; 3; 4; 5]%N)] /\
  exists mutation, decode_and_authorize demo_append = Ok mutation /\ intended demo_append demo_files mutation (mem_fs m).
Proof.
  pose proof (mutation_atomic demo_append 100 demo_memory) as H.
  assert (exists payload m, run (execute_mutation 100 demo_append) demo_memory = (Done (Ok payload), m) /\
    demo_notes m = [("log", Some [1; 2; 3; 4; 5]%N)]) as (payload & m & E & Hn).
  { eexists _, _. split; [vm_compute; reflexivity|]. vm_compute. reflexivity. }
  rewrite E in *. destruct H as (_ & _ & H). split; [by exists payload|]. split; [exact Hn|]. by apply (H payload).
Defined.
