(* ===== verification/Confine.v ===== *)
(** * Confine: what a mutation may do, whatever the kernel answers

    Other processes may change the files between any two calls of a mutation,
    so here the kernel answers as it likes.  [guarded] allows only calls that
    stay beneath the mount, change the named targets and the broker's own
    temporary files, and commit what is on disk; it also counts what is left
    behind.  At the end, a rival process in memory shows that the temporary
    file a failure may leave is left. *)

From Stdlib Require Import ZifyBool.
From S2P Require Import Prelude BTree Text Capability Grants Wire Protocol Lifecycle Executor Payload SchemaFiles Web Address Files Posix Mutation Tree Memory MutationSpec.
Import FilesWrite.

(** ** Sane answers *)

Definition is_handle (fd : Fd) : bool := match fd with Handle _ => true | AtRoot => false end.
(** Descriptors are descriptors, and no call transfers more than asked. *)
Definition sane (s : Syscall) : Answer s -> Prop :=
  match s return Answer s -> Prop with
  | Openat2 _ _ _ => fun a => match a with Ok fd => is_handle fd = true | Err _ => True end
  | Duplicate _ => fun a => match a with Ok fd => is_handle fd = true | Err _ => True end
  | CreateExclusive _ _ => fun a => match a with Ok fd => is_handle fd = true | Err _ => True end
  | Reopen _ => fun a => match a with Ok fd => is_handle fd = true | Err _ => True end
  | Pread _ count _ => fun a => match a with Ok bytes => (len bytes <= count)%N | Err _ => True end
  | WriteCall _ bytes => fun a => match a with Ok count => (count <= len bytes)%N | Err _ => True end
  | Pwrite _ bytes _ => fun a => match a with Ok count => (count <= len bytes)%N | Err _ => True end
  | _ => fun _ => True
  end.
Class SaneKernel (W : Type) `{Kernel W} := kernel_sane : forall s w, sane s (kernel_call s w).1.

(** ** The guard *)

Record Guard := {
  g_created : list Fd;            (* descriptors of the broker's own files *)
  g_unsynced : bool;              (* written since the last [fdatasync] *)
  g_left : list (Fd * string);    (* temporary names there are *)
  g_pending : list Fd;            (* directories changed since their [fsync] *)
  g_reopened : list (Fd * Fd);
  g_renamed : bool;
  g_rolled_back : bool;           (* a renaming after a renaming *)
  g_stuck : list (Fd * string);   (* names whose removal failed *)
}.
Definition guard_start : Guard :=
  {| g_created := []; g_unsynced := false; g_left := []; g_pending := []; g_reopened := [];
     g_renamed := false; g_rolled_back := false; g_stuck := [] |}.

Section Guarded.
(** The names the request is about. *)
Variable targets : list string.

Definition own_or_target (name : string) : bool := reserved name || elem_b name targets.
Definition allowed (g : Guard) (s : Syscall) : bool :=
  match s with
  | Openat2 AtRoot _ how => bool_decide (how = selected_directory)
  | Openat2 (Handle _) _ how => bool_decide (oh_resolve how = RESOLVE_FLAGS) && elem_b O_NOFOLLOW (oh_flags how)
  | CreateExclusive parent name => is_handle parent && reserved name
  | WriteCall fd _ | Pwrite fd _ _ => elem_b fd (g_created g)
  | Unlinkat parent name => is_handle parent && reserved name
  | Renameat2 p1 n1 p2 n2 flags =>
      is_handle p1 && is_handle p2 && own_or_target n1 && own_or_target n2
      && match flags with RENAME_EXCHANGE => reserved n1 | RENAME_NOREPLACE => true end
      && negb (reserved n1 && g_unsynced g)
  | Mkdirat parent name => is_handle parent && elem_b name targets
  | _ => true
  end.

Definition entry_is (p : Fd) (n : string) (e : Fd * string) : bool := bool_decide (e = (p, n)).
Definition drop_entry (p : Fd) (n : string) (l : list (Fd * string)) : list (Fd * string) :=
  List.filter (fun e => negb (entry_is p n e)) l.

Definition observe (g : Guard) (s : Syscall) : Answer s -> Guard :=
  match s return Answer s -> Guard with
  | CreateExclusive parent name => fun a =>
      match a with
      | Ok fd => {| g_created := fd :: g_created g; g_unsynced := true; g_left := (parent, name) :: g_left g;
                    g_pending := g_pending g; g_reopened := g_reopened g;
                    g_renamed := g_renamed g; g_rolled_back := g_rolled_back g; g_stuck := g_stuck g |}
      | Err _ => g
      end
  | WriteCall _ _ => fun _ =>
      {| g_created := g_created g; g_unsynced := true; g_left := g_left g; g_pending := g_pending g;
         g_reopened := g_reopened g; g_renamed := g_renamed g; g_rolled_back := g_rolled_back g; g_stuck := g_stuck g |}
  | Pwrite _ _ _ => fun _ =>
      {| g_created := g_created g; g_unsynced := true; g_left := g_left g; g_pending := g_pending g;
         g_reopened := g_reopened g; g_renamed := g_renamed g; g_rolled_back := g_rolled_back g; g_stuck := g_stuck g |}
  | Fdatasync fd => fun a =>
      {| g_created := g_created g;
         g_unsynced := if is_ok a && elem_b fd (g_created g) then false else g_unsynced g;
         g_left := g_left g; g_pending := g_pending g;
         g_reopened := g_reopened g; g_renamed := g_renamed g; g_rolled_back := g_rolled_back g; g_stuck := g_stuck g |}
  | Renameat2 p1 n1 p2 n2 flags => fun a =>
      {| g_created := g_created g; g_unsynced := g_unsynced g;
         g_left := match a, flags with
                   | Ok _, RENAME_NOREPLACE => drop_entry p1 n1 (g_left g) ++ (if reserved n2 then [(p2, n2)] else [])
                   | _, _ => g_left g
                   end;
         g_pending := if is_ok a then p1 :: p2 :: g_pending g else g_pending g;
         g_reopened := g_reopened g;
         g_renamed := g_renamed g || is_ok a;
         g_rolled_back := g_rolled_back g || g_renamed g; g_stuck := g_stuck g |}
  | Unlinkat parent name => fun a =>
      match a with
      | Ok _ => {| g_created := g_created g; g_unsynced := g_unsynced g; g_left := drop_entry parent name (g_left g);
                   g_pending := parent :: g_pending g; g_reopened := g_reopened g;
                   g_renamed := g_renamed g; g_rolled_back := g_rolled_back g; g_stuck := g_stuck g |}
      | Err _ => {| g_created := g_created g; g_unsynced := g_unsynced g; g_left := g_left g;
                    g_pending := g_pending g; g_reopened := g_reopened g;
                    g_renamed := g_renamed g; g_rolled_back := g_rolled_back g;
                    g_stuck := (parent, name) :: g_stuck g |}
      end
  | Mkdirat parent name => fun a =>
      {| g_created := g_created g; g_unsynced := g_unsynced g; g_left := g_left g;
         g_pending := if is_ok a then parent :: g_pending g else g_pending g;
         g_reopened := g_reopened g; g_renamed := g_renamed g; g_rolled_back := g_rolled_back g; g_stuck := g_stuck g |}
  | Reopen fd => fun a =>
      match a with
      | Ok sync => {| g_created := g_created g; g_unsynced := g_unsynced g; g_left := g_left g;
                      g_pending := g_pending g; g_reopened := (sync, fd) :: g_reopened g;
                      g_renamed := g_renamed g; g_rolled_back := g_rolled_back g; g_stuck := g_stuck g |}
      | Err _ => g
      end
  | Fsync sync => fun a =>
      match a with
      | Ok _ => {| g_created := g_created g; g_unsynced := g_unsynced g; g_left := g_left g;
                   g_pending := List.filter (fun fd => negb (elem_b (sync, fd) (g_reopened g))) (g_pending g);
                   g_reopened := g_reopened g; g_renamed := g_renamed g; g_rolled_back := g_rolled_back g; g_stuck := g_stuck g |}
      | Err _ => g
      end
  | _ => fun _ => g
  end.

Definition guarded (s : Syscall) (g : Guard) (Q : Answer s -> Guard -> Prop) : Prop :=
  allowed g s = true /\ forall a, sane s a -> Q a (observe g s a).
#[export] Instance guarded_mono : Monotone guarded.
Proof. intros s g P Q HPQ [Ha HP]. split; [done|]. intros a Hs. by apply HPQ, HP. Qed.
End Guarded.

(** ** Rules *)

Section Rules.
Variable targets : list string.
Abbreviation inter := (interpret (guarded targets)).

(** Calls that the guard neither refuses nor records. *)
Definition quiet (s : Syscall) : bool :=
  match s with
  | Openat2 AtRoot _ how => bool_decide (how = selected_directory)
  | Openat2 (Handle _) _ how => bool_decide (oh_resolve how = RESOLVE_FLAGS) && elem_b O_NOFOLLOW (oh_flags how)
  | Fdatasync _ | Reopen _ | Fsync _ => false
  | _ => looks s
  end.
Fixpoint quietly {A} (p : Prog A) : Prop :=
  match p with
  | Ret _ | Starved => True
  | Panic => False
  | Call s k => quiet s = true /\ forall a, quietly (k a)
  end.
Lemma quietly_interpret {A} (p : Prog A) g : quietly p -> inter p g (fun _ g' => g' = g) (fun g' => g' = g).
Proof.
  induction p as [a| | |s k IH]; cbn; [done..|]. intros [Hs Hk]. split.
  - destruct s as [[|h]| | | | | | | | | | | | | | | | | | | | | | |]; try done.
  - intros a _. assert (observe g s a = g) as ->; [|by apply IH].
    destruct s as [[|h]| | | | | | | | | | | | | | | | | | | | | | |]; done.
Qed.
Lemma quietly_pbind {A B} (p : Prog A) (f : A -> Prog B) : quietly p -> (forall a, quietly (f a)) -> quietly (pbind p f).
Proof. intros Hp Hf. induction p as [a| | |s k IH]; cbn in *; [done..|]. destruct Hp as [Hs Hk]. split; [done|]. intros a. by apply IH. Qed.
Lemma quietly_try {A B} (p : Io A) (f : A -> Io B) : quietly p -> (forall a, quietly (f a)) -> quietly (try p f).
Proof. intros Hp Hf. apply quietly_pbind; [done|]. by intros [a|e]. Qed.
Lemma quiet_then {A B} (p : Prog A) (f : A -> Prog B) g P (S : Guard -> Prop) :
  quietly p -> S g -> (forall a, inter (f a) g P S) -> inter (pbind p f) g P S.
Proof.
  intros Hp HS Hf. apply interpret_pbind; [exact _|].
  eapply interpret_mono; [exact _| | |by apply quietly_interpret]; [by intros a g' ->|by intros g' ->].
Qed.
Lemma quiet_try {A B} (p : Io A) (f : A -> Io B) g P (S : Guard -> Prop) :
  quietly p -> S g -> (forall e, P (Err e) g) -> (forall a, inter (f a) g P S) -> inter (try p f) g P S.
Proof. intros Hp HS HE Hf. apply quiet_then; [done..|]. intros [a|e]; [by apply Hf|by apply HE]. Qed.

Ltac quieting := repeat first
  [ apply quietly_try; [|intros ?] | apply quietly_pbind; [|intros ?]
  | progress (unfold lift, pure, fail, ask; cbn [quietly quiet looks]) | split; [reflexivity|intros ?] | exact I | assumption
  | match goal with
    | |- quietly (match ?r with _ => _ end) => destruct r
    | |- quietly (let '_ := ?r in _) => destruct r
    end ].

Lemma check_cancelled_quiet : quietly check_cancelled.
Proof. unfold check_cancelled. quieting. Qed.
Lemma descriptor_metadata_quiet e fd : quietly (descriptor_metadata e fd).
Proof. unfold descriptor_metadata. quieting. Qed.
Lemma validate_regular_file_quiet e fd maximum : quietly (validate_regular_file e fd maximum).
Proof. apply quietly_try; [apply descriptor_metadata_quiet|]. intros metadata. unfold u64_of. quieting. Qed.
Lemma metadata_at_quiet parent name : quietly (metadata_at parent name).
Proof. unfold metadata_at. quieting. Qed.
Lemma fill_random_quiet rounds random : quietly (fill_random rounds random).
Proof.
  revert random; induction rounds as [|n IH]; intros random; cbn [fill_random]; [by destruct (_ <=? _)%N|].
  destruct (_ <=? _)%N; [done|]. apply quietly_pbind; [by split|]. intros [[|]|[]]; cbn; auto.
Qed.
Lemma bound_path_quiet b : quietly (bound_path b).
Proof.
  destruct b as [path|directory relative]; cbn [bound_path]; [exact I|].
  unfold standard_directory_root, validate_xdg_runtime_directory, descriptor_metadata, or_home, home. quieting.
Qed.

(** Every descriptor that is opened is a descriptor. *)
Definition opened_from (g : Guard) (r : result BrokerErrorCode Fd) (g' : Guard) : Prop :=
  g' = g /\ forall fd, r = Ok fd -> is_handle fd = true.

Lemma open_at_beneath_guarded e root path flags g :
  is_handle root = true -> inter (open_at_beneath e root path flags) g (opened_from g) (eq g).
Proof.
  intros Hr. split.
  - destruct root as [|h]; [done|]. cbn. rewrite bool_decide_true by done. cbn. unfold elem_b.
    apply bool_decide_true, elem_of_app. right. right. left.
  - intros a Ha. cbn [interpret lift observe]. split; [done|]. intros fd Hfd. destruct a; [|done]. by injection Hfd as <-.
Qed.
Lemma open_mount_guarded {Identity} (request : BackendRequest Identity) mount g :
  inter (open_mount request mount) g (opened_from g) (eq g).
Proof.
  unfold open_mount. destruct (bt_get mount _) as [binding|]; cbn [ok_or lift try pbind]; [|done]. unfold open_bound_mount.
  apply quiet_try; [apply bound_path_quiet|done|done|]. intros path. destruct (normalized_absolute_path path); cbn [negb]; [|done].
  unfold c_string. destruct (contains_byte path _); [done|]. cbn [lift try pbind]. split; [by apply bool_decide_true|].
  intros a Ha. cbn [observe pbind interpret]. destruct a as [fd|error]; cbn [map_err lift try pbind]; [|done].
  apply (quiet_try (descriptor_metadata read_os_error fd)); [apply descriptor_metadata_quiet|done|done|].
  intros metadata. destruct (bool_decide _); cbn; (split; [done|]); [|done]. intros fd' [= <-]. exact Ha.
Qed.
Lemma open_parent_guarded root path g :
  is_handle root = true ->
  inter (open_parent root path) g
    (fun r g' => g' = g /\ forall fd name, r = Ok (fd, name) -> is_handle fd = true /\ file_name path = Some name) (eq g).
Proof.
  intros Hr. unfold open_parent. destruct (file_name path) as [name|]; cbn; [|done].
  unfold c_string. destruct (contains_byte name _); [done|]. cbn.
  destruct (path_parent path) as [parent|]; cbn; [|done].
  eapply (interpret_try _ _ _ _ (opened_from g) (eq g)); [|done| |by intros e g' [-> _]].
  - destruct (String.eqb parent "").
    + split; [done|]. intros a Ha. split; [done|]. intros fd Hfd. destruct a; [|done]. by injection Hfd as <-.
    + unfold open_beneath, c_string. destruct (contains_byte parent _); [done|].
      exact (open_at_beneath_guarded os_error root parent [O_PATH; O_DIRECTORY] g Hr).
  - intros fd g' [-> Hf]. split; [done|]. intros fd' name' [= <- <-]. split; [by apply Hf|done].
Qed.

(** ** A temporary file *)

(** After a failure, whatever is left could not be removed, or it was put
    back by a roll back. *)
Definition cleaned (g : Guard) : Prop := g_left g ⊆ g_stuck g \/ g_rolled_back g = true.
Definition tidy {A} (r : result BrokerErrorCode A) (g : Guard) : Prop :=
  match r with
  | Ok _ => g_left g = [] /\ g_pending g = []
  | Err _ => cleaned g
  end.
Definition anything (_ : Guard) : Prop := True.

Definition holding (parent : Fd) (tmp : string) (fd : Fd) (unsynced : bool) : Guard :=
  {| g_created := [fd]; g_unsynced := unsynced; g_left := [(parent, tmp)]; g_pending := []; g_reopened := [];
     g_renamed := false; g_rolled_back := false; g_stuck := [] |}.

Lemma drop_entry_same p n : drop_entry p n [(p, n)] = [].
Proof. unfold drop_entry, entry_is. cbn. by rewrite bool_decide_true. Qed.

Lemma cleaned_empty g : g_left g = [] -> cleaned g.
Proof. intros H. left. rewrite H. apply list_subseteq_nil. Qed.
Lemma cleaned_rolled_back g : g_rolled_back g = true -> cleaned g.
Proof. by right. Qed.
#[local] Hint Resolve cleaned_empty cleaned_rolled_back : core.
(** A removal leaves nothing behind, or a name it could not remove. *)
Lemma removal_cleans parent name g a : g_left g = [(parent, name)] -> cleaned (observe g (Unlinkat parent name) a).
Proof.
  intros H. destruct a; cbn; [apply cleaned_empty; cbn; rewrite H; apply drop_entry_same|].
  left. cbn. rewrite H. set_solver.
Qed.

Section Holding.
Context (parent : Fd) (tmp : string) (fd : Fd).
Hypothesis Hparent : is_handle parent = true.
Hypothesis Htmp : reserved tmp = true.

Lemma write_all_guarded rounds bytes :
  inter (write_all rounds fd bytes) (holding parent tmp fd true) (fun _ g => g = holding parent tmp fd true) anything.
Proof.
  revert bytes; induction rounds as [|rounds IH]; intros bytes; cbn [write_all]; destruct (len bytes =? 0)%N; try done.
  apply quiet_try; [apply check_cancelled_quiet|done|done|]. intros _. split; [by apply bool_decide_true; left|].
  intros a Ha. change (observe (holding parent tmp fd true) (WriteCall fd bytes) a) with (holding parent tmp fd true).
  destruct a as [count|error].
  - cbn [pbind]. destruct (count =? 0)%N; [done|]. cbn [sane] in Ha. destruct (len bytes <? count)%N eqn:E; [lia|]. apply IH.
  - destruct error; try done. apply IH.
Qed.
Lemma pwrite_all_at_guarded rounds bytes offset :
  inter (pwrite_all_at rounds fd bytes offset) (holding parent tmp fd true) (fun _ g => g = holding parent tmp fd true) anything.
Proof.
  revert bytes offset; induction rounds as [|rounds IH]; intros bytes offset; cbn [pwrite_all_at]; destruct (len bytes =? 0)%N; try done.
  apply quiet_try; [apply check_cancelled_quiet|done|done|]. intros _. destruct (_ <? offset)%N; [done|].
  split; [by apply bool_decide_true; left|]. intros a Ha.
  change (observe (holding parent tmp fd true) (Pwrite fd bytes offset) a) with (holding parent tmp fd true).
  destruct a as [count|error].
  - cbn [pbind]. destruct (count =? 0)%N; [done|]. cbn [sane] in Ha. destruct (len bytes <? count)%N eqn:E; [lia|].
    destruct (checked_add64 _ _); [|done]. apply IH.
  - destruct error; try done. apply IH.
Qed.
Lemma copy_from_guarded rounds budget source length offset :
  inter (copy_from rounds budget source fd length offset) (holding parent tmp fd true)
    (fun _ g => g = holding parent tmp fd true) anything.
Proof.
  revert offset; induction budget as [|budget IH]; intros offset; cbn [copy_from]; destruct (length <=? offset)%N; try done.
  apply quiet_try; [apply check_cancelled_quiet|done|done|]. intros _. cbv zeta. destruct (_ <? offset)%N; [done|].
  split; [done|]. intros a Ha.
  change (observe (holding parent tmp fd true) (Pread source (N.min (length - offset) COPY_BUFFER_BYTES) offset) a)
    with (holding parent tmp fd true).
  destruct a as [bytes|error].
  - cbn [pbind]. destruct (len bytes =? 0)%N; [done|]. cbn [sane] in Ha. destruct (COPY_BUFFER_BYTES <? len bytes)%N eqn:E; [lia|].
    eapply interpret_try; [exact _|apply pwrite_all_at_guarded|done| |by intros e g ->].
    intros [] g ->. destruct (checked_add64 _ _); [|done]. apply IH.
  - destruct error; try done. apply IH.
Qed.

Definition synced (r : result BrokerErrorCode ()) : Guard := holding parent tmp fd (negb (is_ok r)).
Lemma fdatasync_guarded :
  inter (fdatasync fd) (holding parent tmp fd true) (fun r g => g = synced r) anything.
Proof.
  split; [done|]. intros a _. unfold synced. unfold holding.
  assert (elem_b fd [fd] = true) as E by (apply bool_decide_true; left). cbn -[elem_b]. rewrite E. by destruct a.
Qed.
Lemma write_and_sync_guarded rounds bytes :
  inter (write_and_sync rounds fd bytes) (holding parent tmp fd true) (fun r g => g = synced r) anything.
Proof.
  eapply interpret_try; [exact _|apply write_all_guarded|done| |by intros e g ->]. intros [] g ->. apply fdatasync_guarded.
Qed.

Lemma discard_guarded {A} (error : BrokerErrorCode) unsynced :
  inter (_ ⇐ unlink parent tmp; @fail A error) (holding parent tmp fd unsynced) tidy anything.
Proof.
  split; [cbn; by rewrite Hparent, Htmp|]. intros a _. by apply removal_cleans.
Qed.
Lemma or_unlink_guarded {A B} (p : Io A) (f : A -> Io B) g :
  inter p g (fun r g' => match r with
    | Ok a => inter (f a) g' tidy anything
    | Err _ => exists unsynced, g' = holding parent tmp fd unsynced end) anything ->
  inter (or_unlink parent tmp p f) g tidy anything.
Proof.
  intros Hp. apply interpret_pbind; [exact _|]. revert Hp. apply interpret_mono; [exact _| |done].
  intros [a|e] g' H; [done|]. destruct H as [unsynced ->]. apply discard_guarded.
Qed.
Lemma or_unlink_quiet {A B} (p : Io A) (f : A -> Io B) unsynced :
  quietly p -> (forall a, inter (f a) (holding parent tmp fd unsynced) tidy anything) ->
  inter (or_unlink parent tmp p f) (holding parent tmp fd unsynced) tidy anything.
Proof.
  intros Hp Hf. apply or_unlink_guarded. eapply interpret_mono; [exact _| | |by apply quietly_interpret]; [|done].
  intros [a|e] g' ->; [apply Hf|by exists unsynced].
Qed.
End Holding.

(** The directory is synced at the end. *)
Lemma sync_directory_guarded (dir : Fd) g :
  inter (sync_directory dir) g
    (fun r g' => g_left g' = g_left g /\ g_rolled_back g' = g_rolled_back g /\
      (r = Ok () -> forall d, d ∈ g_pending g' -> d ∈ g_pending g /\ d <> dir)) anything.
Proof.
  split; [done|]. intros a _. cbn [observe pbind]. destruct a as [sync|error]; cbn [map_err lift try pbind]; [|done].
  split; [done|]. intros a _. cbn [interpret observe]. destruct a as [u|error]; cbn; [|done].
  split; [done|]. split; [done|]. intros _ d Hd. apply list_elem_of_In, filter_In in Hd as [Hd Hn].
  split; [by apply list_elem_of_In|]. intros ->. apply negb_true_iff, bool_decide_eq_false in Hn. apply Hn. left.
Qed.
Lemma sync_finish {A} (dir : Fd) (receipt : A) g :
  g_left g = [] -> (forall d, d ∈ g_pending g -> d = dir) ->
  inter (_ ↢ sync_directory dir; pure receipt) g tidy anything.
Proof.
  intros Hl Hp. eapply interpret_try; [exact _|apply sync_directory_guarded|done| |].
  - intros [] g' (Hl' & _ & Hp'). split; [by rewrite Hl'|]. destruct (g_pending g') as [|d l]; [done|].
    destruct (Hp' eq_refl d) as [Hd Hne]; [left|]. by apply Hp in Hd.
  - intros e g' (Hl' & _). apply cleaned_empty. by rewrite Hl'.
Qed.

(** ** The mutations *)

Lemma rename_at_guarded p1 n1 p2 n2 flags g (P : result BrokerErrorCode () -> Guard -> Prop) S :
  allowed targets g (Renameat2 p1 n1 p2 n2 flags) = true ->
  (forall a, P (map_err os_error a) (observe g (Renameat2 p1 n1 p2 n2 flags) a)) ->
  inter (rename_at p1 n1 p2 n2 flags) g P S.
Proof. intros Ha HP. split; [done|]. intros a _. apply HP. Qed.
Lemma own_reserved name : reserved name = true -> own_or_target targets name = true.
Proof. intros H. unfold own_or_target. by rewrite H. Qed.
Lemma own_target name : name ∈ targets -> own_or_target targets name = true.
Proof. intros H. unfold own_or_target, elem_b. by rewrite (bool_decide_true _ H), orb_true_r. Qed.
Ltac allowing := cbn [allowed];
  repeat match goal with
  | |- context [own_or_target _ ?n] => first [rewrite (own_reserved n) by assumption | rewrite (own_target n) by assumption]
  end;
  repeat match goal with H : is_handle _ = true |- _ => rewrite H | H : reserved _ = _ |- _ => rewrite H end; try reflexivity.

(** A second renaming is a roll back, whatever comes of it. *)
Lemma roll_back_guarded {A} p1 n1 p2 n2 flags g (k : result BrokerErrorCode () -> Io A) :
  allowed targets g (Renameat2 p1 n1 p2 n2 flags) = true -> g_renamed g = true ->
  (forall r g', g_rolled_back g' = true -> inter (k r) g' tidy anything) ->
  inter (pbind (rename_at p1 n1 p2 n2 flags) k) g tidy anything.
Proof.
  intros Ha Hr Hk. apply interpret_pbind; [exact _|]. apply rename_at_guarded; [done|]. intros a. apply Hk.
  cbn. by rewrite Hr, orb_true_r.
Qed.

Section Commits.
Context (parent : Fd) (tmp : string) (fd : Fd) (name : string).
Hypothesis Hparent : is_handle parent = true.
Hypothesis Htmp : reserved tmp = true.
Hypothesis Hname : reserved name = false.
Hypothesis Htarget : name ∈ targets.

Lemma create_commit_guarded {A} (metadata : Stat) (receipt : A) :
  inter
    (or_unlink parent tmp (rename_at parent tmp parent name RENAME_NOREPLACE) (fun _ =>
     committed ⇐ metadata_at parent name;
     if negb match committed with Ok m => same_file metadata m | Err _ => false end then
       rollback ⇐ rename_at parent name parent tmp RENAME_NOREPLACE;
       _ ⇐ (if is_ok rollback then unlink parent tmp else Ret ());
       fail EBackendFailed
     else _ ↢ sync_directory parent; pure receipt)) (holding parent tmp fd false) tidy anything.
Proof.
  apply (or_unlink_guarded parent tmp fd Hparent Htmp). apply rename_at_guarded; [allowing|]. intros [u|error]; cbn [map_err]; [|by exists false].
  set (g := observe _ _ _). assert (g_left g = []) as Hl.
  { cbn [g observe g_left holding]. by rewrite Hname, app_nil_r, drop_entry_same. }
  apply quiet_then; [apply metadata_at_quiet|done|]. intros committed. destruct (negb _).
  - apply roll_back_guarded; [allowing|done|]. intros r g' Hr. destruct (is_ok r); [|by apply cleaned_rolled_back].
    split; [allowing|]. intros a _. apply cleaned_rolled_back. by destruct a.
  - apply sync_finish; [done|]. intros d Hd. cbn in Hd. set_solver.
Qed.

Lemma exchange_commit_guarded {A} expected unchanged (receipt : A) :
  inter (_ ↢ exchange_and_remove parent tmp name expected unchanged; _ ↢ sync_directory parent; pure receipt)
    (holding parent tmp fd false) tidy anything.
Proof.
  eapply (interpret_try _ _ _ _ (fun r g => match r with
    | Ok _ => g_left g = [] /\ forall d, d ∈ g_pending g -> d = parent
    | Err _ => cleaned g end) anything); [|done| |by intros e g H].
  2: { intros u g [Hl Hp]. by apply sync_finish. }
  unfold exchange_and_remove. apply interpret_pbind; [exact _|]. apply rename_at_guarded; [allowing|].
  intros [u|error]; cbn [map_err].
  2: { split; [allowing|]. intros a _. by apply removal_cleans. }
  set (g := observe _ _ _). apply quiet_then; [apply metadata_at_quiet|done|]. intros swapped. cbv zeta. destruct (negb _).
  - apply interpret_pbind; [exact _|]. apply rename_at_guarded; [allowing|]. intros a.
    destruct swapped, a; cbn [map_err interpret fail]; by apply cleaned_rolled_back.
  - split; [allowing|]. intros a _. cbn [interpret lift]. destruct a; cbn [map_err].
    + split; [exact (drop_entry_same parent tmp)|]. intros d Hd. cbn in Hd. set_solver.
    + exact (removal_cleans parent tmp g (Err e) eq_refl).
Qed.
End Commits.

Lemma temporary_name_guarded rounds g :
  inter (temporary_name rounds) g (fun r g' => g' = g /\ forall name, r = Ok name -> reserved name = true) anything.
Proof.
  apply quiet_try; [apply fill_random_quiet|done|done|]. intros random. split; [done|]. intros name [= <-]. apply temporary_reserved.
Qed.
Lemma stage_guarded {A} rounds parent (f : string -> Fd -> Io A) :
  is_handle parent = true ->
  (forall tmp fd, reserved tmp = true -> inter (f tmp fd) (holding parent tmp fd true) tidy anything) ->
  inter (tmp ↢ temporary_name rounds; fd ↢ create_exclusive parent tmp; f tmp fd) guard_start tidy anything.
Proof.
  intros Hp Hf. eapply interpret_try; [exact _|apply temporary_name_guarded|done| |by intros e g [-> _]; apply cleaned_empty].
  intros tmp g [-> Ht]. specialize (Ht tmp eq_refl). apply interpret_pbind; [exact _|]. split; [allowing|].
  intros a Ha. cbn [interpret lift]. destruct a as [fd|error]; cbn [map_err interpret fail]; [by apply Hf|by left].
Qed.
Lemma place_guarded {Identity A} (request : BackendRequest Identity) mount path (f : Fd * string -> Io A) :
  (forall parent name, is_handle parent = true -> file_name path = Some name -> inter (f (parent, name)) guard_start tidy anything) ->
  inter (root ↢ open_mount request mount; opened ↢ open_parent root path; f opened) guard_start tidy anything.
Proof.
  intros Hf. eapply interpret_try; [exact _|apply open_mount_guarded|done| |by intros e g [-> _]; apply cleaned_empty].
  intros root g [-> Hr]. eapply interpret_try; [exact _|by apply open_parent_guarded, Hr|done| |by intros e g [-> _]; apply cleaned_empty].
  intros [parent name] g [-> Hp]. destruct (Hp _ _ eq_refl). by apply Hf.
Qed.
Lemma existing_guarded {A} parent name flags (f : Fd -> Io A) :
  is_handle parent = true -> (forall fd, inter (f fd) guard_start tidy anything) ->
  inter (existing ↢ open_at_beneath os_error parent name flags; f existing) guard_start tidy anything.
Proof.
  intros Hp Hf. eapply interpret_try; [exact _|by apply open_at_beneath_guarded|done| |by intros e g [-> _]; apply cleaned_empty].
  intros fd g [-> _]. apply Hf.
Qed.

Section Mutations.
Context {Identity : Type} (request : BackendRequest Identity) (rounds : nat).

(** What the guard asks of the name of a path. *)
Definition aimed (path : string) : Prop :=
  forall name, file_name path = Some name -> reserved name = false /\ name ∈ targets.

Lemma create_file_guarded write : aimed (fwf_path write) ->
  inter (create_file rounds request write) guard_start tidy anything.
Proof.
  intros Haim. apply place_guarded. intros parent name Hp Hf. destruct (Haim name Hf) as [Hn Ht].
  apply stage_guarded; [done|]. intros tmp fd Htmp. apply (or_unlink_guarded parent tmp fd Hp Htmp).
  eapply interpret_mono; [exact _| | |by apply write_and_sync_guarded]; [|done].
  intros [[]|e] g ->; [|by eexists]. cbn [synced is_ok negb].
  apply (or_unlink_quiet parent tmp fd Hp Htmp); [apply check_cancelled_quiet|]. intros _.
  apply (or_unlink_quiet parent tmp fd Hp Htmp); [apply descriptor_metadata_quiet|]. intros metadata.
  by apply create_commit_guarded.
Qed.
Lemma replace_file_guarded write : aimed (fwf_path write) ->
  inter (replace_file rounds request write) guard_start tidy anything.
Proof.
  intros Haim. unfold replace_file. destruct (filesystem_scope request) as [scope|]; [|by apply cleaned_empty].
  apply place_guarded. intros parent name Hp Hf. destruct (Haim name Hf) as [Hn Ht].
  apply existing_guarded; [done|]. intros existing. apply quiet_try; [apply validate_regular_file_quiet|done|by left|].
  intros expected. apply stage_guarded; [done|]. intros tmp fd Htmp. apply (or_unlink_guarded parent tmp fd Hp Htmp).
  eapply interpret_mono; [exact _| | |by apply write_and_sync_guarded]; [|done].
  intros [[]|e] g ->; [|by eexists]. cbn [synced is_ok negb].
  apply (or_unlink_quiet parent tmp fd Hp Htmp); [apply check_cancelled_quiet|]. intros _.
  by apply exchange_commit_guarded.
Qed.
Lemma append_file_guarded write : aimed (fwf_path write) ->
  inter (append_file rounds request write) guard_start tidy anything.
Proof.
  intros Haim. unfold append_file. destruct (filesystem_scope request) as [scope|]; [|by apply cleaned_empty].
  apply place_guarded. intros parent name Hp Hf. destruct (Haim name Hf) as [Hn Ht].
  apply existing_guarded; [done|]. intros existing. apply quiet_try; [apply validate_regular_file_quiet|done|by left|].
  intros expected. destruct (u64_of _) as [initial|]; cbn [lift try pbind]; [|by apply cleaned_empty].
  destruct (checked_add64 _ _) as [size|]; cbn [ok_or lift try pbind]; [|by apply cleaned_empty]. destruct (_ <? size)%N; [by apply cleaned_empty|].
  apply stage_guarded; [done|]. intros tmp fd Htmp. apply (or_unlink_guarded parent tmp fd Hp Htmp).
  eapply (interpret_mono (guarded targets)) with (P := fun _ g => g = holding parent tmp fd true) (S := anything); [| done |].
  2: { eapply interpret_try; [exact _|by apply copy_from_guarded|done| |by intros e g ->].
       intros [] g ->. by apply pwrite_all_at_guarded. }
  intros [[]|e] g ->; [|by exists true]. split; [done|]. intros a _.
  assert (observe (holding parent tmp fd true) (Fdatasync fd) a = holding parent tmp fd (negb (is_ok a))) as ->.
  { unfold holding. assert (elem_b fd [fd] = true) as E by (apply bool_decide_true; left). cbn -[elem_b]. rewrite E. by destruct a. }
  destruct a as [u|error]; cbn [is_ok negb pbind].
  - apply (or_unlink_quiet parent tmp fd Hp Htmp); [apply descriptor_metadata_quiet|]. intros after.
    destruct (negb _); [by apply discard_guarded|].
    apply (or_unlink_quiet parent tmp fd Hp Htmp); [apply check_cancelled_quiet|]. intros _.
    by apply exchange_commit_guarded.
  - split; [allowing|]. intros a _. by apply removal_cleans.
Qed.
Lemma delete_file_guarded path : aimed (fp_path path) ->
  inter (delete_file rounds request path) guard_start tidy anything.
Proof.
  intros Haim. unfold delete_file. destruct (filesystem_scope request) as [scope|]; [|by apply cleaned_empty].
  apply place_guarded. intros parent name Hp Hf. destruct (Haim name Hf) as [Hn Ht].
  apply existing_guarded; [done|]. intros existing. apply quiet_try; [apply validate_regular_file_quiet|done|by left|].
  intros expected. apply quiet_try; [apply check_cancelled_quiet|done|by left|]. intros _.
  eapply interpret_try; [exact _|apply temporary_name_guarded|done| |by intros e g [-> _]; apply cleaned_empty].
  intros quarantine g [-> Hq]. specialize (Hq quarantine eq_refl).
  apply interpret_pbind; [exact _|]. apply rename_at_guarded; [allowing|]. intros [u|error]; cbn [map_err]; [|by apply cleaned_empty].
  assert (g_left (observe guard_start (Renameat2 parent name parent quarantine RENAME_NOREPLACE) (Ok u)) = [(parent, quarantine)]) as Hl.
  { cbn. by rewrite Hq. }
  set (g := observe _ _ _) in *.
  apply quiet_then; [apply metadata_at_quiet|done|]. intros [moved|error].
  - destruct (negb _).
    + apply roll_back_guarded; [allowing|done|]. intros r g' Hr. by apply cleaned_rolled_back.
    + apply interpret_pbind; [exact _|]. split; [allowing|]. intros a _. cbn [interpret lift]. destruct a; cbn [map_err].
      * apply sync_finish; [cbn [observe g_left]; rewrite Hl; apply drop_entry_same|]. intros d Hd. cbn in Hd. set_solver.
      * exact (removal_cleans parent quarantine g (Err e) Hl).
  - apply roll_back_guarded; [allowing|done|]. intros r g' Hr. by apply cleaned_rolled_back.
Qed.
Lemma rename_file_guarded rename : aimed (fr_source rename) -> aimed (fr_destination rename) ->
  inter (rename_file request rename) guard_start tidy anything.
Proof.
  intros Haim1 Haim2. unfold rename_file. destruct (filesystem_scope request) as [scope|]; [|by apply cleaned_empty]. cbn [lift try pbind].
  eapply interpret_try; [exact _|apply open_mount_guarded|done| |by intros e g [-> _]; apply cleaned_empty]. intros root g [-> Hr].
  specialize (Hr root eq_refl).
  eapply interpret_try; [exact _|by apply open_parent_guarded|done| |by intros e g [-> _]; apply cleaned_empty].
  intros [p1 n1] g [-> H1]. destruct (H1 _ _ eq_refl) as [Hp1 Hf1]. destruct (Haim1 n1 Hf1) as [Hn1 Ht1].
  eapply interpret_try; [exact _|by apply open_parent_guarded|done| |by intros e g [-> _]; apply cleaned_empty].
  intros [p2 n2] g [-> H2]. destruct (H2 _ _ eq_refl) as [Hp2 Hf2]. destruct (Haim2 n2 Hf2) as [Hn2 Ht2].
  apply existing_guarded; [done|]. intros source. apply quiet_try; [apply validate_regular_file_quiet|done|by left|].
  intros expected. apply quiet_try; [apply check_cancelled_quiet|done|by left|]. intros _.
  apply interpret_pbind; [exact _|]. apply rename_at_guarded; [allowing|]. intros [u|error]; cbn [map_err]; [|by apply cleaned_empty].
  assert (g_left (observe guard_start (Renameat2 p1 n1 p2 n2 RENAME_NOREPLACE) (Ok u)) = []) as Hl by (cbn; by rewrite Hn2).
  set (g := observe _ _ _) in *.
  apply quiet_then; [apply metadata_at_quiet|done|]. intros [moved|error];
    [|apply roll_back_guarded; [allowing|done|]; intros r g' Hr'; by apply cleaned_rolled_back].
  destruct (negb _); [apply roll_back_guarded; [allowing|done|]; intros r g' Hr'; by apply cleaned_rolled_back|].
  eapply interpret_try; [exact _|apply sync_directory_guarded|done| |intros e g' (Hl' & _); apply cleaned_empty; by rewrite Hl'].
  intros [] g' (Hl' & _ & Hpend). specialize (Hpend eq_refl). rewrite Hl in Hl'.
  assert (forall d, d ∈ g_pending g' -> d = p2) as Hd.
  { intros d Hd. apply Hpend in Hd as [Hd Hne]. cbn in Hd. set_solver. }
  destruct (bool_decide_reflect (p1 = p2)) as [->|Hne]; cbn [negb].
  - split; [done|]. destruct (g_pending g') as [|d l]; [done|]. destruct (Hpend d) as [_ Hx]; [left|]. specialize (Hd d). set_solver.
  - by apply sync_finish.
Qed.
Lemma create_directory_guarded path : aimed (fp_path path) ->
  inter (create_directory request path) guard_start tidy anything.
Proof.
  intros Haim. apply place_guarded. intros parent name Hp Hf. destruct (Haim name Hf) as [Hn Ht].
  apply quiet_try; [apply check_cancelled_quiet|done|by left|]. intros _. split.
  - cbn [allowed]. rewrite Hp. unfold elem_b. by rewrite (bool_decide_true _ Ht).
  - intros a _. cbn [pbind]. destruct a; cbn [map_err lift try pbind]; [|by apply cleaned_empty].
    apply (sync_finish parent (receipt 0 None)); [done|]. intros d Hd. cbn in Hd. set_solver.
Qed.
End Mutations.
End Rules.

(** ** Every mutation *)

(** The names of what a mutation is about. *)
Definition mutation_paths (mutation : AuthorizedMutation) : list string :=
  match mutation with
  | CreateFile write | ReplaceFile write | AppendFile write => [fwf_path write]
  | DeleteFile path | CreateDir path => [fp_path path]
  | RenameFile rename => [fr_source rename; fr_destination rename]
  end.
Definition mutation_targets {Identity} (request : BackendRequest Identity) : list string :=
  match decode_and_authorize request with
  | Ok mutation => omap file_name (mutation_paths mutation)
  | Err _ => []
  end.

Section Top.
Context {Identity : Type} (request : BackendRequest Identity).

Lemma authorized_aims mutation path :
  decode_and_authorize request = Ok mutation -> path ∈ mutation_paths mutation ->
  aimed (mutation_targets request) path.
Proof.
  intros H Hp name Hn. split.
  - unfold decode_and_authorize in H. inv_ok. unfold check_mutation in *.
    destruct mutation; inv_ok; cbn [mutation_paths] in Hp; set_unfold in Hp;
      repeat match goal with u : () |- _ => destruct u end; destruct_or?; subst; (eapply validated_name; [|exact Hn]; eassumption).
  - unfold mutation_targets. rewrite H. apply list_elem_of_omap. by exists path.
Qed.
Lemma mutate_guarded rounds mutation :
  decode_and_authorize request = Ok mutation ->
  interpret (guarded (mutation_targets request)) (mutate rounds request mutation) guard_start tidy anything.
Proof.
  intros H. pose proof (fun path => authorized_aims mutation path H) as Haim.
  destruct mutation; cbn [mutate mutation_paths] in *;
    [apply create_file_guarded|apply replace_file_guarded|apply append_file_guarded|apply delete_file_guarded
    |apply rename_file_guarded|apply create_directory_guarded]; apply Haim; set_solver.
Qed.

(** C29: Whatever the kernel answers and other processes do, a mutation stays
    within its request: it opens the mount without following symlinks and
    everything else beneath it, changes no names but its targets and the
    broker's own, writes only to files it created, never renames one of them
    before its contents are on disk, replaces a file only by exchange, and
    does not panic.  When it succeeds no temporary file is left and every
    directory it changed is synced; when it fails one is left only when its
    own removal failed or after a roll back. *)
Theorem mutation_confined (rounds : nat) :
  interpret (guarded (mutation_targets request)) (execute_mutation rounds request) guard_start tidy anything.
Proof.
  unfold execute_mutation. apply quiet_try; [apply check_cancelled_quiet|done|by left|]. intros [].
  destruct (decode_and_authorize request) as [mutation|error] eqn:Em; cbn [lift try pbind]; [|by apply cleaned_empty].
  eapply interpret_try; [exact _|by apply mutate_guarded|done| |by intros e g H].
  intros receipt g Hg. cbn [lift interpret]. destruct (decoded _); cbn [tidy]; [done|]. apply cleaned_empty, Hg.
Qed.
End Top.

(** ** A rival *)

(** Memory with another process that puts its own file in the place of [log]
    right before a mutation exchanges it. *)
Record Racing := { race_memory : Memory; race_done : bool }.
Definition rival (m : Memory) : Memory :=
  let fs := mem_fs m in
  {| mem_fs := with_dirs (with_data fs (<[99%N := [7]%N]> (fs_data fs)) (fs_pos fs))
                 (alter (insert "log" 99%N) 3%N (fs_dirs fs));
     mem_next := mem_next m |}.
Definition racing_call (s : Syscall) (w : Racing) : Answer s * Racing :=
  let strikes := match s with Renameat2 _ _ _ _ RENAME_EXCHANGE => negb (race_done w) | _ => false end in
  let m := if strikes then rival (race_memory w) else race_memory w in
  let '(answer, m) := memory_call m s in
  (answer, {| race_memory := m; race_done := race_done w || strikes |}).
#[export] Instance racing_kernel : Kernel Racing := racing_call.

Definition demo_replace : BackendRequest () :=
  demo_request "replace-file" (FilesystemWriteFile_encode {| fwf_mount := "notes"; fwf_path := "log"; fwf_bytes := [4; 5]%N |}).

(** When another process replaces the file between the opening and the
    exchange, the replacement fails, restores the other's file and leaves its
    own temporary file behind, with everything that was to be written. *)
Theorem rolled_back_replacement_leaves_temporary :
  let '(outcome, w) := run (execute_mutation 100 demo_replace) {| race_memory := demo_memory; race_done := false |} in
  outcome = Done (Err EBackendFailed) /\
  match filter (fun e => reserved e.1 = false) (demo_notes (race_memory w)),
        filter (fun e => reserved e.1 = true) (demo_notes (race_memory w)) with
  | [log], [(_, contents)] => log = ("log", Some [7]%N) /\ contents = Some [4; 5]%N
  | _, _ => False
  end.
Proof. vm_compute. done. Qed.
