(* ===== verification/Reads.v ===== *)
(** * Reads: the file read backend

    Models the execution half of [filesystem.rs] of
    [crates/touchbar-plugin-supervisor/src] as programs over the system calls
    of [Posix]: reading a part of a file, listing a directory, and the worker
    that streams a file to a resource. *)

From Stdlib Require Import ZifyBool.
From S2P Require Import Prelude BTree Text Capability Grants Wire Protocol Lifecycle Executor Payload SchemaFiles Web Address Files Posix Mutation Tree Memory MutationSpec Confine.
Import FilesRead.

Definition MAXIMUM_SCANNED_DIRECTORY_ENTRIES : N := 4096.

(** The order of the names of two entries. *)
Definition name_le (left right : FilesystemEntry) : bool := key_le fe_name left right.

Section Requests.
Context {Identity : Type} (request : BackendRequest Identity).

Definition filesystem_scope : result BrokerErrorCode FilesystemReadScope :=
  match bk_authorized_scope request with
  | FilesystemRead scope => Ok scope
  | _ => Err EInvalidRequest
  end.

Definition mount_root (mount : string) : result BrokerErrorCode FilesystemMountBinding :=
  ok_or EOutOfScope (bt_get mount (filesystem_mounts (bk_bindings request))).

(** ** Parts of files *)

Definition read_file_with_limit (wanted : FilesystemReadFile) (maximum_file_bytes : N) : Io FilesystemFileChunk :=
  binding ↢ lift (mount_root (frf_mount wanted));
  root ↢ open_bound_mount binding;
  file ↢ open_beneath read_os_error root (frf_path wanted) [O_RDONLY; O_NONBLOCK];
  metadata ↢ validate_regular_file read_os_error file maximum_file_bytes;
  total_size ↢ lift (u64_of (st_size metadata));
  _ ↢ check_cancelled;
  if (i64_max <? frf_offset wanted)%N then fail EInvalidRequest else
  answer ⇐ ask (Pread file (frf_maximum_bytes wanted) (frf_offset wanted));
  bytes ↢ lift (map_err read_os_error answer);
  _ ↢ check_cancelled;
  let end_ := sat_add64 (frf_offset wanted) (len bytes) in
  pure {| ffc_offset := frf_offset wanted; ffc_total_size := total_size;
          ffc_eof := (total_size <=? end_)%N; ffc_bytes := bytes |}.

Definition read_file (wanted : FilesystemReadFile) : Io FilesystemFileChunk :=
  scope ↢ lift filesystem_scope;
  read_file_with_limit wanted (fr_maximum_file_bytes scope).

Definition execute_appearance_read (wanted : FilesystemReadFile) (scope : AppearanceProvideScope) : Io FilesystemFileChunk :=
  read_file_with_limit wanted (ap_maximum_file_bytes scope).

(** ** Directories *)

(** What a listing shows of one name: none for what it skips. *)
Definition listed_entry (scope : FilesystemReadScope) (device : N) (name : string) (metadata : Stat)
  : option FilesystemEntry :=
  if negb (st_dev metadata =? device)%N then None else
  let entry kind := {| fe_name := name; fe_kind := kind;
                       fe_size := if (0 <=? st_size metadata)%Z then Z.to_N (st_size metadata) else 0%N |} in
  match st_format metadata with
  | S_IFREG => if elem_b Capability.RegularFile (fr_kinds scope) then Some (entry RegularFile) else None
  | S_IFDIR => if elem_b Capability.Directory (fr_kinds scope) then Some (entry Directory) else None
  | OtherFormat => None
  end.
Definition skipped_name (name : string) : bool :=
  String.eqb name "." || String.eqb name ".." || negb (utf8_valid (string_bytes name)).

Section Scan.
Context (scope : FilesystemReadScope) (device : N) (directory : Fd) (limit : N).

Fixpoint scan (rounds : nat) (scanned : N) (entries : list FilesystemEntry) : Io (list FilesystemEntry * bool) :=
  match rounds with
  | O => Starved
  | S rounds =>
      _ ↢ check_cancelled;
      name ⇐ ask (Readdir directory);
      match name with
      | None => pure (entries, false)
      | Some name =>
          let scanned := (scanned + 1)%N in
          if (MAXIMUM_SCANNED_DIRECTORY_ENTRIES <? scanned)%N then pure (entries, true)
          else if skipped_name name then scan rounds scanned entries
          else
            metadata ⇐ ask (Fstatat directory name);
            match metadata with
            | Err _ => scan rounds scanned entries
            | Ok metadata =>
                match listed_entry scope device name metadata with
                | None => scan rounds scanned entries
                | Some entry =>
                    if (len entries =? limit)%N then pure (entries, true)
                    else scan rounds scanned (entries ++ [entry])
                end
            end
      end
  end.
End Scan.

Definition list_directory (wanted : FilesystemListDirectory) : Io FilesystemDirectoryEntries :=
  scope ↢ lift filesystem_scope;
  binding ↢ lift (mount_root (fld_mount wanted));
  root ↢ open_bound_mount binding;
  root_metadata ↢ descriptor_metadata read_os_error root;
  let relative := if String.eqb (fld_path wanted) "" then "." else fld_path wanted in
  directory ↢ open_beneath read_os_error root relative [O_RDONLY; O_DIRECTORY; O_NONBLOCK];
  metadata ↢ descriptor_metadata read_os_error directory;
  if negb (st_dev metadata =? st_dev root_metadata)%N then fail EOutOfScope else
  stream ⇐ ask (Fdopendir directory);
  _ ↢ lift (map_err read_os_error stream);
  found ↢ scan scope (st_dev metadata) directory (fld_maximum_entries wanted)
            (N.to_nat MAXIMUM_SCANNED_DIRECTORY_ENTRIES + 1) 0 [];
  pure {| fde_entries := sort_by name_le found.1; fde_truncated := found.2 |}.

(** [Backend::execute]. *)
Definition execute_read : Io (list N) :=
  _ ↢ check_cancelled;
  operation ↢ lift (decode_and_authorize request);
  match operation with
  | ReadFile wanted => chunk ↢ read_file wanted; lift (map_err (fun _ => EBackendFailed) (FilesystemFileChunk_encode chunk))
  | List wanted => entries ↢ list_directory wanted; lift (map_err (fun _ => EBackendFailed) (FilesystemDirectoryEntries_encode entries))
  end.

(** ** Streams *)

(** The rounds of the loop. *)
Context (rounds : nat).

Definition emit (event : FilesystemStreamEvent) : Io () :=
  payload ↢ lift (decoded (FilesystemStreamEvent_encode event));
  ask (EmitBuffered payload).

Fixpoint stream_from (rounds : nat) (file : Fd) (total_size target_bytes offset total_bytes : N) (reached_eof : bool)
  : Io (N * N * bool) :=
  if (target_bytes <=? total_bytes)%N then pure (offset, total_bytes, reached_eof) else
  match rounds with
  | O => Starved
  | S rounds =>
      _ ↢ check_cancelled;
      let requested := N.min (target_bytes - total_bytes) MAX_FILE_STREAM_CHUNK_BYTES in
      if (i64_max <? offset)%N then fail EInvalidRequest else
      answer ⇐ ask (Pread file requested offset);
      match answer with
      | Err EINTR => stream_from rounds file total_size target_bytes offset total_bytes reached_eof
      | Err error => fail (read_os_error error)
      | Ok bytes =>
          if (len bytes =? 0)%N then pure (offset, total_bytes, true) else
          _ ↢ emit (FileChunk offset bytes);
          offset ↢ lift (ok_or EQuotaExceeded (checked_add64 offset (len bytes)));
          total_bytes ↢ lift (ok_or EQuotaExceeded (checked_add64 total_bytes (len bytes)));
          stream_from rounds file total_size target_bytes offset total_bytes (reached_eof || (total_size <=? offset)%N)
      end
  end.

Definition stream_file (file : Fd) (wanted : FilesystemReadStream) (total_size : N) : Io (N * N * bool) :=
  _ ↢ emit (FileMetadata (frs_offset wanted) total_size);
  stream_from rounds file total_size
    (N.min (frs_maximum_bytes wanted) (sat_sub total_size (frs_offset wanted)))
    (frs_offset wanted) 0 (total_size <=? frs_offset wanted)%N.

(** The thread of a stream. *)
Definition stream_worker (file : Fd) (wanted : FilesystemReadStream) (total_size : N) : Prog () :=
  streamed ⇐ stream_file file wanted total_size;
  match streamed with
  | Ok (end_offset, total_bytes, eof) =>
      match FilesystemStreamEvent_encode (FileComplete end_offset total_bytes eof) with
      | Ok payload => _ ⇐ ask (CompleteResource payload); Ret ()
      | Err _ => ask (FinishResource EInternal)
      end
  | Err error => ask (FinishResource error)
  end.

(** [ResourceBackend::open] up to its worker: the file, the request and the
    size it is started with. *)
Definition open_stream : Io (Fd * FilesystemReadStream * N) :=
  wanted ↢ lift (decode_and_authorize_stream request);
  scope ↢ lift filesystem_scope;
  binding ↢ lift (mount_root (frs_mount wanted));
  root ↢ open_bound_mount binding;
  file ↢ open_beneath read_os_error root (frs_path wanted) [O_RDONLY; O_NONBLOCK];
  metadata ↢ validate_regular_file read_os_error file (fr_maximum_file_bytes scope);
  total_size ↢ lift (u64_of (st_size metadata));
  pure (file, wanted, total_size).
End Requests.

(** ** What a run heard *)

Inductive Heard :=
| Names (name : option string)
| Looked (name : string) (answer : result Errno Stat)
| Got (offset : N) (answer : result Errno (list N))
| Sent (payload : list N).

Definition note (s : Syscall) : Answer s -> list Heard :=
  match s return Answer s -> list Heard with
  | Readdir _ => fun answer => [Names answer]
  | Fstatat _ name => fun answer => [Looked name answer]
  | Pread _ _ offset => fun answer => [Got offset answer]
  | EmitBuffered payload => fun answer => match answer with Ok _ => [Sent payload] | Err _ => [] end
  | _ => fun _ => []
  end.
(** Only calls that look, beneath the mount and without following links; the
    answers are any sane ones, and the run is noted. *)
Definition heard (s : Syscall) (log : list Heard) (Q : Answer s -> list Heard -> Prop) : Prop :=
  quiet s = true /\ forall a, sane s a -> Q a (log ++ note s a).
#[export] Instance heard_mono : Monotone heard.
Proof. intros s log P Q HPQ [Hs HP]. split; [done|]. intros a Ha. by apply HPQ, HP. Qed.
Abbreviation hears := (interpret heard).

(** Programs that note nothing. *)
Definition mute (s : Syscall) : bool :=
  match s with Readdir _ | Fstatat _ _ | Pread _ _ _ | EmitBuffered _ => false | _ => true end.
Fixpoint mutely {A} (p : Prog A) : Prop :=
  match p with
  | Ret _ => True
  | Panic | Starved => False
  | Call s k => quiet s = true /\ mute s = true /\ forall a, mutely (k a)
  end.
Lemma mutely_hears {A} (p : Prog A) log P (S : list Heard -> Prop) :
  mutely p -> (forall a, P a log) -> hears p log P S.
Proof.
  intros Hp HP. induction p as [a| | |s k IH]; cbn in *; [auto|done|done|]. destruct Hp as (Hq & Hm & Hk).
  split; [done|]. intros a _. assert (note s a = []) as -> by (destruct s; done). rewrite app_nil_r. by apply IH.
Qed.
Lemma mute_try {A B} (p : Io A) (f : A -> Io B) log P (S : list Heard -> Prop) :
  mutely p -> (forall e, P (Err e) log) -> (forall a, hears (f a) log P S) -> hears (try p f) log P S.
Proof.
  intros Hp HE Hf. apply interpret_pbind; [exact _|]. apply mutely_hears; [done..|]. intros [a|e]; [apply Hf|apply HE].
Qed.
Lemma mutely_pbind {A B} (p : Prog A) (f : A -> Prog B) : mutely p -> (forall a, mutely (f a)) -> mutely (pbind p f).
Proof.
  intros Hp Hf. induction p as [a| | |s k IH]; cbn in *; [done..|]. destruct Hp as (Hs & Hm & Hk).
  split; [done|]. split; [done|]. intros a. by apply IH.
Qed.
Lemma mutely_try {A B} (p : Io A) (f : A -> Io B) : mutely p -> (forall a, mutely (f a)) -> mutely (try p f).
Proof. intros Hp Hf. apply mutely_pbind; [done|]. by intros [a|e]. Qed.

Ltac muting := repeat first
  [ apply mutely_try; [|intros ?] | apply mutely_pbind; [|intros ?]
  | progress (unfold lift, pure, fail, ask; cbn [mutely quiet mute looks]) | split; [reflexivity|] | split | exact I | assumption
  | match goal with
    | |- mutely (match ?r with _ => _ end) => destruct r
    | |- mutely (let '_ := ?r in _) => destruct r
    | |- forall _, _ => intros ?
    end ].
Lemma check_cancelled_mutely : mutely check_cancelled.
Proof. unfold check_cancelled. muting. Qed.
Lemma descriptor_metadata_mutely e fd : mutely (descriptor_metadata e fd).
Proof. unfold descriptor_metadata. muting. Qed.
Lemma validate_regular_file_mutely e fd maximum : mutely (validate_regular_file e fd maximum).
Proof. apply mutely_try; [apply descriptor_metadata_mutely|]. intros metadata. unfold u64_of. muting. Qed.
Lemma bound_path_mutely b : mutely (bound_path b).
Proof.
  destruct b as [path|directory relative]; cbn [bound_path]; [exact I|].
  unfold standard_directory_root, validate_xdg_runtime_directory, descriptor_metadata, or_home, home. muting.
Qed.

Lemma open_bound_mount_hears b log P (S : list Heard -> Prop) :
  (forall r, (forall fd, r = Ok fd -> is_handle fd = true) -> P r log) -> hears (open_bound_mount b) log P S.
Proof.
  intros HP. apply mute_try; [apply bound_path_mutely|by intros e; apply HP|]. intros path.
  destruct (normalized_absolute_path path); cbn [negb]; [|by apply HP].
  unfold c_string. destruct (contains_byte path _); [by apply HP|]. cbn [lift try pbind]. split; [by apply bool_decide_true|].
  intros a Ha. cbn [note pbind interpret]. rewrite app_nil_r. destruct a as [fd|error]; cbn [map_err lift try pbind]; [|by apply HP].
  apply (mute_try (descriptor_metadata read_os_error fd)); [apply descriptor_metadata_mutely|by intros e; apply HP|].
  intros metadata. destruct (bool_decide _); cbn; apply HP; [|done]. intros fd' [= <-]. exact Ha.
Qed.
Lemma open_beneath_hears root path flags log P (S : list Heard -> Prop) :
  is_handle root = true -> (forall r, P r log) -> hears (open_beneath read_os_error root path flags) log P S.
Proof.
  intros Hr HP. unfold open_beneath, c_string. destruct (contains_byte path _); [apply HP|]. cbn [lift try pbind]. split.
  - destruct root as [|h]; [done|]. cbn. unfold elem_b. apply bool_decide_true, elem_of_app. right. right. left.
  - intros a _. cbn [note interpret]. rewrite app_nil_r. apply HP.
Qed.
(** Opening a file beneath a mount notes nothing. *)
Lemma place_hears {Identity A} (request : BackendRequest Identity) mount path flags (f : Fd -> Io A) log P (S : list Heard -> Prop) :
  (forall e, P (Err e) log) -> (forall fd, hears (f fd) log P S) ->
  hears (binding ↢ lift (mount_root request mount);
         root ↢ open_bound_mount binding;
         file ↢ open_beneath read_os_error root path flags; f file) log P S.
Proof.
  intros HE Hf. destruct (mount_root request mount) as [binding|e]; cbn [lift try pbind]; [|apply HE].
  apply interpret_pbind; [exact _|]. apply open_bound_mount_hears. intros [root|e] Hr; [|apply HE].
  apply interpret_pbind; [exact _|]. apply open_beneath_hears; [by apply Hr|]. intros [fd|e]; [apply Hf|apply HE].
Qed.

(** ** A part of a file *)

Lemma validate_regular_file_hears {A} e fd maximum (f : Stat -> Io A) log P (S : list Heard -> Prop) :
  (forall e, P (Err e) log) ->
  (forall metadata size, u64_of (st_size metadata) = Ok size -> (size <= maximum)%N -> hears (f metadata) log P S) ->
  hears (try (validate_regular_file e fd maximum) f) log P S.
Proof.
  intros HE Hf. split; [done|]. intros a _. cbn [note]. rewrite app_nil_r.
  destruct a as [metadata|error]; cbn [pbind map_err lift try]; [|apply HE].
  destruct (_ || _); cbn; [apply HE|]. destruct (u64_of _) as [size|] eqn:E; cbn; [|apply HE].
  destruct (maximum <? size)%N eqn:El; [apply HE|]. apply (Hf metadata size E). lia.
Qed.

(** What a read answers: the bytes of one call at the offset asked for, never
    more than asked. *)
Definition part_of (wanted : FilesystemReadFile) (maximum_file_bytes : N) (r : result BrokerErrorCode FilesystemFileChunk)
  (log : list Heard) : Prop :=
  match r with
  | Ok chunk =>
      log = [Got (frf_offset wanted) (Ok (ffc_bytes chunk))] /\ ffc_offset chunk = frf_offset wanted /\
      (len (ffc_bytes chunk) <= frf_maximum_bytes wanted)%N /\ (ffc_total_size chunk <= maximum_file_bytes)%N /\
      (ffc_eof chunk = true <-> ffc_total_size chunk <= sat_add64 (frf_offset wanted) (len (ffc_bytes chunk)))%N
  | Err _ => True
  end.
Lemma read_file_with_limit_hears {Identity} (request : BackendRequest Identity) wanted maximum :
  hears (read_file_with_limit request wanted maximum) [] (part_of wanted maximum) (fun _ => False).
Proof.
  apply place_hears; [done|]. intros file. apply validate_regular_file_hears; [done|]. intros metadata size Hu Hs.
  rewrite Hu. cbn [lift try pbind]. apply mute_try; [apply check_cancelled_mutely|done|]. intros [].
  destruct (i64_max <? _)%N; [done|]. split; [done|]. intros a Ha. cbn [note app pbind].
  destruct a as [bytes|error]; cbn [map_err lift try pbind]; [|done]. apply mute_try; [apply check_cancelled_mutely|done|].
  intros []. cbn [sane] in Ha. cbn. split; [done|]. split; [done|]. split; [done|]. split; [done|]. apply N.leb_le.
Qed.

(** ** Directories *)

(** What a listing shows of what it looked at. *)
Definition listing (scope : FilesystemReadScope) (device : N) (log : list Heard) : list FilesystemEntry :=
  omap (fun h => match h with Looked name (Ok metadata) => listed_entry scope device name metadata | _ => None end) log.
Definition names (log : list Heard) : list string :=
  omap (fun h => match h with Names name => name | _ => None end) log.
Definition looked (log : list Heard) : list string :=
  omap (fun h => match h with Looked name _ => Some name | _ => None end) log.

(** A scan looks at the names the directory gives, in their order, but for
    those it skips, and keeps what it may show: everything until the end of
    the directory, or what there was before too many names, or before one
    entry more than asked for. *)
Record scanned_to (scope : FilesystemReadScope) (device limit scanned : N) (before : list FilesystemEntry)
  (log : list Heard) (entries : list FilesystemEntry) (truncated : bool) : Prop := {
  st_looked : exists rest, List.filter (fun name => negb (skipped_name name)) (names log) = looked log ++ rest /\
    if truncated then length rest <= 1 else rest = [] /\ last log = Some (Names None);
  st_listed : exists extra, before ++ listing scope device log = entries ++ extra /\
    if truncated then (extra = [] /\ MAXIMUM_SCANNED_DIRECTORY_ENTRIES < scanned + len (names log) \/
                       length extra = 1%nat /\ len entries = limit)%N
    else extra = [];
  st_most : (len before <= limit -> len entries <= limit)%N;
}.

Section Scanning.
Context (scope : FilesystemReadScope) (device limit : N).

(** A name that is not shown is scanned over, with what was heard of it. *)
Lemma scanned_over name looks scanned before log entries truncated :
  looked looks = (if skipped_name name then [] else [name]) -> names looks = [] -> listing scope device looks = [] ->
  scanned_to scope device limit (scanned + 1) before log entries truncated ->
  scanned_to scope device limit scanned before (Names (Some name) :: looks ++ log) entries truncated.
Proof.
  intros Hl Hn Hs [(rest & Hlooked & Hr) (extra & Hlisted & He) Hm]. split; [| |done].
  - exists rest. unfold names, looked in *. cbn. rewrite !omap_app, Hn, Hl. cbn.
    destruct (skipped_name name); cbn; rewrite Hlooked; (split; [done|]); destruct truncated; [done| |done|];
      (destruct Hr as [-> Hlast]; split; [done|]); (destruct log; [done|]); rewrite app_comm_cons, last_app, Hlast; done.
  - exists extra. unfold listing, names in *. cbn. rewrite !omap_app, Hs, Hn. split; [done|].
    destruct truncated; [|done]. unfold len in *. cbn. destruct He as [[-> He]|He]; [left; split; [done|lia]|by right].
Qed.
Lemma scan_hears directory rounds scanned entries log :
  (MAXIMUM_SCANNED_DIRECTORY_ENTRIES < N.of_nat rounds + scanned)%N -> (scanned <= MAXIMUM_SCANNED_DIRECTORY_ENTRIES)%N ->
  hears (scan scope device directory limit rounds scanned entries) log
    (fun r log' => match r with
      | Ok (found, truncated) => exists l, log' = log ++ l /\ scanned_to scope device limit scanned entries l found truncated
      | Err _ => True end)
    (fun _ => False).
Proof.
  revert scanned entries log; induction rounds as [|rounds IH]; intros scanned entries log Hr Hm; cbn [scan]; [lia|].
  apply mute_try; [apply check_cancelled_mutely|done|]. intros []. split; [done|]. intros [name|] _; cbn [note pbind].
  2: { exists [Names None]. split; [done|]. split; [by exists []|exists []; by rewrite !app_nil_r|done]. }
  destruct (MAXIMUM_SCANNED_DIRECTORY_ENTRIES <? scanned + 1)%N eqn:Es.
  { exists [Names (Some name)]. split; [done|]. split; [|exists []; rewrite !app_nil_r|done].
    - eexists. split; [done|]. cbn. destruct (negb _); cbn; lia.
    - split; [done|]. left. split; [done|]. change (len (names [Names (Some name)])) with 1%N. lia. }
  assert (forall looks, looked looks = (if skipped_name name then [] else [name]) -> names looks = [] ->
    listing scope device looks = [] ->
    hears (scan scope device directory limit rounds (scanned + 1) entries) ((log ++ [Names (Some name)]) ++ looks)
    (fun r log' => match r with
      | Ok (found, truncated) => exists l, log' = log ++ l /\ scanned_to scope device limit scanned entries l found truncated
      | Err _ => True end) (fun _ => False)) as Hover.
  { intros looks H1 H2 H3. eapply interpret_mono; [exact _| | |apply IH; lia]; [|done]. intros [[found truncated]|e]; [|done].
    intros log' (l & -> & Hs). exists (Names (Some name) :: looks ++ l). split; [by rewrite <- !app_assoc|]. by apply scanned_over. }
  destruct (skipped_name name) eqn:Ek; [specialize (Hover []); rewrite app_nil_r in Hover; by apply Hover|].
  split; [done|]. intros [metadata|error] _; cbn [note pbind]; [|by apply Hover].
  destruct (listed_entry scope device name metadata) as [entry|] eqn:Ee.
  2: { apply Hover; [done|done|]. cbn. by rewrite Ee. }
  destruct (len entries =? limit)%N eqn:El.
  { exists [Names (Some name); Looked name (Ok metadata)]. split; [by rewrite <- app_assoc|]. split; [| |done].
    - exists []. cbn. rewrite Ek. split; [done|]. cbn. lia.
    - exists [entry]. cbn. rewrite Ee. split; [done|]. right. split; [done|lia]. }
  eapply interpret_mono; [exact _| | |apply IH; lia]; [|done]. intros [[found truncated]|e]; [|done].
  intros log' (l & -> & [(rest & H1 & H2) (extra & H3 & H4) H5]).
  exists (Names (Some name) :: Looked name (Ok metadata) :: l). split; [by rewrite <- !app_assoc|]. split.
  - exists rest. cbn. rewrite Ek. cbn. unfold names, looked in H1. cbn in H1. rewrite H1. split; [done|].
    destruct truncated; [done|]. destruct H2 as [-> H2]. split; [done|]. destruct l; [done|]. exact H2.
  - exists extra. cbn. rewrite Ee. unfold listing in H3. rewrite <- app_assoc in H3. split; [exact H3|].
    destruct truncated; [|done]. destruct H4 as [[-> H4]|H4]; [left; split; [done|]|by right].
    unfold len in *. cbn. unfold names in H4. lia.
  - intros Hl. apply H5. unfold len in *. rewrite length_app. cbn. lia.
Qed.
End Scanning.

(** C31: A listing ends without any rounds of its own, whatever is in the
    directory; it has at most the entries asked for, in the order of their
    names, of files and directories the scope shows; and when it is not marked
    as truncated, it shows every name of the directory that may be shown. *)
Theorem list_directory_lists {Identity} (request : BackendRequest Identity) wanted :
  hears (list_directory request wanted) []
    (fun r log => match r with
      | Ok found =>
          exists scope device shown, filesystem_scope request = Ok scope /\
            (len (fde_entries found) <= fld_maximum_entries wanted)%N /\
            fde_entries found ≡ₚ shown /\ shown `prefix_of` listing scope device log /\
            (NoDup (fe_name <$> shown) -> ascending (fe_name <$> fde_entries found)) /\
            (fde_truncated found = false ->
             shown = listing scope device log /\ last log = Some (Names None) /\
             looked log = List.filter (fun name => negb (skipped_name name)) (names log))
      | Err _ => True
      end)
    (fun _ => False).
Proof.
  unfold list_directory. destruct (filesystem_scope request) as [scope|]; cbn [lift try pbind]; [|done].
  destruct (mount_root request _) as [binding|e]; cbn [lift try pbind]; [|done].
  apply interpret_pbind; [exact _|]. apply open_bound_mount_hears. intros [root|e] Hr; [|done].
  apply mute_try; [apply descriptor_metadata_mutely|done|]. intros root_metadata. cbv zeta.
  apply interpret_pbind; [exact _|]. apply open_beneath_hears; [by apply Hr|]. intros [directory|e]; [|done].
  apply mute_try; [apply descriptor_metadata_mutely|done|]. intros metadata. destruct (negb _); [done|].
  split; [done|]. intros stream _. cbn [note app pbind]. destruct stream as [[]|e]; cbn [map_err lift try pbind]; [|done].
  eapply interpret_try; [exact _|apply scan_hears|done| |by intros]; [lia|lia|].
  intros [entries truncated] log (l & -> & [(rest & H1 & H2) (extra & H3 & H4) H5]). cbn [app] in *.
  exists scope, (st_dev metadata), entries. cbn [fde_entries fde_truncated fst snd].
  split; [done|]. split; [|split; [apply sort_by_perm|]].
  { unfold len in *. rewrite sort_by_perm. apply H5. cbn. lia. }
  split; [by exists extra|]. split; [apply sort_by_ascending|]. intros ->.
  destruct H2 as [-> H2]. rewrite !app_nil_r in *. by subst extra; rewrite app_nil_r in H3.
Qed.

(** ** Streams *)

Definition sent (log : list Heard) : list (list N) :=
  omap (fun h => match h with Sent payload => Some payload | _ => None end) log.
Definition interruptions (log : list Heard) : nat :=
  length (List.filter (fun h => match h with Got _ (Err EINTR) => true | _ => false end) log).
(** The calls answered with what [data] holds. *)
Definition agrees (data : list N) (log : list Heard) : Prop :=
  forall offset bytes, Got offset (Ok bytes) ∈ log -> bytes = take (length bytes) (drop (N.to_nat offset) data).

(** The events of chunks from [offset] on. *)
Fixpoint stream_events (offset : N) (chunks : list (list N)) : list FilesystemStreamEvent :=
  match chunks with
  | [] => []
  | chunk :: chunks => FileChunk offset chunk :: stream_events (offset + len chunk) chunks
  end.
Definition carries (log : list Heard) (events : list FilesystemStreamEvent) : Prop :=
  Ok <$> sent log = FilesystemStreamEvent_encode <$> events.

(** What was heard of a stream from [offset] on: chunks one after another,
    none empty or too long, together what the file holds there. *)
Record streamed (offset : N) (chunks : list (list N)) (log : list Heard) : Prop := {
  sd_carries : carries log (stream_events offset chunks);
  sd_chunks : Forall (fun chunk => 0 < len chunk <= MAX_FILE_STREAM_CHUNK_BYTES)%N chunks;
  sd_content : forall data, agrees data log ->
    concat chunks = take (length (concat chunks)) (drop (N.to_nat offset) data);
}.
Lemma streamed_nil offset log : sent log = [] -> streamed offset [] log.
Proof. intros Hs. split; [by unfold carries; rewrite Hs|constructor|done]. Qed.
Lemma streamed_quiet offset chunks log log' :
  sent log = [] -> streamed offset chunks log' -> streamed offset chunks (log ++ log').
Proof.
  intros Hs [H1 H2 H3]. split; [|done|].
  - unfold carries, sent in *. by rewrite omap_app, Hs.
  - intros data Ha. apply H3. intros o b Hin. apply Ha. by apply elem_of_app; right.
Qed.
Lemma streamed_cons offset chunk chunks payload log :
  FilesystemStreamEvent_encode (FileChunk offset chunk) = Ok payload ->
  (0 < len chunk <= MAX_FILE_STREAM_CHUNK_BYTES)%N ->
  streamed (offset + len chunk) chunks log ->
  streamed offset (chunk :: chunks) (Got offset (Ok chunk) :: Sent payload :: log).
Proof.
  intros He Hc [H1 H2 H3]. split; [|by constructor|].
  - unfold carries in *. cbn [sent omap list_omap stream_events fmap list_fmap] in *. rewrite He. f_equal. exact H1.
  - intros data Ha. cbn. rewrite length_app.
    pose proof (Ha offset chunk (list_elem_of_here _ _)) as Hchunk.
    assert (agrees data log) as Hl by (intros o b Hin; apply Ha; by do 2 right).
    apply H3 in Hl. rewrite <- take_take_drop, drop_drop, <- Hchunk. f_equal. rewrite Hl at 1. do 2 f_equal.
    unfold len. lia.
Qed.

Section Streaming.
Context (file : Fd) (total_size target : N).

Definition stream_post (offset done_ : N) (eof : bool) (log : list Heard) (r : result BrokerErrorCode (N * N * bool))
  (log' : list Heard) : Prop :=
  exists l chunks, log' = log ++ l /\ streamed offset chunks l /\
    match r with
    | Ok (end_, total, eof') =>
        end_ = (offset + len (concat chunks))%N /\ total = (done_ + len (concat chunks))%N /\ (total <= target)%N /\
        (eof' = false -> total = target /\ eof = false /\ (chunks = [] \/ end_ < total_size)%N)
    | Err _ => True
    end.

Lemma stream_stops offset done_ eof log e : stream_post offset done_ eof log (Err e) log.
Proof. exists [], []. rewrite app_nil_r. split; [done|]. split; [by apply streamed_nil|done]. Qed.
Lemma stream_ends offset done_ eof log : (done_ <= target)%N -> stream_post offset done_ eof log (Ok (offset, done_, true)) log.
Proof.
  intros Hd. exists [], []. rewrite app_nil_r. split; [done|]. split; [by apply streamed_nil|]. change (len (concat [])) with 0%N. split_and!; [lia|lia|lia|done].
Qed.
Lemma stream_heard offset done_ eof log quiet r log' :
  sent quiet = [] -> stream_post offset done_ eof (log ++ quiet) r log' -> stream_post offset done_ eof log r log'.
Proof.
  intros Hs (l & chunks & -> & Hl & Hr). exists (quiet ++ l), chunks. rewrite <- app_assoc. split; [done|].
  split; [by apply streamed_quiet|done].
Qed.
Ltac stops := cbn [interpret fail]; first [apply stream_stops | eapply stream_heard; [|apply stream_stops]; done].
Lemma stream_from_hears rounds offset done_ eof log :
  (done_ <= target)%N ->
  hears (stream_from rounds file total_size target offset done_ eof) log
    (stream_post offset done_ eof log)
    (fun log' => exists l, log' = log ++ l /\ rounds <= interruptions l + N.to_nat (target - done_)).
Proof.
  revert offset done_ eof log; induction rounds as [|rounds IH]; intros offset done_ eof log Hd; cbn [stream_from];
    (destruct (target <=? done_)%N eqn:E;
     [exists [], []; rewrite app_nil_r; split; [done|]; split; [by apply streamed_nil|];
      change (len (concat [])) with 0%N; split_and!; [lia|lia|lia|intros ->; split_and!; [lia|done|by left]]|]).
  { exists []. rewrite app_nil_r. cbn. split; [done|lia]. }
  apply mute_try; [apply check_cancelled_mutely|by intros e; apply stream_stops|]. intros []. cbv zeta.
  destruct (i64_max <? offset)%N; [stops|]. split; [done|]. intros answer Ha. cbn [note pbind].
  destruct answer as [bytes|error]; cbn [sane] in Ha.
  2: { destruct error; try stops.
       eapply interpret_mono; [exact _| | |by apply IH].
       - intros r log' Hp. eapply stream_heard; [|exact Hp]. done.
       - intros log' (l & -> & Hl). eexists. rewrite <- app_assoc. split; [done|]. cbn. unfold interruptions in *. lia. }
  destruct (len bytes =? 0)%N eqn:E0; [eapply stream_heard; [|by apply stream_ends]; done|].
  assert (0 < len bytes <= MAX_FILE_STREAM_CHUNK_BYTES)%N as Hb by lia.
  assert (len bytes <= target - done_)%N as Ht by lia.
  unfold emit. destruct (FilesystemStreamEvent_encode (FileChunk offset bytes)) as [payload|e] eqn:Ee;
    cbn [decoded lift try pbind map_err]; [|stops].
  split; [done|]. intros [[]|e] _; cbn [note pbind]; [|rewrite app_nil_r; stops].
  destruct (checked_add64 offset (len bytes)) as [next|] eqn:Eo; cbn [ok_or lift try pbind].
  2: { exists [Got offset (Ok bytes); Sent payload], [bytes]. rewrite <- app_assoc. split; [done|]. split; [|done].
       apply streamed_cons; [done|done|]. by apply streamed_nil. }
  apply checked_add64_Some in Eo as [_ ->].
  destruct (checked_add64 done_ (len bytes)) as [next|] eqn:Eo; cbn [ok_or lift try pbind].
  2: { exists [Got offset (Ok bytes); Sent payload], [bytes]. rewrite <- app_assoc. split; [done|]. split; [|done].
       apply streamed_cons; [done|done|]. by apply streamed_nil. }
  apply checked_add64_Some in Eo as [_ ->].
  eapply interpret_mono; [exact _| | |apply IH; lia].
  - intros r log' (l & chunks & -> & Hs & Hr). exists (Got offset (Ok bytes) :: Sent payload :: l), (bytes :: chunks).
    rewrite <- !app_assoc. split; [done|]. split; [by apply streamed_cons|]. destruct r as [[[e t] eof']|]; [|done].
    cbn. unfold len in *. rewrite length_app. destruct Hr as (-> & -> & Hl & Hf). split; [lia|]. split; [lia|]. split; [lia|].
    intros He. destruct (Hf He) as (H1 & H2 & H3). apply orb_false_iff in H2 as [-> H2]. split; [lia|]. split; [done|]. right.
    destruct H3 as [->|H3]; cbn; lia.
  - intros log' (l & -> & Hl). eexists. rewrite <- !app_assoc. split; [done|]. cbn. unfold interruptions in *. lia.
Qed.
End Streaming.

(** A stream tells its size first and then sends what the file holds from the
    offset on, in chunks one after another, at most as much as was asked for;
    unless it says it is at the end, it has sent all of that and the file goes
    on.  Its loop stops before [rounds] unless there were that many
    interruptions and bytes. *)
Theorem stream_file_streams rounds file wanted total_size :
  hears (stream_file rounds file wanted total_size) []
    (fun r log =>
      sent log = [] /\ is_ok r = false \/
      exists chunks,
        carries log (FileMetadata (frs_offset wanted) total_size :: stream_events (frs_offset wanted) chunks) /\
        (forall data, agrees data log ->
         concat chunks = take (length (concat chunks)) (drop (N.to_nat (frs_offset wanted)) data)) /\
        match r with
        | Ok (end_offset, total_bytes, eof) =>
            end_offset = (frs_offset wanted + total_bytes)%N /\ total_bytes = len (concat chunks) /\
            (total_bytes <= frs_maximum_bytes wanted)%N /\
            (eof = false -> total_bytes = frs_maximum_bytes wanted /\ end_offset < total_size)%N
        | Err _ => True
        end)
    (fun log => rounds <= interruptions log + N.to_nat (frs_maximum_bytes wanted)).
Proof.
  unfold stream_file, emit. destruct (FilesystemStreamEvent_encode (FileMetadata _ _)) as [payload|e] eqn:Ee;
    cbn [decoded lift try pbind map_err]; [|by left].
  split; [done|]. intros [[]|e] _; cbn [note app pbind]; [|by left].
  set (target := N.min _ _).
  eapply interpret_mono; [exact _| | |apply (stream_from_hears file total_size target); lia].
  - intros r log (l & chunks & -> & [H1 H2 H3] & Hr). right. exists chunks. split.
    + unfold carries in *. cbn. rewrite Ee. f_equal. exact H1.
    + split; [intros data Ha; apply H3; intros o b Hin; apply Ha; by apply elem_of_app; right|].
      destruct r as [[[e t] eof]|]; [|done]. destruct Hr as (-> & -> & Hl & Hf). unfold target, sat_sub in *.
      split_and!; [lia|lia|lia|]. intros He. destruct (Hf He) as (H4 & H5 & H6). destruct H6 as [->|H6]; [|lia].
      change (len (concat [])) with 0%N in *. lia.
  - intros log (l & -> & Hl). unfold interruptions, target in *. cbn. lia.
Qed.
