(* ===== verification/Upload.v ===== *)
(** * Upload: files written in chunks

    Models the uploads of [filesystem_write.rs] of
    [crates/touchbar-plugin-supervisor/src] over the system calls of [Posix]:
    opening one next to its target, writing its chunks into the temporary
    file, committing it, and what becomes of it when its handle is closed.
    The lock of an upload makes each command a step of its own; only the
    closing of the handle interleaves, so the code asks for it. *)

From Stdlib Require Import ZifyBool.
From S2P Require Import Prelude BTree Text Capability Grants Wire Protocol Lifecycle Executor Resources Payload SchemaFiles Web Address Files Posix Mutation Tree Memory MutationSpec Confine.
Import FilesWrite.

Inductive StreamOperation := StreamCreate | StreamReplace | StreamAppend.
#[export] Instance StreamOperation_eq_dec : EqDecision StreamOperation. Proof. solve_decision. Defined.

(** [up_committed] is the flag of [UploadShared]; its [closed] is what
    [HandleClosed] answers. *)
Record WriteUpload := {
  up_committed : bool;
  up_parent : Fd;
  up_temporary : Fd;
  up_temporary_name : string;
  up_target_name : string;
  up_expected_bytes : N;
  up_received_bytes : N;
  up_base_bytes : N;
  up_prefix_copied : bool;
  up_operation : StreamOperation;
  up_expected_target : option (Fd * Stat);
  up_scope : FilesystemWriteScope;
  up_mounts : list (string * FilesystemMountBinding);
}.
Definition with_received (u : WriteUpload) (received : N) : WriteUpload :=
  {| up_committed := up_committed u; up_parent := up_parent u; up_temporary := up_temporary u;
     up_temporary_name := up_temporary_name u; up_target_name := up_target_name u;
     up_expected_bytes := up_expected_bytes u; up_received_bytes := received; up_base_bytes := up_base_bytes u;
     up_prefix_copied := up_prefix_copied u; up_operation := up_operation u;
     up_expected_target := up_expected_target u; up_scope := up_scope u; up_mounts := up_mounts u |}.
Definition with_prefix_copied (u : WriteUpload) : WriteUpload :=
  {| up_committed := up_committed u; up_parent := up_parent u; up_temporary := up_temporary u;
     up_temporary_name := up_temporary_name u; up_target_name := up_target_name u;
     up_expected_bytes := up_expected_bytes u; up_received_bytes := up_received_bytes u; up_base_bytes := up_base_bytes u;
     up_prefix_copied := true; up_operation := up_operation u;
     up_expected_target := up_expected_target u; up_scope := up_scope u; up_mounts := up_mounts u |}.
Definition with_committed (u : WriteUpload) : WriteUpload :=
  {| up_committed := true; up_parent := up_parent u; up_temporary := up_temporary u;
     up_temporary_name := up_temporary_name u; up_target_name := up_target_name u;
     up_expected_bytes := up_expected_bytes u; up_received_bytes := up_received_bytes u; up_base_bytes := up_base_bytes u;
     up_prefix_copied := up_prefix_copied u; up_operation := up_operation u;
     up_expected_target := up_expected_target u; up_scope := up_scope u; up_mounts := up_mounts u |}.

(** A command leaves the upload changed, whether it succeeds or not. *)
Definition Command (A : Type) : Type := Prog (result BrokerErrorCode A * WriteUpload).
(** [?] where the upload is [u]. *)
Definition attempt {A B} (u : WriteUpload) (p : Io A) (f : A -> Command B) : Command B :=
  pbind p (fun r => match r with Ok a => f a | Err error => Ret (Err error, u) end).
Notation "x ↢ p 'at' u ; q" := (attempt u p (fun x => q)) (at level 20, p at level 100, u at level 100, q at level 200).

Section Requests.
Context {Identity : Type} (request : BackendRequest Identity) (rounds : nat).

(** [ResourceBackend::limits]. *)
Definition write_limits : option ResourceLimits :=
  if bool_decide (bk_capability request = FilesystemWriteV1)
     && (String.eqb (bk_operation request) "create-file-stream"
         || String.eqb (bk_operation request) "replace-file-stream"
         || String.eqb (bk_operation request) "append-file-stream")
  then Some {| reserved_buffered_bytes := MAX_FILE_WRITE_STREAM_CHUNK_BYTES; maximum_events_per_second := 2 |}
  else None.

Definition operation_of (operation : string) : option StreamOperation :=
  if String.eqb operation "create-file-stream" then Some StreamCreate
  else if String.eqb operation "replace-file-stream" then Some StreamReplace
  else if String.eqb operation "append-file-stream" then Some StreamAppend
  else None.

(** The target an upload expects to find when it commits, and the bytes its
    own come after. *)
Definition find_target (scope : FilesystemWriteScope) (operation : StreamOperation) (parent : Fd) (target_name : string)
  (expected_bytes : N) : Io (option (Fd * Stat) * N) :=
  match operation with
  | StreamCreate => pure (None, 0%N)
  | StreamReplace =>
      descriptor ↢ open_at_beneath os_error parent target_name [O_PATH];
      metadata ↢ validate_regular_file os_error descriptor (fw_maximum_file_bytes scope);
      pure (Some (descriptor, metadata), 0%N)
  | StreamAppend =>
      descriptor ↢ open_at_beneath os_error parent target_name [O_RDONLY; O_NONBLOCK];
      metadata ↢ validate_regular_file os_error descriptor (fw_maximum_file_bytes scope);
      base ↢ lift (u64_of (st_size metadata));
      size ↢ lift (ok_or EQuotaExceeded (checked_add64 base expected_bytes));
      if (fw_maximum_file_bytes scope <? size)%N then fail EQuotaExceeded
      else pure (Some (descriptor, metadata), base)
  end.

(** The upload [ResourceBackend::open] makes. *)
Definition open_upload : Io WriteUpload :=
  stream ↢ lift (authorize_filesystem_write_stream_begin_request request);
  scope ↢ lift (filesystem_scope request);
  operation ↢ lift (ok_or EInvalidRequest (operation_of (bk_operation request)));
  root ↢ open_mount request (fws_mount stream);
  opened ↢ open_parent root (fws_path stream);
  let '(parent, target_name) := opened in
  target ↢ find_target scope operation parent target_name (fws_expected_bytes stream);
  let '(expected_target, base_bytes) := target in
  temporary_name ↢ temporary_name rounds;
  temporary ↢ create_exclusive parent temporary_name;
  pure {| up_committed := false; up_parent := parent; up_temporary := temporary;
          up_temporary_name := temporary_name; up_target_name := target_name;
          up_expected_bytes := fws_expected_bytes stream; up_received_bytes := 0; up_base_bytes := base_bytes;
          up_prefix_copied := negb (bool_decide (operation = StreamAppend)); up_operation := operation;
          up_expected_target := expected_target; up_scope := scope;
          up_mounts := filesystem_mounts (bk_bindings request) |}.

(** [Drop]: what happens when nothing holds the upload any more. *)
Definition drop_upload (u : WriteUpload) : Prog () :=
  if up_committed u then Ret () else unlink (up_parent u) (up_temporary_name u).

Definition require_open_upload (u : WriteUpload) : Io () :=
  closed ⇐ ask HandleClosed;
  if closed || up_committed u then fail EUnavailable else pure ().

Definition authorize_command (u : WriteUpload) (resource_id : N) : result BrokerErrorCode StreamCommand :=
  authorize_filesystem_write_stream_command request resource_id
    (up_expected_bytes u) (up_received_bytes u) (up_scope u) (up_mounts u).

Definition prepare_stream_append (u : WriteUpload) : Command () :=
  if up_prefix_copied u then Ret (Ok (), u) else
  if negb (bool_decide (up_operation u = StreamAppend)) then Ret (Err EInternal, u) else
  target ↢ lift (ok_or EInternal (up_expected_target u)) at u;
  let '(descriptor, expected) := target in
  _ ↢ copy_exact rounds descriptor (up_temporary u) (up_base_bytes u) at u;
  after_copy ↢ descriptor_metadata os_error descriptor at u;
  if negb (same_precommit_snapshot expected after_copy) then Ret (Err EBackendFailed, u)
  else Ret (Ok (), with_prefix_copied u).

Definition write_upload_chunk (resource_id : N) (u : WriteUpload) : Command () :=
  _ ↢ require_open_upload u at u;
  command ↢ lift (authorize_command u resource_id) at u;
  match command with
  | Chunk chunk end_offset =>
      prepared ⇐ prepare_stream_append u;
      let '(prepared, u) := prepared in
      _ ↢ lift prepared at u;
      destination_offset ↢ lift (ok_or EQuotaExceeded (checked_add64 (up_base_bytes u) (fwc_offset chunk))) at u;
      _ ↢ pwrite_all_at rounds (up_temporary u) (fwc_bytes chunk) destination_offset at u;
      Ret (Ok (), with_received u end_offset)
  | Commit => Ret (Err EInvalidRequest, u)
  end.

(** Putting the temporary file in its place. *)
Definition place_upload (u : WriteUpload) (metadata : Stat) : Io () :=
  match up_operation u with
  | StreamCreate =>
      _ ↢ rename_at (up_parent u) (up_temporary_name u) (up_parent u) (up_target_name u) RENAME_NOREPLACE;
      committed ↢ metadata_at (up_parent u) (up_target_name u);
      if negb (same_file metadata committed)
      then roll_back (up_parent u) (up_target_name u) (up_parent u) (up_temporary_name u) EBackendFailed
      else pure ()
  | StreamReplace =>
      target ↢ lift (ok_or EInternal (up_expected_target u));
      exchange_and_remove (up_parent u) (up_temporary_name u) (up_target_name u) target.2 false
  | StreamAppend =>
      target ↢ lift (ok_or EInternal (up_expected_target u));
      exchange_and_remove (up_parent u) (up_temporary_name u) (up_target_name u) target.2 true
  end.

Definition commit_upload (resource_id : N) (u : WriteUpload) : Command FilesystemMutationResult :=
  _ ↢ require_open_upload u at u;
  command ↢ lift (authorize_command u resource_id) at u;
  match command with
  | Chunk _ _ => Ret (Err EInvalidRequest, u)
  | Commit =>
      _ ↢ check_cancelled at u;
      prepared ⇐ prepare_stream_append u;
      let '(prepared, u) := prepared in
      _ ↢ lift prepared at u;
      _ ↢ fdatasync (up_temporary u) at u;
      _ ↢ check_cancelled at u;
      closed ⇐ ask HandleClosed;
      if closed then Ret (Err ECancelled, u) else
      metadata ↢ validate_regular_file os_error (up_temporary u) (fw_maximum_file_bytes (up_scope u)) at u;
      resulting_size ↢ lift (ok_or EQuotaExceeded (checked_add64 (up_base_bytes u) (up_expected_bytes u))) at u;
      if negb (st_size metadata =? Z.of_N resulting_size)%Z then Ret (Err EBackendFailed, u) else
      _ ↢ place_upload u metadata at u;
      let u := with_committed u in
      _ ↢ sync_directory (up_parent u) at u;
      let receipt := receipt (up_expected_bytes u) (Some resulting_size) in
      _ ⇐ match FilesystemMutationResult_encode receipt with
          | Ok payload => _ ⇐ ask (CompleteResource payload); Ret ()
          | Err _ => Ret ()
          end;
      Ret (Ok receipt, u)
  end.

(** ** The backend *)

(** The uploads whose handles are open, by resource.  The other backends'
    state does not meet them. *)
Definition Uploads : Type := list (N * WriteUpload).

(** [ResourceBackend::open]. *)
Definition open (uploads : Uploads) (resource_id : N) : Prog (result BrokerErrorCode (list N) * Uploads) :=
  opened ⇐ open_upload;
  match opened with
  | Err error => Ret (Err error, uploads)
  | Ok upload =>
      if bt_contains resource_id uploads then _ ⇐ drop_upload upload; Ret (Err EInvalidRequest, uploads)
      else
        Ret (decoded (FilesystemWriteStreamOpened_encode
               {| fwo_resource_id := resource_id; fwo_maximum_chunk_bytes := MAX_FILE_WRITE_STREAM_CHUNK_BYTES |}),
             bt_insert resource_id upload uploads)
  end.

(** [ResourceHandle::close], when no command holds the upload. *)
Definition close (uploads : Uploads) (resource_id : N) : Prog Uploads :=
  match bt_get resource_id uploads with
  | None => Ret uploads
  | Some upload => _ ⇐ drop_upload upload; Ret (bt_remove resource_id uploads)
  end.

(** A command on the upload of a resource. *)
Definition on_upload {A} (uploads : Uploads) (resource_id : N) (command : WriteUpload -> Command A)
  : Prog (result BrokerErrorCode A * Uploads) :=
  match bt_get resource_id uploads with
  | None => Ret (Err EUnavailable, uploads)
  | Some upload =>
      done_ ⇐ command upload;
      let '(answer, upload) := done_ in
      Ret (answer, bt_insert resource_id upload uploads)
  end.

(** [authorize_upload_command]. *)
Definition authorize_upload_command (uploads : Uploads) : Io () :=
  if negb (bool_decide (bk_capability request = FilesystemWriteV1)) then fail EInvalidRequest else
  resource_id ↢ lift (if String.eqb (bk_operation request) FILESYSTEM_WRITE_STREAM_CHUNK_OPERATION
                      then chunk ← decoded (FilesystemWriteStreamChunk_decode (bk_payload request)); Ok (fwc_resource_id chunk)
                      else if String.eqb (bk_operation request) FILESYSTEM_WRITE_STREAM_COMMIT_OPERATION
                      then commit ← decoded (FilesystemWriteStreamCommit_decode (bk_payload request)); Ok (fwm_resource_id commit)
                      else Err EInvalidRequest);
  upload ↢ lift (ok_or EUnavailable (bt_get resource_id uploads));
  _ ↢ require_open_upload upload;
  lift (_ ← authorize_command upload resource_id; Ok ()).

(** [Backend::execute]. *)
Definition execute (uploads : Uploads) : Prog (result BrokerErrorCode (list N) * Uploads) :=
  cancelled ⇐ check_cancelled;
  match cancelled with
  | Err error => Ret (Err error, uploads)
  | Ok _ =>
      if String.eqb (bk_operation request) FILESYSTEM_WRITE_STREAM_CHUNK_OPERATION then
        match decoded (FilesystemWriteStreamChunk_decode (bk_payload request)) with
        | Err error => Ret (Err error, uploads)
        | Ok chunk =>
            done_ ⇐ on_upload uploads (fwc_resource_id chunk) (write_upload_chunk (fwc_resource_id chunk));
            let '(answer, uploads) := done_ in
            Ret (_ ← answer; Ok [], uploads)
        end
      else if String.eqb (bk_operation request) FILESYSTEM_WRITE_STREAM_COMMIT_OPERATION then
        match decoded (FilesystemWriteStreamCommit_decode (bk_payload request)) with
        | Err error => Ret (Err error, uploads)
        | Ok commit =>
            done_ ⇐ on_upload uploads (fwm_resource_id commit) (commit_upload (fwm_resource_id commit));
            let '(answer, uploads) := done_ in
            Ret (receipt ← answer; decoded (FilesystemMutationResult_encode receipt), uploads)
        end
      else
        answer ⇐ (mutation ↢ lift (decode_and_authorize request);
                  receipt ↢ mutate rounds request mutation;
                  lift (decoded (FilesystemMutationResult_encode receipt)));
        Ret (answer, uploads)
  end.
End Requests.
