(* ===== verification/UploadSpec.v ===== *)
(** * UploadSpec: an upload means what one mutation means

    Over a kernel that keeps its promises, the temporary file of an upload of
    [Upload] always starts with the file it appends to and the bytes received
    so far; committing it installs exactly these.  So an upload, however its
    bytes are cut into chunks, is a creation, a replacement or an appending
    of all of them at once. *)

From stdpp Require Import gmap.
From Stdlib Require Import ZifyBool.
From S2P Require Import Prelude BTree Text Capability Grants Wire Protocol Lifecycle Executor Payload SchemaFiles Web Address Files Posix Mutation Tree Memory MutationSpec Confine Upload.
Import FilesWrite.

Lemma write_at_over before content bytes :
  take (length before) content = before ->
  take (length (before ++ bytes)) (write_at (len before) bytes content) = before ++ bytes.
Proof.
  intros Hb. assert (length before <= length content) as Hl by (rewrite <- Hb, length_take; lia).
  unfold write_at, len. rewrite Nat2N.id. replace (length before - length content) with 0 by lia. cbn [replicate].
  rewrite app_nil_r, Hb, app_assoc. by apply take_app_length.
Qed.
Lemma take_prefix {A} (a b l : list A) : take (length (a ++ b)) l = a ++ b -> take (length a) l = a.
Proof.
  intros H. assert (take (length a) (take (length (a ++ b)) l) = a) as Hx by (rewrite H; by apply take_app_length).
  rewrite take_take, length_app, Nat.min_l in Hx by lia. done.
Qed.

Section Uploading.
Context (fs0 : Fs) (parent : Fd) (d : N) (dir : gmap string N) (tmp : string).
Hypothesis Hentry : entry_of fs0 parent d dir.
Hypothesis Hreserved : reserved tmp = true.
Abbreviation staged := (staged fs0 d dir tmp).

Lemma grows_staged' h i content fs fs' : grows fs fs' -> staged h i content fs -> staged h i content fs'.
Proof. intros Hg. by apply grows_staged. Qed.

(** Writing over what was written from some place on. *)
Lemma pwrite_over rounds h i bytes before content fs :
  staged h i content fs -> take (length before) content = before ->
  interpret promised (pwrite_all_at rounds (Handle h) bytes (len before)) fs
    (fun r fs' => exists content', staged h i content' fs' /\ take (length before) content' = before /\
      (r = Ok () -> take (length (before ++ bytes)) content' = before ++ bytes))
    (fun fs' => exists content', staged h i content' fs').
Proof.
  revert bytes before content fs; induction rounds as [|rounds IH]; intros bytes before content fs Hs Hb; cbn [pwrite_all_at].
  { destruct (len bytes =? 0)%N eqn:E; cbn [interpret]; exists content; [|done]. split; [done|]. split; [done|].
    intros _. destruct bytes; [by rewrite app_nil_r|rewrite len_cons in E; lia]. }
  destruct (len bytes =? 0)%N eqn:E.
  { exists content. split; [done|]. split; [done|]. intros _. destruct bytes; [by rewrite app_nil_r|rewrite len_cons in E; lia]. }
  assert (forall fs1 (e : BrokerErrorCode), staged h i content fs1 -> exists content', staged h i content' fs1 /\
    take (length before) content' = before /\ (@Err BrokerErrorCode () e = Ok () -> take (length (before ++ bytes)) content' = before ++ bytes)) as Hnone.
  { intros fs1 e Hs1. by exists content. }
  apply looks_try; [apply check_cancelled_looks|intros fs1 Hg; exists content; exact (grows_staged' _ _ _ _ _ Hg Hs)| |].
  { intros e fs1 Hg. apply Hnone. exact (grows_staged' _ _ _ _ _ Hg Hs). }
  intros [] fs1 Hg. apply (grows_staged' _ _ _ _ _ Hg) in Hs. clear Hg fs.
  destruct (i64_max <? len before)%N; [by apply Hnone|]. intros answer fs2 Hd.
  destruct answer as [count|error].
  - destruct Hd as (Hc & i' & data & Hh & Hi & ->). cbn in Hh.
    rewrite (sg_handle _ _ _ _ _ _ _ _ Hs) in Hh. injection Hh as <-.
    rewrite (staged_lookup _ _ _ _ _ _ _ _ Hs) in Hi. injection Hi as <-.
    pose proof (write_at_over _ _ (take (N.to_nat count) bytes) Hb) as Hw.
    pose proof (staged_write fs0 d dir tmp h i content (write_at (len before) (take (N.to_nat count) bytes) content)
      (fs_pos fs1) fs1 Hs) as H2. clear Hs. cbn [pbind]. destruct (count =? 0)%N; [eexists; split; [exact H2|]; split; [by eapply take_prefix|done]|].
    destruct (len bytes <? count)%N eqn:E1; [lia|].
    destruct (checked_add64 _ _) as [sum|] eqn:Ea; cbn [ok_or lift try pbind interpret fail];
      [|eexists; split; [exact H2|]; split; [by eapply take_prefix|done]].
    apply checked_add64_Some in Ea as [_ ->].
    replace (len before + count)%N with (len (before ++ take (N.to_nat count) bytes))
      by (rewrite len_app; unfold len in *; rewrite length_take; lia).
    eapply interpret_mono; [exact _| | |exact (IH _ _ _ _ H2 Hw)]; [|done].
    intros r fs3 (content' & H3 & Hp & Hr). exists content'. split; [done|]. split; [by eapply take_prefix|].
    intros Hok. specialize (Hr Hok). by rewrite <- app_assoc, take_drop in Hr.
  - cbn in Hd. subst fs2. destruct error; first [exact (IH _ _ _ _ Hs Hb) | exact (Hnone fs1 _ Hs)].
Qed.

(** Copying a file that was there over what was copied before. *)
Lemma copy_over rounds budget source j old h i before content offset fs :
  object fs0 source = Some j -> fs_data fs0 !! j = Some old ->
  staged h i content fs -> offset = len before -> before = take (length before) old -> take (length before) content = before ->
  interpret promised (copy_from rounds budget source (Handle h) (len old) offset) fs
    (fun r fs' => exists content', staged h i content' fs' /\ (r = Ok () -> take (length old) content' = old))
    (fun fs' => exists content', staged h i content' fs').
Proof.
  intros Ho Hj. revert before content offset fs; induction budget as [|budget IH]; intros before content offset fs Hs -> Hold Hb;
    cbn [copy_from].
  all: assert (len old <= len before -> take (length old) content = old)%N as Hend
    by (intros Hl; rewrite take_ge in Hold by (unfold len in *; lia); by rewrite <- Hold).
  { destruct (len old <=? len before)%N eqn:E; cbn [interpret]; exists content; [|done]. split; [done|]. intros _. apply Hend. lia. }
  destruct (len old <=? len before)%N eqn:E.
  { exists content. split; [done|]. intros _. apply Hend. lia. }
  assert (forall fs1 (e : BrokerErrorCode), staged h i content fs1 -> exists content', staged h i content' fs1 /\
    (@Err BrokerErrorCode () e = Ok () -> take (length old) content' = old)) as Hnone by (intros fs1 e Hs1; by exists content).
  apply looks_try; [apply check_cancelled_looks|intros fs1 Hg; exists content; exact (grows_staged' _ _ _ _ _ Hg Hs)| |].
  { intros e fs1 Hg. apply Hnone. exact (grows_staged' _ _ _ _ _ Hg Hs). }
  intros [] fs1 Hg. apply (grows_staged' _ _ _ _ _ Hg) in Hs. clear Hg fs. cbv zeta.
  destruct (i64_max <? len before)%N; [by apply Hnone|]. intros answer fs2 Hd. destruct answer as [bytes|error].
  - destruct Hd as (-> & j' & data & Hj' & Hd & Hlen & Hbytes).
    rewrite (staged_object _ _ _ _ _ _ _ _ _ _ Hs Ho) in Hj'. injection Hj' as <-.
    rewrite (staged_data _ _ _ _ _ _ _ _ _ _ Hs Hj) in Hd. injection Hd as <-. cbn [pbind].
    destruct (len bytes =? 0)%N; [by apply Hnone|]. destruct (COPY_BUFFER_BYTES <? len bytes)%N eqn:E1; [lia|].
    eapply interpret_try; [exact _|exact (pwrite_over rounds h i bytes before content fs1 Hs Hb)| | |].
    + done.
    + intros [] fs3 (content' & H3 & _ & Hr). specialize (Hr eq_refl).
      destruct (checked_add64 _ _) as [sum|] eqn:Ea; cbn [ok_or lift try pbind interpret fail]; [|by exists content'].
      apply checked_add64_Some in Ea as [_ ->]. apply (IH (before ++ bytes) content'); [done|by rewrite len_app| |done].
      rewrite Hold at 1. rewrite Hbytes at 1. rewrite length_app. unfold len. rewrite Nat2N.id. apply take_take_drop.
    + intros e fs3 (content' & H3 & _). by exists content'.
  - destruct Hd as [-> _]. destruct error; first [exact (IH _ _ _ _ Hs eq_refl Hold Hb) | exact (Hnone fs1 _ Hs)].
Qed.

Context (name : string).
Hypothesis Hname : reserved name = false.

(** An upload of [data] after [old], in its temporary file. *)
Record uploading (u : WriteUpload) (old data : list N) (fs : Fs) : Prop := {
  ul_parent : up_parent u = parent;
  ul_temporary : up_temporary_name u = tmp;
  ul_target : up_target_name u = name;
  ul_received : up_received_bytes u = len data;
  ul_base : up_base_bytes u = len old;
  ul_source : match up_operation u with
    | StreamAppend => exists source st j, up_expected_target u = Some (source, st) /\
        object fs0 source = Some j /\ fs_data fs0 !! j = Some old
    | _ => old = [] /\ up_prefix_copied u = true
    end;
  ul_staged : exists h i content, up_temporary u = Handle h /\ staged h i content fs /\
    if up_prefix_copied u then take (length (old ++ data)) content = old ++ data else data = [];
}.
Lemma grows_uploading u old data fs fs' : grows fs fs' -> uploading u old data fs -> uploading u old data fs'.
Proof.
  intros Hg [H1 H2 H3 H4 H5 H6 (h & i & content & H7 & Hs & Hc)]. split; try done. exists h, i, content.
  split; [done|]. split; [exact (grows_staged' _ _ _ _ _ Hg Hs)|done].
Qed.
Lemma uploading_kept u old data fs : uploading u old data fs -> kept fs0 fs.
Proof. intros [_ _ _ _ _ _ (h & i & content & _ & Hs & _)]. exact (staged_kept fs0 parent d dir tmp Hentry Hreserved h i content fs Hs). Qed.

Lemma attempt_looks {A B} u (p : Io A) (f : A -> Command B) fs P S :
  only_looks p -> (forall fs', grows fs fs' -> S fs') -> (forall e fs', grows fs fs' -> P (Err e, u) fs') ->
  (forall a fs', grows fs fs' -> interpret promised (f a) fs' P S) -> interpret promised (attempt u p f) fs P S.
Proof. intros Hp HS HE Hf. apply looks_then; [done..|]. intros [a|e] fs' Hg; [by apply Hf|by apply HE]. Qed.
Lemma attempt_then {A B} u (p : Io A) (f : A -> Command B) fs M P S :
  interpret promised p fs M S -> (forall a fs', M (Ok a) fs' -> interpret promised (f a) fs' P S) ->
  (forall e fs', M (Err e) fs' -> P (Err e, u) fs') -> interpret promised (attempt u p f) fs P S.
Proof. intros Hp Hf HE. eapply interpret_then; [exact _|exact Hp|]. intros [a|e] fs' HM; [by apply Hf|by apply HE]. Qed.

(** Still the same upload, of the same bytes. *)
Definition still (old data : list N) (w : WriteUpload) (u : WriteUpload) (fs : Fs) : Prop :=
  uploading u old data fs /\ (up_prefix_copied w = true -> u = w) /\
  up_expected_bytes u = up_expected_bytes w /\ up_committed u = up_committed w /\ up_scope u = up_scope w /\
  up_mounts u = up_mounts w /\ up_received_bytes u = up_received_bytes w /\ up_operation u = up_operation w.
Lemma still_same old data u fs : uploading u old data fs -> still old data u u fs.
Proof. by split. Qed.

Lemma prepare_promised rounds u old data fs :
  uploading u old data fs ->
  interpret promised (prepare_stream_append rounds u) fs
    (fun r fs' => still old data u r.2 fs' /\ (r.1 = Ok () -> up_prefix_copied r.2 = true))
    (kept fs0).
Proof.
  intros Hu. pose proof (uploading_kept _ _ _ _ Hu) as Hk. unfold prepare_stream_append.
  destruct (up_prefix_copied u) eqn:Ec; [by split; [apply still_same|]|].
  assert (forall fs' e, uploading u old data fs' -> still old data u u fs' /\ (@Err BrokerErrorCode () e = Ok () -> up_prefix_copied u = true)) as Hno.
  { intros fs' e Hu'. by split; [apply still_same|]. }
  destruct (bool_decide_reflect (up_operation u = StreamAppend)) as [Eo|Eo]; cbn [negb]; [|by apply Hno].
  destruct Hu as [H1 H2 H3 H4 H5 H6 (h & i & content & H7 & Hs & Hc)]. rewrite Eo in H6.
  destruct H6 as (source & st & j & Et & Hsource & Hold). rewrite Ec in Hc. subst data. rewrite Et. cbn [ok_or lift attempt pbind].
  rewrite H7, H5. unfold copy_exact.
  assert (forall content' fs', staged h i content' fs' -> uploading u old [] fs') as Hup.
  { intros content' fs' Hs'. split; try done; [rewrite Eo; by exists source, st, j|]. exists h, i, content'. by rewrite Ec. }
  eapply attempt_then; [eapply interpret_mono; [exact _| | |
      exact (copy_over rounds rounds source j old h i [] content 0 fs Hsource Hold Hs eq_refl eq_refl eq_refl)]| |].
  - intros r fs' H. exact H.
  - intros fs' (content' & Hs'). exact (staged_kept fs0 parent d dir tmp Hentry Hreserved h i content' fs' Hs').
  - intros [] fs1 (content' & Hs1 & Hr). specialize (Hr eq_refl).
    apply attempt_looks; [apply descriptor_metadata_looks| | |].
    + intros fs2 Hg. apply (uploading_kept u old []). apply (Hup content'). exact (grows_staged' _ _ _ _ _ Hg Hs1).
    + intros e fs2 Hg. apply Hno, (Hup content'). exact (grows_staged' _ _ _ _ _ Hg Hs1).
    + intros after fs2 Hg. apply (grows_staged' _ _ _ _ _ Hg) in Hs1. destruct (negb _); [by apply Hno, (Hup content')|].
      split; [|done]. split; [|by rewrite Ec]. split; try done; [cbn; rewrite Eo; by exists source, st, j|].
      exists h, i, content'. rewrite app_nil_r. by cbn.
  - intros e fs1 (content' & Hs1 & _). by apply Hno, (Hup content').
Qed.

Lemma authorized_chunk {Identity} (request : BackendRequest Identity) u id chunk end_ :
  authorize_command request u id = Ok (Chunk chunk end_) ->
  fwc_offset chunk = up_received_bytes u /\ end_ = (fwc_offset chunk + len (fwc_bytes chunk))%N.
Proof.
  unfold authorize_command, authorize_filesystem_write_stream_command. intros H. inv_ok.
  destruct (_ =? _) in H; [|destruct (_ =? _) in H; inv_ok; simplify_eq]. inv_ok. simplify_eq.
  apply orb_false_iff in Hok3 as [_ Hoff]. apply checked_add64_Some in Hok4 as [_ ->]. split; [lia|done].
Qed.

(** What a chunk leaves: the upload, and what it added to its bytes. *)
Definition chunk_post {Identity} (request : BackendRequest Identity) (id : N) (u : WriteUpload) (old data : list N)
  (r : result BrokerErrorCode () * WriteUpload) (fs : Fs) : Prop :=
  exists more, uploading r.2 old (data ++ more) fs /\ up_expected_bytes r.2 = up_expected_bytes u /\
    up_committed r.2 = up_committed u /\ up_operation r.2 = up_operation u /\
    match r.1 with
    | Ok _ => exists v chunk end_, authorize_command request v id = Ok (Chunk chunk end_) /\ more = fwc_bytes chunk
    | Err _ => more = []
    end.
Lemma chunk_fails {Identity} (request : BackendRequest Identity) id u w old data fs e :
  still old data u w fs -> chunk_post request id u old data (Err e, w) fs.
Proof. intros (Hu & _ & H1 & H2 & H3 & H4 & H5 & H6). exists []. cbn. by rewrite app_nil_r. Qed.

Lemma write_chunk_promised {Identity} (request : BackendRequest Identity) rounds id u old data fs :
  uploading u old data fs ->
  interpret promised (write_upload_chunk request rounds id u) fs (chunk_post request id u old data) (kept fs0).
Proof.
  intros Hu. unfold write_upload_chunk. apply attempt_looks.
  { unfold require_open_upload. apply only_looks_pbind; [by split|]. intros []; [done|]. by destruct (up_committed u). }
  { intros fs1 Hg. exact (uploading_kept _ _ _ _ (grows_uploading _ _ _ _ _ Hg Hu)). }
  { intros e fs1 Hg. apply chunk_fails, still_same, (grows_uploading _ _ _ _ _ Hg Hu). }
  intros _ fs1 Hg. apply (grows_uploading _ _ _ _ _ Hg) in Hu. clear Hg fs.
  destruct (authorize_command request u id) as [[chunk end_|]|e] eqn:Ea; cbn [lift attempt pbind];
    [|by apply chunk_fails, still_same|by apply chunk_fails, still_same].
  destruct (authorized_chunk _ _ _ _ _ Ea) as [Hoff ->].
  eapply interpret_then; [exact _|by apply prepare_promised|]. intros [prepared u2] fs2 [Hst Hp]. cbn [fst snd] in *.
  destruct prepared as [[]|e]; cbn [lift attempt pbind]; [|by apply chunk_fails]. specialize (Hp eq_refl).
  destruct (checked_add64 _ _) as [offset|] eqn:Eo; cbn [ok_or]; [|by apply chunk_fails].
  apply checked_add64_Some in Eo as [_ ->].
  pose proof Hst as (Hu2 & _ & He & Hc & _ & _ & Hr & Hop).
  destruct Hu2 as [H1 H2 H3 H4 H5 H6 (h & i & content & H7 & Hs & Hdata)]. rewrite Hp in Hdata.
  rewrite H7, H5, Hoff, <- Hr, H4, <- len_app.
  assert (forall content' fs', staged h i content' fs' -> take (length (old ++ data)) content' = old ++ data ->
    still old data u u2 fs') as Hsame.
  { intros content' fs' Hs' Hd'. split; [|by destruct Hst as [_ Hst]]. split; try done. exists h, i, content'. by rewrite Hp. }
  eapply attempt_then; [eapply interpret_mono; [exact _| | |exact (pwrite_over rounds h i (fwc_bytes chunk) _ content fs2 Hs Hdata)]| |].
  - intros r fs' H. exact H.
  - intros fs' (content' & Hs'). exact (staged_kept fs0 parent d dir tmp Hentry Hreserved h i content' fs' Hs').
  - intros [] fs3 (content' & Hs3 & _ & Hd3). specialize (Hd3 eq_refl). exists (fwc_bytes chunk).
    split; [|split; [done|split; [done|split; [done|by exists u, chunk, (fwc_offset chunk + len (fwc_bytes chunk))%N]]]].
    split; try done; [cbn; rewrite Hr, Hoff in *; rewrite len_app; lia|].
    exists h, i, content'. cbn. by rewrite Hp, app_assoc.
  - intros e fs3 (content' & Hs3 & Hd3 & _). apply chunk_fails. by eapply Hsame.
Qed.

Lemma authorized_commit {Identity} (request : BackendRequest Identity) u id :
  authorize_command request u id = Ok Commit -> up_received_bytes u = up_expected_bytes u.
Proof.
  unfold authorize_command, authorize_filesystem_write_stream_command. intros H. inv_ok.
  destruct (_ =? _) in H; [inv_ok; simplify_eq|]. destruct (_ =? _) in H; inv_ok; simplify_eq.
  apply orb_false_iff in Hok3 as [_ Hr]. lia.
Qed.

(** The name stands for [content] in a new file, where there was none for a
    creation and one for the others. *)
Definition placed (operation : StreamOperation) (content : list N) (fs : Fs) : Prop :=
  exists target, installed fs0 d dir target name content fs /\ (target = None <-> operation = StreamCreate).
Lemma grows_placed operation content fs fs' : grows fs fs' -> placed operation content fs -> placed operation content fs'.
Proof. intros Hg (target & Hi & Ht). exists target. split; [by eapply grows_installed|done]. Qed.
Abbreviation outcome E := (either fs0 E).

Lemma exchange_promised operation h i content fs expected unchanged :
  operation <> StreamCreate -> staged h i content fs ->
  interpret promised (exchange_and_remove parent tmp name expected unchanged) fs
    (settled fs0 (placed operation content)) (outcome (placed operation content)).
Proof.
  intros Hop Hs. destruct (dir !! name) as [j|] eqn:En.
  { assert (forall fs', installed fs0 d dir (Some j) name content fs' -> placed operation content fs') as Hput.
    { intros fs' Hi. exists (Some j). by split. }
    eapply interpret_mono; [exact _| | |by apply (exchange_and_remove_promised fs0 parent d dir tmp Hentry Hreserved name Hname h i)].
    - intros [u|e] fs' H; cbn [settled] in *; [by apply Hput|]. destruct H as [Hk|Hi]; [by left|right; by apply Hput].
    - intros fs' [Hk|Hi]; [by left|right; by apply Hput]. }
  unfold exchange_and_remove. apply interpret_pbind; [exact _|]. apply rename_at_promised. intros answer fs1 Hd.
  apply (exchange_arranged fs0 parent d dir Hentry _ _ _ _ _ _ _ (staged_arranged _ _ _ _ _ _ _ _ Hs)) in Hd.
  destruct answer as [u|error]; cbn [map_err].
  - destruct Hd as (i' & j & _ & Hj & _). rewrite lookup_insert_ne in Hj; congruence.
  - subst. by eapply (discard_staged fs0 parent d dir tmp Hentry Hreserved).
Qed.
Lemma place_upload_promised u old data h i fs metadata :
  uploading u old data fs -> staged h i (old ++ data) fs ->
  interpret promised (place_upload u metadata) fs
    (settled fs0 (placed (up_operation u) (old ++ data))) (outcome (placed (up_operation u) (old ++ data))).
Proof.
  intros [H1 H2 H3 H4 H5 H6 _] Hs. unfold place_upload. rewrite H1, H2, H3.
  destruct (up_operation u).
  2-3: destruct (up_expected_target u) as [[source st]|]; cbn [ok_or lift try pbind];
    [by eapply exchange_promised|left; exact (staged_kept fs0 parent d dir tmp Hentry Hreserved h i _ fs Hs)].
  pose proof (staged_arranged _ _ _ _ _ _ _ _ Hs) as Ha. pose proof (sg_unused _ _ _ _ _ _ _ _ Hs) as Hunused.
  apply interpret_pbind; [exact _|]. apply rename_at_promised. intros answer fs1 Hd.
  apply (rename_arranged fs0 parent d dir Hentry _ _ _ _ _ _ _ Ha) in Hd.
  destruct answer as [w|error]; cbn [map_err];
    [|rewrite Hd; left; exact (staged_kept fs0 parent d dir tmp Hentry Hreserved h i _ fs Hs)].
  destruct Hd as (i' & Hi' & Hfree & Hd). rewrite lookup_insert_eq in Hi'. injection Hi' as <-.
  rewrite lookup_insert_ne in Hfree by congruence.
  assert (forall fs', grows fs1 fs' -> placed StreamCreate (old ++ data) fs') as Hdone.
  { intros fs' Hg. exists None. split; [|done]. eexists _, _. split; [exact Hunused|]. split; [done|]. split; [exact (grows_arranged _ _ _ _ _ _ Hg Hd)|].
    by apply visible_entries. }
  apply looks_try; [apply metadata_at_looks|intros fs' Hg; right; by apply Hdone|intros e fs' Hg; right; by apply Hdone|].
  intros committed fs2 Hg. destruct (negb _); [|by apply Hdone]. pose proof (grows_arranged _ _ _ _ _ _ Hg Hd) as H7.
  unfold roll_back. apply interpret_pbind; [exact _|]. apply rename_at_promised. intros answer fs3 H8.
  apply (rename_arranged fs0 parent d dir Hentry _ _ _ _ _ _ _ H7) in H8.
  destruct answer as [w'|error]; cbn [map_err interpret fail]; [left|rewrite H8; right; by apply Hdone].
  destruct H8 as (i' & Hi' & _ & H8). rewrite lookup_insert_eq in Hi'. injection Hi' as <-.
  eapply (arranged_kept fs0 parent d dir Hentry); [exact H8| |].
  - rewrite visible_dir_insert, Hreserved, !visible_dir_delete, visible_entries, delete_insert_id, visible_dir_reserved; [done..| |done|done].
    unfold visible_dir. apply map_lookup_filter_None. by left.
  - intros k content Hk. by apply (unused_data fs0).
Qed.

(** What a commit leaves: on success every byte that was announced, after
    [old], under the name; otherwise that, or what was there. *)
Definition commit_post {A} (u : WriteUpload) (old data : list N) (r : result BrokerErrorCode A * WriteUpload) (fs : Fs) : Prop :=
  up_temporary_name r.2 = tmp /\
  match r.1 with
  | Ok _ => placed (up_operation u) (old ++ data) fs /\ up_expected_bytes u = len data
  | Err _ => outcome (placed (up_operation u) (old ++ data)) fs
  end.
Lemma commit_fails {A} u v old data fs e :
  uploading v old data fs -> commit_post (A:=A) u old data (Err e, v) fs.
Proof. intros Hu. split; [exact (ul_temporary _ _ _ _ Hu)|]. left. by eapply uploading_kept. Qed.

Lemma commit_upload_promised {Identity} (request : BackendRequest Identity) rounds id u old data fs :
  uploading u old data fs ->
  interpret promised (commit_upload request rounds id u) fs (commit_post u old data) (outcome (placed (up_operation u) (old ++ data))).
Proof.
  intros Hu. assert (forall v fs', uploading v old data fs' -> outcome (placed (up_operation u) (old ++ data)) fs') as Hleft.
  { intros v fs' Hv. left. by eapply uploading_kept. }
  unfold commit_upload. apply attempt_looks.
  { unfold require_open_upload. apply only_looks_pbind; [by split|]. intros []; [done|]. by destruct (up_committed u). }
  { intros fs1 Hg. by apply (Hleft u), (grows_uploading _ _ _ _ _ Hg). }
  { intros e fs1 Hg. by apply commit_fails, (grows_uploading _ _ _ _ _ Hg). }
  intros _ fs1 Hg. apply (grows_uploading _ _ _ _ _ Hg) in Hu. clear Hg fs.
  destruct (authorize_command request u id) as [[|]|e] eqn:Ea; cbn [lift attempt pbind]; [by apply commit_fails| |by apply commit_fails].
  apply authorized_commit in Ea. apply attempt_looks; [apply check_cancelled_looks| | |].
  { intros fs2 Hg. by apply (Hleft u), (grows_uploading _ _ _ _ _ Hg). }
  { intros e fs2 Hg. by apply commit_fails, (grows_uploading _ _ _ _ _ Hg). }
  intros _ fs2 Hg. apply (grows_uploading _ _ _ _ _ Hg) in Hu. clear Hg fs1.
  eapply interpret_then; [exact _|eapply interpret_mono; [exact _| | |by apply prepare_promised]| ].
  { intros r fs' H. exact H. }
  { intros fs' H. by left. }
  intros [prepared v] fs3 [(Hv & _ & He & _ & _ & _ & Hr & Hop) Hp]. cbn [fst snd] in *. clear Hu fs2.
  destruct prepared as [[]|e]; cbn [lift attempt pbind]; [|by apply commit_fails]. specialize (Hp eq_refl).
  apply attempt_looks; [apply fdatasync_looks| | |].
  { intros fs4 Hg. by apply (Hleft v), (grows_uploading _ _ _ _ _ Hg). }
  { intros e fs4 Hg. by apply commit_fails, (grows_uploading _ _ _ _ _ Hg). }
  intros _ fs4 Hg. apply (grows_uploading _ _ _ _ _ Hg) in Hv. clear Hg fs3.
  apply attempt_looks; [apply check_cancelled_looks| | |].
  { intros fs5 Hg. by apply (Hleft v), (grows_uploading _ _ _ _ _ Hg). }
  { intros e fs5 Hg. by apply commit_fails, (grows_uploading _ _ _ _ _ Hg). }
  intros _ fs5 Hg. apply (grows_uploading _ _ _ _ _ Hg) in Hv. clear Hg fs4.
  intros closed fs6 Hd. cbn in Hd. rewrite Hd. clear fs6 Hd. cbn [pbind]. destruct closed; [by apply commit_fails|].
  pose proof Hv as [H1 H2 H3 H4 H5 H6 (h & i & content & H7 & Hs & Hdata)]. rewrite Hp in Hdata.
  eapply attempt_then; [eapply interpret_mono; [exact _| | |apply (validate_regular_file_promised os_error (up_temporary v) _ fs5 i)]| |].
  { intros r fs6 H. exact H. }
  { intros fs6 Hg. by apply (Hleft v), (grows_uploading _ _ _ _ _ Hg). }
  { rewrite H7. exact (sg_handle _ _ _ _ _ _ _ _ Hs). }
  2: { intros e fs6 [Hg _]. by apply commit_fails, (grows_uploading _ _ _ _ _ Hg). }
  intros metadata fs6 [Hg Hm]. destruct (Hm metadata eq_refl) as (content' & Hc & Hsize). clear Hm.
  rewrite (staged_lookup _ _ _ _ _ _ _ _ Hs) in Hc. injection Hc as <-.
  apply (grows_uploading _ _ _ _ _ Hg) in Hv. apply (grows_staged' _ _ _ _ _ Hg) in Hs. clear Hg fs5.
  destruct (checked_add64 _ _) as [size|] eqn:Es; cbn [ok_or lift attempt pbind]; [|by apply commit_fails].
  apply checked_add64_Some in Es as [_ ->]. destruct (st_size metadata =? _)%Z eqn:E; cbn [negb]; [|by apply commit_fails].
  assert (len content = len (old ++ data)) as Hlen by (rewrite len_app, <- H5, <- H4; lia).
  assert (content = old ++ data) as ->.
  { rewrite <- Hdata, take_ge; [done|]. unfold len in *. lia. }
  unfold commit_post in *. rewrite <- Hop in *.
  eapply attempt_then; [by eapply place_upload_promised| |by intros e fs7 H; split].
  intros [] fs7 Hplaced. cbn [settled] in Hplaced.
  assert (forall fs', grows fs7 fs' -> placed (up_operation v) (old ++ data) fs') as Hgo.
  { intros fs' Hg. by eapply grows_placed. }
  apply attempt_looks; [apply sync_directory_looks|intros fs' Hg; right; by apply Hgo|intros e fs' Hg; split; [done|]; right; by apply Hgo|].
  intros _ fs8 Hg. apply looks_then.
  - destruct (FilesystemMutationResult_encode _); [by split|done].
  - intros fs9 Hg'. right. apply Hgo. by etransitivity.
  - intros _ fs9 Hg'. split; [done|]. split; [apply Hgo; by etransitivity|]. congruence.
Qed.
End Uploading.

(** ** From the opening to the commit *)

(** What an upload that was opened at [fs] for [path] stands on. *)
Definition begun {Identity} (request : BackendRequest Identity) (fs : Fs) (stream : FilesystemWriteStream)
  (u : WriteUpload) (fs' : Fs) : Prop :=
  exists fs0 d dir tmp name old,
    grows fs fs0 /\ located request fs (fws_mount stream) (fws_path stream) d name /\
    entry_of fs0 (up_parent u) d dir /\ reserved tmp = true /\ reserved name = false /\
    uploading fs0 (up_parent u) d dir tmp name u old [] fs' /\
    up_expected_bytes u = fws_expected_bytes stream /\ operation_of (bk_operation request) = Some (up_operation u) /\
    match up_operation u with
    | StreamAppend => exists j, dir !! name = Some j /\ fs_data fs !! j = Some old
    | _ => old = []
    end.

Lemma authorized_stream_name {Identity} (request : BackendRequest Identity) stream name :
  authorize_filesystem_write_stream_begin_request request = Ok stream -> file_name (fws_path stream) = Some name ->
  reserved name = false.
Proof.
  unfold authorize_filesystem_write_stream_begin_request. intros H Hn. inv_ok.
  repeat match goal with u : () |- _ => destruct u end. eapply validated_name; [|exact Hn]. simplify_eq. eassumption.
Qed.

Lemma find_target_promised scope operation parent path name d expected fs :
  object fs parent = Some d -> file_name path = Some name ->
  interpret promised (find_target scope operation parent name expected) fs
    (fun r fs' => grows fs fs' /\ forall target base, r = Ok (target, base) ->
      match operation with
      | StreamAppend => exists source st j old dir, target = Some (source, st) /\ base = len old /\
          fs_dirs fs !! d = Some dir /\ dir !! name = Some j /\ object fs' source = Some j /\ fs_data fs !! j = Some old
      | _ => base = 0%N
      end) (grows fs).
Proof.
  intros Hd Hn. destruct operation; cbn [find_target].
  - split; [done|]. intros target base [= <- <-]. done.
  - eapply promised_existing; [exact Hd|exact Hn|done|by intros e fs' Hg|]. intros fs1 dir j existing Hg1 Hdir Hj Ho.
    apply looks_try; [apply validate_regular_file_looks| | |].
    + intros fs2 Hg. by etransitivity.
    + intros e fs2 Hg. split; [by etransitivity|done].
    + intros metadata fs2 Hg. split; [by etransitivity|]. by intros target base [= <- <-].
  - eapply promised_existing; [exact Hd|exact Hn|done|by intros e fs' Hg|]. intros fs1 dir j existing Hg1 Hdir Hj Ho.
    eapply interpret_try; [exact _|by apply validate_regular_file_promised| | |].
    + intros fs2 Hg. by etransitivity.
    + intros metadata fs2 [Hg Hm]. destruct (Hm metadata eq_refl) as (old & Hold & Hsize). assert (grows fs fs2) by (by etransitivity).
      unfold u64_of. rewrite Hsize. destruct (0 <=? _)%Z; [|by split]. rewrite N2Z.id. cbn [lift try pbind].
      destruct (checked_add64 _ _) as [size|]; cbn [ok_or lift try pbind]; [|by split]. destruct (_ <? size)%N; [by split|].
      split; [done|]. intros target base [= <- <-]. exists existing, metadata, j, old, dir. split; [done|]. split; [done|].
      rewrite <- (gr_dirs _ _ Hg1), <- (gr_data _ _ Hg1). do 2 (split; [done|]). split; [|done]. exact (grows_object _ _ _ _ Hg Ho).
    + intros e fs2 [Hg _]. split; [by etransitivity|done].
Qed.

Lemma open_upload_promised {Identity} (request : BackendRequest Identity) rounds fs :
  interpret promised (open_upload request rounds) fs
    (fun r fs' => match r with
      | Ok u => exists stream, authorize_filesystem_write_stream_begin_request request = Ok stream /\ begun request fs stream u fs'
      | Err _ => grows fs fs'
      end)
    (grows fs).
Proof.
  unfold open_upload. destruct (authorize_filesystem_write_stream_begin_request request) as [stream|e] eqn:Ea;
    cbn [lift try pbind]; [|done].
  destruct (filesystem_scope request) as [scope|e]; cbn [lift try pbind]; [|done].
  destruct (operation_of _) as [operation|] eqn:Eop; cbn [ok_or lift try pbind]; [|done].
  apply promised_place; [done|done|]. intros parent name d fs1 Hg1 Hl Hd.
  pose proof (located_name _ _ _ _ _ _ Hl) as Hfile. pose proof (authorized_stream_name _ _ _ Ea Hfile) as Hname.
  eapply interpret_try; [exact _|by apply (find_target_promised _ _ _ (fws_path stream) _ d)| | |].
  { intros fs2 Hg. by etransitivity. }
  2: { intros e fs2 [Hg _]. by etransitivity. }
  intros [target base] fs2 [Hg2 Ht]. specialize (Ht target base eq_refl). assert (grows fs fs2) as Hg by (by etransitivity).
  eapply promised_stage; [exact (grows_object _ _ _ _ Hg2 Hd)| | |].
  1-2: intros; by etransitivity.
  intros fs0 dir tmp h i fs3 Hg0 He Htmp Hs Hpos. assert (grows fs fs0) as Hg' by (by etransitivity).
  cbn [interpret pure]. exists stream. split; [done|].
  assert (exists old, base = len old /\ (match operation with
    | StreamAppend => exists j, dir !! name = Some j /\ fs_data fs !! j = Some old
    | _ => old = [] end) /\ (match operation with
    | StreamAppend => exists source st j, target = Some (source, st) /\ object fs0 source = Some j /\ fs_data fs0 !! j = Some old
    | _ => old = [] /\ negb (bool_decide (operation = StreamAppend)) = true end)) as (old & -> & Hold & Hsource).
  { destruct operation; try by exists [].
    destruct Ht as (source & st & j & old & dir' & -> & -> & Hdir & Hj & Ho & Hdata). exists old. split; [done|].
    assert (dir' = dir) as ->.
    { destruct He as [_ He]. rewrite (gr_dirs _ _ Hg0), (gr_dirs _ _ Hg2), Hdir in He. by injection He. }
    split; [exists j; split; [done|by rewrite <- (gr_data _ _ Hg1)]|]. exists source, st, j. split; [done|].
    split; [exact (grows_object _ _ _ _ Hg0 Ho)|]. by rewrite (gr_data _ _ Hg0), (gr_data _ _ Hg2). }
  exists fs0, d, dir, tmp, name, old. cbn [up_parent up_operation up_expected_bytes]. do 5 (split; [done|]).
  split; [|done]. split; cbn; try done. exists h, i, []. split; [done|]. split; [done|]. rewrite app_nil_r.
  destruct operation; cbn; by destruct Hsource as [-> _] || done.
Qed.

Section Whole.
Context {Identity : Type} (begin commit : BackendRequest Identity) (chunks : list (BackendRequest Identity)).
Context (rounds : nat) (id : N).

Fixpoint send_chunks (chunks : list (BackendRequest Identity)) (u : WriteUpload) : Command () :=
  match chunks with
  | [] => Ret (Ok (), u)
  | chunk :: chunks =>
      sent ⇐ write_upload_chunk chunk rounds id u;
      match sent.1 with Ok _ => send_chunks chunks sent.2 | Err error => Ret (Err error, sent.2) end
  end.
(** What a client does that sends everything and commits; the handle is closed
    when something fails. *)
Definition upload_file : Io FilesystemMutationResult :=
  u ↢ open_upload begin rounds;
  sent ⇐ send_chunks chunks u;
  match sent.1 with
  | Err error => _ ⇐ drop_upload sent.2; fail error
  | Ok _ =>
      committed ⇐ commit_upload commit rounds id sent.2;
      match committed.1 with
      | Ok receipt => _ ⇐ drop_upload committed.2; pure receipt
      | Err error => _ ⇐ drop_upload committed.2; fail error
      end
  end.

Definition chunk_bytes (chunk : BackendRequest Identity) : list N :=
  match FilesystemWriteStreamChunk_decode (bk_payload chunk) with Ok chunk => fwc_bytes chunk | Err _ => [] end.
(** The mutation an upload stands for. *)
Definition uploaded (stream : FilesystemWriteStream) (operation : StreamOperation) (bytes : list N) : AuthorizedMutation :=
  let write := {| fwf_mount := fws_mount stream; fwf_path := fws_path stream; fwf_bytes := bytes |} in
  match operation with
  | StreamCreate => CreateFile write
  | StreamReplace => ReplaceFile write
  | StreamAppend => AppendFile write
  end.
Definition upload_intended (fs fs' : Fs) : Prop :=
  exists stream operation, authorize_filesystem_write_stream_begin_request begin = Ok stream /\
    operation_of (bk_operation begin) = Some operation /\
    intended begin fs (uploaded stream operation (concat (chunk_bytes <$> chunks))) fs'.

(** States that look the same. *)
Definition looks_like (fs fs' : Fs) : Prop := visible (fs_dirs fs') = visible (fs_dirs fs) /\ fs_data fs' = fs_data fs.
Lemma kept_looks_like fs fs1 fs2 : looks_like fs1 fs2 -> kept fs fs1 -> kept fs fs2.
Proof. intros [Hv Hd] [N D]. split; [congruence|]. by rewrite Hd. Qed.
Lemma writes_looks_like fs d dir name i content fs1 fs2 :
  looks_like fs1 fs2 -> writes fs d dir name i content fs1 -> writes fs d dir name i content fs2.
Proof. intros [Hv Hd] [D U N C K]. split; [done|done|congruence|by rewrite Hd|by rewrite Hd]. Qed.
Lemma upload_intended_looks_like fs fs1 fs2 : looks_like fs1 fs2 -> upload_intended fs fs1 -> upload_intended fs fs2.
Proof.
  intros Hl (stream & operation & Ha & Ho & Hi). exists stream, operation. split; [done|]. split; [done|].
  destruct operation; cbn in *.
  - destruct Hi as (d & dir & name & i & H1 & H2 & H3). exists d, dir, name, i. split; [done|]. split; [done|]. by eapply writes_looks_like.
  - destruct Hi as (d & dir & name & i & j & H1 & H2 & H3). exists d, dir, name, i, j. split; [done|]. split; [done|].
    by eapply writes_looks_like.
  - destruct Hi as (d & dir & name & i & j & old & H1 & H2 & H3 & H4). exists d, dir, name, i, j, old.
    do 3 (split; [done|]). by eapply writes_looks_like.
Qed.
Lemma unlink_looks_like fs parent tmp (answer : result Errno ()) fs' :
  reserved tmp = true -> documented fs (Unlinkat parent tmp) answer fs' -> looks_like fs fs'.
Proof.
  intros Ht Hd. destruct answer; [|by rewrite Hd]. destruct Hd as (d & dir & i & [_ Hdir] & _ & ->). split; [|done].
  cbn. rewrite visible_alter, Hdir, visible_dir_delete_reserved by done. apply insert_id. unfold visible.
  by rewrite lookup_fmap, Hdir.
Qed.
Lemma drop_upload_promised {A} u (r : result BrokerErrorCode A) fs P S :
  reserved (up_temporary_name u) = true -> (forall fs', looks_like fs fs' -> P r fs') ->
  interpret promised (_ ⇐ drop_upload u; Ret r) fs P S.
Proof.
  intros Ht HP. unfold drop_upload. destruct (up_committed u); [by apply HP|]. intros answer fs' Hd. apply HP.
  by eapply unlink_looks_like.
Qed.

Lemma send_chunks_promised l fs0 parent d dir tmp name u old data fs :
  entry_of fs0 parent d dir -> reserved tmp = true -> reserved name = false ->
  uploading fs0 parent d dir tmp name u old data fs ->
  interpret promised (send_chunks l u) fs
    (fun r fs' => exists more, uploading fs0 parent d dir tmp name r.2 old (data ++ more) fs' /\
      up_expected_bytes r.2 = up_expected_bytes u /\ up_operation r.2 = up_operation u /\
      (r.1 = Ok () -> more = concat (chunk_bytes <$> l)))
    (kept fs0).
Proof.
  intros He Ht Hn. revert u data fs; induction l as [|chunk l IH]; intros u data fs Hu; cbn [send_chunks].
  { exists []. by rewrite app_nil_r. }
  eapply interpret_then; [exact _|exact (write_chunk_promised fs0 parent d dir tmp He Ht name Hn chunk rounds id u old data fs Hu)|]. intros [[[]|e] u1] fs1 (more & H1 & H2 & H3 & H4 & H5); cbn [fst snd] in *.
  - eapply interpret_mono; [exact _| | |by apply IH]; [|done]. intros r fs2 (rest & H6 & H7 & H8 & H9). exists (more ++ rest).
    rewrite app_assoc. split; [done|]. split; [congruence|]. split; [congruence|]. intros Hok. rewrite (H9 Hok). cbn. f_equal.
    destruct H5 as (v & c & end_ & Ha & ->). unfold chunk_bytes. unfold authorize_command, authorize_filesystem_write_stream_command in Ha.
    inv_ok. destruct (_ =? _) in Ha; [|destruct (_ =? _) in Ha; inv_ok; simplify_eq]. inv_ok. simplify_eq.
    unfold decoded in *. by destruct (FilesystemWriteStreamChunk_decode _); cbn in *; simplify_eq.
  - exists []. subst more. by rewrite app_nil_r in *.
Qed.

Lemma placed_intended fs fs0 parent d dir name stream operation old data fs' :
  authorize_filesystem_write_stream_begin_request begin = Ok stream ->
  operation_of (bk_operation begin) = Some operation ->
  grows fs fs0 -> located begin fs (fws_mount stream) (fws_path stream) d name ->
  entry_of fs0 parent d dir -> reserved name = false ->
  match operation with StreamAppend => exists j, dir !! name = Some j /\ fs_data fs !! j = Some old | _ => old = [] end ->
  data = concat (chunk_bytes <$> chunks) ->
  placed fs0 d dir name operation (old ++ data) fs' -> upload_intended fs fs'.
Proof.
  intros Ha Ho Hg Hl He Hn Hold -> (target & Hi & Htarget). exists stream, operation. split; [done|]. split; [done|].
  eapply installed_writes in Hi as (Hd & i & Hw); [|done|apply He|done].
  destruct operation; cbn.
  - subst old. assert (target = None) as -> by (by apply Htarget). by exists d, dir, name, i.
  - subst old. destruct target as [j|]; [|by destruct Htarget as [H _]; specialize (H eq_refl)]. by exists d, dir, name, i, j.
  - destruct Hold as (j & Hj & Hold). by exists d, dir, name, i, j, old.
Qed.

Lemma upload_file_settles fs :
  interpret promised upload_file fs (settled fs (upload_intended fs)) (either fs (upload_intended fs)).
Proof.
  unfold upload_file. eapply interpret_try; [exact _|apply open_upload_promised| | |].
  { intros fs1 Hg. left. by apply grows_kept. }
  2: { intros e fs1 Hg. left. by apply grows_kept. }
  intros u fs1 (stream & Ha & fs0 & d & dir & tmp & name & old & Hg & Hl & He & Ht & Hn & Hu & Hexp & Hop & Hold).
  assert (forall fs', kept fs0 fs' -> kept fs fs') as Hk by (intros fs'; apply kept_trans; by apply grows_kept).
  eapply interpret_then; [exact _|eapply interpret_mono; [exact _| | |exact (send_chunks_promised chunks fs0 _ d dir tmp name u old [] fs1 He Ht Hn Hu)]|].
  { intros r fs' H. exact H. }
  { intros fs' H. left. by apply Hk. }
  intros [sent v] fs2 (data & H1 & H2 & H3 & H4). cbn [fst snd app] in *.
  destruct sent as [[]|e].
  2: { apply drop_upload_promised; [by rewrite (ul_temporary _ _ _ _ _ _ _ _ _ _ H1)|]. intros fs' Hlike. left. apply Hk.
       eapply kept_looks_like; [exact Hlike|]. by eapply uploading_kept. }
  specialize (H4 eq_refl).
  assert (forall fs', either fs0 (placed fs0 d dir name (up_operation v) (old ++ data)) fs' -> either fs (upload_intended fs) fs') as Hlift.
  { intros fs' [H|H]; [left; by apply Hk|right]. rewrite H3 in H. by eapply placed_intended. }
  eapply interpret_then; [exact _|eapply interpret_mono; [exact _| |exact Hlift|by eapply commit_upload_promised]|].
  { intros r fs' H. exact H. }
  intros [committed w] fs3 [Hw Hc]; cbn [fst snd] in *.
  destruct committed as [receipt|e]; apply drop_upload_promised; try congruence; intros fs' Hlike.
  - destruct Hc as [Hc _]. eapply upload_intended_looks_like; [exact Hlike|]. rewrite H3 in Hc. by eapply placed_intended.
  - destruct (Hlift _ Hc) as [Hkept|Hint]; [left; by eapply kept_looks_like|right; by eapply upload_intended_looks_like].
Qed.
End Whole.

(** C28: An upload over a kernel that keeps its promises, alone in the directory it
    changes, means what one mutation of all its bytes means: it never panics,
    whichever calls fail and wherever it is cancelled or closed; the visible
    names and contents are those there were, or exactly those of the creation,
    replacement or appending of the chunks together; success reports the
    latter. *)
Theorem upload_atomic {Identity W} `{PromisingKernel W} (begin commit : BackendRequest Identity)
  (chunks : list (BackendRequest Identity)) (rounds : nat) (id : N) (w : W) :
  let '(outcome, w') := run (upload_file begin commit chunks rounds id) w in
  outcome <> Panicked /\
  (kept (view w) (view w') \/ upload_intended begin chunks (view w) (view w')) /\
  (forall receipt, outcome = Done (Ok receipt) -> upload_intended begin chunks (view w) (view w')).
Proof.
  pose proof (promised_run _ w _ _ (upload_file_settles begin commit chunks rounds id (view w))) as Hr.
  destruct (run _ w) as [outcome w']. cbn [fst snd] in Hr.
  destruct outcome as [[receipt|error]| |]; cbn [settled] in Hr; [|split; [done|split; [exact Hr|done]]|done|].
  - split; [done|]. split; [by right|done].
  - split; [done|]. split; [exact Hr|done].
Qed.

(** Appending two chunks to [log] in memory. *)
Definition demo_begin : BackendRequest () :=
  demo_request "append-file-stream" (FilesystemWriteStream_encode {| fws_mount := "notes"; fws_path := "log"; fws_expected_bytes := 3 |}).
Definition demo_chunk (offset : N) (bytes : list N) : BackendRequest () :=
  demo_request FILESYSTEM_WRITE_STREAM_CHUNK_OPERATION
    (FilesystemWriteStreamChunk_encode {| fwc_resource_id := 7; fwc_offset := offset; fwc_bytes := bytes |}).
Definition demo_commit : BackendRequest () :=
  demo_request FILESYSTEM_WRITE_STREAM_COMMIT_OPERATION (FilesystemWriteStreamCommit_encode {| fwm_resource_id := 7 |}).
Definition demo_chunks : list (BackendRequest ()) := [demo_chunk 0 [4; 5]%N; demo_chunk 2 [6]%N].

Lemma upload_atomic_witness :
  let '(outcome, m) := run (upload_file demo_begin demo_commit demo_chunks 100 7) demo_memory in
  (exists receipt, outcome = Done (Ok receipt)) /\ demo_notes m = [("log", Some [1; 2; 3; 4; 5; 6]%N)] /\
  upload_intended demo_begin demo_chunks demo_files (mem_fs m).
Proof.
  pose proof (upload_atomic demo_begin demo_commit demo_chunks 100 7 demo_memory) as H.
  assert (exists receipt m, run (upload_file demo_begin demo_commit demo_chunks 100 7) demo_memory
    = (Done (Ok receipt), m) /\ demo_notes m = [("log", Some [1; 2; 3; 4; 5; 6]%N)]) as (receipt & m & E & Hn).
  { eexists _, _. split; [vm_compute; reflexivity|]. vm_compute. reflexivity. }
  rewrite E in *. destruct H as (_ & _ & H). split; [by exists receipt|]. split; [exact Hn|]. by apply (H receipt).
Defined.
