(* ===== verification/Meter.v ===== *)
(** * Meter: the loops of a mutation end

    The loops of [Mutation] go around again after an interrupted call, and
    after every call that made progress.  A kernel with a meter counts the
    interruptions; [rounds] beyond them and the bytes a request may hold are
    always enough. *)

From Stdlib Require Import ZifyBool.
From S2P Require Import Prelude BTree Text Capability Grants Wire Protocol Lifecycle Executor Payload SchemaFiles Web Address Files Posix Mutation Tree Memory MutationSpec Confine.
Import FilesWrite.

(** ** Interruptions *)

Definition is_interrupted {A} (answer : result Errno A) : bool :=
  match answer with Err EINTR => true | _ => false end.
Definition interrupted (s : Syscall) : Answer s -> bool :=
  match s return Answer s -> bool with
  | Getrandom _ => is_interrupted
  | Pread _ _ _ => is_interrupted
  | WriteCall _ _ => is_interrupted
  | Pwrite _ _ _ => is_interrupted
  | _ => fun _ => false
  end.

(** A kernel and the interruptions so far. *)
#[export] Instance metered_kernel {W} `{Kernel W} : Kernel (W * nat) := fun s w =>
  let '(answer, w') := kernel_call s w.1 in
  (answer, (w', if interrupted s answer then S w.2 else w.2)).

Definition metered (s : Syscall) (n : nat) (Q : Answer s -> nat -> Prop) : Prop :=
  forall a, sane s a -> Q a (if interrupted s a then S n else n).
#[export] Instance metered_mono : Monotone metered.
Proof. intros s n P Q HPQ HP a Hs. by apply HPQ, HP. Qed.

Lemma metered_run {W A} `{SaneKernel W} (p : Prog A) (w : W) P S :
  interpret metered p 0 P S ->
  match (run p (w, 0)).1 with
  | Done a => P a (run p (w, 0)).2.2 | Panicked => False | StarvedOut => S (run p (w, 0)).2.2 end.
Proof.
  intros Hp. destruct (interpret_run metered (fun v n => v.2 = n) p (w, 0) 0 P S) as (n & <- & Hr); [|done..].
  intros s [v m] ? Q <- Hs. unfold kernel_call at 1 2, metered_kernel. pose proof (kernel_sane s v) as Hsane. cbn [fst snd].
  destruct (kernel_call s v) as [a v']. cbn [fst snd] in *. eexists. split; [done|]. by apply Hs.
Qed.

Section Bounded.
(** [rounds] is short of the interruptions and [most] only in [short]. *)
Context (rounds most : nat).
Definition short (n : nat) : Prop := rounds <= n + most.

(** A program that goes on, from any number of interruptions, until it is
    done or [rounds] is short of them. *)
Definition bounded {A} (p : Prog A) : Prop := forall n, interpret metered p n (fun _ m => n <= m) short.

Lemma bounded_ret {A} (a : A) : bounded (Ret a).
Proof. intros n. cbn. lia. Qed.
Lemma bounded_then {A B} (p : Prog A) (f : A -> Prog B) : bounded p -> (forall a, bounded (f a)) -> bounded (pbind p f).
Proof.
  intros Hp Hf n. eapply interpret_then; [exact _|apply Hp|]. intros a m Hm. cbn in Hm.
  eapply interpret_mono; [exact _| |done|apply Hf]. cbn. lia.
Qed.
Lemma bounded_try {A B} (p : Io A) (f : A -> Io B) : bounded p -> (forall a, bounded (f a)) -> bounded (try p f).
Proof. intros Hp Hf. apply bounded_then; [done|]. intros [a|e]; [done|apply bounded_ret]. Qed.
Lemma bounded_or_unlink {A B} parent name (p : Io A) (f : A -> Io B) :
  bounded p -> (forall a, bounded (f a)) -> bounded (or_unlink parent name p f).
Proof.
  intros Hp Hf. apply bounded_then; [done|]. intros [a|e]; [done|]. intros n a _. cbn. lia.
Qed.
Lemma bounded_call {A} s (k : Answer s -> Prog A) : (forall a, sane s a -> bounded (k a)) -> bounded (Call s k).
Proof.
  intros Hk n a Hs. eapply interpret_mono; [exact _| |done|by apply Hk]. cbn. intros _ m.
  destruct (interrupted s a); lia.
Qed.

(** ** Loops *)

Lemma check_cancelled_bounded : bounded check_cancelled.
Proof. apply bounded_call. intros [] _; apply bounded_ret. Qed.
Lemma after_check {A} (f : () -> Io A) n P S :
  (forall e, P (Err e) n) -> interpret metered (f ()) n P S -> interpret metered (try check_cancelled f) n P S.
Proof. intros HE Hf a _. destruct a; cbn; [apply HE|exact Hf]. Qed.

Lemma write_all_meter r fd bytes n :
  interpret metered (write_all r fd bytes) n (fun _ m => n <= m) (fun m => r + n <= m + length bytes).
Proof.
  revert bytes n; induction r as [|r IH]; intros bytes n; cbn [write_all]; destruct (len bytes =? 0)%N eqn:E; try (cbn; lia).
  apply after_check; [cbn; lia|]. intros a Ha. destruct a as [count|error]; cbn [pbind interrupted is_interrupted] in *.
  - destruct (count =? 0)%N eqn:Ec; [cbn; lia|]. cbn [sane] in Ha. destruct (len bytes <? count)%N eqn:El; [lia|].
    eapply interpret_mono; [exact _| | |apply IH]; [done|]. cbn. intros m. rewrite length_drop. unfold len in *. lia.
  - destruct error; try (cbn; lia). eapply interpret_mono; [exact _| | |apply IH]; cbn; intros; lia.
Qed.
Lemma pwrite_all_at_meter r fd bytes offset n :
  interpret metered (pwrite_all_at r fd bytes offset) n (fun _ m => n <= m) (fun m => r + n <= m + length bytes).
Proof.
  revert bytes offset n; induction r as [|r IH]; intros bytes offset n; cbn [pwrite_all_at];
    destruct (len bytes =? 0)%N eqn:E; try (cbn; lia).
  apply after_check; [cbn; lia|]. destruct (_ <? offset)%N; [cbn; lia|].
  intros a Ha. destruct a as [count|error]; cbn [pbind interrupted is_interrupted] in *.
  - destruct (count =? 0)%N eqn:Ec; [cbn; lia|]. cbn [sane] in Ha. destruct (len bytes <? count)%N eqn:El; [lia|].
    destruct (checked_add64 _ _); cbn [ok_or lift try pbind]; [|cbn; lia].
    eapply interpret_mono; [exact _| | |apply IH]; [done|]. cbn. intros m. rewrite length_drop. unfold len in *. lia.
  - destruct error; try (cbn; lia). eapply interpret_mono; [exact _| | |apply IH]; cbn; intros; lia.
Qed.
Lemma copy_from_meter budget source fd size offset n :
  N.to_nat size <= most ->
  interpret metered (copy_from rounds budget source fd size offset) n (fun _ m => n <= m)
    (fun m => short m \/ budget + n <= m + N.to_nat (size - offset)).
Proof.
  intros Hsize. revert offset n; induction budget as [|budget IH]; intros offset n; cbn [copy_from];
    destruct (size <=? offset)%N eqn:E; try (cbn; lia).
  apply after_check; [cbn; lia|]. cbv zeta. destruct (_ <? offset)%N; [cbn; lia|].
  intros a Ha. destruct a as [bytes|error]; cbn [pbind interrupted is_interrupted] in *.
  - destruct (len bytes =? 0)%N eqn:Ec; [cbn; lia|]. cbn [sane] in Ha. destruct (COPY_BUFFER_BYTES <? len bytes)%N eqn:El; [lia|].
    eapply interpret_try; [exact _|apply pwrite_all_at_meter| |intros [] m Hm; cbn in Hm|by intros e m H].
    { cbn. intros m Hm. left. unfold short, len in *. lia. }
    destruct (checked_add64 _ _) as [next|] eqn:Ea; cbn [ok_or lift try pbind]; [|cbn; lia].
    apply checked_add64_Some in Ea as [_ ->].
    eapply interpret_mono; [exact _| | |apply IH]; cbn; [lia|].
    unfold len in *. intros m' [Hs|Hs]; [by left|right; lia].
  - destruct error; try (cbn; lia). eapply interpret_mono; [exact _| | |apply IH]; cbn; [lia|].
    intros m' [Hs|Hs]; [by left|right; lia].
Qed.

Lemma fill_random_meter r random n :
  interpret metered (fill_random r random) n (fun _ m => n <= m) (fun m => r + n <= m + (16 - length random)).
Proof.
  revert random n; induction r as [|r IH]; intros random n; cbn [fill_random]; destruct (16 <=? len random)%N eqn:E;
    unfold len in *; try (cbn; lia).
  intros a _. destruct a as [[|b bytes]|error]; cbn [pbind interrupted is_interrupted] in *; [cbn; lia| |].
  - eapply interpret_mono; [exact _| | |apply IH]; [done|]. cbn. intros m. rewrite length_app. cbn. lia.
  - destruct error; try (cbn; lia). eapply interpret_mono; [exact _| | |apply IH]; cbn; intros; lia.
Qed.

(** ** The mutations *)

Hypothesis Hname : 16 <= most.

Lemma temporary_name_bounded : bounded (temporary_name rounds).
Proof.
  apply bounded_try; [|intros; apply bounded_ret]. intros n.
  eapply interpret_mono; [exact _| | |apply fill_random_meter]; [done|]. cbn. unfold short. lia.
Qed.
Lemma write_all_bounded fd bytes : length bytes <= most -> bounded (write_all rounds fd bytes).
Proof. intros Hl n. eapply interpret_mono; [exact _| | |apply write_all_meter]; [done|]. unfold short. lia. Qed.
Lemma pwrite_all_at_bounded fd bytes offset : length bytes <= most -> bounded (pwrite_all_at rounds fd bytes offset).
Proof. intros Hl n. eapply interpret_mono; [exact _| | |apply pwrite_all_at_meter]; [done|]. unfold short. lia. Qed.
Lemma copy_exact_bounded source fd size : N.to_nat size <= most -> bounded (copy_exact rounds source fd size).
Proof.
  intros Hl n. eapply interpret_mono; [exact _| | |by apply copy_from_meter]; [done|]. cbn. unfold short. intros m [H|H]; [done|lia].
Qed.

Ltac bounding_with known := repeat first
  [ assumption | known | apply bounded_ret | apply check_cancelled_bounded | apply temporary_name_bounded
  | apply write_all_bounded; assumption | apply pwrite_all_at_bounded; assumption | apply copy_exact_bounded; assumption
  | apply bounded_or_unlink; [|intros ?] | apply bounded_try; [|intros ?] | apply bounded_then; [|intros ?]
  | progress (unfold lift, pure, fail, ask)
  | apply bounded_call; intros ? _
  | match goal with
    | |- bounded (match ?r with _ => _ end) => destruct r
    | |- bounded (let '_ := ?r in _) => destruct r
    | |- bounded (let _ := _ in _) => cbv zeta
    end ].
Ltac bounding := bounding_with fail.

Lemma open_mount_bounded {Identity} (request : BackendRequest Identity) mount : bounded (open_mount request mount).
Proof.
  unfold open_mount, open_bound_mount, bound_path, standard_directory_root, validate_xdg_runtime_directory,
    descriptor_metadata, or_home, home. bounding.
Qed.
Lemma open_parent_bounded root path : bounded (open_parent root path).
Proof. unfold open_parent, open_beneath, open_at_beneath. bounding. Qed.
Lemma open_at_beneath_bounded e root path flags : bounded (open_at_beneath e root path flags).
Proof. unfold open_at_beneath. bounding. Qed.
Lemma sync_directory_bounded fd : bounded (sync_directory fd).
Proof. unfold sync_directory. bounding. Qed.
Lemma exchange_and_remove_bounded parent tmp name expected unchanged :
  bounded (exchange_and_remove parent tmp name expected unchanged).
Proof. unfold exchange_and_remove, rename_at, metadata_at, unlink_checked, unlink. bounding. Qed.
(** A file that is not too large. *)
Lemma validated_bounded {A} e fd maximum (f : Stat -> Io A) :
  (forall metadata size, u64_of (st_size metadata) = Ok size -> (size <= maximum)%N -> bounded (f metadata)) ->
  bounded (try (validate_regular_file e fd maximum) f).
Proof.
  intros Hf. apply bounded_call. intros [metadata|error] _; cbn [pbind map_err lift try]; [|apply bounded_ret].
  destruct (_ || _); cbn; [apply bounded_ret|]. destruct (u64_of _) as [size|] eqn:E; cbn; [|apply bounded_ret].
  destruct (maximum <? size)%N eqn:El; [apply bounded_ret|]. apply (Hf metadata size E). lia.
Qed.

Section Requests.
Context {Identity : Type} (request : BackendRequest Identity) (scope : FilesystemWriteScope).
Hypothesis Hscope : filesystem_scope request = Ok scope.
Hypothesis Hmaximum : N.to_nat (fw_maximum_file_bytes scope) <= most.

Ltac mutating := bounding_with ltac:(first
  [ apply open_mount_bounded | apply open_parent_bounded | apply open_at_beneath_bounded
  | apply sync_directory_bounded | apply exchange_and_remove_bounded
  | apply validated_bounded; intros ? ? ? ?
  | progress (unfold write_and_sync, create_exclusive, descriptor_metadata, rename_at, metadata_at, fdatasync, unlink,
      unlink_checked, roll_back, failed_sync) ]).

Lemma create_file_bounded write :
  length (fwf_bytes write) <= most -> bounded (create_file rounds request write).
Proof. intros Hb. unfold create_file. mutating. Qed.
Lemma replace_file_bounded write :
  length (fwf_bytes write) <= most -> bounded (replace_file rounds request write).
Proof.
  intros Hb. unfold replace_file. rewrite Hscope. cbn [lift try pbind]. mutating.
Qed.
Lemma append_file_bounded write :
  length (fwf_bytes write) <= most -> bounded (append_file rounds request write).
Proof.
  intros Hb. unfold append_file. rewrite Hscope. cbn [lift try pbind]. apply bounded_try; [mutating|intros root].
  apply bounded_try; [mutating|intros [parent name]]. apply bounded_try; [mutating|intros existing].
  apply validated_bounded. intros metadata size Hu Hs. rewrite Hu. cbn [lift try pbind]. assert (N.to_nat size <= most) by lia. mutating.
Qed.
Lemma delete_file_bounded path : bounded (delete_file rounds request path).
Proof.
  unfold delete_file. rewrite Hscope. cbn [lift try pbind]. mutating.
Qed.
Lemma rename_file_bounded rename : bounded (rename_file request rename).
Proof.
  unfold rename_file. rewrite Hscope. cbn [lift try pbind]. mutating.
Qed.
Lemma create_directory_bounded path : bounded (create_directory request path).
Proof. unfold create_directory. mutating. Qed.

Lemma execute_mutation_bounded : bounded (execute_mutation rounds request).
Proof.
  unfold execute_mutation. apply bounded_try; [apply check_cancelled_bounded|intros _].
  destruct (decode_and_authorize request) as [mutation|error] eqn:H; cbn [lift try pbind]; [|apply bounded_ret].
  apply bounded_try; [|intros receipt; apply bounded_ret].
  unfold decode_and_authorize in H. inv_ok. unfold check_mutation in *.
  match goal with H : filesystem_scope request = Ok ?a |- _ =>
    lazymatch a with scope => fail | _ => assert (a = scope) as -> by congruence end end.
  destruct mutation; cbn [mutate]; inv_ok;
    [apply create_file_bounded|apply replace_file_bounded|apply append_file_bounded|apply delete_file_bounded
    |apply rename_file_bounded|apply create_directory_bounded]; unfold len in *; lia.
Qed.
End Requests.
End Bounded.

(** ** Every mutation ends *)

(** What a request may make a mutation read, write or name. *)
Definition request_bytes {Identity} (request : BackendRequest Identity) : nat :=
  match filesystem_scope request with
  | Ok scope => Nat.max 16 (N.to_nat (fw_maximum_file_bytes scope))
  | Err _ => 16
  end.

(** C30: Whatever the kernel answers, a mutation does not panic, and it ends with
    a result once its loops may take more rounds than there are interrupted
    calls and bytes in the largest file of its scope: no answer but endless
    interruptions keeps it from ending. *)
Theorem mutation_terminates {Identity W} `{SaneKernel W} (request : BackendRequest Identity) (rounds : nat) (w : W) :
  let '(outcome, (_, interruptions)) := run (execute_mutation rounds request) (w, 0) in
  outcome <> Panicked /\ (interruptions + request_bytes request < rounds -> exists result, outcome = Done result).
Proof.
  assert (interpret metered (execute_mutation rounds request) 0 (fun _ m => 0 <= m) (short rounds (request_bytes request))) as Hb.
  { unfold request_bytes. destruct (filesystem_scope request) as [scope|] eqn:Es.
    - refine (execute_mutation_bounded rounds _ _ request scope Es _ 0); lia.
    - unfold execute_mutation. apply bounded_try; [apply check_cancelled_bounded|intros _].
      unfold decode_and_authorize. rewrite Es. destruct (reject_if _ _); apply bounded_ret. }
  pose proof (metered_run _ w _ _ Hb) as Hr. clear Hb. rename Hr into Hb. destruct (run _ _) as [outcome [w' n]]. cbn [fst snd] in Hb.
  destruct outcome as [result| |]; [|done|]; (split; [done|]).
  - by exists result.
  - unfold short in Hb. lia.
Qed.

(** A kernel that keeps its promises is sane. *)
#[export] Instance promising_sane {W} `{PromisingKernel W} : SaneKernel W.
Proof.
  intros s w. pose proof (kernel_promises s w) as Hp. destruct (kernel_call s w) as [a w']. cbn [fst snd] in *.
  destruct s; cbn [documented sane] in *; try done; destruct a; try done; cbn [or_nothing] in Hp; unfold opens in *;
    naive_solver.
Qed.

(** The appending of [MutationSpec] with 101 rounds, enough for a scope of
    100 bytes. *)
Lemma mutation_terminates_witness :
  let '(outcome, (_, interruptions)) := run (execute_mutation 101 demo_append) (demo_memory, 0) in
  interruptions + request_bytes demo_append < 101 /\ exists result, outcome = Done result.
Proof.
  pose proof (mutation_terminates demo_append 101 demo_memory) as H.
  assert ((run (execute_mutation 101 demo_append) (demo_memory, 0)).2.2 + request_bytes demo_append < 101) as Hn
    by (vm_compute; lia).
  destruct (run _ _) as [outcome [m interruptions]]. cbn [snd] in Hn. destruct H as [_ H]. split; [exact Hn|]. by apply H.
Defined.
